(* ===== verification/_CoqProject ===== *)
-Q . S2P
Prelude.v
Status.v
View.v
Chrono.v
Database.v
WellFormed.v
Schema.v
Exec.v
Store.v
Waits.v
Claims.v
Runs.v
Task.v
Session.v
Recovery.v
Registry.v
CanonicalGraph.v
Tools.v
Lifecycle.v
Transact.v
Wire.v
Identity.v
Protocol.v
Coordinator.v
Coordination.v
CoordinatorProofs.v
CoordinatorTheorems.v
WireExample.v
DistributedExamples.v
Text.v
HostFiles.v
Workspace.v
Hunks.v
HostFacts.v
Patch.v
PatchTheorems.v
Search.v
SearchFacts.v
FileTools.v
WorkspaceExamples.v
AgentData.v
AgentWire.v
AgentWireFacts.v
Compaction.v
Replay.v
ReplayTheorems.v
Engine.v
CompactionFacts.v
EngineFacts.v
EngineAgreement.v
EngineRequests.v
EngineDrafts.v
EngineTools.v
EngineTheorems.v
EngineTrace.v
JournalFile.v
JournalTheorems.v
JournalSession.v
Resume.v
ResumeTheorems.v
Conversation.v
LineExample.v
AgentExamples.v
GraphDomain.v
GraphStore.v
GraphIndexStore.v
GraphMaintenance.v
GraphInvariant.v
GraphLifecycle.v
GraphTheorems.v
GraphSafety.v
GraphContents.v
GraphIndex.v
GraphIndexFacts.v
GraphIncremental.v
GraphQuery.v
GraphWalk.v
GraphPaging.v
GraphExamples.v
Examples.v
