(* ===== verification/Prelude.v ===== *)
(** * Ferrus, verified

    Ferrus coordinates coding agents.  A headquarters process launches
    executors and supervisors; every agent, the human and the headquarters act
    on one SQLite database, [ferrus.db], and on a few Markdown files per task.
    This library models five parts of the program and proves what the rest
    relies on:

    - the runtime state: who may work on which task, how often a task may
      fail, what a reviewer decided on, what survives a crash
      ([src/src/project.rs], [src/src/project/], the status types, the
      artifact store and the server tools that use them);
    - the coordinator of the distributed indexer: a durable queue of index
      jobs leased to workers ([src/src/distributed/coordinator_sqlite.rs]
      with its contracts);
    - the workspace of the native agent: reading, searching and patching
      files within limits, where the model's requests meet the disk
      ([src/src/nano/workspace.rs], [src/src/nano/workspace/]);
    - the sessions of the native agent: the engine that alternates between the
      model and the tools, the journal it writes ahead of every effect, its
      replay, the recovery of an interrupted run and the view of a running one
      ([src/src/nano/engine.rs], [engine/capacity.rs], [session.rs],
      [provider.rs], [compaction.rs], [journal.rs], [replay.rs], [resume.rs],
      [effect_recovery.rs], [conversation.rs], all under [src/src/nano/]);
    - the repository graph: the sidecar database that indexing fills and
      publishes snapshots in, its maintenance, the incremental indexing
      coordinator, and the queries agents ask ([index.rs], [store.rs],
      [index_store.rs], [maintenance.rs], [query.rs], [query_sqlite.rs] and
      [query_sqlite/], all under [src/src/repository_graph/]).

    ** The parts and their files

    Each file translates the functions of its sources under their own names;
    a definition that stands for part of a function is named after what that
    part does.

    The runtime state:

    - [Prelude] (this file): errors and the state-and-error monad that
      [anyhow::Result] code is written in, record update, machine integers,
      strings, SQL orderings, and the invariant-preservation calculus
      ([preserves], hint database [preserves]).
    - [Status]: [runtime_status.rs], [legacy_state.rs].
    - [View]: [RepositoryViewReference] of [project.rs], the identifiers of
      [repository_graph/domain.rs], the column encoding of [project/graph.rs].
    - [Chrono]: the part of the [chrono] crate the lease code relies on, as a
      class of operations ([Chrono]) with its laws ([ChronoLaws]); the lease
      deadline; an instance that computes ([DecimalChrono]).
    - [Database]: rows ([task_row], [run_row], [event_row], [prs_row]), the
      database [db], the [world] (database, clock, files), SQL statements,
      transactions, and the helpers of [project/database.rs].
    - [WellFormed]: the invariant [wf] and its preservation by statements.
    - [Schema]: [project/database/schema.rs] and the opening functions.
    - [Exec]: closed forms of the statements, used to run operations in proofs.
    - [Store]: [state/store.rs].
    - [Waits]: [project/task/waits.rs] and the question queues of
      [project/registry.rs].
    - [Claims]: [project/claims.rs], claims, leases and agent contexts.
    - [Runs]: [project/runs.rs] and the live-run queries of [project.rs].
    - [Task]: [project/task.rs].
    - [Session]: [project/claims/session.rs] and the supervisor half of
      [project/claims.rs].
    - [Recovery]: [project/runs/recovery.rs].
    - [Registry]: [project/registry/artifacts.rs], listings and the legacy
      migration of [project/registry.rs] and [project.rs].
    - [CanonicalGraph]: [project/graph.rs].
    - [Tools]: the handlers under [server/tools/], with their guards and the
      polling loops of the waiting tools.
    - [Lifecycle]: all state-changing operations and tool calls as one
      transition system.
    - [Examples]: concrete worlds at which the theorems' hypotheses hold.

    The index-job coordinator:

    - [Transact]: results with an error type of their own, transactions on a
      component's database.
    - [Wire]: JSON trees, the serde forms of structs and enums, and the
      interfaces to [serde_json], SHA-256 and the text of instants.
    - [Identity]: [distributed/identity.rs] and the identities it borrows.
    - [Protocol]: [distributed/protocol.rs], [distributed/coordinator.rs].
    - [Coordinator]: [distributed/coordinator_sqlite.rs] and its schema.
    - [Coordination]: the abstract job machine and the relation of its jobs to
      the rows; [CoordinatorProofs], [CoordinatorTheorems]: the proof that the
      operations refine it, and what callers may rely on.
    - [WireExample], [DistributedExamples]: concrete interfaces, scenarios.

    The native agent's workspace:

    - [Text]: [str] as its UTF-8 bytes, with the standard library's searching,
      splitting and slicing, panics included.
    - [HostFiles]: the file system and [workspace/fs.rs], [workspace/unix.rs];
      [HostFacts]: what they do to the tree a reader sees.
    - [Workspace]: [nano/workspace.rs] without searching and editing, and what
      paging returns.
    - [Hunks], [Patch]: [workspace/patch.rs]; [PatchTheorems]: what a patch
      does to the tree.
    - [Search]: searching; [SearchFacts]: its bounds and results.
    - [FileTools]: argument decoding, execution, recorded effects, and what an
      outcome says about the files.
    - [WorkspaceExamples]: concrete files and interfaces.

    The native agent's sessions:

    - [AgentData]: the data of [session.rs], [provider.rs] and [tools.rs], and
      of the preparations in [working_set.rs] and [compaction.rs];
      [AgentWire]: their serde forms; [AgentWireFacts]: records parse back.
    - [Compaction]: [compaction.rs] and the application of a preparation;
      [CompactionFacts]: projections are conversations.
    - [Replay]: [replay.rs]; [ReplayTheorems]: what a journal that replays
      looks like.
    - [Engine]: [engine.rs] and [engine/capacity.rs], in a monad with early
      ends ([eng]) against the classes [Peers] and [Journal]; [EngineFacts]:
      the laws [PeersLaws] and [JournalLaws], and postconditions ([post]);
      [EngineAgreement], [EngineRequests], [EngineDrafts], [EngineTools]: every
      step keeps the engine and the replay of its journal in agreement;
      [EngineTheorems]: whole sessions; [EngineTrace]: the order of records and
      effects.
    - [JournalFile]: [journal.rs]; [JournalTheorems]: quotas, recovery,
      checkpoints; [JournalSession]: the file journal is an instance
      of the engine's [Journal] and meets [JournalLaws], so the theorems about
      sessions hold on files.
    - [Resume]: [resume.rs], [effect_recovery.rs] and the command states of
      [commands.rs]; [ResumeTheorems]: what a recovery settles.
    - [Conversation]: [conversation/projection.rs] and the reader of
      [conversation.rs], and what the view shows.
    - [LineExample]: a printer and parser of one-line JSON; [AgentExamples]:
      concrete sessions, journals and recoveries.

    The repository graph:

    - [GraphDomain]: the facts of [domain.rs] and [ports.rs] with their serde
      forms.
    - [GraphStore]: the tables of [sqlite.rs] as the record [sidecar], facts as
      columns, and [store.rs]: builds, snapshots, publication.
    - [GraphIndexStore]: [index_store.rs], [diagnostics_sqlite.rs].
    - [GraphMaintenance]: [maintenance.rs]: refresh leases, recovery of
      interrupted builds, retention.
    - [GraphIndex]: [index.rs], against the source, the extractors and the
      resolver as interfaces ([Analyzers]).
    - [GraphQuery]: [query.rs], [query_sqlite.rs] and [query_sqlite/].
    - [GraphInvariant], [GraphLifecycle]: the invariant [sidecar_ok] and what
      each operation does to it; [GraphTheorems], [GraphSafety]: every sequence
      of operations ([graph_op]); [GraphContents]: what was committed reads
      back; [GraphIndexFacts], [GraphIncremental]: runs of the coordinator;
      [GraphWalk], [GraphPaging]: what queries answer.
    - [GraphExamples]: a small repository at which the hypotheses hold.

    The layers depend downwards.  In the runtime state, operations call the
    statements of [Database] and open the database through [Schema]; [Runs] uses the contexts of
    [Claims]; [Session] runs operations of [Task] and [Claims] behind a fence;
    [Recovery] and [Registry] use [Runs], [Waits] and [Task]; [Tools] composes
    operations and files into what an agent calls; [Lifecycle] composes them
    all.  The coordinator's rows hold the wire forms of [Protocol], which are
    built from those of [Identity]; the proofs about it go through
    [Coordination] only.  [FileTools] dispatches to [Workspace], [Search] and
    [Patch], which reach the disk through [HostFiles] only.  The engine calls
    [Compaction] and commits records through [Journal]; the journal accepts a
    record when [Replay] does; [Resume] reads a journal with [JournalFile],
    asks [Patch] for digests and appends through the same journal;
    [Conversation] follows the file with the same replay.  The indexing
    coordinator writes the sidecar through [GraphStore] and [GraphIndexStore];
    queries read what those wrote, which [GraphWalk] shows to be readable.

    ** How the code is represented

    - An operation is a function [world → result A * world].  [?] is bind,
      [bail!] and [ensure!] are [bail] and [ensure]; a violated primary or
      foreign key is [SqlConstraint]; a panic inside [spawn_blocking], which
      the caller sees as an error and which rolls back the transaction, is
      [Panicked].
    - [transaction] keeps the changes of a body that returned [Ok] and restores
      the database otherwise; the clock and the files keep what happened.
      Operations that use no transaction change the database statement by
      statement, and what came before a failing statement stays.
    - Connections are sequential: operations do not overlap, as SQLite's write
      lock ensures for single transactions.  Operations made of several
      transactions also occur as their parts in [Lifecycle].
    - A table is a finite map from the primary key, the event table a list with
      the AUTOINCREMENT counter.  [ORDER BY] sorts with the comparison of the
      query; a query without it uses the order of the map.  Columns that an
      older schema lacks are tracked in [d_columns].
    - Time is [w_clock] in nanoseconds.  Each [Utc::now()] consumes the next
      element of [w_ticks], a difference of any sign, so clocks may run
      backwards.  Timestamps are stored as text, as the code stores them, and
      parsed back.
    - Counters are read with [as u32] and incremented modulo 2^32 (the release
      profile); a lease lifetime goes through [as i64].
    - The operating system is the class [Env]: whether a process is alive,
      [canonicalize], whether a write succeeds, the own pid.  git's exit
      status, directory listings, the decoded [STATE.json], the task template
      and the publish callback of a rejection are arguments.
    - Loops that are not structural have fuel: [migrate_loop] runs with 5 for
      four migrations and [migration_loop_terminates] shows that more makes no
      difference; [reserve_loop] runs with one more round than there are tasks
      and [reserved_id_is_fresh] shows that the first round succeeds.
    - A waiting tool is given its rounds: the time elapsed at each check and
      what others do to the world during each sleep.  [wait_tools_return] shows
      that rounds covering the configured timeout are enough.
    - The server's configuration and task binding are the class [Server]; the
      verdict of the check commands and the refresh of a task's overlay are
      arguments of [check].
    - The coordinator has its own error type, kept as a value; each operation
      is one immediate transaction that an error rolls back.  The instant of a
      request is an argument.  [JsonText], [Sha256] and [TimeText] are the
      crates it uses, with the laws it needs (parsing undoes printing, a
      digest has 32 bytes).
    - The workspace runs against the class [Host]: before every system call
      other processes may change the file system, every call may fail, and the
      agent may be stopped at every point where the code looks.  Theorems about
      searching hold for every host.  Theorems about what a patch or a tool
      call did to the files are for hosts where nobody else writes
      ([Quiet]), with all failures and stops; files the agent stages under its
      reserved names are not part of the compared tree.  [Uppercase] is
      Unicode's mapping, [JsonSize] the length of compact JSON.
    - [search_loop] has one round per requested path and allowed directory
      entry; [search_is_bounded] shows that it always answers within them.  A
      reading client gets one page per line and one more;
      [paging_reads_the_file] shows that this is enough.
    - The engine is a function of its state whose outcomes are a value, the
      end of the session, or exhausted fuel.  The provider, the tools, the host
      and the frontend are the class [Peers], on a state that is all theirs: a
      request that was interrupted is [None].  [PeersLaws] is what their
      contracts in [provider.rs] and [tools.rs] say (a usage is a [u64], an
      effect plan is valid, a tool announces an end only with the outcome that
      confirms it, error values fit the output limit).  The clock and the
      cancellation flag are read at numbered moments.
    - [drive] runs one round more than the session's limit on model turns;
      streams are read until their bytes exceed the limit on responses;
      waiting for input has the fuel [patience].  [session_is_replayed] shows
      that no session runs out of it when [patience] covers the moments before
      the deadline.
    - A float is an abstract value whose text is the class [FloatText].  Token
      and byte counts saturate or wrap as the [u64] arithmetic of the code does.
    - The journal's storage is the class [Device]: any write may arrive in
      part, any placement may leave a temporary file or the file itself, any
      truncation may fail.  [scan_lines] has one round per byte and one more;
      [recovery_finds_the_journal] shows that this is enough.  [JsonLines]:
      compact JSON has no line break.  [JsonView] is the streaming decoder the
      view uses for the first message.
    - A poll of the view reads at most 64 lines, as in the code.  What recovery
      reads in the database and the run directory is the record [observed].
    - The sidecar is a record of finite maps, one per table, with the [CHECK],
      [UNIQUE] and [FOREIGN KEY] constraints written out; an operation is a
      transaction that an error rolls back.  Readings of the clocks are
      arguments.  [Lowercase] is Unicode's mapping.
    - A query is a function of one sidecar.  Its deadline is the class
      [Deadline]: the answers to the moments at which the code looks at the
      time or a statement may be interrupted, in order.  SQLite's [LIKE] is
      the function [like].  The walk of a context has one round more than it
      may have candidates ([walk_fuel]); [context_is_shortest_paths] shows
      that it always finishes within them.  The walk of a neighborhood has a
      round per root and per result ([near_fuel]); [near_fuel_enough] shows
      that more make no difference.  A client that follows the cursors of a
      search gets a page per hit and one more; [search_pages_are_all_hits]
      shows that this is enough.

    ** What is proved

    - The whole system ([Lifecycle]): every world reachable by any sequence of
      operations, successful or not, is well formed; the event log is
      append-only; a graph refresh that raced with an invalidation is dropped.
    - Claims and leases ([Claims], [Chrono]): what each claim answers and
      changes in every case, exclusion of other agents for exactly the lease's
      lifetime, the choice of the next task, renewal; and that a lifetime out
      of range panics instead of saturating.
    - Transitions and budgets ([Task]): retry limit, review cycle, dispatch
      budget, atomic submission; and that a cleared spec path comes back while
      legacy metadata exists.
    - Waiting ([Waits]): consultations and human questions are round trips,
      the queue is first-in first-out, a failed answer is rolled back.
    - Runs and sessions ([Runs], [Session]): shared-workspace exclusion, the
      life of a run, exclusive consultation attachment, the session fence,
      fenced review decisions, resumption of executor work.
    - Server tools ([Tools]): no tool acts on a task under somebody else's
      lease; an answer reaches the agent that asked, whatever happens in
      between; waiting tools return.
    - Recovery ([Recovery]): exactly the dead runs and dead leases are
      recovered, as many as the preview announces; worktrees in use are kept.
    - Task artifacts ([Registry]): fresh ids, all-or-nothing enqueueing without
      duplicate milestones, one-time retirement of the legacy task.
    - Graph state ([CanonicalGraph], [View]): refreshes are recorded once,
      views are compared and swapped, retention covers what is in use, views
      and their columns determine each other.
    - Schema ([Schema], [Status]): opening migrates every earlier version
      without touching data, terminates, refuses newer versions; status text
      and status determine each other.
    - Coordinator ([CoordinatorTheorems], [Protocol]): any sequence of requests
      is a run of the abstract job machine; a worker without the current lease
      changes nothing; a lost answer is replayed; leases are numbered without
      gaps and bounded by the attempts; the oldest waiting job is served;
      finished jobs are final; stored records parse back to themselves.
    - Workspace edits ([Hunks], [PatchTheorems], [FileTools]): line hunks
      are the bottom-up application of each hunk; exact replacement needs a
      unique occurrence; a patch carries out a prefix of the request and
      reports it; a call reported as failed changed nothing.
    - Workspace reading ([Workspace], [SearchFacts]): paging returns the whole
      file; searching ends within every limit, and its hits occur where it
      says.
    - Sessions ([EngineTheorems], [EngineTrace], [JournalSession]): a session
      always answers, and its journal replays to the end, the budget and the
      conversation it reported, on any lawful journal and on files that fail
      at any moment; it stays within its limits on turns, calls and retries;
      every tool call and every request follows its record.
    - Replay ([ReplayTheorems], [CompactionFacts]): effects are resolved once and in order, the budget is the exact sum of what the
      records charge, the conversation consists of whole groups, and a
      shortened conversation is one again.
    - Journal ([JournalTheorems]): recovery after any crash finds every
      confirmed record and at most the one whose write had failed; quotas hold
      whatever happens; every checkpoint verifies.
    - Recovery of a run ([ResumeTheorems]): the call it reconciles is the one
      replay has pending; a patch is taken for done only by its digests; an
      interrupted run is always settled; the next run starts only when no
      effect and no command is in doubt.
    - View ([Conversation]): the reader follows the journal and shows the end
      of the conversation, in bounded and harmless text; and it stops at the
      longest record the journal accepts.
    - Sidecar ([GraphTheorems], [GraphSafety], [GraphContents]): no sequence of
      operations corrupts it; a published view only moves forward; stored facts
      never change and read back as committed; retention keeps what a view, a
      protection or a running build needs; recovery interrupts exactly the
      builds nobody owns.
    - Indexing ([GraphIndexFacts], [GraphIncremental]): a run publishes its
      snapshot or leaves the views as they were, with its build closed; the
      fragment cache holds results of extraction only, and an incremental run
      computes the graph of a full one.
    - Queries ([GraphWalk], [GraphPaging]): a context is the bounded
      breadth-first search of the stored graph; a search finds exactly the
      nodes that contain its text, and its pages together are its hits.

    ** What is not modelled

    SQLite's own I/O errors and lock timeouts, file-system errors of the
    runtime state other than failed writes, the project registration under the
    home directory, the doctor report, spec archiving, the [submit] and
    [approve] tools (git patches and merges) and the read-only query tools.  Of
    the distributed indexer, the encrypted stores, publication, the query API,
    maintenance and the worker.  Of the native agent,
    the Windows file system of [workspace/windows.rs], the JSON schemas of the
    tool descriptors, provider protocols, the MCP client, command processes and
    their spools' writers, role policies, permission checks of private files,
    the previews and deltas sent to the frontend, the collection of evidence in
    [working_set.rs], the database reads and the note of [recover_previous],
    the input writer and the thread of the conversation view.  Of
    the repository graph, the extractors over tree-sitter and Cargo manifests,
    cross-file resolution, discovery of files and the runtime around them: they
    are known by their interfaces.  The headquarters, project memory, agent
    backends, configuration and the command line: terminal input and output,
    processes, full-text search and formatting around the parts above. *)
From stdpp Require Export base tactics option list gmap strings sorting relations.
From stdpp Require Import pretty.
From Stdlib Require Export Ascii ZArith Lia.

Declare Scope ferrus_scope.
Delimit Scope ferrus_scope with ferrus.
#[global] Open Scope string_scope.
#[global] Open Scope Z_scope.
#[global] Open Scope ferrus_scope.

(** ** Errors and the state-and-error monad

    [anyhow::bail!] and [anyhow::ensure!] carry a format string and its
    arguments; a violated SQLite constraint and a panic inside
    [spawn_blocking] (which the caller sees as a [JoinError]) are the other
    ways an operation fails. *)
Inductive error : Type :=
  | Bail (fmt : string) (args : list string)
  | SqlConstraint (what : string)
  | Panicked (what : string).

#[global] Instance error_eq_dec : EqDecision error.
Proof. solve_decision. Defined.

Inductive result (A : Type) : Type :=
  | Ok (a : A)
  | Err (e : error).
Arguments Ok {A} a.
Arguments Err {A} e.

Definition is_ok {A} (r : result A) : bool :=
  match r with Ok _ => true | Err _ => false end.

#[global] Instance result_ret : MRet result := @Ok.
#[global] Instance result_bind : MBind result := λ A B f r,
  match r with Ok a => f a | Err e => Err e end.
#[global] Instance result_fmap : FMap result := λ A B f r,
  match r with Ok a => Ok (f a) | Err e => Err e end.

(** The state survives an error: a statement that was executed before the
    failing one stays executed unless a transaction rolls it back. *)
Definition st (S A : Type) : Type := S → result A * S.

#[global] Instance st_ret S : MRet (st S) := λ A a s, (Ok a, s).
#[global] Instance st_bind S : MBind (st S) := λ A B f m s,
  match m s with
  | (Ok a, s') => f a s'
  | (Err e, s') => (Err e, s')
  end.
#[global] Instance st_fmap S : FMap (st S) := λ A B f m s,
  match m s with
  | (Ok a, s') => (Ok (f a), s')
  | (Err e, s') => (Err e, s')
  end.

Definition fail {S A} (e : error) : st S A := λ s, (Err e, s).
Definition bail {S A} (fmt : string) (args : list string) : st S A := fail (Bail fmt args).
Definition ensure {S} (b : bool) (fmt : string) (args : list string) : st S unit :=
  if b then mret tt else bail fmt args.
Definition gets {S A} (f : S → A) : st S A := λ s, (Ok (f s), s).
Definition modify {S} (f : S → S) : st S unit := λ s, (Ok tt, f s).
Definition lift_result {S A} (r : result A) : st S A := λ s, (r, s).
(** [result.unwrap_or_default()]-style recovery: the error is dropped, the
    effects stay ([..._best_effort] wrappers log and continue). *)
Definition best_effort {S A} (m : st S A) : st S (option A) := λ s,
  match m s with
  | (Ok a, s') => (Ok (Some a), s')
  | (Err _, s') => (Ok None, s')
  end.

(** [if let Err(err) = m { handler }] *)
Definition catch {S A} (m : st S A) (handler : error → st S A) : st S A := λ s,
  match m s with
  | (Ok a, s') => (Ok a, s')
  | (Err e, s') => handler e s'
  end.

Fixpoint for_each {S A} (f : A → st S unit) (l : list A) : st S unit :=
  match l with
  | [] => mret tt
  | x :: l => f x ;; for_each f l
  end.

Definition run {S A} (m : st S A) (s : S) : result A * S := m s.

(** ** Record update: [r <| field := v |>]

    A record type registers its eta expansion; the setter of a projection is
    then derived by abstracting that projection in the expansion. *)
Class Eta (R : Type) := eta : R → R.
Class Setter {R T : Type} (proj : R → T) := set_field : (T → T) → R → R.
Arguments set_field {R T} proj {Setter} _ _ /.

Ltac derive_setter :=
  match goal with
  | |- @Setter ?R ?T ?proj =>
    let inst := constr:(_ : Eta R) in
    let i := eval hnf in inst in
    let f := fresh "f" in let r := fresh "r" in
    intros f r;
    let e := eval cbv beta in (i r) in
    let e := eval pattern (proj r) in e in
    match e with
    | ?g ?x => let b := eval cbv beta in (g (f x)) in exact b
    end
  end.
#[global] Hint Extern 1 (Setter _) => derive_setter : typeclass_instances.

Notation "r <| f := v |>" := (set_field f (λ _, v) r)
  (at level 1, left associativity, f constr at level 0, v constr at level 200) : ferrus_scope.

(** ** Machine integers

    SQLite stores 64-bit integers; the code reads counters with [as u32] and
    adds to them at 32 bits (the release profile has overflow checks off, so
    the addition wraps). *)
Definition u32_modulus : Z := 2 ^ 32.
Definition u64_modulus : Z := 2 ^ 64.
Definition as_u32 (z : Z) : Z := z mod u32_modulus.
Definition u32_add (a b : Z) : Z := as_u32 (a + b).
Definition u32_checked_add (a b : Z) : option Z :=
  if a + b <? u32_modulus then Some (a + b) else None.
(** [u64 as i64]: two's complement reinterpretation. *)
Definition as_i64 (z : Z) : Z :=
  let m := z mod u64_modulus in if m <? 2 ^ 63 then m else m - u64_modulus.
Definition is_u32 (z : Z) : Prop := 0 ≤ z < u32_modulus.

Lemma as_u32_id z : is_u32 z → as_u32 z = z.
Proof. apply Z.mod_small. Qed.
Lemma as_u32_range z : is_u32 (as_u32 z).
Proof. apply Z.mod_pos_bound. reflexivity. Qed.
Lemma u32_add_small a b : 0 ≤ a → 0 ≤ b → a + b < u32_modulus → u32_add a b = a + b.
Proof. intros. apply as_u32_id. unfold is_u32. lia. Qed.
Lemma as_i64_small z : 0 ≤ z < 2 ^ 63 → as_i64 z = z.
Proof.
  intros H. unfold as_i64. rewrite Z.mod_small by (unfold u64_modulus; lia).
  destruct (Z.ltb_spec z (2 ^ 63)); lia.
Qed.

Lemma is_u32_0 : is_u32 0.
Proof. unfold is_u32, u32_modulus. lia. Qed.

(** ** Strings

    Rust strings are modelled by their bytes. [str::trim] removes the
    whitespace characters of the ASCII range. *)
Definition is_whitespace (c : Ascii.ascii) : bool :=
  let n := Ascii.N_of_ascii c in ((9 <=? n) && (n <=? 13) || (n =? 32))%N.

Fixpoint trim_start (s : string) : string :=
  match s with
  | String c s' => if is_whitespace c then trim_start s' else s
  | "" => ""
  end.
Fixpoint trim_end (s : string) : string :=
  match s with
  | "" => ""
  | String c s' =>
    match trim_end s' with
    | "" => if is_whitespace c then "" else String c ""
    | t => String c t
    end
  end.
Definition trim (s : string) : string := trim_end (trim_start s).
Definition is_empty (s : string) : bool := match s with "" => true | _ => false end.

Lemma trim_end_nil_all s : trim_end s = "" → trim_start s = "".
Proof.
  induction s as [|c s IH]; simpl; [done|]. destruct (trim_end s) eqn:E; [|done].
  destruct (is_whitespace c); [auto|done].
Qed.
Lemma trim_end_idem s : trim_end (trim_end s) = trim_end s.
Proof.
  induction s as [|c s IH]; [done|]. simpl. destruct (trim_end s) as [|c' t] eqn:E.
  - destruct (is_whitespace c) eqn:Ec; [done|]. simpl. by rewrite Ec.
  - change (trim_end (String c (String c' t)))
      with (match trim_end (String c' t) with "" => if is_whitespace c then "" else String c ""
            | u => String c u end).
    by rewrite IH.
Qed.
Lemma trim_start_head s : trim_start s = "" ∨ ∃ c t, trim_start s = String c t ∧ is_whitespace c = false.
Proof.
  induction s as [|c s IH]; simpl; [by left|].
  destruct (is_whitespace c) eqn:E; [done|]. right. eauto.
Qed.
Lemma trim_idem s : trim (trim s) = trim s.
Proof.
  unfold trim. destruct (trim_start_head s) as [->|(c & t & -> & Hc)]; [done|].
  assert (trim_start (trim_end (String c t)) = trim_end (String c t)) as ->; [|apply trim_end_idem].
  simpl. destruct (trim_end t); rewrite ?Hc; simpl; by rewrite Hc.
Qed.

Definition starts_with (p s : string) : bool := String.prefix p s.
Fixpoint strip_prefix (p s : string) : option string :=
  match p, s with
  | "", _ => Some s
  | String a p', String b s' => if bool_decide (a = b) then strip_prefix p' s' else None
  | String _ _, "" => None
  end.
Lemma strip_prefix_app p s : strip_prefix p (p +:+ s) = Some s.
Proof.
  induction p as [|c p IH]; [done|]. change (String c p +:+ s)%string with (String c (p +:+ s)). simpl.
  by rewrite bool_decide_eq_true_2.
Qed.
Fixpoint contains (needle s : string) : bool :=
  String.prefix needle s ||
  match s with "" => false | String _ s' => contains needle s' end.
Fixpoint strip_suffix (p s : string) : option string :=
  if bool_decide (s = p) then Some ""
  else match s with
       | "" => None
       | String c s' => String c <$> strip_suffix p s'
       end.

(** Equality of optional columns with a value ([as_deref() == Some(v)]). *)
Definition opt_is (o : option string) (v : string) : bool := bool_decide (o = Some v).

(** ** [ORDER BY]

    A comparator is a three-way comparison; SQLite compares TEXT bytewise
    (BINARY collation) and puts NULL first. *)
Definition lex {A} (c1 c2 : A → A → comparison) (x y : A) : comparison :=
  match c1 x y with Eq => c2 x y | c => c end.
Definition on_key {A B} (f : A → B) (c : B → B → comparison) (x y : A) : comparison :=
  c (f x) (f y).
Definition desc {A} (c : A → A → comparison) (x y : A) : comparison := c y x.
Definition null_first {A} (c : A → A → comparison) (x y : option A) : comparison :=
  match x, y with
  | None, None => Eq
  | None, Some _ => Lt
  | Some _, None => Gt
  | Some a, Some b => c a b
  end.
Definition order_by {A} (c : A → A → comparison) (l : list A) : list A :=
  merge_sort (λ x y, c x y ≠ Gt) l.

Class TotalCmp {A} (c : A → A → comparison) : Prop := {
  cmp_opp x y : c y x = CompOpp (c x y);
  cmp_trans x y z : c x y ≠ Gt → c y z ≠ Gt → c x z ≠ Gt }.

#[global] Instance string_cmp : TotalCmp String.compare.
Proof.
  split.
  - intros x y. apply String.compare_antisym.
  - assert (Hle : ∀ a b, String.compare a b ≠ Gt ↔ String.le a b).
    { intros a b. unfold String.le, String.leb. destruct (String.compare a b); simpl; split; done. }
    intros x y z. rewrite !Hle. apply transitivity.
Qed.
#[global] Instance Z_cmp : TotalCmp Z.compare.
Proof. split; [intros; apply Z.compare_antisym|]. intros x y z. rewrite !Z.compare_le_iff. lia. Qed.
#[global] Instance on_key_cmp {A B} (f : A → B) c : TotalCmp c → TotalCmp (on_key f c).
Proof.
  intros Hc. split; unfold on_key; intros; [apply (cmp_opp (c := c))|].
  eapply (cmp_trans (c := c)); eauto.
Qed.
#[global] Instance desc_cmp {A} (c : A → A → comparison) : TotalCmp c → TotalCmp (desc c).
Proof.
  intros Hc. split; unfold desc; intros; [apply (cmp_opp (c := c))|].
  eapply (cmp_trans (c := c)); eauto.
Qed.
#[global] Instance null_first_cmp {A} (c : A → A → comparison) : TotalCmp c → TotalCmp (null_first c).
Proof.
  intros Hc. split; intros [x|] [y|]; simpl; try done; try apply (cmp_opp (c := c)).
  - intros [z|]; simpl; [|done]. apply (cmp_trans (c := c)).
  - intros [z|]; done.
Qed.

Lemma cmp_lt_eq {A} (c : A → A → comparison) `{!TotalCmp c} x y z :
  c x y = Lt → c y z ≠ Gt → c x z = Lt.
Proof.
  intros Hxy Hyz. destruct (c x z) eqn:E; [|done|].
  - exfalso. apply (cmp_trans (c := c) y z x); [done| |].
    + rewrite (cmp_opp (c := c) x z), E. done.
    + rewrite (cmp_opp (c := c) x y), Hxy. done.
  - exfalso. eapply (cmp_trans (c := c) x y z); eauto. by rewrite Hxy.
Qed.
Lemma cmp_eq_lt {A} (c : A → A → comparison) `{!TotalCmp c} x y z :
  c x y ≠ Gt → c y z = Lt → c x z = Lt.
Proof.
  intros Hxy Hyz. destruct (c x z) eqn:E; [|done|].
  - exfalso. apply (cmp_trans (c := c) z x y); [|done|].
    + rewrite (cmp_opp (c := c) x z), E. done.
    + rewrite (cmp_opp (c := c) y z), Hyz. done.
  - exfalso. eapply (cmp_trans (c := c) x y z); eauto. by rewrite Hyz.
Qed.

#[global] Instance lex_cmp {A} (c1 c2 : A → A → comparison) :
  TotalCmp c1 → TotalCmp c2 → TotalCmp (lex c1 c2).
Proof.
  intros H1 H2. split; unfold lex; intros x y.
  - rewrite (cmp_opp (c := c1) x y). destruct (c1 x y); simpl; [|done|done]. apply (cmp_opp (c := c2)).
  - intros z. destruct (c1 x y) eqn:Exy; [| |done]; destruct (c1 y z) eqn:Eyz; try done.
    + intros Hxy Hyz. destruct (c1 x z) eqn:Exz; [by eapply (cmp_trans (c := c2))|done|].
      exfalso. eapply (cmp_trans (c := c1) x y z); by rewrite ?Exy, ?Eyz.
    + intros _ _. rewrite (cmp_eq_lt c1 x y z); [done| |done]. by rewrite Exy.
    + intros _ _. rewrite (cmp_lt_eq c1 x y z); [done|done|]. by rewrite Eyz.
    + intros _ _. rewrite (cmp_lt_eq c1 x y z); [done|done|]. by rewrite Eyz.
Qed.

Section order_by.
Context {A : Type} (c : A → A → comparison) `{!TotalCmp c}.

Lemma order_by_Permutation l : order_by c l ≡ₚ l.
Proof. apply merge_sort_Permutation. Qed.

Lemma elem_of_order_by x l : x ∈ order_by c l ↔ x ∈ l.
Proof. by rewrite order_by_Permutation. Qed.

Lemma order_by_sorted l : StronglySorted (λ x y, c x y ≠ Gt) (order_by c l).
Proof.
  apply StronglySorted_merge_sort.
  - intros x y z. apply (cmp_trans (c := c)).
  - intros x y. rewrite (cmp_opp (c := c) x y). destruct (c x y); simpl; auto.
Qed.

(** [ORDER BY ... LIMIT 1] returns a least row. *)
Lemma order_by_head l x l' :
  order_by c l = x :: l' → x ∈ l ∧ ∀ y, y ∈ l → c x y ≠ Gt.
Proof.
  intros H. split.
  - apply elem_of_order_by. rewrite H. left.
  - intros y Hy%elem_of_order_by. rewrite H in Hy.
    pose proof (order_by_sorted l) as Hs. rewrite H in Hs.
    apply StronglySorted_cons in Hs as [Hx _].
    apply elem_of_cons in Hy as [->|Hy].
    + pose proof (cmp_opp (c := c) x x) as E. by destruct (c x x).
    + rewrite Forall_forall in Hx. auto.
Qed.

(** The order of the result is determined by the rows when no two of them tie. *)
Lemma order_by_unique l1 l2 :
  (∀ x y, x ∈ l1 → y ∈ l1 → c x y = Eq → x = y) →
  StronglySorted (λ x y, c x y ≠ Gt) l1 → l1 ≡ₚ l2 → order_by c l2 = l1.
Proof.
  intros Hanti Hs Hp. symmetry. eapply StronglySorted_unique_strong; [|exact Hs|apply order_by_sorted|].
  - intros x y Hx Hy Hxy Hyx. cbn beta in Hxy, Hyx. apply Hanti; [done| |].
    + rewrite Hp. by apply elem_of_order_by.
    + rewrite (cmp_opp (c := c) x y) in Hyx. by destruct (c x y).
  - by rewrite order_by_Permutation.
Qed.

(** A row that sorts after all others comes last. *)
Lemma order_by_snoc l x :
  (∀ y z, y ∈ l → z ∈ l → c y z = Eq → y = z) → (∀ y, y ∈ l → c y x = Lt) →
  order_by c (x :: l) = (order_by c l ++ [x])%list.
Proof.
  intros Hanti Hx. apply order_by_unique.
  - intros y z. rewrite !elem_of_app, !list_elem_of_singleton, !elem_of_order_by.
    intros [Hy| ->] [Hz| ->] E; auto.
    + by rewrite (Hx y) in E.
    + rewrite (cmp_opp (c := c) z x), (Hx z Hz) in E. done.
  - apply StronglySorted_app. split_and!; [|apply order_by_sorted|repeat constructor].
    intros y z Hy Hz%list_elem_of_singleton. subst z. rewrite elem_of_order_by in Hy. by rewrite (Hx y Hy).
  - rewrite order_by_Permutation. by rewrite Permutation_app_comm.
Qed.

Lemma order_by_nil l : order_by c l = [] ↔ l = [].
Proof.
  split; [|by intros ->]. intros H.
  apply Permutation_nil_r. rewrite <- H. symmetry. apply order_by_Permutation.
Qed.
End order_by.

(** ** Reasoning about effectful code

    [inv_bind] decomposes a run that returned; [preserves I m] says that [m]
    keeps [I] whether it returns or fails. *)
Section st_lemmas.
Context {S : Type}.

Lemma bind_Ok {A B} (m : st S A) (f : A → st S B) s b s' :
  (m ≫= f) s = (Ok b, s') ↔ ∃ a s1, m s = (Ok a, s1) ∧ f a s1 = (Ok b, s').
Proof.
  unfold mbind, st_bind. destruct (m s) as [[a|e] s1]; split;
    [eauto|intros (? & ? & [= -> ->] & ?); done|done|intros (? & ? & [=] & _)].
Qed.
Lemma bind_Err {A B} (m : st S A) (f : A → st S B) s e s' :
  (m ≫= f) s = (Err e, s') ↔
  m s = (Err e, s') ∨ ∃ a s1, m s = (Ok a, s1) ∧ f a s1 = (Err e, s').
Proof.
  unfold mbind, st_bind. destruct (m s) as [[a|e'] s1]; split.
  - intros H. right. eauto.
  - intros [[=]|(? & ? & [= -> ->] & ?)]; done.
  - intros [= -> ->]. by left.
  - intros [[= -> ->]|(? & ? & [=] & _)]; done.
Qed.
Lemma bind_run {A B} (m : st S A) (f : A → st S B) s a s1 :
  m s = (Ok a, s1) → (m ≫= f) s = f a s1.
Proof. unfold mbind, st_bind. by intros ->. Qed.

Definition preserves {A} (I : S → Prop) (m : st S A) : Prop := ∀ s, I s → I (m s).2.

Lemma preserves_ret {A} I (a : A) : preserves I (mret a : st S A).
Proof. by intros s. Qed.
Lemma preserves_fail {A} I e : preserves I (fail e : st S A).
Proof. by intros s. Qed.
Lemma preserves_ensure I b fmt args : preserves I (ensure b fmt args : st S unit).
Proof. intros s. unfold ensure. by destruct b. Qed.
Lemma preserves_gets {A} I (f : S → A) : preserves I (gets f).
Proof. by intros s. Qed.
Lemma preserves_lift {A} I (r : result A) : preserves I (lift_result r : st S A).
Proof. by intros s. Qed.
Lemma preserves_modify I f : (∀ s, I s → I (f s)) → preserves I (modify f : st S unit).
Proof. intros Hf s. apply Hf. Qed.
Lemma preserves_bind {A B} I (m : st S A) (f : A → st S B) :
  preserves I m → (∀ a, preserves I (f a)) → preserves I (m ≫= f).
Proof.
  intros Hm Hf s Hs. unfold mbind, st_bind. specialize (Hm s Hs).
  destruct (m s) as [[a|e] s1]; simpl in *; [by apply Hf|done].
Qed.
(** The rule that also remembers what the first computation returned. *)
Lemma preserves_bind_post {A B} I (Q : A → S → Prop) (m : st S A) (f : A → st S B) :
  preserves I m →
  (∀ s a s1, I s → m s = (Ok a, s1) → Q a s1) →
  (∀ a s1, I s1 → Q a s1 → I (f a s1).2) →
  preserves I (m ≫= f).
Proof.
  intros Hm HQ Hf s Hs. unfold mbind, st_bind. specialize (Hm s Hs).
  specialize (HQ s). destruct (m s) as [[a|e] s1]; simpl in *; [|done].
  apply Hf; [done|]. by apply HQ.
Qed.
Lemma preserves_best_effort {A} I (m : st S A) : preserves I m → preserves I (best_effort m).
Proof.
  intros Hm s Hs. unfold best_effort. specialize (Hm s Hs).
  by destruct (m s) as [[a|e] s1].
Qed.
Lemma preserves_catch {A} I (m : st S A) h :
  preserves I m → (∀ e, preserves I (h e)) → preserves I (catch m h).
Proof.
  intros Hm Hh s Hs. unfold catch. specialize (Hm s Hs).
  destruct (m s) as [[a|e] s1]; [done|]. by apply Hh.
Qed.
Lemma preserves_for_each {A} I (f : A → st S unit) l :
  (∀ x, x ∈ l → preserves I (f x)) → preserves I (for_each f l).
Proof.
  induction l as [|x l IH]; intros Hf; simpl; [apply preserves_ret|].
  apply preserves_bind; [apply Hf; left|]. intros _. apply IH. intros y Hy. apply Hf. by right.
Qed.
End st_lemmas.

Create HintDb preserves discriminated.
#[export] Hint Resolve preserves_ret preserves_fail preserves_ensure preserves_gets
  preserves_lift : preserves.

(** One syntax-directed step of a [preserves] proof, then the database. *)
Ltac preserves_step :=
  lazymatch goal with
  | |- preserves _ (let _ := _ in _) => cbv zeta
  | |- preserves _ (mbind _ _) => apply preserves_bind; [|intros ?]
  | |- preserves _ (catch _ _) => apply preserves_catch; [|intros ?]
  | |- preserves _ (best_effort _) => apply preserves_best_effort
  | |- preserves _ (for_each _ _) => apply preserves_for_each; intros ? ?
  | |- preserves _ (match ?x with _ => _ end) => destruct x
  | |- preserves _ (bail _ _) => apply preserves_fail
  | |- preserves _ _ => solve [eauto 3 with preserves]
  end.
Ltac solve_preserves := repeat preserves_step.

Ltac inv_bind H :=
  first [ apply bind_Ok in H as (? & ? & ? & H)
        | apply bind_Err in H as [H|(? & ? & ? & H)] ].

(** ** Integers in text *)
Definition digit_value (c : Ascii.ascii) : option Z :=
  let n := Z.of_N (Ascii.N_of_ascii c) in
  if (48 <=? n) && (n <=? 57) then Some (n - 48) else None.
Fixpoint parse_digits (acc : Z) (s : string) : option Z :=
  match s with
  | "" => Some acc
  | String c s' => d ← digit_value c; parse_digits (10 * acc + d) s'
  end.
(** [str::parse::<u32>]: an optional [+], at least one digit, no overflow. *)
Definition parse_u32 (s : string) : option Z :=
  let digits := match s with String "+"%char s' => s' | _ => s end in
  if is_empty digits then None
  else v ← parse_digits 0 digits; if v <? u32_modulus then Some v else None.

(** [{number:03}]: decimal, left-padded with zeros to three characters. *)
Fixpoint zeros (n : nat) : string := match n with O => "" | S n => String "0"%char (zeros n) end.
Definition display_u32 (z : Z) : string := pretty (Z.to_N z).
Definition format_03 (z : Z) : string :=
  let s := display_u32 z in (zeros (3 - String.length s) +:+ s)%string.

Lemma string_app_assoc (a b c : string) : ((a +:+ b) +:+ c = a +:+ (b +:+ c))%string.
Proof. induction a as [|x a IH]; [done|]. exact (f_equal (String x) IH). Qed.
Lemma string_app_nil_r (a : string) : (a +:+ "")%string = a.
Proof. induction a as [|x a IH]; [done|]. exact (f_equal (String x) IH). Qed.
Lemma parse_digits_app a s t :
  parse_digits a (s +:+ t) = (a' ← parse_digits a s; parse_digits a' t).
Proof.
  revert a. induction s as [|c s IH]; intros a; simpl; [done|].
  destruct (digit_value c); simpl; [apply IH|done].
Qed.
Lemma parse_digits_zeros n s : parse_digits 0 (zeros n +:+ s) = parse_digits 0 s.
Proof. induction n as [|n IH]; [done|exact IH]. Qed.
Lemma digit_value_pretty d : (d < 10)%N → digit_value (pretty_N_char d) = Some (Z.of_N d).
Proof.
  intros H. assert (d = 0 ∨ d = 1 ∨ d = 2 ∨ d = 3 ∨ d = 4 ∨ d = 5 ∨ d = 6 ∨ d = 7 ∨ d = 8 ∨ d = 9)%N
    as Hd by lia.
  repeat (destruct Hd as [->|Hd]; [reflexivity|]). by subst d.
Qed.
Lemma pretty_N_go_app x s : pretty_N_go x s = (pretty_N_go x "" +:+ s)%string.
Proof.
  revert s. induction (N.lt_wf_0 x) as [x _ IH]; intros s.
  destruct (decide (x = 0)%N) as [->|Hx]; [done|].
  rewrite (pretty_N_go_step x s), (pretty_N_go_step x "") by lia.
  assert ((x / 10 < x)%N) as Hlt by (apply N.div_lt; lia).
  rewrite (IH _ Hlt (String _ s)), (IH _ Hlt (String _ "")).
  by rewrite string_app_assoc.
Qed.
Lemma parse_digits_pretty_go x : parse_digits 0 (pretty_N_go x "") = Some (Z.of_N x).
Proof.
  induction (N.lt_wf_0 x) as [x _ IH].
  destruct (decide (x = 0)%N) as [->|Hx]; [done|].
  rewrite pretty_N_go_step, pretty_N_go_app by lia.
  rewrite parse_digits_app, IH by (apply N.div_lt; lia). simpl.
  rewrite digit_value_pretty by (apply N.mod_lt; lia). simpl. f_equal.
  rewrite N2Z.inj_div, N2Z.inj_mod. pose proof (Z.div_mod (Z.of_N x) 10). lia.
Qed.
Lemma parse_digits_display z : 0 ≤ z → parse_digits 0 (display_u32 z) = Some z.
Proof.
  intros Hz. unfold display_u32, pretty, pretty_N.
  destruct (decide _) as [E|E]; [simpl; f_equal; lia|].
  rewrite parse_digits_pretty_go. f_equal. lia.
Qed.

Lemma parse_digits_head c s v : parse_digits 0 (String c s) = Some v → c ≠ "+"%char.
Proof. intros H ->. discriminate H. Qed.

Lemma parse_u32_digits s v :
  s ≠ "" → parse_digits 0 s = Some v → v < u32_modulus → parse_u32 s = Some v.
Proof.
  intros Hne Hp Hv. destruct s as [|c s]; [done|].
  pose proof (parse_digits_head _ _ _ Hp) as Hc. unfold parse_u32.
  assert ((match String c s with String "+"%char s' => s' | _ => String c s end) = String c s) as ->.
  { destruct c as [[] [] [] [] [] [] [] []]; done. }
  simpl is_empty. cbv iota. rewrite Hp. simpl. by destruct (Z.ltb_spec v u32_modulus); [|lia].
Qed.

(** The decimal text of a task number parses back to it. *)
Lemma parse_format_03 z : is_u32 z → parse_u32 (format_03 z) = Some z.
Proof.
  intros [H0 H1]. unfold format_03. apply parse_u32_digits; [|by rewrite parse_digits_zeros, parse_digits_display|done].
  intros E. pose proof (parse_digits_display z H0) as Hp.
  assert (parse_digits 0 (zeros (3 - String.length (display_u32 z)) +:+ display_u32 z) = Some z) as Hq
    by by rewrite parse_digits_zeros.
  rewrite E in Hq. injection Hq as <-.
  by vm_compute in E.
Qed.
