(* ===== verification/Status.v ===== *)
(** Task lifecycle states ([src/src/runtime_status.rs]) and the mapping of the
    legacy single-task state file onto them ([src/src/legacy_state.rs]): the
    status type, its wire names, the predicates that scheduling and leases use,
    and the proof that the wire names are a bijection onto the parsed text. *)
From S2P Require Import Prelude.

Inductive TaskStatus : Type :=
  | Unknown | Pending | Executing | Addressing | Consultation
  | AwaitingHuman | Reviewing | Complete | Failed | Reset.

#[global] Instance TaskStatus_eq_dec : EqDecision TaskStatus.
Proof. solve_decision. Defined.

Definition as_str (s : TaskStatus) : string :=
  match s with
  | Unknown => "unknown"
  | Pending => "pending"
  | Executing => "executing"
  | Addressing => "addressing"
  | Consultation => "consultation"
  | AwaitingHuman => "awaiting_human"
  | Reviewing => "reviewing"
  | Complete => "complete"
  | Failed => "failed"
  | Reset => "reset"
  end.

Definition clears_lease (s : TaskStatus) : bool :=
  match s with
  | Reset | Reviewing | Addressing | Complete | Failed => true
  | _ => false
  end.

Definition is_executor_ready (s : TaskStatus) : bool :=
  match s with Pending | Executing | Addressing => true | _ => false end.

Definition is_executor_working (s : TaskStatus) : bool :=
  match s with Executing | Addressing => true | _ => false end.

Definition is_resettable (s : TaskStatus) : bool :=
  match s with Unknown | Reset | Complete => false | _ => true end.

Definition is_terminal (s : TaskStatus) : bool :=
  match s with Reset | Complete | Failed => true | _ => false end.

Definition from_str (value : string) : result TaskStatus :=
  if bool_decide (value = "unknown") then Ok Unknown
  else if bool_decide (value = "pending") then Ok Pending
  else if bool_decide (value = "executing") then Ok Executing
  else if bool_decide (value = "addressing") then Ok Addressing
  else if bool_decide (value = "consultation") then Ok Consultation
  else if bool_decide (value = "awaiting_human") then Ok AwaitingHuman
  else if bool_decide (value = "reviewing") then Ok Reviewing
  else if bool_decide (value = "complete") then Ok Complete
  else if bool_decide (value = "failed") then Ok Failed
  else if bool_decide (value = "reset") then Ok Reset
  else Err (Bail "unknown task status: {value}" [value]).

Lemma from_str_as_str s : from_str (as_str s) = Ok s.
Proof. destruct s; reflexivity. Qed.

Lemma from_str_Ok value s : from_str value = Ok s → value = as_str s.
Proof.
  unfold from_str. intros H.
  repeat (case_bool_decide as E; [injection H as <-; exact E|clear E]). discriminate H.
Qed.

#[global] Instance as_str_inj : Inj (=) (=) as_str.
Proof. intros s1 s2 H. pose proof (from_str_as_str s1) as E. rewrite H, from_str_as_str in E. by injection E. Qed.

(** The status text stored in [ferrus.db] and the parsed status determine
    each other: [as_str] followed by [FromStr] is the identity, and any text
    [FromStr] accepts is exactly the [as_str] of the status it returns, so
    comparing status columns as text is comparing statuses. *)
Theorem status_text_roundtrip value s : from_str value = Ok s ↔ value = as_str s.
Proof. split; [apply from_str_Ok|intros ->; apply from_str_as_str]. Qed.

(** A status column value is valid when it parses. *)
Definition valid_status (value : string) : Prop := is_ok (from_str value) = true.

Lemma valid_status_as_str s : valid_status (as_str s).
Proof. unfold valid_status. by rewrite from_str_as_str. Qed.
Lemma valid_status_inv value : valid_status value → ∃ s, value = as_str s.
Proof.
  unfold valid_status. destruct (from_str value) as [s|] eqn:E; [|done].
  intros _. exists s. by apply from_str_Ok.
Qed.

(** ** Legacy state file *)
Module Legacy.
Inductive LegacyTaskState : Type :=
  | LIdle | LExecuting | LConsultation | LReviewing | LAddressing
  | LComplete | LFailed | LAwaitingHuman.

#[global] Instance LegacyTaskState_eq_dec : EqDecision LegacyTaskState.
Proof. solve_decision. Defined.

Record LegacyStateData := {
  state_ : option LegacyTaskState;
  check_retries : Z;
  review_cycles : Z;
  failure_reason : option string;
  paused_state : option LegacyTaskState;
  awaiting_human_by : option string;
  task_spec : option string;
  task_milestone : option string;
  selected_spec : option string }.

Definition state (d : LegacyStateData) : LegacyTaskState := default LIdle (state_ d).

Definition task_status_for_legacy_state (s : LegacyTaskState) : TaskStatus :=
  match s with
  | LIdle => Reset
  | LExecuting => Executing
  | LConsultation => Consultation
  | LReviewing => Reviewing
  | LAddressing => Addressing
  | LComplete => Complete
  | LFailed => Failed
  | LAwaitingHuman => AwaitingHuman
  end.
End Legacy.
