(* ===== verification/View.v ===== *)
(** Repository-view references ([RepositoryViewReference] of
    [src/src/project.rs]) and their seven-column encoding in the [tasks] and
    [runs] tables ([src/src/project/graph.rs]).  Identities carry their
    validity in the type, as the private constructors of
    [src/src/repository_graph/domain.rs] do. *)
From S2P Require Import Prelude.

(** ** Identities *)

(** An [opaque_id!] type: a string its constructor checked to be non-empty. *)
Definition opaque_id : Type := dsig (λ s : string, s ≠ "").
Abbreviation SnapshotId := opaque_id (only parsing).
Abbreviation OverlayRevisionId := opaque_id (only parsing).
Abbreviation SourceRevisionId := opaque_id (only parsing).
Abbreviation BuildId := opaque_id (only parsing).

Definition id_as_str (i : opaque_id) : string := `i.

Definition opaque_id_new (kind value : string) : result opaque_id :=
  match decide (value ≠ "") with
  | left H => Ok (dexist value H)
  | right _ => Err (Bail "{kind} must not be empty" [kind])
  end.

Definition is_ascii_digit (c : ascii) : bool :=
  let n := N_of_ascii c in ((48 <=? n) && (n <=? 57))%N.
Definition is_ascii_lowercase (c : ascii) : bool :=
  let n := N_of_ascii c in ((97 <=? n) && (n <=? 122))%N.
Definition is_hex_lower (c : ascii) : bool :=
  let n := N_of_ascii c in is_ascii_digit c || ((97 <=? n) && (n <=? 102))%N.
Definition all_bytes (p : ascii → bool) (s : string) : bool := forallb p (String.list_ascii_of_string s).

Definition digest_ok (algorithm value : string) : bool :=
  negb (is_empty algorithm) &&
  all_bytes (λ c, is_ascii_lowercase c || is_ascii_digit c
                  || bool_decide (c = "."%char) || bool_decide (c = "_"%char)
                  || bool_decide (c = "-"%char)) algorithm &&
  negb (is_empty value) && all_bytes is_hex_lower value.

Definition Digest : Type := dsig (λ p : string * string, digest_ok p.1 p.2 = true).
Definition algorithm (d : Digest) : string := (`d).1.
Definition value (d : Digest) : string := (`d).2.

Definition digest_new (alg val : string) : result Digest :=
  match decide (digest_ok alg val = true) with
  | left H => Ok (dexist (alg, val) H)
  | right _ => Err (Bail "invalid digest" [alg; val])
  end.

Lemma opaque_id_new_as_str kind i : opaque_id_new kind (id_as_str i) = Ok i.
Proof.
  unfold opaque_id_new, id_as_str. destruct (decide _) as [H|H].
  - f_equal. by apply dsig_eq.
  - exfalso. apply H. exact (proj2_dsig i).
Qed.
Lemma opaque_id_new_Ok kind v i : opaque_id_new kind v = Ok i → id_as_str i = v.
Proof. unfold opaque_id_new. destruct (decide _); [|done]. by intros [= <-]. Qed.
Lemma digest_new_fields d : digest_new (algorithm d) (value d) = Ok d.
Proof.
  unfold digest_new, algorithm, value. destruct (decide _) as [H|H].
  - f_equal. apply dsig_eq. simpl. by destruct (`d).
  - exfalso. apply H. exact (proj2_dsig d).
Qed.
Lemma digest_new_Ok a v d : digest_new a v = Ok d → algorithm d = a ∧ value d = v.
Proof. unfold digest_new. destruct (decide _); [|done]. by intros [= <-]. Qed.

(** ** Status and lifecycle *)
Inductive RepositoryViewStatus : Type := NotBuilt | Available | Stale | Unavailable | VFailed.
#[global] Instance RepositoryViewStatus_eq_dec : EqDecision RepositoryViewStatus.
Proof. solve_decision. Defined.

Definition view_status_as_str (s : RepositoryViewStatus) : string :=
  match s with
  | NotBuilt => "not_built"
  | Available => "available"
  | Stale => "stale"
  | Unavailable => "unavailable"
  | VFailed => "failed"
  end.

Definition view_status_from_database (v : string) : result RepositoryViewStatus :=
  if bool_decide (v = "not_built") then Ok NotBuilt
  else if bool_decide (v = "available") then Ok Available
  else if bool_decide (v = "stale") then Ok Stale
  else if bool_decide (v = "unavailable") then Ok Unavailable
  else if bool_decide (v = "failed") then Ok VFailed
  else Err (Bail "Unknown repository view status in ferrus.db: {value:?}" [v]).

Inductive TaskViewLifecycle : Type := Mutable | FrozenSubmitted.
#[global] Instance TaskViewLifecycle_eq_dec : EqDecision TaskViewLifecycle.
Proof. solve_decision. Defined.

Definition lifecycle_str (l : TaskViewLifecycle) : string :=
  match l with Mutable => "mutable" | FrozenSubmitted => "frozen_submitted" end.

(** ** References *)
Record RepositoryViewReference := ViewRef {
  baseline_snapshot_id : option SnapshotId;
  overlay_revision_id : option OverlayRevisionId;
  view_snapshot_id : option SnapshotId;
  frozen_source_tree : option Digest;
  lifecycle : TaskViewLifecycle;
  view_status : RepositoryViewStatus }.
#[global] Instance eta_view_ref : Eta RepositoryViewReference := λ r,
  ViewRef (baseline_snapshot_id r) (overlay_revision_id r) (view_snapshot_id r)
    (frozen_source_tree r) (lifecycle r) (view_status r).
#[global] Instance view_ref_eq_dec : EqDecision RepositoryViewReference.
Proof. solve_decision. Defined.

(** [#[derive(Default)]] *)
Definition view_default : RepositoryViewReference := ViewRef None None None None Mutable NotBuilt.

Definition some {A} (o : option A) : bool := match o with Some _ => true | None => false end.
Definition none {A} (o : option A) : bool := negb (some o).

Definition view_new (baseline : option SnapshotId) (overlay : option OverlayRevisionId)
    (status : RepositoryViewStatus) : result RepositoryViewReference :=
  if some overlay && none baseline then
    Err (Bail "A repository overlay revision requires a baseline snapshot" [])
  else if bool_decide (status = Available) && none baseline then
    Err (Bail "An available repository view requires a baseline snapshot" [])
  else Ok (ViewRef baseline overlay None None Mutable status).

Definition view_materialized (baseline : SnapshotId) (overlay : option OverlayRevisionId)
    (view_snapshot : SnapshotId) (status : RepositoryViewStatus) : result RepositoryViewReference :=
  if bool_decide (status = NotBuilt) then
    Err (Bail "A materialized repository view cannot be not_built" [])
  else Ok (ViewRef (Some baseline) overlay (Some view_snapshot) None Mutable status).

Definition view_frozen (self : RepositoryViewReference) (source_tree : Digest) :
    result RepositoryViewReference :=
  if none (baseline_snapshot_id self) || none (view_snapshot_id self) then
    Err (Bail "A frozen repository view requires materialized baseline and view snapshots" [])
  else Ok (self <| lifecycle := FrozenSubmitted |> <| frozen_source_tree := Some source_tree |>).

Definition mutable_successor (self : RepositoryViewReference) : RepositoryViewReference :=
  self <| lifecycle := Mutable |> <| frozen_source_tree := None |>.

Definition validate (self : RepositoryViewReference) : result unit :=
  if some (overlay_revision_id self) && none (baseline_snapshot_id self) then
    Err (Bail "A repository overlay revision requires a baseline snapshot" [])
  else if bool_decide (view_status self = Available) && none (baseline_snapshot_id self) then
    Err (Bail "An available repository view requires a baseline snapshot" [])
  else match lifecycle self with
    | Mutable =>
      if some (frozen_source_tree self) then
        Err (Bail "A mutable repository view cannot retain a frozen source tree" [])
      else Ok tt
    | FrozenSubmitted =>
      if none (view_snapshot_id self) || none (frozen_source_tree self) then
        Err (Bail "A frozen repository view requires a snapshot and source tree" [])
      else Ok tt
    end.

(** ** Columns *)
Record view_cols := ViewCols {
  c_baseline : option string;
  c_overlay : option string;
  c_view_snapshot : option string;
  c_tree_algorithm : option string;
  c_tree_digest : option string;
  c_lifecycle : string;
  c_status : string }.
#[global] Instance eta_view_cols : Eta view_cols := λ r,
  ViewCols (c_baseline r) (c_overlay r) (c_view_snapshot r) (c_tree_algorithm r)
    (c_tree_digest r) (c_lifecycle r) (c_status r).
#[global] Instance view_cols_eq_dec : EqDecision view_cols.
Proof. solve_decision. Defined.

(** Column defaults of the [ALTER TABLE] migrations. *)
Definition view_cols_default : view_cols := ViewCols None None None None None "mutable" "not_built".

(** The parameters bound by [record_repository_view_in_transaction] and
    [update_repository_view_in_transaction]. *)
Definition view_to_cols (v : RepositoryViewReference) : view_cols :=
  ViewCols (id_as_str <$> baseline_snapshot_id v) (id_as_str <$> overlay_revision_id v)
    (id_as_str <$> view_snapshot_id v) (algorithm <$> frozen_source_tree v)
    (value <$> frozen_source_tree v) (lifecycle_str (lifecycle v))
    (view_status_as_str (view_status v)).

(** [Option::map(new).transpose()] *)
Definition transpose_new (kind : string) (o : option string) : result (option opaque_id) :=
  match o with
  | None => Ok None
  | Some s => Some <$> opaque_id_new kind s
  end.

Definition repository_view_reference_from_database (c : view_cols) : result RepositoryViewReference :=
  baseline ← transpose_new "snapshot id" (c_baseline c);
  overlay ← transpose_new "overlay revision id" (c_overlay c);
  snapshot ← transpose_new "snapshot id" (c_view_snapshot c);
  tree ← match c_tree_algorithm c, c_tree_digest c with
         | Some alg, Some val => Some <$> digest_new alg val
         | None, None => Ok None
         | _, _ => Err (Bail "Incomplete frozen repository source tree in ferrus.db" [])
         end;
  lc ← (if bool_decide (c_lifecycle c = "mutable") then Ok Mutable
        else if bool_decide (c_lifecycle c = "frozen_submitted") then Ok FrozenSubmitted
        else Err (Bail "Unknown repository view lifecycle in ferrus.db: {lifecycle:?}" [c_lifecycle c]));
  stat ← view_status_from_database (c_status c);
  let reference := ViewRef baseline overlay snapshot tree lc stat in
  _ ← validate reference;
  Ok reference.

(** ** Correctness *)
Lemma transpose_new_as_str kind o : transpose_new kind (id_as_str <$> o) = Ok o.
Proof. destruct o as [i|]; simpl; [|done]. by rewrite opaque_id_new_as_str. Qed.
Lemma transpose_new_Ok kind o r : transpose_new kind o = Ok r → id_as_str <$> r = o.
Proof.
  destruct o as [s|]; simpl; [|by intros [= <-]].
  destruct (opaque_id_new kind s) eqn:E; [|done]. intros [= <-]. simpl.
  by rewrite (opaque_id_new_Ok _ _ _ E).
Qed.
Lemma view_status_roundtrip s : view_status_from_database (view_status_as_str s) = Ok s.
Proof. by destruct s. Qed.
Lemma view_status_from_database_Ok v s : view_status_from_database v = Ok s → view_status_as_str s = v.
Proof.
  unfold view_status_from_database. intros H.
  repeat (case_bool_decide as E; [by injection H as <-|clear E]). discriminate H.
Qed.

Lemma validate_unit v : is_ok (validate v) = true → validate v = Ok tt.
Proof. by destruct (validate v) as [[]|]. Qed.

Lemma view_from_to_cols v :
  validate v = Ok tt → repository_view_reference_from_database (view_to_cols v) = Ok v.
Proof.
  intros Hv. destruct v as [b o s t l st].
  unfold repository_view_reference_from_database, view_to_cols. simpl.
  rewrite !transpose_new_as_str. simpl.
  assert ((match algorithm <$> t, value <$> t with
           | Some alg, Some val => Some <$> digest_new alg val
           | None, None => Ok None
           | _, _ => Err (Bail "Incomplete frozen repository source tree in ferrus.db" [])
           end) = Ok t) as ->.
  { destruct t as [d|]; simpl; [|done]. by rewrite digest_new_fields. }
  simpl. destruct l; simpl; rewrite view_status_roundtrip; simpl; rewrite Hv; done.
Qed.

Lemma result_bind_Ok {A B} (r : result A) (f : A → result B) b :
  (r ≫= f) = Ok b → ∃ a, r = Ok a ∧ f a = Ok b.
Proof. destruct r; [eauto|done]. Qed.

Lemma view_to_from_cols c v :
  repository_view_reference_from_database c = Ok v → view_to_cols v = c ∧ validate v = Ok tt.
Proof.
  unfold repository_view_reference_from_database. intros H.
  apply result_bind_Ok in H as (b & Hb%transpose_new_Ok & H).
  apply result_bind_Ok in H as (o & Ho%transpose_new_Ok & H).
  apply result_bind_Ok in H as (s & Hs%transpose_new_Ok & H).
  apply result_bind_Ok in H as (t & Ht & H).
  apply result_bind_Ok in H as (l & Hl & H).
  apply result_bind_Ok in H as (st & Hst%view_status_from_database_Ok & H).
  apply result_bind_Ok in H as (u & Hv & H). injection H as <-. split; [|by destruct u].
  unfold view_to_cols; simpl. rewrite Hb, Ho, Hs, Hst. destruct c as [cb co cs ca cd cl cst]; simpl in *.
  assert (algorithm <$> t = ca ∧ value <$> t = cd) as [-> ->].
  { destruct ca, cd; simplify_eq/=; try done. destruct (digest_new _ _) eqn:E; simplify_eq/=.
    apply digest_new_Ok in E as [-> ->]. done. }
  f_equal. case_bool_decide; [by simplify_eq|]. case_bool_decide; by simplify_eq.
Qed.

(** Encoding a repository view into its seven columns loses nothing: a
    view that passes [validate] reads back as itself, and whatever the reader
    accepts is a valid view whose encoding is the row it was read from. *)
Theorem view_columns_roundtrip c v :
  (validate v = Ok tt ∧ view_to_cols v = c) ↔ repository_view_reference_from_database c = Ok v.
Proof.
  split.
  - intros [Hv <-]. by apply view_from_to_cols.
  - intros H%view_to_from_cols. tauto.
Qed.

Lemma view_default_valid : validate view_default = Ok tt.
Proof. done. Qed.
Lemma view_mutable_successor_valid v : validate v = Ok tt → validate (mutable_successor v) = Ok tt.
Proof.
  unfold validate. destruct v as [b o s t l st]; simpl.
  destruct (some o && none b); [done|]. destruct (bool_decide _ && _); [done|]. done.
Qed.

(** Every way the code builds a view yields one that [validate] accepts:
    [new] and [materialized] from any arguments they accept, [frozen] and
    [mutable_successor] from a valid view; and a frozen view always pins a
    source tree. *)
Theorem view_constructors_valid b o st s d v :
  (view_new b o st = Ok v → validate v = Ok tt) ∧
  (∀ b', view_materialized b' o s st = Ok v → validate v = Ok tt) ∧
  (∀ u, validate u = Ok tt → view_frozen u d = Ok v →
     validate v = Ok tt ∧ frozen_source_tree v = Some d ∧ lifecycle v = FrozenSubmitted) ∧
  (∀ u, validate u = Ok tt → validate (mutable_successor u) = Ok tt).
Proof.
  split_and!.
  - unfold view_new, validate. destruct (some o && none b) eqn:E1; [done|].
    destruct (bool_decide _ && none b) eqn:E2; [done|]. intros [= <-]. simpl. by rewrite E1, E2.
  - intros b'. unfold view_materialized, validate. case_bool_decide; [done|]. intros [= <-]. simpl.
    by rewrite !andb_false_r.
  - intros u Hu. unfold view_frozen. destruct (_ || _) eqn:E; [done|]. intros [= <-].
    apply orb_false_iff in E as [Eb Es]. split; [|done]. unfold validate. simpl.
    by rewrite Eb, Es, !andb_false_r.
  - apply view_mutable_successor_valid.
Qed.
