(* ===== verification/Chrono.v ===== *)
(** Time: instants in nanoseconds since the epoch, the operations of the
    [chrono] crate the lease code relies on (an interface, since that crate is
    not part of this repository), lease-deadline arithmetic at the widths of
    the source, and a concrete implementation of the interface that the
    examples run on. *)
From S2P Require Import Prelude.

Definition nanos : Z := 10 ^ 9.
(** [SecondsFormat::Secs] drops the fraction. *)
Definition floor_secs (t : Z) : Z := t / nanos * nanos.
(** 10000-01-01T00:00:00Z: RFC 3339 text has four-digit years. *)
Definition year_10000 : Z := 253402300800 * nanos.
Definition wire_range (t : Z) : Prop := 0 ≤ t < year_10000.

(** [chrono::Duration::MAX] and the bound of [try_seconds]. *)
Definition duration_max : Z := 9223372036854775807 * 10 ^ 6.
Definition duration_max_secs : Z := 9223372036854775.

Class Chrono := {
  (** [DateTime::to_rfc3339_opts(SecondsFormat::Secs, true)] *)
  rfc3339_secs : Z → string;
  (** [DateTime::to_rfc3339] *)
  rfc3339_full : Z → string;
  (** [DateTime::parse_from_rfc3339(..).ok()] as an instant *)
  parse_from_rfc3339 : string → option Z;
  (** [DateTime::<Utc>::MIN_UTC], [MAX_UTC] *)
  datetime_min : Z;
  datetime_max : Z }.

(** What the code relies on: printed instants parse back (to the second, or
    exactly), the text of RFC 3339 seconds sorts like the instants, and the
    calendar range covers four-digit years but not [Duration::MAX]. *)
Class ChronoLaws `{!Chrono} : Prop := {
  parse_secs t : wire_range t → parse_from_rfc3339 (rfc3339_secs t) = Some (floor_secs t);
  parse_full t : wire_range t → parse_from_rfc3339 (rfc3339_full t) = Some t;
  secs_text_order t u : wire_range t → wire_range u →
    String.compare (rfc3339_secs t) (rfc3339_secs u) = Z.compare (floor_secs t) (floor_secs u);
  datetime_min_bound : datetime_min ≤ 0;
  datetime_max_wire : year_10000 ≤ datetime_max;
  datetime_max_bound : datetime_max < duration_max }.

(** ** Lease deadlines

    [now + chrono::Duration::try_seconds(ttl_secs as i64)
             .unwrap_or(chrono::Duration::MAX)]:
    the [DateTime + TimeDelta] operator panics outside the calendar range. *)
Definition lease_duration (ttl_secs : Z) : Z :=
  let s := as_i64 ttl_secs in
  if (- duration_max_secs <=? s) && (s <=? duration_max_secs) then s * nanos else duration_max.

Definition lease_deadline `{!Chrono} (now ttl_secs : Z) : result Z :=
  let d := now + lease_duration ttl_secs in
  if (datetime_min <=? d) && (d <=? datetime_max) then Ok d
  else Err (Panicked "`DateTime + TimeDelta` overflowed").

Lemma nanos_pos : 0 < nanos.
Proof. unfold nanos. lia. Qed.
Lemma floor_secs_le t : floor_secs t ≤ t.
Proof. unfold floor_secs. pose proof (Z.mul_div_le t nanos nanos_pos). lia. Qed.
Lemma floor_secs_gt t : t - nanos < floor_secs t.
Proof. unfold floor_secs. pose proof (Z.mul_succ_div_gt t nanos nanos_pos). lia. Qed.
Lemma floor_secs_add t s : floor_secs (t + s * nanos) = floor_secs t + s * nanos.
Proof. unfold floor_secs. rewrite Z.div_add by (unfold nanos; lia). lia. Qed.
Lemma floor_secs_nonneg t : 0 ≤ t → 0 ≤ floor_secs t.
Proof. unfold floor_secs, nanos. intros. apply Z.mul_nonneg_nonneg; [apply Z.div_pos|]; lia. Qed.

Lemma lease_duration_small ttl : 0 ≤ ttl ≤ duration_max_secs → lease_duration ttl = ttl * nanos.
Proof.
  intros H. unfold lease_duration. rewrite as_i64_small by (unfold duration_max_secs in *; lia).
  destruct (Z.leb_spec (- duration_max_secs) ttl), (Z.leb_spec ttl duration_max_secs); try done; lia.
Qed.

(** For the lifetimes a configuration uses, the deadline is [now + ttl]. *)
Lemma lease_deadline_small `{!Chrono, !ChronoLaws} now ttl :
  0 ≤ now → 0 ≤ ttl ≤ duration_max_secs → now + ttl * nanos < year_10000 →
  lease_deadline now ttl = Ok (now + ttl * nanos).
Proof.
  intros Hn Ht Hy. unfold lease_deadline. rewrite lease_duration_small by done.
  pose proof datetime_min_bound. pose proof datetime_max_wire. pose proof nanos_pos.
  rewrite (proj2 (Z.leb_le _ _)) by nia. rewrite (proj2 (Z.leb_le _ _)) by nia. done.
Qed.

(** The stored text of a deadline, read back. *)
Lemma stored_lease_secs `{!Chrono, !ChronoLaws} now ttl :
  0 ≤ now → 0 ≤ ttl ≤ duration_max_secs → now + ttl * nanos < year_10000 →
  parse_from_rfc3339 (rfc3339_secs (now + ttl * nanos)) = Some (floor_secs now + ttl * nanos).
Proof.
  intros Hn Ht Hy. rewrite parse_secs; [by rewrite floor_secs_add|].
  split; [|done]. pose proof nanos_pos. nia.
Qed.

(** A lifetime whose seconds exceed [chrono]'s duration range does not
    saturate: [unwrap_or(Duration::MAX)] is followed by an addition that
    leaves the calendar, so computing the deadline panics at any instant of
    the supported range. *)
Theorem huge_ttl_panics `{!Chrono, !ChronoLaws} now ttl :
  0 ≤ now → duration_max_secs < ttl < 2 ^ 63 →
  lease_deadline now ttl = Err (Panicked "`DateTime + TimeDelta` overflowed").
Proof.
  intros Hn Ht. unfold lease_deadline, lease_duration.
  rewrite as_i64_small by (unfold duration_max_secs in *; lia).
  destruct (Z.leb_spec ttl duration_max_secs); [lia|]. rewrite andb_false_r.
  pose proof datetime_max_bound. destruct (Z.leb_spec (now + duration_max) datetime_max); [lia|].
  by rewrite andb_false_r.
Qed.

(** ** A concrete clock text: twelve decimal digits of seconds *)
Module DecimalChrono.
Definition digit (d : Z) : ascii := ascii_of_N (48 + Z.to_N d)%N.
Fixpoint dec (n : nat) (z : Z) : string :=
  match n with
  | O => ""
  | S n => String (digit (z / 10 ^ Z.of_nat n)) (dec n (z mod 10 ^ Z.of_nat n))
  end.
Fixpoint parse_fixed (n : nat) (acc : Z) (s : string) : option (Z * string) :=
  match n, s with
  | O, _ => Some (acc, s)
  | S n, String c s => d ← digit_value c; parse_fixed n (10 * acc + d) s
  | S _, "" => None
  end.

Lemma digit_value_digit d : 0 ≤ d < 10 → digit_value (digit d) = Some d.
Proof.
  intros H. assert (d = 0 ∨ d = 1 ∨ d = 2 ∨ d = 3 ∨ d = 4 ∨ d = 5 ∨ d = 6 ∨ d = 7 ∨ d = 8 ∨ d = 9)
    as Hd by lia.
  repeat (destruct Hd as [->|Hd]; [reflexivity|]). by subst d.
Qed.
Lemma digit_compare a b : 0 ≤ a < 10 → 0 ≤ b < 10 → Ascii.compare (digit a) (digit b) = Z.compare a b.
Proof.
  intros Ha Hb. unfold Ascii.compare, digit.
  rewrite !N_ascii_embedding by lia.
  destruct (Z.compare_spec a b); [apply N.compare_eq_iff|apply N.compare_lt_iff|apply N.compare_gt_iff]; lia.
Qed.
Lemma pow10 n : 0 < 10 ^ Z.of_nat n.
Proof. apply Z.pow_pos_nonneg; lia. Qed.
Lemma pow10_S n : 10 ^ Z.of_nat (S n) = 10 * 10 ^ Z.of_nat n.
Proof. rewrite Nat2Z.inj_succ, Z.pow_succ_r by lia. done. Qed.
Lemma head_digit n z : 0 ≤ z < 10 ^ Z.of_nat (S n) → 0 ≤ z / 10 ^ Z.of_nat n < 10.
Proof.
  rewrite pow10_S. intros H. pose proof (pow10 n). split; [apply Z.div_pos; lia|].
  apply Z.div_lt_upper_bound; lia.
Qed.

Lemma parse_fixed_dec n acc z r :
  0 ≤ z < 10 ^ Z.of_nat n → parse_fixed n acc (dec n z +:+ r) = Some (acc * 10 ^ Z.of_nat n + z, r).
Proof.
  revert acc z. induction n as [|n IH]; intros acc z Hz.
  { simpl in *. do 2 f_equal. lia. }
  change (parse_fixed (S n) acc (dec (S n) z +:+ r)) with
    (d ← digit_value (digit (z / 10 ^ Z.of_nat n));
     parse_fixed n (10 * acc + d) (dec n (z mod 10 ^ Z.of_nat n) +:+ r)).
  rewrite digit_value_digit by (by apply head_digit). simpl.
  rewrite IH by (apply Z.mod_pos_bound, pow10). rewrite pow10_S. do 2 f_equal.
  pose proof (Z.div_mod z (10 ^ Z.of_nat n)). pose proof (pow10 n). lia.
Qed.

Lemma dec_compare n a b :
  0 ≤ a < 10 ^ Z.of_nat n → 0 ≤ b < 10 ^ Z.of_nat n →
  String.compare (dec n a) (dec n b) = Z.compare a b.
Proof.
  revert a b. induction n as [|n IH]; intros a b Ha Hb.
  { simpl in *. assert (a = 0) as -> by lia. by assert (b = 0) as -> by lia. }
  change (String.compare (dec (S n) a) (dec (S n) b)) with
    (match Ascii.compare (digit (a / 10 ^ Z.of_nat n)) (digit (b / 10 ^ Z.of_nat n)) with
     | Eq => String.compare (dec n (a mod 10 ^ Z.of_nat n)) (dec n (b mod 10 ^ Z.of_nat n))
     | c => c end).
  rewrite digit_compare by (by apply head_digit).
  pose proof (pow10 n) as Hp. pose proof (Z.div_mod a (10 ^ Z.of_nat n)). pose proof (Z.div_mod b (10 ^ Z.of_nat n)).
  pose proof (Z.mod_pos_bound a _ Hp). pose proof (Z.mod_pos_bound b _ Hp).
  destruct (Z.compare_spec (a / 10 ^ Z.of_nat n) (b / 10 ^ Z.of_nat n)) as [E|E|E].
  - rewrite IH by done.
    destruct (Z.compare_spec (a mod 10 ^ Z.of_nat n) (b mod 10 ^ Z.of_nat n)); symmetry;
      [apply Z.compare_eq_iff|apply Z.compare_lt_iff|apply Z.compare_gt_iff]; nia.
  - symmetry. apply Z.compare_lt_iff. nia.
  - symmetry. apply Z.compare_gt_iff. nia.
Qed.

Definition secs_text (t : Z) : string := (dec 12 (t / nanos) +:+ "Z")%string.
Definition full_text (t : Z) : string := (dec 12 (t / nanos) +:+ String "."%char (dec 9 (t mod nanos)))%string.
Definition parse (s : string) : option Z :=
  '(secs, rest) ← parse_fixed 12 0 s;
  match rest with
  | String "Z"%char "" => Some (secs * nanos)
  | String "."%char frac =>
    '(f, r) ← parse_fixed 9 0 frac; if is_empty r then Some (secs * nanos + f) else None
  | _ => None
  end.

#[export] Instance chrono : Chrono := {|
  rfc3339_secs := secs_text; rfc3339_full := full_text; parse_from_rfc3339 := parse;
  datetime_min := 0; datetime_max := year_10000 |}.

Lemma secs_range t : wire_range t → 0 ≤ t / nanos < 10 ^ Z.of_nat 12.
Proof.
  intros [H0 H1]. split; [apply Z.div_pos; unfold nanos; lia|].
  apply Z.div_lt_upper_bound; unfold year_10000, nanos in *; lia.
Qed.

Lemma compare_app_same_tail a b r : String.length a = String.length b →
  String.compare (a +:+ r) (b +:+ r) = String.compare a b.
Proof.
  revert b. induction a as [|c a IH]; intros [|c' b] H; simpl in *; try done.
  - clear H. assert (∀ s, String.compare s s = Eq) as Hr; [|apply Hr].
    intros s. pose proof (cmp_opp (c := String.compare) s s) as E. by destruct (String.compare s s).
  - destruct (Ascii.compare c c'); [|done|done]. apply IH. lia.
Qed.
Lemma dec_length n z : String.length (dec n z) = n.
Proof. revert z. induction n as [|n IH]; intros z; simpl; [done|]. by rewrite IH. Qed.

#[export] Instance laws : ChronoLaws.
Proof.
  split.
  - intros t Ht. cbn [parse_from_rfc3339 rfc3339_secs chrono]. unfold parse, secs_text.
    rewrite parse_fixed_dec by by apply secs_range. done.
  - intros t Ht. cbn [parse_from_rfc3339 rfc3339_full chrono]. unfold parse, full_text.
    rewrite parse_fixed_dec by by apply secs_range. cbn [mbind option_bind].
    rewrite <- (string_app_nil_r (dec 9 (t mod nanos))).
    rewrite parse_fixed_dec by (apply Z.mod_pos_bound; apply nanos_pos). simpl. f_equal.
    pose proof (Z.div_mod t nanos). unfold nanos in *. lia.
  - intros t u Ht Hu. cbn [rfc3339_secs chrono]. unfold secs_text.
    rewrite compare_app_same_tail by by rewrite !dec_length.
    rewrite dec_compare by by apply secs_range.
    unfold floor_secs. pose proof nanos_pos.
    destruct (Z.compare_spec (t / nanos) (u / nanos)); symmetry;
      [apply Z.compare_eq_iff|apply Z.compare_lt_iff|apply Z.compare_gt_iff]; nia.
  - reflexivity.
  - reflexivity.
  - unfold datetime_max, chrono, year_10000, duration_max, nanos. lia.
Qed.
End DecimalChrono.

(** The claim at a concrete clock: half the range above the bound. *)
Lemma huge_ttl_panics_witness :
  @lease_deadline DecimalChrono.chrono 0 9223372036854775000
  = Err (Panicked "`DateTime + TimeDelta` overflowed").
Proof.
  apply (@huge_ttl_panics DecimalChrono.chrono DecimalChrono.laws 0 9223372036854775000).
  - lia.
  - unfold duration_max_secs. lia.
Defined.
