(* ===== verification/Database.v ===== *)
(** The runtime database: rows, the world an operation runs in (database,
    clock, files), the SQL statements the code is made of, transactions, and
    the row and transaction helpers of [src/src/project/database.rs]. *)
From S2P Require Import Prelude Status View Chrono.

(** ** Rows *)
Record task_row := TaskRow {
  t_path : string;
  t_status : string;
  t_paused_status : option string;
  t_spec_path : option string;
  t_milestone_id : option string;
  t_claimed_by : option string;
  t_lease_until : option string;
  t_last_heartbeat : option string;
  t_check_retries : Z;
  t_review_cycles : Z;
  t_failure_reason : option string;
  t_awaiting_human_by : option string;
  t_awaiting_human_status : option string;
  t_human_question_order : option Z;
  t_human_answer_recorded : Z;
  t_executor_dispatches : Z;
  t_view : view_cols }.
#[global] Instance eta_task_row : Eta task_row := λ r,
  TaskRow (t_path r) (t_status r) (t_paused_status r) (t_spec_path r) (t_milestone_id r)
    (t_claimed_by r) (t_lease_until r) (t_last_heartbeat r) (t_check_retries r) (t_review_cycles r)
    (t_failure_reason r) (t_awaiting_human_by r) (t_awaiting_human_status r)
    (t_human_question_order r) (t_human_answer_recorded r) (t_executor_dispatches r) (t_view r).
#[global] Instance task_row_eq_dec : EqDecision task_row.
Proof. solve_decision. Defined.

Record run_row := RunRow {
  r_task_id : string;
  r_role : string;
  r_agent : string;
  r_status : string;
  r_started_at : string;
  r_updated_at : string;
  r_pid : option Z;
  r_workspace_path : string;
  r_view : view_cols }.
#[global] Instance eta_run_row : Eta run_row := λ r,
  RunRow (r_task_id r) (r_role r) (r_agent r) (r_status r) (r_started_at r) (r_updated_at r)
    (r_pid r) (r_workspace_path r) (r_view r).
#[global] Instance run_row_eq_dec : EqDecision run_row.
Proof. solve_decision. Defined.

(** The leaves of the [serde_json] objects stored as event payloads. *)
Inductive jval : Type :=
  | JNull
  | JBool (b : bool)
  | JNum (z : Z)
  | JStr (s : string)
  | JTime (t : Z)
  | JOpaque (text : string).
#[global] Instance jval_eq_dec : EqDecision jval.
Proof. solve_decision. Defined.
Definition payload : Type := list (string * jval).
Definition jopt (o : option string) : jval := match o with Some s => JStr s | None => JNull end.

Record event_row := EventRow {
  e_id : Z;
  e_run_id : option string;
  e_type : string;
  e_payload : payload;
  e_created_at : string }.
#[global] Instance event_row_eq_dec : EqDecision event_row.
Proof. solve_decision. Defined.

(** The single row of [project_runtime_state]. *)
Record prs_row := PrsRow {
  p_selected_spec : option string;
  p_last_spec_path : option string;
  p_last_archive_path : option string;
  p_updated_at : string;
  p_source_revision_id : option string;
  p_manifest_algorithm : option string;
  p_manifest_digest : option string;
  p_graph_snapshot_id : option string;
  p_graph_status : string;
  p_graph_updated_at : option string }.
#[global] Instance eta_prs_row : Eta prs_row := λ r,
  PrsRow (p_selected_spec r) (p_last_spec_path r) (p_last_archive_path r) (p_updated_at r)
    (p_source_revision_id r) (p_manifest_algorithm r) (p_manifest_digest r)
    (p_graph_snapshot_id r) (p_graph_status r) (p_graph_updated_at r).
#[global] Instance prs_row_eq_dec : EqDecision prs_row.
Proof. solve_decision. Defined.

Record archive_row := ArchiveRow {
  a_spec_path : string;
  a_archive_dir : string;
  a_closed_at : string;
  a_task_count : Z;
  a_run_count : Z;
  a_outcome : string }.
#[global] Instance archive_row_eq_dec : EqDecision archive_row.
Proof. solve_decision. Defined.

(** ** The database

    Events are kept in insertion order with the [AUTOINCREMENT] counter; a row
    created before a column was added reads that column's default, so rows
    carry every column of the current schema and [d_columns] says which tables
    exist and which of their columns.  [d_history] holds the rows of
    [runtime_schema_migrations] and [d_metadata] those of the legacy
    [runtime_metadata] table. *)
Record db := Db {
  d_tasks : gmap string task_row;
  d_runs : gmap string run_row;
  d_events : list event_row;
  d_event_seq : Z;
  d_prs : option prs_row;
  d_archives : list archive_row;
  d_metadata : gmap string (option string);
  d_user_version : Z;
  d_history : list (Z * string * string);
  d_columns : gmap string (list string) }.
#[global] Instance eta_db : Eta db := λ r,
  Db (d_tasks r) (d_runs r) (d_events r) (d_event_seq r) (d_prs r) (d_archives r) (d_metadata r)
    (d_user_version r) (d_history r) (d_columns r).

Record world := World {
  w_db : db;
  w_clock : Z;
  w_ticks : list Z;
  w_files : gmap string string }.
#[global] Instance eta_world : Eta world := λ r, World (w_db r) (w_clock r) (w_ticks r) (w_files r).

(** What the operating system answers during one operation. *)
Class Env := {
  (** [platform::pid_is_alive] *)
  process_is_alive : Z → bool;
  (** [std::fs::canonicalize(..).ok()] *)
  canonicalize : string → option string;
  (** whether a write to the path succeeds *)
  write_ok : string → bool;
  (** [std::process::id] *)
  self_pid : Z }.

(** ** Statements *)
Definition get_db : st world db := gets w_db.
Definition put_db (f : db → db) : st world unit := modify (λ w, w <| w_db := f (w_db w) |>).

(** An immediate transaction whose body failed is dropped, which rolls the
    database back; the clock and the files keep what happened. *)
Definition transaction {A} (m : st world A) : st world A := λ w,
  match m w with
  | (Ok a, w') => (Ok a, w')
  | (Err e, w') => (Err e, w' <| w_db := w_db w |>)
  end.

(** [Utc::now()]: the clock moves by the next tick, in either direction. *)
Definition utc_now : st world Z := λ w,
  match w_ticks w with
  | [] => (Ok (w_clock w), w)
  | d :: ds => (Ok (w_clock w + d), w <| w_clock := w_clock w + d |> <| w_ticks := ds |>)
  end.

Definition select_task (id : string) : st world (option task_row) := gets (λ w, d_tasks (w_db w) !! id).
Definition select_run (id : string) : st world (option run_row) := gets (λ w, d_runs (w_db w) !! id).
Definition tasks_where (p : string → task_row → bool) (d : db) : list (string * task_row) :=
  filter (λ x, p x.1 x.2 = true) (map_to_list (d_tasks d)).
Definition runs_where (p : string → run_row → bool) (d : db) : list (string * run_row) :=
  filter (λ x, p x.1 x.2 = true) (map_to_list (d_runs d)).

(** [UPDATE tasks SET .. WHERE id = ?id AND p]: the number of changed rows. *)
Definition update_task_where (id : string) (p : task_row → bool) (f : task_row → task_row) : st world Z :=
  t ← select_task id;
  match t with
  | Some t =>
    if p t then put_db (λ d, d <| d_tasks := <[id := f t]> (d_tasks d) |>) ;; mret 1 else mret 0
  | None => mret 0
  end.
Definition update_task (id : string) (f : task_row → task_row) : st world Z :=
  update_task_where id (λ _, true) f.
Definition update_run (id : string) (f : run_row → run_row) : st world Z :=
  r ← select_run id;
  match r with
  | Some r => put_db (λ d, d <| d_runs := <[id := f r]> (d_runs d) |>) ;; mret 1
  | None => mret 0
  end.

(** A new row of [tasks] with the columns an [INSERT] leaves at their default. *)
Definition task_row_default (path status : string) : task_row :=
  TaskRow path status None None None None None None 0 0 None None None None 0 0 view_cols_default.

(** [INSERT OR IGNORE INTO tasks (id, path, status)]: the number of new rows. *)
Definition insert_or_ignore_task (id path status : string) : st world Z :=
  t ← select_task id;
  match t with
  | Some _ => mret 0
  | None =>
    put_db (λ d, d <| d_tasks := <[id := task_row_default path status]> (d_tasks d) |>) ;; mret 1
  end.

(** [INSERT INTO runs]: the primary key and the reference to [tasks] are enforced. *)
Definition insert_run (id : string) (r : run_row) : st world unit :=
  d ← get_db;
  match d_runs d !! id with
  | Some _ => fail (SqlConstraint "UNIQUE constraint failed: runs.id")
  | None =>
    match d_tasks d !! r_task_id r with
    | None => fail (SqlConstraint "FOREIGN KEY constraint failed")
    | Some _ => put_db (λ d, d <| d_runs := <[id := r]> (d_runs d) |>)
    end
  end.

Section database.
Context {CH : Chrono}.

(** [timestamp()] *)
Definition timestamp : st world string := rfc3339_secs <$> utc_now.

(** ** [database.rs] *)
Definition insert_event_in_transaction (run_id : option string) (type : string) (p : payload) : st world unit :=
  now ← timestamp;
  d ← get_db;
  if match run_id with None => true | Some r => some (d_runs d !! r) end then
    put_db (λ d, d <| d_events := (d_events d ++ [EventRow (d_event_seq d + 1) run_id type p now])%list |>
                   <| d_event_seq := d_event_seq d + 1 |>)
  else fail (SqlConstraint "FOREIGN KEY constraint failed").

Definition insert_event (run_id : option string) (type : string) (p : payload) : st world unit :=
  match run_id with
  | Some r =>
    row ← select_run r;
    ensure (some row) "Cannot insert event for unknown run id {run_id}" [r]
  | None => mret tt
  end ;;
  insert_event_in_transaction run_id type p.

Definition upsert_task (id path : string) (status : TaskStatus) (spec_path milestone_id : option string) :
    st world unit :=
  t ← select_task id;
  match t with
  | Some t =>
    put_db (λ d, d <| d_tasks := <[id := t <| t_path := path |> <| t_status := as_str status |>
                                          <| t_spec_path := spec_path ∪ t_spec_path t |>
                                          <| t_milestone_id := milestone_id ∪ t_milestone_id t |>]>
                                   (d_tasks d) |>)
  | None =>
    put_db (λ d, d <| d_tasks := <[id := (task_row_default path (as_str status))
                                          <| t_spec_path := spec_path |>
                                          <| t_milestone_id := milestone_id |>]> (d_tasks d) |>)
  end.

Definition ensure_task_exists (id path : string) : st world unit :=
  insert_or_ignore_task id path (as_str Unknown) ;; mret tt.

(** [str::trim] then drop the empty string, on the way in and on the way out. *)
Definition normalized_metadata_value (v : option string) : option string :=
  v ≫= λ v, let v := trim v in if is_empty v then None else Some v.
Definition normalize_optional_db_string (v : option string) : option string :=
  v ≫= λ v, let v := trim v in if is_empty v then None else Some v.

Record ProjectSelection := { selected_spec : option string }.

Definition read_project_selection_from_database : st world ProjectSelection :=
  d ← get_db;
  mret (match d_prs d with
        | Some r => {| selected_spec := normalize_optional_db_string (p_selected_spec r) |}
        | None => {| selected_spec := None |}
        end).

Definition prs_default (now : string) : prs_row :=
  PrsRow None None None now None None None None "unknown" None.

Definition ensure_project_runtime_state_row : st world unit :=
  now ← timestamp;
  put_db (λ d, match d_prs d with Some _ => d | None => d <| d_prs := Some (prs_default now) |> end).

(** [UPDATE project_runtime_state SET .. WHERE row_id = 1 AND p] *)
Definition update_prs_where (p : prs_row → bool) (f : prs_row → prs_row) : st world Z :=
  d ← get_db;
  match d_prs d with
  | Some r => if p r then put_db (λ d, d <| d_prs := Some (f r) |>) ;; mret 1 else mret 0
  | None => mret 0
  end.
Definition update_prs (f : prs_row → prs_row) : st world Z := update_prs_where (λ _, true) f.

Definition write_project_selection_to_database (s : ProjectSelection) : st world unit :=
  ensure_project_runtime_state_row ;;
  now ← timestamp;
  update_prs (λ r, r <| p_selected_spec := normalized_metadata_value (selected_spec s) |>
                     <| p_updated_at := now |>) ;;
  mret tt.

Definition read_last_spec_path_from_database : st world (option string) :=
  d ← get_db;
  mret (normalize_optional_db_string (r ← d_prs d; p_last_spec_path r)).

Definition write_last_spec_path_to_database (path : option string) : st world unit :=
  ensure_project_runtime_state_row ;;
  now ← timestamp;
  update_prs (λ r, r <| p_last_spec_path := normalized_metadata_value path |>
                     <| p_updated_at := now |>) ;;
  mret tt.

Definition read_last_spec_archive_path_from_database : st world (option string) :=
  d ← get_db;
  mret (normalize_optional_db_string (r ← d_prs d; p_last_archive_path r)).

Definition write_last_spec_archive_path_to_database (path : option string) : st world unit :=
  ensure_project_runtime_state_row ;;
  now ← timestamp;
  update_prs (λ r, r <| p_last_archive_path := normalized_metadata_value path |>
                     <| p_updated_at := now |>) ;;
  mret tt.

(** *** Counters *)
Definition task_check_retries (id : string) : st world Z :=
  t ← select_task id; mret (as_u32 (from_option t_check_retries 0 t)).
Definition task_review_cycles (id : string) : st world Z :=
  t ← select_task id; mret (as_u32 (from_option t_review_cycles 0 t)).
Definition task_executor_dispatches (id : string) : st world Z :=
  t ← select_task id; mret (as_u32 (from_option t_executor_dispatches 0 t)).

(** *** Claim candidates *)
Record ReadyTaskCandidate := Candidate {
  rc_id : string;
  rc_path : string;
  rc_status : string;
  rc_paused_status : option string;
  rc_check_retries : Z;
  rc_review_cycles : Z;
  rc_failure_reason : option string;
  rc_claimed_by : option string;
  rc_lease_until : option string }.
#[global] Instance eta_candidate : Eta ReadyTaskCandidate := λ r,
  Candidate (rc_id r) (rc_path r) (rc_status r) (rc_paused_status r) (rc_check_retries r)
    (rc_review_cycles r) (rc_failure_reason r) (rc_claimed_by r) (rc_lease_until r).

Definition candidate_of_row (id : string) (t : task_row) : ReadyTaskCandidate :=
  Candidate id (t_path t) (t_status t) (t_paused_status t) (as_u32 (t_check_retries t))
    (as_u32 (t_review_cycles t)) (t_failure_reason t) (t_claimed_by t) (t_lease_until t).

Definition has_status (statuses : list TaskStatus) (status : string) : bool :=
  existsb (λ s, bool_decide (as_str s = status)) statuses.

Definition by_id {R} : string * R → string * R → comparison := on_key fst String.compare.

Definition task_candidates_by_status (statuses : list TaskStatus) : st world (list ReadyTaskCandidate) :=
  if bool_decide (statuses = []) then mret []
  else
    d ← get_db;
    mret (map (λ x, candidate_of_row x.1 x.2)
            (order_by by_id (tasks_where (λ _ t, has_status statuses (t_status t)) d))).

Definition task_candidate_by_id (id : string) : st world (option ReadyTaskCandidate) :=
  t ← select_task id;
  mret (candidate_of_row id <$> t).

(** *** Leases *)
Definition parse_lease_until (v : option string) : option Z := v ≫= parse_from_rfc3339.

Definition claim_task_in_transaction (id agent : string) (lease_until now : Z) : st world unit :=
  update_task id (λ t, t <| t_claimed_by := Some agent |>
                         <| t_lease_until := Some (rfc3339_secs lease_until) |>
                         <| t_last_heartbeat := Some (rfc3339_secs now) |>) ;;
  insert_event_in_transaction None "task_claimed"
    [("task_id", JStr id); ("claimed_by", JStr agent); ("lease_until", JTime lease_until)].

Definition no_lease (t : task_row) : task_row :=
  t <| t_claimed_by := None |> <| t_lease_until := None |> <| t_last_heartbeat := None |>.
Definition clear_task_lease (id : string) : st world unit := update_task id no_lease ;; mret tt.

(** *** Task numbers *)
Definition parse_task_number (task_id : string) : option Z := strip_prefix "t-" task_id ≫= parse_u32.

Definition max_numbers (ids : list string) : Z :=
  foldl (λ m id, match parse_task_number id with Some n => Z.max m n | None => m end) 0 ids.

(** SQLite's [LIKE] folds ASCII case. *)
Definition like_task_id (id : string) : bool := starts_with "t-" id || starts_with "T-" id.

Definition max_task_number_in_database : st world Z :=
  d ← get_db;
  mret (max_numbers (map fst (tasks_where (λ id _, like_task_id id) d))).

(** The name of the directory entry under [dir] that holds the path. *)
Fixpoint first_component (s : string) : string :=
  match s with
  | "" => ""
  | String "/"%char _ => ""
  | String c s => String c (first_component s)
  end.
Definition dir_entries (dir : string) (files : gmap string string) : list string :=
  omap (λ p, first_component <$> strip_prefix (dir +:+ "/")%string p) (map fst (map_to_list files)).

Definition max_task_number_from_files (tasks_dir : string) : st world Z :=
  files ← gets w_files;
  mret (max_numbers (map (λ n, default n (strip_suffix ".md" n)) (dir_entries tasks_dir files))).
End database.
