(* ===== verification/WellFormed.v ===== *)
(** The well-formedness invariant of the runtime database (references between
    tables, event numbering, values every reader can decode, question order)
    and the proof that every statement the operations are made of keeps it. *)
From S2P Require Import Prelude Status View Chrono Database.

Definition is_col {A} (P : A → Prop) (o : option A) : Prop := match o with Some a => P a | None => True end.

Definition view_ok (c : view_cols) : Prop := is_ok (repository_view_reference_from_database c) = true.

(** Every column of a task row holds a value its reader accepts. *)
Record task_wf (t : task_row) : Prop := {
  tw_status : valid_status (t_status t);
  tw_paused : is_col valid_status (t_paused_status t);
  tw_awaiting : is_col valid_status (t_awaiting_human_status t);
  tw_retries : is_u32 (t_check_retries t);
  tw_cycles : is_u32 (t_review_cycles t);
  tw_dispatches : is_u32 (t_executor_dispatches t);
  tw_recorded : t_human_answer_recorded t = 0 ∨ t_human_answer_recorded t = 1;
  tw_view : view_ok (t_view t) }.

Record run_wf (r : run_row) : Prop := {
  rw_pid : is_col is_u32 (r_pid r);
  rw_view : view_ok (r_view r) }.

Record db_wf (d : db) : Prop := {
  dw_tasks : map_Forall (λ _, task_wf) (d_tasks d);
  dw_runs : map_Forall (λ _, run_wf) (d_runs d);
  (** foreign keys *)
  dw_run_task : map_Forall (λ _ r, is_Some (d_tasks d !! r_task_id r)) (d_runs d);
  dw_event_run : Forall (λ e, is_col (λ r, is_Some (d_runs d !! r)) (e_run_id e)) (d_events d);
  (** event ids are positive, increasing and bounded by the counter *)
  dw_event_sorted : StronglySorted Z.lt (map e_id (d_events d));
  dw_event_range : Forall (λ e, 0 < e_id e ≤ d_event_seq d) (d_events d);
  dw_seq : 0 ≤ d_event_seq d;
  (** question orders are event ids and no two tasks share one *)
  dw_order_range : map_Forall (λ _ t, is_col (λ n, 0 < n ≤ d_event_seq d) (t_human_question_order t)) (d_tasks d);
  dw_order_inj : ∀ i j t u n, d_tasks d !! i = Some t → d_tasks d !! j = Some u →
    t_human_question_order t = Some n → t_human_question_order u = Some n → i = j;
  (** the canonical graph status is one of the values of its CHECK constraint *)
  dw_graph_status : is_col (λ p, p_graph_status p ∈ ["unknown"; "stale"; "fresh"]) (d_prs d) }.

Definition wf (w : world) : Prop := db_wf (w_db w).

(** ** Queries *)
Lemma elem_of_tasks_where p d id t : (id, t) ∈ tasks_where p d ↔ d_tasks d !! id = Some t ∧ p id t = true.
Proof. unfold tasks_where. rewrite list_elem_of_filter, elem_of_map_to_list. simpl. tauto. Qed.

Lemma elem_of_runs_where p d id r : (id, r) ∈ runs_where p d ↔ d_runs d !! id = Some r ∧ p id r = true.
Proof. unfold runs_where. rewrite list_elem_of_filter, elem_of_map_to_list. simpl. tauto. Qed.
#[global] Instance by_id_cmp {R} : TotalCmp (@by_id R).
Proof. exact (on_key_cmp fst String.compare string_cmp). Qed.

(** ** Row lemmas *)
Lemma view_ok_default : view_ok view_cols_default.
Proof. reflexivity. Qed.
Lemma view_ok_to_cols v : validate v = Ok tt → view_ok (view_to_cols v).
Proof. intros H. unfold view_ok. by rewrite view_from_to_cols. Qed.

(** A rejected submission's view: the tree is dropped and the view is mutable again. *)
Definition unfreeze_cols (c : view_cols) : view_cols :=
  c <| c_tree_algorithm := None |> <| c_tree_digest := None |> <| c_lifecycle := "mutable" |>.

Lemma unfreeze_to_cols v : unfreeze_cols (view_to_cols v) = view_to_cols (mutable_successor v).
Proof. done. Qed.
Lemma view_ok_unfreeze c : view_ok c → view_ok (unfreeze_cols c).
Proof.
  unfold view_ok at 1. destruct (repository_view_reference_from_database c) as [v|] eqn:E; [|done].
  intros _. apply view_to_from_cols in E as [<- Hv]. rewrite unfreeze_to_cols.
  by apply view_ok_to_cols, view_mutable_successor_valid.
Qed.

Lemma task_row_default_wf path status : valid_status status → task_wf (task_row_default path status).
Proof. intros H. pose proof is_u32_0. split; simpl; auto using view_ok_default. Qed.
Lemma no_lease_wf t : task_wf t → task_wf (no_lease t).
Proof. by destruct 1; split. Qed.

Create HintDb rows discriminated.
#[export] Hint Resolve view_ok_default view_ok_to_cols view_ok_unfreeze task_row_default_wf no_lease_wf
  valid_status_as_str is_u32_0 as_u32_range : rows.

#[export] Hint Extern 5 (valid_status _) => solve [exact (eq_refl true)] : rows.

(** The new row of an update keeps the row invariant and does not touch the
    question order, except to clear it. *)
Definition row_update (f : task_row → task_row) : Prop :=
  ∀ t, task_wf t → task_wf (f t) ∧
    (t_human_question_order (f t) = t_human_question_order t ∨ t_human_question_order (f t) = None).

Ltac solve_row_update :=
  let t := fresh "t" in
  intros t []; split; [split; cbn -[as_str]; eauto with rows|cbn; auto].

(** ** Database updates *)
Section updates.
Context (d : db) (Hd : db_wf d).

Lemma db_wf_set_tasks id t :
  task_wf t →
  is_col (λ n, 0 < n ≤ d_event_seq d) (t_human_question_order t) →
  (∀ j u n, j ≠ id → d_tasks d !! j = Some u → t_human_question_order u = Some n →
    t_human_question_order t ≠ Some n) →
  db_wf (d <| d_tasks := <[id := t]> (d_tasks d) |>).
Proof.
  intros Ht Hr Hn. destruct Hd. split; simpl; try done.
  - by apply map_Forall_insert_2.
  - intros i r Hi. destruct (decide (r_task_id r = id)) as [->|Hne].
    + rewrite lookup_insert_eq. eauto.
    + rewrite lookup_insert_ne by done. eauto.
  - by apply map_Forall_insert_2.
  - intros i j a b n. rewrite !lookup_insert_Some.
    intros [[<- <-]|[Hi Ha]] [[<- <-]|[Hj Hb]] Hoa Hob; eauto.
    + exfalso. eapply (Hn j b n); eauto.
    + exfalso. eapply (Hn i a n); eauto.
Qed.

Lemma db_wf_update_row id t u :
  d_tasks d !! id = Some t → task_wf u →
  (t_human_question_order u = t_human_question_order t ∨ t_human_question_order u = None) →
  db_wf (d <| d_tasks := <[id := u]> (d_tasks d) |>).
Proof.
  intros Ht Hu Ho. apply db_wf_set_tasks; [done| |].
  - destruct Ho as [->| ->]; [|done]. exact (dw_order_range _ Hd _ _ Ht).
  - intros j v n Hj Hv Hn Hun. destruct Ho as [Ho|Ho]; [|congruence]. rewrite Ho in Hun.
    apply Hj. eapply (dw_order_inj _ Hd); eauto.
Qed.

Lemma db_wf_new_row id u :
  task_wf u → t_human_question_order u = None → db_wf (d <| d_tasks := <[id := u]> (d_tasks d) |>).
Proof. intros Hu Ho. apply db_wf_set_tasks; [done|by rewrite Ho|congruence]. Qed.

Lemma db_wf_set_run id r :
  run_wf r → is_Some (d_tasks d !! r_task_id r) → db_wf (d <| d_runs := <[id := r]> (d_runs d) |>).
Proof.
  intros Hr Ht. destruct Hd. split; simpl; try done.
  - by apply map_Forall_insert_2.
  - by apply map_Forall_insert_2.
  - eapply Forall_impl; [exact dw_event_run0|]. intros e Hi. cbn beta in Hi |- *. destruct (e_run_id e) as [i|]; [|done]. simpl in *.
    destruct (decide (i = id)) as [->|Hne].
    + rewrite lookup_insert_eq. eauto.
    + by rewrite lookup_insert_ne.
Qed.

Lemma db_wf_add_event run_id type p now :
  is_col (λ r, is_Some (d_runs d !! r)) run_id →
  db_wf (d <| d_events := (d_events d ++ [EventRow (d_event_seq d + 1) run_id type p now])%list |>
           <| d_event_seq := d_event_seq d + 1 |>).
Proof.
  intros Hrun. destruct Hd. split; simpl; try done; try lia.
  - apply Forall_app. split; [done|]. constructor; [done|constructor].
  - rewrite map_app. apply StronglySorted_app. split_and!; [|done|repeat constructor].
    intros x y (e & -> & He)%list_elem_of_fmap Hy%list_elem_of_singleton. subst y. simpl.
    rewrite Forall_forall in dw_event_range0. specialize (dw_event_range0 _ He). lia.
  - apply Forall_app. split; [|constructor; [simpl; lia|constructor]].
    eapply Forall_impl; [exact dw_event_range0|]. intros e He. simpl in He |- *. lia.
  - intros i t Ht. specialize (dw_order_range0 i t Ht). simpl in dw_order_range0 |- *.
    destruct (t_human_question_order t); simpl in *; [lia|done].
Qed.

Lemma db_wf_set_prs p :
  p_graph_status p ∈ ["unknown"; "stale"; "fresh"] → db_wf (d <| d_prs := Some p |>).
Proof. intros Hp. by destruct Hd; split. Qed.
End updates.

(** ** Statements keep the invariant *)
Section statements.
Context {CH : Chrono}.

Lemma preserves_put_db f : (∀ d, db_wf d → db_wf (f d)) → preserves wf (put_db f).
Proof. intros Hf. apply preserves_modify. intros w. apply Hf. Qed.
Lemma preserves_get_db : preserves wf get_db.
Proof. apply preserves_gets. Qed.
Lemma preserves_utc_now : preserves wf utc_now.
Proof. intros w Hw. unfold utc_now. by destruct (w_ticks w). Qed.
Lemma preserves_fmap {A B} (I : world → Prop) (f : A → B) (m : st world A) :
  preserves I m → preserves I (f <$> m).
Proof.
  intros Hm w Hw. specialize (Hm w Hw). unfold fmap, st_fmap. by destruct (m w) as [[]].
Qed.
Lemma preserves_timestamp : preserves wf timestamp.
Proof. apply preserves_fmap, preserves_utc_now. Qed.
Lemma preserves_transaction {A} (m : st world A) : preserves wf m → preserves wf (transaction m).
Proof.
  intros Hm w Hw. specialize (Hm w Hw). unfold transaction.
  by destruct (m w) as [[a|e] w'].
Qed.
Lemma preserves_select_task id : preserves wf (select_task id).
Proof. apply preserves_gets. Qed.
Lemma preserves_select_run id : preserves wf (select_run id).
Proof. apply preserves_gets. Qed.

Lemma preserves_update_task_where id p f : row_update f → preserves wf (update_task_where id p f).
Proof.
  intros Hf w Hw. unfold update_task_where, select_task, gets, mbind, st_bind.
  destruct (d_tasks (w_db w) !! id) as [t|] eqn:Ht; simpl; [|done].
  destruct (p t); simpl; [|done].
  destruct (Hf t (dw_tasks _ Hw _ _ Ht)). eapply db_wf_update_row; eauto.
Qed.
Lemma preserves_update_task id f : row_update f → preserves wf (update_task id f).
Proof. apply preserves_update_task_where. Qed.

Lemma preserves_update_run id f :
  (∀ r, run_wf r → run_wf (f r)) → (∀ r, r_task_id (f r) = r_task_id r) → preserves wf (update_run id f).
Proof.
  intros Hf Hid w Hw. unfold update_run, select_run, gets, mbind, st_bind.
  destruct (d_runs (w_db w) !! id) as [r|] eqn:Hr; simpl; [|done].
  apply db_wf_set_run; [done|exact (Hf _ (dw_runs _ Hw _ _ Hr))|].
  rewrite Hid. exact (dw_run_task _ Hw _ _ Hr).
Qed.

Lemma preserves_insert_or_ignore_task id path status :
  valid_status status → preserves wf (insert_or_ignore_task id path status).
Proof.
  intros Hs w Hw. unfold insert_or_ignore_task, select_task, gets, mbind, st_bind.
  destruct (d_tasks (w_db w) !! id) as [t|]; simpl; [done|].
  apply db_wf_new_row; [done|by apply task_row_default_wf|done].
Qed.
Lemma preserves_ensure_task_exists id path : preserves wf (ensure_task_exists id path).
Proof.
  apply preserves_bind; [|intros ?; apply preserves_ret].
  apply preserves_insert_or_ignore_task, valid_status_as_str.
Qed.

Lemma preserves_insert_run id r : run_wf r → preserves wf (insert_run id r).
Proof.
  intros Hr w Hw. unfold insert_run, get_db, gets, mbind, st_bind.
  destruct (d_runs (w_db w) !! id); simpl; [done|].
  destruct (d_tasks (w_db w) !! r_task_id r) eqn:Ht; simpl; [|done].
  apply db_wf_set_run; [done|done|]. by rewrite Ht.
Qed.

Lemma preserves_insert_event_in_transaction run_id type p :
  preserves wf (insert_event_in_transaction run_id type p).
Proof.
  apply preserves_bind; [apply preserves_timestamp|]. intros now w Hw.
  unfold get_db, gets, mbind, st_bind. simpl.
  destruct (match run_id with None => true | Some r => some (d_runs (w_db w) !! r) end) eqn:E; simpl; [|done].
  apply db_wf_add_event; [done|]. destruct run_id as [r|]; [|done]. simpl.
  by destruct (d_runs (w_db w) !! r).
Qed.
Lemma preserves_insert_event run_id type p : preserves wf (insert_event run_id type p).
Proof.
  apply preserves_bind; [|intros _; apply preserves_insert_event_in_transaction].
  destruct run_id; [|apply preserves_ret].
  apply preserves_bind; [apply preserves_select_run|intros ?; apply preserves_ensure].
Qed.

Lemma preserves_upsert_task id path status spec milestone :
  preserves wf (upsert_task id path status spec milestone).
Proof.
  intros w Hw. unfold upsert_task, select_task, gets, mbind, st_bind. simpl.
  destruct (d_tasks (w_db w) !! id) as [t|] eqn:Ht; simpl.
  - eapply db_wf_update_row; [done|done| |by left].
    destruct (dw_tasks _ Hw _ _ Ht). split; simpl; auto using valid_status_as_str.
  - apply db_wf_new_row; [done| |done].
    destruct (task_row_default_wf path (as_str status) (valid_status_as_str _)). by split.
Qed.
Lemma preserves_clear_task_lease id : preserves wf (clear_task_lease id).
Proof.
  apply preserves_bind; [|intros ?; apply preserves_ret]. apply preserves_update_task. solve_row_update.
Qed.

Lemma preserves_update_prs_where p f :
  (∀ r, p_graph_status r ∈ ["unknown"; "stale"; "fresh"] → p_graph_status (f r) ∈ ["unknown"; "stale"; "fresh"]) →
  preserves wf (update_prs_where p f).
Proof.
  intros Hf w Hw. unfold update_prs_where, get_db, gets, mbind, st_bind. simpl.
  destruct (d_prs (w_db w)) as [r|] eqn:Hr; simpl; [|done]. destruct (p r); simpl; [|done].
  apply db_wf_set_prs; [done|]. apply Hf. pose proof (dw_graph_status _ Hw) as Hg. by rewrite Hr in Hg.
Qed.
Lemma preserves_update_prs f :
  (∀ r, p_graph_status r ∈ ["unknown"; "stale"; "fresh"] → p_graph_status (f r) ∈ ["unknown"; "stale"; "fresh"]) →
  preserves wf (update_prs f).
Proof. apply preserves_update_prs_where. Qed.
Lemma preserves_ensure_project_runtime_state_row : preserves wf ensure_project_runtime_state_row.
Proof.
  apply preserves_bind; [apply preserves_timestamp|]. intros now. apply preserves_put_db.
  intros d Hd. destruct (d_prs d); [done|]. apply db_wf_set_prs; [done|]. simpl. set_solver.
Qed.

Lemma preserves_claim_task_in_transaction id agent lease now :
  preserves wf (claim_task_in_transaction id agent lease now).
Proof.
  apply preserves_bind; [|intros ?; apply preserves_insert_event_in_transaction].
  apply preserves_update_task. solve_row_update.
Qed.
End statements.

#[export] Hint Resolve preserves_get_db preserves_utc_now preserves_timestamp
  preserves_select_task preserves_select_run preserves_ensure_task_exists
  preserves_insert_event_in_transaction preserves_insert_event preserves_upsert_task
  preserves_clear_task_lease preserves_ensure_project_runtime_state_row
  preserves_claim_task_in_transaction : preserves.

(** Statement-by-statement proof that an operation keeps [wf]. *)
Ltac wf_step :=
  lazymatch goal with
  | |- preserves wf (transaction _) => apply preserves_transaction
  | |- preserves wf (update_task _ _) => apply preserves_update_task; solve_row_update
  | |- preserves wf (update_task_where _ _ _) => apply preserves_update_task_where; solve_row_update
  | |- preserves wf (update_prs _) => apply preserves_update_prs; cbn; set_solver
  | |- preserves wf (update_prs_where _ _) => apply preserves_update_prs_where; cbn; set_solver
  | |- _ => preserves_step
  end.
Ltac solve_wf := repeat wf_step.

Section helpers.
Context {CH : Chrono}.

Lemma preserves_write_last_spec_path p : preserves wf (write_last_spec_path_to_database p).
Proof. unfold write_last_spec_path_to_database. solve_wf. Qed.
Lemma preserves_write_last_spec_archive_path p : preserves wf (write_last_spec_archive_path_to_database p).
Proof. unfold write_last_spec_archive_path_to_database. solve_wf. Qed.
Lemma preserves_write_project_selection s : preserves wf (write_project_selection_to_database s).
Proof. unfold write_project_selection_to_database. solve_wf. Qed.
End helpers.
#[export] Hint Resolve preserves_write_last_spec_path preserves_write_last_spec_archive_path
  preserves_write_project_selection : preserves.
