(* ===== verification/Schema.v ===== *)
(** Opening the runtime database: versioned schema migrations, validation of
    the migration history and the import of legacy metadata
    ([src/src/project/database/schema.rs] and the opening functions of
    [src/src/project/database.rs]). *)
From S2P Require Import Prelude Status View Chrono Database WellFormed.

Definition RUNTIME_SCHEMA_VERSION : Z := 4.

(** ** Tables and columns *)
Definition table_exists (name : string) : st world bool := gets (λ w, some (d_columns (w_db w) !! name)).
Definition column_exists (table column : string) : st world bool :=
  gets (λ w, bool_decide (column ∈ default [] (d_columns (w_db w) !! table))).

Definition ensure_column (table column : string) : st world unit :=
  e ← column_exists table column;
  if e : bool then mret tt
  else
    t ← table_exists table;
    if t : bool then
      put_db (λ d, d <| d_columns := <[table := (default [] (d_columns d !! table) ++ [column])%list]> (d_columns d) |>)
    else fail (SqlConstraint "no such table").

(** [CREATE TABLE IF NOT EXISTS] *)
Definition create_table (name : string) (columns : list string) : st world unit :=
  put_db (λ d, match d_columns d !! name with
               | Some _ => d
               | None => d <| d_columns := <[name := columns]> (d_columns d) |>
               end).

(** ** Version and history *)
Definition runtime_schema_version : st world Z :=
  v ← gets (λ w, d_user_version (w_db w));
  if 0 <=? v then mret v else fail (SqlConstraint "user_version out of range for u32").

Definition migration_names : list string :=
  ["adopt_legacy_runtime_schema"; "repository_view_references"; "frozen_repository_views";
   "canonical_graph_state"].
(** [RUNTIME_MIGRATIONS]: version and name; the migrations are applied below. *)
Definition RUNTIME_MIGRATIONS : list (Z * string) :=
  zip [1; 2; 3; 4] migration_names.

Definition by_version : Z * string * string → Z * string * string → comparison :=
  on_key (λ x, x.1.1) Z.compare.

(** The loop over [history.iter().enumerate()]. *)
Fixpoint history_matches (history : list (Z * string * string)) (expected : list (Z * string)) : st world unit :=
  match history, expected with
  | (v, n, _) :: history, (ev, en) :: expected =>
    ensure (bool_decide (v = ev) && bool_decide (n = en))
      "ferrus.db migration history diverges at version {}" [display_u32 ev] ;;
    history_matches history expected
  | _ :: _, [] => fail (Panicked "index out of bounds")
  | [], _ => mret tt
  end.

Definition validate_runtime_migration_history : st world unit :=
  version ← runtime_schema_version;
  if RUNTIME_SCHEMA_VERSION <? version then
    bail "ferrus.db schema version {version} is newer than supported version {RUNTIME_SCHEMA_VERSION}"
      [display_u32 version; display_u32 RUNTIME_SCHEMA_VERSION]
  else
    e ← table_exists "runtime_schema_migrations";
    if e : bool then
      history ← gets (λ w, order_by by_version (d_history (w_db w)));
      if forallb (λ x, (0 <=? x.1.1) && (x.1.1 <? u32_modulus)) history then
        if bool_decide (Z.of_nat (length history) = version) then
          history_matches history RUNTIME_MIGRATIONS
        else
          bail "ferrus.db migration history is incomplete for schema version {version}" [display_u32 version]
      else fail (SqlConstraint "version out of range for u32")
    else if bool_decide (version = 0) then mret tt
    else bail "ferrus.db migration history is missing for schema version {version}" [display_u32 version].

Section schema.
Context {CH : Chrono}.

(** ** Legacy metadata *)
Record LegacyRuntimeMetadataImport := LegacyImport {
  li_selected_spec : option string;
  li_last_spec_path : option string }.

Definition read_legacy_runtime_metadata (name : string) : st world (option string) :=
  d ← get_db; mret (normalize_optional_db_string (v ← d_metadata d !! name; v)).

Definition legacy_runtime_metadata_import : st world (option LegacyRuntimeMetadataImport) :=
  e ← table_exists "runtime_metadata";
  if negb e then mret None
  else
    current ← read_project_selection_from_database;
    current_last ← read_last_spec_path_from_database;
    legacy_spec ← read_legacy_runtime_metadata "selected_spec";
    legacy_last ← read_legacy_runtime_metadata "last_spec_path";
    let spec := selected_spec current ∪ legacy_spec in
    let last := current_last ∪ legacy_last in
    if bool_decide (spec = selected_spec current) && bool_decide (last = current_last) then mret None
    else mret (Some (LegacyImport spec last)).

Definition migrate_legacy_runtime_metadata : st world unit :=
  import ← legacy_runtime_metadata_import;
  match import with
  | None => mret tt
  | Some i =>
    ensure_project_runtime_state_row ;;
    now ← timestamp;
    update_prs (λ r, r <| p_selected_spec := li_selected_spec i |>
                       <| p_last_spec_path := li_last_spec_path i |> <| p_updated_at := now |>) ;;
    mret tt
  end.

(** ** Migrations *)
Definition base_tables : list (string * list string) :=
  [("runtime_schema_migrations", ["version"; "name"; "applied_at"]);
   ("tasks", ["id"; "path"; "status"; "paused_status"; "spec_path"; "milestone_id"; "claimed_by";
              "lease_until"; "last_heartbeat"; "check_retries"; "review_cycles"; "failure_reason";
              "awaiting_human_by"; "awaiting_human_status"; "human_question_order";
              "human_answer_recorded"; "executor_dispatches"]);
   ("runs", ["id"; "task_id"; "role"; "agent"; "status"; "started_at"; "updated_at"; "pid"; "workspace_path"]);
   ("events", ["id"; "run_id"; "type"; "payload_json"; "created_at"]);
   ("project_runtime_state", ["row_id"; "selected_spec"; "last_spec_path"; "last_archive_path"; "updated_at"]);
   ("spec_archives", ["id"; "spec_path"; "archive_dir"; "closed_at"; "task_count"; "run_count"; "outcome"])].

Definition ensure_columns (l : list (string * string)) : st world unit :=
  for_each (λ x, ensure_column x.1 x.2) l.

Definition adopted_columns : list (string * string) :=
  [("tasks", "paused_status"); ("tasks", "spec_path"); ("tasks", "milestone_id"); ("tasks", "claimed_by");
   ("tasks", "lease_until"); ("tasks", "last_heartbeat"); ("tasks", "check_retries");
   ("tasks", "review_cycles"); ("tasks", "executor_dispatches"); ("tasks", "failure_reason");
   ("tasks", "awaiting_human_by"); ("tasks", "awaiting_human_status"); ("tasks", "human_question_order");
   ("tasks", "human_answer_recorded"); ("project_runtime_state", "selected_spec");
   ("project_runtime_state", "last_spec_path"); ("project_runtime_state", "last_archive_path")].

Definition adopt_legacy_runtime_schema : st world unit :=
  for_each (λ t, create_table t.1 t.2) base_tables ;;
  ensure_columns adopted_columns ;;
  migrate_legacy_runtime_metadata.

Definition view_reference_columns : list (string * string) :=
  [("tasks", "baseline_snapshot_id"); ("tasks", "overlay_revision_id"); ("tasks", "repository_view_status");
   ("runs", "baseline_snapshot_id"); ("runs", "overlay_revision_id"); ("runs", "repository_view_status")].
Definition add_repository_view_references : st world unit := ensure_columns view_reference_columns.

Definition frozen_view_columns : list (string * string) :=
  [("tasks", "repository_view_snapshot_id"); ("tasks", "repository_view_tree_algorithm");
   ("tasks", "repository_view_tree_digest"); ("tasks", "repository_view_lifecycle");
   ("runs", "repository_view_snapshot_id"); ("runs", "repository_view_tree_algorithm");
   ("runs", "repository_view_tree_digest"); ("runs", "repository_view_lifecycle")].
Definition add_frozen_repository_views : st world unit := ensure_columns frozen_view_columns.

Definition canonical_columns : list (string * string) :=
  [("project_runtime_state", "canonical_source_revision_id");
   ("project_runtime_state", "canonical_manifest_algorithm");
   ("project_runtime_state", "canonical_manifest_digest");
   ("project_runtime_state", "canonical_graph_snapshot_id");
   ("project_runtime_state", "canonical_graph_status");
   ("project_runtime_state", "canonical_graph_updated_at")].
Definition add_canonical_graph_state : st world unit :=
  ensure_columns canonical_columns ;; ensure_project_runtime_state_row.

(** The [apply] member of the migration with the given name. *)
Definition apply_migration (name : string) : st world unit :=
  if bool_decide (name = "adopt_legacy_runtime_schema") then adopt_legacy_runtime_schema
  else if bool_decide (name = "repository_view_references") then add_repository_view_references
  else if bool_decide (name = "frozen_repository_views") then add_frozen_repository_views
  else add_canonical_graph_state.

(** [INSERT INTO runtime_schema_migrations]: version and name are unique. *)
Definition insert_migration (version : Z) (name : string) : st world unit :=
  now ← timestamp;
  d ← get_db;
  if existsb (λ x, bool_decide (x.1.1 = version) || bool_decide (x.1.2 = name)) (d_history d)
  then fail (SqlConstraint "UNIQUE constraint failed: runtime_schema_migrations")
  else put_db (λ d, d <| d_history := (d_history d ++ [(version, name, now)])%list |>).

(** One iteration of the loop; [true] when the loop breaks. *)
Definition migrate_once : st world bool :=
  transaction (
    validate_runtime_migration_history ;;
    current ← runtime_schema_version;
    if bool_decide (current = RUNTIME_SCHEMA_VERSION) then mret true
    else
      match RUNTIME_MIGRATIONS !! Z.to_nat current with
      | None => fail (Panicked "index out of bounds")
      | Some (version, name) =>
        ensure (bool_decide (current + 1 = version))
          "Cannot apply ferrus.db migration {} after schema version {}"
          [display_u32 version; display_u32 current] ;;
        apply_migration name ;;
        insert_migration version name ;;
        put_db (λ d, d <| d_user_version := version |>) ;;
        mret false
      end).

(** The loop with a bound on its iterations; [false] when the bound was too small. *)
Fixpoint migrate_loop (fuel : nat) : st world bool :=
  match fuel with
  | O => mret false
  | S fuel => done ← migrate_once; if done : bool then mret true else migrate_loop fuel
  end.

(** Five iterations are enough: four migrations and the one that breaks
    ([migration_loop_terminates]). *)
Definition migrate_runtime_schema : st world unit :=
  migrate_loop 5 ;; validate_runtime_migration_history.

Definition initialize_schema : st world unit :=
  migrate_runtime_schema ;; migrate_legacy_runtime_metadata.

Definition open_runtime_database : st world unit := initialize_schema.

Definition open_runtime_database_for_read : st world unit :=
  validate_runtime_migration_history ;;
  version ← runtime_schema_version;
  import ← (if bool_decide (version = RUNTIME_SCHEMA_VERSION) then legacy_runtime_metadata_import
            else mret None);
  if negb (bool_decide (version = RUNTIME_SCHEMA_VERSION)) || some import
  then open_runtime_database else mret tt.

Definition validated_columns : list (string * string) :=
  [("tasks", "paused_status"); ("tasks", "claimed_by"); ("tasks", "lease_until");
   ("tasks", "last_heartbeat"); ("tasks", "check_retries"); ("tasks", "review_cycles");
   ("tasks", "failure_reason"); ("tasks", "awaiting_human_by"); ("tasks", "awaiting_human_status");
   ("tasks", "baseline_snapshot_id"); ("tasks", "overlay_revision_id");
   ("tasks", "repository_view_snapshot_id"); ("tasks", "repository_view_tree_algorithm");
   ("tasks", "repository_view_tree_digest"); ("tasks", "repository_view_lifecycle");
   ("tasks", "repository_view_status");
   ("runs", "baseline_snapshot_id"); ("runs", "overlay_revision_id");
   ("runs", "repository_view_snapshot_id"); ("runs", "repository_view_tree_algorithm");
   ("runs", "repository_view_tree_digest"); ("runs", "repository_view_lifecycle");
   ("runs", "repository_view_status");
   ("project_runtime_state", "canonical_source_revision_id");
   ("project_runtime_state", "canonical_manifest_algorithm");
   ("project_runtime_state", "canonical_manifest_digest");
   ("project_runtime_state", "canonical_graph_snapshot_id");
   ("project_runtime_state", "canonical_graph_status");
   ("project_runtime_state", "canonical_graph_updated_at")].

(** [?] on each query; the first missing table or column answers [false]. *)
Fixpoint all_true (l : list (st world bool)) : st world bool :=
  match l with
  | [] => mret true
  | m :: l => b ← m; if b : bool then all_true l else mret false
  end.

Definition validate_database_schema : st world bool :=
  version ← runtime_schema_version;
  valid ← (if bool_decide (version = RUNTIME_SCHEMA_VERSION)
           then best_effort validate_runtime_migration_history else mret None);
  if negb (bool_decide (version = RUNTIME_SCHEMA_VERSION)) || none valid then mret false
  else
    all_true (map table_exists ["tasks"; "runs"; "events"; "runtime_schema_migrations"]
              ++ map (λ x, column_exists x.1 x.2) validated_columns)%list.
End schema.

(** ** Opening keeps the invariant *)
Section preservation.
Context {CH : Chrono}.

Lemma db_wf_schema d (f : db → db) :
  db_wf d →
  d_tasks (f d) = d_tasks d → d_runs (f d) = d_runs d → d_events (f d) = d_events d →
  d_event_seq (f d) = d_event_seq d → d_prs (f d) = d_prs d → db_wf (f d).
Proof. intros [] Ht Hr He Hs Hp. split; rewrite ?Ht, ?Hr, ?He, ?Hs, ?Hp; done. Qed.

Lemma preserves_ensure_column t c : preserves wf (ensure_column t c).
Proof.
  unfold ensure_column. solve_wf.
  apply preserves_put_db. intros d Hd. by apply (db_wf_schema d (λ d, d <| d_columns := _ |>)).
Qed.
Lemma preserves_create_table t cs : preserves wf (create_table t cs).
Proof.
  apply preserves_put_db. intros d Hd. destruct (d_columns d !! t); [done|].
  by apply (db_wf_schema d (λ d, d <| d_columns := _ |>)).
Qed.
Lemma preserves_runtime_schema_version : preserves wf runtime_schema_version.
Proof. unfold runtime_schema_version. solve_wf. Qed.
Lemma preserves_history_matches h e : preserves wf (history_matches h e).
Proof.
  revert e. induction h as [|[[v n] a] h IH]; intros [|[ev en] e]; simpl; try apply preserves_ret; try apply preserves_fail.
  apply preserves_bind; [apply preserves_ensure|intros _; apply IH].
Qed.
#[local] Hint Resolve preserves_runtime_schema_version preserves_history_matches : preserves.
Lemma preserves_table_exists t : preserves wf (table_exists t).
Proof. apply preserves_gets. Qed.
#[local] Hint Resolve preserves_table_exists : preserves.
Lemma preserves_validate : preserves wf validate_runtime_migration_history.
Proof. unfold validate_runtime_migration_history. solve_wf. Qed.
Lemma preserves_legacy_import : preserves wf legacy_runtime_metadata_import.
Proof.
  unfold legacy_runtime_metadata_import, read_project_selection_from_database,
    read_last_spec_path_from_database, read_legacy_runtime_metadata. solve_wf.
Qed.
#[local] Hint Resolve preserves_validate preserves_legacy_import preserves_ensure_column preserves_create_table : preserves.
Lemma preserves_migrate_legacy : preserves wf migrate_legacy_runtime_metadata.
Proof. unfold migrate_legacy_runtime_metadata. solve_wf. Qed.
#[local] Hint Resolve preserves_migrate_legacy : preserves.
Lemma preserves_ensure_columns l : preserves wf (ensure_columns l).
Proof. unfold ensure_columns. solve_wf. Qed.
#[local] Hint Resolve preserves_ensure_columns : preserves.
Lemma preserves_apply_migration n : preserves wf (apply_migration n).
Proof.
  unfold apply_migration, adopt_legacy_runtime_schema, add_repository_view_references,
    add_frozen_repository_views, add_canonical_graph_state.
  solve_wf.
Qed.
#[local] Hint Resolve preserves_apply_migration : preserves.
Lemma preserves_insert_migration v n : preserves wf (insert_migration v n).
Proof.
  unfold insert_migration. solve_wf.
  apply preserves_put_db. intros d Hd. by apply (db_wf_schema d (λ d, d <| d_history := _ |>)).
Qed.
#[local] Hint Resolve preserves_insert_migration : preserves.
Lemma preserves_migrate_once : preserves wf migrate_once.
Proof.
  unfold migrate_once. solve_wf. apply preserves_put_db. intros d Hd.
  by apply (db_wf_schema d (λ d, d <| d_user_version := _ |>)).
Qed.
Lemma preserves_migrate_loop n : preserves wf (migrate_loop n).
Proof.
  induction n as [|n IH]; simpl; [apply preserves_ret|].
  apply preserves_bind; [apply preserves_migrate_once|]. intros []; [apply preserves_ret|done].
Qed.
Lemma preserves_open_runtime_database : preserves wf open_runtime_database.
Proof.
  unfold open_runtime_database, initialize_schema, migrate_runtime_schema.
  pose proof (preserves_migrate_loop 5). solve_wf.
Qed.
#[local] Hint Resolve preserves_open_runtime_database : preserves.
Lemma preserves_open_runtime_database_for_read : preserves wf open_runtime_database_for_read.
Proof. unfold open_runtime_database_for_read. solve_wf. Qed.
End preservation.
#[export] Hint Resolve preserves_open_runtime_database preserves_open_runtime_database_for_read
  preserves_runtime_schema_version preserves_validate : preserves.

(** ** A current schema *)

(** The history rows are the first [k] migrations. *)
Definition history_prefix (k : nat) (d : db) : Prop :=
  d_user_version d = Z.of_nat k ∧ map fst (d_history d) = take k RUNTIME_MIGRATIONS ∧
  (k = 0%nat ∨ is_Some (d_columns d !! "runtime_schema_migrations")).

(** The schema an up-to-date installation has: every migration applied and
    no legacy metadata table. *)
Definition schema_ready (d : db) : Prop :=
  history_prefix 4 d ∧ d_columns d !! "runtime_metadata" = None.

Section ready.
Context {CH : Chrono}.

Lemma validate_prefix k w :
  (k ≤ 4)%nat → history_prefix k (w_db w) → validate_runtime_migration_history w = (Ok tt, w).
Proof.
  intros Hk (Hv & Hh & Ht). destruct w as [d c tk fs]; simpl in *.
  unfold validate_runtime_migration_history, runtime_schema_version, table_exists, gets, mbind, st_bind.
  simpl. rewrite Hv. rewrite (proj2 (Z.leb_le 0 (Z.of_nat k))) by lia. simpl.
  assert (k = 0 ∨ k = 1 ∨ k = 2 ∨ k = 3 ∨ k = 4)%nat as Hc by lia.
  destruct Hc as [->|Hc].
  { simpl in Hh. destruct (d_history d) eqn:Ed; [|discriminate Hh].
    simpl. destruct (d_columns d !! "runtime_schema_migrations") eqn:Ec; rewrite ?Ec; simpl; rewrite ?Ed; reflexivity. }
  destruct Ht as [->|[cs Hcs]]; [by destruct Hc as [|[|[|]]]|].
  destruct (RUNTIME_SCHEMA_VERSION <? Z.of_nat k) eqn:El.
  { apply Z.ltb_lt in El. unfold RUNTIME_SCHEMA_VERSION in El. lia. }
  simpl. rewrite Hcs. simpl.
  destruct (d_history d) as [|[[v1 n1] t1] [|[[v2 n2] t2] [|[[v3 n3] t3] [|[[v4 n4] t4] [|]]]]] eqn:Ed;
    rewrite ?Ed; destruct Hc as [->|[->|[->| ->]]]; simpl in Hh; try discriminate Hh;
    injection Hh as ?; subst; reflexivity.
Qed.

Lemma version_prefix k w :
  history_prefix k (w_db w) → runtime_schema_version w = (Ok (Z.of_nat k), w).
Proof.
  intros [Hv _]. unfold runtime_schema_version, gets, mbind, st_bind. simpl. rewrite Hv.
  by rewrite (proj2 (Z.leb_le 0 (Z.of_nat k))) by lia.
Qed.

Lemma migrate_once_current w : history_prefix 4 (w_db w) → migrate_once w = (Ok true, w).
Proof.
  intros H. unfold migrate_once, transaction.
  rewrite (bind_run _ _ _ _ _ (validate_prefix 4 w (Nat.le_refl _) H)).
  by rewrite (bind_run _ _ _ _ _ (version_prefix 4 w H)).
Qed.

Lemma legacy_import_absent w :
  d_columns (w_db w) !! "runtime_metadata" = None → legacy_runtime_metadata_import w = (Ok None, w).
Proof.
  intros H. unfold legacy_runtime_metadata_import, table_exists, gets, mbind, st_bind. by rewrite H.
Qed.

(** At the current version, opening only looks for legacy metadata. *)
Lemma open_current w :
  history_prefix 4 (w_db w) → open_runtime_database w = migrate_legacy_runtime_metadata w.
Proof.
  intros Hh. unfold open_runtime_database, initialize_schema, migrate_runtime_schema.
  assert (migrate_loop 5 w = (Ok true, w)) as Hl.
  { change (migrate_loop 5) with (b ← migrate_once; if b : bool then mret true else migrate_loop 4).
    by rewrite (bind_run _ _ _ _ _ (migrate_once_current w Hh)). }
  rewrite (bind_run _ _ w tt w); [done|]. rewrite (bind_run _ _ _ _ _ Hl). by apply (validate_prefix 4).
Qed.

(** Opening an up-to-date database changes nothing: this is the first call of
    every operation below. *)
Lemma open_ready w : schema_ready (w_db w) → open_runtime_database w = (Ok tt, w).
Proof.
  intros [Hh Hm]. rewrite open_current by done.
  unfold migrate_legacy_runtime_metadata. by rewrite (bind_run _ _ _ _ _ (legacy_import_absent w Hm)).
Qed.
Lemma open_for_read_ready w : schema_ready (w_db w) → open_runtime_database_for_read w = (Ok tt, w).
Proof.
  intros [Hh Hm]. unfold open_runtime_database_for_read.
  rewrite (bind_run _ _ _ _ _ (validate_prefix 4 w (Nat.le_refl _) Hh)).
  rewrite (bind_run _ _ _ _ _ (version_prefix 4 w Hh)). simpl.
  by rewrite (bind_run _ _ _ _ _ (legacy_import_absent w Hm)).
Qed.
End ready.

(** ** Migrating *)

(** Nothing but the schema, the selection row and the clock differs. *)
Record same_data (w w' : world) : Prop := {
  sd_tasks : d_tasks (w_db w') = d_tasks (w_db w);
  sd_runs : d_runs (w_db w') = d_runs (w_db w);
  sd_events : d_events (w_db w') = d_events (w_db w);
  sd_seq : d_event_seq (w_db w') = d_event_seq (w_db w);
  sd_archives : d_archives (w_db w') = d_archives (w_db w);
  sd_metadata : d_metadata (w_db w') = d_metadata (w_db w);
  sd_files : w_files w' = w_files w }.
#[global] Instance same_data_preorder : PreOrder same_data.
Proof.
  split; [by split|]. intros w1 w2 w3 [] []. split; congruence.
Qed.

Definition same_schema (w w' : world) : Prop :=
  d_columns (w_db w') = d_columns (w_db w) ∧ d_user_version (w_db w') = d_user_version (w_db w) ∧
  d_history (w_db w') = d_history (w_db w).

(** Columns are only ever added. *)
Definition columns_le (a b : gmap string (list string)) : Prop :=
  ∀ t cs, a !! t = Some cs → ∃ cs', b !! t = Some cs' ∧ cs ⊆ cs'.
#[global] Instance columns_le_preorder : PreOrder columns_le.
Proof.
  split; [intros a t cs; eauto|]. intros a b c Hab Hbc t cs Ha.
  destruct (Hab t cs Ha) as (cs1 & Hb & H1). destruct (Hbc t cs1 Hb) as (cs2 & Hc & H2).
  exists cs2. set_solver.
Qed.
Definition has_column (m : gmap string (list string)) (x : string * string) : Prop :=
  ∃ cs, m !! x.1 = Some cs ∧ x.2 ∈ cs.
Lemma has_column_le a b x : columns_le a b → has_column a x → has_column b x.
Proof. intros Hab (cs & Ha & Hx). destruct (Hab _ _ Ha) as (cs' & Hb & Hs). exists cs'. set_solver. Qed.
Lemma is_Some_le a b t : columns_le a b → is_Some (a !! t) → is_Some (b !! t).
Proof. intros Hab [cs Ha]. destruct (Hab _ _ Ha) as (cs' & Hb & _). eauto. Qed.

Definition with_columns (w : world) (m : gmap string (list string)) : world :=
  w <| w_db := (w_db w) <| d_columns := m |> |>.
Lemma with_columns_id w : with_columns w (d_columns (w_db w)) = w.
Proof. by destruct w as [[]]. Qed.
Lemma with_columns_same w m : same_data w (with_columns w m).
Proof. by split. Qed.

Section migrating.
Context {CH : Chrono}.

Lemma ensure_column_spec t c w :
  is_Some (d_columns (w_db w) !! t) →
  ∃ m, ensure_column t c w = (Ok tt, with_columns w m) ∧ columns_le (d_columns (w_db w)) m ∧ has_column m (t, c).
Proof.
  intros [cs Hcs]. unfold ensure_column, column_exists, table_exists, gets, mbind, st_bind. simpl.
  rewrite Hcs. simpl. case_bool_decide as Hc; simpl.
  - exists (d_columns (w_db w)). rewrite with_columns_id. split_and!; [done|done|]. exists cs. auto.
  - rewrite Hcs. simpl. eexists. split_and!; [reflexivity| |].
    + intros t' cs' Ht'. destruct (decide (t' = t)) as [->|Hne].
      * rewrite lookup_insert_eq. simplify_eq. eexists. split; [done|]. rewrite Hcs. simpl.
        intros y Hy. apply elem_of_app. by left.
      * rewrite lookup_insert_ne by done. eauto.
    + eexists. split; [apply lookup_insert_eq|]. simpl. apply elem_of_app. right. by left.
Qed.

Lemma ensure_columns_spec l w :
  (∀ x, x ∈ l → is_Some (d_columns (w_db w) !! x.1)) →
  ∃ m, ensure_columns l w = (Ok tt, with_columns w m) ∧ columns_le (d_columns (w_db w)) m ∧
    ∀ x, x ∈ l → has_column m x.
Proof.
  revert w. induction l as [|[t c] l IH]; intros w Hl.
  { exists (d_columns (w_db w)). rewrite with_columns_id. split_and!; [done|done|]. set_solver. }
  destruct (ensure_column_spec t c w) as (m & Hm & Hle & Hc); [apply (Hl (t, c)); left|].
  destruct (IH (with_columns w m)) as (m' & Hm' & Hle' & Hall).
  { intros x Hx. eapply is_Some_le; [exact Hle|]. apply Hl. by right. }
  exists m'. split_and!.
  - unfold ensure_columns. simpl. by rewrite (bind_run _ _ _ _ _ Hm).
  - by transitivity m.
  - intros x [->|Hx]%elem_of_cons; [|by apply Hall]. by eapply has_column_le.
Qed.

Lemma create_tables_spec (l : list (string * list string)) w :
  ∃ m, for_each (λ t, create_table t.1 t.2) l w = (Ok tt, with_columns w m) ∧
    columns_le (d_columns (w_db w)) m ∧
    ∀ x, x ∈ l → is_Some (m !! x.1).
Proof.
  revert w. induction l as [|[t cs] l IH]; intros w.
  { exists (d_columns (w_db w)). rewrite with_columns_id. split_and!; [done|done|]. set_solver. }
  set (m := match d_columns (w_db w) !! t with Some _ => d_columns (w_db w)
            | None => <[t := cs]> (d_columns (w_db w)) end).
  assert (create_table t cs w = (Ok tt, with_columns w m)) as Hc.
  { unfold create_table, put_db, modify, m. destruct (d_columns (w_db w) !! t) eqn:E.
    - rewrite with_columns_id. by destruct w.
    - done. }
  assert (columns_le (d_columns (w_db w)) m) as Hle.
  { unfold m. destruct (d_columns (w_db w) !! t) eqn:E; [done|]. intros t' cs' Ht'.
    exists cs'. rewrite lookup_insert_ne by congruence. auto. }
  assert (is_Some (m !! t)) as Ht.
  { unfold m. destruct (d_columns (w_db w) !! t) eqn:E; [by rewrite E|]. rewrite lookup_insert_eq. eauto. }
  destruct (IH (with_columns w m)) as (m' & Hm' & Hle' & Hall). simpl in *.
  exists m'. split_and!.
  - by rewrite (bind_run _ _ _ _ _ Hc).
  - by transitivity m.
  - intros x [->|Hx]%elem_of_cons; [|by apply Hall]. by eapply is_Some_le.
Qed.

Lemma utc_now_run w : ∃ t c tk, utc_now w = (Ok t, World (w_db w) c tk (w_files w)).
Proof. unfold utc_now. destruct w as [d c [|x tk] fs]; simpl; eauto. Qed.
Lemma timestamp_run w : ∃ t c tk, timestamp w = (Ok t, World (w_db w) c tk (w_files w)).
Proof.
  destruct (utc_now_run w) as (t & c & tk & H). exists (rfc3339_secs t), c, tk.
  unfold timestamp, fmap, st_fmap. by rewrite H.
Qed.

Lemma ensure_prs_run w : ∃ w' p, ensure_project_runtime_state_row w = (Ok tt, w') ∧
  same_data w w' ∧ same_schema w w' ∧ d_prs (w_db w') = Some p.
Proof.
  destruct (timestamp_run w) as (t & c & tk & H). unfold ensure_project_runtime_state_row.
  rewrite (bind_run _ _ _ _ _ H). unfold put_db, modify. simpl.
  destruct (d_prs (w_db w)) as [p|] eqn:E; eexists _, _; (split; [reflexivity|]); simpl; rewrite ?E;
    (split; [by split|by split]).
Qed.
Lemma update_prs_run f w p : d_prs (w_db w) = Some p →
  update_prs f w = (Ok 1, w <| w_db := (w_db w) <| d_prs := Some (f p) |> |>).
Proof.
  intros H. unfold update_prs, update_prs_where, get_db, gets, mbind, st_bind, put_db, modify.
  by rewrite H.
Qed.

Lemma legacy_import_run w : ∃ i, legacy_runtime_metadata_import w = (Ok i, w).
Proof.
  unfold legacy_runtime_metadata_import, table_exists, read_project_selection_from_database,
    read_last_spec_path_from_database, read_legacy_runtime_metadata, get_db, gets, mbind, st_bind.
  destruct (negb _); simpl; [eauto|]. destruct (_ && _); simpl; eauto.
Qed.

Lemma migrate_legacy_run w : ∃ w', migrate_legacy_runtime_metadata w = (Ok tt, w') ∧
  same_data w w' ∧ same_schema w w'.
Proof.
  destruct (legacy_import_run w) as [i Hi]. unfold migrate_legacy_runtime_metadata.
  rewrite (bind_run _ _ _ _ _ Hi). destruct i as [i|]; [|exists w; split; [done|split; [done|by split]]].
  destruct (ensure_prs_run w) as (w1 & p & H1 & Hd1 & Hs1 & Hp). rewrite (bind_run _ _ _ _ _ H1).
  destruct (timestamp_run w1) as (t & c & tk & H2). rewrite (bind_run _ _ _ _ _ H2).
  rewrite (bind_run _ _ _ _ _ (update_prs_run _ (World (w_db w1) c tk (w_files w1)) p Hp)).
  eexists. split; [reflexivity|]. split; [|done]. etransitivity; [exact Hd1|]. by split.
Qed.
End migrating.

Definition migration_columns : list (list (string * string)) :=
  [adopted_columns; view_reference_columns; frozen_view_columns; canonical_columns].

(** What holds once the first [k] migrations are applied. *)
Record migrated (k : nat) (w : world) : Prop := {
  mg_history : history_prefix k (w_db w);
  mg_tables : (0 < k)%nat → ∀ x, x ∈ base_tables → is_Some (d_columns (w_db w) !! x.1);
  mg_columns : ∀ i l, (i < k)%nat → migration_columns !! i = Some l →
    ∀ x, x ∈ l → has_column (d_columns (w_db w)) x }.

Definition base_names : list string := map fst base_tables.
Lemma migration_tables l x : l ∈ migration_columns → x ∈ l → x.1 ∈ base_names.
Proof.
  assert (Forall (Forall (λ x : string * string, x.1 ∈ base_names)) migration_columns) as H.
  { repeat constructor; vm_compute; apply (bool_decide_unpack _); reflexivity. }
  rewrite Forall_forall in H. intros Hl Hx. specialize (H l Hl). rewrite Forall_forall in H. auto.
Qed.

Section migrate_steps.
Context {CH : Chrono}.

Definition applied (i : nat) (w w' : world) : Prop :=
  same_data w w' ∧ columns_le (d_columns (w_db w)) (d_columns (w_db w')) ∧
  d_user_version (w_db w') = d_user_version (w_db w) ∧ d_history (w_db w') = d_history (w_db w) ∧
  (∀ x, x ∈ base_tables → is_Some (d_columns (w_db w') !! x.1)) ∧
  (∀ l, migration_columns !! i = Some l → ∀ x, x ∈ l → has_column (d_columns (w_db w')) x).

Lemma base_lookup (m : gmap string (list string)) x : (∀ y, y ∈ base_tables → is_Some (m !! y.1)) → x ∈ base_names → is_Some (m !! x).
Proof. intros H (y & -> & Hy)%list_elem_of_fmap. by apply (H y). Qed.

Lemma history_table : "runtime_schema_migrations" ∈ base_names.
Proof. apply (bool_decide_unpack _). reflexivity. Qed.

Lemma ensure_group_run i l w :
  migration_columns !! i = Some l →
  (∀ x, x ∈ base_tables → is_Some (d_columns (w_db w) !! x.1)) →
  ∃ m, ensure_columns l w = (Ok tt, with_columns w m) ∧ applied i w (with_columns w m).
Proof.
  intros Hi Hb. destruct (ensure_columns_spec l w) as (m & Hm & Hle & Hall).
  { intros x Hx. apply (base_lookup _ _ Hb). eapply migration_tables; [|exact Hx]. by eapply list_elem_of_lookup_2. }
  exists m. split; [done|]. split_and!; [apply with_columns_same|done|done|done| |].
  - intros x Hx. eapply is_Some_le; [exact Hle|auto].
  - intros l' Hl'. by assert (l' = l) as -> by congruence.
Qed.

Lemma apply_migration_run i v name w :
  RUNTIME_MIGRATIONS !! i = Some (v, name) →
  ((0 < i)%nat → ∀ x, x ∈ base_tables → is_Some (d_columns (w_db w) !! x.1)) →
  ∃ w', apply_migration name w = (Ok tt, w') ∧ applied i w w'.
Proof.
  intros Hi Hb. destruct i as [|[|[|[|i]]]]; [| | | |discriminate Hi]; injection Hi as <- <-.
  - unfold apply_migration. simpl. unfold adopt_legacy_runtime_schema.
    destruct (create_tables_spec base_tables w) as (m & Hm & Hle & Hall).
    rewrite (bind_run _ _ _ _ _ Hm).
    destruct (ensure_group_run 0 adopted_columns (with_columns w m) eq_refl) as (m' & Hm' & Hd & Hle' & Hv & Hh & Hb' & Hc);
      [exact Hall|].
    rewrite (bind_run _ _ _ _ _ Hm').
    destruct (migrate_legacy_run (with_columns (with_columns w m) m')) as (w' & Hw & Hd' & Hc' & Hv' & Hh').
    exists w'. split; [done|]. unfold applied. rewrite Hc', Hv', Hh'. split_and!; try done.
    + etransitivity; [apply (with_columns_same w m)|]. by etransitivity.
    + by etransitivity.
  - destruct (ensure_group_run 1 view_reference_columns w eq_refl) as (m & Hm & Ha); [apply Hb; lia|eauto].
  - destruct (ensure_group_run 2 frozen_view_columns w eq_refl) as (m & Hm & Ha); [apply Hb; lia|eauto].
  - destruct (ensure_group_run 3 canonical_columns w eq_refl) as (m & Hm & Hd & Hle & Hv & Hh & Hb' & Hc);
      [apply Hb; lia|].
    destruct (ensure_prs_run (with_columns w m)) as (w' & p & Hw & Hd' & (Hc' & Hv' & Hh') & _).
    exists w'. change (apply_migration _) with (ensure_columns canonical_columns ;; ensure_project_runtime_state_row).
    rewrite (bind_run _ _ _ _ _ Hm). split; [done|]. unfold applied. rewrite Hc', Hv', Hh'.
    split_and!; try done. by etransitivity.
Qed.

Lemma insert_migration_run i v name w :
  RUNTIME_MIGRATIONS !! i = Some (v, name) → history_prefix i (w_db w) →
  ∃ w' t, insert_migration v name w = (Ok tt, w') ∧ same_data w w' ∧
    d_columns (w_db w') = d_columns (w_db w) ∧ d_history (w_db w') = (d_history (w_db w) ++ [(v, name, t)])%list.
Proof.
  intros Hi (_ & Hh & _). destruct (timestamp_run w) as (t & c & tk & Ht). unfold insert_migration.
  rewrite (bind_run _ _ _ _ _ Ht). unfold get_db, gets, mbind, st_bind. simpl.
  assert (existsb (λ x, bool_decide (x.1.1 = v) || bool_decide (x.1.2 = name)) (d_history (w_db w)) = false) as ->.
  { destruct i as [|[|[|[|i]]]]; [| | | |discriminate Hi]; injection Hi as <- <-;
      destruct (d_history (w_db w)) as [|[[v1 n1] t1] [|[[v2 n2] t2] [|[[v3 n3] t3] [|]]]];
      simpl in Hh; try discriminate Hh; try (injection Hh as ?; subst); reflexivity. }
  eexists _, t. split; [reflexivity|]. split_and!; [by split|done|done].
Qed.

Lemma migrate_once_step k w :
  (k < 4)%nat → migrated k w → ∃ w', migrate_once w = (Ok false, w') ∧ migrated (S k) w' ∧ same_data w w'.
Proof.
  intros Hk [Hh Ht Hc].
  destruct (RUNTIME_MIGRATIONS !! k) as [[v name]|] eqn:Hi.
  2:{ apply lookup_ge_None in Hi. simpl in Hi. lia. }
  assert (v = Z.of_nat k + 1) as Hv.
  { destruct k as [|[|[|[|k]]]]; [| | | |lia]; injection Hi as <- <-; reflexivity. }
  destruct (apply_migration_run k v name w Hi Ht) as (w1 & H1 & Hd1 & Hle1 & Hv1 & Hh1 & Hb1 & Hc1).
  destruct (insert_migration_run k v name w1 Hi) as (w2 & t & H2 & Hd2 & Hc2 & Hh2).
  { destruct Hh as (Hv0 & Hp0 & Ht0). split_and!; [congruence|congruence|]. right. exact (base_lookup _ _ Hb1 history_table). }
  exists (w2 <| w_db := (w_db w2) <| d_user_version := v |> |>). split; [|split].
  - unfold migrate_once, transaction.
    rewrite (bind_run _ _ _ _ _ (validate_prefix k w (Nat.lt_le_incl _ _ Hk) Hh)).
    rewrite (bind_run _ _ _ _ _ (version_prefix k w Hh)).
    rewrite bool_decide_eq_false_2 by (unfold RUNTIME_SCHEMA_VERSION; lia).
    rewrite Nat2Z.id, Hi. rewrite bool_decide_eq_true_2 by lia.
    rewrite (bind_run _ _ _ _ _ (eq_refl : ensure true _ _ w = (Ok tt, w))).
    rewrite (bind_run _ _ _ _ _ H1), (bind_run _ _ _ _ _ H2). reflexivity.
  - split; simpl.
    + destruct Hh as (Hv0 & Hp0 & Ht0). split_and!; simpl; [lia| |right].
      * rewrite Hh2, map_app, Hh1, Hp0. symmetry. exact (take_S_r _ _ _ Hi).
      * rewrite Hc2. exact (base_lookup _ _ Hb1 history_table).
    + intros _ x Hx. rewrite Hc2. auto.
    + intros i l Hi' Hl x Hx. rewrite Hc2. destruct (decide (i = k)) as [->|]; [by eapply Hc1|].
      eapply has_column_le; [exact Hle1|]. eapply Hc; [|exact Hl|done]. lia.
  - etransitivity; [exact Hd1|]. etransitivity; [exact Hd2|]. by split.
Qed.

Lemma migrate_loop_run n k w :
  (k ≤ 4)%nat → (4 - k < n)%nat → migrated k w →
  ∃ w', migrate_loop n w = (Ok true, w') ∧ migrated 4 w' ∧ same_data w w'.
Proof.
  revert k w. induction n as [|n IH]; intros k w Hk Hn Hm; [lia|].
  change (migrate_loop (S n)) with (b ← migrate_once; if b : bool then mret true else migrate_loop n).
  destruct (decide (k = 4%nat)) as [->|Hne].
  - exists w. rewrite (bind_run _ _ _ _ _ (migrate_once_current w (mg_history _ _ Hm))). by split_and!.
  - destruct (migrate_once_step k w) as (w1 & H1 & Hm1 & Hd1); [lia|done|].
    rewrite (bind_run _ _ _ _ _ H1). destruct (IH (S k) w1) as (w' & H' & Hm' & Hd'); [lia|lia|done|].
    exists w'. split_and!; [done|done|]. by etransitivity.
Qed.

Lemma all_true_run l w : (∀ m, m ∈ l → m w = (Ok true, w)) → all_true l w = (Ok true, w).
Proof.
  induction l as [|m l IH]; intros H; simpl; [done|].
  rewrite (bind_run _ _ _ _ _ (H m (list_elem_of_here _ _))). apply IH. set_solver.
Qed.
Lemma validated_migrated w x :
  migrated 4 w → x ∈ validated_columns → has_column (d_columns (w_db w)) x.
Proof.
  intros Hm Hx. assert (Forall (λ x, existsb (λ l, bool_decide (x ∈ l)) migration_columns = true) validated_columns) as H.
  { repeat constructor; vm_compute; reflexivity. }
  rewrite Forall_forall in H. specialize (H x Hx). apply existsb_exists in H as (l & Hl & Hb).
  apply bool_decide_eq_true in Hb. apply list_elem_of_In, list_elem_of_lookup in Hl as [i Hi].
  eapply (mg_columns _ _ Hm i); [|exact Hi|done]. apply lookup_lt_Some in Hi. exact Hi.
Qed.

Lemma migrated_validates w : migrated 4 w → validate_database_schema w = (Ok true, w).
Proof.
  intros Hm. unfold validate_database_schema.
  rewrite (bind_run _ _ _ _ _ (version_prefix 4 w (mg_history _ _ Hm))).
  rewrite bool_decide_eq_true_2 by done.
  rewrite (bind_run _ _ w (Some tt) w) by (unfold best_effort; by rewrite (validate_prefix 4 w (Nat.le_refl _) (mg_history _ _ Hm))).
  apply all_true_run. intros m [Hm'|Hm']%elem_of_app.
  - apply list_elem_of_fmap in Hm' as (t & -> & Ht). unfold table_exists, gets.
    assert (is_Some (d_columns (w_db w) !! t)) as [cs ->]; [|done].
    apply (base_lookup _ _ (mg_tables _ _ Hm ltac:(lia))). revert t Ht. apply Forall_forall.
    repeat constructor; apply (bool_decide_unpack _); reflexivity.
  - apply list_elem_of_fmap in Hm' as (x & -> & Hx). unfold column_exists, gets.
    destruct (validated_migrated w x Hm Hx) as (cs & -> & Hc). simpl. by rewrite bool_decide_eq_true_2.
Qed.
End migrate_steps.

(** ** Opening twice *)
Lemma normalize_idem v : normalize_optional_db_string (normalize_optional_db_string v) = normalize_optional_db_string v.
Proof.
  destruct v as [s|]; [|done]. unfold normalize_optional_db_string. simpl.
  destruct (is_empty (trim s)) eqn:E; [done|]. simpl. by rewrite trim_idem, E.
Qed.
Lemma normalize_union a b :
  normalize_optional_db_string (normalize_optional_db_string a ∪ normalize_optional_db_string b)
  = normalize_optional_db_string a ∪ normalize_optional_db_string b.
Proof.
  pose proof (normalize_idem a) as Ha. pose proof (normalize_idem b) as Hb.
  destruct (normalize_optional_db_string a), (normalize_optional_db_string b); done.
Qed.

Section opening.
Context {CH : Chrono}.

Definition stored_spec (d : db) : option string := normalize_optional_db_string (r ← d_prs d; p_selected_spec r).
Definition stored_last (d : db) : option string := normalize_optional_db_string (r ← d_prs d; p_last_spec_path r).
Definition legacy_value (name : string) (d : db) : option string :=
  normalize_optional_db_string (v ← d_metadata d !! name; v).

Lemma legacy_import_value w :
  legacy_runtime_metadata_import w =
  (Ok (if negb (some (d_columns (w_db w) !! "runtime_metadata")) then None
       else
         let spec := stored_spec (w_db w) ∪ legacy_value "selected_spec" (w_db w) in
         let last := stored_last (w_db w) ∪ legacy_value "last_spec_path" (w_db w) in
         if bool_decide (spec = stored_spec (w_db w)) && bool_decide (last = stored_last (w_db w))
         then None else Some (LegacyImport spec last)), w).
Proof.
  unfold legacy_runtime_metadata_import, table_exists, read_project_selection_from_database,
    read_last_spec_path_from_database, read_legacy_runtime_metadata, get_db, gets, mbind, st_bind,
    stored_spec, stored_last, legacy_value.
  destruct (d_columns (w_db w) !! "runtime_metadata") eqn:Ec; simpl; [|done].
  assert (selected_spec (match d_prs (w_db w) with
                         | Some r => {| selected_spec := normalize_optional_db_string (p_selected_spec r) |}
                         | None => {| selected_spec := None |} end)
          = normalize_optional_db_string (d_prs (w_db w) ≫= p_selected_spec)) as ->
    by by destruct (d_prs (w_db w)).
  by destruct (_ && _).
Qed.

(** After an import the same question has nothing left to import. *)
Lemma migrate_legacy_idem w w' :
  migrate_legacy_runtime_metadata w = (Ok tt, w') → legacy_runtime_metadata_import w' = (Ok None, w').
Proof.
  unfold migrate_legacy_runtime_metadata. rewrite (bind_run _ _ _ _ _ (legacy_import_value w)).
  destruct (negb (some (d_columns (w_db w) !! "runtime_metadata"))) eqn:Ec.
  { intros [= <-]. by rewrite legacy_import_value, Ec. }
  cbv zeta. destruct (_ && _) eqn:Eb.
  { intros [= <-]. rewrite legacy_import_value, Ec. cbv zeta. by rewrite Eb. }
  destruct (ensure_prs_run w) as (w1 & p & H1 & Hd & (Hc & _) & Hp). rewrite (bind_run _ _ _ _ _ H1).
  destruct (timestamp_run w1) as (t & c & tk & H2). rewrite (bind_run _ _ _ _ _ H2).
  rewrite (bind_run _ _ _ _ _ (update_prs_run _ (World (w_db w1) c tk (w_files w1)) p Hp)).
  intros [= <-]. rewrite legacy_import_value. simpl. rewrite Hc, Ec. cbv zeta.
  unfold stored_spec, stored_last, legacy_value. simpl. rewrite (sd_metadata _ _ Hd).
  rewrite !normalize_union. unfold stored_spec, stored_last, legacy_value in *.
  destruct (normalize_optional_db_string (d_prs (w_db w) ≫= p_selected_spec)),
    (normalize_optional_db_string (d_prs (w_db w) ≫= p_last_spec_path)),
    (normalize_optional_db_string (d_metadata (w_db w) !! "selected_spec" ≫= λ v, v)),
    (normalize_optional_db_string (d_metadata (w_db w) !! "last_spec_path" ≫= λ v, v));
    simpl; rewrite ?bool_decide_eq_true_2 by done; done.
Qed.

(** An import keeps a stored value and fills an empty one from the legacy table. *)
Lemma migrate_legacy_last w w' cs :
  d_columns (w_db w) !! "runtime_metadata" = Some cs → migrate_legacy_runtime_metadata w = (Ok tt, w') →
  stored_last (w_db w') = stored_last (w_db w) ∪ legacy_value "last_spec_path" (w_db w).
Proof.
  intros Hcs. unfold migrate_legacy_runtime_metadata. rewrite (bind_run _ _ _ _ _ (legacy_import_value w)).
  rewrite Hcs. cbv zeta. change (negb (some (Some cs))) with false. cbv iota. destruct (_ && _) eqn:Eb.
  { intros [= <-]. apply andb_true_iff in Eb as [_ Eb]. by apply bool_decide_eq_true in Eb. }
  destruct (ensure_prs_run w) as (w1 & p & H1 & Hd & (Hc & _) & Hp). rewrite (bind_run _ _ _ _ _ H1).
  destruct (timestamp_run w1) as (t & c & tk & H2). rewrite (bind_run _ _ _ _ _ H2).
  rewrite (bind_run _ _ _ _ _ (update_prs_run _ (World (w_db w1) c tk (w_files w1)) p Hp)).
  intros [= <-]. unfold stored_last at 1. simpl. apply normalize_union.
Qed.

Lemma initialize_no_import w :
  history_prefix 4 (w_db w) → legacy_runtime_metadata_import w = (Ok None, w) → initialize_schema w = (Ok tt, w).
Proof.
  intros Hh Hi. change initialize_schema with open_runtime_database. rewrite open_current by done.
  unfold migrate_legacy_runtime_metadata. by rewrite (bind_run _ _ _ _ _ Hi).
Qed.

(** Opening a database of any earlier schema version whose history is
    consistent brings it to the current version: the migrations all apply, the
    result passes [validate_database_schema], no task, run, event or archive
    changes, and opening it again changes nothing at all. *)
Theorem schema_opening_migrates k w :
  (k ≤ 4)%nat → migrated k w →
  ∃ w', initialize_schema w = (Ok tt, w') ∧ same_data w w' ∧
    d_user_version (w_db w') = RUNTIME_SCHEMA_VERSION ∧
    validate_database_schema w' = (Ok true, w') ∧
    initialize_schema w' = (Ok tt, w').
Proof.
  intros Hk Hm. destruct (migrate_loop_run 5 k w Hk) as (w1 & H1 & Hm1 & Hd1); [lia|done|].
  destruct (migrate_legacy_run w1) as (w' & H2 & Hd2 & Hc & Hv & Hh).
  assert (migrated 4 w') as Hm'.
  { destruct Hm1 as [(Ha & Hb & Ht) Htab Hcol].
    split; [split_and!; rewrite ?Hv, ?Hh, ?Hc; done|rewrite Hc; done|rewrite Hc; done]. }
  exists w'. split_and!.
  - unfold initialize_schema, migrate_runtime_schema.
    rewrite (bind_run _ _ w tt w1); [done|]. rewrite (bind_run _ _ _ _ _ H1).
    apply (validate_prefix 4); [done|]. apply Hm1.
  - by etransitivity.
  - apply Hm'.
  - by apply migrated_validates.
  - apply initialize_no_import; [apply Hm'|]. by eapply migrate_legacy_idem.
Qed.

(** A database without migration history: a new file or a legacy installation. *)
Lemma migrated_0 w : d_user_version (w_db w) = 0 → d_history (w_db w) = [] → migrated 0 w.
Proof.
  intros Hv Hh. split; [|lia|lia]. split_and!; [done|by rewrite Hh|by left].
Qed.
End opening.

(** ** The migration loop terminates on every database *)
Section termination.
Context {CH : Chrono}.

Definition at_version (v : Z) (w : world) : Prop := d_user_version (w_db w) = v.

Lemma at_version_timestamp v : preserves (at_version v) timestamp.
Proof. intros w Hw. destruct (timestamp_run w) as (t & c & tk & ->). done. Qed.
Lemma at_version_put v f : (∀ d, d_user_version (f d) = d_user_version d) → preserves (at_version v) (put_db f).
Proof. intros Hf w Hw. unfold at_version. simpl. by rewrite Hf. Qed.
Lemma at_version_ensure_column v t c : preserves (at_version v) (ensure_column t c).
Proof.
  unfold ensure_column. apply preserves_bind; [apply preserves_gets|]. intros []; [apply preserves_ret|].
  apply preserves_bind; [apply preserves_gets|]. intros []; [by apply at_version_put|apply preserves_fail].
Qed.
Lemma at_version_ensure_columns v l : preserves (at_version v) (ensure_columns l).
Proof. apply preserves_for_each. intros ? _. apply at_version_ensure_column. Qed.
Lemma at_version_ensure_prs v : preserves (at_version v) ensure_project_runtime_state_row.
Proof.
  intros w Hw. destruct (ensure_prs_run w) as (w' & p & -> & _ & (_ & Hv & _) & _).
  unfold at_version in *. simpl. congruence.
Qed.
Lemma at_version_legacy v : preserves (at_version v) migrate_legacy_runtime_metadata.
Proof.
  intros w Hw. destruct (migrate_legacy_run w) as (w' & -> & _ & (_ & Hv & _)).
  unfold at_version in *. simpl. congruence.
Qed.
#[local] Hint Resolve at_version_timestamp at_version_ensure_columns at_version_ensure_prs at_version_legacy : preserves.
Lemma at_version_apply v n : preserves (at_version v) (apply_migration n).
Proof.
  unfold apply_migration, adopt_legacy_runtime_schema, add_repository_view_references,
    add_frozen_repository_views, add_canonical_graph_state.
  solve_preserves; apply at_version_put; intros d; by destruct (d_columns d !! _).
Qed.
Lemma at_version_insert_migration v x n : preserves (at_version v) (insert_migration x n).
Proof.
  unfold insert_migration, get_db. solve_preserves. by apply at_version_put.
Qed.

Lemma at_version_validate v : preserves (at_version v) validate_runtime_migration_history.
Proof.
  unfold validate_runtime_migration_history, runtime_schema_version, table_exists. solve_preserves.
  generalize RUNTIME_MIGRATIONS. match goal with |- context [history_matches ?h _] => generalize h end.
  intros h. induction h as [|[[? ?] ?] h IH]; intros [|[? ?] ?]; simpl; try apply preserves_ret; try apply preserves_fail.
  apply preserves_bind; [apply preserves_ensure|intros _; apply IH].
Qed.

Lemma runtime_schema_version_Ok w v w' :
  runtime_schema_version w = (Ok v, w') → w' = w ∧ v = d_user_version (w_db w) ∧ 0 ≤ v.
Proof.
  unfold runtime_schema_version, gets, mbind, st_bind. simpl.
  destruct (Z.leb_spec 0 (d_user_version (w_db w))); [|done]. by intros [= <- <-].
Qed.

(** An iteration that does not break moves the version up by one, within range. *)
Lemma migrate_once_advances w w' :
  migrate_once w = (Ok false, w') →
  0 ≤ d_user_version (w_db w) < 4 ∧ d_user_version (w_db w') = d_user_version (w_db w) + 1.
Proof.
  unfold migrate_once, transaction. intros H.
  match type of H with match ?m with _ => _ end = _ => destruct m as [[b|e] w1] eqn:E; [|done] end.
  injection H as -> ->.
  apply bind_Ok in E as (u & w2 & E2 & E).
  pose proof (at_version_validate (d_user_version (w_db w)) w eq_refl) as Hw2. rewrite E2 in Hw2. simpl in Hw2.
  apply bind_Ok in E as (v & w3 & E3 & E). apply runtime_schema_version_Ok in E3 as (-> & -> & Hv).
  rewrite Hw2 in *. case_bool_decide as Hne; [done|].
  destruct (RUNTIME_MIGRATIONS !! _) as [[ver name]|] eqn:Hl; [|done].
  apply bind_Ok in E as (u1 & w4 & E4 & E). unfold ensure in E4. case_bool_decide as Hver; [|done].
  injection E4 as <- <-.
  apply bind_Ok in E as (u2 & w5 & E5 & E). apply bind_Ok in E as (u3 & w6 & E6 & E).
  apply bind_Ok in E as (u4 & w7 & E7 & E). injection E as <-. injection E7 as _ <-. simpl.
  apply lookup_lt_Some in Hl. simpl in Hl. split; [|lia]. lia.
Qed.

Lemma migrate_loop_fuel n m w :
  (Z.to_nat (4 - d_user_version (w_db w)) < n)%nat → (n ≤ m)%nat →
  migrate_loop m w = migrate_loop n w ∧ (migrate_loop n w).1 ≠ Ok false.
Proof.
  revert m w. induction n as [|n IH]; intros m w Hn Hm; [lia|]. destruct m as [|m]; [lia|].
  assert (∀ k, migrate_loop (S k) w = match migrate_once w with
    | (Ok true, w') => (Ok true, w') | (Ok false, w') => migrate_loop k w' | (Err e, w') => (Err e, w') end) as Hs.
  { intros k. change (migrate_loop (S k)) with (b ← migrate_once; if b : bool then mret true else migrate_loop k).
    unfold mbind, st_bind. by destruct (migrate_once w) as [[[]|] ?]. }
  rewrite !Hs. destruct (migrate_once w) as [[[]|e] w'] eqn:E; simpl; [done| |done].
  apply migrate_once_advances in E as [Hr Hv]. apply IH; [rewrite Hv|]; lia.
Qed.

(** Bringing the schema up to date terminates on every database, however
    inconsistent: the loop breaks or fails within five iterations, so a larger
    bound gives the same result. *)
Theorem migration_loop_terminates fuel w :
  (5 ≤ fuel)%nat →
  migrate_loop fuel w = migrate_loop 5 w ∧ (migrate_loop 5 w).1 ≠ Ok false.
Proof.
  intros Hf. destruct (Z.le_gt_cases 0 (d_user_version (w_db w))) as [H0|H0].
  - apply migrate_loop_fuel; lia.
  - destruct fuel as [|fuel]; [lia|].
    assert (migrate_once w = (Err (SqlConstraint "user_version out of range for u32"), w)) as E.
    { unfold migrate_once, transaction, validate_runtime_migration_history, runtime_schema_version, gets, mbind, st_bind.
      simpl. rewrite (proj2 (Z.leb_gt 0 _)) by lia. by destruct w. }
    assert (∀ k, migrate_loop (S k) w = (Err (SqlConstraint "user_version out of range for u32"), w)) as Hs.
    { intros k. change (migrate_loop (S k)) with (b ← migrate_once; if b : bool then mret true else migrate_loop k).
      unfold mbind, st_bind. by rewrite E. }
    by rewrite !Hs.
Qed.

(** A database written by a newer version is refused and left untouched. *)
Theorem newer_schema_refused w :
  RUNTIME_SCHEMA_VERSION < d_user_version (w_db w) →
  open_runtime_database w =
    (Err (Bail "ferrus.db schema version {version} is newer than supported version {RUNTIME_SCHEMA_VERSION}"
            [display_u32 (d_user_version (w_db w)); display_u32 RUNTIME_SCHEMA_VERSION]), w).
Proof.
  intros Hv. unfold RUNTIME_SCHEMA_VERSION in Hv.
  unfold open_runtime_database, initialize_schema, migrate_runtime_schema, migrate_loop, migrate_once, transaction,
    validate_runtime_migration_history, runtime_schema_version, gets, mbind, st_bind. simpl.
  rewrite (proj2 (Z.leb_le 0 _)) by lia. unfold mret, st_ret.
  assert ((RUNTIME_SCHEMA_VERSION <? d_user_version (w_db w)) = true) as ->
    by (unfold RUNTIME_SCHEMA_VERSION; lia).
  by destruct w.
Qed.
End termination.

(** ** At concrete databases *)

(** An up-to-date installation with the given rows, at 1000 seconds past the
    epoch, and a clock that advances one second per reading. *)
Definition demo_db (tasks : list (string * task_row)) (runs : list (string * run_row)) : db :=
  Db (list_to_map tasks) (list_to_map runs) [] 0 None [] ∅ 4
    (map (λ x, (x, "1970-01-01T00:00:00Z")) RUNTIME_MIGRATIONS)
    {[ "runtime_schema_migrations" := ["version"; "name"; "applied_at"] ]}.
Definition demo_world (tasks : list (string * task_row)) (runs : list (string * run_row)) : world :=
  World (demo_db tasks runs) (1000 * nanos) (replicate 20 nanos) ∅.
Lemma demo_ready tasks runs : schema_ready (demo_db tasks runs).
Proof. split; [split_and!; [done|reflexivity|right; eexists; reflexivity]|reflexivity]. Qed.
Definition fresh_world : world := World (Db ∅ ∅ [] 0 None [] ∅ 0 [] ∅) 0 [] ∅.

Lemma schema_opening_migrates_witness :
  ∃ w', @initialize_schema DecimalChrono.chrono fresh_world = (Ok tt, w') ∧ same_data fresh_world w' ∧
    d_user_version (w_db w') = RUNTIME_SCHEMA_VERSION ∧
    validate_database_schema w' = (Ok true, w') ∧
    @initialize_schema DecimalChrono.chrono w' = (Ok tt, w').
Proof.
  apply (@schema_opening_migrates DecimalChrono.chrono 0 fresh_world).
  - lia.
  - apply migrated_0; reflexivity.
Defined.

Lemma migration_loop_terminates_witness :
  @migrate_loop DecimalChrono.chrono 6 fresh_world = @migrate_loop DecimalChrono.chrono 5 fresh_world ∧
  (@migrate_loop DecimalChrono.chrono 5 fresh_world).1 ≠ Ok false.
Proof. apply (@migration_loop_terminates DecimalChrono.chrono 6 fresh_world). lia. Defined.

Lemma newer_schema_refused_witness :
  let w := fresh_world <| w_db := (w_db fresh_world) <| d_user_version := 5 |> |> in
  @open_runtime_database DecimalChrono.chrono w =
    (Err (Bail "ferrus.db schema version {version} is newer than supported version {RUNTIME_SCHEMA_VERSION}"
            ["5"; "4"]), w).
Proof.
  exact (@newer_schema_refused DecimalChrono.chrono
           (fresh_world <| w_db := (w_db fresh_world) <| d_user_version := 5 |> |>) eq_refl).
Defined.
