(* ===== verification/Exec.v ===== *)
(** Closed forms of the statements: what one statement does to the world when
    its preconditions hold, and the automation that runs a sequence of them.
    Functional theorems about operations are stated with these forms. *)
From S2P Require Import Prelude Status View Chrono Database WellFormed Schema.

(** ** World updates *)

(** The world after the clock was read once; the time read is its clock. *)
Definition tick (w : world) : world :=
  match w_ticks w with
  | [] => w
  | d :: ds => w <| w_clock := w_clock w + d |> <| w_ticks := ds |>
  end.
Definition set_task (id : string) (t : task_row) (w : world) : world :=
  w <| w_db := (w_db w) <| d_tasks := <[id := t]> (d_tasks (w_db w)) |> |>.
Definition set_run (id : string) (r : run_row) (w : world) : world :=
  w <| w_db := (w_db w) <| d_runs := <[id := r]> (d_runs (w_db w)) |> |>.
Definition add_event {CH : Chrono} (run_id : option string) (type : string) (p : payload) (w : world) : world :=
  let w := tick w in
  w <| w_db := (w_db w) <| d_events := (d_events (w_db w) ++
                             [EventRow (d_event_seq (w_db w) + 1) run_id type p (rfc3339_secs (w_clock w))])%list |>
                        <| d_event_seq := d_event_seq (w_db w) + 1 |> |>.

(** ** What the updates leave alone *)
Create Rewrite HintDb world.
Section frame.
Context {CH : Chrono}.
Lemma tick_db w : w_db (tick w) = w_db w.
Proof. unfold tick. by destruct (w_ticks w). Qed.
Lemma tick_files w : w_files (tick w) = w_files w.
Proof. unfold tick. by destruct (w_ticks w). Qed.
Lemma add_event_tasks r ty p w : d_tasks (w_db (add_event r ty p w)) = d_tasks (w_db w).
Proof. unfold add_event. simpl. by rewrite tick_db. Qed.
Lemma add_event_runs r ty p w : d_runs (w_db (add_event r ty p w)) = d_runs (w_db w).
Proof. unfold add_event. simpl. by rewrite tick_db. Qed.
Lemma add_event_prs r ty p w : d_prs (w_db (add_event r ty p w)) = d_prs (w_db w).
Proof. unfold add_event. simpl. by rewrite tick_db. Qed.
Lemma add_event_seq r ty p w : d_event_seq (w_db (add_event r ty p w)) = d_event_seq (w_db w) + 1.
Proof. unfold add_event. simpl. by rewrite tick_db. Qed.
Lemma add_event_files r ty p w : w_files (add_event r ty p w) = w_files w.
Proof. unfold add_event. simpl. by rewrite tick_files. Qed.
Lemma set_task_tasks id t w : d_tasks (w_db (set_task id t w)) = <[id := t]> (d_tasks (w_db w)).
Proof. done. Qed.
Lemma set_task_runs id t w : d_runs (w_db (set_task id t w)) = d_runs (w_db w).
Proof. done. Qed.
Lemma set_task_prs id t w : d_prs (w_db (set_task id t w)) = d_prs (w_db w).
Proof. done. Qed.
Lemma set_task_seq id t w : d_event_seq (w_db (set_task id t w)) = d_event_seq (w_db w).
Proof. done. Qed.
Lemma set_run_tasks id r w : d_tasks (w_db (set_run id r w)) = d_tasks (w_db w).
Proof. done. Qed.
Lemma set_run_runs id r w : d_runs (w_db (set_run id r w)) = <[id := r]> (d_runs (w_db w)).
Proof. done. Qed.
Lemma set_task_clock id t w : w_clock (set_task id t w) = w_clock w.
Proof. done. Qed.
Lemma set_task_set_task id t u w : set_task id t (set_task id u w) = set_task id t w.
Proof. unfold set_task. simpl. by rewrite insert_insert_eq. Qed.
Lemma lookup_task_eq (m : gmap string task_row) id t : <[id := t]> m !! id = Some t.
Proof. apply lookup_insert_eq. Qed.
Lemma lookup_run_eq (m : gmap string run_row) id t : <[id := t]> m !! id = Some t.
Proof. apply lookup_insert_eq. Qed.
End frame.
#[export] Hint Rewrite tick_db tick_files @add_event_tasks @add_event_runs @add_event_prs @add_event_seq
  @add_event_files set_task_tasks set_task_runs set_task_prs set_task_seq set_run_tasks set_run_runs
  lookup_task_eq lookup_run_eq : world.

(** The invariant through the updates. *)
Lemma wf_add_event {CH : Chrono} r ty p w :
  wf w → is_col (λ r, is_Some (d_runs (w_db w) !! r)) r → wf (add_event r ty p w).
Proof.
  intros Hw Hr. unfold wf, add_event. simpl. rewrite tick_db. by apply db_wf_add_event.
Qed.
Lemma wf_set_task id t u w :
  wf w → d_tasks (w_db w) !! id = Some t → task_wf u →
  (t_human_question_order u = t_human_question_order t ∨ t_human_question_order u = None) → wf (set_task id u w).
Proof. intros. by eapply db_wf_update_row. Qed.
Lemma wf_task w id t : wf w → d_tasks (w_db w) !! id = Some t → task_wf t.
Proof. intros Hw. apply (dw_tasks _ Hw). Qed.

(** The schema part of a database, which only opening writes. *)
Definition schema_part (d : db) := (d_user_version d, d_history d, d_columns d).
Lemma schema_ready_part d d' : schema_part d' = schema_part d → schema_ready d → schema_ready d'.
Proof.
  unfold schema_part, schema_ready, history_prefix. intros [= H1 H2 H3]. by rewrite H1, H2, H3.
Qed.
Lemma add_event_schema {CH : Chrono} r ty p w :
  schema_ready (w_db w) → schema_ready (w_db (add_event r ty p w)).
Proof. apply schema_ready_part. unfold add_event, schema_part. simpl. by rewrite tick_db. Qed.
Lemma set_task_schema id t w : schema_ready (w_db w) → schema_ready (w_db (set_task id t w)).
Proof. by apply schema_ready_part. Qed.
Lemma set_run_schema id r w : schema_ready (w_db w) → schema_ready (w_db (set_run id r w)).
Proof. by apply schema_ready_part. Qed.
Lemma tick_schema w : schema_ready (w_db w) → schema_ready (w_db (tick w)).
Proof. by rewrite tick_db. Qed.

(** ** Running statements *)
Create HintDb exec discriminated.

Lemma bind_eq {S A B} (m : st S A) (f : A → st S B) s a s1 r :
  m s = (Ok a, s1) → f a s1 = r → (m ≫= f) s = r.
Proof. intros H <-. by apply bind_run. Qed.
Lemma transaction_Ok {A} (m : st world A) w a w' : m w = (Ok a, w') → transaction m w = (Ok a, w').
Proof. unfold transaction. by intros ->. Qed.
Lemma transaction_Ok_inv {A} (m : st world A) w a w' : transaction m w = (Ok a, w') → m w = (Ok a, w').
Proof. unfold transaction. by destruct (m w) as [[?|?] ?]; intros [= -> ->]. Qed.
Lemma transaction_Err {A} (m : st world A) w e w' :
  m w = (Err e, w') → transaction m w = (Err e, w' <| w_db := w_db w |>).
Proof. unfold transaction. by intros ->. Qed.

(** A transaction either commits everything or leaves the database as it was. *)
Lemma transaction_atomic {A} (m : st world A) w :
  match transaction m w with
  | (Ok a, w') => m w = (Ok a, w')
  | (Err e, w') => w_db w' = w_db w
  end.
Proof. unfold transaction. by destruct (m w) as [[]]. Qed.

Section run.
Context {CH : Chrono}.

Lemma open_run w : schema_ready (w_db w) → open_runtime_database w = (Ok tt, w).
Proof. apply open_ready. Qed.
Lemma utc_now_eq w : utc_now w = (Ok (w_clock (tick w)), tick w).
Proof. unfold utc_now, tick. by destruct (w_ticks w). Qed.
Lemma timestamp_eq w : timestamp w = (Ok (rfc3339_secs (w_clock (tick w))), tick w).
Proof. unfold timestamp, fmap, st_fmap. by rewrite utc_now_eq. Qed.
Lemma mret_eq {A} (a : A) w : mret (M := st world) a w = (Ok a, w).
Proof. done. Qed.
Lemma get_db_eq w : get_db w = (Ok (w_db w), w).
Proof. done. Qed.
Lemma select_task_eq id w : select_task id w = (Ok (d_tasks (w_db w) !! id), w).
Proof. done. Qed.
Lemma select_task_some id t w : d_tasks (w_db w) !! id = Some t → select_task id w = (Ok (Some t), w).
Proof. unfold select_task, gets. by intros ->. Qed.
Lemma select_run_some id r w : d_runs (w_db w) !! id = Some r → select_run id w = (Ok (Some r), w).
Proof. unfold select_run, gets. by intros ->. Qed.
Lemma update_task_where_run id p f t w :
  d_tasks (w_db w) !! id = Some t → p t = true → update_task_where id p f w = (Ok 1, set_task id (f t) w).
Proof. intros Ht Hp. unfold update_task_where, mbind, st_bind. rewrite (select_task_some _ _ _ Ht). by rewrite Hp. Qed.
Lemma update_task_where_no id p f t w :
  d_tasks (w_db w) !! id = Some t → p t = false → update_task_where id p f w = (Ok 0, w).
Proof. intros Ht Hp. unfold update_task_where, mbind, st_bind. rewrite (select_task_some _ _ _ Ht). by rewrite Hp. Qed.
Lemma update_task_where_none id p f w :
  d_tasks (w_db w) !! id = None → update_task_where id p f w = (Ok 0, w).
Proof. intros Ht. unfold update_task_where, select_task, gets, mbind, st_bind. by rewrite Ht. Qed.
Lemma update_task_run id f t w :
  d_tasks (w_db w) !! id = Some t → update_task id f w = (Ok 1, set_task id (f t) w).
Proof. intros Ht. by apply update_task_where_run. Qed.
Lemma update_task_none id f w : d_tasks (w_db w) !! id = None → update_task id f w = (Ok 0, w).
Proof. apply update_task_where_none. Qed.
Lemma update_run_run id f r w :
  d_runs (w_db w) !! id = Some r → update_run id f w = (Ok 1, set_run id (f r) w).
Proof. intros Hr. unfold update_run, mbind, st_bind. by rewrite (select_run_some _ _ _ Hr). Qed.
Lemma update_run_none id f w : d_runs (w_db w) !! id = None → update_run id f w = (Ok 0, w).
Proof. intros Hr. unfold update_run, select_run, gets, mbind, st_bind. by rewrite Hr. Qed.
Lemma clear_task_lease_run id t w :
  d_tasks (w_db w) !! id = Some t → clear_task_lease id w = (Ok tt, set_task id (no_lease t) w).
Proof. intros Ht. unfold clear_task_lease, mbind, st_bind. by rewrite (update_task_run _ _ _ _ Ht). Qed.

(** The run an event refers to exists. *)
Definition run_known (run_id : option string) (w : world) : Prop :=
  is_col (λ r, is_Some (d_runs (w_db w) !! r)) run_id.
Lemma insert_event_in_transaction_run run_id ty p w :
  run_known run_id w → insert_event_in_transaction run_id ty p w = (Ok tt, add_event run_id ty p w).
Proof.
  intros Hr. unfold insert_event_in_transaction, mbind, st_bind. rewrite timestamp_eq, get_db_eq.
  rewrite tick_db. destruct run_id as [r|]; [|done]. destruct Hr as [row Hr]. by rewrite Hr.
Qed.
Lemma insert_event_run run_id ty p w :
  run_known run_id w → insert_event run_id ty p w = (Ok tt, add_event run_id ty p w).
Proof.
  intros Hr. unfold insert_event. eapply bind_eq; [|by apply insert_event_in_transaction_run].
  destruct run_id as [r|]; [|done]. destruct Hr as [row Hr].
  by eapply bind_eq; [apply (select_run_some _ _ _ Hr)|].
Qed.
Lemma insert_event_in_transaction_none ty p w :
  insert_event_in_transaction None ty p w = (Ok tt, add_event None ty p w).
Proof. by apply insert_event_in_transaction_run. Qed.
Lemma insert_event_none ty p w : insert_event None ty p w = (Ok tt, add_event None ty p w).
Proof. by apply insert_event_run. Qed.
Lemma task_check_retries_run id t w :
  d_tasks (w_db w) !! id = Some t → task_check_retries id w = (Ok (as_u32 (t_check_retries t)), w).
Proof. intros H. unfold task_check_retries. by eapply bind_eq; [apply (select_task_some _ _ _ H)|]. Qed.
Lemma task_review_cycles_run id t w :
  d_tasks (w_db w) !! id = Some t → task_review_cycles id w = (Ok (as_u32 (t_review_cycles t)), w).
Proof. intros H. unfold task_review_cycles. by eapply bind_eq; [apply (select_task_some _ _ _ H)|]. Qed.
Lemma task_executor_dispatches_run id t w :
  d_tasks (w_db w) !! id = Some t → task_executor_dispatches id w = (Ok (as_u32 (t_executor_dispatches t)), w).
Proof. intros H. unfold task_executor_dispatches. by eapply bind_eq; [apply (select_task_some _ _ _ H)|]. Qed.
Lemma task_candidate_by_id_eq id w :
  task_candidate_by_id id w = (Ok (candidate_of_row id <$> d_tasks (w_db w) !! id), w).
Proof. done. Qed.
(** The row [upsert_task] writes. *)
Definition upsert_row (o : option task_row) (path : string) (status : TaskStatus) (spec milestone : option string) :
    task_row :=
  match o with
  | Some t => t <| t_path := path |> <| t_status := as_str status |> <| t_spec_path := spec ∪ t_spec_path t |>
                <| t_milestone_id := milestone ∪ t_milestone_id t |>
  | None => (task_row_default path (as_str status)) <| t_spec_path := spec |> <| t_milestone_id := milestone |>
  end.
Lemma upsert_task_run id path status spec milestone w :
  upsert_task id path status spec milestone w
  = (Ok tt, set_task id (upsert_row (d_tasks (w_db w) !! id) path status spec milestone) w).
Proof.
  unfold upsert_task, select_task, gets, mbind, st_bind. by destruct (d_tasks (w_db w) !! id).
Qed.
Lemma ensure_true {S} b fmt args (w : S) : b = true → ensure b fmt args w = (Ok tt, w).
Proof. unfold ensure. by intros ->. Qed.
Lemma ensure_false {S} b fmt args (w : S) : b = false → ensure b fmt args w = (Err (Bail fmt args), w).
Proof. unfold ensure. by intros ->. Qed.
Lemma ensure_task_exists_some id path t w :
  d_tasks (w_db w) !! id = Some t → ensure_task_exists id path w = (Ok tt, w).
Proof.
  intros H. unfold ensure_task_exists, insert_or_ignore_task.
  eapply bind_eq; [|reflexivity]. by eapply bind_eq; [apply (select_task_some _ _ _ H)|].
Qed.
End run.
#[export] Hint Resolve open_run utc_now_eq timestamp_eq select_task_some select_run_some
  update_task_where_run update_task_run update_run_run clear_task_lease_run
  insert_event_in_transaction_none insert_event_none
  insert_event_in_transaction_run insert_event_run task_check_retries_run
  task_review_cycles_run task_executor_dispatches_run upsert_task_run ensure_true ensure_task_exists_some : exec.


#[export] Hint Extern 0 (mret _ _ = _) => apply mret_eq : exec.
#[export] Hint Extern 0 (get_db _ = _) => apply get_db_eq : exec.

(** Side conditions: lookups through the updates, schema and run existence. *)
Ltac world_lookup := autorewrite with world; first [eassumption | reflexivity].
#[export] Hint Extern 1 (_ !! _ = Some _) => solve [world_lookup] : exec.
#[export] Hint Extern 1 (schema_ready _) =>
  solve [repeat first [assumption | apply add_event_schema | apply set_task_schema | apply set_run_schema
                      | apply tick_schema]] : exec.
#[export] Hint Extern 1 (run_known _ _) =>
  solve [assumption | exact I | unfold run_known, is_col in *; autorewrite with world; eauto] : exec.

(** Run the first statement of the goal's left-hand side. *)
Ltac exec_norm :=
  repeat change (bool_decide (1 = 0)) with false; repeat change (bool_decide (1 = 1)) with true;
  repeat change (bool_decide (0 = 0)) with true; repeat change (bool_decide (0 = 1)) with false;
  cbn [negb andb orb].
Ltac exec_norm_in H :=
  repeat change (bool_decide (1 = 0)) with false in H; repeat change (bool_decide (0 = 0)) with true in H;
  cbv iota in H.
Ltac exec_step :=
  match goal with
  | |- mbind _ _ _ = _ => eapply bind_eq; [solve [eauto 3 with exec nocore]|]
  | |- transaction _ _ = (Ok _, _) => eapply transaction_Ok
  | |- mret _ _ = _ => reflexivity
  | |- _ = (Ok _, _) => solve [eauto 3 with exec nocore]
  end; exec_norm.
Ltac exec := exec_norm; repeat exec_step.
