(* ===== verification/Store.v ===== *)
(** Task- and run-scoped artifacts ([src/src/state/store.rs]): files are keyed
    by their project-relative path, a failing write leaves the file as it
    was. *)
From S2P Require Import Prelude Status View Chrono Database WellFormed.

(** ** Paths *)
Definition run_dir_for_task (task_id : string) : string := (".ferrus/runs/" +:+ task_id)%string.
Definition CURRENT_TASK_ID : string := "current".
Definition CURRENT_TASK_PATH : string := ".ferrus/TASK.md".
Definition default_task_path_for_id (task_id : string) : string :=
  if bool_decide (task_id = CURRENT_TASK_ID) then CURRENT_TASK_PATH
  else (".ferrus/tasks/" +:+ task_id +:+ ".md")%string.
Definition run_file (run_dir name : string) : string := (run_dir +:+ "/" +:+ name)%string.

Section store.
Context {ENV : Env}.

(** ** Files *)
Definition read_path (path : string) : st world string :=
  f ← gets (λ w, w_files w !! path);
  match f with Some c => mret c | None => bail "Failed to read {}" [path] end.
Definition read_path_or_empty (path : string) : st world string :=
  f ← gets (λ w, w_files w !! path); mret (default "" f).
Definition write_path (path content : string) : st world unit :=
  if write_ok path then modify (λ w, w <| w_files := <[path := content]> (w_files w) |>)
  else bail "Failed to write {}" [path].
(** The content is staged beside the file and renamed over it, so a failure
    publishes nothing. *)
Definition write_path_atomically (path content : string) : st world unit :=
  if write_ok path then modify (λ w, w <| w_files := <[path := content]> (w_files w) |>)
  else bail "Failed to publish {}" [path].
Definition remove_path_if_exists (path : string) : st world unit :=
  modify (λ w, w <| w_files := delete path (w_files w) |>).
(** [remove_dir_all]: every file below the directory. *)
Definition remove_dir_if_exists (dir : string) : st world unit :=
  modify (λ w, w <| w_files := filter (λ x, starts_with (dir +:+ "/")%string x.1 = false) (w_files w) |>).

(** ** Artifacts of a run directory *)
Definition read_task_at (task_path : string) : st world string := read_path task_path.
Definition read_review_for_run_dir (d : string) : st world string := read_path_or_empty (run_file d "REVIEW.md").
Definition write_review_for_run_dir (d c : string) : st world unit := write_path (run_file d "REVIEW.md") c.
Definition read_submission_for_run_dir (d : string) : st world string := read_path_or_empty (run_file d "SUBMISSION.md").
Definition write_submission_for_run_dir (d c : string) : st world unit := write_path (run_file d "SUBMISSION.md") c.
Definition read_patch_for_run_dir (d : string) : st world string := read_path_or_empty (run_file d "PATCH.diff").
Definition write_patch_for_run_dir (d c : string) : st world unit := write_path (run_file d "PATCH.diff") c.
Definition clear_patch_for_run_dir (d : string) : st world unit := remove_path_if_exists (run_file d "PATCH.diff").
Definition read_integration_error_for_run_dir (d : string) : st world string := read_path_or_empty (run_file d "INTEGRATION_ERROR.md").
Definition write_integration_error_for_run_dir (d c : string) : st world unit := write_path (run_file d "INTEGRATION_ERROR.md") c.
Definition clear_integration_error_for_run_dir (d : string) : st world unit := remove_path_if_exists (run_file d "INTEGRATION_ERROR.md").
Definition write_question_for_run_dir (d c : string) : st world unit := write_path (run_file d "QUESTION.md") c.
Definition read_question_for_run_dir (d : string) : st world string := read_path (run_file d "QUESTION.md").
Definition clear_question_for_run_dir (d : string) : st world unit := write_path (run_file d "QUESTION.md") "".
Definition read_answer_for_run_dir (d : string) : st world string := read_path (run_file d "ANSWER.md").
Definition write_answer_for_run_dir (d c : string) : st world unit := write_path (run_file d "ANSWER.md") c.
Definition clear_answer_for_run_dir (d : string) : st world unit := write_path (run_file d "ANSWER.md") "".
Definition write_consult_request_for_run_dir (d c : string) : st world unit := write_path (run_file d "CONSULT_REQUEST.md") c.
Definition read_consult_request_for_run_dir (d : string) : st world string := read_path (run_file d "CONSULT_REQUEST.md").
Definition clear_consult_request_for_run_dir (d : string) : st world unit := write_path (run_file d "CONSULT_REQUEST.md") "".
Definition read_consult_response_for_run_dir (d : string) : st world string := read_path (run_file d "CONSULT_RESPONSE.md").
Definition write_consult_response_for_run_dir (d c : string) : st world unit := write_path_atomically (run_file d "CONSULT_RESPONSE.md") c.
Definition clear_consult_response_for_run_dir (d : string) : st world unit := write_path (run_file d "CONSULT_RESPONSE.md") "".
Definition clear_scoped_task_artifacts (task_path run_dir : string) : st world unit :=
  remove_path_if_exists task_path ;; remove_dir_if_exists run_dir.

(** The database does not see file operations. *)
Lemma preserves_read_path p : preserves wf (read_path p).
Proof. unfold read_path. solve_wf. Qed.
Lemma preserves_read_path_or_empty p : preserves wf (read_path_or_empty p).
Proof. unfold read_path_or_empty. solve_wf. Qed.
Lemma preserves_write_path p c : preserves wf (write_path p c).
Proof. unfold write_path. destruct (write_ok p); [by apply preserves_modify|apply preserves_fail]. Qed.
Lemma preserves_write_path_atomically p c : preserves wf (write_path_atomically p c).
Proof. unfold write_path_atomically. destruct (write_ok p); [by apply preserves_modify|apply preserves_fail]. Qed.
Lemma preserves_remove_path p : preserves wf (remove_path_if_exists p).
Proof. by apply preserves_modify. Qed.
Lemma preserves_remove_dir p : preserves wf (remove_dir_if_exists p).
Proof. by apply preserves_modify. Qed.
Lemma preserves_clear_scoped t d : preserves wf (clear_scoped_task_artifacts t d).
Proof. apply preserves_bind; [apply preserves_remove_path|intros ?; apply preserves_remove_dir]. Qed.

Lemma write_path_run p c w :
  write_ok p = true → write_path p c w = (Ok tt, w <| w_files := <[p := c]> (w_files w) |>).
Proof. unfold write_path. by intros ->. Qed.
Lemma write_path_fail p c w :
  write_ok p = false → write_path p c w = (Err (Bail "Failed to write {}" [p]), w).
Proof. unfold write_path. by intros ->. Qed.
End store.
#[export] Hint Resolve preserves_read_path preserves_read_path_or_empty preserves_write_path preserves_write_path_atomically preserves_remove_path
  preserves_remove_dir preserves_clear_scoped : preserves.
