(* ===== verification/Waits.v ===== *)
(** Consultation and human-question pauses ([src/src/project/task/waits.rs])
    and the queues of open questions and answered waiters
    ([src/src/project/registry.rs]). *)
From S2P Require Import Prelude Status View Chrono Database WellFormed Schema Exec Store.

Section waits.
Context {CH : Chrono} {ENV : Env}.

(** ** Consultation *)
Definition task_consultation_in_transaction (id : string) (paused : TaskStatus) : st world unit :=
  update_task id (λ t, t <| t_status := as_str Consultation |> <| t_paused_status := Some (as_str paused) |>) ;;
  insert_event None "task_consultation_requested" [("task_id", JStr id); ("paused_status", JStr (as_str paused))].

Definition record_task_consultation_requested (id : string) (paused : TaskStatus) : st world unit :=
  open_runtime_database ;; transaction (task_consultation_in_transaction id paused).

Inductive TaskConsultRestore : Type :=
  | ConsultRestored (status : string)
  | NotInConsultation.

Definition task_restore_consultation_in_transaction (id : string) : st world TaskConsultRestore :=
  row ← select_task id;
  match row with
  | None => mret NotInConsultation
  | Some t =>
    if negb (bool_decide (t_status t = as_str Consultation)) then mret NotInConsultation
    else
      let resumed := default (as_str Executing) (t_paused_status t) in
      update_task id (λ t, t <| t_status := resumed |> <| t_paused_status := None |>) ;;
      insert_event_in_transaction None "task_consultation_resolved"
        [("task_id", JStr id); ("resumed_status", JStr resumed)] ;;
      mret (ConsultRestored resumed)
  end.

Definition restore_task_from_consultation (id : string) : st world TaskConsultRestore :=
  open_runtime_database ;; transaction (task_restore_consultation_in_transaction id).

(** ** Human questions *)
Definition last_insert_rowid : st world Z := gets (λ w, d_event_seq (w_db w)).

Definition task_human_question_in_transaction (id : string) (resume : TaskStatus) (paused : option TaskStatus)
    (by_ : string) : st world unit :=
  let paused := as_str <$> paused in
  update_task id (λ t, t <| t_status := as_str AwaitingHuman |> <| t_paused_status := paused |>
                         <| t_awaiting_human_by := Some by_ |>
                         <| t_awaiting_human_status := Some (as_str resume) |>
                         <| t_human_answer_recorded := 0 |>) ;;
  insert_event_in_transaction None "task_human_question_requested"
    [("task_id", JStr id); ("paused_status", jopt paused); ("resume_status", JStr (as_str resume));
     ("awaiting_human_by", JStr by_)] ;;
  order ← last_insert_rowid;
  update_task id (λ t, t <| t_human_question_order := Some order |>) ;;
  mret tt.

Definition record_task_human_question_requested_with_resume (id : string) (resume : TaskStatus)
    (paused : option TaskStatus) (by_ : string) : st world unit :=
  open_runtime_database ;; transaction (task_human_question_in_transaction id resume paused by_).

Definition awaiting (t : task_row) : bool := bool_decide (t_status t = as_str AwaitingHuman).

Definition record_task_human_answer (id : string) : st world unit :=
  open_runtime_database ;;
  transaction (
    changed ← update_task_where id awaiting (λ t, t <| t_human_answer_recorded := 1 |>);
    if bool_decide (changed = 0) then bail "Task {task_id} is not waiting for a human answer." [id]
    else insert_event_in_transaction None "task_human_answer_recorded" [("task_id", JStr id)]).

Definition clear_task_human_answer_recorded (id : string) : st world unit :=
  open_runtime_database ;;
  transaction (update_task_where id awaiting (λ t, t <| t_human_answer_recorded := 0 |>) ;; mret tt).

Record HumanQuestion := HumanQ {
  hq_task_id : string;
  hq_task_path : string;
  hq_run_dir : string;
  hq_question : string }.

(** The answer is recorded first; a failing write of the answer file takes the
    record back. *)
Definition record_scoped_human_answer (q : HumanQuestion) (response : string) : st world unit :=
  record_task_human_answer (hq_task_id q) ;;
  catch (write_answer_for_run_dir (hq_run_dir q) response)
    (λ err, best_effort (clear_task_human_answer_recorded (hq_task_id q)) ;; fail err).

Definition task_human_question_owner (id : string) : st world (option string) :=
  open_runtime_database ;; t ← select_task id; mret (t ≫= t_awaiting_human_by).
Definition task_awaiting_human_status (id : string) : st world (option string) :=
  open_runtime_database ;; t ← select_task id; mret (t ≫= t_awaiting_human_status).

Inductive TaskHumanAnswerRestore : Type :=
  | HumanRestored (status : string)
  | NotAwaitingHuman.

Definition task_restore_human_in_transaction (id : string) : st world TaskHumanAnswerRestore :=
  row ← select_task id;
  match row with
  | None => mret NotAwaitingHuman
  | Some t =>
    if negb (bool_decide (t_status t = as_str AwaitingHuman)) then mret NotAwaitingHuman
    else
      let resumed := default (as_str Executing) (t_awaiting_human_status t ∪ t_paused_status t) in
      let paused := if bool_decide (resumed = as_str Consultation) then t_paused_status t else None in
      update_task id (λ t, t <| t_status := resumed |> <| t_paused_status := paused |>
                             <| t_awaiting_human_by := None |> <| t_awaiting_human_status := None |>
                             <| t_human_question_order := None |> <| t_human_answer_recorded := 0 |>) ;;
      insert_event_in_transaction None "task_human_answered"
        [("task_id", JStr id); ("resumed_status", JStr resumed)] ;;
      mret (HumanRestored resumed)
  end.

Definition restore_task_from_human_answer (id : string) : st world TaskHumanAnswerRestore :=
  open_runtime_database ;; transaction (task_restore_human_in_transaction id).

(** ** Queues *)

(** [ORDER BY CASE WHEN human_question_order IS NULL THEN 0 ELSE 1 END,
    human_question_order, id] *)
Definition by_question_order : string * task_row → string * task_row → comparison :=
  lex (on_key (λ x, t_human_question_order x.2) (null_first Z.compare)) by_id.

Definition open_questions (d : db) : list (string * task_row) :=
  order_by by_question_order (tasks_where (λ _ t, awaiting t && bool_decide (t_human_answer_recorded t = 0)) d).

Definition list_human_questions : st world (list HumanQuestion) :=
  open_runtime_database_for_read ;;
  d ← get_db;
  mapM (λ x,
    q ← best_effort (read_question_for_run_dir (run_dir_for_task x.1));
    mret (HumanQ x.1 (t_path x.2) (run_dir_for_task x.1) (trim (default "" q)))) (open_questions d).

Record AnsweredHumanWaiter := Waiter { aw_task_id : string; aw_awaiting_human_by : string }.

Definition list_answered_human_waiters : st world (list AnsweredHumanWaiter) :=
  open_runtime_database ;;
  d ← get_db;
  mret (omap (λ x, Waiter x.1 <$> t_awaiting_human_by x.2)
          (order_by by_question_order
             (tasks_where (λ _ t, awaiting t && bool_decide (t_human_answer_recorded t = 1)
                                  && some (t_awaiting_human_by t)) d))).

Fixpoint recover_answers (questions : list HumanQuestion) : st world Z :=
  match questions with
  | [] => mret 0
  | q :: questions =>
    answer ← best_effort (read_answer_for_run_dir (hq_run_dir q));
    if is_empty (trim (default "" answer)) then recover_answers questions
    else
      record_task_human_answer (hq_task_id q) ;;
      n ← recover_answers questions;
      mret (n + 1)
  end.
Definition recover_recorded_human_answers : st world Z :=
  questions ← list_human_questions; recover_answers questions.

(** ** Invariant *)
Lemma preserves_task_consultation id p : preserves wf (task_consultation_in_transaction id p).
Proof. unfold task_consultation_in_transaction. solve_wf. Qed.
#[local] Hint Resolve preserves_task_consultation : preserves.
Lemma preserves_record_consultation id p : preserves wf (record_task_consultation_requested id p).
Proof. unfold record_task_consultation_requested. solve_wf. Qed.


(** Rows that were read earlier in the transaction still satisfy the row
    invariant. *)
Lemma preserves_select_task_bind {B} id (f : option task_row → st world B) :
  (∀ o, is_col task_wf o → preserves wf (f o)) → preserves wf (select_task id ≫= f).
Proof.
  intros Hf w Hw. unfold select_task, gets, mbind, st_bind. apply Hf; [|done].
  destruct (d_tasks (w_db w) !! id) as [t|] eqn:Ht; [|done]. exact (dw_tasks _ Hw _ _ Ht).
Qed.

Lemma valid_default s o : valid_status s → is_col valid_status o → valid_status (default s o).
Proof. by destruct o. Qed.
Lemma is_col_union o1 o2 : is_col valid_status o1 → is_col valid_status o2 → is_col valid_status (o1 ∪ o2).
Proof. by destruct o1, o2. Qed.

Lemma preserves_restore_consultation id : preserves wf (task_restore_consultation_in_transaction id).
Proof.
  apply preserves_select_task_bind. intros [t|] Hwf; [|apply preserves_ret]. destruct Hwf.
  assert (valid_status (default (as_str Executing) (t_paused_status t))) by (by apply valid_default).
  solve_wf.
Qed.
Lemma preserves_restore_human id : preserves wf (task_restore_human_in_transaction id).
Proof.
  apply preserves_select_task_bind. intros [t|] Hwf; [|apply preserves_ret]. destruct Hwf.
  assert (valid_status (default (as_str Executing) (t_awaiting_human_status t ∪ t_paused_status t)))
    by (by apply valid_default; [|apply is_col_union]).
  assert (∀ b : bool, is_col valid_status (if b then t_paused_status t else None)) by by intros [].
  solve_wf.
Qed.

(** Asking a question: the new order is the id of the event just inserted, so
    it is above every order in use. *)
Lemma preserves_human_question id resume paused by_ :
  preserves wf (task_human_question_in_transaction id resume paused by_).
Proof.
  intros w Hw. unfold task_human_question_in_transaction. cbv zeta.
  destruct (d_tasks (w_db w) !! id) as [t|] eqn:Ht.
  2:{ rewrite (bind_run _ _ _ _ _ (update_task_none id _ w Ht)).
      rewrite (bind_run _ _ _ _ _ (insert_event_in_transaction_none _ _ _)).
      rewrite (bind_run last_insert_rowid _ _ _ _ eq_refl).
      rewrite (bind_run _ _ _ _ _ (update_task_none id _ _ ltac:(by rewrite add_event_tasks))).
      by apply wf_add_event. }
  rewrite (bind_run _ _ _ _ _ (update_task_run id _ t w Ht)).
  match goal with |- context [set_task id ?t1 w] => set (t' := t1) end.
  assert (task_wf t') as Ht'.
  { destruct (wf_task _ _ _ Hw Ht). split; cbn -[as_str]; eauto with rows. destruct paused; cbn -[as_str]; eauto with rows. }
  rewrite (bind_run _ _ _ _ _ (insert_event_in_transaction_none _ _ _)).
  match goal with |- context [add_event None ?ty ?p ?x] => set (w1 := add_event None ty p x) end.
  assert (wf w1) as Hw1. { apply wf_add_event; [|done]. eapply wf_set_task; eauto. }
  assert (d_event_seq (w_db w1) = d_event_seq (w_db w) + 1) as Hseq by (unfold w1; by autorewrite with world).
  rewrite (bind_run last_insert_rowid _ _ _ _ eq_refl).
  rewrite (bind_run _ _ _ _ _ (update_task_run id _ t' w1 ltac:(unfold w1; world_lookup))).
  apply db_wf_set_tasks; [done|by destruct Ht'; split| |].
  { change (0 < d_event_seq (w_db w1) ≤ d_event_seq (w_db w1)). pose proof (dw_seq _ Hw). lia. }
  intros j u n Hj Hu Hn Hn'. change (Some (d_event_seq (w_db w1)) = Some n) in Hn'.
  apply (inj Some) in Hn'. unfold w1 in Hu. autorewrite with world in Hu.
  rewrite lookup_insert_ne in Hu by done. pose proof (dw_order_range _ Hw _ _ Hu) as Hr. simpl in Hr.
  rewrite Hn in Hr. simpl in Hr. lia.
Qed.

Lemma preserves_record_task_human_answer id : preserves wf (record_task_human_answer id).
Proof. unfold record_task_human_answer. solve_wf. Qed.
Lemma preserves_clear_task_human_answer id : preserves wf (clear_task_human_answer_recorded id).
Proof. unfold clear_task_human_answer_recorded. solve_wf. Qed.
#[local] Hint Resolve preserves_record_task_human_answer preserves_clear_task_human_answer
  preserves_restore_consultation preserves_restore_human preserves_human_question : preserves.
Lemma preserves_restore_task_from_consultation id : preserves wf (restore_task_from_consultation id).
Proof. unfold restore_task_from_consultation. solve_wf. Qed.
Lemma preserves_restore_task_from_human_answer id : preserves wf (restore_task_from_human_answer id).
Proof. unfold restore_task_from_human_answer. solve_wf. Qed.
Lemma preserves_record_human_question id r p b :
  preserves wf (record_task_human_question_requested_with_resume id r p b).
Proof. unfold record_task_human_question_requested_with_resume. solve_wf. Qed.
Lemma preserves_record_scoped_human_answer q r : preserves wf (record_scoped_human_answer q r).
Proof. unfold record_scoped_human_answer. solve_wf; apply preserves_write_path. Qed.
Lemma preserves_mapM {A B} (I : world → Prop) (f : A → st world B) l :
  (∀ x, preserves I (f x)) → preserves I (mapM f l).
Proof.
  intros Hf. induction l as [|x l IH]; simpl; [apply preserves_ret|].
  apply preserves_bind; [done|]. intros b. apply preserves_bind; [done|]. intros bs. apply preserves_ret.
Qed.
Lemma preserves_list_human_questions : preserves wf list_human_questions.
Proof.
  unfold list_human_questions. solve_wf. apply preserves_mapM. intros x. solve_wf.
Qed.
Lemma preserves_recover_recorded_human_answers : preserves wf recover_recorded_human_answers.
Proof.
  apply preserves_bind; [apply preserves_list_human_questions|]. intros qs.
  induction qs as [|q qs IH]; simpl; solve_wf; try apply preserves_read_path; done.
Qed.
End waits.
#[export] Hint Resolve preserves_task_consultation preserves_record_consultation preserves_restore_consultation
  preserves_restore_human preserves_human_question preserves_record_task_human_answer
  preserves_clear_task_human_answer preserves_restore_task_from_consultation
  preserves_restore_task_from_human_answer preserves_record_human_question preserves_record_scoped_human_answer
  preserves_list_human_questions preserves_recover_recorded_human_answers : preserves.

(** ** Behaviour *)
Section behaviour.
Context {CH : Chrono} {ENV : Env}.

Lemma consultation_run id p t w :
  schema_ready (w_db w) → d_tasks (w_db w) !! id = Some t →
  record_task_consultation_requested id p w =
  (Ok tt, add_event None "task_consultation_requested" [("task_id", JStr id); ("paused_status", JStr (as_str p))]
    (set_task id (t <| t_status := as_str Consultation |> <| t_paused_status := Some (as_str p) |>) w)).
Proof.
  intros Hs Ht. unfold record_task_consultation_requested, task_consultation_in_transaction. exec.
Qed.

Lemma restore_consultation_run id t w :
  schema_ready (w_db w) → d_tasks (w_db w) !! id = Some t → t_status t = as_str Consultation →
  let resumed := default (as_str Executing) (t_paused_status t) in
  restore_task_from_consultation id w =
  (Ok (ConsultRestored resumed),
   add_event None "task_consultation_resolved" [("task_id", JStr id); ("resumed_status", JStr resumed)]
     (set_task id (t <| t_status := resumed |> <| t_paused_status := None |>) w)).
Proof.
  intros Hs Ht Hst resumed. unfold restore_task_from_consultation, task_restore_consultation_in_transaction. exec.
  rewrite bool_decide_eq_true_2 by done. exec.
Qed.

(** A consultation is a round trip: pausing a task in any state and
    resolving the consultation gives back exactly the row it had, whatever
    its lease, counters or view, and reports the state it resumed. *)
Theorem consultation_roundtrip id s t w :
  schema_ready (w_db w) → d_tasks (w_db w) !! id = Some t →
  t_status t = as_str s → t_paused_status t = None →
  ∃ w1 w2, record_task_consultation_requested id s w = (Ok tt, w1) ∧
    restore_task_from_consultation id w1 = (Ok (ConsultRestored (as_str s)), w2) ∧
    d_tasks (w_db w2) = d_tasks (w_db w) ∧ d_runs (w_db w2) = d_runs (w_db w).
Proof.
  intros Hs Ht Hst Hp. pose proof (consultation_run id s t w Hs Ht) as H1.
  match type of H1 with _ = (_, ?w1) =>
    epose proof (restore_consultation_run id _ w1 ltac:(auto with exec nocore) ltac:(world_lookup) eq_refl) as H2 end.
  eexists _, _. split_and!; [exact H1|exact H2| |].
  - autorewrite with world. rewrite insert_insert_eq. apply insert_id. rewrite Ht. destruct t; simpl in *; by subst.
  - by autorewrite with world.
Qed.

(** *** Human questions *)
Definition asked_row (resume : TaskStatus) (paused : option TaskStatus) (by_ : string) (order : Z) (t : task_row) : task_row :=
  t <| t_status := as_str AwaitingHuman |> <| t_paused_status := as_str <$> paused |>
    <| t_awaiting_human_by := Some by_ |> <| t_awaiting_human_status := Some (as_str resume) |>
    <| t_human_answer_recorded := 0 |> <| t_human_question_order := Some order |>.
Definition question_payload (id : string) (resume : TaskStatus) (paused : option TaskStatus) (by_ : string) : payload :=
  [("task_id", JStr id); ("paused_status", jopt (as_str <$> paused)); ("resume_status", JStr (as_str resume));
   ("awaiting_human_by", JStr by_)].

Lemma human_question_run id resume paused by_ t w :
  schema_ready (w_db w) → d_tasks (w_db w) !! id = Some t →
  ∃ w', record_task_human_question_requested_with_resume id resume paused by_ w = (Ok tt, w') ∧
    schema_ready (w_db w') ∧ d_event_seq (w_db w') = d_event_seq (w_db w) + 1 ∧
    d_tasks (w_db w') = <[id := asked_row resume paused by_ (d_event_seq (w_db w) + 1) t]> (d_tasks (w_db w)) ∧
    d_runs (w_db w') = d_runs (w_db w) ∧ w_files w' = w_files w.
Proof.
  intros Hs Ht. unfold record_task_human_question_requested_with_resume, task_human_question_in_transaction.
  eexists. split_and!.
  - exec. eapply bind_eq; [reflexivity|]. exec.
  - auto with exec nocore.
  - by autorewrite with world.
  - autorewrite with world. rewrite insert_insert_eq. done.
  - by autorewrite with world.
  - simpl. by autorewrite with world.
Qed.

Lemma restore_human_run id t w :
  schema_ready (w_db w) → d_tasks (w_db w) !! id = Some t → t_status t = as_str AwaitingHuman →
  let resumed := default (as_str Executing) (t_awaiting_human_status t ∪ t_paused_status t) in
  let paused := if bool_decide (resumed = as_str Consultation) then t_paused_status t else None in
  restore_task_from_human_answer id w =
  (Ok (HumanRestored resumed),
   add_event None "task_human_answered" [("task_id", JStr id); ("resumed_status", JStr resumed)]
     (set_task id (t <| t_status := resumed |> <| t_paused_status := paused |>
                     <| t_awaiting_human_by := None |> <| t_awaiting_human_status := None |>
                     <| t_human_question_order := None |> <| t_human_answer_recorded := 0 |>) w)).
Proof.
  intros Hs Ht Hst resumed paused. unfold restore_task_from_human_answer, task_restore_human_in_transaction. exec.
  rewrite bool_decide_eq_true_2 by done. exec.
Qed.

Lemma human_answer_run id t w :
  schema_ready (w_db w) → d_tasks (w_db w) !! id = Some t → t_status t = as_str AwaitingHuman →
  record_task_human_answer id w =
  (Ok tt, add_event None "task_human_answer_recorded" [("task_id", JStr id)]
            (set_task id (t <| t_human_answer_recorded := 1 |>) w)).
Proof.
  intros Hs Ht Hst. unfold record_task_human_answer. exec_step. eapply transaction_Ok.
  eapply bind_eq; [apply (update_task_where_run _ _ _ t); [done|by apply bool_decide_eq_true]|].
  exec.
Qed.

(** A human question is a round trip, also inside a consultation: asking
    from a task without a pending question, recording the answer and restoring
    gives back exactly the row it had — including the state a surrounding
    consultation will resume — and leaves every other task alone.  Outside a
    consultation the paused state the caller passes does not matter. *)
Theorem human_question_roundtrip id s paused by_ t w :
  schema_ready (w_db w) → d_tasks (w_db w) !! id = Some t →
  t_status t = as_str s → t_paused_status t = (if bool_decide (s = Consultation) then as_str <$> paused else None) →
  t_awaiting_human_by t = None → t_awaiting_human_status t = None →
  t_human_question_order t = None → t_human_answer_recorded t = 0 →
  ∃ w1 w2 w3, record_task_human_question_requested_with_resume id s paused by_ w = (Ok tt, w1) ∧
    record_task_human_answer id w1 = (Ok tt, w2) ∧
    restore_task_from_human_answer id w2 = (Ok (HumanRestored (as_str s)), w3) ∧
    d_tasks (w_db w3) = d_tasks (w_db w).
Proof.
  intros Hs Ht Hst Hp Hby Hbs Ho Hr.
  destruct (human_question_run id s paused by_ t w Hs Ht) as (w1 & H1 & Hs1 & _ & Htasks & _).
  pose proof (human_answer_run id _ w1 Hs1 ltac:(rewrite Htasks; apply lookup_insert_eq) eq_refl) as H2.
  match type of H2 with _ = (_, ?w2) =>
    epose proof (restore_human_run id _ w2 ltac:(auto with exec nocore) ltac:(world_lookup) eq_refl) as H3 end.
  cbv zeta in H3. match type of H3 with context [default _ ?o] =>
    assert (default (as_str Executing) o = as_str s) as E by (simpl; by destruct paused); rewrite E in H3 end.
  eexists w1, _, _. split_and!; [exact H1|exact H2|exact H3|].
  autorewrite with world. rewrite Htasks, !insert_insert_eq. apply insert_id. rewrite Ht. f_equal.
  destruct t; simpl in *; subst. do 2 f_equal. by destruct s.
Qed.

(** *** The question queue *)
Lemma by_question_order_eq x y : by_question_order x y = Eq → x.1 = y.1.
Proof.
  unfold by_question_order, lex, on_key, by_id. destruct (null_first _ _ _); [|done|done].
  intros E. by apply String.compare_eq_iff.
Qed.
#[local] Instance by_question_order_cmp : TotalCmp by_question_order.
Proof. exact (lex_cmp _ _ (on_key_cmp _ _ (null_first_cmp _ Z_cmp)) by_id_cmp). Qed.

Lemma tasks_where_insert p d id t :
  p id t = true → (∀ u, d_tasks d !! id = Some u → p id u = false) →
  tasks_where p (d <| d_tasks := <[id := t]> (d_tasks d) |>) ≡ₚ (id, t) :: tasks_where p d.
Proof.
  intros Hp Hn. unfold tasks_where. simpl.
  rewrite <- (insert_delete_eq (d_tasks d) id t), map_to_list_insert by apply lookup_delete_eq.
  rewrite filter_cons_True by done. f_equiv.
  destruct (d_tasks d !! id) as [u|] eqn:Hu; [|by rewrite delete_id].
  rewrite <- (map_to_list_delete (d_tasks d) id u Hu), filter_cons_False; [done|].
  simpl. rewrite (Hn u eq_refl). done.
Qed.

Lemma order_by_Permutation_eq l1 l2 :
  (∀ x y, x ∈ l1 → y ∈ l1 → by_question_order x y = Eq → x = y) →
  l1 ≡ₚ l2 → order_by by_question_order l1 = order_by by_question_order l2.
Proof.
  intros Ha Hp. symmetry. apply (order_by_unique by_question_order).
  - intros x y. rewrite !elem_of_order_by. apply Ha.
  - apply (order_by_sorted by_question_order).
  - by rewrite order_by_Permutation.
Qed.

(** Questions are answered in the order they were asked: when a task
    without an open question asks one, its question goes to the end of the
    queue and the questions already there keep their places. *)
Theorem human_questions_fifo id resume paused by_ t w :
  wf w → schema_ready (w_db w) → d_tasks (w_db w) !! id = Some t →
  id ∉ map fst (open_questions (w_db w)) →
  ∃ w', record_task_human_question_requested_with_resume id resume paused by_ w = (Ok tt, w') ∧
    map fst (open_questions (w_db w')) = (map fst (open_questions (w_db w)) ++ [id])%list.
Proof.
  intros Hw Hs Ht Hn. destruct (human_question_run id resume paused by_ t w Hs Ht) as (w' & H & _ & _ & Htasks & _).
  exists w'. split; [done|]. set (t' := asked_row _ _ _ _ t) in Htasks.
  unfold open_questions in *. set (p := λ (_ : string) t, awaiting t && bool_decide (t_human_answer_recorded t = 0)) in *.
  assert (tasks_where p (w_db w') ≡ₚ (id, t') :: tasks_where p (w_db w)) as Hperm.
  { rewrite <- tasks_where_insert; [|done|].
    - unfold tasks_where. by rewrite Htasks.
    - intros u Hu. destruct (p id u) eqn:Ep; [|done]. exfalso. apply Hn. apply list_elem_of_fmap.
      exists (id, u). split; [done|]. apply elem_of_order_by. by apply elem_of_tasks_where. }
  assert (∀ x y, x ∈ tasks_where p (w_db w) → y ∈ tasks_where p (w_db w) → by_question_order x y = Eq → x = y) as Hanti.
  { intros [i a] [j b] [Ha _]%elem_of_tasks_where [Hb _]%elem_of_tasks_where E%by_question_order_eq.
    simpl in E. subst j. congruence. }
  assert (∀ y, y ∈ tasks_where p (w_db w) → by_question_order y (id, t') = Lt) as Hlast.
  { intros [j u] [Hu _]%elem_of_tasks_where. unfold by_question_order, lex, on_key. simpl.
    pose proof (dw_order_range _ Hw _ _ Hu) as Hr. simpl in Hr.
    destruct (t_human_question_order u) as [n|]; simpl in *; [|done].
    assert ((n ?= d_event_seq (w_db w) + 1) = Lt) as -> by (apply Z.compare_lt_iff; lia). done. }
  rewrite (λ Ha, order_by_Permutation_eq _ _ Ha Hperm).
  - rewrite (order_by_snoc by_question_order) by done. by rewrite map_app.
  - intros x y. rewrite !Hperm, !elem_of_cons. intros [->|Hx] [->|Hy] E; auto.
    + rewrite (cmp_opp (c := by_question_order) y (id, t')), (Hlast y Hy) in E. done.
    + by rewrite (Hlast x Hx) in E.
Qed.

(** *** Answering *)

(** Recording an answer keeps the database and the answer file together:
    when the file is written, the answer is recorded and readable; when the
    write fails, the error is returned and the task still waits for an
    answer, so the question stays in the queue. *)
Theorem scoped_answer_rolls_back q response t w :
  schema_ready (w_db w) → d_tasks (w_db w) !! hq_task_id q = Some t →
  t_status t = as_str AwaitingHuman → t_human_answer_recorded t = 0 →
  let file := run_file (hq_run_dir q) "ANSWER.md" in
  if write_ok file then
    ∃ w', record_scoped_human_answer q response w = (Ok tt, w') ∧
      d_tasks (w_db w') = <[hq_task_id q := t <| t_human_answer_recorded := 1 |>]> (d_tasks (w_db w)) ∧
      w_files w' = <[file := response]> (w_files w)
  else
    ∃ w', record_scoped_human_answer q response w = (Err (Bail "Failed to write {}" [file]), w') ∧
      d_tasks (w_db w') = d_tasks (w_db w) ∧ w_files w' = w_files w.
Proof.
  intros Hs Ht Hst Hr file. unfold record_scoped_human_answer.
  pose proof (human_answer_run _ t w Hs Ht Hst) as H1. destruct (write_ok file) eqn:Hok.
  - eexists. split_and!.
    + eapply bind_eq; [exact H1|]. unfold catch, write_answer_for_run_dir. fold file. by rewrite write_path_run.
    + simpl. by autorewrite with world.
    + simpl. by autorewrite with world.
  - eexists. split_and!.
    + eapply bind_eq; [exact H1|]. unfold catch, write_answer_for_run_dir. fold file.
      rewrite write_path_fail by done. eapply bind_eq; [|reflexivity]. unfold best_effort.
      unfold clear_task_human_answer_recorded.
      erewrite (bind_run open_runtime_database) by (apply open_run; auto with exec nocore).
      erewrite transaction_Ok; [reflexivity|]. eapply bind_eq; [|reflexivity].
      eapply update_task_where_run; [world_lookup|]. by apply bool_decide_eq_true.
    + autorewrite with world. rewrite insert_insert_eq. apply insert_id. rewrite Ht. destruct t; simpl in *; by subst.
    + simpl. by autorewrite with world.
Qed.
End behaviour.
