(* ===== verification/Claims.v ===== *)
(** Task claims, lease renewal and agent-scoped context resolution
    ([src/src/project/claims.rs]). *)
From S2P Require Import Prelude Status View Chrono Database WellFormed Schema Exec Store.

(** ** Results *)
Record TaskLease := Lease {
  tl_task_id : string;
  tl_task_path : string;
  tl_status : string;
  tl_paused_status : option string;
  tl_check_retries : Z;
  tl_review_cycles : Z;
  tl_failure_reason : option string;
  tl_claimed_by : string;
  tl_lease_until : Z }.

Inductive ReadyTaskClaim : Type :=
  | Claimed (l : TaskLease)
  | AlreadyClaimed (l : TaskLease)
  | NoAvailable.

Inductive TaskClaim : Type :=
  | TCClaimed
  | TCAlreadyClaimed
  | TCClaimedByOther (claimed_by : string).

Inductive LeaseRenewal : Type :=
  | Renewed (task_id task_path claimed_by : string) (lease_until : Z)
  | NotClaimed
  | Expired.

Definition lease_of (c : ReadyTaskCandidate) (agent : string) (until : Z) : TaskLease :=
  Lease (rc_id c) (rc_path c) (rc_status c) (rc_paused_status c) (rc_check_retries c) (rc_review_cycles c)
    (rc_failure_reason c) agent until.

Section claims.
Context {CH : Chrono}.

(** ** Claiming by id *)
Definition live_at (now : Z) (lease : option Z) : bool :=
  match lease with Some until => now <? until | None => false end.

Definition is_pending (status : string) : bool := bool_decide (status = as_str Pending).

Definition promote_pending_task_in_transaction (c : ReadyTaskCandidate) : st world ReadyTaskCandidate :=
  update_task_where (rc_id c) (λ t, is_pending (t_status t))
    (λ t, t <| t_status := as_str Executing |> <| t_paused_status := None |>) ;;
  scheduled_at ← timestamp;
  insert_event_in_transaction None "task_scheduled"
    [("task_id", JStr (rc_id c)); ("previous_status", JStr (rc_status c)); ("status", JStr (as_str Executing));
     ("scheduled_at", JStr scheduled_at)] ;;
  mret (c <| rc_status := as_str Executing |> <| rc_paused_status := None |>).

Definition claim_ready_task_in_transaction (id agent : string) (ttl : Z) (allowed : list TaskStatus)
    (promote_pending : bool) : st world ReadyTaskClaim :=
  now ← utc_now;
  candidate ← task_candidate_by_id id;
  match candidate with
  | None => mret NoAvailable
  | Some c =>
    if negb (has_status allowed (rc_status c)) then mret NoAvailable
    else
      let lease := parse_lease_until (rc_lease_until c) in
      if live_at now lease && negb (opt_is (rc_claimed_by c) agent) then mret NoAvailable
      else
        c ← (if promote_pending && is_pending (rc_status c)
             then promote_pending_task_in_transaction c else mret c);
        match (if live_at now lease then lease else None), opt_is (rc_claimed_by c) agent with
        | Some until, true => mret (AlreadyClaimed (lease_of c agent until))
        | _, _ =>
          until ← lift_result (lease_deadline now ttl);
          claim_task_in_transaction (rc_id c) agent until now ;;
          mret (Claimed (lease_of c agent until))
        end
  end.

Definition claim_task_by_id_with_statuses (id agent : string) (ttl : Z) (allowed : list TaskStatus)
    (promote_pending : bool) : st world ReadyTaskClaim :=
  open_runtime_database ;;
  transaction (claim_ready_task_in_transaction id agent ttl allowed promote_pending).

Definition claim_ready_task_by_id (id agent : string) (ttl : Z) : st world ReadyTaskClaim :=
  claim_task_by_id_with_statuses id agent ttl [Pending; Executing; Addressing] true.

Definition claim_review_task_by_id (id agent : string) (ttl : Z) : st world ReadyTaskClaim :=
  claim_task_by_id_with_statuses id agent ttl [Reviewing] false.

(** ** Claiming the next task *)

(** The first loop: the caller's own live lease. *)
Fixpoint own_lease (now : Z) (agent : string) (candidates : list ReadyTaskCandidate) :
    option (ReadyTaskCandidate * Z) :=
  match candidates with
  | [] => None
  | c :: candidates =>
    match parse_lease_until (rc_lease_until c) with
    | Some until =>
      if (now <? until) && opt_is (rc_claimed_by c) agent then Some (c, until)
      else own_lease now agent candidates
    | None => own_lease now agent candidates
    end
  end.

(** The second loop skips the tasks under a live lease. *)
Fixpoint first_free (now : Z) (candidates : list ReadyTaskCandidate) : option ReadyTaskCandidate :=
  match candidates with
  | [] => None
  | c :: candidates =>
    if live_at now (parse_lease_until (rc_lease_until c)) then first_free now candidates else Some c
  end.

Definition claim_next_task_with_statuses (agent : string) (ttl : Z) (statuses : list TaskStatus)
    (promote_pending : bool) : st world ReadyTaskClaim :=
  open_runtime_database ;;
  transaction (
    now ← utc_now;
    candidates ← task_candidates_by_status statuses;
    match own_lease now agent candidates with
    | Some (c, until) =>
      c ← (if promote_pending && is_pending (rc_status c)
           then promote_pending_task_in_transaction c else mret c);
      mret (AlreadyClaimed (lease_of c agent until))
    | None =>
      match first_free now candidates with
      | Some c =>
        c ← (if promote_pending && is_pending (rc_status c)
             then promote_pending_task_in_transaction c else mret c);
        until ← lift_result (lease_deadline now ttl);
        claim_task_in_transaction (rc_id c) agent until now ;;
        mret (Claimed (lease_of c agent until))
      | None => mret NoAvailable
      end
    end).

Definition claim_next_ready_task (agent : string) (ttl : Z) : st world ReadyTaskClaim :=
  claim_next_task_with_statuses agent ttl [Pending; Executing; Addressing] true.

Definition claim_next_review_task (agent : string) (ttl : Z) : st world ReadyTaskClaim :=
  claim_next_task_with_statuses agent ttl [Reviewing] false.

(** ** Renewal *)
Definition renew_task_lease_in_transaction (id agent : string) (ttl : Z) (existing : option string) :
    st world (option Z) :=
  now ← utc_now;
  match existing ≫= parse_from_rfc3339 with
  | Some until =>
    if until <=? now then mret None
    else
      until ← lift_result (lease_deadline now ttl);
      update_task id (λ t, t <| t_lease_until := Some (rfc3339_secs until) |>
                             <| t_last_heartbeat := Some (rfc3339_secs now) |>) ;;
      insert_event_in_transaction None "task_lease_renewed"
        [("task_id", JStr id); ("claimed_by", JStr agent); ("lease_until", JTime until)] ;;
      mret (Some until)
  | None => mret None
  end.

Definition claim_task (id path agent : string) (ttl : Z) : st world TaskClaim :=
  open_runtime_database ;;
  transaction (
    ensure_task_exists id path ;;
    row ← select_task id;
    let claimed_by := row ≫= t_claimed_by in
    let lease_until := row ≫= t_lease_until in
    now ← utc_now;
    let lease_active := live_at now (lease_until ≫= parse_from_rfc3339) in
    if lease_active && opt_is claimed_by agent then
      renew_task_lease_in_transaction id agent ttl lease_until ;;
      mret TCAlreadyClaimed
    else if lease_active then mret (TCClaimedByOther (default "unknown" claimed_by))
    else
      until ← lift_result (lease_deadline now ttl);
      claim_task_in_transaction id agent until now ;;
      mret TCClaimed).

(** [ORDER BY CASE WHEN lease_until IS NULL THEN 1 ELSE 0 END, lease_until DESC, id] *)
Definition by_lease : string * task_row → string * task_row → comparison :=
  lex (on_key (λ x, if some (t_lease_until x.2) then 0 else 1) Z.compare)
    (lex (on_key (λ x, t_lease_until x.2) (desc (null_first String.compare))) by_id).

Definition latest_claimed (agent : string) (d : db) : option (string * task_row) :=
  head (order_by by_lease (tasks_where (λ _ t, opt_is (t_claimed_by t) agent) d)).

Definition renew_claimed_task_lease (agent : string) (ttl : Z) : st world LeaseRenewal :=
  open_runtime_database ;;
  transaction (
    d ← get_db;
    match latest_claimed agent d with
    | None => mret NotClaimed
    | Some (id, t) =>
      renewed ← renew_task_lease_in_transaction id agent ttl (t_lease_until t);
      match renewed with
      | Some until => mret (Renewed id (t_path t) agent until)
      | None => mret Expired
      end
    end).

(** ** Context of an agent *)
Record RuntimeTaskContext := Context_ {
  ctx_task_id : string;
  ctx_task_path : string;
  ctx_spec_path : option string;
  ctx_milestone_id : option string;
  ctx_run_dir : string;
  ctx_status : string;
  ctx_paused_status : option string;
  ctx_check_retries : Z;
  ctx_review_cycles : Z;
  ctx_failure_reason : option string;
  ctx_run_id : option string;
  ctx_run_role : option string;
  ctx_workspace_path : option string;
  ctx_repository_workspace_path : option string;
  ctx_repository_view : RepositoryViewReference }.
#[global] Instance eta_context : Eta RuntimeTaskContext := λ c,
  Context_ (ctx_task_id c) (ctx_task_path c) (ctx_spec_path c) (ctx_milestone_id c) (ctx_run_dir c)
    (ctx_status c) (ctx_paused_status c) (ctx_check_retries c) (ctx_review_cycles c) (ctx_failure_reason c)
    (ctx_run_id c) (ctx_run_role c) (ctx_workspace_path c) (ctx_repository_workspace_path c)
    (ctx_repository_view c).

Definition context_of (id : string) (t : task_row) (run_id role workspace repository : option string)
    (view : RepositoryViewReference) : RuntimeTaskContext :=
  Context_ id (t_path t) (t_spec_path t) (t_milestone_id t) (run_dir_for_task id) (t_status t)
    (t_paused_status t) (as_u32 (t_check_retries t)) (as_u32 (t_review_cycles t)) (t_failure_reason t)
    run_id role workspace repository view.

Definition active_run (status : string) : bool :=
  bool_decide (status = "running") || bool_decide (status = "checking") || bool_decide (status = "reviewing").

(** [ORDER BY updated_at DESC, started_at DESC, id DESC] *)
Definition latest_run : string * run_row → string * run_row → comparison :=
  lex (on_key (λ x, r_updated_at x.2) (desc String.compare))
    (lex (on_key (λ x, r_started_at x.2) (desc String.compare)) (on_key fst (desc String.compare))).

Record RuntimeRunIdentity := RunIdentity {
  ri_id : string;
  ri_role : string;
  ri_workspace_path : string;
  ri_repository_view : RepositoryViewReference }.

Definition latest_run_for_agent_task (agent id : string) : st world (option RuntimeRunIdentity) :=
  d ← get_db;
  match head (order_by latest_run (runs_where (λ _ r, bool_decide (r_agent r = agent) && bool_decide (r_task_id r = id)) d)) with
  | None => mret None
  | Some (rid, r) =>
    view ← lift_result (repository_view_reference_from_database (r_view r));
    mret (Some (RunIdentity rid (r_role r) (r_workspace_path r) view))
  end.

Definition latest_executor_workspace_for_task (id : string) : st world (option string) :=
  d ← get_db;
  mret ((λ x, r_workspace_path x.2) <$>
    head (order_by latest_run
      (runs_where (λ _ r, bool_decide (r_task_id r = id) && bool_decide (r_role r = "executor")
                          && negb (is_empty (r_workspace_path r))) d))).

Definition latest_active_run_for_agent (agent : string) : st world (option string) :=
  d ← get_db;
  mret (fst <$> head (order_by latest_run (runs_where (λ _ r, bool_decide (r_agent r = agent) && active_run (r_status r)) d))).

Definition consultation_context_for_run (run_id : string) : st world (option RuntimeTaskContext) :=
  d ← get_db;
  match (r ← d_runs d !! run_id; t ← d_tasks d !! r_task_id r; Some (r_task_id r, t)) with
  | Some (id, t) =>
    if bool_decide (t_status t = as_str Consultation) then
      workspace ← latest_executor_workspace_for_task id;
      view ← lift_result (repository_view_reference_from_database (t_view t));
      mret (Some (context_of id t (Some run_id) (Some "supervisor") None workspace view))
    else mret None
  | None => mret None
  end.

Definition claimed_context (agent id : string) (t : task_row) : st world RuntimeTaskContext :=
  task_view ← lift_result (repository_view_reference_from_database (t_view t));
  run ← latest_run_for_agent_task agent id;
  let role := ri_role <$> run in
  let workspace := ri_workspace_path <$> run in
  let reviewing := bool_decide (t_status t = as_str Reviewing) in
  repository ← (if opt_is role "executor" then mret workspace
                else if opt_is role "supervisor" && negb reviewing then latest_executor_workspace_for_task id
                else mret None);
  let view := match run with
              | Some r => if bool_decide (ri_role r = "supervisor") && reviewing then ri_repository_view r else task_view
              | None => task_view
              end in
  mret (context_of id t (ri_id <$> run) role workspace repository view).

(** [runs JOIN tasks]: active runs of the agent with their task. *)
Definition active_runs_with_task (agent : string) (d : db) : list (string * run_row * task_row) :=
  omap (λ x, (λ t, (x.1, x.2, t)) <$> d_tasks d !! r_task_id x.2)
    (order_by latest_run (runs_where (λ _ r, bool_decide (r_agent r = agent) && active_run (r_status r)) d)).

Definition running_context (agent : string) : st world (option RuntimeTaskContext) :=
  d ← get_db;
  match head (active_runs_with_task agent d) with
  | None => mret None
  | Some (rid, r, t) =>
    repository ← (if bool_decide (r_role r = "executor") then mret (Some (r_workspace_path r))
                  else if bool_decide (r_role r = "supervisor") && negb (bool_decide (t_status t = as_str Reviewing))
                  then latest_executor_workspace_for_task (r_task_id r)
                  else mret None);
    view ← lift_result (repository_view_reference_from_database (r_view r));
    mret (Some (context_of (r_task_id r) t (Some rid) (Some (r_role r)) (Some (r_workspace_path r)) repository view))
  end.

Definition runtime_task_context_for_agent_with_open_mode (agent : string) (read_only : bool) :
    st world (option RuntimeTaskContext) :=
  (if read_only then mret tt else open_runtime_database) ;;
  d ← get_db;
  match latest_claimed agent d with
  | Some (id, t) => Some <$> claimed_context agent id t
  | None => running_context agent
  end.

Definition runtime_task_context_for_agent (agent : string) : st world (option RuntimeTaskContext) :=
  runtime_task_context_for_agent_with_open_mode agent false.
Definition runtime_task_context_for_agent_read_only (agent : string) : st world (option RuntimeTaskContext) :=
  runtime_task_context_for_agent_with_open_mode agent true.

(** ** Invariant *)
Lemma preserves_promote c : preserves wf (promote_pending_task_in_transaction c).
Proof. unfold promote_pending_task_in_transaction. solve_wf. Qed.
#[local] Hint Resolve preserves_promote : preserves.
Lemma preserves_claim_ready id agent ttl allowed p :
  preserves wf (claim_ready_task_in_transaction id agent ttl allowed p).
Proof.
  unfold claim_ready_task_in_transaction, task_candidate_by_id. solve_wf.
Qed.
#[local] Hint Resolve preserves_claim_ready : preserves.
Lemma preserves_claim_by_id id agent ttl allowed p :
  preserves wf (claim_task_by_id_with_statuses id agent ttl allowed p).
Proof. unfold claim_task_by_id_with_statuses. solve_wf. Qed.
Lemma preserves_claim_next agent ttl allowed p : preserves wf (claim_next_task_with_statuses agent ttl allowed p).
Proof. unfold claim_next_task_with_statuses, task_candidates_by_status. solve_wf. Qed.
Lemma preserves_renew id agent ttl e : preserves wf (renew_task_lease_in_transaction id agent ttl e).
Proof. unfold renew_task_lease_in_transaction. solve_wf. Qed.
#[local] Hint Resolve preserves_renew : preserves.
Lemma preserves_claim_task id path agent ttl : preserves wf (claim_task id path agent ttl).
Proof. unfold claim_task. solve_wf. Qed.
Lemma preserves_renew_claimed agent ttl : preserves wf (renew_claimed_task_lease agent ttl).
Proof. unfold renew_claimed_task_lease. solve_wf. Qed.
Lemma preserves_latest_executor_workspace id : preserves wf (latest_executor_workspace_for_task id).
Proof. unfold latest_executor_workspace_for_task. solve_wf. Qed.
Lemma preserves_latest_active_run agent : preserves wf (latest_active_run_for_agent agent).
Proof. unfold latest_active_run_for_agent. solve_wf. Qed.
#[local] Hint Resolve preserves_latest_executor_workspace : preserves.
Lemma preserves_consultation_context rid : preserves wf (consultation_context_for_run rid).
Proof. unfold consultation_context_for_run. solve_wf. Qed.
Lemma preserves_context agent ro : preserves wf (runtime_task_context_for_agent_with_open_mode agent ro).
Proof.
  unfold runtime_task_context_for_agent_with_open_mode, claimed_context, running_context, latest_run_for_agent_task.
  solve_wf; apply preserves_fmap; solve_wf.
Qed.
End claims.
#[export] Hint Resolve preserves_promote preserves_claim_ready preserves_claim_by_id preserves_claim_next preserves_renew
  preserves_claim_task preserves_renew_claimed preserves_latest_executor_workspace preserves_latest_active_run
  preserves_consultation_context preserves_context : preserves.

(** ** What one claim does *)
Section behaviour.
Context {CH : Chrono}.

Definition lease_live (now : Z) (t : task_row) : bool := live_at now (parse_lease_until (t_lease_until t)).

Definition promoted (promote : bool) (t : task_row) : task_row :=
  if promote && is_pending (t_status t) then t <| t_status := as_str Executing |> <| t_paused_status := None |> else t.
Definition claimed_row (agent : string) (until now : Z) (t : task_row) : task_row :=
  t <| t_claimed_by := Some agent |> <| t_lease_until := Some (rfc3339_secs until) |>
    <| t_last_heartbeat := Some (rfc3339_secs now) |>.

(** Only the row of one task changed (and events, time). *)
Definition only_task (id : string) (t : task_row) (w w' : world) : Prop :=
  d_tasks (w_db w') = <[id := t]> (d_tasks (w_db w)) ∧ d_runs (w_db w') = d_runs (w_db w) ∧
  d_prs (w_db w') = d_prs (w_db w) ∧ schema_part (w_db w') = schema_part (w_db w) ∧ w_files w' = w_files w.

Lemma only_task_schema id t w w' : only_task id t w w' → schema_ready (w_db w) → schema_ready (w_db w').
Proof. intros (_ & _ & _ & H & _). by apply schema_ready_part. Qed.

Lemma only_task_set id t w : only_task id t w (set_task id t w).
Proof. done. Qed.
Lemma only_task_add_event id t r ty p w w' : only_task id t w w' → only_task id t w (add_event r ty p w').
Proof.
  unfold only_task. autorewrite with world. intros (H1 & H2 & H3 & H4 & H5). split_and!; try done.
  unfold schema_part, add_event in *. simpl. by rewrite !tick_db.
Qed.
Lemma only_task_then_tick id t w w' : only_task id t w w' → only_task id t w (tick w').
Proof. unfold only_task. by rewrite tick_db, tick_files. Qed.

Lemma promote_run promote id t w :
  d_tasks (w_db w) !! id = Some t →
  let c := candidate_of_row id t in
  ∃ w', (if promote && is_pending (rc_status c) then promote_pending_task_in_transaction c else mret c) w
        = (Ok (candidate_of_row id (promoted promote t)), w') ∧ only_task id (promoted promote t) w w'.
Proof.
  intros Ht c. unfold promoted. change (rc_status c) with (t_status t).
  destruct (promote && is_pending (t_status t)) eqn:E.
  - eexists. split.
    + unfold promote_pending_task_in_transaction. apply andb_true_iff in E as [_ E].
      eapply bind_eq; [apply (update_task_where_run _ _ _ t); done|]. exec.
    + apply only_task_add_event, only_task_then_tick, only_task_set.
  - exists w. split; [done|]. split_and!; try done. by rewrite insert_id.
Qed.

Lemma claim_task_in_transaction_run id agent until now t w :
  d_tasks (w_db w) !! id = Some t →
  ∃ w', claim_task_in_transaction id agent until now w = (Ok tt, w') ∧ only_task id (claimed_row agent until now t) w w'.
Proof.
  intros Ht. eexists. split; [unfold claim_task_in_transaction; exec|].
  apply only_task_add_event, only_task_set.
Qed.

Lemma only_task_twice id t u w w1 w2 : only_task id t w w1 → only_task id u w1 w2 → only_task id u w w2.
Proof.
  intros (H1 & H2 & H3 & H4 & H5) (G1 & G2 & G3 & G4 & G5). split_and!; try congruence.
  rewrite G1, H1. apply insert_insert_eq.
Qed.
Lemma only_task_tick id t w w' : only_task id t (tick w) w' → only_task id t w w'.
Proof. unfold only_task. by rewrite tick_db, tick_files. Qed.

Section by_id.
Context (id agent : string) (ttl : Z) (allowed : list TaskStatus) (promote : bool) (w : world).
#[local] Abbreviation now := (w_clock (tick w)).
#[local] Abbreviation claim := (claim_ready_task_in_transaction id agent ttl allowed promote w).

Lemma claim_ready_missing : d_tasks (w_db w) !! id = None → claim = (Ok NoAvailable, tick w).
Proof.
  intros Ht. unfold claim_ready_task_in_transaction. exec. eapply bind_eq; [apply task_candidate_by_id_eq|].
  by rewrite tick_db, Ht.
Qed.
Lemma claim_ready_unavailable t :
  d_tasks (w_db w) !! id = Some t →
  has_status allowed (t_status t) = false ∨ (lease_live now t = true ∧ t_claimed_by t ≠ Some agent) →
  claim = (Ok NoAvailable, tick w).
Proof.
  intros Ht Hu. unfold claim_ready_task_in_transaction. exec. eapply bind_eq; [apply task_candidate_by_id_eq|].
  rewrite tick_db, Ht. simpl. destruct Hu as [->|[Hl Hc]]; [done|].
  destruct (has_status allowed (t_status t)); simpl; [|done].
  unfold lease_live in Hl. unfold opt_is. rewrite Hl, bool_decide_eq_false_2 by done. done.
Qed.
Lemma claim_ready_already t until :
  d_tasks (w_db w) !! id = Some t → has_status allowed (t_status t) = true →
  parse_lease_until (t_lease_until t) = Some until → now < until → t_claimed_by t = Some agent →
  ∃ w', claim = (Ok (AlreadyClaimed (lease_of (candidate_of_row id (promoted promote t)) agent until)), w') ∧
    only_task id (promoted promote t) w w'.
Proof.
  intros Ht Ha Hl Hn Hc.
  destruct (promote_run promote id t (tick w)) as (w' & Hp & Ho); [by rewrite tick_db|].
  exists w'. split; [|by apply only_task_tick]. unfold claim_ready_task_in_transaction. exec.
  eapply bind_eq; [apply task_candidate_by_id_eq|]. rewrite tick_db, Ht.
  change (candidate_of_row id <$> Some t) with (Some (candidate_of_row id t)). cbv iota beta zeta.
  change (rc_status (candidate_of_row id t)) with (t_status t). change (rc_claimed_by (candidate_of_row id t)) with (t_claimed_by t).
  change (rc_lease_until (candidate_of_row id t)) with (t_lease_until t).
  rewrite Ha, Hl, Hc. unfold live_at, opt_is. rewrite (proj2 (Z.ltb_lt _ _) Hn), bool_decide_eq_true_2 by done.
  exec.
  assert (rc_claimed_by (candidate_of_row id (promoted promote t)) = Some agent) as ->.
  { unfold promoted. by destruct (_ && _). }
  by rewrite bool_decide_eq_true_2.
Qed.
Lemma claim_ready_free t until :
  d_tasks (w_db w) !! id = Some t → has_status allowed (t_status t) = true →
  lease_live now t = false → lease_deadline now ttl = Ok until →
  ∃ w', claim = (Ok (Claimed (lease_of (candidate_of_row id (promoted promote t)) agent until)), w') ∧
    only_task id (claimed_row agent until now (promoted promote t)) w w'.
Proof.
  intros Ht Ha Hl Hd.
  destruct (promote_run promote id t (tick w)) as (w1 & Hp & Ho); [by rewrite tick_db|].
  destruct (claim_task_in_transaction_run id agent until now (promoted promote t) w1) as (w' & Hc & Ho2).
  { destruct Ho as [-> _]. apply lookup_insert_eq. }
  exists w'. split; [|by eapply only_task_tick, only_task_twice]. unfold claim_ready_task_in_transaction. exec.
  eapply bind_eq; [apply task_candidate_by_id_eq|]. rewrite tick_db, Ht.
  change (candidate_of_row id <$> Some t) with (Some (candidate_of_row id t)). cbv iota beta zeta.
  change (rc_status (candidate_of_row id t)) with (t_status t).
  change (rc_lease_until (candidate_of_row id t)) with (t_lease_until t).
  unfold lease_live in Hl. rewrite Ha, Hl. exec. cbv iota.
  eapply bind_eq; [unfold lift_result; by rewrite Hd|]. by eapply bind_eq; [exact Hc|].
Qed.
Lemma claim_ready_overflow t e :
  d_tasks (w_db w) !! id = Some t → has_status allowed (t_status t) = true →
  lease_live now t = false → lease_deadline now ttl = Err e → ∃ w', claim = (Err e, w').
Proof.
  intros Ht Ha Hl Hd.
  destruct (promote_run promote id t (tick w)) as (w1 & Hp & Ho); [by rewrite tick_db|].
  exists w1. unfold claim_ready_task_in_transaction. exec.
  eapply bind_eq; [apply task_candidate_by_id_eq|]. rewrite tick_db, Ht.
  change (candidate_of_row id <$> Some t) with (Some (candidate_of_row id t)). cbv iota beta zeta.
  change (rc_status (candidate_of_row id t)) with (t_status t).
  change (rc_lease_until (candidate_of_row id t)) with (t_lease_until t).
  unfold lease_live in Hl. rewrite Ha, Hl. exec. cbv iota.
  unfold lift_result, mbind, st_bind. by rewrite Hd.
Qed.
End by_id.

(** Every outcome of a claim by id, with the condition it happens under. *)
Definition claim_outcome (id agent : string) (ttl : Z) (allowed : list TaskStatus) (promote : bool)
    (w : world) (r : ReadyTaskClaim) (w' : world) : Prop :=
  let now := w_clock (tick w) in
  match r with
  | NoAvailable => w_db w' = w_db w ∧
      ∀ t, d_tasks (w_db w) !! id = Some t → has_status allowed (t_status t) = true →
        lease_live now t = true ∧ t_claimed_by t ≠ Some agent
  | AlreadyClaimed l => ∃ t until, d_tasks (w_db w) !! id = Some t ∧ has_status allowed (t_status t) = true ∧
      t_claimed_by t = Some agent ∧ parse_lease_until (t_lease_until t) = Some until ∧ now < until ∧
      l = lease_of (candidate_of_row id (promoted promote t)) agent until ∧
      only_task id (promoted promote t) w w'
  | Claimed l => ∃ t until, d_tasks (w_db w) !! id = Some t ∧ has_status allowed (t_status t) = true ∧
      lease_live now t = false ∧ lease_deadline now ttl = Ok until ∧
      l = lease_of (candidate_of_row id (promoted promote t)) agent until ∧
      only_task id (claimed_row agent until now (promoted promote t)) w w'
  end.

Lemma lease_live_true now t : lease_live now t = true ↔ ∃ u, parse_lease_until (t_lease_until t) = Some u ∧ now < u.
Proof.
  unfold lease_live, live_at. destruct (parse_lease_until _) as [u|]; simpl.
  - rewrite Z.ltb_lt. split; [eauto|]. by intros (? & [= ->] & ?).
  - split; [done|]. by intros (? & [=] & ?).
Qed.

Lemma claim_ready_cases id agent ttl allowed promote w :
  match claim_ready_task_in_transaction id agent ttl allowed promote w with
  | (Ok r, w') => claim_outcome id agent ttl allowed promote w r w'
  | (Err e, _) => lease_deadline (w_clock (tick w)) ttl = Err e
  end.
Proof.
  destruct (d_tasks (w_db w) !! id) as [t|] eqn:Ht.
  2:{ rewrite claim_ready_missing by done. simpl. rewrite tick_db. split; [done|]. by rewrite Ht. }
  destruct (has_status allowed (t_status t)) eqn:Ha.
  2:{ rewrite (claim_ready_unavailable _ _ _ _ _ _ t) by auto. simpl. rewrite tick_db.
      split; [done|]. intros u Hu. rewrite Ht in Hu. injection Hu as <-. by rewrite Ha. }
  destruct (lease_live (w_clock (tick w)) t) eqn:Hl.
  - destruct (decide (t_claimed_by t = Some agent)) as [Hc|Hc].
    + apply lease_live_true in Hl as (u & Hu & Hn).
      destruct (claim_ready_already id agent ttl allowed promote w t u Ht Ha Hu Hn Hc) as (w1 & Hr & Ho).
      rewrite Hr. exists t, u. done.
    + rewrite (claim_ready_unavailable _ _ _ _ _ _ t) by auto. simpl. rewrite tick_db.
      split; [done|]. intros u Hu. rewrite Ht in Hu. injection Hu as <-. done.
  - destruct (lease_deadline (w_clock (tick w)) ttl) as [until|e] eqn:Hd.
    + destruct (claim_ready_free id agent ttl allowed promote w t until Ht Ha Hl Hd) as (w1 & Hr & Ho).
      rewrite Hr. exists t, until. done.
    + destruct (claim_ready_overflow id agent ttl allowed promote w t e Ht Ha Hl Hd) as (w1 & Hr). by rewrite Hr.
Qed.

(** C5. Claims by id are exclusive. A claim succeeds only on a task in an
    allowed state that is not under somebody else's live lease; the caller's
    own live lease is returned unchanged; an expired or absent lease is
    replaced by one that ends at the computed deadline; only that task's row
    changes; and [NoAvailable] is answered exactly when the task is missing,
    in another state, or under another agent's live lease, leaving the
    database as it was.  The only failure is a deadline out of range. *)
Theorem claim_by_id_exclusive id agent ttl allowed promote w r w' :
  schema_ready (w_db w) →
  claim_task_by_id_with_statuses id agent ttl allowed promote w = (r, w') →
  match r with
  | Ok r => claim_outcome id agent ttl allowed promote w r w'
  | Err e => w_db w' = w_db w ∧ lease_deadline (w_clock (tick w)) ttl = Err e
  end.
Proof.
  intros Hs H. unfold claim_task_by_id_with_statuses in H. rewrite (bind_run _ _ _ _ _ (open_run w Hs)) in H.
  pose proof (claim_ready_cases id agent ttl allowed promote w) as Hc. unfold transaction in H.
  destruct (claim_ready_task_in_transaction _ _ _ _ _ w) as [[a|e] w1]; by injection H as <- <-.
Qed.

Lemma claim_by_id_inv id agent ttl allowed promote w a w' :
  schema_ready (w_db w) → claim_task_by_id_with_statuses id agent ttl allowed promote w = (Ok a, w') →
  claim_outcome id agent ttl allowed promote w a w'.
Proof.
  intros Hs H. unfold claim_task_by_id_with_statuses in H. rewrite (bind_run _ _ _ _ _ (open_run w Hs)) in H.
  apply transaction_Ok_inv in H. pose proof (claim_ready_cases id agent ttl allowed promote w) as Hc. by rewrite H in Hc.
Qed.
Lemma claim_by_id_run id agent ttl allowed promote w a w' :
  schema_ready (w_db w) → claim_ready_task_in_transaction id agent ttl allowed promote w = (Ok a, w') →
  claim_task_by_id_with_statuses id agent ttl allowed promote w = (Ok a, w').
Proof. intros Hs H. unfold claim_task_by_id_with_statuses. exec. Qed.

Definition executor_statuses : list TaskStatus := [Pending; Executing; Addressing].
Lemma promoted_status t :
  has_status executor_statuses (t_status t) = true →
  t_status (promoted true t) = as_str Executing ∨ t_status (promoted true t) = as_str Addressing.
Proof.
  unfold promoted, is_pending, has_status. simpl. intros H.
  repeat (apply orb_true_iff in H as [H|H]; [apply bool_decide_eq_true in H; rewrite <- H; simpl; auto|]). done.
Qed.

(** The row of a claimed task is under a live lease exactly until the stored
    deadline: the claim time rounded down to the second plus the lifetime. *)
Lemma claimed_row_live `{!ChronoLaws} agent now now2 ttl t :
  0 ≤ now → 0 ≤ ttl ≤ duration_max_secs → now + ttl * nanos < year_10000 →
  lease_live now2 (claimed_row agent (now + ttl * nanos) now t) = (now2 <? floor_secs now + ttl * nanos).
Proof.
  intros H0 Ht Hy. unfold lease_live, claimed_row, parse_lease_until. simpl. by rewrite stored_lease_secs.
Qed.

(** A lease excludes every other agent for exactly its lifetime. After
    agent [a] claims a task at time [now], a claim of the same task by
    another agent [b] — at any time, whatever else happened to the rest of
    the database — is refused before [now] (rounded down to a second) plus
    [ttl] seconds, and succeeds from then on. *)
Theorem lease_excludes_until_deadline `{!ChronoLaws} id a b ttl ttl' w l w1 w2 :
  let now := w_clock (tick w) in let now2 := w_clock (tick w2) in
  a ≠ b → schema_ready (w_db w) → claim_ready_task_by_id id a ttl w = (Ok (Claimed l), w1) →
  schema_ready (w_db w2) → d_tasks (w_db w2) !! id = d_tasks (w_db w1) !! id →
  0 ≤ now → 0 ≤ ttl ≤ duration_max_secs → now + ttl * nanos < year_10000 →
  0 ≤ now2 → 0 ≤ ttl' ≤ duration_max_secs → now2 + ttl' * nanos < year_10000 →
  (now2 < floor_secs now + ttl * nanos →
     ∃ w3, claim_ready_task_by_id id b ttl' w2 = (Ok NoAvailable, w3) ∧ w_db w3 = w_db w2) ∧
  (floor_secs now + ttl * nanos ≤ now2 →
     ∃ l' w3 t', claim_ready_task_by_id id b ttl' w2 = (Ok (Claimed l'), w3) ∧
       d_tasks (w_db w3) !! id = Some t' ∧ t_claimed_by t' = Some b).
Proof.
  intros now now2 Hab Hs H1 Hs2 Hsame Hn Ht Hy Hn2 Ht2 Hy2.
  pose proof (claim_by_id_inv _ _ _ _ _ _ _ _ Hs H1) as (t & until & Hl & Ha & _ & Hd & -> & Ho). fold now in Hd, Ho.
  rewrite lease_deadline_small in Hd by done. injection Hd as <-.
  destruct Ho as [Htasks _]. rewrite Htasks, lookup_insert_eq in Hsame.
  set (t1 := claimed_row _ _ _ _) in Hsame.
  assert (has_status executor_statuses (t_status t1) = true) as Ha1.
  { change (t_status t1) with (t_status (promoted true t)). by destruct (promoted_status t Ha) as [-> | ->]. }
  pose proof (claimed_row_live a now now2 ttl (promoted true t) Hn Ht Hy) as Hlive. fold t1 in Hlive. split.
  - intros Hlt. rewrite (proj2 (Z.ltb_lt _ _) Hlt) in Hlive. exists (tick w2). rewrite tick_db. split; [|done].
    apply claim_by_id_run; [done|]. apply (claim_ready_unavailable _ _ _ _ _ _ t1); [done|]. right. split; [done|].
    intros [= E]. done.
  - intros Hge. rewrite (proj2 (Z.ltb_ge _ _) Hge) in Hlive.
    destruct (claim_ready_free id b ttl' executor_statuses true w2 t1 (now2 + ttl' * nanos)) as (w3 & H3 & Ho3);
      [done|done|done|by apply lease_deadline_small|].
    eexists _, w3, _. split; [by apply claim_by_id_run|]. destruct Ho3 as [-> _]. by rewrite lookup_insert_eq.
Qed.

(** ** The next task *)
Lemma own_lease_Some now agent l c u :
  own_lease now agent l = Some (c, u) →
  c ∈ l ∧ parse_lease_until (rc_lease_until c) = Some u ∧ now < u ∧ rc_claimed_by c = Some agent.
Proof.
  induction l as [|x l IH]; simpl; [done|]. intros H.
  assert (own_lease now agent l = Some (c, u) → c ∈ x :: l ∧ parse_lease_until (rc_lease_until c) = Some u ∧ now < u ∧ rc_claimed_by c = Some agent) as Hrec.
  { intros (? & ?)%IH. split; [by right|done]. }
  destruct (parse_lease_until (rc_lease_until x)) as [v|] eqn:E; [|auto].
  destruct ((now <? v) && opt_is (rc_claimed_by x) agent) eqn:Eb; [|auto].
  injection H as <- <-. apply andb_true_iff in Eb as [Hv Hc]. apply Z.ltb_lt in Hv. apply bool_decide_eq_true in Hc.
  split_and!; [left|done..].
Qed.
Lemma own_lease_None now agent l c :
  own_lease now agent l = None → c ∈ l → live_at now (parse_lease_until (rc_lease_until c)) = true →
  rc_claimed_by c ≠ Some agent.
Proof.
  induction l as [|x l IH]; simpl; [by intros _ ?%elem_of_nil|]. intros H Hc Hl Ho.
  apply elem_of_cons in Hc as [->|Hc].
  - destruct (parse_lease_until (rc_lease_until x)) as [v|]; [|done]. simpl in Hl. rewrite Hl in H. simpl in H.
    unfold opt_is in H. by rewrite bool_decide_eq_true_2 in H.
  - destruct (parse_lease_until (rc_lease_until x)) as [v|]; [destruct (_ && _); [done|]|]; by apply IH.
Qed.
Lemma first_free_Some now l c :
  first_free now l = Some c → ∃ l1 l2, l = (l1 ++ c :: l2)%list ∧
    Forall (λ x, live_at now (parse_lease_until (rc_lease_until x)) = true) l1 ∧
    live_at now (parse_lease_until (rc_lease_until c)) = false.
Proof.
  induction l as [|x l IH]; simpl; [done|]. destruct (live_at now (parse_lease_until (rc_lease_until x))) eqn:E.
  - intros (l1 & l2 & -> & H1 & H2)%IH. exists (x :: l1), l2. split_and!; [done|by constructor|done].
  - intros [= <-]. exists [], l. done.
Qed.
Lemma first_free_None now l :
  first_free now l = None → Forall (λ x, live_at now (parse_lease_until (rc_lease_until x)) = true) l.
Proof. induction l as [|x l IH]; simpl; [done|]. destruct (live_at now (parse_lease_until (rc_lease_until x))) eqn:E; [|done].
  intros H%IH. by constructor. Qed.


(** The candidates of a scan, with the rows they come from, in id order. *)
Definition scan_rows (statuses : list TaskStatus) (d : db) : list (string * task_row) :=
  order_by by_id (tasks_where (λ _ t, has_status statuses (t_status t)) d).
Lemma candidates_run statuses w :
  statuses ≠ [] → task_candidates_by_status statuses w
  = (Ok (map (λ x, candidate_of_row x.1 x.2) (scan_rows statuses (w_db w))), w).
Proof. intros H. unfold task_candidates_by_status. by rewrite bool_decide_eq_false_2. Qed.
Lemma elem_of_scan statuses d id t :
  (id, t) ∈ scan_rows statuses d ↔ d_tasks d !! id = Some t ∧ has_status statuses (t_status t) = true.
Proof. unfold scan_rows. rewrite elem_of_order_by. apply elem_of_tasks_where. Qed.

(** What a scan answers, and when. *)
Definition scan_outcome (agent : string) (ttl : Z) (statuses : list TaskStatus) (promote : bool)
    (w : world) (r : ReadyTaskClaim) (w' : world) : Prop :=
  let now := w_clock (tick w) in
  let eligible id t := d_tasks (w_db w) !! id = Some t ∧ has_status statuses (t_status t) = true in
  let mine t := t_claimed_by t = Some agent ∧ lease_live now t = true in
  match r with
  | NoAvailable => w_db w' = w_db w ∧
      ∀ id t, eligible id t → lease_live now t = true ∧ t_claimed_by t ≠ Some agent
  | AlreadyClaimed l => ∃ id t until, eligible id t ∧ mine t ∧ parse_lease_until (t_lease_until t) = Some until ∧
      l = lease_of (candidate_of_row id (promoted promote t)) agent until ∧ only_task id (promoted promote t) w w'
  | Claimed l => ∃ id t until, eligible id t ∧ lease_live now t = false ∧
      (∀ id' t', eligible id' t' → ¬ mine t') ∧
      (∀ id' t', eligible id' t' → lease_live now t' = false → String.compare id id' ≠ Gt) ∧
      lease_deadline now ttl = Ok until ∧
      l = lease_of (candidate_of_row id (promoted promote t)) agent until ∧
      only_task id (claimed_row agent until now (promoted promote t)) w w'
  end.

Lemma first_free_rows now l c :
  first_free now (map (λ x, candidate_of_row x.1 x.2) l) = Some c →
  StronglySorted (λ x y, by_id x y ≠ Gt) l →
  ∃ id t, c = candidate_of_row id t ∧ (id, t) ∈ l ∧ lease_live now t = false ∧
    ∀ id' t', (id', t') ∈ l → lease_live now t' = false → String.compare id id' ≠ Gt.
Proof.
  induction l as [|[id t] l IH]; simpl; [done|]. intros H [Hall Hs]%StronglySorted_cons.
  fold (lease_live now t) in H.
  destruct (lease_live now t) eqn:E.
  - destruct (IH H Hs) as (id1 & t1 & -> & Hin & Hl & Hmin). exists id1, t1. split_and!; [done|by right|done|].
    intros id' t' [[= -> ->]|Hin']%elem_of_cons Hl'; [congruence|eauto].
  - injection H as <-. exists id, t. split_and!; [done|left|done|].
    intros id' t' [[= -> ->]|Hin']%elem_of_cons _.
    + pose proof (cmp_opp (c := String.compare) id id) as Eo. by destruct (String.compare id id).
    + rewrite Forall_forall in Hall. exact (Hall _ Hin').
Qed.

(** Scanning for work is exclusive and fair. A scan returns the caller's
    own live lease when it has one; otherwise it claims the free task with the
    smallest id, never one under a live lease; it answers [NoAvailable] only
    when every eligible task is under somebody else's live lease, and then
    changes nothing.  The only failure is a deadline out of range, which
    changes nothing either. *)
Theorem claim_next_smallest_free agent ttl statuses promote w r w' :
  schema_ready (w_db w) → statuses ≠ [] →
  claim_next_task_with_statuses agent ttl statuses promote w = (r, w') →
  match r with
  | Ok r => scan_outcome agent ttl statuses promote w r w'
  | Err e => w_db w' = w_db w ∧ lease_deadline (w_clock (tick w)) ttl = Err e
  end.
Proof.
  intros Hs Hne H. unfold claim_next_task_with_statuses in H. rewrite (bind_run _ _ _ _ _ (open_run w Hs)) in H.
  unfold transaction in H.
  rewrite (bind_run _ _ _ _ _ (utc_now_eq w)), (bind_run _ _ _ _ _ (candidates_run statuses (tick w) Hne)), tick_db in H.
  set (now := w_clock (tick w)) in *. set (rows := scan_rows statuses (w_db w)) in *.
  destruct (own_lease now agent _) as [[c u]|] eqn:Eo.
  - apply own_lease_Some in Eo as (Hin & Hu & Hlt & Hc).
    apply list_elem_of_fmap in Hin as ([id t] & -> & Hin). simpl in *.
    destruct (proj1 (elem_of_scan _ _ _ _) Hin) as [Ht Ha].
    destruct (promote_run promote id t (tick w)) as (w1 & Hp & Ho); [by rewrite tick_db|].
    rewrite (bind_run _ _ _ _ _ Hp) in H. injection H as <- <-.
    exists id, t, u. split_and!; [done|done|done|by apply lease_live_true; eauto|done|done|by apply only_task_tick].
  - assert (∀ id t, (id, t) ∈ rows → lease_live now t = true → t_claimed_by t ≠ Some agent) as Hown.
    { intros id t Hin Hl. apply (own_lease_None _ _ _ (candidate_of_row id t) Eo); [|done].
      apply list_elem_of_fmap. by exists (id, t). }
    destruct (first_free now _) as [c|] eqn:Ef.
    + destruct (first_free_rows now rows c Ef) as (id & t & -> & Hin & Hl & Hmin); [apply order_by_sorted, _|].
      destruct (proj1 (elem_of_scan _ _ _ _) Hin) as [Ht Ha].
      destruct (promote_run promote id t (tick w)) as (w1 & Hp & Ho); [by rewrite tick_db|].
      rewrite (bind_run _ _ _ _ _ Hp) in H. unfold lift_result in H. unfold mbind at 1, st_bind at 1 in H.
      destruct (lease_deadline now ttl) as [until|e] eqn:Hd; [|by injection H as <- <-].
      destruct (claim_task_in_transaction_run id agent until now (promoted promote t) w1) as (w2 & Hc & Ho2).
      { destruct Ho as [-> _]. apply lookup_insert_eq. }
      change (rc_id (candidate_of_row id (promoted promote t))) with id in H.
      rewrite (bind_run _ _ _ _ _ Hc) in H. injection H as <- <-.
      exists id, t, until. split_and!; try done.
      * intros id' t' [Ht' Ha'] [Hm1 Hm2]. eapply Hown; [by apply elem_of_scan|done|done].
      * intros id' t' Ht'. apply Hmin. by apply elem_of_scan.
      * by eapply only_task_tick, only_task_twice.
    + injection H as <- <-. simpl. rewrite tick_db. split; [done|]. intros id t He.
      assert ((id, t) ∈ rows) as Hin by by apply elem_of_scan.
      assert (lease_live now t = true) as Hl.
      { apply first_free_None in Ef. rewrite Forall_forall in Ef. apply (Ef (candidate_of_row id t)).
        apply list_elem_of_fmap. by exists (id, t). }
      split; [done|]. by eapply Hown.
Qed.

(** ** Renewal *)
Lemma renew_live id agent ttl until t w :
  d_tasks (w_db w) !! id = Some t → lease_live (w_clock (tick w)) t = true →
  lease_deadline (w_clock (tick w)) ttl = Ok until →
  ∃ w', renew_task_lease_in_transaction id agent ttl (t_lease_until t) w = (Ok (Some until), w') ∧
    only_task id (t <| t_lease_until := Some (rfc3339_secs until) |>
                    <| t_last_heartbeat := Some (rfc3339_secs (w_clock (tick w))) |>) w w'.
Proof.
  intros Ht (u & Hu & Hn)%lease_live_true Hd. eexists. split.
  - unfold renew_task_lease_in_transaction. exec. unfold parse_lease_until in Hu. rewrite Hu.
    rewrite (proj2 (Z.leb_gt _ _) Hn). exec. eapply bind_eq; [unfold lift_result; by rewrite Hd|]. exec.
  - apply only_task_tick, only_task_add_event, only_task_set.
Qed.
Lemma renew_overflow id agent ttl e t w :
  lease_live (w_clock (tick w)) t = true → lease_deadline (w_clock (tick w)) ttl = Err e →
  renew_task_lease_in_transaction id agent ttl (t_lease_until t) w = (Err e, tick w).
Proof.
  intros (u & Hu & Hn)%lease_live_true Hd. unfold renew_task_lease_in_transaction. exec.
  unfold parse_lease_until in Hu. rewrite Hu, (proj2 (Z.leb_gt _ _) Hn). unfold lift_result, mbind, st_bind. by rewrite Hd.
Qed.
Lemma renew_dead id agent ttl existing w :
  live_at (w_clock (tick w)) (parse_lease_until existing) = false →
  renew_task_lease_in_transaction id agent ttl existing w = (Ok None, tick w).
Proof.
  intros Hl. unfold renew_task_lease_in_transaction. exec. unfold parse_lease_until in Hl.
  destruct (existing ≫= parse_from_rfc3339) as [u|]; [|done]. simpl in Hl. apply Z.ltb_ge in Hl.
  by rewrite (proj2 (Z.leb_le _ _) Hl).
Qed.
Lemma latest_claimed_spec agent d id t :
  latest_claimed agent d = Some (id, t) → d_tasks d !! id = Some t ∧ t_claimed_by t = Some agent.
Proof.
  unfold latest_claimed. destruct (order_by by_lease _) as [|x l] eqn:E; [done|]. intros [= ->].
  assert ((id, t) ∈ tasks_where (λ _ t, opt_is (t_claimed_by t) agent) d) as Hin.
  { rewrite <- (order_by_Permutation by_lease), E. left. }
  apply elem_of_tasks_where in Hin as [Ht Hc]. split; [done|]. by apply bool_decide_eq_true in Hc.
Qed.
Lemma latest_claimed_None agent d id t :
  latest_claimed agent d = None → d_tasks d !! id = Some t → t_claimed_by t ≠ Some agent.
Proof.
  unfold latest_claimed. intros H Ht Hc. apply head_None, order_by_nil in H.
  assert ((id, t) ∈ tasks_where (λ _ t, opt_is (t_claimed_by t) agent) d) as Hin.
  { apply elem_of_tasks_where. split; [done|]. by apply bool_decide_eq_true. }
  rewrite H in Hin. by apply elem_of_nil in Hin.
Qed.

(** A heartbeat extends a live lease and never revives a dead one. It
    renews the caller's claimed task to a full lifetime from now and keeps its
    owner; when the lease has run out it reports [Expired], and when the
    caller holds no task [NotClaimed], both without touching the database.
    The only failure is a deadline out of range, which changes nothing. *)
Theorem renewal_extends_only_live_leases agent ttl w r w' :
  schema_ready (w_db w) → renew_claimed_task_lease agent ttl w = (r, w') →
  let now := w_clock (tick w) in
  match r with
  | Err e => w_db w' = w_db w ∧ lease_deadline now ttl = Err e
  | Ok NotClaimed => w_db w' = w_db w ∧ ∀ id t, d_tasks (w_db w) !! id = Some t → t_claimed_by t ≠ Some agent
  | Ok Expired => w_db w' = w_db w ∧ ∃ id t, latest_claimed agent (w_db w) = Some (id, t) ∧ lease_live now t = false
  | Ok (Renewed id path by_ until) => ∃ t t', d_tasks (w_db w) !! id = Some t ∧ t_claimed_by t = Some agent ∧
      lease_live now t = true ∧ lease_deadline now ttl = Ok until ∧ path = t_path t ∧ by_ = agent ∧
      t_claimed_by t' = Some agent ∧ t_lease_until t' = Some (rfc3339_secs until) ∧ t_status t' = t_status t ∧
      only_task id t' w w'
  end.
Proof.
  intros Hs H now. unfold renew_claimed_task_lease in H. rewrite (bind_run _ _ _ _ _ (open_run w Hs)) in H.
  unfold transaction in H. rewrite (bind_run _ _ _ _ _ (get_db_eq w)) in H.
  destruct (latest_claimed agent (w_db w)) as [[id t]|] eqn:E.
  2:{ injection H as <- <-. split; [done|]. intros id t. by apply latest_claimed_None. }
  pose proof (latest_claimed_spec _ _ _ _ E) as [Ht Hc].
  destruct (lease_live now t) eqn:Hl.
  - destruct (lease_deadline now ttl) as [until|e] eqn:Hd.
    + destruct (renew_live id agent ttl until t w Ht Hl Hd) as (w1 & Hr & Ho).
      rewrite (bind_run _ _ _ _ _ Hr) in H. injection H as <- <-.
      eexists t, (t <| t_lease_until := Some (rfc3339_secs until) |> <| t_last_heartbeat := Some (rfc3339_secs now) |>).
      by split_and!.
    + unfold mbind, st_bind in H. rewrite (renew_overflow id agent ttl e t w Hl Hd) in H. by injection H as <- <-.
  - rewrite (bind_run _ _ _ _ _ (renew_dead id agent ttl (t_lease_until t) w Hl)) in H.
    injection H as <- <-. rewrite tick_db. split; [done|]. eauto.
Qed.
End behaviour.

(** ** At a concrete database *)
Module ClaimsExample.
Definition pending_task : task_row := task_row_default ".ferrus/tasks/t-001.md" "pending".
Definition w0 : world := demo_world [("t-001", pending_task)] [].
Definition claim_by (agent : string) (w : world) := @claim_ready_task_by_id DecimalChrono.chrono "t-001" agent 60 w.
Definition w1 : world := (claim_by "executor:a" w0).2.
Definition lease1 : TaskLease :=
  lease_of (candidate_of_row "t-001" (pending_task <| t_status := "executing" |>)) "executor:a" (1061 * nanos).
End ClaimsExample.

Lemma claim_by_id_exclusive_witness :
  match ClaimsExample.claim_by "executor:a" ClaimsExample.w0 with
  | (Ok r, w') => @claim_outcome DecimalChrono.chrono "t-001" "executor:a" 60 [Pending; Executing; Addressing] true
                    ClaimsExample.w0 r w'
  | (Err e, w') => w_db w' = w_db ClaimsExample.w0 ∧
      @lease_deadline DecimalChrono.chrono (w_clock (tick ClaimsExample.w0)) 60 = Err e
  end.
Proof.
  destruct (ClaimsExample.claim_by "executor:a" ClaimsExample.w0) as [r w'] eqn:E.
  pose proof (@claim_by_id_exclusive DecimalChrono.chrono "t-001" "executor:a" 60 [Pending; Executing; Addressing] true
                ClaimsExample.w0 r w' (demo_ready _ _) E) as H.
  destruct r; exact H.
Defined.

Lemma lease_excludes_until_deadline_witness :
  ∃ w3, ClaimsExample.claim_by "executor:b" ClaimsExample.w1 = (Ok NoAvailable, w3) ∧ w_db w3 = w_db ClaimsExample.w1.
Proof.
  apply (@lease_excludes_until_deadline DecimalChrono.chrono DecimalChrono.laws "t-001" "executor:a" "executor:b" 60 60
           ClaimsExample.w0 ClaimsExample.lease1 ClaimsExample.w1 ClaimsExample.w1).
  - discriminate.
  - apply demo_ready.
  - vm_compute. reflexivity.
  - split; [split_and!; [reflexivity|reflexivity|right; eexists; reflexivity]|reflexivity].
  - reflexivity.
  - vm_compute. discriminate.
  - vm_compute. split; discriminate.
  - vm_compute. reflexivity.
  - vm_compute. discriminate.
  - vm_compute. split; discriminate.
  - vm_compute. reflexivity.
  - vm_compute. reflexivity.
Defined.

Lemma claim_next_smallest_free_witness :
  ∃ r w', @claim_next_ready_task DecimalChrono.chrono "executor:a" 60 ClaimsExample.w0 = (Ok r, w') ∧
    @scan_outcome DecimalChrono.chrono "executor:a" 60 [Pending; Executing; Addressing] true ClaimsExample.w0 r w'.
Proof.
  eexists _, _. split; [vm_compute; reflexivity|].
  apply (λ r, @claim_next_smallest_free DecimalChrono.chrono "executor:a" 60 [Pending; Executing; Addressing] true
            ClaimsExample.w0 (Ok r)).
  - apply demo_ready.
  - discriminate.
  - vm_compute. reflexivity.
Defined.

Lemma renewal_extends_only_live_leases_witness :
  match @renew_claimed_task_lease DecimalChrono.chrono "executor:a" 60 ClaimsExample.w1 with
  | (Ok (Renewed id _ _ until), w') => ∃ t t', d_tasks (w_db ClaimsExample.w1) !! id = Some t ∧
      t_claimed_by t' = Some "executor:a" ∧ only_task id t' ClaimsExample.w1 w'
  | _ => False
  end.
Proof.
  destruct (@renew_claimed_task_lease DecimalChrono.chrono "executor:a" 60 ClaimsExample.w1) as [[r|e] w'] eqn:E;
    [|vm_compute in E; discriminate E].
  pose proof (@renewal_extends_only_live_leases DecimalChrono.chrono "executor:a" 60 ClaimsExample.w1 (Ok r) w'
                ltac:(split; [split_and!; [reflexivity|reflexivity|right; eexists; reflexivity]|reflexivity]) E) as H.
  destruct r; [|vm_compute in E; discriminate E|vm_compute in E; discriminate E].
  destruct H as (t & t' & H). exists t, t'. split_and!; apply H.
Defined.
