(* ===== verification/Runs.v ===== *)
(** Agent runs and their events ([src/src/project/runs.rs]), the live-run
    queries of [src/src/project.rs] and the run listings of
    [src/src/project/registry.rs]. *)
From S2P Require Import Prelude Status View Chrono Database WellFormed Schema Exec Store Claims.

Definition run_alive {ENV : Env} (r : run_row) : bool :=
  match r_pid r with Some pid => process_is_alive (as_u32 pid) | None => false end.

Section runs.
Context {CH : Chrono} {ENV : Env}.

Definition run_status_at (run_id : string) : st world (option string) :=
  r ← select_run run_id; mret (r_status <$> r).

(** ** Reservations *)
Record ExecutorSessionReservation := Reservation { rv_run_id : string; rv_reserved : bool }.

Definition started (r : ExecutorSessionReservation) : ExecutorSessionReservation :=
  Reservation (rv_run_id r) false.

(** [Drop]: a reservation that never started fails its run. *)
Definition drop_reservation (r : ExecutorSessionReservation) : st world unit :=
  if negb (rv_reserved r) then mret tt
  else
    best_effort (
      now ← timestamp;
      update_run (rv_run_id r) (λ r, r <| r_status := "failed" |> <| r_pid := None |> <| r_updated_at := now |>)) ;;
    mret tt.

Definition occupied (shared_workspace : bool) (d : db) : bool :=
  existsb (λ x, run_alive x.2)
    (runs_where (λ _ r, (shared_workspace || bool_decide (r_task_id r = "current"))
                        && bool_decide (r_role r = "executor") && active_run (r_status r)) d).

Definition reserve_executor_session_at (run_id agent workspace task_id : string) (shared_workspace : bool) :
    st world ExecutorSessionReservation :=
  open_runtime_database ;;
  transaction (
    d ← get_db;
    ensure (negb (occupied shared_workspace d))
      (if shared_workspace
       then "Cannot start an Executor while another Executor uses the shared workspace. Stop that session first."
       else "Cannot start a direct Nano session while another taskless Executor uses the canonical workspace. Stop that session first.") [] ;;
    ensure_task_exists task_id (default_task_path_for_id task_id) ;;
    now ← timestamp;
    insert_run run_id (RunRow task_id "executor" agent "running" now now (Some (as_u32 self_pid)) workspace view_cols_default)) ;;
  mret (Reservation run_id true).

(** [starts_with('/')]: an absolute path. *)
Definition is_absolute (p : string) : bool := starts_with "/" p.

Definition authorize_taskless_run_at (run_id agent workspace role : string) : st world unit :=
  ensure (bool_decide (role = "executor") || bool_decide (role = "supervisor")) "Invalid taskless role" [] ;;
  r ← select_run run_id;
  match r with
  | None => fail (SqlConstraint "Query returned no rows")
  | Some r =>
    ensure (bool_decide (r_task_id r = CURRENT_TASK_ID) && bool_decide (r_role r = role)
            && bool_decide (r_agent r = agent) && bool_decide (r_status r = "running")
            && is_absolute (r_workspace_path r) && opt_is (canonicalize (r_workspace_path r)) workspace)
      "Interactive run binding mismatch or run is no longer active" []
  end.

(** ** Events *)
Definition record_runtime_event (run_id : option string) (type : string) (p : payload) : st world unit :=
  open_runtime_database ;; insert_event run_id type p.
Definition record_runtime_event_best_effort (run_id : option string) (type : string) (p : payload) : st world unit :=
  best_effort (record_runtime_event run_id type p) ;; mret tt.

(** ** Run lifecycle *)
Record RunRecord := RunRec { rr_id : string; rr_row : run_row }.
Record RunStartEvidence := StartEvidence { se_baseline_tree : option string; se_evaluation : jval }.

(** [INSERT INTO runs .. SELECT .. FROM tasks WHERE id = ?2 ON CONFLICT(id) DO UPDATE]:
    the view columns come from the task; an existing run keeps its task, role,
    agent and start. *)
Definition upsert_run_from_task (run_id : string) (r : run_row) : st world unit :=
  d ← get_db;
  match d_tasks d !! r_task_id r with
  | None => mret tt
  | Some t =>
    put_db (λ d, d <| d_runs := <[run_id :=
      match d_runs d !! run_id with
      | Some old => old <| r_status := r_status r |> <| r_updated_at := r_updated_at r |> <| r_pid := r_pid r |>
                        <| r_workspace_path := r_workspace_path r |> <| r_view := t_view t |>
      | None => r <| r_view := t_view t |>
      end]> (d_runs d) |>)
  end.

Definition record_run_started_for_task_with_baseline (run_id role agent : string) (pid : Z) (task_id : option string)
    (workspace : string) (evidence : RunStartEvidence) : st world RunRecord :=
  let id := match normalized_metadata_value task_id with Some id => id | None => CURRENT_TASK_ID end in
  now ← timestamp;
  let r := RunRow id role agent "running" now now (Some pid) workspace view_cols_default in
  open_runtime_database ;;
  ensure_task_exists id (default_task_path_for_id id) ;;
  upsert_run_from_task run_id r ;;
  insert_event (Some run_id) "run_started"
    [("role", JStr role); ("agent", JStr agent); ("pid", JNum pid);
     ("baseline_tree", jopt (se_baseline_tree evidence)); ("evaluation", se_evaluation evidence)] ;;
  mret (RunRec run_id r).

Definition record_run_started_for_task_with_id_best_effort (run_id role agent : string) (pid : Z)
    (task_id : option string) (workspace : string) (evidence : RunStartEvidence) : st world (option string) :=
  r ← best_effort (record_run_started_for_task_with_baseline run_id role agent pid task_id workspace evidence);
  mret (rr_id <$> r).

(** The subselects of the attaching [UPDATE]: the run takes over the task's view. *)
Definition attach_row (task_id now : string) (t : task_row) (r : run_row) : run_row :=
  r <| r_task_id := task_id |> <| r_updated_at := now |> <| r_view := t_view t |>.

Definition latest_started : string * run_row → string * run_row → comparison :=
  lex (on_key (λ x, r_started_at x.2) (desc String.compare)) (on_key fst (desc String.compare)).

Definition attach_running_run_to_task (agent task_id task_path : string) : st world (option string) :=
  open_runtime_database ;;
  ensure_task_exists task_id task_path ;;
  d ← get_db;
  match fst <$> head (order_by latest_started (runs_where (λ _ r, bool_decide (r_agent r = agent) && active_run (r_status r)) d)) with
  | None => mret None
  | Some run_id =>
    now ← timestamp;
    t ← select_task task_id;
    match t with
    | None => fail (SqlConstraint "FOREIGN KEY constraint failed")
    | Some t => update_run run_id (attach_row task_id now t) ;; mret tt
    end ;;
    insert_event (Some run_id) "run_task_attached" [("agent", JStr agent); ("task_id", JStr task_id)] ;;
    mret (Some run_id)
  end.

Definition attach_running_run_to_task_best_effort (agent task_id task_path : string) : st world unit :=
  best_effort (attach_running_run_to_task agent task_id task_path) ;; mret tt.

(** A supervisor already works on the task ([NOT EXISTS (SELECT 1 FROM runs ..)]). *)
Definition supervised (d : db) (task_id : string) : bool :=
  existsb (λ x, bool_decide (r_task_id x.2 = task_id) && bool_decide (r_role x.2 = "supervisor") && active_run (r_status x.2))
    (map_to_list (d_runs d)).
(** The same, not counting the run [run_id] itself. *)
Definition supervised_by_other (d : db) (task_id run_id : string) : bool :=
  existsb (λ x, bool_decide (r_task_id x.2 = task_id) && bool_decide (r_role x.2 = "supervisor")
                && active_run (r_status x.2) && negb (bool_decide (x.1 = run_id)))
    (map_to_list (d_runs d)).

(** The second half of both consultation attachments. *)
Definition attach_to_consultation (agent run_id id : string) (t : task_row) : st world (option RuntimeTaskContext) :=
  workspace ← latest_executor_workspace_for_task id;
  view ← lift_result (repository_view_reference_from_database (t_view t));
  let context := context_of id t (Some run_id) (Some "supervisor") None workspace view in
  now ← timestamp;
  d ← get_db;
  attached ← (if supervised_by_other d id run_id then mret 0 else update_run run_id (attach_row id now t));
  if bool_decide (attached = 0) then mret None
  else
    insert_event_in_transaction (Some run_id) "run_consultation_attached" [("agent", JStr agent); ("task_id", JStr id)] ;;
    mret (Some context).

Definition attach_running_run_to_next_consultation (agent : string) : st world (option RuntimeTaskContext) :=
  open_runtime_database ;;
  transaction (
    run ← latest_active_run_for_agent agent;
    match run with
    | None => mret None
    | Some run_id =>
      context ← consultation_context_for_run run_id;
      match context with
      | Some c => mret (Some c)
      | None =>
        d ← get_db;
        match head (order_by by_id (tasks_where (λ id t, bool_decide (t_status t = as_str Consultation)
                                                         && negb (supervised d id)) d)) with
        | None => mret None
        | Some (id, t) => attach_to_consultation agent run_id id t
        end
      end
    end).

Definition attach_running_run_to_consultation (task_id agent : string) : st world (option RuntimeTaskContext) :=
  open_runtime_database ;;
  transaction (
    run ← latest_active_run_for_agent agent;
    match run with
    | None => mret None
    | Some run_id =>
      context ← consultation_context_for_run run_id;
      match context with
      | Some c => mret (if bool_decide (ctx_task_id c = task_id) then Some c else None)
      | None =>
        d ← get_db;
        t ← select_task task_id;
        match t with
        | None => mret None
        | Some t =>
          if bool_decide (t_status t = as_str Consultation) && negb (supervised d task_id)
          then attach_to_consultation agent run_id task_id t
          else mret None
        end
      end
    end).

Definition record_run_finished (run_id : string) (exit_code : Z) : st world unit :=
  open_runtime_database ;;
  let status := if bool_decide (exit_code = 0) then "completed" else "failed" in
  now ← timestamp;
  update_run run_id (λ r, r <| r_status := status |> <| r_updated_at := now |> <| r_pid := None |>) ;;
  insert_event (Some run_id) "run_finished" [("exit_code", JNum exit_code); ("status", JStr status)].

Definition record_run_finished_best_effort (run_id : string) (exit_code : Z) : st world unit :=
  best_effort (record_run_finished run_id exit_code) ;; mret tt.

(** ** Live runs *)
Definition live_runs (p : string → run_row → bool) (d : db) : list (string * run_row) :=
  filter (λ x, run_alive x.2 = true) (runs_where (λ id r, p id r && active_run (r_status r)) d).

Definition live_active_run_task_ids_from_database : st world (gset string) :=
  d ← get_db; mret (list_to_set (map (λ x, r_task_id x.2) (live_runs (λ _ _, true) d))).
Definition live_active_run_task_ids : st world (gset string) :=
  open_runtime_database ;; live_active_run_task_ids_from_database.
Definition live_active_run_task_ids_for_role (role : string) : st world (gset string) :=
  open_runtime_database ;;
  d ← get_db; mret (list_to_set (map (λ x, r_task_id x.2) (live_runs (λ _ r, bool_decide (r_role r = role)) d))).
Definition live_active_run_agents : st world (gset string) :=
  open_runtime_database ;;
  d ← get_db; mret (list_to_set (map (λ x, r_agent x.2) (live_runs (λ _ _, true) d))).

(** ** Listings *)
Definition run_record_from_row (x : string * run_row) : RunRecord :=
  RunRec x.1 (x.2 <| r_pid := as_u32 <$> r_pid x.2 |>).
Definition latest_run_for_agent_role (agent role : string) : st world (option RunRecord) :=
  open_runtime_database_for_read ;;
  d ← get_db;
  mret (run_record_from_row <$> head (order_by latest_run
         (runs_where (λ _ r, bool_decide (r_agent r = agent) && bool_decide (r_role r = role)) d))).
Definition list_runs (limit : nat) : st world (list RunRecord) :=
  open_runtime_database_for_read ;;
  d ← get_db; mret (map run_record_from_row (take limit (order_by latest_run (runs_where (λ _ _, true) d)))).
End runs.

(** ** Invariant *)
Section invariant.
Context {CH : Chrono} {ENV : Env}.

Lemma preserves_update_run_to id task_id f :
  (∀ r, run_wf r → run_wf (f r)) → (∀ r, r_task_id (f r) = task_id) →
  ∀ w, wf w → is_Some (d_tasks (w_db w) !! task_id) → wf (update_run id f w).2.
Proof.
  intros Hf Hid w Hw Ht. unfold update_run, select_run, gets, mbind, st_bind.
  destruct (d_runs (w_db w) !! id) as [r|] eqn:Hr; simpl; [|done].
  apply db_wf_set_run; [done|exact (Hf _ (dw_runs _ Hw _ _ Hr))|]. by rewrite Hid.
Qed.

Lemma attach_row_wf task_id now t r : task_wf t → run_wf r → run_wf (attach_row task_id now t r).
Proof. intros [] []. by split. Qed.

(** Attaching a run to a task whose row was read keeps the references intact. *)
Lemma wf_attach run_id id now t w :
  wf w → d_tasks (w_db w) !! id = Some t → wf (update_run run_id (attach_row id now t) w).2.
Proof.
  intros Hw Ht. apply (preserves_update_run_to run_id id); [|done|done|by rewrite Ht].
  intros r. apply attach_row_wf. by eapply wf_task.
Qed.

Lemma preserves_drop_reservation r : preserves wf (drop_reservation r).
Proof.
  unfold drop_reservation. solve_wf. apply preserves_update_run; [|done]. intros ? []; by split.
Qed.
Lemma preserves_reserve run_id agent ws id shared : preserves wf (reserve_executor_session_at run_id agent ws id shared).
Proof.
  unfold reserve_executor_session_at. solve_wf. apply preserves_insert_run.
  split; [apply as_u32_range|apply view_ok_default].
Qed.
Lemma preserves_upsert_run run_id r : run_wf r → preserves wf (upsert_run_from_task run_id r).
Proof.
  intros Hr w Hw. unfold upsert_run_from_task, get_db, gets, mbind, st_bind. simpl.
  destruct (d_tasks (w_db w) !! r_task_id r) as [t|] eqn:Ht; simpl; [|done].
  pose proof (tw_view _ (dw_tasks _ Hw _ _ Ht)) as Hv.
  destruct (d_runs (w_db w) !! run_id) as [old|] eqn:Ho; simpl; (apply db_wf_set_run; [done|by destruct Hr; split|]).
  - exact (dw_run_task _ Hw _ _ Ho).
  - simpl. by rewrite Ht.
Qed.
Lemma preserves_run_started run_id role agent pid id ws ev :
  is_u32 pid → preserves wf (record_run_started_for_task_with_baseline run_id role agent pid id ws ev).
Proof.
  intros Hp. unfold record_run_started_for_task_with_baseline. solve_wf. apply preserves_upsert_run.
  split; [done|apply view_ok_default].
Qed.

(** The invariant with the task table fixed: rows read earlier are still there. *)
Definition wf_tasks (m : gmap string task_row) (w : world) : Prop := wf w ∧ d_tasks (w_db w) = m.

Lemma wf_tasks_timestamp m : preserves (wf_tasks m) timestamp.
Proof. intros w Hw. rewrite timestamp_eq. unfold wf_tasks, wf. cbn. by rewrite tick_db. Qed.
Lemma wf_tasks_event m r ty p : preserves (wf_tasks m) (insert_event_in_transaction r ty p).
Proof.
  intros w [Hw Hm]. split; [by apply preserves_insert_event_in_transaction|].
  unfold insert_event_in_transaction, mbind, st_bind. rewrite timestamp_eq. cbn.
  destruct (match r with Some _ => _ | None => _ end); cbn; by rewrite tick_db.
Qed.
Lemma wf_tasks_insert_event m r ty p : preserves (wf_tasks m) (insert_event r ty p).
Proof.
  unfold insert_event. apply preserves_bind; [|intros _; apply wf_tasks_event].
  destruct r; [|apply preserves_ret]. apply preserves_bind; [apply preserves_gets|intros ?; apply preserves_ensure].
Qed.
Lemma wf_tasks_attach m run_id id now t :
  m !! id = Some t → preserves (wf_tasks m) (update_run run_id (attach_row id now t)).
Proof.
  intros Ht w [Hw Hm]. split; [apply wf_attach; [done|by rewrite Hm]|].
  unfold update_run, select_run, gets, mbind, st_bind. by destruct (d_runs (w_db w) !! run_id).
Qed.
#[local] Hint Resolve wf_tasks_timestamp wf_tasks_event wf_tasks_insert_event : preserves.

Lemma wf_tasks_attach_to_consultation m agent run_id id t :
  m !! id = Some t → preserves (wf_tasks m) (attach_to_consultation agent run_id id t).
Proof.
  intros Ht. pose proof (λ now, wf_tasks_attach m run_id id now t Ht).
  unfold attach_to_consultation, latest_executor_workspace_for_task, get_db. solve_preserves.
Qed.
Lemma wf_attach_to_consultation agent run_id id t d :
  d_tasks d !! id = Some t → ∀ w, wf w ∧ w_db w = d → wf (attach_to_consultation agent run_id id t w).2.
Proof.
  intros Ht w [Hw <-]. by apply (wf_tasks_attach_to_consultation (d_tasks (w_db w)) agent run_id id t Ht w).
Qed.

Lemma preserves_attach_next agent : preserves wf (attach_running_run_to_next_consultation agent).
Proof.
  unfold attach_running_run_to_next_consultation. do 3 wf_step. { apply preserves_latest_active_run. }
  destruct _ as [run_id|]; [|apply preserves_ret]. wf_step; [apply preserves_consultation_context|].
  destruct _ as [c|]; [apply preserves_ret|].
  intros w Hw. unfold get_db, gets, mbind at 1, st_bind at 1. cbv iota.
  destruct (head _) as [[id t]|] eqn:E; [|done].
  apply (wf_attach_to_consultation _ _ _ _ (w_db w)); [|done].
  apply head_Some_elem_of in E. rewrite elem_of_order_by in E. by apply elem_of_tasks_where in E as [? _].
Qed.
Lemma preserves_attach_consultation id agent : preserves wf (attach_running_run_to_consultation id agent).
Proof.
  unfold attach_running_run_to_consultation. do 3 wf_step. { apply preserves_latest_active_run. }
  destruct _ as [run_id|]; [|apply preserves_ret]. wf_step; [apply preserves_consultation_context|].
  destruct _ as [c|]; [apply preserves_ret|].
  intros w Hw. unfold get_db, select_task, gets. do 2 (unfold mbind at 1, st_bind at 1; cbv iota).
  destruct (d_tasks (w_db w) !! id) as [t|] eqn:E; [|done]. destruct (_ && _); [|done].
  by apply (wf_attach_to_consultation _ _ _ _ (w_db w)).
Qed.
Lemma preserves_attach_task agent id path : preserves wf (attach_running_run_to_task agent id path).
Proof.
  unfold attach_running_run_to_task. wf_step; [wf_step|]. wf_step; [wf_step|]. wf_step; [wf_step|].
  destruct (fst <$> _) as [run_id|]; [|apply preserves_ret]. wf_step; [wf_step|].
  intros w Hw. unfold select_task, gets. unfold mbind at 1, st_bind at 1. cbv iota.
  destruct (d_tasks (w_db w) !! id) as [t|] eqn:E; [|done].
  match goal with |- wf (?m w).2 => assert (preserves (wf_tasks (d_tasks (w_db w))) m) as Hm end.
  { pose proof (λ now, wf_tasks_attach (d_tasks (w_db w)) run_id id now t E). solve_preserves. }
  by apply Hm.
Qed.
Lemma preserves_run_finished run_id code : preserves wf (record_run_finished run_id code).
Proof.
  unfold record_run_finished. solve_wf. apply preserves_update_run; [|done]. intros ? []; by split.
Qed.
Lemma preserves_record_runtime_event r ty p : preserves wf (record_runtime_event r ty p).
Proof. unfold record_runtime_event. solve_wf. Qed.
Lemma preserves_live_ids : preserves wf live_active_run_task_ids_from_database.
Proof. unfold live_active_run_task_ids_from_database. solve_wf. Qed.
End invariant.
#[export] Hint Resolve preserves_drop_reservation preserves_reserve preserves_attach_next preserves_attach_consultation
  preserves_attach_task preserves_run_finished preserves_record_runtime_event preserves_live_ids : preserves.

(** ** Behaviour *)
Section behaviour.
Context {CH : Chrono} {ENV : Env}.

(** *** Shared workspaces *)
Lemma occupied_true shared d : occupied shared d = true ↔
  ∃ id r, d_runs d !! id = Some r ∧ (shared = true ∨ r_task_id r = "current") ∧
    r_role r = "executor" ∧ active_run (r_status r) = true ∧ run_alive r = true.
Proof.
  unfold occupied. rewrite existsb_exists. split.
  - intros ([id r] & Hin & Ha). apply list_elem_of_In, elem_of_runs_where in Hin as [Hr Hp].
    apply andb_true_iff in Hp as [[Hp Hrole]%andb_true_iff Hact]. apply bool_decide_eq_true in Hrole.
    exists id, r. split_and!; try done. apply orb_true_iff in Hp as [->|Hp]; [by left|].
    right. by apply bool_decide_eq_true in Hp.
  - intros (id & r & Hr & Hs & Hrole & Hact & Ha). exists (id, r). split; [|done].
    apply list_elem_of_In, elem_of_runs_where. split; [done|]. cbn.
    rewrite (bool_decide_eq_true_2 (r_role r = _) Hrole), Hact.
    destruct Hs as [->|Hs]; [done|]. by rewrite (bool_decide_eq_true_2 (r_task_id r = _) Hs), orb_true_r.
Qed.

Lemma reserve_refused run_id agent ws id shared w :
  schema_ready (w_db w) → occupied shared (w_db w) = true →
  ∃ e, reserve_executor_session_at run_id agent ws id shared w = (Err e, w).
Proof.
  intros Hs Ho. unfold reserve_executor_session_at. rewrite (bind_run _ _ _ _ _ (open_run w Hs)).
  eexists. apply bind_Err. left. unfold transaction. rewrite (bind_run _ _ _ _ _ (get_db_eq w)), Ho.
  unfold ensure. simpl. by destruct w.
Qed.

Lemma reserve_Ok run_id agent ws id shared w a w' :
  schema_ready (w_db w) → reserve_executor_session_at run_id agent ws id shared w = (Ok a, w') →
  a = Reservation run_id true ∧ occupied shared (w_db w) = false ∧ d_runs (w_db w) !! run_id = None ∧
  schema_ready (w_db w') ∧
  ∃ now, d_runs (w_db w') = <[run_id := RunRow id "executor" agent "running" now now (Some (as_u32 self_pid)) ws view_cols_default]> (d_runs (w_db w)).
Proof.
  intros Hs H. unfold reserve_executor_session_at in H. rewrite (bind_run _ _ _ _ _ (open_run w Hs)) in H.
  apply bind_Ok in H as (u & w1 & H & [= <- <-]). unfold transaction in H.
  rewrite (bind_run _ _ _ _ _ (get_db_eq w)) in H.
  destruct (occupied shared (w_db w)) eqn:Ho; [done|]. rewrite (bind_run _ _ _ _ _ (eq_refl : ensure true _ _ w = (Ok tt, w))) in H.
  assert (∃ w2, ensure_task_exists id (default_task_path_for_id id) w = (Ok tt, w2) ∧ d_runs (w_db w2) = d_runs (w_db w) ∧
            schema_part (w_db w2) = schema_part (w_db w)) as (w2 & H2 & Hr2 & Hs2).
  { unfold ensure_task_exists, insert_or_ignore_task, select_task, gets, mbind, st_bind.
    destruct (d_tasks (w_db w) !! id); cbn; eauto. }
  rewrite (bind_run _ _ _ _ _ H2), (bind_run _ _ _ _ _ (timestamp_eq w2)) in H.
  unfold insert_run in H. rewrite (bind_run _ _ _ _ _ (get_db_eq (tick w2))), tick_db, Hr2 in H.
  destruct (d_runs (w_db w) !! run_id) eqn:Hr; [done|].
  destruct (d_tasks (w_db w2) !! id) eqn:Ht; simpl in H; rewrite Ht in H; [|done].
  injection H as <- <-. split_and!; try done.
  - eapply schema_ready_part; [|exact Hs]. cbn. unfold schema_part in *. cbn. by rewrite tick_db.
  - eexists. cbn. by rewrite tick_db, Hr2.
Qed.

(** Two executors never share a workspace. Once a session has reserved a
    shared workspace, no other reservation of a shared workspace succeeds
    while the reserving process is alive, and the refusal changes nothing;
    dropping a reservation that never started frees the workspace again. *)
Theorem shared_workspace_exclusive run_id agent ws id run_id2 agent2 ws2 id2 w a w1 :
  schema_ready (w_db w) → process_is_alive (as_u32 (as_u32 self_pid)) = true →
  reserve_executor_session_at run_id agent ws id true w = (Ok a, w1) →
  (∃ e, reserve_executor_session_at run_id2 agent2 ws2 id2 true w1 = (Err e, w1)) ∧
  (∃ w2, drop_reservation a w1 = (Ok tt, w2) ∧ occupied true (w_db w2) = false).
Proof.
  intros Hs Halive H. destruct (reserve_Ok _ _ _ _ _ _ _ _ Hs H) as (-> & Ho & Hnew & Hs1 & now & Hruns). split.
  - apply reserve_refused; [done|]. apply occupied_true. eexists run_id, _. rewrite Hruns, lookup_insert_eq.
    split; [done|]. split_and!; [by left|done|done|done].
  - unfold drop_reservation. simpl. eexists. split.
    + eapply bind_eq; [|reflexivity]. unfold best_effort. rewrite (bind_run _ _ _ _ _ (timestamp_eq w1)).
      erewrite update_run_run; [reflexivity|]. by rewrite tick_db, Hruns, lookup_insert_eq.
    + apply not_true_iff_false. intros E. apply occupied_true in E as (id' & r & Hr & _ & Hrole & Hact & Ha).
      cbn in Hr. rewrite tick_db, Hruns, insert_insert_eq in Hr.
      apply lookup_insert_Some in Hr as [[<- <-]|[Hne Hr]]; [done|].
      exfalso. rewrite <- not_true_iff_false in Ho. apply Ho. apply occupied_true.
      exists id', r. split_and!; auto.
Qed.

(** *** Run start and finish *)

(** A run that starts on a task works on the task's repository view: the
    run row names the task, role and agent, is active, and reads back the
    same view as the task; finishing it makes it inactive and forgets its
    process. *)
Theorem run_lifecycle run_id role agent pid id ws ev code t v w :
  schema_ready (w_db w) → d_tasks (w_db w) !! id = Some t → normalized_metadata_value (Some id) = Some id →
  repository_view_reference_from_database (t_view t) = Ok v → d_runs (w_db w) !! run_id = None →
  ∃ rec w1 r w2 r', record_run_started_for_task_with_baseline run_id role agent pid (Some id) ws ev w = (Ok rec, w1) ∧
    d_tasks (w_db w1) = d_tasks (w_db w) ∧ d_runs (w_db w1) !! run_id = Some r ∧
    r_task_id r = id ∧ r_role r = role ∧ r_agent r = agent ∧ r_pid r = Some pid ∧ active_run (r_status r) = true ∧
    repository_view_reference_from_database (r_view r) = Ok v ∧
    record_run_finished run_id code w1 = (Ok tt, w2) ∧ d_runs (w_db w2) !! run_id = Some r' ∧
    active_run (r_status r') = false ∧ r_pid r' = None ∧ run_alive r' = false.
Proof.
  intros Hs Ht Hid Hv Hr. unfold record_run_started_for_task_with_baseline. rewrite Hid. cbv zeta iota.
  set (now := rfc3339_secs (w_clock (tick w))).
  set (r := (RunRow id role agent "running" now now (Some pid) ws (t_view t))).
  assert (upsert_run_from_task run_id (RunRow id role agent "running" now now (Some pid) ws view_cols_default) (tick w)
          = (Ok tt, set_run run_id r (tick w))) as Hup.
  { unfold upsert_run_from_task. rewrite (bind_run _ _ _ _ _ (get_db_eq _)). cbn. rewrite tick_db, Ht.
    unfold put_db, modify, set_run. by rewrite tick_db, Hr. }
  eexists _, _, r, _, _. split_and!.
  - eapply bind_eq; [apply timestamp_eq|]. eapply bind_eq; [by apply open_run; rewrite tick_db|].
    eapply bind_eq; [apply (ensure_task_exists_some id _ t); by rewrite tick_db|].
    eapply bind_eq; [exact Hup|]. eapply bind_eq; [apply insert_event_run; eexists; world_lookup|]. reflexivity.
  - by autorewrite with world.
  - by autorewrite with world.
  - done.
  - done.
  - done.
  - done.
  - done.
  - done.
  - unfold record_run_finished. eapply bind_eq.
    { apply open_run. apply add_event_schema, set_run_schema. by rewrite tick_db. }
    eapply bind_eq; [apply timestamp_eq|].
    eapply bind_eq; [apply (update_run_run _ _ r); by autorewrite with world|].
    apply insert_event_run. eexists. by autorewrite with world.
  - by autorewrite with world.
  - cbn. by case_bool_decide.
  - done.
  - done.
Qed.

(** *** Consultations *)
Lemma supervised_by_other_spec d id run_id : supervised_by_other d id run_id = false →
  ∀ rid r, d_runs d !! rid = Some r → r_task_id r = id → r_role r = "supervisor" → active_run (r_status r) = true → rid = run_id.
Proof.
  intros H rid r Hr Hid Hrole Hact. destruct (decide (rid = run_id)) as [|Hne]; [done|]. exfalso.
  unfold supervised_by_other in H. rewrite <- not_true_iff_false in H. apply H. apply existsb_exists.
  exists (rid, r). split; [by apply list_elem_of_In, elem_of_map_to_list|]. simpl.
  rewrite Hid, Hrole, Hact, !bool_decide_eq_true_2, bool_decide_eq_false_2 by done. done.
Qed.

Lemma attach_to_consultation_Ok agent run_id id t c w w' :
  d_tasks (w_db w) !! id = Some t → attach_to_consultation agent run_id id t w = (Ok (Some c), w') →
  ctx_task_id c = id ∧ ctx_run_id c = Some run_id ∧ ctx_status c = t_status t ∧
  d_tasks (w_db w') = d_tasks (w_db w) ∧
  (∃ r', d_runs (w_db w') = <[run_id := r']> (d_runs (w_db w)) ∧ r_task_id r' = id ∧ r_view r' = t_view t) ∧
  supervised_by_other (w_db w) id run_id = false.
Proof.
  intros Ht H. unfold attach_to_consultation in H.
  apply bind_Ok in H as (ws & w1 & Hws & H). unfold latest_executor_workspace_for_task in Hws.
  rewrite (bind_run _ _ _ _ _ (get_db_eq w)) in Hws. injection Hws as _ <-.
  apply bind_Ok in H as (view & w2 & Hview & H). unfold lift_result in Hview. injection Hview as Hview <-.
  rewrite (bind_run _ _ _ _ _ (timestamp_eq w)), (bind_run _ _ _ _ _ (get_db_eq _)), tick_db in H.
  destruct (supervised_by_other (w_db w) id run_id) eqn:Es; [done|].
  destruct (d_runs (w_db w) !! run_id) as [r|] eqn:Hr.
  - rewrite (bind_run _ _ _ _ _ (update_run_run run_id _ r (tick w) ltac:(by rewrite tick_db))) in H. exec_norm_in H.
    rewrite (bind_run _ _ _ _ _ (insert_event_in_transaction_run _ _ _ _
      (ex_intro _ _ (lookup_insert_eq _ run_id _) : run_known (Some run_id) (set_run run_id _ _)))) in H.
    injection H as <- <-. split_and!; try done.
    + by autorewrite with world.
    + eexists. split; [by autorewrite with world|done].
  - exfalso. rewrite (bind_run _ _ _ _ _ (update_run_none run_id _ (tick w) ltac:(by rewrite tick_db))) in H. done.
Qed.

(** The context a run already attached to a consultation is given. *)
Lemma consultation_context_Ok run_id o w w' : consultation_context_for_run run_id w = (Ok o, w') →
  w' = w ∧ (∀ c, o = Some c → ∃ r, d_runs (w_db w) !! run_id = Some r ∧ r_task_id r = ctx_task_id c ∧
    ctx_run_id c = Some run_id ∧ ctx_status c = as_str Consultation).
Proof.
  unfold consultation_context_for_run. rewrite (bind_run _ _ _ _ _ (get_db_eq w)).
  destruct (d_runs (w_db w) !! run_id) as [r|] eqn:Hr; simpl; [|by intros [= <- <-]].
  destruct (d_tasks (w_db w) !! r_task_id r) as [t|]; simpl; [|by intros [= <- <-]].
  case_bool_decide as Hst; [|by intros [= <- <-]]. intros H.
  apply bind_Ok in H as (ws & w1 & Hws & H). injection Hws as _ <-.
  apply bind_Ok in H as (view & w2 & Hview & H). injection Hview as _ <-.
  injection H as <- <-. split; [done|]. intros c [= <-]. by exists r.
Qed.

(** A consultation is attached to one supervisor run at most. When a
    supervisor polling for consultations is handed a task, its run points at
    that task, the task is in consultation, and unless the run was attached
    already, no other active supervisor run is on the task afterwards. *)
Theorem consultation_attach_exclusive agent c w w' :
  schema_ready (w_db w) → attach_running_run_to_next_consultation agent w = (Ok (Some c), w') →
  ∃ run_id r', ctx_run_id c = Some run_id ∧ d_runs (w_db w') !! run_id = Some r' ∧
    r_task_id r' = ctx_task_id c ∧ ctx_status c = as_str Consultation ∧ d_tasks (w_db w') = d_tasks (w_db w) ∧
    (w_db w' = w_db w ∨
     ∀ rid r, d_runs (w_db w') !! rid = Some r → r_task_id r = ctx_task_id c → r_role r = "supervisor" →
       active_run (r_status r) = true → rid = run_id).
Proof.
  intros Hs H. unfold attach_running_run_to_next_consultation in H. rewrite (bind_run _ _ _ _ _ (open_run w Hs)) in H.
  apply transaction_Ok_inv in H as E. apply bind_Ok in E as (run & w1 & [= <- <-] & E).
  destruct (fst <$> _) as [run_id|]; [|done].
  apply bind_Ok in E as (o & w1 & Hc & E). apply consultation_context_Ok in Hc as [-> Hc].
  destruct o as [c'|].
  - injection E as -> ->. destruct (Hc c eq_refl) as (r & Hr & Hid & Hrun & Hst). exists run_id, r. split_and!; auto.
  - rewrite (bind_run _ _ _ _ _ (get_db_eq w)) in E. destruct (head _) as [[id t]|] eqn:Eh; [|done].
    apply head_Some_elem_of in Eh. rewrite elem_of_order_by in Eh. apply elem_of_tasks_where in Eh as [Ht Hp].
    apply andb_true_iff in Hp as [Hst _]. apply bool_decide_eq_true in Hst.
    apply attach_to_consultation_Ok in E as (Hid & Hrun & Hctx & Htasks & (r' & Hruns & Hr' & _) & Hother); [|done].
    exists run_id, r'. rewrite Hruns, lookup_insert_eq. split_and!; try congruence. right.
    intros rid r Hr Hrid Hrole Hact. apply lookup_insert_Some in Hr as [[<- _]|[Hne Hr]]; [done|].
    eapply (supervised_by_other_spec _ _ _ Hother); eauto. congruence.
Qed.
End behaviour.
