(* ===== verification/Task.v ===== *)
(** Task transitions, retry counters and the project selection
    ([src/src/project/task.rs]): every operation opens the database and runs
    its statements, in a transaction where the code uses one. *)
From S2P Require Import Prelude Status View Chrono Database WellFormed Schema Exec.

Section task.
Context {CH : Chrono}.

(** ** Events and selection *)
Definition list_events (limit : nat) (run_id : option string) : st world (list event_row) :=
  open_runtime_database ;;
  d ← get_db;
  mret (take limit (rev (filter (λ e, match run_id with
                                      | Some r => opt_is (e_run_id e) r
                                      | None => true
                                      end = true) (d_events d)))).

Definition read_project_selection : st world ProjectSelection :=
  open_runtime_database_for_read ;; read_project_selection_from_database.

Definition write_project_selection (s : ProjectSelection) : st world unit :=
  open_runtime_database ;;
  write_project_selection_to_database s ;;
  insert_event None "project_selection_changed" [("selected_spec", jopt (selected_spec s))].

Definition read_last_spec_path : st world (option string) :=
  open_runtime_database ;; read_last_spec_path_from_database.

Definition write_last_spec_path (path : string) : st world unit :=
  open_runtime_database ;;
  write_last_spec_path_to_database (Some path) ;;
  insert_event None "spec_created" [("path", JStr path)].

Definition clear_last_spec_path : st world unit :=
  open_runtime_database ;; write_last_spec_path_to_database None.

Definition read_last_spec_archive_path : st world (option string) :=
  open_runtime_database ;; read_last_spec_archive_path_from_database.

Definition clear_last_spec_archive_path : st world unit :=
  open_runtime_database ;; write_last_spec_archive_path_to_database None.

(** ** Status transitions *)
Definition record_task_status_on_connection (id path : string) (status : TaskStatus)
    (spec_path milestone_id : option string) : st world unit :=
  upsert_task id path status spec_path milestone_id ;;
  (if clears_lease status then clear_task_lease id else mret tt) ;;
  insert_event None "task_status_changed" [("task_id", JStr id); ("status", JStr (as_str status))].

Definition record_task_status_with_origin (id path : string) (status : TaskStatus)
    (spec_path milestone_id : option string) : st world unit :=
  open_runtime_database ;; record_task_status_on_connection id path status spec_path milestone_id.

Definition record_task_status (id path : string) (status : TaskStatus) : st world unit :=
  record_task_status_with_origin id path status None None.

(** ** Submission *)
Record SubmissionCheckEvidence := CheckEvidence {
  ce_passed : bool;
  ce_commands_sha256 : option string }.

(** [UPDATE {owner_table} SET <the seven view columns> WHERE id = ?]: the row count. *)
Definition update_view_cols (owner_table id : string) (v : view_cols) : st world Z :=
  if bool_decide (owner_table = "tasks") then update_task id (λ t, t <| t_view := v |>)
  else update_run id (λ r, r <| r_view := v |>).

Definition update_repository_view_in_transaction (owner_table id : string) (view : RepositoryViewReference) :
    st world unit :=
  updated ← update_view_cols owner_table id (view_to_cols view);
  if bool_decide (updated = 0) then
    bail "Cannot record submitted repository view: {owner_table} row does not exist" [owner_table]
  else mret tt.

(** The guard [record_task_submitted] and [task_submitted_in_transaction] share. *)
Definition require_frozen (view : option RepositoryViewReference) : st world unit :=
  match view with
  | Some v =>
    lift_result (validate v) ;;
    ensure (bool_decide (lifecycle v = FrozenSubmitted)) "A submitted repository view must be frozen" []
  | None => mret tt
  end.

Definition task_submitted_in_transaction (id path : string) (run_id : option string)
    (frozen_view : option RepositoryViewReference) (freeze_failed : bool) (checks : SubmissionCheckEvidence) :
    st world unit :=
  require_frozen frozen_view ;;
  upsert_task id path Reviewing None None ;;
  clear_task_lease id ;;
  match frozen_view with
  | Some v =>
    update_repository_view_in_transaction "tasks" id v ;;
    match run_id with
    | Some r => update_repository_view_in_transaction "runs" r v
    | None => mret tt
    end ;;
    insert_event_in_transaction run_id "repository_view_frozen"
      [("task_id", JStr id); ("snapshot_id", jopt (id_as_str <$> view_snapshot_id v))]
  | None =>
    if freeze_failed
    then insert_event_in_transaction run_id "repository_view_freeze_failed" [("task_id", JStr id)]
    else mret tt
  end ;;
  cycles ← task_review_cycles id;
  insert_event_in_transaction run_id "submission_committed"
    [("task_id", JStr id); ("check_gate", JStr (if ce_passed checks then "passed" else "skipped"));
     ("check_commands_sha256", jopt (ce_commands_sha256 checks)); ("review_cycles", JNum cycles)] ;;
  insert_event_in_transaction run_id "task_status_changed"
    [("task_id", JStr id); ("status", JStr (as_str Reviewing))].

Definition record_task_submitted (id path : string) (run_id : option string)
    (frozen_view : option RepositoryViewReference) (freeze_failed : bool) (checks : SubmissionCheckEvidence) :
    st world unit :=
  require_frozen frozen_view ;;
  open_runtime_database ;;
  transaction (task_submitted_in_transaction id path run_id frozen_view freeze_failed checks).

(** ** Checks *)
Definition task_check_passed_in_transaction (id : string) : st world unit :=
  update_task id (λ t, t <| t_check_retries := 0 |> <| t_failure_reason := None |>) ;;
  insert_event None "task_check_passed" [("task_id", JStr id)].

Definition record_task_check_passed (id : string) : st world unit :=
  open_runtime_database ;; transaction (task_check_passed_in_transaction id).

Definition record_task_integration_failed (id : string) (run_id : option string) (reason : string) : st world unit :=
  open_runtime_database ;;
  update_task id (λ t, t <| t_failure_reason := Some reason |>) ;;
  insert_event run_id "task_integration_failed" [("task_id", JStr id); ("failure_reason", JStr reason)].

Definition record_task_integration_failed_best_effort (id : string) (run_id : option string) (reason : string) :
    st world unit :=
  best_effort (record_task_integration_failed id run_id reason) ;; mret tt.

Inductive TaskCheckFailure : Type :=
  | CheckFailed (retries : Z)
  | CheckLimitExceeded (retries : Z).

Definition check_limit_reason (max_retries : Z) (reason : string) : string :=
  ("Check failed " +:+ display_u32 max_retries +:+ " consecutive times. Last failure:" +:+
   String (ascii_of_N 10) reason)%string.

Definition task_check_failed_in_transaction (id reason : string) (max_retries : Z) : st world TaskCheckFailure :=
  n ← task_check_retries id;
  let retries := u32_add n 1 in
  if max_retries <=? retries then
    update_task id (λ t, no_lease (t <| t_status := as_str Failed |> <| t_check_retries := retries |>
                                     <| t_failure_reason := Some (check_limit_reason max_retries reason) |>)) ;;
    insert_event_in_transaction None "task_check_limit_exceeded"
      [("task_id", JStr id); ("retries", JNum retries); ("max_retries", JNum max_retries)] ;;
    mret (CheckLimitExceeded retries)
  else
    update_task id (λ t, t <| t_check_retries := retries |> <| t_failure_reason := Some reason |>) ;;
    insert_event_in_transaction None "task_check_failed"
      [("task_id", JStr id); ("retries", JNum retries); ("max_retries", JNum max_retries)] ;;
    mret (CheckFailed retries).

Definition record_task_check_failed (id reason : string) (max_retries : Z) : st world TaskCheckFailure :=
  open_runtime_database ;; transaction (task_check_failed_in_transaction id reason max_retries).

(** ** Reviews *)
Inductive TaskReviewRejection : Type :=
  | RejectAddressing (cycles : Z)
  | RejectLimitExceeded (cycles : Z).

Definition review_limit_reason (max_cycles : Z) : string :=
  ("Task rejected " +:+ display_u32 max_cycles +:+ " times without resolution.")%string.

Definition record_task_review_rejected_in_transaction (id : string) (max_cycles : Z) : st world TaskReviewRejection :=
  n ← task_review_cycles id;
  let cycles := u32_add n 1 in
  if max_cycles <=? cycles then
    update_task id (λ t, no_lease (t <| t_status := as_str Failed |> <| t_review_cycles := cycles |>
                                     <| t_failure_reason := Some (review_limit_reason max_cycles) |>)) ;;
    insert_event_in_transaction None "task_review_limit_exceeded"
      [("task_id", JStr id); ("review_cycles", JNum cycles); ("max_review_cycles", JNum max_cycles)] ;;
    mret (RejectLimitExceeded cycles)
  else
    update_task id (λ t, no_lease (t <| t_status := as_str Addressing |> <| t_review_cycles := cycles |>
                                     <| t_check_retries := 0 |> <| t_executor_dispatches := 0 |>
                                     <| t_failure_reason := None |>
                                     <| t_view := unfreeze_cols (t_view t) |>)) ;;
    insert_event_in_transaction None "task_rejected"
      [("task_id", JStr id); ("review_cycles", JNum cycles); ("max_review_cycles", JNum max_cycles)] ;;
    mret (RejectAddressing cycles).

Definition record_task_review_rejected (id : string) (max_cycles : Z) : st world TaskReviewRejection :=
  open_runtime_database ;; transaction (record_task_review_rejected_in_transaction id max_cycles).

(** ** Executor dispatch budget *)
Inductive ExecutorDispatchOutcome : Type :=
  | Proceed
  | DispatchLimitExceeded (dispatches : Z).

Definition dispatch_limit_reason (max_dispatches : Z) : string :=
  ("Executor was dispatched " +:+ display_u32 max_dispatches +:+
   " times in one work phase without reaching review.")%string.

Definition enforce_executor_dispatch_limit (id : string) (max_dispatches : Z) : st world ExecutorDispatchOutcome :=
  open_runtime_database ;;
  transaction (
    dispatches ← task_executor_dispatches id;
    if negb (bool_decide (max_dispatches = 0)) && (max_dispatches <=? dispatches) then
      update_task id (λ t, no_lease (t <| t_status := as_str Failed |>
                                       <| t_failure_reason := Some (dispatch_limit_reason max_dispatches) |>)) ;;
      insert_event_in_transaction None "task_executor_dispatch_limit_exceeded"
        [("task_id", JStr id); ("executor_dispatches", JNum dispatches);
         ("max_executor_dispatches", JNum max_dispatches)] ;;
      mret (DispatchLimitExceeded dispatches)
    else mret Proceed).

Definition record_executor_dispatch (id : string) : st world Z :=
  open_runtime_database ;;
  transaction (
    n ← task_executor_dispatches id;
    let dispatches := u32_add n 1 in
    update_task id (λ t, t <| t_executor_dispatches := dispatches |>) ;;
    insert_event_in_transaction None "task_executor_dispatched"
      [("task_id", JStr id); ("executor_dispatches", JNum dispatches)] ;;
    mret dispatches).

(** ** Every transition keeps the database well formed *)
Lemma preserves_record_task_status_on_connection id path s sp m :
  preserves wf (record_task_status_on_connection id path s sp m).
Proof. unfold record_task_status_on_connection. solve_wf. Qed.
Lemma preserves_record_task_status id path s sp m : preserves wf (record_task_status_with_origin id path s sp m).
Proof.
  apply preserves_bind; [apply preserves_open_runtime_database|intros _; apply preserves_record_task_status_on_connection].
Qed.

Lemma preserves_update_view_cols o id v :
  validate v = Ok tt → preserves wf (update_view_cols o id (view_to_cols v)).
Proof.
  intros Hv. unfold update_view_cols. case_bool_decide.
  - apply preserves_update_task. intros t []; split; [split; cbn; eauto with rows|cbn; auto].
  - apply preserves_update_run; [|done]. intros r []; split; cbn; eauto with rows.
Qed.
Lemma preserves_require_frozen v : preserves wf (require_frozen v).
Proof. unfold require_frozen. solve_wf. Qed.

Lemma require_frozen_Ok v w w' : require_frozen v w = (Ok tt, w') →
  w' = w ∧ (∀ u, v = Some u → validate u = Ok tt ∧ lifecycle u = FrozenSubmitted).
Proof.
  unfold require_frozen. destruct v as [u|]; [|by intros [= <-]].
  intros H. inv_bind H. match goal with H : lift_result _ _ = _ |- _ => injection H as H ->; rename H into Hu end.
  unfold ensure in H. case_bool_decide as Hl; [|done]. injection H as <-. split; [done|].
  intros u' [= <-]. split; [|done]. by destruct (validate u) as [[]|].
Qed.

Lemma preserves_task_submitted id path run view ff ce :
  preserves wf (task_submitted_in_transaction id path run view ff ce).
Proof.
  unfold task_submitted_in_transaction. apply (preserves_bind_post _ (λ _ _, ∀ u, view = Some u → validate u = Ok tt)).
  - apply preserves_require_frozen.
  - intros w [] w' _ H%require_frozen_Ok u Hu. by apply H.
  - intros _ w Hw Hv. revert w Hw.
    match goal with |- ∀ w, wf w → wf (?m w).2 => change (preserves wf m) end.
    destruct view as [u|]; [specialize (Hv u eq_refl)|clear Hv].
    + pose proof (λ o i, preserves_update_view_cols o i u Hv).
      unfold update_repository_view_in_transaction. solve_wf.
    + solve_wf.
Qed.
Lemma preserves_record_task_submitted id path run view ff ce :
  preserves wf (record_task_submitted id path run view ff ce).
Proof. pose proof preserves_require_frozen. pose proof preserves_task_submitted. unfold record_task_submitted. solve_wf. Qed.
Lemma preserves_check_passed id : preserves wf (record_task_check_passed id).
Proof. unfold record_task_check_passed, task_check_passed_in_transaction. solve_wf. Qed.
Lemma preserves_integration_failed id run reason : preserves wf (record_task_integration_failed id run reason).
Proof. unfold record_task_integration_failed. solve_wf. Qed.
Lemma u32_add_range a b : is_u32 (u32_add a b).
Proof. apply as_u32_range. Qed.
#[local] Hint Resolve u32_add_range : rows.
Lemma preserves_check_failed_in id reason max : preserves wf (task_check_failed_in_transaction id reason max).
Proof. unfold task_check_failed_in_transaction, task_check_retries. solve_wf. Qed.
Lemma preserves_check_failed id reason max : preserves wf (record_task_check_failed id reason max).
Proof. pose proof (preserves_check_failed_in id reason max). unfold record_task_check_failed. solve_wf. Qed.
Lemma preserves_review_rejected_in id max : preserves wf (record_task_review_rejected_in_transaction id max).
Proof. unfold record_task_review_rejected_in_transaction, task_review_cycles. solve_wf. Qed.
Lemma preserves_review_rejected id max : preserves wf (record_task_review_rejected id max).
Proof. pose proof (preserves_review_rejected_in id max). unfold record_task_review_rejected. solve_wf. Qed.
Lemma preserves_enforce_dispatch id max : preserves wf (enforce_executor_dispatch_limit id max).
Proof. unfold enforce_executor_dispatch_limit, task_executor_dispatches. solve_wf. Qed.
Lemma preserves_record_dispatch id : preserves wf (record_executor_dispatch id).
Proof. unfold record_executor_dispatch, task_executor_dispatches. solve_wf. Qed.
Lemma preserves_write_selection s : preserves wf (write_project_selection s).
Proof. unfold write_project_selection. solve_wf. Qed.
Lemma preserves_write_last p : preserves wf (write_last_spec_path p).
Proof. unfold write_last_spec_path. solve_wf. Qed.
Lemma preserves_clear_last : preserves wf clear_last_spec_path.
Proof. unfold clear_last_spec_path. solve_wf. Qed.
Lemma preserves_clear_last_archive : preserves wf clear_last_spec_archive_path.
Proof. unfold clear_last_spec_archive_path. solve_wf. Qed.
End task.
#[export] Hint Resolve preserves_record_task_submitted preserves_check_passed preserves_integration_failed
  preserves_check_failed_in preserves_check_failed preserves_review_rejected_in preserves_review_rejected
  preserves_enforce_dispatch preserves_record_dispatch preserves_write_selection preserves_write_last
  preserves_clear_last preserves_clear_last_archive : preserves.
#[export] Hint Resolve preserves_record_task_status_on_connection preserves_record_task_status
  preserves_require_frozen preserves_task_submitted : preserves.

(** ** Functional behaviour *)
Section behaviour.
Context {CH : Chrono}.

Lemma check_failed_run id reason max t w :
  schema_ready (w_db w) → d_tasks (w_db w) !! id = Some t →
  let n := u32_add (as_u32 (t_check_retries t)) 1 in
  record_task_check_failed id reason max w =
  if max <=? n then
    (Ok (CheckLimitExceeded n),
     add_event None "task_check_limit_exceeded" [("task_id", JStr id); ("retries", JNum n); ("max_retries", JNum max)]
       (set_task id (no_lease (t <| t_status := as_str Failed |> <| t_check_retries := n |>
                                 <| t_failure_reason := Some (check_limit_reason max reason) |>)) w))
  else
    (Ok (CheckFailed n),
     add_event None "task_check_failed" [("task_id", JStr id); ("retries", JNum n); ("max_retries", JNum max)]
       (set_task id (t <| t_check_retries := n |> <| t_failure_reason := Some reason |>) w)).
Proof.
  intros Hs Ht n. unfold record_task_check_failed, task_check_failed_in_transaction.
  destruct (max <=? n) eqn:E; exec; fold n; rewrite E; exec.
Qed.

Lemma check_passed_run id t w :
  schema_ready (w_db w) → d_tasks (w_db w) !! id = Some t →
  record_task_check_passed id w =
  (Ok tt, add_event None "task_check_passed" [("task_id", JStr id)]
            (set_task id (t <| t_check_retries := 0 |> <| t_failure_reason := None |>) w)).
Proof.
  intros Hs Ht. unfold record_task_check_passed, task_check_passed_in_transaction. exec.
Qed.

(** The row a rejected review leaves: back to [Addressing] with fresh budgets,
    the frozen tree dropped and the lease released. *)
Definition rejected_row (n : Z) (t : task_row) : task_row :=
  no_lease (t <| t_status := as_str Addressing |> <| t_review_cycles := n |> <| t_check_retries := 0 |>
              <| t_executor_dispatches := 0 |> <| t_failure_reason := None |>
              <| t_view := unfreeze_cols (t_view t) |>).
Definition review_failed_row (n max : Z) (t : task_row) : task_row :=
  no_lease (t <| t_status := as_str Failed |> <| t_review_cycles := n |>
              <| t_failure_reason := Some (review_limit_reason max) |>).
Definition review_payload (id : string) (n max : Z) : payload :=
  [("task_id", JStr id); ("review_cycles", JNum n); ("max_review_cycles", JNum max)].

Lemma review_rejected_in_transaction_run id max t w :
  d_tasks (w_db w) !! id = Some t →
  let n := u32_add (as_u32 (t_review_cycles t)) 1 in
  record_task_review_rejected_in_transaction id max w =
  if max <=? n then
    (Ok (RejectLimitExceeded n),
     add_event None "task_review_limit_exceeded" (review_payload id n max) (set_task id (review_failed_row n max t) w))
  else
    (Ok (RejectAddressing n),
     add_event None "task_rejected" (review_payload id n max) (set_task id (rejected_row n t) w)).
Proof.
  intros Ht n. unfold record_task_review_rejected_in_transaction.
  destruct (max <=? n) eqn:E; exec; fold n; rewrite E; exec.
Qed.
Lemma review_rejected_run id max t w :
  schema_ready (w_db w) → d_tasks (w_db w) !! id = Some t →
  let n := u32_add (as_u32 (t_review_cycles t)) 1 in
  record_task_review_rejected id max w =
  if max <=? n then
    (Ok (RejectLimitExceeded n),
     add_event None "task_review_limit_exceeded" (review_payload id n max) (set_task id (review_failed_row n max t) w))
  else
    (Ok (RejectAddressing n),
     add_event None "task_rejected" (review_payload id n max) (set_task id (rejected_row n t) w)).
Proof.
  intros Hs Ht n. unfold record_task_review_rejected. exec_step.
  pose proof (review_rejected_in_transaction_run id max t w Ht) as H. cbv zeta in H. fold n in H.
  destruct (max <=? n); by apply transaction_Ok.
Qed.

Lemma enforce_dispatch_run id max t w :
  schema_ready (w_db w) → d_tasks (w_db w) !! id = Some t →
  let n := as_u32 (t_executor_dispatches t) in
  enforce_executor_dispatch_limit id max w =
  if negb (bool_decide (max = 0)) && (max <=? n) then
    (Ok (DispatchLimitExceeded n),
     add_event None "task_executor_dispatch_limit_exceeded"
       [("task_id", JStr id); ("executor_dispatches", JNum n); ("max_executor_dispatches", JNum max)]
       (set_task id (no_lease (t <| t_status := as_str Failed |>
                                 <| t_failure_reason := Some (dispatch_limit_reason max) |>)) w))
  else (Ok Proceed, w).
Proof.
  intros Hs Ht n. unfold enforce_executor_dispatch_limit.
  destruct (negb (bool_decide (max = 0)) && (max <=? n)) eqn:E; exec; fold n; rewrite E; exec.
Qed.

Lemma record_dispatch_run id t w :
  schema_ready (w_db w) → d_tasks (w_db w) !! id = Some t →
  let n := u32_add (as_u32 (t_executor_dispatches t)) 1 in
  record_executor_dispatch id w =
  (Ok n, add_event None "task_executor_dispatched" [("task_id", JStr id); ("executor_dispatches", JNum n)]
           (set_task id (t <| t_executor_dispatches := n |>) w)).
Proof. intros Hs Ht n. unfold record_executor_dispatch. exec. Qed.

(** ** Check retries *)

(** A series of failed checks, one reason each. *)
Definition check_failures (id : string) (max : Z) (reasons : list string) : st world (list TaskCheckFailure) :=
  mapM (λ r, record_task_check_failed id r max) reasons.

Definition check_failure_outcome (max n : Z) : TaskCheckFailure :=
  if max <=? n then CheckLimitExceeded n else CheckFailed n.

Lemma mapM_cons {A B} (f : A → st world B) x l w b bs w1 w2 :
  f x w = (Ok b, w1) → mapM f l w1 = (Ok bs, w2) → mapM f (x :: l) w = (Ok (b :: bs), w2).
Proof. intros H1 H2. simpl. eapply bind_eq; [exact H1|]. by eapply bind_eq; [exact H2|]. Qed.

Lemma mapM_app_run {A B} (f : A → st world B) l1 l2 w :
  mapM f (l1 ++ l2)%list w = (b1 ← mapM f l1; b2 ← mapM f l2; mret (b1 ++ b2)%list) w.
Proof.
  revert w. induction l1 as [|x l1 IH]; intros w.
  { simpl. unfold mret, st_ret, mbind, st_bind. by destruct (mapM f l2 w) as [[]]. }
  simpl. unfold mbind, st_bind. destruct (f x w) as [[b|e] w1]; [|done].
  rewrite IH. unfold mbind, st_bind. destruct (mapM f l1 w1) as [[b1|e] w2]; [|done].
  simpl. by destruct (mapM f l2 w2) as [[]].
Qed.

Lemma check_failures_below id max reasons t w :
  schema_ready (w_db w) → d_tasks (w_db w) !! id = Some t →
  0 ≤ t_check_retries t → t_check_retries t + Z.of_nat (length reasons) < max → max < u32_modulus →
  ∃ w' t', check_failures id max reasons w
             = (Ok (CheckFailed <$> seqZ (t_check_retries t + 1) (Z.of_nat (length reasons))), w') ∧
    schema_ready (w_db w') ∧ d_tasks (w_db w') !! id = Some t' ∧
    t_check_retries t' = t_check_retries t + Z.of_nat (length reasons) ∧
    t_status t' = t_status t ∧ t_claimed_by t' = t_claimed_by t ∧ t_lease_until t' = t_lease_until t.
Proof.
  revert t w. induction reasons as [|r reasons IH]; intros t w Hs Ht H0 Hm Hu.
  { exists w, t. simpl. split_and!; try done. simpl. lia. }
  simpl length in *. assert (as_u32 (t_check_retries t) = t_check_retries t) as Ea by (apply as_u32_id; unfold is_u32; lia).
  assert (u32_add (t_check_retries t) 1 = t_check_retries t + 1) as En by (apply u32_add_small; lia).
  pose proof (check_failed_run id r max t w Hs Ht) as H1. cbv zeta in H1. rewrite Ea, En in H1.
  destruct (Z.leb_spec max (t_check_retries t + 1)); [lia|].
  match type of H1 with _ = (_, add_event _ _ _ (set_task _ ?t1 _)) => set (t1' := t1) in * end.
  match type of H1 with _ = (_, ?w1) => set (w1' := w1) in * end.
  destruct (IH t1' w1') as (w' & t' & H2 & Hs' & Ht' & Hr & Hrest).
  - by apply add_event_schema, set_task_schema.
  - unfold w1'. world_lookup.
  - simpl. lia.
  - simpl. lia.
  - done.
  - exists w', t'. simpl in Hr. split; [|split_and!; try done; [lia|apply Hrest..]].
    rewrite seqZ_cons, fmap_cons by lia. eapply mapM_cons; [exact H1|].
    unfold check_failures in H2. rewrite H2. simpl t_check_retries. do 4 f_equal; lia.
Qed.

(** A task that keeps failing its checks gets exactly [max] attempts: each
    of the first [max - 1] failures is counted and leaves the status and the
    lease alone, and the failure number [max] moves the task to [Failed],
    records why, and releases the lease. *)
Theorem check_retry_limit id max reasons last t w :
  schema_ready (w_db w) → d_tasks (w_db w) !! id = Some t → t_check_retries t = 0 →
  Z.of_nat (length reasons) + 1 = max → max < u32_modulus →
  ∃ w' t', check_failures id max (reasons ++ [last])%list w
      = (Ok ((CheckFailed <$> seqZ 1 (max - 1)) ++ [CheckLimitExceeded max])%list, w') ∧
    d_tasks (w_db w') !! id = Some t' ∧
    t_status t' = as_str Failed ∧ t_check_retries t' = max ∧
    t_failure_reason t' = Some (check_limit_reason max last) ∧
    t_claimed_by t' = None ∧ t_lease_until t' = None.
Proof.
  intros Hs Ht H0 Hm Hu.
  destruct (check_failures_below id max reasons t w) as (w1 & t1 & H1 & Hs1 & Ht1 & Hr1 & _); [done|done|lia..|].
  pose proof (check_failed_run id last max t1 w1 Hs1 Ht1) as H2. cbv zeta in H2.
  rewrite as_u32_id in H2 by (unfold is_u32; lia). rewrite u32_add_small in H2 by lia.
  destruct (Z.leb_spec max (t_check_retries t1 + 1)); [|lia].
  rewrite H0 in *. rewrite Hr1 in H2. replace (0 + Z.of_nat (length reasons) + 1) with max in H2 by lia.
  eexists _, _. split_and!.
  - unfold check_failures. rewrite mapM_app_run. eapply bind_eq; [exact H1|].
    eapply bind_eq; [eapply mapM_cons; [exact H2|reflexivity]|].
    replace (max - 1) with (Z.of_nat (length reasons)) by lia. reflexivity.
  - world_lookup.
  - done.
  - done.
  - done.
  - done.
  - done.
Qed.

(** ** Reviews *)

(** A rejection below the limit starts a new work phase: the task is back
    in [Addressing] with one more review cycle, its check and dispatch budgets
    are full again, its lease is released, and its repository view is the
    mutable successor of the submitted one; nothing else changes. *)
Theorem review_rejection_restarts_work id max t v w :
  schema_ready (w_db w) → d_tasks (w_db w) !! id = Some t →
  repository_view_reference_from_database (t_view t) = Ok v →
  0 ≤ t_review_cycles t → t_review_cycles t + 1 < max → max < u32_modulus →
  ∃ w' t', record_task_review_rejected id max w = (Ok (RejectAddressing (t_review_cycles t + 1)), w') ∧
    d_tasks (w_db w') = <[id := t']> (d_tasks (w_db w)) ∧ d_runs (w_db w') = d_runs (w_db w) ∧
    t_status t' = as_str Addressing ∧ t_review_cycles t' = t_review_cycles t + 1 ∧
    t_check_retries t' = 0 ∧ t_executor_dispatches t' = 0 ∧
    t_claimed_by t' = None ∧ t_lease_until t' = None ∧
    repository_view_reference_from_database (t_view t') = Ok (mutable_successor v).
Proof.
  intros Hs Ht Hv H0 Hm Hu. pose proof (review_rejected_run id max t w Hs Ht) as H. cbv zeta in H.
  rewrite as_u32_id, u32_add_small in H by (unfold is_u32; lia).
  destruct (Z.leb_spec max (t_review_cycles t + 1)); [lia|].
  eexists _, _. split_and!; [exact H|by autorewrite with world|by autorewrite with world|done..|].
  simpl. apply view_to_from_cols in Hv as [<- Hok]. rewrite unfreeze_to_cols.
  by apply view_from_to_cols, view_mutable_successor_valid.
Qed.

(** ** Dispatch budget *)

(** One dispatch as the scheduler performs it: gate, then account for the
    session that started. *)
Definition dispatch_once (id : string) (max : Z) : st world bool :=
  o ← enforce_executor_dispatch_limit id max;
  match o with
  | Proceed => record_executor_dispatch id ;; mret true
  | DispatchLimitExceeded _ => mret false
  end.
Definition dispatch_rounds (id : string) (max : Z) (n : nat) : st world (list bool) :=
  mapM (λ _, dispatch_once id max) (replicate n tt).

Lemma dispatch_once_within id max t w :
  schema_ready (w_db w) → d_tasks (w_db w) !! id = Some t →
  0 ≤ t_executor_dispatches t → t_executor_dispatches t < max ∨ max = 0 →
  t_executor_dispatches t + 1 < u32_modulus →
  ∃ w', dispatch_once id max w = (Ok true, w') ∧ schema_ready (w_db w') ∧
    d_tasks (w_db w') !! id = Some (t <| t_executor_dispatches := t_executor_dispatches t + 1 |>).
Proof.
  intros Hs Ht H0 Hm Hu. pose proof (enforce_dispatch_run id max t w Hs Ht) as H1.
  pose proof (record_dispatch_run id t w Hs Ht) as H2. cbv zeta in H1, H2.
  rewrite as_u32_id in H1, H2 by (unfold is_u32; lia). rewrite u32_add_small in H2 by lia.
  assert (negb (bool_decide (max = 0)) && (max <=? t_executor_dispatches t) = false) as E.
  { case_bool_decide; simpl; [done|]. apply Z.leb_gt. lia. }
  rewrite E in H1. eexists. split_and!.
  - unfold dispatch_once. eapply bind_eq; [exact H1|]. by eapply bind_eq; [exact H2|].
  - auto with exec nocore.
  - world_lookup.
Qed.

Lemma dispatch_rounds_within id max n t w :
  schema_ready (w_db w) → d_tasks (w_db w) !! id = Some t → 0 ≤ t_executor_dispatches t →
  t_executor_dispatches t + Z.of_nat n ≤ max ∨ max = 0 →
  t_executor_dispatches t + Z.of_nat n < u32_modulus →
  ∃ w', dispatch_rounds id max n w = (Ok (replicate n true), w') ∧ schema_ready (w_db w') ∧
    d_tasks (w_db w') !! id = Some (t <| t_executor_dispatches := t_executor_dispatches t + Z.of_nat n |>).
Proof.
  revert t w. induction n as [|n IH]; intros t w Hs Ht H0 Hm Hu.
  { exists w. split_and!; [done|done|]. rewrite Ht. destruct t; simpl. by rewrite Z.add_0_r. }
  destruct (dispatch_once_within id max t w) as (w1 & H1 & Hs1 & Ht1); [done|done|done|lia|lia|].
  edestruct (IH _ w1 Hs1 Ht1) as (w' & H2 & Hs2 & Ht2); [simpl; lia..|].
  exists w'. split_and!; [by eapply mapM_cons|done|]. rewrite Ht2. simpl. do 2 f_equal. lia.
Qed.

(** The dispatch budget of a work phase is exact: with a limit [max > 0]
    the first [max] dispatches go ahead and the next attempt fails the task and
    releases its lease; with [max = 0] any number of dispatches goes ahead. *)
Theorem dispatch_budget id max n t w :
  schema_ready (w_db w) → d_tasks (w_db w) !! id = Some t → t_executor_dispatches t = 0 →
  0 ≤ max → max < u32_modulus → Z.of_nat n < u32_modulus →
  (max = 0 → ∃ w', dispatch_rounds id max n w = (Ok (replicate n true), w')) ∧
  (0 < max → ∃ w' t', dispatch_rounds id max (S (Z.to_nat max)) w
       = (Ok (replicate (Z.to_nat max) true ++ [false])%list, w') ∧
     d_tasks (w_db w') !! id = Some t' ∧ t_status t' = as_str Failed ∧
     t_claimed_by t' = None ∧ t_lease_until t' = None).
Proof.
  intros Hs Ht H0 Hm0 Hm Hn. split.
  - intros ->. destruct (dispatch_rounds_within id 0 n t w) as (w' & H & _); [done|done|lia|auto|lia|]. eauto.
  - intros Hp. destruct (dispatch_rounds_within id max (Z.to_nat max) t w) as (w1 & H1 & Hs1 & Ht1); [done|done|lia..|].
    pose proof (enforce_dispatch_run id max _ w1 Hs1 Ht1) as H2. cbv zeta in H2. simpl in H2.
    rewrite H0, as_u32_id in H2 by (unfold is_u32; lia).
    assert (negb (bool_decide (max = 0)) && (max <=? 0 + Z.of_nat (Z.to_nat max)) = true) as E.
    { rewrite bool_decide_eq_false_2 by lia. simpl. apply Z.leb_le. lia. }
    rewrite E in H2. eexists _, _. split_and!.
    + unfold dispatch_rounds. rewrite replicate_S_end, mapM_app_run. eapply bind_eq; [exact H1|].
      eapply bind_eq; [|reflexivity]. eapply mapM_cons; [|reflexivity].
      unfold dispatch_once. by eapply bind_eq; [exact H2|].
    + world_lookup.
    + done.
    + done.
    + done.
Qed.

(** ** Submission *)
Lemma update_repository_view_task_run id v t w :
  d_tasks (w_db w) !! id = Some t →
  update_repository_view_in_transaction "tasks" id v w = (Ok tt, set_task id (t <| t_view := view_to_cols v |>) w).
Proof.
  intros Ht. unfold update_repository_view_in_transaction, update_view_cols. simpl.
  by eapply bind_eq; [apply (update_task_run _ _ _ _ Ht)|].
Qed.
Lemma update_repository_view_run_run id v r w :
  d_runs (w_db w) !! id = Some r →
  update_repository_view_in_transaction "runs" id v w = (Ok tt, set_run id (r <| r_view := view_to_cols v |>) w).
Proof.
  intros Hr. unfold update_repository_view_in_transaction, update_view_cols. simpl.
  by eapply bind_eq; [apply (update_run_run _ _ _ _ Hr)|].
Qed.
Lemma update_repository_view_no_run id v w :
  d_runs (w_db w) !! id = None →
  update_repository_view_in_transaction "runs" id v w =
  (Err (Bail "Cannot record submitted repository view: {owner_table} row does not exist" ["runs"]), w).
Proof.
  intros Hr. unfold update_repository_view_in_transaction, update_view_cols, update_run, select_run, gets.
  simpl. unfold mbind, st_bind. by rewrite Hr.
Qed.
Lemma require_frozen_run v w :
  validate v = Ok tt → lifecycle v = FrozenSubmitted → require_frozen (Some v) w = (Ok tt, w).
Proof.
  intros Hv Hl. unfold require_frozen, lift_result. eapply bind_eq; [by rewrite Hv|].
  apply ensure_true. by apply bool_decide_eq_true.
Qed.
#[local] Hint Resolve update_repository_view_task_run update_repository_view_run_run require_frozen_run : exec.

(** Submitting with a frozen view is all or nothing. When the run exists,
    the task is in review without a lease and both the task and the run read
    back exactly the submitted view; when it does not, the submission fails
    and the database is unchanged. *)
Theorem submission_all_or_nothing id path rid v ff ce w :
  schema_ready (w_db w) → validate v = Ok tt → lifecycle v = FrozenSubmitted →
  match d_runs (w_db w) !! rid with
  | Some r => ∃ w' t' r', record_task_submitted id path (Some rid) (Some v) ff ce w = (Ok tt, w') ∧
      d_tasks (w_db w') = <[id := t']> (d_tasks (w_db w)) ∧ d_runs (w_db w') = <[rid := r']> (d_runs (w_db w)) ∧
      t_status t' = as_str Reviewing ∧ t_claimed_by t' = None ∧ t_lease_until t' = None ∧
      r_task_id r' = r_task_id r ∧
      repository_view_reference_from_database (t_view t') = Ok v ∧
      repository_view_reference_from_database (r_view r') = Ok v
  | None => ∃ e w', record_task_submitted id path (Some rid) (Some v) ff ce w = (Err e, w') ∧ w_db w' = w_db w
  end.
Proof.
  intros Hs Hv Hl. destruct (d_runs (w_db w) !! rid) as [r|] eqn:Hr.
  - eexists _, _, _. split_and!.
    + unfold record_task_submitted, task_submitted_in_transaction. exec. eapply bind_eq; [by exec|]. by exec.
    + autorewrite with world. by rewrite !insert_insert_eq.
    + by autorewrite with world.
    + by destruct (d_tasks (w_db w) !! id).
    + by destruct (d_tasks (w_db w) !! id).
    + by destruct (d_tasks (w_db w) !! id).
    + done.
    + by apply view_from_to_cols.
    + by apply view_from_to_cols.
  - unfold record_task_submitted, task_submitted_in_transaction. eexists _, _. split.
    + exec. eapply transaction_Err. exec. unfold mbind at 1, st_bind at 1.
      eapply bind_Err. left. eapply bind_Err. right. eexists _, _. split; [apply update_repository_view_task_run; world_lookup|].
      eapply bind_Err. left. apply update_repository_view_no_run. by autorewrite with world.
    + done.
Qed.

(** ** Selection and legacy metadata *)
Lemma history_prefix_same k w w' : same_schema w w' → history_prefix k (w_db w) → history_prefix k (w_db w').
Proof. unfold history_prefix. intros (-> & -> & ->). done. Qed.

Lemma write_last_spec_path_run path w : ∃ w' p, write_last_spec_path_to_database path w = (Ok tt, w') ∧
  same_data w w' ∧ same_schema w w' ∧ d_prs (w_db w') = Some p ∧ p_last_spec_path p = normalized_metadata_value path.
Proof.
  destruct (ensure_prs_run w) as (w1 & p & H1 & Hd & Hs & Hp). unfold write_last_spec_path_to_database.
  rewrite (bind_run _ _ _ _ _ H1), (bind_run _ _ _ _ _ (timestamp_eq w1)).
  rewrite (bind_run _ _ _ _ _ (update_prs_run _ (tick w1) p ltac:(by rewrite tick_db))).
  eexists _, _. split_and!; [reflexivity| | |reflexivity|done].
  - etransitivity; [exact Hd|]. split; simpl; by rewrite ?tick_db, ?tick_files.
  - unfold same_schema in *. simpl. by rewrite tick_db.
Qed.

(** On an installation that still has the legacy [runtime_metadata] table,
    clearing the last spec path does not last: the next open imports the
    legacy value again, so a read after the clear returns it. *)
Theorem cleared_spec_path_returns v cs w :
  history_prefix 4 (w_db w) → d_columns (w_db w) !! "runtime_metadata" = Some cs →
  d_metadata (w_db w) !! "last_spec_path" = Some (Some v) → trim v ≠ "" →
  ∃ w1 w2, clear_last_spec_path w = (Ok tt, w1) ∧ read_last_spec_path w1 = (Ok (Some (trim v)), w2).
Proof.
  intros Hh Hc Hv Hne. destruct (migrate_legacy_run w) as (w0 & H0 & Hd0 & Hs0).
  destruct (write_last_spec_path_run None w0) as (w1 & p & H1 & Hd1 & Hs1 & Hp & Hlast).
  assert (history_prefix 4 (w_db w1)) as Hh1 by by eapply history_prefix_same, history_prefix_same.
  assert (d_columns (w_db w1) !! "runtime_metadata" = Some cs) as Hc1 by (destruct Hs0 as [Hs0 _], Hs1 as [-> _]; by rewrite Hs0).
  assert (legacy_value "last_spec_path" (w_db w1) = Some (trim v)) as Hl1.
  { unfold legacy_value. rewrite (sd_metadata _ _ Hd1), (sd_metadata _ _ Hd0), Hv. simpl.
    by destruct (trim v). }
  assert (stored_last (w_db w1) = None) as Hst by (unfold stored_last; by rewrite Hp; simpl; rewrite Hlast).
  destruct (migrate_legacy_run w1) as (w2 & H2 & _). pose proof (migrate_legacy_last _ _ _ Hc1 H2) as Hw2.
  rewrite Hst, Hl1 in Hw2. exists w1, w2. split.
  - unfold clear_last_spec_path. rewrite (bind_run _ _ w tt w0); [exact H1|]. by rewrite open_current.
  - unfold read_last_spec_path. rewrite (bind_run _ _ w1 tt w2); [|by rewrite open_current].
    unfold read_last_spec_path_from_database. eapply bind_eq; [reflexivity|]. unfold stored_last in Hw2.
    by rewrite Hw2.
Qed.
End behaviour.
