(* ===== verification/Session.v ===== *)
(** Managed sessions ([src/src/project/claims/session.rs] and the supervisor
    half in [src/src/project/claims.rs]): an operation of a native agent runs
    in one transaction behind the fence that its run is the exact active run
    it was launched as. *)
From S2P Require Import Prelude Status View Chrono Database WellFormed Schema Exec Store Claims Runs Task.

#[global] Instance db_eq_dec : EqDecision db.
Proof. solve_decision. Defined.

(** The scope's [database_path] is the database of the world. *)
Record ExecutorSessionScope := Scope {
  agent_id : string;
  task_id : string;
  run_id : string;
  workspace_path : string }.

Section session.
Context {CH : Chrono} {ENV : Env}.

(** ** The fence *)
Definition executor_context_in_transaction (scope : ExecutorSessionScope) (role : string) : st world RuntimeTaskContext :=
  r ← select_run (run_id scope);
  match r with
  | None => bail "Bound run is missing" []
  | Some r =>
    ensure (bool_decide (r_task_id r = task_id scope)) "Run task binding mismatch" [] ;;
    ensure (bool_decide (r_agent r = agent_id scope)) "Run agent binding mismatch" [] ;;
    ensure (bool_decide (r_role r = role)) "Run role mismatch" [] ;;
    ensure (bool_decide (r_status r = "running") || bool_decide (r_status r = "checking")) "Bound run is no longer active" [] ;;
    (if is_absolute (r_workspace_path r) then
       match canonicalize (r_workspace_path r) with
       | None => bail "canonicalize" [r_workspace_path r]
       | Some p => ensure (bool_decide (p = workspace_path scope)) "Run workspace binding mismatch" []
       end
     else bail "Run workspace binding mismatch" []) ;;
    t ← select_task (task_id scope);
    match t with
    | None => bail "Bound task is missing" []
    | Some t =>
      view ← lift_result (repository_view_reference_from_database (t_view t));
      let context := context_of (task_id scope) t (Some (run_id scope)) (Some (r_role r))
                       (Some (r_workspace_path r)) (Some (r_workspace_path r)) view in
      if bool_decide (role = "supervisor")
         && (bool_decide (t_status t = "reviewing") || bool_decide (t_status t = "awaiting_human")) then
        view ← lift_result (repository_view_reference_from_database (r_view r));
        mret (context <| ctx_repository_view := view |>)
      else mret context
    end
  end.

(** A connection opened read-only refuses a statement that writes. *)
Definition read_only {A} (m : st world A) : st world A := λ w,
  match m w with
  | (Ok a, w') => if bool_decide (w_db w' = w_db w) then (Ok a, w')
                  else (Err (SqlConstraint "attempt to write a readonly database"), w')
  | r => r
  end.

Definition with_role_session {T} (scope : ExecutorSessionScope) (write : bool) (role : string)
    (operation : ExecutorSessionScope → RuntimeTaskContext → st world T) : st world T :=
  transaction (
    validate_runtime_migration_history ;;
    v ← runtime_schema_version;
    ensure (bool_decide (v = RUNTIME_SCHEMA_VERSION)) "Managed session requires the current runtime schema" [] ;;
    context ← executor_context_in_transaction scope role;
    if write then operation scope context else read_only (operation scope context)).

Definition with_executor_session {T} (scope : ExecutorSessionScope) (write : bool)
    (operation : ExecutorSessionScope → RuntimeTaskContext → st world T) : st world T :=
  with_role_session scope write "executor" operation.
Definition with_supervisor_session {T} (scope : ExecutorSessionScope) (write : bool)
    (operation : ExecutorSessionScope → RuntimeTaskContext → st world T) : st world T :=
  with_role_session scope write "supervisor" operation.

(** The agent holds a lease that has not run out. *)
Definition require_executor_owner (scope : ExecutorSessionScope) : st world unit :=
  c ← task_candidate_by_id (task_id scope);
  match c with
  | None => bail "Bound task is missing" []
  | Some c =>
    ensure (opt_is (rc_claimed_by c) (agent_id scope)) "Executor lease lost" [] ;;
    match parse_lease_until (rc_lease_until c) with
    | None => bail "Executor lease expired" []
    | Some until =>
      now ← utc_now;
      ensure (now <? until) "Executor lease expired" []
    end
  end.

Definition executor_event (scope : ExecutorSessionScope) (kind : string) (p : payload) : st world unit :=
  insert_event_in_transaction (Some (run_id scope)) kind p.

(** ** Executor sessions *)
Definition work_phase (s : option string) : bool := opt_is s "executing" || opt_is s "addressing".

Definition claim_executor_session (scope : ExecutorSessionScope) (ttl : Z) : st world ReadyTaskClaim :=
  with_executor_session scope true (λ scope context,
    owned ← (if bool_decide (ctx_status context = as_str AwaitingHuman) then
               t ← select_task (task_id scope);
               match t with
               | None => fail (SqlConstraint "Query returned no rows")
               | Some t =>
                 mret (opt_is (t_awaiting_human_by t) (agent_id scope)
                       && work_phase (t_awaiting_human_status t ∪ ctx_paused_status context))
               end
             else mret true);
    if negb owned then mret NoAvailable
    else if bool_decide (ctx_status context = as_str Consultation) && negb (work_phase (ctx_paused_status context))
    then mret NoAvailable
    else claim_ready_task_in_transaction (task_id scope) (agent_id scope) ttl
           [Pending; Executing; Addressing; AwaitingHuman; Consultation] true).

Definition executor_session_status (scope : ExecutorSessionScope) : st world RuntimeTaskContext :=
  with_executor_session scope false (λ _ context, mret context).

Definition renew_executor_session_lease (scope : ExecutorSessionScope) (ttl : Z) : st world LeaseRenewal :=
  with_executor_session scope true (λ scope _,
    c ← task_candidate_by_id (task_id scope);
    match c with
    | None => bail "Bound task is missing" []
    | Some c =>
      if negb (opt_is (rc_claimed_by c) (agent_id scope)) then mret NotClaimed
      else
        ensure (bool_decide (rc_status c = "executing") || bool_decide (rc_status c = "addressing")
                || bool_decide (rc_status c = "consultation") || bool_decide (rc_status c = "awaiting_human"))
          "Bound task is outside the Executor work phase" [] ;;
        renewed ← renew_task_lease_in_transaction (task_id scope) (agent_id scope) ttl (rc_lease_until c);
        match renewed with
        | None => mret Expired
        | Some until => mret (Renewed (rc_id c) (rc_path c) (agent_id scope) until)
        end
    end).

(** ** Supervisor sessions *)
Definition supervisor_phase (reviewer : bool) : string := if reviewer then "reviewing" else "consultation".

Definition start_supervisor_session (scope : ExecutorSessionScope) (reviewer : bool) (ttl : Z) : st world unit :=
  with_supervisor_session scope true (λ scope context,
    d ← get_db;
    ensure (negb (supervised_by_other d (task_id scope) (run_id scope))) "Another Supervisor run is attached to this task" [] ;;
    (if bool_decide (ctx_status context = "awaiting_human") then
       t ← select_task (task_id scope);
       match t with
       | None => fail (SqlConstraint "Query returned no rows")
       | Some t =>
         ensure (opt_is (t_awaiting_human_by t) (agent_id scope)
                 && opt_is (t_awaiting_human_status t) (supervisor_phase reviewer)) "Human waiter binding mismatch" []
       end
     else ensure (bool_decide (ctx_status context = supervisor_phase reviewer)) "Supervisor task phase mismatch" []) ;;
    if reviewer then
      claim ← claim_ready_task_in_transaction (task_id scope) (agent_id scope) ttl [Reviewing; AwaitingHuman] false;
      match claim with
      | NoAvailable => bail "Reviewer lease unavailable" []
      | AlreadyClaimed lease =>
        renewed ← renew_task_lease_in_transaction (task_id scope) (agent_id scope) ttl
                    (Some (rfc3339_full (tl_lease_until lease)));
        ensure (some renewed) "Inherited Reviewer lease expired" []
      | Claimed _ => mret tt
      end
    else
      workspace ← latest_executor_workspace_for_task (task_id scope);
      match workspace with
      | None => bail "Missing consultation Executor workspace" []
      | Some ws =>
        match canonicalize ws with
        | None => bail "canonicalize" [ws]
        | Some p => ensure (bool_decide (p = workspace_path scope)) "Consultant workspace mismatch" []
        end
      end).

Definition require_supervisor_review (scope : ExecutorSessionScope) (context : RuntimeTaskContext)
    (expected_tree : option Digest) : st world unit :=
  require_executor_owner scope ;;
  ensure (bool_decide (ctx_status context = "reviewing") && some expected_tree
          && bool_decide (frozen_source_tree (ctx_repository_view context) = expected_tree))
    "Native review binding changed before decision" [] ;;
  t ← select_task (task_id scope);
  match t with
  | None => fail (SqlConstraint "Query returned no rows")
  | Some t =>
    ensure (bool_decide (c_tree_digest (t_view t) = value <$> expected_tree)) "Review submission changed before decision" []
  end.

(** [publish_review] is the caller's callback: it writes the review artifact. *)
Definition reject_supervisor_session (scope : ExecutorSessionScope) (expected_tree : option Digest) (max_cycles : Z)
    (publish_review : RuntimeTaskContext → st world unit) : st world TaskReviewRejection :=
  with_supervisor_session scope true (λ scope context,
    require_supervisor_review scope context expected_tree ;;
    rejection ← record_task_review_rejected_in_transaction (task_id scope) max_cycles;
    publish_review context ;;
    mret rejection).

Definition renew_supervisor_session (scope : ExecutorSessionScope) (ttl : Z) : st world bool :=
  with_supervisor_session scope true (λ scope context,
    if negb (bool_decide (ctx_status context = "reviewing") || bool_decide (ctx_status context = "awaiting_human"))
    then mret false
    else
      require_executor_owner scope ;;
      t ← select_task (task_id scope);
      match t with
      | None => fail (SqlConstraint "Query returned no rows")
      | Some t =>
        renewed ← renew_task_lease_in_transaction (task_id scope) (agent_id scope) ttl (t_lease_until t);
        mret (some renewed)
      end).

(** ** Invariant *)
Lemma preserves_executor_context scope role : preserves wf (executor_context_in_transaction scope role).
Proof. unfold executor_context_in_transaction. solve_wf. Qed.
#[local] Hint Resolve preserves_executor_context preserves_validate preserves_runtime_schema_version : preserves.

Lemma preserves_read_only {A} (m : st world A) : preserves wf m → preserves wf (read_only m).
Proof.
  intros Hm w Hw. specialize (Hm w Hw). unfold read_only. destruct (m w) as [[a|e] w']; [|done]. by case_bool_decide.
Qed.
Lemma preserves_with_role_session {T} scope write role (op : ExecutorSessionScope → RuntimeTaskContext → st world T) :
  (∀ c, preserves wf (op scope c)) → preserves wf (with_role_session scope write role op).
Proof. intros Hop. unfold with_role_session. solve_wf. by apply preserves_read_only. Qed.
Lemma preserves_require_owner scope : preserves wf (require_executor_owner scope).
Proof. unfold require_executor_owner, task_candidate_by_id. solve_wf. Qed.
#[local] Hint Resolve preserves_require_owner : preserves.
Lemma preserves_claim_executor_session scope ttl : preserves wf (claim_executor_session scope ttl).
Proof. apply preserves_with_role_session. intros c. solve_wf. Qed.
Lemma preserves_executor_session_status scope : preserves wf (executor_session_status scope).
Proof. apply preserves_with_role_session. intros c. solve_wf. Qed.
Lemma preserves_renew_executor_session scope ttl : preserves wf (renew_executor_session_lease scope ttl).
Proof. apply preserves_with_role_session. intros c. unfold task_candidate_by_id. solve_wf. Qed.
Lemma preserves_start_supervisor_session scope b ttl : preserves wf (start_supervisor_session scope b ttl).
Proof. apply preserves_with_role_session. intros c. solve_wf. Qed.
Lemma preserves_reject_supervisor_session scope tree max p :
  (∀ c, preserves wf (p c)) → preserves wf (reject_supervisor_session scope tree max p).
Proof. intros Hp. apply preserves_with_role_session. intros c. unfold require_supervisor_review. solve_wf. Qed.
Lemma preserves_renew_supervisor_session scope ttl : preserves wf (renew_supervisor_session scope ttl).
Proof. apply preserves_with_role_session. intros c. solve_wf. Qed.
End session.
#[export] Hint Resolve preserves_claim_executor_session preserves_executor_session_status preserves_renew_executor_session
  preserves_start_supervisor_session preserves_reject_supervisor_session preserves_renew_supervisor_session : preserves.

(** ** Behaviour *)
Section behaviour.
Context {CH : Chrono} {ENV : Env}.

(** What the fence checks: the scope's run is an active run of that task, agent
    and role in that workspace. *)
Definition session_bound (scope : ExecutorSessionScope) (role : string) (d : db) (r : run_row) : Prop :=
  d_runs d !! run_id scope = Some r ∧ r_task_id r = task_id scope ∧ r_agent r = agent_id scope ∧ r_role r = role ∧
  (r_status r = "running" ∨ r_status r = "checking") ∧ is_absolute (r_workspace_path r) = true ∧
  canonicalize (r_workspace_path r) = Some (workspace_path scope).

Lemma ensure_Ok {S} b fmt args (w : S) u w' : ensure b fmt args w = (Ok u, w') → b = true ∧ w' = w.
Proof. unfold ensure. destruct b; [|done]. by intros [= _ <-]. Qed.
Lemma bind_ensure {S A} b fmt args (k : unit → st S A) w a w' :
  (ensure b fmt args ≫= k) w = (Ok a, w') → b = true ∧ k tt w = (Ok a, w').
Proof. intros H. apply bind_Ok in H as ([] & w1 & [Hb ->]%ensure_Ok & H). done. Qed.
Lemma bind_lift {S A B} (r : result A) (k : A → st S B) w b w' :
  (lift_result r ≫= k) w = (Ok b, w') → ∃ a, r = Ok a ∧ k a w = (Ok b, w').
Proof. intros H. apply bind_Ok in H as (a & w1 & Hr & H). injection Hr as Hr <-. eauto. Qed.

Lemma executor_context_Ok scope role c w w' :
  executor_context_in_transaction scope role w = (Ok c, w') →
  w' = w ∧ ∃ r t view, session_bound scope role (w_db w) r ∧ d_tasks (w_db w) !! task_id scope = Some t ∧
    c = context_of (task_id scope) t (Some (run_id scope)) (Some role)
          (Some (r_workspace_path r)) (Some (r_workspace_path r)) view ∧
    repository_view_reference_from_database
      (if bool_decide (role = "supervisor") && (bool_decide (t_status t = "reviewing") || bool_decide (t_status t = "awaiting_human"))
       then r_view r else t_view t) = Ok view.
Proof.
  unfold executor_context_in_transaction, select_run, select_task, gets, mbind at 1, st_bind at 1.
  destruct (d_runs (w_db w) !! run_id scope) as [r|] eqn:Hr; [|done]. intros H.
  apply bind_ensure in H as [H1%bool_decide_eq_true H]. apply bind_ensure in H as [H2%bool_decide_eq_true H].
  apply bind_ensure in H as [H3%bool_decide_eq_true H]. apply bind_ensure in H as [H4 H].
  apply bind_Ok in H as ([] & w1 & H5 & H).
  destruct (is_absolute (r_workspace_path r)) eqn:Habs; [|done].
  destruct (canonicalize (r_workspace_path r)) as [p|] eqn:Hcan; [|done].
  apply ensure_Ok in H5 as [H5%bool_decide_eq_true ->]. unfold mbind at 1, st_bind at 1 in H.
  destruct (d_tasks (w_db w) !! task_id scope) as [t|] eqn:Ht; [|done].
  apply bind_lift in H as (view & Hview & H). cbv zeta in H.
  assert (session_bound scope role (w_db w) r) as Hb.
  { split_and!; try done; [|by rewrite Hcan, H5]. apply orb_true_iff in H4. by rewrite !bool_decide_eq_true in H4. }
  destruct (bool_decide (role = "supervisor") && _) eqn:Esup.
  - apply bind_lift in H as (view' & Hview' & H). injection H as <- <-. split; [done|].
    exists r, t, view'. rewrite Esup. split_and!; try done. cbn. by rewrite H3.
  - injection H as <- <-. split; [done|]. exists r, t, view. rewrite Esup, H3. done.
Qed.

Lemma executor_context_read scope role w : (executor_context_in_transaction scope role w).2 = w.
Proof.
  assert (preserves (eq w) (executor_context_in_transaction scope role)) as H.
  { unfold executor_context_in_transaction, select_run, select_task. solve_preserves. }
  symmetry. by apply H.
Qed.
Lemma session_schema_read w : (validate_runtime_migration_history w).2 = w ∧ (runtime_schema_version w).2 = w.
Proof.
  assert (∀ h e, preserves (eq w) (history_matches h e)) as Hm.
  { intros h. induction h as [|[[v n] x] h IH]; intros [|[ev en] e]; simpl; solve_preserves. }
  assert (preserves (eq w) runtime_schema_version) as Hv by (unfold runtime_schema_version; solve_preserves).
  assert (preserves (eq w) validate_runtime_migration_history) as H.
  { unfold validate_runtime_migration_history, table_exists. solve_preserves. }
  split; symmetry; [by apply H|by apply Hv].
Qed.

(** C27. The session fence. An operation of a managed session runs only when
    the scope's run is an active run of exactly that task, agent and role in
    exactly that workspace; it then starts from the unchanged database with the
    context of the bound task, and a read-only session changes nothing.  When
    the run is not bound the session fails without touching the world, and a
    session that fails for any reason leaves the database as it was. *)
Theorem session_fence {T} scope write role (op : ExecutorSessionScope → RuntimeTaskContext → st world T) w :
  (∀ a w', with_role_session scope write role op w = (Ok a, w') →
     (∃ r, session_bound scope role (w_db w) r) ∧
     (∃ c, op scope c w = (Ok a, w') ∧ ctx_task_id c = task_id scope ∧ ctx_run_id c = Some (run_id scope) ∧
           ctx_run_role c = Some role ∧ is_Some (d_tasks (w_db w) !! task_id scope)) ∧
     (write = false → w_db w' = w_db w)) ∧
  ((¬ ∃ r, session_bound scope role (w_db w) r) → ∃ e, with_role_session scope write role op w = (Err e, w)) ∧
  (∀ e w', with_role_session scope write role op w = (Err e, w') → w_db w' = w_db w).
Proof.
  destruct (session_schema_read w) as [Hr1 Hr2]. pose proof (executor_context_read scope role w) as Hr3.
  split_and!.
  - intros a w' H. unfold with_role_session in H.
  apply transaction_Ok_inv in H as E.
    apply bind_Ok in E as ([] & w1 & E1 & E). rewrite E1 in Hr1. simpl in Hr1. subst w1.
    apply bind_Ok in E as (v & w1 & E2 & E). rewrite E2 in Hr2. simpl in Hr2. subst w1.
    apply bind_ensure in E as [_ E]. apply bind_Ok in E as (c & w1 & Ec & E).
    apply executor_context_Ok in Ec as (-> & r & t & view & Hb & Ht & -> & _).
    split; [eauto|]. unfold read_only in E. destruct write.
    + split; [|done]. eexists. split; [exact E|]. split_and!; try done; by rewrite Ht.
    + match type of E with match ?m with _ => _ end = _ => destruct m as [[b|e] w1] eqn:E'; [|done] end.
      case_bool_decide as Hsame; [|done]. injection E as -> ->. split; [|done].
      eexists. split; [exact E'|]. split_and!; try done; by rewrite Ht.
  - intros Hn. unfold with_role_session, transaction. unfold mbind at 1, st_bind at 1.
    destruct (validate_runtime_migration_history w) as [[[]|e] w1]; simpl in Hr1; subst w1; [|exists e; by destruct w].
    unfold mbind at 1, st_bind at 1. destruct (runtime_schema_version w) as [[v|e] w1]; simpl in Hr2; subst w1; [|exists e; by destruct w].
    unfold ensure. case_bool_decide; [|eexists; by destruct w].
    unfold mbind at 1, st_bind at 1. cbn [mret st_ret]. unfold mbind at 1, st_bind at 1.
    destruct (executor_context_in_transaction scope role w) as [[c|e] w1] eqn:Ec; simpl in Hr3; subst w1; [|exists e; by destruct w].
    exfalso. apply Hn. apply executor_context_Ok in Ec as (_ & r & _ & _ & Hb & _). eauto.
  - intros e w' H. unfold with_role_session in H.
    match type of H with transaction ?m w = _ => pose proof (transaction_atomic m w) as Ha end. by rewrite H in Ha.
Qed.

Lemma with_role_session_Ok {T} scope role (op : ExecutorSessionScope → RuntimeTaskContext → st world T) w a w' :
  with_role_session scope true role op w = (Ok a, w') →
  ∃ c r t view, op scope c w = (Ok a, w') ∧ session_bound scope role (w_db w) r ∧
    d_tasks (w_db w) !! task_id scope = Some t ∧
    c = context_of (task_id scope) t (Some (run_id scope)) (Some role)
          (Some (r_workspace_path r)) (Some (r_workspace_path r)) view.
Proof.
  intros H. destruct (session_schema_read w) as [Hr1 Hr2]. unfold with_role_session in H.
  apply transaction_Ok_inv in H as E.
  apply bind_Ok in E as ([] & w1 & E1 & E). rewrite E1 in Hr1. simpl in Hr1. subst w1.
  apply bind_Ok in E as (v & w1 & E2 & E). rewrite E2 in Hr2. simpl in Hr2. subst w1.
  apply bind_ensure in E as [_ E]. apply bind_Ok in E as (c & w1 & Ec & E).
  apply executor_context_Ok in Ec as (-> & r & t & view & Hb & Ht & -> & _). eauto 10.
Qed.

Lemma require_owner_Ok scope t w w' :
  d_tasks (w_db w) !! task_id scope = Some t → require_executor_owner scope w = (Ok tt, w') →
  w' = tick w ∧ t_claimed_by t = Some (agent_id scope) ∧ lease_live (w_clock (tick w)) t = true.
Proof.
  intros Ht H. unfold require_executor_owner in H.
  rewrite (bind_run _ _ _ _ _ (task_candidate_by_id_eq (task_id scope) w)), Ht in H. cbn -[parse_lease_until] in H.
  apply bind_ensure in H as [Hc%bool_decide_eq_true H].
  destruct (parse_lease_until (t_lease_until t)) as [until|] eqn:Hl; [|done].
  rewrite (bind_run _ _ _ _ _ (utc_now_eq w)) in H. apply ensure_Ok in H as [Hn ->].
  split_and!; try done. unfold lease_live. by rewrite Hl.
Qed.

(** A native review decision is fenced. A rejection goes through only when
    the deciding run is bound to the task, the task is in review under a live
    lease of the deciding agent, and the tree the reviewer looked at is still
    the submitted one; the task then moves out of review without a lease, with
    one more review cycle, in the transaction that publishes the review. *)
Theorem review_decision_fenced scope tree max publish w rej w' :
  (∀ c w, d_tasks (w_db (publish c w).2) = d_tasks (w_db w)) →
  reject_supervisor_session scope tree max publish w = (Ok rej, w') →
  ∃ r t d u, session_bound scope "supervisor" (w_db w) r ∧ d_tasks (w_db w) !! task_id scope = Some t ∧
    t_status t = as_str Reviewing ∧ t_claimed_by t = Some (agent_id scope) ∧ lease_live (w_clock (tick w)) t = true ∧
    tree = Some d ∧ c_tree_digest (t_view t) = Some (value d) ∧
    d_tasks (w_db w') = <[task_id scope := u]> (d_tasks (w_db w)) ∧ t_claimed_by u = None ∧
    let n := u32_add (as_u32 (t_review_cycles t)) 1 in
    t_review_cycles u = n ∧
    (rej = RejectAddressing n ∧ n < max ∧ t_status u = as_str Addressing ∨
     rej = RejectLimitExceeded n ∧ max ≤ n ∧ t_status u = as_str Failed).
Proof.
  intros Hpub H. apply with_role_session_Ok in H as (c & r & t & view & H & Hb & Ht & ->).
  apply bind_Ok in H as ([] & w1 & Hreq & H). unfold require_supervisor_review in Hreq.
  apply bind_Ok in Hreq as ([] & w2 & Hown & Hreq). apply (require_owner_Ok _ t) in Hown as (-> & Hc & Hl); [|done].
  apply bind_ensure in Hreq as [Hst Hreq]. cbn in Hst.
  apply andb_true_iff in Hst as [[Hst Htree]%andb_true_iff _]. apply bool_decide_eq_true in Hst.
  destruct tree as [d|]; [|done].
  rewrite (bind_run _ _ _ _ _ (select_task_some _ t (tick w) ltac:(by rewrite tick_db))) in Hreq.
  apply ensure_Ok in Hreq as [Hdig%bool_decide_eq_true ->].
  apply bind_Ok in H as (rej' & w3 & Hrej & H). apply bind_Ok in H as (u & w4 & Hp & H). injection H as -> ->.
  specialize (Hpub (context_of (task_id scope) t (Some (run_id scope)) (Some "supervisor") (Some (r_workspace_path r))
    (Some (r_workspace_path r)) view) w3). rewrite Hp in Hpub. simpl in Hpub.
  rewrite (review_rejected_in_transaction_run _ _ t) in Hrej by (by rewrite tick_db). cbv zeta in Hrej |- *.
  destruct (Z.leb_spec max (u32_add (as_u32 (t_review_cycles t)) 1)); injection Hrej as <- <-;
    (eexists r, t, d, _; split_and!; [done|done|done|done|done|done|done| | | |]);
    try (rewrite Hpub; by autorewrite with world); try done; [right|left]; done.
Qed.

(** A successful claim leaves the task to the claimant. *)
Lemma claim_ready_owner id agent ttl allowed promote w r w' l t :
  claim_ready_task_in_transaction id agent ttl allowed promote w = (Ok r, w') → r = Claimed l ∨ r = AlreadyClaimed l →
  d_tasks (w_db w) !! id = Some t →
  ∃ u, d_tasks (w_db w') = <[id := u]> (d_tasks (w_db w)) ∧ t_claimed_by u = Some agent ∧ has_status allowed (t_status t) = true.
Proof.
  intros H Hr Ht. pose proof (claim_ready_cases id agent ttl allowed promote w) as Hcase. rewrite H in Hcase.
  destruct Hr as [-> | ->]; simpl in Hcase;
    [destruct Hcase as (t' & until & Ht' & Hs & _ & _ & _ & Honly & _)
    |destruct Hcase as (t' & until & Ht' & Hs & Hcl & _ & _ & _ & Honly & _)];
    rewrite Ht in Ht'; injection Ht' as <-; eexists; (split; [exact Honly|]); (split; [|done]);
    unfold promoted; by destruct (_ && _).
Qed.

(** A relaunched executor session resumes only executor work. When it is
    given the task, the task is in a work state, or it waits for a human whose
    question that same agent asked from a work state, or it waits for a
    consultation requested from a work state; and afterwards the task is
    claimed by the agent of the session. *)
Theorem executor_session_resumes_work scope ttl w r w' l :
  claim_executor_session scope ttl w = (Ok r, w') → r = Claimed l ∨ r = AlreadyClaimed l →
  ∃ row t u, session_bound scope "executor" (w_db w) row ∧ d_tasks (w_db w) !! task_id scope = Some t ∧
    d_tasks (w_db w') = <[task_id scope := u]> (d_tasks (w_db w)) ∧ t_claimed_by u = Some (agent_id scope) ∧
    (t_status t ∈ ["pending"; "executing"; "addressing"] ∨
     t_status t = "awaiting_human" ∧ t_awaiting_human_by t = Some (agent_id scope) ∧
       t_awaiting_human_status t ∪ t_paused_status t ∈ [Some "executing"; Some "addressing"] ∨
     t_status t = "consultation" ∧ t_paused_status t ∈ [Some "executing"; Some "addressing"]).
Proof.
  intros H Hr. apply with_role_session_Ok in H as (c & row & t & view & H & Hb & Ht & ->).
  apply bind_Ok in H as (owned & w1 & Ho & H). exists row, t.
  assert (w1 = w ∧ (t_status t = "awaiting_human" → owned = true → t_awaiting_human_by t = Some (agent_id scope) ∧
            work_phase (t_awaiting_human_status t ∪ t_paused_status t) = true)) as [Hw1 Hown].
  { revert Ho. cbn [ctx_status ctx_paused_status context_of].
    destruct (bool_decide (t_status t = as_str AwaitingHuman)) eqn:E.
    - rewrite (bind_run _ _ _ _ _ (select_task_some _ _ _ Ht)). intros [= <- <-]. split; [done|].
      intros _ [Ha%bool_decide_eq_true Hp]%andb_true_iff. done.
    - intros [= _ <-]. split; [done|]. intros E' _. by apply bool_decide_eq_false in E. }
  rewrite Hw1 in H. clear Ho Hw1 w1. destruct owned; [|injection H as <- _; by destruct Hr]. cbn [ctx_status ctx_paused_status context_of negb andb] in H.
  destruct (bool_decide (t_status t = as_str Consultation)) eqn:Econs;
    [apply bool_decide_eq_true in Econs|apply bool_decide_eq_false in Econs]; cbn [ctx_status ctx_paused_status context_of negb andb] in H.
  1: destruct (work_phase (t_paused_status t)) eqn:Epaused; cbn [ctx_status ctx_paused_status context_of negb andb] in H;
       [|injection H as <- _; by destruct Hr].
  all: destruct (claim_ready_owner _ _ _ _ _ _ _ _ _ t H Hr Ht) as (u & Hu & Hcu & Hst).
  all: exists u; split_and!; try done.
  - right. right. split; [done|]. unfold work_phase, opt_is in Epaused. apply orb_true_iff in Epaused.
    rewrite !bool_decide_eq_true in Epaused. set_solver.
  - apply existsb_exists in Hst as (s & Hin & Hs%bool_decide_eq_true).
    apply list_elem_of_In in Hin. rewrite <- Hs in Hown, Econs |- *.
    rewrite !elem_of_cons in Hin. destruct Hin as [->|[->|[->|[->|[->|Hin%elem_of_nil]]]]]; try done;
      [left; set_solver..|right; left].
    destruct Hown as [Ha Hp]; [done|done|]. split_and!; try done. unfold work_phase, opt_is in Hp.
    apply orb_true_iff in Hp. rewrite !bool_decide_eq_true in Hp. set_solver.
Qed.
End behaviour.
