(* ===== verification/Recovery.v ===== *)
(** Recovery of interrupted runs, expired leases and orphaned worktrees
    ([src/src/project/runs/recovery.rs]). *)
From S2P Require Import Prelude Status View Chrono Database WellFormed Schema Exec Store Waits Claims Runs.

Record RuntimeRecovery := Recovery { interrupted_runs : Z; expired_task_leases : Z }.

Definition BASELINE_WORKTREE_METADATA_DIR : string := ".baseline-trees".
Definition BASELINE_REF_PREFIX : string := "refs/ferrus/baselines".
Definition executor_baseline_ref (task_id : string) : string := (BASELINE_REF_PREFIX +:+ "/" +:+ task_id)%string.
Definition join (dir name : string) : string := (dir +:+ "/" +:+ name)%string.

Section recovery.
Context {CH : Chrono} {ENV : Env}.

(** ** Runs *)
Definition dead_active_runs (d : db) : list (string * run_row) :=
  filter (λ x, run_alive x.2 = false) (runs_where (λ _ r, active_run (r_status r)) d).

Definition interrupted_row (now : string) (r : run_row) : run_row :=
  r <| r_status := "interrupted" |> <| r_updated_at := now |> <| r_pid := None |>.

Definition interrupt_run (id : string) : st world unit :=
  now ← timestamp;
  update_run id (interrupted_row now) ;;
  insert_event (Some id) "run_interrupted" [].

Definition recover_interrupted_runs : st world Z :=
  open_runtime_database ;;
  d ← get_db;
  let interrupted := map fst (dead_active_runs d) in
  for_each interrupt_run interrupted ;;
  mret (Z.of_nat (length interrupted)).

Definition preview_interrupted_runs : st world Z :=
  d ← get_db; mret (Z.of_nat (length (dead_active_runs d))).

(** ** Leases *)
Definition lease_recoverable (now : Z) (live : gset string) (id : string) (t : task_row) : bool :=
  some (t_claimed_by t) && negb (live_at now (t_lease_until t ≫= parse_from_rfc3339)) && negb (bool_decide (id ∈ live)).

Definition release_lease (x : string * task_row) : st world unit :=
  clear_task_lease x.1 ;;
  insert_event None "task_lease_expired"
    [("task_id", JStr x.1); ("claimed_by", jopt (t_claimed_by x.2)); ("lease_until", jopt (t_lease_until x.2))].

Definition recover_expired_task_leases : st world Z :=
  open_runtime_database ;;
  now ← utc_now;
  live ← live_active_run_task_ids_from_database;
  d ← get_db;
  let expired := tasks_where (lease_recoverable now live) d in
  for_each release_lease expired ;;
  mret (Z.of_nat (length expired)).

Definition preview_expired_task_leases : st world Z :=
  now ← utc_now;
  live ← live_active_run_task_ids_from_database;
  d ← get_db;
  mret (Z.of_nat (length (tasks_where (lease_recoverable now live) d))).

(** ** Both, and the recorded answers *)
Definition recover_runtime_state : st world RuntimeRecovery :=
  interrupted ← recover_interrupted_runs;
  expired ← recover_expired_task_leases;
  recover_recorded_human_answers ;;
  mret (Recovery interrupted expired).

Definition preview_runtime_recovery_from : st world RuntimeRecovery :=
  interrupted ← preview_interrupted_runs;
  expired ← preview_expired_task_leases;
  mret (Recovery interrupted expired).
Definition preview_runtime_recovery : st world RuntimeRecovery := preview_runtime_recovery_from.

(** ** Worktrees *)
Definition terminal (status : string) : bool := has_status [Reset; Complete; Failed] status.

Definition protected_worktree_task_ids : st world (gset string) :=
  open_runtime_database ;;
  d ← get_db; mret (list_to_set (map fst (tasks_where (λ _ t, negb (terminal (t_status t))) d))).

Definition protected_worktree_paths : st world (gset string) :=
  open_runtime_database ;;
  d ← get_db;
  mret (list_to_set (map (λ x, default (r_workspace_path x.2) (canonicalize (r_workspace_path x.2)))
                       (live_runs (λ _ _, true) d))).

(** [worktrees] is what reading the worktree directory answers: [None] when it
    does not exist, otherwise its entries with whether each is a directory. *)
Definition orphaned_worktrees_for (data_dir : string) (worktrees : option (list (string * bool))) :
    st world (list string) :=
  match worktrees with
  | None => mret []
  | Some entries =>
    ids ← protected_worktree_task_ids;
    paths ← protected_worktree_paths;
    let orphaned := omap (λ e : string * bool,
      let path := join (join data_dir "worktrees") e.1 in
      if negb e.2 then None
      else if bool_decide (e.1 = BASELINE_WORKTREE_METADATA_DIR) then None
      else if bool_decide (e.1 ∈ ids) || bool_decide (default path (canonicalize path) ∈ paths) then None
      else Some e.1) entries in
    mret (map (join (join data_dir "worktrees")) (order_by String.compare orphaned))
  end.
Definition preview_orphaned_worktrees (data_dir : string) (worktrees : option (list (string * bool))) : st world Z :=
  l ← orphaned_worktrees_for data_dir worktrees; mret (Z.of_nat (length l)).

(** Whether [git -C project_root args] exits successfully. *)
Context (git : string → list string → bool).

Definition pin_executor_baseline_tree (project_root task_id baseline_tree : string) : st world unit :=
  ensure (git project_root ["update-ref"; executor_baseline_ref task_id; baseline_tree])
    "Failed to create executor baseline ref {baseline_ref}" [executor_baseline_ref task_id].

Definition remove_executor_baseline (project_root data_dir task_id : string) : st world unit :=
  let baseline_ref := executor_baseline_ref task_id in
  (if git project_root ["show-ref"; "--verify"; "--quiet"; baseline_ref] then
     ensure (git project_root ["update-ref"; "-d"; baseline_ref])
       "Failed to remove executor baseline ref {baseline_ref}" [baseline_ref]
   else mret tt) ;;
  remove_path_if_exists (join (join (join data_dir "worktrees") BASELINE_WORKTREE_METADATA_DIR) (task_id +:+ ".txt")%string).

Fixpoint remove_worktrees (project_root data_dir : string) (worktrees : list string) : st world Z :=
  match worktrees with
  | [] => mret 0
  | path :: worktrees =>
    let task_id := default path (strip_prefix (data_dir +:+ "/worktrees/")%string path) in
    ensure (git project_root ["worktree"; "remove"; "--force"; path])
      "Failed to remove orphaned worktree at {}" [path] ;;
    remove_executor_baseline project_root data_dir task_id ;;
    n ← remove_worktrees project_root data_dir worktrees;
    mret (n + 1)
  end.
Definition recover_orphaned_worktrees (project_root data_dir : string) (worktrees : option (list (string * bool))) :
    st world Z :=
  l ← orphaned_worktrees_for data_dir worktrees;
  remove_worktrees project_root data_dir l.

(** ** Invariant *)
Lemma preserves_recover_runs : preserves wf recover_interrupted_runs.
Proof.
  unfold recover_interrupted_runs, interrupt_run. solve_wf. apply preserves_update_run; [|done]. intros r []; by split.
Qed.
Lemma preserves_recover_leases : preserves wf recover_expired_task_leases.
Proof. unfold recover_expired_task_leases, release_lease. solve_wf. Qed.
#[local] Hint Resolve preserves_recover_runs preserves_recover_leases : preserves.
Lemma preserves_recover_state : preserves wf recover_runtime_state.
Proof. unfold recover_runtime_state. solve_wf. Qed.
Lemma preserves_orphaned data_dir wt : preserves wf (orphaned_worktrees_for data_dir wt).
Proof. unfold orphaned_worktrees_for, protected_worktree_task_ids, protected_worktree_paths. solve_wf. Qed.
#[local] Hint Resolve preserves_orphaned : preserves.
Lemma preserves_recover_orphaned root data_dir wt : preserves wf (recover_orphaned_worktrees root data_dir wt).
Proof.
  unfold recover_orphaned_worktrees. wf_step; [wf_step|]. induction (_ : list string) as [|p l IH]; simpl; [solve_wf|].
  unfold remove_executor_baseline. solve_wf.
Qed.
End recovery.
#[export] Hint Resolve preserves_recover_runs preserves_recover_leases preserves_recover_state preserves_orphaned
  preserves_recover_orphaned : preserves.

(** ** Behaviour *)
Section behaviour.
Context {CH : Chrono} {ENV : Env}.

(** *** Runs *)
Definition runs_interrupted (ids : list string) (w w' : world) : Prop :=
  d_tasks (w_db w') = d_tasks (w_db w) ∧ d_prs (w_db w') = d_prs (w_db w) ∧ schema_part (w_db w') = schema_part (w_db w) ∧
  w_files w' = w_files w ∧
  ∀ id, match d_runs (w_db w) !! id with
        | None => d_runs (w_db w') !! id = None
        | Some r => if bool_decide (id ∈ ids) then ∃ now, d_runs (w_db w') !! id = Some (interrupted_row now r)
                    else d_runs (w_db w') !! id = Some r
        end.

Lemma interrupt_run_run id r w : d_runs (w_db w) !! id = Some r →
  ∃ w', interrupt_run id w = (Ok tt, w') ∧ runs_interrupted [id] w w'.
Proof.
  intros Hr. eexists. split.
  - unfold interrupt_run. eapply bind_eq; [apply timestamp_eq|].
    eapply bind_eq; [apply (update_run_run _ _ r); by rewrite tick_db|]. apply insert_event_run.
    eexists. by autorewrite with world.
  - unfold runs_interrupted. autorewrite with world. split_and!; try done.
    + simpl. by rewrite tick_db.
    + unfold schema_part, add_event. simpl. rewrite tick_db. simpl. by rewrite tick_db.
    + simpl. by rewrite tick_files.
    + intros j. destruct (decide (j = id)) as [->|Hne].
      * rewrite Hr, bool_decide_eq_true_2 by set_solver. eexists. by rewrite lookup_insert_eq.
      * rewrite lookup_insert_ne by done. rewrite bool_decide_eq_false_2 by set_solver. by destruct (_ !! j).
Qed.
Lemma interrupt_all_run ids w : (∀ id, id ∈ ids → is_Some (d_runs (w_db w) !! id)) →
  ∃ w', for_each interrupt_run ids w = (Ok tt, w') ∧ runs_interrupted ids w w'.
Proof.
  revert w. induction ids as [|id ids IH]; intros w Hids.
  - exists w. split; [done|]. split_and!; try done. intros id. by destruct (_ !! id).
  - destruct (Hids id) as [r Hr]; [left|]. destruct (interrupt_run_run id r w Hr) as (w1 & H1 & T1 & P1 & S1 & F1 & R1).
    destruct (IH w1) as (w2 & H2 & T2 & P2 & S2 & F2 & R2).
    { intros j Hj. specialize (R1 j). destruct (Hids j) as [rj Hrj]; [by right|]. rewrite Hrj in R1.
      case_bool_decide; [destruct R1 as [? ->]|rewrite R1]; eauto. }
    exists w2. split; [by eapply bind_eq|]. split_and!; try congruence. intros j. specialize (R1 j). specialize (R2 j).
    destruct (d_runs (w_db w) !! j) as [rj|] eqn:Hj; [|by rewrite R1 in R2].
    destruct (decide (j = id)) as [->|Hne].
    + rewrite bool_decide_eq_true_2 in R1 |- * by set_solver. destruct R1 as [n1 E1]. rewrite E1 in R2.
      destruct (bool_decide (id ∈ ids)); [destruct R2 as [n2 E2]; by exists n2|by exists n1].
    + rewrite bool_decide_eq_false_2 in R1 by set_solver. rewrite R1 in R2.
      destruct (decide (j ∈ ids)); [rewrite bool_decide_eq_true_2 in R2 |- * by set_solver
                                   |rewrite bool_decide_eq_false_2 in R2 |- * by set_solver]; done.
Qed.

Lemma elem_of_dead d id r : (id, r) ∈ dead_active_runs d ↔
  d_runs d !! id = Some r ∧ active_run (r_status r) = true ∧ run_alive r = false.
Proof. unfold dead_active_runs. rewrite list_elem_of_filter, elem_of_runs_where. simpl. tauto. Qed.
Lemma elem_of_dead_ids d id r : d_runs d !! id = Some r →
  id ∈ map fst (dead_active_runs d) ↔ active_run (r_status r) = true ∧ run_alive r = false.
Proof.
  intros Hr. rewrite list_elem_of_fmap. split.
  - intros ([i r'] & -> & Hin%elem_of_dead). simpl in *. destruct Hin as (H & ? & ?). rewrite Hr in H. by injection H as <-.
  - intros [Ha Hd]. exists (id, r). split; [done|]. by apply elem_of_dead.
Qed.
Lemma dead_nil d : (∀ id r, d_runs d !! id = Some r → active_run (r_status r) = true → run_alive r = true) →
  dead_active_runs d = [].
Proof.
  intros H. destruct (dead_active_runs d) as [|[id r] l] eqn:E; [done|].
  assert ((id, r) ∈ dead_active_runs d) as (Hr & Ha & Hd)%elem_of_dead by (rewrite E; left).
  rewrite (H id r) in Hd; done.
Qed.

(** Recovery interrupts exactly the runs that are marked active while
    their process is gone: as many as the preview announced, each with its
    process forgotten, every other run and every task untouched.  Afterwards no
    active run is dead, so a second recovery finds nothing. *)
Theorem recovery_interrupts_dead_runs w :
  schema_ready (w_db w) →
  ∃ n w', recover_interrupted_runs w = (Ok n, w') ∧ preview_interrupted_runs w = (Ok n, w) ∧
    d_tasks (w_db w') = d_tasks (w_db w) ∧
    (∀ id, match d_runs (w_db w) !! id with
           | None => d_runs (w_db w') !! id = None
           | Some r => if active_run (r_status r) && negb (run_alive r)
                       then ∃ now, d_runs (w_db w') !! id = Some (interrupted_row now r)
                       else d_runs (w_db w') !! id = Some r
           end) ∧
    (∀ id r, d_runs (w_db w') !! id = Some r → active_run (r_status r) = true → run_alive r = true) ∧
    recover_interrupted_runs w' = (Ok 0, w').
Proof.
  intros Hs. set (ids := map fst (dead_active_runs (w_db w))).
  destruct (interrupt_all_run ids w) as (w' & H & Ht & Hp & Hsc & Hf & Hruns).
  { intros id ([i r] & -> & Hin%elem_of_dead)%list_elem_of_fmap. simpl. destruct Hin as [-> _]. eauto. }
  assert (∀ id, match d_runs (w_db w) !! id with
           | None => d_runs (w_db w') !! id = None
           | Some r => if active_run (r_status r) && negb (run_alive r)
                       then ∃ now, d_runs (w_db w') !! id = Some (interrupted_row now r)
                       else d_runs (w_db w') !! id = Some r
           end) as Hall.
  { intros id. specialize (Hruns id). destruct (d_runs (w_db w) !! id) as [r|] eqn:Hr; [|done].
    pose proof (elem_of_dead_ids _ _ _ Hr) as Hin. fold ids in Hin.
    destruct (active_run (r_status r)), (run_alive r); simpl;
      (rewrite bool_decide_eq_true_2 in Hruns by tauto) || (rewrite bool_decide_eq_false_2 in Hruns by intuition congruence); done. }
  assert (∀ id r, d_runs (w_db w') !! id = Some r → active_run (r_status r) = true → run_alive r = true) as Halive.
  { intros id r Hr Ha. specialize (Hall id). destruct (d_runs (w_db w) !! id) as [r0|]; [|congruence].
    destruct (active_run (r_status r0) && negb (run_alive r0)) eqn:E.
    - destruct Hall as [now Hall]. rewrite Hr in Hall. by injection Hall as ->.
    - rewrite Hr in Hall. injection Hall as ->. rewrite Ha in E. by destruct (run_alive r0). }
  eexists _, w'. split_and!.
  - unfold recover_interrupted_runs. eapply bind_eq; [by apply open_run|]. eapply bind_eq; [apply get_db_eq|].
    cbv zeta. by eapply bind_eq; [exact H|].
  - unfold preview_interrupted_runs. eapply bind_eq; [apply get_db_eq|]. unfold mret, st_ret. by rewrite length_map.
  - done.
  - done.
  - done.
  - unfold recover_interrupted_runs. eapply bind_eq; [apply open_run; by eapply schema_ready_part|].
    eapply bind_eq; [apply get_db_eq|]. cbv zeta. by rewrite dead_nil.
Qed.

(** *** Leases *)
Definition leases_released (ids : list string) (w w' : world) : Prop :=
  d_runs (w_db w') = d_runs (w_db w) ∧ d_prs (w_db w') = d_prs (w_db w) ∧ schema_part (w_db w') = schema_part (w_db w) ∧
  w_files w' = w_files w ∧
  ∀ id, d_tasks (w_db w') !! id = (if bool_decide (id ∈ ids) then no_lease else Datatypes.id) <$> d_tasks (w_db w) !! id.

Lemma release_lease_run x t w : d_tasks (w_db w) !! x.1 = Some t →
  ∃ w', release_lease x w = (Ok tt, w') ∧ leases_released [x.1] w w'.
Proof.
  intros Ht. eexists. split; [unfold release_lease; exec|].
  destruct (only_task_add_event x.1 (no_lease t) None "task_lease_expired"
    [("task_id", JStr x.1); ("claimed_by", jopt (t_claimed_by x.2)); ("lease_until", jopt (t_lease_until x.2))]
    w _ (only_task_set _ _ _)) as (T & R & P & S & F).
  split_and!; try done. intros j. rewrite T. destruct (decide (j = x.1)) as [->|Hne].
  - by rewrite lookup_insert_eq, Ht, bool_decide_eq_true_2 by set_solver.
  - rewrite lookup_insert_ne, bool_decide_eq_false_2 by set_solver. by destruct (_ !! j).
Qed.
Lemma release_all_run l w : (∀ x, x ∈ l → is_Some (d_tasks (w_db w) !! x.1)) →
  ∃ w', for_each release_lease l w = (Ok tt, w') ∧ leases_released (map fst l) w w'.
Proof.
  revert w. induction l as [|x l IH]; intros w Hl.
  - exists w. split; [done|]. split_and!; try done. intros id. by destruct (_ !! id).
  - destruct (Hl x) as [t Ht]; [left|]. destruct (release_lease_run x t w Ht) as (w1 & H1 & R1 & P1 & S1 & F1 & T1).
    destruct (IH w1) as (w2 & H2 & R2 & P2 & S2 & F2 & T2).
    { intros y Hy. rewrite T1. apply fmap_is_Some, Hl. by right. }
    exists w2. split; [by eapply bind_eq|]. split_and!; try congruence. intros j. rewrite T2, T1.
    destruct (d_tasks (w_db w) !! j) as [tj|]; [|done]. simpl. f_equal.
    destruct (decide (j = x.1)) as [->|Hne].
    + rewrite (bool_decide_eq_true_2 (x.1 ∈ [x.1])), (bool_decide_eq_true_2 (x.1 ∈ x.1 :: _)) by set_solver.
      by destruct (bool_decide _).
    + rewrite (bool_decide_eq_false_2 (j ∈ [x.1])) by set_solver.
      rewrite (bool_decide_ext (j ∈ x.1 :: map fst l) (j ∈ map fst l)) by set_solver. done.
Qed.

(** The tasks some live active run works on. *)
Definition live_tasks (d : db) : gset string := list_to_set (map (λ x, r_task_id x.2) (live_runs (λ _ _, true) d)).

Lemma elem_of_live_tasks d id : id ∈ live_tasks d ↔
  ∃ rid r, d_runs d !! rid = Some r ∧ r_task_id r = id ∧ active_run (r_status r) = true ∧ run_alive r = true.
Proof.
  unfold live_tasks, live_runs. rewrite elem_of_list_to_set, list_elem_of_fmap. split.
  - intros ([rid r] & -> & [Ha [Hr Hact]%elem_of_runs_where]%list_elem_of_filter). eauto 6.
  - intros (rid & r & Hr & <- & Hact & Ha). exists (rid, r). split; [done|]. apply list_elem_of_filter. split; [done|].
    apply elem_of_runs_where. done.
Qed.

(** Recovery releases exactly the dead leases: as many as the preview
    taken at the same moment announced, a claim is dropped when its lease has
    run out (or cannot be read) and no live run works on the task, and every
    other task keeps its row; in particular a task with a live run or an
    unexpired lease stays claimed. *)
Theorem recovery_releases_dead_leases w :
  schema_ready (w_db w) →
  ∃ n w', recover_expired_task_leases w = (Ok n, w') ∧ preview_expired_task_leases w = (Ok n, tick w) ∧
    d_runs (w_db w') = d_runs (w_db w) ∧
    (∀ id t, d_tasks (w_db w) !! id = Some t →
       d_tasks (w_db w') !! id =
         Some (if some (t_claimed_by t) && negb (lease_live (w_clock (tick w)) t) && negb (bool_decide (id ∈ live_tasks (w_db w)))
               then no_lease t else t)) ∧
    (∀ id t rid r, d_tasks (w_db w) !! id = Some t → d_runs (w_db w) !! rid = Some r → r_task_id r = id →
       active_run (r_status r) = true → run_alive r = true → d_tasks (w_db w') !! id = Some t).
Proof.
  intros Hs. set (p := lease_recoverable (w_clock (tick w)) (live_tasks (w_db w))).
  set (l := tasks_where p (w_db w)).
  destruct (release_all_run l (tick w)) as (w' & H & R & P & S & F & T).
  { intros [id t] Hin%elem_of_tasks_where. simpl. rewrite tick_db. destruct Hin as [-> _]. eauto. }
  rewrite tick_db in R, T.
  assert (∀ id t, d_tasks (w_db w) !! id = Some t → d_tasks (w_db w') !! id = Some (if p id t then no_lease t else t)) as Hall.
  { intros id t Ht. rewrite T, Ht. simpl. f_equal.
    assert (id ∈ map fst l ↔ p id t = true) as Hin.
    { rewrite list_elem_of_fmap. split.
      - intros ([i u] & -> & [Hu Hp]%elem_of_tasks_where). simpl in *. rewrite Ht in Hu. by injection Hu as <-.
      - intros Hp. exists (id, t). split; [done|]. by apply elem_of_tasks_where. }
    destruct (p id t); [rewrite bool_decide_eq_true_2 by tauto|rewrite bool_decide_eq_false_2 by intuition congruence]; done. }
  assert (live_active_run_task_ids_from_database (tick w) = (Ok (live_tasks (w_db w)), tick w)) as Hlive.
  { unfold live_active_run_task_ids_from_database. eapply bind_eq; [apply get_db_eq|]. by rewrite tick_db. }
  exists (Z.of_nat (length l)), w'. split_and!.
  - unfold recover_expired_task_leases. eapply bind_eq; [by apply open_run|]. eapply bind_eq; [apply utc_now_eq|].
    eapply bind_eq; [exact Hlive|]. eapply bind_eq; [apply get_db_eq|]. cbv zeta. rewrite tick_db. fold p l.
    by eapply bind_eq; [exact H|].
  - unfold preview_expired_task_leases. eapply bind_eq; [apply utc_now_eq|].
    eapply bind_eq; [exact Hlive|]. eapply bind_eq; [apply get_db_eq|]. by rewrite tick_db.
  - done.
  - exact Hall.
  - intros id t rid r Ht Hr Hid Hact Ha. rewrite (Hall id t Ht). unfold p, lease_recoverable.
    rewrite (bool_decide_eq_true_2 (id ∈ _)), andb_false_r; [done|]. apply elem_of_live_tasks. eauto 6.
Qed.

(** *** Worktrees *)

(** Orphan cleanup never selects a worktree in use. A selected path is a
    directory entry of the worktree directory other than the baseline
    metadata, its name is not a task that is still open, and no live active
    run works in it. *)
Theorem orphaned_worktrees_unused data_dir entries w :
  schema_ready (w_db w) →
  ∃ l, orphaned_worktrees_for data_dir (Some entries) w = (Ok l, w) ∧
    (∀ path, path ∈ l → ∃ name, path = join (join data_dir "worktrees") name ∧ (name, true) ∈ entries ∧
       name ≠ BASELINE_WORKTREE_METADATA_DIR ∧
       (∀ t, d_tasks (w_db w) !! name = Some t → terminal (t_status t) = true) ∧
       (∀ rid r, d_runs (w_db w) !! rid = Some r → active_run (r_status r) = true → run_alive r = true →
          default path (canonicalize path) ≠ default (r_workspace_path r) (canonicalize (r_workspace_path r)))).
Proof.
  intros Hs. eexists. split.
  - unfold orphaned_worktrees_for, protected_worktree_task_ids, protected_worktree_paths.
    eapply bind_eq; [eapply bind_eq; [by apply open_run|reflexivity]|].
    eapply bind_eq; [eapply bind_eq; [by apply open_run|reflexivity]|]. reflexivity.
  - intros path (name & -> & Hin)%list_elem_of_fmap. rewrite elem_of_order_by in Hin.
    apply list_elem_of_omap in Hin as ([n d] & Hin & E). cbn [fst snd negb] in E. destruct d; cbn [negb] in E; [|done].
    destruct (bool_decide (n = BASELINE_WORKTREE_METADATA_DIR)) eqn:Hmeta; [done|]. apply bool_decide_eq_false in Hmeta.
    destruct (_ || _) eqn:Hprot; [done|]. injection E as <-. apply orb_false_iff in Hprot as [Hid Hpath].
    apply bool_decide_eq_false in Hid, Hpath. exists n. split_and!; try done.
    + intros t Ht. destruct (terminal (t_status t)) eqn:Et; [done|]. exfalso. apply Hid.
      rewrite elem_of_list_to_set, list_elem_of_fmap. exists (n, t). split; [done|]. apply elem_of_tasks_where. by rewrite Et.
    + intros rid r Hr Hact Ha Heq. apply Hpath. rewrite Heq, elem_of_list_to_set, list_elem_of_fmap.
      exists (rid, r). split; [done|]. apply list_elem_of_filter. split; [done|]. by apply elem_of_runs_where.
Qed.
End behaviour.
