(* ===== verification/Registry.v ===== *)
(** Task artifacts ([src/src/project/registry/artifacts.rs]), task listings
    ([src/src/project/registry.rs]) and the migration of the legacy single-task
    layout ([src/src/project/registry.rs], [src/src/project.rs]). *)
From S2P Require Import Prelude Status View Chrono Database WellFormed Schema Exec Store Waits Claims Runs Task Recovery.

(** ** Records *)
Record TaskArtifact := Artifact { ta_id : string; ta_path : string; ta_run_dir : string }.

Record TaskRecord := TaskRec {
  tr_id : string;
  tr_path : string;
  tr_spec_path : option string;
  tr_milestone_id : option string;
  tr_status : string;
  tr_paused_status : option string;
  tr_claimed_by : option string;
  tr_lease_until : option string;
  tr_last_heartbeat : option string;
  tr_check_retries : Z;
  tr_review_cycles : Z;
  tr_failure_reason : option string }.

Definition task_record_from_row (x : string * task_row) : TaskRecord :=
  let (id, t) := x in
  TaskRec id (t_path t) (t_spec_path t) (t_milestone_id t) (t_status t) (t_paused_status t) (t_claimed_by t)
    (t_lease_until t) (t_last_heartbeat t) (as_u32 (t_check_retries t)) (as_u32 (t_review_cycles t))
    (t_failure_reason t).

(** [ORDER BY CASE WHEN id = 'current' THEN 0 ELSE 1 END, id] *)
Definition current_first : string * task_row → string * task_row → comparison :=
  lex (on_key (λ x, if bool_decide (x.1 = CURRENT_TASK_ID) then 0 else 1) Z.compare) by_id.

Section registry.
Context {CH : Chrono} {ENV : Env}.

(** ** Listings *)
Definition list_tasks : st world (list TaskRecord) :=
  open_runtime_database_for_read ;;
  d ← get_db; mret (map task_record_from_row (order_by current_first (tasks_where (λ _ _, true) d))).

Definition list_tasks_for_spec (spec_path : string) : st world (list TaskRecord) :=
  open_runtime_database ;;
  d ← get_db; mret (map task_record_from_row (order_by by_id (tasks_where (λ _ t, opt_is (t_spec_path t) spec_path) d))).

Definition read_task_records_from_database : st world (list TaskRecord) :=
  d ← get_db; mret (map task_record_from_row (order_by by_id (tasks_where (λ _ _, true) d))).

(** The task works on the milestone and is not finished. *)
Definition open_origin (spec_path milestone_id : string) (t : task_row) : bool :=
  opt_is (t_spec_path t) spec_path && opt_is (t_milestone_id t) milestone_id && negb (terminal (t_status t)).

Definition find_non_terminal_task_by_origin (spec_path milestone_id : string) : st world (option TaskRecord) :=
  open_runtime_database ;;
  d ← get_db;
  mret (task_record_from_row <$> head (order_by by_id (tasks_where (λ _ t, open_origin spec_path milestone_id t) d))).

(** ** Reservation *)
Definition artifact_for (number : Z) : TaskArtifact :=
  let id := ("t-" +:+ format_03 number)%string in
  Artifact id (".ferrus/tasks/" +:+ id +:+ ".md")%string (".ferrus/runs/" +:+ id)%string.

Definition exhausted {A} : st world A := bail "Cannot allocate another task id: numeric range exhausted" [].

(** The [loop]; a row takes at most one number, so the rows bound the rounds. *)
Fixpoint reserve_loop (fuel : nat) (number : Z) : st world TaskArtifact :=
  match fuel with
  | O => fail (Panicked "out of fuel")
  | S fuel =>
    let a := artifact_for number in
    reserved ← insert_or_ignore_task (ta_id a) (ta_path a) (as_str Unknown);
    if bool_decide (reserved = 1) then mret a
    else match u32_checked_add number 1 with
         | Some number => reserve_loop fuel number
         | None => exhausted
         end
  end.

Definition reserve_task_artifact : st world TaskArtifact :=
  max_file_number ← max_task_number_from_files ".ferrus/tasks";
  open_runtime_database ;;
  transaction (
    max_db_number ← max_task_number_in_database;
    d ← get_db;
    match u32_checked_add (Z.max max_file_number max_db_number) 1 with
    | None => exhausted
    | Some number => reserve_loop (S (size (d_tasks d))) number
    end).

Definition duplicate_origin (id : string) (spec_path milestone_id : option string) (d : db) : option string :=
  match spec_path, milestone_id with
  | Some s, Some m =>
    fst <$> head (order_by by_id (tasks_where (λ i t, open_origin s m t && negb (bool_decide (i = id))) d))
  | _, _ => None
  end.

Definition finalize_task_artifact_reservation (a : TaskArtifact) (spec_path milestone_id : option string) : st world unit :=
  open_runtime_database ;;
  transaction (
    d ← get_db;
    match duplicate_origin (ta_id a) spec_path milestone_id d with
    | Some duplicate =>
      bail "Cannot enqueue task: milestone {milestone_id} from {spec_path} already has task {duplicate}."
        [default "" milestone_id; default "" spec_path; duplicate]
    | None => mret tt
    end ;;
    finalized ← update_task_where (ta_id a) (λ t, bool_decide (t_status t = as_str Unknown))
      (λ t, t <| t_status := as_str Pending |> <| t_spec_path := spec_path |> <| t_milestone_id := milestone_id |>);
    if negb (bool_decide (finalized = 1)) then bail "Task reservation {} is no longer available" [ta_id a]
    else insert_event_in_transaction None "task_status_changed"
           [("task_id", JStr (ta_id a)); ("status", JStr (as_str Pending))]).

(** [DELETE FROM tasks WHERE id = ? AND p]: a run that refers to the row refuses it. *)
Definition delete_task_where (id : string) (p : task_row → bool) : st world unit :=
  d ← get_db;
  match d_tasks d !! id with
  | Some t =>
    if negb (p t) then mret tt
    else if existsb (λ x, bool_decide (r_task_id x.2 = id)) (map_to_list (d_runs d))
    then fail (SqlConstraint "FOREIGN KEY constraint failed")
    else put_db (λ d, d <| d_tasks := delete id (d_tasks d) |>)
  | None => mret tt
  end.

Definition discard_task_artifact_reservation (a : TaskArtifact) : st world unit :=
  remove_path_if_exists (ta_path a) ;;
  remove_dir_if_exists (ta_run_dir a) ;;
  open_runtime_database ;;
  delete_task_where (ta_id a) (λ t, bool_decide (t_status t = as_str Unknown)).

(** The error handler of [create_pending_task_artifact] after a reservation. *)
Definition undo_reservation (a : TaskArtifact) (e : error) : st world unit :=
  catch (discard_task_artifact_reservation a)
    (λ _, bail "{err}; also failed to discard task reservation {}: {cleanup_err}" [ta_id a]) ;; fail e.

Definition create_pending_task_artifact (description : string) (spec_path milestone_id : option string) :
    st world TaskArtifact :=
  a ← reserve_task_artifact;
  catch (
    write_path (ta_path a) description ;;
    finalize_task_artifact_reservation a spec_path milestone_id) (undo_reservation a) ;;
  mret a.

(** ** Legacy layout *)
Definition copy_if_nonempty (from to : string) : st world unit :=
  files ← gets w_files;
  if some (files !! to) then mret tt
  else match files !! from with
       | None => mret tt
       | Some contents => if is_empty (trim contents) then mret tt else write_path to contents
       end.

Definition copy_legacy_artifacts (task_template : string) (copy_task : bool) : st world unit :=
  (if copy_task then copy_if_nonempty ".ferrus/TASK.md" ".ferrus/tasks/t-001.md" else mret tt) ;;
  write_path ".ferrus/TASK.md" task_template ;;
  if negb copy_task then mret tt
  else for_each (λ name, copy_if_nonempty (".ferrus/" +:+ name)%string (".ferrus/runs/t-001/" +:+ name)%string)
         ["REVIEW.md"; "SUBMISSION.md"; "QUESTION.md"; "ANSWER.md"; "CONSULT_REQUEST.md"; "CONSULT_RESPONSE.md"].

Definition migrate_legacy_project_selection (state : Legacy.LegacyStateData) : st world unit :=
  match normalized_metadata_value (Legacy.selected_spec state) with
  | Some s => write_project_selection {| selected_spec := Some s |}
  | None => mret tt
  end.

Definition migrate_legacy_active_task (state : Legacy.LegacyStateData) : st world unit :=
  let legacy_status := Legacy.state state in
  let status := Legacy.task_status_for_legacy_state legacy_status in
  let paused_state := (λ s, as_str (Legacy.task_status_for_legacy_state s)) <$> Legacy.paused_state state in
  let '(paused_status, awaiting_human_status, awaiting_human_by) :=
    match legacy_status with
    | Legacy.LConsultation => (paused_state, None, None)
    | Legacy.LAwaitingHuman => (None, paused_state, Legacy.awaiting_human_by state)
    | _ => (None, None, None)
    end in
  open_runtime_database ;;
  transaction (
    upsert_task "t-001" ".ferrus/tasks/t-001.md" status (Legacy.task_spec state) (Legacy.task_milestone state) ;;
    update_task "t-001" (λ t,
      t <| t_paused_status := paused_status |> <| t_check_retries := as_u32 (Legacy.check_retries state) |>
        <| t_review_cycles := as_u32 (Legacy.review_cycles state) |> <| t_failure_reason := Legacy.failure_reason state |>
        <| t_awaiting_human_by := awaiting_human_by |> <| t_awaiting_human_status := awaiting_human_status |>) ;;
    insert_event_in_transaction None "task_migrated_from_legacy_state"
      [("task_id", JStr "t-001"); ("status", JStr (as_str status)); ("paused_status", jopt paused_status);
       ("awaiting_human_status", jopt awaiting_human_status); ("check_retries", JNum (as_u32 (Legacy.check_retries state)));
       ("review_cycles", JNum (as_u32 (Legacy.review_cycles state)))]).

(** The columns the copy of the [current] row takes over. *)
Definition adopted_row (t : task_row) : task_row :=
  (task_row_default ".ferrus/tasks/t-001.md" (t_status t))
    <| t_paused_status := t_paused_status t |> <| t_spec_path := t_spec_path t |> <| t_milestone_id := t_milestone_id t |>
    <| t_check_retries := t_check_retries t |> <| t_review_cycles := t_review_cycles t |>
    <| t_failure_reason := t_failure_reason t |> <| t_awaiting_human_by := t_awaiting_human_by t |>
    <| t_awaiting_human_status := t_awaiting_human_status t |>.
Definition retired_row (t : task_row) : task_row :=
  no_lease (t <| t_status := as_str Reset |> <| t_paused_status := None |> <| t_failure_reason := None |>
              <| t_awaiting_human_by := None |> <| t_awaiting_human_status := None |>).

Definition legacy_active (status : string) : bool :=
  match from_str status with
  | Ok Unknown | Ok Reset | Err _ => false
  | Ok _ => true
  end.

(** [UPDATE runs SET task_id = .. WHERE task_id = 'current'] *)
Definition move_run (now : string) (r : run_row) : run_row :=
  if bool_decide (r_task_id r = CURRENT_TASK_ID) then r <| r_task_id := "t-001" |> <| r_updated_at := now |> else r.

Definition retire_legacy_current_task_row : st world unit :=
  open_runtime_database ;;
  transaction (
    current ← select_task CURRENT_TASK_ID;
    match current with
    | None => mret tt
    | Some t =>
      (if legacy_active (t_status t) then
         put_db (λ d, match d_tasks d !! "t-001" with
                      | Some _ => d
                      | None => d <| d_tasks := <["t-001" := adopted_row t]> (d_tasks d) |>
                      end) ;;
         now ← timestamp;
         put_db (λ d, d <| d_runs := move_run now <$> d_runs d |>)
       else mret tt) ;;
      update_task CURRENT_TASK_ID retired_row ;; mret tt
    end).

Definition remove_legacy_state_files : st world unit :=
  remove_path_if_exists ".ferrus/STATE.json" ;; remove_path_if_exists ".ferrus/STATE.lock".

(** The part of the migration that follows the registration; [legacy] is the
    decoded [STATE.json], if it could be read. *)
Definition migrate_current_project (task_template : string) (legacy : option Legacy.LegacyStateData) : st world unit :=
  match legacy with
  | Some state =>
    migrate_legacy_project_selection state ;;
    if negb (bool_decide (Legacy.state state = Legacy.LIdle)) then
      copy_legacy_artifacts task_template true ;; migrate_legacy_active_task state
    else copy_legacy_artifacts task_template false
  | None => copy_legacy_artifacts task_template false
  end ;;
  retire_legacy_current_task_row ;;
  remove_legacy_state_files.
End registry.

(** ** Invariant *)
Lemma db_wf_delete_task d id :
  db_wf d → (∀ i r, d_runs d !! i = Some r → r_task_id r ≠ id) → db_wf (d <| d_tasks := delete id (d_tasks d) |>).
Proof.
  intros Hd Hr. destruct Hd. split; simpl; try done.
  - by apply map_Forall_delete.
  - intros i r Hi. rewrite lookup_delete_ne by (intros E; by eapply Hr). eauto.
  - by apply map_Forall_delete.
  - intros i j a b n [_ Ha]%lookup_delete_Some [_ Hb]%lookup_delete_Some. eauto.
Qed.

Section invariant.
Context {CH : Chrono} {ENV : Env}.

Lemma preserves_reserve_loop fuel number : preserves wf (reserve_loop fuel number).
Proof.
  revert number. induction fuel as [|fuel IH]; intros number; simpl; [apply preserves_fail|]. solve_wf.
  apply preserves_insert_or_ignore_task, (valid_status_as_str Unknown).
Qed.
#[local] Hint Resolve preserves_reserve_loop : preserves.
Lemma preserves_reserve_task_artifact : preserves wf reserve_task_artifact.
Proof. unfold reserve_task_artifact, max_task_number_from_files, max_task_number_in_database, exhausted. solve_wf. Qed.
Lemma preserves_finalize a s m : preserves wf (finalize_task_artifact_reservation a s m).
Proof. unfold finalize_task_artifact_reservation. solve_wf. Qed.
Lemma preserves_delete_task id p : preserves wf (delete_task_where id p).
Proof.
  intros w Hw. unfold delete_task_where, get_db, gets, mbind, st_bind.
  destruct (d_tasks (w_db w) !! id) as [t|]; [|done]. destruct (negb (p t)); [done|].
  destruct (existsb _ _) eqn:E; [done|]. apply db_wf_delete_task; [done|]. intros i r Hr Hid.
  rewrite <- not_true_iff_false in E. apply E, existsb_exists. exists (i, r). split; [|by apply bool_decide_eq_true].
  by apply list_elem_of_In, elem_of_map_to_list.
Qed.
#[local] Hint Resolve preserves_reserve_task_artifact preserves_finalize preserves_delete_task preserves_remove_path
  preserves_remove_dir preserves_write_path : preserves.
Lemma preserves_discard a : preserves wf (discard_task_artifact_reservation a).
Proof. unfold discard_task_artifact_reservation. solve_wf. Qed.
#[local] Hint Resolve preserves_discard : preserves.
Lemma preserves_create_pending desc s m : preserves wf (create_pending_task_artifact desc s m).
Proof. unfold create_pending_task_artifact. solve_wf. unfold undo_reservation. solve_wf. Qed.

Lemma preserves_copy_legacy tpl b : preserves wf (copy_legacy_artifacts tpl b).
Proof. unfold copy_legacy_artifacts, copy_if_nonempty. solve_wf. Qed.
Lemma preserves_migrate_selection s : preserves wf (migrate_legacy_project_selection s).
Proof. unfold migrate_legacy_project_selection. solve_wf. Qed.
Lemma paused_valid (o : option Legacy.LegacyTaskState) :
  is_col valid_status ((λ s, as_str (Legacy.task_status_for_legacy_state s)) <$> o).
Proof. destruct o; [apply valid_status_as_str|exact I]. Qed.
Lemma preserves_migrate_active s : preserves wf (migrate_legacy_active_task s).
Proof.
  pose proof (paused_valid (Legacy.paused_state s)). unfold migrate_legacy_active_task.
  destruct (Legacy.state s); solve_wf.
Qed.

Lemma adopted_row_wf t : task_wf t → task_wf (adopted_row t).
Proof. intros []. split; simpl; auto using view_ok_default, is_u32_0. Qed.
Lemma db_wf_move_runs now d : db_wf d → is_Some (d_tasks d !! "t-001") → db_wf (d <| d_runs := move_run now <$> d_runs d |>).
Proof.
  intros Hd Ht. split; simpl; try (by destruct Hd).
  - intros i r Hi. apply lookup_fmap_Some in Hi as (r0 & <- & Hr0). destruct (dw_runs _ Hd _ _ Hr0).
    unfold move_run. case_bool_decide; by split.
  - intros i r Hi. apply lookup_fmap_Some in Hi as (r0 & <- & Hr0). unfold move_run. case_bool_decide; [done|].
    exact (dw_run_task _ Hd _ _ Hr0).
  - eapply Forall_impl; [exact (dw_event_run _ Hd)|]. intros e He. cbn beta in *. destruct (e_run_id e); [|done]. simpl in *.
    rewrite lookup_fmap. by apply fmap_is_Some.
Qed.
Lemma preserves_retire : preserves wf retire_legacy_current_task_row.
Proof.
  unfold retire_legacy_current_task_row. wf_step; [wf_step|]. wf_step. intros w Hw.
  unfold select_task, gets, mbind at 1, st_bind at 1. destruct (d_tasks (w_db w) !! CURRENT_TASK_ID) as [t|] eqn:Ht; [|done].
  pose proof (wf_task _ _ _ Hw Ht) as Hwt.
  assert (∀ w1, wf w1 → wf ((update_task CURRENT_TASK_ID retired_row ;; mret tt : st world unit) w1).2) as Hend.
  { intros w1 Hw1.
    assert (preserves wf (update_task CURRENT_TASK_ID retired_row ;; mret tt : st world unit)) as Hp by solve_wf. by apply Hp. }
  destruct (legacy_active (t_status t)); [|by apply Hend].
  match goal with |- wf (mbind _ ?m w).2 => assert (∃ w1, m w = (Ok tt, w1) ∧ wf w1) as (w1 & E & Hw1) end.
  { eexists. split; [eapply bind_eq; [reflexivity|]; eapply bind_eq; [apply timestamp_eq|]; reflexivity|].
    unfold wf. simpl. rewrite tick_db. simpl. destruct (d_tasks (w_db w) !! "t-001") as [u|] eqn:Hu.
    - apply db_wf_move_runs; [done|by rewrite Hu].
    - apply db_wf_move_runs; [|simpl; by rewrite lookup_insert_eq]. apply db_wf_new_row; [done|by apply adopted_row_wf|done]. }
  rewrite (bind_run _ _ _ _ _ E). by apply Hend.
Qed.
Lemma preserves_migrate_project tpl l : preserves wf (migrate_current_project tpl l).
Proof.
  pose proof preserves_copy_legacy. pose proof preserves_migrate_selection. pose proof preserves_migrate_active.
  pose proof preserves_retire. unfold migrate_current_project, remove_legacy_state_files. solve_wf.
Qed.
End invariant.
#[export] Hint Resolve preserves_reserve_task_artifact preserves_finalize preserves_discard preserves_create_pending
  preserves_migrate_project : preserves.

(** ** Behaviour *)
Section numbers.
Lemma max_numbers_fold ids m : ∀ id n, id ∈ ids → parse_task_number id = Some n →
  n ≤ foldl (λ m id, match parse_task_number id with Some n => Z.max m n | None => m end) m ids.
Proof.
  assert (∀ ids m, m ≤ foldl (λ m id, match parse_task_number id with Some n => Z.max m n | None => m end) m ids) as Hle.
  { clear. induction ids as [|id ids IH]; intros m; simpl; [lia|].
    etrans; [|apply IH]. destruct (parse_task_number id); lia. }
  revert m. induction ids as [|i ids IH]; intros m id n Hin Hp; [by apply elem_of_nil in Hin|].
  apply elem_of_cons in Hin as [->|Hin]; simpl; [|by eapply IH]. rewrite Hp. etrans; [|apply Hle]. lia.
Qed.
Lemma max_numbers_bound ids id n : id ∈ ids → parse_task_number id = Some n → n ≤ max_numbers ids.
Proof. apply max_numbers_fold. Qed.
Lemma max_numbers_nonneg ids : 0 ≤ max_numbers ids.
Proof.
  unfold max_numbers. assert (∀ m, 0 ≤ m → 0 ≤ foldl (λ m id, match parse_task_number id with Some n => Z.max m n | None => m end) m ids) as H.
  { induction ids as [|i ids IH]; intros m Hm; simpl; [done|]. apply IH. destruct (parse_task_number i); lia. }
  by apply H.
Qed.

Lemma artifact_id_number n : is_u32 n → parse_task_number (ta_id (artifact_for n)) = Some n.
Proof.
  intros Hn. unfold parse_task_number. cbn [ta_id artifact_for]. rewrite strip_prefix_app. exact (parse_format_03 n Hn).
Qed.

(** A digit string followed by an extension is one path component. *)
Lemma first_component_digits s t v a : parse_digits a s = Some v → first_component t = t → first_component (s +:+ t) = (s +:+ t)%string.
Proof.
  revert a. induction s as [|c s IH]; intros a Hp Ht; [done|]. simpl in Hp.
  destruct (digit_value c) as [d|] eqn:Ed; [|done]. specialize (IH _ Hp Ht).
  change (String c s +:+ t)%string with (String c (s +:+ t)).
  destruct (decide (c = "/"%char)) as [->|Hne]; [done|]. cbn. rewrite IH.
  destruct c as [[] [] [] [] [] [] [] []]; try done.
Qed.
Lemma string_length_app (s t : string) : String.length (s +:+ t) = (String.length s + String.length t)%nat.
Proof. induction s as [|c s IH]; [done|]. exact (f_equal S IH). Qed.
Lemma strip_suffix_app p s : strip_suffix p (s +:+ p) = Some s.
Proof.
  induction s as [|c s IH].
  - change ("" +:+ p)%string with p. destruct p; unfold strip_suffix; by rewrite bool_decide_eq_true_2.
  - change (String c s +:+ p)%string with (String c (s +:+ p)). cbn [strip_suffix]. rewrite bool_decide_eq_false_2, IH; [done|].
    intros E. apply (f_equal String.length) in E. simpl in E. rewrite string_length_app in E. lia.
Qed.
End numbers.

Section behaviour.
Context {CH : Chrono} {ENV : Env}.

(** *** Reservation *)
Definition highest_number (w : world) : Z :=
  Z.max (max_numbers (map (λ n, default n (strip_suffix ".md" n)) (dir_entries ".ferrus/tasks" (w_files w))))
        (max_numbers (map fst (tasks_where (λ id _, like_task_id id) (w_db w)))).

Lemma artifact_row_fresh w : highest_number w + 1 < u32_modulus →
  d_tasks (w_db w) !! ta_id (artifact_for (highest_number w + 1)) = None.
Proof.
  intros Hn. set (n := highest_number w + 1) in *. destruct (d_tasks (w_db w) !! ta_id (artifact_for n)) as [t|] eqn:Ht; [|done].
  assert (is_u32 n) as Hu.
  { unfold n, highest_number in *. split; [|done]. pose proof (max_numbers_nonneg (map fst (tasks_where (λ id _, like_task_id id) (w_db w)))). lia. }
  assert (ta_id (artifact_for n) ∈ map fst (tasks_where (λ id _, like_task_id id) (w_db w))) as Hin.
  { apply list_elem_of_fmap. exists (ta_id (artifact_for n), t). split; [done|]. apply elem_of_tasks_where.
    split; [done|]. change (ta_id (artifact_for n)) with (String "t" (String "-" (format_03 n))). by destruct (format_03 n). }
  pose proof (max_numbers_bound _ _ _ Hin (artifact_id_number n Hu)) as Hb. unfold n, highest_number in Hb. lia.
Qed.
Lemma artifact_file_fresh w : highest_number w + 1 < u32_modulus →
  w_files w !! ta_path (artifact_for (highest_number w + 1)) = None.
Proof.
  intros Hn. set (n := highest_number w + 1) in *. destruct (w_files w !! ta_path (artifact_for n)) as [c|] eqn:Hc; [|done].
  assert (is_u32 n) as Hu.
  { unfold n, highest_number in *. split; [|done]. pose proof (max_numbers_nonneg (map fst (tasks_where (λ id _, like_task_id id) (w_db w)))). lia. }
  assert (ta_id (artifact_for n) ∈ map (λ n, default n (strip_suffix ".md" n)) (dir_entries ".ferrus/tasks" (w_files w))) as Hin.
  { apply list_elem_of_fmap. exists (ta_id (artifact_for n) +:+ ".md")%string. rewrite strip_suffix_app. split; [done|].
    unfold dir_entries. apply list_elem_of_omap. exists (ta_path (artifact_for n)). split.
    - apply list_elem_of_fmap. exists (ta_path (artifact_for n), c). split; [done|]. by apply elem_of_map_to_list.
    - change (ta_path (artifact_for n)) with ((".ferrus/tasks" +:+ "/") +:+ (ta_id (artifact_for n) +:+ ".md"))%string.
      rewrite strip_prefix_app.
      assert (first_component (String "t" (String "-" (format_03 n +:+ ".md")))
              = String "t" (String "-" (format_03 n +:+ ".md")))%string as E; [|exact (f_equal Some E)].
      cbn [first_component]. do 2 f_equal. eapply (first_component_digits _ _ n 0); [|done].
      unfold format_03. rewrite parse_digits_zeros. apply parse_digits_display, Hu. }
  pose proof (max_numbers_bound _ _ _ Hin (artifact_id_number n Hu)) as Hb. unfold n, highest_number in Hb. lia.
Qed.

Lemma reserve_run w : schema_ready (w_db w) → highest_number w + 1 < u32_modulus →
  let a := artifact_for (highest_number w + 1) in
  reserve_task_artifact w = (Ok a, set_task (ta_id a) (task_row_default (ta_path a) (as_str Unknown)) w).
Proof.
  intros Hs Hn a. pose proof (artifact_row_fresh w Hn) as Hf. fold a in Hf. unfold reserve_task_artifact.
  eapply bind_eq; [reflexivity|]. eapply bind_eq; [by apply open_run|]. apply transaction_Ok.
  eapply bind_eq; [reflexivity|]. eapply bind_eq; [apply get_db_eq|].
  change (Z.max _ _) with (highest_number w). unfold u32_checked_add.
  destruct (Z.ltb_spec (highest_number w + 1) u32_modulus) as [_|]; [|lia]. cbn [reserve_loop]. fold a.
  eapply (bind_eq _ _ _ 1); [|reflexivity]. unfold insert_or_ignore_task, mbind at 1, st_bind at 1. rewrite select_task_eq, Hf. reflexivity.
Qed.

(** A reserved task id is fresh. Reservation takes the number after the
    highest one in use by a task row or a task file, its loop succeeds in the
    first round, the row it inserts replaces nothing and its task file does not
    exist yet; when the 32-bit numbers are exhausted it fails and changes
    nothing. *)
Theorem reserved_id_is_fresh w :
  schema_ready (w_db w) →
  let a := artifact_for (highest_number w + 1) in
  (highest_number w + 1 < u32_modulus →
     reserve_task_artifact w = (Ok a, set_task (ta_id a) (task_row_default (ta_path a) (as_str Unknown)) w) ∧
     d_tasks (w_db w) !! ta_id a = None ∧ w_files w !! ta_path a = None ∧
     (∀ id t n, d_tasks (w_db w) !! id = Some t → like_task_id id = true → parse_task_number id = Some n →
        n < highest_number w + 1)) ∧
  (u32_modulus ≤ highest_number w + 1 → ∃ e, reserve_task_artifact w = (Err e, w)).
Proof.
  intros Hs a. split.
  - intros Hn. split_and!; [by apply reserve_run|by apply artifact_row_fresh|by apply artifact_file_fresh|].
    intros id t n Ht Hlike Hp. assert (id ∈ map fst (tasks_where (λ id _, like_task_id id) (w_db w))) as Hin.
    { apply list_elem_of_fmap. exists (id, t). split; [done|]. by apply elem_of_tasks_where. }
    pose proof (max_numbers_bound _ _ _ Hin Hp). unfold highest_number. lia.
  - intros Hn. eexists. unfold reserve_task_artifact. eapply bind_eq; [reflexivity|].
    eapply bind_eq; [by apply open_run|]. unfold transaction.
    rewrite (bind_run _ _ _ _ _ (eq_refl : max_task_number_in_database w = (Ok _, w))), (bind_run _ _ _ _ _ (get_db_eq w)).
    change (Z.max _ _) with (highest_number w). unfold u32_checked_add.
    destruct (Z.ltb_spec (highest_number w + 1) u32_modulus) as [|_]; [lia|]. simpl. by destruct w.
Qed.

(** *** Enqueueing *)
Definition pending_row (a : TaskArtifact) (s m : option string) : task_row :=
  (task_row_default (ta_path a) (as_str Pending)) <| t_spec_path := s |> <| t_milestone_id := m |>.

Lemma duplicate_origin_None id s m d : duplicate_origin id s m d = None ↔
  ∀ sp mi i t, s = Some sp → m = Some mi → i ≠ id → d_tasks d !! i = Some t → open_origin sp mi t = false.
Proof.
  unfold duplicate_origin. destruct s as [sp|]; [|by split]. destruct m as [mi|]; [|by split].
  split.
  - intros H sp' mi' i t [= <-] [= <-] Hne Ht. destruct (open_origin sp mi t) eqn:E; [|done]. exfalso.
    destruct (order_by by_id _) as [|x l] eqn:Eo in H; [|done].
    apply (proj1 (order_by_nil by_id _)) in Eo. apply (not_elem_of_nil (i, t)). rewrite <- Eo. apply elem_of_tasks_where.
    by rewrite E, bool_decide_eq_false_2.
  - intros H. destruct (order_by by_id _) as [|[i t] l] eqn:Eo; [done|]. exfalso.
    apply (order_by_head by_id) in Eo as [Hin _]. apply elem_of_tasks_where in Hin as [Ht [Ho Hne]%andb_true_iff].
    rewrite (H sp mi i t) in Ho; try done. intros ->. by rewrite bool_decide_eq_true_2 in Hne.
Qed.

Lemma finalize_run a s m t w : schema_ready (w_db w) → d_tasks (w_db w) !! ta_id a = Some t → t_status t = as_str Unknown →
  match duplicate_origin (ta_id a) s m (w_db w) with
  | None => ∃ w', finalize_task_artifact_reservation a s m w = (Ok tt, w') ∧
      only_task (ta_id a) (t <| t_status := as_str Pending |> <| t_spec_path := s |> <| t_milestone_id := m |>) w w'
  | Some _ => ∃ e, finalize_task_artifact_reservation a s m w = (Err e, w)
  end.
Proof.
  intros Hs Ht Hst. unfold finalize_task_artifact_reservation.
  destruct (duplicate_origin (ta_id a) s m (w_db w)) as [dup|] eqn:Ed.
  - eexists. eapply bind_eq; [by apply open_run|]. unfold transaction. rewrite (bind_run _ _ _ _ _ (get_db_eq w)), Ed.
    simpl. by destruct w.
  - eexists. split.
    + eapply bind_eq; [by apply open_run|]. apply transaction_Ok. eapply bind_eq; [apply get_db_eq|]. rewrite Ed.
      eapply bind_eq; [reflexivity|]. eapply bind_eq; [apply (update_task_where_run _ _ _ t); [done|by apply bool_decide_eq_true]|].
      apply insert_event_in_transaction_none.
    + apply only_task_add_event, only_task_set.
Qed.

(** Removing a reservation nobody refers to brings the task table back. *)
Lemma discard_run a w m :
  schema_ready (w_db w) → m !! ta_id a = None →
  d_tasks (w_db w) = <[ta_id a := task_row_default (ta_path a) (as_str Unknown)]> m →
  (∀ i r, d_runs (w_db w) !! i = Some r → r_task_id r ≠ ta_id a) →
  ∃ w', discard_task_artifact_reservation a w = (Ok tt, w') ∧ d_tasks (w_db w') = m ∧ d_runs (w_db w') = d_runs (w_db w) ∧
    w_files w' !! ta_path a = None.
Proof.
  intros Hs Hf Ht Hr. eexists. split.
  - unfold discard_task_artifact_reservation. eapply bind_eq; [reflexivity|]. eapply bind_eq; [reflexivity|].
    eapply bind_eq; [by apply open_run|]. unfold delete_task_where. eapply bind_eq; [apply get_db_eq|].
    cbn [w_db set_field]. rewrite Ht, lookup_insert_eq. cbv beta iota. change (negb _) with false. cbv iota.
    destruct (existsb _ _) eqn:E; [|reflexivity]. exfalso. apply existsb_exists in E as ([i r] & Hin & Hid%bool_decide_eq_true).
    apply list_elem_of_In, elem_of_map_to_list in Hin. by apply (Hr i r).
  - cbn. rewrite Ht, delete_insert_id by done. split_and!; try done.
    apply map_lookup_filter_None. left. apply lookup_delete_eq.
Qed.

Lemma undo_reservation_run a e w (files : gmap string string) :
  schema_ready (w_db w) → wf w → d_tasks (w_db w) !! ta_id a = None →
  let row := task_row_default (ta_path a) (as_str Unknown) in
  ∃ w', undo_reservation a e ((set_task (ta_id a) row w) <| w_files := files |>) = (Err e, w') ∧
    d_tasks (w_db w') = d_tasks (w_db w) ∧ d_runs (w_db w') = d_runs (w_db w) ∧ w_files w' !! ta_path a = None.
Proof.
  intros Hs Hw Hfresh row.
  destruct (discard_run a ((set_task (ta_id a) row w) <| w_files := files |>) (d_tasks (w_db w)))
    as (w' & Hd & H1 & H2 & H3); try done.
  - intros i r Hr E. destruct (dw_run_task _ Hw i r Hr) as [t Ht]. by rewrite E, Hfresh in Ht.
  - exists w'. split; [|done]. eapply bind_eq; [|reflexivity]. unfold catch. by rewrite Hd.
Qed.
Lemma duplicate_origin_set id row s m w :
  duplicate_origin id s m (w_db (set_task id row w)) = None ↔ duplicate_origin id s m (w_db w) = None.
Proof.
  rewrite !duplicate_origin_None. simpl. split; intros H sp mi i t Es Em Hne Ht; apply (H sp mi i t); try done.
  - by rewrite lookup_insert_ne.
  - by rewrite lookup_insert_ne in Ht.
Qed.

(** Enqueueing is all or nothing and never duplicates a milestone. When
    the task file can be written and no unfinished task has the same spec and
    milestone, the new task is pending with that origin and its description is
    on disk; otherwise the call fails and leaves neither a row nor a task
    file behind. *)
Theorem enqueue_all_or_nothing desc s m w :
  schema_ready (w_db w) → wf w → highest_number w + 1 < u32_modulus →
  let a := artifact_for (highest_number w + 1) in
  if write_ok (ta_path a) && none (duplicate_origin (ta_id a) s m (w_db w)) then
    ∃ w', create_pending_task_artifact desc s m w = (Ok a, w') ∧
      d_tasks (w_db w') = <[ta_id a := pending_row a s m]> (d_tasks (w_db w)) ∧ d_runs (w_db w') = d_runs (w_db w) ∧
      w_files w' !! ta_path a = Some desc ∧
      (∀ sp mi i t, s = Some sp → m = Some mi → d_tasks (w_db w') !! i = Some t → i ≠ ta_id a → open_origin sp mi t = false)
  else
    ∃ e w', create_pending_task_artifact desc s m w = (Err e, w') ∧
      d_tasks (w_db w') = d_tasks (w_db w) ∧ d_runs (w_db w') = d_runs (w_db w) ∧ w_files w' !! ta_path a = None.
Proof.
  intros Hs Hw Hn a. pose proof (reserve_run w Hs Hn) as Hres. cbv zeta in Hres. fold a in Hres.
  pose proof (artifact_row_fresh w Hn) as Hfresh. fold a in Hfresh.
  set (row := task_row_default (ta_path a) (as_str Unknown)) in *.
  pose proof (λ files e, undo_reservation_run a e w files Hs Hw Hfresh) as Hclean. cbv zeta in Hclean.
  pose proof (duplicate_origin_set (ta_id a) row s m w) as Hdup. fold row in Hclean.
  unfold create_pending_task_artifact. rewrite (bind_run _ _ _ _ _ Hres).
  destruct (write_ok (ta_path a)) eqn:Hwr; cbn [andb].
  2: { destruct (Hclean (w_files w) (Bail "Failed to write {}" [ta_path a])) as (w' & Hc & Hrest).
       eexists _, w'. split; [|done]. apply bind_Err. left. unfold catch at 1.
       unfold write_path, mbind at 1, st_bind at 1. rewrite Hwr. cbn [bail fail]. exact Hc. }
  set (w1 := (set_task (ta_id a) row w) <| w_files := <[ta_path a := desc]> (w_files w) |>).
  assert (write_path (ta_path a) desc (set_task (ta_id a) row w) = (Ok tt, w1)) as Hwp by (unfold write_path; by rewrite Hwr).
  pose proof (finalize_run a s m row w1) as Hfin. specialize (Hfin Hs (lookup_insert_eq _ _ _) eq_refl).
  change (w_db w1) with (w_db (set_task (ta_id a) row w)) in Hfin.
  destruct (duplicate_origin (ta_id a) s m (w_db w)) as [dup|] eqn:Ed; cbn [none some negb].
  - destruct (duplicate_origin (ta_id a) s m (w_db (set_task (ta_id a) row w))) as [dup'|]; [|discriminate (proj1 Hdup eq_refl)].
    destruct Hfin as (e & Hfin). destruct (Hclean (<[ta_path a := desc]> (w_files w)) e) as (w' & Hc & Hrest).
    exists e, w'. split; [|done]. apply bind_Err. left. unfold catch at 1. rewrite (bind_run _ _ _ _ _ Hwp), Hfin. exact Hc.
  - rewrite (proj2 Hdup eq_refl) in Hfin. destruct Hfin as (w' & Hfin & T & R & P & S & F). exists w'. split_and!.
    + eapply bind_eq; [|reflexivity]. unfold catch at 1. by rewrite (bind_run _ _ _ _ _ Hwp), Hfin.
    + rewrite T. unfold w1. simpl. by rewrite insert_insert_eq.
    + by rewrite R.
    + rewrite F. unfold w1. simpl. apply lookup_insert_eq.
    + intros sp mi i t Es Em Ht Hne. rewrite T in Ht. unfold w1 in Ht. simpl in Ht. rewrite !lookup_insert_ne in Ht by done.
      by apply (proj1 (duplicate_origin_None (ta_id a) s m (w_db w)) Ed sp mi i t).
Qed.

(** *** Legacy rows *)

Lemma retire_idle_run u w : schema_ready (w_db w) → d_tasks (w_db w) !! CURRENT_TASK_ID = Some u → legacy_active (t_status u) = false →
  retire_legacy_current_task_row w = (Ok tt, set_task CURRENT_TASK_ID (retired_row u) w).
Proof.
  intros Hs Hu E. unfold retire_legacy_current_task_row. eapply bind_eq; [by apply open_run|].
  apply transaction_Ok. eapply bind_eq; [apply (select_task_some _ _ _ Hu)|]. cbv iota. rewrite E.
  eapply bind_eq; [reflexivity|]. by eapply bind_eq; [apply (update_task_run _ _ u)|].
Qed.
Lemma retire_active_run t w : schema_ready (w_db w) → d_tasks (w_db w) !! CURRENT_TASK_ID = Some t → legacy_active (t_status t) = true →
  ∃ w' now, retire_legacy_current_task_row w = (Ok tt, w') ∧ schema_part (w_db w') = schema_part (w_db w) ∧
    d_runs (w_db w') = move_run now <$> d_runs (w_db w) ∧
    d_tasks (w_db w') = <[CURRENT_TASK_ID := retired_row t]>
      (match d_tasks (w_db w) !! "t-001" with
       | Some _ => d_tasks (w_db w)
       | None => <["t-001" := adopted_row t]> (d_tasks (w_db w))
       end).
Proof.
  intros Hs Ht E. eexists _, _. split.
  - unfold retire_legacy_current_task_row. eapply bind_eq; [by apply open_run|]. apply transaction_Ok.
    eapply bind_eq; [apply (select_task_some _ _ _ Ht)|]. cbv iota. rewrite E.
    eapply bind_eq; [eapply bind_eq; [reflexivity|]; eapply bind_eq; [apply timestamp_eq|]; reflexivity|].
    eapply bind_eq; [apply (update_task_run _ _ t)|reflexivity]. simpl. rewrite tick_db. simpl.
    destruct (d_tasks (w_db w) !! "t-001"); [done|]. simpl. by rewrite lookup_insert_ne.
  - unfold schema_part. cbn. rewrite tick_db. cbn. split_and!.
    + by destruct (d_tasks (w_db w) !! "t-001").
    + eapply (f_equal (fmap _)). by destruct (d_tasks (w_db w) !! "t-001").
    + by destruct (d_tasks (w_db w) !! "t-001").
Qed.

(** Retiring the legacy [current] row moves its work to [t-001] once. If the
    row was active, [t-001] exists afterwards (a copy of its state, unless
    [t-001] was there already) and no run refers to [current] any more; the
    [current] row itself ends reset, unclaimed and asking nobody; no other task
    changes; and retiring again changes no task and no run. *)
Theorem legacy_current_row_retired t w :
  schema_ready (w_db w) → d_tasks (w_db w) !! CURRENT_TASK_ID = Some t →
  ∃ w', retire_legacy_current_task_row w = (Ok tt, w') ∧ schema_ready (w_db w') ∧
    d_tasks (w_db w') !! CURRENT_TASK_ID = Some (retired_row t) ∧
    (legacy_active (t_status t) = true →
       d_tasks (w_db w') !! "t-001" = d_tasks (w_db w) !! "t-001" ∪ Some (adopted_row t) ∧
       ∀ i r, d_runs (w_db w') !! i = Some r → r_task_id r ≠ CURRENT_TASK_ID) ∧
    (∀ id, id ≠ CURRENT_TASK_ID → id ≠ "t-001" → d_tasks (w_db w') !! id = d_tasks (w_db w) !! id) ∧
    (∃ w2, retire_legacy_current_task_row w' = (Ok tt, w2) ∧
       d_tasks (w_db w2) = d_tasks (w_db w') ∧ d_runs (w_db w2) = d_runs (w_db w')).
Proof.
  intros Hs Ht. assert (∃ w', retire_legacy_current_task_row w = (Ok tt, w') ∧ schema_ready (w_db w') ∧
    d_tasks (w_db w') !! CURRENT_TASK_ID = Some (retired_row t) ∧
    (legacy_active (t_status t) = true →
       d_tasks (w_db w') !! "t-001" = d_tasks (w_db w) !! "t-001" ∪ Some (adopted_row t) ∧
       ∀ i r, d_runs (w_db w') !! i = Some r → r_task_id r ≠ CURRENT_TASK_ID) ∧
    (∀ id, id ≠ CURRENT_TASK_ID → id ≠ "t-001" → d_tasks (w_db w') !! id = d_tasks (w_db w) !! id))
    as (w' & H & Hs' & Hc & Hact & Hoth).
  { destruct (legacy_active (t_status t)) eqn:E.
    - destruct (retire_active_run t w Hs Ht E) as (w' & now & H & Hsp & Hr & Htk). exists w'. split; [done|].
      split; [by eapply schema_ready_part|]. rewrite Htk. split_and!; [by rewrite lookup_insert_eq| |].
      + intros _. split.
        * rewrite lookup_insert_ne by done. destruct (d_tasks (w_db w) !! "t-001") eqn:Eq; cbn; [by rewrite Eq|].
          by rewrite lookup_insert_eq.
        * rewrite Hr. intros i r (r0 & <- & _)%lookup_fmap_Some. unfold move_run. by case_bool_decide.
      + intros id H1 H2. rewrite lookup_insert_ne by done. destruct (d_tasks (w_db w) !! "t-001"); [done|].
        by rewrite lookup_insert_ne.
    - eexists. split; [by apply retire_idle_run|]. split_and!; try done.
      + cbn. by rewrite lookup_insert_eq.
      + intros id H1 H2. cbn. by rewrite lookup_insert_ne. }
  exists w'. split_and!; try done. eexists. split; [by apply (retire_idle_run (retired_row t))|]. cbn. split; [|done].
  by rewrite insert_id.
Qed.
End behaviour.
