(* ===== verification/CanonicalGraph.v ===== *)
(** Repository-view references of tasks and runs, and the state of the
    canonical repository graph ([src/src/project/graph.rs]). *)
From S2P Require Import Prelude Status View Chrono Database WellFormed Schema Exec Store Claims Runs Task.

(** ** Canonical graph data ([src/src/project.rs]) *)
Inductive CanonicalGraphStatus : Type := CUnknown | CStale | CFresh.
#[global] Instance CanonicalGraphStatus_eq_dec : EqDecision CanonicalGraphStatus.
Proof. solve_decision. Defined.

Definition canonical_status_from_database (v : string) : result CanonicalGraphStatus :=
  if bool_decide (v = "unknown") then Ok CUnknown
  else if bool_decide (v = "stale") then Ok CStale
  else if bool_decide (v = "fresh") then Ok CFresh
  else Err (Bail "Unknown canonical graph status in ferrus.db: {value:?}" [v]).

Record CanonicalSourceIdentity := SourceIdentity { source_revision_id : SourceRevisionId; manifest_digest : Digest }.
Record CanonicalGraphReference := GraphReference {
  cg_source : option CanonicalSourceIdentity;
  cg_snapshot_id : option SnapshotId;
  cg_status : CanonicalGraphStatus }.
Record CanonicalGraphRefreshGuard := RefreshGuard { invalidation_event_id : Z; refresh_event_id : Z }.
Inductive CanonicalGraphRefreshOutcome : Type := Recorded | Superseded.
Record RepositoryGraphRetentionReferences := Retention { snapshot_ids : gset string; view_names : gset string }.

Inductive CanonicalInvalidationReason : Type := ApprovedIntegration | PartialMutation | SourceComparisonUnavailable.
Definition reason_as_str (r : CanonicalInvalidationReason) : string :=
  match r with
  | ApprovedIntegration => "approved_integration"
  | PartialMutation => "partial_mutation"
  | SourceComparisonUnavailable => "source_comparison_unavailable"
  end.

Section graph.
Context {CH : Chrono}.

(** ** Retention *)

(** [tasks LEFT JOIN runs ON runs.task_id = tasks.id]; [runs.status NOT IN (..)]
    is not true for the missing run. *)
Definition joined_rows (d : db) : list (string * task_row * option run_row) :=
  mbind (λ x : string * task_row,
    match order_by by_id (runs_where (λ _ r, bool_decide (r_task_id r = x.1)) d) with
    | [] => [(x.1, x.2, None)]
    | rs => map (λ y, (x.1, x.2, Some y.2)) rs
    end) (order_by by_id (tasks_where (λ _ _, true) d)).
Definition finished_task (s : string) : bool :=
  bool_decide (s = "complete") || bool_decide (s = "failed") || bool_decide (s = "reset").
Definition finished_run (s : string) : bool :=
  bool_decide (s = "completed") || bool_decide (s = "failed") || bool_decide (s = "interrupted").
Definition retained_row (x : string * task_row * option run_row) : bool :=
  negb (finished_task (t_status x.1.2))
  || match x.2 with Some r => negb (finished_run (r_status r)) | None => false end.

(** [SnapshotId::new(..)?] for every value, collected into the set. *)
Fixpoint snapshot_set (acc : gset string) (l : list string) : result (gset string) :=
  match l with
  | [] => Ok acc
  | s :: l => _ ← opaque_id_new "snapshot id" s; snapshot_set ({[s]} ∪ acc) l
  end.
Definition row_snapshots (x : string * task_row * option run_row) : list string :=
  omap id [c_baseline (t_view x.1.2); c_view_snapshot (t_view x.1.2);
           x.2 ≫= λ r, c_baseline (r_view r); x.2 ≫= λ r, c_view_snapshot (r_view r)].
Definition row_names (x : string * task_row * option run_row) : list string :=
  [("task-baseline:" +:+ x.1.1)%string; ("task-overlay:" +:+ x.1.1)%string].

Definition repository_graph_retention_references_at : st world RepositoryGraphRetentionReferences :=
  open_runtime_database ;;
  d ← get_db;
  let rows := filter (λ x, retained_row x = true) (joined_rows d) in
  snapshots ← lift_result (snapshot_set ∅ (mbind row_snapshots rows));
  let names := list_to_set (mbind row_names rows) in
  snapshots ← lift_result (snapshot_set snapshots (option_list (r ← d_prs d; p_graph_snapshot_id r)));
  mret (Retention snapshots names).

(** ** Canonical graph state *)
Definition canonical_graph_reference_from_database (r : prs_row) : result CanonicalGraphReference :=
  source ← match p_source_revision_id r, p_manifest_algorithm r, p_manifest_digest r with
           | Some revision, Some alg, Some val =>
             rev ← opaque_id_new "source revision id" revision;
             dig ← digest_new alg val;
             Ok (Some (SourceIdentity rev dig))
           | None, None, None => Ok None
           | _, _, _ => Err (Bail "Incomplete canonical source identity in ferrus.db" [])
           end;
  snapshot ← transpose_new "snapshot id" (p_graph_snapshot_id r);
  status ← canonical_status_from_database (p_graph_status r);
  Ok (GraphReference source snapshot status).

Definition canonical_graph_reference : st world CanonicalGraphReference :=
  d ← get_db;
  match d_prs d with
  | None => fail (SqlConstraint "Query returned no rows")
  | Some r => lift_result (canonical_graph_reference_from_database r)
  end.

(** [SELECT COALESCE(MAX(id), 0) FROM events WHERE type = ..] *)
Definition latest_event_id (type : string) (d : db) : Z :=
  foldr Z.max 0 (map e_id (filter (λ e, e_type e = type) (d_events d))).
Definition latest_canonical_graph_invalidation_event_id : db → Z := latest_event_id "canonical_graph_invalidated".
Definition latest_canonical_graph_refresh_event_id : db → Z := latest_event_id "canonical_graph_refreshed".

Definition canonical_graph_refresh_guard : st world CanonicalGraphRefreshGuard :=
  d ← get_db;
  mret (RefreshGuard (latest_canonical_graph_invalidation_event_id d) (latest_canonical_graph_refresh_event_id d)).

Definition guard_current (g : CanonicalGraphRefreshGuard) (d : db) : bool :=
  bool_decide (latest_canonical_graph_invalidation_event_id d = invalidation_event_id g)
  && bool_decide (latest_canonical_graph_refresh_event_id d = refresh_event_id g).

Definition record_canonical_graph_invalidation_at (task_id : string) (run_id : option string)
    (source : option CanonicalSourceIdentity) (reason : CanonicalInvalidationReason) : st world unit :=
  open_runtime_database ;;
  transaction (
    ensure_project_runtime_state_row ;;
    now ← timestamp;
    update_prs (λ r, r <| p_source_revision_id := (λ s, id_as_str (source_revision_id s)) <$> source |>
                       <| p_manifest_algorithm := (λ s, algorithm (manifest_digest s)) <$> source |>
                       <| p_manifest_digest := (λ s, value (manifest_digest s)) <$> source |>
                       <| p_graph_status := "stale" |> <| p_graph_updated_at := Some now |> <| p_updated_at := now |>) ;;
    insert_event_in_transaction run_id "canonical_graph_invalidated"
      [("task_id", JStr task_id); ("reason", JStr (reason_as_str reason));
       ("source_revision_id", jopt ((λ s, id_as_str (source_revision_id s)) <$> source));
       ("manifest_digest", jopt ((λ s, value (manifest_digest s)) <$> source))]).
Definition record_canonical_graph_invalidation := record_canonical_graph_invalidation_at.
Definition record_canonical_graph_invalidation_best_effort (task_id : string) (run_id : option string)
    (source : option CanonicalSourceIdentity) (reason : CanonicalInvalidationReason) : st world unit :=
  best_effort (record_canonical_graph_invalidation task_id run_id source reason) ;; mret tt.

(** The columns a recorded refresh writes. *)
Definition refreshed_row (source : CanonicalSourceIdentity) (snapshot : SnapshotId) (now : string) (r : prs_row) : prs_row :=
  r <| p_source_revision_id := Some (id_as_str (source_revision_id source)) |>
    <| p_manifest_algorithm := Some (algorithm (manifest_digest source)) |>
    <| p_manifest_digest := Some (value (manifest_digest source)) |>
    <| p_graph_snapshot_id := Some (id_as_str snapshot) |> <| p_graph_status := "fresh" |>
    <| p_graph_updated_at := Some now |> <| p_updated_at := now |>.

Definition record_canonical_graph_refresh (task_id run_id : option string) (guard : CanonicalGraphRefreshGuard)
    (source : CanonicalSourceIdentity) (snapshot : SnapshotId) (build : BuildId) : st world CanonicalGraphRefreshOutcome :=
  open_runtime_database ;;
  transaction (
    ensure_project_runtime_state_row ;;
    now ← timestamp;
    d ← get_db;
    updated ← update_prs_where (λ _, guard_current guard d) (refreshed_row source snapshot now);
    if bool_decide (updated = 0) then mret Superseded
    else
      insert_event_in_transaction run_id "canonical_graph_refreshed"
        [("task_id", jopt task_id); ("source_revision_id", JStr (id_as_str (source_revision_id source)));
         ("snapshot_id", JStr (id_as_str snapshot)); ("build_id", JStr (id_as_str build))] ;;
      mret Recorded).

Definition record_canonical_graph_refresh_failed_best_effort (task_id : string) (run_id : option string)
    (guard : CanonicalGraphRefreshGuard) : st world unit :=
  best_effort (
    open_runtime_database ;;
    transaction (
      ensure_project_runtime_state_row ;;
      now ← timestamp;
      d ← get_db;
      updated ← update_prs_where (λ _, guard_current guard d)
        (λ r, r <| p_graph_status := "stale" |> <| p_graph_updated_at := Some now |> <| p_updated_at := now |>);
      insert_event_in_transaction run_id "canonical_graph_refresh_failed"
        [("task_id", JStr task_id); ("failure_code", JStr "canonical_refresh_failed");
         ("state_updated", JBool (bool_decide (updated = 1)))])) ;;
  mret tt.

(** ** Repository views *)
Definition owner_repository_view_at (owner_table owner_id : string) : st world (option RepositoryViewReference) :=
  open_runtime_database ;;
  d ← get_db;
  match (if bool_decide (owner_table = "tasks") then t_view <$> d_tasks d !! owner_id else r_view <$> d_runs d !! owner_id) with
  | None => mret None
  | Some c => v ← lift_result (repository_view_reference_from_database c); mret (Some v)
  end.
Definition task_repository_view (task_id : string) := owner_repository_view_at "tasks" task_id.
Definition run_repository_view (run_id : string) := owner_repository_view_at "runs" run_id.
Definition task_repository_view_at := task_repository_view.

(** The second [UPDATE]: runs of the task that have no usable view take it over. *)
Definition inherit_view (task_id : string) (v : view_cols) (r : run_row) : run_row :=
  if bool_decide (r_task_id r = task_id) && none (c_baseline (r_view r))
     && (bool_decide (c_status (r_view r) = "not_built") || bool_decide (c_status (r_view r) = "unavailable")
         || bool_decide (c_status (r_view r) = "failed"))
  then r <| r_view := v |> else r.

Definition record_repository_view_in_transaction (owner_table owner_id : string) (view : RepositoryViewReference) :
    st world unit :=
  let v := view_to_cols view in
  updated ← update_view_cols owner_table owner_id v;
  if bool_decide (updated = 0) then bail "Cannot record repository view: {owner_table} row does not exist" [owner_table]
  else if bool_decide (owner_table = "tasks")
  then put_db (λ d, d <| d_runs := inherit_view owner_id v <$> d_runs d |>)
  else mret tt.

Definition record_repository_view_at (owner_table owner_id : string) (view : RepositoryViewReference) : st world unit :=
  lift_result (validate view) ;;
  open_runtime_database ;;
  transaction (record_repository_view_in_transaction owner_table owner_id view).
Definition record_task_repository_view_at (task_id : string) (view : RepositoryViewReference) : st world unit :=
  record_repository_view_at "tasks" task_id view.
Definition record_task_repository_view := record_task_repository_view_at.
Definition record_run_repository_view (run_id : string) (view : RepositoryViewReference) : st world unit :=
  record_repository_view_at "runs" run_id view.

Definition compare_and_record_task_repository_view_at (task_id : string) (expected view : RepositoryViewReference) :
    st world bool :=
  lift_result (validate expected) ;;
  lift_result (validate view) ;;
  open_runtime_database ;;
  transaction (
    t ← select_task task_id;
    match t with
    | None => bail "Cannot record repository view: tasks row does not exist" []
    | Some t =>
      current ← lift_result (repository_view_reference_from_database (t_view t));
      if negb (bool_decide (current = expected)) then mret false
      else record_repository_view_in_transaction "tasks" task_id view ;; mret true
    end).

(** ** Invariant *)
Lemma preserves_invalidation id r s reason : preserves wf (record_canonical_graph_invalidation_at id r s reason).
Proof. unfold record_canonical_graph_invalidation_at. solve_wf. Qed.
Lemma preserves_refresh t r g s sn b : preserves wf (record_canonical_graph_refresh t r g s sn b).
Proof. unfold record_canonical_graph_refresh. solve_wf. Qed.
Lemma preserves_refresh_failed t r g : preserves wf (record_canonical_graph_refresh_failed_best_effort t r g).
Proof. unfold record_canonical_graph_refresh_failed_best_effort. solve_wf. Qed.

Lemma db_wf_map_runs (f : run_row → run_row) d :
  (∀ r, run_wf r → run_wf (f r)) → (∀ r, r_task_id (f r) = r_task_id r) → db_wf d → db_wf (d <| d_runs := f <$> d_runs d |>).
Proof.
  intros Hf Hid Hd. split; simpl; try (by destruct Hd).
  - intros i r Hi. apply lookup_fmap_Some in Hi as (r0 & <- & Hr0). apply Hf. exact (dw_runs _ Hd _ _ Hr0).
  - intros i r Hi. apply lookup_fmap_Some in Hi as (r0 & <- & Hr0). rewrite Hid. exact (dw_run_task _ Hd _ _ Hr0).
  - eapply Forall_impl; [exact (dw_event_run _ Hd)|]. intros e He. cbn beta in *. destruct (e_run_id e); [|done]. simpl in *.
    rewrite lookup_fmap. by apply fmap_is_Some.
Qed.
Lemma preserves_record_view_in o i v : validate v = Ok tt → preserves wf (record_repository_view_in_transaction o i v).
Proof.
  intros Hv. unfold record_repository_view_in_transaction. cbv zeta. wf_step; [by apply preserves_update_view_cols|].
  wf_step; [wf_step|]. wf_step; [|wf_step]. apply preserves_put_db. intros d. apply db_wf_map_runs.
  - intros r []. unfold inherit_view. destruct (_ && _); split; simpl; auto using view_ok_to_cols.
  - intros r. unfold inherit_view. by destruct (_ && _).
Qed.
(** [validate(..)?] gates what follows on a valid view. *)
Lemma preserves_validated {A} (v : RepositoryViewReference) (m : st world A) :
  (validate v = Ok tt → preserves wf m) → preserves wf (lift_result (validate v) ;; m).
Proof.
  intros Hm w Hw. unfold lift_result, mbind, st_bind. destruct (validate v) as [[]|e]; [|done]. by apply Hm.
Qed.
Lemma preserves_record_view o i v : preserves wf (record_repository_view_at o i v).
Proof.
  apply preserves_validated. intros Hv. pose proof (preserves_record_view_in o i v Hv). solve_wf.
Qed.
Lemma preserves_compare_and_record id e v : preserves wf (compare_and_record_task_repository_view_at id e v).
Proof.
  apply preserves_validated. intros _. apply preserves_validated. intros Hv.
  pose proof (preserves_record_view_in "tasks" id v Hv). solve_wf.
Qed.
End graph.
#[export] Hint Resolve preserves_invalidation preserves_refresh preserves_refresh_failed preserves_record_view
  preserves_compare_and_record : preserves.

(** ** Behaviour *)
Section behaviour.
Context {CH : Chrono}.

Definition set_prs (p : prs_row) (w : world) : world := w <| w_db := (w_db w) <| d_prs := Some p |> |>.
(** The row [ensure_project_runtime_state_row] leaves. *)
Definition ensured_prs (w : world) : prs_row := default (prs_default (rfc3339_secs (w_clock (tick w)))) (d_prs (w_db w)).

Lemma set_prs_tasks p w : d_tasks (w_db (set_prs p w)) = d_tasks (w_db w).
Proof. done. Qed.
Lemma set_prs_runs p w : d_runs (w_db (set_prs p w)) = d_runs (w_db w).
Proof. done. Qed.
Lemma set_prs_events p w : d_events (w_db (set_prs p w)) = d_events (w_db w).
Proof. done. Qed.
Lemma set_prs_seq p w : d_event_seq (w_db (set_prs p w)) = d_event_seq (w_db w).
Proof. done. Qed.
Lemma set_prs_prs p w : d_prs (w_db (set_prs p w)) = Some p.
Proof. done. Qed.
Lemma latest_event_id_events ty d d' : d_events d' = d_events d → latest_event_id ty d' = latest_event_id ty d.
Proof. unfold latest_event_id. by intros ->. Qed.
Lemma guard_current_events g d d' : d_events d' = d_events d → guard_current g d' = guard_current g d.
Proof.
  intros H. unfold guard_current, latest_canonical_graph_invalidation_event_id, latest_canonical_graph_refresh_event_id.
  by rewrite !(latest_event_id_events _ _ _ H).
Qed.
#[local] Hint Rewrite set_prs_tasks set_prs_runs set_prs_events set_prs_seq set_prs_prs : world.

Lemma ensure_prs_eq w : ensure_project_runtime_state_row w = (Ok tt, set_prs (ensured_prs w) (tick w)).
Proof.
  unfold ensure_project_runtime_state_row. eapply bind_eq; [apply timestamp_eq|]. unfold put_db, modify, set_prs, ensured_prs.
  rewrite tick_db. destruct (tick w) as [d c tk fs] eqn:E. pose proof (tick_db w) as Ht. rewrite E in Ht. simpl in Ht. subst d.
  simpl. destruct (w_db w) as [ts rs es sq p ar me uv hi co]. simpl. by destruct p.
Qed.
Lemma update_prs_where_run q f p w : d_prs (w_db w) = Some p →
  update_prs_where q f w = if q p then (Ok 1, set_prs (f p) w) else (Ok 0, w).
Proof.
  intros H. unfold update_prs_where. rewrite (bind_run _ _ _ _ _ (get_db_eq w)), H. by destruct (q p).
Qed.

(** *** Event ids *)
Lemma foldr_max_app l n : foldr Z.max 0 (l ++ [n])%list = Z.max (foldr Z.max 0 l) (Z.max n 0).
Proof. induction l as [|x l IH]; simpl; [lia|]. rewrite IH. lia. Qed.
Lemma foldr_max_le l n : (∀ x, x ∈ l → x ≤ n) → 0 ≤ n → foldr Z.max 0 l ≤ n.
Proof.
  intros Hl Hn. induction l as [|x l IH]; simpl; [done|]. apply Z.max_lub; [apply Hl; left|]. apply IH. intros y Hy. apply Hl. by right.
Qed.
Lemma foldr_max_mono l l' : foldr Z.max 0 l ≤ foldr Z.max 0 (l ++ l')%list.
Proof. induction l as [|x l IH]; simpl; [|lia]. induction l' as [|y l' IH]; simpl; lia. Qed.
Lemma latest_event_id_bound ty w : wf w → latest_event_id ty (w_db w) ≤ d_event_seq (w_db w).
Proof.
  intros Hw. unfold latest_event_id. apply foldr_max_le; [|exact (dw_seq _ Hw)].
  intros x (e & -> & [_ He]%list_elem_of_filter)%list_elem_of_fmap.
  pose proof (dw_event_range _ Hw) as Hr. rewrite Forall_forall in Hr. specialize (Hr e He). simpl in Hr. lia.
Qed.
Lemma latest_event_id_mono ty d d' l : d_events d' = (d_events d ++ l)%list → latest_event_id ty d ≤ latest_event_id ty d'.
Proof. intros H. unfold latest_event_id. rewrite H, filter_app, map_app. apply foldr_max_mono. Qed.
Lemma latest_event_id_add ty r p w : 0 ≤ d_event_seq (w_db w) → latest_event_id ty (w_db w) ≤ d_event_seq (w_db w) →
  latest_event_id ty (w_db (add_event r ty p w)) = d_event_seq (w_db w) + 1.
Proof.
  intros H0 Hb. unfold latest_event_id, add_event. simpl. rewrite tick_db, filter_app, map_app. cbn [filter].
  rewrite filter_cons_True, filter_nil by done. simpl. rewrite foldr_max_app. unfold latest_event_id in Hb. lia.
Qed.
Lemma add_event_events r ty p w : ∃ e, d_events (w_db (add_event r ty p w)) = (d_events (w_db w) ++ [e])%list.
Proof. eexists. unfold add_event. simpl. by rewrite tick_db. Qed.

Lemma invalidation_run id run source reason w :
  schema_ready (w_db w) → run_known run w → wf w →
  ∃ w', record_canonical_graph_invalidation_at id run source reason w = (Ok tt, w') ∧
    latest_canonical_graph_invalidation_event_id (w_db w') = d_event_seq (w_db w) + 1 ∧
    (∃ p, d_prs (w_db w') = Some p ∧ p_graph_status p = "stale").
Proof.
  intros Hs Hr Hw. eexists. split; [|split].
  - unfold record_canonical_graph_invalidation_at. eapply bind_eq; [by apply open_run|]. apply transaction_Ok.
    eapply bind_eq; [apply ensure_prs_eq|]. eapply bind_eq; [apply timestamp_eq|].
    eapply bind_eq; [unfold update_prs; erewrite update_prs_where_run by (rewrite tick_db; reflexivity); reflexivity|].
    apply insert_event_in_transaction_run. unfold run_known in *. by autorewrite with world.
  - unfold latest_canonical_graph_invalidation_event_id. rewrite latest_event_id_add; autorewrite with world; [done| |].
    + exact (dw_seq _ Hw).
    + erewrite (latest_event_id_events _ (w_db w)); [by apply latest_event_id_bound|]. by autorewrite with world.
  - eexists. split; [by autorewrite with world|done].
Qed.

Lemma refresh_superseded t r g s sn b w : schema_ready (w_db w) → guard_current g (w_db w) = false →
  ∃ w', record_canonical_graph_refresh t r g s sn b w = (Ok Superseded, w') ∧ d_prs (w_db w') = Some (ensured_prs w) ∧
    d_events (w_db w') = d_events (w_db w) ∧ d_tasks (w_db w') = d_tasks (w_db w) ∧ d_runs (w_db w') = d_runs (w_db w).
Proof.
  intros Hs Hg. eexists. split.
  - unfold record_canonical_graph_refresh. eapply bind_eq; [by apply open_run|]. apply transaction_Ok.
    eapply bind_eq; [apply ensure_prs_eq|]. eapply bind_eq; [apply timestamp_eq|]. eapply bind_eq; [apply get_db_eq|].
    eapply bind_eq; [erewrite update_prs_where_run by (rewrite tick_db; reflexivity)|].
    + assert (guard_current g (w_db (tick (set_prs (ensured_prs w) (tick w)))) = false) as ->; [|reflexivity].
      rewrite <- Hg. apply guard_current_events. by autorewrite with world.
    + reflexivity.
  - by autorewrite with world.
Qed.

(** A guard taken before an invalidation is no longer current after it. *)
Lemma guard_outdated id run source reason w0 wa wb w2 l l' :
  wf wa → schema_ready (w_db wa) → run_known run wa →
  d_events (w_db wa) = (d_events (w_db w0) ++ l)%list →
  record_canonical_graph_invalidation id run source reason wa = (Ok tt, wb) →
  d_events (w_db w2) = (d_events (w_db wb) ++ l')%list →
  guard_current (RefreshGuard (latest_canonical_graph_invalidation_event_id (w_db w0))
                   (latest_canonical_graph_refresh_event_id (w_db w0))) (w_db w2) = false.
Proof.
  intros Hw Hs Hr Hl Hi Hl'.
  destruct (invalidation_run id run source reason wa Hs Hr Hw) as (wb' & Hi' & Hlat & _).
  unfold record_canonical_graph_invalidation in Hi. rewrite Hi in Hi'. injection Hi' as <-.
  unfold guard_current. apply andb_false_iff. left. apply bool_decide_eq_false. cbn [invalidation_event_id]. intros E.
  pose proof (latest_event_id_bound "canonical_graph_invalidated" wa Hw).
  pose proof (latest_event_id_mono "canonical_graph_invalidated" _ _ _ Hl).
  pose proof (latest_event_id_mono "canonical_graph_invalidated" _ _ _ Hl').
  unfold latest_canonical_graph_invalidation_event_id in *. lia.
Qed.

Lemma refreshed_reads source snapshot now p :
  canonical_graph_reference_from_database (refreshed_row source snapshot now p)
  = Ok (GraphReference (Some source) (Some snapshot) CFresh).
Proof.
  unfold canonical_graph_reference_from_database. cbn [refreshed_row p_source_revision_id p_manifest_algorithm p_manifest_digest
    p_graph_snapshot_id p_graph_status set_field]. rewrite opaque_id_new_as_str. cbn [mbind result_bind].
  rewrite digest_new_fields. cbn [mbind result_bind]. unfold transpose_new. rewrite opaque_id_new_as_str. by destruct source.
Qed.

(** A refresh under a current guard is recorded once. It makes the graph
    fresh with exactly the given source and snapshot, which the reader decodes
    back, and the recorded event supersedes any other refresh that was started
    under the same guard. *)
Theorem refresh_recorded_once g t r s sn b t' r' s' sn' b' w :
  wf w → schema_ready (w_db w) → run_known r w → canonical_graph_refresh_guard w = (Ok g, w) →
  ∃ w', record_canonical_graph_refresh t r g s sn b w = (Ok Recorded, w') ∧
    canonical_graph_reference w' = (Ok (GraphReference (Some s) (Some sn) CFresh), w') ∧
    (∃ w2, record_canonical_graph_refresh t' r' g s' sn' b' w' = (Ok Superseded, w2) ∧
       canonical_graph_reference w2 = (Ok (GraphReference (Some s) (Some sn) CFresh), w2)).
Proof.
  intros Hw Hs Hr Hg. injection Hg as Hg.
  assert (guard_current g (w_db w) = true) as Hcur by (rewrite <- Hg; unfold guard_current; by rewrite !bool_decide_eq_true_2).
  set (w1 := tick (set_prs (ensured_prs w) (tick w))).
  set (row := refreshed_row s sn (rfc3339_secs (w_clock w1)) (ensured_prs w)).
  set (w' := add_event r "canonical_graph_refreshed" [("task_id", jopt t); ("source_revision_id", JStr (id_as_str (source_revision_id s)));
         ("snapshot_id", JStr (id_as_str sn)); ("build_id", JStr (id_as_str b))] (set_prs row w1)).
  assert (d_prs (w_db w') = Some row) as Hrow by (unfold w'; by autorewrite with world).
  assert (schema_ready (w_db w')) as Hs'.
  { apply add_event_schema. eapply schema_ready_part; [|exact Hs]. unfold schema_part. cbn. unfold w1. rewrite tick_db. cbn. by rewrite tick_db. }
  exists w'. split_and!.
  - unfold record_canonical_graph_refresh. eapply bind_eq; [by apply open_run|]. apply transaction_Ok.
    eapply bind_eq; [apply ensure_prs_eq|]. eapply bind_eq; [apply timestamp_eq|]. eapply bind_eq; [apply get_db_eq|].
    eapply bind_eq; [erewrite update_prs_where_run by (rewrite tick_db; reflexivity)|].
    + rewrite (guard_current_events g (w_db w)), Hcur by (by autorewrite with world). reflexivity.
    + cbv iota. eapply bind_eq; [|reflexivity]. apply insert_event_in_transaction_run. unfold run_known in *. fold w1. unfold w1. by autorewrite with world.
  - unfold canonical_graph_reference. eapply bind_eq; [apply get_db_eq|]. rewrite Hrow. unfold lift_result, row. by rewrite refreshed_reads.
  - destruct (refresh_superseded t' r' g s' sn' b' w' Hs') as (w2 & H2 & Hp2 & _).
    + rewrite <- Hg. unfold guard_current. apply andb_false_iff. right. apply bool_decide_eq_false. cbn [refresh_event_id].
      unfold latest_canonical_graph_refresh_event_id, w'.
      pose proof (latest_event_id_bound "canonical_graph_refreshed" w Hw) as Hb.
      rewrite latest_event_id_add; unfold w1; autorewrite with world; [lia|exact (dw_seq _ Hw)|].
      rewrite (latest_event_id_events _ (w_db w)) by (by autorewrite with world). done.
    + exists w2. split; [done|]. unfold canonical_graph_reference. eapply bind_eq; [apply get_db_eq|]. rewrite Hp2.
      unfold ensured_prs. rewrite Hrow. unfold lift_result, row. simpl. by rewrite refreshed_reads.
Qed.

(** *** Views *)
Definition tasks_views_recorded (id : string) (v : view_cols) (t : task_row) (w w' : world) : Prop :=
  d_tasks (w_db w') = <[id := t <| t_view := v |>]> (d_tasks (w_db w)) ∧
  d_runs (w_db w') = inherit_view id v <$> d_runs (w_db w).

Lemma record_task_view_run id v t w : d_tasks (w_db w) !! id = Some t →
  ∃ w', record_repository_view_in_transaction "tasks" id v w = (Ok tt, w') ∧ tasks_views_recorded id (view_to_cols v) t w w'.
Proof.
  intros Ht. eexists. split.
  - unfold record_repository_view_in_transaction, update_view_cols. cbv zeta. rewrite bool_decide_eq_true_2 by done.
    eapply bind_eq; [apply (update_task_run _ _ t w Ht)|]. reflexivity.
  - done.
Qed.

(** Recording a view compares and swaps. With valid views the call answers
    whether the task still has the expected view: if so the task has the new
    view, which reads back unchanged, and every run of the task that had no
    usable view takes it over while all other runs keep theirs; if not, nothing
    changes. *)
Theorem view_compare_and_record id expected view t current w :
  schema_ready (w_db w) → validate expected = Ok tt → validate view = Ok tt →
  d_tasks (w_db w) !! id = Some t → repository_view_reference_from_database (t_view t) = Ok current →
  (current ≠ expected → compare_and_record_task_repository_view_at id expected view w = (Ok false, w)) ∧
  (current = expected → ∃ w', compare_and_record_task_repository_view_at id expected view w = (Ok true, w') ∧
     tasks_views_recorded id (view_to_cols view) t w w' ∧ task_repository_view id w' = (Ok (Some view), w')).
Proof.
  intros Hs He Hv Ht Hc. unfold compare_and_record_task_repository_view_at. split.
  - intros Hne. eapply bind_eq; [unfold lift_result; by rewrite He|]. eapply bind_eq; [unfold lift_result; by rewrite Hv|].
    eapply bind_eq; [by apply open_run|]. apply transaction_Ok. eapply bind_eq; [apply (select_task_some _ _ _ Ht)|]. cbv iota.
    eapply bind_eq; [unfold lift_result; by rewrite Hc|]. by rewrite bool_decide_eq_false_2.
  - intros ->. destruct (record_task_view_run id view t w Ht) as (w' & H & Hrec). exists w'. split; [|split; [done|]].
    + eapply bind_eq; [unfold lift_result; by rewrite He|]. eapply bind_eq; [unfold lift_result; by rewrite Hv|].
      eapply bind_eq; [by apply open_run|]. apply transaction_Ok. eapply bind_eq; [apply (select_task_some _ _ _ Ht)|]. cbv iota.
      eapply bind_eq; [unfold lift_result; by rewrite Hc|]. rewrite bool_decide_eq_true_2 by done. by eapply bind_eq; [exact H|].
    + destruct Hrec as [Htasks Hruns]. unfold task_repository_view, owner_repository_view_at.
      assert (schema_ready (w_db w')) as Hs'.
      { unfold record_repository_view_in_transaction, update_view_cols in H. cbv zeta in H.
        rewrite bool_decide_eq_true_2, (bind_run _ _ _ _ _ (update_task_run _ _ t w Ht)) in H by done. injection H as <-. done. }
      eapply bind_eq; [by apply open_run|]. eapply bind_eq; [apply get_db_eq|]. rewrite bool_decide_eq_true_2 by done.
      rewrite Htasks, lookup_insert_eq. cbn. unfold lift_result, mbind, st_bind. by rewrite view_from_to_cols.
Qed.

(** *** Retention *)
Lemma view_ok_ids c : view_ok c → (∀ s, c_baseline c = Some s → s ≠ "") ∧ (∀ s, c_view_snapshot c = Some s → s ≠ "").
Proof.
  unfold view_ok. destruct (repository_view_reference_from_database c) as [v|] eqn:E; [|done]. intros _.
  apply view_to_from_cols in E as [<- _]. destruct v as [b o s tr l st]. cbn.
  split; intros x Hx; [destruct b as [i|]|destruct s as [i|]]; try done; injection Hx as <-; exact (proj2_dsig i).
Qed.
Lemma snapshot_set_run l acc : (∀ s, s ∈ l → s ≠ "") → ∃ S, snapshot_set acc l = Ok S ∧ ∀ x, x ∈ S ↔ x ∈ acc ∨ x ∈ l.
Proof.
  revert acc. induction l as [|s l IH]; intros acc Hl; simpl.
  - exists acc. split; [done|]. set_solver.
  - destruct (IH ({[s]} ∪ acc)) as (S & HS & Hin); [intros x Hx; apply Hl; by right|].
    exists S. split; [|intros x; rewrite Hin; set_solver]. unfold opaque_id_new.
    destruct (decide (s ≠ "")) as [|Hn]; [done|]. exfalso. apply Hn, Hl. left.
Qed.
Lemma elem_of_joined d x : x ∈ joined_rows d ↔
  d_tasks d !! x.1.1 = Some x.1.2 ∧
  match x.2 with
  | Some r => ∃ rid, d_runs d !! rid = Some r ∧ r_task_id r = x.1.1
  | None => ∀ rid r, d_runs d !! rid = Some r → r_task_id r ≠ x.1.1
  end.
Proof.
  destruct x as [[id t] o]. unfold joined_rows. rewrite list_elem_of_bind. cbn [fst snd].
  assert (∀ i rid r, (rid, r) ∈ order_by by_id (runs_where (λ _ r, bool_decide (r_task_id r = i)) d) ↔
            d_runs d !! rid = Some r ∧ r_task_id r = i) as Hruns.
  { intros i rid r. rewrite elem_of_order_by, elem_of_runs_where, bool_decide_eq_true. done. }
  split.
  - intros ([i u] & Hin & Hx). rewrite elem_of_order_by in Hx. apply elem_of_tasks_where in Hx as [Hu _]. cbn [fst snd] in Hin.
    specialize (Hruns i). destruct (order_by by_id _) as [|y ys].
    + apply list_elem_of_singleton in Hin. injection Hin as -> -> ->. split; [done|]. intros rid r Hr Hid.
      apply (not_elem_of_nil (rid, r)). by apply Hruns.
    + apply list_elem_of_fmap in Hin as ([rid r] & [= -> -> ->] & Hin). apply Hruns in Hin. split; [done|]. by exists rid.
  - intros [Ht Ho]. exists (id, t). cbn [fst snd]. specialize (Hruns id).
    rewrite elem_of_order_by, elem_of_tasks_where. split; [|done]. destruct (order_by by_id _) as [|y ys].
    + destruct o as [r|]; [|by left]. destruct Ho as (rid & Hr & Hid). exfalso. apply (not_elem_of_nil (rid, r)). by apply Hruns.
    + destruct o as [r|].
      * destruct Ho as (rid & Hr & Hid). apply list_elem_of_fmap. exists (rid, r). split; [done|]. by apply Hruns.
      * exfalso. destruct y as [rid r]. assert ((rid, r) ∈ (rid, r) :: ys) as Hy by left. apply Hruns in Hy as [Hr Hid]. by eapply Ho.
Qed.

Lemma elem_of_row_snapshots x s : s ∈ row_snapshots x ↔
  c_baseline (t_view x.1.2) = Some s ∨ c_view_snapshot (t_view x.1.2) = Some s ∨
  (x.2 ≫= λ r, c_baseline (r_view r)) = Some s ∨ (x.2 ≫= λ r, c_view_snapshot (r_view r)) = Some s.
Proof.
  unfold row_snapshots. rewrite list_elem_of_omap. split.
  - intros (o & Ho & E). rewrite !elem_of_cons, elem_of_nil in Ho. unfold id in E. subst o. naive_solver.
  - intros H. exists (Some s). split; [|done]. rewrite !elem_of_cons. naive_solver.
Qed.
Lemma row_snapshots_nonempty w x s : wf w → x ∈ joined_rows (w_db w) → s ∈ row_snapshots x → s ≠ "".
Proof.
  intros Hw [Ht Ho]%elem_of_joined Hs%elem_of_row_snapshots.
  destruct (view_ok_ids _ (tw_view _ (wf_task _ _ _ Hw Ht))) as [Hb Hv]. destruct (x.2) as [r|]; [|naive_solver].
  destruct Ho as (rid & Hr & _). destruct (view_ok_ids _ (rw_view _ (dw_runs _ Hw _ _ Hr))) as [Hb' Hv'].
  cbn in Hs. naive_solver.
Qed.
Lemma task_joined d id t : d_tasks d !! id = Some t → ∃ o, (id, t, o) ∈ joined_rows d.
Proof.
  intros Ht. destruct (runs_where (λ _ r, bool_decide (r_task_id r = id)) d) as [|[rid r] l] eqn:E.
  - exists None. apply elem_of_joined. cbn. split; [done|]. intros rid r Hr Hid. apply (not_elem_of_nil (rid, r)).
    rewrite <- E. apply elem_of_runs_where. split; [done|]. by apply bool_decide_eq_true.
  - exists (Some r). apply elem_of_joined. cbn. split; [done|].
    assert ((rid, r) ∈ runs_where (λ _ r, bool_decide (r_task_id r = id)) d) as Hin by (rewrite E; left).
    apply elem_of_runs_where in Hin as [Hr Hid%bool_decide_eq_true]. eauto.
Qed.

(** Graph retention keeps everything still in use. On a well-formed
    database the references are computed without error and contain the
    snapshots and published views of every unfinished task, the snapshots of
    every unfinished run together with those of its task, and the canonical
    snapshot. *)
Theorem retention_covers_live w :
  wf w → schema_ready (w_db w) →
  (∀ p, d_prs (w_db w) = Some p → p_graph_snapshot_id p ≠ Some "") →
  ∃ refs, repository_graph_retention_references_at w = (Ok refs, w) ∧
    (∀ id t s, d_tasks (w_db w) !! id = Some t → finished_task (t_status t) = false →
       (c_baseline (t_view t) = Some s ∨ c_view_snapshot (t_view t) = Some s → s ∈ snapshot_ids refs) ∧
       ("task-baseline:" +:+ id)%string ∈ view_names refs ∧ ("task-overlay:" +:+ id)%string ∈ view_names refs) ∧
    (∀ rid r t s, d_runs (w_db w) !! rid = Some r → finished_run (r_status r) = false →
       d_tasks (w_db w) !! r_task_id r = Some t →
       c_baseline (r_view r) = Some s ∨ c_view_snapshot (r_view r) = Some s ∨
       c_baseline (t_view t) = Some s ∨ c_view_snapshot (t_view t) = Some s → s ∈ snapshot_ids refs) ∧
    (∀ p s, d_prs (w_db w) = Some p → p_graph_snapshot_id p = Some s → s ∈ snapshot_ids refs).
Proof.
  intros Hw Hs Hp. set (rows := filter (λ x, retained_row x = true) (joined_rows (w_db w))).
  destruct (snapshot_set_run (mbind row_snapshots rows) ∅) as (S1 & H1 & HS1).
  { intros s (x & Hin & [_ Hx]%list_elem_of_filter)%list_elem_of_bind. by eapply row_snapshots_nonempty. }
  destruct (snapshot_set_run (option_list (r ← d_prs (w_db w); p_graph_snapshot_id r)) S1) as (S2 & H2 & HS2).
  { intros s Hin. destruct (d_prs (w_db w)) as [p|] eqn:Ep; [|by apply elem_of_nil in Hin]. specialize (Hp p eq_refl).
    cbn in Hin. destruct (p_graph_snapshot_id p) as [x|]; [|by apply elem_of_nil in Hin].
    apply list_elem_of_singleton in Hin as ->. congruence. }
  assert (∀ x s, x ∈ joined_rows (w_db w) → retained_row x = true → s ∈ row_snapshots x → s ∈ S2) as Hsnap.
  { intros x s Hx Hret Hin. apply HS2. left. apply HS1. right. apply list_elem_of_bind. exists x. split; [done|].
    by apply list_elem_of_filter. }
  exists (Retention S2 (list_to_set (mbind row_names rows))). split_and!.
  - unfold repository_graph_retention_references_at. eapply bind_eq; [by apply open_run|]. eapply bind_eq; [apply get_db_eq|].
    cbv zeta. fold rows. eapply bind_eq; [unfold lift_result; by rewrite H1|]. eapply bind_eq; [unfold lift_result; by rewrite H2|]. done.
  - intros id t s Ht Hfin. destruct (task_joined (w_db w) id t Ht) as (o & Ho).
    assert (retained_row (id, t, o) = true) as Hret by (unfold retained_row; cbn [fst snd]; by rewrite Hfin).
    split; [intros Hor; apply (Hsnap _ _ Ho Hret), elem_of_row_snapshots; tauto|]. cbn [view_names].
    split; apply elem_of_list_to_set, list_elem_of_bind; exists (id, t, o);
      (split; [unfold row_names; cbn [fst snd]; set_solver|by apply list_elem_of_filter]).
  - intros rid r t s Hr Hfin Ht Hor.
    assert ((r_task_id r, t, Some r) ∈ joined_rows (w_db w)) as Hx by (apply elem_of_joined; cbn; eauto).
    apply (Hsnap _ _ Hx); [unfold retained_row; cbn [fst snd]; by rewrite Hfin, orb_true_r|]. apply elem_of_row_snapshots. tauto.
  - intros p s Ep Es. apply HS2. right. rewrite Ep. cbn. rewrite Es. by apply list_elem_of_singleton.
Qed.
End behaviour.
