(* ===== verification/Tools.v ===== *)
(** The tools of the MCP server ([src/src/server/tools/]): the shared guards,
    the handlers agents call to consult, ask, answer, check, reject, reset,
    enqueue and renew, and the polling loops of the waiting tools.  A handler
    composes the operations verified in the other files with file accesses; it
    is not a transaction as a whole. *)
From S2P Require Import Prelude Status View Chrono Database WellFormed Schema Exec Store Waits Claims Runs Task Session Recovery Registry CanonicalGraph.

(** ** What a server process is given

    [Config::load] decodes [ferrus.toml]; the fields are those the handlers
    use.  [FERRUS_TASK_ID] is the value of the environment variable. *)
Record Config := Cfg {
  commands : list string;
  max_check_retries : Z;
  max_review_cycles : Z;
  wait_timeout_secs : Z;
  ttl_secs : Z }.

Class Server := {
  config_load : result Config;
  env_task_id : option string }.

(** What a handler answers: a message or a JSON object. *)
Inductive response : Type :=
  | Message (fmt : string) (args : list string)
  | Json (fields : payload).

(** [Duration::from_secs], in nanoseconds. *)
Definition timeout_of (config : Config) : Z := wait_timeout_secs config * nanos.

(** ** Polling

    A waiting tool tries, checks how long it has waited, and sleeps.  One round
    is the time elapsed at the check, in nanoseconds, and what everybody else does to the world
    during the sleep; [None] is a loop that is still waiting when the rounds
    end. *)
Record round := Round { rd_elapsed : Z; rd_others : world → world }.

Fixpoint poll {A} (attempt : st world (option A)) (timeout : Z) (timed_out : st world A) (rounds : list round) :
    st world (option A) :=
  match rounds with
  | [] => mret None
  | r :: rounds =>
    a ← attempt;
    match a with
    | Some a => mret (Some a)
    | None =>
      if timeout <=? rd_elapsed r then Some <$> timed_out
      else modify (rd_others r) ;; poll attempt timeout timed_out rounds
    end
  end.

Section tools.
Context {CH : Chrono} {ENV : Env} {SERVER : Server}.

(** ** Guards ([server/tools/mod.rs]) *)
Definition runtime_task_context_for_agent_best_effort (agent : string) : st world (option RuntimeTaskContext) :=
  c ← best_effort (runtime_task_context_for_agent agent); mret (c ≫= id).

Definition require_runtime_task_context (agent : string) : st world RuntimeTaskContext :=
  c ← runtime_task_context_for_agent agent;
  match c with
  | Some c => mret c
  | None => bail "No SQLite runtime task is assigned to {agent_id}. Call the appropriate wait tool first." [agent]
  end.

Definition ensure_lease_owner_or_reclaim (agent : string) (ttl : Z) : st world unit :=
  context ← require_runtime_task_context agent;
  claim ← claim_task (ctx_task_id context) (ctx_task_path context) agent ttl;
  match claim with
  | TCClaimed | TCAlreadyClaimed => mret tt
  | TCClaimedByOther claimed_by =>
    bail "Cannot modify task: lease is held by {claimed_by}, not {agent_id}" [claimed_by; agent]
  end.

(** [std::env::var(..).ok().map(trim).filter(non-empty)] *)
Definition runtime_task_id : option string :=
  match env_task_id with
  | Some v => if is_empty (trim v) then None else Some (trim v)
  | None => None
  end.

(** ** Consultations *)
Definition required_sections : list string := ["## Problem"; "## What I tried"; "## Options (if any)"; "## Question"].

Definition validate_consult_request (question : string) : st world unit :=
  let trimmed := trim question in
  if is_empty trimmed then
    bail "Consultation request cannot be empty. Read ferrus://consult_template and follow it exactly." []
  else
    for_each (λ section, ensure (contains section trimmed)
      "Consultation request must follow ferrus://consult_template exactly. Missing section: {section}" [section])
      required_sections.

Definition consult (agent question : string) : st world response :=
  config ← lift_result config_load;
  context ← require_runtime_task_context agent;
  current_status ← lift_result (from_str (ctx_status context));
  if negb (bool_decide (current_status = Executing) || bool_decide (current_status = Addressing)) then
    bail "Cannot consult from state {}. Consultation is only available while executing work." [ctx_status context]
  else
    ensure_lease_owner_or_reclaim agent (ttl_secs config) ;;
    validate_consult_request question ;;
    write_consult_request_for_run_dir (ctx_run_dir context) question ;;
    clear_consult_response_for_run_dir (ctx_run_dir context) ;;
    record_task_consultation_requested (ctx_task_id context) current_status ;;
    mret (Message "Consultation requested in `{}/CONSULT_REQUEST.md`. State is now Consultation (paused from {paused})."
            [ctx_run_dir context; ctx_status context]).

Definition respond_consult_for_context (context : RuntimeTaskContext) (answer : string) : st world response :=
  ensure (bool_decide (ctx_status context = "consultation") && negb (is_empty (trim answer)))
    "Invalid consultation response" [] ;;
  write_consult_response_for_run_dir (ctx_run_dir context) answer ;;
  mret (Message "Consultation response recorded in `{}/CONSULT_RESPONSE.md`." [ctx_run_dir context]).

Definition respond_consult (agent : option string) (answer : string) : st world response :=
  if is_empty (trim answer) then bail "Consultation response cannot be empty." []
  else
    runtime_context ←
      match agent with
      | Some agent =>
        c ← runtime_task_context_for_agent_best_effort agent;
        match c with
        | Some c => mret (Some c)
        | None => c ← best_effort (attach_running_run_to_next_consultation agent); mret (c ≫= id)
        end
      | None => mret None
      end;
    match runtime_context with
    | None => bail "Cannot respond to consultation without a SQLite runtime task context." []
    | Some context =>
      status ← lift_result (from_str (ctx_status context));
      if negb (bool_decide (status = Consultation)) then
        bail "Cannot respond to consultation from state {}. /respond_consult is only valid in Consultation state."
          [ctx_status context]
      else respond_consult_for_context context answer
    end.

(** One poll of [wait_for_consult]: a response that cannot be read counts as
    none. *)
Definition consult_attempt (context : RuntimeTaskContext) : st world (option response) :=
  r ← best_effort (read_consult_response_for_run_dir (ctx_run_dir context));
  match r with
  | Some text =>
    if is_empty (trim text) then mret None
    else
      restore_task_from_consultation (ctx_task_id context) ;;
      clear_consult_response_for_run_dir (ctx_run_dir context) ;;
      clear_consult_request_for_run_dir (ctx_run_dir context) ;;
      mret (Some (Message "{}" [trim text]))
  | None => mret None
  end.

Definition wait_for_consult (agent : string) (rounds : list round) : st world (option response) :=
  config ← lift_result config_load;
  context ← require_runtime_task_context agent;
  status ← lift_result (from_str (ctx_status context));
  if negb (bool_decide (status = Consultation)) then
    bail "Cannot wait for consultation from state {}. Call /consult first." [ctx_status context]
  else
    ensure_lease_owner_or_reclaim agent (ttl_secs config) ;;
    poll (consult_attempt context) (timeout_of config)
      (bail "Timed out waiting for CONSULT_RESPONSE.md. Call /wait_for_consult again to keep waiting." []) rounds.

Definition consultation_attempt (agent : string) : st world (option response) :=
  context ← match runtime_task_id with
            | Some task_id => attach_running_run_to_consultation task_id agent
            | None => attach_running_run_to_next_consultation agent
            end;
  match context with
  | None => mret None
  | Some context =>
    task ← read_task_at (ctx_task_path context);
    consult_request ← read_consult_request_for_run_dir (ctx_run_dir context);
    review ← best_effort (read_review_for_run_dir (ctx_run_dir context));
    mret (Some (Json [("status", JStr "claimed"); ("task_id", JStr (ctx_task_id context));
      ("task_path", JStr (ctx_task_path context)); ("run_dir", JStr (ctx_run_dir context));
      ("state", JStr "Consultation"); ("paused_state", jopt (ctx_paused_status context)); ("task", JStr task);
      ("consult_request", JStr consult_request); ("review", JStr (default "" review));
      ("review_cycles_used", JNum (ctx_review_cycles context)); ("check_retries_used", JNum (ctx_check_retries context))]))
  end.

Definition wait_for_consultation (agent : string) (rounds : list round) : st world (option response) :=
  config ← lift_result config_load;
  poll (consultation_attempt agent) (timeout_of config)
    (mret (Json [("status", JStr "timeout"); ("state", JStr "NoConsultation")])) rounds.

(** ** Human questions *)
Definition can_ask_from_context (context : RuntimeTaskContext) : bool :=
  match from_str (ctx_status context) with
  | Ok (Executing | Addressing | Consultation | Reviewing) => true
  | _ => false
  end.

Definition is_supervisor (agent : string) : bool := starts_with "supervisor:" agent.

Definition can_supervisor_ask_during_consultation (context : RuntimeTaskContext) (agent : string) : bool :=
  is_supervisor agent && match from_str (ctx_status context) with Ok Consultation => true | _ => false end.

Definition human_pause_context (context : RuntimeTaskContext) : result (TaskStatus * option TaskStatus) :=
  current_status ← from_str (ctx_status context);
  if bool_decide (current_status = Consultation) then
    match ctx_paused_status context with
    | None => Ok (Consultation, None)
    | Some p => p ← from_str p; Ok (Consultation, Some p)
    end
  else Ok (current_status, Some current_status).

Definition ensure_can_ask_human (context : RuntimeTaskContext) (agent : string) (ttl : Z) : st world unit :=
  if negb (can_ask_from_context context) then
    bail "Cannot ask human from state {}. /ask_human is only available while active work is in progress."
      [ctx_status context]
  else if can_supervisor_ask_during_consultation context agent then mret tt
  else ensure_lease_owner_or_reclaim agent ttl.

Definition ask_human (agent question : string) : st world response :=
  config ← lift_result config_load;
  context ← require_runtime_task_context agent;
  ensure_can_ask_human context agent (ttl_secs config) ;;
  write_question_for_run_dir (ctx_run_dir context) question ;;
  clear_answer_for_run_dir (ctx_run_dir context) ;;
  pause ← lift_result (human_pause_context context);
  record_task_human_question_requested_with_resume (ctx_task_id context) pause.1 pause.2 agent ;;
  mret (Message "Your question has been written to `{question_path}`. State is now AwaitingHuman (paused from {paused})."
          [run_file (ctx_run_dir context) "QUESTION.md"; ctx_status context]).

Definition answer (text : string) : st world response :=
  if is_empty (trim text) then bail "Human answer cannot be empty." []
  else
    questions ← list_human_questions;
    match questions with
    | q :: _ =>
      record_scoped_human_answer q text ;;
      mret (Message "Response recorded for `{}` in `{}/ANSWER.md`. The waiting agent can call /wait_for_answer and continue."
              [hq_task_id q; hq_run_dir q])
    | [] => bail "No task is currently waiting for a human answer." []
    end.

Definition is_consultation_supervisor_human_wait (context : RuntimeTaskContext) (agent : string) : st world bool :=
  if negb (is_supervisor agent) then mret false
  else
    status ← task_awaiting_human_status (ctx_task_id context);
    mret (opt_is status (as_str Consultation)).

Definition ensure_scoped_answer_waiter (context : RuntimeTaskContext) (agent : string) (ttl : Z) : st world unit :=
  owner ← task_human_question_owner (ctx_task_id context);
  match owner with
  | Some owner =>
    if bool_decide (owner = agent) then
      consultant ← is_consultation_supervisor_human_wait context agent;
      if consultant : bool then mret tt else ensure_lease_owner_or_reclaim agent ttl
    else bail "Cannot wait for answer: question was asked by {owner}, not {agent_id}" [owner; agent]
  | None => ensure_lease_owner_or_reclaim agent ttl
  end.

Definition answer_attempt (context : RuntimeTaskContext) : st world (option response) :=
  r ← best_effort (read_answer_for_run_dir (ctx_run_dir context));
  match r with
  | Some text =>
    if is_empty (trim text) then mret None
    else
      restored ← restore_task_from_human_answer (ctx_task_id context);
      let resumed := match restored with HumanRestored status => status | NotAwaitingHuman => ctx_status context end in
      clear_answer_for_run_dir (ctx_run_dir context) ;;
      clear_question_for_run_dir (ctx_run_dir context) ;;
      mret (Some (Json [("status", JStr "answered"); ("answer", JStr (trim text)); ("resumed_state", JStr resumed)]))
  | None => mret None
  end.

Definition wait_for_answer (agent : string) (rounds : list round) : st world (option response) :=
  config ← lift_result config_load;
  context ← require_runtime_task_context agent;
  status ← lift_result (from_str (ctx_status context));
  if negb (bool_decide (status = AwaitingHuman)) then
    bail "Cannot wait for answer from task status {:?}; expected awaiting_human" [ctx_status context]
  else
    ensure_scoped_answer_waiter context agent (ttl_secs config) ;;
    poll (answer_attempt context) (timeout_of config) (mret (Json [("status", JStr "timeout")])) rounds.

(** ** Work and review *)
Definition claimed_lease (c : ReadyTaskClaim) : option TaskLease :=
  match c with Claimed l | AlreadyClaimed l => Some l | NoAvailable => None end.

Definition claim_ready_task (agent : string) (ttl : Z) : st world (option TaskLease) :=
  claimed_lease <$> match runtime_task_id with
                    | Some task_id => claim_ready_task_by_id task_id agent ttl
                    | None => claim_next_ready_task agent ttl
                    end.
Definition claim_review_task (agent : string) (ttl : Z) : st world (option TaskLease) :=
  claimed_lease <$> match runtime_task_id with
                    | Some task_id => claim_review_task_by_id task_id agent ttl
                    | None => claim_next_review_task agent ttl
                    end.

Definition state_name_for_task_status (status : string) : string :=
  if bool_decide (status = "addressing") then "Addressing" else "Executing".

Definition task_attempt (agent : string) (ttl : Z) : st world (option response) :=
  claim ← claim_ready_task agent ttl;
  match claim with
  | None => mret None
  | Some l =>
    attach_running_run_to_task_best_effort agent (tl_task_id l) (tl_task_path l) ;;
    task ← read_task_at (tl_task_path l);
    let run_dir := run_dir_for_task (tl_task_id l) in
    review ← read_review_for_run_dir run_dir;
    mret (Some (Json [("status", JStr "claimed"); ("task_id", JStr (tl_task_id l)); ("task_path", JStr (tl_task_path l));
      ("run_dir", JStr run_dir); ("claimed_by", JStr (tl_claimed_by l)); ("lease_until", JTime (tl_lease_until l));
      ("state", JStr (state_name_for_task_status (tl_status l))); ("task", JStr task); ("review", JStr review);
      ("check_retries_used", JNum (tl_check_retries l)); ("review_cycles_used", JNum (tl_review_cycles l))]))
  end.

Definition unavailable : response := Json [("status", JStr "timeout"); ("state", JStr "unavailable")].

Definition wait_for_task (agent : string) (rounds : list round) : st world (option response) :=
  config ← lift_result config_load;
  poll (task_attempt agent (ttl_secs config)) (timeout_of config) (mret unavailable) rounds.

Definition review_attempt (agent : string) (ttl : Z) : st world (option response) :=
  claim ← claim_review_task agent ttl;
  match claim with
  | None => mret None
  | Some l =>
    attach_running_run_to_task_best_effort agent (tl_task_id l) (tl_task_path l) ;;
    let run_dir := run_dir_for_task (tl_task_id l) in
    task ← read_task_at (tl_task_path l);
    submission ← read_submission_for_run_dir run_dir;
    review ← read_review_for_run_dir run_dir;
    patch ← read_patch_for_run_dir run_dir;
    mret (Some (Json [("status", JStr "claimed"); ("task_id", JStr (tl_task_id l)); ("task_path", JStr (tl_task_path l));
      ("run_dir", JStr run_dir); ("claimed_by", JStr (tl_claimed_by l)); ("lease_until", JTime (tl_lease_until l));
      ("state", JStr "Reviewing"); ("task", JStr task); ("submission", JStr submission); ("review", JStr review);
      ("patch", JStr patch); ("review_cycles_used", JNum (tl_review_cycles l));
      ("check_retries_used", JNum (tl_check_retries l))]))
  end.

Definition wait_for_review (agent : string) (rounds : list round) : st world (option response) :=
  config ← lift_result config_load;
  poll (review_attempt agent (ttl_secs config)) (timeout_of config) (mret unavailable) rounds.

(** The sections of the review text, each present unless blank; a patch and an
    integration error end in a newline. *)
Definition newline : string := String (ascii_of_N 10) "".
Definition ends_with_newline (s : string) : bool := some (strip_suffix newline s).
Definition section_of (opening text closing : string) (terminate : bool) : string :=
  if is_empty (trim text) then ""
  else (opening +:+ text +:+ (if terminate && negb (ends_with_newline text) then newline else "") +:+ closing)%string.
Definition heading (title : string) : string := (newline +:+ title +:+ newline +:+ newline)%string.

Definition review_pending (agent : string) : st world response :=
  config ← lift_result config_load;
  context ← require_runtime_task_context agent;
  status ← lift_result (from_str (ctx_status context));
  if negb (bool_decide (status = Reviewing)) then
    bail "No submission pending review. Current state: {}. Wait for the Executor to call /submit." [ctx_status context]
  else
    ensure_lease_owner_or_reclaim agent (ttl_secs config) ;;
    let d := ctx_run_dir context in
    task ← read_task_at (ctx_task_path context);
    submission ← read_submission_for_run_dir d;
    review ← read_review_for_run_dir d;
    patch ← read_patch_for_run_dir d;
    integration_error ← read_integration_error_for_run_dir d;
    mret (Message "{}{}{}{}{}---Review cycles used: {}/{} Check retries used: {}/{}"
      [("## Task" +:+ newline +:+ newline +:+ task +:+ newline)%string;
       section_of (heading "## Submission Notes") submission "" false;
       section_of (heading "## Previous Review Notes") review "" false;
       section_of (heading "## Implementation Patch" +:+ "```diff" +:+ newline)%string patch ("```" +:+ newline)%string true;
       section_of (heading "## Integration Error") integration_error "" true;
       display_u32 (ctx_review_cycles context); display_u32 (max_review_cycles config);
       display_u32 (ctx_check_retries context); display_u32 (max_check_retries config)]).

(** The submitted tree's pin is a git reference; releasing it is best effort
    and does not touch the runtime state. *)
Definition reject_for_context (context : RuntimeTaskContext) (notes : string) (config : Config)
    (native_scope : option ExecutorSessionScope) : st world response :=
  rejection ←
    match native_scope with
    | Some scope =>
      reject_supervisor_session scope (frozen_source_tree (ctx_repository_view context)) (max_review_cycles config)
        (λ current, write_review_for_run_dir (ctx_run_dir current) notes)
    | None =>
      write_review_for_run_dir (ctx_run_dir context) notes ;;
      record_task_review_rejected (ctx_task_id context) (max_review_cycles config)
    end;
  let event kind cycles :=
    record_runtime_event_best_effort (ctx_run_id context) kind
      [("task_id", JStr (ctx_task_id context)); ("review_cycles", JNum cycles);
       ("max_review_cycles", JNum (max_review_cycles config)); ("notes_bytes", JNum (Z.of_nat (String.length notes)))] in
  match rejection with
  | RejectAddressing cycles =>
    event "rejected" cycles ;;
    mret (Message "Submission rejected (cycle {}/{}). State: Addressing."
            [display_u32 cycles; display_u32 (max_review_cycles config)])
  | RejectLimitExceeded cycles =>
    event "review_limit_exceeded" cycles ;;
    mret (Message "Review cycle limit reached ({cycles}/{}). State is now Failed. A human must call /reset to recover."
            [display_u32 cycles; display_u32 (max_review_cycles config)])
  end.

Definition reject (agent notes : string) : st world response :=
  config ← lift_result config_load;
  context ← require_runtime_task_context agent;
  status ← lift_result (from_str (ctx_status context));
  if negb (bool_decide (status = Reviewing)) then
    bail "Cannot reject from state {}. Call /review_pending first." [ctx_status context]
  else
    ensure_lease_owner_or_reclaim agent (ttl_secs config) ;;
    reject_for_context context notes config None.

(** ** Leases, reset and enqueueing *)
Definition lease_error (code message : string) : response :=
  Json [("status", JStr "error"); ("code", JStr code); ("message", JStr message)].

Definition heartbeat (agent : string) : st world response :=
  config ← lift_result config_load;
  renewal ← best_effort (renew_claimed_task_lease agent (ttl_secs config));
  mret match renewal with
       | Some (Renewed task_id task_path claimed_by lease_until) =>
         Json [("status", JStr "renewed"); ("task_id", JStr task_id); ("task_path", JStr task_path);
               ("claimed_by", JStr claimed_by); ("lease_until", JTime lease_until)]
       | Some NotClaimed | None => lease_error "not_claimed" "No active lease exists"
       | Some Expired => lease_error "expired" "Your lease expired before renewal"
       end.

Definition reset_runtime_task (context : RuntimeTaskContext) : st world response :=
  status ← lift_result (from_str (ctx_status context));
  if negb (bool_decide (status = Failed)) then
    bail "Cannot reset task {} from status {}. Reset is only available for failed tasks."
      [ctx_task_id context; ctx_status context]
  else
    record_task_status_with_origin (ctx_task_id context) (ctx_task_path context) Reset None None ;;
    record_runtime_event_best_effort (ctx_run_id context) "reset" [("task_id", JStr (ctx_task_id context))] ;;
    mret (Message "Task {} reset. State: reset. The task artifact remains at {}." [ctx_task_id context; ctx_task_path context]).

Definition reset (agent : option string) : st world response :=
  match agent with
  | None => bail "Cannot reset without an agent runtime context" []
  | Some agent => context ← require_runtime_task_context agent; reset_runtime_task context
  end.

Definition normalize_optional (value : option string) : option string :=
  match value with
  | Some v => if is_empty (trim v) then None else Some (trim v)
  | None => None
  end.

Definition enqueue_task (description : string) (spec_path milestone_id : option string) : st world response :=
  if is_empty (trim description) then bail "Cannot enqueue task: description is empty." []
  else
    let spec_path := normalize_optional spec_path in
    let milestone_id := normalize_optional milestone_id in
    if negb (Bool.eqb (some spec_path) (some milestone_id)) then
      bail "Cannot enqueue task: spec_path and milestone_id must be provided together." []
    else
      match spec_path, milestone_id with
      | Some s, Some m =>
        existing ← find_non_terminal_task_by_origin s m;
        match existing with
        | Some r => bail "Cannot enqueue task: milestone {milestone_id} from {spec_path} already has task {} ({}) in status {}."
                      [m; s; tr_id r; tr_path r; tr_status r]
        | None => mret tt
        end
      | _, _ => mret tt
      end ;;
      artifact ← create_pending_task_artifact description spec_path milestone_id;
      record_runtime_event_best_effort None "task_enqueued"
        [("task_id", JStr (ta_id artifact)); ("path", JStr (ta_path artifact)); ("run_dir", JStr (ta_run_dir artifact));
         ("spec_path", jopt spec_path); ("milestone_id", jopt milestone_id);
         ("description_bytes", JNum (Z.of_nat (String.length description)))] ;;
      mret (Message "Task {} enqueued. State: pending. Artifact: {}" [ta_id artifact; ta_path artifact]).

Definition create_task (description : string) : st world response :=
  if is_empty (trim description) then bail "Cannot create task: description is empty." []
  else
    artifact ← create_pending_task_artifact description None None;
    record_runtime_event_best_effort None "task_created"
      [("task_id", JStr (ta_id artifact)); ("path", JStr (ta_path artifact)); ("run_dir", JStr (ta_run_dir artifact));
       ("spec_path", JNull); ("milestone_id", JNull);
       ("description_bytes", JNum (Z.of_nat (String.length description)))] ;;
    mret (Message "Task {} created. State: pending. Artifact: {}" [ta_id artifact; ta_path artifact]).

(** ** Checks

    The check gate runs the configured commands and writes a log; the overlay
    refresh updates the task's repository view.  Both are given as actions. *)
Inductive CheckGateResult : Type :=
  | Passed
  | GateFailed (failure_reason report : string).

Definition check (gate : Z → string → st world CheckGateResult) (refresh : RuntimeTaskContext → st world unit)
    (agent : option string) : st world response :=
  match agent with
  | None => bail "Cannot run task checks without an agent runtime context" []
  | Some agent =>
    config ← lift_result config_load;
    context ← require_runtime_task_context agent;
    status ← lift_result (from_str (ctx_status context));
    if negb (is_executor_working status) then
      bail "Cannot run checks from state {}. Checks are only valid in Executing or Addressing state." [ctx_status context]
    else
      ensure_lease_owner_or_reclaim agent (ttl_secs config) ;;
      match commands config with
      | [] =>
        refresh context ;;
        record_task_check_passed (ctx_task_id context) ;;
        record_runtime_event_best_effort (ctx_run_id context) "check_passed" [("commands", JNum 0)] ;;
        mret (Message "All checks passed. Warning: no check commands are configured in ferrus.toml. State remains unchanged." [])
      | _ =>
        verdict ← gate (u32_add (ctx_check_retries context) 1) (default (ctx_task_id context) (ctx_run_id context));
        refresh context ;;
        match verdict with
        | Passed =>
          record_task_check_passed (ctx_task_id context) ;;
          record_runtime_event_best_effort (ctx_run_id context) "check_passed"
            [("commands", JNum (Z.of_nat (length (commands config))))] ;;
          mret (Message "All checks passed. State remains {state_label}. Continue working or call /submit when the task is ready for review."
                  [ctx_status context])
        | GateFailed reason report =>
          failure ← record_task_check_failed (ctx_task_id context) reason (max_check_retries config);
          match failure with
          | CheckFailed retries =>
            record_runtime_event_best_effort (ctx_run_id context) "check_failed"
              [("task_id", JStr (ctx_task_id context)); ("retries", JNum retries);
               ("max_retries", JNum (max_check_retries config)); ("state", JStr (ctx_status context))] ;;
            mret (Message "Checks failed (retry {}/{}). {} State remains {}. Fix the issues and call /check again."
                    [display_u32 retries; display_u32 (max_check_retries config); report; ctx_status context])
          | CheckLimitExceeded retries =>
            record_runtime_event_best_effort (ctx_run_id context) "check_limit_exceeded"
              [("task_id", JStr (ctx_task_id context)); ("retries", JNum retries);
               ("max_retries", JNum (max_check_retries config))] ;;
            mret (Message "Check retry limit reached ({retries}/{}). {} State is now Failed. A human must call /reset to recover."
                    [display_u32 retries; display_u32 (max_check_retries config); report])
          end
        end
      end
  end.
End tools.

(** ** Invariant *)
Section invariant.
Context {CH : Chrono} {ENV : Env} {SERVER : Server}.

Lemma preserves_context_best_effort agent : preserves wf (runtime_task_context_for_agent_best_effort agent).
Proof. unfold runtime_task_context_for_agent_best_effort, runtime_task_context_for_agent. solve_wf. Qed.
Lemma preserves_require_context agent : preserves wf (require_runtime_task_context agent).
Proof. unfold require_runtime_task_context, runtime_task_context_for_agent. solve_wf. Qed.
#[local] Hint Resolve preserves_context_best_effort preserves_require_context : preserves.
Lemma preserves_ensure_lease agent ttl : preserves wf (ensure_lease_owner_or_reclaim agent ttl).
Proof. unfold ensure_lease_owner_or_reclaim. solve_wf. Qed.
#[local] Hint Resolve preserves_ensure_lease : preserves.
Lemma preserves_consult agent q : preserves wf (consult agent q).
Proof. unfold consult, validate_consult_request, write_consult_request_for_run_dir, clear_consult_response_for_run_dir. solve_wf. Qed.
Lemma preserves_respond_consult agent text : preserves wf (respond_consult agent text).
Proof. unfold respond_consult, respond_consult_for_context, write_consult_response_for_run_dir. solve_wf. Qed.
Lemma preserves_consult_attempt c : preserves wf (consult_attempt c).
Proof.
  unfold consult_attempt, read_consult_response_for_run_dir, clear_consult_response_for_run_dir, clear_consult_request_for_run_dir.
  solve_wf.
Qed.
Lemma preserves_consultation_attempt agent : preserves wf (consultation_attempt agent).
Proof. unfold consultation_attempt, read_task_at, read_consult_request_for_run_dir, read_review_for_run_dir. solve_wf. Qed.
Lemma preserves_ask_human agent q : preserves wf (ask_human agent q).
Proof. unfold ask_human, ensure_can_ask_human, write_question_for_run_dir, clear_answer_for_run_dir. solve_wf. Qed.
Lemma preserves_answer text : preserves wf (answer text).
Proof. unfold answer. solve_wf. Qed.
Lemma preserves_answer_attempt c : preserves wf (answer_attempt c).
Proof. unfold answer_attempt, read_answer_for_run_dir, clear_answer_for_run_dir, clear_question_for_run_dir. solve_wf. Qed.
Lemma preserves_claim_ready_task agent ttl : preserves wf (claim_ready_task agent ttl).
Proof. apply preserves_fmap. unfold claim_ready_task_by_id, claim_next_ready_task. solve_wf. Qed.
Lemma preserves_claim_review_task agent ttl : preserves wf (claim_review_task agent ttl).
Proof. apply preserves_fmap. unfold claim_review_task_by_id, claim_next_review_task. solve_wf. Qed.
#[local] Hint Resolve preserves_claim_ready_task preserves_claim_review_task : preserves.
Lemma preserves_task_attempt agent ttl : preserves wf (task_attempt agent ttl).
Proof. unfold task_attempt, attach_running_run_to_task_best_effort, read_task_at, read_review_for_run_dir. solve_wf. Qed.
Lemma preserves_review_attempt agent ttl : preserves wf (review_attempt agent ttl).
Proof.
  unfold review_attempt, attach_running_run_to_task_best_effort, read_task_at, read_review_for_run_dir,
    read_submission_for_run_dir, read_patch_for_run_dir. solve_wf.
Qed.
Lemma preserves_review_pending agent : preserves wf (review_pending agent).
Proof.
  unfold review_pending, read_task_at, read_submission_for_run_dir, read_review_for_run_dir, read_patch_for_run_dir,
    read_integration_error_for_run_dir. solve_wf.
Qed.
Lemma preserves_reject agent notes : preserves wf (reject agent notes).
Proof.
  unfold reject, reject_for_context, record_runtime_event_best_effort, write_review_for_run_dir. solve_wf.
Qed.
Lemma preserves_heartbeat agent : preserves wf (heartbeat agent).
Proof. unfold heartbeat. solve_wf. Qed.
Lemma preserves_reset agent : preserves wf (reset agent).
Proof. unfold reset, reset_runtime_task, record_runtime_event_best_effort. solve_wf. Qed.
Lemma preserves_find_origin s m : preserves wf (find_non_terminal_task_by_origin s m).
Proof. unfold find_non_terminal_task_by_origin. solve_wf. Qed.
#[local] Hint Resolve preserves_find_origin : preserves.
Lemma preserves_enqueue_task d s m : preserves wf (enqueue_task d s m).
Proof. unfold enqueue_task, record_runtime_event_best_effort. solve_wf. Qed.
Lemma preserves_create_task d : preserves wf (create_task d).
Proof. unfold create_task, record_runtime_event_best_effort. solve_wf. Qed.
End invariant.
#[export] Hint Resolve preserves_consult preserves_respond_consult preserves_consult_attempt preserves_consultation_attempt
  preserves_ask_human preserves_answer preserves_answer_attempt preserves_task_attempt preserves_review_attempt
  preserves_review_pending preserves_reject preserves_heartbeat preserves_reset preserves_enqueue_task
  preserves_create_task : preserves.

(** ** Polling loops end *)
Section polling.
Context {A : Type} (attempt : st world (option A)) (timeout : Z) (timed_out : st world A).

Lemma poll_returns rounds w :
  (∃ r, r ∈ rounds ∧ timeout ≤ rd_elapsed r) → (poll attempt timeout timed_out rounds w).1 ≠ Ok None.
Proof.
  revert w. induction rounds as [|r rounds IH]; intros w (r0 & Hin & Hr); [by apply elem_of_nil in Hin|].
  simpl. unfold mbind at 1, st_bind at 1. destruct (attempt w) as [[[a|]|e] w1]; [done| |done].
  destruct (Z.leb_spec timeout (rd_elapsed r)) as [Hle|Hlt].
  - unfold fmap, st_fmap. by destruct (timed_out w1) as [[a|e] w2].
  - apply elem_of_cons in Hin as [->|Hin]; [lia|]. apply IH. eauto.
Qed.

(** An answer comes from an attempt, or from a timeout after at least the
    configured time. *)
Lemma poll_answer rounds w a w' :
  poll attempt timeout timed_out rounds w = (Ok (Some a), w') →
  (∃ u, attempt u = (Ok (Some a), w')) ∨
  (∃ r u u', r ∈ rounds ∧ timeout ≤ rd_elapsed r ∧ attempt u = (Ok None, u') ∧ timed_out u' = (Ok a, w')).
Proof.
  revert w. induction rounds as [|r rounds IH]; intros w; [done|]. simpl. unfold mbind at 1, st_bind at 1.
  destruct (attempt w) as [[[b|]|e] w1] eqn:Ea; [intros [= -> ->]; eauto| |done].
  destruct (Z.leb_spec timeout (rd_elapsed r)) as [Hle|Hlt].
  - unfold fmap, st_fmap. destruct (timed_out w1) as [[b|e] w2] eqn:Et; [|done]. intros [= -> ->].
    right. exists r, w, w1. split_and!; [left|done..].
  - intros [?|(r0 & u & u' & Hin & H)]%IH; [eauto|]. right. exists r0, u, u'. split; [by right|done].
Qed.
End polling.

(** The elapsed time is that of a monotonic clock, and a sleep lasts at least
    its duration: the check of round [i] comes after [i] sleeps. *)
Definition slept (interval : Z) (rounds : list round) : Prop :=
  ∀ i r, rounds !! i = Some r → Z.of_nat i * interval ≤ rd_elapsed r.

Lemma slept_long_enough interval timeout rounds :
  slept interval rounds → rounds ≠ [] → timeout ≤ (Z.of_nat (length rounds) - 1) * interval →
  ∃ r, r ∈ rounds ∧ timeout ≤ rd_elapsed r.
Proof.
  intros Hs Hne Ht. destruct (last rounds) as [r|] eqn:Hl; [|by apply last_None in Hl].
  exists r. split; [by apply last_Some_elem_of|]. rewrite last_lookup in Hl. specialize (Hs _ _ Hl).
  assert (Z.of_nat (Init.Nat.pred (length rounds)) = Z.of_nat (length rounds) - 1) by (destruct rounds; [done|simpl; lia]).
  lia.
Qed.

Inductive wait_tool : Type := WaitForTask | WaitForReview | WaitForConsultation | WaitForConsult | WaitForAnswer.

(** [sleep(Duration::from_millis(500))], and [sleep(Duration::from_secs(2))]
    for the human's answer. *)
Definition poll_interval (t : wait_tool) : Z := match t with WaitForAnswer => 2 * nanos | _ => nanos / 2 end.

Section waiting.
Context {CH : Chrono} {ENV : Env} {SERVER : Server}.

Definition wait_call (t : wait_tool) (agent : string) (rounds : list round) : st world (option response) :=
  match t with
  | WaitForTask => wait_for_task agent rounds
  | WaitForReview => wait_for_review agent rounds
  | WaitForConsultation => wait_for_consultation agent rounds
  | WaitForConsult => wait_for_consult agent rounds
  | WaitForAnswer => wait_for_answer agent rounds
  end.

Lemma bind_not_waiting {B} (m : st world B) (f : B → st world (option response)) w :
  (∀ b u, (f b u).1 ≠ Ok None) → ((m ≫= f) w).1 ≠ Ok None.
Proof. intros H. unfold mbind, st_bind. destruct (m w) as [[b|e] u]; [apply H|done]. Qed.

(** Waiting tools return. Whatever other agents do during the sleeps, a
    call to any of the five waiting tools has answered or failed once it has
    slept for the configured timeout, so a number of polls that covers the
    timeout is enough; nobody waits for ever on a task that never comes. *)
Theorem wait_tools_return t agent rounds w :
  slept (poll_interval t) rounds → rounds ≠ [] →
  (∀ config, config_load = Ok config → timeout_of config ≤ (Z.of_nat (length rounds) - 1) * poll_interval t) →
  (wait_call t agent rounds w).1 ≠ Ok None.
Proof.
  intros Hs Hne Hlong. assert (∀ config u attempt timed_out, config_load = Ok config →
    (poll (A := response) attempt (timeout_of config) timed_out rounds u).1 ≠ Ok None) as Hpoll.
  { intros config u attempt timed_out Hc. apply poll_returns. eauto using slept_long_enough. }
  destruct t; cbn [wait_call]; unfold wait_for_task, wait_for_review, wait_for_consultation, wait_for_consult, wait_for_answer;
    unfold mbind at 1, st_bind at 1, lift_result at 1; destruct config_load as [config|e] eqn:Hc; try done; auto.
  all: apply bind_not_waiting; intros c u; apply bind_not_waiting; intros s u1; destruct (negb _); [done|].
  all: apply bind_not_waiting; auto.
Qed.
End waiting.

(** ** Leases are respected *)
Section leases.
Context {CH : Chrono} {ENV : Env} {SERVER : Server}.

(** The tools that act on the task of the calling agent under its lease. *)
Inductive lease_tool : Type :=
  | ToolConsult (question : string)
  | ToolAskHuman (question : string)
  | ToolWaitForConsult (rounds : list round)
  | ToolReviewPending
  | ToolReject (notes : string)
  | ToolCheck (gate : Z → string → st world CheckGateResult) (refresh : RuntimeTaskContext → st world unit).

Definition lease_call (t : lease_tool) (agent : string) : st world (option response) :=
  match t with
  | ToolConsult q => Some <$> consult agent q
  | ToolAskHuman q => Some <$> ask_human agent q
  | ToolWaitForConsult rounds => wait_for_consult agent rounds
  | ToolReviewPending => Some <$> review_pending agent
  | ToolReject notes => Some <$> reject agent notes
  | ToolCheck gate refresh => Some <$> check gate refresh (Some agent)
  end.

Lemma require_context_run agent c w :
  runtime_task_context_for_agent agent w = (Ok (Some c), w) → require_runtime_task_context agent w = (Ok c, w).
Proof. intros H. unfold require_runtime_task_context. by rewrite (bind_run _ _ _ _ _ H). Qed.

Lemma ensure_lease_refused agent ttl other c t w :
  schema_ready (w_db w) → runtime_task_context_for_agent agent w = (Ok (Some c), w) →
  d_tasks (w_db w) !! ctx_task_id c = Some t → t_claimed_by t = Some other → other ≠ agent →
  lease_live (w_clock (tick w)) t = true →
  ensure_lease_owner_or_reclaim agent ttl w
  = (Err (Bail "Cannot modify task: lease is held by {claimed_by}, not {agent_id}" [other; agent]), tick w).
Proof.
  intros Hs Hc Ht Ho Hne Hl. unfold ensure_lease_owner_or_reclaim. rewrite (bind_run _ _ _ _ _ (require_context_run _ _ _ Hc)).
  assert (claim_task (ctx_task_id c) (ctx_task_path c) agent ttl w = (Ok (TCClaimedByOther other), tick w)) as H.
  { unfold claim_task. exec. simpl. rewrite Ho. unfold lease_live, parse_lease_until in Hl. rewrite Hl.
    unfold opt_is. rewrite bool_decide_eq_false_2 by congruence. done. }
  by rewrite (bind_run _ _ _ _ _ H).
Qed.

(** C38. No tool acts on a task under somebody else's lease. When the calling
    agent's run is attached to a task that another agent holds under a live
    lease, consulting, asking the human, waiting for a consultation, fetching
    or rejecting a submission and checking all fail, and neither the database
    nor any file changes.  (A supervisor may ask the human during a
    consultation, which is never its own lease.) *)
Theorem tools_respect_leases tool agent other c t w :
  schema_ready (w_db w) → runtime_task_context_for_agent agent w = (Ok (Some c), w) →
  d_tasks (w_db w) !! ctx_task_id c = Some t → t_claimed_by t = Some other → other ≠ agent →
  lease_live (w_clock (tick w)) t = true → can_supervisor_ask_during_consultation c agent = false →
  ∃ e w', lease_call tool agent w = (Err e, w') ∧ w_db w' = w_db w ∧ w_files w' = w_files w.
Proof.
  intros Hs Hc Ht Ho Hne Hl Hsup.
  pose proof (λ ttl, ensure_lease_refused agent ttl other c t w Hs Hc Ht Ho Hne Hl) as Href.
  pose proof (require_context_run _ _ _ Hc) as Hreq.
  assert (∀ B (k : unit → st world B) ttl, ∃ e w', (ensure_lease_owner_or_reclaim agent ttl ≫= k) w = (Err e, w') ∧
            w_db w' = w_db w ∧ w_files w' = w_files w) as Hbind.
  { intros B k ttl. unfold mbind, st_bind. rewrite Href. eexists _, _. by rewrite tick_db, tick_files. }
  assert (∀ B (m : st world B), (∃ e w', m w = (Err e, w') ∧ w_db w' = w_db w ∧ w_files w' = w_files w) →
            ∃ e w', (Some <$> m) w = (Err e, w') ∧ w_db w' = w_db w ∧ w_files w' = w_files w) as Hsome.
  { intros B m (e & w' & Hm & H). unfold fmap, st_fmap. rewrite Hm. eauto. }
  destruct tool; cbn [lease_call]; try apply Hsome; unfold consult, ask_human, wait_for_consult, review_pending, reject, check;
    (unfold mbind at 1, st_bind at 1, lift_result at 1; destruct config_load as [config|e]; [|eauto]);
    rewrite (bind_run _ _ _ _ _ Hreq).
  2:{ unfold ensure_can_ask_human. rewrite Hsup. destruct (negb (can_ask_from_context c)); [|apply Hbind].
      unfold mbind, st_bind. simpl. eauto. }
  all: unfold mbind at 1, st_bind at 1, lift_result at 1; destruct (from_str (ctx_status c)) as [s|e]; [|eauto].
  all: destruct (negb _); [eauto|apply Hbind].
Qed.
End leases.

(** ** A question and its answer *)
Section asking.
Context {CH : Chrono} {ENV : Env} {SERVER : Server}.

(** The agent claims no other task, so its context is this one. *)
Definition sole_claim (agent id : string) (d : db) : Prop :=
  ∀ i t, d_tasks d !! i = Some t → t_claimed_by t = Some agent → i = id.

(** Deadlines can be computed at the next two readings of the clock. *)
Definition deadlines_ok (ttl : Z) (w : world) : Prop :=
  (∃ u, lease_deadline (w_clock (tick w)) ttl = Ok u) ∧ (∃ u, lease_deadline (w_clock (tick (tick w))) ttl = Ok u).

Definition with_lease (lease heartbeat : option string) (t : task_row) : task_row :=
  t <| t_lease_until := lease |> <| t_last_heartbeat := heartbeat |>.

(** What others leave alone between two calls: the task's row and its
    question and answer files. *)
Definition task_kept (id : string) (w w' : world) : Prop :=
  d_tasks (w_db w') !! id = d_tasks (w_db w) !! id ∧
  ∀ name, name ∈ ["QUESTION.md"; "ANSWER.md"] →
    w_files w' !! run_file (run_dir_for_task id) name = w_files w !! run_file (run_dir_for_task id) name.

Lemma latest_claimed_sole agent id t d :
  d_tasks d !! id = Some t → t_claimed_by t = Some agent → sole_claim agent id d → latest_claimed agent d = Some (id, t).
Proof.
  intros Ht Hc Hs. destruct (latest_claimed agent d) as [[i u]|] eqn:E.
  - apply latest_claimed_spec in E as [Hi Hu]. assert (i = id) as -> by eauto. congruence.
  - by destruct (latest_claimed_None _ _ _ _ E Ht).
Qed.

(** The context of the agent that claims the task. *)
Lemma claimed_context_run agent id t w :
  wf w → schema_ready (w_db w) → d_tasks (w_db w) !! id = Some t → t_claimed_by t = Some agent →
  sole_claim agent id (w_db w) →
  ∃ c, runtime_task_context_for_agent agent w = (Ok (Some c), w) ∧ ctx_task_id c = id ∧ ctx_task_path c = t_path t ∧
    ctx_status c = t_status t ∧ ctx_paused_status c = t_paused_status t ∧ ctx_run_dir c = run_dir_for_task id.
Proof.
  intros Hw Hs Ht Hc Hsole. unfold runtime_task_context_for_agent, runtime_task_context_for_agent_with_open_mode.
  rewrite (bind_run _ _ _ _ _ (open_run w Hs)), (bind_run _ _ _ _ _ (get_db_eq w)), (latest_claimed_sole agent id t) by done.
  assert (∃ v, repository_view_reference_from_database (t_view t) = Ok v) as [v Hv].
  { pose proof (tw_view _ (dw_tasks _ Hw _ _ Ht)) as Hv. unfold view_ok in Hv.
    destruct (repository_view_reference_from_database (t_view t)); [eauto|done]. }
  assert (∃ o, latest_run_for_agent_task agent id w = (Ok o, w)) as [o Ho].
  { unfold latest_run_for_agent_task. rewrite (bind_run _ _ _ _ _ (get_db_eq w)).
    destruct (head _) as [[rid r]|] eqn:Eh; [|eauto].
    apply head_Some_elem_of in Eh. rewrite elem_of_order_by in Eh. apply elem_of_runs_where in Eh as [Hr _].
    pose proof (rw_view _ (dw_runs _ Hw _ _ Hr)) as Hrv. unfold view_ok in Hrv.
    unfold mbind, st_bind, lift_result. destruct (repository_view_reference_from_database (r_view r)); [eauto|done]. }
  unfold fmap, st_fmap, claimed_context. unfold mbind at 1, st_bind at 1, lift_result at 1. rewrite Hv.
  rewrite (bind_run _ _ _ _ _ Ho). cbv zeta. unfold mbind at 1, st_bind at 1.
  destruct (opt_is (ri_role <$> o) "executor"); [|destruct (_ && _)]; eexists; (split; [reflexivity|done]).
Qed.

Lemma ensure_lease_own agent ttl id t w :
  wf w → schema_ready (w_db w) → d_tasks (w_db w) !! id = Some t → t_claimed_by t = Some agent →
  sole_claim agent id (w_db w) → deadlines_ok ttl w →
  ∃ w' l h, ensure_lease_owner_or_reclaim agent ttl w = (Ok tt, w') ∧ only_task id (with_lease l h t) w w'.
Proof.
  intros Hw Hs Ht Hc Hsole [[u1 Hd1] [u2 Hd2]].
  destruct (claimed_context_run agent id t w) as (c & Hctx & Hid & Hpath & _); try done.
  assert (∃ r w' l h, claim_task id (t_path t) agent ttl w = (Ok r, w') ∧ (r = TCClaimed ∨ r = TCAlreadyClaimed) ∧
            only_task id (with_lease l h t) w w') as (r & w' & l & h & Hr & Hcase & Ho).
  { unfold claim_task. destruct (lease_live (w_clock (tick w)) t) eqn:Hl.
    - pose proof Hl as Hlive. unfold lease_live, parse_lease_until in Hl.
      destruct (lease_live (w_clock (tick (tick w))) t) eqn:Hl2.
      + destruct (renew_live id agent ttl u2 t (tick w)) as (w2 & Hr & Ho); [by rewrite tick_db|done|done|].
        eexists _, w2, _, _. split_and!; [|by right|by apply only_task_tick, Ho].
        exec. simpl. rewrite Hl, Hc. unfold opt_is. rewrite bool_decide_eq_true_2 by done. simpl.
        eapply bind_eq; [exact Hr|]. done.
      + eexists TCAlreadyClaimed, (tick (tick w)), (t_lease_until t), (t_last_heartbeat t). split_and!; [|by right|].
        * exec. simpl. rewrite Hl, Hc. unfold opt_is. rewrite bool_decide_eq_true_2 by done. simpl.
          eapply bind_eq; [by apply renew_dead|]. done.
        * apply only_task_then_tick, only_task_then_tick. replace (with_lease _ _ t) with t by by destruct t.
          unfold only_task. by rewrite insert_id.
    - destruct (claim_task_in_transaction_run id agent u1 (w_clock (tick w)) t (tick w)) as (w2 & Hr & Ho);
        [by rewrite tick_db|].
      unfold lease_live, parse_lease_until in Hl.
      eexists _, w2, _, _. split_and!; [|by left|].
      + exec. simpl. rewrite Hl. simpl. unfold mbind at 1, st_bind at 1, lift_result at 1. rewrite Hd1.
        by eapply bind_eq; [exact Hr|].
      + apply only_task_tick. replace (with_lease _ _ t) with (claimed_row agent u1 (w_clock (tick w)) t); [exact Ho|].
        destruct t; simpl in *; by subst. }
  exists w', l, h. split; [|done]. unfold ensure_lease_owner_or_reclaim.
  rewrite (bind_run _ _ _ _ _ (require_context_run _ _ _ Hctx)), Hid, Hpath, (bind_run _ _ _ _ _ Hr).
  by destruct Hcase as [-> | ->].
Qed.

(** The states a lease owner may ask from. *)
Definition asks_from (s : TaskStatus) : Prop := s ∈ [Executing; Addressing; Reviewing].

Lemma asks_from_spec s c agent : asks_from s → ctx_status c = as_str s →
  can_ask_from_context c = true ∧ can_supervisor_ask_during_consultation c agent = false ∧
  human_pause_context c = Ok (s, Some s).
Proof.
  unfold asks_from, can_ask_from_context, can_supervisor_ask_during_consultation, human_pause_context.
  rewrite !elem_of_cons. intros [->|[->|[->|?%elem_of_nil]]] ->; try done; simpl; rewrite andb_false_r; by split_and!.
Qed.

Definition question_file (id : string) : string := run_file (run_dir_for_task id) "QUESTION.md".
Definition answer_file (id : string) : string := run_file (run_dir_for_task id) "ANSWER.md".

Lemma ask_human_run agent question config id s t w :
  config_load = Ok config → wf w → schema_ready (w_db w) → d_tasks (w_db w) !! id = Some t →
  t_claimed_by t = Some agent → sole_claim agent id (w_db w) → deadlines_ok (ttl_secs config) w →
  asks_from s → t_status t = as_str s → write_ok (question_file id) = true → write_ok (answer_file id) = true →
  ∃ m w' l h n, ask_human agent question w = (Ok m, w') ∧ schema_ready (w_db w') ∧
    d_tasks (w_db w') = <[id := asked_row s (Some s) agent n (with_lease l h t)]> (d_tasks (w_db w)) ∧
    w_files w' = <[answer_file id := ""]> (<[question_file id := question]> (w_files w)).
Proof.
  intros Hcfg Hw Hs Ht Hc Hsole Hd Hfrom Hst Hq Ha.
  destruct (claimed_context_run agent id t w) as (c & Hctx & Hid & _ & Hcs & _ & Hdir); try done.
  destruct (asks_from_spec s c agent Hfrom ltac:(congruence)) as (Hcan & Hsup & Hpause).
  destruct (ensure_lease_own agent (ttl_secs config) id t w) as (w1 & l & h & Hl & Ho); try done.
  pose proof (only_task_schema _ _ _ _ Ho Hs) as Hs1. destruct Ho as (Htasks & _ & _ & _ & Hfiles).
  set (w2 := w1 <| w_files := <[answer_file id := ""]> (<[question_file id := question]> (w_files w1)) |>).
  destruct (human_question_run id s (Some s) agent (with_lease l h t) w2) as (w3 & H3 & Hs3 & _ & Ht3 & _ & Hf3);
    [done|simpl; by rewrite Htasks, lookup_insert_eq|].
  eexists _, w3, l, h, _. split_and!; [|done| |].
  - unfold ask_human. unfold mbind at 1, st_bind at 1, lift_result at 1. rewrite Hcfg.
    rewrite (bind_run _ _ _ _ _ (require_context_run _ _ _ Hctx)). unfold ensure_can_ask_human. rewrite Hcan, Hsup. simpl.
    rewrite (bind_run _ _ _ _ _ Hl), Hdir, Hid.
    erewrite bind_run by (by apply write_path_run). erewrite bind_run by (by apply write_path_run).
    unfold mbind at 1, st_bind at 1, lift_result at 1. rewrite Hpause. simpl. by eapply bind_eq; [exact H3|].
  - rewrite Ht3. simpl. rewrite Htasks. apply insert_insert_eq.
  - rewrite Hf3. simpl. by rewrite Hfiles.
Qed.

Lemma list_human_questions_run w :
  schema_ready (w_db w) → ∃ l, list_human_questions w = (Ok l, w) ∧
    map (λ q, (hq_task_id q, hq_run_dir q)) l = map (λ x, (x.1, run_dir_for_task x.1)) (open_questions (w_db w)).
Proof.
  intros Hs. unfold list_human_questions. rewrite (bind_run _ _ _ _ _ (open_for_read_ready w Hs)), (bind_run _ _ _ _ _ (get_db_eq w)).
  induction (open_questions (w_db w)) as [|x l IH]; [by exists []|]. destruct IH as (qs & Hqs & Hmap).
  assert (∃ o, best_effort (read_question_for_run_dir (run_dir_for_task x.1)) w = (Ok o, w)) as [o Ho].
  { unfold best_effort, read_question_for_run_dir, read_path, gets, mbind, st_bind. destruct (w_files w !! _); simpl; eauto. }
  eexists (HumanQ _ _ _ _ :: qs). split.
  - eapply mapM_cons; [eapply bind_eq; [exact Ho|reflexivity]|exact Hqs].
  - simpl. by rewrite Hmap.
Qed.

Lemma answer_run text id t w :
  schema_ready (w_db w) → head (open_questions (w_db w)) = Some (id, t) → trim text ≠ "" → write_ok (answer_file id) = true →
  ∃ m w', answer text w = (Ok m, w') ∧ schema_ready (w_db w') ∧
    d_tasks (w_db w') = <[id := t <| t_human_answer_recorded := 1 |>]> (d_tasks (w_db w)) ∧
    w_files w' = <[answer_file id := text]> (w_files w).
Proof.
  intros Hs Hh Htext Hok. destruct (list_human_questions_run w Hs) as ([|q qs] & Hl & Hmap);
    (destruct (open_questions (w_db w)) as [|x xs] eqn:Eo; [done|]); [done|]. injection Hh as ->.
  injection Hmap as Hid Hdir _.
  assert ((id, t) ∈ open_questions (w_db w)) as Hin by (rewrite Eo; left).
  unfold open_questions in Hin. rewrite elem_of_order_by in Hin. apply elem_of_tasks_where in Hin as [Ht Hp].
  apply andb_true_iff in Hp as [Hst _]. apply bool_decide_eq_true in Hst.
  eexists _, _. split_and!.
  - unfold answer. destruct (trim text) eqn:E; [done|]. simpl. rewrite (bind_run _ _ _ _ _ Hl).
    eapply bind_eq; [|reflexivity]. unfold record_scoped_human_answer. rewrite Hid, Hdir.
    eapply bind_eq; [by apply (human_answer_run id t w)|]. unfold catch, write_answer_for_run_dir. by rewrite write_path_run.
  - simpl. auto with exec nocore.
  - simpl. by autorewrite with world.
  - simpl. by autorewrite with world.
Qed.

Lemma answer_attempt_run c id s t text w :
  schema_ready (w_db w) → d_tasks (w_db w) !! id = Some t → t_status t = as_str AwaitingHuman →
  asks_from s → t_awaiting_human_status t = Some (as_str s) →
  ctx_task_id c = id → ctx_run_dir c = run_dir_for_task id → w_files w !! answer_file id = Some text → trim text ≠ "" →
  write_ok (question_file id) = true → write_ok (answer_file id) = true →
  ∃ w', answer_attempt c w = (Ok (Some (Json [("status", JStr "answered"); ("answer", JStr (trim text));
                                               ("resumed_state", JStr (as_str s))])), w') ∧
    d_tasks (w_db w') = <[id := t <| t_status := as_str s |> <| t_paused_status := None |>
                     <| t_awaiting_human_by := None |> <| t_awaiting_human_status := None |>
                     <| t_human_question_order := None |> <| t_human_answer_recorded := 0 |>]> (d_tasks (w_db w)) ∧
    w_files w' = <[question_file id := ""]> (<[answer_file id := ""]> (w_files w)).
Proof.
  intros Hs Ht Hst Hfrom Has Hid Hdir Hfile Htext Hq Ha. pose proof (restore_human_run id t w Hs Ht Hst) as Hr.
  cbv zeta in Hr. rewrite Has in Hr. change (default (as_str Executing) (Some (as_str s) ∪ t_paused_status t)) with
    (default (as_str Executing) (union_with (λ x _, Some x) (Some (as_str s)) (t_paused_status t))) in Hr.
  assert (default (as_str Executing) (union_with (λ x _, Some x) (Some (as_str s)) (t_paused_status t)) = as_str s) as E
    by by destruct (t_paused_status t).
  rewrite E, bool_decide_eq_false_2 in Hr
    by (unfold asks_from in Hfrom; rewrite !elem_of_cons in Hfrom; by destruct Hfrom as [->|[->|[->|?%elem_of_nil]]]).
  eexists. split_and!.
  - unfold answer_attempt. rewrite Hid, Hdir. erewrite bind_run; [|unfold best_effort, read_answer_for_run_dir, read_path;
      erewrite bind_run by reflexivity; fold (answer_file id); rewrite Hfile; reflexivity].
    cbv iota beta. assert (is_empty (trim text) = false) as -> by by destruct (trim text).
    rewrite (bind_run _ _ _ _ _ Hr). cbv zeta.
    erewrite bind_run by (by apply write_path_run). erewrite bind_run by (by apply write_path_run). done.
  - simpl. by autorewrite with world.
  - simpl. by autorewrite with world.
Qed.

(** The asker is let through on its lease, also when it is a reviewer. *)
Lemma scoped_answer_waiter_run c agent s ttl id t w w' :
  schema_ready (w_db w) → d_tasks (w_db w) !! id = Some t → ctx_task_id c = id → t_awaiting_human_by t = Some agent →
  asks_from s → t_awaiting_human_status t = Some (as_str s) → ensure_lease_owner_or_reclaim agent ttl w = (Ok tt, w') →
  ensure_scoped_answer_waiter c agent ttl w = (Ok tt, w').
Proof.
  intros Hs Ht Hid Hby Hfrom Has Hl. unfold ensure_scoped_answer_waiter. rewrite Hid.
  assert (task_human_question_owner id w = (Ok (Some agent), w)) as Ho.
  { unfold task_human_question_owner. exec. simpl. by rewrite Hby. }
  rewrite (bind_run _ _ _ _ _ Ho), bool_decide_eq_true_2 by done.
  assert (is_consultation_supervisor_human_wait c agent w = (Ok false, w)) as Hc; [|by rewrite (bind_run _ _ _ _ _ Hc)].
  unfold is_consultation_supervisor_human_wait, task_awaiting_human_status. destruct (negb (is_supervisor agent)); [done|].
  rewrite Hid. eapply bind_eq; [exec|]. simpl. rewrite Has. unfold opt_is. rewrite bool_decide_eq_false_2; [done|].
  unfold asks_from in Hfrom. rewrite !elem_of_cons in Hfrom. by destruct Hfrom as [->|[->|[->|?%elem_of_nil]]].
Qed.

Lemma wait_for_answer_run agent config rounds id s t text w :
  config_load = Ok config → rounds ≠ [] → wf w → schema_ready (w_db w) → d_tasks (w_db w) !! id = Some t →
  t_claimed_by t = Some agent → sole_claim agent id (w_db w) → deadlines_ok (ttl_secs config) w →
  t_status t = as_str AwaitingHuman → t_awaiting_human_by t = Some agent →
  asks_from s → t_awaiting_human_status t = Some (as_str s) →
  w_files w !! answer_file id = Some text → trim text ≠ "" →
  write_ok (question_file id) = true → write_ok (answer_file id) = true →
  ∃ w' l h, wait_for_answer agent rounds w
      = (Ok (Some (Json [("status", JStr "answered"); ("answer", JStr (trim text)); ("resumed_state", JStr (as_str s))])), w') ∧
    d_tasks (w_db w') !! id = Some (with_lease l h t <| t_status := as_str s |> <| t_paused_status := None |>
                     <| t_awaiting_human_by := None |> <| t_awaiting_human_status := None |>
                     <| t_human_question_order := None |> <| t_human_answer_recorded := 0 |>) ∧
    w_files w' !! question_file id = Some "" ∧ w_files w' !! answer_file id = Some "".
Proof.
  intros Hcfg Hne Hw Hs Ht Hc Hsole Hd Hst Hby Hfrom Has Hfile Htext Hq Ha.
  destruct (claimed_context_run agent id t w) as (c & Hctx & Hid & _ & Hcs & _ & Hdir); try done.
  destruct (ensure_lease_own agent (ttl_secs config) id t w) as (w1 & l & h & Hl & Ho); try done.
  pose proof (only_task_schema _ _ _ _ Ho Hs) as Hs1. destruct Ho as (Htasks & _ & _ & _ & Hfiles).
  destruct (answer_attempt_run c id s (with_lease l h t) text w1) as (w2 & Hatt & Ht2 & Hf2); try done;
    [by rewrite Htasks, lookup_insert_eq|by rewrite Hfiles|].
  exists w2, l, h. split_and!.
  - unfold wait_for_answer. unfold mbind at 1, st_bind at 1, lift_result at 1. rewrite Hcfg.
    rewrite (bind_run _ _ _ _ _ (require_context_run _ _ _ Hctx)), Hcs, Hst.
    unfold mbind at 1, st_bind at 1, lift_result at 1. change (from_str (as_str AwaitingHuman)) with (Ok AwaitingHuman).
    cbv iota beta. rewrite bool_decide_eq_true_2 by done. cbn [negb].
    erewrite bind_run; [destruct rounds; [done|]; simpl; by rewrite (bind_run _ _ _ _ _ Hatt)|].
    by apply (scoped_answer_waiter_run _ _ s _ id t).
  - by rewrite Ht2, lookup_insert_eq.
  - by rewrite Hf2, lookup_insert_eq.
  - rewrite Hf2, lookup_insert_ne, lookup_insert_eq; [done|]. unfold question_file, answer_file, run_file. by intros ?%(inj (String.append _)).
Qed.

(** A human's answer reaches the agent that asked. The owner of a task's
    lease asks; later the human answers, when the question is the oldest open
    one; later the agent waits.  Whatever happens in between to other tasks and
    files, all three calls succeed, the agent receives exactly the trimmed
    answer together with the state it asked from, the task's row is what it
    was apart from the renewed lease, and the question and answer files are
    empty again. *)
Theorem human_answer_reaches_asker agent question text config id s t w :
  config_load = Ok config → write_ok (question_file id) = true → write_ok (answer_file id) = true →
  wf w → schema_ready (w_db w) → d_tasks (w_db w) !! id = Some t → t_claimed_by t = Some agent →
  sole_claim agent id (w_db w) → deadlines_ok (ttl_secs config) w → asks_from s → t_status t = as_str s →
  t_paused_status t = None → t_awaiting_human_by t = None → t_awaiting_human_status t = None →
  t_human_question_order t = None → t_human_answer_recorded t = 0 → trim text ≠ "" →
  ∃ m1 w1, ask_human agent question w = (Ok m1, w1) ∧ w_files w1 !! question_file id = Some question ∧
  ∀ w1', task_kept id w1 w1' → schema_ready (w_db w1') → fst <$> head (open_questions (w_db w1')) = Some id →
  ∃ m2 w2, answer text w1' = (Ok m2, w2) ∧
  ∀ w2' rounds, task_kept id w2 w2' → wf w2' → schema_ready (w_db w2') → sole_claim agent id (w_db w2') →
    deadlines_ok (ttl_secs config) w2' → rounds ≠ [] →
  ∃ w3 l h, wait_for_answer agent rounds w2'
      = (Ok (Some (Json [("status", JStr "answered"); ("answer", JStr (trim text)); ("resumed_state", JStr (as_str s))])), w3) ∧
    d_tasks (w_db w3) !! id = Some (with_lease l h t) ∧
    w_files w3 !! question_file id = Some "" ∧ w_files w3 !! answer_file id = Some "".
Proof.
  intros Hcfg Hq Ha Hw Hs Ht Hc Hsole Hd Hfrom Hst Hp1 Hp2 Hp3 Hp4 Hp5 Htext.
  destruct (ask_human_run agent question config id s t w) as (m1 & w1 & l1 & h1 & n & H1 & _ & Ht1 & Hf1); try done.
  assert (answer_file id ≠ question_file id) as Hne
    by (unfold question_file, answer_file, run_file; by intros ?%(inj (String.append _))).
  exists m1, w1. split_and!; [done|by rewrite Hf1, lookup_insert_ne, lookup_insert_eq|].
  intros w1' [Hk1 _] Hs1 Hhead. rewrite Ht1, lookup_insert_eq in Hk1.
  destruct (head (open_questions (w_db w1'))) as [[i u]|] eqn:Eh; [|done]. injection Hhead as ->.
  assert (d_tasks (w_db w1') !! id = Some u) as Hu.
  { apply head_Some_elem_of in Eh. unfold open_questions in Eh. rewrite elem_of_order_by in Eh.
    by apply elem_of_tasks_where in Eh as [? _]. }
  rewrite Hk1 in Hu. injection Hu as <-.
  destruct (answer_run text id _ w1' Hs1 Eh Htext Ha) as (m2 & w2 & H2 & _ & Ht2 & Hf2).
  exists m2, w2. split; [done|]. intros w2' rounds [Hk2 Hkf2] Hw2 Hs2 Hsole2 Hd2 Hrounds.
  rewrite Ht2, lookup_insert_eq in Hk2.
  destruct (wait_for_answer_run agent config rounds id s _ text w2' Hcfg Hrounds Hw2 Hs2 Hk2)
    as (w3 & l & h & H3 & Ht3 & Hf3); try done.
  { unfold answer_file. rewrite (Hkf2 "ANSWER.md") by set_solver. rewrite Hf2. apply lookup_insert_eq. }
  exists w3, l, h. split_and!; [done| |apply Hf3..]. rewrite Ht3. f_equal. destruct t; simpl in *; by subst.
Qed.
End asking.
