(* ===== verification/Lifecycle.v ===== *)
(** The runtime as a whole: agents, the human and HQ act on one database by
    running operations one after another, in any order and with any outcome.
    Reachable worlds are well formed, the event log only grows, and races that
    span several operations are decided by that log. *)
From S2P Require Import Prelude Status View Chrono Database WellFormed Schema Exec Store Waits Claims Runs Task Session Recovery Registry CanonicalGraph Tools.

(** ** Operations that change state

    Enqueueing and answering run several transactions; their parts are
    operations of their own too, so another agent may act in between. *)
Inductive operation : Type :=
  | OpOpen
  | OpCreatePending (description : string) (spec milestone : option string)
  | OpReserveTask
  | OpFinalizeTask (a : TaskArtifact) (spec milestone : option string)
  | OpDiscardTask (a : TaskArtifact)
  | OpMigrateProject (template : string) (legacy : option Legacy.LegacyStateData)
  | OpClaimReadyById (id agent : string) (ttl : Z)
  | OpClaimReviewById (id agent : string) (ttl : Z)
  | OpClaimNextReady (agent : string) (ttl : Z)
  | OpClaimNextReview (agent : string) (ttl : Z)
  | OpClaimTask (id path agent : string) (ttl : Z)
  | OpRenewLease (agent : string) (ttl : Z)
  | OpTaskStatus (id path : string) (status : TaskStatus) (spec milestone : option string)
  | OpSubmitted (id path : string) (run : option string) (view : option RepositoryViewReference) (freeze_failed : bool)
      (checks : SubmissionCheckEvidence)
  | OpCheckPassed (id : string)
  | OpCheckFailed (id reason : string) (max : Z)
  | OpIntegrationFailed (id : string) (run : option string) (reason : string)
  | OpReviewRejected (id : string) (max : Z)
  | OpEnforceDispatch (id : string) (max : Z)
  | OpDispatch (id : string)
  | OpConsultation (id : string) (paused : TaskStatus)
  | OpRestoreConsultation (id : string)
  | OpHumanQuestion (id : string) (resume : TaskStatus) (paused : option TaskStatus) (asked_by : string)
  | OpHumanAnswer (q : HumanQuestion) (response : string)
  | OpRecordAnswer (id : string)
  | OpClearAnswer (id : string)
  | OpRestoreHuman (id : string)
  | OpReserveRun (run agent workspace id : string) (shared : bool)
  | OpDropReservation (r : ExecutorSessionReservation)
  | OpRunStarted (run role agent : string) (pid : Z) (id : option string) (workspace : string) (evidence : RunStartEvidence)
  | OpAttachTask (agent id path : string)
  | OpAttachNextConsultation (agent : string)
  | OpAttachConsultation (id agent : string)
  | OpRunFinished (run : string) (code : Z)
  | OpEvent (run : option string) (type : string) (p : payload)
  | OpExecutorSession (scope : ExecutorSessionScope) (ttl : Z)
  | OpRenewExecutorSession (scope : ExecutorSessionScope) (ttl : Z)
  | OpSupervisorSession (scope : ExecutorSessionScope) (reviewer : bool) (ttl : Z)
  | OpRejectSession (scope : ExecutorSessionScope) (tree : option Digest) (max : Z) (notes : string)
  | OpRenewSupervisorSession (scope : ExecutorSessionScope) (ttl : Z)
  | OpRecover
  | OpSelectSpec (s : ProjectSelection)
  | OpLastSpec (path : string)
  | OpClearLastSpec
  | OpClearLastArchive
  | OpInvalidate (id : string) (run : option string) (source : option CanonicalSourceIdentity) (reason : CanonicalInvalidationReason)
  | OpRefresh (id run : option string) (guard : CanonicalGraphRefreshGuard) (source : CanonicalSourceIdentity)
      (snapshot : SnapshotId) (build : BuildId)
  | OpRefreshFailed (id : string) (run : option string) (guard : CanonicalGraphRefreshGuard)
  | OpRecordView (table id : string) (view : RepositoryViewReference)
  | OpCompareView (id : string) (expected view : RepositoryViewReference)
  (** tool calls of the server; a waiting tool is a sequence of its polls *)
  | OpToolConsult (agent question : string)
  | OpToolRespondConsult (agent : option string) (text : string)
  | OpPollConsult (context : RuntimeTaskContext)
  | OpPollConsultation (agent : string)
  | OpToolAskHuman (agent question : string)
  | OpToolAnswer (text : string)
  | OpPollAnswer (context : RuntimeTaskContext)
  | OpPollTask (agent : string) (ttl : Z)
  | OpPollReview (agent : string) (ttl : Z)
  | OpToolReviewPending (agent : string)
  | OpToolReject (agent notes : string)
  | OpToolHeartbeat (agent : string)
  | OpToolReset (agent : option string)
  | OpToolEnqueue (description : string) (spec milestone : option string)
  | OpToolCreate (description : string).

Section perform.
Context {CH : Chrono} {ENV : Env} {SERVER : Server}.

Definition void {A} (m : st world A) : st world unit := m ;; mret tt.

Definition perform (op : operation) : st world unit :=
  match op with
  | OpOpen => open_runtime_database
  | OpCreatePending d s m => void (create_pending_task_artifact d s m)
  | OpReserveTask => void reserve_task_artifact
  | OpFinalizeTask a s m => finalize_task_artifact_reservation a s m
  | OpDiscardTask a => discard_task_artifact_reservation a
  | OpMigrateProject t l => migrate_current_project t l
  | OpClaimReadyById id a ttl => void (claim_ready_task_by_id id a ttl)
  | OpClaimReviewById id a ttl => void (claim_review_task_by_id id a ttl)
  | OpClaimNextReady a ttl => void (claim_next_ready_task a ttl)
  | OpClaimNextReview a ttl => void (claim_next_review_task a ttl)
  | OpClaimTask id p a ttl => void (claim_task id p a ttl)
  | OpRenewLease a ttl => void (renew_claimed_task_lease a ttl)
  | OpTaskStatus id p st s m => record_task_status_with_origin id p st s m
  | OpSubmitted id p r v f c => record_task_submitted id p r v f c
  | OpCheckPassed id => record_task_check_passed id
  | OpCheckFailed id r m => void (record_task_check_failed id r m)
  | OpIntegrationFailed id r s => record_task_integration_failed id r s
  | OpReviewRejected id m => void (record_task_review_rejected id m)
  | OpEnforceDispatch id m => void (enforce_executor_dispatch_limit id m)
  | OpDispatch id => void (record_executor_dispatch id)
  | OpConsultation id p => record_task_consultation_requested id p
  | OpRestoreConsultation id => void (restore_task_from_consultation id)
  | OpHumanQuestion id r p b => record_task_human_question_requested_with_resume id r p b
  | OpHumanAnswer q r => record_scoped_human_answer q r
  | OpRecordAnswer id => record_task_human_answer id
  | OpClearAnswer id => clear_task_human_answer_recorded id
  | OpRestoreHuman id => void (restore_task_from_human_answer id)
  | OpReserveRun r a ws id sh => void (reserve_executor_session_at r a ws id sh)
  | OpDropReservation r => drop_reservation r
  | OpRunStarted r ro a pid id ws e => void (record_run_started_for_task_with_baseline r ro a (as_u32 pid) id ws e)
  | OpAttachTask a id p => void (attach_running_run_to_task a id p)
  | OpAttachNextConsultation a => void (attach_running_run_to_next_consultation a)
  | OpAttachConsultation id a => void (attach_running_run_to_consultation id a)
  | OpRunFinished r c => record_run_finished r c
  | OpEvent r t p => record_runtime_event r t p
  | OpExecutorSession s ttl => void (claim_executor_session s ttl)
  | OpRenewExecutorSession s ttl => void (renew_executor_session_lease s ttl)
  | OpSupervisorSession s b ttl => start_supervisor_session s b ttl
  | OpRejectSession s t m notes => void (reject_supervisor_session s t m (λ c, write_review_for_run_dir (ctx_run_dir c) notes))
  | OpRenewSupervisorSession s ttl => void (renew_supervisor_session s ttl)
  | OpRecover => void recover_runtime_state
  | OpSelectSpec s => write_project_selection s
  | OpLastSpec p => write_last_spec_path p
  | OpClearLastSpec => clear_last_spec_path
  | OpClearLastArchive => clear_last_spec_archive_path
  | OpInvalidate id r s re => record_canonical_graph_invalidation id r s re
  | OpRefresh id r g s sn b => void (record_canonical_graph_refresh id r g s sn b)
  | OpRefreshFailed id r g => record_canonical_graph_refresh_failed_best_effort id r g
  | OpRecordView t id v => record_repository_view_at t id v
  | OpCompareView id e v => void (compare_and_record_task_repository_view_at id e v)
  | OpToolConsult a q => void (consult a q)
  | OpToolRespondConsult a t => void (respond_consult a t)
  | OpPollConsult c => void (consult_attempt c)
  | OpPollConsultation a => void (consultation_attempt a)
  | OpToolAskHuman a q => void (ask_human a q)
  | OpToolAnswer t => void (answer t)
  | OpPollAnswer c => void (answer_attempt c)
  | OpPollTask a ttl => void (task_attempt a ttl)
  | OpPollReview a ttl => void (review_attempt a ttl)
  | OpToolReviewPending a => void (review_pending a)
  | OpToolReject a n => void (reject a n)
  | OpToolHeartbeat a => void (heartbeat a)
  | OpToolReset a => void (reset a)
  | OpToolEnqueue d s m => void (enqueue_task d s m)
  | OpToolCreate d => void (create_task d)
  end.

Lemma preserves_void {A} (I : world → Prop) (m : st world A) : preserves I m → preserves I (void m).
Proof. intros H. apply preserves_bind; [done|intros ?; apply preserves_ret]. Qed.

Lemma perform_wf op : preserves wf (perform op).
Proof.
  destruct op; cbn [perform]; lazymatch goal with |- preserves _ (void _) => apply preserves_void | _ => idtac end;
    unfold claim_ready_task_by_id, claim_review_task_by_id, claim_next_ready_task, claim_next_review_task, record_canonical_graph_invalidation;
    try solve [eauto 3 with preserves].
  apply preserves_run_started, as_u32_range.
Qed.
End perform.

(** ** Steps

    One step performs an operation under whatever the operating system and the
    configuration answer at that moment, or lets time pass and files change outside the runtime. *)
Inductive step {CH : Chrono} : world → world → Prop :=
  | step_op (ENV : Env) (SERVER : Server) (op : operation) (w : world) : step w (perform op w).2
  | step_outside (w : world) (clock : Z) (ticks : list Z) (files : gmap string string) :
      step w (World (w_db w) clock ticks files).

Definition empty_db : db := Db ∅ ∅ [] 0 None [] ∅ 0 [] ∅.
Definition initial (w : world) : Prop := w_db w = empty_db.
Definition reachable {CH : Chrono} (w : world) : Prop := ∃ w0, initial w0 ∧ rtc step w0 w.

Section reachability.
Context {CH : Chrono}.

Lemma step_wf w w' : step w w' → wf w → wf w'.
Proof. intros []; [apply (perform_wf (ENV := ENV) (SERVER := SERVER))|done]. Qed.
Lemma empty_db_wf : db_wf empty_db.
Proof. split; simpl; try done; try lia; try apply map_Forall_empty; repeat constructor. Qed.
Lemma steps_wf w w' : rtc step w w' → wf w → wf w'.
Proof. induction 1; eauto using step_wf. Qed.
Lemma reachable_wf w : reachable w → wf w.
Proof. intros (w0 & Hi & Hr). eapply steps_wf; [exact Hr|]. unfold wf. rewrite Hi. apply empty_db_wf. Qed.

(** C1. Every reachable world is well formed. Starting from an empty database,
    whatever operations run in whatever order, and whether they succeed or
    fail, each task's status is one of the known statuses and its repository
    view decodes, counters stay in 32 bits, every run belongs to an existing
    task, every event to an existing run, event ids increase, and no two tasks
    share a place in the question queue. *)
Theorem reachable_well_formed w : reachable w →
  wf w ∧
  (∀ id t, d_tasks (w_db w) !! id = Some t →
     (∃ s, t_status t = as_str s) ∧ (∃ v, repository_view_reference_from_database (t_view t) = Ok v)) ∧
  (∀ rid r, d_runs (w_db w) !! rid = Some r →
     is_Some (d_tasks (w_db w) !! r_task_id r) ∧ (∃ v, repository_view_reference_from_database (r_view r) = Ok v)).
Proof.
  intros Hw%reachable_wf. split; [done|]. split.
  - intros id t Ht. destruct (wf_task _ _ _ Hw Ht). split; [by apply valid_status_inv|].
    unfold view_ok in tw_view. destruct (repository_view_reference_from_database (t_view t)); [eauto|done].
  - intros rid r Hr. split; [exact (dw_run_task _ Hw _ _ Hr)|]. destruct (dw_runs _ Hw _ _ Hr) as [_ Hv].
    unfold view_ok in Hv. destruct (repository_view_reference_from_database (r_view r)); [eauto|done].
Qed.
End reachability.

(** ** The log *)

(** The schema stays ready and the events of [w0] stay where they are. *)
Definition logged (w0 w : world) : Prop := schema_ready (w_db w) ∧ ∃ l, d_events (w_db w) = (d_events (w_db w0) ++ l)%list.

Section log.
Context {CH : Chrono} {ENV : Env} {SERVER : Server} (w0 : world).
#[local] Abbreviation I := (logged w0).

Lemma logged_put f : (∀ d, schema_part (f d) = schema_part d ∧ ∃ l, d_events (f d) = (d_events d ++ l)%list) → preserves I (put_db f).
Proof.
  intros Hf. apply preserves_modify. intros w [Hs [l Hl]]. destruct (Hf (w_db w)) as [Hp [l' Hl']]. split; cbn.
  - by eapply schema_ready_part.
  - exists (l ++ l')%list. rewrite Hl', Hl. by rewrite app_assoc.
Qed.
Lemma logged_utc_now : preserves I utc_now.
Proof. intros w Hw. rewrite utc_now_eq. unfold logged. cbn. by rewrite tick_db. Qed.
Lemma logged_timestamp : preserves I timestamp.
Proof. intros w Hw. rewrite timestamp_eq. unfold logged. cbn. by rewrite tick_db. Qed.
Lemma logged_fmap {A B} (f : A → B) (m : st world A) : preserves I m → preserves I (f <$> m).
Proof. apply preserves_fmap. Qed.
Lemma logged_files f : preserves I (modify (λ w, w <| w_files := f (w_files w) |>)).
Proof. by apply preserves_modify. Qed.
Lemma logged_transaction {A} (m : st world A) : preserves I m → preserves I (transaction m).
Proof. intros Hm w Hw. specialize (Hm w Hw). unfold transaction. by destruct (m w) as [[a|e] w']. Qed.
Lemma logged_read_only {A} (m : st world A) : preserves I m → preserves I (read_only m).
Proof. intros Hm w Hw. specialize (Hm w Hw). unfold read_only. destruct (m w) as [[a|e] w']; [|done]. by destruct (bool_decide _). Qed.
Lemma logged_open : preserves I open_runtime_database.
Proof. intros w Hw. by rewrite (open_run w (proj1 Hw)). Qed.
Lemma logged_open_read : preserves I open_runtime_database_for_read.
Proof. intros w Hw. by rewrite (open_for_read_ready w (proj1 Hw)). Qed.
Lemma logged_history_matches h e : preserves I (history_matches h e).
Proof. revert e. induction h as [|[[v n] x] h IH]; intros [|[ev en] e]; simpl; solve_preserves. Qed.
Lemma logged_mapM {A B} (f : A → st world B) l : (∀ x, preserves I (f x)) → preserves I (mapM f l).
Proof. apply preserves_mapM. Qed.
#[local] Hint Resolve logged_utc_now logged_timestamp logged_files logged_open logged_open_read logged_history_matches : preserves.

Create HintDb logged discriminated.
(** Every operation is built from the statements above: unfold down to them. *)
Ltac head_of t := lazymatch t with ?f _ => head_of f | _ => t end.
Ltac logged_step :=
  lazymatch goal with
  | |- preserves _ (transaction _) => apply logged_transaction
  | |- preserves _ (read_only _) => apply logged_read_only
  | |- preserves _ (put_db _) => apply logged_put; intros ?; cbn;
      repeat match goal with |- context [match ?x with _ => _ end] => destruct x end;
      (split; [done|first [exists []; by rewrite app_nil_r | eexists; done]])
  | |- preserves _ (mapM _ _) => apply logged_mapM; intros ?
  | |- preserves _ (fmap _ _) => apply logged_fmap
  | |- preserves _ (gets _) => apply preserves_gets
  | |- preserves _ (mret _) => apply preserves_ret
  | |- preserves _ (fail _) => apply preserves_fail
  | |- preserves _ (ensure _ _ _) => apply preserves_ensure
  | |- preserves _ (lift_result _) => apply preserves_lift
  | |- preserves _ (modify _) => apply logged_files
  | |- preserves _ utc_now => apply logged_utc_now
  | |- preserves _ timestamp => apply logged_timestamp
  | |- preserves _ open_runtime_database => apply logged_open
  | |- preserves _ open_runtime_database_for_read => apply logged_open_read
  | |- preserves _ (history_matches _ _) => apply logged_history_matches
  | |- preserves _ (let _ := _ in _) => cbv zeta
  | |- preserves _ (mbind _ _) => apply preserves_bind; [|intros ?]
  | |- preserves _ (catch _ _) => apply preserves_catch; [|intros ?]
  | |- preserves _ (best_effort _) => apply preserves_best_effort
  | |- preserves _ (for_each _ _) => apply preserves_for_each; intros ? ?
  | |- preserves _ (match ?x with _ => _ end) => destruct x
  | |- preserves _ (bail _ _) => apply preserves_fail
  | |- preserves _ ?m =>
    first [ assumption
          | match goal with H : ∀ _, preserves _ _ |- _ => apply H end
          | solve [eauto 2 with logged nocore]
          | let h := head_of m in unfold h; cbv beta ]
  end.

Lemma logged_recover_answers q : preserves I (recover_answers q).
Proof. induction q as [|x q IH]; cbn [recover_answers]; repeat logged_step. Qed.
Lemma logged_reserve_loop f n : preserves I (reserve_loop f n).
Proof. revert n. induction f as [|f IH]; intros n; cbn [reserve_loop]; repeat logged_step. Qed.
#[local] Hint Resolve logged_recover_answers logged_reserve_loop : logged.

Lemma perform_logged op : preserves I (perform op).
Proof. destruct op; cbn [perform]; repeat logged_step. Qed.
End log.


Section interleavings.
Context {CH : Chrono}.

Lemma step_logged w0 w w' : step w w' → logged w0 w → logged w0 w'.
Proof. intros []; [apply (perform_logged (ENV := ENV) (SERVER := SERVER))|done]. Qed.
Lemma steps_logged w w' : rtc step w w' → schema_ready (w_db w) → logged w w'.
Proof.
  intros Hsteps Hs. assert (∀ u v, rtc step u v → logged w u → logged w v) as H.
  { induction 1; eauto using step_logged. }
  apply (H w w' Hsteps). split; [done|]. exists []. by rewrite app_nil_r.
Qed.

(** The event log is append-only. From any reachable world with a current
    schema, however the system goes on, all events recorded so far stay in the
    log in their place, every event recorded later has a larger id, and the
    schema stays current. *)
Theorem log_append_only w w' :
  reachable w → schema_ready (w_db w) → rtc step w w' →
  schema_ready (w_db w') ∧
  ∃ l, d_events (w_db w') = (d_events (w_db w) ++ l)%list ∧
    ∀ e e', e ∈ d_events (w_db w) → e' ∈ l → e_id e < e_id e'.
Proof.
  intros Hr Hs Hsteps. destruct (steps_logged w w' Hsteps Hs) as [Hs' [l Hl]]. split; [done|]. exists l. split; [done|].
  intros e e' He He'. pose proof (dw_event_sorted _ (steps_wf _ _ Hsteps (reachable_wf _ Hr))) as Hsorted.
  rewrite Hl, map_app in Hsorted. apply StronglySorted_app in Hsorted as (Hlt & _ & _).
  apply Hlt; apply list_elem_of_fmap; eauto.
Qed.

(** C37. A refresh never publishes a graph that was invalidated while it was
    being built. A builder takes its guard, other operations run, one of them
    invalidates the canonical graph, more operations run: the builder's refresh
    is then superseded; the graph state stays as it is and no event is
    recorded. *)
Theorem refresh_superseded_by_invalidation id run source reason t r s sn b g w0 wa wb w2 :
  reachable w0 → schema_ready (w_db w0) → canonical_graph_refresh_guard w0 = (Ok g, w0) →
  rtc step w0 wa → run_known run wa → record_canonical_graph_invalidation id run source reason wa = (Ok tt, wb) → rtc step wb w2 →
  ∃ w3, record_canonical_graph_refresh t r g s sn b w2 = (Ok Superseded, w3) ∧
    (∀ p, d_prs (w_db w2) = Some p → d_prs (w_db w3) = Some p) ∧ d_events (w_db w3) = d_events (w_db w2) ∧
    d_tasks (w_db w3) = d_tasks (w_db w2) ∧ d_runs (w_db w3) = d_runs (w_db w2).
Proof.
  intros Hr Hs Hg Hsa Hrun Hi Hs2. injection Hg as <-.
  destruct (steps_logged w0 wa Hsa Hs) as [Hsa' [l Hl]]. pose proof (steps_wf _ _ Hsa (reachable_wf _ Hr)) as Hwa.
  set (env := {| process_is_alive := λ _, true; canonicalize := λ _, None; write_ok := λ _, true; self_pid := 0 |} : Env).
  set (server := {| config_load := Ok (Cfg [] 0 0 0 0); env_task_id := None |} : Server).
  assert (step wa wb) as Hab.
  { replace wb with (perform (OpInvalidate id run source reason) wa).2; [by apply (step_op env server)|]. cbn [perform]. by rewrite Hi. }
  destruct (steps_logged wa wb (rtc_once _ _ Hab) Hsa') as [Hsb _].
  destruct (steps_logged wb w2 Hs2 Hsb) as [Hs2' [l' Hl']].
  destruct (refresh_superseded t r _ s sn b w2 Hs2' (guard_outdated id run source reason w0 wa wb w2 l l' Hwa Hsa' Hrun Hl Hi Hl'))
    as (w3 & H & Hp & Hrest).
  exists w3. split; [done|]. split; [|done]. intros p Hp2. rewrite Hp. unfold ensured_prs. by rewrite Hp2.
Qed.
End interleavings.
