(* ===== verification/Transact.v ===== *)
(** Results with an error type of the component's own, and database
    transactions: the distributed indexer's stores return
    [Result<_, ComponentError>] and run every operation inside one SQLite
    transaction that an early return drops, and so rolls back. *)
From S2P Require Import Prelude.

(** ** [Result<A, E>] *)
Inductive res (E A : Type) : Type :=
  | ROk (a : A)
  | RErr (e : E).
Arguments ROk {E A} a.
Arguments RErr {E A} e.

#[global] Instance res_eq_dec {E A} `{!EqDecision E, !EqDecision A} : EqDecision (res E A).
Proof. solve_decision. Defined.

#[global] Instance res_ret E : MRet (res E) := λ A, ROk.
#[global] Instance res_bind E : MBind (res E) := λ A B f r,
  match r with ROk a => f a | RErr e => RErr e end.
#[global] Instance res_fmap E : FMap (res E) := λ A B f r,
  match r with ROk a => ROk (f a) | RErr e => RErr e end.

Definition map_err {E E' A} (f : E → E') (r : res E A) : res E' A :=
  match r with ROk a => ROk a | RErr e => RErr (f e) end.
Definition ok_or {E A} (e : E) (o : option A) : res E A :=
  match o with Some a => ROk a | None => RErr e end.
Definition rcheck {E} (b : bool) (e : E) : res E unit := if b then ROk tt else RErr e.
Definition r_ok {E A} (r : res E A) : bool := match r with ROk _ => true | RErr _ => false end.

(** ** Transactions: the state of a failed one is lost *)
Definition tx (S E A : Type) : Type := S → res E (A * S).

#[global] Instance tx_ret S E : MRet (tx S E) := λ A a s, ROk (a, s).
#[global] Instance tx_bind S E : MBind (tx S E) := λ A B f m s,
  match m s with ROk (a, s') => f a s' | RErr e => RErr e end.

Definition abort {S E A} (e : E) : tx S E A := λ _, RErr e.
Definition require {S E} (b : bool) (e : E) : tx S E unit := if b then mret tt else abort e.
Definition query {S E A} (f : S → A) : tx S E A := λ s, ROk (f s, s).
Definition fetch {S E A} (f : S → res E A) : tx S E A := λ s,
  match f s with ROk a => ROk (a, s) | RErr e => RErr e end.
Definition write {S E} (f : S → S) : tx S E unit := λ s, ROk (tt, f s).
Definition lift {S E A} (r : res E A) : tx S E A := fetch (λ _, r).

(** [transaction.commit()] at the end of a successful operation, the
    rollback of [Drop] after an early return. *)
Definition commit {S E A} (m : tx S E A) (s : S) : res E A * S :=
  match m s with ROk (a, s') => (ROk a, s') | RErr e => (RErr e, s) end.

Section tx_lemmas.
Context {S E : Type}.

Lemma tx_bind_ROk {A B} (m : tx S E A) (f : A → tx S E B) s b s' :
  (m ≫= f) s = ROk (b, s') ↔ ∃ a s1, m s = ROk (a, s1) ∧ f a s1 = ROk (b, s').
Proof.
  unfold mbind, tx_bind. destruct (m s) as [[a s1]|e]; split;
    [eauto|by intros (? & ? & [= -> ->] & ?)|done|by intros (? & ? & [=] & _)].
Qed.
Lemma tx_bind_run {A B} (m : tx S E A) (f : A → tx S E B) s a s1 :
  m s = ROk (a, s1) → (m ≫= f) s = f a s1.
Proof. unfold mbind, tx_bind. by intros ->. Qed.
Lemma tx_bind_err {A B} (m : tx S E A) (f : A → tx S E B) s e :
  m s = RErr e → (m ≫= f) s = RErr e.
Proof. unfold mbind, tx_bind. by intros ->. Qed.

Lemma require_ROk b (e : E) (s s' : S) u : require b e s = ROk (u, s') ↔ b = true ∧ s' = s.
Proof. unfold require, mret, tx_ret, abort. destruct b, u; naive_solver. Qed.
Lemma fetch_ROk {A} (f : S → res E A) s a s' : fetch f s = ROk (a, s') ↔ f s = ROk a ∧ s' = s.
Proof. unfold fetch. destruct (f s); naive_solver. Qed.
Lemma lift_ROk {A} (r : res E A) (s s' : S) a : lift r s = ROk (a, s') ↔ r = ROk a ∧ s' = s.
Proof. apply fetch_ROk. Qed.

Lemma commit_ROk {A} (m : tx S E A) s a s' : commit m s = (ROk a, s') ↔ m s = ROk (a, s').
Proof. unfold commit. destruct (m s) as [[??]|?]; naive_solver. Qed.
(** An operation that fails leaves the database as it was. *)
Lemma commit_RErr {A} (m : tx S E A) s e s' : commit m s = (RErr e, s') → s' = s ∧ m s = RErr e.
Proof. unfold commit. destruct (m s) as [[??]|?]; naive_solver. Qed.
Lemma commit_rollback {A} (m : tx S E A) s : r_ok (commit m s).1 = false → (commit m s).2 = s.
Proof. unfold commit. by destruct (m s) as [[??]|?]. Qed.
End tx_lemmas.

Lemma ok_or_ROk {E A} (e : E) (o : option A) a : ok_or e o = ROk a ↔ o = Some a.
Proof. destruct o; naive_solver. Qed.
Lemma map_err_ROk {E E' A} (f : E → E') (r : res E A) a : map_err f r = ROk a ↔ r = ROk a.
Proof. destruct r; naive_solver. Qed.
Lemma rcheck_ROk {E} b (e : E) u : rcheck b e = ROk u ↔ b = true.
Proof. destruct b, u; naive_solver. Qed.
Lemma res_bind_ROk {E A B} (f : A → res E B) (r : res E A) b :
  r ≫= f = ROk b ↔ ∃ a, r = ROk a ∧ f a = ROk b.
Proof. destruct r; unfold mbind, res_bind; naive_solver. Qed.

(** Opens every step of a transaction that returned. *)
Ltac tx_inv :=
  repeat match goal with
  | H : (_ ≫= _) _ = ROk (_, _) |- _ => apply tx_bind_ROk in H as (? & ? & ? & H)
  | H : (mbind _ _) _ = ROk (_, _) |- _ => apply tx_bind_ROk in H as (? & ? & ? & H)
  | H : require _ _ _ = ROk (_, _) |- _ => apply require_ROk in H as [H ->]
  | H : fetch _ _ = ROk (_, _) |- _ => apply fetch_ROk in H as [H ->]
  | H : lift _ _ = ROk (_, _) |- _ => apply lift_ROk in H as [H ->]
  | H : query _ _ = ROk (_, _) |- _ => injection H as <- <-
  | H : write _ _ = ROk (_, _) |- _ => injection H as _ <-
  | H : (mret _) _ = ROk (_, _) |- _ => injection H as <- <-
  | H : abort _ _ = ROk _ |- _ => discriminate H
  | H : ok_or _ _ = ROk _ |- _ => apply ok_or_ROk in H
  | H : map_err _ _ = ROk _ |- _ => apply map_err_ROk in H
  | H : rcheck _ _ = ROk _ |- _ => apply rcheck_ROk in H
  | H : _ ≫= _ = ROk _ |- _ => apply res_bind_ROk in H as (? & ? & H)
  | H : ROk _ = ROk _ |- _ => injection H as ?
  | H : RErr _ = ROk _ |- _ => discriminate H
  end.
