(* ===== verification/Wire.v ===== *)
(** The wire form of the distributed contracts: what [#[derive(Serialize,
    Deserialize)]] and the serde attributes of [src/src/distributed] make of a
    value, as a tree.  [serde_json]'s text and SHA-256 are interfaces, since
    those crates are not part of this repository.  The derived code would also
    accept a struct written as a positional array, which no serializer writes
    and this model leaves out. *)
From S2P Require Import Prelude View Transact.

Inductive json : Type :=
  | JNull
  | JBool (b : bool)
  | JNum (z : Z)
  | JStr (s : string)
  | JArr (l : list json)
  | JObj (fields : list (string * json)).

(** ** [serde_json] and [sha2] *)
Class JsonText := {
  (** [serde_json::to_vec] on the tree of a value *)
  json_text : json → string;
  (** [serde_json::from_slice] up to the tree *)
  json_parse : string → option json }.
Class JsonTextLaws `{!JsonText} : Prop :=
  json_parse_text j : json_parse (json_text j) = Some j.

Class Sha256 := sha256 : string → list Z.
Class Sha256Laws `{!Sha256} : Prop := {
  sha256_length s : length (sha256 s) = 32%nat;
  sha256_bytes s : Forall (λ b, 0 ≤ b < 256) (sha256 s) }.

(** [DateTime<Utc>]'s [Serialize] and [Deserialize]. *)
Class TimeText := {
  time_text : Z → string;
  text_time : string → option Z }.
Class TimeTextLaws `{!TimeText} (calendar : Z → Prop) : Prop :=
  text_time_text t : calendar t → text_time (time_text t) = Some t.

(** ** Serializable types *)
Class Serde (A : Type) := {
  ser : A → json;
  de : json → option A }.
(** [SerdeLaws A P]: values that satisfy [P] are read back. *)
Class SerdeLaws (A : Type) `{!Serde A} (P : A → Prop) : Prop :=
  de_ser a : P a → de (ser a) = Some a.
Definition always {A} (_ : A) : Prop := True.

Definition to_vec `{!JsonText} {A} `{!Serde A} (a : A) : string := json_text (ser a).
Definition from_slice `{!JsonText} {A} `{!Serde A} (s : string) : option A := json_parse s ≫= de.

Lemma from_slice_to_vec `{!JsonText, !JsonTextLaws, !Serde A, !SerdeLaws A P} a :
  P a → from_slice (to_vec a) = Some a.
Proof. intros Ha. unfold from_slice, to_vec. rewrite json_parse_text. simpl. by apply (de_ser (P := P)). Qed.

(** *** Scalars

    The reader and the writer of each type are named functions; [serde]
    rewrites a reader applied to its writer. *)
Create HintDb serde discriminated.

Definition ser_string (s : string) : json := JStr s.
Definition de_string (j : json) : option string := match j with JStr s => Some s | _ => None end.
Definition ser_bool (b : bool) : json := JBool b.
Definition de_bool (j : json) : option bool := match j with JBool b => Some b | _ => None end.
(** An unsigned integer type: [lo] is 1 for the [NonZero] types. *)
Definition ser_int (z : Z) : json := JNum z.
Definition de_int (lo modulus : Z) (j : json) : option Z :=
  match j with
  | JNum z => if (lo <=? z) && (z <? modulus) then Some z else None
  | _ => None
  end.
Definition ser_time `{!TimeText} (t : Z) : json := JStr (time_text t).
Definition de_time `{!TimeText} (j : json) : option Z :=
  match j with JStr s => text_time s | _ => None end.

Lemma de_ser_string s : de_string (ser_string s) = Some s.
Proof. done. Qed.
Lemma de_ser_bool b : de_bool (ser_bool b) = Some b.
Proof. done. Qed.
Lemma de_ser_int lo m z : lo ≤ z < m → de_int lo m (ser_int z) = Some z.
Proof.
  intros H. unfold de_int, ser_int. by rewrite (proj2 (Z.leb_le _ _)), (proj2 (Z.ltb_lt _ _)) by lia.
Qed.
Lemma de_ser_time `{!TimeText, !TimeTextLaws calendar} t : calendar t → de_time (ser_time t) = Some t.
Proof. apply text_time_text. Qed.

(** *** [Option<T>] and [Vec<T>] *)
Definition ser_option {A} (w : A → json) (o : option A) : json :=
  match o with Some a => w a | None => JNull end.
Definition de_option {A} (r : json → option A) (j : json) : option (option A) :=
  match j with JNull => Some None | _ => Some <$> r j end.
Definition ser_list {A} (w : A → json) (l : list A) : json := JArr (w <$> l).
Definition de_list {A} (r : json → option A) (j : json) : option (list A) :=
  match j with JArr l => mapM r l | _ => None end.

#[global] Arguments ser_option : simpl never.
#[global] Arguments de_option : simpl never.
#[global] Arguments ser_list : simpl never.
#[global] Arguments de_list : simpl never.
#[global] Arguments de_int : simpl never.
#[global] Arguments ser_time : simpl never.
#[global] Arguments de_time : simpl never.

Lemma de_ser_option {A} (w : A → json) (r : json → option A) o :
  (∀ a, w a ≠ JNull) → (∀ a, o = Some a → r (w a) = Some a) →
  de_option r (ser_option w o) = Some o.
Proof.
  intros Hn Hr. destruct o as [a|]; [|done]. unfold ser_option. specialize (Hn a). specialize (Hr a eq_refl).
  unfold de_option. by destruct (w a); [done|rewrite Hr..].
Qed.
Lemma de_ser_list {A} (w : A → json) (r : json → option A) l :
  (∀ a, a ∈ l → r (w a) = Some a) → de_list r (ser_list w l) = Some l.
Proof.
  intros Hr. unfold de_list, ser_list. apply mapM_fmap_Forall_Some, Forall_forall, Hr.
Qed.

(** *** Structs *)
Fixpoint field_of (k : string) (fs : list (string * json)) : option json :=
  match fs with
  | [] => None
  | (k', v) :: fs => if String.eqb k k' then Some v else field_of k fs
  end.
Fixpoint distinct (ks : list string) : bool :=
  match ks with
  | [] => true
  | k :: ks => negb (existsb (String.eqb k) ks) && distinct ks
  end.
(** [#[serde(deny_unknown_fields)]]; a repeated field is always refused. *)
Definition closed_struct (known : list string) (j : json) : option (list (string * json)) :=
  match j with
  | JObj fs =>
    if forallb (λ k, existsb (String.eqb k) known) (fst <$> fs) && distinct (fst <$> fs)
    then Some fs else None
  | _ => None
  end.
(** Without it unknown fields are skipped, repeated or not. *)
Definition open_struct (known : list string) (j : json) : option (list (string * json)) :=
  match j with
  | JObj fs =>
    if distinct (filter (λ k, existsb (String.eqb k) known) (fst <$> fs)) then Some fs else None
  | _ => None
  end.
Definition req {A} (dec : json → option A) (k : string) (fs : list (string * json)) : option A :=
  field_of k fs ≫= dec.
(** A missing [Option] field reads as [None]; so does one with
    [#[serde(default)]]. *)
Definition opt {A} (dec : json → option (option A)) (k : string) (fs : list (string * json)) :
  option (option A) :=
  match field_of k fs with Some j => dec j | None => Some None end.
Definition with_default {A} (d : A) (dec : json → option A) (k : string) (fs : list (string * json)) :
  option A :=
  match field_of k fs with Some j => dec j | None => Some d end.

(** *** [#[serde(tag = "type", content = "value")]] *)
Definition tagged (tag : string) (content : json) : json := JObj [("type", JStr tag); ("value", content)].
Definition untag (j : json) : option (string * json) :=
  fs ← closed_struct ["type"; "value"] j;
  tag ← req de_string "type" fs;
  content ← field_of "value" fs;
  Some (tag, content).

Lemma untag_tagged t j : untag (tagged t j) = Some (t, j).
Proof. done. Qed.
#[export] Hint Rewrite de_ser_string de_ser_bool untag_tagged : serde.

(** Evaluates the field lookups of a struct that was just written, then
    reads the fields back with the database. *)
Ltac serde_struct :=
  cbv [closed_struct open_struct req opt with_default]; simpl;
  repeat (progress autorewrite with serde; simpl); try done.

(** ** Digests of values: [hash] of [src/src/distributed/protocol.rs] *)
Definition hex_digit (d : Z) : ascii := ascii_of_N (Z.to_N (if d <? 10 then 48 + d else 87 + d)).
(** [format!("{byte:02x}")] *)
Definition hex_byte (b : Z) : string := String (hex_digit (b / 16)) (String (hex_digit (b mod 16)) "").
Definition hex_bytes (bs : list Z) : string := foldr (λ b s, hex_byte b +:+ s) "" bs.

Lemma hex_digit_ok d : 0 ≤ d < 16 → is_hex_lower (hex_digit d) = true.
Proof.
  intros H. assert (d ∈ seqZ 0 16) as Hd by (apply elem_of_seqZ; lia). clear H. revert d Hd.
  apply Forall_forall. repeat constructor.
Qed.
Lemma hex_bytes_ok bs : Forall (λ b, 0 ≤ b < 256) bs → all_bytes is_hex_lower (hex_bytes bs) = true.
Proof.
  induction 1 as [|b bs Hb _ IH]; [done|]. unfold all_bytes in *.
  change (hex_bytes (b :: bs)) with (String (hex_digit (b / 16)) (String (hex_digit (b mod 16)) (hex_bytes bs))).
  cbn [String.list_ascii_of_string forallb]. rewrite IH.
  rewrite !hex_digit_ok; [done| |]; [apply Z.mod_pos_bound; lia|].
  split; [apply Z.div_pos; lia|apply Z.div_lt_upper_bound; lia].
Qed.
Lemma hex_bytes_length bs : String.length (hex_bytes bs) = (2 * length bs)%nat.
Proof.
  induction bs as [|b bs IH]; [done|].
  change (String.length (hex_bytes (b :: bs))) with (S (S (String.length (hex_bytes bs)))).
  rewrite IH. simpl. lia.
Qed.

Definition hash `{!JsonText, !Sha256} (domain : string) (j : json) : result Digest :=
  digest_new "sha256" (hex_bytes (sha256 (domain +:+ json_text j))).

(** With SHA-256's documented output the digest is always well formed. *)
Lemma hash_total `{!JsonText, !Sha256, !Sha256Laws} domain j :
  ∃ d, hash domain j = Ok d ∧ algorithm d = "sha256"
       ∧ value d = hex_bytes (sha256 (domain +:+ json_text j)).
Proof.
  unfold hash. pose proof (hex_bytes_ok _ (sha256_bytes (domain +:+ json_text j))) as Hx.
  pose proof (hex_bytes_length (sha256 (domain +:+ json_text j))) as Hl. rewrite sha256_length in Hl.
  revert Hx Hl. generalize (hex_bytes (sha256 (domain +:+ json_text j))) as v. intros v Hx Hl.
  destruct (digest_new "sha256" v) as [d|e] eqn:E.
  { exists d. split; [done|]. by apply digest_new_Ok. }
  exfalso. unfold digest_new in E. destruct (decide _) as [|Hn]; [done|]. apply Hn.
  unfold digest_ok. rewrite Hx. by destruct v.
Qed.
