(* ===== verification/Identity.v ===== *)
(** Tenant-scoped identities of the distributed indexer
    ([src/src/distributed/identity.rs]) and the identities it borrows from the
    repository graph and from project memory
    ([src/src/repository_graph/domain.rs], [src/src/project_memory/domain.rs]):
    validated tokens, project, repository, snapshot and revision references,
    and the manifests an index job takes as input. *)
From S2P Require Import Prelude View Transact Wire.

(** ** Remote identifiers *)
Definition MAX_REMOTE_ID_BYTES : nat := 128.

Inductive RemoteIdentityError : Type :=
  | Invalid (kind : string)
  | FederatedScopeMismatch
  | ManifestObjectMismatch.

Definition is_ascii_uppercase (c : ascii) : bool :=
  let n := N_of_ascii c in ((65 <=? n) && (n <=? 90))%N.
Definition is_ascii_alphanumeric (c : ascii) : bool :=
  is_ascii_lowercase c || is_ascii_uppercase c || is_ascii_digit c.
(** [byte.is_ascii_lowercase() || byte.is_ascii_digit() || b"._-".contains(&byte)] *)
Definition is_token_byte (c : ascii) : bool :=
  is_ascii_lowercase c || is_ascii_digit c || bool_decide (c ∈ ["."; "_"; "-"]%char).
Definition first_byte (p : ascii → bool) (s : string) : bool :=
  match s with String c _ => p c | "" => false end.

Definition remote_id_ok (value : string) : bool :=
  negb (is_empty value) && (String.length value <=? MAX_REMOTE_ID_BYTES)%nat
  && all_bytes is_token_byte value && first_byte is_ascii_alphanumeric value.

Definition validate_remote_id (value kind : string) : res RemoteIdentityError string :=
  if negb (remote_id_ok value) then RErr (Invalid kind) else ROk value.

(** A [remote_id!] type: its private field holds a value its constructor (or
    its [Deserialize] implementation, which calls it) has validated. *)
Definition remote_id : Type := dsig (λ s : string, remote_id_ok s = true).
Abbreviation TenantId := remote_id (only parsing).
Abbreviation RemoteProjectId := remote_id (only parsing).
Abbreviation RemoteRepositoryId := remote_id (only parsing).
Abbreviation RepositoryManifestId := remote_id (only parsing).
Abbreviation MemoryManifestId := remote_id (only parsing).
Abbreviation IndexJobId := remote_id (only parsing).
Abbreviation IndexJobFailureCode := remote_id (only parsing).
Abbreviation WorkerId := remote_id (only parsing).
Abbreviation RequestId := remote_id (only parsing).
Abbreviation ObjectId := remote_id (only parsing).

Definition remote_id_new (kind value : string) : res RemoteIdentityError remote_id :=
  match decide (remote_id_ok value = true) with
  | left H => ROk (dexist value H)
  | right _ => RErr (Invalid kind)
  end.
Definition remote_str (i : remote_id) : string := `i.

Lemma remote_id_new_validates kind v : remote_str <$> remote_id_new kind v = validate_remote_id v kind.
Proof.
  unfold remote_id_new, validate_remote_id. destruct (decide _) as [E|E]; [|by destruct (remote_id_ok v)].
  by assert (negb (remote_id_ok v) = false) as -> by by rewrite E.
Qed.
Lemma remote_id_new_str kind i : remote_id_new kind (remote_str i) = ROk i.
Proof.
  unfold remote_id_new, remote_str. destruct (decide _) as [H|H]; [f_equal; by apply dsig_eq|].
  exfalso. exact (H (proj2_dsig i)).
Qed.
Lemma remote_id_new_ROk kind v i : remote_id_new kind v = ROk i → remote_str i = v.
Proof. unfold remote_id_new. destruct (decide _); [|done]. by intros [= <-]. Qed.
#[global] Instance remote_str_inj : Inj (=) (=) remote_str.
Proof. intros i j H. by apply dsig_eq. Qed.

(** ** Bounded text of project memory

    Strings are UTF-8 bytes: [char::is_control] holds of the bytes below 32,
    of 127 and of the characters U+0080 to U+009F, which are encoded as C2 80
    to C2 9F; the Unicode white space is written out byte by byte. *)
Definition byte_val (c : ascii) : Z := Z.of_N (N_of_ascii c).
Definition in_bytes (lo hi : Z) (c : ascii) : bool := (lo <=? byte_val c) && (byte_val c <=? hi).

Fixpoint no_control (allow_newlines : bool) (s : string) : bool :=
  match s with
  | "" => true
  | String c s' =>
    (negb (in_bytes 0 31 c || in_bytes 127 127 c
           || (in_bytes 194 194 c && first_byte (in_bytes 128 159) s'))
     || (allow_newlines && (in_bytes 9 10 c || in_bytes 13 13 c)))
    && no_control allow_newlines s'
  end.

(** [value.trim().is_empty()]: every character is white space. *)
Fixpoint all_whitespace (s : string) : bool :=
  match s with
  | "" => true
  | String a s1 =>
    if is_whitespace a then all_whitespace s1
    else match s1 with
    | String b s2 =>
      if in_bytes 194 194 a && (in_bytes 133 133 b || in_bytes 160 160 b) then all_whitespace s2
      else match s2 with
      | String c s3 =>
        if (in_bytes 225 225 a && in_bytes 154 154 b && in_bytes 128 128 c)
           || (in_bytes 226 226 a && in_bytes 128 128 b
               && (in_bytes 128 138 c || in_bytes 168 169 c || in_bytes 175 175 c))
           || (in_bytes 226 226 a && in_bytes 129 129 b && in_bytes 159 159 c)
           || (in_bytes 227 227 a && in_bytes 128 128 b && in_bytes 128 128 c)
        then all_whitespace s3 else false
      | "" => false
      end
    | "" => false
    end
  end.

Definition validate_bounded_text (max_bytes : nat) (allow_newlines : bool) (value : string) : bool :=
  negb (all_whitespace value || negb (String.length value <=? max_bytes)%nat
        || negb (no_control allow_newlines value)).

Definition MAX_ID_BYTES : nat := 512.
(** The [bounded_string!] identities share one bound and refuse newlines. *)
Definition memory_id : Type := dsig (λ s : string, validate_bounded_text MAX_ID_BYTES false s = true).
Abbreviation MemoryRevisionId := memory_id (only parsing).
Abbreviation ProjectNamespace := memory_id (only parsing).
Abbreviation ProjectId := memory_id (only parsing).
Definition memory_str (i : memory_id) : string := `i.
Definition memory_id_new (v : string) : option memory_id :=
  match decide (validate_bounded_text MAX_ID_BYTES false v = true) with
  | left H => Some (dexist v H)
  | right _ => None
  end.

(** ** References *)
Record RepositoryRef := RepositoryRef_ {
  namespace : opaque_id;
  repository_ref_id : opaque_id }.
Record ProjectRef := ProjectRef_ {
  project_namespace : ProjectNamespace;
  project_ref_id : ProjectId }.

Record RemoteProjectRef := RemoteProjectRef_ {
  tenant_id : TenantId;
  project_id : RemoteProjectId }.
Record RemoteRepositoryRef := RemoteRepositoryRef_ {
  repo_project : RemoteProjectRef;
  repository_id : RemoteRepositoryId }.
Record RemoteGraphSnapshotRef := RemoteGraphSnapshotRef_ {
  snap_repository : RemoteRepositoryRef;
  snapshot_id : SnapshotId }.
Record RemoteMemoryRevisionRef := RemoteMemoryRevisionRef_ {
  rev_project : RemoteProjectRef;
  revision_id : MemoryRevisionId }.
Record TenantObjectRef := TenantObjectRef_ {
  obj_project : RemoteProjectRef;
  object_id : ObjectId;
  content_identity : Digest }.
Record RepositoryManifestRef := RepositoryManifestRef_ {
  rm_repository : RemoteRepositoryRef;
  rm_repository_identity : RepositoryRef;
  rm_manifest_id : RepositoryManifestId;
  rm_manifest_digest : Digest;
  source_policy_digest : Digest;
  expected_snapshot_id : SnapshotId;
  rm_manifest_object : TenantObjectRef }.
Record MemoryManifestRef := MemoryManifestRef_ {
  mm_project : RemoteProjectRef;
  mm_project_identity : ProjectRef;
  mm_manifest_id : MemoryManifestId;
  mm_manifest_digest : Digest;
  memory_policy_digest : Digest;
  expected_revision_id : MemoryRevisionId;
  mm_manifest_object : TenantObjectRef;
  mm_repository_snapshot : option RemoteGraphSnapshotRef;
  mm_repository_origin_snapshots : list RemoteGraphSnapshotRef }.
Record FederatedViewRef := FederatedViewRef_ {
  fv_graph : RemoteGraphSnapshotRef;
  fv_memory : RemoteMemoryRevisionRef }.

#[global] Instance RepositoryRef_eq_dec : EqDecision RepositoryRef.
Proof. solve_decision. Defined.
#[global] Instance ProjectRef_eq_dec : EqDecision ProjectRef.
Proof. solve_decision. Defined.
#[global] Instance RemoteProjectRef_eq_dec : EqDecision RemoteProjectRef.
Proof. solve_decision. Defined.
#[global] Instance RemoteRepositoryRef_eq_dec : EqDecision RemoteRepositoryRef.
Proof. solve_decision. Defined.
#[global] Instance RemoteGraphSnapshotRef_eq_dec : EqDecision RemoteGraphSnapshotRef.
Proof. solve_decision. Defined.
#[global] Instance RemoteMemoryRevisionRef_eq_dec : EqDecision RemoteMemoryRevisionRef.
Proof. solve_decision. Defined.
#[global] Instance TenantObjectRef_eq_dec : EqDecision TenantObjectRef.
Proof. solve_decision. Defined.
#[global] Instance RepositoryManifestRef_eq_dec : EqDecision RepositoryManifestRef.
Proof. solve_decision. Defined.
#[global] Instance MemoryManifestRef_eq_dec : EqDecision MemoryManifestRef.
Proof. solve_decision. Defined.

(** ** Wire forms

    The identifier types deserialize through their validating constructors;
    the structs of [identity.rs] deny unknown fields. *)
Definition ser_remote_id (i : remote_id) : json := JStr (remote_str i).
Definition de_remote_id (j : json) : option remote_id :=
  s ← de_string j; match remote_id_new "" s with ROk i => Some i | RErr _ => None end.
Definition ser_opaque_id (i : opaque_id) : json := JStr (id_as_str i).
Definition de_opaque_id (j : json) : option opaque_id :=
  s ← de_string j; match opaque_id_new "" s with Ok i => Some i | Err _ => None end.
Definition ser_memory_id (i : memory_id) : json := JStr (memory_str i).
Definition de_memory_id (j : json) : option memory_id := s ← de_string j; memory_id_new s.
Definition ser_digest (d : Digest) : json :=
  JObj [("algorithm", ser_string (algorithm d)); ("value", ser_string (value d))].
Definition de_digest (j : json) : option Digest :=
  fs ← open_struct ["algorithm"; "value"] j;
  a ← req de_string "algorithm" fs;
  v ← req de_string "value" fs;
  match digest_new a v with Ok d => Some d | Err _ => None end.
Definition ser_repository_ref (r : RepositoryRef) : json :=
  JObj [("namespace", ser_opaque_id (namespace r)); ("repository_id", ser_opaque_id (repository_ref_id r))].
Definition de_repository_ref (j : json) : option RepositoryRef :=
  fs ← open_struct ["namespace"; "repository_id"] j;
  n ← req de_opaque_id "namespace" fs;
  i ← req de_opaque_id "repository_id" fs;
  Some (RepositoryRef_ n i).
Definition ser_project_ref (r : ProjectRef) : json :=
  JObj [("namespace", ser_memory_id (project_namespace r)); ("project_id", ser_memory_id (project_ref_id r))].
Definition de_project_ref (j : json) : option ProjectRef :=
  fs ← open_struct ["namespace"; "project_id"] j;
  n ← req de_memory_id "namespace" fs;
  i ← req de_memory_id "project_id" fs;
  Some (ProjectRef_ n i).
Definition ser_remote_project (r : RemoteProjectRef) : json :=
  JObj [("tenant_id", ser_remote_id (tenant_id r)); ("project_id", ser_remote_id (project_id r))].
Definition de_remote_project (j : json) : option RemoteProjectRef :=
  fs ← closed_struct ["tenant_id"; "project_id"] j;
  t ← req de_remote_id "tenant_id" fs;
  p ← req de_remote_id "project_id" fs;
  Some (RemoteProjectRef_ t p).
Definition ser_remote_repository (r : RemoteRepositoryRef) : json :=
  JObj [("project", ser_remote_project (repo_project r)); ("repository_id", ser_remote_id (repository_id r))].
Definition de_remote_repository (j : json) : option RemoteRepositoryRef :=
  fs ← closed_struct ["project"; "repository_id"] j;
  p ← req de_remote_project "project" fs;
  i ← req de_remote_id "repository_id" fs;
  Some (RemoteRepositoryRef_ p i).
Definition ser_snapshot_ref (r : RemoteGraphSnapshotRef) : json :=
  JObj [("repository", ser_remote_repository (snap_repository r)); ("snapshot_id", ser_opaque_id (snapshot_id r))].
Definition de_snapshot_ref (j : json) : option RemoteGraphSnapshotRef :=
  fs ← closed_struct ["repository"; "snapshot_id"] j;
  r ← req de_remote_repository "repository" fs;
  i ← req de_opaque_id "snapshot_id" fs;
  Some (RemoteGraphSnapshotRef_ r i).
Definition ser_revision_ref (r : RemoteMemoryRevisionRef) : json :=
  JObj [("project", ser_remote_project (rev_project r)); ("revision_id", ser_memory_id (revision_id r))].
Definition de_revision_ref (j : json) : option RemoteMemoryRevisionRef :=
  fs ← closed_struct ["project"; "revision_id"] j;
  p ← req de_remote_project "project" fs;
  i ← req de_memory_id "revision_id" fs;
  Some (RemoteMemoryRevisionRef_ p i).
Definition ser_object_ref (r : TenantObjectRef) : json :=
  JObj [("project", ser_remote_project (obj_project r)); ("object_id", ser_remote_id (object_id r));
        ("content_identity", ser_digest (content_identity r))].
Definition de_object_ref (j : json) : option TenantObjectRef :=
  fs ← closed_struct ["project"; "object_id"; "content_identity"] j;
  p ← req de_remote_project "project" fs;
  i ← req de_remote_id "object_id" fs;
  c ← req de_digest "content_identity" fs;
  Some (TenantObjectRef_ p i c).
Definition ser_repository_manifest (m : RepositoryManifestRef) : json :=
  JObj [("repository", ser_remote_repository (rm_repository m));
        ("repository_identity", ser_repository_ref (rm_repository_identity m));
        ("manifest_id", ser_remote_id (rm_manifest_id m));
        ("manifest_digest", ser_digest (rm_manifest_digest m));
        ("source_policy_digest", ser_digest (source_policy_digest m));
        ("expected_snapshot_id", ser_opaque_id (expected_snapshot_id m));
        ("manifest_object", ser_object_ref (rm_manifest_object m))].
Definition de_repository_manifest (j : json) : option RepositoryManifestRef :=
  fs ← closed_struct ["repository"; "repository_identity"; "manifest_id"; "manifest_digest";
                      "source_policy_digest"; "expected_snapshot_id"; "manifest_object"] j;
  r ← req de_remote_repository "repository" fs;
  i ← req de_repository_ref "repository_identity" fs;
  m ← req de_remote_id "manifest_id" fs;
  d ← req de_digest "manifest_digest" fs;
  p ← req de_digest "source_policy_digest" fs;
  s ← req de_opaque_id "expected_snapshot_id" fs;
  o ← req de_object_ref "manifest_object" fs;
  Some (RepositoryManifestRef_ r i m d p s o).
(** [skip_serializing_if] leaves the empty optional fields out. *)
Definition ser_memory_manifest (m : MemoryManifestRef) : json :=
  JObj ([("project", ser_remote_project (mm_project m));
         ("project_identity", ser_project_ref (mm_project_identity m));
         ("manifest_id", ser_remote_id (mm_manifest_id m));
         ("manifest_digest", ser_digest (mm_manifest_digest m));
         ("memory_policy_digest", ser_digest (memory_policy_digest m));
         ("expected_revision_id", ser_memory_id (expected_revision_id m));
         ("manifest_object", ser_object_ref (mm_manifest_object m))]
        ++ match mm_repository_snapshot m with
           | Some s => [("repository_snapshot", ser_snapshot_ref s)]
           | None => []
           end
        ++ match mm_repository_origin_snapshots m with
           | [] => []
           | l => [("repository_origin_snapshots", ser_list ser_snapshot_ref l)]
           end)%list.
Definition de_memory_manifest (j : json) : option MemoryManifestRef :=
  fs ← closed_struct ["project"; "project_identity"; "manifest_id"; "manifest_digest";
                      "memory_policy_digest"; "expected_revision_id"; "manifest_object";
                      "repository_snapshot"; "repository_origin_snapshots"] j;
  pr ← req de_remote_project "project" fs;
  i ← req de_project_ref "project_identity" fs;
  m ← req de_remote_id "manifest_id" fs;
  d ← req de_digest "manifest_digest" fs;
  p ← req de_digest "memory_policy_digest" fs;
  e ← req de_memory_id "expected_revision_id" fs;
  o ← req de_object_ref "manifest_object" fs;
  s ← opt (de_option de_snapshot_ref) "repository_snapshot" fs;
  l ← with_default [] (de_list de_snapshot_ref) "repository_origin_snapshots" fs;
  Some (MemoryManifestRef_ pr i m d p e o s l).

Lemma de_ser_remote_id i : de_remote_id (ser_remote_id i) = Some i.
Proof. unfold de_remote_id. simpl. by rewrite remote_id_new_str. Qed.
Lemma de_ser_opaque_id i : de_opaque_id (ser_opaque_id i) = Some i.
Proof. unfold de_opaque_id. simpl. by rewrite opaque_id_new_as_str. Qed.
Lemma de_ser_memory_id i : de_memory_id (ser_memory_id i) = Some i.
Proof.
  unfold de_memory_id, memory_id_new, memory_str. simpl. destruct (decide _) as [H|H].
  - f_equal. by apply dsig_eq.
  - exfalso. exact (H (proj2_dsig i)).
Qed.
Lemma de_ser_digest d : de_digest (ser_digest d) = Some d.
Proof. unfold de_digest. simpl. by rewrite digest_new_fields. Qed.
#[export] Hint Rewrite de_ser_remote_id de_ser_opaque_id de_ser_memory_id de_ser_digest : serde.
Lemma de_ser_repository_ref r : de_repository_ref (ser_repository_ref r) = Some r.
Proof. destruct r. unfold de_repository_ref, ser_repository_ref. serde_struct. Qed.
Lemma de_ser_project_ref r : de_project_ref (ser_project_ref r) = Some r.
Proof. destruct r. unfold de_project_ref, ser_project_ref. serde_struct. Qed.
Lemma de_ser_remote_project r : de_remote_project (ser_remote_project r) = Some r.
Proof. destruct r. unfold de_remote_project, ser_remote_project. serde_struct. Qed.
#[export] Hint Rewrite de_ser_repository_ref de_ser_project_ref de_ser_remote_project : serde.
Lemma de_ser_remote_repository r : de_remote_repository (ser_remote_repository r) = Some r.
Proof. destruct r. unfold de_remote_repository, ser_remote_repository. serde_struct. Qed.
#[export] Hint Rewrite de_ser_remote_repository : serde.
Lemma de_ser_snapshot_ref r : de_snapshot_ref (ser_snapshot_ref r) = Some r.
Proof. destruct r. unfold de_snapshot_ref, ser_snapshot_ref. serde_struct. Qed.
Lemma de_ser_revision_ref r : de_revision_ref (ser_revision_ref r) = Some r.
Proof. destruct r. unfold de_revision_ref, ser_revision_ref. serde_struct. Qed.
Lemma de_ser_object_ref r : de_object_ref (ser_object_ref r) = Some r.
Proof. destruct r. unfold de_object_ref, ser_object_ref. serde_struct. Qed.
#[export] Hint Rewrite de_ser_snapshot_ref de_ser_revision_ref de_ser_object_ref : serde.
Lemma de_ser_snapshot_refs l : de_list de_snapshot_ref (ser_list ser_snapshot_ref l) = Some l.
Proof. apply de_ser_list. intros. apply de_ser_snapshot_ref. Qed.
Lemma de_ser_snapshot_option r : de_option de_snapshot_ref (ser_snapshot_ref r) = Some (Some r).
Proof. apply (de_ser_option ser_snapshot_ref _ (Some r)); [done|]. intros ? [= <-]. apply de_ser_snapshot_ref. Qed.
#[export] Hint Rewrite de_ser_snapshot_refs de_ser_snapshot_option : serde.
Lemma de_ser_repository_manifest m : de_repository_manifest (ser_repository_manifest m) = Some m.
Proof. destruct m. unfold de_repository_manifest, ser_repository_manifest. serde_struct. Qed.
Lemma de_ser_memory_manifest m : de_memory_manifest (ser_memory_manifest m) = Some m.
Proof.
  destruct m as [????????[|]]; unfold de_memory_manifest, ser_memory_manifest;
    destruct mm_repository_snapshot0; serde_struct.
Qed.
#[export] Hint Rewrite de_ser_repository_manifest de_ser_memory_manifest : serde.

(** ** Validation *)
Definition repository_manifest_validate (m : RepositoryManifestRef) : res RemoteIdentityError unit :=
  if bool_decide (obj_project (rm_manifest_object m) ≠ repo_project (rm_repository m))
     || bool_decide (content_identity (rm_manifest_object m) ≠ rm_manifest_digest m)
     || bool_decide (remote_str (object_id (rm_manifest_object m)) ≠ value (rm_manifest_digest m))
  then RErr ManifestObjectMismatch else ROk tt.

(** The derived [Ord] compares the fields in their order. *)
Definition project_cmp : RemoteProjectRef → RemoteProjectRef → comparison :=
  lex (on_key (remote_str ∘ tenant_id) String.compare) (on_key (remote_str ∘ project_id) String.compare).
Definition repository_cmp : RemoteRepositoryRef → RemoteRepositoryRef → comparison :=
  lex (on_key repo_project project_cmp) (on_key (remote_str ∘ repository_id) String.compare).
Definition snapshot_cmp : RemoteGraphSnapshotRef → RemoteGraphSnapshotRef → comparison :=
  lex (on_key snap_repository repository_cmp) (on_key (id_as_str ∘ snapshot_id) String.compare).

(** [windows(2).all(|pair| pair[0] < pair[1])] *)
Fixpoint strictly_increasing {A} (c : A → A → comparison) (l : list A) : bool :=
  match l with
  | x :: ((y :: _) as l') => bool_decide (c x y = Lt) && strictly_increasing c l'
  | _ => true
  end.

Definition memory_manifest_validate (m : MemoryManifestRef) : res RemoteIdentityError unit :=
  let origins_are_canonical := strictly_increasing snapshot_cmp (mm_repository_origin_snapshots m) in
  let origins_match_repository :=
    match mm_repository_snapshot m with
    | None => bool_decide (mm_repository_origin_snapshots m = [])
    | Some current =>
      forallb (λ snapshot,
        bool_decide (repo_project (snap_repository snapshot) = mm_project m)
        && bool_decide (snap_repository current = snap_repository snapshot)
        && bool_decide (current ≠ snapshot)) (mm_repository_origin_snapshots m)
    end in
  if bool_decide (obj_project (mm_manifest_object m) ≠ mm_project m)
     || bool_decide (content_identity (mm_manifest_object m) ≠ mm_manifest_digest m)
     || bool_decide (remote_str (object_id (mm_manifest_object m)) ≠ value (mm_manifest_digest m))
     || match mm_repository_snapshot m with
        | Some snapshot => bool_decide (repo_project (snap_repository snapshot) ≠ mm_project m)
        | None => false
        end
     || negb origins_are_canonical || negb origins_match_repository
  then RErr ManifestObjectMismatch else ROk tt.

Definition federated_view_validate (v : FederatedViewRef) : res RemoteIdentityError unit :=
  if bool_decide (repo_project (snap_repository (fv_graph v)) ≠ rev_project (fv_memory v))
  then RErr FederatedScopeMismatch else ROk tt.
Definition federated_view_new (graph : RemoteGraphSnapshotRef) (memory : RemoteMemoryRevisionRef) :
  res RemoteIdentityError FederatedViewRef :=
  let value := FederatedViewRef_ graph memory in
  _ ← federated_view_validate value; mret value.
Definition federated_view_project (v : FederatedViewRef) : RemoteProjectRef := rev_project (fv_memory v).
