(* ===== verification/Protocol.v ===== *)
(** The control-plane contracts of [src/src/distributed/protocol.rs] and
    [src/src/distributed/coordinator.rs]: index jobs and their idempotency
    keys, job states, records and leases, the requests of the coordinator,
    their validation and their wire forms. *)
From S2P Require Import Prelude View Transact Wire Identity.

Definition DISTRIBUTED_CONTROL_PROTOCOL_VERSION : Z := 3.

Inductive DistributedProtocolError : Type :=
  | UnsupportedVersion | JobInputMismatch | IdempotencyMismatch | InvalidJobTransition
  | FactBatchMismatch | FactBatchIdentityMismatch | PublicationMismatch | QueryScopeMismatch
  | DeletionMismatch | PSerialization.

#[global] Instance DistributedProtocolError_eq_dec : EqDecision DistributedProtocolError.
Proof. solve_decision. Defined.

(** [NonZeroU32] *)
Definition NonZeroU32 : Type := dsig (λ z : Z, (1 <=? z) && (z <? u32_modulus) = true).
Definition nz_get (n : NonZeroU32) : Z := `n.
Definition nz_new (z : Z) : option NonZeroU32 :=
  match decide ((1 <=? z) && (z <? u32_modulus) = true) with
  | left H => Some (dexist z H)
  | right _ => None
  end.

(** ** Jobs *)
Inductive IndexJobKind : Type := RepositoryGraph | ProjectMemory.
#[global] Instance IndexJobKind_eq_dec : EqDecision IndexJobKind.
Proof. solve_decision. Defined.

Inductive IndexInputRef : Type :=
  | Repository (manifest : RepositoryManifestRef)
  | Memory (manifest : MemoryManifestRef).
#[global] Instance IndexInputRef_eq_dec : EqDecision IndexInputRef.
Proof. solve_decision. Defined.

Definition input_project (i : IndexInputRef) : RemoteProjectRef :=
  match i with Repository m => repo_project (rm_repository m) | Memory m => mm_project m end.
Definition input_kind (i : IndexInputRef) : IndexJobKind :=
  match i with Repository _ => RepositoryGraph | Memory _ => ProjectMemory end.
Definition manifest_digest (i : IndexInputRef) : Digest :=
  match i with Repository m => rm_manifest_digest m | Memory m => mm_manifest_digest m end.
Definition policy_digest (i : IndexInputRef) : Digest :=
  match i with Repository m => source_policy_digest m | Memory m => memory_policy_digest m end.
Definition expected_target_identity (i : IndexInputRef) : string :=
  match i with
  | Repository m => id_as_str (expected_snapshot_id m)
  | Memory m => memory_str (expected_revision_id m)
  end.
Definition repository_snapshot (i : IndexInputRef) : option RemoteGraphSnapshotRef :=
  match i with Repository _ => None | Memory m => mm_repository_snapshot m end.
Definition repository_origin_snapshots (i : IndexInputRef) : list RemoteGraphSnapshotRef :=
  match i with Repository _ => [] | Memory m => mm_repository_origin_snapshots m end.
Definition repository_identity (i : IndexInputRef) : option RepositoryRef :=
  match i with Repository m => Some (rm_repository_identity m) | Memory _ => None end.
Definition project_identity (i : IndexInputRef) : option ProjectRef :=
  match i with Repository _ => None | Memory m => Some (mm_project_identity m) end.
Definition input_validate (i : IndexInputRef) : res DistributedProtocolError unit :=
  map_err (λ _, JobInputMismatch)
    match i with
    | Repository m => repository_manifest_validate m
    | Memory m => memory_manifest_validate m
    end.

Record IndexSemantics := IndexSemantics_ {
  semantic_config_digest : Digest;
  model_version : NonZeroU32;
  extractor_set_digest : Digest }.
#[global] Instance IndexSemantics_eq_dec : EqDecision IndexSemantics.
Proof. solve_decision. Defined.

Record IndexJobSpec := IndexJobSpec_ {
  spec_protocol_version : Z;
  spec_kind : IndexJobKind;
  spec_input : IndexInputRef;
  spec_semantics : IndexSemantics;
  idempotency_key_of : Digest }.
#[global] Instance IndexJobSpec_eq_dec : EqDecision IndexJobSpec.
Proof. solve_decision. Defined.
Definition spec_project (s : IndexJobSpec) : RemoteProjectRef := input_project (spec_input s).

Definition validate_control_version (version : Z) : res DistributedProtocolError unit :=
  if bool_decide (version = DISTRIBUTED_CONTROL_PROTOCOL_VERSION) then ROk tt else RErr UnsupportedVersion.
(** [validate_version] of [coordinator.rs] *)
Definition validate_version (version : Z) : bool :=
  bool_decide (version = DISTRIBUTED_CONTROL_PROTOCOL_VERSION).

(** ** Wire forms of jobs *)
Definition ser_kind (k : IndexJobKind) : json :=
  JStr match k with RepositoryGraph => "repository_graph" | ProjectMemory => "project_memory" end.
Definition de_kind (j : json) : option IndexJobKind :=
  s ← de_string j;
  if String.eqb s "repository_graph" then Some RepositoryGraph
  else if String.eqb s "project_memory" then Some ProjectMemory else None.
Definition ser_input (i : IndexInputRef) : json :=
  match i with
  | Repository m => tagged "repository" (ser_repository_manifest m)
  | Memory m => tagged "memory" (ser_memory_manifest m)
  end.
Definition de_input (j : json) : option IndexInputRef :=
  tc ← untag j;
  if String.eqb tc.1 "repository" then Repository <$> de_repository_manifest tc.2
  else if String.eqb tc.1 "memory" then Memory <$> de_memory_manifest tc.2 else None.
Definition ser_nz (n : NonZeroU32) : json := ser_int (nz_get n).
Definition de_nz (j : json) : option NonZeroU32 := z ← de_int 1 u32_modulus j; nz_new z.
Definition ser_semantics (s : IndexSemantics) : json :=
  JObj [("semantic_config_digest", ser_digest (semantic_config_digest s));
        ("model_version", ser_nz (model_version s));
        ("extractor_set_digest", ser_digest (extractor_set_digest s))].
Definition de_semantics (j : json) : option IndexSemantics :=
  fs ← closed_struct ["semantic_config_digest"; "model_version"; "extractor_set_digest"] j;
  c ← req de_digest "semantic_config_digest" fs;
  m ← req de_nz "model_version" fs;
  e ← req de_digest "extractor_set_digest" fs;
  Some (IndexSemantics_ c m e).
Definition ser_spec (s : IndexJobSpec) : json :=
  JObj [("protocol_version", ser_int (spec_protocol_version s));
        ("kind", ser_kind (spec_kind s)); ("input", ser_input (spec_input s));
        ("semantics", ser_semantics (spec_semantics s));
        ("idempotency_key", ser_digest (idempotency_key_of s))].
Definition de_spec (j : json) : option IndexJobSpec :=
  fs ← closed_struct ["protocol_version"; "kind"; "input"; "semantics"; "idempotency_key"] j;
  v ← req (de_int 0 u32_modulus) "protocol_version" fs;
  k ← req de_kind "kind" fs;
  i ← req de_input "input" fs;
  s ← req de_semantics "semantics" fs;
  d ← req de_digest "idempotency_key" fs;
  Some (IndexJobSpec_ v k i s d).

(** ** Idempotency keys *)
Definition ser_material (kind : IndexJobKind) (input : IndexInputRef) (semantics : IndexSemantics) : json :=
  JObj [("protocol_version", ser_int DISTRIBUTED_CONTROL_PROTOCOL_VERSION);
        ("project", ser_remote_project (input_project input));
        ("kind", ser_kind kind);
        ("manifest_digest", ser_digest (manifest_digest input));
        ("policy_digest", ser_digest (policy_digest input));
        ("expected_target_identity", ser_string (expected_target_identity input));
        ("repository_snapshot", ser_option ser_snapshot_ref (repository_snapshot input));
        ("repository_origin_snapshots", ser_list ser_snapshot_ref (repository_origin_snapshots input));
        ("repository_identity", ser_option ser_repository_ref (repository_identity input));
        ("project_identity", ser_option ser_project_ref (project_identity input));
        ("semantics", ser_semantics semantics)].

Section idempotency.
Context `{!JsonText, !Sha256}.

(** The domain ends in a NUL byte. *)
Definition job_domain : string := "ferrus.distributed.index-job.v1" +:+ String "000"%char "".

Definition protocol_hash (domain : string) (j : json) : res DistributedProtocolError Digest :=
  match hash domain j with Ok d => ROk d | Err _ => RErr PSerialization end.

Definition idempotency_key (kind : IndexJobKind) (input : IndexInputRef) (semantics : IndexSemantics) :
  res DistributedProtocolError Digest :=
  protocol_hash job_domain (ser_material kind input semantics).

Definition spec_new (kind : IndexJobKind) (input : IndexInputRef) (semantics : IndexSemantics) :
  res DistributedProtocolError IndexJobSpec :=
  if bool_decide (kind ≠ input_kind input) || negb (r_ok (input_validate input))
  then RErr JobInputMismatch
  else key ← idempotency_key kind input semantics;
       mret (IndexJobSpec_ DISTRIBUTED_CONTROL_PROTOCOL_VERSION kind input semantics key).

Definition spec_validate (s : IndexJobSpec) : res DistributedProtocolError unit :=
  _ ← validate_control_version (spec_protocol_version s);
  _ ← input_validate (spec_input s);
  if bool_decide (spec_kind s ≠ input_kind (spec_input s)) then RErr JobInputMismatch
  else key ← idempotency_key (spec_kind s) (spec_input s) (spec_semantics s);
       if bool_decide (idempotency_key_of s ≠ key) then RErr IdempotencyMismatch else ROk tt.
End idempotency.

(** ** Job states *)
Inductive IndexJobState : Type :=
  Queued | Leased | Running | Publishing | Complete | Failed | Cancelled.
#[global] Instance IndexJobState_eq_dec : EqDecision IndexJobState.
Proof. solve_decision. Defined.

Definition can_transition_to (self next : IndexJobState) : bool :=
  match self, next with
  | Queued, (Leased | Cancelled | Failed)
  | Leased, (Running | Queued | Cancelled | Failed)
  | Running, (Publishing | Queued | Cancelled | Failed)
  | Publishing, (Complete | Cancelled | Failed) => true
  | _, _ => false
  end.
Definition is_terminal (s : IndexJobState) : bool :=
  match s with Complete | Failed | Cancelled => true | _ => false end.
Definition state_token (s : IndexJobState) : string :=
  match s with
  | Queued => "queued"
  | Leased => "leased"
  | Running => "running"
  | Publishing => "publishing"
  | Complete => "complete"
  | Failed => "failed"
  | Cancelled => "cancelled"
  end.
(** The derived snake-case wire names coincide with the tokens. *)
Definition ser_state (s : IndexJobState) : json := JStr (state_token s).
Definition de_state (j : json) : option IndexJobState :=
  s ← de_string j;
  list_find (λ st, String.eqb (state_token st) s = true)
    [Queued; Leased; Running; Publishing; Complete; Failed; Cancelled] ≫= λ p, Some p.2.

(** ** Job references, leases, records *)
Record IndexJobRef := IndexJobRef_ {
  ref_project : RemoteProjectRef;
  job_id : IndexJobId;
  ref_kind : IndexJobKind }.
#[global] Instance IndexJobRef_eq_dec : EqDecision IndexJobRef.
Proof. solve_decision. Defined.

Record JobLease := JobLease_ {
  lease_worker : WorkerId;
  lease_generation : Z;
  lease_expires_at : Z }.
#[global] Instance JobLease_eq_dec : EqDecision JobLease.
Proof. solve_decision. Defined.

Record IndexJobRecord := IndexJobRecord_ {
  job : IndexJobRef;
  spec : IndexJobSpec;
  state : IndexJobState;
  attempt : Z;
  max_attempts : Z;
  lease : option JobLease;
  cancellation_requested : bool;
  failure_code : option IndexJobFailureCode;
  created_at : Z;
  updated_at : Z;
  deadline_at : Z }.
#[global] Instance IndexJobRecord_eq_dec : EqDecision IndexJobRecord.
Proof. solve_decision. Defined.

(** [matches!(state, Leased | Running | Publishing)] *)
Definition is_held (s : IndexJobState) : bool :=
  match s with Leased | Running | Publishing => true | _ => false end.

Definition record_validate `{!JsonText, !Sha256} (r : IndexJobRecord) : res DistributedProtocolError unit :=
  _ ← spec_validate (spec r);
  if bool_decide (ref_project (job r) ≠ spec_project (spec r))
     || bool_decide (ref_kind (job r) ≠ spec_kind (spec r))
     || (max_attempts r <? attempt r)
     || negb (Bool.eqb (is_held (state r)) (some (lease r)))
     || (cancellation_requested r && bool_decide (state r = Complete))
     || (bool_decide (state r = Failed) && none (failure_code r))
     || (match state r with Complete | Cancelled => true | _ => false end && some (failure_code r))
     || (deadline_at r <? created_at r)
  then RErr JobInputMismatch else ROk tt.

(** ** Requests *)
Record SubmitIndexJobRequest := SubmitIndexJobRequest_ {
  sub_version : Z; sub_request_id : RequestId; sub_project : RemoteProjectRef; sub_job : IndexJobSpec }.
Record InspectIndexJobRequest := InspectIndexJobRequest_ {
  ins_version : Z; ins_request_id : RequestId; ins_job : IndexJobRef }.
Record CancelIndexJobRequest := CancelIndexJobRequest_ {
  can_version : Z; can_request_id : RequestId; can_job : IndexJobRef;
  expected_state : option IndexJobState }.
Record HeartbeatJobRequest := HeartbeatJobRequest_ {
  hb_version : Z; hb_request_id : RequestId; hb_job : IndexJobRef;
  hb_worker_id : WorkerId; hb_generation : Z }.
Record ClaimIndexJobRequest := ClaimIndexJobRequest_ {
  cl_version : Z; cl_request_id : RequestId; cl_project : RemoteProjectRef;
  cl_kind : IndexJobKind; cl_worker_id : WorkerId }.
Record AdvanceIndexJobRequest := AdvanceIndexJobRequest_ {
  adv_version : Z; adv_request_id : RequestId; adv_job : IndexJobRef;
  adv_worker_id : WorkerId; adv_generation : Z }.
Record FailIndexJobRequest := FailIndexJobRequest_ {
  fl_version : Z; fl_request_id : RequestId; fl_job : IndexJobRef;
  fl_worker_id : WorkerId; fl_generation : Z;
  fl_failure_code : IndexJobFailureCode; retryable : bool }.
Record ReclaimIndexJobsRequest := ReclaimIndexJobsRequest_ {
  rc_version : Z; rc_request_id : RequestId; rc_project : RemoteProjectRef }.
Record ReclaimIndexJobsResult := ReclaimIndexJobsResult_ {
  requeued : Z; failed : Z; cancelled : Z }.

Definition submit_validate `{!JsonText, !Sha256} (r : SubmitIndexJobRequest) :
  res DistributedProtocolError unit :=
  _ ← validate_control_version (sub_version r);
  _ ← spec_validate (sub_job r);
  if bool_decide (sub_project r ≠ spec_project (sub_job r)) then RErr JobInputMismatch else ROk tt.
Definition inspect_validate (r : InspectIndexJobRequest) := validate_control_version (ins_version r).
Definition cancel_validate (r : CancelIndexJobRequest) := validate_control_version (can_version r).
Definition heartbeat_validate (r : HeartbeatJobRequest) := validate_control_version (hb_version r).

(** ** Wire forms of records *)
Definition ser_job_ref (r : IndexJobRef) : json :=
  JObj [("project", ser_remote_project (ref_project r)); ("job_id", ser_remote_id (job_id r));
        ("kind", ser_kind (ref_kind r))].
Definition de_job_ref (j : json) : option IndexJobRef :=
  fs ← closed_struct ["project"; "job_id"; "kind"] j;
  p ← req de_remote_project "project" fs;
  i ← req de_remote_id "job_id" fs;
  k ← req de_kind "kind" fs;
  Some (IndexJobRef_ p i k).
Definition ser_lease `{!TimeText} (l : JobLease) : json :=
  JObj [("worker_id", ser_remote_id (lease_worker l)); ("generation", ser_int (lease_generation l));
        ("expires_at", ser_time (lease_expires_at l))].
Definition de_lease `{!TimeText} (j : json) : option JobLease :=
  fs ← closed_struct ["worker_id"; "generation"; "expires_at"] j;
  w ← req de_remote_id "worker_id" fs;
  g ← req (de_int 1 u64_modulus) "generation" fs;
  e ← req de_time "expires_at" fs;
  Some (JobLease_ w g e).
Definition ser_record `{!TimeText} (r : IndexJobRecord) : json :=
  JObj [("job", ser_job_ref (job r)); ("spec", ser_spec (spec r)); ("state", ser_state (state r));
        ("attempt", ser_int (attempt r)); ("max_attempts", ser_int (max_attempts r));
        ("lease", ser_option ser_lease (lease r));
        ("cancellation_requested", ser_bool (cancellation_requested r));
        ("failure_code", ser_option ser_remote_id (failure_code r));
        ("created_at", ser_time (created_at r)); ("updated_at", ser_time (updated_at r));
        ("deadline_at", ser_time (deadline_at r))].
Definition de_record `{!TimeText} (j : json) : option IndexJobRecord :=
  fs ← closed_struct ["job"; "spec"; "state"; "attempt"; "max_attempts"; "lease";
                      "cancellation_requested"; "failure_code"; "created_at"; "updated_at";
                      "deadline_at"] j;
  jr ← req de_job_ref "job" fs;
  sp ← req de_spec "spec" fs;
  s ← req de_state "state" fs;
  a ← req (de_int 1 u32_modulus) "attempt" fs;
  m ← req (de_int 1 u32_modulus) "max_attempts" fs;
  l ← opt (de_option de_lease) "lease" fs;
  c ← req de_bool "cancellation_requested" fs;
  f ← opt (de_option de_remote_id) "failure_code" fs;
  t0 ← req de_time "created_at" fs;
  t1 ← req de_time "updated_at" fs;
  t2 ← req de_time "deadline_at" fs;
  Some (IndexJobRecord_ jr sp s a m l c f t0 t1 t2).

Lemma de_ser_kind k : de_kind (ser_kind k) = Some k.
Proof. by destruct k. Qed.
Lemma de_ser_state s : de_state (ser_state s) = Some s.
Proof. by destruct s. Qed.
Lemma de_ser_input i : de_input (ser_input i) = Some i.
Proof.
  destruct i; unfold de_input, ser_input; rewrite untag_tagged; simpl;
    [by rewrite de_ser_repository_manifest|by rewrite de_ser_memory_manifest].
Qed.
Lemma nz_range n : 1 ≤ nz_get n < u32_modulus.
Proof.
  pose proof (proj2_dsig n) as H. cbn beta in H. unfold nz_get.
  apply andb_true_iff in H as [?%Z.leb_le ?%Z.ltb_lt]. lia.
Qed.
Lemma nz_new_get n : nz_new (nz_get n) = Some n.
Proof.
  unfold nz_new, nz_get. destruct (decide _) as [H|H]; [f_equal; by apply dsig_eq|].
  exfalso. exact (H (proj2_dsig n)).
Qed.
Lemma de_ser_nz n : de_nz (ser_nz n) = Some n.
Proof. unfold de_nz, ser_nz. rewrite de_ser_int by apply nz_range. simpl. apply nz_new_get. Qed.
#[export] Hint Rewrite de_ser_kind de_ser_state de_ser_input de_ser_nz : serde.
Lemma de_ser_semantics s : de_semantics (ser_semantics s) = Some s.
Proof. destruct s. unfold de_semantics, ser_semantics. serde_struct. Qed.
Lemma de_ser_job_ref r : de_job_ref (ser_job_ref r) = Some r.
Proof. destruct r. unfold de_job_ref, ser_job_ref. serde_struct. Qed.
#[export] Hint Rewrite de_ser_semantics de_ser_job_ref : serde.
Lemma de_ser_version v : 0 ≤ v < u32_modulus → de_int 0 u32_modulus (ser_int v) = Some v.
Proof. apply de_ser_int. Qed.
Lemma de_ser_spec s :
  0 ≤ spec_protocol_version s < u32_modulus → de_spec (ser_spec s) = Some s.
Proof.
  destruct s. simpl. intros Hv. unfold de_spec, ser_spec. cbv [closed_struct req]. simpl.
  rewrite de_ser_int by done. simpl. serde_struct.
Qed.

#[global] Instance spec_serde : Serde IndexJobSpec := {| ser := ser_spec; de := de_spec |}.
#[global] Instance spec_serde_laws : SerdeLaws IndexJobSpec (λ s, 0 ≤ spec_protocol_version s < u32_modulus).
Proof. intros s. apply de_ser_spec. Qed.

Section records.
Context `{!TimeText} (calendar : Z → Prop) `{!TimeTextLaws calendar}.

(** The values the Rust types of a record and of a lease can hold. *)
Definition lease_typed (l : JobLease) : Prop :=
  1 ≤ lease_generation l < u64_modulus ∧ calendar (lease_expires_at l).
Definition record_typed (r : IndexJobRecord) : Prop :=
  0 ≤ spec_protocol_version (spec r) < u32_modulus ∧ 1 ≤ attempt r < u32_modulus
  ∧ 1 ≤ max_attempts r < u32_modulus ∧ (∀ l, lease r = Some l → lease_typed l)
  ∧ calendar (created_at r) ∧ calendar (updated_at r) ∧ calendar (deadline_at r).

Lemma de_ser_lease l : lease_typed l → de_lease (ser_lease l) = Some l.
Proof.
  destruct l. intros [Hg He]. simpl in *. unfold de_lease, ser_lease. cbv [closed_struct req]. simpl.
  autorewrite with serde. simpl. rewrite de_ser_int by done. simpl.
  by rewrite (de_ser_time (calendar := calendar)).
Qed.
Lemma de_ser_record r : record_typed r → de_record (ser_record r) = Some r.
Proof.
  destruct r. intros (Hs & Ha & Hm & Hl & Hc & Hu & Hd). simpl in *.
  unfold de_record, ser_record. cbv [closed_struct req opt]. simpl.
  autorewrite with serde. simpl. rewrite de_ser_spec by done. simpl. autorewrite with serde. simpl.
  rewrite de_ser_int by done. simpl. rewrite de_ser_int by done. simpl.
  rewrite (de_ser_option ser_lease); [|done|intros l E; by apply de_ser_lease, Hl]. simpl.
  rewrite (de_ser_option ser_remote_id); [|done|intros; apply de_ser_remote_id]. simpl.
  do 3 (rewrite (de_ser_time (calendar := calendar)) by done; simpl). done.
Qed.
End records.

#[global] Instance record_serde `{!TimeText} : Serde IndexJobRecord := {| ser := ser_record; de := de_record |}.
#[global] Instance record_serde_laws `{!TimeText, !TimeTextLaws calendar} :
  SerdeLaws IndexJobRecord (record_typed calendar).
Proof. intros r. by apply de_ser_record. Qed.

