(* ===== verification/Coordinator.v ===== *)
(** The durable index-job coordinator
    ([src/src/distributed/coordinator_sqlite.rs] and its [schema.rs]): its
    tables and the operations of the [IndexJobCoordinator] trait, each one
    immediate SQLite transaction.  Instants are nanoseconds; the tables store
    milliseconds. *)
From S2P Require Import Prelude View Chrono Transact Wire Identity Protocol.

Definition COORDINATOR_SCHEMA_VERSION : Z := 1.

(** [NonZeroU32], [NonZeroU64] fields *)
Record CoordinatorLimits := CoordinatorLimits_ {
  limit_max_attempts : Z;
  lease_ttl_ms : Z;
  max_job_duration_ms : Z }.

Inductive CoordinatorError : Type :=
  | InvalidRequest | NotFound | Conflict | LeaseLost | JobCancelled | ProjectDeleted
  | IncompatibleSchema | ReadBudgetExceeded
  | DatabaseError (what : string)
  | Serialization.
#[global] Instance CoordinatorError_eq_dec : EqDecision CoordinatorError.
Proof. solve_decision. Defined.

(** ** Tables *)
Definition job_key : Type := string * string * string.

Record job_row := JobRow {
  jr_kind : string;
  jr_idempotency_algorithm : string;
  jr_idempotency_value : string;
  jr_spec_json : string;
  jr_state : string;
  jr_attempt : Z;
  jr_max_attempts : Z;
  jr_lease_worker_id : option string;
  jr_lease_generation : Z;
  jr_lease_until_ms : option Z;
  jr_cancellation_requested : bool;
  jr_failure_code : option string;
  jr_created_at_ms : Z;
  jr_updated_at_ms : Z;
  jr_deadline_at_ms : Z }.
#[global] Instance job_row_eta : Eta job_row := λ r,
  JobRow (jr_kind r) (jr_idempotency_algorithm r) (jr_idempotency_value r) (jr_spec_json r)
    (jr_state r) (jr_attempt r) (jr_max_attempts r) (jr_lease_worker_id r) (jr_lease_generation r)
    (jr_lease_until_ms r) (jr_cancellation_requested r) (jr_failure_code r) (jr_created_at_ms r)
    (jr_updated_at_ms r) (jr_deadline_at_ms r).

(** The primary keys of the two receipt tables. *)
Definition advance_key : Type := job_key * (string * string * string * Z).
Definition failure_key : Type := job_key * (string * Z * string * bool).

Record coord_db := CoordDb {
  metadata_version : option Z;
  tombstones : gmap (string * string) string;
  jobs : gmap job_key job_row;
  advance_receipts : gmap advance_key string;
  failure_receipts : gmap failure_key string }.
#[global] Instance coord_db_eta : Eta coord_db := λ d,
  CoordDb (metadata_version d) (tombstones d) (jobs d) (advance_receipts d) (failure_receipts d).

Definition empty_db : coord_db := CoordDb None ∅ ∅ ∅ ∅.

(** ** [schema.rs] *)
Definition initialize_schema (d : coord_db) : res CoordinatorError unit * coord_db :=
  match metadata_version d with
  | None => (ROk tt, d <| metadata_version := Some COORDINATOR_SCHEMA_VERSION |>)
  | Some v => if bool_decide (v = COORDINATOR_SCHEMA_VERSION) then (ROk tt, d)
              else (RErr IncompatibleSchema, d)
  end.

Definition project_key (p : RemoteProjectRef) : string * string :=
  (remote_str (tenant_id p), remote_str (project_id p)).
Definition project_has_deletion_tombstone (d : coord_db) (p : RemoteProjectRef) : bool :=
  some (tombstones d !! project_key p).

Definition kind_token (k : IndexJobKind) : string :=
  match k with RepositoryGraph => "repository_graph" | ProjectMemory => "project_memory" end.
Definition parse_kind (v : string) : res CoordinatorError IndexJobKind :=
  if bool_decide (v = "repository_graph") then ROk RepositoryGraph
  else if bool_decide (v = "project_memory") then ROk ProjectMemory
  else RErr Serialization.
Definition parse_state (v : string) : res CoordinatorError IndexJobState :=
  if bool_decide (v = "queued") then ROk Queued
  else if bool_decide (v = "leased") then ROk Leased
  else if bool_decide (v = "running") then ROk Running
  else if bool_decide (v = "publishing") then ROk Publishing
  else if bool_decide (v = "complete") then ROk Complete
  else if bool_decide (v = "failed") then ROk Failed
  else if bool_decide (v = "cancelled") then ROk Cancelled
  else RErr Serialization.
Definition i64_from_u64 (v : Z) : res CoordinatorError Z :=
  if v <? 2 ^ 63 then ROk v else RErr Serialization.

(** ** Time *)
Definition millis : Z := 10 ^ 6.
(** [DateTime::timestamp_millis] *)
Definition timestamp_millis (t : Z) : Z := t / millis.

(** The section provides the crates the code calls: JSON text, SHA-256 and
    the calendar. *)
Section coordinator.
Context `{!JsonText, !Sha256, !Chrono, !TimeText}.

Definition calendar (t : Z) : Prop := datetime_min ≤ t ≤ datetime_max.
Definition in_calendar (t : Z) : bool := (datetime_min <=? t) && (t <=? datetime_max).

(** [DateTime::from_timestamp_millis] *)
Definition datetime (ms : Z) : res CoordinatorError Z :=
  if in_calendar (ms * millis) then ROk (ms * millis) else RErr Serialization.
(** [now.checked_add_signed(Duration::milliseconds(millis))] *)
Definition checked_add_ms (now ms : Z) : option Z :=
  let t := now + ms * millis in if in_calendar t then Some t else None.

Definition bounded_after (limit now : Z) : res CoordinatorError Z :=
  ms ← map_err (λ _, InvalidRequest) (i64_from_u64 limit);
  ok_or InvalidRequest (checked_add_ms now ms).
Definition lease_expiry (limits : CoordinatorLimits) (now : Z) : res CoordinatorError Z :=
  bounded_after (lease_ttl_ms limits) now.
Definition job_deadline (limits : CoordinatorLimits) (now : Z) : res CoordinatorError Z :=
  bounded_after (max_job_duration_ms limits) now.

(** ** Reading a job *)
Definition key_of (r : IndexJobRef) : job_key := (project_key (ref_project r), remote_str (job_id r)).

(** [row.get::<_, u32>] *)
Definition get_u32 (z : Z) : res CoordinatorError Z :=
  if (0 <=? z) && (z <? u32_modulus) then ROk z else RErr (DatabaseError "integral value out of range").
Definition nonzero (z : Z) : res CoordinatorError Z := if z =? 0 then RErr Serialization else ROk z.
Definition as_remote_id (kind v : string) : res CoordinatorError remote_id :=
  map_err (λ _, Serialization) (remote_id_new kind v).

Definition row_lease (r : job_row) (generation : Z) : res CoordinatorError (option JobLease) :=
  match jr_lease_worker_id r, bool_decide (generation = 0), jr_lease_until_ms r with
  | Some w, false, Some e =>
    worker ← as_remote_id "worker id" w;
    expires ← datetime e;
    mret (Some (JobLease_ worker generation expires))
  | None, _, None => mret None
  | _, _, _ => RErr Serialization
  end.

Definition row_to_record (r : job_row) (ref : IndexJobRef) : res CoordinatorError IndexJobRecord :=
  attempt_u32 ← get_u32 (jr_attempt r);
  max_u32 ← get_u32 (jr_max_attempts r);
  kind ← parse_kind (jr_kind r);
  spec ← ok_or Serialization (from_slice (jr_spec_json r));
  state ← parse_state (jr_state r);
  attempt ← nonzero attempt_u32;
  max_attempts ← nonzero max_u32;
  generation ← (if 0 <=? jr_lease_generation r then ROk (jr_lease_generation r) else RErr Serialization);
  lease ← row_lease r generation;
  failure_code ← match jr_failure_code r with
                 | Some f => Some <$> as_remote_id "index job failure code" f
                 | None => ROk None
                 end;
  created ← datetime (jr_created_at_ms r);
  updated ← datetime (jr_updated_at_ms r);
  deadline ← datetime (jr_deadline_at_ms r);
  mret (IndexJobRecord_ (IndexJobRef_ (ref_project ref) (job_id ref) kind) spec state attempt
          max_attempts lease (jr_cancellation_requested r) failure_code created updated deadline).

Definition load_record (ref : IndexJobRef) (d : coord_db) : res CoordinatorError (option IndexJobRecord) :=
  match jobs d !! key_of ref with
  | None => ROk None
  | Some row =>
    record ← row_to_record row ref;
    if bool_decide (ref_kind (job record) ≠ ref_kind ref) then RErr NotFound
    else _ ← map_err (λ _, Serialization) (record_validate record);
         mret (Some record)
  end.
Definition load_required (ref : IndexJobRef) : tx coord_db CoordinatorError IndexJobRecord :=
  record ← fetch (load_record ref);
  lift (ok_or NotFound record).

(** ** Statements *)

(** [UPDATE distributed_index_jobs SET f WHERE key AND p]: the rows changed. *)
Definition update_job (key : job_key) (p : job_row → bool) (f : job_row → job_row) :
  tx coord_db CoordinatorError Z := λ d,
  match jobs d !! key with
  | Some r => if p r then ROk (1, d <| jobs := <[key := f r]> (jobs d) |>) else ROk (0, d)
  | None => ROk (0, d)
  end.
(** [UPDATE ... WHERE p]: the rows changed. *)
Definition update_jobs (p : job_key → job_row → bool) (f : job_row → job_row) :
  tx coord_db CoordinatorError Z := λ d,
  ROk (Z.of_nat (size (filter (λ kr : job_key * job_row, p kr.1 kr.2 = true) (jobs d))),
       d <| jobs := map_imap (λ k r, Some (if p k r then f r else r)) (jobs d) |>).
(** [INSERT INTO distributed_index_jobs] under its primary key and its
    [UNIQUE (tenant_id, project_id, kind, algorithm, value)]. *)
Definition insert_job (key : job_key) (row : job_row) : tx coord_db CoordinatorError unit := λ d,
  if some (jobs d !! key)
     || existsb (λ kr : job_key * job_row,
          bool_decide (kr.1.1 = key.1) && bool_decide (jr_kind kr.2 = jr_kind row)
          && bool_decide (jr_idempotency_algorithm kr.2 = jr_idempotency_algorithm row)
          && bool_decide (jr_idempotency_value kr.2 = jr_idempotency_value row)) (map_to_list (jobs d))
  then RErr (DatabaseError "UNIQUE constraint failed: distributed_index_jobs")
  else if (jr_attempt row <=? 0) || (jr_max_attempts row <=? 0) || (jr_lease_generation row <? 0)
  then RErr (DatabaseError "CHECK constraint failed: distributed_index_jobs")
  else ROk (tt, d <| jobs := <[key := row]> (jobs d) |>).

(** [INSERT] into a receipt table: primary key, [CHECK (lease_generation > 0)]
    and the foreign key onto the job. *)
Definition receipt_error (d : coord_db) (taken : bool) (generation : Z) (key : job_key) :
  option CoordinatorError :=
  if taken then Some (DatabaseError "UNIQUE constraint failed")
  else if generation <=? 0 then Some (DatabaseError "CHECK constraint failed")
  else if none (jobs d !! key) then Some (DatabaseError "FOREIGN KEY constraint failed")
  else None.

(** ** Leases and receipts *)
Definition require_live_lease (r : IndexJobRecord) (worker : WorkerId) (generation now : Z) :
  res CoordinatorError unit :=
  l ← ok_or LeaseLost (lease r);
  if bool_decide (lease_worker l ≠ worker) || bool_decide (lease_generation l ≠ generation)
     || (lease_expires_at l <=? now) || (deadline_at r <=? now)
  then RErr LeaseLost else ROk tt.

Definition advance_key_of (q : AdvanceIndexJobRequest) (expected next : IndexJobState) (generation : Z) :
  advance_key :=
  (key_of (adv_job q), (state_token expected, state_token next, remote_str (adv_worker_id q), generation)).
Definition load_advance_receipt (q : AdvanceIndexJobRequest) (expected next : IndexJobState) (d : coord_db) :
  res CoordinatorError (option IndexJobRecord) :=
  generation ← i64_from_u64 (adv_generation q);
  match advance_receipts d !! advance_key_of q expected next generation with
  | None => ROk None
  | Some encoded =>
    record ← ok_or Serialization (from_slice encoded);
    if bool_decide (job record ≠ adv_job q) || bool_decide (state record ≠ next)
       || negb (r_ok (record_validate record))
    then RErr Serialization else ROk (Some record)
  end.
Definition insert_advance_receipt (q : AdvanceIndexJobRequest) (expected next : IndexJobState)
    (outcome : IndexJobRecord) : tx coord_db CoordinatorError unit := λ d,
  match i64_from_u64 (adv_generation q) with
  | RErr e => RErr e
  | ROk generation =>
    let key := advance_key_of q expected next generation in
    match receipt_error d (some (advance_receipts d !! key)) generation (key_of (adv_job q)) with
    | Some e => RErr e
    | None => ROk (tt, d <| advance_receipts := <[key := to_vec outcome]> (advance_receipts d) |>)
    end
  end.

Definition failure_key_of (q : FailIndexJobRequest) (generation : Z) : failure_key :=
  (key_of (fl_job q), (remote_str (fl_worker_id q), generation, remote_str (fl_failure_code q), retryable q)).
Definition load_failure_receipt (q : FailIndexJobRequest) (d : coord_db) :
  res CoordinatorError (option IndexJobRecord) :=
  generation ← i64_from_u64 (fl_generation q);
  match failure_receipts d !! failure_key_of q generation with
  | None => ROk None
  | Some encoded =>
    record ← ok_or Serialization (from_slice encoded);
    if bool_decide (job record ≠ fl_job q)
       || negb (match state record with Queued | Failed => true | _ => false end)
       || bool_decide (failure_code record ≠ Some (fl_failure_code q))
       || negb (r_ok (record_validate record))
    then RErr Serialization else ROk (Some record)
  end.
Definition insert_failure_receipt (q : FailIndexJobRequest) (outcome : IndexJobRecord) :
  tx coord_db CoordinatorError unit := λ d,
  match i64_from_u64 (fl_generation q) with
  | RErr e => RErr e
  | ROk generation =>
    let key := failure_key_of q generation in
    match receipt_error d (some (failure_receipts d !! key)) generation (key_of (fl_job q)) with
    | Some e => RErr e
    | None => ROk (tt, d <| failure_receipts := <[key := to_vec outcome]> (failure_receipts d) |>)
    end
  end.

(** ** Reclaiming *)
Definition in_project (p : RemoteProjectRef) (k : job_key) : bool := bool_decide (k.1 = project_key p).
(** [state IN ('leased', 'running', 'publishing')] *)
Definition held_text (s : string) : bool :=
  bool_decide (s = "leased") || bool_decide (s = "running") || bool_decide (s = "publishing").
(** [lease_until_ms <= ?1], false for NULL *)
Definition until_passed (now_ms : Z) (r : job_row) : bool :=
  match jr_lease_until_ms r with Some u => u <=? now_ms | None => false end.
Definition finish_row (state : string) (code : option string) (now_ms : Z) (r : job_row) : job_row :=
  r <| jr_state := state |> <| jr_lease_worker_id := None |> <| jr_lease_until_ms := None |>
    <| jr_failure_code := code |> <| jr_updated_at_ms := now_ms |>.

Definition reclaim_expired (p : RemoteProjectRef) (now : Z) :
  tx coord_db CoordinatorError ReclaimIndexJobsResult :=
  let now_ms := timestamp_millis now in
  cancelled ← update_jobs
    (λ k r, in_project p k && jr_cancellation_requested r && until_passed now_ms r && held_text (jr_state r))
    (finish_row "cancelled" None now_ms);
  timed_out ← update_jobs
    (λ k r, in_project p k && negb (jr_cancellation_requested r) && (jr_deadline_at_ms r <=? now_ms)
            && (bool_decide (jr_state r = "queued") || held_text (jr_state r)))
    (finish_row "failed" (Some "job.timeout") now_ms);
  attempt_limited ← update_jobs
    (λ k r, in_project p k && negb (jr_cancellation_requested r) && (jr_max_attempts r <=? jr_attempt r)
            && until_passed now_ms r && held_text (jr_state r))
    (finish_row "failed" (Some "job.attempt_limit") now_ms);
  requeued ← update_jobs
    (λ k r, in_project p k && negb (jr_cancellation_requested r) && (jr_attempt r <? jr_max_attempts r)
            && until_passed now_ms r && held_text (jr_state r))
    (finish_row "queued" None now_ms);
  mret (ReclaimIndexJobsResult_ requeued (Z.min (timed_out + attempt_limited) (u64_modulus - 1)) cancelled).

(** ** Operations *)
Section operations.
Context (limits : CoordinatorLimits).

Definition submit (q : SubmitIndexJobRequest) (now : Z) : tx coord_db CoordinatorError IndexJobRecord :=
  _ ← lift (map_err (λ _, InvalidRequest) (submit_validate q));
  let key := idempotency_key_of (sub_job q) in
  jid ← lift (map_err (λ _, InvalidRequest) (remote_id_new "index job id" (value key)));
  let ref := IndexJobRef_ (sub_project q) jid (spec_kind (sub_job q)) in
  deadline ← lift (job_deadline limits now);
  deleted ← query (λ d, project_has_deletion_tombstone d (sub_project q));
  if (deleted : bool) then abort ProjectDeleted else
  existing ← fetch (load_record ref);
  match existing with
  | Some e => if bool_decide (spec e ≠ sub_job q) then abort Conflict else mret e
  | None =>
    _ ← insert_job (key_of ref)
          {| jr_kind := kind_token (ref_kind ref);
             jr_idempotency_algorithm := algorithm key;
             jr_idempotency_value := value key;
             jr_spec_json := to_vec (sub_job q);
             jr_state := "queued";
             jr_attempt := 1;
             jr_max_attempts := limit_max_attempts limits;
             jr_lease_worker_id := None;
             jr_lease_generation := 0;
             jr_lease_until_ms := None;
             jr_cancellation_requested := false;
             jr_failure_code := None;
             jr_created_at_ms := timestamp_millis now;
             jr_updated_at_ms := timestamp_millis now;
             jr_deadline_at_ms := timestamp_millis deadline |};
    load_required ref
  end.

Definition inspect (q : InspectIndexJobRequest) (d : coord_db) :
  res CoordinatorError (option IndexJobRecord) :=
  _ ← map_err (λ _, InvalidRequest) (inspect_validate q);
  load_record (ins_job q) d.

(** [... AND state = 'queued' AND cancellation_requested = 0
     ORDER BY created_at_ms, job_id LIMIT 1] *)
Definition claimable (p : RemoteProjectRef) (kind : IndexJobKind) (k : job_key) (r : job_row) : bool :=
  in_project p k && bool_decide (jr_kind r = kind_token kind) && bool_decide (jr_state r = "queued")
  && negb (jr_cancellation_requested r).
Definition claim_order : job_key * job_row → job_key * job_row → comparison :=
  lex (on_key (jr_created_at_ms ∘ snd) Z.compare) (on_key (snd ∘ fst) String.compare).
Definition next_claimable (p : RemoteProjectRef) (kind : IndexJobKind) (d : coord_db) :
  option (job_key * job_row) :=
  head (order_by claim_order
    (map_to_list (filter (λ kr : job_key * job_row, claimable p kind kr.1 kr.2 = true) (jobs d)))).

Definition claim (q : ClaimIndexJobRequest) (now : Z) :
  tx coord_db CoordinatorError (option IndexJobRecord) :=
  _ ← require (validate_version (cl_version q)) InvalidRequest;
  expires ← lift (lease_expiry limits now);
  _ ← reclaim_expired (cl_project q) now;
  selected ← query (next_claimable (cl_project q) (cl_kind q));
  match selected with
  | None => mret None
  | Some (key, row) =>
    attempt ← lift (get_u32 (jr_attempt row));
    max_attempts ← lift (get_u32 (jr_max_attempts row));
    _ ← require (0 <=? jr_lease_generation row) Serialization;
    let next_attempt :=
      if jr_lease_generation row =? 0 then attempt
      else Z.min (attempt + 1) (u32_modulus - 1) in
    _ ← require (negb ((next_attempt =? 0) || (max_attempts <? next_attempt))) Conflict;
    let generation := jr_lease_generation row + 1 in
    _ ← require (generation <? u64_modulus) Conflict;
    generation_i64 ← lift (i64_from_u64 generation);
    changed ← update_job (project_key (cl_project q), key.2)
      (λ r, bool_decide (jr_state r = "queued"))
      (λ r, r <| jr_state := "leased" |> <| jr_attempt := next_attempt |>
              <| jr_lease_worker_id := Some (remote_str (cl_worker_id q)) |>
              <| jr_lease_generation := generation_i64 |>
              <| jr_lease_until_ms := Some (Z.min (timestamp_millis expires) (jr_deadline_at_ms r)) |>
              <| jr_updated_at_ms := timestamp_millis now |> <| jr_failure_code := None |>);
    _ ← require (changed =? 1) Conflict;
    jid ← lift (as_remote_id "index job id" key.2);
    record ← load_required (IndexJobRef_ (cl_project q) jid (cl_kind q));
    mret (Some record)
  end.

(** Authority of a worker over a job: the live lease of its generation, then
    cancellation. *)
Definition check_authority (r : IndexJobRecord) (worker : WorkerId) (generation now : Z) :
  tx coord_db CoordinatorError unit :=
  _ ← lift (require_live_lease r worker generation now);
  require (negb (cancellation_requested r || bool_decide (state r = Cancelled))) JobCancelled.

Definition transition_with_lease (q : AdvanceIndexJobRequest) (expected next : IndexJobState) (now : Z)
    (clear_lease : bool) : tx coord_db CoordinatorError IndexJobRecord :=
  _ ← require (validate_version (adv_version q) && can_transition_to expected next) InvalidRequest;
  replayed ← fetch (load_advance_receipt q expected next);
  match replayed with
  | Some r => mret r
  | None =>
    record ← load_required (adv_job q);
    _ ← check_authority record (adv_worker_id q) (adv_generation q) now;
    _ ← require (bool_decide (state record = expected)) Conflict;
    leased ← (if clear_lease then mret (None, None, None)
              else l ← lift (ok_or LeaseLost (lease record));
                   generation ← lift (i64_from_u64 (lease_generation l));
                   mret (Some (remote_str (lease_worker l)), Some generation,
                         Some (timestamp_millis (lease_expires_at l))));
    changed ← update_job (key_of (adv_job q))
      (λ r, bool_decide (jr_state r = state_token expected))
      (λ r, r <| jr_state := state_token next |>
              <| jr_lease_worker_id := leased.1.1 |>
              <| jr_lease_generation := default (jr_lease_generation r) leased.1.2 |>
              <| jr_lease_until_ms := leased.2 |>
              <| jr_updated_at_ms := timestamp_millis now |>);
    _ ← require (changed =? 1) Conflict;
    updated ← load_required (adv_job q);
    _ ← insert_advance_receipt q expected next updated;
    mret updated
  end.

Definition start (q : AdvanceIndexJobRequest) (now : Z) := transition_with_lease q Leased Running now false.
Definition begin_publication (q : AdvanceIndexJobRequest) (now : Z) :=
  transition_with_lease q Running Publishing now false.
Definition complete (q : AdvanceIndexJobRequest) (now : Z) :=
  transition_with_lease q Publishing Complete now true.

Definition heartbeat (q : HeartbeatJobRequest) (now : Z) : tx coord_db CoordinatorError IndexJobRecord :=
  _ ← lift (map_err (λ _, InvalidRequest) (heartbeat_validate q));
  expires ← lift (lease_expiry limits now);
  record ← load_required (hb_job q);
  _ ← check_authority record (hb_worker_id q) (hb_generation q) now;
  generation ← lift (i64_from_u64 (hb_generation q));
  changed ← update_job (key_of (hb_job q))
    (λ r, bool_decide (jr_lease_worker_id r = Some (remote_str (hb_worker_id q)))
          && (jr_lease_generation r =? generation) && held_text (jr_state r))
    (λ r, r <| jr_lease_until_ms := Some (Z.min (timestamp_millis expires) (jr_deadline_at_ms r)) |>
            <| jr_updated_at_ms := timestamp_millis now |>);
  _ ← require (changed =? 1) LeaseLost;
  load_required (hb_job q).

Definition fail_job (q : FailIndexJobRequest) (now : Z) : tx coord_db CoordinatorError IndexJobRecord :=
  _ ← require (validate_version (fl_version q)) InvalidRequest;
  replayed ← fetch (load_failure_receipt q);
  match replayed with
  | Some r => mret r
  | None =>
    record ← load_required (fl_job q);
    _ ← check_authority record (fl_worker_id q) (fl_generation q) now;
    _ ← require (is_held (state record)) Conflict;
    let retry := retryable q && (attempt record <? max_attempts record)
                 && match state record with Leased | Running => true | _ => false end in
    _ ← update_job (key_of (fl_job q)) (λ _, true)
      (finish_row (if retry then "queued" else "failed") (Some (remote_str (fl_failure_code q)))
         (timestamp_millis now));
    updated ← load_required (fl_job q);
    _ ← insert_failure_receipt q updated;
    mret updated
  end.

Definition cancel (q : CancelIndexJobRequest) (now : Z) : tx coord_db CoordinatorError IndexJobRecord :=
  _ ← lift (map_err (λ _, InvalidRequest) (cancel_validate q));
  record ← load_required (can_job q);
  if bool_decide (state record = Cancelled) then mret record
  else if match expected_state q with Some e => bool_decide (e ≠ state record) | None => false end
  then abort Conflict
  else if is_terminal (state record) then mret record
  else
    _ ← update_job (key_of (can_job q)) (λ _, true)
      (λ r, finish_row "cancelled" None (timestamp_millis now) r <| jr_cancellation_requested := true |>);
    load_required (can_job q).

Definition reclaim (q : ReclaimIndexJobsRequest) (now : Z) :
  tx coord_db CoordinatorError ReclaimIndexJobsResult :=
  _ ← require (validate_version (rc_version q)) InvalidRequest;
  reclaim_expired (rc_project q) now.
End operations.
End coordinator.
