(* ===== verification/Coordination.v ===== *)
(** What the coordinator promises: an abstract job machine, the relation
    between the machine's jobs and the rows of [distributed_index_jobs], and
    the proof that every operation of [Coordinator] refines it.  The abstract
    job has no text columns, no separate attempt counter and no cancellation
    flag: those are functions of how often it was claimed and of its status. *)
From S2P Require Import Prelude View Chrono Transact Wire Identity Protocol Coordinator.

(** ** The abstract job machine *)
Inductive phase : Type := PLeased | PRunning | PPublishing.
#[global] Instance phase_eq_dec : EqDecision phase.
Proof. solve_decision. Defined.

Inductive job_status : Type :=
  | Waiting (last_failure : option IndexJobFailureCode)
  | Held (ph : phase) (worker : WorkerId) (until_ms : Z)
  | Finished
  | Dead (code : IndexJobFailureCode)
  | Withdrawn.

Record ajob := AJob {
  a_spec : IndexJobSpec;
  a_claims : Z;
  a_max : Z;
  a_created : Z;
  a_updated : Z;
  a_deadline : Z;
  a_status : job_status }.
#[global] Instance ajob_eta : Eta ajob := λ j,
  AJob (a_spec j) (a_claims j) (a_max j) (a_created j) (a_updated j) (a_deadline j) (a_status j).

Definition phase_state (p : phase) : IndexJobState :=
  match p with PLeased => Leased | PRunning => Running | PPublishing => Publishing end.
Definition state_of (s : job_status) : IndexJobState :=
  match s with
  | Waiting _ => Queued
  | Held p _ _ => phase_state p
  | Finished => Complete
  | Dead _ => Failed
  | Withdrawn => Cancelled
  end.
(** Claims are numbered by lease generations; the first one is attempt 1. *)
Definition attempt_of (j : ajob) : Z := Z.max 1 (a_claims j).
Definition failure_of (s : job_status) : option IndexJobFailureCode :=
  match s with Waiting c => c | Dead c => Some c | _ => None end.

Definition code_timeout : IndexJobFailureCode := dexist "job.timeout" eq_refl.
Definition code_attempt_limit : IndexJobFailureCode := dexist "job.attempt_limit" eq_refl.

(** What happens to a job, and who did it under which lease generation. *)
Inductive event : Type :=
  | EClaim (w : WorkerId)
  | EStart (w : WorkerId) (g : Z)
  | EPublish (w : WorkerId) (g : Z)
  | EComplete (w : WorkerId) (g : Z)
  | EHeartbeat (w : WorkerId) (g : Z)
  | EFail (w : WorkerId) (g : Z) (code : IndexJobFailureCode) (retry : bool)
  | ECancel
  | EExpire.

(** A lease (or a job) is live at an instant strictly before its deadline. *)
Definition live (now until_ms : Z) : Prop := now < until_ms * millis.

Definition set_status (now : Z) (s : job_status) (j : ajob) : ajob :=
  j <| a_status := s |> <| a_updated := timestamp_millis now |>.

Inductive jstep (now : Z) : event → ajob → ajob → Prop :=
  | J_claim j w c u :
      a_status j = Waiting c → a_claims j < a_max j → live now (a_deadline j) →
      live now u → u ≤ a_deadline j →
      jstep now (EClaim w) j (set_status now (Held PLeased w u) j <| a_claims := a_claims j + 1 |>)
  | J_start j w u :
      a_status j = Held PLeased w u → live now u → live now (a_deadline j) →
      jstep now (EStart w (a_claims j)) j (set_status now (Held PRunning w u) j)
  | J_publish j w u :
      a_status j = Held PRunning w u → live now u → live now (a_deadline j) →
      jstep now (EPublish w (a_claims j)) j (set_status now (Held PPublishing w u) j)
  | J_complete j w u :
      a_status j = Held PPublishing w u → live now u → live now (a_deadline j) →
      jstep now (EComplete w (a_claims j)) j (set_status now Finished j)
  | J_heartbeat j p w u u' :
      a_status j = Held p w u → live now u → live now (a_deadline j) → live now u' → u' ≤ a_deadline j →
      jstep now (EHeartbeat w (a_claims j)) j (set_status now (Held p w u') j)
  | J_retry j p w u code :
      a_status j = Held p w u → live now u → live now (a_deadline j) →
      p ≠ PPublishing → a_claims j < a_max j →
      jstep now (EFail w (a_claims j) code true) j (set_status now (Waiting (Some code)) j)
  | J_fail j p w u code retry :
      a_status j = Held p w u → live now u → live now (a_deadline j) →
      (retry = true → p = PPublishing ∨ a_max j ≤ a_claims j) →
      jstep now (EFail w (a_claims j) code retry) j (set_status now (Dead code) j)
  | J_cancel j :
      is_terminal (state_of (a_status j)) = false →
      jstep now ECancel j (set_status now Withdrawn j)
  | J_timeout j :
      is_terminal (state_of (a_status j)) = false → ¬ live now (a_deadline j) →
      jstep now EExpire j (set_status now (Dead code_timeout) j)
  | J_exhausted j p w u :
      a_status j = Held p w u → ¬ live now u → live now (a_deadline j) → a_max j ≤ a_claims j →
      jstep now EExpire j (set_status now (Dead code_attempt_limit) j)
  | J_requeue j p w u :
      a_status j = Held p w u → ¬ live now u → live now (a_deadline j) → a_claims j < a_max j →
      jstep now EExpire j (set_status now (Waiting None) j).

(** ** Rows and records of abstract jobs *)
Definition lease_cols (s : job_status) : option string * option Z :=
  match s with Held _ w u => (Some (remote_str w), Some u) | _ => (None, None) end.

Section representation.
Context {JT : JsonText} {SH : Sha256} {CH : Chrono} {TT : TimeText}.

Definition row_of (j : ajob) : job_row := {|
  jr_kind := kind_token (spec_kind (a_spec j));
  jr_idempotency_algorithm := algorithm (idempotency_key_of (a_spec j));
  jr_idempotency_value := value (idempotency_key_of (a_spec j));
  jr_spec_json := to_vec (a_spec j);
  jr_state := state_token (state_of (a_status j));
  jr_attempt := attempt_of j;
  jr_max_attempts := a_max j;
  jr_lease_worker_id := (lease_cols (a_status j)).1;
  jr_lease_generation := a_claims j;
  jr_lease_until_ms := (lease_cols (a_status j)).2;
  jr_cancellation_requested := bool_decide (state_of (a_status j) = Cancelled);
  jr_failure_code := remote_str <$> failure_of (a_status j);
  jr_created_at_ms := a_created j;
  jr_updated_at_ms := a_updated j;
  jr_deadline_at_ms := a_deadline j |}.

Definition lease_of (j : ajob) : option JobLease :=
  match a_status j with Held _ w u => Some (JobLease_ w (a_claims j) (u * millis)) | _ => None end.
Definition record_of (ref : IndexJobRef) (j : ajob) : IndexJobRecord :=
  IndexJobRecord_ (IndexJobRef_ (ref_project ref) (job_id ref) (spec_kind (a_spec j))) (a_spec j)
    (state_of (a_status j)) (attempt_of j) (a_max j) (lease_of j)
    (bool_decide (state_of (a_status j) = Cancelled)) (failure_of (a_status j))
    (a_created j * millis) (a_updated j * millis) (a_deadline j * millis).
Definition ajob_key (j : ajob) : job_key :=
  (project_key (spec_project (a_spec j)), value (idempotency_key_of (a_spec j))).

Record valid (j : ajob) : Prop := {
  v_spec : spec_validate (a_spec j) = ROk tt;
  v_id : remote_id_ok (value (idempotency_key_of (a_spec j))) = true;
  v_claims : 0 ≤ a_claims j ≤ a_max j;
  v_max : 1 ≤ a_max j < u32_modulus;
  v_created : calendar (a_created j * millis);
  v_updated : calendar (a_updated j * millis);
  v_deadline : calendar (a_deadline j * millis);
  v_times : a_created j ≤ a_deadline j;
  v_status : match a_status j with
             | Waiting _ => a_claims j < a_max j
             | Held _ _ u => 1 ≤ a_claims j ∧ calendar (u * millis) ∧ u ≤ a_deadline j
             | _ => True
             end }.

(** The table holds the rows of the abstract jobs, under their keys. *)
Record represents (t : gmap job_key job_row) (m : gmap job_key ajob) : Prop := {
  rep_rows : t = row_of <$> m;
  rep_jobs k j : m !! k = Some j → k = ajob_key j ∧ valid j }.

Lemma parse_kind_token k : parse_kind (kind_token k) = ROk k.
Proof. by destruct k. Qed.
Lemma parse_state_token s : parse_state (state_token s) = ROk s.
Proof. by destruct s. Qed.
#[global] Instance state_token_inj : Inj (=) (=) state_token.
Proof. intros a b Hab. pose proof (parse_state_token a) as E. rewrite Hab, parse_state_token in E. congruence. Qed.
Lemma datetime_in t : calendar (t * millis) → datetime t = ROk (t * millis).
Proof.
  intros [??]. unfold datetime, in_calendar. by rewrite !(proj2 (Z.leb_le _ _)).
Qed.
Lemma as_remote_id_str kind i : as_remote_id kind (remote_str i) = ROk i.
Proof. unfold as_remote_id. by rewrite remote_id_new_str. Qed.

Lemma spec_validate_version s : spec_validate s = ROk tt → spec_protocol_version s = 3.
Proof.
  unfold spec_validate. intros (? & Hs & _)%res_bind_ROk. unfold validate_control_version in Hs.
  by case_bool_decide.
Qed.

Lemma row_lease_of j : valid j → row_lease (row_of j) (a_claims j) = ROk (lease_of j).
Proof.
  intros V. pose proof (v_status j V) as Hs. unfold row_lease, lease_of. simpl.
  destruct (a_status j) as [c|p w u| |c|]; simpl; try done.
  destruct Hs as (Hc & Hu & _). rewrite bool_decide_false by lia.
  rewrite as_remote_id_str. simpl. by rewrite datetime_in.
Qed.
Context {JTL : JsonTextLaws}.

Lemma row_to_record_of ref j : valid j → row_to_record (row_of j) ref = ROk (record_of ref j).
Proof.
  intros V. pose proof (v_claims j V). pose proof (v_max j V).
  unfold row_to_record. cbn [row_of jr_attempt jr_max_attempts jr_kind jr_spec_json jr_state
    jr_lease_generation jr_failure_code jr_created_at_ms jr_updated_at_ms jr_deadline_at_ms
    jr_cancellation_requested].
  assert (1 ≤ attempt_of j < u32_modulus) by (unfold attempt_of; lia).
  unfold get_u32, nonzero.
  rewrite !(proj2 (Z.leb_le _ _)), !(proj2 (Z.ltb_lt _ _)) by lia. simpl.
  rewrite parse_kind_token. simpl.
  rewrite from_slice_to_vec by (rewrite (spec_validate_version _ (v_spec _ V)); unfold u32_modulus; lia).
  simpl. rewrite parse_state_token. simpl.
  rewrite !(proj2 (Z.eqb_neq _ _)) by lia. simpl. rewrite row_lease_of by done. simpl.
  rewrite !datetime_in by (by destruct V). unfold record_of.
  destruct (failure_of (a_status j)) as [c|]; simpl; [by rewrite as_remote_id_str|done].
Qed.

Lemma record_of_validates ref j :
  valid j → ref_project ref = spec_project (a_spec j) → record_validate (record_of ref j) = ROk tt.
Proof.
  intros V Hp. pose proof (v_claims j V). pose proof (v_max j V). pose proof (v_times j V).
  unfold record_validate. simpl. rewrite (v_spec j V). simpl. rewrite Hp.
  rewrite !bool_decide_false by tauto. unfold lease_of. assert (a_max j <? attempt_of j = false) as ->.
  { apply Z.ltb_ge. unfold attempt_of. lia. }
  assert (a_deadline j * millis <? a_created j * millis = false) as ->.
  { apply Z.ltb_ge. unfold millis. lia. }
  destruct (a_status j) as [c|[] w u| |c|]; done.
Qed.


Lemma record_of_typed ref j :
  valid j → record_typed calendar (record_of ref j).
Proof.
  intros V. pose proof (v_claims j V). pose proof (v_max j V). pose proof (v_status j V) as Hs.
  assert (u32_modulus < u64_modulus) by (unfold u32_modulus, u64_modulus; lia).
  unfold record_typed. simpl. rewrite (spec_validate_version _ (v_spec j V)).
  split_and!; try (unfold u32_modulus; lia); try (by destruct V); try (unfold attempt_of; lia).
  intros l. unfold lease_of. destruct (a_status j); intros [= <-]. destruct Hs as (? & ? & ?).
  split; simpl; [lia|done].
Qed.

#[global] Instance project_key_inj : Inj (=) (=) project_key.
Proof. intros [t p] [t' p'] [= E1 E2]. f_equal; by apply (inj remote_str). Qed.
Lemma key_of_ajob ref j : key_of ref = ajob_key j → ref_project ref = spec_project (a_spec j).
Proof. intros E%(f_equal fst). by apply (inj project_key). Qed.

Lemma record_of_job ref j : spec_kind (a_spec j) = ref_kind ref → job (record_of ref j) = ref.
Proof. destruct ref. simpl. by intros ->. Qed.

(** ** Reading represented jobs *)
Lemma load_record_rep d m ref :
  represents (jobs d) m →
  load_record ref d =
    match m !! key_of ref with
    | None => ROk None
    | Some j => if bool_decide (spec_kind (a_spec j) ≠ ref_kind ref) then RErr NotFound
                else ROk (Some (record_of ref j))
    end.
Proof.
  intros [Hr Hj]. unfold load_record. rewrite Hr, lookup_fmap.
  destruct (m !! key_of ref) as [j|] eqn:E; [|done]. simpl. destruct (Hj _ _ E) as [Hk V].
  rewrite row_to_record_of by done. simpl. case_bool_decide; [done|].
  rewrite record_of_validates by eauto using key_of_ajob. done.
Qed.
Lemma load_required_rep d m ref r d' :
  represents (jobs d) m →
  load_required ref d = ROk (r, d') ↔
  d' = d ∧ ∃ j, m !! key_of ref = Some j ∧ spec_kind (a_spec j) = ref_kind ref ∧ r = record_of ref j.
Proof.
  intros R. unfold load_required. split.
  - intros H1. tx_inv. subst. rewrite (load_record_rep _ m) in * by done. split; [done|].
    destruct (m !! key_of ref) as [j|]; [|done]. case_bool_decide as Hk; simplify_eq.
    exists j. split_and!; [done| |done]. destruct (decide (spec_kind (a_spec j) = ref_kind ref)); tauto.
  - intros (-> & j & Hm & Hk & ->). 
    rewrite (tx_bind_run _ _ _ (Some (record_of ref j)) d); [done|].
    unfold fetch. rewrite (load_record_rep _ m), Hm by done. by rewrite bool_decide_false by tauto.
Qed.

(** ** Updating represented jobs *)
Lemma update_job_inv d m k j p f c d' :
  represents (jobs d) m → m !! k = Some j → update_job k p f d = ROk (c, d') →
  (c = 1 ∧ p (row_of j) = true ∧ d' = d <| jobs := <[k := f (row_of j)]> (jobs d) |>)
  ∨ (c = 0 ∧ p (row_of j) = false ∧ d' = d).
Proof.
  intros [Hr _] Hm. unfold update_job. rewrite Hr, lookup_fmap, Hm. simpl.
  destruct (p (row_of j)); intros [= <- <-]; [left|right]; naive_solver.
Qed.
Lemma update_job_run d m k j p f :
  represents (jobs d) m → m !! k = Some j → p (row_of j) = true →
  ∃ d', update_job k p f d = ROk (1, d').
Proof. intros [Hr _] Hm Hp. unfold update_job. rewrite Hr, lookup_fmap, Hm. simpl. rewrite Hp. eauto. Qed.
Lemma represents_insert t m k j j' :
  represents t m → m !! k = Some j → a_spec j' = a_spec j → valid j' →
  represents (<[k := row_of j']> t) (<[k := j']> m).
Proof.
  intros [-> Hj] Hm Hs V. split; [by rewrite fmap_insert|].
  intros k' j0 [[<- <-]|[_ H0]]%lookup_insert_Some; [|by apply Hj].
  split; [|done]. destruct (Hj _ _ Hm) as [-> _]. unfold ajob_key. by rewrite Hs.
Qed.
Lemma update_job_rep d m k j j' p f c d' :
  represents (jobs d) m → m !! k = Some j → update_job k p f d = ROk (c, d') → (c =? 1) = true →
  f (row_of j) = row_of j' → a_spec j' = a_spec j → valid j' →
  p (row_of j) = true ∧ d' = d <| jobs := jobs d' |> ∧ represents (jobs d') (<[k := j']> m).
Proof.
  intros R Hm Hu Hc Hf Hs V.
  destruct (update_job_inv _ _ _ _ _ _ _ _ R Hm Hu) as [(_ & Hp & ->)|(-> & _)]; [|done].
  split_and!; [done..|]. rewrite Hf. by apply (represents_insert _ _ _ j).
Qed.
Lemma represents_fresh t m j :
  represents t m → valid j →
  represents (<[ajob_key j := row_of j]> t) (<[ajob_key j := j]> m).
Proof.
  intros [-> Hj] V. split; [by rewrite fmap_insert|].
  by intros k' j0 [[<- <-]|[_ H0]]%lookup_insert_Some; [|apply Hj].
Qed.
(** A sweep over the table is a sweep over the jobs. *)
Lemma represents_sweep d m (p : job_key → job_row → bool) (f : job_row → job_row) (g : job_key → ajob → ajob) c d' :
  represents (jobs d) m →
  (∀ k j, m !! k = Some j →
     (if p k (row_of j) then f (row_of j) else row_of j) = row_of (g k j)
     ∧ valid (g k j) ∧ a_spec (g k j) = a_spec j) →
  update_jobs p f d = ROk (c, d') →
  d' = d <| jobs := jobs d' |> ∧ represents (jobs d') (map_imap (λ k j, Some (g k j)) m).
Proof.
  intros [Hr Hj] Hg Hu. injection Hu as _ <-. split; [done|]. cbn [jobs set_field]. simpl. rewrite Hr. split.
  - apply map_eq. intros k. rewrite map_lookup_imap, !lookup_fmap, map_lookup_imap.
    destruct (m !! k) as [j|] eqn:E; [|done]. simpl. f_equal. by apply Hg.
  - intros k j'. rewrite map_lookup_imap. destruct (m !! k) as [j|] eqn:E; [|done]. simpl.
    intros [= <-]. destruct (Hg k j E) as (_ & V & Hs). split; [|done].
    transitivity (ajob_key j); [by apply Hj|]. unfold ajob_key. by rewrite Hs.
Qed.
End representation.
