(* ===== verification/CoordinatorProofs.v ===== *)
(** The operations of [Coordinator] on tables that represent abstract jobs:
    what each one does when it succeeds, and the properties of the coordinator
    that follow: refinement of the job machine, fencing by lease generations,
    replay of lost answers, the bound on claims, finality. *)
From S2P Require Import Prelude View Chrono Transact Wire Identity Protocol Coordinator Coordination.

(** [DateTime::<Utc>::MIN_UTC] is a midnight. *)
Class ChronoMillis {CH : Chrono} : Prop := datetime_min_millis : datetime_min mod millis = 0.

(** ** Requests as values *)
Inductive request : Type :=
  | RSubmit (q : SubmitIndexJobRequest)
  | RClaim (q : ClaimIndexJobRequest)
  | RStart (q : AdvanceIndexJobRequest)
  | RHeartbeat (q : HeartbeatJobRequest)
  | RBeginPublication (q : AdvanceIndexJobRequest)
  | RComplete (q : AdvanceIndexJobRequest)
  | RFail (q : FailIndexJobRequest)
  | RCancel (q : CancelIndexJobRequest)
  | RReclaim (q : ReclaimIndexJobsRequest).

(** The events a request may cause on the job stored under a key: only the
    worker it names, under the generation it names, acts on a held job. *)
Definition may_do (q : request) (k : job_key) (e : event) : Prop :=
  match q, e with
  | RClaim q, EClaim w => w = cl_worker_id q ∧ k.1 = project_key (cl_project q)
  | RClaim q, EExpire => k.1 = project_key (cl_project q)
  | RReclaim q, EExpire => k.1 = project_key (rc_project q)
  | RStart q, EStart w g | RBeginPublication q, EPublish w g | RComplete q, EComplete w g =>
    k = key_of (adv_job q) ∧ w = adv_worker_id q ∧ g = adv_generation q
  | RHeartbeat q, EHeartbeat w g => k = key_of (hb_job q) ∧ w = hb_worker_id q ∧ g = hb_generation q
  | RFail q, EFail w g code retry =>
    k = key_of (fl_job q) ∧ w = fl_worker_id q ∧ g = fl_generation q ∧ code = fl_failure_code q
    ∧ retry = retryable q
  | RCancel q, ECancel => k = key_of (can_job q)
  | _, _ => False
  end.

Definition limits_typed (l : CoordinatorLimits) : Prop :=
  1 ≤ limit_max_attempts l < u32_modulus ∧ 1 ≤ lease_ttl_ms l < u64_modulus
  ∧ 1 ≤ max_job_duration_ms l < u64_modulus.

Definition fresh_job (l : CoordinatorLimits) (q : SubmitIndexJobRequest) (now : Z) : ajob := {|
  a_spec := sub_job q; a_claims := 0; a_max := limit_max_attempts l;
  a_created := timestamp_millis now; a_updated := timestamp_millis now;
  a_deadline := timestamp_millis now + max_job_duration_ms l;
  a_status := Waiting None |}.

(** How a request at an instant may change the job under a key. *)
Definition evolves (l : CoordinatorLimits) (q : request) (now : Z) (k : job_key) (o o' : option ajob) : Prop :=
  match o, o' with
  | None, None => True
  | None, Some j => ∃ s, q = RSubmit s ∧ j = fresh_job l s now ∧ k = ajob_key j
  | Some j, Some j' => rtc (λ a b, ∃ e, may_do q k e ∧ jstep now e a b) j j'
  | Some _, None => False
  end.

Lemma evolves_refl l q now k o : evolves l q now k o o.
Proof. by destruct o; [apply rtc_refl|]. Qed.
Lemma evolves_trans l q now k o1 o2 o3 :
  evolves l q now k o1 o2 → o1 ≠ None → evolves l q now k o2 o3 → evolves l q now k o1 o3.
Proof. destruct o1, o2, o3; simpl; try done. intros ? _ ?. by etrans. Qed.
Lemma evolves_insert (l : CoordinatorLimits) (q : request) (now : Z) (m : gmap job_key ajob) (k : job_key) (j j' : ajob) (k' : job_key) :
  m !! k = Some j → rtc (λ a b, ∃ e, may_do q k e ∧ jstep now e a b) j j' →
  evolves l q now k' (m !! k') (<[k := j']> m !! k').
Proof.
  intros Hm Hs. destruct (decide (k' = k)) as [->|Hk].
  - by rewrite Hm, lookup_insert_eq.
  - rewrite lookup_insert_ne by done. apply evolves_refl.
Qed.
Lemma evolves_step (l : CoordinatorLimits) (q : request) (now : Z) (m : gmap job_key ajob) (k : job_key) (j j' : ajob) (k' : job_key) (e : event) :
  m !! k = Some j → may_do q k e → jstep now e j j' →
  evolves l q now k' (m !! k') (<[k := j']> m !! k').
Proof. intros Hm He Hj. eapply evolves_insert; [done|]. apply rtc_once. eauto. Qed.

(** ** Arithmetic of instants *)
Lemma live_ms now u : live now u ↔ timestamp_millis now < u.
Proof.
  unfold live, timestamp_millis. split; intros H.
  - apply Z.div_lt_upper_bound; [done|]. unfold millis in *. lia.
  - pose proof (Z.mul_succ_div_gt now millis ltac:(done)). unfold millis in *. nia.
Qed.
Lemma timestamp_add now ms : timestamp_millis (now + ms * millis) = timestamp_millis now + ms.
Proof. unfold timestamp_millis. by rewrite Z.div_add. Qed.
Lemma timestamp_mul ms : timestamp_millis (ms * millis) = ms.
Proof. unfold timestamp_millis. by rewrite Z.div_mul. Qed.

Section proofs.
Context {JT : JsonText} {SH : Sha256} {CH : Chrono} {TT : TimeText}.
Context {JTL : JsonTextLaws} {TTL : TimeTextLaws calendar} {CM : ChronoMillis}.
Context (limits : CoordinatorLimits).

Lemma calendar_floor t : calendar t → calendar (timestamp_millis t * millis).
Proof.
  unfold calendar, timestamp_millis. intros [Hmin Hmax].
  pose proof (Z.mul_div_le t millis ltac:(done)) as Hle.
  split; [|lia]. pose proof datetime_min_millis as Hm.
  apply Z.mod_divide in Hm as [b Hb]; [|done]. rewrite Hb in *.
  assert (b ≤ t / millis) by (apply Z.div_le_lower_bound; [done|lia]). unfold millis in *. lia.
Qed.
Lemma bounded_after_inv limit now t :
  bounded_after limit now = ROk t → calendar t ∧ t = now + limit * millis.
Proof.
  unfold bounded_after, i64_from_u64. intros H. tx_inv. destruct (_ <? _); simplify_eq.
  tx_inv. unfold checked_add_ms, in_calendar in *. destruct (_ && _) eqn:E; simplify_eq.
  apply andb_true_iff in E as [?%Z.leb_le ?%Z.leb_le]. done.
Qed.

Lemma valid_set_status now s j :
  calendar now → valid j →
  match s with
  | Waiting _ => a_claims j < a_max j
  | Held _ _ u => 1 ≤ a_claims j ∧ calendar (u * millis) ∧ u ≤ a_deadline j
  | _ => True
  end → valid (set_status now s j).
Proof. intros Hn [] Hs. split; simpl; try done. by apply calendar_floor. Qed.

(** ** Receipts *)
Definition receipt_ok (m : gmap job_key ajob) (k : job_key) (text : string) (r : IndexJobRecord) : Prop :=
  text = to_vec r ∧ record_typed calendar r ∧ record_validate r = ROk tt ∧ key_of (job r) = k
  ∧ ∃ j, m !! k = Some j ∧ spec_kind (a_spec j) = ref_kind (job r).
Record receipts_ok (d : coord_db) (m : gmap job_key ajob) : Prop := {
  ro_advance k e n w g text : advance_receipts d !! (k, (e, n, w, g)) = Some text →
    ∃ r, receipt_ok m k text r ∧ state_token (state r) = n;
  ro_failure k w g c b text : failure_receipts d !! (k, (w, g, c, b)) = Some text →
    ∃ r code, receipt_ok m k text r ∧ (state r = Queued ∨ state r = Failed)
              ∧ failure_code r = Some code ∧ remote_str code = c }.
Record coord_inv (d : coord_db) (m : gmap job_key ajob) : Prop := {
  ci_rep : represents (jobs d) m;
  ci_receipts : receipts_ok d m }.

(** Jobs keep their specification. *)
Definition spec_kept (m m' : gmap job_key ajob) : Prop :=
  ∀ k j, m !! k = Some j → ∃ j', m' !! k = Some j' ∧ a_spec j' = a_spec j.
Lemma receipt_ok_mono m m' k t r : spec_kept m m' → receipt_ok m k t r → receipt_ok m' k t r.
Proof.
  intros Hm (? & ? & ? & ? & j & Hj & Hk). destruct (Hm _ _ Hj) as (j' & Hj' & Hs).
  split_and!; try done. exists j'. by rewrite Hs.
Qed.
Lemma receipts_ok_mono d m d' m' :
  advance_receipts d' = advance_receipts d → failure_receipts d' = failure_receipts d →
  spec_kept m m' → receipts_ok d m → receipts_ok d' m'.
Proof.
  intros Ha Hf Hm [HA HF]. split; rewrite ?Ha, ?Hf.
  - intros k e n w g t Ht. destruct (HA _ _ _ _ _ _ Ht) as (r & Hr & ?). eauto using receipt_ok_mono.
  - intros k w g c b t Ht. destruct (HF _ _ _ _ _ _ Ht) as (r & code & Hr & ? & ? & ?).
    eauto 8 using receipt_ok_mono.
Qed.
Lemma spec_kept_insert m k j j' : m !! k = Some j → a_spec j' = a_spec j → spec_kept m (<[k := j']> m).
Proof.
  intros Hm Hs k0 j0 H0. destruct (decide (k0 = k)) as [->|Hk].
  - rewrite lookup_insert_eq. simplify_eq. eauto.
  - rewrite lookup_insert_ne by done. eauto.
Qed.
Lemma record_receipt_ok m ref j :
  valid j → key_of ref = ajob_key j → spec_kind (a_spec j) = ref_kind ref →
  (∃ j0, m !! key_of ref = Some j0 ∧ a_spec j0 = a_spec j) →
  receipt_ok m (key_of ref) (to_vec (record_of ref j)) (record_of ref j).
Proof.
  intros V Hk Hkind (j0 & Hm & Hs). split_and!; [done|by apply record_of_typed| | |].
  - apply record_of_validates; eauto using key_of_ajob.
  - by rewrite record_of_job.
  - exists j0. rewrite Hs. by rewrite record_of_job.
Qed.

(** ** Reclaiming *)
Definition sweep_job (p : RemoteProjectRef) (now : Z) (k : job_key) (j : ajob) : ajob :=
  if in_project p k then
    match a_status j with
    | Waiting _ =>
      if a_deadline j <=? timestamp_millis now then set_status now (Dead code_timeout) j else j
    | Held _ _ u =>
      if a_deadline j <=? timestamp_millis now then set_status now (Dead code_timeout) j
      else if u <=? timestamp_millis now then
        if a_max j <=? attempt_of j then set_status now (Dead code_attempt_limit) j
        else set_status now (Waiting None) j
      else j
    | _ => j
    end
  else j.
(** Its parts, one per statement. *)
Definition sweep_timeout (p : RemoteProjectRef) (now : Z) (k : job_key) (j : ajob) : ajob :=
  if in_project p k && (a_deadline j <=? timestamp_millis now)
     && negb (is_terminal (state_of (a_status j)))
  then set_status now (Dead code_timeout) j else j.
Definition sweep_lost (p : RemoteProjectRef) (now : Z) (exhausted : bool) (s : job_status)
    (k : job_key) (j : ajob) : ajob :=
  match a_status j with
  | Held _ _ u => if in_project p k && Bool.eqb (a_max j <=? attempt_of j) exhausted
                     && (u <=? timestamp_millis now)
                  then set_status now s j else j
  | _ => j
  end.
Lemma sweep_job_parts p now k j :
  sweep_lost p now false (Waiting None) k
    (sweep_lost p now true (Dead code_attempt_limit) k (sweep_timeout p now k j)) = sweep_job p now k j.
Proof.
  unfold sweep_job, sweep_timeout, sweep_lost. destruct (in_project p k); simpl.
  - destruct (a_status j) eqn:E; simpl; destruct (a_deadline j <=? _); simpl; rewrite ?E; simpl; try done.
    + by destruct ph.
    + destruct (a_max j <=? attempt_of j) eqn:Em; simpl; destruct (until_ms <=? _) eqn:Eu; simpl;
        rewrite ?E, ?Em; simpl; rewrite ?Eu; by destruct ph.
  - by destruct (a_status j) eqn:E; simpl; rewrite ?E.
Qed.

Lemma finish_row_of st code now j :
  state_of (a_status j) ≠ Cancelled → state_of st ≠ Cancelled → lease_cols st = (None, None) →
  failure_of st = code →
  finish_row (state_token (state_of st)) (remote_str <$> code) (timestamp_millis now) (row_of j)
  = row_of (set_status now st j).
Proof.
  intros Hj Hst Hl <-. unfold finish_row, row_of. simpl. rewrite Hl. simpl.
  by rewrite !bool_decide_false by done.
Qed.
Lemma held_text_of j : held_text (jr_state (row_of j)) = is_held (state_of (a_status j)).
Proof. simpl. by destruct (a_status j) as [|[]| | |]. Qed.
Lemma attempt_held j p w u : valid j → a_status j = Held p w u → attempt_of j = a_claims j.
Proof. intros V E. pose proof (v_status j V) as Hs. rewrite E in Hs. unfold attempt_of. lia. Qed.

Lemma sweep_timeout_ok p now k j :
  calendar now → valid j →
  (if in_project p k && negb (jr_cancellation_requested (row_of j))
      && (jr_deadline_at_ms (row_of j) <=? timestamp_millis now)
      && (bool_decide (jr_state (row_of j) = "queued") || held_text (jr_state (row_of j)))
   then finish_row "failed" (Some "job.timeout") (timestamp_millis now) (row_of j) else row_of j)
  = row_of (sweep_timeout p now k j)
  ∧ valid (sweep_timeout p now k j) ∧ a_spec (sweep_timeout p now k j) = a_spec j.
Proof.
  intros Hn V. unfold sweep_timeout. rewrite held_text_of. cbn [row_of jr_cancellation_requested jr_deadline_at_ms jr_state].
  destruct (in_project p k); simpl; [|done]. destruct (a_deadline j <=? _); simpl;
    rewrite ?andb_false_r; simpl; [|done]. rewrite !andb_true_r.
  destruct (a_status j) as [|[]| | |] eqn:E; simpl; try done;
    (split_and!; [apply (finish_row_of (Dead code_timeout) (Some code_timeout)); by rewrite ?E
                 |by apply valid_set_status|done]).
Qed.
Lemma sweep_lost_ok p now k j (exhausted : bool) st code :
  calendar now → valid j →
  state_of st ≠ Cancelled → lease_cols st = (None, None) → failure_of st = code →
  (st = Waiting None → exhausted = false) → (∀ c, st = Waiting c → c = None) →
  (if in_project p k && negb (jr_cancellation_requested (row_of j))
      && Bool.eqb (jr_max_attempts (row_of j) <=? jr_attempt (row_of j)) exhausted
      && until_passed (timestamp_millis now) (row_of j) && held_text (jr_state (row_of j))
   then finish_row (state_token (state_of st)) (remote_str <$> code) (timestamp_millis now) (row_of j)
   else row_of j) = row_of (sweep_lost p now exhausted st k j)
  ∧ valid (sweep_lost p now exhausted st k j) ∧ a_spec (sweep_lost p now exhausted st k j) = a_spec j.
Proof.
  intros Hn V Hst Hl Hf He Hw. unfold sweep_lost, until_passed. rewrite held_text_of.
  cbn [row_of jr_cancellation_requested jr_max_attempts jr_attempt jr_lease_until_ms].
  destruct (a_status j) as [|ph w u| | |] eqn:E; simpl; rewrite ?andb_false_r; simpl; try done.
  pose proof (v_status j V) as Hs. rewrite E in Hs.
  assert (bool_decide (phase_state ph = Cancelled) = false ∧ is_held (phase_state ph) = true) as [-> ->]
    by by destruct ph.
  destruct (in_project p k); simpl; [|done]. rewrite !andb_true_r.
  destruct (Bool.eqb _ exhausted) eqn:Ee; simpl; [|done]. destruct (u <=? _) eqn:Eu; simpl; [|done].
  split_and!; [apply finish_row_of; try done; rewrite E; by destruct ph| |done].
  apply valid_set_status; [done..|]. apply eqb_prop in Ee. destruct st as [c|???| | |]; try done.
  rewrite (Hw c eq_refl) in He. rewrite (He eq_refl) in Ee. apply Z.leb_gt in Ee.
  rewrite (attempt_held j ph w u) in Ee; [lia|done..].
Qed.

Definition swept (p : RemoteProjectRef) (now : Z) (m : gmap job_key ajob) : gmap job_key ajob :=
  map_imap (λ k j, Some (sweep_job p now k j)) m.
Lemma lookup_swept p now m k : swept p now m !! k = sweep_job p now k <$> m !! k.
Proof. unfold swept. rewrite map_lookup_imap. by destruct (m !! k). Qed.

Lemma eqb_true_r b : Bool.eqb b true = b.
Proof. by destruct b. Qed.
Lemma reclaim_rep p now d m r d' :
  represents (jobs d) m → calendar now → reclaim_expired p now d = ROk (r, d') →
  d' = d <| jobs := jobs d' |> ∧ represents (jobs d') (swept p now m).
Proof.
  intros R Hn H. unfold reclaim_expired in H. cbv zeta in H. tx_inv.
  match goal with H1 : update_jobs _ _ d = _ |- _ =>
    apply (represents_sweep d m _ _ (λ _ j, j)) in H1 as [E1 R1]; [|done|] end.
  2: { intros k j Hj. destruct (rep_jobs _ _ R _ _ Hj) as [_ V]. rewrite held_text_of. simpl.
       case_bool_decide as Hc; rewrite ?Hc; simpl; by rewrite ?andb_false_r. }
  match goal with H1 : update_jobs _ _ _ = ROk (_, ?d2), H2 : update_jobs _ _ ?d2 = _ |- _ =>
    eapply (represents_sweep _ _ _ _ (sweep_timeout p now)) in H1 as [E2 R2]; [|exact R1|] end.
  2: { intros k j. rewrite map_lookup_imap. destruct (m !! k) as [j0|] eqn:E; [|done]. intros [= <-].
       apply sweep_timeout_ok; [done|]. by apply (rep_jobs _ _ R k). }
  match goal with H1 : update_jobs _ _ _ = ROk (_, ?d2), H2 : update_jobs _ _ ?d2 = _ |- _ =>
    eapply (represents_sweep _ _ _ _ (sweep_lost p now true (Dead code_attempt_limit))) in H1 as [E3 R3];
    [|exact R2|] end.
  2: { intros k j Hj. rewrite <- (eqb_true_r (_ <=? jr_attempt (row_of j))).
       apply (sweep_lost_ok p now k j true (Dead code_attempt_limit) (Some code_attempt_limit)); try done.
       by apply (rep_jobs _ _ R2 k). }
  match goal with H1 : update_jobs _ _ _ = ROk (_, _) |- _ =>
    eapply (represents_sweep _ _ _ _ (sweep_lost p now false (Waiting None))) in H1 as [E4 R4];
    [|exact R3|] end.
  2: { intros k j Hj. rewrite Z.ltb_antisym.
       replace (negb (jr_max_attempts (row_of j) <=? jr_attempt (row_of j)))
         with (Bool.eqb (jr_max_attempts (row_of j) <=? jr_attempt (row_of j)) false)
         by by destruct (_ <=? _).
       apply (sweep_lost_ok p now k j false (Waiting None) None); try done; [|naive_solver].
       by apply (rep_jobs _ _ R3 k). }
  split; [by rewrite E4, E3, E2, E1|].
  match goal with R4 : represents _ ?m4 |- represents _ ?m5 => assert (m5 = m4) as ->; [|done] end.
  apply map_eq. intros k. rewrite lookup_swept, !map_lookup_imap.
  destruct (m !! k) as [j|]; [|done]. simpl. by rewrite sweep_job_parts.
Qed.

Lemma sweep_job_step p now k j :
  valid j → sweep_job p now k j = j
            ∨ (k.1 = project_key p ∧ jstep now EExpire j (sweep_job p now k j)).
Proof.
  intros V. unfold sweep_job, in_project. case_bool_decide as Hp; [|by left].
  destruct (a_status j) as [c|ph w u| | |] eqn:E; try by left.
  - destruct (Z.leb_spec (a_deadline j) (timestamp_millis now)); [right|by left]. split; [done|].
    apply J_timeout; [by rewrite E|]. rewrite live_ms. lia.
  - destruct (Z.leb_spec (a_deadline j) (timestamp_millis now)); [right; split; [done|]|].
    { apply J_timeout; [rewrite E; by destruct ph|]. rewrite live_ms. lia. }
    destruct (Z.leb_spec u (timestamp_millis now)); [right; split; [done|]|by left].
    destruct (Z.leb_spec (a_max j) (attempt_of j)) as [Hm|Hm];
      rewrite (attempt_held j ph w u) in Hm by done;
      [eapply J_exhausted|eapply J_requeue]; try done; rewrite live_ms; lia.
Qed.
Lemma sweep_job_spec p now k j : a_spec (sweep_job p now k j) = a_spec j.
Proof.
  unfold sweep_job. destruct (in_project p k); [|done].
  destruct (a_status j); repeat destruct (_ <=? _); done.
Qed.
Lemma sweep_job_waiting p now k j c :
  k.1 = project_key p → a_status (sweep_job p now k j) = Waiting c → live now (a_deadline j).
Proof.
  intros Hp. unfold sweep_job, in_project. rewrite bool_decide_true by done.
  destruct (a_status j) as [c0|ph w u| | |] eqn:E; rewrite ?E; try done;
    destruct (Z.leb_spec (a_deadline j) (timestamp_millis now)); try done; intros _; rewrite live_ms; lia.
Qed.
Lemma sweep_job_deadline p now k j : a_deadline (sweep_job p now k j) = a_deadline j.
Proof.
  unfold sweep_job. destruct (in_project p k); [|done].
  destruct (a_status j); repeat destruct (_ <=? _); done.
Qed.
Lemma swept_kept p now m : spec_kept m (swept p now m).
Proof. intros k j Hj. rewrite lookup_swept, Hj. simpl. eauto using sweep_job_spec. Qed.
Lemma swept_evolves l q p now m t k :
  represents t m → (∀ k0, k0.1 = project_key p → may_do q k0 EExpire) →
  evolves l q now k (m !! k) (swept p now m !! k).
Proof.
  intros R Hq. rewrite lookup_swept. destruct (m !! k) as [j|] eqn:E; [|done]. simpl.
  destruct (sweep_job_step p now k j) as [->|[Hp Hj]]; [by apply (rep_jobs _ _ R k)|done|].
  apply rtc_once. eauto.
Qed.

(** ** Claims *)
Definition claimed (now : Z) (w : WorkerId) (u : Z) (j : ajob) : ajob :=
  set_status now (Held PLeased w u) j <| a_claims := a_claims j + 1 |>.
Lemma claimed_valid now w u j c :
  calendar now → valid j → a_status j = Waiting c → calendar (u * millis) → u ≤ a_deadline j →
  valid (claimed now w u j).
Proof.
  intros Hn V Hs Hu Hd. pose proof (v_status j V) as H0. rewrite Hs in H0. pose proof (v_claims j V).
  destruct V. split; simpl; try done; [lia|by apply calendar_floor|]. split_and!; [lia|done..].
Qed.

#[local] Instance claim_order_cmp : TotalCmp claim_order.
Proof. apply lex_cmp; apply on_key_cmp; [apply Z_cmp|apply string_cmp]. Qed.

Lemma next_claimable_rep d m p kind k row :
  represents (jobs d) m → next_claimable p kind d = Some (k, row) →
  ∃ j c, m !! k = Some j ∧ row = row_of j ∧ a_status j = Waiting c ∧ k.1 = project_key p
         ∧ spec_kind (a_spec j) = kind.
Proof.
  intros R H. unfold next_claimable in H. rewrite head_Some in H. destruct H as [l H].
  apply (order_by_head claim_order) in H as [Hin _].
  apply elem_of_map_to_list, map_lookup_filter_Some in Hin as [Hk Hc]. simpl in Hc.
  destruct R as [Hr Hj]. rewrite Hr, lookup_fmap in Hk.
  destruct (m !! k) as [j|] eqn:E; [|done]. injection Hk as <-.
  unfold claimable, in_project in Hc. rewrite !andb_true_iff, !bool_decide_eq_true in Hc.
  destruct Hc as [[[Hp Hkind] Hst] _]. simpl in Hkind, Hst.
  destruct (a_status j) as [c|[]| | |] eqn:Es; try discriminate Hst.
  exists j, c. split_and!; try done. by destruct (spec_kind (a_spec j)), kind.
Qed.

Lemma get_u32_ROk z a : get_u32 z = ROk a → a = z.
Proof. unfold get_u32. by destruct (_ && _); intros; simplify_eq. Qed.
Lemma i64_ROk z a : i64_from_u64 z = ROk a → a = z.
Proof. unfold i64_from_u64. by destruct (_ <? _); intros; simplify_eq. Qed.
Lemma attempt_claimed now w u j c :
  valid j → a_status j = Waiting c →
  (if a_claims j =? 0 then attempt_of j else Z.min (attempt_of j + 1) (u32_modulus - 1))
  = attempt_of (claimed now w u j).
Proof.
  intros V Hs. pose proof (v_status j V) as H0. rewrite Hs in H0. pose proof (v_claims j V).
  pose proof (v_max j V). unfold attempt_of. simpl. destruct (Z.eqb_spec (a_claims j) 0); lia.
Qed.
Lemma as_remote_id_ROk kind v i : as_remote_id kind v = ROk i → remote_str i = v.
Proof. unfold as_remote_id. intros H. tx_inv. by eapply remote_id_new_ROk. Qed.

(** [MIN(expiry, deadline_at_ms)] *)
Definition lease_until (now : Z) (j : ajob) : Z :=
  Z.min (timestamp_millis (now + lease_ttl_ms limits * millis)) (a_deadline j).
Lemma lease_until_ok now j :
  calendar (now + lease_ttl_ms limits * millis) → valid j →
  calendar (lease_until now j * millis) ∧ lease_until now j ≤ a_deadline j.
Proof.
  intros Hc V. split; [|unfold lease_until; lia]. unfold lease_until.
  destruct (Z.min_spec (timestamp_millis (now + lease_ttl_ms limits * millis)) (a_deadline j))
    as [[_ ->]|[_ ->]]; [by apply calendar_floor|by destruct V].
Qed.
Lemma lease_until_live now j :
  1 ≤ lease_ttl_ms limits → live now (a_deadline j) → live now (lease_until now j).
Proof. rewrite !live_ms. unfold lease_until. rewrite timestamp_add. lia. Qed.
Lemma claimed_row now w u j c :
  valid j → a_status j = Waiting c →
  (row_of j) <| jr_state := "leased" |>
    <| jr_attempt := if a_claims j =? 0 then attempt_of j else Z.min (attempt_of j + 1) (u32_modulus - 1) |>
    <| jr_lease_worker_id := Some (remote_str w) |> <| jr_lease_generation := a_claims j + 1 |>
    <| jr_lease_until_ms := Some u |> <| jr_updated_at_ms := timestamp_millis now |>
    <| jr_failure_code := None |> = row_of (claimed now w u j).
Proof.
  intros V Hst. unfold row_of at 1. simpl. rewrite (attempt_claimed now w u j c) by done. by rewrite Hst.
Qed.

Lemma claim_success q now d m o d' :
  represents (jobs d) m → calendar now → 1 ≤ lease_ttl_ms limits →
  claim limits q now d = ROk (o, d') →
  let m1 := swept (cl_project q) now m in
  d' = d <| jobs := jobs d' |> ∧
  match o with
  | None => represents (jobs d') m1 ∧ next_claimable (cl_project q) (cl_kind q) d' = None
  | Some r => ∃ k j c u ref,
      m1 !! k = Some j ∧ a_status j = Waiting c ∧ k.1 = project_key (cl_project q)
      ∧ spec_kind (a_spec j) = cl_kind q ∧ k = key_of ref
      ∧ live now (a_deadline j) ∧ live now u ∧ u ≤ a_deadline j
      ∧ valid (claimed now (cl_worker_id q) u j)
      ∧ represents (jobs d') (<[k := claimed now (cl_worker_id q) u j]> m1)
      ∧ r = record_of ref (claimed now (cl_worker_id q) u j)
      ∧ ∃ d1, represents (jobs d1) m1 ∧ next_claimable (cl_project q) (cl_kind q) d1 = Some (k, row_of j)
  end.
Proof.
  intros R Hn Httl H m1. unfold claim in H. tx_inv.
  match goal with H1 : lease_expiry _ _ = _ |- _ => destruct (bounded_after_inv _ _ _ H1) as [Hexp ->] end.
  match goal with H1 : reclaim_expired _ _ _ = _ |- _ =>
    destruct (reclaim_rep _ _ _ _ _ _ R Hn H1) as [E1 R1]; clear H1 end.
  destruct (next_claimable _ _ _) as [[k row]|] eqn:Es.
  2: { tx_inv. split; [done|]. by split. }
  destruct (next_claimable_rep _ _ _ _ _ _ R1 Es) as (j & c & Hm & -> & Hst & Hp & Hkind).
  tx_inv.
  repeat match goal with
  | H1 : get_u32 _ = ROk _ |- _ => apply get_u32_ROk in H1 as ->
  | H1 : i64_from_u64 _ = ROk _ |- _ => apply i64_ROk in H1 as ->
  | H1 : as_remote_id _ _ = ROk _ |- _ => apply as_remote_id_ROk in H1
  end.
  destruct (rep_jobs _ _ R1 _ _ Hm) as [Hkey V].
  set (u := lease_until now j).
  assert (live now (a_deadline j)) as Hld.
  { subst m1. rewrite lookup_swept in Hm. destruct (m !! k) as [j0|]; [|done]. injection Hm as <-.
    rewrite sweep_job_deadline. by eapply sweep_job_waiting. }
  assert (live now u) as Hlu by (by apply lease_until_live).
  destruct (lease_until_ok now j Hexp V) as [Hcu Hud].
  assert (valid (claimed now (cl_worker_id q) u j)) as V' by (by eapply claimed_valid).
  assert (k = (project_key (cl_project q), k.2)) as Hk by (destruct k; simpl in *; by subst).
  match goal with H1 : update_job _ _ _ _ = _, H2 : load_required ?rf _ = _ |- _ =>
    rewrite <- Hk in H1; set (ref := rf) in *;
    destruct (update_job_rep _ _ _ _ (claimed now (cl_worker_id q) u j) _ _ _ _ R1 Hm H1)
      as (_ & E2 & R2); [done| |done|done|
      apply (load_required_rep _ _ _ _ _ R2) in H2 as (-> & j' & Hj' & _ & ->)] end.
  { by eapply claimed_row. }
  assert (k = key_of ref) as Href by (rewrite Hk; subst ref; unfold key_of; simpl; congruence).
  rewrite <- Href, lookup_insert_eq in Hj'. injection Hj' as <-.
  split; [by rewrite E2, E1|]. exists k, j, c, u, ref. split_and!; eauto.
Qed.

(** ** Acting under a lease *)
Lemma check_authority_inv ref j w g now d u d' :
  check_authority (record_of ref j) w g now d = ROk (u, d') →
  d' = d ∧ ∃ p until, a_status j = Held p w until ∧ a_claims j = g
                      ∧ live now until ∧ live now (a_deadline j).
Proof.
  unfold check_authority, require_live_lease. intros H. tx_inv. subst. split; [done|].
  match goal with H1 : lease _ = Some _ |- _ => unfold lease_of in H1; simpl in H1 end.
  unfold lease_of in *. destruct (a_status j) as [|p w0 u0| | |] eqn:E; simplify_eq.
  destruct (_ || _) eqn:Eb; simplify_eq. simpl in Eb.
  rewrite !orb_false_iff, !bool_decide_eq_false, !Z.leb_gt in Eb. destruct Eb as [[[Hw Hg] Hl] Hd].
  exists p, u0. assert (w0 = w) as -> by (by destruct (decide (w0 = w))).
  split_and!; [done| |done|done]. by destruct (decide (a_claims j = g)).
Qed.

Lemma load_advance_fresh q e n d m g :
  receipts_ok d m → load_advance_receipt q e n d = ROk None →
  i64_from_u64 (adv_generation q) = ROk g → advance_receipts d !! advance_key_of q e n g = None.
Proof.
  intros _ H Hg. unfold load_advance_receipt in H. rewrite Hg in H. simpl in H.
  destruct (_ !! _); [|done]. tx_inv. by destruct (_ || _).
Qed.
Lemma load_failure_fresh q d g :
  load_failure_receipt q d = ROk None → i64_from_u64 (fl_generation q) = ROk g →
  failure_receipts d !! failure_key_of q g = None.
Proof.
  intros H Hg. unfold load_failure_receipt in H. rewrite Hg in H. simpl in H.
  destruct (_ !! _); [|done]. tx_inv. by destruct (_ || _).
Qed.

Lemma insert_advance_inv q e n r d u d' :
  insert_advance_receipt q e n r d = ROk (u, d') →
  let key := advance_key_of q e n (adv_generation q) in
  advance_receipts d !! key = None
  ∧ d' = d <| advance_receipts := <[key := to_vec r]> (advance_receipts d) |>.
Proof.
  unfold insert_advance_receipt. destruct (i64_from_u64 (adv_generation q)) as [g|] eqn:Eg; [|done].
  apply i64_ROk in Eg as ->. unfold receipt_error.
  destruct (advance_receipts d !! _) eqn:E; [done|]. simpl.
  destruct (_ <=? 0); [done|]. destruct (none _); [done|]. by intros [= _ <-].
Qed.
Lemma insert_failure_inv q r d u d' :
  insert_failure_receipt q r d = ROk (u, d') →
  let key := failure_key_of q (fl_generation q) in
  failure_receipts d !! key = None
  ∧ d' = d <| failure_receipts := <[key := to_vec r]> (failure_receipts d) |>.
Proof.
  unfold insert_failure_receipt. destruct (i64_from_u64 (fl_generation q)) as [g|] eqn:Eg; [|done].
  apply i64_ROk in Eg as ->. unfold receipt_error.
  destruct (failure_receipts d !! _) eqn:E; [done|]. simpl.
  destruct (_ <=? 0); [done|]. destruct (none _); [done|]. by intros [= _ <-].
Qed.
Lemma receipts_ok_advance d m q e r :
  receipts_ok d m → receipt_ok m (key_of (adv_job q)) (to_vec r) r →
  receipts_ok (d <| advance_receipts := <[advance_key_of q e (state r) (adv_generation q) := to_vec r]>
                                          (advance_receipts d) |>) m.
Proof.
  intros [HA HF] Hr. split; [|done]. simpl. intros k e0 n w g t.
  intros [[Hk <-]|[_ H]]%lookup_insert_Some; [|by eapply HA]. injection Hk as <- <- <- <- <-. eauto.
Qed.
Lemma receipts_ok_failure d m q r :
  receipts_ok d m → receipt_ok m (key_of (fl_job q)) (to_vec r) r →
  state r = Queued ∨ state r = Failed → failure_code r = Some (fl_failure_code q) →
  receipts_ok (d <| failure_receipts := <[failure_key_of q (fl_generation q) := to_vec r]>
                                          (failure_receipts d) |>) m.
Proof.
  intros [HA HF] Hr Hs Hc. split; [done|]. simpl. intros k w g c b t.
  intros [[Hk <-]|[_ H]]%lookup_insert_Some; [|by eapply HF]. injection Hk as <- <- <- <- <-.
  eauto 8.
Qed.

(** A worker's step that moves a held job on: [s'] is the status the code
    writes, given the phase it expects. *)
Section advance.
Context (p : phase) (s' : WorkerId → Z → job_status) (clear : bool).
Context (Hheld : ∀ w u, lease_cols (s' w u) = if clear then (None, None) else (Some (remote_str w), Some u)).
Context (Hfail : ∀ w u, failure_of (s' w u) = None).
Context (Hnc : ∀ w u, state_of (s' w u) ≠ Cancelled).
Context (Hstat : ∀ w u, match s' w u with Waiting _ => False | Held _ w' u' => w' = w ∧ u' = u | _ => True end).
Context (n : IndexJobState) (Hn : ∀ w u, state_of (s' w u) = n).

Lemma transition_success q now d m r d' :
  coord_inv d m → calendar now →
  transition_with_lease q (phase_state p) n now clear d = ROk (r, d') →
  (load_advance_receipt q (phase_state p) n d = ROk (Some r) ∧ d' = d)
  ∨ ∃ j u, let k := key_of (adv_job q) in
      m !! k = Some j ∧ spec_kind (a_spec j) = ref_kind (adv_job q)
      ∧ a_status j = Held p (adv_worker_id q) u ∧ a_claims j = adv_generation q
      ∧ live now u ∧ live now (a_deadline j)
      ∧ let j' := set_status now (s' (adv_worker_id q) u) j in
        coord_inv d' (<[k := j']> m) ∧ r = record_of (adv_job q) j'
        ∧ failure_receipts d' = failure_receipts d
        ∧ advance_receipts d !! advance_key_of q (phase_state p) n (adv_generation q) = None
        ∧ advance_receipts d' =
            <[advance_key_of q (phase_state p) n (adv_generation q) := to_vec r]> (advance_receipts d).
Proof.
  intros [R RC] Hcal H. unfold transition_with_lease in H.
  apply tx_bind_ROk in H as (? & ? & H1 & H). apply require_ROk in H1 as [_ ->].
  apply tx_bind_ROk in H as (replayed & ? & H1 & H). apply fetch_ROk in H1 as [Hrep ->].
  destruct replayed as [r0|]; [left; by tx_inv|right].
  tx_inv.
  match goal with H1 : load_required _ d = _ |- _ =>
    apply (load_required_rep _ _ _ _ _ R) in H1 as (-> & j & Hm & Hkind & ->) end.
  match goal with H1 : check_authority _ _ _ _ _ = _ |- _ =>
    apply check_authority_inv in H1 as (-> & p0 & u & Hs & Hg & Hlu & Hld) end.
  match goal with H1 : bool_decide _ = true |- _ => apply bool_decide_eq_true in H1; simpl in H1; rewrite Hs in H1 end.
  assert (p0 = p) as -> by (by destruct p0, p).
  destruct (rep_jobs _ _ R _ _ Hm) as [Hkey V]. pose proof (v_status j V) as Vs. rewrite Hs in Vs.
  set (j' := set_status now (s' (adv_worker_id q) u) j).
  assert (valid j') as V'.
  { apply valid_set_status; [done..|]. pose proof (Hstat (adv_worker_id q) u).
    destruct (s' (adv_worker_id q) u); naive_solver. }
  match goal with H1 : _ _ = ROk (?cols, ?dd), H2 : update_job _ _ _ ?dd = _ |- _ =>
    assert (dd = d ∧ cols.1.1 = (lease_cols (s' (adv_worker_id q) u)).1
            ∧ default (a_claims j) cols.1.2 = a_claims j
            ∧ cols.2 = (lease_cols (s' (adv_worker_id q) u)).2) as (-> & Hc1 & Hc2 & Hc3);
    [clear H2|clear H1] end.
  { rewrite Hheld. destruct clear; tx_inv; [done|]. subst.
    unfold record_of, lease_of in *. simpl in *. rewrite Hs in *. simplify_eq. simpl in *.
    match goal with H1 : i64_from_u64 _ = _ |- _ => apply i64_ROk in H1 as -> end.
    by rewrite timestamp_mul. }
  match goal with H1 : update_job _ _ _ d = _ |- _ =>
    destruct (update_job_rep _ _ _ _ j' _ _ _ _ R Hm H1) as (_ & E2 & R2); [done| |done|done|] end.
  { subst j'. unfold row_of at 1. simpl. rewrite Hc1, Hc2, Hc3, Hs. unfold row_of. simpl.
    rewrite Hn, Hfail. f_equal. rewrite bool_decide_false by (by destruct p).
    rewrite bool_decide_false; [done|]. by rewrite <- (Hn (adv_worker_id q) u). }
  match goal with H1 : load_required _ _ = _ |- _ =>
    apply (load_required_rep _ _ _ _ _ R2) in H1 as (-> & j0 & Hj0 & _ & ->) end.
  rewrite lookup_insert_eq in Hj0. injection Hj0 as <-.
  match goal with H1 : insert_advance_receipt _ _ _ _ _ = _ |- _ =>
    apply insert_advance_inv in H1 as [Hnone ->] end.
  rewrite E2 in Hnone. simpl in Hnone.
  exists j, u. cbv zeta. split_and!; try done; [|by rewrite E2..].
  split; [by rewrite E2 in R2|].
  assert (n = state (record_of (adv_job q) j')) as -> by (symmetry; apply Hn).
  apply receipts_ok_advance.
  - apply (receipts_ok_mono d m); [by rewrite E2..| |done]. by eapply spec_kept_insert.
  - apply record_receipt_ok; try done. exists j'. by rewrite lookup_insert_eq.
Qed.
End advance.

(** An operation that only changes the [jobs] table. *)
Lemma coord_inv_jobs d d' m m' :
  d' = d <| jobs := jobs d' |> → represents (jobs d') m' → spec_kept m m' →
  coord_inv d m → coord_inv d' m'.
Proof.
  intros E R Hk [_ RC]. split; [done|]. apply (receipts_ok_mono d m); [by rewrite E..|done|done].
Qed.

Lemma heartbeat_success q now d m r d' :
  coord_inv d m → calendar now → 1 ≤ lease_ttl_ms limits →
  heartbeat limits q now d = ROk (r, d') →
  ∃ j p u u', let k := key_of (hb_job q) in
    m !! k = Some j ∧ spec_kind (a_spec j) = ref_kind (hb_job q)
    ∧ a_status j = Held p (hb_worker_id q) u ∧ a_claims j = hb_generation q
    ∧ live now u ∧ live now (a_deadline j) ∧ live now u' ∧ u' ≤ a_deadline j
    ∧ let j' := set_status now (Held p (hb_worker_id q) u') j in
      coord_inv d' (<[k := j']> m) ∧ r = record_of (hb_job q) j' ∧ d' = d <| jobs := jobs d' |>.
Proof.
  intros [R RC] Hcal Httl H. unfold heartbeat in H. tx_inv.
  match goal with H1 : lease_expiry _ _ = _ |- _ => destruct (bounded_after_inv _ _ _ H1) as [Hexp ->] end.
  match goal with H1 : load_required _ d = _ |- _ =>
    apply (load_required_rep _ _ _ _ _ R) in H1 as (-> & j & Hm & Hkind & ->) end.
  match goal with H1 : check_authority _ _ _ _ _ = _ |- _ =>
    apply check_authority_inv in H1 as (-> & p & u & Hs & Hg & Hlu & Hld) end.
  destruct (rep_jobs _ _ R _ _ Hm) as [Hkey V]. pose proof (v_status j V) as Vs. rewrite Hs in Vs.
  set (u' := lease_until now j). destruct (lease_until_ok now j Hexp V) as [Hcu Hud].
  set (j' := set_status now (Held p (hb_worker_id q) u') j).
  assert (valid j') as V'.
  { apply valid_set_status; [done..|]. split_and!; [tauto|done|done]. }
  match goal with H1 : update_job _ _ _ d = _ |- _ =>
    destruct (update_job_rep _ _ _ _ j' _ _ _ _ R Hm H1) as (_ & E2 & R2); [done| |done|done|] end.
  { subst j'. unfold row_of. simpl. by rewrite Hs. }
  match goal with H1 : load_required _ _ = _ |- _ =>
    apply (load_required_rep _ _ _ _ _ R2) in H1 as (-> & j0 & Hj0 & _ & ->) end.
  rewrite lookup_insert_eq in Hj0. injection Hj0 as <-.
  exists j, p, u, u'. cbv zeta. split_and!; try done.
  - by apply lease_until_live.
  - eapply coord_inv_jobs; [done..| |by split]. by eapply spec_kept_insert.
Qed.

Lemma fail_success q now d m r d' :
  coord_inv d m → calendar now → fail_job q now d = ROk (r, d') →
  (load_failure_receipt q d = ROk (Some r) ∧ d' = d)
  ∨ ∃ j p u, let k := key_of (fl_job q) in
      m !! k = Some j ∧ spec_kind (a_spec j) = ref_kind (fl_job q)
      ∧ a_status j = Held p (fl_worker_id q) u ∧ a_claims j = fl_generation q
      ∧ live now u ∧ live now (a_deadline j)
      ∧ let retry := retryable q && (a_claims j <? a_max j) && bool_decide (p ≠ PPublishing) in
        let j' := set_status now (if retry then Waiting (Some (fl_failure_code q))
                                  else Dead (fl_failure_code q)) j in
        coord_inv d' (<[k := j']> m) ∧ r = record_of (fl_job q) j'
        ∧ advance_receipts d' = advance_receipts d
        ∧ failure_receipts d !! failure_key_of q (fl_generation q) = None
        ∧ failure_receipts d' = <[failure_key_of q (fl_generation q) := to_vec r]> (failure_receipts d).
Proof.
  intros [R RC] Hcal H. unfold fail_job in H.
  apply tx_bind_ROk in H as (? & ? & H1 & H). apply require_ROk in H1 as [_ ->].
  apply tx_bind_ROk in H as (replayed & ? & H1 & H). apply fetch_ROk in H1 as [Hrep ->].
  destruct replayed as [r0|]; [left; by tx_inv|right]. tx_inv.
  match goal with H1 : load_required _ d = _ |- _ =>
    apply (load_required_rep _ _ _ _ _ R) in H1 as (-> & j & Hm & Hkind & ->) end.
  match goal with H1 : check_authority _ _ _ _ _ = _ |- _ =>
    apply check_authority_inv in H1 as (-> & p & u & Hs & Hg & Hlu & Hld) end.
  cbn [state record_of attempt max_attempts] in *. rewrite Hs in *.
  destruct (rep_jobs _ _ R _ _ Hm) as [Hkey V]. rewrite (attempt_held _ _ _ _ V Hs) in *.
  set (retry := retryable q && (a_claims j <? a_max j) && bool_decide (p ≠ PPublishing)).
  set (s' := if retry then Waiting (Some (fl_failure_code q)) else Dead (fl_failure_code q)).
  set (j' := set_status now s' j).
  assert (valid j') as V'.
  { apply valid_set_status; [done..|]. subst s'. destruct retry eqn:Er; [|done]. subst retry.
    rewrite !andb_true_iff, Z.ltb_lt in Er. tauto. }
  match goal with H1 : update_job _ _ _ d = ROk (?c, _) |- _ =>
    destruct (update_job_rep _ _ _ _ j' _ _ _ _ R Hm H1) as (_ & E2 & R2); [| |done|done|] end.
  { match goal with H1 : update_job _ _ _ d = _ |- _ =>
      by destruct (update_job_inv _ _ _ _ _ _ _ _ R Hm H1) as [(-> & _)|(_ & [=] & _)] end. }
  { subst j'. rewrite <- (finish_row_of s' (Some (fl_failure_code q)));
      [|rewrite Hs; by destruct p|by subst s'; destruct retry|by subst s'; destruct retry
       |by subst s'; destruct retry].
    f_equal. subst s' retry. by destruct (retryable q), (a_claims j <? a_max j), p. }
  match goal with H1 : load_required _ _ = _ |- _ =>
    apply (load_required_rep _ _ _ _ _ R2) in H1 as (-> & j0 & Hj0 & _ & ->) end.
  rewrite lookup_insert_eq in Hj0. injection Hj0 as <-.
  match goal with H1 : insert_failure_receipt _ _ _ = _ |- _ =>
    apply insert_failure_inv in H1 as [Hnone ->] end.
  rewrite E2 in Hnone. simpl in Hnone.
  exists j, p, u. cbv zeta. split_and!; try done; [|by rewrite E2..].
  split; [by rewrite E2 in R2|]. apply receipts_ok_failure.
  - apply (receipts_ok_mono d m); [by rewrite E2..| |done]. by eapply spec_kept_insert.
  - apply record_receipt_ok; try done. exists j'. by rewrite lookup_insert_eq.
  - simpl. subst s'. destruct retry; simpl; auto.
  - simpl. by subst s'; destruct retry.
Qed.

Lemma cancel_success q now d m r d' :
  coord_inv d m → calendar now → cancel q now d = ROk (r, d') →
  ∃ j, let k := key_of (can_job q) in
    m !! k = Some j ∧ spec_kind (a_spec j) = ref_kind (can_job q) ∧ d' = d <| jobs := jobs d' |>
    ∧ ((is_terminal (state_of (a_status j)) = true ∧ d' = d ∧ r = record_of (can_job q) j)
       ∨ (is_terminal (state_of (a_status j)) = false
          ∧ (∀ e, expected_state q = Some e → e = state_of (a_status j))
          ∧ let j' := set_status now Withdrawn j in
            coord_inv d' (<[k := j']> m) ∧ r = record_of (can_job q) j')).
Proof.
  intros [R RC] Hcal H. unfold cancel in H. tx_inv.
  match goal with H1 : load_required _ d = _ |- _ =>
    apply (load_required_rep _ _ _ _ _ R) in H1 as (-> & j & Hm & Hkind & ->) end.
  exists j. cbn [state record_of] in H. cbv zeta.
  case_bool_decide as Hc. { tx_inv. subst. rewrite Hc. split_and!; [done..|by destruct d|by left]. }
  destruct (match expected_state q with Some e => _ | None => _ end) eqn:He; [tx_inv|].
  destruct (is_terminal _) eqn:Ht. { tx_inv. subst. split_and!; [done..|by destruct d|by left]. }
  tx_inv. destruct (rep_jobs _ _ R _ _ Hm) as [Hkey V].
  set (j' := set_status now Withdrawn j).
  assert (valid j') as V' by (by apply valid_set_status).
  match goal with H1 : update_job _ _ _ d = ROk (?c, _) |- _ =>
    destruct (update_job_rep _ _ _ _ j' _ _ _ _ R Hm H1) as (_ & E2 & R2); [| |done|done|] end.
  { match goal with H1 : update_job _ _ _ d = _ |- _ =>
      by destruct (update_job_inv _ _ _ _ _ _ _ _ R Hm H1) as [(-> & _)|(_ & [=] & _)] end. }
  { done. }
  match goal with H1 : load_required _ _ = _ |- _ =>
    apply (load_required_rep _ _ _ _ _ R2) in H1 as (-> & j0 & Hj0 & _ & ->) end.
  rewrite lookup_insert_eq in Hj0. injection Hj0 as <-.
  split_and!; try done. right. split_and!; try done.
  - intros e Ee. rewrite Ee in He. apply bool_decide_eq_false in He.
    by destruct (decide (e = state_of (a_status j))).
  - eapply coord_inv_jobs; [done..| |by split]. by eapply spec_kept_insert.
Qed.

(** ** Submission *)
Lemma submit_validate_inv q :
  submit_validate q = ROk tt →
  spec_validate (sub_job q) = ROk tt ∧ sub_project q = spec_project (sub_job q).
Proof.
  unfold submit_validate. intros H. tx_inv. case_bool_decide as Hp; [done|].
  destruct (decide (sub_project q = spec_project (sub_job q))); [|done].
  split; [|done]. by match goal with H1 : spec_validate _ = ROk ?u |- _ => destruct u end.
Qed.
Lemma fresh_valid q now deadline :
  limits_typed limits → calendar now → job_deadline limits now = ROk deadline →
  spec_validate (sub_job q) = ROk tt → remote_id_ok (value (idempotency_key_of (sub_job q))) = true →
  valid (fresh_job limits q now) ∧ timestamp_millis deadline = a_deadline (fresh_job limits q now).
Proof.
  intros (Hm & _ & Hdur) Hn Hd Hs Hid. apply bounded_after_inv in Hd as [Hc ->].
  rewrite timestamp_add. split; [|done]. pose proof (calendar_floor _ Hc) as Hf.
  rewrite timestamp_add in Hf. split; simpl; try done; try lia; by apply calendar_floor.
Qed.

Lemma insert_job_inv k row d u d' :
  insert_job k row d = ROk (u, d') → jobs d !! k = None ∧ d' = d <| jobs := <[k := row]> (jobs d) |>.
Proof.
  unfold insert_job. destruct (jobs d !! k) eqn:E; [done|]. simpl.
  destruct (existsb _ _); [done|]. destruct (_ || _); [done|]. by intros [= _ <-].
Qed.

Lemma submit_success q now d m r d' :
  coord_inv d m → calendar now → limits_typed limits → submit limits q now d = ROk (r, d') →
  spec_validate (sub_job q) = ROk tt ∧ sub_project q = spec_project (sub_job q)
  ∧ project_has_deletion_tombstone d (sub_project q) = false ∧
  ∃ ref, let k := key_of ref in
    k = (project_key (sub_project q), value (idempotency_key_of (sub_job q)))
    ∧ ((∃ j, m !! k = Some j ∧ a_spec j = sub_job q ∧ d' = d ∧ r = record_of ref j)
       ∨ (m !! k = None ∧ k = ajob_key (fresh_job limits q now)
          ∧ coord_inv d' (<[k := fresh_job limits q now]> m)
          ∧ r = record_of ref (fresh_job limits q now) ∧ d' = d <| jobs := jobs d' |>)).
Proof.
  intros [R RC] Hn Hl H. unfold submit in H.
  apply tx_bind_ROk in H as ([] & ? & H1 & H). tx_inv.
  match goal with H1 : submit_validate _ = _ |- _ => apply submit_validate_inv in H1 as [Hs Hp] end.
  destruct (project_has_deletion_tombstone _ _) eqn:Ht; [tx_inv|].
  match goal with H1 : remote_id_new _ _ = ROk ?i |- _ =>
    pose proof (remote_id_new_ROk _ _ _ H1) as Hid; pose proof (proj2_dsig i) as Hok; cbn beta in Hok end.
  match type of Hid with remote_str ?i = _ =>
    set (ref := IndexJobRef_ (sub_project q) i (spec_kind (sub_job q))) in * end.
  split_and!; [done..|]. exists ref. cbv zeta.
  assert (key_of ref = (project_key (sub_project q), value (idempotency_key_of (sub_job q)))) as Hk.
  { unfold key_of. simpl. by rewrite Hid. }
  split; [done|]. tx_inv. subst. rewrite (load_record_rep _ m) in * by done.
  destruct (m !! key_of ref) as [j|] eqn:Hm.
  - left. exists j. case_bool_decide; [done|]. tx_inv. subst. simpl in *.
    case_bool_decide as Hne; tx_inv. by subst.
  - right. tx_inv. subst. tx_inv.
    match goal with H1 : job_deadline _ _ = _ |- _ =>
      destruct (fresh_valid q _ _ Hl Hn H1 Hs) as [V Ed]; [by rewrite <- Hid|] end.
    assert (key_of ref = ajob_key (fresh_job limits q now)) as Hk'.
    { rewrite Hk. unfold ajob_key. simpl. by rewrite <- Hp. }
    match goal with H1 : insert_job _ _ _ = _ |- _ => apply insert_job_inv in H1 as [Hfree ->] end.
    rewrite Ed in *.
    pose proof (represents_fresh (jobs d) m _ R V) as R2. rewrite <- Hk' in R2.
    match goal with H1 : load_required _ _ = _ |- _ =>
      apply (load_required_rep _ (<[key_of ref := fresh_job limits q now]> m)) in H1
        as (-> & j0 & Hj0 & _ & ->); [|exact R2] end.
    rewrite lookup_insert_eq in Hj0. injection Hj0 as <-.
    split_and!; try done. eapply coord_inv_jobs; [done|exact R2| |by split].
    intros k j Hj. exists j. split; [|done]. rewrite lookup_insert_ne; [done|]. congruence.
Qed.
End proofs.
