(* ===== verification/CoordinatorTheorems.v ===== *)
(** What the coordinator guarantees to its callers, over any sequence of
    requests at any instants: the simulation by the abstract job machine and
    the properties that follow from it. *)
From S2P Require Import Prelude View Chrono Transact Wire Identity Protocol Coordinator Coordination CoordinatorProofs.

Section theorems.
Context {JT : JsonText} {SH : Sha256} {CH : Chrono} {TT : TimeText}.
Context {JTL : JsonTextLaws} {TTL : TimeTextLaws calendar} {CM : ChronoMillis}.
Context (limits : CoordinatorLimits).

(** The database after a request, whether it succeeded or not. *)
Definition perform (q : request) (now : Z) (d : coord_db) : coord_db :=
  match q with
  | RSubmit q => (commit (submit limits q now) d).2
  | RClaim q => (commit (claim limits q now) d).2
  | RStart q => (commit (start q now) d).2
  | RHeartbeat q => (commit (heartbeat limits q now) d).2
  | RBeginPublication q => (commit (begin_publication q now) d).2
  | RComplete q => (commit (complete q now) d).2
  | RFail q => (commit (fail_job q now) d).2
  | RCancel q => (commit (cancel q now) d).2
  | RReclaim q => (commit (reclaim q now) d).2
  end.

Lemma commit_cases {A} (m : tx coord_db CoordinatorError A) d (P : coord_db → Prop) :
  P d → (∀ a d', m d = ROk (a, d') → P d') → P (commit m d).2.
Proof. intros Hd Hm. unfold commit. destruct (m d) as [[a d']|e] eqn:E; [by eapply Hm|done]. Qed.

(** ** One request *)
Definition simulated (q : request) (now : Z) (d : coord_db) (m : gmap job_key ajob) (d' : coord_db) : Prop :=
  ∃ m', coord_inv d' m' ∧ ∀ k, evolves limits q now k (m !! k) (m' !! k).

Lemma simulated_same q now d m : coord_inv d m → simulated q now d m d.
Proof. intros I. exists m. split; [done|]. intros k. apply evolves_refl. Qed.
Lemma simulated_step q now d m d' k j j' e :
  coord_inv d' (<[k := j']> m) → m !! k = Some j → may_do q k e → jstep now e j j' →
  simulated q now d m d'.
Proof. intros I Hm He Hj. eexists. split; [exact I|]. intros k'. by eapply evolves_step. Qed.

Lemma simulated_commit {A} (f : tx coord_db CoordinatorError A) q now d m :
  coord_inv d m → (∀ a d', f d = ROk (a, d') → simulated q now d m d') →
  simulated q now d m (commit f d).2.
Proof. intros I Hf. apply commit_cases; [by apply simulated_same|done]. Qed.

Lemma start_simulated q now d m :
  coord_inv d m → calendar now → simulated (RStart q) now d m (perform (RStart q) now d).
Proof.
  intros I Hn. cbn [perform]. apply simulated_commit; [done|]. intros r d' H.
  eapply (transition_success PLeased (λ w u, Held PRunning w u) false) in H;
    [|done..]. destruct H as [[_ ->]|(j & u & Hm & _ & Hs & Hg & Hl & Hd & I' & _)];
    [by apply simulated_same|]. cbv zeta in *.
  eapply simulated_step; [exact I'|exact Hm| |by eapply J_start]. simpl. by rewrite Hg.
Qed.
Lemma publication_simulated q now d m :
  coord_inv d m → calendar now →
  simulated (RBeginPublication q) now d m (perform (RBeginPublication q) now d).
Proof.
  intros I Hn. cbn [perform]. apply simulated_commit; [done|]. intros r d' H.
  eapply (transition_success PRunning (λ w u, Held PPublishing w u) false) in H;
    [|done..]. destruct H as [[_ ->]|(j & u & Hm & _ & Hs & Hg & Hl & Hd & I' & _)];
    [by apply simulated_same|]. cbv zeta in *.
  eapply simulated_step; [exact I'|exact Hm| |by eapply J_publish]. simpl. by rewrite Hg.
Qed.
Lemma complete_simulated q now d m :
  coord_inv d m → calendar now → simulated (RComplete q) now d m (perform (RComplete q) now d).
Proof.
  intros I Hn. cbn [perform]. apply simulated_commit; [done|]. intros r d' H.
  eapply (transition_success PPublishing (λ w u, Finished) true) in H;
    [|done..]. destruct H as [[_ ->]|(j & u & Hm & _ & Hs & Hg & Hl & Hd & I' & _)];
    [by apply simulated_same|]. cbv zeta in *.
  eapply simulated_step; [exact I'|exact Hm| |by eapply J_complete]. simpl. by rewrite Hg.
Qed.
Lemma heartbeat_simulated q now d m :
  coord_inv d m → calendar now → limits_typed limits →
  simulated (RHeartbeat q) now d m (perform (RHeartbeat q) now d).
Proof.
  intros I Hn (_ & Httl & _). cbn [perform]. apply simulated_commit; [done|]. intros r d' H.
  eapply heartbeat_success in H; [|done|done|lia].
  destruct H as (j & p & u & u' & Hm & _ & Hs & Hg & Hl & Hd & Hl' & Hu' & I' & _). cbv zeta in *.
  eapply simulated_step; [exact I'|exact Hm| |by eapply J_heartbeat]. simpl. by rewrite Hg.
Qed.
Lemma fail_simulated q now d m :
  coord_inv d m → calendar now → simulated (RFail q) now d m (perform (RFail q) now d).
Proof.
  intros I Hn. cbn [perform]. apply simulated_commit; [done|]. intros r d' H.
  eapply fail_success in H; [|done..].
  destruct H as [[_ ->]|(j & p & u & Hm & _ & Hs & Hg & Hl & Hd & I' & _)]; [by apply simulated_same|].
  cbv zeta in *.
  eapply (simulated_step _ _ _ _ _ _ _ _ (EFail (fl_worker_id q) (a_claims j) (fl_failure_code q) (retryable q)));
    [exact I'|exact Hm|done|].
  destruct (retryable q) eqn:Er; simpl; [|by eapply J_fail].
  destruct (Z.ltb_spec (a_claims j) (a_max j)); simpl; [|eapply J_fail; eauto].
  case_bool_decide as Hp; [by eapply J_retry|]. eapply J_fail; try done. intros _. left.
  by destruct (decide (p = PPublishing)).
Qed.
Lemma cancel_simulated q now d m :
  coord_inv d m → calendar now → simulated (RCancel q) now d m (perform (RCancel q) now d).
Proof.
  intros I Hn. cbn [perform]. apply simulated_commit; [done|]. intros r d' H.
  eapply cancel_success in H; [|done..].
  destruct H as (j & Hm & _ & _ & [(_ & -> & _)|(Ht & _ & I' & _)]); [by apply simulated_same|].
  cbv zeta in *. eapply (simulated_step _ _ _ _ _ _ _ _ ECancel); [exact I'|exact Hm|done|by constructor].
Qed.
Lemma reclaim_simulated q now d m :
  coord_inv d m → calendar now → simulated (RReclaim q) now d m (perform (RReclaim q) now d).
Proof.
  intros I Hn. cbn [perform]. apply simulated_commit; [done|]. intros r d' H.
  unfold reclaim in H. tx_inv. destruct (reclaim_rep _ _ _ _ _ _ (ci_rep _ _ I) Hn H) as [E R].
  exists (swept (rc_project q) now m). split; [eapply coord_inv_jobs; eauto using swept_kept|].
  intros k. eapply swept_evolves; [apply I|done].
Qed.
Lemma claim_simulated q now d m :
  coord_inv d m → calendar now → limits_typed limits →
  simulated (RClaim q) now d m (perform (RClaim q) now d).
Proof.
  intros I Hn (_ & Httl & _). cbn [perform]. apply simulated_commit; [done|]. intros o d' H.
  eapply claim_success in H; [|apply I|done|lia]. cbv zeta in H.
  assert (∀ k, evolves limits (RClaim q) now k (m !! k) (swept (cl_project q) now m !! k)) as Hsw.
  { intros k. eapply swept_evolves; [apply I|done]. }
  destruct H as [E H]. destruct o as [r|].
  2: { destruct H as [R _]. exists (swept (cl_project q) now m).
       split; [eapply coord_inv_jobs; eauto using swept_kept|done]. }
  destruct H as (k & j & c & u & ref & Hm & Hs & Hp & Hkind & Hk & Hld & Hlu & Hu & V & R & _).
  eexists. split.
  - eapply coord_inv_jobs; [exact E|exact R| |exact I]. intros k0 j0 Hj0.
    destruct (swept_kept (cl_project q) now m _ _ Hj0) as (j1 & Hj1 & Hs1).
    destruct (spec_kept_insert _ _ _ (claimed now (cl_worker_id q) u j) Hm eq_refl _ _ Hj1) as (j2 & Hj2 & Hs2).
    exists j2. split; [done|]. by rewrite Hs2.
  - intros k'. assert (Hev : evolves limits (RClaim q) now k' (swept (cl_project q) now m !! k')
        (<[k := claimed now (cl_worker_id q) u j]> (swept (cl_project q) now m) !! k')).
    { pose proof (v_claims _ V) as Hc. simpl in Hc.
      eapply evolves_step; [exact Hm| |eapply (J_claim now j (cl_worker_id q) c u); try done; lia]. done. }
    destruct (m !! k') as [j0|] eqn:E0.
    + eapply evolves_trans; [|done|exact Hev]. rewrite <- E0. apply Hsw.
    + rewrite lookup_insert_ne; [by rewrite lookup_swept, E0|]. intros ->.
      by rewrite lookup_swept, E0 in Hm.
Qed.
Lemma submit_simulated q now d m :
  coord_inv d m → calendar now → limits_typed limits →
  simulated (RSubmit q) now d m (perform (RSubmit q) now d).
Proof.
  intros I Hn Hl. cbn [perform]. apply simulated_commit; [done|]. intros r d' H.
  eapply submit_success in H; [|done..].
  destruct H as (_ & _ & _ & ref & _ & [(j & _ & _ & -> & _)|(Hm & Hk & I' & _)]); [by apply simulated_same|].
  cbv zeta in *. eexists. split; [exact I'|]. intros k. destruct (decide (k = key_of ref)) as [->|Hne].
  - rewrite Hm, lookup_insert_eq. simpl. eauto.
  - rewrite lookup_insert_ne by done. apply evolves_refl.
Qed.

Lemma perform_simulated q now d m :
  limits_typed limits → calendar now → coord_inv d m → simulated q now d m (perform q now d).
Proof.
  intros Hl Hn I. destruct q;
    [by apply submit_simulated|by apply claim_simulated|by apply start_simulated
    |by apply heartbeat_simulated|by apply publication_simulated|by apply complete_simulated
    |by apply fail_simulated|by apply cancel_simulated|by apply reclaim_simulated].
Qed.

(** ** Sequences of requests *)
Definition history : Type := list (request * Z).
Fixpoint run (t : history) (d : coord_db) : coord_db :=
  match t with [] => d | (q, now) :: t => run t (perform q now d) end.
(** The same requests, answered by the abstract machine job by job. *)
Fixpoint machine_runs (t : history) (m m' : gmap job_key ajob) : Prop :=
  match t with
  | [] => m' = m
  | (q, now) :: t => ∃ m1, (∀ k, evolves limits q now k (m !! k) (m1 !! k)) ∧ machine_runs t m1 m'
  end.
Definition timely (t : history) : Prop := Forall (λ qn : request * Z, calendar qn.2) t.

Lemma run_app (t t' : history) d : run (t ++ t')%list d = run t' (run t d).
Proof. revert d. induction t as [|[q now] t IH]; intros d; simpl; [done|apply IH]. Qed.

Lemma empty_inv : coord_inv empty_db ∅.
Proof.
  split; [split|split]; simpl; try done; try apply map_eq; intros; rewrite ?lookup_fmap, ?lookup_empty in *; done.
Qed.
Lemma run_simulated t d m :
  limits_typed limits → timely t → coord_inv d m → ∃ m', machine_runs t m m' ∧ coord_inv (run t d) m'.
Proof.
  intros Hl Ht. revert d m. induction Ht as [|[q now] t Hn _ IH]; intros d m I; simpl; [eauto|].
  destruct (perform_simulated q now d m Hl Hn I) as (m1 & I1 & Hev).
  destruct (IH _ _ I1) as (m' & Hr & I'). eauto.
Qed.
Lemma run_inv t : limits_typed limits → timely t → ∃ m, machine_runs t ∅ m ∧ coord_inv (run t empty_db) m.
Proof. intros Hl Ht. apply run_simulated; [done..|apply empty_inv]. Qed.

(** C6. Refinement: whatever requests reach the coordinator, in whatever
    order and at whatever instants, the SQLite tables simulate the abstract job
    machine, each request causing on each job only the events its kind and the
    worker and generation it names allow; and inspecting any job afterwards
    reports exactly the abstract job, never a corrupt or inconsistent record. *)
Theorem coordinator_refines_job_machine t :
  limits_typed limits → timely t →
  ∃ m, machine_runs t ∅ m ∧
  ∀ q, ins_version q = DISTRIBUTED_CONTROL_PROTOCOL_VERSION →
    inspect q (run t empty_db) =
      match m !! key_of (ins_job q) with
      | None => ROk None
      | Some j => if bool_decide (spec_kind (a_spec j) ≠ ref_kind (ins_job q)) then RErr NotFound
                  else ROk (Some (record_of (ins_job q) j))
      end.
Proof.
  intros Hl Ht. destruct (run_inv t Hl Ht) as (m & Hr & [R _]). exists m. split; [done|].
  intros q Hq. unfold inspect, inspect_validate, validate_control_version.
  rewrite bool_decide_true by done. simpl. by apply load_record_rep.
Qed.

(** ** Fencing *)
Definition acts_as (q : request) : option (IndexJobRef * WorkerId * Z) :=
  match q with
  | RStart q | RBeginPublication q | RComplete q => Some (adv_job q, adv_worker_id q, adv_generation q)
  | RHeartbeat q => Some (hb_job q, hb_worker_id q, hb_generation q)
  | RFail q => Some (fl_job q, fl_worker_id q, fl_generation q)
  | _ => None
  end.

Lemma commit_unchanged {A} (f : tx coord_db CoordinatorError A) d :
  (∀ a d', f d = ROk (a, d') → d' = d) → (commit f d).2 = d.
Proof. intros Hf. by apply commit_cases. Qed.

Lemma holder_record d m ref j p w u :
  coord_inv d m → m !! key_of ref = Some j → spec_kind (a_spec j) = ref_kind ref →
  a_status j = Held p w u →
  load_record ref d = ROk (Some (record_of ref j))
  ∧ lease (record_of ref j) = Some (JobLease_ w (a_claims j) (u * millis)).
Proof.
  intros [R _] Hm Hk Hs. rewrite (load_record_rep _ m), Hm, bool_decide_false by tauto.
  split; [done|]. simpl. unfold lease_of. by rewrite Hs.
Qed.

(** C12. Fencing: a worker that starts, publishes, completes, fails or renews
    a job without holding its current lease (another worker's lease, an older
    generation, an expired lease, no lease) changes nothing in the database,
    after any history of requests. *)
Theorem stale_worker_is_fenced t q now ref w g :
  limits_typed limits → timely t → calendar now → acts_as q = Some (ref, w, g) →
  (∀ r l, load_record ref (run t empty_db) = ROk (Some r) → lease r = Some l →
     lease_worker l = w → lease_generation l = g → lease_expires_at l ≤ now) →
  perform q now (run t empty_db) = run t empty_db.
Proof.
  intros Hl Ht Hn Hq Hlost. destruct (run_inv t Hl Ht) as (m & _ & I).
  revert I Hlost. generalize (run t empty_db) as d. intros d I Hlost.
  assert (∀ j p u, m !! key_of ref = Some j → spec_kind (a_spec j) = ref_kind ref →
            a_status j = Held p w u → a_claims j = g → live now u → False) as Hno.
  { intros j p u Hm Hk Hs Hg Hu. destruct (holder_record d m ref j p w u I Hm Hk Hs) as [H1 H2].
    specialize (Hlost _ _ H1 H2 eq_refl Hg). unfold live in Hu. simpl in Hlost. lia. }
  destruct q; simpl in Hq; simplify_eq; cbn [perform]; apply commit_unchanged; intros r d' H.
  - eapply (transition_success PLeased (λ w u, Held PRunning w u) false) in H; naive_solver.
  - eapply heartbeat_success in H; [|done|done|unfold limits_typed in Hl; lia]. naive_solver.
  - eapply (transition_success PRunning (λ w u, Held PPublishing w u) false) in H; naive_solver.
  - eapply (transition_success PPublishing (λ w u, Finished) true) in H; naive_solver.
  - eapply fail_success in H; naive_solver.
Qed.

(** ** Lost answers *)
Inductive advance : Type := AStart | ABegin | AComplete.
Definition run_advance (a : advance) (q : AdvanceIndexJobRequest) (now : Z) :
  tx coord_db CoordinatorError IndexJobRecord :=
  match a with AStart => start q now | ABegin => begin_publication q now | AComplete => complete q now end.
Definition advance_from (a : advance) : phase :=
  match a with AStart => PLeased | ABegin => PRunning | AComplete => PPublishing end.
Definition advance_to (a : advance) : IndexJobState :=
  match a with AStart => Running | ABegin => Publishing | AComplete => Complete end.
(** Requests that describe the same operation: transports may assign a new
    request id when they retry. *)
Definition same_advance (q q' : AdvanceIndexJobRequest) : Prop :=
  adv_version q' = adv_version q ∧ adv_job q' = adv_job q ∧ adv_worker_id q' = adv_worker_id q
  ∧ adv_generation q' = adv_generation q.
Definition same_failure (q q' : FailIndexJobRequest) : Prop :=
  fl_version q' = fl_version q ∧ fl_job q' = fl_job q ∧ fl_worker_id q' = fl_worker_id q
  ∧ fl_generation q' = fl_generation q ∧ fl_failure_code q' = fl_failure_code q
  ∧ retryable q' = retryable q.

Lemma transition_inv q e n now c d r d' :
  transition_with_lease q e n now c d = ROk (r, d') →
  validate_version (adv_version q) = true ∧ can_transition_to e n = true
  ∧ ∃ g, i64_from_u64 (adv_generation q) = ROk g.
Proof.
  unfold transition_with_lease. intros H.
  apply tx_bind_ROk in H as (? & ? & H1 & H). apply require_ROk in H1 as [Hv ->].
  apply andb_true_iff in Hv as [Hv Hc]. split_and!; [done..|].
  apply tx_bind_ROk in H as (? & ? & Hf & _). apply fetch_ROk in Hf as [Hf _].
  unfold load_advance_receipt in Hf. destruct (i64_from_u64 _); [eauto|done].
Qed.
Lemma transition_replays q e n now c d r :
  validate_version (adv_version q) = true → can_transition_to e n = true →
  load_advance_receipt q e n d = ROk (Some r) → transition_with_lease q e n now c d = ROk (r, d).
Proof.
  intros Hv Hc Hl. unfold transition_with_lease. rewrite Hv, Hc.
  rewrite (tx_bind_run _ _ _ tt d) by done. by rewrite (tx_bind_run _ _ _ (Some r) d); [|unfold fetch; rewrite Hl].
Qed.
Lemma load_advance_written q e d r g :
  i64_from_u64 (adv_generation q) = ROk g →
  advance_receipts d !! advance_key_of q e (state r) (adv_generation q) = Some (to_vec r) →
  record_typed calendar r → record_validate r = ROk tt → job r = adv_job q →
  load_advance_receipt q e (state r) d = ROk (Some r).
Proof.
  intros Hg Hr Ht Hv Hj. unfold load_advance_receipt. rewrite Hg. simpl.
  pose proof (i64_ROk _ _ Hg) as ->. rewrite Hr, from_slice_to_vec by done. simpl.
  rewrite Hv, !bool_decide_false by tauto. done.
Qed.
(** A successful advance leaves its receipt. *)
Lemma run_advance_receipt a q now d m r d' :
  coord_inv d m → calendar now → run_advance a q now d = ROk (r, d') →
  validate_version (adv_version q) = true ∧
  load_advance_receipt q (phase_state (advance_from a)) (advance_to a) d' = ROk (Some r).
Proof.
  intros I Hn H.
  assert (∃ c s', transition_with_lease q (phase_state (advance_from a)) (advance_to a) now c d = ROk (r, d')
    ∧ (∀ w u, lease_cols (s' w u) = if c : bool then (None, None) else (Some (remote_str w), Some u))
    ∧ (∀ w u, failure_of (s' w u) = None) ∧ (∀ w u, state_of (s' w u) ≠ Cancelled)
    ∧ (∀ w u, match s' w u with Waiting _ => False | Held _ w' u' => w' = w ∧ u' = u | _ => True end)
    ∧ (∀ w u, state_of (s' w u) = advance_to a)) as (c & s' & Ht & H1 & H2 & H3 & H4 & H5).
  { destruct a; [exists false, (λ w u, Held PRunning w u)|exists false, (λ w u, Held PPublishing w u)
                |exists true, (λ w u, Finished)]; done. }
  destruct (transition_inv _ _ _ _ _ _ _ _ Ht) as (Hv & _ & g & Hg). split; [done|].
  eapply (transition_success _ s' c) in Ht; [|done..].
  destruct Ht as [[Hl ->]|(j & u & Hm & Hk & Hs & Hgen & _ & _ & I' & Hr & _ & _ & Hrec)]; [done|].
  cbv zeta in *. destruct (rep_jobs _ _ (ci_rep _ _ I') (key_of (adv_job q))
    (set_status now (s' (adv_worker_id q) u) j)) as [Hkey V']; [by rewrite lookup_insert_eq|].
  assert (state r = advance_to a) as Hst by (rewrite Hr; apply H5). rewrite <- Hst in Hrec |- *.
  apply (load_advance_written _ _ _ _ g); [done|by rewrite Hrec, lookup_insert_eq|..]; rewrite Hr.
  - by apply record_of_typed.
  - apply record_of_validates; eauto using key_of_ajob.
  - by apply record_of_job.
Qed.
Lemma load_advance_mono q q' e n d d' r :
  advance_receipts d ⊆ advance_receipts d' → same_advance q q' →
  load_advance_receipt q e n d = ROk (Some r) → load_advance_receipt q' e n d' = ROk (Some r).
Proof.
  intros Hsub (_ & Hj & Hw & Hg). unfold load_advance_receipt, advance_key_of. rewrite Hj, Hw, Hg.
  destruct (i64_from_u64 _) as [g|]; [|done]. simpl.
  destruct (advance_receipts d !! _) as [t|] eqn:E; [|done]. by rewrite (lookup_weaken _ _ _ _ E Hsub).
Qed.

Lemma perform_receipts q now d m :
  limits_typed limits → calendar now → coord_inv d m →
  advance_receipts d ⊆ advance_receipts (perform q now d)
  ∧ failure_receipts d ⊆ failure_receipts (perform q now d).
Proof.
  intros Hl Hn I. assert (1 ≤ lease_ttl_ms limits) as Httl by (unfold limits_typed in Hl; lia).
  destruct q; cbn [perform]; apply commit_cases; try done; intros r d' H.
  - eapply submit_success in H as (_ & _ & _ & ref & _ & [(j & _ & _ & -> & _)|(_ & _ & _ & _ & ->)]); done.
  - eapply claim_success in H as [-> _]; [done|apply I|done..].
  - eapply (transition_success PLeased (λ w u, Held PRunning w u) false) in H; [|done..].
    destruct H as [[_ ->]|(j & u & _ & _ & _ & _ & _ & _ & _ & _ & -> & Hf & ->)]; [done|].
    split; [by apply insert_subseteq|done].
  - eapply heartbeat_success in H; [|done..].
    destruct H as (j & p & u & u' & _ & _ & _ & _ & _ & _ & _ & _ & _ & _ & ->). done.
  - eapply (transition_success PRunning (λ w u, Held PPublishing w u) false) in H; [|done..].
    destruct H as [[_ ->]|(j & u & _ & _ & _ & _ & _ & _ & _ & _ & -> & Hf & ->)]; [done|].
    split; [by apply insert_subseteq|done].
  - eapply (transition_success PPublishing (λ w u, Finished) true) in H; [|done..].
    destruct H as [[_ ->]|(j & u & _ & _ & _ & _ & _ & _ & _ & _ & -> & Hf & ->)]; [done|].
    split; [by apply insert_subseteq|done].
  - eapply fail_success in H; [|done..].
    destruct H as [[_ ->]|(j & p & u & _ & _ & _ & _ & _ & _ & _ & _ & -> & Hf & ->)]; [done|].
    split; [done|by apply insert_subseteq].
  - eapply cancel_success in H as (j & _ & _ & -> & _); done.
  - unfold reclaim in H. tx_inv. by destruct (reclaim_rep _ _ _ _ _ _ (ci_rep _ _ I) Hn H) as [-> _].
Qed.
Lemma run_receipts t d m :
  limits_typed limits → timely t → coord_inv d m →
  advance_receipts d ⊆ advance_receipts (run t d) ∧ failure_receipts d ⊆ failure_receipts (run t d).
Proof.
  intros Hl Ht. revert d m. induction Ht as [|[q now] t Hn _ IH]; intros d m I; simpl; [done|].
  destruct (perform_simulated q now d m Hl Hn I) as (m1 & I1 & _).
  destruct (perform_receipts q now d m Hl Hn I), (IH _ _ I1). split; by etrans.
Qed.

(** A worker whose successful start, publication or completion was
    answered but lost can retry under a new request id, after any further
    requests by anybody and at any later instant: it gets the recorded answer
    and nothing changes, although its lease may be gone. *)
Theorem lost_advance_answers_are_replayed t t' a q q' now now' r d1 :
  limits_typed limits → timely t → timely t' → calendar now → same_advance q q' →
  commit (run_advance a q now) (run t empty_db) = (ROk r, d1) →
  commit (run_advance a q' now') (run t' d1) = (ROk r, run t' d1).
Proof.
  intros Hl Ht Ht' Hn Hq H%commit_ROk. destruct (run_inv t Hl Ht) as (m & _ & I).
  destruct (run_advance_receipt _ _ _ _ _ _ _ I Hn H) as [Hv Hload].
  assert (∃ m1, coord_inv d1 m1) as (m1 & I1).
  { destruct (perform_simulated (match a with AStart => RStart q | ABegin => RBeginPublication q
      | AComplete => RComplete q end) now _ m Hl Hn I) as (m1 & I1 & _).
    exists m1. replace d1 with (commit (run_advance a q now) (run t empty_db)).2; [by destruct a|].
    unfold commit. by rewrite H. }
  apply commit_ROk. destruct (run_receipts t' d1 m1 Hl Ht' I1) as [Hsub _].
  pose proof (load_advance_mono _ _ _ _ _ _ _ Hsub Hq Hload) as Hl'.
  destruct Hq as (Hver & _). rewrite <- Hver in Hv.
  destruct a; by apply transition_replays.
Qed.

Lemma fail_inv q now d r d' :
  fail_job q now d = ROk (r, d') →
  validate_version (fl_version q) = true ∧ ∃ g, i64_from_u64 (fl_generation q) = ROk g.
Proof.
  unfold fail_job. intros H.
  apply tx_bind_ROk in H as (? & ? & H1 & H). apply require_ROk in H1 as [Hv ->]. split; [done|].
  apply tx_bind_ROk in H as (? & ? & Hf & _). apply fetch_ROk in Hf as [Hf _].
  unfold load_failure_receipt in Hf. destruct (i64_from_u64 _); [eauto|done].
Qed.
Lemma fail_receipt q now d m r d' :
  coord_inv d m → calendar now → fail_job q now d = ROk (r, d') →
  load_failure_receipt q d' = ROk (Some r).
Proof.
  intros I Hn H. destruct (fail_inv _ _ _ _ _ H) as (_ & g & Hg).
  eapply fail_success in H; [|done..].
  destruct H as [[Hl ->]|(j & p & u & Hm & Hk & Hs & Hgen & _ & _ & I' & Hr & _ & _ & Hrec)]; [done|].
  cbv zeta in *. set (retry := _ && _) in *. set (j' := set_status _ _ _) in *.
  destruct (rep_jobs _ _ (ci_rep _ _ I') (key_of (fl_job q)) j') as [Hkey V']; [by rewrite lookup_insert_eq|].
  unfold load_failure_receipt. rewrite Hg. simpl. pose proof (i64_ROk _ _ Hg) as ->.
  rewrite Hrec, lookup_insert_eq, Hr.
  rewrite from_slice_to_vec by (by apply record_of_typed). simpl.
  rewrite record_of_validates by (done || by apply key_of_ajob). simpl.
  pose proof (record_of_job (fl_job q) j' Hk) as Hjob. simpl in Hjob. rewrite Hjob.
  rewrite bool_decide_false by tauto. subst j'.
  destruct retry; simpl; by rewrite bool_decide_false by tauto.
Qed.
Lemma load_failure_mono q q' d d' r :
  failure_receipts d ⊆ failure_receipts d' → same_failure q q' →
  load_failure_receipt q d = ROk (Some r) → load_failure_receipt q' d' = ROk (Some r).
Proof.
  intros Hsub (_ & Hj & Hw & Hg & Hc & Hr). unfold load_failure_receipt, failure_key_of.
  rewrite Hj, Hw, Hg, Hc, Hr. destruct (i64_from_u64 _) as [g|]; [|done]. simpl.
  destruct (failure_receipts d !! _) as [t|] eqn:E; [|done]. by rewrite (lookup_weaken _ _ _ _ E Hsub).
Qed.

(** The same for a failure report: the retry returns the recorded
    outcome and does not touch the attempt that may have begun since. *)
Theorem lost_failure_answers_are_replayed t t' q q' now now' r d1 :
  limits_typed limits → timely t → timely t' → calendar now → same_failure q q' →
  commit (fail_job q now) (run t empty_db) = (ROk r, d1) →
  commit (fail_job q' now') (run t' d1) = (ROk r, run t' d1).
Proof.
  intros Hl Ht Ht' Hn Hq H. destruct (run_inv t Hl Ht) as (m & _ & I).
  destruct (perform_simulated (RFail q) now _ m Hl Hn I) as (m1 & I1 & _).
  cbn [perform] in I1. rewrite H in I1. simpl in I1. apply commit_ROk in H.
  destruct (run_receipts t' d1 m1 Hl Ht' I1) as [_ Hsub].
  pose proof (load_failure_mono _ _ _ _ _ Hsub Hq (fail_receipt _ _ _ _ _ _ I Hn H)) as Hl'.
  destruct (fail_inv _ _ _ _ _ H) as [Hv _]. destruct Hq as (Hver & _). rewrite <- Hver in Hv.
  apply commit_ROk. unfold fail_job. rewrite Hv, (tx_bind_run _ _ _ tt (run t' d1)) by done.
  by rewrite (tx_bind_run _ _ _ (Some r) (run t' d1)); [|unfold fetch; rewrite Hl'].
Qed.

(** ** Finality *)
Lemma terminal_no_step q k now j j' :
  is_terminal (state_of (a_status j)) = true →
  rtc (λ a b, ∃ e, may_do q k e ∧ jstep now e a b) j j' → j' = j.
Proof.
  intros Ht. induction 1 as [|j1 j2 j3 (e & _ & Hs) _ IH]; [done|]. exfalso.
  destruct Hs; repeat match goal with H : a_status _ = _ |- _ => rewrite H in Ht end; try done;
    try (destruct p; done); congruence.
Qed.
Lemma run_terminal t d m k j :
  limits_typed limits → timely t → coord_inv d m → m !! k = Some j →
  is_terminal (state_of (a_status j)) = true → jobs (run t d) !! k = Some (row_of j).
Proof.
  intros Hl Ht. revert d m. induction Ht as [|[q now] t Hn _ IH]; intros d m I Hm Hterm; simpl.
  { by rewrite (rep_rows _ _ (ci_rep _ _ I)), lookup_fmap, Hm. }
  destruct (perform_simulated q now d m Hl Hn I) as (m1 & I1 & Hev). specialize (Hev k).
  rewrite Hm in Hev. destruct (m1 !! k) as [j1|] eqn:E1; [|done]. simpl in Hev.
  apply terminal_no_step in Hev as ->; [|done]. by eapply IH.
Qed.
Lemma load_record_job d m ref r :
  coord_inv d m → load_record ref d = ROk (Some r) →
  ∃ j, m !! key_of ref = Some j ∧ spec_kind (a_spec j) = ref_kind ref ∧ r = record_of ref j.
Proof.
  intros [R _]. rewrite (load_record_rep _ m) by done.
  destruct (m !! key_of ref) as [j|]; [|done]. case_bool_decide as Hk; [done|].
  intros [= <-]. eauto.
Qed.

(** Complete, failed and cancelled jobs never change again: every later
    read, after any further requests, returns the same record. *)
Theorem terminal_jobs_are_final t t' ref r :
  limits_typed limits → timely t → timely t' →
  load_record ref (run t empty_db) = ROk (Some r) → is_terminal (state r) = true →
  load_record ref (run t' (run t empty_db)) = ROk (Some r).
Proof.
  intros Hl Ht Ht' Hr Hterm. destruct (run_inv t Hl Ht) as (m & _ & I).
  destruct (load_record_job _ _ _ _ I Hr) as (j & Hm & Hk & ->).
  pose proof (run_terminal t' _ m _ j Hl Ht' I Hm Hterm) as Hrow. rewrite <- Hr.
  unfold load_record. rewrite Hrow. by rewrite (rep_rows _ _ (ci_rep _ _ I)), lookup_fmap, Hm.
Qed.

(** ** Counting claims *)
Definition claimed_key (q : request) (now : Z) (d : coord_db) : option job_key :=
  match q with
  | RClaim q => match (commit (claim limits q now) d).1 with
                | ROk (Some r) => Some (key_of (job r))
                | _ => None
                end
  | _ => None
  end.
Fixpoint claims_of (k : job_key) (t : history) (d : coord_db) : Z :=
  match t with
  | [] => 0
  | (q, now) :: t => (if bool_decide (claimed_key q now d = Some k) then 1 else 0)
                     + claims_of k t (perform q now d)
  end.
(** The generation the row of a job carries. *)
Definition generation_at (d : coord_db) (k : job_key) : Z :=
  from_option jr_lease_generation 0 (jobs d !! k).

Lemma steps_claims q k now j j' :
  (∀ w, ¬ may_do q k (EClaim w)) →
  rtc (λ a b, ∃ e, may_do q k e ∧ jstep now e a b) j j' → a_claims j' = a_claims j.
Proof.
  intros Hq. induction 1 as [|j1 j2 j3 (e & He & Hs) _ IH]; [done|]. rewrite IH.
  destruct Hs; try done. by destruct (Hq w).
Qed.
Lemma steps_max q k now j j' :
  rtc (λ a b, ∃ e, may_do q k e ∧ jstep now e a b) j j' → a_max j' = a_max j.
Proof. induction 1 as [|j1 j2 j3 (e & He & Hs) _ IH]; [done|]. rewrite IH. by destruct Hs. Qed.
Lemma evolves_claims q now k o o' :
  (∀ w, ¬ may_do q k (EClaim w)) → evolves limits q now k o o' →
  from_option a_claims 0 o' = from_option a_claims 0 o.
Proof.
  intros Hq. destruct o as [j|], o' as [j'|]; simpl; try done.
  - by apply steps_claims.
  - by intros (s & _ & -> & _).
Qed.
Lemma sweep_job_claims p now k j : a_claims (sweep_job p now k j) = a_claims j.
Proof.
  unfold sweep_job. destruct (in_project p k); [|done].
  destruct (a_status j); repeat destruct (_ <=? _); done.
Qed.
Lemma generation_at_rep d m k :
  represents (jobs d) m → generation_at d k = from_option a_claims 0 (m !! k).
Proof. intros [R _]. unfold generation_at. rewrite R, lookup_fmap. by destruct (m !! k). Qed.

Lemma claim_counts q now d m k :
  coord_inv d m → calendar now → limits_typed limits →
  generation_at (perform (RClaim q) now d) k =
  generation_at d k + if bool_decide (claimed_key (RClaim q) now d = Some k) then 1 else 0.
Proof.
  intros I Hn (_ & Httl & _). unfold perform, claimed_key, commit.
  destruct (claim limits q now d) as [[o d']|e] eqn:H; simpl; [|lia].
  eapply claim_success in H; [|apply I|done|lia]. cbv zeta in H. destruct H as [_ H].
  rewrite (generation_at_rep d m) by apply I.
  destruct o as [r|]; simpl.
  2: { destruct H as [R _]. rewrite (generation_at_rep _ _ _ R), lookup_swept.
       destruct (m !! k); simpl; [|done]. rewrite sweep_job_claims. lia. }
  destruct H as (k' & j & c & u & ref & Hm & _ & _ & _ & -> & _ & _ & _ & _ & R & -> & _).
  rewrite (generation_at_rep _ _ _ R). case_bool_decide as Hk.
  - injection Hk as <-. rewrite lookup_insert_eq. rewrite lookup_swept in Hm. simpl.
    change (key_of {| ref_project := ref_project ref; job_id := job_id ref; ref_kind := spec_kind (a_spec j) |})
      with (key_of ref) in *. destruct (m !! key_of ref); [|done]. injection Hm as <-. simpl.
    by rewrite sweep_job_claims.
  - rewrite lookup_insert_ne by (intros <-; by apply Hk). rewrite lookup_swept.
    destruct (m !! k); simpl; [|done]. rewrite sweep_job_claims. lia.
Qed.
Lemma perform_counts q now d m k :
  coord_inv d m → calendar now → limits_typed limits →
  generation_at (perform q now d) k =
  generation_at d k + if bool_decide (claimed_key q now d = Some k) then 1 else 0.
Proof.
  intros I Hn Hl. destruct (match q with RClaim _ => true | _ => false end) eqn:Eq.
  { destruct q; try done. by eapply claim_counts. }
  destruct (perform_simulated q now d m Hl Hn I) as (m' & I' & Hev).
  rewrite (generation_at_rep d m _ (ci_rep _ _ I)), (generation_at_rep _ m' _ (ci_rep _ _ I')).
  rewrite (evolves_claims q now k (m !! k)); [|intros w Hw; by destruct q|done].
  rewrite bool_decide_false; [lia|]. by destruct q.
Qed.
Lemma run_counts t d m k :
  limits_typed limits → timely t → coord_inv d m →
  generation_at (run t d) k = generation_at d k + claims_of k t d.
Proof.
  intros Hl Ht. revert d m. induction Ht as [|[q now] t Hn _ IH]; intros d m I; simpl; [lia|].
  destruct (perform_simulated q now d m Hl Hn I) as (m1 & I1 & _).
  rewrite (IH _ _ I1), (perform_counts q now d m) by done. lia.
Qed.
Lemma machine_max t m m' k j :
  machine_runs t m m' → (∀ k j, m !! k = Some j → a_max j = limit_max_attempts limits) →
  m' !! k = Some j → a_max j = limit_max_attempts limits.
Proof.
  revert m. induction t as [|[q now] t IH]; intros m; simpl; [intros ->; eauto|].
  intros (m1 & Hev & Hr) Hm. apply (IH m1 Hr). intros k0 j0 Hj0. specialize (Hev k0).
  rewrite Hj0 in Hev. destruct (m !! k0) as [j1|] eqn:E; simpl in Hev.
  - rewrite (steps_max _ _ _ _ _ Hev). by eapply Hm.
  - by destruct Hev as (s & _ & -> & _).
Qed.

(** Over any history a job is leased at most [max_attempts] times, and
    the generation of its current lease is exactly the number of times it has
    been leased, so no two leases ever share a generation. *)
Theorem claims_are_numbered_and_bounded t k :
  limits_typed limits → timely t →
  claims_of k t empty_db ≤ limit_max_attempts limits
  ∧ ∀ ref r l, load_record ref (run t empty_db) = ROk (Some r) → lease r = Some l →
      lease_generation l = claims_of (key_of ref) t empty_db.
Proof.
  intros Hl Ht. destruct (run_inv t Hl Ht) as (m & Hr & I).
  assert (∀ k, claims_of k t empty_db = from_option a_claims 0 (m !! k)) as Hc.
  { intros k0. rewrite <- (generation_at_rep _ m) by apply I.
    rewrite (run_counts t empty_db ∅ k0 Hl Ht empty_inv). done. }
  split.
  - rewrite Hc. destruct (m !! k) as [j|] eqn:E; simpl; [|unfold limits_typed in Hl; lia].
    destruct (rep_jobs _ _ (ci_rep _ _ I) _ _ E) as [_ V]. pose proof (v_claims _ V).
    rewrite <- (machine_max t ∅ m k j Hr); [lia| |done]. intros k0 j0. by rewrite lookup_empty.
  - intros ref r l Hload Hlease. destruct (load_record_job _ _ _ _ I Hload) as (j & Hm & _ & ->).
    rewrite Hc, Hm. simpl in *. unfold lease_of in Hlease. by destruct (a_status j); simplify_eq.
Qed.

(** ** Claims are served *)
Lemma reclaim_total p now d : ∃ r d', reclaim_expired p now d = ROk (r, d').
Proof. unfold reclaim_expired. eexists _, _. reflexivity. Qed.
Lemma get_u32_in z : 0 ≤ z < u32_modulus → get_u32 z = ROk z.
Proof. intros H. unfold get_u32. by rewrite (proj2 (Z.leb_le _ _)), (proj2 (Z.ltb_lt _ _)) by lia. Qed.
Lemma i64_in z : z < 2 ^ 63 → i64_from_u64 z = ROk z.
Proof. intros H. unfold i64_from_u64. by rewrite (proj2 (Z.ltb_lt _ _)) by lia. Qed.
Lemma lift_run {A} (r : res CoordinatorError A) (a : A) (d : coord_db) : r = ROk a → lift r d = ROk (a, d).
Proof. unfold lift, fetch. by intros ->. Qed.
Lemma require_run (b : bool) (e : CoordinatorError) (d : coord_db) : b = true → require b e d = ROk (tt, d).
Proof. by intros ->. Qed.

Lemma claim_total q now d m :
  coord_inv d m → calendar now → limits_typed limits →
  validate_version (cl_version q) = true → lease_ttl_ms limits < 2 ^ 63 →
  calendar (now + lease_ttl_ms limits * millis) →
  ∃ o d', claim limits q now d = ROk (o, d').
Proof.
  intros I Hn Hl Hv Httl Hexp. unfold claim.
  rewrite (tx_bind_run _ _ _ tt d) by by apply require_run.
  rewrite (tx_bind_run _ _ _ (now + lease_ttl_ms limits * millis) d).
  2: { apply lift_run. unfold lease_expiry, bounded_after. rewrite i64_in by lia. simpl.
       unfold checked_add_ms, in_calendar. destruct Hexp. by rewrite !(proj2 (Z.leb_le _ _)). }
  destruct (reclaim_total (cl_project q) now d) as (rr & d1 & Hr).
  rewrite (tx_bind_run _ _ _ rr d1) by done.
  destruct (reclaim_rep _ _ _ _ _ _ (ci_rep _ _ I) Hn Hr) as [_ R1].
  rewrite (tx_bind_run _ _ _ (next_claimable (cl_project q) (cl_kind q) d1) d1) by done.
  destruct (next_claimable _ _ d1) as [[k row]|] eqn:Es; [|by eexists _, _].
  destruct (next_claimable_rep _ _ _ _ _ _ R1 Es) as (j & c & Hm & -> & Hst & Hp & Hkind).
  destruct (rep_jobs _ _ R1 _ _ Hm) as [Hkey V].
  pose proof (v_claims j V). pose proof (v_max j V). pose proof (v_status j V) as Vs. rewrite Hst in Vs.
  assert (1 ≤ attempt_of j < u32_modulus) by (unfold attempt_of; lia).
  assert (u32_modulus = 4294967296 ∧ u64_modulus = 18446744073709551616) as [Hu32 Hu64] by done.
  cbn [row_of jr_attempt jr_max_attempts jr_lease_generation].
  rewrite (tx_bind_run _ _ _ (attempt_of j) d1) by (apply lift_run, get_u32_in; lia).
  rewrite (tx_bind_run _ _ _ (a_max j) d1) by (apply lift_run, get_u32_in; lia).
  rewrite (tx_bind_run _ _ _ tt d1) by (apply require_run, Z.leb_le; lia).
  rewrite (tx_bind_run _ _ _ tt d1).
  2: { apply require_run, negb_true_iff, orb_false_iff.
       rewrite (attempt_claimed now (cl_worker_id q) 0 j c) by done. unfold attempt_of. simpl.
       rewrite Z.eqb_neq, Z.ltb_ge. lia. }
  rewrite (tx_bind_run _ _ _ tt d1) by (apply require_run, Z.ltb_lt; lia).
  rewrite (tx_bind_run _ _ _ (a_claims j + 1) d1) by (apply lift_run, i64_in; lia).
  assert ((project_key (cl_project q), k.2) = k) as -> by (destruct k; simpl in *; by subst).
  match goal with |- ∃ _ _, (update_job k ?p ?f ≫= _) d1 = _ =>
    destruct (update_job_run d1 _ k j p f R1 Hm) as (d2 & Hu); [by simpl; rewrite Hst|] end.
  rewrite (tx_bind_run _ _ _ 1 d2) by done.
  destruct (lease_until_ok limits now j Hexp V) as [Hcu Hud].
  destruct (update_job_rep _ _ _ _ (claimed now (cl_worker_id q) (lease_until limits now j) j) _ _ _ _ R1 Hm Hu)
    as (_ & _ & R2); [done|by eapply claimed_row|done|by eapply claimed_valid|].
  rewrite (tx_bind_run _ _ _ tt d2) by done.
  pose (jid := dexist (value (idempotency_key_of (a_spec j))) (v_id j V) : remote_id).
  assert (k.2 = remote_str jid) as Hid by (by rewrite Hkey).
  rewrite (tx_bind_run _ _ _ jid d2) by (apply lift_run; rewrite Hid; apply as_remote_id_str).
  set (ref := IndexJobRef_ (cl_project q) jid (cl_kind q)).
  assert (key_of ref = k) as Href 
    by (change (key_of ref) with (project_key (cl_project q), remote_str jid); rewrite <- Hid, <- Hp; by destruct k).
  rewrite (tx_bind_run _ _ _ (record_of ref (claimed now (cl_worker_id q) (lease_until limits now j) j)) d2).
  { by eexists _, _. }
  apply (load_required_rep _ _ _ _ _ R2). split; [done|].
  exists (claimed now (cl_worker_id q) (lease_until limits now j) j). by rewrite Href, lookup_insert_eq.
Qed.

(** A job the worker could be given: waiting, of the requested project and
    kind, once expired leases and deadlines have been swept. *)
Definition claimable_job (q : ClaimIndexJobRequest) (now : Z) (m : gmap job_key ajob) (k : job_key)
    (j : ajob) : Prop :=
  swept (cl_project q) now m !! k = Some j ∧ k.1 = project_key (cl_project q)
  ∧ spec_kind (a_spec j) = cl_kind q ∧ ∃ c, a_status j = Waiting c.

Lemma claimable_row q now m k j d :
  represents (jobs d) (swept (cl_project q) now m) →
  claimable_job q now m k j →
  (k, row_of j) ∈ map_to_list (filter (λ kr : job_key * job_row,
     claimable (cl_project q) (cl_kind q) kr.1 kr.2 = true) (jobs d)).
Proof.
  intros [R _] (Hm & Hp & Hk & c & Hs). apply elem_of_map_to_list, map_lookup_filter_Some.
  rewrite R, lookup_fmap, Hm. split; [done|]. unfold claimable, in_project.
  cbn [fst snd row_of jr_kind jr_state jr_cancellation_requested]. rewrite Hk, Hs.
  rewrite !andb_true_iff, !bool_decide_eq_true. done.
Qed.
#[local] Instance claim_order_total : TotalCmp claim_order.
Proof. apply lex_cmp; apply on_key_cmp; [apply Z_cmp|apply string_cmp]. Qed.

(** A well-formed claim always succeeds, and serves the waiting jobs in
    order: it answers with the oldest job of the project and kind (by creation
    time, then id) that is waiting once lapsed leases and deadlines are swept,
    leased to the worker under the next generation until after now and not
    beyond the job's deadline; it answers with none only if there is none. *)
Theorem claim_serves_the_oldest_job t q now :
  limits_typed limits → timely t → calendar now →
  cl_version q = DISTRIBUTED_CONTROL_PROTOCOL_VERSION →
  lease_ttl_ms limits < 2 ^ 63 → calendar (now + lease_ttl_ms limits * millis) →
  ∃ m o d', machine_runs t ∅ m ∧ commit (claim limits q now) (run t empty_db) = (ROk o, d') ∧
  match o with
  | None => ∀ k j, ¬ claimable_job q now m k j
  | Some r => ∃ j, let k := key_of (job r) in
      claimable_job q now m k j ∧ state r = Leased ∧ attempt r = a_claims j + 1
      ∧ (∃ l, lease r = Some l ∧ lease_worker l = cl_worker_id q ∧ lease_generation l = a_claims j + 1
              ∧ now < lease_expires_at l ≤ deadline_at r)
      ∧ ∀ k' j', claimable_job q now m k' j' →
          a_created j < a_created j' ∨ (a_created j = a_created j' ∧ String.compare k.2 k'.2 ≠ Gt)
  end.
Proof.
  intros Hl Ht Hn Hv Httl Hexp. destruct (run_inv t Hl Ht) as (m & Hr & I).
  destruct (claim_total q now _ m I Hn Hl) as (o & d' & H); [by apply bool_decide_eq_true|done..|].
  exists m, o, d'. split_and!; [done|by apply commit_ROk|].
  pose proof H as Hc. eapply claim_success in H; [|apply I|done|unfold limits_typed in Hl; lia].
  cbv zeta in H. destruct H as [_ H]. destruct o as [r|].
  - destruct H as (k & j & c & u & ref & Hm & Hs & Hp & Hkind & -> & Hld & Hlu & Hu & V & R & -> & d1 & R1 & Hnext).
    exists j. cbv zeta. change (key_of (job (record_of ref (claimed now (cl_worker_id q) u j)))) with (key_of ref).
    pose proof (v_claims _ V) as Hcl. simpl in Hcl.
    destruct (rep_jobs _ _ R1 _ _ Hm) as [_ V1]. pose proof (v_claims _ V1).
    split_and!; [by repeat split; eauto|done|simpl; unfold attempt_of; simpl; lia| |].
    + eexists. split_and!; simpl; try done. simpl. unfold millis. lia.
    + intros k' j' Hj'. apply (claimable_row _ _ _ _ _ d1) in Hj'; [|done].
      unfold next_claimable in Hnext. apply head_Some in Hnext as [l Hnext].
      apply (order_by_head claim_order) in Hnext as [_ Hmin]. specialize (Hmin _ Hj').
      unfold claim_order, lex, on_key in Hmin. simpl in Hmin.
      destruct (Z.compare_spec (a_created j) (a_created j')); [by right|by left|done].
  - destruct H as [R Hnext]. intros k j Hj. apply (claimable_row _ _ _ _ _ d') in Hj; [|done].
    unfold next_claimable in Hnext. apply head_None in Hnext. rewrite (order_by_nil claim_order) in Hnext.
    rewrite Hnext in Hj. by apply not_elem_of_nil in Hj.
Qed.
End theorems.
