(* ===== verification/WireExample.v ===== *)
(** A concrete text for trees, a concrete digest and a concrete text for
    instants: they satisfy the interfaces of [Wire], so that the properties of
    the distributed components are about something, and the examples run on
    them. *)
From S2P Require Import Prelude Chrono Wire Coordinator CoordinatorProofs.

(** Text in which every character is marked, so that it ends itself. *)
Fixpoint quote (s : string) : string :=
  match s with "" => "." | String c s => String "'" (String c (quote s)) end.
Fixpoint unquote (s : string) : option (string * string) :=
  match s with
  | String a s1 =>
    if Ascii.eqb a "." then Some ("", s1)
    else match s1 with
         | String c s2 => match unquote s2 with Some (t, r) => Some (String c t, r) | None => None end
         | "" => None
         end
  | "" => None
  end.
Lemma unquote_quote s r : unquote (quote s +:+ r) = Some (s, r).
Proof. induction s as [|c s IH]; [done|]. simpl. by rewrite IH. Qed.

Definition int_text (z : Z) : string := String (if z <? 0 then "-"%char else "+"%char) (display_u32 (Z.abs z)).
Definition text_int (s : string) : option Z :=
  match s with
  | String c s => v ← parse_digits 0 s; Some (if Ascii.eqb c "-" then - v else v)
  | "" => None
  end.
Lemma text_int_text z : text_int (int_text z) = Some z.
Proof.
  unfold text_int, int_text. rewrite parse_digits_display by lia. simpl.
  destruct (Z.ltb_spec z 0); simpl; f_equal; lia.
Qed.

#[local] Arguments int_text : simpl never.
#[local] Arguments text_int : simpl never.

Fixpoint tree_text (j : json) : string :=
  match j with
  | JNull => "n"
  | JBool b => if b then "t" else "f"
  | JNum z => String "i" (quote (int_text z))
  | JStr s => String "s" (quote s)
  | JArr l => String "[" (foldr (λ x s, String "," (tree_text x +:+ s)) "]" l)
  | JObj fs => String "{" (foldr (λ kx s, String "," (quote kx.1 +:+ (tree_text kx.2 +:+ s))) "}" fs)
  end.
Definition list_text (l : list json) : string := foldr (λ x s, String "," (tree_text x +:+ s)) "]" l.
Definition fields_text (fs : list (string * json)) : string :=
  foldr (λ kx s, String "," (quote kx.1 +:+ (tree_text kx.2 +:+ s))) "}" fs.

Fixpoint parse_tree (n : nat) (s : string) : option (json * string) :=
  match n, s with
  | S n, String c s1 =>
    if Ascii.eqb c "n" then Some (JNull, s1)
    else if Ascii.eqb c "t" then Some (JBool true, s1)
    else if Ascii.eqb c "f" then Some (JBool false, s1)
    else if Ascii.eqb c "i" then
      match unquote s1 with Some (t, r) => match text_int t with Some z => Some (JNum z, r) | None => None end
      | None => None end
    else if Ascii.eqb c "s" then match unquote s1 with Some (t, r) => Some (JStr t, r) | None => None end
    else if Ascii.eqb c "[" then match parse_list n s1 with Some (l, r) => Some (JArr l, r) | None => None end
    else if Ascii.eqb c "{" then match parse_fields n s1 with Some (l, r) => Some (JObj l, r) | None => None end
    else None
  | _, _ => None
  end
with parse_list (n : nat) (s : string) : option (list json * string) :=
  match n, s with
  | S n, String c s1 =>
    if Ascii.eqb c "]" then Some ([], s1)
    else match parse_tree n s1 with
         | Some (x, r) => match parse_list n r with Some (l, r') => Some (x :: l, r') | None => None end
         | None => None
         end
  | _, _ => None
  end
with parse_fields (n : nat) (s : string) : option (list (string * json) * string) :=
  match n, s with
  | S n, String c s1 =>
    if Ascii.eqb c "}" then Some ([], s1)
    else match unquote s1 with
         | Some (k, r0) =>
           match parse_tree n r0 with
           | Some (x, r) => match parse_fields n r with Some (l, r') => Some ((k, x) :: l, r') | None => None end
           | None => None
           end
         | None => None
         end
  | _, _ => None
  end.

Fixpoint tree_size (j : json) : nat :=
  match j with
  | JArr l => S (foldr (λ x n, S (tree_size x + n)) 1%nat l)
  | JObj fs => S (foldr (λ kx n, S (tree_size kx.2 + n)) 1%nat fs)
  | _ => 1
  end.
Definition list_size (l : list json) : nat := foldr (λ x n, S (tree_size x + n)) 1%nat l.
Definition fields_size (fs : list (string * json)) : nat := foldr (λ kx n, S (tree_size kx.2 + n)) 1%nat fs.

Lemma string_app_length (s t : string) : String.length (s +:+ t) = (String.length s + String.length t)%nat.
Proof. induction s as [|c s IH]; [done|]. simpl. by rewrite IH. Qed.

Lemma parse_printed n :
  (∀ j r, (tree_size j ≤ n)%nat → parse_tree n (tree_text j +:+ r) = Some (j, r))
  ∧ (∀ l r, (list_size l ≤ n)%nat → parse_list n (list_text l +:+ r) = Some (l, r))
  ∧ (∀ fs r, (fields_size fs ≤ n)%nat → parse_fields n (fields_text fs +:+ r) = Some (fs, r)).
Proof.
  induction n as [|n (IHt & IHl & IHf)].
  { split_and!; [intros [] r|intros [] r|intros [] r]; simpl; lia. }
  split_and!.
  - intros [|b|z|s|l|fs] r Hn; simpl; try done.
    + by destruct b.
    + rewrite unquote_quote. pose proof (text_int_text z) as E. unfold int_text in E. by rewrite E.
    + by rewrite unquote_quote.
    + simpl in Hn. fold (list_size l) (list_text l) in *. by rewrite IHl by lia.
    + simpl in Hn. fold (fields_size fs) (fields_text fs) in *. by rewrite IHf by lia.
  - intros [|x l] r Hn; [done|]. change (S (tree_size x + list_size l) ≤ S n)%nat in Hn.
    change (list_text (x :: l)) with (String "," (tree_text x +:+ list_text l)). simpl.
    rewrite string_app_assoc, IHt by lia. by rewrite IHl by lia.
  - intros [|[k x] fs] r Hn; [done|]. change (S (tree_size x + fields_size fs) ≤ S n)%nat in Hn.
    change (fields_text ((k, x) :: fs)) with (String "," (quote k +:+ (tree_text x +:+ fields_text fs))). simpl.
    rewrite string_app_assoc, unquote_quote, string_app_assoc, IHt by lia. by rewrite IHf by lia.
Qed.
Lemma size_text n :
  (∀ j, (tree_size j ≤ n)%nat → (tree_size j ≤ String.length (tree_text j))%nat)
  ∧ (∀ l, (list_size l ≤ n)%nat → (list_size l ≤ String.length (list_text l))%nat)
  ∧ (∀ fs, (fields_size fs ≤ n)%nat → (fields_size fs ≤ String.length (fields_text fs))%nat).
Proof.
  induction n as [|n (IHt & IHl & IHf)].
  { split_and!; [intros []|intros []|intros []]; simpl; lia. }
  split_and!.
  - intros [|b|z|s|l|fs] Hn; simpl in *; try (lia || by destruct b; simpl; lia).
    + fold (list_size l) (list_text l) in *. pose proof (IHl l ltac:(lia)). lia.
    + fold (fields_size fs) (fields_text fs) in *. pose proof (IHf fs ltac:(lia)). lia.
  - intros [|x l] Hn; [simpl; lia|]. change (S (tree_size x + list_size l) ≤ S n)%nat in Hn.
    change (list_text (x :: l)) with (String "," (tree_text x +:+ list_text l)).
    change (list_size (x :: l)) with (S (tree_size x + list_size l)). simpl. rewrite string_app_length.
    pose proof (IHt x ltac:(lia)). pose proof (IHl l ltac:(lia)). lia.
  - intros [|[k x] fs] Hn; [simpl; lia|]. change (S (tree_size x + fields_size fs) ≤ S n)%nat in Hn.
    change (fields_text ((k, x) :: fs)) with (String "," (quote k +:+ (tree_text x +:+ fields_text fs))).
    change (fields_size ((k, x) :: fs)) with (S (tree_size x + fields_size fs)). simpl. rewrite !string_app_length.
    pose proof (IHt x ltac:(lia)). pose proof (IHf fs ltac:(lia)). lia.
Qed.

#[global] Instance marked_text : JsonText := {|
  json_text := tree_text;
  json_parse s := match parse_tree (String.length s) s with Some (j, "") => Some j | _ => None end |}.
#[global] Instance marked_text_laws : JsonTextLaws.
Proof.
  intros j. unfold json_parse, json_text, marked_text.
  destruct (size_text (tree_size j)) as [Hs _]. destruct (parse_printed (String.length (tree_text j))) as [Hp _].
  specialize (Hp j "" (Hs j (le_n _))). rewrite string_app_nil_r in Hp. by rewrite Hp.
Qed.

(** Thirty-two bytes of a polynomial checksum. *)
Definition checksum (s : string) : Z :=
  foldl (λ acc c, (acc * 31 + Z.of_N (N_of_ascii c)) mod 4294967291) 7 (String.list_ascii_of_string s).
#[global] Instance checksums : Sha256 := λ s, let c := checksum s in (λ i, c / (i + 1) mod 256) <$> seqZ 0 32.
#[global] Instance checksums_laws : Sha256Laws.
Proof.
  split; intros s.
  - done.
  - apply Forall_fmap, Forall_forall. intros i _. apply Z.mod_pos_bound. lia.
Qed.

#[global] Instance decimal_time : TimeText := {| time_text := int_text; text_time := text_int |}.
#[global] Instance decimal_time_laws P : TimeTextLaws P.
Proof. intros t _. apply text_int_text. Qed.
#[global] Instance decimal_millis : @ChronoMillis DecimalChrono.chrono.
Proof. done. Qed.
