(* ===== verification/DistributedExamples.v ===== *)
(** The coordinator on concrete requests: the scenarios of
    [src/src/distributed/coordinator_sqlite_tests.rs] evaluated, and an
    instance of every theorem that has hypotheses. *)
From S2P Require Import Prelude View Chrono Transact Wire Identity Protocol Coordinator Coordination CoordinatorProofs CoordinatorTheorems WireExample.
#[local] Existing Instance DecimalChrono.chrono.

Definition rid (s : string) (H : remote_id_ok s = true) : remote_id := dexist s H.
Definition oid (s : string) (H : s ≠ "") : opaque_id := dexist s H.
Notation "'id!' s" := (rid s%string eq_refl) (at level 10).

Definition project_a : RemoteProjectRef := RemoteProjectRef_ (id! "tenant-a") (id! "project").
Definition digest_of (v : string) (H : digest_ok "sha256" v = true) : Digest := dexist ("sha256", v) H.
Notation "'digest!' v" := (digest_of v%string eq_refl) (at level 10).
Lemma snapshot_nonempty : "snapshot-1" ≠ "".
Proof. discriminate. Defined.

Definition manifest_a : RepositoryManifestRef := {|
  rm_repository := RemoteRepositoryRef_ project_a (id! "repo");
  rm_repository_identity := RepositoryRef_ (oid "snapshot-1" snapshot_nonempty) (oid "snapshot-1" snapshot_nonempty);
  rm_manifest_id := id! "manifest";
  rm_manifest_digest := digest! "00ff";
  source_policy_digest := digest! "0a";
  expected_snapshot_id := oid "snapshot-1" snapshot_nonempty;
  rm_manifest_object := TenantObjectRef_ project_a (id! "00ff") (digest! "00ff") |}.
Lemma one_nonzero : (1 <=? 1) && (1 <? u32_modulus) = true.
Proof. reflexivity. Defined.
Definition semantics_a : IndexSemantics := IndexSemantics_ (digest! "01") (dexist 1 one_nonzero) (digest! "02").
Definition key_a : Digest := Eval vm_compute in
  match idempotency_key RepositoryGraph (Repository manifest_a) semantics_a with
  | ROk d => d
  | RErr _ => digest! "00"
  end.
Definition spec_a : IndexJobSpec := IndexJobSpec_ 3 RepositoryGraph (Repository manifest_a) semantics_a key_a.
Definition limits_a : CoordinatorLimits := CoordinatorLimits_ 2 1000 10000.

Definition submit_a : SubmitIndexJobRequest := SubmitIndexJobRequest_ 3 (id! "submit") project_a spec_a.
Definition claim_by (w : WorkerId) : ClaimIndexJobRequest :=
  ClaimIndexJobRequest_ 3 (id! "claim") project_a RepositoryGraph w.
Lemma key_a_ok : remote_id_ok (value key_a) = true.
Proof. vm_compute. reflexivity. Defined.
Definition job_a : IndexJobRef := IndexJobRef_ project_a (rid (value key_a) key_a_ok) RepositoryGraph.
Definition advance_by (w : WorkerId) (g : Z) : AdvanceIndexJobRequest :=
  AdvanceIndexJobRequest_ 3 (id! "advance") job_a w g.
Definition fail_by (w : WorkerId) (g : Z) : FailIndexJobRequest :=
  FailIndexJobRequest_ 3 (id! "fail") job_a w g (id! "worker.crash") true.
Definition worker_a : WorkerId := id! "worker-a".
Definition worker_b : WorkerId := id! "worker-b".

(** Instants: a base and milliseconds after it. *)
Definition at_ms (ms : Z) : Z := 1700000000 * nanos + ms * millis.

(** Worker a takes the job and stops answering; after its lease lapses worker
    b takes over and completes. *)
Definition takeover : history := [
  (RSubmit submit_a, at_ms 0); (RClaim (claim_by worker_a), at_ms 0);
  (RStart (advance_by worker_a 1), at_ms 10); (RClaim (claim_by worker_b), at_ms 2000);
  (RStart (advance_by worker_b 2), at_ms 2001)].
Definition finished : history := (takeover ++ [
  (RBeginPublication (advance_by worker_b 2), at_ms 2002);
  (RComplete (advance_by worker_b 2), at_ms 2003)])%list.

Definition seen (t : history) : option (IndexJobState * Z * option Z) :=
  match load_record job_a (run limits_a t empty_db) with
  | ROk (Some r) => Some (state r, attempt r, lease_generation <$> lease r)
  | _ => None
  end.
Example takeover_running : seen takeover = Some (Running, 2, Some 2).
Proof. vm_compute. reflexivity. Qed.
Example finished_complete : seen finished = Some (Complete, 2, None).
Proof. vm_compute. reflexivity. Qed.

Lemma limits_a_typed : limits_typed limits_a.
Proof. unfold limits_typed, u32_modulus, u64_modulus. simpl. lia. Defined.
Ltac in_calendar := split; apply Z.leb_le; vm_compute; reflexivity.
Ltac is_timely := repeat (apply Forall_cons_2; [in_calendar|]); apply Forall_nil_2.
Lemma takeover_timely : timely takeover.
Proof. is_timely. Defined.
Lemma finished_timely : timely finished.
Proof. is_timely. Defined.
Lemma late_calendar : calendar (at_ms 2500).
Proof. in_calendar. Defined.

Lemma seen_load t x : seen t = Some x →
  ∃ r, load_record job_a (run limits_a t empty_db) = ROk (Some r)
       ∧ (state r, attempt r, lease_generation <$> lease r) = x.
Proof. unfold seen. destruct (load_record _ _) as [[r|]|]; [|done..]. intros [= <-]. eauto. Qed.

(** Witness of the refinement: the completed history. *)
Lemma coordinator_refines_job_machine_witness :
  ∃ m, machine_runs limits_a finished ∅ m ∧ m !! key_of job_a ≠ None.
Proof.
  destruct (coordinator_refines_job_machine limits_a finished limits_a_typed finished_timely) as (m & Hr & Hi).
  exists m. split; [exact Hr|]. intros Hnone.
  specialize (Hi (InspectIndexJobRequest_ 3 (id! "inspect") job_a) eq_refl).
  destruct (seen_load _ _ finished_complete) as (r & Hload & _).
  unfold inspect in Hi. cbn [ins_job] in Hi. rewrite Hnone, Hload in Hi. discriminate Hi.
Defined.

(** Worker a's lease of generation 1 is gone: completing under it changes
    nothing. *)
Lemma stale_worker_is_fenced_witness :
  perform limits_a (RComplete (advance_by worker_a 1)) (at_ms 2500) (run limits_a takeover empty_db)
  = run limits_a takeover empty_db.
Proof.
  apply (stale_worker_is_fenced limits_a takeover _ _ job_a worker_a 1);
    [exact limits_a_typed|exact takeover_timely|exact late_calendar|reflexivity|].
  intros r l Hr Hl Hw Hg. destruct (seen_load _ _ takeover_running) as (r' & Hr' & Hx).
  rewrite Hr in Hr'. injection Hr' as <-. rewrite Hl in Hx. simpl in Hx. rewrite Hg in Hx. discriminate Hx.
Defined.

(** The worker's answer to [complete] was lost and the job was reclaimed in
    vain since: the retry under a new request id gets the same answer. *)
Definition before_complete : history := (takeover ++ [(RBeginPublication (advance_by worker_b 2), at_ms 2002)])%list.
Definition later : history := [(RReclaim (ReclaimIndexJobsRequest_ 3 (id! "reclaim") project_a), at_ms 9000)].
Definition retry_advance (w : WorkerId) (g : Z) : AdvanceIndexJobRequest :=
  AdvanceIndexJobRequest_ 3 (id! "retry") job_a w g.
Definition answered {A} (p : res CoordinatorError A * coord_db) : bool := r_ok p.1.
Example complete_answered :
  answered (commit (run_advance AComplete (advance_by worker_b 2) (at_ms 2003))
              (run limits_a before_complete empty_db)) = true.
Proof. vm_compute. reflexivity. Qed.
Lemma answered_inv {A} (p : res CoordinatorError A * coord_db) : answered p = true → ∃ a d, p = (ROk a, d).
Proof. destruct p as [[a|] d]; simpl; [eauto|done]. Qed.
Lemma later_timely : timely later.
Proof. is_timely. Defined.
Lemma before_complete_timely : timely before_complete.
Proof. is_timely. Defined.
Lemma at_2003 : calendar (at_ms 2003).
Proof. in_calendar. Defined.

Lemma lost_advance_answers_are_replayed_witness :
  ∃ r d1, commit (run_advance AComplete (retry_advance worker_b 2) (at_ms 9001)) (run limits_a later d1)
          = (ROk r, run limits_a later d1).
Proof.
  destruct (answered_inv _ complete_answered) as (r & d1 & Hc). exists r, d1.
  apply (lost_advance_answers_are_replayed limits_a before_complete later AComplete (advance_by worker_b 2)
           (retry_advance worker_b 2) (at_ms 2003) (at_ms 9001) r d1);
    [exact limits_a_typed|exact before_complete_timely|exact later_timely|exact at_2003| |exact Hc].
  unfold same_advance. split; [reflexivity|]. split; [reflexivity|]. split; reflexivity.
Defined.

(** A failure report that was retried after another worker took the job. *)
Definition first_claim : history := [(RSubmit submit_a, at_ms 0); (RClaim (claim_by worker_a), at_ms 0)].
Definition second_claim : history := [(RClaim (claim_by worker_b), at_ms 20)].
Example fail_answered :
  answered (commit (fail_job (fail_by worker_a 1) (at_ms 10)) (run limits_a first_claim empty_db)) = true.
Proof. vm_compute. reflexivity. Qed.
Lemma first_claim_timely : timely first_claim.
Proof. is_timely. Defined.
Lemma second_claim_timely : timely second_claim.
Proof. is_timely. Defined.
Lemma at_10 : calendar (at_ms 10).
Proof. in_calendar. Defined.
Lemma lost_failure_answers_are_replayed_witness :
  ∃ r d1, commit (fail_job (fail_by worker_a 1) (at_ms 21)) (run limits_a second_claim d1)
          = (ROk r, run limits_a second_claim d1).
Proof.
  destruct (answered_inv _ fail_answered) as (r & d1 & Hc). exists r, d1.
  apply (lost_failure_answers_are_replayed limits_a first_claim second_claim (fail_by worker_a 1)
           (fail_by worker_a 1) (at_ms 10) (at_ms 21) r d1);
    [exact limits_a_typed|exact first_claim_timely|exact second_claim_timely|exact at_10| |exact Hc].
  unfold same_failure. repeat split; reflexivity.
Defined.

Lemma terminal_jobs_are_final_witness :
  ∃ r, load_record job_a (run limits_a later (run limits_a finished empty_db)) = ROk (Some r)
       ∧ state r = Complete.
Proof.
  destruct (seen_load _ _ finished_complete) as (r & Hload & Hx). injection Hx as Hs _ _. exists r.
  split; [|exact Hs].
  apply (terminal_jobs_are_final limits_a finished later job_a r);
    [exact limits_a_typed|exact finished_timely|exact later_timely|exact Hload|]. rewrite Hs. reflexivity.
Defined.

Lemma claims_are_numbered_and_bounded_witness : claims_of limits_a (key_of job_a) finished empty_db ≤ 2.
Proof.
  apply (claims_are_numbered_and_bounded limits_a finished (key_of job_a) limits_a_typed finished_timely).
Defined.

Lemma at_20 : calendar (at_ms 20).
Proof. in_calendar. Defined.
Lemma at_1020 : calendar (at_ms 20 + lease_ttl_ms limits_a * millis).
Proof. in_calendar. Defined.
Lemma claim_serves_the_oldest_job_witness :
  ∃ m o d', machine_runs limits_a first_claim ∅ m
    ∧ commit (claim limits_a (claim_by worker_b) (at_ms 20)) (run limits_a first_claim empty_db) = (ROk o, d').
Proof.
  destruct (claim_serves_the_oldest_job limits_a first_claim (claim_by worker_b) (at_ms 20) limits_a_typed
              first_claim_timely at_20 eq_refl eq_refl at_1020) as (m & o & d' & Hm & Hc & _).
  exists m, o, d'. split; [exact Hm|exact Hc].
Defined.

Definition record_a : IndexJobRecord :=
  IndexJobRecord_ job_a spec_a Running 1 2 (Some (JobLease_ worker_a 1 (at_ms 1000))) false None
    (at_ms 0) (at_ms 1) (at_ms 10000).
