(* ===== verification/Text.v ===== *)
(** Rust text: a [str] is the list of its bytes, UTF-8 by the validator of
    [core::str::from_utf8]; the byte-indexed operations the native agent's
    workspace uses of the standard library ([find], [starts_with], [split],
    [split_inclusive], slicing with its boundary check), and their laws. *)
From S2P Require Import Prelude.
#[local] Open Scope list_scope.

Notation text := (list ascii).
Definition byte (c : ascii) : Z := Z.of_N (N_of_ascii c).
Definition len (s : text) : Z := Z.of_nat (length s).
(** A string literal. *)
Definition lit (s : string) : text := String.list_ascii_of_string s.
Definition str (s : text) : string := String.string_of_list_ascii s.
Definition newline : ascii := "010"%char.
Definition nul : ascii := "000"%char.

(** [usize] on the supported 64-bit hosts *)
Definition usize_max : Z := 2 ^ 64 - 1.
Definition saturating_add (a b : Z) : Z := Z.min usize_max (a + b).
Definition saturating_sub (a b : Z) : Z := Z.max 0 (a - b).
Definition checked_sub (a b : Z) : option Z := if a <? b then None else Some (a - b).
Definition checked_add (a b : Z) : option Z := if usize_max <? a + b then None else Some (a + b).

(** ** UTF-8 *)
Definition in_range (lo hi : Z) (c : ascii) : bool := (lo <=? byte c) && (byte c <=? hi).
Definition continuation (c : ascii) : bool := in_range 128 191 c.
(** The well-formed byte sequences of two, three and four bytes. *)
Definition utf8_2 (a b : ascii) : bool := in_range 194 223 a && continuation b.
Definition utf8_3 (a b c : ascii) : bool :=
  (((byte a =? 224) && in_range 160 191 b)
   || ((in_range 225 236 a || in_range 238 239 a) && continuation b)
   || ((byte a =? 237) && in_range 128 159 b)) && continuation c.
Definition utf8_4 (a b c d : ascii) : bool :=
  (((byte a =? 240) && in_range 144 191 b)
   || (in_range 241 243 a && continuation b)
   || ((byte a =? 244) && in_range 128 143 b)) && continuation c && continuation d.

Fixpoint utf8 (s : text) : bool :=
  match s with
  | [] => true
  | a :: s1 =>
    if byte a <? 128 then utf8 s1 else
    match s1 with
    | [] => false
    | b :: s2 =>
      if utf8_2 a b then utf8 s2 else
      match s2 with
      | [] => false
      | c :: s3 =>
        if utf8_3 a b c then utf8 s3 else
        match s3 with
        | [] => false
        | d :: s4 => utf8_4 a b c d && utf8 s4
        end
      end
    end
  end.

(** [char::len_utf8] of the first character. *)
Definition len_utf8 (c : ascii) : nat :=
  if byte c <? 128 then 1 else if byte c <? 224 then 2 else if byte c <? 240 then 3 else 4.
(** [str::is_char_boundary] *)
Definition is_char_boundary (s : text) (i : nat) : bool :=
  match i with
  | O => true
  | _ => match s !! i with
         | None => Nat.eqb i (length s)
         | Some c => negb (continuation c)
         end
  end.
(** [&s[i..]]; [None] is the panic. *)
Definition slice_from (s : text) (i : nat) : option text :=
  if is_char_boundary s i then Some (drop i s) else None.
(** [&s[i..j]] *)
Definition slice (s : text) (i j : nat) : option text :=
  if Nat.leb i j && is_char_boundary s i && is_char_boundary s j then Some (take (j - i) (drop i s)) else None.

(** ** Searching and splitting *)
Fixpoint prefix_of (p s : text) : bool :=
  match p, s with
  | [], _ => true
  | a :: p, b :: s => Ascii.eqb a b && prefix_of p s
  | _ :: _, [] => false
  end.
Definition suffix_is (c : ascii) (s : text) : bool :=
  match last s with Some d => Ascii.eqb c d | None => false end.
Fixpoint strip (p s : text) : option text :=
  match p, s with
  | [], _ => Some s
  | a :: p, b :: s => if Ascii.eqb a b then strip p s else None
  | _ :: _, [] => None
  end.
Fixpoint find (needle s : text) : option nat :=
  if prefix_of needle s then Some O else
  match s with
  | [] => None
  | _ :: s => S <$> find needle s
  end.
Definition has (needle s : text) : bool := match find needle s with Some _ => true | None => false end.
Definition has_char (c : ascii) (s : text) : bool := existsb (Ascii.eqb c) s.
(** [s.match_indices(c)], the positions from [i] on *)
Fixpoint match_indices (c : ascii) (i : nat) (s : text) : list nat :=
  match s with
  | [] => []
  | d :: s => if Ascii.eqb c d then i :: match_indices c (S i) s else match_indices c (S i) s
  end.
(** [s.split(c)] *)
Fixpoint split_on (sep : ascii) (s : text) : list text :=
  match s with
  | [] => [[]]
  | c :: s =>
    if Ascii.eqb sep c then [] :: split_on sep s else
    match split_on sep s with
    | l :: ls => (c :: l) :: ls
    | [] => [[c]]
    end
  end.
(** [s.split_inclusive(c)] *)
Fixpoint split_inclusive (sep : ascii) (s : text) : list text :=
  match s with
  | [] => []
  | c :: s =>
    if Ascii.eqb sep c then [c] :: split_inclusive sep s else
    match split_inclusive sep s with
    | l :: ls => (c :: l) :: ls
    | [] => [[c]]
    end
  end.
(** [s.chars()], each character as its bytes *)
Fixpoint chars (s : text) : list text :=
  match s with
  | [] => []
  | c :: s' =>
    match chars s' with
    | (d :: l) :: ls => if continuation d then (c :: d :: l) :: ls else [c] :: (d :: l) :: ls
    | ls => [c] :: ls
    end
  end.
Definition take_chars (n : nat) (s : text) : text := concat (take n (chars s)).

(** ** ASCII case *)
Definition ascii_upper (c : ascii) : ascii :=
  if in_range 97 122 c then ascii_of_N (N_of_ascii c - 32) else c.
Definition ascii_lower (c : ascii) : ascii :=
  if in_range 65 90 c then ascii_of_N (N_of_ascii c + 32) else c.
Definition is_ascii (s : text) : bool := forallb (λ c, byte c <? 128) s.

(** [str::to_uppercase] is Unicode's; on ASCII it is the ASCII mapping. *)
Class Uppercase := to_uppercase : text → text.
Class UppercaseLaws `{!Uppercase} : Prop :=
  to_uppercase_ascii a s : is_ascii a = true → to_uppercase (a ++ s) = map ascii_upper a ++ to_uppercase s.

(** ** Laws *)
Lemma length_lit_str s : lit (str s) = s.
Proof. apply String.list_ascii_of_string_of_list_ascii. Qed.
Lemma str_lit s : str (lit s) = s.
Proof. apply String.string_of_list_ascii_of_string. Qed.
Lemma str_inj s t : str s = str t → s = t.
Proof. intros H. by rewrite <-(length_lit_str s), H, length_lit_str. Qed.
Lemma len_app s t : len (s ++ t) = len s + len t.
Proof. unfold len. rewrite length_app. lia. Qed.
Lemma len_nonneg s : 0 ≤ len s.
Proof. unfold len. lia. Qed.

Lemma prefix_of_spec p s : prefix_of p s = true ↔ ∃ r, s = p ++ r.
Proof.
  revert s. induction p as [|a p IH]; intros s; simpl; [naive_solver|].
  destruct s as [|b s]; [naive_solver|]. rewrite andb_true_iff, Ascii.eqb_eq, IH. naive_solver.
Qed.
Lemma prefix_of_app p r : prefix_of p (p ++ r) = true.
Proof. apply prefix_of_spec. eauto. Qed.
Lemma strip_Some p s r : strip p s = Some r ↔ s = p ++ r.
Proof.
  revert s. induction p as [|a p IH]; intros s; simpl; [naive_solver|].
  destruct s as [|b s]; [naive_solver|].
  destruct (Ascii.eqb_spec a b) as [->|?]; [rewrite IH|]; naive_solver.
Qed.
Lemma suffix_is_app c s t : t ≠ [] → suffix_is c (s ++ t) = suffix_is c t.
Proof. intros Ht. unfold suffix_is. rewrite last_app. by destruct (last t) eqn:E; [|apply last_None in E]. Qed.

(** [find] is the first occurrence. *)
Lemma find_Some needle s i :
  find needle s = Some i ↔
  (i ≤ length s)%nat ∧ prefix_of needle (drop i s) = true
  ∧ ∀ j, (j < i)%nat → prefix_of needle (drop j s) = false.
Proof.
  revert i. induction s as [|c s IH]; intros i; cbn [find].
  - destruct (prefix_of needle []) eqn:E.
    + split; [intros [= <-]; simpl; split_and!; [lia|done|lia]|].
      intros (? & _ & _). simpl in *. f_equal. lia.
    + split; [done|]. rewrite drop_nil. intros (_ & ? & _). congruence.
  - destruct (prefix_of needle (c :: s)) eqn:E.
    + split; [intros [= <-]; simpl; split_and!; [lia|done|lia]|].
      intros (_ & _ & Hm). destruct i as [|i]; [done|]. specialize (Hm O ltac:(lia)). simpl in Hm. congruence.
    + rewrite fmap_Some. setoid_rewrite IH. split.
      * intros (k & (Hk & Hp & Hm) & ->). simpl. split_and!; [lia|done|].
        intros [|j] Hj; [done|]. apply Hm. lia.
      * intros (Hl & Hp & Hm). destruct i as [|i]; [simpl in Hp; congruence|].
        exists i. split_and!; [simpl in Hl; lia|done| |done]. intros j Hj. apply (Hm (S j)). lia.
Qed.
Lemma find_None needle s : find needle s = None ↔ ∀ i, (i ≤ length s)%nat → prefix_of needle (drop i s) = false.
Proof.
  induction s as [|c s IH]; cbn [find].
  - destruct (prefix_of needle []) eqn:E; split; try done.
    + intros H. specialize (H O ltac:(simpl; lia)). simpl in H. congruence.
    + intros _ i _. by rewrite drop_nil.
  - destruct (prefix_of needle (c :: s)) eqn:E.
    + split; [done|]. intros H. specialize (H O ltac:(lia)). simpl in H. congruence.
    + rewrite fmap_None, IH. split.
      * intros H [|i] Hi; [done|]. apply H. simpl in Hi. lia.
      * intros H i Hi. apply (H (S i)). simpl. lia.
Qed.
Lemma has_true needle s : has needle s = true ↔ ∃ p r, s = p ++ needle ++ r.
Proof.
  unfold has. destruct (find needle s) as [i|] eqn:E.
  - split; [|done]. intros _. apply find_Some in E as (Hi & Hp & _). apply prefix_of_spec in Hp as [r Hr].
    exists (take i s), r. by rewrite <-Hr, take_drop.
  - split; [done|]. intros (p & r & ->). rewrite find_None in E.
    specialize (E (length p) ltac:(rewrite length_app; lia)). rewrite drop_app_length, prefix_of_app in E. done.
Qed.
Lemma has_char_true c s : has_char c s = true ↔ c ∈ s.
Proof.
  unfold has_char. rewrite existsb_exists. setoid_rewrite Ascii.eqb_eq. setoid_rewrite <-list_elem_of_In. naive_solver.
Qed.

(** Below the type's maximum a saturating sum is compared as the sum. *)
Lemma saturating_limit limit a b :
  limit < usize_max → (limit <? saturating_add a b) = (limit <? a + b).
Proof.
  intros H. unfold saturating_add. destruct (Z.ltb_spec limit (a + b)); [apply Z.ltb_lt|apply Z.ltb_ge]; lia.
Qed.
Lemma saturating_limit3 limit a b c :
  limit < usize_max → 0 ≤ c → (limit <? saturating_add (saturating_add a b) c) = (limit <? a + b + c).
Proof.
  intros H Hc. unfold saturating_add. destruct (Z.ltb_spec limit (a + b + c)); [apply Z.ltb_lt|apply Z.ltb_ge]; lia.
Qed.

(** *** UTF-8 is a prefix code *)
Ltac byte_lia :=
  unfold utf8_2, utf8_3, utf8_4, continuation, in_range in *;
  rewrite ?andb_true_iff, ?orb_true_iff, ?negb_true_iff, ?Z.leb_le, ?Z.ltb_lt, ?Z.ltb_ge, ?Z.eqb_eq in *; lia.

Lemma text_length_ind (P : list ascii → Prop) :
  (∀ s, (∀ t, (length t < length s)%nat → P t) → P s) → ∀ s, P s.
Proof. intros H s. induction s as [s IH] using (well_founded_induction (well_founded_ltof _ (@length ascii))). apply H. intros t Ht. by apply IH. Qed.

(** The first character of valid text. *)
Lemma utf8_cons_inv a s :
  utf8 (a :: s) = true →
  (byte a < 128 ∧ utf8 s = true)
  ∨ (∃ b r, s = b :: r ∧ utf8_2 a b = true ∧ utf8 r = true)
  ∨ (∃ b c r, s = b :: c :: r ∧ utf8_3 a b c = true ∧ utf8 r = true)
  ∨ (∃ b c d r, s = b :: c :: d :: r ∧ utf8_4 a b c d = true ∧ utf8 r = true).
Proof.
  cbn [utf8]. destruct (byte a <? 128) eqn:Ea; [apply Z.ltb_lt in Ea; auto|].
  destruct s as [|b s]; [done|]. destruct (utf8_2 a b) eqn:E2; [intros ?; right; left; by exists b, s|].
  destruct s as [|c s]; [done|]. destruct (utf8_3 a b c) eqn:E3; [intros ?; right; right; left; by exists b, c, s|].
  destruct s as [|d s]; [done|]. rewrite andb_true_iff. intros [??]. do 3 right. by exists b, c, d, s.
Qed.
Lemma utf8_cons_1 a s : byte a < 128 → utf8 (a :: s) = utf8 s.
Proof. intros H. cbn [utf8]. by rewrite (proj2 (Z.ltb_lt _ _) H). Qed.
Lemma utf8_cons_2 a b s : utf8_2 a b = true → utf8 (a :: b :: s) = utf8 s.
Proof.
  intros H. cbn [utf8]. rewrite H. destruct (byte a <? 128) eqn:E; [exfalso; byte_lia|done].
Qed.
Lemma utf8_cons_3 a b c s : utf8_3 a b c = true → utf8 (a :: b :: c :: s) = utf8 s.
Proof.
  intros H. cbn [utf8]. rewrite H. destruct (byte a <? 128) eqn:E; [exfalso; byte_lia|].
  destruct (utf8_2 a b) eqn:E2; [exfalso; byte_lia|done].
Qed.
Lemma utf8_cons_4 a b c d s : utf8_4 a b c d = true → utf8 (a :: b :: c :: d :: s) = utf8 s.
Proof.
  intros H. cbn [utf8]. rewrite H. destruct (byte a <? 128) eqn:E; [exfalso; byte_lia|].
  destruct (utf8_2 a b) eqn:E2; [exfalso; byte_lia|]. destruct (utf8_3 a b c) eqn:E3; [exfalso; byte_lia|done].
Qed.
#[global] Arguments utf8 : simpl never.
Create HintDb utf8 discriminated.
#[export] Hint Rewrite utf8_cons_1 utf8_cons_2 utf8_cons_3 utf8_cons_4 using assumption : utf8.

Ltac utf8_cases H :=
  apply utf8_cons_inv in H as [(? & H)|[(? & ? & -> & ? & H)|[(? & ? & ? & -> & ? & H)|(? & ? & ? & ? & -> & ? & H)]]].

Lemma utf8_app (p s : list ascii) : utf8 p = true → utf8 (p ++ s) = utf8 s.
Proof.
  induction p as [p IH] using text_length_ind. intros Hp. destruct p as [|a p]; [done|].
  utf8_cases Hp; simpl app; autorewrite with utf8; apply IH; simpl; try lia; done.
Qed.
Lemma utf8_concat l : Forall (λ s, utf8 s = true) l → utf8 (concat l) = true.
Proof. induction 1 as [|s l Hs _ IH]; [done|]. simpl. by rewrite utf8_app. Qed.
(** Valid text can be cut before every byte that is not a continuation. *)
Lemma utf8_split_lead (p : text) c r :
  continuation c = false → utf8 (p ++ c :: r) = true → utf8 p = true ∧ utf8 (c :: r) = true.
Proof.
  intros Hc. induction p as [p IH] using text_length_ind. intros Hp. destruct p as [|a p]; [done|].
  assert (Hn : ¬ continuation c = true) by congruence. clear Hc.
  simpl app in Hp. apply utf8_cons_inv in Hp as
    [(? & Hp)|[(b & r' & E & ? & Hp)|[(b & b' & r' & E & ? & Hp)|(b & b' & b'' & r' & E & ? & Hp)]]].
  - rewrite utf8_cons_1 by done. apply IH; [simpl; lia|done].
  - destruct p as [|? p]; simplify_eq/=; [destruct Hn; byte_lia|].
    rewrite utf8_cons_2 by done. apply IH; [lia|done].
  - destruct p as [|? [|? p]]; simplify_eq/=; [destruct Hn; byte_lia..|].
    rewrite utf8_cons_3 by done. apply IH; [lia|done].
  - destruct p as [|? [|? [|? p]]]; simplify_eq/=; [destruct Hn; byte_lia..|].
    rewrite utf8_cons_4 by done. apply IH; [lia|done].
Qed.
Lemma utf8_split_ascii (p : text) c r :
  byte c < 128 → utf8 (p ++ c :: r) = true → utf8 p = true ∧ utf8 r = true.
Proof.
  intros Hc. rewrite <-(utf8_cons_1 c r) by done. apply utf8_split_lead.
  apply not_true_is_false. intros ?. byte_lia.
Qed.
Lemma utf8_lead c s : utf8 (c :: s) = true → continuation c = false.
Proof.
  intros H. apply not_true_is_false. intros Hc. utf8_cases H; byte_lia.
Qed.
Lemma boundary_app p r : utf8 r = true → is_char_boundary (p ++ r) (length p) = true.
Proof.
  intros Hr. unfold is_char_boundary. destruct (length p) as [|n] eqn:E; [done|]. rewrite <-E.
  rewrite lookup_app_r, Nat.sub_diag by lia. destruct r as [|c r]; simpl.
  - rewrite app_nil_r. apply Nat.eqb_refl.
  - by rewrite (utf8_lead _ _ Hr).
Qed.
Lemma slice_from_app p r : utf8 r = true → slice_from (p ++ r) (length p) = Some r.
Proof. intros Hr. unfold slice_from. by rewrite boundary_app, drop_app_length. Qed.
Lemma slice_app p m r :
  utf8 (m ++ r) = true → utf8 r = true → slice (p ++ m ++ r) (length p) (length p + length m) = Some m.
Proof.
  intros Hm Hr. unfold slice. rewrite boundary_app by done.
  rewrite app_assoc, <-length_app, (boundary_app (p ++ m)) by done.
  rewrite (proj2 (Nat.leb_le _ _)) by (rewrite length_app; lia). simpl.
  rewrite length_app, <-app_assoc, drop_app_length. f_equal.
  replace (length p + length m - length p)%nat with (length m) by lia. apply take_app_length.
Qed.
Lemma slice_from_boundary s i :
  (i ≤ length s)%nat → utf8 (drop i s) = true → slice_from s i = Some (drop i s).
Proof.
  intros Hi Hd. pose proof (slice_from_app (take i s) (drop i s) Hd) as H.
  by rewrite take_drop, length_take, Nat.min_l in H.
Qed.
Lemma slice_boundary s i j :
  (i ≤ j)%nat → (j ≤ length s)%nat → utf8 (drop i s) = true → utf8 (drop j s) = true →
  slice s i j = Some (take (j - i) (drop i s)).
Proof.
  intros Hij Hj Hi Hd.
  assert (Hjoin : take (j - i) (drop i s) ++ drop j s = drop i s).
  { rewrite <-(take_drop (j - i) (drop i s)) at 2. f_equal. rewrite drop_drop. f_equal. lia. }
  pose proof (slice_app (take i s) (take (j - i) (drop i s)) (drop j s)) as H.
  rewrite Hjoin, take_drop, !length_take, length_drop, !Nat.min_l in H by lia.
  replace (i + (j - i))%nat with j in H by lia. by apply H.
Qed.
(** The width of the first character of a valid text. *)
Lemma len_utf8_first c s :
  utf8 (c :: s) = true →
  ∃ k r, s = k ++ r ∧ S (length k) = len_utf8 c ∧ Forall (λ b, continuation b = true) k
         ∧ utf8 (c :: k) = true ∧ utf8 r = true.
Proof.
  intros H. unfold len_utf8. utf8_cases H.
  - exists [], s. autorewrite with utf8. rewrite (proj2 (Z.ltb_lt _ _)) by byte_lia. by split_and!.
  - exists [x], x0. autorewrite with utf8. rewrite (proj2 (Z.ltb_ge _ _)), (proj2 (Z.ltb_lt _ _)) by byte_lia.
    split_and!; try done. repeat constructor; byte_lia.
  - exists [x; x0], x1. autorewrite with utf8. rewrite !(proj2 (Z.ltb_ge _ _)), (proj2 (Z.ltb_lt _ _)) by byte_lia.
    split_and!; try done. repeat constructor; byte_lia.
  - exists [x; x0; x1], x2. autorewrite with utf8. rewrite !(proj2 (Z.ltb_ge _ _)) by byte_lia.
    split_and!; try done. repeat constructor; byte_lia.
Qed.
