(* ===== verification/HostFiles.v ===== *)
(** The host's file system as the native agent sees it, and the
    handle-relative operations of [src/src/nano/workspace/fs.rs] on it, with
    the Unix implementation of [src/src/nano/workspace/unix.rs].

    The file system is a name space of directory entries over inodes.  Other
    processes act before every system call ([interfere]), any call may fail
    ([fault_at]); a held directory or file is its inode. *)
From S2P Require Import Prelude Transact Text.
#[local] Open Scope list_scope.

(** ** Effects: the state survives an error *)
Definition eff (S E A : Type) : Type := S → res E A * S.
#[global] Instance eff_ret S E : MRet (eff S E) := λ A a s, (ROk a, s).
#[global] Instance eff_bind S E : MBind (eff S E) := λ A B f m s,
  match m s with (ROk a, s') => f a s' | (RErr e, s') => (RErr e, s') end.
Definition throw {S E A} (e : E) : eff S E A := λ s, (RErr e, s).
Definition of_res {S E A} (r : res E A) : eff S E A := λ s, (r, s).
Definition guard_or {S E} (b : bool) (e : E) : eff S E unit := if b then mret tt else throw e.
Definition on_err {S E E' A} (f : E → E') (m : eff S E A) : eff S E' A := λ s,
  match m s with (ROk a, s') => (ROk a, s') | (RErr e, s') => (RErr (f e), s') end.
(** The result of a call as a value. *)
Definition attempt {S E E' A} (m : eff S E A) : eff S E' (res E A) := λ s, let '(r, s') := m s in (ROk r, s').

Lemma eff_bind_ROk {S E A B} (m : eff S E A) (f : A → eff S E B) s b s' :
  (m ≫= f) s = (ROk b, s') ↔ ∃ a s1, m s = (ROk a, s1) ∧ f a s1 = (ROk b, s').
Proof. unfold mbind, eff_bind. destruct (m s) as [[a|e] s1]; naive_solver. Qed.
Lemma eff_bind_run {S E A B} (m : eff S E A) (f : A → eff S E B) s a s1 :
  m s = (ROk a, s1) → (m ≫= f) s = f a s1.
Proof. unfold mbind, eff_bind. by intros ->. Qed.
Lemma eff_bind_err {S E A B} (m : eff S E A) (f : A → eff S E B) s e s1 :
  m s = (RErr e, s1) → (m ≫= f) s = (RErr e, s1).
Proof. unfold mbind, eff_bind. by intros ->. Qed.

(** ** Inodes and names *)
(** [std::io::ErrorKind], as far as it is told apart *)
Inductive io_kind : Type := NotFound | InvalidInput | Unsupported | AlreadyExists | OtherIo.
#[global] Instance io_kind_eq_dec : EqDecision io_kind.
Proof. solve_decision. Defined.

(** Device and inode number. *)
Notation ino := (Z * Z)%type.
Inductive file_kind : Type := RegularFile | Directory | SpecialFile.
#[global] Instance file_kind_eq_dec : EqDecision file_kind.
Proof. solve_decision. Defined.
Record inode : Type := mk_inode {
  i_kind : file_kind;
  i_bytes : text;
  i_mode : Z;
  i_links : Z }.
#[global] Instance inode_eta : Eta inode := λ i, mk_inode (i_kind i) (i_bytes i) (i_mode i) (i_links i).
#[global] Instance set_i_bytes : Setter i_bytes. Proof. derive_setter. Defined.
#[global] Instance set_i_mode : Setter i_mode. Proof. derive_setter. Defined.
#[global] Instance set_i_links : Setter i_links. Proof. derive_setter. Defined.

Record files : Type := mk_files {
  names : gmap (Z * Z * text) (Z * Z);
  inodes : gmap (Z * Z) inode }.
#[global] Instance files_eta : Eta files := λ f, mk_files (names f) (inodes f).
#[global] Instance set_names : Setter names. Proof. derive_setter. Defined.
#[global] Instance set_inodes : Setter inodes. Proof. derive_setter. Defined.

Definition inode_of (f : files) (i : ino) : option inode := inodes f !! i.
(** [.] is the directory itself. *)
Definition entry (f : files) (dir : ino) (nm : text) : option ino :=
  if decide (nm = lit ".") then Some dir else names f !! (dir, nm).
(** A number no inode of the device has. *)
Definition new_inode (f : files) (dev : Z) : ino :=
  (dev, 1 + foldr Z.max 0 ((λ p, p.1.2) <$> map_to_list (inodes f))).
Definition update_inode (g : inode → inode) (i : ino) (f : files) : files :=
  f <| inodes := alter g i (inodes f) |>.
Definition add_links (n : Z) (i : ino) : files → files :=
  update_inode (λ x, x <| i_links := i_links x + n |>) i.

(** ** The host *)
Class Host := {
  (** what other processes do before the [k]-th system call *)
  interfere : nat → files → files;
  (** the [k]-th system call fails *)
  fault_at : nat → option io_kind;
  (** how much a failing read delivers *)
  partial_read : nat → nat;
  (** [Cancellation::is_cancelled] and the time since the operation began, in
      nanoseconds, when they are looked at after [k] system calls *)
  cancelled : nat → bool;
  elapsed : nat → Z;
  process_id : Z;
  (** [nfd().default_case_fold().nfd()] of the [caseless] and
      [unicode-normalization] crates *)
  fold_name : text → text;
  (** the order in which [readdir] lists the entries of a directory *)
  readdir_order : nat → list text → list text }.

Record host_state : Type := mk_host_state {
  h_files : files;
  h_tick : nat;
  h_sequence : Z }.
#[global] Instance host_state_eta : Eta host_state := λ h, mk_host_state (h_files h) (h_tick h) (h_sequence h).
#[global] Instance set_h_files : Setter h_files. Proof. derive_setter. Defined.
#[global] Instance set_h_tick : Setter h_tick. Proof. derive_setter. Defined.
#[global] Instance set_h_sequence : Setter h_sequence. Proof. derive_setter. Defined.

Definition io (A : Type) : Type := eff host_state io_kind A.

Section fs.
Context `{HO : Host}.

Definition syscall {A} (f : files → res io_kind A * files) : io A := λ h,
  let k := h_tick h in
  let fs := interfere k (h_files h) in
  let h' := h <| h_tick := S k |> in
  match fault_at k with
  | Some e => (RErr e, h' <| h_files := fs |>)
  | None => let '(r, fs') := f fs in (r, h' <| h_files := fs' |>)
  end.

(** *** [unix.rs] *)
(** [CString::new] *)
Definition c_name (value : text) : io unit := guard_or (negb (has_char nul value)) InvalidInput.

Definition metadata (i : ino) : io inode :=
  syscall (λ f, match inode_of f i with Some x => (ROk x, f) | None => (RErr NotFound, f) end).
Definition is_dir (x : inode) : bool := bool_decide (i_kind x = Directory).

Definition regular (i : ino) : io unit :=
  meta ← metadata i;
  guard_or (bool_decide (i_kind meta = RegularFile) && (i_links meta =? 1)) Unsupported.

(** [openat] with [O_NOFOLLOW]; the symbolic links and non-directories it
    refuses ([ELOOP], [ENOTDIR]) are reported as unsafe files. *)
Definition openat_existing (parent : ino) (nm : text) (directory : bool) (f : files) : res io_kind ino * files :=
  match entry f parent nm with
  | None => (RErr NotFound, f)
  | Some i =>
    match inode_of f i with
    | None => (RErr NotFound, f)
    | Some x =>
      if directory && negb (is_dir x) then (RErr Unsupported, f) else (ROk i, f)
    end
  end.
(** [O_CREAT | O_EXCL] with mode [0o600] *)
Definition openat_create (parent : ino) (nm : text) (f : files) : res io_kind ino * files :=
  match entry f parent nm with
  | Some _ => (RErr AlreadyExists, f)
  | None =>
    let i := new_inode f (fst parent) in
    (ROk i, mk_files (<[(parent, nm) := i]> (names f)) (<[i := mk_inode RegularFile [] 384 1]> (inodes f)))
  end.
Definition open_at (parent : ino) (nm : text) (directory create : bool) : io ino :=
  i ← syscall (if create then openat_create parent nm else openat_existing parent nm directory);
  meta ← metadata i;
  _ ← (if is_dir meta then mret tt else regular i);
  mret i.
Definition child (parent : ino) (value : text) (directory create : bool) : io ino :=
  _ ← c_name value; open_at parent value directory create.

Definition linkat (parent : ino) (from to : text) (f : files) : res io_kind unit * files :=
  match entry f parent from with
  | None => (RErr NotFound, f)
  | Some i =>
    match entry f parent to with
    | Some _ => (RErr AlreadyExists, f)
    | None => (ROk tt, add_links 1 i (f <| names := <[(parent, to) := i]> (names f) |>))
    end
  end.
Definition renameat (parent : ino) (from to : text) (f : files) : res io_kind unit * files :=
  match entry f parent from with
  | None => (RErr NotFound, f)
  | Some i =>
    match entry f parent to with
    | None => (ROk tt, f <| names := <[(parent, to) := i]> (delete (parent, from) (names f)) |>)
    | Some j =>
      if decide (i = j) then (ROk tt, f) else
      match inode_of f j with
      | Some x =>
        if is_dir x then (RErr OtherIo, f) else
        (ROk tt, add_links (-1) j (f <| names := <[(parent, to) := i]> (delete (parent, from) (names f)) |>))
      | None => (ROk tt, f <| names := <[(parent, to) := i]> (delete (parent, from) (names f)) |>)
      end
    end
  end.
Definition unlinkat (parent : ino) (nm : text) (f : files) : res io_kind unit * files :=
  match entry f parent nm with
  | None => (RErr NotFound, f)
  | Some i =>
    match inode_of f i with
    | Some x => if is_dir x then (RErr OtherIo, f)
                else (ROk tt, add_links (-1) i (f <| names := delete (parent, nm) (names f) |>))
    | None => (ROk tt, f <| names := delete (parent, nm) (names f) |>)
    end
  end.

Definition platform_publish (parent : ino) (target temporary : text) (create : bool) : io unit :=
  _ ← c_name target; _ ← c_name temporary;
  syscall (if create then linkat parent temporary target else renameat parent temporary target).
Definition platform_delete (parent : ino) (value : text) : io unit :=
  _ ← c_name value; syscall (unlinkat parent value).
Definition finish_publish (parent : ino) (temporary : text) (create : bool) : io unit :=
  if create then platform_delete parent temporary else mret tt.
Definition sync_all : io unit := syscall (λ f, (ROk tt, f)).
Definition try_clone : io unit := syscall (λ f, (ROk tt, f)).

(** *** [fs.rs] *)
Record Parent : Type := mk_parent { p_directory : ino; p_name : text }.
Record Staged : Type := mk_staged { s_directory : ino; s_name : text; s_file : ino }.
Record CommitError : Type := mk_commit_error { ce_changed : bool; ce_error : io_kind }.

Fixpoint walk (directory : ino) (parts : list text) : io Parent :=
  match parts with
  | [] => throw InvalidInput
  | [nm] => mret (mk_parent directory nm)
  | nm :: parts => directory ← child directory nm true false; walk directory parts
  end.
Definition root_directory (root : ino) : io ino := child root (lit ".") true false.
Definition root_parent (root : ino) (path : text) : io Parent :=
  directory ← root_directory root; walk directory (split_on "/"%char path).
Definition parent_open (p : Parent) : io ino := child (p_directory p) (p_name p) false false.
Definition root_open (root : ino) (path : text) : io ino := p ← root_parent root path; parent_open p.
Definition identity (i : ino) : io ino := _ ← metadata i; mret i.
Definition patch_key (p : Parent) : io (ino * text) :=
  id ← identity (p_directory p); mret (id, fold_name (p_name p)).

(** The name of a temporary file. *)
Definition temporary_prefix : text := lit ".nano-tmp-".
Definition decimal (z : Z) : text := lit (pretty.pretty (Z.to_N z)).
Definition temporary_name (sequence : Z) : text :=
  temporary_prefix ++ decimal process_id ++ lit "-" ++ decimal sequence.
Definition next_sequence : io Z := λ h,
  (ROk (h_sequence h), h <| h_sequence := (h_sequence h + 1) mod u64_modulus |>).

(** [take(n).read_to_end]: what was read, also when reading failed. *)
Definition take_z (n : Z) (s : text) : text := if len s <=? n then s else take (Z.to_nat n) s.
Definition read_take (i : ino) (n : Z) : io (text * option io_kind) := λ h,
  let k := h_tick h in
  let fs := interfere k (h_files h) in
  let bytes := match inode_of fs i with Some x => take_z n (i_bytes x) | None => [] end in
  let h' := h <| h_tick := S k |> <| h_files := fs |> in
  match fault_at k with
  | Some e => (ROk (take (partial_read k) bytes, Some e), h')
  | None => (ROk (bytes, None), h')
  end.
Definition write_all (i : ino) (bytes : text) : io unit :=
  syscall (λ f, (ROk tt, update_inode (λ x, x <| i_bytes := i_bytes x ++ bytes |>) i f)).
Definition set_permissions (i : ino) (mode : Z) : io unit :=
  syscall (λ f, (ROk tt, update_inode (λ x, x <| i_mode := mode |>) i f)).

(** [Drop for Staged]: an unpublished temporary file is unlinked, if that
    works. *)
Definition drop_staged {E A} (s : Staged) (m : eff host_state E A) : eff host_state E A := λ h,
  match m h with
  | (ROk a, h') => (ROk a, h')
  | (RErr e, h') => (RErr e, (platform_delete (s_directory s) (s_name s) h').2)
  end.

Definition stage (p : Parent) (bytes : text) (mode : option Z) : io Staged :=
  sequence ← next_sequence;
  let nm := temporary_name sequence in
  _ ← try_clone;
  file ← child (p_directory p) nm false true;
  let staged := mk_staged (p_directory p) nm file in
  drop_staged staged (
    _ ← write_all file bytes;
    _ ← (match mode with Some m => set_permissions file m | None => mret tt end);
    _ ← sync_all;
    mret staged).

Definition publish (p : Parent) (staged : Staged) (create : bool) : eff host_state CommitError unit :=
  _ ← on_err (mk_commit_error false)
        (drop_staged staged (platform_publish (p_directory p) (p_name p) (s_name staged) create));
  _ ← on_err (mk_commit_error true) (finish_publish (p_directory p) (s_name staged) create);
  on_err (mk_commit_error true) sync_all.

Definition parent_delete (p : Parent) : eff host_state CommitError unit :=
  _ ← on_err (mk_commit_error false) (platform_delete (p_directory p) (p_name p));
  on_err (mk_commit_error true) sync_all.
End fs.
