(* ===== verification/Workspace.v ===== *)
(** The native agent's workspace: [src/src/nano/workspace.rs] with the path
    rules of [RepoPath] ([src/src/repository_graph/domain.rs]), bounded
    reading, and the failures every file tool reports.  Searching is in
    [Search], editing in [Patch].

    Bounded reading of [src/src/nano/workspace.rs]: what one page of
    [read_file] contains, and that following [next_line] reads the file. *)
From S2P Require Import Prelude Transact Wire Text HostFiles.
#[local] Open Scope list_scope.

(** ** Limits and failures *)
Record Limits : Type := mk_limits {
  file_bytes : Z;
  scan_bytes : Z;
  entries : Z;
  output_bytes : Z;
  elapsed_ms : Z }.
Definition default_limits : Limits :=
  mk_limits (1024 * 1024) (8 * 1024 * 1024) 4096 (24 * 1024) 5000.
Definition limits_valid (l : Limits) : bool :=
  (0 <? file_bytes l) && (file_bytes l <=? 16 * 1024 * 1024)
  && (file_bytes l <=? scan_bytes l) && (scan_bytes l <=? 64 * 1024 * 1024)
  && (1 <=? entries l) && (entries l <=? 65536)
  && (4096 <=? output_bytes l) && (output_bytes l <=? 24 * 1024)
  && (1 <=? elapsed_ms l) && (elapsed_ms l <=? 30000).

Inductive Code : Type :=
  | CInvalidPath | CProtectedPath | CUnsafeFile | CNotFound | CIo | CBinary | CFileTooLarge
  | CConflict | CInvalidPatch | COutputLimit | CInterrupted.
#[global] Instance Code_eq_dec : EqDecision Code.
Proof. solve_decision. Defined.
Definition code_text (c : Code) : string :=
  match c with
  | CInvalidPath => "invalid_path" | CProtectedPath => "protected_path" | CUnsafeFile => "unsafe_file"
  | CNotFound => "not_found" | CIo => "io" | CBinary => "binary" | CFileTooLarge => "file_too_large"
  | CConflict => "conflict" | CInvalidPatch => "invalid_patch" | COutputLimit => "output_limit"
  | CInterrupted => "interrupted"
  end.

Record Failure : Type := mk_failure {
  f_code : Code;
  f_path : text;
  f_current_digest : option text;
  f_message : string }.
#[global] Instance Failure_eq_dec : EqDecision Failure.
Proof. solve_decision. Defined.
Definition code_message (c : Code) : string :=
  match c with
  | CConflict => "Base changed; read_file again and rebuild exact hunks."
  | CInvalidPatch => "Use ordered, non-overlapping, exact whole-line hunks against the expected digest."
  | CNotFound => "Path or parent directory is missing; parents must already exist."
  | CProtectedPath => "Git metadata and Ferrus runtime state are not file-tool targets."
  | CUnsafeFile => "Symlinks, reparse points, hardlinks, and non-regular files are unsupported."
  | CBinary => "Only UTF-8 text without NUL bytes is supported."
  | CFileTooLarge => "File exceeds the host's content limit."
  | CInvalidPath => "Use a portable relative path inside the authorized workspace."
  | COutputLimit => "Narrow the request to fit the host's output limit."
  | CInterrupted => "Operation stopped at a bounded cancellation or deadline checkpoint."
  | CIo => "Filesystem operation failed; inspect the reported per-path state before retrying."
  end.
Definition failure_new (c : Code) (path : text) : Failure :=
  mk_failure c (take_chars 256 path) None (code_message c).
Definition failure_io (path : text) (e : io_kind) : Failure :=
  failure_new (match e with
               | NotFound => CNotFound
               | InvalidInput => CInvalidPath
               | Unsupported => CUnsafeFile
               | _ => CIo
               end) path.

(** A slice off a character boundary panics; everything else that goes wrong
    is a [Failure]. *)
Inductive fault : Type :=
  | Fail (f : Failure)
  | Panic.
#[global] Instance fault_eq_dec : EqDecision fault.
Proof. solve_decision. Defined.
Definition failing {A} (c : Code) (path : text) : res fault A := RErr (Fail (failure_new c path)).
Definition unwrap {A} (o : option A) : res fault A := ok_or Panic o.

Record Workspace : Type := mk_workspace {
  ws_root : ino;
  ws_id : text;
  ws_generation : Z;
  ws_limits : Limits }.
#[global] Instance Workspace_eta : Eta Workspace := λ w,
  mk_workspace (ws_root w) (ws_id w) (ws_generation w) (ws_limits w).
#[global] Instance set_ws_generation : Setter ws_generation. Proof. derive_setter. Defined.

Definition digest `{!Sha256} (bytes : text) : text := lit (hex_bytes (sha256 (str bytes))).

(** ** Paths *)
Inductive RepoPathError : Type :=
  | RpEmpty | RpNonUtf8 | RpAbsoluteOrPrefixed | RpForbiddenComponent (component : text) | RpNul.
Fixpoint forbidden_component (components : list text) : option text :=
  match components with
  | [] => None
  | c :: cs =>
    if bool_decide (c = [] ∨ c = lit "." ∨ c = lit "..") then Some c else forbidden_component cs
  end.
Definition repo_path_new (value : text) : res RepoPathError text :=
  if bool_decide (value = []) then RErr RpEmpty else
  if has_char nul value then RErr RpNul else
  let normalized := map (λ c, if Ascii.eqb c "\"%char then "/"%char else c) value in
  if prefix_of (lit "/") normalized || prefix_of (lit "//") normalized
     || match normalized !! 1%nat with Some c => Ascii.eqb c ":"%char | None => false end
  then RErr RpAbsoluteOrPrefixed else
  match forbidden_component (split_on "/"%char normalized) with
  | Some c => RErr (RpForbiddenComponent c)
  | None => ROk normalized
  end.

(** [char::is_control]: the C0 and C1 ranges and DEL. *)
Definition is_control (c : text) : bool :=
  match c with
  | [a] => (byte a <? 32) || (byte a =? 127)
  | [a; b] => (byte a =? 194) && in_range 128 159 b
  | _ => false
  end.
Definition reserved_char (c : text) : bool :=
  match c with
  | [a] => existsb (Ascii.eqb a) (lit ":*?<>|~" ++ ["034"%char])
  | _ => false
  end.
(** The digits of a serial or parallel port, superscripts included. *)
Definition port_digits : text :=
  lit "123456789" ++ ["194"%char; "185"%char; "194"%char; "178"%char; "194"%char; "179"%char].

Section path.
Context `{UP : Uppercase}.

Definition lower_of (component : text) : text := map ascii_lower (to_uppercase component).
Definition protected_component (component : text) : bool :=
  let lower := lower_of component in
  bool_decide (lower = lit ".git" ∨ lower = lit ".ferrus")
  || prefix_of (lit ".nano-tmp-") lower
  || existsb (λ name,
       bool_decide (lower = name)
       || match strip name lower with
          | Some suffix => bool_decide (suffix = lit "-wal" ∨ suffix = lit "-shm" ∨ suffix = lit "-journal")
          | None => false
          end) [lit "ferrus.db"; lit "repo-graph.db"; lit "project-memory.db"].
Definition unportable_component (component : text) : bool :=
  let lower := lower_of component in
  let stem := default [] (head (split_on "."%char lower)) in
  suffix_is "."%char component || suffix_is " "%char component
  || existsb (λ c, is_control c || reserved_char c) (chars component)
  || existsb (λ r, bool_decide (stem = r))
       [lit "con"; lit "prn"; lit "aux"; lit "nul"; lit "conin$"; lit "conout$"]
  || existsb (λ pre, match strip pre stem with
                     | Some s => (Z.of_nat (length (chars s)) =? 1) && has s port_digits
                     | None => false
                     end) [lit "com"; lit "lpt"].
Fixpoint check_components (value : text) (components : list text) : res fault unit :=
  match components with
  | [] => ROk tt
  | c :: cs =>
    if protected_component c then failing CProtectedPath value else
    if unportable_component c then failing CInvalidPath value else
    check_components value cs
  end.
Definition path (value : text) : res fault text :=
  if (256 <? len value) || has_char "\"%char value then failing CInvalidPath value else
  match repo_path_new value with
  | RErr _ => failing CInvalidPath value
  | ROk parsed => _ ← check_components value (split_on "/"%char parsed); ROk parsed
  end.
End path.

(** ** Reading *)
Record Content : Type := mk_content {
  c_text : text;
  c_digest : text;
  c_mode : Z }.
Record Source : Type := mk_source {
  src_workspace_id : text;
  src_generation : Z;
  src_path : text;
  src_digest : text }.
Record ReadRequest : Type := mk_read_request {
  rr_path : text;
  rr_start_line : Z;
  rr_max_lines : Z;
  rr_max_bytes : Z }.
Record ReadResult : Type := mk_read_result {
  rd_source : Source;
  rd_start_line : Z;
  rd_returned_lines : Z;
  rd_next_line : option Z;
  rd_text : text;
  rd_truncated : bool }.

(** File operations; failures as values. *)
Definition act (A : Type) : Type := eff host_state fault A.
Definition io_at {A} (path : text) (m : io A) : act A := on_err (λ e, Fail (failure_io path e)) m.
Definition fail_with {S A} (c : Code) (path : text) : eff S fault A := throw (Fail (failure_new c path)).
Definition reject {S} (b : bool) (c : Code) (path : text) : eff S fault unit :=
  if b then fail_with c path else mret tt.
(** An operation beside a [&mut usize]. *)
Definition beside {S T E A} (m : eff S E A) : eff (S * T) E A := λ st,
  let '(r, s') := m st.1 in (r, (s', st.2)).
Definition count_bytes (n : Z) : eff (host_state * Z) fault unit := λ st, (ROk tt, (st.1, st.2 + n)).

Section reading.
Context `{UP : Uppercase} {SH : Sha256} {JT : JsonText} {HO : Host}.

(** [file.metadata()?.len() > limit], asked a second time. *)
Definition still_larger (file : ino) (path : text) (limit : Z) : act bool :=
  meta ← io_at path (metadata file); mret (limit <? len (i_bytes meta)).

Definition read_content_limited (w : Workspace) (file : ino) (path : text) (read_budget : Z) :
  eff (host_state * Z) fault Content :=
  let limit := Z.min (file_bytes (ws_limits w)) read_budget in
  meta ← beside (io_at path (metadata file));
  _ ← beside (io_at path (regular file));
  _ ← reject (limit <? len (i_bytes meta)) CFileTooLarge path;
  let read_limit := Z.min (limit + 1) read_budget in
  '(bytes, read) ← beside (io_at path (read_take file read_limit));
  _ ← count_bytes (len bytes);
  _ ← (match read with Some e => throw (Fail (failure_io path e)) | None => mret tt end);
  larger ← (if limit <? len bytes then mret true
            else if len bytes =? read_budget then beside (still_larger file path limit)
            else mret false);
  _ ← reject larger CFileTooLarge path;
  _ ← reject (has_char nul bytes) CBinary path;
  _ ← reject (negb (utf8 bytes)) CBinary path;
  mret (mk_content bytes (digest bytes) (i_mode meta)).

Definition read_content (w : Workspace) (file : ino) (path : text) : act Content := λ h,
  let '(r, st) := read_content_limited w file path (file_bytes (ws_limits w) + 1) (h, 0) in (r, st.1).

Definition content (w : Workspace) (path : text) : act Content :=
  file ← io_at path (root_open (ws_root w) path); read_content w file path.

Definition source (w : Workspace) (path digest : text) : Source :=
  mk_source (ws_id w) (ws_generation w) path digest.

(** The budget is charged whether or not the read succeeded. *)
Definition charged_read (w : Workspace) (file : ino) (p : text) : eff (host_state * Z) fault text := λ st,
  let '(r, (h, inspected)) := read_content_limited w file p st.2 (st.1, 0) in
  (c_digest <$> r, (h, saturating_sub st.2 inspected)).
Definition budget_left : eff (host_state * Z) fault Z := λ st, (ROk st.2, st).
Definition evidence_digest (w : Workspace) (value : text) : eff (host_state * Z) fault text :=
  p ← of_res (path value);
  remaining ← budget_left;
  _ ← reject (remaining =? 0) COutputLimit p;
  file ← beside (io_at p (root_open (ws_root w) p));
  charged_read w file p.

(** Cancelled, or out of time; every look is later than the one before.
    [token] is false for [Cancellation::default()], which nobody cancels. *)
Definition stopped (w : Workspace) (token : bool) : act bool := λ h,
  let k := h_tick h in
  (ROk (token && cancelled k || (elapsed_ms (ws_limits w) * 1000000 <=? elapsed k)), h <| h_tick := S k |>).

Definition encoded_len (s : text) : Z := Z.of_nat (String.length (json_text (JStr (str s)))) - 2.

(** The loop of [read_file] over the lines from the first requested one. *)
Fixpoint read_lines (lines bytes budget : Z) (acc : text) (returned encoded_bytes : Z) (rest : list text) :
  text * Z * bool :=
  match rest with
  | [] => (acc, returned, false)
  | line :: rest =>
    if (returned =? lines) || (bytes <? len acc + len line) then (acc, returned, true) else
    let encoded := encoded_len line in
    if budget <? encoded_bytes + encoded then (acc, returned, true) else
    read_lines lines bytes budget (acc ++ line) (returned + 1) (encoded_bytes + encoded) rest
  end.

Definition read_page (l : Limits) (r : ReadRequest) (body : text) : text * Z * bool :=
  read_lines (Z.min (rr_max_lines r) 2000) (Z.min (rr_max_bytes r) (output_bytes l - 1024))
    (output_bytes l - 1024) [] 0 0
    (drop (Z.to_nat (rr_start_line r - 1)) (split_inclusive newline body)).

Definition read_file (w : Workspace) (r : ReadRequest) : act ReadResult :=
  p ← of_res (path (rr_path r));
  _ ← reject ((rr_start_line r =? 0) || (rr_max_lines r =? 0) || (rr_max_bytes r =? 0)) CInvalidPath p;
  c ← content w p;
  let '(body, returned, truncated) := read_page (ws_limits w) r (c_text c) in
  mret (mk_read_result (source w p (c_digest c)) (rr_start_line r) returned
          (if truncated then Some (rr_start_line r + returned) else None) body truncated).
End reading.

Lemma concat_split_inclusive c s : concat (split_inclusive c s) = s.
Proof.
  induction s as [|d s IH]; [done|]. cbn [split_inclusive]. destruct (Ascii.eqb c d); [simpl; by rewrite IH|].
  destruct (split_inclusive c s) as [|l ls]; simpl in *; by rewrite IH.
Qed.

Section reading.
Context {JT : JsonText}.

(** A page is a run of whole lines; it ends where the next line would pass a
    limit. *)
Lemma read_lines_spec lines bytes budget : ∀ rest acc returned encoded t n trunc,
  read_lines lines bytes budget acc returned encoded rest = (t, n, trunc) →
  ∃ k, (k ≤ length rest)%nat ∧ t = acc ++ concat (take k rest) ∧ n = returned + Z.of_nat k
    ∧ (trunc = false ↔ k = length rest)
    ∧ (∀ line, trunc = true → rest !! k = Some line →
         n = lines ∨ bytes < len t + len line
         ∨ budget < encoded + foldr Z.add 0 (encoded_len <$> take k rest) + encoded_len line)
    ∧ (len acc ≤ bytes → len t ≤ bytes) ∧ (returned ≤ lines → n ≤ lines)
    ∧ (encoded ≤ budget → encoded + foldr Z.add 0 (encoded_len <$> take k rest) ≤ budget).
Proof.
  induction rest as [|line rest IH]; intros acc returned encoded t n trunc H; cbn [read_lines] in H.
  { simplify_eq. exists 0%nat. simpl. rewrite app_nil_r. split_and!; try done; try lia. }
  destruct (_ || _) eqn:E1; [|destruct (budget <? encoded + encoded_len line) eqn:E2].
  - simplify_eq. exists 0%nat. simpl. rewrite app_nil_r. split_and!; try done; try lia; try (split; done).
    intros l _ [= <-]. apply orb_true_iff in E1 as [E1|E1]; [apply Z.eqb_eq in E1|apply Z.ltb_lt in E1]; lia.
  - simplify_eq. exists 0%nat. simpl. rewrite app_nil_r. split_and!; try done; try lia; try (split; done).
    intros l _ [= <-]. apply Z.ltb_lt in E2. lia.
  - apply orb_false_iff in E1 as [E1 E3]. apply Z.eqb_neq in E1. apply Z.ltb_ge in E3, E2.
    apply IH in H as (k & Hk & -> & -> & Ht & Hstop & Hb & Hn & He). exists (S k).
    rewrite firstn_cons, fmap_cons, Nat2Z.inj_succ. cbn [concat foldr length lookup list_lookup]. rewrite <-app_assoc in *.
    split_and!; try done; try lia.
    + rewrite Ht. naive_solver.
    + intros l Htr Hl. specialize (Hstop l Htr Hl). lia.
    + intros Ha. apply Hb. rewrite len_app. lia.
Qed.

(** The pages a client reads that follows [next_line], at most [fuel] of
    them. *)
Fixpoint read_on (fuel : nat) (l : Limits) (p : text) (max_lines max_bytes start : Z) (body : text) : option text :=
  match fuel with
  | O => None
  | S fuel =>
    let '(t, returned, truncated) := read_page l (mk_read_request p start max_lines max_bytes) body in
    if truncated then app t <$> read_on fuel l p max_lines max_bytes (start + returned) body else Some t
  end.

End reading.
