(* ===== verification/Hunks.v ===== *)
(** The edits of [src/src/nano/workspace/patch.rs] on one text: exact line
    hunks ([apply_hunks]) and exact single replacements ([replace_exact]),
    and what they mean: a hunk list is the bottom-up application of its
    hunks at the lines of the original, a replacement applies to a text that
    occurs exactly once. *)
From S2P Require Import Prelude Transact Text HostFiles Workspace.
#[local] Open Scope list_scope.

Record Hunk : Type := mk_hunk {
  start_line : Z;
  old_text : text;
  new_text : text }.

(** ** The code *)
Definition missing_old_text : string :=
  "old_text must be nonempty; use create for a new file or batch hunks for insertion at a line boundary.".
Definition old_text_not_found : string :=
  "old_text was not found verbatim. Read the target again and copy an exact unique substring, including indentation and line endings.".
Definition old_text_ambiguous : string :=
  "old_text occurs more than once. Include more surrounding text to select exactly one occurrence; no files were changed.".
Definition invalid_edit {A} (path : text) (message : string) : res fault A :=
  RErr (Fail (mk_failure CInvalidPatch (take_chars 256 path) None message)).

Definition replace_exact (path before old new : text) (limit : Z) : res fault text :=
  match old with
  | [] => invalid_edit path missing_old_text
  | c :: _ =>
    let advance := len_utf8 c in
    match find old before with
    | None => invalid_edit path old_text_not_found
    | Some start =>
      rest ← unwrap (slice_from before (start + advance));
      if has old rest then invalid_edit path old_text_ambiguous else
      let size := saturating_add (saturating_sub (len before) (len old)) (len new) in
      if limit <? size then failing CFileTooLarge path else
      front ← unwrap (slice before 0 start);
      back ← unwrap (slice_from before (start + length old));
      ROk (front ++ new ++ back)
    end
  end.

Definition line_offsets (before : text) : list nat := O :: (S <$> match_indices newline 0 before).

Fixpoint hunk_loop (path before : text) (limit : Z) (output : text) (consumed : nat)
    (previous_start : option nat) (hunks : list Hunk) : res fault text :=
  match hunks with
  | [] =>
    if limit <? saturating_add (len output) (len before - Z.of_nat consumed) then failing CFileTooLarge path else
    rest ← unwrap (slice_from before consumed);
    ROk (output ++ rest)
  | h :: hunks =>
    match checked_sub (start_line h) 1 ≫= λ index, line_offsets before !! Z.to_nat index with
    | None => failing CInvalidPatch path
    | Some start =>
      match checked_add (Z.of_nat start) (len (old_text h)) ≫= λ e, if e <=? len before then Some e else None with
      | None => failing CInvalidPatch path
      | Some e =>
        if Nat.ltb start consumed
           || match previous_start with Some previous => Nat.leb start previous | None => false end
        then failing CInvalidPatch path else
        tail ← unwrap (slice_from before start);
        if negb (prefix_of (old_text h) tail)
           || ((e <? len before) && negb (bool_decide (old_text h = [])) && negb (suffix_is newline (old_text h)))
           || ((e <? len before) && negb (bool_decide (new_text h = [])) && negb (suffix_is newline (new_text h)))
        then failing CInvalidPatch path else
        if limit <? saturating_add (saturating_add (len output) (Z.of_nat (start - consumed))) (len (new_text h))
        then failing CFileTooLarge path else
        kept ← unwrap (slice before consumed start);
        hunk_loop path before limit (output ++ kept ++ new_text h) (Z.to_nat e) (Some start) hunks
      end
    end
  end.
Definition apply_hunks (path before : text) (hunks : list Hunk) (limit : Z) : res fault text :=
  if bool_decide (hunks = []) || (128 <? Z.of_nat (length hunks)) then failing CInvalidPatch path else
  hunk_loop path before limit [] 0 None hunks.

(** ** What the edits mean *)
(** Replacing the [n] bytes at [off]. *)
Definition splice (s : text) (off n : nat) (new : text) : text := take off s ++ new ++ drop (off + n) s.
(** Line [n] (from 1) of the text starts at [off]. *)
Definition line_starts (s : text) (n : Z) (off : nat) : Prop :=
  (off ≤ length s)%nat
  ∧ n = 1 + Z.of_nat (length (match_indices newline 0 (take off s)))
  ∧ (off = O ∨ s !! (off - 1)%nat = Some newline).
(** Nothing or whole lines, unless at the end of the text. *)
Definition whole_lines (s : text) : Prop := s = [] ∨ last s = Some newline.
Definition fits (before : text) (h : Hunk) (off : nat) : Prop :=
  line_starts before (start_line h) off
  ∧ prefix_of (old_text h) (drop off before) = true
  ∧ ((off + length (old_text h) < length before)%nat → whole_lines (old_text h) ∧ whole_lines (new_text h)).
(** Hunks in order, without overlap; [from] is where the previous one ended. *)
Fixpoint ordered (from : nat) (previous : option nat) (hos : list (Hunk * nat)) : Prop :=
  match hos with
  | [] => True
  | (h, off) :: hos =>
    (from ≤ off)%nat ∧ (∀ p, previous = Some p → (p < off)%nat)
    ∧ ordered (off + length (old_text h)) (Some off) hos
  end.
(** The reference: from the last hunk to the first, each at its line of the
    original. *)
Definition splice_all (before : text) (hos : list (Hunk * nat)) : text :=
  foldr (λ ho s, splice s ho.2 (length (old_text ho.1)) (new_text ho.1)) before hos.

(** ** Lines *)
Definition occurrences (c : ascii) (s : text) : nat := length (match_indices c 0 s).

Lemma match_indices_length c i s : length (match_indices c i s) = occurrences c s.
Proof.
  unfold occurrences. generalize O as j. revert i. induction s as [|d s IH]; intros i j; simpl; [done|].
  destruct (Ascii.eqb c d); simpl; by rewrite (IH (S i) (S j)).
Qed.
Lemma occurrences_cons c d s :
  occurrences c (d :: s) = ((if Ascii.eqb c d then 1 else 0) + occurrences c s)%nat.
Proof. unfold occurrences at 1. simpl. destruct (Ascii.eqb c d); simpl; by rewrite match_indices_length. Qed.
Lemma occurrences_app c s t : occurrences c (s ++ t) = (occurrences c s + occurrences c t)%nat.
Proof. induction s as [|d s IH]; [done|]. simpl app. rewrite !occurrences_cons, IH. lia. Qed.

(** The [k]-th occurrence is the one with [k] before it. *)
Lemma match_indices_lookup c i s k x :
  match_indices c i s !! k = Some x ↔ ∃ j, x = (i + j)%nat ∧ s !! j = Some c ∧ occurrences c (take j s) = k.
Proof.
  revert i k. induction s as [|d s IH]; intros i k; simpl; [naive_solver|].
  assert (Hcons : ∀ k', match_indices c (S i) s !! k' = Some x ↔
    ∃ j, x = (i + S j)%nat ∧ (d :: s) !! S j = Some c ∧ occurrences c (take j s) = k').
  { intros k'. rewrite IH. split; intros (j & -> & Hj & Hk); exists j; split_and!; (lia || done). }
  destruct (Ascii.eqb_spec c d) as [->|Hd].
  - destruct k as [|k]; simpl.
    + split; [intros [= <-]; exists O; split_and!; [lia|done..]|].
      intros ([|j] & -> & _ & Ht); [f_equal; lia|]. simpl in Ht. rewrite occurrences_cons, Ascii.eqb_refl in Ht. lia.
    + rewrite Hcons. split.
      * intros (j & -> & Hj & Hk). exists (S j). simpl. rewrite occurrences_cons, Ascii.eqb_refl. split_and!; [lia|done|lia].
      * intros ([|j] & -> & Hj & Hk); [done|]. simpl in Hk. rewrite occurrences_cons, Ascii.eqb_refl in Hk.
        exists j. split_and!; [lia|done|lia].
  - rewrite Hcons. split.
    + intros (j & -> & Hj & Hk). exists (S j). simpl. rewrite occurrences_cons.
      rewrite (proj2 (Ascii.eqb_neq _ _)) by done. split_and!; [lia|done|lia].
    + intros ([|j] & -> & Hj & Hk); [naive_solver|]. simpl in Hk. rewrite occurrences_cons in Hk.
      rewrite (proj2 (Ascii.eqb_neq _ _)) in Hk by done. exists j. split_and!; [lia|done|lia].
Qed.

Lemma line_offsets_starts before n off :
  checked_sub n 1 ≫= (λ index, line_offsets before !! Z.to_nat index) = Some off ↔ line_starts before n off.
Proof.
  unfold checked_sub, line_starts. change (length (match_indices newline 0 (take off before)))
    with (occurrences newline (take off before)).
  destruct (Z.ltb_spec n 1) as [Hn|Hn]; simpl; [split; [done|intros (_ & ? & _); lia]|].
  destruct (Z.to_nat (n - 1)) as [|k] eqn:Ek; simpl.
  - split.
    + intros [= <-]. rewrite take_0. split_and!; [lia| |by left]. unfold occurrences; simpl. lia.
    + intros (Hl & Hn' & [->|Hl']); [done|]. destruct off as [|o]; [done|exfalso].
      replace (S o - 1)%nat with o in Hl' by lia.
      rewrite (take_S_r _ _ _ Hl'), occurrences_app, occurrences_cons, Ascii.eqb_refl in Hn'. lia.
  - rewrite list_lookup_fmap, fmap_Some. split.
    + intros (x & Hx & ->). apply match_indices_lookup in Hx as (j & -> & Hj & Hk). rewrite Nat.add_0_l in *.
      replace (S j - 1)%nat with j by lia.
      rewrite (take_S_r _ _ _ Hj), occurrences_app, occurrences_cons, Ascii.eqb_refl.
      apply lookup_lt_Some in Hj as Hl. unfold occurrences at 2; simpl. split_and!; [lia|lia|by right].
    + intros (Hl & Hn' & Ho). destruct off as [|o].
      { rewrite take_0 in Hn'. unfold occurrences in Hn'; simpl in Hn'. lia. }
      destruct Ho as [|Ho]; [done|]. replace (S o - 1)%nat with o in Ho by lia.
      rewrite (take_S_r _ _ _ Ho), occurrences_app, occurrences_cons, Ascii.eqb_refl in Hn'.
      unfold occurrences at 2 in Hn'; simpl in Hn'. exists o. split; [|done].
      apply match_indices_lookup. exists o. split_and!; [done..|lia].
Qed.
(** Lines start on character boundaries. *)
Lemma line_start_utf8 before n off :
  utf8 before = true → line_starts before n off → utf8 (take off before) = true ∧ utf8 (drop off before) = true.
Proof.
  intros Hu (Hl & _ & Ho). destruct off as [|o]; [by rewrite take_0, drop_0|]. destruct Ho as [|Ho]; [done|].
  replace (S o - 1)%nat with o in Ho by lia. rewrite <-(take_drop_middle _ _ _ Ho) in Hu.
  apply utf8_split_ascii in Hu as [Hp Hr]; [|done]. split; [|done].
  rewrite (take_S_r _ _ _ Ho), utf8_app by done. done.
Qed.

(** ** Splicing *)
Lemma splice_all_prefix before hos from prev :
  ordered from prev hos → Forall (λ ho, (ho.2 ≤ length before)%nat) hos →
  take from (splice_all before hos) = take from before ∧ (from ≤ length before → from ≤ length (splice_all before hos))%nat.
Proof.
  revert from prev. induction hos as [|[h off] hos IH]; intros from prev Ho Hf; [done|].
  simpl in Ho. destruct Ho as (Hfrom & _ & Ho). apply Forall_cons in Hf as [Hoff Hf]. simpl in Hoff.
  destruct (IH _ _ Ho Hf) as [Ht Hlen]. simpl. unfold splice.
  assert (take off (splice_all before hos) = take off before) as Ht'.
  { rewrite <-(Nat.min_l off (off + length (old_text h))) by lia. by rewrite <-!take_take, Ht. }
  rewrite Ht'. split.
  - rewrite take_app_le by (rewrite length_take; lia). rewrite take_take. f_equal. lia.
  - intros _. rewrite length_app, length_take. lia.
Qed.
Lemma splice_all_cons before h off hos prev from :
  ordered from prev ((h, off) :: hos) → Forall (λ ho, (ho.2 ≤ length before)%nat) ((h, off) :: hos) →
  drop from (splice_all before ((h, off) :: hos))
  = take (off - from) (drop from before) ++ new_text h ++ drop (off + length (old_text h)) (splice_all before hos).
Proof.
  intros Ho Hf. simpl in Ho. destruct Ho as (Hfrom & _ & Ho). apply Forall_cons in Hf as [Hoff Hf]. simpl in Hoff.
  destruct (splice_all_prefix _ _ _ _ Ho Hf) as [Ht _].
  assert (take off (splice_all before hos) = take off before) as Ht'.
  { rewrite <-(Nat.min_l off (off + length (old_text h))) by lia. by rewrite <-!take_take, Ht. }
  simpl. unfold splice. rewrite Ht', drop_app_le by (rewrite length_take; lia).
  by rewrite skipn_firstn_comm.
Qed.

(** ** The loop computes the reference *)
Lemma whole_lines_spec s : whole_lines s ↔ negb (bool_decide (s = [])) && negb (suffix_is newline s) = false.
Proof.
  unfold whole_lines, suffix_is. destruct (last s) as [d|] eqn:E.
  - assert (s ≠ []) by (intros ->; done). rewrite bool_decide_eq_false_2 by done. cbn [negb andb].
    rewrite negb_false_iff, Ascii.eqb_eq. naive_solver.
  - apply last_None in E as ->. simpl. naive_solver.
Qed.

(** Where a hunk may go, after what was consumed. *)
Definition placed (before : text) (consumed : nat) (previous : option nat) (h : Hunk) (off : nat) : Prop :=
  fits before h off ∧ (consumed ≤ off)%nat ∧ ∀ p, previous = Some p → (p < off)%nat.

Lemma fits_end before h off :
  fits before h off → ∃ r, drop off before = old_text h ++ r ∧ drop (off + length (old_text h)) before = r
                           ∧ (off + length (old_text h) ≤ length before)%nat.
Proof.
  intros (Hl & Hp & _). apply prefix_of_spec in Hp as [r Hr]. exists r. split_and!; [done| |].
  - by rewrite <-drop_drop, Hr, drop_app_length.
  - destruct Hl as (Hl & _). apply (f_equal length) in Hr. rewrite length_drop, length_app in Hr. lia.
Qed.

Lemma fits_unique before h o1 o2 : fits before h o1 → fits before h o2 → o1 = o2.
Proof. intros (H1 & _) (H2 & _). apply line_offsets_starts in H1, H2. congruence. Qed.

Section loop.
Context (path before : text) (limit : Z).
Hypotheses (Hu : utf8 before = true) (Hsize : len before ≤ usize_max) (Hlimit : limit < usize_max).

Lemma hunk_loop_cons output consumed prev h hunks :
  utf8 (old_text h) = true → (consumed ≤ length before)%nat → utf8 (drop consumed before) = true →
  (∃ off, placed before consumed prev h off
     ∧ utf8 (drop (off + length (old_text h)) before) = true
     ∧ hunk_loop path before limit output consumed prev (h :: hunks)
       = let output' := output ++ take (off - consumed) (drop consumed before) ++ new_text h in
         if limit <? len output' then failing CFileTooLarge path
         else hunk_loop path before limit output' (off + length (old_text h)) (Some off) hunks)
  ∨ (¬ (∃ off, placed before consumed prev h off)
     ∧ hunk_loop path before limit output consumed prev (h :: hunks) = failing CInvalidPatch path).
Proof using Hu Hsize Hlimit.
  intros Hold Hc Huc. cbn [hunk_loop].
  destruct (checked_sub _ _ ≫= _) as [off|] eqn:Eoff; last first.
  { right. split; [|done]. intros (off & ((Hl & _) & _)). apply line_offsets_starts in Hl. congruence. }
  apply line_offsets_starts in Eoff as Hl. destruct (line_start_utf8 _ _ _ Hu Hl) as [Hut Hud].
  assert (Huniq : ∀ off', placed before consumed prev h off' → off' = off).
  { intros off' ((Hl' & _) & _). apply line_offsets_starts in Hl'. congruence. }
  destruct (checked_add _ _ ≫= _) as [e|] eqn:Ee; last first.
  { right. split; [|done]. intros (off' & Hp). rewrite (Huniq _ Hp) in Hp. destruct Hp as [Hp _].
    apply fits_end in Hp as (r & _ & _ & Hle). unfold checked_add in Ee. unfold len in *.
    destruct (Z.ltb_spec usize_max (Z.of_nat off + Z.of_nat (length (old_text h)))); [lia|]. simpl in Ee.
    by rewrite (proj2 (Z.leb_le _ _)) in Ee by lia. }
  assert (e = Z.of_nat (off + length (old_text h)) ∧ e ≤ len before) as [-> Hle].
  { unfold checked_add, len in *. destruct (usize_max <? _); [done|]. simpl in Ee.
    destruct (Z.leb_spec (Z.of_nat off + Z.of_nat (length (old_text h))) (Z.of_nat (length before))); [|done].
    simplify_eq. lia. }
  rewrite Nat2Z.id. destruct (_ || _) eqn:Eord.
  { right. split; [|done]. intros (off' & Hp). rewrite (Huniq _ Hp) in Hp. destruct Hp as (_ & Hge & Hpv).
    apply orb_true_iff in Eord as [Eord|Eord]; [apply Nat.ltb_lt in Eord; lia|].
    destruct prev as [p|]; [|done]. apply Nat.leb_le in Eord. specialize (Hpv p eq_refl). lia. }
  apply orb_false_iff in Eord as [Ege Epv]. apply Nat.ltb_ge in Ege.
  assert (Hpv : ∀ p, prev = Some p → (p < off)%nat) by (intros p ->; by apply Nat.leb_gt in Epv).
  assert (Hoff : (off ≤ length before)%nat) by apply Hl.
  rewrite (slice_from_boundary before off) by done. simpl. destruct (_ || _ || _) eqn:Efit.
  { right. split; [|done]. intros (off' & Hp). rewrite (Huniq _ Hp) in Hp. destruct Hp as ((_ & Hpre & Hwl) & _).
    rewrite Hpre in Efit. simpl in Efit. rewrite <-!andb_assoc, <-andb_orb_distrib_r in Efit.
    apply andb_true_iff in Efit as [Hlt Efit]. apply Z.ltb_lt in Hlt. destruct Hwl as [Hw1 Hw2]; [unfold len in Hlt; lia|].
    apply whole_lines_spec in Hw1, Hw2. by rewrite Hw1, Hw2 in Efit. }
  apply orb_false_iff in Efit as [Efit E3]. apply orb_false_iff in Efit as [E1 E2]. apply negb_false_iff in E1.
  assert (Hfit : fits before h off).
  { split_and!; [done|done|]. intros Hlt. rewrite <-!andb_assoc in E2, E3.
    rewrite (proj2 (Z.ltb_lt _ _)) in E2, E3 by (unfold len; lia). by rewrite !whole_lines_spec. }
  left. exists off. split; [done|]. destruct (fits_end _ _ _ Hfit) as (r & Hr & Hd & _).
  assert (Hur : utf8 r = true) by (rewrite Hr, utf8_app in Hud by done; done).
  split; [by rewrite Hd|]. simpl.
  rewrite (slice_boundary before consumed off) by done. simpl.
  rewrite saturating_limit3, !len_app by (done || apply len_nonneg). unfold len at 4.
  by rewrite length_take, length_drop, Nat.min_l, Z.add_assoc by lia.
Qed.

(** The loop succeeds exactly when every hunk has its place, and then
    continues the reference from what was consumed. *)
Lemma hunk_loop_spec hunks : ∀ output consumed prev out,
  Forall (λ h, utf8 (old_text h) = true) hunks →
  (consumed ≤ length before)%nat → utf8 (drop consumed before) = true →
  hunk_loop path before limit output consumed prev hunks = ROk out ↔
  ∃ hos, hos.*1 = hunks ∧ Forall (λ ho, fits before ho.1 ho.2) hos ∧ ordered consumed prev hos
    ∧ out = output ++ drop consumed (splice_all before hos) ∧ len out ≤ limit.
Proof using Hu Hsize Hlimit.
  induction hunks as [|h hunks IH]; intros output consumed prev out Hold Hc Huc.
  { cbn [hunk_loop]. rewrite saturating_limit by done. rewrite slice_from_boundary by done. simpl.
    assert (len before - Z.of_nat consumed = len (drop consumed before)) as ->
      by (unfold len; rewrite length_drop; lia).
    rewrite <-len_app. destruct (Z.ltb_spec limit (len (output ++ drop consumed before))) as [Hl|Hl].
    - split; [done|]. intros (hos & Hhos & _ & _ & -> & ?). apply fmap_nil_inv in Hhos as ->. simpl in *. lia.
    - split; [intros [= <-]; by exists []|]. intros (hos & Hhos & _ & _ & -> & _).
      by apply fmap_nil_inv in Hhos as ->. }
  apply Forall_cons in Hold as [Hh Hold].
  destruct (hunk_loop_cons output consumed prev h hunks Hh Hc Huc) as [(off & Hp & Hue & ->)|[Hn ->]]; last first.
  { split; [done|]. intros ([|[h' off] hos] & [= -> _] & Hf & (? & ? & _) & _). apply Forall_cons in Hf as [Hf _].
    destruct Hn. by exists off. }
  assert (Hoff : (off + length (old_text h) ≤ length before)%nat) by (destruct Hp as [(r & _ & _ & ?)%fits_end _]; done).
  specialize (IH (output ++ take (off - consumed) (drop consumed before) ++ new_text h) _ (Some off) out Hold Hoff Hue).
  assert (Hstep : ∀ hos, hos.*1 = hunks → Forall (λ ho, fits before ho.1 ho.2) hos →
    ordered (off + length (old_text h)) (Some off) hos →
    output ++ drop consumed (splice_all before ((h, off) :: hos))
    = (output ++ take (off - consumed) (drop consumed before) ++ new_text h)
      ++ drop (off + length (old_text h)) (splice_all before hos)).
  { intros hos _ Hf Ho. destruct Hp as (Hfit & Hge & Hpv).
    rewrite (splice_all_cons _ _ _ _ prev), <-!app_assoc; [done|done|].
    apply (Forall_impl _ _ _ (Forall_cons_2 _ (h, off) hos Hfit Hf)). by intros ho [[? _] _]. }
  simpl. destruct (Z.ltb_spec limit (len (output ++ take (off - consumed) (drop consumed before) ++ new_text h))) as [Hl|Hl].
  - split; [done|]. intros ([|[h' off'] hos] & [= -> <-] & Hf & Ho & -> & Hlen). apply Forall_cons in Hf as [Hf1 Hf].
    assert (off' = off) as -> by (eapply fits_unique; [exact Hf1|apply Hp]).
    rewrite Hstep, len_app in Hlen by (done || apply Ho). pose proof (len_nonneg (drop (off + length (old_text h)) (splice_all before hos))). lia.
  - rewrite IH. split.
    + intros (hos & Hm & Hf & Ho & -> & Hlen). destruct Hp as (Hfit & Hge & Hpv). exists ((h, off) :: hos).
      rewrite Hstep by done. split_and!; simpl; [by f_equal|by constructor|done..].
    + intros ([|[h' off'] hos] & [= -> Hm] & Hf & Ho & -> & Hlen). apply Forall_cons in Hf as [Hf1 Hf].
      assert (off' = off) as -> by (eapply fits_unique; [exact Hf1|apply Hp]).
      exists hos. rewrite <-Hstep by (done || apply Ho). split_and!; try done. apply Ho.
Qed.

(** It fails with one of two codes and never panics. *)
Lemma hunk_loop_total hunks : ∀ output consumed prev,
  Forall (λ h, utf8 (old_text h) = true) hunks →
  (consumed ≤ length before)%nat → utf8 (drop consumed before) = true →
  (∃ out, hunk_loop path before limit output consumed prev hunks = ROk out)
  ∨ hunk_loop path before limit output consumed prev hunks = failing CInvalidPatch path
  ∨ hunk_loop path before limit output consumed prev hunks = failing CFileTooLarge path.
Proof using Hu Hsize Hlimit.
  induction hunks as [|h hunks IH]; intros output consumed prev Hold Hc Huc.
  { cbn [hunk_loop]. rewrite slice_from_boundary by done. destruct (limit <? _); simpl; eauto. }
  apply Forall_cons in Hold as [Hh Hold].
  destruct (hunk_loop_cons output consumed prev h hunks Hh Hc Huc) as [(off & Hp & Hue & ->)|[Hn ->]]; [|by eauto].
  simpl. destruct (limit <? _); [by eauto|]. apply IH; [done| |done].
  by destruct Hp as [(r & _ & _ & ?)%fits_end _].
Qed.
End loop.

Lemma apply_hunks_total path before hunks limit :
  utf8 before = true → Forall (λ h, utf8 (old_text h) = true) hunks →
  len before ≤ usize_max → limit < usize_max →
  (∃ out, apply_hunks path before hunks limit = ROk out)
  ∨ apply_hunks path before hunks limit = failing CInvalidPatch path
  ∨ apply_hunks path before hunks limit = failing CFileTooLarge path.
Proof.
  intros. unfold apply_hunks. destruct (_ || _); [by eauto|]. apply hunk_loop_total; done || lia.
Qed.

(** C34.  Patching with line hunks is the reference: for UTF-8 text that fits
    the machine, [apply_hunks] succeeds exactly when there are 1 to 128 hunks,
    every hunk's old text stands at its line of the original and covers whole
    lines (except at the end of the file), the hunks are in order without
    overlap, and the result respects the limit; the result is then what
    applying the hunks one by one, from the last to the first, gives.  In
    every other case the answer is [InvalidPatch] or [FileTooLarge]: slicing
    never panics. *)
Theorem apply_hunks_is_bottom_up path before hunks limit :
  utf8 before = true → Forall (λ h, utf8 (old_text h) = true) hunks →
  len before ≤ usize_max → limit < usize_max →
  (∀ out, apply_hunks path before hunks limit = ROk out ↔
     1 ≤ Z.of_nat (length hunks) ≤ 128
     ∧ ∃ hos, hos.*1 = hunks ∧ Forall (λ ho, fits before ho.1 ho.2) hos ∧ ordered 0 None hos
         ∧ out = splice_all before hos ∧ len out ≤ limit)
  ∧ ((∃ out, apply_hunks path before hunks limit = ROk out)
     ∨ apply_hunks path before hunks limit = failing CInvalidPatch path
     ∨ apply_hunks path before hunks limit = failing CFileTooLarge path).
Proof.
  intros Hu Hold Hsize Hlimit. split; [|by apply apply_hunks_total]. unfold apply_hunks. intros out.
  destruct (_ || _) eqn:E; last first.
  - apply orb_false_iff in E as [E1 E2]. apply bool_decide_eq_false_1 in E1. apply Z.ltb_ge in E2.
    assert (1 ≤ Z.of_nat (length hunks) ≤ 128) by (destruct hunks; [done|simpl in *; lia]).
    rewrite hunk_loop_spec by (done || lia).
    setoid_rewrite drop_0. naive_solver.
  - split; [done|]. intros (Hn & _). exfalso.
    apply orb_true_iff in E as [E|E]; [apply bool_decide_eq_true_1 in E as ->; simpl in Hn; lia|].
    apply Z.ltb_lt in E. lia.
Qed.

(** ** Exact replacement *)
(** Two occurrences in valid text are a character apart. *)
Lemma occurrence_apart p old s p' s' c o :
  old = c :: o → utf8 old = true → p ++ old ++ s = p' ++ old ++ s' → (length p < length p')%nat →
  (length p + len_utf8 c ≤ length p')%nat.
Proof.
  intros -> Hu Heq Hlt. destruct (len_utf8_first _ _ Hu) as (k & r & -> & <- & Hk & _).
  destruct (decide (length p + S (length k) ≤ length p')%nat) as [|Hn]; [done|exfalso].
  pose proof (f_equal (λ l, l !! length p') Heq) as Hl. cbv beta in Hl.
  rewrite (lookup_app_r p'), Nat.sub_diag in Hl by lia. rewrite (lookup_app_r p) in Hl by lia.
  destruct (length p' - length p)%nat as [|i] eqn:Ei; [lia|]. simpl in Hl.
  rewrite <-app_assoc, lookup_app_l in Hl by lia.
  apply (Forall_lookup_1 _ _ _ _ Hk) in Hl. apply utf8_lead in Hu. congruence.
Qed.

Lemma occurs_at old before i :
  prefix_of old (drop i before) = true → (i ≤ length before)%nat →
  ∃ s, before = take i before ++ old ++ s ∧ length (take i before) = i.
Proof.
  intros [s Hs]%prefix_of_spec Hi. exists s. by rewrite <-Hs, take_drop, length_take_le.
Qed.

Section replace.
Context (path before old new : text) (limit : Z).
Hypotheses (Hu : utf8 before = true) (Hold : utf8 old = true)
  (Hsize : len before ≤ usize_max) (Hlimit : limit < usize_max).

Lemma replace_exact_found c o p s :
  old = c :: o → before = p ++ old ++ s → find old before = Some (length p) →
  ∃ rest, replace_exact path before old new limit
          = (if has old rest then invalid_edit path old_text_ambiguous
             else if limit <? len (p ++ new ++ s) then failing CFileTooLarge path else ROk (p ++ new ++ s))
        ∧ rest = drop (length p + len_utf8 c) before.
Proof using Hu Hold Hsize Hlimit.
  intros Eo Eb Ef. exists (drop (length p + len_utf8 c) before). split; [|done].
  assert (Hcut : utf8 p = true ∧ utf8 (old ++ s) = true).
  { rewrite Eo in *. rewrite Eb in Hu. apply utf8_split_lead in Hu; [done|]. by apply utf8_lead in Hold. }
  destruct Hcut as [Hp Hos]. assert (Hs : utf8 s = true) by (by rewrite utf8_app in Hos).
  destruct (len_utf8_first c o) as (k & r & Ho & Hk & _ & Huk & Hr); [by rewrite <-Eo|].
  assert (Hrest : slice_from before (length p + len_utf8 c) = Some (drop (length p + len_utf8 c) before)).
  { assert (before = (p ++ c :: k) ++ (r ++ s)) as ->
      by (rewrite Eb, Eo, Ho; simpl; by rewrite <-!app_assoc).
    rewrite <-Hk. replace (length p + S (length k))%nat with (length (p ++ c :: k)) by (rewrite length_app; done).
    rewrite drop_app_length. apply slice_from_app. by rewrite utf8_app. }
  assert (Hfront : slice before 0 (length p) = Some p).
  { rewrite Eb, (slice_boundary _ 0 (length p)); rewrite ?drop_0, ?drop_app_length, <-?Eb; try done; [|lia|].
    - rewrite Nat.sub_0_r, Eb. by rewrite take_app_length.
    - rewrite Eb, length_app. lia. }
  assert (Hback : slice_from before (length p + length old) = Some s).
  { rewrite Eb, app_assoc, <-length_app. by apply slice_from_app. }
  unfold replace_exact. rewrite Ef, Hfront, Hback. rewrite Eo, Hrest. simpl.
  destruct (has _ _); [done|].
  rewrite saturating_limit by done. rewrite Eb, Eo, !len_app.
  unfold saturating_sub. pose proof (len_nonneg p). pose proof (len_nonneg s).
  replace (Z.max 0 _ + len new) with (len p + (len new + len s)) by lia. done.
Qed.

(** Another occurrence is found in the rest. *)
Lemma second_occurrence c o p s :
  old = c :: o → before = p ++ old ++ s → find old before = Some (length p) →
  has old (drop (length p + len_utf8 c) before) = false ↔ ∀ p' s', before = p' ++ old ++ s' → p' = p.
Proof using Hu Hold.
  intros Eo Eb Ef. apply find_Some in Ef as (_ & _ & Hfirst). split.
  - intros Hno p' s' Eb'. destruct (lt_eq_lt_dec (length p') (length p)) as [[Hlt|Heq]|Hgt].
    + specialize (Hfirst _ Hlt). by rewrite Eb', drop_app_length, prefix_of_app in Hfirst.
    + rewrite Eb in Eb'. apply app_inj_1 in Eb' as [-> _]; done.
    + exfalso. apply not_true_iff_false in Hno. apply Hno, has_true.
      exists (drop (length p + len_utf8 c) p'), s'. rewrite Eb', drop_app_le; [done|].
      eapply (occurrence_apart p old s); [done..| |done]. by rewrite <-Eb.
  - intros Huniq. apply not_true_is_false. intros (q & s' & Hq)%has_true.
    assert (Eb' : before = (take (length p + len_utf8 c) before ++ q) ++ old ++ s')
      by (by rewrite <-app_assoc, <-Hq, take_drop).
    apply Huniq in Eb'. apply (f_equal length) in Eb'. rewrite length_app, length_take in Eb'.
    assert (len_utf8 c ≤ length old)%nat.
    { destruct (len_utf8_first c o) as (k & r & Ho & <- & _); [by rewrite <-Eo|]. rewrite Eo, Ho. simpl. rewrite length_app. lia. }
    assert (0 < len_utf8 c)%nat by (unfold len_utf8; repeat case_match; lia).
    rewrite Nat.min_l in Eb'; [lia|]. rewrite Eb, !length_app. lia.
Qed.
End replace.
Lemma replace_exact_no_panic path before old new limit :
  utf8 before = true → utf8 old = true → len before ≤ usize_max → limit < usize_max →
  replace_exact path before old new limit ≠ RErr Panic.
Proof.
  intros Hu Hold Hsize Hlimit. destruct old as [|c o] eqn:Eo; [done|]. rewrite <-Eo in *.
  destruct (find old before) as [i|] eqn:Ef.
  - pose proof Ef as (Hi & Hp & _)%find_Some. destruct (occurs_at _ _ _ Hp Hi) as (s & Eb & Hlen).
    rewrite <-Hlen in Ef.
    destruct (replace_exact_found path before old new limit Hu Hold Hsize Hlimit c o (take i before) s) as (rest & -> & _); [done..|].
    destruct (has old rest); [done|]. by destruct (limit <? _).
  - unfold replace_exact. rewrite Ef. by destruct old.
Qed.

(**  An exact replacement applies to a text that occurs exactly once:
    for UTF-8 text, [replace_exact] succeeds exactly when the old text is
    nonempty and occurs at exactly one position of the file (overlapping
    occurrences count), and then replaces it and nothing else, within the
    limit.  It never panics. *)
Theorem replace_exact_unique path before old new limit :
  utf8 before = true → utf8 old = true → len before ≤ usize_max → limit < usize_max →
  (∀ out, replace_exact path before old new limit = ROk out ↔
     old ≠ [] ∧ ∃ p s, before = p ++ old ++ s ∧ (∀ p' s', before = p' ++ old ++ s' → p' = p)
                ∧ out = p ++ new ++ s ∧ len out ≤ limit)
  ∧ replace_exact path before old new limit ≠ RErr Panic.
Proof.
  intros Hu Hold Hsize Hlimit. split; [|by apply replace_exact_no_panic]. intros out.
  destruct old as [|c o] eqn:Eo; [naive_solver|]. rewrite <-Eo in *.
  destruct (find old before) as [i|] eqn:Ef; last first.
  { assert (replace_exact path before old new limit = invalid_edit path old_text_not_found) as ->
      by (unfold replace_exact; by rewrite Ef, Eo).
    split; [done|]. intros (_ & p & s & Eb & _).
    assert (has old before = true) as Hh by (apply has_true; eauto). unfold has in Hh. by rewrite Ef in Hh. }
  pose proof Ef as Ef'. apply find_Some in Ef' as (Hi & Hp & _). destruct (occurs_at _ _ _ Hp Hi) as (s & Eb & Hlen).
  set (p := take i before) in *. rewrite <-Hlen in Ef.
  destruct (replace_exact_found path before old new limit Hu Hold Hsize Hlimit c o p s) as (rest & -> & ->); [done..|].
  pose proof (second_occurrence before old Hu Hold c o p s Eo Eb Ef) as Hsec.
  destruct (has old (drop (length p + len_utf8 c) before)) eqn:Eh.
  - split; [done|]. intros (_ & p' & s' & Eb' & Huniq & _).
    assert (true = false); [|done]. apply Hsec. intros p'' s'' Eb''. rewrite (Huniq _ _ Eb''). symmetry. eauto.
  - destruct Hsec as [Hsec _]. specialize (Hsec eq_refl).
    assert (Hps : ∀ p' s', before = p' ++ old ++ s' → p' = p ∧ s' = s).
    { intros p' s' Eb'. pose proof (Hsec _ _ Eb') as ->. rewrite Eb in Eb'. by simplify_list_eq. }
    destruct (Z.ltb_spec limit (len (p ++ new ++ s))) as [Hl|Hl].
    + split; [done|]. intros (_ & p' & s' & Eb' & _ & -> & ?).
      apply Hps in Eb' as [-> ->]. lia.
    + split.
      * intros [= <-]. split; [by rewrite Eo|]. by exists p, s.
      * intros (_ & p' & s' & Eb' & _ & -> & _). by apply Hps in Eb' as [-> ->].
Qed.
