(* ===== verification/HostFacts.v ===== *)
(** What the file operations of [HostFiles] do to the tree of files and
    directories a reader sees, on a host where no other process interferes.
    Temporary files of the workspace are not part of that tree. *)
From S2P Require Import Prelude Transact Wire Text HostFiles Workspace.
#[local] Open Scope list_scope.

(** ** The visible tree *)
Definition temporary (nm : text) : bool := prefix_of temporary_prefix nm.
(** A directory, or a file with its bytes and mode. *)
Inductive node : Type :=
  | DirNode (i : Z * Z)
  | FileNode (bytes : text) (mode : Z)
  | OtherNode.
Definition node_of (i : ino) (x : inode) : node :=
  match i_kind x with
  | Directory => DirNode i
  | RegularFile => FileNode (i_bytes x) (i_mode x)
  | SpecialFile => OtherNode
  end.
Definition look (f : files) (k : Z * Z * text) : option node :=
  i ← entry f k.1 k.2; node_of i <$> inode_of f i.

#[global] Arguments look : simpl never.

(** The names of a reader: not temporary, and proper components. *)
Definition user_name (nm : text) : Prop := temporary nm = false ∧ nm ≠ lit ".".
(** Equal up to temporary files. *)
#[global] Instance files_equiv : Equiv files := λ f g, ∀ d nm, user_name nm → look f (d, nm) = look g (d, nm).
#[global] Instance files_equivalence : Equivalence (≡@{files}).
Proof.
  split; [by intros f d nm _|by intros f g H d nm Hn; rewrite H|].
  intros f g k H1 H2 d nm Hn. by rewrite H1, H2.
Qed.

(** Every entry has its inode. *)
Definition linked (f : files) : Prop := ∀ k i, names f !! k = Some i → is_Some (inodes f !! i).

(** The key a path leads to. *)
Fixpoint walk_tree (f : files) (dir : ino) (parts : list text) : option (Z * Z * text) :=
  match parts with
  | [] => None
  | [nm] => Some (dir, nm)
  | nm :: parts =>
    match look f (dir, nm) with
    | Some (DirNode i) => walk_tree f i parts
    | _ => None
    end
  end.
Definition resolve (f : files) (root : ino) (p : text) : option (Z * Z * text) := walk_tree f root (split_on "/"%char p).

Lemma walk_tree_equiv f g dir parts :
  f ≡ g → Forall user_name parts → walk_tree f dir parts = walk_tree g dir parts.
Proof.
  intros Hfg Hp. revert dir. induction Hp as [|nm parts Hnm Hp IH]; intros dir; [done|]. simpl.
  destruct parts as [|nm' parts]; [done|]. rewrite (Hfg dir nm Hnm).
  destruct (look g (dir, nm)) as [[| |]|]; [apply IH|done..].
Qed.

(** ** Fresh inodes *)
Lemma foldr_max_ge l (x : Z) : x ∈ l → x ≤ foldr Z.max 0 l.
Proof.
  induction l as [|y l IH]; [by intros ?%not_elem_of_nil|].
  intros [->|Hx]%elem_of_cons; simpl; [lia|]. specialize (IH Hx). lia.
Qed.
Lemma new_inode_fresh f dev : inodes f !! new_inode f dev = None.
Proof.
  destruct (inodes f !! new_inode f dev) as [x|] eqn:E; [|done]. exfalso. unfold new_inode in E.
  set (m := foldr _ _ _) in E. assert (1 + m ≤ m) as H; [|lia].
  apply foldr_max_ge, list_elem_of_fmap. exists ((dev, 1 + m), x). split; [done|]. by apply elem_of_map_to_list.
Qed.

(** ** Look-ups after an update *)
Lemma entry_names f dir nm : nm ≠ lit "." → entry f dir nm = names f !! (dir, nm).
Proof. intros H. unfold entry. by rewrite decide_False. Qed.
Lemma temporary_not_dot nm : temporary nm = true → nm ≠ lit ".".
Proof. by intros H ->. Qed.
(** Inode updates that keep kind, bytes and mode are invisible. *)
Lemma look_update_inode g i f k :
  (∀ x, node_of i (g x) = node_of i x) → look (update_inode g i f) k = look f k.
Proof.
  intros Hg. unfold look. change (entry (update_inode g i f) k.1 k.2) with (entry f k.1 k.2).
  destruct (entry f k.1 k.2) as [j|]; [|done]. simpl. unfold inode_of, update_inode. simpl.
  destruct (decide (i = j)) as [<-|Hij]; [rewrite lookup_alter_eq|by rewrite lookup_alter_ne].
  destruct (inodes f !! i) as [x|]; [|done]. simpl. by rewrite Hg.
Qed.
Lemma look_add_links n i f k : look (add_links n i f) k = look f k.
Proof. by apply look_update_inode. Qed.
(** So are updates of an inode that has no visible name. *)
Lemma look_unnamed_inode g i f k :
  entry f k.1 k.2 ≠ Some i → look (update_inode g i f) k = look f k.
Proof.
  intros Hi. unfold look. change (entry (update_inode g i f) k.1 k.2) with (entry f k.1 k.2).
  destruct (entry f k.1 k.2) as [j|]; [|done]. simpl. unfold inode_of, update_inode. simpl.
  by rewrite lookup_alter_ne by congruence.
Qed.
Lemma look_other_name f m k :
  m !! k = names f !! k → look (f <| names := m |>) k = look f k.
Proof. intros H. unfold look, entry. simpl. destruct k as [d nm]. simpl in *. by rewrite H. Qed.
Lemma linked_update g i f : linked f → linked (update_inode g i f).
Proof.
  intros Hf k j Hk. specialize (Hf k j Hk). unfold update_inode. simpl.
  by apply lookup_alter_is_Some.
Qed.
Lemma linked_delete f k : linked f → linked (f <| names := delete k (names f) |>).
Proof. intros Hf k' i Hk. simpl in *. apply lookup_delete_Some in Hk as [_ Hk]. eauto. Qed.
Lemma linked_insert f k i : linked f → is_Some (inodes f !! i) → linked (f <| names := <[k := i]> (names f) |>).
Proof. intros Hf Hi k' j Hk. simpl in *. apply lookup_insert_Some in Hk as [[_ <-]|[_ Hk]]; eauto. Qed.

(** ** Operations that only read *)
Class HasFiles (S : Type) := files_of : S → files.
#[global] Instance host_state_files : HasFiles host_state := h_files.
#[global] Instance beside_files {T} : HasFiles (host_state * T) := λ st, h_files st.1.

Definition reads {S E A} `{!HasFiles S} (m : eff S E A) : Prop := ∀ s, files_of (m s).2 = files_of s.
Create HintDb reads discriminated.

Section reads.
Context {S : Type} `{!HasFiles S} {E : Type}.
Lemma reads_ret {A} (a : A) : reads (mret a : eff S E A).
Proof. done. Qed.
Lemma reads_throw {A} (e : E) : reads (throw e : eff S E A).
Proof. done. Qed.
Lemma reads_of_res {A} (r : res E A) : reads (of_res r : eff S E A).
Proof. done. Qed.
Lemma reads_guard b (e : E) : reads (guard_or b e : eff S E unit).
Proof. by destruct b. Qed.
Lemma reads_bind {A B} (m : eff S E A) (f : A → eff S E B) : reads m → (∀ a, reads (f a)) → reads (m ≫= f).
Proof.
  intros Hm Hf s. unfold mbind, eff_bind. specialize (Hm s). destruct (m s) as [[a|e] s']; simpl in *; [|done].
  by rewrite Hf.
Qed.
Lemma reads_on_err {E' A} (g : E → E') (m : eff S E A) : reads m → reads (on_err g m).
Proof. intros Hm s. specialize (Hm s). unfold on_err. by destruct (m s) as [[a|e] s']. Qed.
Lemma reads_attempt {E' A} (m : eff S E A) : reads m → reads (attempt m : eff S E' (res E A)).
Proof. intros Hm s. specialize (Hm s). unfold attempt. by destruct (m s) as [r s']. Qed.
Lemma reads_beside {T A} (m : eff host_state E A) : reads m → reads (beside m : eff (host_state * T) E A).
Proof. intros Hm [h t]. specialize (Hm h). unfold beside. simpl. destruct (m h) as [r h']. done. Qed.
End reads.
Lemma reads_reject {S} `{!HasFiles S} b c p : reads (reject b c p : eff S fault unit).
Proof. by destruct b. Qed.
Lemma reads_count n : reads (count_bytes n).
Proof. by intros [h i]. Qed.
#[export] Hint Resolve reads_ret reads_throw reads_of_res reads_guard reads_reject reads_count
  reads_on_err reads_attempt reads_beside : reads.

Ltac reads_step :=
  lazymatch goal with
  | |- reads (mbind _ _) => apply reads_bind; [|intros ?]
  | |- reads (match ?x with _ => _ end) => destruct x
  | _ => solve [eauto with reads]
  end.
Ltac solve_reads := repeat reads_step.

Class Quiet {HO : Host} : Prop := interfere_none k f : interfere k f = f.

Section quiet.
Context {HO : Host} {QU : Quiet}.

Lemma syscall_cases {A} (f : files → res io_kind A * files) h :
  (∃ e, (syscall f h).1 = RErr e ∧ h_files (syscall f h).2 = h_files h)
  ∨ ((syscall f h).1 = (f (h_files h)).1 ∧ h_files (syscall f h).2 = (f (h_files h)).2).
Proof.
  unfold syscall. rewrite interfere_none. destruct (fault_at (h_tick h)) as [e|]; [left; by exists e|].
  right. by destruct (f (h_files h)).
Qed.
Lemma syscall_ROk {A} (f : files → res io_kind A * files) h a h' :
  syscall f h = (ROk a, h') → f (h_files h) = (ROk a, h_files h').
Proof.
  intros E. destruct (syscall_cases f h) as [(e & H & _)|[H1 H2]]; rewrite E in *; simpl in *; [done|].
  destruct (f (h_files h)); naive_solver.
Qed.
Lemma syscall_files {A} (f : files → res io_kind A * files) h :
  h_files (syscall f h).2 = h_files h ∨ h_files (syscall f h).2 = (f (h_files h)).2.
Proof. destruct (syscall_cases f h) as [(e & _ & H)|[_ H]]; auto. Qed.
Lemma reads_syscall {A} (f : files → res io_kind A * files) : (∀ g, (f g).2 = g) → reads (syscall f).
Proof. intros Hf h. unfold files_of, host_state_files. destruct (syscall_files f h) as [->| ->]; [done|apply Hf]. Qed.

Lemma reads_metadata i : reads (metadata i).
Proof. apply reads_syscall. intros g. by destruct (inode_of g i). Qed.
#[local] Hint Resolve reads_metadata : reads.
Lemma reads_regular i : reads (regular i).
Proof. unfold regular. solve_reads. Qed.
#[local] Hint Resolve reads_regular : reads.
Lemma reads_child parent nm directory : reads (child parent nm directory false).
Proof.
  unfold child, open_at, c_name. solve_reads. apply reads_syscall. intros g. unfold openat_existing.
  by repeat case_match.
Qed.
#[local] Hint Resolve reads_child : reads.
Lemma reads_walk parts : ∀ dir, reads (walk dir parts).
Proof.
  induction parts as [|nm parts IH]; intros dir; [apply reads_throw|]. simpl.
  destruct parts as [|nm' parts]; [apply reads_ret|]. apply reads_bind; [apply reads_child|auto].
Qed.
#[local] Hint Resolve reads_walk : reads.
Lemma reads_root_parent root p : reads (root_parent root p).
Proof. unfold root_parent, root_directory. solve_reads. Qed.
Lemma reads_parent_open p : reads (parent_open p).
Proof. apply reads_child. Qed.
Lemma reads_patch_key p : reads (patch_key p).
Proof. unfold patch_key, identity. solve_reads. Qed.
Lemma reads_read_take i n : reads (read_take i n).
Proof. intros h. unfold read_take, files_of, host_state_files. rewrite interfere_none. by destruct (fault_at _). Qed.
#[local] Hint Resolve reads_root_parent reads_parent_open reads_patch_key reads_read_take : reads.
Lemma reads_io_at {A} p (m : io A) : reads m → reads (io_at p m).
Proof. apply reads_on_err. Qed.
#[local] Hint Resolve reads_io_at : reads.

Context {SH : Sha256}.
Lemma reads_still_larger i p n : reads (still_larger i p n).
Proof. unfold still_larger. solve_reads. Qed.
#[local] Hint Resolve reads_still_larger : reads.
Lemma reads_read_content_limited w i p n : reads (read_content_limited w i p n).
Proof. unfold read_content_limited. solve_reads. Qed.
Lemma reads_read_content w i p : reads (read_content w i p).
Proof.
  intros h. unfold read_content. pose proof (reads_read_content_limited w i p (file_bytes (ws_limits w) + 1) (h, 0)) as H.
  destruct (read_content_limited w i p _ (h, 0)) as [r [h' n]]. done.
Qed.
End quiet.
#[export] Hint Resolve reads_metadata reads_regular reads_child reads_root_parent reads_parent_open reads_patch_key
  reads_read_take reads_io_at reads_read_content_limited reads_read_content : reads.

(** ** What reading returns *)
Lemma eff_ret_ROk {S E A} (a b : A) (s s' : S) : (mret a : eff S E A) s = (ROk b, s') → b = a ∧ s' = s.
Proof. by intros [= <- <-]. Qed.
Ltac eff_inv :=
  repeat match goal with
  | H : (_ ≫= _) _ = (ROk _, _) |- _ => apply eff_bind_ROk in H as (? & ? & ? & H)
  | H : mbind _ _ _ = (ROk _, _) |- _ => apply eff_bind_ROk in H as (? & ? & ? & H)
  | H : mret _ _ = (ROk _, _) |- _ => apply eff_ret_ROk in H as [H ?]; simplify_eq
  | H : throw _ _ = (ROk _, _) |- _ => discriminate H
  | H : (RErr _, _) = (ROk _, _) |- _ => discriminate H
  | H : (ROk _, _) = (ROk _, _) |- _ => injection H as ? ?
  end.
Lemma guard_or_ROk {S E} b (e : E) (s s' : S) u : guard_or b e s = (ROk u, s') ↔ b = true ∧ s' = s.
Proof. unfold guard_or, throw, mret, eff_ret. destruct b, u; naive_solver. Qed.
Lemma reject_ROk {S} b c p (s s' : S) u : reject b c p s = (ROk u, s') ↔ b = false ∧ s' = s.
Proof. unfold reject, fail_with, throw, mret, eff_ret. destruct b, u; naive_solver. Qed.
Lemma on_err_ROk {S E E' A} (g : E → E') (m : eff S E A) s a s' : on_err g m s = (ROk a, s') ↔ m s = (ROk a, s').
Proof. unfold on_err. destruct (m s) as [[?|?] ?]; naive_solver. Qed.
Lemma io_at_ROk {A} p (m : io A) h a h' : io_at p m h = (ROk a, h') ↔ m h = (ROk a, h').
Proof. apply on_err_ROk. Qed.
Lemma of_res_ROk {S E A} (r : res E A) (s s' : S) a : of_res r s = (ROk a, s') ↔ r = ROk a ∧ s' = s.
Proof. unfold of_res. naive_solver. Qed.
Lemma beside_ROk {S T E A} (m : eff S E A) st a st' :
  (beside m : eff (S * T) E A) st = (ROk a, st') ↔ m st.1 = (ROk a, st'.1) ∧ st'.2 = st.2.
Proof. unfold beside. destruct st as [s t], st' as [s' t'], (m s) as [r s1] eqn:Em; simpl; rewrite Em; naive_solver. Qed.
Lemma reads_ROk {E A} (m : eff host_state E A) h r h' : reads m → m h = (r, h') → h_files h' = h_files h.
Proof. intros Hm Hh. specialize (Hm h). by rewrite Hh in Hm. Qed.

Section read_results.
Context {HO : Host} {QU : Quiet}.

Lemma metadata_ROk i h x h' : metadata i h = (ROk x, h') → inode_of (h_files h) i = Some x ∧ h_files h' = h_files h.
Proof.
  intros H. split; [|by eapply reads_ROk, H; auto with reads].
  apply syscall_ROk in H. destruct (inode_of (h_files h) i); naive_solver.
Qed.
Lemma child_dir_ROk dir nm h i h' :
  child dir nm true false h = (ROk i, h') → look (h_files h) (dir, nm) = Some (DirNode i).
Proof.
  unfold child, open_at. intros H. eff_inv. apply guard_or_ROk in H0 as [_ ->].
  apply syscall_ROk in H1 as Ho. unfold openat_existing in Ho. unfold look. simpl.
  destruct (entry (h_files h) dir nm) as [j|]; [|done]. simpl. destruct (inode_of (h_files h) j) as [y|]; [|done].
  unfold is_dir in Ho. destruct (bool_decide_reflect (i_kind y = Directory)) as [Hk|]; simplify_eq/=.
  unfold node_of. by rewrite Hk.
Qed.
Lemma walk_ROk parts : ∀ dir h p h',
  walk dir parts h = (ROk p, h') → walk_tree (h_files h) dir parts = Some (p_directory p, p_name p).
Proof.
  induction parts as [|nm parts IH]; intros dir h p h' H; [done|]. cbn [walk walk_tree] in *.
  destruct parts as [|nm' parts]; [by eff_inv|]. eff_inv.
  rewrite (child_dir_ROk _ _ _ _ _ H0). apply IH in H. rewrite <-H. f_equal. symmetry. eapply reads_ROk, H0. auto with reads.
Qed.
Lemma root_parent_ROk root p h pa h' :
  root_parent root p h = (ROk pa, h') →
  resolve (h_files h) root p = Some (p_directory pa, p_name pa) ∧ h_files h' = h_files h.
Proof.
  intros H. split; [|eapply reads_ROk, H; auto with reads].
  unfold root_parent, root_directory in H. eff_inv. pose proof (child_dir_ROk _ _ _ _ _ H0) as Hd.
  assert (x = root) as ->.
  { unfold look, entry in Hd. simpl in Hd. destruct (inode_of _ root); simpl in Hd; [|done].
    unfold node_of in Hd. destruct (i_kind i); naive_solver. }
  apply walk_ROk in H. unfold resolve. rewrite <-H. f_equal. symmetry. eapply reads_ROk, H0. auto with reads.
Qed.
End read_results.

(** ** Opening and reading a file *)
Section read_files.
Context {HO : Host} {QU : Quiet} {SH : Sha256}.

Lemma regular_ROk i h u h' :
  regular i h = (ROk u, h') →
  ∃ x, inode_of (h_files h) i = Some x ∧ i_kind x = RegularFile ∧ i_links x = 1 ∧ h_files h' = h_files h.
Proof.
  unfold regular. intros H. eff_inv. apply guard_or_ROk in H as [H ->]. apply metadata_ROk in H0 as [Hx Hf].
  apply andb_true_iff in H as [Hk Hl]. exists x. split_and!; [done|by apply bool_decide_eq_true_1 in Hk|lia|done].
Qed.
Lemma parent_open_ROk p h i h' :
  parent_open p h = (ROk i, h') → entry (h_files h) (p_directory p) (p_name p) = Some i ∧ h_files h' = h_files h.
Proof.
  intros H. split; [|eapply reads_ROk, H; auto with reads]. unfold parent_open, child, open_at in H. eff_inv.
  apply guard_or_ROk in H0 as [_ ->]. apply syscall_ROk in H1. unfold openat_existing in H1.
  destruct (entry _ _ _) as [j|]; [|done]. destruct (inode_of _ j); [|done]. simpl in H1. by simplify_eq.
Qed.

(** A file that could be read was read whole. *)
Lemma read_content_ROk w i p h c h' :
  0 ≤ file_bytes (ws_limits w) → read_content w i p h = (ROk c, h') →
  (∃ x, inode_of (h_files h) i = Some x ∧ i_kind x = RegularFile ∧ i_links x = 1
        ∧ c_text c = i_bytes x ∧ c_mode c = i_mode x)
  ∧ c_digest c = digest (c_text c) ∧ utf8 (c_text c) = true ∧ has_char nul (c_text c) = false
  ∧ len (c_text c) ≤ file_bytes (ws_limits w) ∧ h_files h' = h_files h.
Proof.
  intros Hpos H. assert (Hf : h_files h' = h_files h) by (eapply reads_ROk, H; auto with reads). revert H.
  unfold read_content. destruct (read_content_limited _ _ _ _ _) as [r [h1 n]] eqn:H. simpl. intros [= -> ->].
  unfold read_content_limited in H. rewrite Z.min_l in H by lia. rewrite Z.min_id in H.
  apply eff_bind_ROk in H as (x & [h0 n0] & H0 & H). apply eff_bind_ROk in H as (u1 & [h2 n2] & H1 & H).
  apply eff_bind_ROk in H as (u2 & [h3 n3] & H2 & H). apply eff_bind_ROk in H as ([bytes read] & [h4 n4] & H3 & H).
  apply beside_ROk in H0 as [Hm _]. apply io_at_ROk, metadata_ROk in Hm as [Hx Hf0]. simpl in *.
  apply beside_ROk in H1 as [Hr _]. apply io_at_ROk, regular_ROk in Hr as (x' & Hx' & Hk & Hl & Hf1). simpl in *.
  rewrite Hf0 in Hx'. assert (x' = x) as -> by congruence.
  apply reject_ROk in H2 as [Hsmall [= -> ->]].
  apply eff_bind_ROk in H as (? & [? ?] & Hcount & H). injection Hcount as _ <- _.
  apply beside_ROk in H3 as [Ht _]. simpl in *. apply io_at_ROk in Ht.
  assert (Hbytes : read = None → bytes = i_bytes x).
  { unfold read_take in Ht. rewrite interfere_none, Hf1, Hf0, Hx in Ht. destruct (fault_at _); [by simplify_eq/=|]. simpl in Ht.
    injection Ht as <- <- _. intros _. unfold take_z. apply Z.ltb_ge in Hsmall. rewrite (proj2 (Z.leb_le _ _)) by lia. done. }
  destruct read as [e|]; [by apply eff_bind_ROk in H as (? & ? & ? & _)|]. rewrite Hbytes in * by done. clear Ht Hbytes.
  apply eff_bind_ROk in H as (? & [? ?] & _ & H). apply eff_bind_ROk in H as (? & [? ?] & _ & H).
  eff_inv. apply reject_ROk in H1 as [Hnul _]. apply reject_ROk in H2 as [Hu _]. simpl.
  apply Z.ltb_ge in Hsmall. split_and!; try done.
  - exists x. by split_and!.
  - by apply negb_false_iff.
Qed.
End read_files.

(** ** Staging and publishing *)
Definition tidy {E A} (m : eff host_state E A) : Prop :=
  ∀ h, linked (h_files h) → linked (h_files (m h).2) ∧ h_files (m h).2 ≡ h_files h.
Lemma reads_tidy {E A} (m : eff host_state E A) : reads m → tidy m.
Proof. intros Hm h Hl. specialize (Hm h). unfold files_of, host_state_files in Hm. by rewrite Hm. Qed.
Lemma tidy_bind {E A B} (m : eff host_state E A) (f : A → eff host_state E B) :
  tidy m → (∀ a, tidy (f a)) → tidy (m ≫= f).
Proof.
  intros Hm Hf h Hl. unfold mbind, eff_bind. specialize (Hm h Hl). destruct (m h) as [[a|e] h1]; simpl in *; [|done].
  destruct Hm as [Hl1 Heq]. specialize (Hf a h1 Hl1) as [Hl2 Heq2]. split; [done|]. by etransitivity.
Qed.

(** A staged file: one name, which is temporary, and its inode. *)
Record staged_at (f : files) (s : Staged) (bytes : text) (mode : Z) : Prop := mk_staged_at {
  sa_temporary : temporary (s_name s) = true;
  sa_entry : names f !! (s_directory s, s_name s) = Some (s_file s);
  sa_inode : inodes f !! s_file s = Some (mk_inode RegularFile bytes mode 1);
  sa_only : ∀ k, names f !! k = Some (s_file s) → k = (s_directory s, s_name s) }.

Lemma user_entry f dir nm : user_name nm → entry f dir nm = names f !! (dir, nm).
Proof. intros [_ H]. by apply entry_names. Qed.
Lemma user_not_temporary nm t : user_name nm → temporary t = true → nm ≠ t.
Proof. intros [Hn _] Ht ->. congruence. Qed.
#[export] Hint Resolve temporary_not_dot user_not_temporary : core.

Lemma openat_create_facts f dir nm i f' :
  linked f → temporary nm = true → openat_create dir nm f = (ROk i, f') →
  linked f' ∧ f' ≡ f ∧ staged_at f' (mk_staged dir nm i) [] 384.
Proof.
  intros Hl Ht H. unfold openat_create in H. rewrite entry_names in H by auto.
  destruct (names f !! (dir, nm)) as [j|] eqn:En; [done|]. set (i' := new_inode f dir.1) in H. injection H as <- <-.
  pose proof (new_inode_fresh f dir.1 : inodes f !! i' = None) as Hfresh.
  assert (Hother : ∀ k j, names f !! k = Some j → j ≠ i') by (intros k j Hk ->; apply Hl in Hk as [? ?]; congruence).
  split_and!.
  - intros k j Hk. simpl in *. destruct (decide (j = i')) as [->|Hj]; [rewrite lookup_insert_eq; eauto|].
    rewrite lookup_insert_ne by done. apply lookup_insert_Some in Hk as [[_ <-]|[_ Hk]]; [done|eauto].
  - intros d nm' Hnm. unfold look. simpl. rewrite !user_entry by done. simpl.
    rewrite lookup_insert_ne by (intros [= _ ?]; by eapply user_not_temporary).
    destruct (names f !! (d, nm')) as [j|] eqn:Ej; [|done]. simpl. unfold inode_of. simpl.
    by rewrite lookup_insert_ne by (symmetry; eauto).
  - split; simpl; [done|by rewrite lookup_insert_eq..|].
    intros k Hk. apply lookup_insert_Some in Hk as [[<- _]|[_ Hk]]; [done|]. by apply Hother in Hk.
Qed.

(** Writing to a staged file. *)
Lemma staged_update g f s bytes mode bytes' mode' :
  linked f → staged_at f s bytes mode →
  g (mk_inode RegularFile bytes mode 1) = mk_inode RegularFile bytes' mode' 1 →
  linked (update_inode g (s_file s) f) ∧ update_inode g (s_file s) f ≡ f
  ∧ staged_at (update_inode g (s_file s) f) s bytes' mode'.
Proof.
  intros Hl [Ht He Hi Ho] Hg. split_and!; [by apply linked_update| |].
  - intros d nm Hnm. apply look_unnamed_inode. simpl. rewrite user_entry by done. intros Hk. apply Ho in Hk as [= _ ->].
    destruct Hnm. congruence.
  - split; simpl; try done. by rewrite lookup_alter_eq, Hi, <-Hg.
Qed.
Lemma unlink_temporary f dir nm :
  linked f → temporary nm = true → linked (unlinkat dir nm f).2 ∧ (unlinkat dir nm f).2 ≡ f.
Proof.
  intros Hl Ht. unfold unlinkat. rewrite entry_names by auto.
  assert (Heq : f <| names := delete (dir, nm) (names f) |> ≡ f).
  { intros d nm' Hnm. apply look_other_name. apply lookup_delete_ne. intros [= _ <-]. by eapply user_not_temporary. }
  destruct (names f !! (dir, nm)) as [i|]; [|done]. destruct (inode_of f i) as [x|].
  - destruct (is_dir x); [done|]. split; [by apply linked_update, linked_delete|].
    intros d nm' Hnm. simpl. rewrite look_add_links. by apply Heq.
  - split; [by apply linked_delete|done].
Qed.

Lemma eff_bind_cases {S E A B} (m : eff S E A) (f : A → eff S E B) s r s' :
  (m ≫= f) s = (r, s') →
  (∃ e, r = RErr e ∧ m s = (RErr e, s')) ∨ (∃ a s1, m s = (ROk a, s1) ∧ f a s1 = (r, s')).
Proof. unfold mbind, eff_bind. destruct (m s) as [[a|e] s1]; [by eauto|]. intros [= <- <-]. eauto. Qed.

Section staging.
Context {HO : Host} {QU : Quiet}.

Lemma tidy_delete_temporary dir nm : temporary nm = true → tidy (platform_delete dir nm).
Proof.
  intros Ht. unfold platform_delete. apply tidy_bind; [apply reads_tidy, reads_guard|]. intros _ h Hl.
  destruct (syscall_files (unlinkat dir nm) h) as [->| ->]; [done|]. by apply unlink_temporary.
Qed.

Lemma create_spec dir nm h r h' :
  linked (h_files h) → temporary nm = true → child dir nm false true h = (r, h') →
  linked (h_files h') ∧ h_files h' ≡ h_files h
  ∧ ∀ i, r = ROk i → staged_at (h_files h') (mk_staged dir nm i) [] 384.
Proof.
  intros Hl Ht H. unfold child, open_at in H.
  apply eff_bind_cases in H as [(e & -> & H)|(u & h1 & H1 & H)].
  { eapply reads_ROk in H as ->; [done|apply reads_guard]. }
  apply guard_or_ROk in H1 as [_ ->].
  destruct (syscall (openat_create dir nm) h) as [[i|e] h1] eqn:Es; last first.
  { rewrite (eff_bind_err _ _ _ _ _ Es) in H. injection H as <- <-.
    destruct (syscall_cases (openat_create dir nm) h) as [(e' & _ & Hf)|[Hr Hf]]; rewrite Es in *; simpl in *; rewrite Hf; [done|].
    unfold openat_create in *. by destruct (entry _ _ _). }
  rewrite (eff_bind_run _ _ _ _ _ Es) in H. apply syscall_ROk in Es. apply openat_create_facts in Es as (Hl1 & Heq & Hst); [|done..].
  assert (h_files h' = h_files h1) as -> by (eapply reads_ROk, H; solve_reads).
  split_and!; [done..|]. intros j ->. eff_inv. done.
Qed.

(** One step on a staged file. *)
Lemma staged_step g s bytes mode bytes' mode' h r h' :
  linked (h_files h) → staged_at (h_files h) s bytes mode →
  g (mk_inode RegularFile bytes mode 1) = mk_inode RegularFile bytes' mode' 1 →
  syscall (λ f, (ROk tt, update_inode g (s_file s) f)) h = (r, h') →
  linked (h_files h') ∧ h_files h' ≡ h_files h ∧ (∀ u, r = ROk u → staged_at (h_files h') s bytes' mode').
Proof.
  intros Hl Hs Hg H. destruct (staged_update g _ _ _ _ _ _ Hl Hs Hg) as (Hl' & Heq & Hs').
  destruct (syscall_cases (λ f, (ROk tt, update_inode g (s_file s) f)) h) as [(e & Hr & Hf)|[Hr Hf]];
    rewrite H in *; simpl in *; by rewrite Hf, Hr.
Qed.
Lemma drop_staged_tidy {E A} s (m : eff host_state E A) h r h' :
  temporary (s_name s) = true →
  (∀ r h', m h = (r, h') → linked (h_files h') ∧ h_files h' ≡ h_files h) →
  drop_staged s m h = (r, h') →
  linked (h_files h') ∧ h_files h' ≡ h_files h ∧ ∀ a, r = ROk a → m h = (ROk a, h').
Proof.
  intros Ht Hm H. unfold drop_staged in H. destruct (m h) as [[a|e] h1] eqn:Em.
  - injection H as <- <-. destruct (Hm _ _ eq_refl). split_and!; [done..|]. by intros a' [= <-].
  - injection H as <- <-. destruct (Hm _ _ eq_refl) as [Hl Heq].
    destruct (tidy_delete_temporary (s_directory s) (s_name s) Ht h1 Hl) as [Hl' Heq'].
    split_and!; [done|by etransitivity|done].
Qed.

Lemma fill_spec s t mode h r h' :
  linked (h_files h) → staged_at (h_files h) s [] 384 →
  (_ ← write_all (s_file s) t;
   _ ← (match mode with Some m => set_permissions (s_file s) m | None => mret tt end);
   _ ← sync_all; mret s) h = (r, h') →
  linked (h_files h') ∧ h_files h' ≡ h_files h
  ∧ ∀ s', r = ROk s' → s' = s ∧ staged_at (h_files h') s t (default 384 mode).
Proof.
  intros Hl Hs H. apply eff_bind_cases in H as [(e & -> & H)|(u & h1 & H1 & H)].
  { eapply staged_step in H as (? & ? & _); [done..|]. done. }
  eapply staged_step in H1 as (Hl1 & Heq1 & Hs1); [|done..]. specialize (Hs1 _ eq_refl). simpl in Hs1.
  assert (Hmid : ∀ r2 h2, (match mode with Some m => set_permissions (s_file s) m | None => mret tt end) h1 = (r2, h2) →
    linked (h_files h2) ∧ h_files h2 ≡ h_files h1 ∧ ∀ u, r2 = ROk u → staged_at (h_files h2) s t (default 384 mode)).
  { intros r2 h2 H2. destruct mode as [m|]; [|by injection H2 as <- <-]. eapply staged_step in H2; [exact H2|done..]. }
  apply eff_bind_cases in H as [(e & -> & H)|(u2 & h2 & H2 & H)].
  { apply Hmid in H as (? & Heq & _). split_and!; [done|by etransitivity|done]. }
  apply Hmid in H2 as (Hl2 & Heq2 & Hs2). specialize (Hs2 _ eq_refl).
  assert (h_files h' = h_files h2) as -> by (eapply reads_ROk, H; solve_reads; by apply reads_syscall).
  split_and!; [done|by etransitivity|]. intros s' ->. by eff_inv.
Qed.

Lemma stage_spec p t mode h r h' :
  linked (h_files h) → stage p t mode h = (r, h') →
  linked (h_files h') ∧ h_files h' ≡ h_files h
  ∧ ∀ s, r = ROk s → s_directory s = p_directory p ∧ staged_at (h_files h') s t (default 384 mode).
Proof.
  intros Hl H. unfold stage in H. apply eff_bind_cases in H as [(e & _ & [=])|(q & h1 & Hq & H)].
  assert (h_files h1 = h_files h) as Hf1 by (by injection Hq as _ <-). rewrite <-Hf1 in *.
  assert (Ht : temporary (temporary_name q) = true) by apply prefix_of_app.
  apply eff_bind_cases in H as [(e & -> & H)|(u & h2 & H2 & H)].
  { eapply reads_ROk in H as ->; [done|by apply reads_syscall]. }
  eapply reads_ROk in H2 as Hf; [|by apply reads_syscall]. rewrite <-Hf in *.
  apply eff_bind_cases in H as [(e & -> & H)|(i & h3 & H3 & H)].
  { by apply create_spec in H as (? & ? & _). }
  apply create_spec in H3 as (Hl3 & Heq3 & Hs3); [|done..]. specialize (Hs3 _ eq_refl).
  apply drop_staged_tidy in H as (Hl' & Heq' & Hr); [|done|].
  - split_and!; [done|by etransitivity|]. intros s ->. specialize (Hr _ eq_refl).
    apply fill_spec in Hr as (_ & _ & Hs'); [|done..]. by destruct (Hs' _ eq_refl) as [-> ?].
  - intros r1 h4 Hm. by apply fill_spec in Hm as (? & ? & _).
Qed.
End staging.

(** [g] is [f] with the node at one place replaced. *)
Definition puts (f g : files) (key : Z * Z * text) (n : option node) : Prop :=
  ∀ d nm, user_name nm → look g (d, nm) = if decide ((d, nm) = key) then n else look f (d, nm).
#[global] Instance puts_proper : Proper ((≡) ==> (≡) ==> (=) ==> (=) ==> iff) puts.
Proof.
  intros f f' Hf g g' Hg k _ <- n _ <-. unfold puts.
  split; intros H d nm Hnm; specialize (H d nm Hnm); rewrite (Hf d nm Hnm), (Hg d nm Hnm) in *; done.
Qed.
(** Binding a name to a staged inode. *)
Lemma puts_bind_name f m s t mode to :
  staged_at f s t mode → user_name to → m !! (s_directory s, to) = Some (s_file s) →
  (∀ d nm, user_name nm → (d, nm) ≠ (s_directory s, to) → m !! (d, nm) = names f !! (d, nm)) →
  puts f (f <| names := m |>) (s_directory s, to) (Some (FileNode t mode)).
Proof.
  intros [_ _ Hi _] Hto Hm Hrest d nm Hnm. destruct (decide _) as [[= -> ->]|Hne].
  - unfold look. rewrite user_entry by done. simpl. rewrite Hm. simpl. unfold inode_of. simpl. by rewrite Hi.
  - apply look_other_name. auto.
Qed.
Lemma puts_add_links f g n i key x : puts f g key x → puts f (add_links n i g) key x.
Proof. intros H d nm Hnm. rewrite look_add_links. auto. Qed.

Section publishing.
Context (f : files) (s : Staged) (t : text) (mode : Z) (to : text).
Hypotheses (Hl : linked f) (Hs : staged_at f s t mode) (Hto : user_name to).

Lemma linkat_facts r g :
  linkat (s_directory s) (s_name s) to f = (r, g) →
  (∃ e, r = RErr e ∧ g = f)
  ∨ (r = ROk tt ∧ look f (s_directory s, to) = None ∧ linked g ∧ puts f g (s_directory s, to) (Some (FileNode t mode))).
Proof using Hl Hs Hto.
  destruct Hs as [Ht He Hi Ho]. unfold linkat. rewrite (entry_names f _ (s_name s)), user_entry, He by auto.
  destruct (names f !! (s_directory s, to)) as [j|] eqn:Ej; [intros [= <- <-]; left; eauto|].
  intros [= <- <-]. right. split_and!; [done| | |].
  - unfold look. simpl. by rewrite user_entry, Ej.
  - apply linked_update, linked_insert; eauto.
  - apply puts_add_links, puts_bind_name; [done|done|by rewrite lookup_insert_eq|].
    intros d nm _ Hne. by rewrite lookup_insert_ne.
Qed.
Lemma renameat_facts r g :
  renameat (s_directory s) (s_name s) to f = (r, g) →
  (∃ e, r = RErr e ∧ g = f)
  ∨ (r = ROk tt ∧ linked g ∧ puts f g (s_directory s, to) (Some (FileNode t mode))).
Proof using Hl Hs Hto.
  destruct Hs as [Ht He Hi Ho]. unfold renameat. rewrite (entry_names f _ (s_name s)), user_entry, He by auto.
  set (m := <[(s_directory s, to) := s_file s]> (delete (s_directory s, s_name s) (names f))).
  assert (Hm : linked (f <| names := m |>) ∧ puts f (f <| names := m |>) (s_directory s, to) (Some (FileNode t mode))).
  { split; [exact (linked_insert _ (s_directory s, to) (s_file s) (linked_delete f (s_directory s, s_name s) Hl) (mk_is_Some _ _ Hi))|].
    apply puts_bind_name; [done|done|by apply lookup_insert_eq|]. intros d nm Hnm Hne. unfold m.
    rewrite lookup_insert_ne, lookup_delete_ne; [done| |by apply not_eq_sym].
    intros [= _ <-]. by eapply user_not_temporary. }
  destruct Hm as [Hlm Hpm].
  destruct (names f !! (s_directory s, to)) as [j|] eqn:Ej; [|intros [= <- <-]; by right].
  rewrite decide_False; last first.
  { intros <-. apply Ho in Ej as [= ->]. by eapply user_not_temporary. }
  destruct (inode_of f j) as [x|]; [|intros [= <- <-]; by right].
  destruct (is_dir x); intros [= <- <-]; [left; eauto|right]. split_and!; [done|by apply linked_update|by apply puts_add_links].
Qed.
End publishing.

Section publish.
Context {HO : Host} {QU : Quiet}.

Lemma platform_publish_spec s t mode to create h r h' :
  linked (h_files h) → staged_at (h_files h) s t mode → user_name to →
  platform_publish (s_directory s) to (s_name s) create h = (r, h') →
  (∃ e, r = RErr e ∧ h_files h' = h_files h)
  ∨ (r = ROk tt ∧ (create = true → look (h_files h) (s_directory s, to) = None) ∧ linked (h_files h')
     ∧ puts (h_files h) (h_files h') (s_directory s, to) (Some (FileNode t mode))).
Proof.
  intros Hl Hs Hto H. unfold platform_publish in H.
  apply eff_bind_cases in H as [(e & -> & H)|(u & h1 & [_ ->]%guard_or_ROk & H)].
  { left. exists e. split; [done|]. eapply reads_ROk, H. apply reads_guard. }
  apply eff_bind_cases in H as [(e & -> & H)|(u' & h1 & [_ ->]%guard_or_ROk & H)].
  { left. exists e. split; [done|]. eapply reads_ROk, H. apply reads_guard. }
  destruct (syscall_cases (if create then linkat (s_directory s) (s_name s) to else renameat (s_directory s) (s_name s) to) h)
    as [(e & Hr & Hf)|[Hr Hf]]; rewrite H in Hr, Hf; simpl in Hr, Hf; [left; eauto|].
  destruct create.
  - destruct (linkat_facts (h_files h) s t mode to Hl Hs Hto _ _ (surjective_pairing _)) as [(e & He & Hg)|(He & Hno & Hlg & Hp)];
      rewrite He in Hr; [rewrite Hg in Hf; left; eauto|right]. by rewrite Hf.
  - destruct (renameat_facts (h_files h) s t mode to Hl Hs Hto _ _ (surjective_pairing _)) as [(e & He & Hg)|(He & Hlg & Hp)];
      rewrite He in Hr; [rewrite Hg in Hf; left; eauto|right]. by rewrite Hf.
Qed.

(** Publishing replaces the target or changes nothing, and says which. *)
Lemma publish_spec p s t mode create h r h' :
  linked (h_files h) → staged_at (h_files h) s t mode → s_directory s = p_directory p → user_name (p_name p) →
  publish p s create h = (r, h') →
  linked (h_files h')
  ∧ ((∃ e, r = RErr (mk_commit_error false e) ∧ h_files h' ≡ h_files h)
     ∨ ((r = ROk tt ∨ ∃ e, r = RErr (mk_commit_error true e))
        ∧ (create = true → look (h_files h) (p_directory p, p_name p) = None)
        ∧ puts (h_files h) (h_files h') (p_directory p, p_name p) (Some (FileNode t mode)))).
Proof.
  intros Hl Hs Hd Hto H. unfold publish in H. rewrite <-Hd in *. pose proof (sa_temporary _ _ _ _ Hs) as Ht.
  destruct (platform_publish (s_directory s) (p_name p) (s_name s) create h) as [r1 h1] eqn:E1.
  destruct (platform_publish_spec _ _ _ _ _ _ _ _ Hl Hs Hto E1) as [(e & -> & Hf)|(-> & Hno & Hl1 & Hp)].
  { unfold mbind, eff_bind, on_err, drop_staged in H. rewrite E1 in H. injection H as <- <-.
    destruct (tidy_delete_temporary (s_directory s) (s_name s) Ht h1) as [Hl' Heq]; [by rewrite Hf|].
    split; [done|]. left. exists e. split; [done|]. by rewrite <-Hf. }
  assert (E1' : on_err (mk_commit_error false) (drop_staged s (platform_publish (s_directory s) (p_name p) (s_name s) create)) h
    = (ROk tt, h1)) by (unfold on_err, drop_staged; by rewrite E1).
  rewrite (eff_bind_run _ _ _ _ _ E1') in H.
  assert (Htail : linked (h_files h') ∧ h_files h' ≡ h_files h1 ∧ (r = ROk tt ∨ ∃ e, r = RErr (mk_commit_error true e))).
  { assert (tidy (on_err (mk_commit_error true) (finish_publish (s_directory s) (s_name s) create))) as Hfin.
    { intros h2 Hl2. unfold on_err, finish_publish. destruct create; [|done].
      destruct (tidy_delete_temporary (s_directory s) (s_name s) Ht h2 Hl2) as [??].
      by destruct (platform_delete (s_directory s) (s_name s) h2) as [[?|?] ?]. }
    assert (tidy (on_err (mk_commit_error true) sync_all)) as Hsync by (by apply reads_tidy, reads_on_err, reads_syscall).
    destruct (tidy_bind _ _ Hfin (λ _, Hsync) h1 Hl1) as [Hl' Heq]. rewrite H in Hl', Heq. split_and!; [done..|].
    apply eff_bind_cases in H as [(e & -> & H)|([] & h2 & _ & H)];
      unfold on_err in H; repeat case_match; simplify_eq; eauto.
    match goal with u : () |- _ => destruct u end. eauto. }
  destruct Htail as (Hl' & Heq & Hr). split; [done|]. right. split_and!; [done..|]. by rewrite Heq.
Qed.

(** So does deleting. *)
Lemma parent_delete_spec p h r h' :
  linked (h_files h) → user_name (p_name p) → parent_delete p h = (r, h') →
  linked (h_files h')
  ∧ ((∃ e, r = RErr (mk_commit_error false e) ∧ h_files h' = h_files h)
     ∨ ((r = ROk tt ∨ ∃ e, r = RErr (mk_commit_error true e))
        ∧ puts (h_files h) (h_files h') (p_directory p, p_name p) None)).
Proof.
  intros Hl Hto H. unfold parent_delete in H. set (k := (p_directory p, p_name p)).
  assert (Hdel : ∀ r1 h1, platform_delete (p_directory p) (p_name p) h = (r1, h1) →
    linked (h_files h1) ∧ ((∃ e, r1 = RErr e ∧ h_files h1 = h_files h) ∨ (r1 = ROk tt ∧ puts (h_files h) (h_files h1) k None))).
  { intros r1 h1 H1. unfold platform_delete in H1.
    apply eff_bind_cases in H1 as [(e & -> & H1)|(u & h2 & [_ ->]%guard_or_ROk & H1)].
    { eapply reads_ROk in H1 as ->; [|apply reads_guard]. eauto. }
    destruct (syscall_cases (unlinkat (p_directory p) (p_name p)) h) as [(e & Hr & Hf)|[Hr Hf]];
      rewrite H1 in Hr, Hf; simpl in Hr, Hf; rewrite Hf; [eauto|].
    clear H1 Hf. unfold unlinkat in *. rewrite user_entry in * by done.
    assert (Hp : puts (h_files h) ((h_files h) <| names := delete k (names (h_files h)) |>) k None).
    { clear Hr. intros d nm Hnm. destruct (decide ((d, nm) = k)) as [Ek|Hne].
      - unfold k in Ek |- *. injection Ek as -> ->. unfold look. simpl. rewrite user_entry by done. simpl. by rewrite lookup_delete_eq.
      - apply look_other_name. by apply lookup_delete_ne. }
    destruct (names (h_files h) !! _) as [i|]; [|simpl in *; eauto].
    destruct (inode_of (h_files h) i) as [x|]; [destruct (is_dir x)|]; simpl in *; [by eauto| |].
    - split; [by apply linked_update, linked_delete|]. right. split; [done|]. by apply puts_add_links.
    - split; [by apply linked_delete|]. by right. }
  destruct (platform_delete (p_directory p) (p_name p) h) as [r1 h1] eqn:E1.
  destruct (Hdel _ _ eq_refl) as [Hl1 [(e & -> & Hf)|(-> & Hp)]].
  { unfold mbind, eff_bind, on_err in H. rewrite E1 in H. injection H as <- <-. split; [done|]. left. eauto. }
  assert (E1' : on_err (mk_commit_error false) (platform_delete (p_directory p) (p_name p)) h = (ROk tt, h1))
    by (unfold on_err; by rewrite E1).
  rewrite (eff_bind_run _ _ _ _ _ E1') in H.
  eapply reads_ROk in H as Hf; [|by apply reads_on_err, reads_syscall]. rewrite Hf. split; [done|]. right. split; [|done].
  unfold on_err in H. repeat case_match; simplify_eq; eauto.
  match goal with u : () |- _ => destruct u end. eauto.
Qed.
End publish.
