(* ===== verification/Patch.v ===== *)
(** File-set edits: the rest of [src/src/nano/workspace/patch.rs].  A request
    is preflighted as a whole ([prepare]) and then published file by file
    ([commit_plans]); there is no transaction over several files. *)
From S2P Require Import Prelude View Transact Text HostFiles Wire Workspace Hunks.
#[local] Open Scope list_scope.

Inductive Edit : Type :=
  | Create (path content : text)
  | Update (path expected_digest : text) (hunks : list Hunk)
  | Delete (path expected_digest : text)
  | Replace (path expected_digest old_text new_text : text).
Definition edit_path (e : Edit) : text :=
  match e with Create p _ | Update p _ _ | Delete p _ | Replace p _ _ _ => p end.
Definition PatchRequest : Type := list Edit.

Inductive SingleEdit : Type :=
  | SCreate (path content : text)
  | SUpdate (path expected_digest old_text new_text : text)
  | SDelete (path expected_digest : text).
Definition from_single (e : SingleEdit) : PatchRequest :=
  [match e with
   | SCreate p c => Create p c
   | SUpdate p d o n => Replace p d o n
   | SDelete p d => Delete p d
   end].

Inductive State : Type := NotApplied | Applied | DurabilityUnconfirmed.
#[global] Instance State_eq_dec : EqDecision State.
Proof. solve_decision. Defined.
Record Change : Type := mk_change {
  ch_path : text;
  ch_before_digest : option text;
  ch_intended_digest : option text;
  ch_after_digest : option text;
  ch_state : State }.
Record PatchResult : Type := mk_patch_result {
  pr_workspace_id : text;
  pr_generation : Z;
  pr_complete : bool;
  pr_changes : list Change;
  pr_failure : option Failure }.
#[global] Instance PatchResult_eta : Eta PatchResult := λ r,
  mk_patch_result (pr_workspace_id r) (pr_generation r) (pr_complete r) (pr_changes r) (pr_failure r).
#[global] Instance set_pr_generation : Setter pr_generation. Proof. derive_setter. Defined.
#[global] Instance set_pr_complete : Setter pr_complete. Proof. derive_setter. Defined.
#[global] Instance set_pr_changes : Setter pr_changes. Proof. derive_setter. Defined.
#[global] Instance set_pr_failure : Setter pr_failure. Proof. derive_setter. Defined.
Record Plan : Type := mk_plan {
  pl_path : text;
  pl_before : option text;
  pl_after : option text }.

(** ** Wire forms *)
Definition jtext (s : text) : json := JStr (str s).
Definition ser_hunk (h : Hunk) : json :=
  JObj [("start_line", JNum (start_line h)); ("old_text", jtext (old_text h)); ("new_text", jtext (new_text h))].
Definition ser_edit (e : Edit) : json :=
  match e with
  | Create p c => JObj [("operation", JStr "create"); ("path", jtext p); ("content", jtext c)]
  | Update p d hs => JObj [("operation", JStr "update"); ("path", jtext p); ("expected_digest", jtext d);
                           ("hunks", ser_list ser_hunk hs)]
  | Delete p d => JObj [("operation", JStr "delete"); ("path", jtext p); ("expected_digest", jtext d)]
  | Replace p d o n => JObj [("operation", JStr "replace"); ("path", jtext p); ("expected_digest", jtext d);
                             ("old_text", jtext o); ("new_text", jtext n)]
  end.
Definition ser_request (r : PatchRequest) : json := JObj [("edits", ser_list ser_edit r)].
Definition state_text (s : State) : string :=
  match s with
  | NotApplied => "not_applied" | Applied => "applied" | DurabilityUnconfirmed => "durability_unconfirmed"
  end.
Definition ser_change (c : Change) : json :=
  JObj [("path", jtext (ch_path c)); ("before_digest", ser_option jtext (ch_before_digest c));
        ("intended_digest", ser_option jtext (ch_intended_digest c));
        ("after_digest", ser_option jtext (ch_after_digest c)); ("state", JStr (state_text (ch_state c)))].
Definition ser_failure (f : Failure) : json :=
  JObj ([("code", JStr (code_text (f_code f))); ("path", jtext (f_path f))]
        ++ (match f_current_digest f with Some d => [("current_digest", jtext d)] | None => [] end)
        ++ [("message", JStr (f_message f))]).
Definition ser_patch_result (r : PatchResult) : json :=
  JObj [("source_kind", JStr "workspace"); ("workspace_id", jtext (pr_workspace_id r));
        ("generation", JNum (pr_generation r)); ("complete", JBool (pr_complete r));
        ("changes", ser_list ser_change (pr_changes r)); ("failure", ser_option ser_failure (pr_failure r))].
(** [encode] of [src/src/nano/journal.rs]: the bounded writer fails on the
    write that would exceed the limit. *)
Definition encode `{!JsonText} (j : json) (limit : Z) : option string :=
  if Z.of_nat (String.length (json_text j)) <=? limit then Some (json_text j) else None.

Section patch.
Context `{UP : Uppercase} {SH : Sha256} {JT : JsonText} {HO : Host}.

Definition check_text (w : Workspace) (p t : text) : act unit :=
  _ ← reject (file_bytes (ws_limits w) <? len t) CFileTooLarge p;
  reject (has_char nul t) CBinary p.

Definition valid_digest (d : text) : bool := (len d =? 64) && forallb is_hex_lower d.
(** Opening the target; [None] when there is no such file. *)
Definition open_current (w : Workspace) (parent : Parent) (p : text) : act (option Content) :=
  opened ← attempt (parent_open parent);
  match opened with
  | ROk file => c ← read_content w file p; mret (Some c)
  | RErr NotFound => mret None
  | RErr e => throw (Fail (failure_io p e))
  end.
Definition check_base (w : Workspace) (parent : Parent) (p : text) (expected : option text) : act (option Content) :=
  _ ← reject (match expected with Some d => negb (valid_digest d) | None => false end) CInvalidPatch p;
  current ← open_current w parent p;
  if decide (c_digest <$> current = expected) then mret current
  else throw (Fail (mk_failure CConflict (take_chars 256 p) (c_digest <$> current) (code_message CConflict))).
Definition existing (p : text) (current : option Content) : act Content :=
  match current with Some c => mret c | None => fail_with CNotFound p end.

Definition plan_edit (w : Workspace) (parent : Parent) (p : text) (e : Edit) : act (option text * option text) :=
  match e with
  | Create _ content =>
    _ ← check_base w parent p None;
    _ ← check_text w p content;
    mret (None, Some content)
  | Update _ expected_digest hunks =>
    current ← (check_base w parent p (Some expected_digest) ≫= existing p);
    after ← of_res (apply_hunks p (c_text current) hunks (file_bytes (ws_limits w)));
    _ ← check_text w p after;
    mret (Some (c_digest current), Some after)
  | Replace _ expected_digest old_text new_text =>
    current ← (check_base w parent p (Some expected_digest) ≫= existing p);
    after ← of_res (replace_exact p (c_text current) old_text new_text (file_bytes (ws_limits w)));
    _ ← check_text w p after;
    mret (Some (c_digest current), Some after)
  | Delete _ expected_digest =>
    current ← (check_base w parent p (Some expected_digest) ≫= existing p);
    mret (Some (c_digest current), None)
  end.

Fixpoint prepare_loop (w : Workspace) (token : bool) (seen : list (ino * text)) (edits : list Edit) : act (list Plan) :=
  match edits with
  | [] => mret []
  | e :: edits =>
    stop ← stopped w token;
    _ ← reject stop CInterrupted (edit_path e);
    p ← of_res (path (edit_path e));
    parent ← io_at p (root_parent (ws_root w) p);
    key ← io_at p (patch_key parent);
    _ ← reject (bool_decide (key ∈ seen)) CInvalidPatch p;
    '(before, after) ← plan_edit w parent p e;
    plans ← prepare_loop w token (key :: seen) edits;
    mret (mk_plan p before after :: plans)
  end.
Definition prepare (w : Workspace) (token : bool) (request : PatchRequest) : act (list Plan) :=
  _ ← reject (bool_decide (request = []) || (16 <? Z.of_nat (length request))
              || match encode (ser_request request) (256 * 1024) with Some _ => false | None => true end)
        CInvalidPatch [];
  prepare_loop w token [] request.

Definition patch_result (w : Workspace) (changes : list Change) (failure : option Failure) : PatchResult :=
  mk_patch_result (ws_id w) (ws_generation w) (match failure with None => true | Some _ => false end) changes failure.

(** One file: check, stage, check again, publish. *)
Definition apply_plan (w : Workspace) (plan : Plan) : act (res CommitError unit) :=
  let p := pl_path plan in
  parent ← io_at p (root_parent (ws_root w) p);
  current ← check_base w parent p (pl_before plan);
  match pl_after plan with
  | Some t =>
    staged ← io_at p (stage parent t (c_mode <$> current));
    _ ← drop_staged staged (check_base w parent p (pl_before plan));
    attempt (publish parent staged (bool_decide (pl_before plan = None)))
  | None =>
    _ ← check_base w parent p (pl_before plan);
    attempt (parent_delete parent)
  end.

Definition mark (s : State) (c : Change) : Change :=
  mk_change (ch_path c) (ch_before_digest c) (ch_intended_digest c) (ch_intended_digest c) s.
Definition next_generation (w : Workspace) : Workspace :=
  w <| ws_generation := saturating_add (ws_generation w) 1 |>.

(** The loop over the plans; a failure ends it. *)
Fixpoint commit_loop (w : Workspace) (token : bool) (result : PatchResult) (index : nat) (plans : list Plan) :
  act (PatchResult * Workspace) :=
  match plans with
  | [] => mret (result, w)
  | plan :: plans =>
    stop ← stopped w token;
    if stop : bool then mret (result <| pr_failure := Some (failure_new CInterrupted (pl_path plan)) |>, w) else
    applied ← attempt (apply_plan w plan);
    match applied with
    | ROk (ROk _) =>
      commit_loop (next_generation w) token (result <| pr_changes := alter (mark Applied) index (pr_changes result) |>)
        (S index) plans
    | ROk (RErr error) =>
      let failed := result <| pr_failure := Some (failure_io (pl_path plan) (ce_error error)) |> in
      if ce_changed error
      then mret (failed <| pr_changes := alter (mark DurabilityUnconfirmed) index (pr_changes result) |>,
                 next_generation w)
      else mret (failed, w)
    | RErr (Fail failure) => mret (result <| pr_failure := Some failure |>, w)
    | RErr Panic => throw Panic
    end
  end.
Definition planned_change (plan : Plan) : Change :=
  mk_change (pl_path plan) (pl_before plan) (digest <$> pl_after plan) None NotApplied.
Definition commit_plans (w : Workspace) (token : bool) (plans : list Plan) : act (PatchResult * Workspace) :=
  let result := patch_result w (planned_change <$> plans) None in
  match encode (ser_patch_result result) (saturating_sub (output_bytes (ws_limits w)) 2048) with
  | None => mret (patch_result w [] (Some (failure_new COutputLimit [])), w)
  | Some _ =>
    '(result, w') ← commit_loop w token result 0 plans;
    mret (result <| pr_generation := ws_generation w' |>
                 <| pr_complete := match pr_failure result with None => true | Some _ => false end |>, w')
  end.

Definition apply_patch (w : Workspace) (token : bool) (request : PatchRequest) : act (PatchResult * Workspace) :=
  plans ← attempt (prepare w token request);
  match plans with
  | ROk plans => commit_plans w token plans
  | RErr (Fail failure) => mret (patch_result w [] (Some failure), w)
  | RErr Panic => throw Panic
  end.

(** What is recorded before a potentially partial edit. *)
Record PlannedFile : Type := mk_planned_file {
  pf_path : text;
  pf_before_digest : option text;
  pf_after_digest : option text }.
Definition patch_effect_plan (w : Workspace) (request : PatchRequest) : act (option (list PlannedFile)) :=
  plans ← attempt (prepare w false request);
  match plans with
  | ROk plans => mret (Some ((λ p, mk_planned_file (pl_path p) (pl_before p) (digest <$> pl_after p)) <$> plans))
  | RErr (Fail _) => mret None
  | RErr Panic => throw Panic
  end.
Definition current_digest (w : Workspace) (value : text) : act (option text) :=
  p ← of_res (path value);
  parent ← io_at p (root_parent (ws_root w) p);
  current ← open_current w parent p;
  mret (c_digest <$> current).
End patch.
