(* ===== verification/PatchTheorems.v ===== *)
(** File-set edits refine their meaning on the visible tree: what one edit
    does ([edit_effect]), what a preflighted plan promises ([planned]), and
    that publishing carries out a prefix of the request.

    What [apply_patch] promises: on a host where nobody interferes, whatever
    system calls fail and whenever it is stopped, it carries out a prefix of
    the request exactly and reports it. *)
From S2P Require Import Prelude View Transact Wire Text HostFiles Workspace Hunks HostFacts Patch.
#[local] Open Scope list_scope.

(** ** Names that a request can reach *)
Section path_facts.
Context {UP : Uppercase} {UL : UppercaseLaws}.

Lemma lower_of_ascii a s : is_ascii a = true → lower_of (a ++ s) = map ascii_lower (map ascii_upper a) ++ lower_of s.
Proof. intros Ha. unfold lower_of. by rewrite to_uppercase_ascii, map_app. Qed.
Lemma protected_temporary nm : temporary nm = true → protected_component nm = true.
Proof.
  intros [r ->]%prefix_of_spec. unfold protected_component. rewrite lower_of_ascii by done.
  change (map ascii_lower (map ascii_upper temporary_prefix)) with (lit ".nano-tmp-").
  rewrite prefix_of_app. by rewrite orb_true_r.
Qed.
Lemma check_components_ROk v cs u :
  check_components v cs = ROk u → Forall (λ c, temporary c = false) cs.
Proof.
  induction cs as [|c cs IH]; simpl; [by constructor|]. destruct (protected_component c) eqn:Hc; [done|].
  destruct (unportable_component c); [done|]. intros H. constructor; [|auto].
  apply not_true_is_false. intros Ht%protected_temporary. congruence.
Qed.
Lemma forbidden_component_None cs : forbidden_component cs = None → Forall (λ c, c ≠ lit ".") cs.
Proof.
  induction cs as [|c cs IH]; cbn [forbidden_component]; [by constructor|]. case_bool_decide as Hc; [done|].
  intros H. constructor; [naive_solver|auto].
Qed.
(** Every component of an accepted path is a reader's name. *)
Lemma path_user_names v p : path v = ROk p → Forall user_name (split_on "/"%char p).
Proof.
  unfold path. destruct (_ || _); [done|]. destruct (repo_path_new v) as [q|] eqn:Er; [|done].
  destruct (check_components v (split_on "/" q)) as [u|] eqn:Ec; [|done]. intros [= <-].
  apply check_components_ROk in Ec. revert Er. unfold repo_path_new.
  destruct (bool_decide _); [done|]. destruct (has_char _ _); [done|]. destruct (_ || _); [done|].
  destruct (forbidden_component _) eqn:Ef; [done|]. intros [= <-]. apply forbidden_component_None in Ef.
  unfold user_name. by apply Forall_and.
Qed.
End path_facts.

Lemma walk_tree_name f parts : ∀ dir key, walk_tree f dir parts = Some key → key.2 ∈ parts.
Proof.
  induction parts as [|nm parts IH]; intros dir key H; [done|]. cbn [walk_tree] in H.
  destruct parts as [|nm' parts]; [injection H as <-; by left|]. destruct (look f (dir, nm)) as [[| |]|]; try done.
  right. by eapply IH.
Qed.
(** Two trees with the same directories. *)
Definition same_dirs (f g : files) : Prop :=
  ∀ d nm i, user_name nm → look f (d, nm) = Some (DirNode i) ↔ look g (d, nm) = Some (DirNode i).
Lemma walk_tree_dirs f g parts : same_dirs f g → Forall user_name parts →
  ∀ dir, walk_tree f dir parts = walk_tree g dir parts.
Proof.
  intros Hfg Hp. induction Hp as [|nm parts Hnm Hp IH]; intros dir; [done|]. cbn [walk_tree].
  destruct parts as [|nm' parts]; [done|]. pose proof (λ i, Hfg dir nm i Hnm) as Hd.
  destruct (look f (dir, nm)) as [[i| |]|] eqn:Ef, (look g (dir, nm)) as [[j| |]|] eqn:Eg; try done.
  all: first [specialize (Hd i) | specialize (Hd j)]; naive_solver.
Qed.
Definition not_dir (n : option node) : Prop := ∀ i, n ≠ Some (DirNode i).
Lemma puts_same_dirs f g key n : puts f g key n → not_dir (look f key) → not_dir n → same_dirs g f.
Proof.
  intros Hp Hf Hn d nm i Hnm. rewrite (Hp d nm Hnm). case_decide as Hk; [|done]. subst key.
  split; intros H; [by apply Hn in H|by apply Hf in H].
Qed.

(** ** What an edit does *)
Section effects.
Context {UP : Uppercase} {SH : Sha256}.

(** The node after an edit, from the node before it. *)
Inductive edit_effect (limit : Z) : Edit → option node → option node → Prop :=
  | create_effect p content :
      len content ≤ limit → has_char nul content = false →
      edit_effect limit (Create p content) None (Some (FileNode content 384))
  | update_effect p v d hunks b mode a :
      d = digest b → apply_hunks v b hunks limit = ROk a → has_char nul a = false →
      edit_effect limit (Update p d hunks) (Some (FileNode b mode)) (Some (FileNode a mode))
  | replace_effect p v d old new b mode a :
      d = digest b → replace_exact v b old new limit = ROk a → has_char nul a = false →
      edit_effect limit (Replace p d old new) (Some (FileNode b mode)) (Some (FileNode a mode))
  | delete_effect p d b mode :
      d = digest b → edit_effect limit (Delete p d) (Some (FileNode b mode)) None.

(** The plan of an edit, and where it goes. *)
Record planned (f : files) (root : ino) (limit : Z) (e : Edit) (plan : Plan) (key : ino * text) : Prop := {
  pd_path : path (edit_path e) = ROk (pl_path plan);
  pd_key : resolve f root (pl_path plan) = Some key;
  pd_effect : match pl_before plan with
              | None => ∃ t, pl_after plan = Some t ∧ edit_effect limit e None (Some (FileNode t 384))
              | Some d => ∃ b mode, look f key = Some (FileNode b mode) ∧ d = digest b
                   ∧ edit_effect limit e (Some (FileNode b mode)) ((λ t, FileNode t mode) <$> pl_after plan)
              end }.
End effects.

Section preflight.
Context {UP : Uppercase} {SH : Sha256} {JT : JsonText} {HO : Host} {QU : Quiet}.

Lemma attempt_ROk {S E E' A} (m : eff S E A) s r s' : (attempt m : eff S E' (res E A)) s = (ROk r, s') → m s = (r, s').
Proof. unfold attempt. destruct (m s). naive_solver. Qed.

Lemma reads_open_current w pa p : reads (open_current w pa p).
Proof. unfold open_current. solve_reads. Qed.
#[local] Hint Resolve reads_open_current : reads.
Lemma reads_check_base w pa p d : reads (check_base w pa p d).
Proof. unfold check_base. solve_reads. Qed.
#[local] Hint Resolve reads_check_base : reads.
Lemma reads_plan_edit w pa p e : reads (plan_edit w pa p e).
Proof. unfold plan_edit, existing, check_text. solve_reads. Qed.
Lemma reads_stopped w token : reads (stopped w token).
Proof. done. Qed.
#[local] Hint Resolve reads_plan_edit reads_stopped : reads.
Lemma reads_prepare_loop w token edits : ∀ seen, reads (prepare_loop w token seen edits).
Proof.
  induction edits as [|e edits IH]; intros seen; cbn [prepare_loop]; [apply reads_ret|]. solve_reads.
Qed.
#[local] Hint Resolve reads_prepare_loop : reads.
Lemma reads_prepare w token request : reads (prepare w token request).
Proof. unfold prepare. solve_reads. Qed.

Context (w : Workspace) (Hpos : 0 ≤ file_bytes (ws_limits w)).

Lemma check_base_ROk pa p d h oc h' :
  check_base w pa p d h = (ROk oc, h') →
  c_digest <$> oc = d ∧ h_files h' = h_files h
  ∧ ∀ c, oc = Some c → look (h_files h) (p_directory pa, p_name pa) = Some (FileNode (c_text c) (c_mode c))
         ∧ c_digest c = digest (c_text c) ∧ utf8 (c_text c) = true ∧ len (c_text c) ≤ file_bytes (ws_limits w).
Proof using Hpos QU.
  intros H. assert (Hf : h_files h' = h_files h) by (eapply reads_ROk, H; auto with reads).
  unfold check_base in H. eff_inv. apply reject_ROk in H0 as [_ ->].
  case_decide as Hd; [|done]. apply eff_ret_ROk in H as [-> ->]. split_and!; [done..|]. intros c ->. clear Hf Hd.
  unfold open_current in H1. apply eff_bind_ROk in H1 as (op & h1 & Hop & H1).
  apply attempt_ROk in Hop. destruct op as [i|[]]; [|done..].
  apply eff_bind_ROk in H1 as (c' & h2 & H2 & H1). injection H1 as -> _.
  apply parent_open_ROk in Hop as [Hent Hf0].
  apply read_content_ROk in H2 as ((y & Hy & Hk & _ & Ht & Hm) & Hd & Hu & _ & Hlen & _); [|done].
  split_and!; [|done..]. unfold look. simpl. rewrite Hent. simpl. rewrite <-Hf0, Hy. simpl. unfold node_of. by rewrite Hk, Ht, Hm.
Qed.
Lemma check_existing_ROk pa p d h c h' :
  (check_base w pa p (Some d) ≫= existing p) h = (ROk c, h') →
  look (h_files h) (p_directory pa, p_name pa) = Some (FileNode (c_text c) (c_mode c))
  ∧ c_digest c = d ∧ d = digest (c_text c).
Proof using Hpos QU.
  intros H. eff_inv. apply check_base_ROk in H0 as (Hd & _ & Hc). destruct x as [c'|]; [|done].
  cbn [existing] in H. eff_inv. destruct (Hc _ eq_refl) as (? & ? & _). injection Hd as <-. done.
Qed.
Lemma check_text_ROk p t h u h' :
  check_text w p t h = (ROk u, h') → len t ≤ file_bytes (ws_limits w) ∧ has_char nul t = false.
Proof.
  unfold check_text. intros H. eff_inv. apply reject_ROk in H0 as [Hl ->]. apply reject_ROk in H as [Hn _].
  apply Z.ltb_ge in Hl. done.
Qed.

(** What the preflight of one edit found. *)
Lemma plan_edit_ROk pa p e h before after h' :
  plan_edit w pa p e h = (ROk (before, after), h') →
  match before with
  | None => ∃ t, after = Some t ∧ edit_effect (file_bytes (ws_limits w)) e None (Some (FileNode t 384))
  | Some d => ∃ b mode, look (h_files h) (p_directory pa, p_name pa) = Some (FileNode b mode) ∧ d = digest b
       ∧ edit_effect (file_bytes (ws_limits w)) e (Some (FileNode b mode)) ((λ t, FileNode t mode) <$> after)
  end.
Proof using Hpos QU.
  destruct e as [? content|? d hunks|? d|? d old new]; unfold plan_edit; intros H.
  - eff_inv. simplify_eq. apply check_text_ROk in H1 as [? ?]. exists content. split; [done|]. by constructor.
  - apply eff_bind_ROk in H as (c & h1 & H1%check_existing_ROk & H). eff_inv. simplify_eq.
    apply of_res_ROk in H0 as [Ha ->]. apply check_text_ROk in H2 as [? ?]. destruct H1 as (Hl & -> & Hd).
    exists (c_text c), (c_mode c). split_and!; [done..|]. by econstructor.
  - apply eff_bind_ROk in H as (c & h1 & H1%check_existing_ROk & H). eff_inv. simplify_eq.
    destruct H1 as (Hl & -> & Hd). exists (c_text c), (c_mode c). split_and!; [done..|]. by constructor.
  - apply eff_bind_ROk in H as (c & h1 & H1%check_existing_ROk & H). eff_inv. simplify_eq.
    apply of_res_ROk in H0 as [Ha ->]. apply check_text_ROk in H2 as [? ?]. destruct H1 as (Hl & -> & Hd).
    exists (c_text c), (c_mode c). split_and!; [done..|]. by econstructor.
Qed.

(** The key under which duplicates of a target are refused. *)
Definition fold_key (key : ino * text) : ino * text := (key.1, fold_name key.2).

Lemma prepare_loop_ROk token edits : ∀ seen h plans h',
  prepare_loop w token seen edits h = (ROk plans, h') →
  ∃ keys, Forall3 (planned (h_files h) (ws_root w) (file_bytes (ws_limits w))) edits plans keys
    ∧ NoDup (fold_key <$> keys) ∧ Forall (λ k, fold_key k ∉ seen) keys.
Proof using Hpos QU.
  induction edits as [|e edits IH]; intros seen h plans h' H; cbn [prepare_loop] in H.
  { eff_inv. exists []. split_and!; constructor. }
  apply eff_bind_ROk in H as (stop & h1 & H1 & H). apply eff_bind_ROk in H as (u & h2 & H2 & H).
  apply eff_bind_ROk in H as (p & h3 & H3 & H). apply eff_bind_ROk in H as (pa & h4 & H4 & H).
  apply eff_bind_ROk in H as (key & h5 & H5 & H). apply eff_bind_ROk in H as (u' & h6 & H6 & H).
  apply eff_bind_ROk in H as ([before after] & h7 & H7 & H). apply eff_bind_ROk in H as (plans' & h8 & H8 & H).
  injection H as <- _. assert (Hf1 : h_files h1 = h_files h) by (by injection H1 as _ <-).
  apply reject_ROk in H2 as [_ ->]. apply of_res_ROk in H3 as [Hp ->].
  apply io_at_ROk, root_parent_ROk in H4 as [Hres Hf4]. rewrite io_at_ROk in H5.
  assert (Hf5 : h_files h5 = h_files h4) by (eapply reads_ROk, H5; auto with reads).
  assert (Hkey : key = fold_key (p_directory pa, p_name pa)).
  { unfold patch_key, identity in H5. eff_inv. done. }
  apply reject_ROk in H6 as [Hnew ->]. apply bool_decide_eq_false_1 in Hnew.
  assert (Hf7 : h_files h7 = h_files h5) by (eapply reads_ROk, H7; auto with reads).
  apply plan_edit_ROk in H7. rewrite Hf5, Hf4, Hf1 in H7. rewrite Hf1 in Hres.
  destruct (IH _ _ _ _ H8) as (keys & Hpl & Hnd & Hns). rewrite Hf7, Hf5, Hf4, Hf1 in Hpl.
  exists ((p_directory pa, p_name pa) :: keys). rewrite Hkey in *. split_and!.
  - constructor; [|done]. by split.
  - rewrite fmap_cons. apply NoDup_cons. split; [|done]. intros (k & Hk & Hin)%list_elem_of_fmap.
    rewrite Forall_forall in Hns. apply (Hns k Hin). rewrite Hk. by left.
  - constructor; [done|]. eapply Forall_impl; [exact Hns|]. set_solver.
Qed.
Lemma prepare_ROk token request h plans h' :
  prepare w token request h = (ROk plans, h') →
  h_files h' = h_files h ∧
  ∃ keys, Forall3 (planned (h_files h) (ws_root w) (file_bytes (ws_limits w))) request plans keys ∧ NoDup keys.
Proof using Hpos QU.
  intros H. split; [eapply reads_ROk, H; apply reads_prepare|]. unfold prepare in H. eff_inv. apply reject_ROk in H0 as [_ ->].
  destruct (prepare_loop_ROk _ _ _ _ _ _ H) as (keys & ? & Hnd & _). exists keys. split; [done|].
  by eapply NoDup_fmap_1.
Qed.
End preflight.

(** ** No panics *)
Definition calm {S A} (m : eff S fault A) : Prop := ∀ s, (m s).1 ≠ RErr Panic.
Create HintDb calm discriminated.
Section calm.
Context {S : Type}.
Lemma calm_ret {A} (a : A) : calm (mret a : eff S fault A).
Proof. done. Qed.
Lemma calm_fail {A} f : calm (throw (Fail f) : eff S fault A).
Proof. done. Qed.
Lemma calm_reject b c p : calm (reject b c p : eff S fault unit).
Proof. by destruct b. Qed.
Lemma calm_io_at {A} p (m : io A) : calm (io_at p m).
Proof. intros h. unfold io_at, on_err. by destruct (m h) as [[?|?] ?]. Qed.
Lemma calm_attempt {E A} (m : eff S E A) : calm (attempt m : eff S fault (res E A)).
Proof. intros s. unfold attempt. by destruct (m s). Qed.
Lemma calm_bind_post {A B} (m : eff S fault A) (f : A → eff S fault B) s :
  calm m → (∀ a s', m s = (ROk a, s') → (f a s').1 ≠ RErr Panic) → ((m ≫= f) s).1 ≠ RErr Panic.
Proof.
  intros Hm Hf. unfold mbind, eff_bind. specialize (Hm s). destruct (m s) as [[a|e] s']; [auto|]. simpl in *. congruence.
Qed.
Lemma calm_bind {A B} (m : eff S fault A) (f : A → eff S fault B) : calm m → (∀ a, calm (f a)) → calm (m ≫= f).
Proof. intros Hm Hf s. apply calm_bind_post; [done|]. intros a s' _. apply Hf. Qed.
Lemma calm_beside {T A} (m : eff S fault A) : calm m → calm (beside m : eff (S * T) fault A).
Proof. intros Hm [s t]. specialize (Hm s). unfold beside. simpl. by destruct (m s). Qed.
End calm.
#[export] Hint Resolve calm_ret calm_fail calm_reject calm_io_at calm_attempt calm_beside : calm.
Ltac calm_step :=
  lazymatch goal with
  | |- calm (mbind _ _) => apply calm_bind; [|intros ?]
  | |- calm (match ?x with _ => _ end) => destruct x
  | _ => solve [eauto with calm]
  end.
Ltac solve_calm := repeat calm_step.

Section calm_operations.
Context {UP : Uppercase} {SH : Sha256} {JT : JsonText} {HO : Host}.

Lemma calm_count n : calm (count_bytes n).
Proof. done. Qed.
Lemma calm_still_larger i p n : calm (still_larger i p n).
Proof. unfold still_larger. solve_calm. Qed.
#[local] Hint Resolve calm_count calm_still_larger : calm.
Lemma calm_read_content w i p : calm (read_content w i p).
Proof.
  intros h. unfold read_content.
  assert (calm (read_content_limited w i p (file_bytes (ws_limits w) + 1))) as H
    by (unfold read_content_limited; solve_calm).
  specialize (H (h, 0)). by destruct (read_content_limited _ _ _ _ _) as [r [h' n]].
Qed.
#[local] Hint Resolve calm_read_content : calm.
Lemma calm_check_base w pa p d : calm (check_base w pa p d).
Proof. unfold check_base, open_current. solve_calm. Qed.
#[local] Hint Resolve calm_check_base : calm.
Lemma calm_drop_staged {A} s (m : act A) : calm m → calm (drop_staged s m).
Proof. intros Hm h. specialize (Hm h). unfold drop_staged. destruct (m h) as [[a|e] h']; simpl in *; congruence. Qed.
#[local] Hint Resolve calm_drop_staged : calm.
Lemma calm_apply_plan w plan : calm (apply_plan w plan).
Proof. unfold apply_plan. solve_calm. Qed.
Lemma calm_existing p oc : calm (existing p oc).
Proof. unfold existing, fail_with. solve_calm. Qed.
Lemma calm_check_text w p t : calm (check_text w p t).
Proof. unfold check_text. solve_calm. Qed.
#[local] Hint Resolve calm_existing calm_check_text : calm.

(** The texts of a request are Rust strings. *)
Definition edit_utf8 (e : Edit) : bool :=
  match e with
  | Update _ _ hunks => forallb (λ h, utf8 (old_text h)) hunks
  | Replace _ _ old _ => utf8 old
  | _ => true
  end.

Context {QU : Quiet} (w : Workspace).
Hypothesis (Hlim : 0 ≤ file_bytes (ws_limits w) < usize_max).

Lemma calm_base_edit pa p d (g : text → res fault text) (k : Content → text → act (option text * option text)) :
  (∀ b, utf8 b = true → len b ≤ usize_max → g b ≠ RErr Panic) → (∀ c a, calm (k c a)) →
  calm (current ← (check_base w pa p (Some d) ≫= existing p); after ← of_res (g (c_text current)); k current after).
Proof using Hlim QU.
  intros Hg Hk h. apply calm_bind_post; [solve_calm|]. intros c h1 H1.
  apply eff_bind_ROk in H1 as (oc & h2 & H2 & H1). apply check_base_ROk in H2 as (_ & _ & Hc); [|lia].
  destruct oc as [c'|]; [|done]. cbn [existing] in H1. apply eff_ret_ROk in H1 as [-> ->].
  destruct (Hc _ eq_refl) as (_ & _ & Hu & Hlen). apply calm_bind_post; [|intros a h3 _; apply Hk].
  intros h4. apply Hg; [done|lia].
Qed.
Lemma calm_plan_edit pa p e : edit_utf8 e = true → calm (plan_edit w pa p e).
Proof using Hlim QU.
  intros Hu. destruct e as [? content|? d hunks|? d|? d old new]; unfold plan_edit; [solve_calm| |solve_calm|].
  - apply (calm_base_edit pa p d (λ b, apply_hunks p b hunks (file_bytes (ws_limits w)))
             (λ c after, _ ← check_text w p after; mret (Some (c_digest c), Some after))); [|intros; solve_calm].
    intros b Hb Hlen. destruct (apply_hunks_total p b hunks (file_bytes (ws_limits w))) as [[o ->]|[->| ->]]; try done; [|lia].
    apply Forall_forall. intros h Hh. simpl in Hu. rewrite forallb_forall in Hu. apply Hu. by apply list_elem_of_In.
  - apply (calm_base_edit pa p d (λ b, replace_exact p b old new (file_bytes (ws_limits w)))
             (λ c after, _ ← check_text w p after; mret (Some (c_digest c), Some after))); [|intros; solve_calm].
    intros b Hb Hlen. apply replace_exact_no_panic; [done..|lia].
Qed.
Lemma path_no_panic v : path v ≠ RErr Panic.
Proof.
  unfold path. destruct (_ || _); [done|]. destruct (repo_path_new v); [|done].
  assert (∀ cs, check_components v cs ≠ RErr Panic) as H.
  { induction cs as [|c cs IH]; simpl; [done|]. destruct (protected_component c); [done|]. by destruct (unportable_component c). }
  specialize (H (split_on "/" a)). by destruct (check_components _ _) as [|[|]].
Qed.
Lemma calm_path v : calm (of_res (path v) : act text).
Proof. intros h. apply path_no_panic. Qed.
Lemma calm_stopped token : calm (stopped w token).
Proof. done. Qed.
#[local] Hint Resolve calm_path calm_stopped : calm.
Lemma calm_prepare token request : forallb edit_utf8 request = true → calm (prepare w token request).
Proof using Hlim QU.
  intros Hu. unfold prepare. apply calm_bind; [solve_calm|intros _].
  assert (∀ seen, calm (prepare_loop w token seen request)) as H; [|apply H].
  induction request as [|e edits IH]; intros seen; cbn [prepare_loop]; [solve_calm|].
  simpl in Hu. apply andb_true_iff in Hu as [He Hu]. specialize (IH Hu).
  repeat (apply calm_bind; [solve [eauto with calm]|intros ?]). apply calm_bind; [by apply calm_plan_edit|]. intros [? ?].
  apply calm_bind; [apply IH|intros ?]. solve_calm.
Qed.
End calm_operations.

(** ** Publishing *)
Section commit.
Context {UP : Uppercase} {SH : Sha256} {JT : JsonText} {HO : Host} {QU : Quiet}.

(** A step that changed nothing a reader sees. *)
Definition no_change (r : res fault (res CommitError unit)) : Prop :=
  (∃ f, r = RErr f) ∨ ∃ e, r = ROk (RErr (mk_commit_error false e)).
(** A step that changed its target, whether or not that is confirmed. *)
Definition changed (r : res fault (res CommitError unit)) : Prop :=
  r = ROk (ROk tt) ∨ ∃ e, r = ROk (RErr (mk_commit_error true e)).

(** What publishing a plan does to its target. *)
Definition plan_effect (f g : files) (plan : Plan) (key : ino * text) : Prop :=
  match pl_before plan with
  | None => ∃ t, pl_after plan = Some t ∧ look f key = None ∧ puts f g key (Some (FileNode t 384))
  | Some d => ∃ b mode, look f key = Some (FileNode b mode) ∧ digest b = d
                        ∧ puts f g key ((λ t, FileNode t mode) <$> pl_after plan)
  end.

Lemma publish_step (pl : Plan) pa s t mode h r h' :
  linked (h_files h) → staged_at (h_files h) s t mode → s_directory s = p_directory pa → user_name (p_name pa) →
  attempt (publish pa s (bool_decide (pl_before pl = None))) h = (r, h') →
  linked (h_files h')
  ∧ (no_change r ∧ h_files h' ≡ h_files h
     ∨ changed r ∧ (pl_before pl = None → look (h_files h) (p_directory pa, p_name pa) = None)
       ∧ puts (h_files h) (h_files h') (p_directory pa, p_name pa) (Some (FileNode t mode))).
Proof using QU.
  intros Hl Hs Hd Hn H. unfold attempt in H. destruct (publish _ _ _ h) as [r1 h1] eqn:E. injection H as <- <-.
  apply (publish_spec _ _ t mode) in E as [Hl1 [(e & -> & Heq)|(Hr & Hno & Hp)]]; [| |done..].
  - split; [done|]. left. split; [right; eauto|done].
  - split; [done|]. right. split_and!; [|by intros Hb; apply Hno, bool_decide_eq_true_2|done].
    destruct Hr as [->|[e ->]]; [by left|right; eauto].
Qed.
Lemma delete_step pa h r h' :
  linked (h_files h) → user_name (p_name pa) → attempt (parent_delete pa) h = (r, h') →
  linked (h_files h')
  ∧ (no_change r ∧ h_files h' ≡ h_files h
     ∨ changed r ∧ puts (h_files h) (h_files h') (p_directory pa, p_name pa) None).
Proof using QU.
  intros Hl Hn H. unfold attempt in H. destruct (parent_delete pa h) as [r1 h1] eqn:E. injection H as <- <-.
  apply parent_delete_spec in E as [Hl1 [(e & -> & ->)|(Hr & Hp)]]; [| |done..].
  - split; [done|]. left. split; [right; eauto|done].
  - split; [done|]. right. split_and!; [|done]. destruct Hr as [->|[e ->]]; [by left|right; eauto].
Qed.

Context (w : Workspace).
Hypothesis (Hpos : 0 ≤ file_bytes (ws_limits w)).

Lemma apply_plan_spec plan key h r h' :
  linked (h_files h) → user_name key.2 → resolve (h_files h) (ws_root w) (pl_path plan) = Some key →
  (pl_before plan = None → is_Some (pl_after plan)) →
  apply_plan w plan h = (r, h') →
  linked (h_files h')
  ∧ (no_change r ∧ h_files h' ≡ h_files h ∨ changed r ∧ plan_effect (h_files h) (h_files h') plan key).
Proof using Hpos QU.
  intros Hl Hk Hres Haf H. unfold apply_plan in H.
  assert (Herr : ∀ e h1, h_files h1 ≡ h_files h → linked (h_files h1) → (RErr e, h1) = (r, h') →
    linked (h_files h') ∧ (no_change r ∧ h_files h' ≡ h_files h ∨ changed r ∧ plan_effect (h_files h) (h_files h') plan key)).
  { intros e h1 Heq Hl1 [= <- <-]. split; [done|]. left. split; [left; eauto|done]. }
  apply eff_bind_cases in H as [(e & -> & H)|(pa & h1 & H1 & H)].
  { apply reads_ROk in H as Hf; [|auto with reads]. apply (Herr e h'); [by rewrite Hf..|done]. }
  apply io_at_ROk, root_parent_ROk in H1 as [Hres1 Hf1]. rewrite Hres in Hres1. injection Hres1 as ->. simpl in Hk.
  apply eff_bind_cases in H as [(e & -> & H)|(oc & h2 & H2 & H)].
  { apply reads_ROk in H as Hf; [|apply reads_check_base]. apply (Herr e h'); [by rewrite Hf, Hf1..|done]. }
  apply check_base_ROk in H2 as (Hd & Hf2 & Hoc); [|done]. rewrite Hf1 in *.
  assert (Hbase : ∀ d, pl_before plan = Some d → ∃ b, look (h_files h) (p_directory pa, p_name pa)
      = Some (FileNode b (default 384 (c_mode <$> oc))) ∧ digest b = d).
  { intros d Eb. rewrite Eb in Hd. destruct oc as [c|]; [|done]. injection Hd as <-.
    destruct (Hoc _ eq_refl) as (Hlook & Hdg & _). exists (c_text c). by rewrite Hdg. }
  assert (Hmode : pl_before plan = None → oc = None) by (intros E; rewrite E in Hd; by destruct oc).
  destruct (pl_after plan) as [t|] eqn:Ea.
  - apply eff_bind_cases in H as [(e & -> & H)|(s & h3 & H3 & H)].
    { unfold io_at, on_err in H. destruct (stage pa t _ h2) as [r3 h3'] eqn:E3.
      apply stage_spec in E3 as (Hl3 & Heq3 & _); [|by rewrite Hf2]. rewrite Hf2 in Heq3.
      destruct r3; simplify_eq. by eapply Herr. }
    apply io_at_ROk, stage_spec in H3 as (Hl3 & Heq3 & Hs3); [|by rewrite Hf2]. rewrite Hf2 in Heq3.
    destruct (Hs3 _ eq_refl) as [Hdir Hst]. clear Hs3.
    assert (Hcheck : ∀ r4 h4, check_base w pa (pl_path plan) (pl_before plan) h3 = (r4, h4) → h_files h4 = h_files h3).
    { intros r4 h4 H4. eapply reads_ROk, H4. apply reads_check_base. }
    destruct (drop_staged s (check_base w pa (pl_path plan) (pl_before plan)) h3) as [r4 h4] eqn:E4.
    pose proof E4 as (Hl4 & Heq4 & Hr4)%drop_staged_tidy; [|apply Hst|].
    2: { intros r5 h5 H5%Hcheck. by rewrite H5. }
    destruct r4 as [oc'|e]; last first.
    { rewrite (eff_bind_err _ _ _ _ _ E4) in H. eapply Herr; [by etransitivity|done|done]. }
    rewrite (eff_bind_run _ _ _ _ _ E4) in H. specialize (Hr4 _ eq_refl). apply Hcheck in Hr4. rewrite <-Hr4 in Hst, Heq3.
    apply (publish_step _ _ _ t (default 384 (c_mode <$> oc))) in H as [Hl' Hout]; [|done..]. split; [done|].
    destruct Hout as [[Hno Heq]|(Hch & Hnone & Hp)]; [left; split; [done|by etransitivity]|right]. split; [done|].
    rewrite Heq3 in Hp. unfold plan_effect. rewrite Ea. destruct (pl_before plan) as [d|] eqn:Eb.
    + destruct (Hbase _ eq_refl) as (b & Hb1 & Hb2). by exists b, (default 384 (c_mode <$> oc)).
    + exists t. rewrite (Hmode eq_refl) in Hp. split_and!; [done| |done]. rewrite <-(Heq3 _ _ Hk). auto.
  - destruct (pl_before plan) as [d|] eqn:Eb; [|by destruct (Haf eq_refl)].
    apply eff_bind_cases in H as [(e & -> & H)|(oc' & h3 & H3 & H)].
    { apply reads_ROk in H as Hf; [|apply reads_check_base]. apply (Herr e h'); [by rewrite Hf, Hf2..|done]. }
    apply reads_ROk in H3 as Hf3; [|apply reads_check_base]. rewrite Hf2 in Hf3.
    apply delete_step in H as [Hl' Hout]; [|by rewrite Hf3|done]. rewrite Hf3 in Hout. split; [done|].
    destruct Hout as [?|(Hch & Hp)]; [by left|right]. split; [done|]. unfold plan_effect. rewrite Ea, Eb.
    destruct (Hbase _ eq_refl) as (b & Hb1 & Hb2). by exists b, (default 384 (c_mode <$> oc)).
Qed.
End commit.

(** ** The loop over the plans *)
Section loop.
Context {UP : Uppercase} {UL : UppercaseLaws} {SH : Sha256} {JT : JsonText} {HO : Host} {QU : Quiet}.

(** The report: [k] files changed, the last of them possibly unconfirmed. *)
Fixpoint reported (k : nat) (unconfirmed : bool) (plans : list Plan) : list Change :=
  match plans, k with
  | [], _ => []
  | p :: plans, O => planned_change p :: reported O unconfirmed plans
  | p :: plans, S k =>
    mark (if unconfirmed && Nat.eqb k 0 then DurabilityUnconfirmed else Applied) (planned_change p)
    :: reported k unconfirmed plans
  end.
Lemma reported_0 u plans : reported 0 u plans = planned_change <$> plans.
Proof. induction plans as [|p plans IH]; [done|]. simpl. by rewrite IH. Qed.

Definition same_host (w w' : Workspace) : Prop :=
  ws_root w' = ws_root w ∧ ws_id w' = ws_id w ∧ ws_limits w' = ws_limits w.

Lemma planned_user f root limit e plan key : planned f root limit e plan key → user_name key.2.
Proof using UL.
  intros [Hpath Hkey _]. pose proof (path_user_names _ _ Hpath) as Hnames.
  unfold resolve in Hkey. apply walk_tree_name in Hkey. rewrite Forall_forall in Hnames. auto.
Qed.
Lemma planned_users f root limit edits plans keys :
  Forall3 (planned f root limit) edits plans keys → Forall (λ k, user_name k.2) keys.
Proof using UL. induction 1; constructor; [by eapply planned_user|done]. Qed.

(** A planned step on a tree that still has the plan's base. *)
Lemma planned_step f0 w e plan key h r h' :
  0 ≤ file_bytes (ws_limits w) → planned f0 (ws_root w) (file_bytes (ws_limits w)) e plan key →
  linked (h_files h) → same_dirs (h_files h) f0 → look (h_files h) key = look f0 key →
  apply_plan w plan h = (r, h') →
  linked (h_files h') ∧ user_name key.2
  ∧ (no_change r ∧ h_files h' ≡ h_files h
     ∨ changed r ∧ same_dirs (h_files h') f0
       ∧ edit_effect (file_bytes (ws_limits w)) e (look f0 key) (look (h_files h') key)
       ∧ ∀ d nm, user_name nm → (d, nm) ≠ key → look (h_files h') (d, nm) = look (h_files h) (d, nm)).
Proof using QU UL.
  intros Hpos Hpd Hl Hdirs Hlook H. pose proof (planned_user _ _ _ _ _ _ Hpd) as Hk.
  destruct Hpd as [Hpath Hkey Heff]. pose proof (path_user_names _ _ Hpath) as Hnames.
  apply (apply_plan_spec w Hpos plan key) in H as [Hl' Hout]; [|done|done| |]; last first.
  { intros Hb. rewrite Hb in Heff. destruct Heff as (t & -> & _). eauto. }
  { unfold resolve. by rewrite (walk_tree_dirs _ _ _ Hdirs Hnames). }
  split_and!; [done..|]. destruct Hout as [?|[Hch Hpe]]; [by left|right]. split; [done|].
  assert (∃ n, puts (h_files h) (h_files h') key n ∧ not_dir (look (h_files h) key) ∧ not_dir n
    ∧ edit_effect (file_bytes (ws_limits w)) e (look f0 key) n) as (n & Hp & Hn1 & Hn2 & He).
  { unfold plan_effect in Hpe. rewrite Hlook in *. destruct (pl_before plan) as [d|].
    - destruct Heff as (b & mode & Hlb & -> & He), Hpe as (b' & mode' & Hlb' & _ & Hp).
      assert (b' = b ∧ mode' = mode) as [-> ->] by (split; congruence). eexists. split_and!; [done| | |by rewrite Hlb].
      + intros i. congruence.
      + intros i. by destruct (pl_after plan).
    - destruct Heff as (t & Hat & He), Hpe as (t' & Hat' & Hnone & Hp). assert (t' = t) as -> by congruence.
      eexists. split_and!; [done| |done|by rewrite Hnone]. intros i. congruence. }
  destruct key as [kd kn]. simpl in Hk. split_and!.
  - intros d nm i Hnm. rewrite (puts_same_dirs _ _ _ _ Hp Hn1 Hn2 d nm i Hnm). by apply Hdirs.
  - rewrite (Hp kd kn Hk), decide_True by done. done.
  - intros d nm Hnm Hne. by rewrite (Hp d nm Hnm), decide_False.
Qed.

(** What the loop leaves behind. *)
Record committed (f0 : files) (edits : list Edit) (plans : list Plan) (keys : list (ino * text))
    (w : Workspace) (h : host_state) (front : list Change) (result : PatchResult) (w' : Workspace) (h' : host_state)
    (k : nat) (unconfirmed : bool) : Prop := {
  cm_bound : (k ≤ length plans)%nat;
  cm_changes : pr_changes result = front ++ reported k unconfirmed plans;
  cm_complete : pr_failure result = None ↔ k = length plans ∧ unconfirmed = false;
  cm_host : same_host w w';
  cm_generation : ws_generation w' = saturating_add (ws_generation w) (Z.of_nat k);
  cm_linked : linked (h_files h');
  cm_applied : ∀ i e key, (i < k)%nat → edits !! i = Some e → keys !! i = Some key →
     edit_effect (file_bytes (ws_limits w)) e (look f0 key) (look (h_files h') key);
  cm_rest : ∀ d nm, user_name nm → (d, nm) ∉ take k keys → look (h_files h') (d, nm) = look (h_files h) (d, nm) }.

Lemma committed_none f0 edits plans keys w h front result h' f :
  ws_generation w ≤ usize_max → linked (h_files h') → h_files h' ≡ h_files h → pr_failure result = Some f →
  pr_changes result = front ++ (planned_change <$> plans) →
  (length plans ≠ 0)%nat →
  committed f0 edits plans keys w h front result w h' 0 false.
Proof.
  intros Hg Hl Heq Hfl Hch Hne. split; try done.
  - lia.
  - by rewrite reported_0.
  - rewrite Hfl. split; [done|]. intros [? _]. by destruct Hne.
  - unfold saturating_add. lia.
  - intros. lia.
  - intros d nm Hnm _. by apply Heq.
Qed.
End loop.

Section commit_loop.
Context {UP : Uppercase} {UL : UppercaseLaws} {SH : Sha256} {JT : JsonText} {HO : Host} {QU : Quiet}.
Context (f0 : files) (token : bool).

Lemma reported_alter s front p plans :
  alter (mark s) (length front) (front ++ (planned_change <$> p :: plans))
  = (front ++ [mark s (planned_change p)]) ++ (planned_change <$> plans).
Proof.
  induction front as [|c front IH]; [done|]. simpl. f_equal. apply IH.
Qed.
Lemma saturating_next g k : g ≤ usize_max → 0 ≤ k →
  saturating_add (saturating_add g 1) k = saturating_add g (1 + k).
Proof. unfold saturating_add. lia. Qed.

(** One changed file in front of what follows. *)
Lemma committed_cons e edits plan plans key keys w h h1 front result w' h' k u :
  committed f0 edits plans keys (next_generation w) h1 (front ++ [mark Applied (planned_change plan)]) result w' h' k u →
  (u = true → k ≠ O) → ws_generation w ≤ usize_max →
  key ∉ keys → user_name key.2 →
  edit_effect (file_bytes (ws_limits w)) e (look f0 key) (look (h_files h1) key) →
  (∀ d nm, user_name nm → (d, nm) ≠ key → look (h_files h1) (d, nm) = look (h_files h) (d, nm)) →
  committed f0 (e :: edits) (plan :: plans) (key :: keys) w h front result w' h' (S k) u.
Proof.
  intros [Hb Hch Hc Hh Hg Hl Ha Hr] Hu Hgen Hnk Hk He Hrest. split; try done.
  - simpl. lia.
  - rewrite Hch, <-app_assoc. simpl. destruct u, k; simpl; try done. by destruct (Hu eq_refl).
  - rewrite Hc. simpl. naive_solver.
  - rewrite Hg. unfold next_generation. simpl. rewrite saturating_next by lia. f_equal. lia.
  - intros [|i] e' key' Hi He' Hk'; simpl in He', Hk'; simplify_eq.
    + destruct key' as [kd kn]. simpl in Hk. rewrite (Hr kd kn Hk); [done|].
      intros (i & Hin & _)%elem_of_take. apply Hnk. by eapply list_elem_of_lookup_2.
    + apply (Ha i); [lia|done..].
  - intros d nm Hnm Hn. simpl in Hn. apply not_elem_of_cons in Hn as [Hn1 Hn2].
    rewrite (Hr d nm Hnm Hn2). auto.
Qed.

(** The last file changed, but not durably. *)
Lemma committed_unconfirmed e edits plan plans key keys w h h1 front result f :
  pr_failure result = Some f →
  pr_changes result = (front ++ [mark DurabilityUnconfirmed (planned_change plan)]) ++ (planned_change <$> plans) →
  linked (h_files h1) → edit_effect (file_bytes (ws_limits w)) e (look f0 key) (look (h_files h1) key) →
  (∀ d nm, user_name nm → (d, nm) ≠ key → look (h_files h1) (d, nm) = look (h_files h) (d, nm)) →
  committed f0 (e :: edits) (plan :: plans) (key :: keys) w h front result (next_generation w) h1 1 true.
Proof.
  intros Hfl Hch Hl He Hrest. split; try done.
  - simpl. lia.
  - by rewrite Hch, <-app_assoc, <-(reported_0 true).
  - rewrite Hfl. naive_solver.
  - intros [|i] e' key' Hi He' Hk'; [by simplify_eq/=|lia].
  - intros d nm Hnm Hn. apply Hrest; [done|]. intros <-. apply Hn. by left.
Qed.

Lemma commit_loop_spec edits plans keys :
  Forall3 (λ _ _ _, True) edits plans keys →
  ∀ w h result front,
  Forall3 (planned f0 (ws_root w) (file_bytes (ws_limits w))) edits plans keys → NoDup keys →
  0 ≤ file_bytes (ws_limits w) → ws_generation w ≤ usize_max →
  linked (h_files h) → same_dirs (h_files h) f0 → (∀ key, key ∈ keys → look (h_files h) key = look f0 key) →
  pr_failure result = None → pr_changes result = front ++ (planned_change <$> plans) →
  ∃ result' w' h' k u, commit_loop w token result (length front) plans h = (ROk (result', w'), h')
    ∧ committed f0 edits plans keys w h front result' w' h' k u ∧ (u = true → k ≠ O).
Proof using QU UL.
  induction 1 as [|e plan key edits plans keys _ _ IH]; intros w h result front Hpl Hnd Hpos Hgen Hl Hdirs Hbase Hfl Hch.
  { exists result, w, h, 0%nat, false. split; [done|]. split; [|done]. split; try done; simpl; try lia.
    unfold saturating_add. lia. }
  inversion Hpl as [|? ? ? ? ? ? Hp Hpl']; subst. apply NoDup_cons in Hnd as [Hnk Hnd]. cbn [commit_loop].
  destruct (stopped w token h) as [[stop|?] h1] eqn:Es; [|done].
  assert (Hf1 : h_files h1 = h_files h) by (by injection Es as _ <-).
  rewrite (eff_bind_run _ _ _ _ _ Es). destruct stop.
  { do 2 eexists. exists h1, 0%nat, false. split; [done|]. split; [|done].
    eapply committed_none; rewrite ?Hf1; done. }
  destruct (apply_plan w plan h1) as [r h2] eqn:Ea.
  assert (Eat : (attempt (apply_plan w plan) : act _) h1 = (ROk r, h2)) by (unfold attempt; by rewrite Ea).
  rewrite (eff_bind_run _ _ _ _ _ Eat).
  pose proof (calm_apply_plan w plan h1) as Hcalm. rewrite Ea in Hcalm. simpl in Hcalm.
  apply (planned_step f0 w e plan key) in Ea as (Hl2 & Hk & Hout); [|done|done|rewrite Hf1..]; [|done|done|apply Hbase; by left].
  destruct Hout as [[Hno Heq]|(Hchg & Hd2 & Heff & Hrest)].
  { destruct Hno as [[[f|] ->]|[err ->]]; [| |]; simpl; try done.
    all: do 2 eexists; exists h2, 0%nat, false; split; [done|]; split; [|done].
    all: eapply committed_none; rewrite <-?Hf1; done. }
  rewrite Hf1 in Hrest. destruct Hchg as [->|[err ->]]; simpl.
  - destruct (IH (next_generation w) h2 (result <| pr_changes := alter (mark Applied) (length front) (pr_changes result) |>)
      (front ++ [mark Applied (planned_change plan)])) as (result' & w' & h' & k & u & Hrun & Hcm & Hu); try done.
    + unfold next_generation, saturating_add. simpl. lia.
    + intros key' Hin. rewrite <-(Hbase key') by (by right). destruct key' as [d nm]. apply Hrest.
      * apply planned_users in Hpl'. rewrite Forall_forall in Hpl'. by apply (Hpl' (d, nm)).
      * intros <-. done.
    + simpl. by rewrite Hch, reported_alter.
    + exists result', w', h', (S k), u. rewrite length_app, Nat.add_1_r in Hrun. split; [done|]. split; [|done].
      by eapply committed_cons.
  - do 2 eexists. exists h2, 1%nat, true. split; [done|]. split; [|done].
    eapply committed_unconfirmed; simpl; rewrite ?Hch, ?reported_alter; done.
Qed.
End commit_loop.

(** ** The promise *)
Section promise.
Context {UP : Uppercase} {UL : UppercaseLaws} {SH : Sha256} {JT : JsonText} {HO : Host} {QU : Quiet}.

Definition touched (c : Change) : bool := negb (bool_decide (ch_state c = NotApplied)).
Lemma touched_reported k u plans : (k ≤ length plans)%nat → length (List.filter touched (reported k u plans)) = k.
Proof.
  revert k. induction plans as [|p plans IH]; intros [|k] Hk; simpl in *; try lia.
  - rewrite IH by lia. done.
  - by destruct (u && Nat.eqb k 0); simpl; rewrite IH by lia.
Qed.
Lemma applied_reported k plans : (k = length plans)%nat → Forall (λ c, ch_state c = Applied) (reported k false plans).
Proof. intros ->. induction plans as [|p plans IH]; simpl; [constructor|]. by constructor. Qed.

(** [k] edits were carried out at [keys]; nothing else changed. *)
Record carried_out (w : Workspace) (request : PatchRequest) (h : host_state) (result : PatchResult) (w' : Workspace)
    (h' : host_state) (keys : list (ino * text)) : Prop := {
  co_prefix : (length keys ≤ length request)%nat;
  co_distinct : NoDup keys;
  co_edits : ∀ i e key, request !! i = Some e → keys !! i = Some key →
    (∃ p, path (edit_path e) = ROk p ∧ resolve (h_files h) (ws_root w) p = Some key)
    ∧ edit_effect (file_bytes (ws_limits w)) e (look (h_files h) key) (look (h_files h') key);
  co_rest : ∀ d nm, user_name nm → (d, nm) ∉ keys → look (h_files h') (d, nm) = look (h_files h) (d, nm);
  co_report : length (List.filter touched (pr_changes result)) = length keys;
  co_complete : pr_complete result = true →
    length keys = length request ∧ Forall (λ c, ch_state c = Applied) (pr_changes result);
  co_generation : ws_generation w' = saturating_add (ws_generation w) (Z.of_nat (length keys))
    ∧ pr_generation result = ws_generation w' }.

Lemma carried_out_nothing w request h h' f :
  ws_generation w ≤ usize_max → h_files h' = h_files h →
  carried_out w request h (patch_result w [] (Some f)) w h' [].
Proof.
  intros Hg Hf. split; simpl; try done; try lia; [constructor|by rewrite Hf|].
  unfold saturating_add. split; [lia|done].
Qed.
Lemma Forall3_planned_lookup f root limit edits plans keys i e key :
  Forall3 (planned f root limit) edits plans keys → edits !! i = Some e → keys !! i = Some key →
  ∃ p, path (edit_path e) = ROk p ∧ resolve f root p = Some key.
Proof.
  intros H3 He Hk. eapply Forall3_lookup_l in H3 as (plan & key' & Hp & Hk' & Hpd); [|exact He].
  assert (key' = key) as -> by congruence. exists (pl_path plan). destruct Hpd. done.
Qed.
Lemma carried_out_committed w request plans keys h h1 result w' h' k u :
  Forall3 (planned (h_files h) (ws_root w) (file_bytes (ws_limits w))) request plans keys → NoDup keys →
  h_files h1 = h_files h →
  committed (h_files h) request plans keys w h1 [] result w' h' k u →
  carried_out w request h
    (result <| pr_generation := ws_generation w' |>
            <| pr_complete := match pr_failure result with None => true | Some _ => false end |>) w' h' (take k keys).
Proof.
  intros H3 Hnd Hf [Hb Hch Hc _ Hg _ Ha Hr].
  pose proof (Forall3_length_lm _ _ _ _ H3) as Hlen1. pose proof (Forall3_length_lr _ _ _ _ H3) as Hlen2.
  assert (Hk : length (take k keys) = k) by (rewrite length_take; lia).
  split; rewrite ?Hk; simpl; try done.
  - lia.
  - eapply sublist_NoDup; [exact Hnd|apply sublist_take].
  - intros i e key He Hkey. apply lookup_take_Some in Hkey as [Hkey Hi]. split; [by eapply Forall3_planned_lookup|]. by eapply Ha.
  - intros d nm Hnm Hn. rewrite (Hr d nm Hnm Hn). by rewrite Hf.
  - rewrite Hch. by apply touched_reported.
  - destruct (pr_failure result) as [f|]; [done|]. intros _. destruct (proj1 Hc eq_refl) as [-> ->].
    split; [lia|]. rewrite Hch. by apply applied_reported.
Qed.

(** The report of a complete patch, for which room was reserved before the
    first effect. *)
Record reported_complete (w : Workspace) (result : PatchResult) (w' : Workspace) (plans : list Plan) : Prop := {
  rc_room : is_Some (encode (ser_patch_result (patch_result w (planned_change <$> plans) None))
                       (saturating_sub (output_bytes (ws_limits w)) 2048));
  rc_plans : (length plans ≤ 16)%nat;
  rc_result : result = mk_patch_result (ws_id w) (ws_generation w') true (mark Applied ∘ planned_change <$> plans) None }.

Lemma reported_all plans : reported (length plans) false plans = mark Applied ∘ planned_change <$> plans.
Proof. induction plans as [|p plans IH]; [done|]. simpl. by rewrite IH. Qed.
Lemma commit_loop_id w token plans : ∀ result index h result' w' h',
  commit_loop w token result index plans h = (ROk (result', w'), h') → pr_workspace_id result' = pr_workspace_id result.
Proof.
  revert w. induction plans as [|plan plans IH]; intros w result index h result' w' h' H; cbn [commit_loop] in H.
  { by injection H as <- _ _. }
  apply eff_bind_ROk in H as (stop & h1 & _ & H). destruct stop; [by injection H as <- _ _|].
  apply eff_bind_ROk in H as (out & h2 & _ & H). destruct out as [[u|e]|[f|]]; [by apply IH in H| | |done].
  - destruct (ce_changed e); by injection H as <- _ _.
  - by injection H as <- _ _.
Qed.
Lemma prepare_length w token request h plans h' :
  prepare w token request h = (ROk plans, h') → (length request ≤ 16)%nat.
Proof.
  unfold prepare. intros H. apply eff_bind_ROk in H as (u & h1 & [Hr _]%reject_ROk & _).
  rewrite !orb_false_iff in Hr. destruct Hr as [[_ Hr] _]. apply Z.ltb_ge in Hr. lia.
Qed.

Lemma apply_patch_outcome w token request h :
  limits_valid (ws_limits w) = true → ws_generation w ≤ usize_max → forallb edit_utf8 request = true →
  linked (h_files h) →
  ∃ result w' h' keys, apply_patch w token request h = (ROk (result, w'), h')
    ∧ carried_out w request h result w' h' keys ∧ same_host w w'
    ∧ (pr_complete result = true → ∃ plans, reported_complete w result w' plans).
Proof.
  intros Hlim Hgen Hu Hl.
  assert (0 ≤ file_bytes (ws_limits w) < usize_max) as Hfb.
  { unfold limits_valid in Hlim. rewrite !andb_true_iff, !Z.leb_le, Z.ltb_lt in Hlim. unfold usize_max. lia. }
  unfold apply_patch. destruct (prepare w token request h) as [r h1] eqn:Ep.
  assert (Eat : (attempt (prepare w token request) : act _) h = (ROk r, h1)) by (unfold attempt; by rewrite Ep).
  rewrite (eff_bind_run _ _ _ _ _ Eat). pose proof (calm_prepare w Hfb token request Hu h) as Hcalm. rewrite Ep in Hcalm.
  assert (Hf1 : h_files h1 = h_files h) by (eapply reads_ROk, Ep; apply reads_prepare).
  destruct r as [plans|[f|]]; [| |done]; last first.
  { do 2 eexists. exists h1, []. split_and!; [done|by apply carried_out_nothing|done..]. }
  pose proof (prepare_length _ _ _ _ _ _ Ep) as Hlen.
  apply prepare_ROk in Ep as (_ & keys & H3 & Hnd); [|lia]. unfold commit_plans.
  destruct (encode _ _) eqn:Eenc; last first.
  { do 2 eexists. exists h1, []. split_and!; [done|by apply carried_out_nothing|done..]. }
  destruct (commit_loop_spec (h_files h) token request plans keys) with (w := w) (h := h1)
    (result := patch_result w (planned_change <$> plans) None) (front := @nil Change)
    as (result & w' & h' & k & u & Hrun & Hcm & _); try done; rewrite ?Hf1; try done.
  - eapply Forall3_impl; [exact H3|done].
  - lia.
  - rewrite (eff_bind_run _ _ _ _ _ Hrun). do 2 eexists. exists h', (take k keys). split_and!; [done|by eapply carried_out_committed|by apply Hcm|].
    intros Hc. simpl in Hc. destruct (pr_failure result) as [f|] eqn:Ef; [done|]. exists plans.
    apply commit_loop_id in Hrun. destruct Hcm as [_ Hch Hcomp _ _ _ _ _]. destruct (proj1 Hcomp Ef) as [-> ->].
    rewrite reported_all in Hch. split; [by rewrite Eenc| |].
    + by rewrite <-(Forall3_length_lm _ _ _ _ H3).
    + destruct result. simpl in *. by subst.
Qed.

End promise.
