(* ===== verification/Search.v ===== *)
(** Literal search: [search_text] of [src/src/nano/workspace.rs] and the
    directory listing of [src/src/nano/workspace/unix.rs] it uses.  The loop
    pops the smallest pending path, so the order of results is the order of
    paths; every budget (entries, bytes, results, output) is enforced as it
    is used. *)
From S2P Require Import Prelude Transact Text HostFiles Wire Workspace Patch.
#[local] Open Scope list_scope.

Record SearchRequest : Type := mk_search_request {
  sq_paths : list text;
  sq_query : text;
  sq_max_results : Z }.
Record SearchMatch : Type := mk_search_match {
  sm_source : Source;
  sm_line : Z;
  sm_byte_column : Z;
  sm_snippet_start_column : Z;
  sm_text : text;
  sm_truncated : bool }.
Record SearchResult : Type := mk_search_result {
  sr_matches : list SearchMatch;
  sr_issues : list Failure;
  sr_suppressed_issues : Z;
  sr_scanned_bytes : Z;
  sr_visited_entries : Z;
  sr_listed_entries : Z;
  sr_truncated : bool }.
#[global] Instance SearchResult_eta : Eta SearchResult := λ r,
  mk_search_result (sr_matches r) (sr_issues r) (sr_suppressed_issues r) (sr_scanned_bytes r)
    (sr_visited_entries r) (sr_listed_entries r) (sr_truncated r).
#[global] Instance set_sr_matches : Setter sr_matches. Proof. derive_setter. Defined.
#[global] Instance set_sr_issues : Setter sr_issues. Proof. derive_setter. Defined.
#[global] Instance set_sr_suppressed : Setter sr_suppressed_issues. Proof. derive_setter. Defined.
#[global] Instance set_sr_scanned : Setter sr_scanned_bytes. Proof. derive_setter. Defined.
#[global] Instance set_sr_visited : Setter sr_visited_entries. Proof. derive_setter. Defined.
#[global] Instance set_sr_listed : Setter sr_listed_entries. Proof. derive_setter. Defined.
#[global] Instance set_sr_truncated : Setter sr_truncated. Proof. derive_setter. Defined.

Definition ser_source (s : Source) : json :=
  JObj [("kind", JStr "workspace"); ("workspace_id", jtext (src_workspace_id s)); ("generation", JNum (src_generation s));
        ("path", jtext (src_path s)); ("digest", jtext (src_digest s))].
Definition ser_search_match (m : SearchMatch) : json :=
  JObj [("source", ser_source (sm_source m)); ("line", JNum (sm_line m)); ("byte_column", JNum (sm_byte_column m));
        ("snippet_start_column", JNum (sm_snippet_start_column m)); ("text", jtext (sm_text m));
        ("truncated", JBool (sm_truncated m))].

(** ** Ordered sets of paths: the keys of a [BTreeMap] *)
Fixpoint text_compare (s t : text) : comparison :=
  match s, t with
  | [], [] => Eq
  | [], _ :: _ => Lt
  | _ :: _, [] => Gt
  | a :: s, b :: t => match Z.compare (byte a) (byte b) with Eq => text_compare s t | c => c end
  end.
Fixpoint insert_path (p : text) (l : list text) : list text :=
  match l with
  | [] => [p]
  | q :: l' => match text_compare p q with Lt => p :: l | Eq => l | Gt => q :: insert_path p l' end
  end.

(** ** Snippets *)
Fixpoint floor_boundary (s : text) (i : nat) : nat :=
  if is_char_boundary s i then i else match i with O => O | S i => floor_boundary s i end.
Definition prefix (s : text) (bytes : nat) : text := take (floor_boundary s (Nat.min (length s) bytes)) s.

(** The state of the loop. *)
Record search_state : Type := mk_search_state {
  ss_pending : list text;
  ss_seen : list text;
  ss_objects : list (Z * Z);
  ss_result : SearchResult;
  ss_output_bytes : Z;
  ss_output_full : bool }.
#[global] Instance search_state_eta : Eta search_state := λ s,
  mk_search_state (ss_pending s) (ss_seen s) (ss_objects s) (ss_result s) (ss_output_bytes s) (ss_output_full s).
#[global] Instance set_ss_pending : Setter ss_pending. Proof. derive_setter. Defined.
#[global] Instance set_ss_seen : Setter ss_seen. Proof. derive_setter. Defined.
#[global] Instance set_ss_objects : Setter ss_objects. Proof. derive_setter. Defined.
#[global] Instance set_ss_result : Setter ss_result. Proof. derive_setter. Defined.
#[global] Instance set_ss_output_bytes : Setter ss_output_bytes. Proof. derive_setter. Defined.
#[global] Instance set_ss_output_full : Setter ss_output_full. Proof. derive_setter. Defined.
Definition on_result (g : SearchResult → SearchResult) (s : search_state) : search_state :=
  s <| ss_result := g (ss_result s) |>.
Definition truncate (b : bool) : search_state → search_state :=
  on_result (λ r, r <| sr_truncated := sr_truncated r || b |>).

Definition searching (A : Type) : Type := eff (host_state * search_state) fault A.
Definition adjust (g : search_state → search_state) : searching unit := λ st, (ROk tt, (st.1, g st.2)).
Definition look_at {A} (g : search_state → A) : searching A := λ st, (ROk (g st.2), st).

Section search.
Context `{UP : Uppercase} {SH : Sha256} {JT : JsonText} {HO : Host}.

(** ** Directory listings *)
(** The names [readdir] returns: at most [limit]; a name that is not UTF-8 is
    listed as NUL. *)
Fixpoint collect_names (limit : Z) (acc : list text) (unsupported : bool) (listing : list text) : list text * bool :=
  match listing with
  | [] => (acc, unsupported)
  | nm :: listing =>
    if Z.of_nat (length acc) =? limit then (acc, true) else
    if utf8 nm then collect_names limit (acc ++ [nm]) unsupported listing
    else collect_names limit (acc ++ [[nul]]) true listing
  end.
Definition directory_names (f : files) (dir : ino) : list text :=
  omap (λ p, if decide (p.1.1 = dir) then Some p.1.2 else None) (map_to_list (names f)).
Definition readdir (dir : ino) : io (list text) := λ h,
  let k := h_tick h in
  syscall (λ f, (ROk (readdir_order k (directory_names f dir)), f)) h.
Definition children (dir : ino) (limit : Z) : io (list text * bool) :=
  d ← child dir (lit ".") true false;
  listing ← readdir d;
  mret (collect_names limit [] false listing).

(** ** Issues and matches *)
Definition json_size (j : json) : Z := Z.of_nat (String.length (json_text j)).
Definition issue (limit : Z) (f : Failure) (s : search_state) : search_state :=
  let size := json_size (ser_failure f) + 1 in
  if (Z.of_nat (length (sr_issues (ss_result s))) <? 4) && (ss_output_bytes s + size <=? limit - 512)
  then on_result (λ r, r <| sr_issues := sr_issues r ++ [f] |>) (s <| ss_output_bytes := ss_output_bytes s + size |>)
  else on_result (λ r, r <| sr_suppressed_issues := sr_suppressed_issues r + 1 |>) s.

Definition hit (src : Source) (index : nat) (line : text) (column : nat) : SearchMatch :=
  let snippet_start := floor_boundary line (column - 120) in
  let snippet := prefix (drop snippet_start line) 512 in
  mk_search_match src (Z.of_nat index + 1) (Z.of_nat column + 1) (Z.of_nat snippet_start + 1) snippet
    (len snippet <? len line).

Definition max_matches (r : SearchRequest) : Z := Z.min (sq_max_results r) 128.
(** The loop over the lines of one file. *)
Fixpoint match_lines (limit : Z) (r : SearchRequest) (src : Source) (index : nat) (lines : list text)
    (s : search_state) : search_state :=
  match lines with
  | [] => s
  | line :: lines =>
    match find (sq_query r) line with
    | None => match_lines limit r src (S index) lines s
    | Some column =>
      if max_matches r <=? Z.of_nat (length (sr_matches (ss_result s))) then truncate true s else
      let m := hit src index line column in
      let size := json_size (ser_search_match m) + 1 in
      if limit - 512 <? ss_output_bytes s + size then truncate true s <| ss_output_full := true |> else
      match_lines limit r src (S index) lines
        (on_result (λ res, res <| sr_matches := sr_matches res ++ [m] |>)
           (s <| ss_output_bytes := ss_output_bytes s + size |>))
    end
  end.

(** ** One entry *)
Definition join (p nm : text) : text := if bool_decide (p = []) then nm else p ++ lit "/" ++ nm.
Definition add_child (limit : Z) (p nm : text) (s : search_state) : search_state :=
  match path (join p nm) with
  | ROk c => if bool_decide (c ∈ ss_seen s) then s else s <| ss_pending := insert_path c (ss_pending s) |>
  | RErr (Fail f) => if decide (f_code f = CProtectedPath) then s else issue limit f (truncate true s)
  | RErr Panic => s
  end.
Definition visit_directory (w : Workspace) (p : text) (file : ino) : searching unit :=
  listed ← look_at (λ s, sr_listed_entries (ss_result s));
  '(names, truncated) ← beside (io_at p (children file (saturating_sub (entries (ws_limits w)) listed)));
  adjust (λ s, foldl (λ s nm, add_child (output_bytes (ws_limits w)) p nm s)
    (on_result (λ r, r <| sr_listed_entries := sr_listed_entries r + Z.of_nat (length names) |>) (truncate truncated s))
    names).
(** [read_content_limited] with [&mut result.scanned_bytes]. *)
Definition scan_content (w : Workspace) (file : ino) (p : text) (remaining : Z) : searching Content := λ st,
  let '(r, (h, scanned)) := read_content_limited w file p remaining (st.1, sr_scanned_bytes (ss_result st.2)) in
  (r, (h, on_result (λ res, res <| sr_scanned_bytes := scanned |>) st.2)).
Definition visit_file (w : Workspace) (r : SearchRequest) (p : text) (file : ino) : searching unit :=
  scanned ← look_at (λ s, sr_scanned_bytes (ss_result s));
  let remaining := saturating_sub (scan_bytes (ws_limits w)) scanned in
  _ ← (if remaining =? 0 then _ ← adjust (truncate true); fail_with CFileTooLarge p else mret tt);
  c ← scan_content w file p remaining;
  adjust (match_lines (output_bytes (ws_limits w)) r (source w p (c_digest c)) 0 (split_inclusive newline (c_text c))).
Definition visit (w : Workspace) (r : SearchRequest) (p : text) (opened : res io_kind ino) : searching unit :=
  file ← (match opened with ROk i => mret i | RErr e => throw (Fail (failure_io p e)) end);
  meta ← beside (io_at p (metadata file));
  if is_dir meta then visit_directory w p file else visit_file w r p file.

(** Opening an entry, with its identity. *)
Definition open_entry (w : Workspace) (p : text) : io ino :=
  file ← (if bool_decide (p = []) then root_directory (ws_root w) else root_open (ws_root w) p);
  identity file.

(** ** The loop *)
Inductive flow : Type := Continue | Break.
Definition after_visit (w : Workspace) (r : SearchRequest) (outcome : res fault unit) : searching flow :=
  _ ← (match outcome with
       | ROk _ => mret tt
       | RErr (Fail f) => adjust (λ s, issue (output_bytes (ws_limits w)) f (truncate true s))
       | RErr Panic => throw Panic
       end);
  s ← look_at (λ s, s);
  if (max_matches r <=? Z.of_nat (length (sr_matches (ss_result s)))) || ss_output_full s
  then _ ← adjust (truncate (negb (bool_decide (ss_pending s = [])))); mret Break
  else mret Continue.
Definition search_entry (w : Workspace) (token : bool) (r : SearchRequest) (p : text) : searching flow :=
  stop ← beside (stopped w token);
  if stop : bool then
    _ ← adjust (λ s, issue (output_bytes (ws_limits w)) (failure_new CInterrupted []) (truncate true s)); mret Break else
  seen ← look_at (λ s, bool_decide (p ∈ ss_seen s));
  if seen : bool then mret Continue else
  _ ← adjust (λ s, s <| ss_seen := p :: ss_seen s |>);
  opened ← beside (attempt (open_entry w p));
  duplicate ← look_at (λ s, match opened with ROk i => bool_decide (i ∈ ss_objects s) | RErr _ => false end);
  if duplicate : bool then mret Continue else
  _ ← adjust (λ s, match opened with ROk i => s <| ss_objects := i :: ss_objects s |> | RErr _ => s end);
  visited ← look_at (λ s, sr_visited_entries (ss_result s));
  if visited =? entries (ws_limits w) then _ ← adjust (truncate true); mret Break else
  _ ← adjust (on_result (λ r, r <| sr_visited_entries := sr_visited_entries r + 1 |>));
  outcome ← attempt (visit w r p opened);
  after_visit w r outcome.

(** [None] when the fuel runs out; [search_returns] shows that it does not. *)
Fixpoint search_loop (fuel : nat) (w : Workspace) (token : bool) (r : SearchRequest) : searching (option SearchResult) :=
  match fuel with
  | O => mret None
  | S fuel =>
    pending ← look_at ss_pending;
    match pending with
    | [] => s ← look_at ss_result; mret (Some s)
    | p :: rest =>
      _ ← adjust (λ s, s <| ss_pending := rest |>);
      next ← search_entry w token r p;
      match next with
      | Break => s ← look_at ss_result; mret (Some s)
      | Continue => search_loop fuel w token r
      end
    end
  end.

Fixpoint requested_paths (paths : list text) (pending : list text) : res fault (list text) :=
  match paths with
  | [] => ROk pending
  | v :: paths =>
    p ← (if bool_decide (v = lit ".") then ROk [] else path v);
    requested_paths paths (insert_path p pending)
  end.
Definition search_start : SearchResult := mk_search_result [] [] 0 0 0 0 false.
Definition search_text (fuel : nat) (w : Workspace) (token : bool) (r : SearchRequest) : act (option SearchResult) := λ h,
  match requested_paths (sq_paths r) [] with
  | RErr e => (RErr e, h)
  | ROk pending =>
    if bool_decide (pending = []) || (16 <? Z.of_nat (length pending)) || bool_decide (sq_query r = [])
       || (4096 <? len (sq_query r)) || (sq_max_results r =? 0)
    then (failing CInvalidPath [], h) else
    let '(res, st) := search_loop fuel w token r (h, mk_search_state pending [] [] search_start 512 false) in
    (res, st.1)
  end.
End search.
