(* ===== verification/SearchFacts.v ===== *)
(** Searching is bounded and sound on every host: the loop ends, no budget is
    exceeded, and every hit is a line of the text whose digest it names.

    Every hit of a search is an occurrence, in the text whose digest it
    names; snippets are whole characters. *)
From S2P Require Import Prelude Transact Wire Text HostFiles Workspace HostFacts Patch PatchTheorems Search.
#[local] Open Scope list_scope.

(** ** Preservation by search steps *)
Definition keeps {A} (I : search_state → Prop) (m : searching A) : Prop := ∀ st, I st.2 → I (m st).2.2.
Create HintDb keeps discriminated.
Section keeps.
Context (I : search_state → Prop).
Lemma keeps_ret {A} (a : A) : keeps I (mret a).
Proof. by intros st Hs. Qed.
Lemma keeps_throw {A} e : keeps I (throw e : searching A).
Proof. by intros st Hs. Qed.
Lemma keeps_reject b c p : keeps I (reject b c p).
Proof. by destruct b; intros st Hs. Qed.
Lemma keeps_beside {A} (m : act A) : keeps I (beside m).
Proof. intros [h s] Hs. unfold beside. simpl. by destruct (m h). Qed.
Lemma keeps_look {A} (g : search_state → A) : keeps I (look_at g).
Proof. by intros st Hs. Qed.
Lemma keeps_adjust g : (∀ s, I s → I (g s)) → keeps I (adjust g).
Proof. intros Hg st. apply Hg. Qed.
Lemma keeps_attempt {A} (m : searching A) : keeps I m → keeps I (attempt m : searching (res fault A)).
Proof. intros Hm st Hs. specialize (Hm st Hs). unfold attempt. by destruct (m st). Qed.
Lemma keeps_bind {A B} (m : searching A) (f : A → searching B) : keeps I m → (∀ a, keeps I (f a)) → keeps I (m ≫= f).
Proof.
  intros Hm Hf st Hs. specialize (Hm st Hs). unfold mbind, eff_bind. destruct (m st) as [[a|e] st']; [|done].
  by apply Hf.
Qed.
(** With what was looked at. *)
Lemma keeps_look_bind {A B} (g : search_state → A) (f : A → searching B) :
  (∀ st, I st.2 → I (f (g st.2) st).2.2) → keeps I (look_at g ≫= f).
Proof. intros Hf st Hs. by apply Hf. Qed.
End keeps.
#[export] Hint Resolve keeps_ret keeps_throw keeps_reject keeps_beside keeps_look keeps_attempt : keeps.
Ltac keeps_step :=
  lazymatch goal with
  | |- keeps _ (mbind _ _) => apply keeps_bind; [|intros ?]
  | |- keeps _ (match ?x with _ => _ end) => destruct x
  | |- keeps _ (adjust _) => apply keeps_adjust; auto with keeps
  | _ => solve [eauto with keeps]
  end.
Ltac solve_keeps := repeat keeps_step.

(** ** What reading and listing cost *)
Section costs.
Context {SH : Sha256} {HO : Host}.

Definition free {A} (m : eff (host_state * Z) fault A) : Prop := ∀ st, (m st).2.2 = st.2.
Lemma free_beside {A} (m : act A) : free (beside m).
Proof. intros [h n]. unfold beside. simpl. by destruct (m h). Qed.
Lemma free_bind {A B} (m : eff (host_state * Z) fault A) (f : A → eff (host_state * Z) fault B) :
  free m → (∀ a, free (f a)) → free (m ≫= f).
Proof.
  intros Hm Hf st. specialize (Hm st). unfold mbind, eff_bind. destruct (m st) as [[a|e] st']; [|done]. by rewrite Hf.
Qed.
Lemma free_reject b c p : free (reject b c p).
Proof. by destruct b. Qed.

Lemma take_z_len n t : 0 ≤ n → len (take_z n t) ≤ n.
Proof.
  intros Hn. unfold take_z. destruct (Z.leb_spec (len t) n); [done|]. unfold len in *. rewrite length_take. lia.
Qed.
Lemma read_take_len i n h x h' : 0 ≤ n → read_take i n h = (ROk x, h') → len x.1 ≤ n.
Proof.
  intros Hn. unfold read_take. set (bytes := match inode_of _ _ with Some _ => _ | None => _ end).
  assert (len bytes ≤ n) by (subst bytes; destruct (inode_of _ _); [by apply take_z_len|done]).
  destruct (fault_at _); intros [= <- _]; simpl; [|done]. unfold len in *. rewrite length_take. lia.
Qed.
(** A read stays within its budget, also when it fails. *)
Lemma read_cost w i p n st :
  0 ≤ n → 0 ≤ file_bytes (ws_limits w) → st.2 ≤ (read_content_limited w i p n st).2.2 ≤ st.2 + n.
Proof.
  intros Hn Hfb. destruct (read_content_limited w i p n st) as [res st'] eqn:H. unfold read_content_limited in H.
  apply eff_bind_cases in H as [(e & _ & H)|(meta & st1 & H1 & H)].
  { pose proof (free_beside (io_at p (metadata i)) st) as Hf. rewrite H in Hf. simpl in *. lia. }
  pose proof (free_beside (io_at p (metadata i)) st) as Hf1. rewrite H1 in Hf1. simpl in Hf1.
  apply eff_bind_cases in H as [(e & _ & H)|(u & st2 & H2 & H)].
  { pose proof (free_beside (io_at p (regular i)) st1) as Hf. rewrite H in Hf. simpl in *. lia. }
  pose proof (free_beside (io_at p (regular i)) st1) as Hf2. rewrite H2 in Hf2. simpl in Hf2.
  apply eff_bind_cases in H as [(e & _ & H)|(u' & st3 & [_ ->]%reject_ROk & H)].
  { match type of H with reject ?b ?c ?q ?s = _ => pose proof (free_reject b c q s) as Hf end. rewrite H in Hf. simpl in *. lia. }
  apply eff_bind_cases in H as [(e & _ & H)|([bytes read] & st4 & H4 & H)].
  { match type of H with beside ?m ?s = _ => pose proof (free_beside m s) as Hf end. rewrite H in Hf. simpl in *. lia. }
  apply beside_ROk in H4 as [H4 Hf4]. apply io_at_ROk, read_take_len in H4; [|lia]. simpl in H4.
  apply eff_bind_cases in H as [(e & _ & [=])|(u'' & st5 & H5 & H)].
  assert (Hf5 : st5.2 = st4.2 + len bytes) by (injection H5 as _ <-; done).
  assert (Hrest : (res, st').2.2 = st5.2).
  { rewrite <-H. apply free_bind; [by destruct read|intros _]. apply free_bind.
    { destruct (_ <? len bytes); [done|]. destruct (_ =? _); [apply free_beside|done]. }
    intros larger. repeat (apply free_bind; [apply free_reject|intros _]). done. }
  simpl in *. pose proof (len_nonneg bytes). lia.
Qed.

Lemma collect_names_length limit listing : ∀ acc u,
  Z.of_nat (length acc) ≤ limit → Z.of_nat (length (collect_names limit acc u listing).1) ≤ limit.
Proof.
  induction listing as [|nm listing IH]; intros acc u Ha; cbn [collect_names]; [done|].
  destruct (Z.eqb_spec (Z.of_nat (length acc)) limit) as [|Hne]; [done|].
  destruct (utf8 nm); apply IH; rewrite length_app; simpl; lia.
Qed.
Lemma children_length dir limit h x h' :
  0 ≤ limit → children dir limit h = (ROk x, h') → Z.of_nat (length x.1) ≤ limit.
Proof.
  intros Hl H. unfold children in H. eff_inv. by apply collect_names_length.
Qed.
Lemma insert_path_length p l : (length (insert_path p l) ≤ S (length l))%nat.
Proof. induction l as [|q l IH]; simpl; [lia|]. destruct (text_compare p q); simpl; lia. Qed.
End costs.

(** ** Bounds *)
Section bounds.
Context {UP : Uppercase} {SH : Sha256} {JT : JsonText} {HO : Host}.
Context (w : Workspace) (r : SearchRequest).
Hypothesis (Hw : limits_valid (ws_limits w) = true).

Definition size_of (j : json) : Z := json_size j + 1.
Definition total (l : list Z) : Z := foldr Z.add 0 l.
Lemma total_snoc l x : total (l ++ [x]) = total l + x.
Proof. induction l as [|y l IH]; simpl in *; lia. Qed.

(** What the budgets guarantee of a result. *)
Record within_limits (res : SearchResult) : Prop := {
  wl_matches : Z.of_nat (length (sr_matches res)) ≤ max_matches r;
  wl_issues : Z.of_nat (length (sr_issues res)) ≤ 4;
  wl_scanned : sr_scanned_bytes res ≤ scan_bytes (ws_limits w);
  wl_visited : sr_visited_entries res ≤ entries (ws_limits w);
  wl_listed : sr_listed_entries res ≤ entries (ws_limits w);
  wl_output : total (size_of ∘ ser_search_match <$> sr_matches res)
              + total (size_of ∘ ser_failure <$> sr_issues res) ≤ output_bytes (ws_limits w) - 1024 }.
(** The invariant of the loop: the output counter is what has been charged,
    and [n] bounds the work ahead. *)
Record bounded (n : Z) (s : search_state) : Prop := {
  bd_result : within_limits (ss_result s);
  bd_output : ss_output_bytes s = 512 + total (size_of ∘ ser_search_match <$> sr_matches (ss_result s))
                                  + total (size_of ∘ ser_failure <$> sr_issues (ss_result s));
  bd_work : Z.of_nat (length (ss_pending s)) + (entries (ws_limits w) - sr_listed_entries (ss_result s)) ≤ n }.

Lemma bounded_truncate n b s : bounded n s → bounded n (truncate b s).
Proof. by intros [[] ? ?]. Qed.
Lemma bounded_issue n f s : bounded n s → bounded n (issue (output_bytes (ws_limits w)) f s).
Proof.
  intros [[Hm Hi Hs Hv Hl Ho] Hob Hwk]. unfold issue. destruct (_ && _) eqn:E; [|by split].
  apply andb_true_iff in E as [E1 E2]. apply Z.ltb_lt in E1. apply Z.leb_le in E2.
  assert (Ht : total (size_of ∘ ser_failure <$> sr_issues (ss_result s) ++ [f])
    = total (size_of ∘ ser_failure <$> sr_issues (ss_result s)) + (json_size (ser_failure f) + 1))
    by (rewrite fmap_app; apply total_snoc).
  repeat split; simpl; try done; rewrite ?Ht, ?length_app; simpl; lia.
Qed.

Lemma bounded_match_lines n src lines : ∀ index s,
  bounded n s → bounded n (match_lines (output_bytes (ws_limits w)) r src index lines s).
Proof.
  induction lines as [|line lines IH]; intros index s Hs; cbn [match_lines]; [done|].
  destruct (find (sq_query r) line) as [column|]; [|auto].
  destruct (Z.leb_spec (max_matches r) (Z.of_nat (length (sr_matches (ss_result s))))) as [|Hlt]; [by apply bounded_truncate|].
  cbv zeta. set (m := hit src index line column).
  destruct (Z.ltb_spec (output_bytes (ws_limits w) - 512) (ss_output_bytes s + (json_size (ser_search_match m) + 1))) as [|Hle].
  { by destruct (bounded_truncate n true s Hs). }
  apply IH. destruct Hs as [[Hm Hi Hsc Hv Hl Ho] Hob Hwk].
  assert (Ht : total (size_of ∘ ser_search_match <$> sr_matches (ss_result s) ++ [m])
    = total (size_of ∘ ser_search_match <$> sr_matches (ss_result s)) + (json_size (ser_search_match m) + 1))
    by (rewrite fmap_app; apply total_snoc).
  repeat split; simpl; try done; rewrite ?Ht, ?length_app; simpl; lia.
Qed.
Lemma bounded_add_child n p nm s :
  bounded n s → bounded (n + 1) (add_child (output_bytes (ws_limits w)) p nm s).
Proof.
  intros Hs. assert (Hs' : bounded (n + 1) s) by (destruct Hs; split; [done..|lia]).
  unfold add_child. destruct (path (join p nm)) as [c|[f|]]; [|case_decide; [done|by apply bounded_issue, bounded_truncate]|done].
  case_bool_decide; [done|]. destruct Hs as [? ? Hwk]. split; simpl; [done..|].
  pose proof (insert_path_length c (ss_pending s)). lia.
Qed.
Lemma bounded_add_children p names : ∀ n s,
  bounded n s →
  bounded (n + Z.of_nat (length names)) (foldl (λ s nm, add_child (output_bytes (ws_limits w)) p nm s) s names).
Proof.
  induction names as [|nm names IH]; intros n s Hs; cbn [foldl length]; [by rewrite Z.add_0_r|].
  apply (bounded_add_child _ p nm), IH in Hs. by replace (n + Z.of_nat (S (length names)))
    with (n + 1 + Z.of_nat (length names)) by lia.
Qed.
Lemma keeps_visit_directory n p file : keeps (bounded n) (visit_directory w p file).
Proof.
  unfold visit_directory. apply keeps_look_bind. intros [h s] Hs. cbn [snd] in *.
  set (m := io_at p (children file (saturating_sub (entries (ws_limits w)) (sr_listed_entries (ss_result s))))).
  destruct ((beside m : searching _) (h, s)) as [[[names trunc]|e] st1] eqn:E; last first.
  { rewrite (eff_bind_err _ _ _ _ _ E). pose proof (keeps_beside (bounded n) m (h, s) Hs) as Hk. by rewrite E in Hk. }
  rewrite (eff_bind_run _ _ _ _ _ E). apply beside_ROk in E as [E Hst].
  apply io_at_ROk, children_length in E; [|unfold saturating_sub; lia]. unfold adjust. cbn [fst snd] in *. rewrite Hst.
  replace n with (n - Z.of_nat (length names) + Z.of_nat (length names)) by lia.
  apply bounded_add_children. destruct Hs as [[Hm Hi Hsc Hv Hl Ho] Hob Hwk]. unfold saturating_sub in E.
  repeat split; simpl; try done; lia.
Qed.
Lemma keeps_visit_file n p file : keeps (bounded n) (visit_file w r p file).
Proof.
  unfold visit_file. apply keeps_look_bind. intros [h s] Hs. simpl.
  assert (Hscan : sr_scanned_bytes (ss_result s) ≤ scan_bytes (ws_limits w)) by apply Hs.
  destruct (Z.eqb_spec (saturating_sub (scan_bytes (ws_limits w)) (sr_scanned_bytes (ss_result s))) 0) as [|Hne].
  { unfold mbind, eff_bind. simpl. by apply bounded_truncate. }
  unfold mbind at 1, eff_bind. simpl. unfold mbind, eff_bind, scan_content. simpl.
  pose proof (read_cost w file p (saturating_sub (scan_bytes (ws_limits w)) (sr_scanned_bytes (ss_result s)))
    (h, sr_scanned_bytes (ss_result s))) as Hcost. simpl in Hcost.
  destruct (read_content_limited _ _ _ _ _) as [res [h' scanned]]. simpl in Hcost.
  assert (bounded n (on_result (λ res, res <| sr_scanned_bytes := scanned |>) s)) as Hs'.
  { unfold limits_valid in Hw. rewrite !andb_true_iff, !Z.leb_le, Z.ltb_lt in Hw.
    destruct Hs as [[Hm Hi Hsc Hv Hl Ho] Hob Hwk]. unfold saturating_sub in *. repeat split; simpl; try done; lia. }
  destruct res as [c|e]; simpl; [by apply bounded_match_lines|done].
Qed.
Lemma bounded_seen n p s : bounded n s → bounded n (s <| ss_seen := p :: ss_seen s |>).
Proof. by intros [[] ? ?]. Qed.
Lemma bounded_objects n i s : bounded n s → bounded n (s <| ss_objects := i :: ss_objects s |>).
Proof. by intros [[] ? ?]. Qed.
Lemma keeps_visit n p opened : keeps (bounded n) (visit w r p opened).
Proof.
  unfold visit. apply keeps_bind; [destruct opened; auto with keeps|intros file].
  apply keeps_bind; [auto with keeps|intros meta]. destruct (is_dir meta); [apply keeps_visit_directory|apply keeps_visit_file].
Qed.
Lemma keeps_after_visit n outcome : keeps (bounded n) (after_visit w r outcome).
Proof.
  unfold after_visit. apply keeps_bind; [|intros _].
  { destruct outcome as [|[]]; [auto with keeps| |auto with keeps]. apply keeps_adjust. intros s Hs. by apply bounded_issue, bounded_truncate. }
  apply keeps_bind; [auto with keeps|intros s]. destruct (_ || _); [|auto with keeps].
  apply keeps_bind; [|auto with keeps]. apply keeps_adjust, bounded_truncate.
Qed.
Lemma keeps_search_entry n token p : keeps (bounded n) (search_entry w token r p).
Proof.
  unfold search_entry. apply keeps_bind; [auto with keeps|intros stop]. destruct stop.
  { apply keeps_bind; [|auto with keeps]. apply keeps_adjust. intros s Hs. by apply bounded_issue, bounded_truncate. }
  apply keeps_bind; [auto with keeps|intros seen]. destruct seen; [auto with keeps|].
  apply keeps_bind; [apply keeps_adjust, bounded_seen|intros _]. apply keeps_bind; [auto with keeps|intros opened].
  apply keeps_bind; [auto with keeps|intros duplicate]. destruct duplicate; [auto with keeps|].
  apply keeps_bind; [|intros _]. { apply keeps_adjust. intros s Hs. destruct opened; [by apply bounded_objects|done]. }
  apply keeps_look_bind. intros [h s] Hs. cbn [snd] in *.
  destruct (Z.eqb_spec (sr_visited_entries (ss_result s)) (entries (ws_limits w))) as [|Hne].
  { unfold mbind, eff_bind. simpl. by apply bounded_truncate. }
  unfold mbind at 1, eff_bind. cbn [adjust fst snd].
  match goal with |- bounded _ (?m ?st).2.2 => assert (Hk : keeps (bounded n) m); [|apply (Hk st)] end.
  - apply keeps_bind; [apply keeps_attempt, keeps_visit|intros outcome]. apply keeps_after_visit.
  - destruct Hs as [[Hm Hi Hsc Hv Hl Ho] Hob Hwk]. repeat split; simpl; try done; lia.
Qed.

(** *** Progress *)
Definition goes {A} (m : searching A) : Prop := ∀ st, ∃ a, (m st).1 = ROk a.
Lemma goes_bind {A B} (m : searching A) (f : A → searching B) : goes m → (∀ a, goes (f a)) → goes (m ≫= f).
Proof.
  intros Hm Hf st. unfold mbind, eff_bind. specialize (Hm st) as [a Ha]. destruct (m st) as [res st']. simpl in Ha.
  subst. apply Hf.
Qed.
Lemma calm_visit p opened : calm (visit w r p opened).
Proof.
  assert (Hread : ∀ i q n, calm (read_content_limited w i q n))
    by (intros; unfold read_content_limited, still_larger; repeat calm_step; auto using calm_count, calm_beside, calm_bind, calm_io_at, calm_ret).
  assert (Hscan : ∀ i q n, calm (scan_content w i q n)).
  { intros i q n st. unfold scan_content. specialize (Hread i q n (st.1, sr_scanned_bytes (ss_result st.2))).
    by destruct (read_content_limited _ _ _ _ _) as [? [? ?]]. }
  assert (Hadj : ∀ g, calm (adjust g)) by done. assert (Hlook : ∀ A (g : search_state → A), calm (look_at g)) by done.
  unfold visit, visit_directory, visit_file, fail_with. repeat calm_step; auto.
Qed.
Lemma goes_search_entry token p : goes (search_entry w token r p).
Proof.
  assert (Hadj : ∀ g, goes (adjust g)) by (intros g st; by exists tt).
  assert (Hlook : ∀ A (g : search_state → A), goes (look_at g)) by (intros A g st; by eexists).
  assert (Hret : ∀ A (a : A), goes (mret a)) by (intros A a st; by eexists).
  assert (Hbes : ∀ A (m : act A), (∀ h, ∃ a, (m h).1 = ROk a) → goes (beside m)).
  { intros A m Hm [h s]. specialize (Hm h) as [a Ha]. exists a. unfold beside. simpl. by destruct (m h). }
  unfold search_entry. apply goes_bind; [apply Hbes; intros h; by eexists|intros stop]. destruct stop; [by apply goes_bind|].
  apply goes_bind; [done|intros seen]. destruct seen; [done|]. apply goes_bind; [done|intros _].
  apply goes_bind; [apply Hbes; intros h; unfold attempt; destruct (open_entry w p h); by eexists|intros opened].
  apply goes_bind; [done|intros duplicate]. destruct duplicate; [done|]. apply goes_bind; [done|intros _].
  apply goes_bind; [done|intros visited]. destruct (_ =? _); [by apply goes_bind|]. apply goes_bind; [done|intros _].
  intros st. unfold attempt, mbind, eff_bind. pose proof (calm_visit p opened st) as Hcalm.
  destruct (visit w r p opened st) as [[u|[f|]] st1]; [| |done]; unfold after_visit.
  all: match goal with |- ∃ a, (?m ?x).1 = ROk a => assert (goes m) as Hg; [|apply Hg] end.
  all: apply goes_bind; [done|intros _]; apply goes_bind; [done|intros s]; destruct (_ || _); [by apply goes_bind|done].
Qed.

(** The loop ends within the work that is left. *)
Lemma search_loop_bounded token fuel : ∀ n st,
  bounded n st.2 → n < Z.of_nat fuel →
  ∃ res st', search_loop fuel w token r st = (ROk (Some res), st') ∧ within_limits res.
Proof.
  induction fuel as [|fuel IH]; intros n [h s] Hs Hn.
  { exfalso. destruct Hs as [[] ? ?]. simpl in *. lia. }
  cbn [search_loop]. unfold mbind at 1, eff_bind. cbn [look_at snd fst].
  destruct (ss_pending s) as [|p rest] eqn:Ep; [by do 2 eexists; split; [done|]; apply Hs|].
  unfold mbind at 1, eff_bind. cbn [adjust snd fst]. set (s' := s <| ss_pending := rest |>).
  assert (Hs' : bounded (n - 1) s').
  { destruct Hs as [Hr Hob Hwk]. cbn [snd] in *. rewrite Ep in Hwk. cbn [length] in Hwk. split; simpl; [done..|lia]. }
  destruct (goes_search_entry token p (h, s')) as [next Hnext].
  pose proof (keeps_search_entry (n - 1) token p (h, s') Hs') as Hk.
  destruct (search_entry w token r p (h, s')) as [out st1] eqn:E. simpl in Hnext, Hk. subst out.
  rewrite (eff_bind_run _ _ _ _ _ E). destruct next; [apply (IH (n - 1)); [done|lia]|].
  do 2 eexists. split; [done|]. apply Hk.
Qed.

Lemma requested_no_panic paths : ∀ pending, requested_paths paths pending ≠ RErr Panic.
Proof.
  induction paths as [|v paths IH]; intros pending; [done|]. cbn [requested_paths].
  case_bool_decide; [apply IH|]. pose proof (path_no_panic v). destruct (path v) as [p|e]; [apply IH|]. simpl. congruence.
Qed.
End bounds.

Lemma search_text_bounded {UP : Uppercase} {SH : Sha256} {JT : JsonText} {HO : Host} w token r h :
  limits_valid (ws_limits w) = true → 0 ≤ sq_max_results r →
  let fuel := (17 + Z.to_nat (entries (ws_limits w)))%nat in
  (∃ f, search_text fuel w token r h = (RErr (Fail f), h))
  ∨ (∃ res h', search_text fuel w token r h = (ROk (Some res), h') ∧ within_limits w r res).
Proof.
  intros Hw Hmax. unfold search_text. pose proof (requested_no_panic (sq_paths r) []) as Hnp.
  destruct (requested_paths (sq_paths r) []) as [pending|[f|]]; [|left; eauto|done].
  destruct (_ || _) eqn:E; [left; by eexists|right].
  rewrite !orb_false_iff in E. destruct E as [[[[_ Hlen] _] _] _]. apply Z.ltb_ge in Hlen.
  pose proof Hw as Hw'. unfold limits_valid in Hw'. rewrite !andb_true_iff, !Z.leb_le, Z.ltb_lt in Hw'.
  destruct (search_loop_bounded w r Hw token (17 + Z.to_nat (entries (ws_limits w)))
    (16 + entries (ws_limits w)) (h, mk_search_state pending [] [] search_start 512 false)) as (res & st' & Hrun & Hres).
  - unfold max_matches. repeat split; simpl; unfold max_matches; try lia.
  - lia.
  - rewrite Hrun. eauto.
Qed.

(** C35.  A search ends and respects every limit, on any host and whatever
    other processes do meanwhile: after at most one round per requested path
    and listed entry it answers, with a failure that concerns the request, or
    with a result whose numbers of matches, issues, visited and listed
    entries and scanned bytes are within the limits and whose matches and
    issues, serialised, leave room for the rest of the answer. *)
Theorem search_is_bounded {UP : Uppercase} {SH : Sha256} {JT : JsonText} {HO : Host} w token r h :
  limits_valid (ws_limits w) = true → 0 ≤ sq_max_results r →
  let fuel := (17 + Z.to_nat (entries (ws_limits w)))%nat in
  (∃ f, search_text fuel w token r h = (RErr (Fail f), h))
  ∨ (∃ res h', search_text fuel w token r h = (ROk (Some res), h') ∧ within_limits w r res).
Proof. apply search_text_bounded. Qed.

(** ** Cutting at character boundaries *)
Lemma boundary_utf8 s i :
  utf8 s = true → is_char_boundary s i = true → utf8 (take i s) = true ∧ utf8 (drop i s) = true.
Proof.
  intros Hu Hb. unfold is_char_boundary in Hb. destruct i as [|i]; [by rewrite take_0, drop_0|].
  destruct (s !! S i) as [c|] eqn:E.
  - apply negb_true_iff in Hb. rewrite <-(take_drop_middle _ _ _ E) in Hu. apply utf8_split_lead in Hu as [Hp Hr]; [|done].
    split; [done|]. by rewrite (drop_S _ _ _ E).
  - apply Nat.eqb_eq in Hb. by rewrite firstn_all2, skipn_all2 by lia.
Qed.
Lemma floor_boundary_spec s i :
  utf8 s = true →
  (floor_boundary s i ≤ i)%nat ∧ utf8 (take (floor_boundary s i) s) = true ∧ utf8 (drop (floor_boundary s i) s) = true.
Proof.
  intros Hu. induction i as [|i IH]; cbn [floor_boundary].
  - destruct (is_char_boundary s 0); by rewrite take_0, drop_0.
  - destruct (is_char_boundary s (S i)) eqn:E.
    + split; [lia|]. by apply boundary_utf8.
    + destruct IH as (? & ? & ?). split; [lia|done].
Qed.
Lemma split_inclusive_utf8_after t : ∀ acc,
  utf8 (acc ++ t) = true →
  match split_inclusive newline t with
  | [] => utf8 acc = true
  | l :: ls => utf8 (acc ++ l) = true ∧ Forall (λ l, utf8 l = true) ls
  end.
Proof.
  induction t as [|c t IH]; intros acc Hu; [by rewrite app_nil_r in Hu|]. cbn [split_inclusive].
  destruct (Ascii.eqb_spec newline c) as [<-|Hc].
  - apply utf8_split_ascii in Hu as [Ha Ht]; [|done]. rewrite utf8_app by done. split; [done|].
    specialize (IH [] Ht). destruct (split_inclusive newline t) as [|l ls]; [constructor|].
    destruct IH. by constructor.
  - specialize (IH (acc ++ [c])). rewrite <-app_assoc in IH. specialize (IH Hu).
    destruct (split_inclusive newline t) as [|l ls]; [by split|]. by rewrite <-app_assoc in IH.
Qed.
Lemma split_inclusive_utf8 s : utf8 s = true → Forall (λ l, utf8 l = true) (split_inclusive newline s).
Proof.
  intros Hu. pose proof (split_inclusive_utf8_after s [] Hu) as H.
  destruct (split_inclusive newline s) as [|l ls]; [constructor|]. destruct H. by constructor.
Qed.

(** ** Hits *)
Section hits.
Context {UP : Uppercase} {SH : Sha256} {JT : JsonText} {HO : Host} (w : Workspace) (r : SearchRequest).

Inductive occurrence (m : SearchMatch) : Prop :=
  | mk_occurrence body line :
      src_digest (sm_source m) = digest body →
      src_workspace_id (sm_source m) = ws_id w ∧ src_generation (sm_source m) = ws_generation w →
      utf8 body = true →
      split_inclusive newline body !! Z.to_nat (sm_line m - 1) = Some line ∧ 1 ≤ sm_line m →
      find (sq_query r) line = Some (Z.to_nat (sm_byte_column m - 1)) ∧ 1 ≤ sm_byte_column m →
      1 ≤ sm_snippet_start_column m ≤ sm_byte_column m
      ∧ prefix_of (sm_text m) (drop (Z.to_nat (sm_snippet_start_column m - 1)) line) = true
      ∧ utf8 (sm_text m) = true ∧ len (sm_text m) ≤ 512
      ∧ sm_truncated m = (len (sm_text m) <? len line) →
      occurrence m.

Lemma prefix_spec s n :
  utf8 s = true → utf8 (prefix s n) = true ∧ prefix_of (prefix s n) s = true ∧ (length (prefix s n) ≤ n)%nat.
Proof.
  intros Hu. unfold prefix. destruct (floor_boundary_spec s (Nat.min (length s) n) Hu) as (Hle & Ht & _).
  split_and!; [done| |rewrite length_take; lia]. apply prefix_of_spec. eexists. symmetry. apply take_drop.
Qed.
Lemma hit_occurrence p body index line column :
  utf8 body = true → split_inclusive newline body !! index = Some line → find (sq_query r) line = Some column →
  occurrence (hit (source w p (digest body)) index line column).
Proof.
  intros Hu Hl Hf. assert (Hul : utf8 line = true).
  { apply split_inclusive_utf8 in Hu. by eapply Forall_lookup_1 in Hu. }
  destruct (floor_boundary_spec line (column - 120) Hul) as (Hle & _ & Hud).
  destruct (prefix_spec (drop (floor_boundary line (column - 120)) line) 512 Hud) as (Hp1 & Hp2 & Hp3).
  apply (mk_occurrence _ body line); simpl; rewrite ?Z.add_simpl_r, ?Nat2Z.id; try done.
  - split; [done|lia].
  - split; [done|lia].
  - split_and!; try done; try lia. unfold len. lia.
Qed.

Definition sound (s : search_state) : Prop := Forall occurrence (sr_matches (ss_result s)).
Lemma sound_same s s' : sr_matches (ss_result s') = sr_matches (ss_result s) → sound s → sound s'.
Proof. unfold sound. by intros ->. Qed.
Lemma sound_issue limit f s : sound s → sound (issue limit f s).
Proof. unfold issue. by destruct (_ && _). Qed.
Lemma sound_match_lines limit p body lines : ∀ index s,
  utf8 body = true → (∀ i line, lines !! i = Some line → split_inclusive newline body !! (index + i)%nat = Some line) →
  sound s → sound (match_lines limit r (source w p (digest body)) index lines s).
Proof.
  induction lines as [|line lines IH]; intros index s Hu Hl Hs; cbn [match_lines]; [done|].
  assert (Htl : ∀ i l, lines !! i = Some l → split_inclusive newline body !! (S index + i)%nat = Some l).
  { intros i l Hi. rewrite <-(Hl (S i) l Hi). f_equal. lia. }
  destruct (find (sq_query r) line) as [column|] eqn:Ef; [|by apply IH].
  destruct (_ <=? _); [done|]. cbv zeta. destruct (_ <? _); [done|]. apply IH; [done..|].
  unfold sound. simpl. apply Forall_app. split; [done|]. constructor; [|constructor].
  apply hit_occurrence; [done| |done]. rewrite <-(Hl 0%nat line eq_refl). f_equal. lia.
Qed.
Lemma sound_add_child limit p nm s : sound s → sound (add_child limit p nm s).
Proof.
  intros Hs. unfold add_child. destruct (path (join p nm)) as [c|[f|]]; [by case_bool_decide|case_decide; [done|]|done].
  by apply sound_issue.
Qed.
(** Content that was read is valid text under its digest. *)
Lemma read_limited_content i p n st c st' :
  read_content_limited w i p n st = (ROk c, st') → c_digest c = digest (c_text c) ∧ utf8 (c_text c) = true.
Proof.
  intros H. unfold read_content_limited in H.
  do 3 (apply eff_bind_ROk in H as (? & ? & _ & H)). apply eff_bind_ROk in H as ([bytes read] & ? & _ & H).
  do 5 (apply eff_bind_ROk in H as (? & ? & _ & H)). apply eff_bind_ROk in H as (? & ? & [Hn _]%reject_ROk & H).
  apply eff_ret_ROk in H as [-> _]. split; [done|]. by apply negb_false_iff.
Qed.
Lemma keeps_visit_sound p opened : keeps sound (visit w r p opened).
Proof.
  unfold visit. apply keeps_bind; [destruct opened; auto with keeps|intros file].
  apply keeps_bind; [auto with keeps|intros meta]. destruct (is_dir meta).
  - unfold visit_directory. apply keeps_bind; [auto with keeps|intros listed].
    apply keeps_bind; [auto with keeps|intros [names truncated]]. apply keeps_adjust. intros s Hs.
    assert (Hs' : sound (on_result (λ r, r <| sr_listed_entries := sr_listed_entries r + Z.of_nat (length names) |>) (truncate truncated s))) by done.
    revert Hs'. generalize (on_result (λ r, r <| sr_listed_entries := sr_listed_entries r + Z.of_nat (length names) |>) (truncate truncated s)).
    induction names as [|nm names IH]; intros s' Hs'; [done|]. cbn [foldl]. by apply IH, sound_add_child.
  - unfold visit_file. apply keeps_bind; [auto with keeps|intros scanned]. apply keeps_bind; [|intros _].
    { destruct (_ =? 0); [|auto with keeps]. apply keeps_bind; [by apply keeps_adjust|intros _; apply keeps_throw]. }
    intros [h s] Hs. unfold mbind, eff_bind, scan_content. simpl.
    destruct (read_content_limited _ _ _ _ _) as [[c|e] [h' n]] eqn:E; [|done]. simpl.
    apply read_limited_content in E as [-> Hu]. by apply sound_match_lines.
Qed.
Lemma keeps_search_entry_sound token p : keeps sound (search_entry w token r p).
Proof.
  unfold search_entry. apply keeps_bind; [auto with keeps|intros stop]. destruct stop.
  { apply keeps_bind; [|auto with keeps]. apply keeps_adjust. intros s Hs. by apply sound_issue. }
  apply keeps_bind; [auto with keeps|intros seen]. destruct seen; [auto with keeps|].
  apply keeps_bind; [by apply keeps_adjust|intros _]. apply keeps_bind; [auto with keeps|intros opened].
  apply keeps_bind; [auto with keeps|intros duplicate]. destruct duplicate; [auto with keeps|].
  apply keeps_bind; [|intros _]. { apply keeps_adjust. intros s Hs. by destruct opened. }
  apply keeps_bind; [auto with keeps|intros visited]. destruct (_ =? _).
  { apply keeps_bind; [by apply keeps_adjust|auto with keeps]. }
  apply keeps_bind; [by apply keeps_adjust|intros _]. apply keeps_bind; [apply keeps_attempt, keeps_visit_sound|intros outcome].
  unfold after_visit. apply keeps_bind; [|intros _].
  { destruct outcome as [|[]]; [auto with keeps| |auto with keeps]. apply keeps_adjust. intros s Hs. by apply sound_issue. }
  apply keeps_bind; [auto with keeps|intros s]. destruct (_ || _); [|auto with keeps].
  apply keeps_bind; [by apply keeps_adjust|auto with keeps].
Qed.
Lemma search_loop_sound token fuel : ∀ st res st',
  sound st.2 → search_loop fuel w token r st = (ROk (Some res), st') → Forall occurrence (sr_matches res).
Proof.
  induction fuel as [|fuel IH]; intros [h s] res st' Hs H; [done|]. cbn [search_loop] in H.
  apply eff_bind_ROk in H as (pending & st1 & [= <- <-] & H). destruct (ss_pending s) as [|p rest].
  { apply eff_bind_ROk in H as (? & ? & [= <- <-] & H). by injection H as <- _. }
  apply eff_bind_ROk in H as (u & st2 & [= <- <-] & H). apply eff_bind_ROk in H as (next & st3 & Hn & H).
  assert (Hs3 : sound st3.2).
  { change st3.2 with ((@ROk fault flow next, st3).2.2). rewrite <-Hn. by apply keeps_search_entry_sound. }
  destruct next; [by eapply IH|]. apply eff_bind_ROk in H as (? & ? & [= <- <-] & H). by injection H as <- _.
Qed.
End hits.

(**  Hits are real, on any host and for every fuel: each match of a
    search names the digest of a text (the file as it was read) whose given
    line contains the query, first at the given byte column; the snippet is
    a piece of that line of at most 512 bytes that starts no later than the
    occurrence, is valid UTF-8, and is marked as truncated exactly when it is
    shorter than the line. *)
Theorem search_hits_occur {UP : Uppercase} {SH : Sha256} {JT : JsonText} {HO : Host} fuel w token r h res h' :
  search_text fuel w token r h = (ROk (Some res), h') → Forall (occurrence w r) (sr_matches res).
Proof.
  unfold search_text. destruct (requested_paths _ _) as [pending|]; [|done]. destruct (_ || _); [done|].
  destruct (search_loop _ _ _ _ _) as [out st'] eqn:E. intros [= -> _].
  eapply search_loop_sound; [|exact E]. constructor.
Qed.
