(* ===== verification/FileTools.v ===== *)
(** The file tools an agent calls: [decode] and [Tools for Workspace] of
    [src/src/nano/workspace.rs], with the outcomes of
    [src/src/nano/tools.rs].  A value that is passed on as JSON is its tree;
    the order of an object's fields is the one of the struct.

    A failed tool call changed nothing: the room that [commit_plans] reserves
    before the first effect is enough for the answer, so that a patch that
    was applied is never reported as failed. *)
From S2P Require Import Prelude View Transact Wire Text HostFiles Workspace Hunks HostFacts Patch PatchTheorems Search SearchFacts.
#[local] Open Scope list_scope.

Inductive ToolError : Type :=
  | UnknownTool
  | InvalidArguments
  | Arguments (message : string)
  | Denied
  | Failed
  | Interrupted
  | OutputLimit
  | WorkspaceError (value : json)
  | ContextError (value : json)
  | LifecycleError (value : json)
  | McpError (value : json).
Inductive ToolOutcome : Type :=
  | Success (value : json)
  | OutcomeFailed (e : ToolError)
  | Unknown (e : ToolError).
Inductive Request : Type :=
  | Read (r : ReadRequest)
  | SearchFor (r : SearchRequest)
  | PatchWith (r : PatchRequest).
Record ValidatedCall : Type := mk_call { call_name : string; call_arguments : json }.

(** ** Wire forms *)
Definition ser_tool_error (e : ToolError) : json :=
  match e with
  | UnknownTool => JStr "unknown_tool"
  | InvalidArguments => JStr "invalid_arguments"
  | Arguments m => JObj [("arguments", JObj [("message", JStr m)])]
  | Denied => JStr "denied"
  | Failed => JStr "failed"
  | Interrupted => JStr "interrupted"
  | OutputLimit => JStr "output_limit"
  | WorkspaceError v => JObj [("workspace", v)]
  | ContextError v => JObj [("context", v)]
  | LifecycleError v => JObj [("lifecycle", v)]
  | McpError v => JObj [("mcp", v)]
  end.
Definition ser_outcome (o : ToolOutcome) : json :=
  match o with
  | Success v => JObj [("status", JStr "success"); ("content", v)]
  | OutcomeFailed e => JObj [("status", JStr "failed"); ("content", ser_tool_error e)]
  | Unknown e => JObj [("status", JStr "unknown"); ("content", ser_tool_error e)]
  end.
Definition ser_read_result (r : ReadResult) : json :=
  JObj [("source", ser_source (rd_source r)); ("start_line", JNum (rd_start_line r));
        ("returned_lines", JNum (rd_returned_lines r)); ("next_line", ser_option JNum (rd_next_line r));
        ("text", jtext (rd_text r)); ("truncated", JBool (rd_truncated r))].
Definition ser_search_result (r : SearchResult) : json :=
  JObj [("matches", ser_list ser_search_match (sr_matches r)); ("issues", ser_list ser_failure (sr_issues r));
        ("suppressed_issues", JNum (sr_suppressed_issues r)); ("scanned_bytes", JNum (sr_scanned_bytes r));
        ("visited_entries", JNum (sr_visited_entries r)); ("listed_entries", JNum (sr_listed_entries r));
        ("truncated", JBool (sr_truncated r))].

Definition de_text (j : json) : option text := lit <$> de_string j.
Definition de_usize (j : json) : option Z := de_int 0 u64_modulus j.
Definition de_hunk (j : json) : option Hunk :=
  fs ← closed_struct ["start_line"; "old_text"; "new_text"] j;
  n ← req de_usize "start_line" fs; o ← req de_text "old_text" fs; t ← req de_text "new_text" fs;
  Some (mk_hunk n o t).
(** [#[serde(tag = "operation")]] *)
Definition operation_of (j : json) : option (string * json) :=
  match j with
  | JObj fs =>
    op ← req de_string "operation" fs;
    Some (op, JObj (List.filter (λ kv, negb (String.eqb kv.1 "operation")) fs))
  | _ => None
  end.
Definition de_edit (j : json) : option Edit :=
  '(op, body) ← operation_of j;
  if String.eqb op "create" then
    fs ← closed_struct ["path"; "content"] body;
    p ← req de_text "path" fs; c ← req de_text "content" fs; Some (Create p c)
  else if String.eqb op "update" then
    fs ← closed_struct ["path"; "expected_digest"; "hunks"] body;
    p ← req de_text "path" fs; d ← req de_text "expected_digest" fs; hs ← req (de_list de_hunk) "hunks" fs;
    Some (Update p d hs)
  else if String.eqb op "delete" then
    fs ← closed_struct ["path"; "expected_digest"] body;
    p ← req de_text "path" fs; d ← req de_text "expected_digest" fs; Some (Delete p d)
  else None.
Definition de_single (j : json) : option SingleEdit :=
  '(op, body) ← operation_of j;
  if String.eqb op "create" then
    fs ← closed_struct ["path"; "content"] body;
    p ← req de_text "path" fs; c ← req de_text "content" fs; Some (SCreate p c)
  else if String.eqb op "update" then
    fs ← closed_struct ["path"; "expected_digest"; "old_text"; "new_text"] body;
    p ← req de_text "path" fs; d ← req de_text "expected_digest" fs;
    o ← req de_text "old_text" fs; n ← req de_text "new_text" fs; Some (SUpdate p d o n)
  else if String.eqb op "delete" then
    fs ← closed_struct ["path"; "expected_digest"] body;
    p ← req de_text "path" fs; d ← req de_text "expected_digest" fs; Some (SDelete p d)
  else None.
Definition de_patch_request (j : json) : option PatchRequest :=
  fs ← closed_struct ["edits"] j; req (de_list de_edit) "edits" fs.
(** [value.get(key)] *)
Definition get (key : string) (j : json) : option json :=
  match j with JObj fs => field_of key fs | _ => None end.
Definition patch_request (value : json) : option PatchRequest :=
  match get "edits" value with
  | Some _ => de_patch_request value
  | None => from_single <$> de_single value
  end.
Definition de_read_request (j : json) : option ReadRequest :=
  fs ← closed_struct ["path"; "start_line"; "max_lines"; "max_bytes"] j;
  p ← req de_text "path" fs; s ← with_default 1 de_usize "start_line" fs;
  l ← with_default 200 de_usize "max_lines" fs; b ← with_default (16 * 1024) de_usize "max_bytes" fs;
  Some (mk_read_request p s l b).
Definition de_search_request (j : json) : option SearchRequest :=
  fs ← closed_struct ["paths"; "query"; "max_results"] j;
  ps ← with_default [lit "."] (de_list de_text) "paths" fs; q ← req de_text "query" fs;
  n ← with_default 50 de_usize "max_results" fs;
  Some (mk_search_request ps q n).

(** ** Decoding *)
Definition edits_not_array : string :=
  "edits must be a JSON array, not a string containing JSON. Prefer a flat single-file call with operation, path, expected_digest, old_text, new_text for updates; omit edits. No files were changed".
Definition digest_required : string :=
  "Every update and delete requires expected_digest from a current read_file result's source.digest. Read the target if necessary, then reissue the complete batch; no files were changed".
Definition read_usage : string :=
  "read_file requires path (string); optional start_line, max_lines, max_bytes must be positive integers. No other fields are accepted".
Definition search_usage : string :=
  "search_text requires query (nonempty string); optional paths is an array of strings and max_results is a positive integer. No other fields are accepted".
Definition patch_usage : string :=
  "A flat call requires operation and path. create requires content; delete requires expected_digest; update requires expected_digest, old_text, new_text (no start_line). Alternatively use edits (an array, update uses hunks). Do not mix flat and batch fields. No other fields are accepted; no files were changed".
Definition limits_usage : string :=
  "Use positive read/search limits, 1-16 edits, and 1-128 hunks per update with positive 1-based start_line. No files were changed".

Definition is_string (o : option json) : bool := match o with Some (JStr _) => true | _ => false end.
(** An update or delete without a digest. *)
Definition lacks_digest (edit : json) : bool :=
  match get "operation" edit with
  | Some (JStr op) => (String.eqb op "update" || String.eqb op "delete") && negb (is_string (get "expected_digest" edit))
  | _ => false
  end.
Definition valid_request (request : Request) : bool :=
  match request with
  | Read r => (0 <? rr_start_line r) && (0 <? rr_max_lines r) && (0 <? rr_max_bytes r)
  | SearchFor r =>
    negb (bool_decide (sq_paths r = [])) && (Z.of_nat (length (sq_paths r)) <=? 16)
    && negb (bool_decide (sq_query r = [])) && (len (sq_query r) <=? 4096) && (0 <? sq_max_results r)
  | PatchWith edits =>
    negb (bool_decide (edits = [])) && (Z.of_nat (length edits) <=? 16)
    && forallb (λ e, match e with
         | Update _ _ hunks =>
           negb (bool_decide (length hunks = 0%nat)) && (Z.of_nat (length hunks) <=? 128)
           && forallb (λ h, 0 <? start_line h) hunks
         | Replace _ _ old _ => negb (bool_decide (old = []))
         | _ => true
         end) edits
  end.

Section tools.
Context `{UP : Uppercase} {SH : Sha256} {JT : JsonText} {HO : Host}.

(** The guidance for batches, before parsing. *)
Definition batch_guidance (name : string) (value : json) : res ToolError unit :=
  match get "edits" value with
  | Some edits =>
    if String.eqb name "apply_patch" then
      match edits with
      | JArr l => if existsb lacks_digest l then RErr (Arguments digest_required) else ROk tt
      | _ => RErr (Arguments edits_not_array)
      end
    else ROk tt
  | None => ROk tt
  end.
Definition parse_request (name : string) (value : json) : res ToolError Request :=
  if String.eqb name "read_file" then ok_or (Arguments read_usage) (Read <$> de_read_request value)
  else if String.eqb name "search_text" then ok_or (Arguments search_usage) (SearchFor <$> de_search_request value)
  else if String.eqb name "apply_patch" then ok_or (Arguments patch_usage) (PatchWith <$> patch_request value)
  else RErr UnknownTool.
Definition decode (name : string) (value : json) : res ToolError Request :=
  match encode value (256 * 1024) with
  | None => RErr InvalidArguments
  | Some _ =>
    _ ← batch_guidance name value;
    request ← parse_request name value;
    if valid_request request then ROk request else RErr (Arguments limits_usage)
  end.
Definition validate (name : string) (arguments : json) : res ToolError unit :=
  _ ← decode name arguments; ROk tt.

(** ** Execution *)
Definition search_fuel (w : Workspace) : nat := (17 + Z.to_nat (entries (ws_limits w)))%nat.
Definition is_cancelled (token : bool) : act bool := λ h,
  (ROk (token && cancelled (h_tick h)), h <| h_tick := S (h_tick h) |>).
Definition bound_outcome (w : Workspace) (o : ToolOutcome) : ToolOutcome :=
  match encode (ser_outcome o) (output_bytes (ws_limits w)) with
  | Some _ => o
  | None => OutcomeFailed OutputLimit
  end.
(** A tool that only reads, with its failure as a value. *)
Definition run_reader {A} (w : Workspace) (m : act A) (ser : A → json) : act (ToolOutcome * Workspace) :=
  result ← attempt m;
  match result with
  | ROk a => mret (bound_outcome w (Success (ser a)), w)
  | RErr (Fail f) => mret (bound_outcome w (OutcomeFailed (WorkspaceError (ser_failure f))), w)
  | RErr Panic => throw Panic
  end.
Definition execute (w : Workspace) (token : bool) (call : ValidatedCall) : act (ToolOutcome * Workspace) :=
  match decode (call_name call) (call_arguments call) with
  | RErr e => mret (OutcomeFailed e, w)
  | ROk request =>
    stop ← is_cancelled token;
    if stop : bool then mret (OutcomeFailed Interrupted, w) else
    match request with
    | Read r => run_reader w (read_file w r) ser_read_result
    | SearchFor r => run_reader w (search_text (search_fuel w) w token r) (ser_option ser_search_result)
    | PatchWith r =>
      '(result, w') ← apply_patch w token r;
      if pr_complete result then mret (bound_outcome w' (Success (ser_patch_result result)), w')
      else
        let error := WorkspaceError (ser_patch_result result) in
        if existsb (λ c, negb (bool_decide (ch_state c = NotApplied))) (pr_changes result)
        then mret (Unknown error, w') else mret (OutcomeFailed error, w')
    end
  end.
Definition effect_plan (w : Workspace) (call : ValidatedCall) : act (option (list PlannedFile)) :=
  if negb (String.eqb (call_name call) "apply_patch") then mret None else
  match decode (call_name call) (call_arguments call) with
  | ROk (PatchWith request) => patch_effect_plan w request
  | _ => mret None
  end.
(** [invalidate_for_command] *)
Definition invalidate_for_command (w : Workspace) : Workspace := next_generation w.
End tools.

(** ** The size of compact JSON *)
(** Letters, digits and the separators of identifiers, which JSON does not
    escape. *)
Definition plain_char (c : ascii) : bool :=
  in_range 48 57 c || in_range 97 122 c || (byte c =? 95).
Definition plain (s : string) : bool := forallb plain_char (lit s).

Definition commas (n : nat) : Z := Z.max 0 (Z.of_nat n - 1).
Section size.
Context (str_size : string → Z) (num_size : Z → Z).
Fixpoint jsize (j : json) : Z :=
  match j with
  | JNull => 4
  | JBool b => if b then 4 else 5
  | JNum z => num_size z
  | JStr s => str_size s
  | JArr l => 2 + commas (length l) + foldr (λ x n, jsize x + n) 0 l
  | JObj fs => 2 + commas (length fs) + foldr (λ kv n, str_size kv.1 + 1 + jsize kv.2 + n) 0 fs
  end.
End size.
(** [serde_json]'s compact form: quoted strings with escapes, decimal
    numbers, no white space. *)
Class JsonSize {JT : JsonText} := {
  str_size : string → Z;
  num_size : Z → Z;
  json_text_size j : Z.of_nat (String.length (json_text j)) = jsize str_size num_size j;
  str_size_plain s : plain s = true → str_size s = Z.of_nat (String.length s) + 2;
  num_size_u64 z : 0 ≤ z ≤ usize_max → 1 ≤ num_size z ≤ 20 }.

Lemma encode_Some {JT : JsonText} j limit : is_Some (encode j limit) ↔ Z.of_nat (String.length (json_text j)) ≤ limit.
Proof.
  unfold encode. destruct (Z.leb_spec (Z.of_nat (String.length (json_text j))) limit).
  - split; [done|]. by eexists.
  - split; [by intros [? ?]|lia].
Qed.

Section room.
Context {SH : Sha256} {SL : Sha256Laws} {JT : JsonText} {JS : JsonSize}.

Lemma plain_hex_lower c : is_hex_lower c = true → plain_char c = true.
Proof. destruct c as [[] [] [] [] [] [] [] []]; by vm_compute. Qed.
Lemma digest_size t : str_size (str (digest t)) = 66.
Proof using SL.
  unfold digest. rewrite str_lit. rewrite str_size_plain.
  - rewrite hex_bytes_length, sha256_length. done.
  - unfold plain. pose proof (hex_bytes_ok _ (sha256_bytes (str t))) as H. unfold all_bytes in H.
    rewrite forallb_forall in *. intros c Hc. by apply plain_hex_lower, H.
Qed.

Local Notation size := (jsize str_size num_size).
(** Marking a file as applied costs at most 58 bytes. *)
Lemma mark_size plan :
  size (ser_change (mark Applied (planned_change plan))) ≤ size (ser_change (planned_change plan)) + 58.
Proof using SL.
  unfold ser_change, mark, planned_change. simpl. destruct (pl_after plan) as [t|]; simpl.
  - unfold jtext, ser_option. simpl. rewrite (str_size_plain "not_applied"), (str_size_plain "applied"), digest_size by done.
    simpl. lia.
  - unfold ser_option. simpl. rewrite (str_size_plain "not_applied"), (str_size_plain "applied") by done. simpl. lia.
Qed.
Lemma changes_size plans :
  foldr (λ x n, size x + n) 0 (ser_change <$> (mark Applied ∘ planned_change <$> plans))
  ≤ foldr (λ x n, size x + n) 0 (ser_change <$> (planned_change <$> plans)) + 58 * Z.of_nat (length plans).
Proof using SL.
  induction plans as [|plan plans IH]; [done|]. rewrite !fmap_cons. cbn [foldr length compose].
  pose proof (mark_size plan). lia.
Qed.

(** The reservation covers the answer. *)
Lemma reserved_room w result w' plans :
  0 ≤ ws_generation w ≤ usize_max → 0 ≤ ws_generation w' ≤ usize_max →
  2048 ≤ output_bytes (ws_limits w) → ws_limits w' = ws_limits w →
  reported_complete w result w' plans →
  is_Some (encode (ser_outcome (Success (ser_patch_result result))) (output_bytes (ws_limits w'))).
Proof using SL JS.
  intros Hg Hg' Hout Hlim [Hroom Hlen ->]. rewrite encode_Some, json_text_size in *. rewrite Hlim.
  unfold saturating_sub in Hroom. rewrite Z.max_r in Hroom by lia.
  pose proof (changes_size plans) as Hch. pose proof (num_size_u64 _ Hg). pose proof (num_size_u64 _ Hg').
  unfold ser_outcome, ser_patch_result, patch_result, ser_list, ser_option in *. cbn -[commas] in *.
  rewrite !length_fmap in *. unfold commas in *. simpl in *.
  rewrite (str_size_plain "status"), (str_size_plain "success"), (str_size_plain "content") by done. simpl in *. lia.
Qed.
End room.

(** ** Readers *)
Section readers.
Context {UP : Uppercase} {SH : Sha256} {JT : JsonText} {HO : Host}.

Lemma calm_read_file w r : calm (read_file w r).
Proof.
  unfold read_file, content. apply calm_bind; [apply calm_path|intros p]. apply calm_bind; [apply calm_reject|intros _].
  apply calm_bind; [|intros c; by destruct (read_page _ _ _) as [[? ?] ?]].
  apply calm_bind; [apply calm_io_at|intros file; apply calm_read_content].
Qed.
Lemma reads_adjust g : reads (adjust g).
Proof. by intros [h s]. Qed.
Lemma reads_look_at {A} (g : search_state → A) : reads (look_at g).
Proof. by intros [h s]. Qed.
#[local] Hint Resolve reads_adjust reads_look_at : reads.

Context {QU : Quiet}.
Lemma reads_root_open root p : reads (root_open root p).
Proof. unfold root_open. solve_reads. Qed.
#[local] Hint Resolve reads_root_open : reads.
Lemma reads_read_file w r : reads (read_file w r).
Proof.
  unfold read_file, content. solve_reads.
Qed.
Lemma reads_children dir n : reads (children dir n).
Proof. unfold children. solve_reads. intros h. apply reads_syscall. done. Qed.
#[local] Hint Resolve reads_children : reads.
Lemma reads_scan_content w i p n : reads (scan_content w i p n).
Proof.
  intros [h s]. unfold scan_content. simpl.
  pose proof (reads_read_content_limited w i p n (h, sr_scanned_bytes (ss_result s))) as H.
  by destruct (read_content_limited _ _ _ _ _) as [? [? ?]].
Qed.
Lemma reads_stopped_search w token : reads (stopped w token).
Proof. done. Qed.
Lemma reads_open_entry w p : reads (open_entry w p).
Proof. unfold open_entry, identity, root_directory. solve_reads. Qed.
#[local] Hint Resolve reads_scan_content reads_stopped_search reads_open_entry : reads.
Lemma reads_visit w r p opened : reads (visit w r p opened).
Proof. unfold visit, visit_directory, visit_file, fail_with. solve_reads. Qed.
#[local] Hint Resolve reads_visit : reads.
Lemma reads_search_entry w token r p : reads (search_entry w token r p).
Proof. unfold search_entry, after_visit. solve_reads. Qed.
Lemma reads_search_loop fuel w token r : reads (search_loop fuel w token r).
Proof.
  induction fuel as [|fuel IH]; cbn [search_loop]; [apply reads_ret|].
  apply reads_bind; [apply reads_look_at|intros [|p rest]]; [solve_reads|].
  apply reads_bind; [apply reads_adjust|intros _]. apply reads_bind; [apply reads_search_entry|intros []]; [apply IH|solve_reads].
Qed.
Lemma reads_search_text fuel w token r : reads (search_text fuel w token r).
Proof.
  intros h. unfold search_text. destruct (requested_paths _ _); [|done]. destruct (_ || _); [done|].
  match goal with |- context [search_loop fuel w token r ?st] => pose proof (reads_search_loop fuel w token r st) as H end.
  by destruct (search_loop _ _ _ _ _) as [res [h' s']].
Qed.
End readers.

(** ** The outcome tells *)
Section outcome.
Context {UP : Uppercase} {UL : UppercaseLaws} {SH : Sha256} {SL : Sha256Laws} {JT : JsonText} {JS : JsonSize}
  {HO : Host} {QU : Quiet}.

(** What an outcome says about the files. *)
Definition told (w : Workspace) (call : ValidatedCall) (h : host_state) (outcome : ToolOutcome) (w' : Workspace)
    (h' : host_state) : Prop :=
  let same := h_files h' ≡ h_files h ∧ ws_generation w' = ws_generation w in
  match outcome with
  | OutcomeFailed _ => same
  | Unknown _ => ∃ request result keys, decode (call_name call) (call_arguments call) = ROk (PatchWith request)
      ∧ carried_out w request h result w' h' keys ∧ keys ≠ []
  | Success _ =>
    match decode (call_name call) (call_arguments call) with
    | ROk (PatchWith request) => ∃ result keys, carried_out w request h result w' h' keys ∧ length keys = length request
    | _ => same
    end
  end.

Lemma carried_nothing w request h result w' h' :
  ws_generation w ≤ usize_max → carried_out w request h result w' h' [] →
  h_files h' ≡ h_files h ∧ ws_generation w' = ws_generation w.
Proof.
  intros Hg [_ _ _ Hr _ _ [Hgen _]]. split; [intros d nm Hnm; apply Hr; [done|by intros ?%not_elem_of_nil]|].
  rewrite Hgen. unfold saturating_add. simpl. lia.
Qed.
Lemma touched_none changes : existsb touched changes = false → length (List.filter touched changes) = 0%nat.
Proof. induction changes as [|c changes IH]; [done|]. simpl. destruct (touched c); [done|]. apply IH. Qed.
Lemma touched_some changes : existsb touched changes = true → length (List.filter touched changes) ≠ 0%nat.
Proof. induction changes as [|c changes IH]; [done|]. simpl. by destruct (touched c). Qed.

(** A reader's outcome: nothing changed, whatever it says. *)
Lemma run_reader_told {A} w (m : act A) (ser : A → json) call h0 h :
  h_files h = h_files h0 → reads m → calm m → (∀ request, decode (call_name call) (call_arguments call) ≠ ROk (PatchWith request)) →
  ∃ outcome w' h', run_reader w m ser h = (ROk (outcome, w'), h') ∧ told w call h0 outcome w' h'.
Proof.
  intros H0 Hr Hc Hd. unfold run_reader. specialize (Hc h). destruct (m h) as [r h1] eqn:E.
  assert (Hf : h_files h1 = h_files h0) by (by rewrite <-H0; eapply reads_ROk).
  assert (Eat : (attempt m : act _) h = (ROk r, h1)) by (unfold attempt; by rewrite E).
  rewrite (eff_bind_run _ _ _ _ _ Eat).
  assert (Htold : ∀ o, (∀ e, o ≠ Unknown e) → told w call h0 (bound_outcome w o) w h1).
  { intros o Ho. unfold told, bound_outcome. rewrite Hf. destruct (encode _ _); [|done].
    destruct o; [|done|by destruct (Ho e)]. destruct (decode _ _) as [[|? |q]|]; try done. by destruct (Hd q). }
  destruct r as [a|[f|]]; [| |done]; do 3 eexists; split; [done|by apply Htold|done|by apply Htold].
Qed.

Lemma execute_patch_told w token call request h h1 :
  limits_valid (ws_limits w) = true → 0 ≤ ws_generation w ≤ usize_max → linked (h_files h) → h_files h1 = h_files h →
  decode (call_name call) (call_arguments call) = ROk (PatchWith request) → forallb edit_utf8 request = true →
  ∃ result w' h', apply_patch w token request h1 = (ROk (result, w'), h')
    ∧ (pr_complete result = true →
         bound_outcome w' (Success (ser_patch_result result)) = Success (ser_patch_result result)
         ∧ told w call h (Success (ser_patch_result result)) w' h')
    ∧ (pr_complete result = false → ∀ e,
         told w call h (if existsb touched (pr_changes result) then Unknown e else OutcomeFailed e) w' h').
Proof using JS QU SL UL.
  intros Hlim Hg Hl Hf Hd Hu. destruct (apply_patch_outcome w token request h1 Hlim) as (result & w' & h' & keys & Hrun & Hco & Hsame & Hc);
    [lia|done|by rewrite Hf|].
  assert (Hco' : carried_out w request h result w' h' keys) by (destruct Hco; split; rewrite <-?Hf; done).
  exists result, w', h'. split; [done|]. unfold limits_valid in Hlim. rewrite !andb_true_iff, !Z.leb_le, Z.ltb_lt in Hlim.
  split.
  - intros Hcomp. destruct (Hc Hcomp) as (plans & Hrc). unfold bound_outcome.
    destruct (reserved_room w result w' plans) as [x ->]; [lia| |lia|by destruct Hsame as (_ & _ & ->)|done|].
    { destruct Hco' as [_ _ _ _ _ _ [-> _]]. unfold saturating_add. lia. }
    split; [done|]. unfold told. rewrite Hd. exists result, keys. split; [done|]. by apply Hco'.
  - intros _ e. destruct (existsb touched (pr_changes result)) eqn:Et; unfold told.
    + exists request, result, keys. split_and!; [done..|]. intros ->. apply touched_some in Et. by destruct Hco' as [_ _ _ _ Hrep _ _].
    + apply touched_none in Et. destruct keys; [apply (carried_nothing w request h result); [lia|done]|].
      destruct Hco' as [_ _ _ _ Hrep _ _]. rewrite Et in Hrep. done.
Qed.

(** C28.  The outcome of a file tool tells the truth about the files, on a
    host where no other process interferes, whatever fails and whenever the
    call is cancelled: every call is answered; a failed call changed no file
    and no directory and did not advance the generation; an unknown outcome
    means that a nonempty prefix of the edits was carried out; a successful
    patch carried out all of them, and no other successful call changed
    anything.  In particular an applied patch is never turned into a failure
    by the output limit. *)
Theorem failed_calls_change_nothing w token call h :
  limits_valid (ws_limits w) = true → 0 ≤ ws_generation w ≤ usize_max → linked (h_files h) →
  (∀ request, decode (call_name call) (call_arguments call) = ROk (PatchWith request) → forallb edit_utf8 request = true) →
  (∀ request, decode (call_name call) (call_arguments call) = ROk (SearchFor request) → 0 ≤ sq_max_results request) →
  ∃ outcome w' h', execute w token call h = (ROk (outcome, w'), h') ∧ told w call h outcome w' h'.
Proof.
  intros Hlim Hg Hl Hu Hs. unfold execute.
  destruct (decode (call_name call) (call_arguments call)) as [request|e] eqn:Ed; [|by do 3 eexists].
  set (h1 := h <| h_tick := S (h_tick h) |>). change (h_files h) with (h_files h1) in Hl.
  assert (Eis : (is_cancelled token : act bool) h = (ROk (token && cancelled (h_tick h)), h1)) by done.
  rewrite (eff_bind_run _ _ _ _ _ Eis). destruct (token && _); [by do 3 eexists|].
  assert (Hread : ∀ {A} (m : act A) ser, reads m → calm m → (∀ q, decode (call_name call) (call_arguments call) ≠ ROk (PatchWith q)) →
    ∃ outcome w' h', run_reader w m ser h1 = (ROk (outcome, w'), h') ∧ told w call h outcome w' h').
  { intros A m ser Hm Hc Hd. by apply (run_reader_told w m ser call h h1). }
  destruct request as [q|q|q].
  - apply Hread; [apply reads_read_file|apply calm_read_file|congruence].
  - apply Hread; [apply reads_search_text| |congruence]. intros h2. unfold search_fuel.
    destruct (search_text_bounded w token q h2 Hlim (Hs _ eq_refl)) as [(f & ->)|(res & h' & -> & _)]; done.
  - destruct (execute_patch_told w token call q h h1 Hlim Hg Hl eq_refl Ed (Hu _ eq_refl)) as (result & w' & h' & Hrun & Hc & Hn).
    rewrite (eff_bind_run _ _ _ _ _ Hrun). destruct (pr_complete result).
    + destruct (Hc eq_refl) as [-> Ht]. by do 3 eexists.
    + specialize (Hn eq_refl (WorkspaceError (ser_patch_result result))). fold touched.
      destruct (existsb _ (pr_changes result)) eqn:Et in Hn |- *; by do 3 eexists.
Qed.
End outcome.
