(* ===== verification/WorkspaceExamples.v ===== *)
(** The workspace on concrete files: a printer of compact JSON, an upper-case
    mapping and a quiet host that satisfy the interfaces, and an instance of
    every theorem about the file tools that has hypotheses. *)
From S2P Require Import Prelude View Transact Text HostFiles Wire Workspace Hunks HostFacts Patch PatchTheorems Search SearchFacts FileTools WireExample.
#[local] Open Scope list_scope.

(** ** Compact JSON *)
Definition quote_char : ascii := "034"%char.
Definition escape (c : ascii) : string :=
  if Ascii.eqb c quote_char || Ascii.eqb c "\"%char then String "\"%char (String c "")
  else if byte c <? 32 then "\u00" +:+ hex_byte (byte c)
  else String c "".
Fixpoint escaped (s : string) : string := match s with "" => "" | String c s => escape c +:+ escaped s end.
Definition quoted (s : string) : string := String quote_char (escaped s +:+ String quote_char "").
Fixpoint digits (fuel : nat) (z : Z) : string :=
  match fuel with
  | O => ""
  | S fuel => (if z <? 10 then "" else digits fuel (z / 10)) +:+ String (ascii_of_N (Z.to_N (48 + z mod 10))) ""
  end.
Definition number (z : Z) : string := digits 20 z.

Fixpoint compact (j : json) : string :=
  match j with
  | JNull => "null"
  | JBool b => if b then "true" else "false"
  | JNum z => number z
  | JStr s => quoted s
  | JArr l =>
    match l with
    | [] => "[]"
    | x :: l => "[" +:+ (compact x +:+ foldr (λ y s, "," +:+ (compact y +:+ s)) "]" l)
    end
  | JObj fs =>
    match fs with
    | [] => "{}"
    | kv :: fs =>
      "{" +:+ (quoted kv.1 +:+ (":" +:+ (compact kv.2
        +:+ foldr (λ kv s, "," +:+ (quoted kv.1 +:+ (":" +:+ (compact kv.2 +:+ s)))) "}" fs)))
    end
  end.
#[global] Instance compact_json : JsonText | 0 := {| json_text := compact; json_parse := λ _, None |}.

Lemma digits_length fuel : ∀ z, (String.length (digits fuel z) ≤ fuel)%nat ∧ (fuel ≠ 0 → 1 ≤ String.length (digits fuel z))%nat.
Proof.
  induction fuel as [|fuel IH]; intros z; simpl; [lia|]. rewrite string_app_length. simpl.
  destruct (z <? 10); simpl; [lia|]. destruct (IH (z / 10)). lia.
Qed.
Lemma compact_size : ∀ j, Z.of_nat (String.length (compact j))
  = jsize (λ s, Z.of_nat (String.length (quoted s))) (λ z, Z.of_nat (String.length (number z))) j.
Proof.
  set (ss := λ s, Z.of_nat (String.length (quoted s))). set (ns := λ z, Z.of_nat (String.length (number z))).
  fix IH 1. intros [|b|z|s|l|fs].
  - done.
  - by destruct b.
  - done.
  - done.
  - destruct l as [|x l]; [done|].
    assert (Htail : Z.of_nat (String.length (foldr (λ y s, "," +:+ (compact y +:+ s)) "]" l))
      = 1 + Z.of_nat (length l) + foldr (λ x n, jsize ss ns x + n) 0 l).
    { induction l as [|y l IHl]; [done|]. cbn [foldr length]. rewrite !string_app_length, <-(IH y). simpl String.length. lia. }
    cbn [compact jsize foldr length]. rewrite !string_app_length, <-(IH x). unfold commas. simpl String.length. lia.
  - destruct fs as [|[k x] fs]; [done|].
    assert (Htail : Z.of_nat (String.length (foldr (λ kv s, "," +:+ (quoted kv.1 +:+ (":" +:+ (compact kv.2 +:+ s)))) "}" fs))
      = 1 + Z.of_nat (length fs) + foldr (λ kv n, ss kv.1 + 1 + jsize ss ns kv.2 + n) 0 fs).
    { induction fs as [|[k' y] fs IHl]; [done|]. cbn [foldr length fst snd]. rewrite !string_app_length, <-(IH y).
      unfold ss at 1. simpl String.length. lia. }
    cbn [compact jsize foldr length fst snd]. rewrite !string_app_length, <-(IH x). unfold commas, ss at 1. simpl String.length. lia.
Qed.
Lemma escape_plain c : plain_char c = true → escape c = String c "".
Proof. destruct c as [[] [] [] [] [] [] [] []]; vm_compute; done. Qed.
#[global] Instance compact_sizes : JsonSize.
Proof.
  refine {| str_size := λ s, Z.of_nat (String.length (quoted s)); num_size := λ z, Z.of_nat (String.length (number z)) |}.
  - apply compact_size.
  - intros s Hs. assert (Hq : String.length (quoted s) = (2 + String.length (escaped s))%nat)
      by (unfold quoted; cbn [String.length]; rewrite string_app_length; simpl; lia).
    rewrite Hq. assert (String.length (escaped s) = String.length s) as ->; [clear Hq|lia].
    induction s as [|c s IH]; [done|]. unfold plain in Hs. simpl in Hs. apply andb_true_iff in Hs as [Hc Hs].
    cbn [escaped]. by rewrite escape_plain, string_app_length, (IH Hs).
  - intros z _. unfold number. destruct (digits_length 20 z). lia.
Defined.

(** ** Upper case *)
#[global] Instance ascii_case : Uppercase := map ascii_upper.
#[global] Instance ascii_case_laws : UppercaseLaws.
Proof. intros a s _. apply map_app. Qed.

(** ** A host *)
#[global] Instance quiet_host : Host := {|
  interfere := λ _ f, f;
  fault_at := λ _, None;
  partial_read := λ _, 0%nat;
  cancelled := λ _, false;
  elapsed := λ _, 0;
  process_id := 7;
  fold_name := map ascii_lower;
  readdir_order := λ _ l, l |}.
#[global] Instance quiet_host_quiet : Quiet.
Proof. done. Qed.

Definition linked_check (f : files) : bool :=
  forallb (λ p, match inodes f !! p.2 with Some _ => true | None => false end) (map_to_list (names f)).
Lemma linked_checked f : linked_check f = true → linked f.
Proof.
  unfold linked_check, linked. rewrite forallb_forall. intros H k i Hk.
  specialize (H (k, i)). rewrite <-list_elem_of_In, elem_of_map_to_list in H. specialize (H Hk). simpl in H.
  by destruct (inodes f !! i).
Qed.

Definition root_ino : ino := (1, 1).
Definition a_text : text := lit "one" ++ [newline] ++ lit "two" ++ [newline] ++ lit "three" ++ [newline].
Definition b_text : text := lit "x = two" ++ [newline].
Definition example_files : files := mk_files
  (<[(root_ino, lit "a.txt") := (1, 2)]> (<[(root_ino, lit "sub") := (1, 3)]> (<[((1, 3), lit "b.txt") := (1, 4)]> ∅)))
  (<[root_ino := mk_inode Directory [] 493 2]> (<[(1, 2) := mk_inode RegularFile a_text 420 1]>
   (<[(1, 3) := mk_inode Directory [] 493 2]> (<[(1, 4) := mk_inode RegularFile b_text 384 1]> ∅)))).
Definition example_host : host_state := mk_host_state example_files 0 0.
Definition example_workspace : Workspace := mk_workspace root_ino (lit "w") 0 default_limits.

Definition two_hunks : list Hunk :=
  [mk_hunk 2 (lit "two" ++ [newline]) (lit "TWO" ++ [newline]); mk_hunk 4 [] (lit "four")].
Definition example_request : PatchRequest :=
  [Update (lit "a.txt") (digest a_text) two_hunks;
   Create (lit "sub/c.txt") (lit "new");
   Replace (lit "sub/b.txt") (digest b_text) (lit "two") (lit "three")].

(** The lines of a patched file, and what is not accepted. *)
Example hunks_applied :
  apply_hunks [] a_text two_hunks 1024
  = ROk (lit "one" ++ [newline] ++ lit "TWO" ++ [newline] ++ lit "three" ++ [newline] ++ lit "four").
Proof. reflexivity. Qed.
Example overlapping_occurrences_refused :
  replace_exact [] (lit "aaa") (lit "aa") (lit "b") 1024 = invalid_edit [] old_text_ambiguous.
Proof. reflexivity. Qed.
Example protected_paths_refused :
  map (λ p, match path (lit p) with RErr (Fail f) => Some (f_code f) | _ => None end)
    ["src/.GIT/config"; "a/../b"; "ferrus.db-wal"; "nul.txt"; "a b/c.rs"]
  = [Some CProtectedPath; Some CInvalidPath; Some CProtectedPath; Some CInvalidPath; None].
Proof. reflexivity. Qed.

Lemma apply_hunks_is_bottom_up_witness :
  ∃ hos, hos.*1 = two_hunks ∧ Forall (λ ho, fits a_text ho.1 ho.2) hos ∧ ordered 0 None hos
    ∧ lit "one" ++ [newline] ++ lit "TWO" ++ [newline] ++ lit "three" ++ [newline] ++ lit "four" = splice_all a_text hos.
Proof.
  destruct (apply_hunks_is_bottom_up [] a_text two_hunks 1024) as [Hiff _].
  - reflexivity.
  - repeat constructor.
  - by vm_compute.
  - by vm_compute.
  - destruct (proj1 (Hiff _) hunks_applied) as (_ & hos & ? & ? & ? & ? & _). by exists hos.
Defined.
Lemma replace_exact_unique_witness :
  replace_exact [] b_text (lit "two") (lit "three") 1024 = ROk (lit "x = three" ++ [newline]).
Proof.
  destruct (replace_exact_unique [] b_text (lit "two") (lit "three") 1024) as [Hiff _].
  - reflexivity.
  - reflexivity.
  - by vm_compute.
  - by vm_compute.
  - apply Hiff. split; [done|]. exists (lit "x = "), [newline]. split_and!; [done| |done|by vm_compute].
    intros p' s' H. apply (f_equal length) in H as Hl. rewrite !length_app in Hl. cbn in H, Hl.
    do 6 (destruct p' as [|? p']; [by simplify_eq/=|]). simpl in Hl. lia.
Defined.

(** ** Patches *)
Definition patched : PatchResult * Workspace * host_state :=
  match apply_patch example_workspace true example_request example_host with
  | (ROk (r, w), h) => (r, w, h)
  | (RErr _, h) => (patch_result example_workspace [] None, example_workspace, h)
  end.
Example patch_completes :
  pr_complete patched.1.1 = true
  ∧ look (h_files patched.2) (root_ino, lit "a.txt")
    = Some (FileNode (lit "one" ++ [newline] ++ lit "TWO" ++ [newline] ++ lit "three" ++ [newline] ++ lit "four") 420)
  ∧ look (h_files patched.2) ((1, 3), lit "c.txt") = Some (FileNode (lit "new") 384)
  ∧ look (h_files patched.2) ((1, 3), lit "b.txt") = Some (FileNode (lit "x = three" ++ [newline]) 384)
  ∧ map_size (names (h_files patched.2)) = 4%nat ∧ ws_generation patched.1.2 = 3.
Proof. vm_compute. split_and!; reflexivity. Qed.
(** A host on which the write of the second file fails. *)
Definition failing_host : Host := {|
  interfere := λ _ f, f;
  fault_at := λ k, if Nat.eqb k 60 then Some OtherIo else None;
  partial_read := λ _, 0%nat;
  cancelled := λ _, false;
  elapsed := λ _, 0;
  process_id := 7;
  fold_name := map ascii_lower;
  readdir_order := λ _ l, l |}.
Definition partly_patched : list State * option Code * Z :=
  match apply_patch (HO := failing_host) example_workspace true example_request example_host with
  | (ROk (r, w), _) => (ch_state <$> pr_changes r, f_code <$> pr_failure r, ws_generation w)
  | _ => ([], None, 0)
  end.
Example a_failure_keeps_the_prefix :
  partly_patched = ([Applied; NotApplied; NotApplied], Some CIo, 1).
Proof. vm_compute. reflexivity. Qed.



(** ** Searching *)
Definition example_search : SearchRequest := mk_search_request [lit "."] (lit "two") 50.
Definition search_hits : list (text * Z * Z) :=
  match search_text 40 example_workspace true example_search example_host with
  | (ROk (Some res), _) => (λ m, (src_path (sm_source m), sm_line m, sm_byte_column m)) <$> sr_matches res
  | _ => []
  end.
Example search_finds : search_hits = [(lit "a.txt", 2, 1); (lit "sub/b.txt", 1, 5)].
Proof. vm_compute. reflexivity. Qed.

Lemma search_is_bounded_witness :
  let fuel := (17 + Z.to_nat (entries default_limits))%nat in
  (∃ f, search_text fuel example_workspace true example_search example_host = (RErr (Fail f), example_host))
  ∨ (∃ res h', search_text fuel example_workspace true example_search example_host = (ROk (Some res), h')
               ∧ within_limits example_workspace example_search res).
Proof.
  apply (search_is_bounded example_workspace true example_search example_host); [reflexivity|by vm_compute].
Defined.
Lemma search_hits_occur_witness :
  match search_text 40 example_workspace true example_search example_host with
  | (ROk (Some res), _) => Forall (occurrence example_workspace example_search) (sr_matches res)
  | _ => False
  end.
Proof.
  destruct (search_text 40 example_workspace true example_search example_host) as [[[res|]|] h'] eqn:E;
    [|vm_compute in E; discriminate..].
  exact (search_hits_occur 40 example_workspace true example_search example_host res h' E).
Defined.

(** ** Tool calls *)
Definition patch_call : ValidatedCall := mk_call "apply_patch"
  (JObj [("operation", JStr "update"); ("path", JStr "sub/b.txt"); ("expected_digest", JStr (str (digest b_text)));
         ("old_text", JStr "two"); ("new_text", JStr "three")]).
Example patch_call_succeeds :
  match execute example_workspace true patch_call example_host with
  | (ROk (Success _, w), h) =>
    (ws_generation w, look (h_files h) ((1, 3), lit "b.txt")) = (1, Some (FileNode (lit "x = three" ++ [newline]) 384))
  | _ => False
  end.
Proof. vm_compute. reflexivity. Qed.
Lemma failed_calls_change_nothing_witness :
  ∃ outcome w' h', execute example_workspace true patch_call example_host = (ROk (outcome, w'), h')
    ∧ told example_workspace patch_call example_host outcome w' h'.
Proof.
  apply (failed_calls_change_nothing example_workspace true patch_call example_host).
  - reflexivity.
  - by vm_compute.
  - apply linked_checked. by vm_compute.
  - intros request H. vm_compute in H. injection H as <-. reflexivity.
  - intros request H. vm_compute in H. discriminate.
Defined.
