(* ===== verification/AgentData.v ===== *)
(** The native agent's session protocol: the data of
    [src/src/nano/session.rs], [src/src/nano/provider.rs] and
    [src/src/nano/tools.rs], the accounting of resources, and the values of
    [serde_json].  Counters are unsigned 64-bit integers as [Z], positions in
    the conversation are [nat]. *)
From S2P Require Import Prelude Transact Text Wire Patch FileTools.
#[local] Open Scope list_scope.

(** ** Values

    A [serde_json::Value] keeps the fields of an object in a [BTreeMap]: they
    are sorted by name and the last of several equal names wins. *)
#[global] Instance json_eq_dec : EqDecision json.
Proof.
  refine (fix go (x y : json) : Decision (x = y) :=
    let _ : EqDecision json := @go in
    match x, y with
    | JNull, JNull => left _
    | JBool a, JBool b => cast_if (decide (a = b))
    | JNum a, JNum b => cast_if (decide (a = b))
    | JStr a, JStr b => cast_if (decide (a = b))
    | JArr l, JArr m => cast_if (decide (l = m))
    | JObj l, JObj m => cast_if (decide (l = m))
    | _, _ => right _
    end); abstract congruence.
Defined.

Fixpoint insert_field (k : string) (v : json) (fs : list (string * json)) : list (string * json) :=
  match fs with
  | [] => [(k, v)]
  | (k', v') :: fs' =>
    match String.compare k k' with
    | Lt => (k, v) :: fs
    | Eq => (k, v) :: fs'
    | Gt => (k', v') :: insert_field k v fs'
    end
  end.
(** The value that is read from a tree. *)
Fixpoint value_of (j : json) : json :=
  match j with
  | JArr l => JArr (map value_of l)
  | JObj fs => JObj (foldl (λ acc kv, insert_field kv.1 kv.2 acc) [] (map (λ kv, (kv.1, value_of kv.2)) fs))
  | _ => j
  end.
Definition is_value (j : json) : Prop := value_of j = j.
#[global] Instance is_value_dec j : Decision (is_value j) := decide (value_of j = j).
(** [json!({...})] *)
Definition object (fs : list (string * json)) : json :=
  JObj (foldl (λ acc kv, insert_field kv.1 kv.2 acc) [] fs).
(** [value[key]] *)
Definition index (key : string) (j : json) : json := default JNull (get key j).
(** [value[key] == "text"] *)
Definition is_str (j : json) (s : string) : bool := bool_decide (j = JStr s).
Definition is_object (j : json) : bool := match j with JObj _ => true | _ => false end.
Definition as_str (j : json) : option string := match j with JStr s => Some s | _ => None end.
Definition as_array (j : json) : option (list json) := match j with JArr l => Some l | _ => None end.
Definition as_u64 (j : json) : option Z :=
  match j with JNum z => if (0 <=? z) && (z <? u64_modulus) then Some z else None | _ => None end.
(** [value.pointer("/a/b")], none of whose tokens is a number *)
Fixpoint pointer (path : list string) (j : json) : option json :=
  match path with
  | [] => Some j
  | k :: path => get k j ≫= pointer path
  end.

Definition slen (s : string) : Z := Z.of_nat (String.length s).
(** [str::trim().is_empty()] *)
Definition blank (s : string) : bool := is_empty (trim s).

(** ** Tools *)
#[global] Instance ToolError_eq_dec : EqDecision ToolError.
Proof. solve_decision. Defined.
#[global] Instance ToolOutcome_eq_dec : EqDecision ToolOutcome.
Proof. solve_decision. Defined.
#[global] Instance PlannedFile_eq_dec : EqDecision PlannedFile.
Proof. solve_decision. Defined.

Record ToolCall : Type := mk_tool_call {
  provider_call_id : string;
  tc_name : string;
  tc_arguments : string }.
#[global] Instance ToolCall_eq_dec : EqDecision ToolCall.
Proof. solve_decision. Defined.
Record ToolDescriptor : Type := mk_descriptor {
  td_name : string;
  td_description : string;
  td_input_schema : json }.
Inductive EffectPlan : Type := EffectPatch (files : list PlannedFile).
#[global] Instance EffectPlan_eq_dec : EqDecision EffectPlan.
Proof. solve_decision. Defined.

Definition outcome_failed (o : ToolOutcome) : bool := match o with OutcomeFailed _ => true | _ => false end.
Definition outcome_unknown (o : ToolOutcome) : bool := match o with Unknown _ => true | _ => false end.
Definition outcome_success (o : ToolOutcome) : option json := match o with Success v => Some v | _ => None end.

(** ** The provider *)
Record Usage : Type := mk_usage {
  input_tokens : Z;
  output_tokens : Z;
  reported : bool }.
#[global] Instance Usage_eq_dec : EqDecision Usage.
Proof. solve_decision. Defined.
Inductive FinishReason : Type := FinStop | FinToolCalls | FinLength.
#[global] Instance FinishReason_eq_dec : EqDecision FinishReason.
Proof. solve_decision. Defined.
Record ModelResponse : Type := mk_response {
  finish : FinishReason;
  rs_text : string;
  rs_calls : list ToolCall;
  rs_continuation : option json }.
#[global] Instance ModelResponse_eq_dec : EqDecision ModelResponse.
Proof. solve_decision. Defined.
Inductive Message : Type :=
  | MSystem (t : string)
  | MUser (t : string)
  | MAssistant (response : ModelResponse)
  | MTool (provider_call : string) (outcome : ToolOutcome).
#[global] Instance Message_eq_dec : EqDecision Message.
Proof. solve_decision. Defined.

Definition is_final (r : ModelResponse) : bool :=
  bool_decide (finish r = FinStop) && bool_decide (rs_calls r = []) && negb (blank (rs_text r)).
Definition continuation_cue : string :=
  "Your previous response reached its output limit. No tools from that response were executed. Continue the active task from the existing work. Use tools for calculations and verification, and make incremental edits rather than repeating long explanations. Reissue any unfinished tool call with complete arguments.".
(** [ModelResponse::messages] *)
Definition response_messages (r : ModelResponse) : list Message :=
  if decide (finish r = FinLength)
  then [MAssistant (mk_response (finish r) (rs_text r) [] (rs_continuation r)); MUser continuation_cue]
  else [MAssistant r].

Record ModelRequest : Type := mk_request {
  rq_messages : list Message;
  rq_tools : list ToolDescriptor;
  max_output_tokens : Z }.
Inductive ProviderEvent : Type :=
  | TextDelta (t : string)
  | ArgumentsDelta (t : string)
  | Completed (response : ModelResponse) (usage : option Usage).
Inductive ProviderErrorKind : Type :=
  | KTransport | KTimeout | KRateLimited | KAuthentication | KContextOverflow | KTruncatedStream
  | KProtocol | KUnsupported | KResponseLimit.
#[global] Instance ProviderErrorKind_eq_dec : EqDecision ProviderErrorKind.
Proof. solve_decision. Defined.
Inductive ProviderDiagnostic : Type := DHttp (status : Z) | DUnexpectedContentType | DEventStream.
#[global] Instance ProviderDiagnostic_eq_dec : EqDecision ProviderDiagnostic.
Proof. solve_decision. Defined.
Record ProviderError : Type := mk_provider_error {
  pe_retryable : bool;
  pe_kind : ProviderErrorKind;
  pe_retry_after_ms : Z;
  pe_diagnostic : option ProviderDiagnostic }.
(** [ProviderError::new] *)
Definition provider_error (kind : ProviderErrorKind) (retryable : bool) : ProviderError :=
  mk_provider_error retryable kind 0 None.
Inductive ReasoningEffort : Type := RNone | RMinimal | RLow | RMedium | RHigh | RXHigh | RMax.
#[global] Instance ReasoningEffort_eq_dec : EqDecision ReasoningEffort.
Proof. solve_decision. Defined.
(** A float, by its bits. *)
Definition f64 : Type := Z.
Record ProviderSettings : Type := mk_settings {
  ps_api : string;
  ps_base_url : string;
  ps_model : string;
  ps_context_tokens : option Z;
  ps_max_output_tokens : option Z;
  ps_temperature : option f64;
  ps_reasoning_effort : option ReasoningEffort;
  ps_request_timeout_ms : Z;
  ps_wire_bytes : Z;
  ps_event_bytes : Z;
  ps_max_tool_calls : Z;
  ps_include_usage : bool }.

(** ** The session *)
Record SessionIdentity : Type := mk_identity {
  id_session : string;
  id_project : string;
  id_task : option string;
  id_run : option string }.
Inductive SessionCommand : Type :=
  | CmdStart (input : string)
  | CmdCancel
  | CmdInteract
  | CmdSteer (t : string) (input_id : option string).

Record SessionLimits : Type := mk_session_limits {
  l_model_turns : Z;
  l_tokens : Z;
  l_tool_calls : Z;
  l_retries : Z;
  l_no_progress : Z;
  l_elapsed_ms : Z;
  l_context_bytes : Z;
  l_response_bytes : Z;
  l_tool_output_bytes : Z }.
Definition default_session_limits : SessionLimits :=
  mk_session_limits 64 1000000 256 3 3 (30 * 60 * 1000) (256 * 1024) (64 * 1024) (32 * 1024).
(** [Limits::validate] *)
Definition session_limits_valid (l : SessionLimits) : bool :=
  (0 <? l_model_turns l) && (0 <? l_tokens l) && (0 <? l_tool_calls l) && (0 <? l_no_progress l)
  && (0 <? l_elapsed_ms l) && (0 <? l_context_bytes l) && (0 <? l_response_bytes l) && (0 <? l_tool_output_bytes l).

Inductive GraphPeerMode : Type := PeerAbsent | PeerPartial | PeerComplete.
#[global] Instance GraphPeerMode_eq_dec : EqDecision GraphPeerMode.
Proof. solve_decision. Defined.
Record LaunchEvidence : Type := mk_evidence {
  le_baseline_tree : string;
  le_native_context_enabled : bool;
  le_working_set_enabled : bool;
  le_graph_peer_mode : option GraphPeerMode;
  le_graph_peer_id : option string;
  le_mcp_peer_count : option Z;
  le_mcp_tool_count : option Z;
  le_graph_peer_timeout_ms : option Z;
  le_settings_sha256 : option string }.

Record Budget : Type := mk_budget {
  b_model_turns : Z;
  b_tool_calls : Z;
  b_retries : Z;
  b_no_progress : Z;
  b_elapsed_ms : Z;
  b_reported_input : Z;
  b_reported_output : Z;
  b_estimated_input : Z;
  b_estimated_output : Z;
  b_reserved_input : Z;
  b_reserved_output : Z }.
#[global] Instance Budget_eq_dec : EqDecision Budget.
Proof. solve_decision. Defined.
#[global] Instance Budget_eta : Eta Budget := λ b,
  mk_budget (b_model_turns b) (b_tool_calls b) (b_retries b) (b_no_progress b) (b_elapsed_ms b)
    (b_reported_input b) (b_reported_output b) (b_estimated_input b) (b_estimated_output b)
    (b_reserved_input b) (b_reserved_output b).
Definition default_budget : Budget := mk_budget 0 0 0 0 0 0 0 0 0 0 0.
(** [Budget::tokens] *)
Definition tokens (b : Budget) : Z :=
  saturating_add (saturating_add (saturating_add (saturating_add (saturating_add
    (b_reported_input b) (b_reported_output b)) (b_estimated_input b)) (b_estimated_output b))
    (b_reserved_input b)) (b_reserved_output b).
(** [Budget::charge] *)
Definition charge (u : Usage) (b : Budget) : Budget :=
  if reported u
  then b <| b_reported_input := saturating_add (b_reported_input b) (input_tokens u) |>
         <| b_reported_output := saturating_add (b_reported_output b) (output_tokens u) |>
  else b <| b_estimated_input := saturating_add (b_estimated_input b) (input_tokens u) |>
         <| b_estimated_output := saturating_add (b_estimated_output b) (output_tokens u) |>.
(** Releases a reservation. *)
Definition unreserve (b : Budget) : Budget := b <| b_reserved_input := 0 |> <| b_reserved_output := 0 |>.
(** [x += 1] at 64 bits *)
Definition u64_inc (z : Z) : Z := (z + 1) mod u64_modulus.

Inductive LimitKind : Type :=
  | LModelTurns | LTokens | LToolCalls | LRetries | LNoProgress | LElapsed | LContextBytes
  | LContextTokens | LResponseBytes | LToolOutputBytes.
#[global] Instance LimitKind_eq_dec : EqDecision LimitKind.
Proof. solve_decision. Defined.
Inductive EndReason : Type :=
  | ModelFinished | DefinitionCompleted | ReviewCompleted | ConsultationResponded | EndSubmitted
  | TaskFailed | EndPaused | AuthorityLost | EndCancelled | EndLimit (kind : LimitKind)
  | ProviderFailed | ProviderProtocol | ProviderTruncated | JournalFailed | EffectUnknown.
#[global] Instance EndReason_eq_dec : EqDecision EndReason.
Proof. solve_decision. Defined.
Definition managed_failure_code (r : EndReason) (retryable_provider_failure : bool) : option string :=
  match r with
  | ProviderProtocol => if retryable_provider_failure then None else Some "nano_provider_protocol"
  | ProviderFailed => if retryable_provider_failure then None else Some "nano_provider_failed"
  | ProviderTruncated => Some "nano_provider_truncated"
  | EndLimit LTokens => Some "nano_limit_tokens"
  | EndLimit LModelTurns => Some "nano_limit_model_turns"
  | EndLimit LToolCalls => Some "nano_limit_tool_calls"
  | EndLimit LRetries => Some "nano_limit_retries"
  | EndLimit LNoProgress => Some "nano_limit_no_progress"
  | _ => None
  end.

(** The projections of [src/src/nano/compaction.rs] and
    [src/src/nano/working_set.rs] that records carry. *)
Record Handle : Type := mk_handle {
  h_message : nat;
  h_name : string;
  h_arguments : json;
  h_digest : string }.
#[global] Instance Handle_eq_dec : EqDecision Handle.
Proof. solve_decision. Defined.
Record Summary : Type := mk_summary {
  retained_from : nat;
  sm_text : string;
  sm_handles : list Handle }.
#[global] Instance Summary_eq_dec : EqDecision Summary.
Proof. solve_decision. Defined.
Record Projection : Type := mk_projection {
  pj_summary : option Summary;
  pj_evicted : list Handle;
  pj_original_bytes : Z;
  pj_projected_bytes : Z;
  pj_changed_from : option nat }.
#[global] Instance Projection_eq_dec : EqDecision Projection.
Proof. solve_decision. Defined.
#[global] Instance Projection_eta : Eta Projection := λ p,
  mk_projection (pj_summary p) (pj_evicted p) (pj_original_bytes p) (pj_projected_bytes p) (pj_changed_from p).
Definition default_projection : Projection := mk_projection None [] 0 0 None.
Record Replacement : Type := mk_replacement { rpl_message : nat; rpl_value : json }.
#[global] Instance Replacement_eq_dec : EqDecision Replacement.
Proof. solve_decision. Defined.
Record Preparation : Type := mk_preparation {
  pp_replacements : list Replacement;
  pp_observations : list json;
  pp_projection : option Projection }.
#[global] Instance Preparation_eq_dec : EqDecision Preparation.
Proof. solve_decision. Defined.
#[global] Instance Preparation_eta : Eta Preparation := λ p,
  mk_preparation (pp_replacements p) (pp_observations p) (pp_projection p).
Definition default_preparation : Preparation := mk_preparation [] [] None.

Record ContextComposition : Type := mk_composition {
  cc_history_messages : nat;
  cc_request_messages : nat;
  cc_stable_prefix_messages : nat;
  cc_input_tokens_estimated : Z;
  cc_output_tokens_reserved : Z;
  cc_context_window_tokens : Z;
  cc_evicted_outputs : nat;
  cc_summary_present : bool;
  cc_assembly_elapsed_ms : option Z }.

Inductive SessionEvent : Type :=
  | Started (identity : SessionIdentity) (limits : SessionLimits) (input : string)
      (system_prompt : option string) (launch_evidence : option LaunchEvidence)
      (inherited_budget : option Budget) (provider : option ProviderSettings)
  | ModelStarted (turn : Z)
  | UserInput (t : string) (input_id : option string)
  | InputRequested
  | InteractionOpened
  | CompactionStarted (turn : Z) (retained : nat)
  | CompactionCompleted (summary : Summary) (usage : Usage)
  | ContextPrepared (preparation : Preparation)
  | ContextComposed (composition : ContextComposition)
  | ModelCompleted (response : ModelResponse) (usage : Usage)
  | ModelFailed (retryable : bool) (usage : Usage) (error : option ProviderErrorKind)
      (diagnostic : option ProviderDiagnostic)
  | ToolIntent (call_id : string) (call : ToolCall) (effect_plan : option EffectPlan) (start_recorded : bool)
  | ToolStarted (call_id : string)
  | ToolResult (call_id : string) (outcome : ToolOutcome)
  | Ended (reason : EndReason).

Record SessionRecord : Type := mk_record {
  rec_version : Z;
  rec_session : string;
  rec_sequence : Z;
  rec_budget : Budget;
  rec_event : SessionEvent }.
Record SessionEnd : Type := mk_session_end {
  se_reason : EndReason;
  se_budget : Budget;
  se_durable : bool;
  se_retryable_provider_failure : bool }.

(** ** Facts about the accounting *)
(** What a budget has spent, as an exact number. *)
Definition spent (b : Budget) : Z :=
  b_reported_input b + b_reported_output b + b_estimated_input b + b_estimated_output b
  + b_reserved_input b + b_reserved_output b.
(** Every counter is a 64-bit unsigned integer. *)
Definition u64 (z : Z) : Prop := 0 ≤ z ≤ usize_max.
Record budget_typed (b : Budget) : Prop := {
  bt_model_turns : u64 (b_model_turns b);
  bt_tool_calls : u64 (b_tool_calls b);
  bt_retries : u64 (b_retries b);
  bt_no_progress : u64 (b_no_progress b);
  bt_elapsed : u64 (b_elapsed_ms b);
  bt_reported_input : u64 (b_reported_input b);
  bt_reported_output : u64 (b_reported_output b);
  bt_estimated_input : u64 (b_estimated_input b);
  bt_estimated_output : u64 (b_estimated_output b);
  bt_reserved_input : u64 (b_reserved_input b);
  bt_reserved_output : u64 (b_reserved_output b) }.

(** The saturating sum is the sum, cut at the largest integer. *)
Lemma tokens_spent b : budget_typed b → tokens b = Z.min usize_max (spent b).
Proof.
  intros [? ? ? ? ? [? ?] [? ?] [? ?] [? ?] [? ?] [? ?]]. unfold tokens, spent, saturating_add. lia.
Qed.
Lemma u64_inc_small z : 0 ≤ z < usize_max → u64_inc z = z + 1.
Proof. intros H. unfold u64_inc, u64_modulus, usize_max in *. apply Z.mod_small. lia. Qed.
Lemma budget_eta b : eta b = b.
Proof. by destruct b. Qed.
