(* ===== verification/AgentWire.v ===== *)
(** The wire form of session records: what the serde attributes of
    [src/src/nano/session.rs], [src/src/nano/provider.rs],
    [src/src/nano/tools.rs], [src/src/nano/compaction.rs] and
    [src/src/nano/working_set.rs] make of a value, and that what a journal
    writes is read back. *)
From S2P Require Import Prelude Transact Text Wire Patch FileTools AgentData.
#[local] Open Scope list_scope.

(** ** Shapes *)
(** [#[serde(skip_serializing_if = "Option::is_none")]] *)
Definition opt_field {A} (k : string) (w : A → json) (o : option A) : list (string * json) :=
  match o with Some a => [(k, w a)] | None => [] end.
(** [#[serde(tag = ...)]]: the tag and the other fields *)
Definition internal (tag : string) (j : json) : option (string * json) :=
  match j with
  | JObj fs =>
    match List.filter (λ kv, String.eqb kv.1 tag) fs with
    | [(_, JStr t)] => Some (t, JObj (List.filter (λ kv, negb (String.eqb kv.1 tag)) fs))
    | _ => None
    end
  | _ => None
  end.
(** [#[serde(tag = ..., content = ...)]] *)
Definition adjacent (tag content : string) (j : json) : option (string * option json) :=
  fs ← open_struct [tag; content] j;
  t ← req de_string tag fs;
  Some (t, field_of content fs).
Definition unit_variant {A} (a : A) (c : option json) : option A :=
  match c with None | Some JNull => Some a | _ => None end.
(** The names of a fieldless enum. *)
Definition de_name {A} (table : list (string * A)) (j : json) : option A :=
  s ← de_string j; snd <$> List.find (λ kv, String.eqb kv.1 s) table.
Definition de_value (j : json) : option json := Some (value_of j).
Definition ser_nat (n : nat) : json := JNum (Z.of_nat n).
Definition de_nat (j : json) : option nat := Z.to_nat <$> de_usize j.
Definition ser_text (t : text) : json := JStr (str t).
Definition ser_u64 : Z → json := ser_int.
Definition de_u64 : json → option Z := de_int 0 u64_modulus.

(** Floats are printed and read by [serde_json]. *)
Class FloatText := {
  float_json : f64 → json;
  json_float : json → option f64 }.
Class FloatTextLaws `{!FloatText} (exact : f64 → Prop) : Prop := {
  json_float_json x : exact x → json_float (float_json x) = Some x;
  float_not_null x : float_json x ≠ JNull }.

(** ** Tools *)
Definition ser_tool_call (c : ToolCall) : json :=
  JObj [("provider_call_id", ser_string (provider_call_id c)); ("name", ser_string (tc_name c));
        ("arguments", ser_string (tc_arguments c))].
Definition de_tool_call (j : json) : option ToolCall :=
  fs ← closed_struct ["provider_call_id"; "name"; "arguments"] j;
  i ← req de_string "provider_call_id" fs; n ← req de_string "name" fs; a ← req de_string "arguments" fs;
  Some (mk_tool_call i n a).
Definition ser_descriptor (d : ToolDescriptor) : json :=
  JObj [("name", ser_string (td_name d)); ("description", ser_string (td_description d));
        ("input_schema", td_input_schema d)].
Definition ser_planned (f : PlannedFile) : json :=
  JObj [("path", ser_text (pf_path f)); ("before_digest", ser_option ser_text (pf_before_digest f));
        ("after_digest", ser_option ser_text (pf_after_digest f))].
Definition de_planned (j : json) : option PlannedFile :=
  fs ← closed_struct ["path"; "before_digest"; "after_digest"] j;
  p ← req de_text "path" fs; b ← opt (de_option de_text) "before_digest" fs;
  a ← opt (de_option de_text) "after_digest" fs; Some (mk_planned_file p b a).
Definition ser_effect_plan (e : EffectPlan) : json :=
  match e with EffectPatch files => JObj [("kind", JStr "patch"); ("files", ser_list ser_planned files)] end.
Definition de_effect_plan (j : json) : option EffectPlan :=
  '(t, body) ← internal "kind" j;
  if String.eqb t "patch" then
    fs ← open_struct ["files"] body; files ← req (de_list de_planned) "files" fs; Some (EffectPatch files)
  else None.
Definition de_arguments (j : json) : option ToolError :=
  fs ← open_struct ["message"] j; m ← req de_string "message" fs; Some (Arguments m).
Definition de_tool_error (j : json) : option ToolError :=
  match j with
  | JStr _ => de_name [("unknown_tool", UnknownTool); ("invalid_arguments", InvalidArguments); ("denied", Denied);
      ("failed", Failed); ("interrupted", Interrupted); ("output_limit", OutputLimit)] j
  | JObj [(k, v)] =>
    if String.eqb k "arguments" then de_arguments v
    else if String.eqb k "workspace" then WorkspaceError <$> de_value v
    else if String.eqb k "context" then ContextError <$> de_value v
    else if String.eqb k "lifecycle" then LifecycleError <$> de_value v
    else if String.eqb k "mcp" then McpError <$> de_value v
    else None
  | _ => None
  end.
Definition de_outcome (j : json) : option ToolOutcome :=
  '(t, c) ← adjacent "status" "content" j;
  v ← c;
  if String.eqb t "success" then Success <$> de_value v
  else if String.eqb t "failed" then OutcomeFailed <$> de_tool_error v
  else if String.eqb t "unknown" then Unknown <$> de_tool_error v
  else None.

(** ** The provider *)
Definition ser_usage (u : Usage) : json :=
  JObj [("input_tokens", ser_u64 (input_tokens u)); ("output_tokens", ser_u64 (output_tokens u));
        ("reported", ser_bool (reported u))].
Definition de_usage (j : json) : option Usage :=
  fs ← closed_struct ["input_tokens"; "output_tokens"; "reported"] j;
  i ← req de_u64 "input_tokens" fs; o ← req de_u64 "output_tokens" fs; r ← req de_bool "reported" fs;
  Some (mk_usage i o r).
Definition ser_finish (f : FinishReason) : json :=
  JStr match f with FinStop => "stop" | FinToolCalls => "tool_calls" | FinLength => "length" end.
Definition de_finish : json → option FinishReason :=
  de_name [("stop", FinStop); ("tool_calls", FinToolCalls); ("length", FinLength)].
Definition ser_response (r : ModelResponse) : json :=
  JObj [("finish", ser_finish (finish r)); ("text", ser_string (rs_text r));
        ("calls", ser_list ser_tool_call (rs_calls r)); ("continuation", ser_option (λ v, v) (rs_continuation r))].
Definition de_response (j : json) : option ModelResponse :=
  fs ← closed_struct ["finish"; "text"; "calls"; "continuation"] j;
  f ← req de_finish "finish" fs; t ← req de_string "text" fs; c ← req (de_list de_tool_call) "calls" fs;
  k ← opt (de_option de_value) "continuation" fs; Some (mk_response f t c k).
Definition ser_message (m : Message) : json :=
  match m with
  | MSystem t => JObj [("role", JStr "system"); ("text", ser_string t)]
  | MUser t => JObj [("role", JStr "user"); ("text", ser_string t)]
  | MAssistant r => JObj [("role", JStr "assistant"); ("response", ser_response r)]
  | MTool i o => JObj [("role", JStr "tool"); ("provider_call_id", ser_string i); ("outcome", ser_outcome o)]
  end.
Definition ser_kind (k : ProviderErrorKind) : json :=
  JStr match k with
       | KTransport => "transport" | KTimeout => "timeout" | KRateLimited => "rate_limited"
       | KAuthentication => "authentication" | KContextOverflow => "context_overflow"
       | KTruncatedStream => "truncated_stream" | KProtocol => "protocol" | KUnsupported => "unsupported"
       | KResponseLimit => "response_limit"
       end.
Definition de_kind : json → option ProviderErrorKind :=
  de_name [("transport", KTransport); ("timeout", KTimeout); ("rate_limited", KRateLimited);
    ("authentication", KAuthentication); ("context_overflow", KContextOverflow);
    ("truncated_stream", KTruncatedStream); ("protocol", KProtocol); ("unsupported", KUnsupported);
    ("response_limit", KResponseLimit)].
Definition ser_diagnostic (d : ProviderDiagnostic) : json :=
  match d with
  | DHttp s => JObj [("source", JStr "http"); ("status", ser_int s)]
  | DUnexpectedContentType => JObj [("source", JStr "unexpected_content_type")]
  | DEventStream => JObj [("source", JStr "event_stream")]
  end.
Definition de_diagnostic (j : json) : option ProviderDiagnostic :=
  '(t, body) ← internal "source" j;
  if String.eqb t "http" then
    fs ← closed_struct ["status"] body; s ← req (de_int 0 65536) "status" fs; Some (DHttp s)
  else if String.eqb t "unexpected_content_type" then Some DUnexpectedContentType
  else if String.eqb t "event_stream" then Some DEventStream
  else None.
Definition ser_effort (r : ReasoningEffort) : json :=
  JStr match r with
       | RNone => "none" | RMinimal => "minimal" | RLow => "low" | RMedium => "medium" | RHigh => "high"
       | RXHigh => "xhigh" | RMax => "max"
       end.
Definition de_effort : json → option ReasoningEffort :=
  de_name [("none", RNone); ("minimal", RMinimal); ("low", RLow); ("medium", RMedium); ("high", RHigh);
    ("xhigh", RXHigh); ("max", RMax)].

Section settings.
Context `{!FloatText}.
Definition ser_settings (s : ProviderSettings) : json :=
  JObj ([("api", ser_string (ps_api s)); ("base_url", ser_string (ps_base_url s)); ("model", ser_string (ps_model s))]
        ++ opt_field "context_tokens" ser_u64 (ps_context_tokens s)
        ++ opt_field "max_output_tokens" ser_u64 (ps_max_output_tokens s)
        ++ opt_field "temperature" float_json (ps_temperature s)
        ++ opt_field "reasoning_effort" ser_effort (ps_reasoning_effort s)
        ++ [("request_timeout_ms", ser_u64 (ps_request_timeout_ms s)); ("wire_bytes", ser_u64 (ps_wire_bytes s));
            ("event_bytes", ser_u64 (ps_event_bytes s)); ("max_tool_calls", ser_u64 (ps_max_tool_calls s));
            ("include_usage", ser_bool (ps_include_usage s))]).
Definition settings_fields : list string :=
  ["api"; "base_url"; "model"; "context_tokens"; "max_output_tokens"; "temperature"; "reasoning_effort";
   "request_timeout_ms"; "wire_bytes"; "event_bytes"; "max_tool_calls"; "include_usage"].
Definition de_settings (j : json) : option ProviderSettings :=
  fs ← closed_struct settings_fields j;
  a ← req de_string "api" fs; b ← req de_string "base_url" fs; m ← req de_string "model" fs;
  c ← opt (de_option de_u64) "context_tokens" fs; o ← opt (de_option de_u64) "max_output_tokens" fs;
  t ← opt (de_option json_float) "temperature" fs; r ← opt (de_option de_effort) "reasoning_effort" fs;
  q ← req de_u64 "request_timeout_ms" fs; w ← req de_u64 "wire_bytes" fs; e ← req de_u64 "event_bytes" fs;
  n ← req de_u64 "max_tool_calls" fs; u ← req de_bool "include_usage" fs;
  Some (mk_settings a b m c o t r q w e n u).
End settings.

(** ** Limits, budgets, evidence *)
Definition ser_identity (i : SessionIdentity) : json :=
  JObj [("session_id", ser_string (id_session i)); ("project_id", ser_string (id_project i));
        ("task_id", ser_option ser_string (id_task i)); ("run_id", ser_option ser_string (id_run i))].
Definition de_identity (j : json) : option SessionIdentity :=
  fs ← closed_struct ["session_id"; "project_id"; "task_id"; "run_id"] j;
  s ← req de_string "session_id" fs; p ← req de_string "project_id" fs;
  t ← opt (de_option de_string) "task_id" fs; r ← opt (de_option de_string) "run_id" fs;
  Some (mk_identity s p t r).
Definition ser_limits (l : SessionLimits) : json :=
  JObj [("model_turns", ser_u64 (l_model_turns l)); ("tokens", ser_u64 (l_tokens l));
        ("tool_calls", ser_u64 (l_tool_calls l)); ("retries", ser_u64 (l_retries l));
        ("no_progress", ser_u64 (l_no_progress l)); ("elapsed_ms", ser_u64 (l_elapsed_ms l));
        ("context_bytes", ser_u64 (l_context_bytes l)); ("response_bytes", ser_u64 (l_response_bytes l));
        ("tool_output_bytes", ser_u64 (l_tool_output_bytes l))].
Definition de_limits (j : json) : option SessionLimits :=
  fs ← closed_struct ["model_turns"; "tokens"; "tool_calls"; "retries"; "no_progress"; "elapsed_ms";
    "context_bytes"; "response_bytes"; "tool_output_bytes"] j;
  a ← req de_u64 "model_turns" fs; b ← req de_u64 "tokens" fs; c ← req de_u64 "tool_calls" fs;
  d ← req de_u64 "retries" fs; e ← req de_u64 "no_progress" fs; f ← req de_u64 "elapsed_ms" fs;
  g ← req de_u64 "context_bytes" fs; h ← req de_u64 "response_bytes" fs; i ← req de_u64 "tool_output_bytes" fs;
  Some (mk_session_limits a b c d e f g h i).
Definition ser_budget (b : Budget) : json :=
  JObj [("model_turns", ser_u64 (b_model_turns b)); ("tool_calls", ser_u64 (b_tool_calls b));
        ("retries", ser_u64 (b_retries b)); ("no_progress", ser_u64 (b_no_progress b));
        ("elapsed_ms", ser_u64 (b_elapsed_ms b));
        ("reported_input_tokens", ser_u64 (b_reported_input b)); ("reported_output_tokens", ser_u64 (b_reported_output b));
        ("estimated_input_tokens", ser_u64 (b_estimated_input b)); ("estimated_output_tokens", ser_u64 (b_estimated_output b));
        ("reserved_input_tokens", ser_u64 (b_reserved_input b)); ("reserved_output_tokens", ser_u64 (b_reserved_output b))].
Definition de_budget (j : json) : option Budget :=
  fs ← closed_struct ["model_turns"; "tool_calls"; "retries"; "no_progress"; "elapsed_ms"; "reported_input_tokens";
    "reported_output_tokens"; "estimated_input_tokens"; "estimated_output_tokens"; "reserved_input_tokens";
    "reserved_output_tokens"] j;
  a ← req de_u64 "model_turns" fs; b ← req de_u64 "tool_calls" fs; c ← req de_u64 "retries" fs;
  d ← req de_u64 "no_progress" fs; e ← req de_u64 "elapsed_ms" fs;
  f ← req de_u64 "reported_input_tokens" fs; g ← req de_u64 "reported_output_tokens" fs;
  h ← req de_u64 "estimated_input_tokens" fs; i ← req de_u64 "estimated_output_tokens" fs;
  k ← req de_u64 "reserved_input_tokens" fs; l ← req de_u64 "reserved_output_tokens" fs;
  Some (mk_budget a b c d e f g h i k l).
Definition ser_peer_mode (m : GraphPeerMode) : json :=
  JStr match m with PeerAbsent => "absent" | PeerPartial => "partial" | PeerComplete => "complete" end.
Definition de_peer_mode : json → option GraphPeerMode :=
  de_name [("absent", PeerAbsent); ("partial", PeerPartial); ("complete", PeerComplete)].
Definition ser_evidence (e : LaunchEvidence) : json :=
  JObj ([("baseline_tree", ser_string (le_baseline_tree e));
         ("native_context_enabled", ser_bool (le_native_context_enabled e));
         ("working_set_enabled", ser_bool (le_working_set_enabled e))]
        ++ opt_field "graph_peer_mode" ser_peer_mode (le_graph_peer_mode e)
        ++ opt_field "graph_peer_id" ser_string (le_graph_peer_id e)
        ++ opt_field "mcp_peer_count" ser_u64 (le_mcp_peer_count e)
        ++ opt_field "mcp_tool_count" ser_u64 (le_mcp_tool_count e)
        ++ opt_field "graph_peer_timeout_ms" ser_u64 (le_graph_peer_timeout_ms e)
        ++ opt_field "settings_sha256" ser_string (le_settings_sha256 e)).
Definition de_evidence (j : json) : option LaunchEvidence :=
  fs ← closed_struct ["baseline_tree"; "native_context_enabled"; "working_set_enabled"; "graph_peer_mode";
    "graph_peer_id"; "mcp_peer_count"; "mcp_tool_count"; "graph_peer_timeout_ms"; "settings_sha256"] j;
  a ← req de_string "baseline_tree" fs; b ← req de_bool "native_context_enabled" fs;
  c ← req de_bool "working_set_enabled" fs; d ← opt (de_option de_peer_mode) "graph_peer_mode" fs;
  e ← opt (de_option de_string) "graph_peer_id" fs; f ← opt (de_option de_u64) "mcp_peer_count" fs;
  g ← opt (de_option de_u64) "mcp_tool_count" fs; h ← opt (de_option de_u64) "graph_peer_timeout_ms" fs;
  i ← opt (de_option de_string) "settings_sha256" fs;
  Some (mk_evidence a b c d e f g h i).

(** ** Ends *)
Definition ser_limit_kind (k : LimitKind) : json :=
  JStr match k with
       | LModelTurns => "model_turns" | LTokens => "tokens" | LToolCalls => "tool_calls" | LRetries => "retries"
       | LNoProgress => "no_progress" | LElapsed => "elapsed" | LContextBytes => "context_bytes"
       | LContextTokens => "context_tokens" | LResponseBytes => "response_bytes"
       | LToolOutputBytes => "tool_output_bytes"
       end.
Definition de_limit_kind : json → option LimitKind :=
  de_name [("model_turns", LModelTurns); ("tokens", LTokens); ("tool_calls", LToolCalls); ("retries", LRetries);
    ("no_progress", LNoProgress); ("elapsed", LElapsed); ("context_bytes", LContextBytes);
    ("context_tokens", LContextTokens); ("response_bytes", LResponseBytes); ("tool_output_bytes", LToolOutputBytes)].
Definition end_reasons : list (string * EndReason) :=
  [("model_finished", ModelFinished); ("definition_completed", DefinitionCompleted);
   ("review_completed", ReviewCompleted); ("consultation_responded", ConsultationResponded);
   ("submitted", EndSubmitted); ("task_failed", TaskFailed); ("paused", EndPaused);
   ("authority_lost", AuthorityLost); ("cancelled", EndCancelled); ("provider_failed", ProviderFailed);
   ("provider_protocol", ProviderProtocol); ("provider_truncated", ProviderTruncated);
   ("journal_failed", JournalFailed); ("effect_unknown", EffectUnknown)].
Definition end_name (r : EndReason) : string :=
  match r with
  | ModelFinished => "model_finished" | DefinitionCompleted => "definition_completed"
  | ReviewCompleted => "review_completed" | ConsultationResponded => "consultation_responded"
  | EndSubmitted => "submitted" | TaskFailed => "task_failed" | EndPaused => "paused"
  | AuthorityLost => "authority_lost" | EndCancelled => "cancelled" | EndLimit _ => "limit"
  | ProviderFailed => "provider_failed" | ProviderProtocol => "provider_protocol"
  | ProviderTruncated => "provider_truncated" | JournalFailed => "journal_failed"
  | EffectUnknown => "effect_unknown"
  end.
Definition ser_end (r : EndReason) : json :=
  JObj (("reason", JStr (end_name r))
        :: match r with EndLimit k => [("detail", ser_limit_kind k)] | _ => [] end).
Definition de_end (j : json) : option EndReason :=
  '(t, c) ← adjacent "reason" "detail" j;
  if String.eqb t "limit" then v ← c; EndLimit <$> de_limit_kind v
  else r ← de_name end_reasons (JStr t); unit_variant r c.

(** ** Projections *)
Definition ser_handle (h : Handle) : json :=
  JObj [("message", ser_nat (h_message h)); ("name", ser_string (h_name h)); ("arguments", h_arguments h);
        ("digest", ser_string (h_digest h))].
Definition de_handle (j : json) : option Handle :=
  fs ← closed_struct ["message"; "name"; "arguments"; "digest"] j;
  m ← req de_nat "message" fs; n ← req de_string "name" fs; a ← req de_value "arguments" fs;
  d ← req de_string "digest" fs; Some (mk_handle m n a d).
Definition ser_summary (s : Summary) : json :=
  JObj [("retained_from", ser_nat (retained_from s)); ("text", ser_string (sm_text s));
        ("handles", ser_list ser_handle (sm_handles s))].
Definition de_summary (j : json) : option Summary :=
  fs ← closed_struct ["retained_from"; "text"; "handles"] j;
  r ← req de_nat "retained_from" fs; t ← req de_string "text" fs; h ← req (de_list de_handle) "handles" fs;
  Some (mk_summary r t h).
Definition ser_projection (p : Projection) : json :=
  JObj [("summary", ser_option ser_summary (pj_summary p)); ("evicted", ser_list ser_handle (pj_evicted p));
        ("original_bytes", ser_u64 (pj_original_bytes p)); ("projected_bytes", ser_u64 (pj_projected_bytes p));
        ("changed_from", ser_option ser_nat (pj_changed_from p))].
Definition de_projection (j : json) : option Projection :=
  fs ← closed_struct ["summary"; "evicted"; "original_bytes"; "projected_bytes"; "changed_from"] j;
  s ← opt (de_option de_summary) "summary" fs; e ← with_default [] (de_list de_handle) "evicted" fs;
  o ← with_default 0 de_u64 "original_bytes" fs; p ← with_default 0 de_u64 "projected_bytes" fs;
  c ← opt (de_option de_nat) "changed_from" fs; Some (mk_projection s e o p c).
Definition ser_replacement (r : Replacement) : json :=
  JObj [("message", ser_nat (rpl_message r)); ("value", rpl_value r)].
Definition de_replacement (j : json) : option Replacement :=
  fs ← closed_struct ["message"; "value"] j;
  m ← req de_nat "message" fs; v ← req de_value "value" fs; Some (mk_replacement m v).
Definition ser_preparation (p : Preparation) : json :=
  JObj ([("replacements", ser_list ser_replacement (pp_replacements p)); ("observations", JArr (pp_observations p))]
        ++ opt_field "projection" ser_projection (pp_projection p)).
Definition de_preparation (j : json) : option Preparation :=
  fs ← closed_struct ["replacements"; "observations"; "projection"] j;
  r ← req (de_list de_replacement) "replacements" fs; o ← req (de_list de_value) "observations" fs;
  p ← opt (de_option de_projection) "projection" fs; Some (mk_preparation r o p).
Definition ser_composition (c : ContextComposition) : json :=
  JObj ([("history_messages", ser_nat (cc_history_messages c)); ("request_messages", ser_nat (cc_request_messages c));
         ("stable_prefix_messages", ser_nat (cc_stable_prefix_messages c));
         ("input_tokens_estimated", ser_u64 (cc_input_tokens_estimated c));
         ("output_tokens_reserved", ser_u64 (cc_output_tokens_reserved c));
         ("context_window_tokens", ser_u64 (cc_context_window_tokens c));
         ("evicted_outputs", ser_nat (cc_evicted_outputs c)); ("summary_present", ser_bool (cc_summary_present c))]
        ++ opt_field "assembly_elapsed_ms" ser_u64 (cc_assembly_elapsed_ms c)).
Definition de_composition (j : json) : option ContextComposition :=
  fs ← closed_struct ["history_messages"; "request_messages"; "stable_prefix_messages"; "input_tokens_estimated";
    "output_tokens_reserved"; "context_window_tokens"; "evicted_outputs"; "summary_present"; "assembly_elapsed_ms"] j;
  a ← req de_nat "history_messages" fs; b ← req de_nat "request_messages" fs;
  c ← req de_nat "stable_prefix_messages" fs; d ← req de_u64 "input_tokens_estimated" fs;
  e ← req de_u64 "output_tokens_reserved" fs; f ← req de_u64 "context_window_tokens" fs;
  g ← req de_nat "evicted_outputs" fs; h ← req de_bool "summary_present" fs;
  i ← opt (de_option de_u64) "assembly_elapsed_ms" fs;
  Some (mk_composition a b c d e f g h i).

(** ** Events and records *)
Section events.
Context `{!FloatText}.
Definition event_name (e : SessionEvent) : string :=
  match e with
  | Started _ _ _ _ _ _ _ => "started"
  | ModelStarted _ => "model_started"
  | UserInput _ _ => "user_input"
  | InputRequested => "input_requested"
  | InteractionOpened => "interaction_opened"
  | CompactionStarted _ _ => "compaction_started"
  | CompactionCompleted _ _ => "compaction_completed"
  | ContextPrepared _ => "context_prepared"
  | ContextComposed _ => "context_composed"
  | ModelCompleted _ _ => "model_completed"
  | ModelFailed _ _ _ _ => "model_failed"
  | ToolIntent _ _ _ _ => "tool_intent"
  | ToolStarted _ => "tool_started"
  | ToolResult _ _ => "tool_result"
  | Ended _ => "ended"
  end.
Definition event_fields (e : SessionEvent) : list (string * json) :=
  match e with
  | Started i l input p le ib ps =>
    [("identity", ser_identity i); ("limits", ser_limits l); ("input", ser_string input)]
    ++ opt_field "system_prompt" ser_string p ++ opt_field "launch_evidence" ser_evidence le
    ++ opt_field "inherited_budget" ser_budget ib ++ opt_field "provider" ser_settings ps
  | ModelStarted t => [("turn", ser_u64 t)]
  | UserInput t i => ("text", ser_string t) :: opt_field "input_id" ser_string i
  | InputRequested | InteractionOpened => []
  | CompactionStarted t r => [("turn", ser_u64 t); ("retained_from", ser_nat r)]
  | CompactionCompleted s u => [("summary", ser_summary s); ("usage", ser_usage u)]
  | ContextPrepared p => [("preparation", ser_preparation p)]
  | ContextComposed c => [("composition", ser_composition c)]
  | ModelCompleted r u => [("response", ser_response r); ("usage", ser_usage u)]
  | ModelFailed r u k d =>
    [("retryable", ser_bool r); ("usage", ser_usage u)]
    ++ opt_field "error" ser_kind k ++ opt_field "diagnostic" ser_diagnostic d
  | ToolIntent i c p s =>
    [("call_id", ser_string i); ("call", ser_tool_call c)] ++ opt_field "effect_plan" ser_effect_plan p
    ++ (if s then [("start_recorded", JBool true)] else [])
  | ToolStarted i => [("call_id", ser_string i)]
  | ToolResult i o => [("call_id", ser_string i); ("outcome", ser_outcome o)]
  | Ended r => [("reason", ser_end r)]
  end.
Definition ser_event (e : SessionEvent) : json := JObj (("event", JStr (event_name e)) :: event_fields e).

Definition de_started (body : json) : option SessionEvent :=
  fs ← open_struct ["identity"; "limits"; "input"; "system_prompt"; "launch_evidence"; "inherited_budget"; "provider"] body;
  i ← req de_identity "identity" fs; l ← req de_limits "limits" fs; t ← req de_string "input" fs;
  p ← opt (de_option de_string) "system_prompt" fs; e ← opt (de_option de_evidence) "launch_evidence" fs;
  b ← opt (de_option de_budget) "inherited_budget" fs; s ← opt (de_option de_settings) "provider" fs;
  Some (Started i l t p e b s).
Definition de_model_failed (body : json) : option SessionEvent :=
  fs ← open_struct ["retryable"; "usage"; "error"; "diagnostic"] body;
  r ← req de_bool "retryable" fs; u ← req de_usage "usage" fs; k ← opt (de_option de_kind) "error" fs;
  d ← opt (de_option de_diagnostic) "diagnostic" fs; Some (ModelFailed r u k d).
Definition de_tool_intent (body : json) : option SessionEvent :=
  fs ← open_struct ["call_id"; "call"; "effect_plan"; "start_recorded"] body;
  i ← req de_string "call_id" fs; c ← req de_tool_call "call" fs; p ← opt (de_option de_effect_plan) "effect_plan" fs;
  s ← with_default false de_bool "start_recorded" fs; Some (ToolIntent i c p s).
Definition de_event (j : json) : option SessionEvent :=
  '(t, body) ← internal "event" j;
  if String.eqb t "started" then de_started body
  else if String.eqb t "model_started" then
    fs ← open_struct ["turn"] body; n ← req de_u64 "turn" fs; Some (ModelStarted n)
  else if String.eqb t "user_input" then
    fs ← open_struct ["text"; "input_id"] body; s ← req de_string "text" fs;
    i ← opt (de_option de_string) "input_id" fs; Some (UserInput s i)
  else if String.eqb t "input_requested" then Some InputRequested
  else if String.eqb t "interaction_opened" then Some InteractionOpened
  else if String.eqb t "compaction_started" then
    fs ← open_struct ["turn"; "retained_from"] body; n ← req de_u64 "turn" fs; r ← req de_nat "retained_from" fs;
    Some (CompactionStarted n r)
  else if String.eqb t "compaction_completed" then
    fs ← open_struct ["summary"; "usage"] body; s ← req de_summary "summary" fs; u ← req de_usage "usage" fs;
    Some (CompactionCompleted s u)
  else if String.eqb t "context_prepared" then
    fs ← open_struct ["preparation"] body; p ← req de_preparation "preparation" fs; Some (ContextPrepared p)
  else if String.eqb t "context_composed" then
    fs ← open_struct ["composition"] body; c ← req de_composition "composition" fs; Some (ContextComposed c)
  else if String.eqb t "model_completed" then
    fs ← open_struct ["response"; "usage"] body; r ← req de_response "response" fs; u ← req de_usage "usage" fs;
    Some (ModelCompleted r u)
  else if String.eqb t "model_failed" then de_model_failed body
  else if String.eqb t "tool_intent" then de_tool_intent body
  else if String.eqb t "tool_started" then
    fs ← open_struct ["call_id"] body; i ← req de_string "call_id" fs; Some (ToolStarted i)
  else if String.eqb t "tool_result" then
    fs ← open_struct ["call_id"; "outcome"] body; i ← req de_string "call_id" fs; o ← req de_outcome "outcome" fs;
    Some (ToolResult i o)
  else if String.eqb t "ended" then
    fs ← open_struct ["reason"] body; r ← req de_end "reason" fs; Some (Ended r)
  else None.

Definition ser_record (r : SessionRecord) : json :=
  JObj [("version", ser_int (rec_version r)); ("session_id", ser_string (rec_session r));
        ("sequence", ser_u64 (rec_sequence r)); ("budget", ser_budget (rec_budget r)); ("event", ser_event (rec_event r))].
Definition de_record (j : json) : option SessionRecord :=
  fs ← closed_struct ["version"; "session_id"; "sequence"; "budget"; "event"] j;
  v ← req (de_int 0 u32_modulus) "version" fs; i ← req de_string "session_id" fs;
  n ← req de_u64 "sequence" fs; b ← req de_budget "budget" fs; e ← req de_event "event" fs;
  Some (mk_record v i n b e).

(** [effective_settings_sha256] *)
Definition settings_version (e : LaunchEvidence) : Z :=
  if bool_decide (is_Some (le_graph_peer_timeout_ms e)) then 4
  else if bool_decide (is_Some (le_mcp_peer_count e)) || bool_decide (is_Some (le_mcp_tool_count e)) then 3
  else if bool_decide (is_Some (le_graph_peer_id e)) then 2 else 1.
Definition ser_effective_settings (p : ProviderSettings) (l : SessionLimits) (e : LaunchEvidence) (mode : GraphPeerMode) :
  json :=
  JObj ([("version", ser_int (settings_version e)); ("provider", ser_settings p); ("limits", ser_limits l);
         ("native_context_enabled", ser_bool (le_native_context_enabled e));
         ("working_set_enabled", ser_bool (le_working_set_enabled e)); ("graph_peer_mode", ser_peer_mode mode)]
        ++ opt_field "graph_peer_id" ser_string (le_graph_peer_id e)
        ++ opt_field "mcp_peer_count" ser_u64 (le_mcp_peer_count e)
        ++ opt_field "mcp_tool_count" ser_u64 (le_mcp_tool_count e)
        ++ opt_field "graph_peer_timeout_ms" ser_u64 (le_graph_peer_timeout_ms e)).
Definition effective_settings_sha256 `{!JsonText, !Sha256} (p : ProviderSettings) (l : SessionLimits)
    (e : LaunchEvidence) : result string :=
  match le_graph_peer_mode e with
  | None => Err (Bail "Graph peer mode is missing" [])
  | Some mode => Ok (hex_bytes (sha256 (json_text (ser_effective_settings p l e mode))))
  end.
End events.
