(* ===== verification/AgentWireFacts.v ===== *)
(** Session records survive the journal: a record whose fields are values of
    their Rust types is read back from what was written. *)
From S2P Require Import Prelude Transact Text Wire Patch FileTools AgentData AgentWire.
#[local] Open Scope list_scope.

(** ** Values of the Rust types *)
Definition nat_typed (n : nat) : Prop := Z.of_nat n < u64_modulus.
Definition opt_typed {A} (P : A → Prop) (o : option A) : Prop := match o with Some a => P a | None => True end.
Definition error_typed (e : ToolError) : Prop :=
  match e with WorkspaceError v | ContextError v | LifecycleError v | McpError v => is_value v | _ => True end.
Definition outcome_typed (o : ToolOutcome) : Prop :=
  match o with Success v => is_value v | OutcomeFailed e | Unknown e => error_typed e end.
(** [Some(Value::Null)] is written like [None]. *)
Definition response_typed (r : ModelResponse) : Prop :=
  opt_typed (λ v, is_value v ∧ v ≠ JNull) (rs_continuation r).
Definition usage_typed (u : Usage) : Prop := u64 (input_tokens u) ∧ u64 (output_tokens u).
Definition handle_typed (h : Handle) : Prop := nat_typed (h_message h) ∧ is_value (h_arguments h).
Definition summary_typed (s : Summary) : Prop := nat_typed (retained_from s) ∧ Forall handle_typed (sm_handles s).
Definition projection_typed (p : Projection) : Prop :=
  opt_typed summary_typed (pj_summary p) ∧ Forall handle_typed (pj_evicted p) ∧ u64 (pj_original_bytes p)
  ∧ u64 (pj_projected_bytes p) ∧ opt_typed nat_typed (pj_changed_from p).
Definition replacement_typed (r : Replacement) : Prop := nat_typed (rpl_message r) ∧ is_value (rpl_value r).
Definition preparation_typed (p : Preparation) : Prop :=
  Forall replacement_typed (pp_replacements p) ∧ Forall is_value (pp_observations p)
  ∧ opt_typed projection_typed (pp_projection p).
Definition composition_typed (c : ContextComposition) : Prop :=
  nat_typed (cc_history_messages c) ∧ nat_typed (cc_request_messages c) ∧ nat_typed (cc_stable_prefix_messages c)
  ∧ u64 (cc_input_tokens_estimated c) ∧ u64 (cc_output_tokens_reserved c) ∧ u64 (cc_context_window_tokens c)
  ∧ nat_typed (cc_evicted_outputs c) ∧ opt_typed u64 (cc_assembly_elapsed_ms c).
Definition limits_typed (l : SessionLimits) : Prop :=
  u64 (l_model_turns l) ∧ u64 (l_tokens l) ∧ u64 (l_tool_calls l) ∧ u64 (l_retries l) ∧ u64 (l_no_progress l)
  ∧ u64 (l_elapsed_ms l) ∧ u64 (l_context_bytes l) ∧ u64 (l_response_bytes l) ∧ u64 (l_tool_output_bytes l).
Definition evidence_typed (e : LaunchEvidence) : Prop :=
  opt_typed u64 (le_mcp_peer_count e) ∧ opt_typed u64 (le_mcp_tool_count e) ∧ opt_typed u64 (le_graph_peer_timeout_ms e).
Definition settings_typed (exact : f64 → Prop) (s : ProviderSettings) : Prop :=
  opt_typed u64 (ps_context_tokens s) ∧ opt_typed u64 (ps_max_output_tokens s) ∧ opt_typed exact (ps_temperature s)
  ∧ u64 (ps_request_timeout_ms s) ∧ u64 (ps_wire_bytes s) ∧ u64 (ps_event_bytes s) ∧ u64 (ps_max_tool_calls s).
Definition diagnostic_typed (d : ProviderDiagnostic) : Prop :=
  match d with DHttp s => 0 ≤ s < 65536 | _ => True end.
Definition event_typed (exact : f64 → Prop) (e : SessionEvent) : Prop :=
  match e with
  | Started _ l _ _ le ib ps =>
    limits_typed l ∧ opt_typed evidence_typed le ∧ opt_typed budget_typed ib ∧ opt_typed (settings_typed exact) ps
  | ModelStarted t => u64 t
  | CompactionStarted t r => u64 t ∧ nat_typed r
  | CompactionCompleted s u => summary_typed s ∧ usage_typed u
  | ContextPrepared p => preparation_typed p
  | ContextComposed c => composition_typed c
  | ModelCompleted r u => response_typed r ∧ usage_typed u
  | ModelFailed _ u _ d => usage_typed u ∧ opt_typed diagnostic_typed d
  | ToolResult _ o => outcome_typed o
  | _ => True
  end.
Definition record_typed (exact : f64 → Prop) (r : SessionRecord) : Prop :=
  0 ≤ rec_version r < u32_modulus ∧ u64 (rec_sequence r) ∧ budget_typed (rec_budget r) ∧ event_typed exact (rec_event r).

(** ** Reading what was written *)
#[local] Arguments ser_tool_call : simpl never.
#[local] Arguments de_tool_call : simpl never.
#[local] Arguments ser_planned : simpl never.
#[local] Arguments de_planned : simpl never.
#[local] Arguments ser_effect_plan : simpl never.
#[local] Arguments de_effect_plan : simpl never.
#[local] Arguments ser_outcome : simpl never.
#[local] Arguments de_outcome : simpl never.
#[local] Arguments ser_tool_error : simpl never.
#[local] Arguments de_tool_error : simpl never.
#[local] Arguments ser_usage : simpl never.
#[local] Arguments de_usage : simpl never.
#[local] Arguments ser_response : simpl never.
#[local] Arguments de_response : simpl never.
#[local] Arguments ser_finish : simpl never.
#[local] Arguments de_finish : simpl never.
#[local] Arguments ser_kind : simpl never.
#[local] Arguments de_kind : simpl never.
#[local] Arguments ser_diagnostic : simpl never.
#[local] Arguments de_diagnostic : simpl never.
#[local] Arguments ser_effort : simpl never.
#[local] Arguments de_effort : simpl never.
#[local] Arguments ser_settings {_} : simpl never.
#[local] Arguments de_settings {_} : simpl never.
#[local] Arguments ser_identity : simpl never.
#[local] Arguments de_identity : simpl never.
#[local] Arguments ser_limits : simpl never.
#[local] Arguments de_limits : simpl never.
#[local] Arguments ser_budget : simpl never.
#[local] Arguments de_budget : simpl never.
#[local] Arguments ser_peer_mode : simpl never.
#[local] Arguments de_peer_mode : simpl never.
#[local] Arguments ser_evidence : simpl never.
#[local] Arguments de_evidence : simpl never.
#[local] Arguments ser_end : simpl never.
#[local] Arguments de_end : simpl never.
#[local] Arguments ser_handle : simpl never.
#[local] Arguments de_handle : simpl never.
#[local] Arguments ser_summary : simpl never.
#[local] Arguments de_summary : simpl never.
#[local] Arguments ser_projection : simpl never.
#[local] Arguments de_projection : simpl never.
#[local] Arguments ser_replacement : simpl never.
#[local] Arguments de_replacement : simpl never.
#[local] Arguments ser_preparation : simpl never.
#[local] Arguments de_preparation : simpl never.
#[local] Arguments ser_composition : simpl never.
#[local] Arguments de_composition : simpl never.
#[local] Arguments ser_event {_} : simpl never.
#[local] Arguments de_event {_} : simpl never.
#[local] Arguments ser_u64 : simpl never.
#[local] Arguments de_u64 : simpl never.
#[local] Arguments ser_nat : simpl never.
#[local] Arguments de_nat : simpl never.
#[local] Arguments ser_text : simpl never.
#[local] Arguments de_text : simpl never.
#[local] Arguments de_value : simpl never.
#[local] Arguments ser_int : simpl never.
#[local] Arguments ser_string : simpl never.
#[local] Arguments de_string : simpl never.
#[local] Arguments ser_bool : simpl never.
#[local] Arguments de_bool : simpl never.

Lemma de_ser_u64 z : u64 z → de_u64 (ser_u64 z) = Some z.
Proof. intros H. apply de_ser_int. unfold u64, usize_max, u64_modulus in *. lia. Qed.
Lemma de_ser_nat n : nat_typed n → de_nat (ser_nat n) = Some n.
Proof. intros H. unfold de_nat, ser_nat, de_usize. rewrite (de_ser_int 0) by (unfold nat_typed in *; lia). simpl. f_equal. lia. Qed.
Lemma de_ser_text t : de_text (ser_text t) = Some t.
Proof. unfold de_text, ser_text. rewrite de_ser_string. simpl. by rewrite length_lit_str. Qed.
Lemma de_ser_value v : is_value v → de_value v = Some v.
Proof. intros H. unfold de_value. by rewrite H. Qed.
Lemma value_id v : is_value v → value_of v = v.
Proof. done. Qed.
Lemma de_ser_finish f : de_finish (ser_finish f) = Some f.
Proof. by destruct f. Qed.
Lemma de_ser_error_kind k : de_kind (ser_kind k) = Some k.
Proof. by destruct k. Qed.
Lemma de_ser_effort k : de_effort (ser_effort k) = Some k.
Proof. by destruct k. Qed.
Lemma de_ser_peer_mode k : de_peer_mode (ser_peer_mode k) = Some k.
Proof. by destruct k. Qed.
Lemma de_ser_limit_kind k : de_limit_kind (ser_limit_kind k) = Some k.
Proof. by destruct k. Qed.
Lemma de_ser_end r : de_end (ser_end r) = Some r.
Proof. by destruct r as [| | | | | | | | |[]| | | | |]. Qed.
Lemma de_ser_tool_call c : de_tool_call (ser_tool_call c) = Some c.
Proof. by destruct c. Qed.
#[local] Hint Rewrite de_ser_text de_ser_finish de_ser_error_kind de_ser_effort de_ser_peer_mode de_ser_end de_ser_tool_call
  : serde.
(** An optional field that is always written. *)
Lemma de_option_some {A} (w : A → json) (r : json → option A) a :
  w a ≠ JNull → r (w a) = Some a → de_option r (w a) = Some (Some a).
Proof. intros Hn Hr. unfold de_option. by destruct (w a); [done|rewrite Hr..]. Qed.

(** Reads the scalars of a struct back. *)
Ltac read_back :=
  repeat (progress (rewrite ?de_ser_u64, ?de_ser_nat, ?de_ser_bool, ?de_ser_string, ?de_ser_value, ?value_id by done; simpl)); try done.
Lemma de_ser_opt {A} (P : A → Prop) (w : A → json) (r : json → option A) o :
  (∀ a, w a ≠ JNull) → (∀ a, P a → r (w a) = Some a) → opt_typed P o → de_option r (ser_option w o) = Some o.
Proof. intros Hn Hr Ho. apply de_ser_option; [done|]. intros a ->. by apply Hr. Qed.
Lemma de_ser_forall {A} (P : A → Prop) (w : A → json) (r : json → option A) l :
  (∀ a, P a → r (w a) = Some a) → Forall P l → de_list r (ser_list w l) = Some l.
Proof. intros Hr Hl. apply de_ser_list. rewrite Forall_forall in Hl. auto. Qed.

Lemma de_ser_planned f : de_planned (ser_planned f) = Some f.
Proof.
  destruct f as [p b a]. unfold de_planned, ser_planned. serde_struct.
  rewrite !(de_ser_option ser_text de_text) by (done || intros; apply de_ser_text). simpl. by rewrite length_lit_str.
Qed.
Lemma de_ser_effect_plan p : de_effect_plan (ser_effect_plan p) = Some p.
Proof.
  destruct p as [files]. unfold de_effect_plan, ser_effect_plan. serde_struct.
  rewrite de_ser_list; [done|]. intros f _. apply de_ser_planned.
Qed.
Lemma de_ser_tool_error e : error_typed e → de_tool_error (ser_tool_error e) = Some e.
Proof. destruct e; intros H; try done; unfold de_tool_error, ser_tool_error, de_value; simpl; by rewrite H. Qed.
Lemma de_ser_outcome o : outcome_typed o → de_outcome (ser_outcome o) = Some o.
Proof.
  destruct o as [v|e|e]; intros H; unfold de_outcome, ser_outcome, adjacent; serde_struct; unfold de_value; simpl.
  - by rewrite H.
  - by rewrite (de_ser_tool_error _ H).
  - by rewrite (de_ser_tool_error _ H).
Qed.
Lemma de_ser_usage u : usage_typed u → de_usage (ser_usage u) = Some u.
Proof.
  destruct u as [i o r]. intros [Hi Ho]. unfold de_usage, ser_usage. serde_struct. read_back.
Qed.
Lemma de_ser_response r : response_typed r → de_response (ser_response r) = Some r.
Proof.
  destruct r as [f t c k]. intros H. unfold de_response, ser_response. serde_struct.
  rewrite (de_ser_list ser_tool_call de_tool_call) by (intros; apply de_ser_tool_call). simpl.
  destruct k as [v|]; [|done]. destruct H as [Hv Hn]. simpl in *.
  change (ser_option (λ v, v) (Some v)) with v. by rewrite (de_option_some (λ v, v)) by (try done; by apply de_ser_value).
Qed.
Lemma de_ser_diagnostic d : diagnostic_typed d → de_diagnostic (ser_diagnostic d) = Some d.
Proof.
  destruct d as [s| |]; intros H; [|done..]. unfold de_diagnostic, ser_diagnostic. serde_struct.
  by rewrite (de_ser_int 0 65536) by done.
Qed.
Lemma de_ser_identity i : de_identity (ser_identity i) = Some i.
Proof. by destruct i as [s p [t|] [r|]]. Qed.
Lemma de_ser_limits l : limits_typed l → de_limits (ser_limits l) = Some l.
Proof.
  destruct l. intros (? & ? & ? & ? & ? & ? & ? & ? & ?). unfold de_limits, ser_limits. simpl in *. serde_struct. read_back.
Qed.
Lemma de_ser_budget b : budget_typed b → de_budget (ser_budget b) = Some b.
Proof.
  destruct b. intros []. unfold de_budget, ser_budget. simpl in *. serde_struct. read_back.
Qed.
Lemma de_ser_handle h : handle_typed h → de_handle (ser_handle h) = Some h.
Proof.
  destruct h as [m n a d]. intros [Hm Ha]. unfold de_handle, ser_handle. simpl in *. serde_struct.
  read_back.
Qed.
Lemma de_ser_summary s : summary_typed s → de_summary (ser_summary s) = Some s.
Proof.
  destruct s as [r t h]. intros [Hr Hh]. unfold de_summary, ser_summary. simpl in *. serde_struct.
  read_back.
  by rewrite (de_ser_forall _ _ _ _ de_ser_handle Hh).
Qed.
Lemma de_ser_projection p : projection_typed p → de_projection (ser_projection p) = Some p.
Proof.
  destruct p as [s e o q c]. intros (Hs & He & Ho & Hq & Hc). unfold de_projection, ser_projection. simpl in *. serde_struct.
  rewrite (de_ser_opt summary_typed) by (done || apply de_ser_summary). simpl.
  rewrite (de_ser_forall _ _ _ _ de_ser_handle He). simpl. read_back.
  by rewrite (de_ser_opt nat_typed) by (done || apply de_ser_nat).
Qed.
Lemma de_ser_replacement r : replacement_typed r → de_replacement (ser_replacement r) = Some r.
Proof.
  destruct r as [m v]. intros [Hm Hv]. unfold de_replacement, ser_replacement. simpl in *. serde_struct.
  read_back.
Qed.
Lemma de_values l : Forall is_value l → de_list de_value (JArr l) = Some l.
Proof.
  intros H. rewrite <- (list_fmap_id l) at 1. change (JArr (id <$> l)) with (ser_list id l).
  by apply (de_ser_forall is_value); [apply de_ser_value|].
Qed.
Lemma de_ser_preparation p : preparation_typed p → de_preparation (ser_preparation p) = Some p.
Proof.
  destruct p as [r o q]. intros (Hr & Ho & Hq). unfold de_preparation, ser_preparation. simpl in *.
  destruct q as [q|]; serde_struct; rewrite (de_ser_forall _ _ _ _ de_ser_replacement Hr); simpl;
    rewrite (de_values _ Ho); simpl; [|done].
  by rewrite de_option_some by (done || by apply de_ser_projection).
Qed.
Lemma de_ser_composition c : composition_typed c → de_composition (ser_composition c) = Some c.
Proof.
  destruct c as [a b d e f g h i k]. intros (? & ? & ? & ? & ? & ? & ? & Hk). unfold de_composition, ser_composition. simpl in *.
  destruct k as [k|]; serde_struct; read_back.
  by rewrite de_option_some by (done || by apply de_ser_u64).
Qed.
Lemma de_ser_evidence e : evidence_typed e → de_evidence (ser_evidence e) = Some e.
Proof.
  destruct e as [a b c d i f g h k]. intros (Hf & Hg & Hh). unfold de_evidence, ser_evidence. simpl in *.
  destruct d, i, f, g, h, k; serde_struct;
    rewrite ?(de_option_some ser_peer_mode de_peer_mode) by (done || apply de_ser_peer_mode);
    rewrite ?(de_option_some ser_u64 de_u64) by (done || by apply de_ser_u64); done.
Qed.

Section records.
Context {FT : FloatText} (exact : f64 → Prop) {FL : FloatTextLaws exact}.

Lemma de_ser_settings s : settings_typed exact s → de_settings (ser_settings s) = Some s.
Proof using FL.
  destruct s as [a b m c o t r q w e n u]. intros (Hc & Ho & Ht & Hq & Hw & He & Hn). unfold de_settings, ser_settings, settings_fields.
  simpl in *.
  destruct c, o, t, r; serde_struct;
    rewrite ?(de_option_some ser_effort de_effort) by (done || apply de_ser_effort);
    rewrite ?(de_option_some ser_u64 de_u64) by (done || by apply de_ser_u64);
    rewrite ?(de_option_some float_json json_float) by (apply float_not_null || by apply json_float_json);
    read_back.
Qed.
Lemma de_ser_started i l t p le ib ps :
  event_typed exact (Started i l t p le ib ps) →
  de_event (ser_event (Started i l t p le ib ps)) = Some (Started i l t p le ib ps).
Proof using FL.
  intros (Hl & He & Hb & Hs). unfold de_event, ser_event. simpl. unfold de_started.
  destruct p, le, ib, ps; serde_struct; rewrite de_ser_identity, de_ser_limits by done; simpl;
    rewrite ?(de_option_some ser_string de_string) by done; simpl;
    rewrite ?(de_option_some ser_evidence de_evidence) by (done || by apply de_ser_evidence); simpl;
    rewrite ?(de_option_some ser_budget de_budget) by (done || by apply de_ser_budget); simpl;
    rewrite ?(de_option_some ser_settings de_settings) by (done || by apply de_ser_settings); done.
Qed.
Lemma de_ser_event e : event_typed exact e → de_event (ser_event e) = Some e.
Proof using FL.
  destruct e as [i l t p le ib ps|t|t i| | |t r|s u|p|c|r u|r u k d|i c p s|i|i o|r];
    intros HT; [by apply de_ser_started|..]; unfold de_event, ser_event; simpl; try done.
  - serde_struct. read_back.
  - destruct i; by serde_struct.
  - destruct HT. serde_struct. read_back.
  - destruct HT. serde_struct. by rewrite de_ser_summary, de_ser_usage by done.
  - serde_struct. by rewrite de_ser_preparation.
  - serde_struct. by rewrite de_ser_composition.
  - destruct HT. serde_struct. by rewrite de_ser_response, de_ser_usage by done.
  - destruct HT as [Hu Hd]. unfold de_model_failed. destruct k as [[]|], d; serde_struct; rewrite de_ser_usage by done; simpl;
      rewrite ?(de_option_some ser_diagnostic de_diagnostic) by ((by destruct p) || by apply de_ser_diagnostic); done.
  - unfold de_tool_intent. destruct c, p, s; serde_struct;
      rewrite ?(de_option_some ser_effect_plan de_effect_plan) by ((by destruct e) || apply de_ser_effect_plan); done.
  - serde_struct. by rewrite de_ser_outcome.
  - serde_struct.
Qed.
Lemma de_ser_session_record r : record_typed exact r → de_record (ser_record r) = Some r.
Proof using FL.
  destruct r as [v i n b e]. intros (Hv & Hn & Hb & He). unfold de_record, ser_record. simpl in *. serde_struct.
  rewrite (de_ser_int 0 u32_modulus) by done. simpl. read_back.
  rewrite de_ser_budget by done. simpl. by rewrite de_ser_event.
Qed.
#[global] Instance record_serde : Serde SessionRecord := {| ser := ser_record; de := de_record |}.
#[global] Instance record_serde_laws : SerdeLaws SessionRecord (record_typed exact).
Proof using FL. intros r. apply de_ser_session_record. Qed.
End records.
