(* ===== verification/Replay.v ===== *)
(** Journal replay: [src/src/nano/replay.rs].  A session's state is a
    function of its records; a record that does not continue the session is
    refused. *)
From S2P Require Import Prelude Transact Text Wire Patch FileTools AgentData AgentWire Compaction.
#[local] Open Scope list_scope.

Definition JOURNAL_VERSION : Z := 1.
(** [FRAME_BYTES] of [src/src/nano/wire.rs] *)
Definition FRAME_BYTES : Z := 4096.

(** [valid_id] of [src/src/nano/journal.rs] *)
Definition id_char (c : ascii) : bool :=
  in_range 48 57 c || in_range 65 90 c || in_range 97 122 c || Ascii.eqb c "-" || Ascii.eqb c "_".
Definition valid_id (id : string) : bool :=
  negb (is_empty id) && (slen id <=? 96) && forallb id_char (lit id).
Definition digest_char (c : ascii) : bool := in_range 48 57 c || in_range 97 102 c.
Definition valid_digest (value : text) : bool := (len value =? 64) && forallb digest_char value.

Record Replay : Type := mk_replay {
  rp_sequence : Z;
  rp_session_id : string;
  rp_budget : Budget;
  rp_messages : list Message;
  rp_projection : option Preparation;
  rp_summary : option Summary;
  rp_end : option EndReason;
  rp_pending_effect : option string;
  rp_pending_requires_start : bool;
  rp_effect_started : bool;
  rp_unknown_effects : list string;
  rp_model_active : bool;
  rp_compaction_active : bool;
  rp_compaction_cut : option nat;
  rp_final_response_ready : bool;
  rp_latest_steering : option nat;
  rp_interactive : bool;
  rp_taskless : bool;
  rp_initial_model_turns : Z;
  rp_submitted : bool;
  rp_definition_completed : bool;
  rp_role_completed : option EndReason;
  rp_calls : list ToolCall }.
#[global] Instance Replay_eta : Eta Replay := λ r,
  mk_replay (rp_sequence r) (rp_session_id r) (rp_budget r) (rp_messages r) (rp_projection r) (rp_summary r) (rp_end r)
    (rp_pending_effect r) (rp_pending_requires_start r) (rp_effect_started r) (rp_unknown_effects r)
    (rp_model_active r) (rp_compaction_active r) (rp_compaction_cut r) (rp_final_response_ready r)
    (rp_latest_steering r) (rp_interactive r) (rp_taskless r) (rp_initial_model_turns r) (rp_submitted r)
    (rp_definition_completed r) (rp_role_completed r) (rp_calls r).
(** [Replay::default] *)
Definition default_replay : Replay :=
  mk_replay 0 "" default_budget [] None None None None false false [] false false None false None false false 0
    false false None [].

Definition none {A} (o : option A) : bool := match o with None => true | Some _ => false end.
Definition checkpoint_ready (r : Replay) : bool :=
  (0 <? rp_sequence r) && negb (rp_model_active r) && none (rp_pending_effect r) && bool_decide (rp_calls r = []).

(** ** Budgets *)
Definition regressed (before after : Budget) : bool :=
  negb ((b_model_turns before <=? b_model_turns after) && (b_tool_calls before <=? b_tool_calls after)
        && (b_retries before <=? b_retries after) && (b_elapsed_ms before <=? b_elapsed_ms after)
        && (b_reported_input before <=? b_reported_input after) && (b_reported_output before <=? b_reported_output after)
        && (b_estimated_input before <=? b_estimated_input after)
        && (b_estimated_output before <=? b_estimated_output after)).
(** The reservation of a provider attempt. *)
Definition expect_attempt (before after expected : Budget) : result Budget :=
  _ ← check ((b_reserved_input before =? 0) && (b_reserved_output before =? 0)
             && (0 <? b_reserved_input after) && (0 <? b_reserved_output after)) "Invalid provider usage reservation";
  Ok (expected <| b_model_turns := u64_inc (b_model_turns expected) |>
               <| b_reserved_input := b_reserved_input after |> <| b_reserved_output := b_reserved_output after |>).
Definition expected_budget (before after : Budget) (event : SessionEvent) : result Budget :=
  let expected := before <| b_elapsed_ms := b_elapsed_ms after |> <| b_no_progress := b_no_progress after |> in
  match event with
  | Started _ _ _ _ _ (Some inherited) _ =>
    _ ← check (bool_decide (before = default_budget) && (b_elapsed_ms inherited =? 0)
               && (b_reserved_input inherited =? 0) && (b_reserved_output inherited =? 0))
          "Invalid inherited session budget";
    Ok inherited
  | ModelStarted _ | CompactionStarted _ _ => expect_attempt before after expected
  | ModelCompleted _ usage | CompactionCompleted _ usage => Ok (charge usage (unreserve expected))
  | ModelFailed retryable usage _ _ =>
    _ ← check ((b_retries after =? b_retries before)
               || (retryable && (b_retries after =? u64_inc (b_retries before)))) "Invalid retry charge";
    Ok ((charge usage (unreserve expected)) <| b_retries := b_retries after |>)
  | ToolIntent _ _ _ _ => Ok (expected <| b_tool_calls := u64_inc (b_tool_calls expected) |>)
  | _ => Ok expected
  end.
Definition check_budget (before after : Budget) (event : SessionEvent) : result unit :=
  _ ← check (negb (regressed before after)) "Budget consumption regressed";
  expected ← expected_budget before after event;
  check (bool_decide (expected = after)) "Budget does not match recorded consumption".

Section replay.
Context {JT : JsonText} {SH : Sha256}.

(** ** Events *)
Definition apply_started (r : Replay) (after : Budget) (limits : SessionLimits) (input : string)
    (system_prompt : option string) (inherited : option Budget) : result Replay :=
  _ ← check ((rp_sequence r =? 0)
             && match inherited with None => bool_decide (after = default_budget) | Some b => bool_decide (after = b) end)
        "Duplicate or charged session start";
  _ ← check (session_limits_valid limits) "Session limits must be positive (retries may be zero)";
  _ ← check (saturating_add (slen input) (match system_prompt with Some p => slen p | None => 0 end) <=? l_context_bytes limits)
        "Session input exceeds its limit";
  let r := r <| rp_initial_model_turns := b_model_turns after |> in
  match system_prompt with
  | Some text =>
    _ ← check (negb (blank text)) "Empty system prompt";
    Ok (r <| rp_messages := rp_messages r ++ [MSystem text; MUser input] |>)
  | None => Ok (r <| rp_messages := rp_messages r ++ [MUser input] |>)
  end.
Definition apply_context_prepared (r : Replay) (p : Preparation) : result Replay :=
  _ ← check ((0 <? rp_sequence r) && checkpoint_ready r) "Context prepared inside an unfinished group";
  _ ← apply_preparation p (rp_messages r);
  _ ← check (bool_decide ((pp_projection p ≫= pj_summary) = rp_summary r))
        "Context projection does not match the compacted history";
  Ok (r <| rp_projection := Some p |>).
Definition apply_context_composed (r : Replay) (c : ContextComposition) : result Replay :=
  _ ← check (checkpoint_ready r && Nat.eqb (cc_history_messages c) (length (rp_messages r))
             && Nat.ltb 0 (cc_request_messages c)
             && Nat.leb (cc_stable_prefix_messages c) (cc_request_messages c)
             && (0 <? cc_input_tokens_estimated c) && (0 <? cc_output_tokens_reserved c)
             && (saturating_add (cc_input_tokens_estimated c) (cc_output_tokens_reserved c) <=? cc_context_window_tokens c))
        "Invalid context composition";
  Ok r.
Definition apply_model_started (r : Replay) (before after : Budget) (turn : Z) : result Replay :=
  _ ← check (checkpoint_ready r && none (rp_end r)) "Model started inside an unfinished group";
  _ ← check ((turn =? u64_inc (b_model_turns before)) && (b_model_turns after =? turn)) "Invalid model turn";
  Ok (r <| rp_model_active := true |> <| rp_final_response_ready := false |>).
Definition apply_user_input (r : Replay) (text : string) (input_id : option string) : result Replay :=
  _ ← check (checkpoint_ready r && rp_interactive r && negb (blank text) && (slen text <=? FRAME_BYTES)
             && match input_id with Some id => valid_id id | None => true end) "Invalid steering boundary";
  Ok (r <| rp_latest_steering := Some (length (rp_messages r)) |>
        <| rp_messages := rp_messages r ++ [MUser text] |> <| rp_final_response_ready := false |>).
Definition apply_interaction_opened (r : Replay) : result Replay :=
  _ ← check (checkpoint_ready r && negb (rp_interactive r)) "Invalid interaction activation";
  Ok (r <| rp_interactive := true |>).
Definition apply_input_requested (r : Replay) : result Replay :=
  let initial := rp_taskless r && (b_model_turns (rp_budget r) =? rp_initial_model_turns r) in
  _ ← check (checkpoint_ready r && (rp_final_response_ready r || initial) && rp_interactive r)
        "Input requested before an interactive final response";
  Ok r.
Definition apply_compaction_started (r : Replay) (before after : Budget) (turn : Z) (cut : nat) : result Replay :=
  _ ← check (checkpoint_ready r) "Compaction inside an unfinished group";
  _ ← check ((turn =? u64_inc (b_model_turns before)) && (b_model_turns after =? turn)) "Invalid compaction boundary";
  bs ← boundaries (rp_messages r);
  _ ← check (bool_decide (cut ∈ bs)) "Invalid compaction boundary";
  prefix ← prefix_len (rp_messages r);
  _ ← check (Nat.ltb prefix cut && match rp_latest_steering r with Some index => Nat.leb cut index | None => true end)
        "Invalid compaction boundary";
  Ok (r <| rp_model_active := true |> <| rp_compaction_active := true |> <| rp_compaction_cut := Some cut |>
        <| rp_final_response_ready := false |>).
Definition apply_model_completed (r : Replay) (response : ModelResponse) : result Replay :=
  _ ← check (rp_model_active r && negb (rp_compaction_active r) && bool_decide (rp_calls r = [])) "Unexpected model response";
  let r := r <| rp_model_active := false |> <| rp_final_response_ready := is_final response |> in
  let r := if decide (finish response = FinLength) then r else r <| rp_calls := rs_calls response |> in
  Ok (r <| rp_messages := rp_messages r ++ response_messages response |>).
Definition apply_compaction_completed (r : Replay) (summary : Summary) : result Replay :=
  _ ← check (rp_model_active r && rp_compaction_active r && bool_decide (rp_compaction_cut r = Some (retained_from summary))
             && match rp_summary r with Some old => Nat.ltb (retained_from old) (retained_from summary) | None => true end
             && Nat.leb (length (sm_handles summary)) 16) "Unexpected compaction result";
  _ ← check (forallb (λ h, bool_decide (h ∈ handles (rp_messages r))) (sm_handles summary))
        "Compaction handle does not match the journal";
  _ ← project (mk_projection (Some summary) [] 0 0 None) (rp_messages r);
  Ok (r <| rp_model_active := false |> <| rp_compaction_active := false |> <| rp_compaction_cut := None |>
        <| rp_summary := Some summary |>).
Definition apply_model_failed (r : Replay) : result Replay :=
  _ ← check (rp_model_active r) "Unexpected provider failure";
  Ok (r <| rp_model_active := false |> <| rp_compaction_active := false |> <| rp_compaction_cut := None |>
        <| rp_final_response_ready := false |>).

Definition call_name_of (tool_calls : Z) : string := "call-" +:+ display_u32 tool_calls.
Definition plan_ok (call : ToolCall) (plan : option EffectPlan) : bool :=
  match plan with
  | Some (EffectPatch files) =>
    String.eqb (tc_name call) "apply_patch" && negb (bool_decide (files = [])) && Nat.leb (length files) 16
    && forallb (λ f, negb (bool_decide (pf_path f = []))
                     && match pf_before_digest f with Some d => valid_digest d | None => true end
                     && match pf_after_digest f with Some d => valid_digest d | None => true end) files
  | None => true
  end.
Definition apply_tool_intent (r : Replay) (before after : Budget) (call_id : string) (call : ToolCall)
    (plan : option EffectPlan) (start_recorded : bool) : result Replay :=
  _ ← check (none (rp_pending_effect r) && bool_decide (head (rp_calls r) = Some call)) "Tool intent out of model order";
  _ ← check ((b_tool_calls after =? u64_inc (b_tool_calls before)) && String.eqb call_id (call_name_of (b_tool_calls after)))
        "Invalid tool call ID";
  _ ← check (plan_ok call plan) "Invalid patch effect plan";
  Ok (r <| rp_pending_effect := Some call_id |> <| rp_pending_requires_start := start_recorded |>
        <| rp_effect_started := false |> <| rp_submitted := false |>).
Definition apply_tool_started (r : Replay) (call_id : string) : result Replay :=
  _ ← check (bool_decide (rp_pending_effect r = Some call_id) && rp_pending_requires_start r && negb (rp_effect_started r))
        "Tool start has no matching unstarted intent";
  Ok (r <| rp_effect_started := true |>).

Definition says (field value : string) (outcome : ToolOutcome) : bool :=
  match outcome with Success v => is_str (index field v) value | _ => false end.
Definition confirms_submit (call : ToolCall) (outcome : ToolOutcome) : bool :=
  String.eqb (tc_name call) "submit" && says "status" "submitted" outcome && says "task_state" "reviewing" outcome.
Definition confirms_definition (taskless : bool) (call : ToolCall) (outcome : ToolOutcome) : bool :=
  taskless && existsb (String.eqb (tc_name call)) ["enqueue_task"; "create_spec"; "archive_spec"]
  && says "status" "definition_saved" outcome.
Definition confirms_role (call : ToolCall) (outcome : ToolOutcome) : option EndReason :=
  if String.eqb (tc_name call) "approve" && says "status" "approved" outcome then Some ReviewCompleted
  else if String.eqb (tc_name call) "reject" && says "status" "rejected" outcome then Some ReviewCompleted
  else if String.eqb (tc_name call) "respond_consult" && says "status" "consulted" outcome
  then Some ConsultationResponded else None.
Definition apply_tool_result (r : Replay) (call_id : string) (outcome : ToolOutcome) : result Replay :=
  _ ← check (bool_decide (rp_pending_effect r = Some call_id)) "Tool result has no matching intent";
  _ ← check (negb (rp_pending_requires_start r) || rp_effect_started r || outcome_failed outcome)
        "Unstarted tool cannot succeed or have an unknown effect";
  match rp_calls r with
  | [] => Err (Bail "Tool result has no queued call" [])
  | call :: calls =>
    Ok (r <| rp_calls := calls |>
          <| rp_submitted := confirms_submit call outcome |>
          <| rp_definition_completed := confirms_definition (rp_taskless r) call outcome |>
          <| rp_role_completed := confirms_role call outcome |>
          <| rp_messages := rp_messages r ++ [MTool (provider_call_id call) outcome] |>
          <| rp_unknown_effects := if outcome_unknown outcome then rp_unknown_effects r ++ [call_id] else rp_unknown_effects r |>
          <| rp_pending_effect := None |> <| rp_pending_requires_start := false |> <| rp_effect_started := false |>)
  end.
Definition apply_ended (r : Replay) (reason : EndReason) : result Replay :=
  let settled := none (rp_pending_effect r) && negb (rp_model_active r) in
  _ ← check (negb (bool_decide (reason = ReviewCompleted ∨ reason = ConsultationResponded))
             || (bool_decide (rp_role_completed r = Some reason) && negb (rp_taskless r) && settled))
        "Role completion requires a confirmed lifecycle effect";
  _ ← check (negb (bool_decide (reason = DefinitionCompleted))
             || (rp_definition_completed r && rp_taskless r && settled))
        "Definition finish requires a confirmed taskless authoring operation";
  _ ← check (negb (bool_decide (reason = EndSubmitted)) || (rp_submitted r && settled))
        "Submit finish requires a confirmed native handoff";
  _ ← check (negb (bool_decide (reason = ModelFinished)) || checkpoint_ready r) "Model finish inside an unfinished group";
  _ ← check (negb (bool_decide (reason = ModelFinished)) || (rp_final_response_ready r && negb (rp_interactive r)))
        "Model finish requires a completed headless final response";
  Ok (r <| rp_end := Some reason |>).

Definition apply_event (r : Replay) (before after : Budget) (event : SessionEvent) : result Replay :=
  match event with
  | Started _ limits input system_prompt _ inherited _ => apply_started r after limits input system_prompt inherited
  | ContextPrepared p => apply_context_prepared r p
  | ContextComposed c => apply_context_composed r c
  | ModelStarted turn => apply_model_started r before after turn
  | UserInput text input_id => apply_user_input r text input_id
  | InteractionOpened => apply_interaction_opened r
  | InputRequested => apply_input_requested r
  | CompactionStarted turn cut => apply_compaction_started r before after turn cut
  | ModelCompleted response _ => apply_model_completed r response
  | CompactionCompleted summary _ => apply_compaction_completed r summary
  | ModelFailed _ _ _ _ => apply_model_failed r
  | ToolIntent call_id call plan start => apply_tool_intent r before after call_id call plan start
  | ToolStarted call_id => apply_tool_started r call_id
  | ToolResult call_id outcome => apply_tool_result r call_id outcome
  | Ended reason => apply_ended r reason
  end.
(** The first record names the session. *)
Definition open_session (r : Replay) (record : SessionRecord) : result Replay :=
  if rp_sequence r =? 0 then
    match rec_event record with
    | Started identity _ _ _ _ _ _ =>
      _ ← check (String.eqb (id_session identity) (rec_session record)) "Journal must start with its session identity";
      Ok (r <| rp_session_id := rec_session record |> <| rp_taskless := none (id_task identity) |>)
    | _ => Err (Bail "Journal must start with its session identity" [])
    end
  else Ok r.
(** [Replay::apply].  The sequence counts the records applied so far, which
    are fewer than 2^64. *)
Definition apply (r : Replay) (record : SessionRecord) : result Replay :=
  _ ← check (rec_version record =? JOURNAL_VERSION) "Unsupported nano journal version";
  _ ← check (rec_sequence record =? rp_sequence r + 1) "Non-contiguous journal sequence";
  _ ← check (none (rp_end r)) "Event after session end";
  r ← open_session r record;
  _ ← check (String.eqb (rp_session_id r) (rec_session record)) "Journal session mismatch";
  _ ← check_budget (rp_budget r) (rec_budget record) (rec_event record);
  r ← apply_event r (rp_budget r) (rec_budget record) (rec_event record);
  Ok (r <| rp_budget := rec_budget record |> <| rp_sequence := rec_sequence record |>).
(** [Replay::from_records] *)
Fixpoint replay_from (r : Replay) (records : list SessionRecord) : result Replay :=
  match records with
  | [] => Ok r
  | record :: records => r ← apply r record; replay_from r records
  end.
Definition from_records (records : list SessionRecord) : result Replay := replay_from default_replay records.
End replay.
