(* ===== verification/ReplayTheorems.v ===== *)
(** What replay guarantees of every journal it accepts: the conversation is a
    sequence of complete groups whenever a checkpoint may be taken, and the
    budget is the sum of what the records charged.

    What a journal that replays says about the session it records: every
    effect has its own identifier and is resolved once and in order, and the
    budget is what the records charged. *)
From S2P Require Import Prelude Transact Wire Text Patch FileTools AgentData AgentWire Compaction Replay.
#[local] Open Scope list_scope.

(** ** Results *)
Lemma check_Ok b fmt u : check b fmt = Ok u ↔ b = true.
Proof. destruct b, u; unfold check; naive_solver. Qed.
Lemma bind_is_Ok {A B} (f : A → result B) (r : result A) b : r ≫= f = Ok b ↔ ∃ a, r = Ok a ∧ f a = Ok b.
Proof. destruct r; unfold mbind, result_bind; naive_solver. Qed.
Lemma check_run {A} b fmt (f : unit → result A) : b = true → check b fmt ≫= f = f tt.
Proof. by intros ->. Qed.
Lemma Ok_run {A B} (r : result A) (a : A) (f : A → result B) : r = Ok a → r ≫= f = f a.
Proof. by intros ->. Qed.
(** Opens a computation that returned. *)
Ltac ok_inv :=
  repeat match goal with
  | H : check _ _ = Ok _ |- _ => apply check_Ok in H
  | H : mbind _ _ = Ok _ |- _ => apply bind_is_Ok in H as (? & ? & H)
  | H : _ && _ = true |- _ => apply andb_true_iff in H as [? H]
  | H : negb _ = true |- _ => apply negb_true_iff in H
  | H : bool_decide _ = true |- _ => apply bool_decide_eq_true in H
  | H : (_ =? _) = true |- _ => apply Z.eqb_eq in H
  | H : (_ <? _) = true |- _ => apply Z.ltb_lt in H
  | H : (_ <=? _) = true |- _ => apply Z.leb_le in H
  | H : Nat.eqb _ _ = true |- _ => apply Nat.eqb_eq in H
  | H : Nat.ltb _ _ = true |- _ => apply Nat.ltb_lt in H
  | H : Nat.leb _ _ = true |- _ => apply Nat.leb_le in H
  | H : String.eqb _ _ = true |- _ => apply String.eqb_eq in H
  | H : Ok _ = Ok _ |- _ => injection H as H
  | H : Err _ = Ok _ |- _ => discriminate H
  end.

(** ** Groups of a conversation *)
Section groups.

Lemma boundary_fuel fuel fuel' index rest bs :
  boundary_loop fuel index rest = Ok bs → (fuel ≤ fuel')%nat → boundary_loop fuel' index rest = Ok bs.
Proof.
  revert fuel' index rest bs. induction fuel as [|fuel IH]; intros fuel' index rest bs H Hf.
  { destruct rest as [|[] rest]; try done. by destruct fuel'. }
  destruct rest as [|m rest]; [by destruct fuel'|]. destruct fuel' as [|fuel']; [lia|].
  destruct m as [t|t|r|i o]; simpl in H |- *; try done; ok_inv; subst.
  - by rewrite (IH fuel' _ _ _ ltac:(done)) by lia.
  - rewrite !check_run by done. by rewrite (IH fuel' _ _ _ ltac:(done)) by lia.
Qed.
Lemma answered_length calls rest : answered calls rest = true → (length calls ≤ length rest)%nat.
Proof.
  revert rest. induction calls as [|c calls IH]; intros rest; simpl; [lia|].
  destruct rest as [|[] rest]; try done. rewrite andb_true_iff. intros [_ ?%IH]. simpl. lia.
Qed.
Lemma answered_app calls rest more : answered calls rest = true → answered calls (rest ++ more) = true.
Proof.
  revert rest. induction calls as [|c calls IH]; intros rest; simpl; [done|].
  destruct rest as [|[] rest]; try done. simpl. rewrite !andb_true_iff. intros [? ?]. split; [done|auto].
Qed.
Lemma answered_snoc dn tools c o :
  answered dn tools = true → length tools = length dn →
  answered (dn ++ [c]) (tools ++ [MTool (provider_call_id c) o]) = true.
Proof.
  revert tools. induction dn as [|d dn IH]; intros tools H Hl; simpl in *.
  - destruct tools; [|done]. simpl. by rewrite String.eqb_refl.
  - destruct tools as [|[] tools]; try done. simpl in *. apply andb_true_iff in H as [-> H]. simpl. apply IH; [done|lia].
Qed.

Lemma boundaries_app fuel index a b bs :
  boundary_loop fuel index a = Ok bs →
  ∀ fuel', (length a + length b ≤ fuel')%nat →
  ∃ fuel2, (length b ≤ fuel2)%nat ∧
  boundary_loop fuel' index (a ++ b) = (bs' ← boundary_loop fuel2 (index + length a)%nat b; Ok (bs ++ bs')).
Proof.
  revert index a bs. induction fuel as [|fuel IH]; intros index a bs H fuel' Hf.
  { destruct a as [|[] a]; [|done..]. injection H as <-. exists fuel'. simpl. rewrite Nat.add_0_r. split; [simpl in *; lia|].
    by destruct (boundary_loop _ _ _). }
  destruct a as [|m a]; [injection H as <-; exists fuel'; simpl; rewrite Nat.add_0_r; split; [simpl in *; lia|];
    by destruct (boundary_loop _ _ _)|].
  destruct fuel' as [|fuel']; [simpl in *; lia|].
  destruct m as [t|t|r|i o]; simpl in H; try done; ok_inv; subst.
  - match goal with H : boundary_loop fuel _ a = _ |- _ =>
      destruct (IH _ _ _ H fuel' ltac:(simpl in *; lia)) as (f2 & Hf2 & E) end.
    exists f2. split; [done|]. simpl. rewrite E. rewrite <- Nat.add_succ_comm. simpl.
    by destruct (boundary_loop f2 _ b).
  - assert (length (rs_calls r) ≤ length a)%nat as Hl by (by apply answered_length).
    match goal with H : boundary_loop fuel _ (drop _ a) = _ |- _ =>
      destruct (IH _ _ _ H fuel' ltac:(simpl in *; rewrite length_drop; lia)) as (f2 & Hf2 & E) end.
    exists f2. split; [done|]. simpl.
    rewrite check_run.
    2: { apply orb_true_iff. left. apply Nat.ltb_lt. rewrite length_app. lia. }
    rewrite check_run by (by apply answered_app). rewrite drop_app_le by done. rewrite E.
    rewrite length_drop. replace (index + length (rs_calls r) + 1 + (length a - length (rs_calls r)))%nat
      with (index + S (length a))%nat by lia.
    by destruct (boundary_loop f2 (index + S (length a)) b).
Qed.
Lemma boundary_bounds fuel index rest bs k :
  boundary_loop fuel index rest = Ok bs → k ∈ bs → (index < k ≤ index + length rest)%nat.
Proof.
  revert index rest bs. induction fuel as [|fuel IH]; intros index rest bs H Hk.
  { destruct rest as [|[] rest]; try done. injection H as <-. by apply not_elem_of_nil in Hk. }
  destruct rest as [|[t|t|r|i o] rest]; simpl in H; try done; ok_inv; subst; [by apply not_elem_of_nil in Hk|..].
  - apply elem_of_cons in Hk as [->|Hk]; [simpl; lia|].
    match goal with H : boundary_loop fuel _ _ = _ |- _ => pose proof (IH _ _ _ H Hk) end. simpl. lia.
  - match goal with H : answered _ _ = true |- _ => apply answered_length in H end.
    apply elem_of_cons in Hk as [->|Hk]; [simpl; lia|].
    match goal with H : boundary_loop fuel _ _ = _ |- _ => pose proof (IH _ _ _ H Hk) as Hb end.
    rewrite length_drop in Hb. simpl. lia.
Qed.

(** A conversation after its prefix, with the calls that are still to be
    answered. *)
Inductive grouped : list Message → list ToolCall → Prop :=
  | grouped_nil : grouped [] []
  | grouped_user body t : grouped body [] → grouped (body ++ [MUser t]) []
  | grouped_assistant body r : grouped body [] → grouped (body ++ [MAssistant r]) (rs_calls r)
  | grouped_tool body c calls o : grouped body (c :: calls) → grouped (body ++ [MTool (provider_call_id c) o]) calls.

(** Groups that are all complete, the last one too. *)
Definition closes (a : list Message) : Prop := ∀ index, ∃ bs,
  boundary_loop (length a) index a = Ok bs ∧ (index + length a)%nat ∈ index :: bs.
Lemma closes_app a b : closes a → closes b → closes (a ++ b).
Proof.
  intros Ha Hb index. destruct (Ha index) as (bs & E & Hin).
  destruct (boundaries_app _ _ _ b _ E (length (a ++ b))) as (f2 & Hf2 & E'); [by rewrite length_app|].
  destruct (Hb (index + length a)%nat) as (bs' & Eb & Hin').
  rewrite (boundary_fuel _ f2 _ _ _ Eb Hf2) in E'. simpl in E'. exists (bs ++ bs'). split; [done|].
  rewrite length_app, Nat.add_assoc. apply elem_of_cons in Hin' as [Hz|Hin']; [|by right; apply elem_of_app; right].
  rewrite Hz. apply elem_of_cons in Hin as [->|?]; [left|right; apply elem_of_app; by left].
Qed.
Lemma closes_user t : closes [MUser t].
Proof. intros index. exists [S index]. simpl. rewrite Nat.add_1_r. split; [done|]. right. left. Qed.
Lemma closes_assistant r tools :
  answered (rs_calls r) tools = true → length tools = length (rs_calls r) → closes (MAssistant r :: tools).
Proof.
  intros Ha Hl index. exists [(index + length (rs_calls r) + 1)%nat]. simpl. rewrite check_run, check_run by
    (try done; apply orb_true_iff; left; apply Nat.ltb_lt; lia).
  rewrite drop_ge by lia. split; [by destruct tools|]. right. apply list_elem_of_singleton. lia.
Qed.
(** Complete groups, then perhaps one whose calls are answered up to [calls]. *)
Definition in_group (body : list Message) (calls : list ToolCall) : Prop :=
  ∃ a g, body = a ++ g ∧ closes a
    ∧ ((calls = [] ∧ g = [])
       ∨ (∃ r tools dn, g = MAssistant r :: tools ∧ rs_calls r = dn ++ calls ∧ answered dn tools = true
            ∧ length tools = length dn ∧ calls ≠ [])).
Lemma in_group_open a r tools dn calls :
  closes a → rs_calls r = dn ++ calls → answered dn tools = true → length tools = length dn →
  in_group (a ++ MAssistant r :: tools) calls.
Proof.
  intros Ha Hr Ht Hl. destruct calls as [|c calls].
  - exists (a ++ MAssistant r :: tools), []. rewrite app_nil_r in *. split_and!; [done| |by left].
    apply closes_app; [done|]. rewrite <- Hr in *. by apply closes_assistant.
  - exists a, (MAssistant r :: tools). split_and!; [done..|]. right. by exists r, tools, dn.
Qed.
Lemma grouped_in_group body calls : grouped body calls → in_group body calls.
Proof.
  induction 1 as [|body t _ (a & g & -> & Ha & Hg)|body r _ (a & g & -> & Ha & Hg)|body c calls o _ (a & g & -> & Ha & Hg)].
  - exists [], []. split_and!; [done| |by left]. intros index. exists []. simpl. rewrite Nat.add_0_r. split; [done|left].
  - destruct Hg as [[_ ->]|(? & ? & ? & _ & _ & _ & _ & ?)]; [|done]. rewrite app_nil_r.
    exists (a ++ [MUser t]), []. rewrite app_nil_r. split_and!; [done| |by left]. by apply closes_app, closes_user.
  - destruct Hg as [[_ ->]|(? & ? & ? & _ & _ & _ & _ & ?)]; [|done]. rewrite app_nil_r.
    by apply (in_group_open a r [] []).
  - destruct Hg as [[? _]|(r & tools & dn & -> & Hr & Ht & Hl & _)]; [done|].
    replace ((a ++ MAssistant r :: tools) ++ [MTool (provider_call_id c) o])
      with (a ++ MAssistant r :: (tools ++ [MTool (provider_call_id c) o])) by (by rewrite <- (assoc_L (++))).
    apply (in_group_open a r _ (dn ++ [c])); [done| | |].
    + by rewrite <- (assoc_L (++)).
    + by apply answered_snoc.
    + rewrite !length_app. simpl. lia.
Qed.

(** A conversation starts with the host's policy, if any, and the task. *)
Definition opening (pre : list Message) : Prop :=
  (∃ t, pre = [MUser t]) ∨ (∃ s t, pre = [MSystem s; MUser t]).
Lemma opening_prefix_len pre body : opening pre → prefix_len (pre ++ body) = Ok (length pre).
Proof. by intros [[t ->]|(s & t & ->)]. Qed.
Lemma grouped_boundaries pre body :
  opening pre → grouped body [] →
  ∃ bs, boundaries (pre ++ body) = Ok bs ∧ length (pre ++ body) ∈ bs ∧ length pre ∈ bs.
Proof.
  intros Hp (a & g & -> & Ha & [[_ ->]|(? & ? & ? & _ & _ & _ & _ & ?)])%grouped_in_group; [|done]. rewrite app_nil_r.
  destruct (Ha (length pre)) as (bs & E & Hin). exists (length pre :: bs). unfold boundaries.
  rewrite opening_prefix_len by done. simpl. rewrite drop_app_length.
  rewrite (boundary_fuel _ _ _ _ _ E) by (rewrite length_app; lia). simpl. rewrite length_app. split_and!; [done..|left].
Qed.
(** A boundary stays one when the conversation grows. *)
Lemma boundaries_grow messages more bs bs' k :
  boundaries messages = Ok bs → boundaries (messages ++ more) = Ok bs' → k ∈ bs → k ∈ bs'.
Proof.
  unfold boundaries. intros H H' Hk. ok_inv. subst.
  match goal with H : prefix_len messages = Ok ?x, H' : prefix_len (messages ++ more) = Ok ?y |- _ =>
    assert (y = x ∧ (x ≤ length messages)%nat) as [-> Hx] end.
  { unfold prefix_len in *. ok_inv. destruct messages as [|[] [|[] messages]]; simpl in *; try done;
      simpl in *; split; congruence || lia. }
  match goal with H : boundary_loop _ _ (drop _ messages) = Ok ?xs, H' : boundary_loop _ _ _ = Ok ?ys |- _ =>
    rewrite drop_app_le in H' by done;
    destruct (boundaries_app _ _ _ more _ H (length (messages ++ more))) as (f2 & _ & E);
      [rewrite length_app, length_drop; lia|]; rewrite E in H'; ok_inv; subst end.
  apply elem_of_cons in Hk as [->|Hk]; [left|right]. apply elem_of_app. by left.
Qed.
End groups.

(** ** The state of a running session *)
Section invariant.
Context {JT : JsonText} {SH : Sha256}.

Record running (r : Replay) : Prop := {
  rn_sequence : 0 < rp_sequence r;
  rn_messages : ∃ pre body, rp_messages r = pre ++ body ∧ opening pre ∧ grouped body (rp_calls r);
  rn_active : rp_model_active r = true → rp_calls r = [] ∧ rp_pending_effect r = None;
  rn_pending : rp_pending_effect r ≠ None → rp_calls r ≠ [];
  rn_started : rp_effect_started r = true → rp_pending_effect r ≠ None }.
Definition replay_ok (r : Replay) : Prop := r = default_replay ∨ running r.

Lemma checkpoint_ready_true r :
  checkpoint_ready r = true ↔
  0 < rp_sequence r ∧ rp_model_active r = false ∧ rp_pending_effect r = None ∧ rp_calls r = [].
Proof.
  unfold checkpoint_ready, none. rewrite !andb_true_iff, Z.ltb_lt, negb_true_iff, bool_decide_eq_true.
  destruct (rp_pending_effect r); naive_solver.
Qed.

(** What an accepted record implies of the state before it. *)
Lemma apply_Ok r record r' :
  apply r record = Ok r' →
  ∃ r1 r2, rec_version record = JOURNAL_VERSION ∧ rec_sequence record = rp_sequence r + 1 ∧ rp_end r = None
    ∧ open_session r record = Ok r1 ∧ rp_session_id r1 = rec_session record
    ∧ check_budget (rp_budget r1) (rec_budget record) (rec_event record) = Ok tt
    ∧ apply_event r1 (rp_budget r1) (rec_budget record) (rec_event record) = Ok r2
    ∧ r' = r2 <| rp_budget := rec_budget record |> <| rp_sequence := rec_sequence record |>.
Proof.
  unfold apply. intros H. ok_inv. subst.
  match goal with H : none _ = true |- _ => unfold none in H end. destruct (rp_end r) eqn:E; [done|].
  match goal with H : check_budget _ _ _ = Ok ?u |- _ => destruct u end.
  naive_solver.
Qed.
Lemma open_running r record r1 :
  0 < rp_sequence r → open_session r record = Ok r1 → r1 = r.
Proof. intros Hs H. unfold open_session in H. destruct (Z.eqb_spec (rp_sequence r) 0); [lia|]. by ok_inv. Qed.
Lemma open_default record r1 :
  open_session default_replay record = Ok r1 →
  ∃ identity l i p e b s, rec_event record = Started identity l i p e b s
    ∧ r1 = default_replay <| rp_session_id := rec_session record |> <| rp_taskless := none (id_task identity) |>.
Proof.
  unfold open_session. simpl. destruct (rec_event record); try done. intros H. ok_inv. subst. naive_solver.
Qed.

Lemma started_running r after limits input prompt inherited r2 n b :
  rp_messages r = [] → rp_calls r = [] → rp_pending_effect r = None → rp_effect_started r = false →
  apply_started r after limits input prompt inherited = Ok r2 → 0 < n →
  running (r2 <| rp_budget := b |> <| rp_sequence := n |>).
Proof.
  intros Hm Hc Hp Hs H Hn. unfold apply_started in H. ok_inv.
  assert (∃ pre, opening pre ∧ rp_messages r2 = pre ∧ rp_calls r2 = [] ∧ rp_pending_effect r2 = None
    ∧ rp_effect_started r2 = false) as (pre & Ho & Hmm & Hcc & Hpp & Hss).
  { destruct prompt as [p|]; ok_inv; subst; simpl; rewrite Hm; eexists; split_and!; try done;
      [right; by eexists _, _|left; by eexists]. }
  split; simpl; rewrite ?Hcc, ?Hpp, ?Hss; try done. exists pre, []. rewrite app_nil_r. split_and!; [done..|constructor].
Qed.

(** One event of a running session. *)
Lemma event_running r before after event r2 :
  running r → apply_event r before after event = Ok r2 → running r2.
Proof.
  intros [Hs (pre & body & Hm & Ho & Hg) Ha Hp Hst] H. destruct event; simpl in H;
    unfold apply_started, apply_context_prepared, apply_context_composed, apply_model_started, apply_user_input,
      apply_interaction_opened, apply_input_requested, apply_compaction_started, apply_model_completed,
      apply_compaction_completed, apply_model_failed, apply_tool_intent, apply_tool_started, apply_ended in H.
  all: ok_inv; subst; try (match goal with H : checkpoint_ready _ = true |- _ => apply checkpoint_ready_true in H as (? & ? & Hpe & Hce) end).
  all: try lia.
  all: try (split; simpl; eauto; fail).
  all: try (split; simpl; try done; [by exists pre, body|intros _; by rewrite Hpe, Hce]; fail).
  - split; simpl; eauto. exists pre, (body ++ [MUser t]). rewrite Hm, (assoc_L (++)). rewrite Hce in *.
    split_and!; [done..|by constructor].
  - destruct (Ha ltac:(done)) as [Hc Hpe]. rewrite Hc in Hg.
    destruct (decide (finish response = FinLength)) as [Hf|Hf]; split; simpl; try done; rewrite ?Hc, ?Hpe; try done.
    + unfold response_messages. rewrite decide_True by done. exists pre, ((body ++ [MAssistant (mk_response (finish response) (rs_text response) [] (rs_continuation response))]) ++ [MUser continuation_cue]).
      rewrite Hm, <-!(assoc_L (++)). split_and!; [done..|]. rewrite (assoc_L (++)). apply grouped_user.
      apply (grouped_assistant body (mk_response (finish response) (rs_text response) [] (rs_continuation response))), Hg.
    + unfold response_messages. rewrite decide_False by done. exists pre, (body ++ [MAssistant response]).
      rewrite Hm, (assoc_L (++)). split_and!; [done..|]. by constructor.
  - split; simpl; try done; [by exists pre, body| |].
    + intros Hact. destruct (Ha Hact) as [Hc _]. by rewrite Hc in *.
    + intros _. by destruct (rp_calls r).
  - split; simpl; try done; [by exists pre, body|congruence].
  - unfold apply_tool_result in H. ok_inv. destruct (rp_calls r) as [|c calls] eqn:Ec; [done|]. ok_inv. subst. split; simpl; try done.
    + exists pre, (body ++ [MTool (provider_call_id c) outcome]). rewrite Hm, (assoc_L (++)). split_and!; [done..|]. by constructor.
    + intros Hact. by destruct (Ha Hact).
Qed.
Lemma apply_running r record r' : replay_ok r → apply r record = Ok r' → running r'.
Proof.
  intros Hr (r1 & r2 & _ & Hseq & _ & Ho & _ & _ & He & ->)%apply_Ok. destruct Hr as [->|Hr].
  - apply open_default in Ho as (identity & l & i & p & e & b & s & Ee & ->). rewrite Ee in He.
    eapply started_running; [..|exact He|]; simpl in *; try done. lia.
  - apply open_running in Ho as ->; [|apply Hr]. apply event_running in He; [|done].
    destruct He as [? ? ? ? ?]. destruct Hr as [? _ _ _ _]. split; simpl; try done. lia.
Qed.
(** The events that begin and end a session. *)
Definition starts (event : SessionEvent) : bool := match event with Started _ _ _ _ _ _ _ => true | _ => false end.
Definition is_ended (ev : SessionEvent) : bool := match ev with Ended _ => true | _ => false end.
Lemma event_keeps r before after ev s :
  apply_event r before after ev = Ok s → starts ev = false → is_ended ev = false →
  rp_session_id s = rp_session_id r ∧ rp_end s = rp_end r ∧ rp_taskless s = rp_taskless r.
Proof.
  intros H Hs He. destruct ev; try done; simpl in H; unfold apply_context_prepared, apply_context_composed, apply_model_started,
    apply_user_input, apply_interaction_opened, apply_input_requested, apply_compaction_started, apply_model_completed,
    apply_compaction_completed, apply_model_failed, apply_tool_intent, apply_tool_started, apply_tool_result in H; ok_inv; subst; try done.
  - by destruct (decide _).
  - destruct (rp_calls r); [done|]. by ok_inv; subst.
Qed.
Lemma replay_from_snoc records record r :
  replay_from r (records ++ [record]) = (r' ← replay_from r records; apply r' record).
Proof.
  revert r. induction records as [|x records IH]; intros r; simpl; [by destruct (apply r record)|].
  destruct (apply r x); [apply IH|done].
Qed.
Lemma replay_from_ok records r r' : replay_ok r → replay_from r records = Ok r' → replay_ok r'.
Proof.
  revert r. induction records as [|x records IH]; intros r Hr H; simpl in H; [by simplify_eq|]. ok_inv.
  apply (IH x0); [right|done]. by eapply apply_running.
Qed.

(** The conversation of an accepted journal is a sequence of complete
    groups: whenever a checkpoint may be taken, every tool call of every
    response has been answered, in order and by its own provider id, so the
    whole conversation can be cut at a group boundary and sent. *)
Theorem replayed_conversation_is_grouped records r :
  from_records records = Ok r → checkpoint_ready r = true →
  ∃ bs, boundaries (rp_messages r) = Ok bs ∧ length (rp_messages r) ∈ bs.
Proof.
  intros H Hc. apply checkpoint_ready_true in Hc as (Hs & _ & _ & Hc).
  destruct (replay_from_ok records _ _ (or_introl eq_refl) H) as [->|Hr]; [done|].
  destruct (rn_messages _ Hr) as (pre & body & -> & Ho & Hg). rewrite Hc in Hg.
  destruct (grouped_boundaries pre body Ho Hg) as (bs & ? & ? & _). eauto.
Qed.
End invariant.

Section theorems.
Context {JT : JsonText} {SH : Sha256}.

(** A state that every record of an accepted journal keeps. *)
Lemma from_records_ind (P : list SessionRecord → Replay → Prop) :
  P [] default_replay →
  (∀ records r record r', from_records records = Ok r → P records r → apply r record = Ok r' → P (records ++ [record]) r') →
  ∀ records r, from_records records = Ok r → P records r.
Proof.
  intros H0 Hs records. induction records as [|record records IH] using rev_ind; intros r H.
  { unfold from_records in H. simpl in H. by simplify_eq. }
  unfold from_records in H. rewrite replay_from_snoc in H. ok_inv. eauto.
Qed.
Lemma from_records_ok records r : from_records records = Ok r → replay_ok r.
Proof. apply replay_from_ok. by left. Qed.

Lemma from_records_nil records : from_records records = Ok default_replay → records = [].
Proof.
  destruct records as [|record records] using rev_ind; [done|]. unfold from_records. rewrite replay_from_snoc. intros H. ok_inv.
  match goal with H : replay_from _ _ = Ok ?x |- _ => pose proof (from_records_ok _ _ H) as Hok end.
  apply apply_running in H; [|done]. by destruct H.
Qed.
Lemma apply_next r record r' :
  running r → apply r record = Ok r' →
  ∃ r2, starts (rec_event record) = false ∧ regressed (rp_budget r) (rec_budget record) = false
    ∧ expected_budget (rp_budget r) (rec_budget record) (rec_event record) = Ok (rec_budget record)
    ∧ apply_event r (rp_budget r) (rec_budget record) (rec_event record) = Ok r2
    ∧ r' = r2 <| rp_budget := rec_budget record |> <| rp_sequence := rec_sequence record |>.
Proof.
  intros Hr (r1 & r2 & _ & _ & _ & Ho & _ & Hb & He & ->)%apply_Ok. apply open_running in Ho as ->; [|apply Hr].
  unfold check_budget in Hb. ok_inv. subst. exists r2. split_and!; try done. destruct (rec_event record); try done.
  simpl in He. unfold apply_started in He. ok_inv. pose proof (rn_sequence _ Hr). lia.
Qed.
Lemma apply_first record r' :
  apply default_replay record = Ok r' → starts (rec_event record) = true ∧ rp_budget r' = rec_budget record ∧ rp_pending_effect r' = None.
Proof.
  intros (r1 & r2 & _ & _ & _ & Ho & _ & _ & He & ->)%apply_Ok. apply open_default in Ho as (i & l & t & p & e & b & s & E & ->).
  rewrite E in *. split_and!; try done. simpl in He. unfold apply_started in He. ok_inv. destruct p; ok_inv; by subst.
Qed.

(** ** Effects *)
Definition intent_id (record : SessionRecord) : option string :=
  match rec_event record with ToolIntent id _ _ _ => Some id | _ => None end.
Definition result_id (record : SessionRecord) : option string :=
  match rec_event record with ToolResult id _ => Some id | _ => None end.
Definition intents (records : list SessionRecord) : list string := omap intent_id records.
Definition results (records : list SessionRecord) : list string := omap result_id records.
(** What one record does to the pending effect. *)
Lemma apply_pending r record r' :
  running r → apply r record = Ok r' →
  match intent_id record, result_id record with
  | Some id, _ => rp_pending_effect r = None ∧ rp_pending_effect r' = Some id
  | None, Some id => rp_pending_effect r = Some id ∧ rp_pending_effect r' = None
  | None, None => rp_pending_effect r' = rp_pending_effect r
  end.
Proof.
  intros Hr (r2 & Hs & _ & _ & He & ->)%apply_next; [|done]. unfold intent_id, result_id.
  destruct (rec_event record); try done; simpl in He; unfold apply_context_prepared, apply_context_composed, apply_model_started,
    apply_user_input, apply_interaction_opened, apply_input_requested, apply_compaction_started, apply_model_completed,
    apply_compaction_completed, apply_model_failed, apply_tool_intent, apply_tool_started, apply_tool_result, apply_ended in He;
    ok_inv; subst; simpl; try done.
  - by destruct (decide _).
  - split; [|done]. match goal with H : none _ = true |- _ => unfold none in H; by destruct (rp_pending_effect r) end.
  - destruct (rp_calls r); [done|]. ok_inv. by subst.
Qed.

(** ** Charges *)
Definition attempts (event : SessionEvent) : Z :=
  match event with ModelStarted _ | CompactionStarted _ _ => 1 | _ => 0 end.
Definition calls_of (event : SessionEvent) : Z := match event with ToolIntent _ _ _ _ => 1 | _ => 0 end.
Definition usage_of (event : SessionEvent) : option Usage :=
  match event with
  | ModelCompleted _ u | CompactionCompleted _ u | ModelFailed _ u _ _ => Some u
  | _ => None
  end.
Definition charged (b : Budget) (event : SessionEvent) : Budget :=
  match usage_of event with Some u => charge u b | None => b end.
(** The token counters of a budget. *)
Definition tokens_used (b : Budget) : Z * Z * Z * Z :=
  (b_reported_input b, b_reported_output b, b_estimated_input b, b_estimated_output b).
Lemma charge_tokens u b b' : tokens_used b = tokens_used b' → tokens_used (charge u b) = tokens_used (charge u b').
Proof. unfold tokens_used, charge. intros H. injection H as ? ? ? ?. destruct (reported u); simpl; congruence. Qed.
Lemma inc_exact a b : u64 a → u64 b → a ≤ b → b = u64_inc a → b = a + 1.
Proof.
  unfold u64. intros Ha Hb Hle ->. destruct (decide (a = usize_max)) as [->|]; [|apply u64_inc_small; lia].
  exfalso. vm_compute in Hle. done.
Qed.
Lemma apply_charges r record r' :
  running r → apply r record = Ok r' → budget_typed (rp_budget r) → budget_typed (rec_budget record) →
  b_model_turns (rp_budget r') = b_model_turns (rp_budget r) + attempts (rec_event record)
  ∧ b_tool_calls (rp_budget r') = b_tool_calls (rp_budget r) + calls_of (rec_event record)
  ∧ tokens_used (rp_budget r') = tokens_used (charged (rp_budget r) (rec_event record)).
Proof.
  intros Hr (r2 & Hs & Hreg & Hexp & _ & ->)%apply_next Ht Ht'; [|done]. simpl.
  unfold regressed in Hreg. apply negb_false_iff in Hreg. ok_inv.
  assert (b_model_turns (rec_budget record) = b_model_turns (rp_budget r) + attempts (rec_event record)
    ∧ b_tool_calls (rec_budget record) = b_tool_calls (rp_budget r) + calls_of (rec_event record)) as [Hm Hc].
  { split.
    - destruct (rec_event record); try done; simpl in Hexp |- *; unfold expect_attempt in Hexp; ok_inv;
        try (rewrite <- Hexp; unfold charge, unreserve; repeat case_match; simpl; lia);
        apply inc_exact; try apply Ht; try apply Ht'; try done; rewrite <- Hexp; done.
    - destruct (rec_event record); try done; simpl in Hexp |- *; unfold expect_attempt in Hexp; ok_inv;
        try (rewrite <- Hexp; unfold charge, unreserve; repeat case_match; simpl; lia);
        apply inc_exact; try apply Ht; try apply Ht'; try done; rewrite <- Hexp; done. }
  split_and!; [done..|]. unfold charged, usage_of.
  destruct (rec_event record); try done; simpl in Hexp |- *; unfold expect_attempt in Hexp; ok_inv; rewrite <- Hexp; unfold charge, unreserve; repeat case_match; done.
Qed.

(** ** Theorems *)
Lemma call_name_inj m n : 0 ≤ m → 0 ≤ n → call_name_of m = call_name_of n → m = n.
Proof.
  intros Hm Hn H. unfold call_name_of in H. simpl in H. injection H as H. change (display_u32 m = display_u32 n) in H.
  pose proof (parse_digits_display m Hm) as E. rewrite H, (parse_digits_display n Hn) in E. by simplify_eq.
Qed.
Lemma intent_named r record r' id :
  running r → apply r record = Ok r' → intent_id record = Some id → id = call_name_of (b_tool_calls (rp_budget r')).
Proof.
  intros Hr (r2 & _ & _ & _ & He & ->)%apply_next Hid; [|done]. unfold intent_id in Hid. destruct (rec_event record); try done.
  simpl in He. unfold apply_tool_intent in He. ok_inv. simpl. congruence.
Qed.
Definition budgets_typed (records : list SessionRecord) : Prop := Forall (λ record, budget_typed (rec_budget record)) records.
(** A running session has its last record's budget. *)
Lemma from_records_typed records r : from_records records = Ok r → budgets_typed records → budget_typed (rp_budget r).
Proof.
  revert records r. apply (from_records_ind (λ records r, budgets_typed records → budget_typed (rp_budget r))).
  - intros _. split; simpl; unfold u64, usize_max; lia.
  - intros records r record r' _ _ (r1 & r2 & _ & _ & _ & _ & _ & _ & _ & ->)%apply_Ok [_ H]%Forall_app. simpl. by inversion H.
Qed.
Lemma intents_bounded records r :
  from_records records = Ok r → budgets_typed records →
  NoDup (intents records) ∧ ∀ id, id ∈ intents records → ∃ n, id = call_name_of n ∧ 0 ≤ n ≤ b_tool_calls (rp_budget r).
Proof.
  revert records r. apply (from_records_ind (λ records r, budgets_typed records → NoDup (intents records)
    ∧ ∀ id, id ∈ intents records → ∃ n, id = call_name_of n ∧ 0 ≤ n ≤ b_tool_calls (rp_budget r))).
  { intros _. split; [constructor|]. by intros id ?%not_elem_of_nil. }
  intros records r record r' Hf IH Ha Ht. pose proof Ht as [Htr Ht1]%Forall_app. destruct (IH Htr) as [Hnd Hall].
  destruct (from_records_ok _ _ Hf) as [->|Hr].
  { rewrite (from_records_nil _ Hf). destruct (apply_first _ _ Ha) as [Hs _]. unfold intents. simpl.
    assert (intent_id record = None) as -> by (unfold intent_id; by destruct (rec_event record)). split; [constructor|].
    by intros id ?%not_elem_of_nil. }
  assert (budget_typed (rec_budget record)) as Htb by (by inversion Ht1).
  destruct (apply_charges _ _ _ Hr Ha (from_records_typed _ _ Hf Htr) Htb) as (_ & Hc & _).
  destruct (bt_tool_calls _ (from_records_typed _ _ Hf Htr)). unfold intents in *. rewrite omap_app. simpl.
  assert (0 ≤ calls_of (rec_event record)) by (by destruct (rec_event record)).
  destruct (intent_id record) as [id|] eqn:Ei; simpl.
  2: { rewrite app_nil_r. split; [done|]. intros id Hid. destruct (Hall id Hid) as (n & -> & ?). exists n. split; [done|lia]. }
  pose proof (intent_named _ _ _ _ Hr Ha Ei) as ->.
  assert (calls_of (rec_event record) = 1) as Hone by (unfold intent_id in Ei; by destruct (rec_event record)). split.
  - apply NoDup_app. split_and!; [done| |apply NoDup_singleton]. intros id Hid Hin%list_elem_of_singleton. subst.
    destruct (Hall _ Hid) as (n & E & ?). apply call_name_inj in E; lia.
  - intros id [Hid|Hid%list_elem_of_singleton]%elem_of_app.
    + destruct (Hall id Hid) as (n & -> & ?). exists n. split; [done|lia].
    + exists (b_tool_calls (rp_budget r')). split; [done|lia].
Qed.
Lemma intents_results records r :
  from_records records = Ok r → intents records = results records ++ option_list (rp_pending_effect r).
Proof.
  revert records r. apply (from_records_ind (λ records r, intents records = results records ++ option_list (rp_pending_effect r))); [done|].
  intros records r record r' Hf IH Ha. unfold intents, results in *. rewrite !omap_app, IH. simpl.
  destruct (from_records_ok _ _ Hf) as [->|Hr].
  { destruct (apply_first _ _ Ha) as (Hs & _ & ->). unfold intent_id, result_id. by destruct (rec_event record). }
  pose proof (apply_pending _ _ _ Hr Ha) as Hp. destruct (intent_id record) as [id|] eqn:Ei, (result_id record) as [id'|] eqn:Er; simpl.
  - unfold intent_id, result_id in *. by destruct (rec_event record).
  - destruct Hp as [-> ->]. simpl. by rewrite !app_nil_r.
  - destruct Hp as [-> ->]. simpl. by rewrite !app_nil_r.
  - by rewrite Hp, !app_nil_r.
Qed.
(** C19. In every journal that replays, the effects are resolved once and in
    order: no two calls have the same identifier, and the results are those of
    the intents, in the same order, up to the one call that may still be
    pending. *)
Theorem effects_resolved_once records r :
  from_records records = Ok r → budgets_typed records →
  NoDup (intents records) ∧ intents records = results records ++ option_list (rp_pending_effect r).
Proof. intros H Ht. split; [by apply (intents_bounded records r)|by apply intents_results]. Qed.

Definition total (f : SessionEvent → Z) (records : list SessionRecord) : Z :=
  foldr (λ record n, f (rec_event record) + n) 0 records.
Lemma record_total_snoc f records record : total f (records ++ [record]) = total f records + f (rec_event record).
Proof. unfold total. induction records as [|x records IH]; simpl; [lia|]. rewrite IH. lia. Qed.
End theorems.
