(* ===== verification/Engine.v ===== *)
(** The session engine: [src/src/nano/engine.rs] and
    [src/src/nano/engine/capacity.rs].  A session alternates between requests
    to the model and the tools it calls; every step is committed to the
    journal before its effect.

    The provider, the tools, the host and the frontend are the class [Peers]:
    their state changes by what the engine asks of them and in no other way
    the engine could observe.  The clock and the cancellation flag are read at
    numbered moments; a future that was not ready when the deadline or the
    cancellation came is [None]. *)
From S2P Require Import Prelude Transact Text Wire Patch FileTools AgentData AgentWire Compaction Replay.
#[local] Open Scope list_scope.

(** ** What the engine talks to *)
(** [ValidatedCall] with its identifiers *)
Record Validated : Type := mk_validated {
  v_call_id : string;
  v_provider_call_id : string;
  v_call : ValidatedCall }.
Class Peers := {
  peer : Type;
  (** [Provider] *)
  settings : peer → option ProviderSettings;
  estimate_input_tokens : peer → ModelRequest → res ProviderError Z;
  provider_cancel : peer → peer;
  provider_start : ModelRequest → peer → option (res ProviderError unit) * peer;
  next_event : peer → option (res ProviderError (option ProviderEvent)) * peer;
  (** [Tools] *)
  prepare_context : list Message → peer → option (res ToolError (option Preparation)) * peer;
  tool_end_reason : peer → option EndReason;
  descriptors : peer → list ToolDescriptor;
  tool_validate : peer → string → json → res ToolError unit;
  tool_effect_plan : peer → Validated → option EffectPlan;
  tool_execute : Validated → peer → option ToolOutcome * peer;
  tool_interrupted : peer → option ToolOutcome * peer;
  tool_shutdown : peer → bool * peer;
  (** [Host] *)
  authorize : Validated → peer → option (res ToolError unit) * peer;
  host_committed : SessionRecord → peer → peer;
  (** the frontend's commands *)
  try_recv : peer → option SessionCommand * peer;
  recv : peer → option (option SessionCommand) * peer;
  (** [tokio::time::sleep], in milliseconds *)
  sleep : Z → peer → option unit * peer;
  (** [Instant::now] in nanoseconds, and whether the session was cancelled *)
  now : nat → Z;
  cancelled : nat → bool }.
(** [Journal]: whether it comes with a frontend, and its two operations. *)
Class Journal (J : Type) := {
  j_append : SessionEvent → Budget → J → result SessionRecord * J;
  j_checkpoint : J → result unit * J;
  j_commands : J → bool;
  j_interactive : J → bool }.

Section engine.
Context {FT : FloatText} {JT : JsonText} {SH : Sha256} {PE : Peers} {J : Type} {JO : Journal J}.

Record engine : Type := mk_engine {
  e_identity : SessionIdentity;
  e_limits : SessionLimits;
  e_peer : peer;
  e_journal : J;
  e_budget : Budget;
  e_messages : list Message;
  e_system_prompt : option string;
  e_interactive : bool;
  e_latest_steering : option nat;
  e_commands : bool;
  e_summary : option Summary;
  e_last_request : list Message;
  e_previous_call : option (string * json);
  e_started : option Z;
  e_launch_evidence : option LaunchEvidence;
  e_retryable_provider_failure : bool;
  e_cancelled : bool;
  e_tick : nat }.
#[global] Instance engine_eta : Eta engine := λ e,
  mk_engine (e_identity e) (e_limits e) (e_peer e) (e_journal e) (e_budget e) (e_messages e) (e_system_prompt e)
    (e_interactive e) (e_latest_steering e) (e_commands e) (e_summary e) (e_last_request e) (e_previous_call e)
    (e_started e) (e_launch_evidence e) (e_retryable_provider_failure e) (e_cancelled e) (e_tick e).

(** ** Code that may end the session *)
Inductive ctl (A : Type) : Type :=
  | Go (a : A)
  | Quit (reason : EndReason)
  | OutOfFuel.
#[global] Arguments Go {A} a.
#[global] Arguments Quit {A} reason.
#[global] Arguments OutOfFuel {A}.
Definition eng (A : Type) : Type := engine → ctl A * engine.
#[global] Instance eng_ret : MRet eng := λ A a e, (Go a, e).
#[global] Instance eng_bind : MBind eng := λ A B f m e,
  match m e with
  | (Go a, e') => f a e'
  | (Quit r, e') => (Quit r, e')
  | (OutOfFuel, e') => (OutOfFuel, e')
  end.
Definition quit {A} (r : EndReason) : eng A := λ e, (Quit r, e).
Definition look {A} (f : engine → A) : eng A := λ e, (Go (f e), e).
Definition update (f : engine → engine) : eng unit := λ e, (Go tt, f e).
Definition charge_budget (f : Budget → Budget) : eng unit := update (λ e, e <| e_budget := f (e_budget e) |>).
Definition or_quit {A} (r : res EndReason A) : eng A := match r with ROk a => mret a | RErr reason => quit reason end.
(** [if let Some(reason) = ... { return reason; }] *)
Definition stop_if (o : option EndReason) : eng unit := match o with Some r => quit r | None => mret tt end.
Definition on_peer {A} (f : peer → A * peer) : eng A := λ e, let '(a, p) := f (e_peer e) in (Go a, e <| e_peer := p |>).

(** ** Time *)
Definition instant : eng Z := λ e, (Go (now (e_tick e)), e <| e_tick := S (e_tick e) |>).
Definition is_cancelled_at (e : engine) (k : nat) : bool := e_cancelled e || cancelled k.
(** [interrupt]: a biased [select!] *)
Definition interrupt {A} (deadline : Z) (future : peer → option A * peer) : eng (res EndReason A) := λ e,
  let k := e_tick e in
  if is_cancelled_at e k then (Go (RErr EndCancelled), e <| e_tick := S k |>)
  else if deadline <=? now k then (Go (RErr (EndLimit LElapsed)), e <| e_tick := S k |>)
  else match future (e_peer e) with
       | (Some a, p) => (Go (ROk a), e <| e_peer := p |> <| e_tick := S k |>)
       | (None, p) =>
         (Go (RErr (if is_cancelled_at e (S k) then EndCancelled else EndLimit LElapsed)),
          e <| e_peer := p |> <| e_tick := S (S k) |>)
       end.
Definition stop_reason (e : engine) (deadline : Z) : option EndReason :=
  if is_cancelled_at e (e_tick e) then Some EndCancelled
  else if deadline <=? now (e_tick e) then Some (EndLimit LElapsed)
  else if l_tokens (e_limits e) <=? tokens (e_budget e) then Some (EndLimit LTokens)
  else if l_no_progress (e_limits e) <=? b_no_progress (e_budget e) then Some (EndLimit LNoProgress)
  else None.
(** [if let Some(reason) = self.stop(...) { return reason; }] *)
Definition stop (deadline : Z) : eng unit :=
  reason ← look (λ e, stop_reason e deadline);
  update (λ e, e <| e_tick := S (e_tick e) |>) ;;
  stop_if reason.

(** ** Committing *)
Definition millis_since (start instant : Z) : Z := Z.min usize_max ((instant - start) / 1000000).
Definition update_elapsed : eng unit :=
  t ← instant;
  update (λ e, e <| e_budget := (e_budget e) <| b_elapsed_ms :=
    match e_started e with Some start => millis_since start t | None => 0 end |> |>).
Definition is_started (event : SessionEvent) : bool := match event with Started _ _ _ _ _ _ _ => true | _ => false end.
Definition append (event : SessionEvent) : eng bool := λ e,
  match j_append event (e_budget e) (e_journal e) with
  | (Ok record, j) => (Go true, e <| e_journal := j |> <| e_peer := host_committed record (e_peer e) |>)
  | (Err _, j) => (Go false, e <| e_journal := j |>)
  end.
Definition commit (event : SessionEvent) : eng bool :=
  (if is_started event then mret tt else update_elapsed) ;; append event.
(** [if !self.commit(event) { return EndReason::JournalFailed; }] *)
Definition must_commit (event : SessionEvent) : eng unit :=
  committed ← commit event; if committed : bool then mret tt else quit JournalFailed.
Definition must_checkpoint : eng unit := λ e,
  match j_checkpoint (e_journal e) with
  | (Ok _, j) => (Go tt, e <| e_journal := j |>)
  | (Err _, j) => (Quit JournalFailed, e <| e_journal := j |>)
  end.
Definition record_failure (retryable : bool) (error : option ProviderError) : eng unit :=
  update (λ e, e <| e_retryable_provider_failure := retryable |>) ;;
  b ← look e_budget;
  let usage := mk_usage (b_reserved_input b) (b_reserved_output b) false in
  charge_budget (λ b, charge usage (unreserve b)) ;;
  must_commit (ModelFailed retryable usage (pe_kind <$> error) (error ≫= pe_diagnostic)).
Definition record_model_failure (retryable : bool) : eng unit := record_failure retryable None.

(** ** Capacity *)
Definition provider_failure (kind : ProviderErrorKind) : EndReason :=
  match kind with
  | KContextOverflow => EndLimit LContextTokens
  | KResponseLimit => EndLimit LResponseBytes
  | KProtocol | KUnsupported => ProviderProtocol
  | _ => ProviderFailed
  end.
Definition input_estimate (e : engine) (messages : list Message) (tools : list ToolDescriptor) (output : Z) :
  res EndReason (option Z) :=
  match estimate_input_tokens (e_peer e) (mk_request messages tools output) with
  | ROk estimate => ROk (Some estimate)
  | RErr error =>
    match pe_kind error with
    | KContextOverflow => ROk None
    | KProtocol | KUnsupported => RErr ProviderProtocol
    | _ => RErr ProviderFailed
    end
  end.
Definition margin (window : Z) : Z := Z.max 16 (Z.min 1024 (window / 20)).
Definition request_json (messages : list Message) (tools : list ToolDescriptor) : json :=
  JArr [ser_list ser_message messages; ser_list ser_descriptor tools].
Definition fits_bytes (e : engine) (messages : list Message) (tools : list ToolDescriptor) : bool :=
  bool_decide (is_Some (encode (request_json messages tools) (l_context_bytes (e_limits e)))).
Definition fits (e : engine) (messages : list Message) (tools : list ToolDescriptor) (output remaining window : Z)
    (estimate : option Z) : bool :=
  match estimate with
  | None => false
  | Some input =>
    fits_bytes e messages tools
    && (saturating_add (saturating_add input output) (margin window) <=? window)
    && (saturating_add input output <=? remaining)
  end.
Definition automatic (e : engine) : bool :=
  match settings (e_peer e) with Some s => none (ps_max_output_tokens s) | None => false end.
(** The rounds of the admission of a request. *)
Fixpoint admit_loop (rounds : nat) (e : engine) (messages : list Message) (tools : list ToolDescriptor)
    (output remaining window : Z) : res EndReason (res LimitKind (Z * Z)) :=
  match rounds with
  | O => ROk (RErr LContextTokens)
  | S rounds =>
    estimate ← input_estimate e messages tools output;
    match estimate with
    | None => ROk (RErr LContextTokens)
    | Some input =>
      if fits e messages tools output remaining window (Some input) then ROk (ROk (input, output)) else
      let reduced := Z.min output (saturating_sub remaining input) in
      if reduced =? 0 then ROk (RErr LTokens) else
      let reduced' := Z.min reduced (saturating_sub (saturating_sub window input) (margin window)) in
      if automatic e && (reduced' =? 0) then ROk (RErr LContextTokens) else
      let reduced := if automatic e then reduced' else reduced in
      if output <=? reduced then ROk (RErr LContextTokens)
      else admit_loop rounds e messages tools reduced remaining window
    end
  end.
Definition admit_request (e : engine) (messages : list Message) (tools : list ToolDescriptor) (output remaining window : Z) :
  res EndReason (res LimitKind (Z * Z)) :=
  if fits_bytes e messages tools then admit_loop 8 e messages tools output remaining window
  else ROk (RErr LContextBytes).
Definition output_reservation (e : engine) (remaining window : Z) : Z :=
  Z.min (Z.min (Z.min (l_response_bytes (e_limits e))
    (default usize_max (settings (e_peer e) ≫= ps_max_output_tokens))) (window / 4)) (remaining / 2).
Definition next_turn_limit (e : engine) : option EndReason :=
  if l_model_turns (e_limits e) <=? b_model_turns (e_budget e) then Some (EndLimit LModelTurns)
  else if saturating_sub (l_tokens (e_limits e)) (tokens (e_budget e)) <? 2 then Some (EndLimit LTokens)
  else None.
Definition remaining_tokens (e : engine) : Z := saturating_sub (l_tokens (e_limits e)) (tokens (e_budget e)).
Definition context_window (e : engine) : Z :=
  match settings (e_peer e) with
  | Some s => default usize_max (ps_context_tokens s)
  | None => l_context_bytes (e_limits e)
  end.

(** ** Planning a compaction *)
Record Capacity : Type := mk_capacity { cp_output : Z; cp_remaining : Z; cp_window : Z }.
Record CompactionPlan : Type := mk_plan {
  pn_summary : Summary;
  pn_request : ModelRequest;
  pn_input : Z;
  pn_summary_cap : Z }.
Definition context_error {A} (r : result A) : res EndReason A :=
  match r with Ok a => ROk a | Err _ => RErr (EndLimit LContextBytes) end.
Fixpoint repeat_x (n : nat) : string := match n with O => "" | S n => String "x"%char (repeat_x n) end.
(** Drops the oldest handles until their catalog fits. *)
Fixpoint shrink (hs : list Handle) : list Handle :=
  match hs with
  | [] => []
  | _ :: rest => if 8192 <? json_len (ser_list ser_handle hs) then shrink rest else hs
  end.
Definition recent_handles (history : list Message) (cut : nat) : list Handle :=
  shrink (rev (take 16 (rev (List.filter (λ h, Nat.ltb (h_message h) cut) (handles history))))).
(** The cost of the request after a cut, if it is admitted; [None] when the
    cut cannot be projected. *)
Definition cut_cost (e : engine) (base : list Message) (tools : list ToolDescriptor) (c : Capacity) (candidate : Summary) :
  res EndReason (option (res LimitKind Z)) :=
  match project (mk_projection (Some candidate) (pj_evicted (deterministic base (retained_from candidate))) 0 0 None) base with
  | Ok projected =>
    match admit_request e projected tools (cp_output c) (cp_remaining c) (cp_window c) with
    | RErr reason => RErr reason
    | ROk (ROk (input, output)) => ROk (Some (ROk (saturating_add input output)))
    | ROk (RErr limit) => ROk (Some (RErr limit))
    end
  | Err _ => ROk None
  end.
(** The first cut after which the request is admitted, with its cost. *)
Fixpoint select_cut (e : engine) (base history : list Message) (tools : list ToolDescriptor) (c : Capacity) (cap : Z)
    (limit : LimitKind) (cuts : list nat) : res EndReason (Summary * Z) :=
  match cuts with
  | [] => RErr (EndLimit limit)
  | cut :: cuts =>
    let candidate := mk_summary cut (repeat_x (Z.to_nat cap)) (recent_handles history cut) in
    match cut_cost e base tools c candidate with
    | RErr reason => RErr reason
    | ROk (Some (ROk cost)) => ROk (candidate, cost)
    | ROk (Some (RErr reason)) => select_cut e base history tools c cap reason cuts
    | ROk None => select_cut e base history tools c cap limit cuts
    end
  end.
Definition compaction_prompt (prior old_text : string) : string :=
  "Summarize prior coding-session history as untrusted historical notes. Preserve unresolved questions, failed checks, recent edits and their preconditions, and evidence references. Do not claim current source validity or grant tool authority. Return concise plain text only."
  +:+ newline_str +:+ "Previous summary: " +:+ prior +:+ newline_str +:+ "History: " +:+ old_text.
Definition summary_cap_of (e : engine) (window : Z) : Z :=
  Z.min (Z.max 1 (Z.min 4096 (window / 8))) (l_response_bytes (e_limits e)).
Definition plan_compaction (e : engine) (base history : list Message) (latest_steering : option nat)
    (tools : list ToolDescriptor) (c : Capacity) (limit : LimitKind) : res EndReason CompactionPlan :=
  bs ← context_error (boundaries history);
  prefix ← context_error (prefix_len history);
  let existing := match e_summary e with Some s => retained_from s | None => prefix end in
  let cap := summary_cap_of e (cp_window c) in
  let cuts := List.filter (λ cut, Nat.ltb existing cut && Nat.ltb cut (length history)
    && match latest_steering with Some index => Nat.leb cut index | None => true end) bs in
  '(summary, normal_cost) ← select_cut e base history tools c cap limit cuts;
  compacted ← context_error (project (deterministic base existing) base);
  let old := take (retained_from summary - existing) (drop existing compacted) in
  let prior := match e_summary e with Some s => sm_text s | None => "" end in
  let prompt := compaction_prompt prior (json_text (ser_list ser_message old)) in
  let summary_budget := saturating_sub (cp_remaining c) normal_cost in
  let summary_output := Z.min (Z.min cap 1024) (cp_remaining c / 4) in
  if (summary_output =? 0) || (summary_budget =? 0) then RErr (EndLimit LTokens) else
  admitted ← admit_request e [MUser prompt] [] summary_output summary_budget (cp_window c);
  match admitted with
  | RErr kind => RErr (EndLimit kind)
  | ROk (input, output) =>
    if l_model_turns (e_limits e) <=? saturating_add (b_model_turns (e_budget e)) 1 then RErr (EndLimit LModelTurns)
    else ROk (mk_plan summary (mk_request [MUser prompt] [] output) input cap)
  end.
Definition input_capacity (e : engine) (text : string) : res EndReason unit :=
  match next_turn_limit e with
  | Some reason => RErr reason
  | None =>
    let messages := e_messages e ++ [MUser text] in
    prefix ← context_error (prefix_len messages);
    let projection := deterministic messages match e_summary e with Some s => retained_from s | None => prefix end in
    projected ← context_error (project (projection <| pj_summary := e_summary e |>) messages);
    let remaining := remaining_tokens e in
    let window := context_window e in
    let output := output_reservation e remaining window in
    if output =? 0 then RErr (EndLimit LTokens) else
    let tools := descriptors (e_peer e) in
    admitted ← admit_request e projected tools output remaining window;
    match admitted with
    | ROk _ => ROk tt
    | RErr limit =>
      _ ← plan_compaction e messages messages (Some (length messages - 1)%nat) tools
            (mk_capacity output remaining window) limit;
      ROk tt
    end
  end.

(** ** Input of the frontend *)
Definition steering_ok (text : string) (input_id : option string) : bool :=
  negb (blank text) && (slen text <=? FRAME_BYTES) && match input_id with Some id => valid_id id | None => true end.
Definition open_interaction : eng unit :=
  interactive ← look e_interactive;
  if interactive : bool then mret tt
  else must_commit InteractionOpened ;; update (λ e, e <| e_interactive := true |>).
Definition accept_steering (text : string) (input_id : option string) : eng bool :=
  if steering_ok text input_id then
    capacity ← look (λ e, input_capacity e text);
    or_quit capacity ;;
    previous_no_progress ← look (λ e, b_no_progress (e_budget e));
    charge_budget (λ b, b <| b_no_progress := 0 |>) ;;
    committed ← commit (UserInput text input_id);
    if committed : bool then
      update (λ e, e <| e_previous_call := None |> <| e_latest_steering := Some (length (e_messages e)) |>
                     <| e_messages := e_messages e ++ [MUser text] |>) ;;
      must_checkpoint ;; mret true
    else charge_budget (λ b, b <| b_no_progress := previous_no_progress |>) ;; quit JournalFailed
  else quit ProviderProtocol.
Definition accept_input (command : SessionCommand) : eng bool :=
  match command with
  | CmdCancel | CmdStart _ => quit EndCancelled
  | CmdInteract => open_interaction ;; mret false
  | CmdSteer text input_id => open_interaction ;; accept_steering text input_id
  end.
Definition poll_command : eng (option SessionCommand) :=
  connected ← look e_commands; if connected : bool then on_peer try_recv else mret None.
Fixpoint drain_loop (n : nat) (accepted : bool) : eng bool :=
  match n with
  | O => mret accepted
  | S n =>
    command ← poll_command;
    match command with
    | None => mret accepted
    | Some command => a ← accept_input command; drain_loop n (accepted || a)
    end
  end.
Definition drain_input : eng bool := drain_loop 8 false.
(** [patience] bounds the commands that are received without being input. *)
Fixpoint wait_for_input (patience : nat) (deadline : Z) : eng unit :=
  match patience with
  | O => λ e, (OutOfFuel, e)
  | S patience =>
    connected ← look e_commands;
    if connected : bool then
      received ← interrupt deadline recv;
      match received with
      | ROk (Some command) => a ← accept_input command; if a : bool then mret tt else wait_for_input patience deadline
      | ROk None => quit EndCancelled
      | RErr reason => quit reason
      end
    else quit EndCancelled
  end.

(** ** Compaction *)
Fixpoint stable_prefix (old new : list Message) : nat :=
  match old, new with
  | a :: old, b :: new => if decide (a = b) then S (stable_prefix old new) else O
  | _, _ => O
  end.
Definition delta_of (event : ProviderEvent) : option string :=
  match event with TextDelta t | ArgumentsDelta t => Some t | Completed _ _ => None end.
Definition cancel_provider : eng unit := update (λ e, e <| e_peer := provider_cancel (e_peer e) |>).
(** The loop of [compact] over the provider's events. *)
Fixpoint summary_stream (fuel : nat) (deadline cap streamed : Z) : eng (res EndReason (ModelResponse * option Usage * Z)) :=
  match fuel with
  | O => λ e, (OutOfFuel, e)
  | S fuel =>
    event ← interrupt deadline next_event;
    match event with
    | RErr reason => mret (RErr reason)
    | ROk (RErr error) =>
      cancel_provider ;; record_failure (pe_retryable error) (Some error) ;; quit (provider_failure (pe_kind error))
    | ROk (ROk None) => mret (RErr ProviderProtocol)
    | ROk (ROk (Some (Completed response usage))) => mret (ROk (response, usage, streamed))
    | ROk (ROk (Some (TextDelta text))) | ROk (ROk (Some (ArgumentsDelta text))) =>
      let streamed := saturating_add streamed (Z.max (slen text) 1) in
      if cap <? streamed then mret (RErr (EndLimit LResponseBytes)) else summary_stream fuel deadline cap streamed
    end
  end.
Definition reserve (input output : Z) : eng unit :=
  charge_budget (λ b, b <| b_model_turns := u64_inc (b_model_turns b) |>
                        <| b_reserved_input := input |> <| b_reserved_output := output |>).
Definition compose_compaction (plan : CompactionPlan) (window : Z) : eng unit :=
  composition ← look (λ e, mk_composition (length (e_messages e)) (length (rq_messages (pn_request plan)))
    (stable_prefix (e_last_request e) (rq_messages (pn_request plan))) (pn_input plan)
    (max_output_tokens (pn_request plan)) window 0 (negb (none (e_summary e))) None);
  must_commit (ContextComposed composition) ;;
  update (λ e, e <| e_last_request := rq_messages (pn_request plan) |>) ;;
  reserve (pn_input plan) (max_output_tokens (pn_request plan)) ;;
  turn ← look (λ e, b_model_turns (e_budget e));
  must_commit (CompactionStarted turn (retained_from (pn_summary plan))).
Definition begin_request (deadline : Z) (request : ModelRequest) : eng unit :=
  started ← interrupt deadline (provider_start request);
  match started with
  | ROk (ROk _) => mret tt
  | ROk (RErr error) => record_failure (pe_retryable error) (Some error) ;; quit (provider_failure (pe_kind error))
  | RErr reason => record_model_failure false ;; quit reason
  end.
Definition failed_attempt {A} (reason : EndReason) : eng A := record_model_failure false ;; quit reason.
Definition summary_of (cap : Z) (completed : res EndReason (ModelResponse * option Usage * Z)) :
  eng (ModelResponse * option Usage * Z) :=
  match completed with
  | RErr reason => failed_attempt reason
  | ROk (response, usage, streamed) =>
    if negb (bool_decide (finish response = FinStop)) || negb (bool_decide (rs_calls response = []))
       || blank (rs_text response)
    then failed_attempt ProviderProtocol
    else
      limits ← look e_limits;
      if (cap <? slen (rs_text response)) || none (encode (ser_response response) (l_response_bytes limits))
      then failed_attempt (EndLimit LResponseBytes) else mret (response, usage, streamed)
  end.
Definition compact (base : list Message) (tools : list ToolDescriptor) (c : Capacity) (limit : LimitKind) (deadline : Z) :
  eng Summary :=
  planned ← look (λ e, plan_compaction e base (e_messages e) (e_latest_steering e) tools c limit);
  plan ← or_quit planned;
  compose_compaction plan (cp_window c) ;;
  begin_request deadline (pn_request plan) ;;
  completed ← summary_stream (Z.to_nat (pn_summary_cap plan) + 2) deadline (pn_summary_cap plan) 0;
  cancel_provider ;;
  '(response, reported, streamed) ← summary_of (pn_summary_cap plan) completed;
  let usage := default (mk_usage (pn_input plan) (Z.max streamed (slen (rs_text response))) false) reported in
  charge_budget (λ b, charge usage (unreserve b)) ;;
  let summary := mk_summary (retained_from (pn_summary plan)) (rs_text response) (sm_handles (pn_summary plan)) in
  update (λ e, e <| e_retryable_provider_failure := false |>) ;;
  must_commit (CompactionCompleted summary usage) ;;
  must_checkpoint ;;
  update (λ e, e <| e_summary := Some summary |>) ;;
  mret summary.

(** ** One turn: the request *)
Record draft : Type := mk_draft {
  dr_had : bool;
  dr_preparation : Preparation;
  dr_committed : option Preparation;
  dr_base : list Message;
  dr_messages : list Message;
  dr_tools : list ToolDescriptor;
  dr_capacity : Capacity;
  dr_admitted : res LimitKind (Z * Z) }.
Definition projection_of (s : Summary) : Projection := mk_projection (Some s) [] 0 0 None.
Definition tool_names_ok (tools : list ToolDescriptor) : bool :=
  forallb (λ t, negb (is_empty (td_name t))) tools && distinct (td_name <$> tools).
Definition request_preparation (deadline : Z) : eng (option Preparation) :=
  messages ← look e_messages;
  prepared ← interrupt deadline (prepare_context messages);
  match prepared with
  | ROk (ROk preparation) => mret preparation
  | ROk (RErr Denied) => quit AuthorityLost
  | ROk (RErr Interrupted) => quit EndCancelled
  | ROk (RErr _) => quit (EndLimit LContextBytes)
  | RErr reason => quit reason
  end.
Definition admit_now (messages : list Message) (tools : list ToolDescriptor) (c : Capacity) :
  eng (res LimitKind (Z * Z)) :=
  admitted ← look (λ e, admit_request e messages tools (cp_output c) (cp_remaining c) (cp_window c));
  or_quit admitted.
Definition project_now (preparation : Preparation) : eng (list Message) :=
  projected ← look (λ e, apply_preparation preparation (e_messages e));
  or_quit (context_error projected).
(** The request with the summary so far. *)
Definition draft_request (deadline : Z) : eng draft :=
  prepared ← request_preparation deadline;
  let preparation := default default_preparation prepared in
  if negb (none (pp_projection preparation)) then quit (EndLimit LContextBytes) else
  base ← project_now preparation;
  tools ← look (λ e, descriptors (e_peer e));
  if negb (tool_names_ok tools) then quit ProviderProtocol else
  c ← look (λ e, mk_capacity (output_reservation e (remaining_tokens e) (context_window e)) (remaining_tokens e) (context_window e));
  if cp_output c =? 0 then quit (EndLimit LTokens) else
  summary ← look e_summary;
  let preparation := match summary with
    | Some s => preparation <| pp_projection := Some (projection_of s) |>
    | None => preparation
    end in
  (if none prepared then mret tt else must_commit (ContextPrepared preparation)) ;;
  messages ← project_now preparation;
  admitted ← admit_now messages tools c;
  mret (mk_draft (negb (none prepared)) preparation (if none prepared then None else Some preparation) base messages tools c admitted).
(** Without room, old outputs are replaced by handles. *)
Definition evict_outputs (d : draft) : eng draft :=
  match dr_admitted d with
  | ROk _ => mret d
  | RErr _ =>
    prefix ← or_quit (context_error (prefix_len (dr_base d)));
    summary ← look e_summary;
    let projection := deterministic (dr_base d) match summary with Some s => retained_from s | None => prefix end in
    let preparation := (dr_preparation d) <| pp_projection := Some (projection <| pj_summary := summary |>) |> in
    messages ← project_now preparation;
    admitted ← admit_now messages (dr_tools d) (dr_capacity d);
    mret (mk_draft (dr_had d) preparation (dr_committed d) (dr_base d) messages (dr_tools d) (dr_capacity d) admitted)
  end.
(** Without room still, history is summarized. *)
Definition summarize (deadline : Z) (d : draft) : eng draft :=
  match dr_admitted d with
  | ROk _ => mret d
  | RErr limit =>
    summary ← compact (dr_base d) (dr_tools d) (dr_capacity d) limit deadline;
    remaining ← look remaining_tokens;
    let output := Z.min (cp_output (dr_capacity d)) (remaining / 2) in
    if output =? 0 then quit (EndLimit LTokens) else
    let c := mk_capacity output remaining (cp_window (dr_capacity d)) in
    let projection := (default default_projection (pp_projection (dr_preparation d)))
      <| pj_evicted := pj_evicted (deterministic (dr_base d) (retained_from summary)) |> <| pj_summary := Some summary |> in
    let preparation := (dr_preparation d) <| pp_projection := Some projection |> in
    messages ← project_now preparation;
    admitted ← admit_now messages (dr_tools d) c;
    mret (mk_draft (dr_had d) preparation (dr_committed d) (dr_base d) messages (dr_tools d) c admitted)
  end.
Definition messages_len (messages : list Message) : Z := json_len (ser_list ser_message messages).
Definition measured (d : draft) : Preparation :=
  match pp_projection (dr_preparation d) with
  | Some p =>
    (dr_preparation d) <| pp_projection := Some
      (p <| pj_original_bytes := messages_len (dr_base d) |> <| pj_projected_bytes := messages_len (dr_messages d) |>
         <| pj_changed_from := match pj_evicted p with
              | h :: _ => Some (h_message h)
              | [] => if none (pj_summary p) then None else Some 1%nat
              end |>) |>
  | None => dr_preparation d
  end.
Definition composition_of (e : engine) (d : draft) (preparation : Preparation) (input output : Z) (elapsed : Z) :
  ContextComposition :=
  mk_composition (length (e_messages e)) (length (dr_messages d)) (stable_prefix (e_last_request e) (dr_messages d))
    input output (cp_window (dr_capacity d))
    (match pp_projection preparation with Some p => length (pj_evicted p) | None => 0%nat end)
    (match pp_projection preparation with Some p => negb (none (pj_summary p)) | None => false end) (Some elapsed).
(** Commits the request and the reservation it needs. *)
Definition compose (deadline assembly_start : Z) (d : draft) : eng (ModelRequest * Z) :=
  match dr_admitted d with
  | RErr limit => quit (EndLimit limit)
  | ROk (input, output) =>
    stop deadline ;;
    let preparation := measured d in
    t ← instant;
    composition ← look (λ e, composition_of e d preparation input output (millis_since assembly_start t));
    (if (dr_had d || negb (none (pp_projection preparation)))
        && negb (bool_decide (dr_committed d = Some preparation))
     then must_commit (ContextPrepared preparation) else mret tt) ;;
    must_commit (ContextComposed composition) ;;
    update (λ e, e <| e_last_request := dr_messages d |>) ;;
    reserve input output ;;
    turn ← look (λ e, b_model_turns (e_budget e));
    must_commit (ModelStarted turn) ;;
    mret (mk_request (dr_messages d) (dr_tools d) output, input)
  end.

(** ** One turn: the response *)
Fixpoint model_stream (fuel : nat) (deadline streamed : Z) : eng (res ProviderError (ModelResponse * option Usage) * Z) :=
  match fuel with
  | O => λ e, (OutOfFuel, e)
  | S fuel =>
    event ← interrupt deadline next_event;
    match event with
    | RErr reason => failed_attempt reason
    | ROk (RErr error) => mret (RErr error, streamed)
    | ROk (ROk None) => failed_attempt ProviderProtocol
    | ROk (ROk (Some (Completed response usage))) => mret (ROk (response, usage), streamed)
    | ROk (ROk (Some (TextDelta text))) | ROk (ROk (Some (ArgumentsDelta text))) =>
      let streamed := saturating_add streamed (Z.max (slen text) 1) in
      limits ← look e_limits;
      if l_response_bytes limits <? streamed then failed_attempt (EndLimit LResponseBytes)
      else model_stream fuel deadline streamed
    end
  end.
Definition ask_model (deadline : Z) (request : ModelRequest) : eng (res ProviderError (ModelResponse * option Usage) * Z) :=
  limits ← look e_limits;
  started ← interrupt deadline (provider_start request);
  match started with
  | RErr reason => failed_attempt reason
  | ROk (RErr error) => mret (RErr error, 0)
  | ROk (ROk _) => model_stream (Z.to_nat (l_response_bytes limits) + 2) deadline 0
  end.
Definition backoff (retries retry_after_ms : Z) : Z :=
  Z.min 30000 (Z.max (Z.min usize_max (250 * 2 ^ Z.min retries 6)) retry_after_ms).
(** A failed attempt; [continue] after the pause. *)
Definition retry_later (deadline : Z) (error : ProviderError) : eng unit :=
  retry ← look (λ e, pe_retryable error && (b_retries (e_budget e) <? l_retries (e_limits e)));
  (if retry : bool then charge_budget (λ b, b <| b_retries := u64_inc (b_retries b) |>) else mret tt) ;;
  record_failure (pe_retryable error) (Some error) ;;
  if negb (pe_retryable error) then quit (provider_failure (pe_kind error)) else
  if negb retry then quit (EndLimit LRetries) else
  retries ← look (λ e, b_retries (e_budget e));
  slept ← interrupt deadline (sleep (backoff retries (pe_retry_after_ms error)));
  match slept with ROk _ => mret tt | RErr reason => quit reason end.
Definition idle_response (response : ModelResponse) : bool :=
  bool_decide (finish response = FinLength) || (bool_decide (rs_calls response = []) && blank (rs_text response)).
(** Charges and commits a response. *)
Definition settle_response (response : ModelResponse) (reported : option Usage) (input streamed : Z) : eng unit :=
  limits ← look e_limits;
  match encode (ser_response response) (l_response_bytes limits) with
  | None => failed_attempt (EndLimit LResponseBytes)
  | Some bytes =>
    let usage := default (mk_usage input (Z.max streamed (slen bytes)) false) reported in
    charge_budget (λ b, charge usage (unreserve b)) ;;
    update (λ e, e <| e_retryable_provider_failure := false |>) ;;
    (if idle_response response then charge_budget (λ b, b <| b_no_progress := u64_inc (b_no_progress b) |>) else mret tt) ;;
    must_commit (ModelCompleted response usage)
  end.

(** ** One turn: the tools *)
Definition validate_call (e : engine) (call_id : string) (call : ToolCall) (names : list string) : res ToolError Validated :=
  if negb (existsb (String.eqb (tc_name call)) names) then RErr UnknownTool else
  match from_str (tc_arguments call) with
  | None => RErr InvalidArguments
  | Some arguments =>
    if negb (is_object arguments) then RErr InvalidArguments else
    _ ← tool_validate (e_peer e) (tc_name call) arguments;
    ROk (mk_validated call_id (provider_call_id call) (mk_call (tc_name call) arguments))
  end.
(** The outcome of a call, and why the session must stop. *)
Definition perform (deadline : Z) (call_id : string) (validated : res ToolError Validated) :
  eng (ToolOutcome * option EndReason) :=
  match validated with
  | RErr error => mret (OutcomeFailed error, None)
  | ROk v =>
    authorized ← interrupt deadline (authorize v);
    match authorized with
    | RErr reason => mret (OutcomeFailed Interrupted, Some reason)
    | ROk (RErr error) => mret (OutcomeFailed error, None)
    | ROk (ROk _) =>
      must_commit (ToolStarted call_id) ;;
      executed ← interrupt deadline (tool_execute v);
      match executed with
      | ROk outcome => mret (outcome, None)
      | RErr reason =>
        settled ← on_peer tool_interrupted;
        mret (default (Unknown Interrupted) settled, Some reason)
      end
    end
  end.
Definition bound_output (limits : SessionLimits) (o : ToolOutcome * option EndReason) : ToolOutcome * option EndReason :=
  match encode (ser_outcome o.1) (l_tool_output_bytes limits) with
  | Some _ => o
  | None => (Unknown OutputLimit, Some (EndLimit LToolOutputBytes))
  end.
Definition fingerprint (validated : res ToolError Validated) : option (string * json) :=
  match validated with ROk v => Some (call_name (v_call v), call_arguments (v_call v)) | RErr _ => None end.
Definition no_progress (outcome : ToolOutcome) (print previous : option (string * json)) : bool :=
  none (outcome_success outcome) || (negb (none print) && bool_decide (print = previous)).
Definition run_call (deadline : Z) (names : list string) (call : ToolCall) : eng unit :=
  stop deadline ;;
  exhausted ← look (λ e, l_tool_calls (e_limits e) <=? b_tool_calls (e_budget e));
  if exhausted : bool then quit (EndLimit LToolCalls) else
  charge_budget (λ b, b <| b_tool_calls := u64_inc (b_tool_calls b) |>) ;;
  call_id ← look (λ e, call_name_of (b_tool_calls (e_budget e)));
  validated ← look (λ e, validate_call e call_id call names);
  plan ← look (λ e, match validated with ROk v => tool_effect_plan (e_peer e) v | RErr _ => None end);
  must_commit (ToolIntent call_id call plan true) ;;
  performed ← perform deadline call_id validated;
  limits ← look e_limits;
  let '(outcome, interrupted) := bound_output limits performed in
  let print := fingerprint validated in
  previous ← look e_previous_call;
  charge_budget (λ b, if no_progress outcome print previous then b <| b_no_progress := u64_inc (b_no_progress b) |>
                      else b <| b_no_progress := 0 |>) ;;
  update (λ e, e <| e_previous_call := print |>) ;;
  must_commit (ToolResult call_id outcome) ;;
  update (λ e, e <| e_messages := e_messages e ++ [MTool (provider_call_id call) outcome] |>) ;;
  ended ← look (λ e, tool_end_reason (e_peer e));
  stop_if ended ;;
  stop_if interrupted ;;
  if outcome_unknown outcome then quit EffectUnknown else mret tt.
Fixpoint run_calls (deadline : Z) (names : list string) (calls : list ToolCall) : eng unit :=
  match calls with
  | [] => mret tt
  | call :: calls => run_call deadline names call ;; run_calls deadline names calls
  end.

(** ** The session *)
Definition push_response (response : ModelResponse) : eng unit :=
  update (λ e, e <| e_messages := e_messages e ++ response_messages response |>).
(** After a final response. *)
Definition after_final (patience : nat) (deadline : Z) : eng unit :=
  must_checkpoint ;;
  accepted ← drain_input;
  if accepted : bool then mret tt else
  interactive ← look e_interactive;
  if interactive : bool then
    capacity ← look (λ e, input_capacity e "");
    or_quit capacity ;;
    must_commit InputRequested ;;
    wait_for_input patience deadline
  else quit ModelFinished.
Definition after_response (patience : nat) (deadline : Z) (names : list string) (response : ModelResponse) : eng unit :=
  if decide (finish response = FinLength) then push_response response ;; must_checkpoint else
  if Bool.eqb (bool_decide (finish response = FinToolCalls)) (bool_decide (rs_calls response = []))
  then quit ProviderProtocol else
  push_response response ;;
  stop deadline ;;
  if negb (forallb (λ c, negb (is_empty (provider_call_id c))) (rs_calls response)
           && distinct (provider_call_id <$> rs_calls response))
  then quit ProviderProtocol else
  if is_final response then after_final patience deadline else
  run_calls deadline names (rs_calls response) ;;
  must_checkpoint.
(** One iteration of the loop of [drive]. *)
Definition turn (patience : nat) (deadline : Z) : eng unit :=
  stop deadline ;;
  limit ← look next_turn_limit;
  stop_if limit ;;
  _ ← drain_input;
  assembly_start ← instant;
  d ← draft_request deadline;
  d ← evict_outputs d;
  d ← summarize deadline d;
  '(request, input) ← compose deadline assembly_start d;
  '(answer, streamed) ← ask_model deadline request;
  match answer with
  | RErr error => retry_later deadline error
  | ROk (response, reported) =>
    settle_response response reported input streamed ;;
    after_response patience deadline (td_name <$> dr_tools d) response
  end.
Fixpoint drive (fuel patience : nat) (deadline : Z) : eng unit :=
  match fuel with
  | O => λ e, (OutOfFuel, e)
  | S fuel => turn patience deadline ;; drive fuel patience deadline
  end.
Definition drive_fuel (l : SessionLimits) : nat := Z.to_nat (l_model_turns l) + 1.
(** From the first message to the reason of the end. *)
Definition converse (patience : nat) (deadline : Z) : eng unit :=
  waits ← look (λ e, e_interactive e && none (id_task (e_identity e)));
  fuel ← look (λ e, drive_fuel (e_limits e));
  (if waits : bool then
     capacity ← look (λ e, input_capacity e "");
     or_quit capacity ;;
     must_commit InputRequested ;;
     wait_for_input patience deadline
   else mret tt) ;;
  drive fuel patience deadline.
Definition failed_end (e : engine) : SessionEnd :=
  mk_session_end JournalFailed (e_budget e) false (e_retryable_provider_failure e).
(** The end of [run]: shut down, then record the end. *)
Definition finish_session (reason : EndReason) (e : engine) : SessionEnd * engine :=
  let e := e <| e_peer := provider_cancel (e_peer e) |> in
  let '(clean, p) := tool_shutdown (e_peer e) in
  let e := e <| e_peer := p |> in
  let reason := if decide (reason = JournalFailed) then reason
    else if negb clean then EffectUnknown
    else default reason (tool_end_reason p) in
  if decide (reason = JournalFailed) then (failed_end e, e) else
  match (update_elapsed ;; commit (Ended reason)) e with
  | (Go true, e) => (mk_session_end reason (e_budget e) true (e_retryable_provider_failure e), e)
  | (_, e) => (failed_end e, e)
  end.
Definition launch_evidence_of (e : engine) : result (option LaunchEvidence) :=
  match e_launch_evidence e, settings (e_peer e) with
  | Some evidence, Some provider =>
    digest ← effective_settings_sha256 provider (e_limits e) evidence;
    Ok (Some (mk_evidence (le_baseline_tree evidence) (le_native_context_enabled evidence)
      (le_working_set_enabled evidence) (le_graph_peer_mode evidence) (le_graph_peer_id evidence)
      (le_mcp_peer_count evidence) (le_mcp_tool_count evidence) (le_graph_peer_timeout_ms evidence) (Some digest)))
  | o, _ => Ok o
  end.
Definition started_event (e : engine) (input : string) (evidence : option LaunchEvidence) : SessionEvent :=
  Started (e_identity e) (e_limits e) input (e_system_prompt e) evidence
    (if decide (e_budget e = default_budget) then None else Some (e_budget e)) (settings (e_peer e)).
Definition opening_messages (e : engine) (input : string) : list Message :=
  match e_system_prompt e with Some p => [MSystem p; MUser input] | None => [MUser input] end.
(** The records before the conversation. *)
Definition open_journal (event : SessionEvent) (input : string) : eng unit :=
  must_commit event ;;
  update (λ e, e <| e_messages := e_messages e ++ opening_messages e input |>) ;;
  interactive ← look e_interactive;
  if interactive : bool then must_commit InteractionOpened else mret tt.
Definition max_instant : Z := 2 ^ 63 * 1000000000.
(** [run]; [None] is a wait that did not end within [patience]. *)
Definition run (patience : nat) (command : SessionCommand) (e : engine) : option (result SessionEnd) * engine :=
  if negb (none (e_started e)) then (Some (Err (Bail "Session already started" [])), e) else
  let start := now (e_tick e) in
  let e := e <| e_tick := S (e_tick e) |> in
  let deadline := start + l_elapsed_ms (e_limits e) * 1000000 in
  if max_instant <=? deadline then (Some (Err (Bail "Session deadline overflow" [])), e) else
  let e := e <| e_started := Some start |> in
  match command with
  | CmdSteer _ _ | CmdInteract => (Some (Err (Bail "Expected session start" [])), e)
  | CmdStart _ | CmdCancel =>
    let input := match command with CmdStart input => input | _ => "" end in
    let e := match command with CmdCancel => e <| e_cancelled := true |> | _ => e end in
    if l_context_bytes (e_limits e) <? saturating_add (slen input) (match e_system_prompt e with Some p => slen p | None => 0 end)
    then (Some (Ok (mk_session_end (EndLimit LContextBytes) (e_budget e) false false)), e) else
    match launch_evidence_of e with
    | Err error => (Some (Err error), e)
    | Ok evidence =>
      match open_journal (started_event e input evidence) input e with
      | (Go _, e) =>
        match converse patience deadline e with
        | (Quit reason, e) => let '(session_end, e) := finish_session reason e in (Some (Ok session_end), e)
        | (_, e) => (None, e)
        end
      | (_, e) => (Some (Ok (failed_end e)), e)
      end
    end
  end.

(** ** Setting up *)
(** [Engine::new] *)
Definition engine_new (identity : SessionIdentity) (limits : SessionLimits) (p : peer) (journal : J) : result engine :=
  _ ← check (session_limits_valid limits) "Session limits must be positive (retries may be zero)";
  _ ← check (valid_id (id_session identity) && negb (is_empty (id_project identity))
             && (none (id_task identity) || negb (none (id_run identity)))) "Invalid session identity";
  Ok (mk_engine identity limits p journal default_budget [] None (j_interactive journal) None (j_commands journal) None []
        None None None false false 0).
Definition set_launch_evidence (evidence : LaunchEvidence) (e : engine) : engine :=
  e <| e_launch_evidence := Some evidence |>.
Definition set_system_prompt (prompt : string) (e : engine) : result engine :=
  _ ← check (none (e_started e) && negb (blank prompt)) "Invalid system prompt";
  Ok (e <| e_system_prompt := Some prompt |>).
Definition inherit_budget (budget : Budget) (e : engine) : result engine :=
  _ ← check (none (e_started e) && (b_elapsed_ms budget =? 0) && (b_reserved_input budget =? 0)
             && (b_reserved_output budget =? 0)) "Invalid recovered budget";
  Ok (e <| e_budget := budget |>).
End engine.
