(* ===== verification/CompactionFacts.v ===== *)
(** What a model request shows of the conversation: projections keep the
    groups complete, keep the policy and the task, and replace only outputs
    that the model can retrieve again. *)
From S2P Require Import Prelude Transact Text Wire Patch FileTools AgentData AgentWire Compaction Replay ReplayTheorems.
#[local] Open Scope list_scope.

(** ** Skeletons

    Groups depend on who speaks and on the identifiers of results, not on
    what is said. *)
Definition skeleton (m : Message) : Message :=
  match m with
  | MSystem _ => MSystem ""
  | MUser _ => MUser ""
  | MAssistant r => MAssistant r
  | MTool i _ => MTool i (Success JNull)
  end.
Lemma skeleton_answered calls rest rest' :
  skeleton <$> rest = skeleton <$> rest' → answered calls rest = answered calls rest'.
Proof.
  revert rest rest'. induction calls as [|c calls IH]; intros rest rest' H; [done|].
  destruct rest as [|m rest], rest' as [|m' rest']; try done. simpl in H. injection H as Hm H. change (skeleton <$> rest = skeleton <$> rest') in H.
  destruct m, m'; simpl in *; try done. injection Hm as ->. by rewrite (IH rest rest').
Qed.
Lemma skeleton_loop fuel index rest rest' :
  skeleton <$> rest = skeleton <$> rest' → boundary_loop fuel index rest = boundary_loop fuel index rest'.
Proof.
  revert index rest rest'. induction fuel as [|fuel IH]; intros index rest rest' H.
  { destruct rest as [|[] rest], rest' as [|[] rest']; done. }
  destruct rest as [|m rest], rest' as [|m' rest']; try done. simpl in H. injection H as Hm H. change (skeleton <$> rest = skeleton <$> rest') in H.
  assert (length rest = length rest') as Hl by (apply (f_equal length) in H; by rewrite !length_fmap in H).
  destruct m, m'; simpl in Hm; try done; simpl; [by rewrite (IH _ _ _ H)|].
  injection Hm as ->. rewrite Hl, (skeleton_answered _ _ _ H). destruct (check _ _); [|done]. destruct (check _ _); [|done].
  simpl. rewrite (IH _ (drop _ rest) (drop (length (rs_calls response0)) rest')); [done|]. by rewrite !fmap_drop, H.
Qed.
Lemma skeleton_prefix ms ms' : skeleton <$> ms = skeleton <$> ms' → prefix_len ms = prefix_len ms'.
Proof.
  intros H. assert (∀ i, skeleton <$> ms !! i = skeleton <$> ms' !! i) as Hi.
  { intros i. by rewrite <-!list_lookup_fmap, H. }
  assert (∀ i, is_user (ms !! i) = is_user (ms' !! i)) as Hu.
  { intros i. specialize (Hi i). destruct (ms !! i) as [[]|], (ms' !! i) as [[]|]; done. }
  unfold prefix_len. assert (is_system (ms !! 0%nat) = is_system (ms' !! 0%nat)) as ->; [|by rewrite Hu].
  specialize (Hi 0%nat). destruct (ms !! 0%nat) as [[]|], (ms' !! 0%nat) as [[]|]; done.
Qed.
Lemma skeleton_boundaries ms ms' : skeleton <$> ms = skeleton <$> ms' → boundaries ms = boundaries ms'.
Proof.
  intros H. unfold boundaries. rewrite (skeleton_prefix _ _ H). destruct (prefix_len ms') as [p|]; [|done]. simpl.
  assert (length ms = length ms') as -> by (apply (f_equal length) in H; by rewrite !length_fmap in H).
  rewrite (skeleton_loop _ _ (drop p ms) (drop p ms')); [done|]. by rewrite !fmap_drop, H.
Qed.
Lemma skeleton_insert (i : nat) id o o' (ms : list Message) :
  ms !! i = Some (MTool id o) → skeleton <$> <[i := MTool id o']> ms = skeleton <$> ms.
Proof. intros H. rewrite list_fmap_insert. apply list_insert_id. by rewrite list_lookup_fmap, H. Qed.

(** ** Cutting at a boundary *)
Lemma boundary_cut fuel index rest bs k :
  boundary_loop fuel index rest = Ok bs → k ∈ bs →
  ∃ bs', boundary_loop fuel k (drop (k - index) rest) = Ok bs'.
Proof.
  revert index rest bs. induction fuel as [|fuel IH]; intros index rest bs H Hk.
  { destruct rest as [|[] rest]; try done. injection H as <-. by apply not_elem_of_nil in Hk. }
  pose proof (boundary_bounds _ _ _ _ _ H Hk) as Hb.
  destruct rest as [|[t|t|r|i o] rest]; simpl in H; try done; ok_inv; subst; [by apply not_elem_of_nil in Hk|..].
  - apply elem_of_cons in Hk as [->|Hk].
    + replace (S index - index)%nat with 1%nat by lia. cbn [drop]. rewrite drop_0. eexists. eapply boundary_fuel; [done|lia].
    + match goal with H : boundary_loop fuel _ _ = _ |- _ => pose proof (boundary_bounds _ _ _ _ _ H Hk);
        destruct (IH _ _ _ H Hk) as [bs' E] end.
      exists bs'. replace (k - index)%nat with (S (k - S index)) by lia. cbn [drop]. eapply boundary_fuel; [done|lia].
  - apply elem_of_cons in Hk as [->|Hk].
    + replace (index + length (rs_calls r) + 1 - index)%nat with (S (length (rs_calls r))) by lia. cbn [drop].
      eexists. eapply boundary_fuel; [done|lia].
    + match goal with H : boundary_loop fuel _ _ = _ |- _ => pose proof (boundary_bounds _ _ _ _ _ H Hk);
        destruct (IH _ _ _ H Hk) as [bs' E] end.
      exists bs'. rewrite drop_drop in E. replace (k - index)%nat with (S (length (rs_calls r) + (k - (index + length (rs_calls r) + 1)))) by lia.
      cbn [drop]. eapply boundary_fuel; [done|lia].
Qed.
Lemma prefix_len_Ok ms p : prefix_len ms = Ok p → ∃ pre body, ms = pre ++ body ∧ opening pre ∧ p = length pre.
Proof.
  unfold prefix_len. intros H. ok_inv. subst. destruct ms as [|[s|t|r|i o] ms]; simpl in *; try done.
  - destruct ms as [|[] ms]; try done. eexists [_; _], ms. split_and!; [done| |done]. right. eauto.
  - eexists [_], ms. split_and!; [done| |done]. left. eauto.
Qed.
Lemma boundaries_shift fuel index index' rest bs :
  boundary_loop fuel index rest = Ok bs → ∃ bs', boundary_loop fuel index' rest = Ok bs'.
Proof.
  revert index index' rest bs. induction fuel as [|fuel IH]; intros index index' rest bs H.
  { destruct rest as [|[] rest]; try done. by eexists. }
  destruct rest as [|[t|t|r|i o] rest]; simpl in H |- *; try done; ok_inv; subst; [by eexists|..].
  - match goal with H : boundary_loop fuel _ _ = _ |- _ => destruct (IH _ (S index') _ _ H) as [bs' ->] end. by eexists.
  - rewrite !check_run by done.
    match goal with H : boundary_loop fuel _ _ = _ |- _ => destruct (IH _ (index' + length (rs_calls r) + 1)%nat _ _ H) as [bs' ->] end.
    by eexists.
Qed.
(** The length of the rest is enough fuel. *)
Lemma boundary_enough fuel fuel' index rest bs :
  boundary_loop fuel index rest = Ok bs → (length rest ≤ fuel')%nat → boundary_loop fuel' index rest = Ok bs.
Proof.
  intros H Hl. destruct (boundaries_app _ _ _ [] _ H fuel' ltac:(simpl; lia)) as (f2 & _ & E).
  rewrite app_nil_r in E. rewrite E. destruct f2; simpl; by rewrite app_nil_r.
Qed.
(** A summary in place of whole groups leaves whole groups. *)
Lemma boundaries_summarized ms bs p cut t :
  boundaries ms = Ok bs → prefix_len ms = Ok p → cut ∈ bs →
  ∃ bs', boundaries (take p ms ++ [MUser t] ++ drop cut ms) = Ok bs'.
Proof.
  intros Hb Hp Hc. destruct (prefix_len_Ok _ _ Hp) as (pre & body & -> & Ho & ->).
  rewrite take_app_length. unfold boundaries in *. rewrite opening_prefix_len in * by done. simpl in Hb. ok_inv. subst.
  rewrite drop_app_length in *. simpl.
  match goal with H : boundary_loop _ _ body = Ok ?x |- _ => rename H into E; rename x into inner end.
  assert (∃ bs', boundary_loop (length (pre ++ body)) cut (drop (cut - length pre) body) = Ok bs' ∧ (length pre ≤ cut)%nat) as (bs' & E' & Hle).
  { apply elem_of_cons in Hc as [->|Hc]; [rewrite Nat.sub_diag; by eexists|].
    pose proof (boundary_bounds _ _ _ _ _ E Hc). destruct (boundary_cut _ _ _ _ _ E Hc) as [bs' ?]. exists bs'. split; [done|lia]. }
  rewrite drop_app_ge by done. destruct (boundaries_shift _ _ (S (length pre)) _ _ E') as [bs2 E2].
  rewrite drop_app_length, (boundary_enough (S (length (pre ++ body))) _ _ _ (S (length pre) :: bs2)); [by eexists| |].
  - simpl. by rewrite E2.
  - rewrite length_app. simpl. lia.
Qed.

(** ** Handles and evictions *)
Section facts.
Context {JT : JsonText} {SH : Sha256}.

Lemma handle_of_spec index name arguments o h :
  handle_of index name arguments o = Some h →
  ∃ v, o = Success v ∧ h_message h = index ∧ h_name h = name ∧ h_digest h = identity v
    ∧ retrievable name = true ∧ is_object (h_arguments h) = true ∧ json_len (h_arguments h) ≤ 2048.
Proof.
  unfold handle_of. destruct (retrievable name); [|done]. destruct o as [v| |]; [|done..].
  destruct (from_str arguments) as [args|]; [|done]. simpl. destruct (_ && _) eqn:E; [|done]. intros [= <-]. ok_inv. eauto 10.
Qed.
(** A handle names a retrievable tool's successful result by its digest. *)
Definition handle_at (ms : list Message) (h : Handle) : Prop := ∃ i v,
  ms !! h_message h = Some (MTool i (Success v)) ∧ h_digest h = identity v ∧ retrievable (h_name h) = true
  ∧ is_object (h_arguments h) = true.
Lemma handles_from_spec index known ms h :
  h ∈ handles_from index known ms → (index ≤ h_message h)%nat ∧ ∃ i v,
    ms !! (h_message h - index)%nat = Some (MTool i (Success v)) ∧ h_digest h = identity v
    ∧ retrievable (h_name h) = true ∧ is_object (h_arguments h) = true.
Proof.
  revert index known. induction ms as [|m ms IH]; intros index known; simpl; [by intros ?%not_elem_of_nil|].
  assert (Hrec : ∀ known, h ∈ handles_from (S index) known ms → (index ≤ h_message h)%nat ∧ ∃ i v,
    (m :: ms) !! (h_message h - index)%nat = Some (MTool i (Success v)) ∧ h_digest h = identity v
    ∧ retrievable (h_name h) = true ∧ is_object (h_arguments h) = true).
  { intros known' [Hle (i & v & Hl & ?)]%IH. split; [lia|]. exists i, v.
    replace (h_message h - index)%nat with (S (h_message h - S index)) by lia. done. }
  destruct m as [t|t|r|i o]; try apply Hrec. destruct (known !! i) as [[name args]|]; [|apply Hrec].
  destruct (handle_of index name args o) as [h'|] eqn:E; [|apply Hrec]. intros [->|Hin]%elem_of_cons; [|by apply (Hrec _ Hin)].
  apply handle_of_spec in E as (v & -> & Hm & Hn & Hd & Hr & Ho & _). rewrite Hm, Nat.sub_diag. split; [lia|].
  exists i, v. split_and!; try done. by rewrite Hn.
Qed.
Lemma handles_spec ms h : h ∈ handles ms → handle_at ms h.
Proof. intros [_ (i & v & ?)]%handles_from_spec. rewrite Nat.sub_0_r in *. exists i, v. done. Qed.

(** What eviction may change: results named by a handle, replaced by it. *)
Definition evicted_from (available : list Handle) (ms out : list Message) : Prop :=
  length out = length ms ∧ skeleton <$> out = skeleton <$> ms
  ∧ ∀ k, out !! k = ms !! k ∨ ∃ h i o, h ∈ available ∧ h_message h = k ∧ ms !! k = Some (MTool i o)
         ∧ out !! k = Some (MTool i (Success (evicted_value h))).
Lemma evict_spec available previous hs ms out :
  evict available previous hs ms = Ok out → evicted_from available ms out.
Proof.
  revert previous ms. induction hs as [|h hs IH]; intros previous ms H; simpl in H.
  { injection H as <-. split_and!; [done..|auto]. }
  ok_inv. destruct (ms !! h_message h) as [[t|t|r|i o]|] eqn:E; try done.
  apply IH in H as (Hl & Hs & Hk). rewrite length_insert in Hl. rewrite (skeleton_insert _ _ _ _ _ E) in Hs.
  split_and!; [done..|]. intros k. destruct (Hk k) as [->|(h' & i' & o' & Hh' & Hm' & Hms & ->)].
  - destruct (decide (h_message h = k)) as [<-|Hne]; [|left; by rewrite list_lookup_insert_ne].
    right. exists h, i, o. split_and!; try done. rewrite list_lookup_insert_eq; [done|]. by eapply lookup_lt_Some.
  - right. destruct (decide (h_message h = k)) as [<-|Hne].
    + rewrite list_lookup_insert_eq in Hms by (by eapply lookup_lt_Some). injection Hms as <- <-. by exists h', i, o.
    + rewrite list_lookup_insert_ne in Hms by done. by exists h', i', o'.
Qed.

Lemma project_Ok p ms out :
  project p ms = Ok out →
  ∃ bs prefix shown, boundaries ms = Ok bs ∧ prefix_len ms = Ok prefix ∧ evicted_from (handles ms) ms shown
    ∧ match pj_summary p with
      | None => out = shown
      | Some s => summary_ok bs prefix s = true ∧ slen (catalog s) ≤ 8192
                  ∧ out = take prefix shown ++ [summary_message s] ++ drop (retained_from s) shown
      end.
Proof.
  unfold project. intros H. ok_inv. do 3 eexists. split_and!; [done..|by eapply evict_spec|].
  destruct (pj_summary p); ok_inv; [|done]. by subst.
Qed.
Lemma prefix_kept ms shown p :
  prefix_len ms = Ok p → evicted_from (handles ms) ms shown → take p shown = take p ms.
Proof.
  intros (pre & body & -> & Ho & ->)%prefix_len_Ok (_ & _ & Hk). apply list_eq. intros k.
  destruct (decide (k < length pre)%nat) as [Hlt|Hge]; [|by rewrite !lookup_take_ge by lia].
  rewrite !lookup_take_lt by done. destruct (Hk k) as [->|(h & i & o & _ & _ & Hm & _)]; [done|].
  exfalso. rewrite lookup_app_l in Hm by done. destruct Ho as [[t ->]|(s & t & ->)]; simpl in *;
    [destruct k as [|k]; simpl in *; [done|lia]|destruct k as [|[|k]]; simpl in *; [done|done|lia]].
Qed.

End facts.
