(* ===== verification/EngineFacts.v ===== *)
(** Reasoning about the engine: a total postcondition calculus, what the
    engine may assume of its journal and of its peers, and the state in which
    the engine and the replay of its journal agree.

    What the engine's decisions guarantee: an admitted request fits the
    window and the remaining tokens, and a planned compaction is one that
    replay accepts. *)
From S2P Require Import Prelude Transact Wire Text Patch FileTools AgentData AgentWire AgentWireFacts Compaction Replay ReplayTheorems Engine CompactionFacts.
#[local] Open Scope list_scope.

(** ** The journal's contract

    A journal answers with the record it stored; that record continues the
    session it holds.  [j_refused] says that some record or checkpoint was
    refused although replay accepts it, for want of storage, or that a context
    preparation was larger than its limit. *)
Section contract.
Context {FT : FloatText} {JT : JsonText} {SH : Sha256}.
Definition next_record (session : string) (sequence : Z) (event : SessionEvent) (budget : Budget) : SessionRecord :=
  mk_record JOURNAL_VERSION session (sequence + 1) budget event.
Definition oversized (event : SessionEvent) : Prop :=
  match event with ContextPrepared p => encode (ser_preparation p) BYTES = None | _ => False end.
Class JournalLaws (J : Type) `{!Journal J} := {
  j_state : J → Replay;
  j_session : J → string;
  j_refused : J → bool;
  (** the sequence of the last checkpoint *)
  j_checkpointed : J → Z;
  append_Ok event budget j record j' :
    j_append event budget j = (Ok record, j') →
    record = next_record (j_session j) (rp_sequence (j_state j)) event budget
    ∧ apply (j_state j) record = Ok (j_state j') ∧ j_session j' = j_session j ∧ j_checkpointed j' = j_checkpointed j;
  append_Err event budget j err j' :
    j_append event budget j = (Err err, j') →
    j_refused j' = true
    ∨ (¬ oversized event
       ∧ is_ok (apply (j_state j) (next_record (j_session j) (rp_sequence (j_state j)) event budget)) = false);
  checkpoint_Ok j u j' :
    j_checkpoint j = (Ok u, j') →
    j_state j' = j_state j ∧ j_session j' = j_session j ∧ j_checkpointed j' = rp_sequence (j_state j);
  checkpoint_Err j err j' :
    j_checkpoint j = (Err err, j') →
    j_refused j' = true ∨ checkpoint_ready (j_state j) = false ∨ rp_sequence (j_state j) ≤ j_checkpointed j }.
End contract.

(** ** The peers' contract *)
(** Ends that need no confirmation in the journal. *)
Definition free_end (r : EndReason) : bool :=
  match r with
  | ModelFinished | DefinitionCompleted | ReviewCompleted | ConsultationResponded | EndSubmitted | JournalFailed => false
  | _ => true
  end.
(** Ends that the outcome of a call confirms. *)
Definition confirmed_end (taskless : bool) (call : ToolCall) (outcome : ToolOutcome) (r : EndReason) : bool :=
  match r with
  | EndSubmitted => confirms_submit call outcome
  | ReviewCompleted | ConsultationResponded => bool_decide (confirms_role call outcome = Some r) && negb taskless
  | DefinitionCompleted => confirms_definition taskless call outcome
  | _ => free_end r
  end.
Section peers.
Context {JT : JsonText} {PE : Peers}.
(** The end a peer reports did not become a confirmed one. *)
Definition end_kept (p p' : peer) : Prop := ∀ r,
  tool_end_reason p' = Some r → free_end r = true ∨ tool_end_reason p = Some r.
Definition fits_output (lim : SessionLimits) (o : ToolOutcome) : Prop :=
  is_Some (encode (ser_outcome o) (l_tool_output_bytes lim)).
(** A call's outcome and the end it confirms. *)
Definition end_confirmed (lim : SessionLimits) (taskless : bool) (v : Validated) (outcome : ToolOutcome) (p p' : peer) : Prop :=
  ∀ r, tool_end_reason p' = Some r →
    free_end r = true ∨ tool_end_reason p = Some r
    ∨ (fits_output lim outcome
       ∧ ∀ arguments, confirmed_end taskless (mk_tool_call (v_provider_call_id v) (call_name (v_call v)) arguments) outcome r = true).
Class PeersLaws (lim : SessionLimits) (taskless : bool) : Prop := {
  now_mono k k' : (k ≤ k')%nat → now k ≤ now k';
  estimate_positive p request n : estimate_input_tokens p request = ROk n → 0 < n ≤ usize_max;
  settings_typed_peer p s : settings p = Some s →
    opt_typed u64 (ps_context_tokens s) ∧ opt_typed u64 (ps_max_output_tokens s);
  usage_typed_peer p response u p' :
    next_event p = (Some (ROk (Some (Completed response (Some u)))), p') → usage_typed u;
  plan_valid p v plan arguments :
    tool_effect_plan p v = Some plan →
    plan_ok (mk_tool_call (v_provider_call_id v) (call_name (v_call v)) arguments) (Some plan) = true;
  validate_fits p name arguments e : tool_validate p name arguments = RErr e → fits_output lim (OutcomeFailed e);
  authorize_fits v p e p' : authorize v p = (Some (RErr e), p') → fits_output lim (OutcomeFailed e);
  host_errors_fit e : e ∈ [UnknownTool; InvalidArguments; Interrupted] → fits_output lim (OutcomeFailed e);
  kept_provider_cancel p : end_kept p (provider_cancel p);
  kept_provider_start request p : end_kept p (provider_start request p).2;
  kept_next_event p : end_kept p (next_event p).2;
  kept_prepare messages p : end_kept p (prepare_context messages p).2;
  kept_authorize v p : end_kept p (authorize v p).2;
  kept_committed record p : end_kept p (host_committed record p);
  kept_try_recv p : end_kept p (try_recv p).2;
  kept_recv p : end_kept p (recv p).2;
  kept_sleep ms p : end_kept p (sleep ms p).2;
  kept_shutdown p : end_kept p (tool_shutdown p).2;
  confirmed_execute v p o p' : tool_execute v p = (Some o, p') → end_confirmed lim taskless v o p p';
  (** the execution may have been dropped before it was polled *)
  confirmed_interrupted v p p1 o p2 :
    p1 = p ∨ tool_execute v p = (None, p1) → tool_interrupted p1 = (o, p2) →
    end_confirmed lim taskless v (default (Unknown Interrupted) o) p p2 }.
End peers.

(** ** Postconditions

    [post m Q R e]: from [e], [m] ends; it returns in a state with [Q] or ends
    the session in one with [R]. *)
Section post.
Context {FT : FloatText} {JT : JsonText} {SH : Sha256} {PE : Peers} {J : Type} {JO : Journal J}.
Implicit Types (e : engine (J := J)) (R : EndReason → engine (J := J) → Prop).

Definition post {A} (m : eng A) (Q : A → engine → Prop) R e : Prop :=
  match m e with
  | (Go a, e') => Q a e'
  | (Quit r, e') => R r e'
  | (OutOfFuel, _) => False
  end.
Lemma post_ret {A} (a : A) (Q : A → engine → Prop) R e : Q a e → post (mret a) Q R e.
Proof. done. Qed.
Lemma post_quit {A} r (Q : A → engine → Prop) R e : R r e → post (quit r) Q R e.
Proof. done. Qed.
Lemma post_bind {A B} (m : eng A) (f : A → eng B) Q R e :
  post m (λ a e', post (f a) Q R e') R e → post (m ≫= f) Q R e.
Proof. unfold post, mbind, eng_bind. by destruct (m e) as [[a|r|] e']. Qed.
Lemma post_bind_inv {A B} (m : eng A) (f : A → eng B) Q R e :
  post (m ≫= f) Q R e → post m (λ a e', post (f a) Q R e') R e.
Proof. unfold post, mbind, eng_bind. by destruct (m e) as [[a|r|] e']. Qed.
Lemma post_look {A} (f : engine → A) (Q : A → engine → Prop) R e : Q (f e) e → post (look f) Q R e.
Proof. done. Qed.
Lemma post_update f (Q : unit → engine → Prop) R e : Q tt (f e) → post (update f) Q R e.
Proof. done. Qed.
Lemma post_mono {A} (m : eng A) (Q Q' : A → engine → Prop) R R' e :
  post m Q R e → (∀ a e', Q a e' → Q' a e') → (∀ r e', R r e' → R' r e') → post m Q' R' e.
Proof. unfold post. destruct (m e) as [[a|r|] e']; auto. Qed.
Lemma post_stop_if o (Q : unit → engine → Prop) R e :
  match o with Some r => R r e | None => Q tt e end → post (stop_if o) Q R e.
Proof. by destruct o. Qed.
Lemma post_or_quit {A} (r : res EndReason A) (Q : A → engine → Prop) R e :
  match r with ROk a => Q a e | RErr reason => R reason e end → post (or_quit r) Q R e.
Proof. by destruct r. Qed.
Lemma post_on_peer {A} (f : peer → A * peer) (Q : A → engine → Prop) R e :
  Q (f (e_peer e)).1 (e <| e_peer := (f (e_peer e)).2 |>) → post (on_peer f) Q R e.
Proof. unfold post, on_peer. by destruct (f (e_peer e)). Qed.
Lemma post_interrupt {A} deadline (f : peer → option A * peer) (Q : res EndReason A → engine → Prop) R e :
  (∀ r k p, (r = EndCancelled ∨ r = EndLimit LElapsed) → (e_tick e < k)%nat → p = e_peer e ∨ f (e_peer e) = (None, p) →
     Q (RErr r) (e <| e_peer := p |> <| e_tick := k |>)) →
  (∀ a p, f (e_peer e) = (Some a, p) → now (e_tick e) < deadline →
     Q (ROk a) (e <| e_peer := p |> <| e_tick := S (e_tick e) |>)) →
  post (interrupt deadline f) Q R e.
Proof.
  intros Hr Ha. unfold post, interrupt. destruct (is_cancelled_at e (e_tick e)).
  { specialize (Hr EndCancelled (S (e_tick e)) (e_peer e)). destruct e. apply Hr; simpl; auto. }
  destruct (Z.leb_spec deadline (now (e_tick e))).
  { specialize (Hr (EndLimit LElapsed) (S (e_tick e)) (e_peer e)). destruct e. apply Hr; simpl; auto. }
  destruct (f (e_peer e)) as [[a|] p] eqn:Ef; [by apply Ha|].
  apply Hr; [destruct (is_cancelled_at _ _); auto|lia|auto].
Qed.
Lemma post_stop deadline (Q : unit → engine → Prop) R e :
  (∀ r, free_end r = true → R r (e <| e_tick := S (e_tick e) |>)) →
  (tokens (e_budget e) < l_tokens (e_limits e) → b_no_progress (e_budget e) < l_no_progress (e_limits e) →
     now (e_tick e) < deadline → Q tt (e <| e_tick := S (e_tick e) |>)) →
  post (stop deadline) Q R e.
Proof.
  intros Hr Hq. unfold stop. apply post_bind, post_look, post_bind, post_update, post_stop_if. unfold stop_reason.
  destruct (is_cancelled_at _ _); [by apply Hr|]. destruct (Z.leb_spec deadline (now (e_tick e))); [by apply Hr|].
  destruct (Z.leb_spec (l_tokens (e_limits e)) (tokens (e_budget e))); [by apply Hr|].
  destruct (Z.leb_spec (l_no_progress (e_limits e)) (b_no_progress (e_budget e))); [by apply Hr|]. auto.
Qed.
End post.

(** One syntax-directed step through a program; what it leaves is about
    commits, pure decisions and calls of named parts. *)
Ltac post_step :=
  lazymatch goal with
  | |- post (mbind _ _) _ _ _ => apply post_bind
  | |- post (mret _) _ _ _ => apply post_ret
  | |- post (look _) _ _ _ => apply post_look
  | |- post (update _) _ _ _ => apply post_update
  | |- post (charge_budget _) _ _ _ => apply post_update
  | |- post (quit _) _ _ _ => apply post_quit
  | |- post (on_peer _) _ _ _ => apply post_on_peer
  | |- post (let _ := _ in _) _ _ _ => cbv zeta
  end.

Section plans.
Context {FT : FloatText} {JT : JsonText} {JS : JsonSize} {SH : Sha256} {SL : Sha256Laws} {PE : Peers}.
Context {J : Type} {JO : Journal J}.
Context {lim : SessionLimits} {taskless : bool} {PL : PeersLaws lim taskless}.
Implicit Types (e : engine (J := J)).

(** ** Admission *)
Definition admits (a : res LimitKind (Z * Z)) (output remaining window : Z) : Prop :=
  match a with
  | ROk (i, o) => 0 < i ≤ usize_max ∧ 0 < o ≤ output ∧ saturating_add i o ≤ window ∧ saturating_add i o ≤ remaining
  | RErr _ => True
  end.
Definition free_error {A} (P : A → Prop) (r : res EndReason A) : Prop :=
  match r with ROk a => P a | RErr reason => free_end reason = true end.
Lemma free_error_bind {A B} (P : A → Prop) (Q : B → Prop) (r : res EndReason A) (f : A → res EndReason B) :
  free_error P r → (∀ a, P a → free_error Q (f a)) → free_error Q (r ≫= f).
Proof. destruct r; simpl; auto. Qed.
Lemma free_mono {A} (P Q : A → Prop) (r : res EndReason A) :
  free_error P r → (∀ a, P a → Q a) → free_error Q r.
Proof. destruct r; simpl; auto. Qed.
Lemma free_context {A} (r : result A) : free_error (λ a, r = Ok a) (context_error r).
Proof. by destruct r. Qed.

Lemma input_estimate_spec e ms tools output :
  free_error (λ o, ∀ i, o = Some i → 0 < i ≤ usize_max) (input_estimate e ms tools output).
Proof using PL.
  unfold input_estimate. destruct (estimate_input_tokens _ _) as [n|err] eqn:E.
  - simpl. intros i [= <-]. by eapply estimate_positive.
  - by destruct (pe_kind err).
Qed.
Lemma margin_nonneg w : 0 ≤ margin w.
Proof. unfold margin. lia. Qed.
Lemma admit_loop_spec rounds e ms tools output remaining window :
  0 < output →
  free_error (λ a, admits a output remaining window) (admit_loop rounds e ms tools output remaining window).
Proof using PL.
  revert output. induction rounds as [|rounds IH]; intros output Ho; [done|]. cbn [admit_loop].
  apply (free_error_bind _ _ _ _ (input_estimate_spec e ms tools output)). intros [i|] Hi; [|done].
  specialize (Hi i eq_refl). destruct (fits e ms tools output remaining window (Some i)) eqn:Ef.
  { unfold fits in Ef. ok_inv. simpl. pose proof (margin_nonneg window).
    repeat match goal with H : (_ <=? _) = true |- _ => apply Z.leb_le in H end. unfold saturating_add in *. lia. }
  assert (Hsub : ∀ a b, 0 ≤ saturating_sub a b) by (intros; unfold saturating_sub; lia).
  destruct (Z.eqb_spec (Z.min output (saturating_sub remaining i)) 0); [done|]. cbv zeta.
  match goal with |- context [automatic e && ?x] => destruct (automatic e && x) eqn:Ea; [done|] end.
  match goal with |- context [if output <=? ?r then _ else _] => set (reduced := r) end.
  destruct (Z.leb_spec output reduced); [done|].
  assert (0 < reduced).
  { pose proof (Hsub remaining i). pose proof (Hsub (saturating_sub window i) (margin window)). subst reduced.
    destruct (automatic e); simpl in Ea; [apply Z.eqb_neq in Ea|]; lia. }
  apply (free_mono _ _ _ (IH reduced ltac:(done))). intros [[i' o']|]; simpl; [lia|done].
Qed.
Lemma admit_spec e ms tools output remaining window :
  0 < output → free_error (λ a, admits a output remaining window) (admit_request e ms tools output remaining window).
Proof using PL. intros Ho. unfold admit_request. destruct (fits_bytes _ _ _); [by apply admit_loop_spec|done]. Qed.

(** ** Handles of a summary *)
Lemma shrink_spec hs :
  shrink hs `suffix_of` hs ∧ json_len (ser_list ser_handle (shrink hs)) ≤ 8192.
Proof using JS.
  induction hs as [|h hs [IH ?]]; simpl.
  - split; [done|]. unfold json_len, slen. rewrite json_text_size. change (2 + commas 0 + 0 ≤ 8192). unfold commas. lia.
  - destruct (Z.ltb_spec 8192 (json_len (ser_list ser_handle (h :: hs)))); [|done]. split; [|done]. by apply suffix_cons_r.
Qed.
Lemma recent_spec history cut h :
  h ∈ recent_handles history cut → h ∈ handles history ∧ (h_message h < cut)%nat.
Proof using JS.
  unfold recent_handles. destruct (shrink_spec (rev (take 16 (rev (List.filter (λ h, Nat.ltb (h_message h) cut) (handles history)))))) as [[l E] _].
  intros Hin. assert (h ∈ rev (take 16 (rev (List.filter (λ h, Nat.ltb (h_message h) cut) (handles history))))) as H.
  { rewrite E. apply elem_of_app. by right. }
  rewrite list_elem_of_In, <- in_rev, <- list_elem_of_In in H. apply elem_of_take in H as (i & H & _).
  apply list_elem_of_lookup_2 in H. rewrite list_elem_of_In, <- in_rev, filter_In, <- list_elem_of_In in H.
  by destruct H as [? ?%Nat.ltb_lt].
Qed.
Lemma recent_length history cut : (length (recent_handles history cut) ≤ 16)%nat.
Proof using JS.
  unfold recent_handles. match goal with |- context [shrink ?l] => destruct (shrink_spec l) as [Hs _]; apply suffix_length in Hs end.
  rewrite length_rev, length_take in *. lia.
Qed.

(** ** Cuts *)
Lemma cut_cost_spec e base tools c candidate :
  0 < cp_output c → free_error (λ _, True) (cut_cost e base tools c candidate).
Proof using PL.
  intros Ho. unfold cut_cost. destruct (project _ _) as [projected|]; [|done].
  pose proof (admit_spec e projected tools (cp_output c) (cp_remaining c) (cp_window c) Ho) as H.
  destruct (admit_request _ _ _ _ _ _) as [[[]|]|]; done.
Qed.
Lemma select_cut_spec e base history tools c cap limit cuts :
  0 < cp_output c →
  free_error (λ sc, retained_from sc.1 ∈ cuts ∧ sm_handles sc.1 = recent_handles history (retained_from sc.1))
    (select_cut e base history tools c cap limit cuts).
Proof using PL.
  intros Ho. revert limit. induction cuts as [|cut cuts IH]; intros limit; [done|]. cbn [select_cut]. cbv zeta.
  match goal with |- context [cut_cost e base tools c ?s] => pose proof (cut_cost_spec e base tools c s Ho) as Hc; destruct (cut_cost e base tools c s) as [[[]|]|] end;
    try done; try (apply (free_mono _ _ _ (IH _)); intros [] [? ?]; simpl in *; split; [by right|done]).
  simpl. split; [left|done].
Qed.

(** A planned compaction. *)
Record planned e (history : list Message) (latest : option nat) (window : Z) (plan : CompactionPlan) : Prop := {
  pl_cut : ∃ bs prefix, boundaries history = Ok bs ∧ prefix_len history = Ok prefix ∧ retained_from (pn_summary plan) ∈ bs
    ∧ (match e_summary e with Some s => retained_from s | None => prefix end < retained_from (pn_summary plan))%nat
    ∧ match latest with Some index => (retained_from (pn_summary plan) ≤ index)%nat | None => True end;
  pl_handles : sm_handles (pn_summary plan) = recent_handles history (retained_from (pn_summary plan));
  pl_request : length (rq_messages (pn_request plan)) = 1%nat;
  pl_input : 0 < pn_input plan ≤ usize_max;
  pl_output : 0 < max_output_tokens (pn_request plan) ≤ 1024;
  pl_window : saturating_add (pn_input plan) (max_output_tokens (pn_request plan)) ≤ window;
  pl_turns : saturating_add (b_model_turns (e_budget e)) 1 < l_model_turns (e_limits e);
  pl_cap : pn_summary_cap plan = summary_cap_of e window }.
Lemma plan_spec e base history latest tools c limit :
  0 < cp_output c → 0 ≤ cp_remaining c → 0 < l_response_bytes (e_limits e) →
  free_error (planned e history latest (cp_window c)) (plan_compaction e base history latest tools c limit).
Proof using JS PL.
  intros Ho Hrem Hres. unfold plan_compaction. eapply free_error_bind; [apply free_context|]. intros bs Hb.
  eapply free_error_bind; [apply free_context|]. intros prefix Hp. cbv zeta.
  eapply free_error_bind; [by apply select_cut_spec|]. intros [summary cost] [Hcut Hh]. simpl in Hcut, Hh.
  eapply free_error_bind; [apply free_context|]. intros compacted _.
  destruct (_ || _) eqn:Ez; [done|]. apply orb_false_iff in Ez as [Eo%Z.eqb_neq Eb%Z.eqb_neq].
  assert (0 < Z.min (Z.min (summary_cap_of e (cp_window c)) 1024) (cp_remaining c / 4)) as Hpos.
  { unfold summary_cap_of in *. pose proof (Z.div_pos (cp_remaining c) 4 Hrem). lia. }
  eapply free_error_bind; [by apply admit_spec|]. intros [[i o]|kind] Ha; [|done]. simpl in Ha.
  destruct (Z.leb_spec (l_model_turns (e_limits e)) (saturating_add (b_model_turns (e_budget e)) 1)); [done|].
  rewrite list_elem_of_In, filter_In, <- list_elem_of_In in Hcut. destruct Hcut as [Hin Hc]. ok_inv.
  split; simpl; try done; try lia. exists bs, prefix. split_and!; try done.
  destruct latest; [by apply Nat.leb_le|done].
Qed.
Lemma summary_cap_small e window : 1 ≤ l_response_bytes (e_limits e) → 1 ≤ summary_cap_of e window ≤ MAX_SUMMARY_BYTES.
Proof. unfold summary_cap_of, MAX_SUMMARY_BYTES. lia. Qed.

(** ** Room for input *)
Lemma div_nonneg a b : 0 ≤ a → 0 < b → 0 ≤ a / b.
Proof. apply Z.div_pos. Qed.
Lemma window_nonneg e : 0 ≤ l_context_bytes (e_limits e) → 0 ≤ context_window e.
Proof using PL.
  intros H. unfold context_window. destruct (settings (e_peer e)) as [s|] eqn:E; [|done].
  apply settings_typed_peer in E as [Ht _]. destruct (ps_context_tokens s); simpl in *; [apply Ht|unfold usize_max; lia].
Qed.
Lemma remaining_nonneg e : 0 ≤ remaining_tokens e.
Proof. unfold remaining_tokens, saturating_sub. lia. Qed.
Lemma reservation_nonneg e remaining window :
  0 ≤ l_response_bytes (e_limits e) → 0 ≤ remaining → 0 ≤ window → 0 ≤ output_reservation e remaining window.
Proof using PL.
  intros H Hr Hw. unfold output_reservation. pose proof (div_nonneg window 4 Hw). pose proof (div_nonneg remaining 2 Hr).
  assert (0 ≤ default usize_max (settings (e_peer e) ≫= ps_max_output_tokens)); [|lia].
  destruct (settings (e_peer e)) as [s|] eqn:E; simpl; [|unfold usize_max; lia].
  apply settings_typed_peer in E as [_ Ht]. destruct (ps_max_output_tokens s); simpl in *; [apply Ht|unfold usize_max; lia].
Qed.
Lemma next_turn_limit_free e r : next_turn_limit e = Some r → free_end r = true.
Proof. unfold next_turn_limit. repeat case_match; naive_solver. Qed.
Lemma input_capacity_free e text :
  0 < l_response_bytes (e_limits e) → 0 ≤ l_context_bytes (e_limits e) → free_error (λ _, True) (input_capacity e text).
Proof using JS PL.
  intros Hres Hctx. unfold input_capacity. destruct (next_turn_limit e) as [r|] eqn:En; [by eapply next_turn_limit_free|].
  cbv zeta. eapply free_error_bind; [apply free_context|]. intros prefix _. eapply free_error_bind; [apply free_context|]. intros projected _.
  pose proof (reservation_nonneg e (remaining_tokens e) (context_window e) ltac:(lia) (remaining_nonneg e) (window_nonneg e Hctx)).
  destruct (Z.eqb_spec (output_reservation e (remaining_tokens e) (context_window e)) 0); [done|].
  eapply free_error_bind; [apply admit_spec; lia|]. intros [|limit] _; [done|].
  eapply free_error_bind; [apply plan_spec; simpl; try lia; apply remaining_nonneg|done].
Qed.
End plans.
