(* ===== verification/EngineAgreement.v ===== *)
(** The engine and the replay of its journal agree: at every point of a
    session the record the engine commits next is one that replay accepts, and
    replaying the journal gives the engine's conversation and budget. *)
From S2P Require Import Prelude Transact Text Wire Patch FileTools AgentData AgentWire AgentWireFacts Compaction Replay ReplayTheorems CompactionFacts Engine EngineFacts.
#[local] Open Scope list_scope.

(** ** Budgets that replay accepts *)
Lemma not_regressed b a :
  b_model_turns b ≤ b_model_turns a → b_tool_calls b ≤ b_tool_calls a → b_retries b ≤ b_retries a →
  b_elapsed_ms b ≤ b_elapsed_ms a → b_reported_input b ≤ b_reported_input a → b_reported_output b ≤ b_reported_output a →
  b_estimated_input b ≤ b_estimated_input a → b_estimated_output b ≤ b_estimated_output a → regressed b a = false.
Proof. intros. unfold regressed. apply negb_false_iff. rewrite !andb_true_iff, !Z.leb_le. done. Qed.
Lemma check_budget_Ok b a event expected :
  regressed b a = false → expected_budget b a event = Ok expected → expected = a → check_budget b a event = Ok tt.
Proof. intros Hr He ->. unfold check_budget. rewrite Hr, He. simpl. by rewrite bool_decide_eq_true_2. Qed.
(** The budget at time [t], with [n] calls without progress. *)
Definition at_time (b : Budget) (t n : Z) : Budget := b <| b_elapsed_ms := t |> <| b_no_progress := n |>.
Definition plain_event (event : SessionEvent) : bool :=
  match event with
  | UserInput _ _ | InputRequested | InteractionOpened | ContextPrepared _ | ContextComposed _ | ToolStarted _
  | ToolResult _ _ | Ended _ => true
  | _ => false
  end.
Lemma check_plain b t n event :
  plain_event event = true → b_elapsed_ms b ≤ t → check_budget b (at_time b t n) event = Ok tt.
Proof.
  intros He Ht. apply (check_budget_Ok _ _ _ (at_time b t n)); [|by destruct event|done].
  apply not_regressed; simpl; lia.
Qed.
Lemma check_attempt b t event input output :
  (∃ turn, event = ModelStarted turn) ∨ (∃ turn cut, event = CompactionStarted turn cut) →
  b_elapsed_ms b ≤ t → 0 ≤ b_model_turns b < usize_max → b_reserved_input b = 0 → b_reserved_output b = 0 →
  0 < input → 0 < output →
  check_budget b (b <| b_model_turns := u64_inc (b_model_turns b) |> <| b_reserved_input := input |>
                    <| b_reserved_output := output |> <| b_elapsed_ms := t |>) event = Ok tt.
Proof.
  intros He Ht Hm Hi Ho Hin Hout. eapply check_budget_Ok.
  - apply not_regressed; simpl; try lia. rewrite u64_inc_small; lia.
  - assert (∀ x y, expected_budget x y event = expect_attempt x y (x <| b_elapsed_ms := b_elapsed_ms y |> <| b_no_progress := b_no_progress y |>)) as ->
      by (destruct He as [[? ->]|(? & ? & ->)]; done).
    unfold expect_attempt. rewrite check_run; [done|]. simpl. rewrite Hi, Ho. by rewrite !(proj2 (Z.ltb_lt _ _)).
  - by destruct b.
Qed.
Lemma saturating_add_bounds a b : u64 a → u64 b → a ≤ saturating_add a b ≤ usize_max.
Proof. unfold u64, saturating_add. lia. Qed.
Lemma charge_typed u b : usage_typed u → budget_typed b → budget_typed (charge u (unreserve b)).
Proof.
  intros [? ?] []. unfold charge, unreserve. assert (u64 0) by (unfold u64, usize_max; lia).
  repeat match goal with H : u64 ?a, H' : u64 ?b |- _ =>
    lazymatch goal with _ : a ≤ saturating_add a b ≤ _ |- _ => fail | _ => pose proof (saturating_add_bounds a b H H') end end.
  destruct (reported u); split; simpl; try done; unfold u64 in *; lia.
Qed.
Lemma charge_grows u b : usage_typed u → budget_typed b →
  b_reported_input b ≤ b_reported_input (charge u (unreserve b)) ∧ b_reported_output b ≤ b_reported_output (charge u (unreserve b))
  ∧ b_estimated_input b ≤ b_estimated_input (charge u (unreserve b)) ∧ b_estimated_output b ≤ b_estimated_output (charge u (unreserve b)).
Proof.
  intros [? ?] []. unfold charge, unreserve.
  destruct (reported u); simpl; split_and!; try lia; by apply saturating_add_bounds.
Qed.
Lemma charge_at_time u b t n : charge u (unreserve (at_time b t n)) = at_time (charge u (unreserve b)) t n.
Proof. unfold charge. by destruct (reported u). Qed.
Lemma check_settled b t n event u :
  (∃ response, event = ModelCompleted response u) ∨ (∃ summary, event = CompactionCompleted summary u) →
  b_elapsed_ms b ≤ t → usage_typed u → budget_typed b →
  check_budget b (at_time (charge u (unreserve b)) t n) event = Ok tt.
Proof.
  intros He Ht Hu Hb. pose proof (charge_grows u b Hu Hb) as (? & ? & ? & ?). eapply check_budget_Ok.
  - apply not_regressed; unfold charge, unreserve in *; destruct (reported u); simpl in *; lia.
  - assert (∀ x y, expected_budget x y event = Ok (charge u (unreserve (at_time x (b_elapsed_ms y) (b_no_progress y))))) as ->
      by (destruct He as [[? ->]|[? ->]]; done). done.
  - rewrite charge_at_time. done.
Qed.
Lemma check_failed b t u retries retryable k d :
  b_elapsed_ms b ≤ t → usage_typed u → budget_typed b →
  retries = b_retries b ∨ (retryable = true ∧ b_retries b < usize_max ∧ retries = u64_inc (b_retries b)) →
  check_budget b ((charge u (unreserve b)) <| b_retries := retries |> <| b_elapsed_ms := t |>) (ModelFailed retryable u k d) = Ok tt.
Proof.
  intros Ht Hu Hb Hr. pose proof (charge_grows u b Hu Hb) as (? & ? & ? & ?). destruct (bt_retries _ Hb).
  assert (b_retries b ≤ retries) by (destruct Hr as [->|(_ & ? & ->)]; rewrite ?u64_inc_small; lia).
  eapply check_budget_Ok.
  - apply not_regressed; unfold charge, unreserve in *; destruct (reported u); simpl in *; lia.
  - unfold expected_budget. simpl. rewrite check_run; [done|].
    apply orb_true_iff. destruct Hr as [->|(-> & _ & ->)]; [left|right]; simpl; apply Z.eqb_refl.
  - unfold charge. destruct (reported u); by destruct b.
Qed.
Lemma check_intent b t call_id call plan s :
  b_elapsed_ms b ≤ t → 0 ≤ b_tool_calls b < usize_max →
  check_budget b (b <| b_tool_calls := u64_inc (b_tool_calls b) |> <| b_elapsed_ms := t |>) (ToolIntent call_id call plan s) = Ok tt.
Proof.
  intros Ht Hc. eapply check_budget_Ok; [|done|by destruct b].
  apply not_regressed; simpl; try lia. rewrite u64_inc_small; lia.
Qed.

(** ** The engine's side of a session *)
(** What does not change in a session: its limits, whether it has a task, when
    it started and with which budget. *)
Class Session := {
  s_limits : SessionLimits;
  s_taskless : bool;
  s_start : Z;
  s_budget : Budget }.
Section agreement.
Context {FT : FloatText} {JT : JsonText} {SH : Sha256} {PE : Peers} {J : Type} {JO : Journal J} {JL : JournalLaws J}.
Context {SE : Session} {PL : PeersLaws s_limits s_taskless}.
Local Notation lim := s_limits.
Local Notation taskless := s_taskless.
Local Notation start := s_start.
Local Notation b0 := s_budget.
Local Notation engine := (engine (J := J)).
Implicit Types (e : engine).

(** What replay makes of the journal so far. *)
Definition st e : Replay := j_state (e_journal e).
(** The counters that limits bound; [b0] is the budget at the start. *)
Definition bounded (b : Budget) : Prop :=
  b_model_turns b ≤ Z.max (b_model_turns b0) (l_model_turns lim)
  ∧ b_tool_calls b ≤ Z.max (b_tool_calls b0) (l_tool_calls lim)
  ∧ b_retries b ≤ Z.max (b_retries b0) (l_retries lim).
Record limits_sane : Prop := {
  lt_valid : session_limits_valid lim = true;
  lt_turns : u64 (l_model_turns lim);
  lt_tokens : u64 (l_tokens lim);
  lt_calls : u64 (l_tool_calls lim);
  lt_retries : u64 (l_retries lim);
  lt_context : u64 (l_context_bytes lim);
  lt_response : 0 ≤ l_response_bytes lim < usize_max }.
(** A summary that the history supports. *)
Definition summary_fits (s : Summary) (ms : list Message) : Prop := ∃ bs prefix,
  boundaries ms = Ok bs ∧ prefix_len ms = Ok prefix ∧ summary_ok bs prefix s = true ∧ slen (catalog s) ≤ 8192.
(** What holds at every moment of a session. *)
Record core e : Prop := {
  c_limits : e_limits e = lim;
  c_started : e_started e = Some start;
  c_session : rp_session_id (st e) = j_session (e_journal e);
  c_open : rp_end (st e) = None;
  c_running : running (st e);
  c_taskless : rp_taskless (st e) = taskless;
  c_tick : start ≤ now (e_tick e);
  c_elapsed : b_elapsed_ms (rp_budget (st e)) ≤ millis_since start (now (e_tick e));
  c_checkpointed : j_checkpointed (e_journal e) ≤ rp_sequence (st e);
  c_typed : budget_typed (rp_budget (st e));
  c_bounded : bounded (rp_budget (st e)) }.
(** The conversation is the replayed one. *)
Record viewed e : Prop := {
  v_messages : e_messages e = rp_messages (st e);
  v_summary : e_summary e = rp_summary (st e);
  v_steering : e_latest_steering e = rp_latest_steering (st e);
  v_interactive : e_interactive e = rp_interactive (st e) }.
(** The summary is one of an earlier part of the conversation. *)
Definition summarized e : Prop := ∀ s, e_summary e = Some s → ∃ ms, ms `prefix_of` e_messages e ∧ summary_fits s ms.
Definition ends_free e : Prop := ∀ r, tool_end_reason (e_peer e) = Some r → free_end r = true.
Definition ends_ok e : Prop := ∀ r,
  tool_end_reason (e_peer e) = Some r → is_ok (apply_ended (st e) r) = true ∧ r ≠ JournalFailed.
(** Between requests, with [calls] still to be run. *)
Record quiet (calls : list ToolCall) e : Prop := {
  q_core : core e;
  q_synced : e_budget e = rp_budget (st e);
  q_ends : ends_free e;
  q_viewed : viewed e;
  q_inactive : rp_model_active (st e) = false;
  q_compaction : rp_compaction_active (st e) = false;
  q_pending : rp_pending_effect (st e) = None;
  q_calls : rp_calls (st e) = calls;
  q_reserved : b_reserved_input (e_budget e) = 0 ∧ b_reserved_output (e_budget e) = 0;
  q_summarized : summarized e }.
(** While a request is under way. *)
Record awaiting (compaction : bool) (cut : option nat) e : Prop := {
  a_core : core e;
  a_synced : e_budget e = rp_budget (st e);
  a_ends : ends_free e;
  a_viewed : viewed e;
  a_active : rp_model_active (st e) = true;
  a_compaction : rp_compaction_active (st e) = compaction;
  a_cut : rp_compaction_cut (st e) = cut;
  a_summarized : summarized e }.
(** A session that may be ended for [r]. *)
Record resting (r : EndReason) e : Prop := {
  r_core : core e;
  r_synced : e_budget e = rp_budget (st e);
  r_messages : e_messages e `prefix_of` rp_messages (st e);
  r_accepts : is_ok (apply_ended (st e) r) = true;
  r_ends : ends_ok e }.
Definition ended (r : EndReason) e : Prop :=
  if decide (r = JournalFailed) then j_refused (e_journal e) = true else resting r e.

(** *** What the engine does between commits *)
(** The journal and the budget stay. *)
Record moves e e' : Prop := {
  mv_limits : e_limits e' = e_limits e;
  mv_started : e_started e' = e_started e;
  mv_journal : e_journal e' = e_journal e;
  mv_budget : e_budget e' = e_budget e;
  mv_tick : (e_tick e ≤ e_tick e')%nat;
  mv_ends : end_kept (e_peer e) (e_peer e') }.
(** The conversation stays too. *)
Record frame e e' : Prop := {
  f_moves : moves e e';
  f_messages : e_messages e' = e_messages e;
  f_summary : e_summary e' = e_summary e;
  f_steering : e_latest_steering e' = e_latest_steering e;
  f_interactive : e_interactive e' = e_interactive e }.
Lemma millis_mono s t t' : t ≤ t' → millis_since s t ≤ millis_since s t'.
Proof. intros H. unfold millis_since. apply Z.min_le_compat_l, Z.div_le_mono; lia. Qed.
Lemma moves_st e e' : moves e e' → st e' = st e.
Proof. intros F. unfold st. by rewrite (mv_journal _ _ F). Qed.
Lemma frame_st e e' : frame e e' → st e' = st e.
Proof. intros F. apply moves_st, F. Qed.
Lemma moves_core e e' : moves e e' → core e → core e'.
Proof.
  intros F C. pose proof (moves_st _ _ F) as Hs. destruct F, C. split; rewrite ?Hs; try congruence.
  - pose proof (now_mono _ _ mv_tick0). lia.
  - pose proof (millis_mono start _ _ (now_mono _ _ mv_tick0)). lia.
Qed.
Lemma moves_ends_free e e' : moves e e' → ends_free e → ends_free e'.
Proof. intros F H r Hr. destruct (mv_ends _ _ F r Hr) as [|?]; auto. Qed.
Lemma frame_viewed e e' : frame e e' → viewed e → viewed e'.
Proof. intros F V. pose proof (frame_st _ _ F) as Hs. destruct F, V. split; congruence. Qed.
Lemma frame_summarized e e' : frame e e' → summarized e → summarized e'.
Proof. intros F V s. rewrite (f_summary _ _ F), (f_messages _ _ F). apply V. Qed.
Lemma frame_quiet calls e e' : frame e e' → quiet calls e → quiet calls e'.
Proof.
  intros F [C Y En V]. pose proof (frame_st _ _ F) as Hs.
  split; rewrite ?Hs, ?(mv_budget _ _ (f_moves _ _ F)); eauto using moves_core, moves_ends_free, frame_viewed, frame_summarized, f_moves.
Qed.
Lemma frame_awaiting c cut e e' : frame e e' → awaiting c cut e → awaiting c cut e'.
Proof.
  intros F [C Y En V]. pose proof (frame_st _ _ F) as Hs.
  split; rewrite ?Hs, ?(mv_budget _ _ (f_moves _ _ F)); eauto using moves_core, moves_ends_free, frame_viewed, frame_summarized, f_moves.
Qed.
Lemma end_kept_refl p : end_kept p p.
Proof. by right. Qed.
Lemma end_kept_trans p q r : end_kept p q → end_kept q r → end_kept p r.
Proof. intros H H' x Hx. destruct (H' x Hx); auto. Qed.
Lemma moves_refl e : moves e e.
Proof. split; try done. apply end_kept_refl. Qed.
Lemma frame_refl e : frame e e.
Proof. split; [apply moves_refl|done..]. Qed.
Lemma moves_trans e e' e'' : moves e e' → moves e' e'' → moves e e''.
Proof. intros [] []. split; try congruence; [lia|]. by eapply end_kept_trans. Qed.
Lemma frame_trans e e' e'' : frame e e' → frame e' e'' → frame e e''.
Proof. intros [] []. split; [by eapply moves_trans|congruence..]. Qed.

(** Waiting for a peer that does not end the session. *)
Lemma interrupt_frame {A} deadline (f : peer → option A * peer) (Q : res EndReason A → engine → Prop) R e :
  (∀ p, end_kept p (f p).2) →
  (∀ r e', free_end r = true → frame e e' → Q (RErr r) e') →
  (∀ a e', frame e e' → (e_tick e < e_tick e')%nat → now (e_tick e) < deadline → f (e_peer e) = (Some a, e_peer e') → Q (ROk a) e') →
  post (interrupt deadline f) Q R e.
Proof.
  intros Hf Hr Ha. apply post_interrupt.
  - intros r k p Hk Ht Hp. apply Hr; [by destruct Hk as [->| ->]|]. split; [|done..]. split; simpl; try done; [lia|].
    specialize (Hf (e_peer e)). destruct Hp as [->|E]; [apply end_kept_refl|]. by rewrite E in Hf.
  - intros a p E Hn. apply Ha; simpl; try done; [|lia]. split; [|done..]. split; simpl; try done; [lia|].
    specialize (Hf (e_peer e)). by rewrite E in Hf.
Qed.

(** *** Ends *)
Lemma free_end_accepted s r : free_end r = true → is_ok (apply_ended s r) = true ∧ r ≠ JournalFailed.
Proof. intros H. destruct r; try done; unfold apply_ended; by repeat case_bool_decide. Qed.
Lemma ends_free_ok e : ends_free e → ends_ok e.
Proof. intros H r Hr. by apply free_end_accepted, H. Qed.
Lemma quiet_ended calls e r : quiet calls e → free_end r = true → ended r e.
Proof.
  intros Q Hr. destruct (free_end_accepted (st e) r Hr) as [? Hj]. unfold ended. rewrite decide_False by done.
  split; [apply Q|apply Q| |done|apply ends_free_ok, Q]. by rewrite (v_messages _ (q_viewed _ _ Q)).
Qed.
Lemma refused_ended e : j_refused (e_journal e) = true → ended JournalFailed e.
Proof. done. Qed.

(** *** Committing *)
Definition elapsed_now e : Budget := (e_budget e) <| b_elapsed_ms := millis_since start (now (e_tick e)) |>.
(** [e'] is [e] after a record that makes [s] of the replayed state. *)
Record commits e (ev : SessionEvent) (s : Replay) e' : Prop := {
  cm_event : apply_event (st e) (rp_budget (st e)) (elapsed_now e) ev = Ok s;
  cm_identity : e_identity e' = e_identity e;
  cm_limits : e_limits e' = e_limits e;
  cm_started : e_started e' = e_started e;
  cm_messages : e_messages e' = e_messages e;
  cm_summary : e_summary e' = e_summary e;
  cm_steering : e_latest_steering e' = e_latest_steering e;
  cm_interactive : e_interactive e' = e_interactive e;
  cm_budget : e_budget e' = elapsed_now e;
  cm_tick : e_tick e' = S (e_tick e);
  cm_state : st e' = s <| rp_budget := elapsed_now e |> <| rp_sequence := rp_sequence (st e) + 1 |>;
  cm_session : j_session (e_journal e') = j_session (e_journal e);
  cm_checkpointed : j_checkpointed (e_journal e') = j_checkpointed (e_journal e);
  cm_running : running (st e');
  cm_ends : end_kept (e_peer e) (e_peer e') }.
(** Replay accepts [ev] and makes [s] of it, unless it is oversized. *)
Definition accepts e (ev : SessionEvent) (s : Replay) : Prop :=
  check_budget (rp_budget (st e)) (elapsed_now e) ev = Ok tt
  ∧ match apply_event (st e) (rp_budget (st e)) (elapsed_now e) ev with Ok s' => s' = s | Err _ => oversized ev end.
Lemma apply_step e ev s : core e → is_started ev = false → check_budget (rp_budget (st e)) (elapsed_now e) ev = Ok tt →
  apply_event (st e) (rp_budget (st e)) (elapsed_now e) ev = Ok s →
  apply (st e) (next_record (j_session (e_journal e)) (rp_sequence (st e)) ev (elapsed_now e))
  = Ok (s <| rp_budget := elapsed_now e |> <| rp_sequence := rp_sequence (st e) + 1 |>).
Proof.
  intros C Hev Hb Ha. unfold apply, next_record, open_session. simpl. rewrite (c_open _ C). rewrite check_run by apply Z.eqb_refl.
  rewrite check_run by done. pose proof (rn_sequence _ (c_running _ C)).
  destruct (Z.eqb_spec (rp_sequence (st e)) 0); [lia|]. simpl.
  rewrite check_run by (rewrite (c_session _ C); apply String.eqb_refl). by rewrite Hb, Ha.
Qed.
Lemma commit_post e ev s (Q : bool → engine → Prop) R :
  core e → is_started ev = false → accepts e ev s →
  (∀ e', commits e ev s e' → Q true e') → (∀ e', j_refused (e_journal e') = true → Q false e') →
  post (commit ev) Q R e.
Proof.
  intros C Hev [Hb Ha] HQ HR. unfold commit. rewrite Hev. unfold post, mbind, eng_bind, update_elapsed, instant, append.
  simpl. rewrite (c_started _ C). simpl. change (j_append ev _ (e_journal e)) with (j_append ev (elapsed_now e) (e_journal e)).
  destruct (j_append _ _ _) as [[record|err] j'] eqn:Ej.
  - apply append_Ok in Ej as (-> & Hap & Hses & Hck). change (j_state (e_journal e)) with (st e) in *. apply HQ.
    destruct (apply_event (st e) (rp_budget (st e)) (elapsed_now e) ev) as [s'|err] eqn:Ee.
    + subst s'. rewrite (apply_step _ _ _ C Hev Hb Ee) in Hap. injection Hap as Hap.
      split; try done; [by rewrite (c_started _ C)| |apply kept_committed]. unfold st at 1. simpl. rewrite <- Hap.
      eapply apply_running; [right; apply (c_running _ C)|]. by apply (apply_step e ev s C Hev Hb Ee).
    + apply apply_Ok in Hap as (r1 & r2 & _ & _ & _ & Ho & _ & _ & He & _).
      apply open_running in Ho as ->; [|apply (c_running _ C)]. simpl in He. unfold st in *. congruence.
  - apply HR. simpl. apply append_Err in Ej as [?|[Hno Hap]]; [done|].
    change (j_state (e_journal e)) with (st e) in Hap.
    destruct (apply_event (st e) (rp_budget (st e)) (elapsed_now e) ev) as [s'|err'] eqn:Ee; [|done].
    rewrite (apply_step _ _ _ C Hev Hb Ee) in Hap. done.
Qed.
Lemma elapsed_typed e : core e → budget_typed (e_budget e) → budget_typed (elapsed_now e).
Proof.
  intros C []. split; simpl; try done. unfold u64, millis_since. pose proof (c_tick _ C).
  assert (0 ≤ (now (e_tick e) - start) / 1000000) by (apply Z.div_pos; lia). unfold usize_max. lia.
Qed.
Lemma commits_core e ev s e' :
  core e → commits e ev s e' → is_started ev = false → is_ended ev = false → budget_typed (e_budget e) → bounded (e_budget e) →
  core e' ∧ j_checkpointed (e_journal e') < rp_sequence (st e').
Proof.
  intros C M Hev Hen Ht Hb. pose proof (now_mono (e_tick e) (S (e_tick e)) ltac:(lia)) as Hn.
  destruct (event_keeps _ _ _ _ _ (cm_event _ _ _ _ M) Hev Hen) as (Hs1 & Hs2 & Hs3). split.
  - destruct C, M. split; try congruence; rewrite ?cm_state0; simpl; try congruence; try done.
    + rewrite cm_tick0. lia.
    + rewrite cm_tick0. by apply millis_mono.
    + rewrite cm_checkpointed0. lia.
    + by apply elapsed_typed.
  - rewrite (cm_checkpointed _ _ _ _ M), (cm_state _ _ _ _ M). simpl. destruct C. lia.
Qed.
Lemma must_commit_post e ev s (Q : unit → engine → Prop) :
  core e → is_started ev = false → is_ended ev = false → accepts e ev s →
  budget_typed (e_budget e) → bounded (e_budget e) →
  (∀ e', commits e ev s e' → core e' → j_checkpointed (e_journal e') < rp_sequence (st e') → Q tt e') →
  post (must_commit ev) Q ended e.
Proof.
  intros C Hev Hen Ha Ht Hb HQ. unfold must_commit. apply post_bind. eapply commit_post; [done..| |].
  2: { intros e' Hr. by apply post_quit, refused_ended. }
  intros e' M. apply post_ret. destruct (commits_core _ _ _ _ C M Hev Hen Ht Hb). auto.
Qed.
Lemma core_charged e b : core e → core (e <| e_budget := b |>).
Proof. intros []. by split. Qed.
Lemma accepts_plain e n ev s :
  core e → e_budget e = (rp_budget (st e)) <| b_no_progress := n |> → plain_event ev = true →
  match apply_event (st e) (rp_budget (st e)) (elapsed_now e) ev with Ok s' => s' = s | Err _ => oversized ev end →
  accepts e ev s.
Proof.
  intros C Hb Hp Ha. split; [|exact Ha]. unfold elapsed_now. rewrite Hb.
  apply (check_plain (rp_budget (st e)) (millis_since start (now (e_tick e))) n); [done|apply (c_elapsed _ C)].
Qed.
Lemma np_fine e n : core e → e_budget e = (rp_budget (st e)) <| b_no_progress := n |> → u64 n →
  budget_typed (e_budget e) ∧ bounded (e_budget e).
Proof. intros C -> Hn. destruct (c_typed _ C). split; [by split|apply (c_bounded _ C)]. Qed.
(** A record that charges nothing; [n] calls were without progress. *)
Lemma plain_post e n ev s (Q : unit → engine → Prop) :
  core e → e_budget e = (rp_budget (st e)) <| b_no_progress := n |> → u64 n → plain_event ev = true → is_ended ev = false →
  match apply_event (st e) (rp_budget (st e)) (elapsed_now e) ev with Ok s' => s' = s | Err _ => oversized ev end →
  (∀ e', commits e ev s e' → core e' → j_checkpointed (e_journal e') < rp_sequence (st e') → Q tt e') →
  post (must_commit ev) Q ended e.
Proof.
  intros C Hb Hn Hp Hen Ha HQ. destruct (np_fine _ _ C Hb Hn).
  eapply must_commit_post; [done|by destruct ev|done|by eapply accepts_plain|done..].
Qed.
Lemma synced_np e : e_budget e = rp_budget (st e) →
  e_budget e = (rp_budget (st e)) <| b_no_progress := b_no_progress (rp_budget (st e)) |>.
Proof. intros ->. by destruct (rp_budget (st e)). Qed.
Lemma synced_post e ev s (Q : unit → engine → Prop) :
  core e → e_budget e = rp_budget (st e) → plain_event ev = true → is_ended ev = false →
  match apply_event (st e) (rp_budget (st e)) (elapsed_now e) ev with Ok s' => s' = s | Err _ => oversized ev end →
  (∀ e', commits e ev s e' → core e' → j_checkpointed (e_journal e') < rp_sequence (st e') → Q tt e') →
  post (must_commit ev) Q ended e.
Proof.
  intros C Hb Hp He Ha HQ. eapply plain_post; [done|by apply synced_np|apply (bt_no_progress _ (c_typed _ C))|done..].
Qed.
Lemma commits_ends e ev s e' : commits e ev s e' → ends_free e → ends_free e'.
Proof. intros M H r Hr. destruct (cm_ends _ _ _ _ M r Hr) as [|?]; auto. Qed.
Lemma commits_synced e ev s e' : commits e ev s e' → e_budget e' = rp_budget (st e').
Proof. intros M. by rewrite (cm_state _ _ _ _ M), (cm_budget _ _ _ _ M). Qed.
(** The quiet state after a record and what the engine does with it. *)
Lemma quiet_after calls e ev s e' e'' :
  commits e ev s e' → core e' → moves e' e'' → ends_free e'' → viewed e'' →
  rp_model_active s = false → rp_compaction_active s = false → rp_pending_effect s = None → rp_calls s = calls →
  b_reserved_input (e_budget e) = 0 ∧ b_reserved_output (e_budget e) = 0 → summarized e'' → quiet calls e''.
Proof.
  intros M C F En V Ha Hc Hp Hca Hr Hsu. pose proof (moves_st _ _ F) as Hs. rewrite (cm_state _ _ _ _ M) in Hs.
  split; rewrite ?Hs, ?(mv_budget _ _ F), ?(cm_budget _ _ _ _ M); try done. by eapply moves_core.
Qed.
Lemma awaiting_after compaction cut e ev s e' e'' :
  commits e ev s e' → core e' → moves e' e'' → ends_free e'' → viewed e'' →
  rp_model_active s = true → rp_compaction_active s = compaction → rp_compaction_cut s = cut →
  summarized e'' → awaiting compaction cut e''.
Proof.
  intros M C F En V Ha Hc Hp Hsu. pose proof (moves_st _ _ F) as Hs. rewrite (cm_state _ _ _ _ M) in Hs.
  split; rewrite ?Hs, ?(mv_budget _ _ F), ?(cm_budget _ _ _ _ M); try done. by eapply moves_core.
Qed.
Lemma quiet_ready e : quiet [] e → checkpoint_ready (st e) = true.
Proof.
  intros Q. apply (proj2 (checkpoint_ready_true _)). split_and!; [apply (rn_sequence _ (c_running _ (q_core _ _ Q)))|apply (q_inactive _ _ Q)|apply (q_pending _ _ Q)|apply (q_calls _ _ Q)].
Qed.
Lemma checkpoint_post e (Q : unit → engine → Prop) :
  checkpoint_ready (st e) = true → j_checkpointed (e_journal e) < rp_sequence (st e) →
  (∀ j, j_state j = st e → j_session j = j_session (e_journal e) → j_checkpointed j = rp_sequence (st e) →
        Q tt (e <| e_journal := j |>)) →
  post must_checkpoint Q ended e.
Proof.
  intros Hr Hlt HQ. unfold post, must_checkpoint. destruct (j_checkpoint (e_journal e)) as [[u|err] j'] eqn:Ej.
  - apply checkpoint_Ok in Ej as (? & ? & ?). by apply HQ.
  - apply refused_ended. simpl. apply checkpoint_Err in Ej as [?|[Hn|?]]; [done| |]; unfold st in *; [congruence|lia].
Qed.
Lemma core_checkpoint e j :
  core e → j_state j = st e → j_session j = j_session (e_journal e) → j_checkpointed j = rp_sequence (st e) →
  core (e <| e_journal := j |>).
Proof.
  intros C Hj Hs Hck. assert (st (e <| e_journal := j |>) = st e) as Hst by done.
  destruct C. split; rewrite ?Hst; simpl; try done; [congruence|]. rewrite Hck. unfold st. lia.
Qed.
Lemma quiet_checkpoint e (Q : unit → engine → Prop) :
  quiet [] e → j_checkpointed (e_journal e) < rp_sequence (st e) →
  (∀ j, j_state j = st e → quiet [] (e <| e_journal := j |>) → Q tt (e <| e_journal := j |>)) →
  post must_checkpoint Q ended e.
Proof.
  intros Hq Hlt HQ. apply checkpoint_post; [by apply quiet_ready|done|]. intros j Hj Hs Hck.
  assert (st (e <| e_journal := j |>) = st e) as Hst by done. apply HQ; [done|].
  destruct Hq as [C Y En V]. split; rewrite ?Hst; try done; [by apply core_checkpoint|]. destruct V. by split; rewrite ?Hst.
Qed.

(** ** Summaries stay valid while the conversation grows *)
Lemma running_boundaries r : running r → rp_calls r = [] →
  ∃ bs, boundaries (rp_messages r) = Ok bs ∧ length (rp_messages r) ∈ bs.
Proof.
  intros Hr Hc. destruct (rn_messages _ Hr) as (pre & body & -> & Ho & Hg). rewrite Hc in Hg.
  destruct (grouped_boundaries pre body Ho Hg) as (bs & ? & ? & _). eauto.
Qed.
Lemma prefix_len_grow ms more p : prefix_len ms = Ok p → prefix_len (ms ++ more) = Ok p.
Proof. intros (pre & body & -> & Ho & ->)%prefix_len_Ok. rewrite <- (assoc_L (++)). by apply opening_prefix_len. Qed.
Lemma summary_ok_mono bs bs' prefix s :
  (∀ k, k ∈ bs → k ∈ bs') → summary_ok bs prefix s = true → summary_ok bs' prefix s = true.
Proof.
  intros H. unfold summary_ok. rewrite !andb_true_iff, !bool_decide_eq_true. intros [[[[[? ?] ?] ?] ?] ?]. split_and!; auto.
Qed.
Lemma summary_fits_grow s ms more bs :
  summary_fits s ms → boundaries (ms ++ more) = Ok bs → summary_fits s (ms ++ more).
Proof.
  intros (bs0 & prefix & Hb & Hp & Hs & Hc) Hb'. exists bs, prefix. split_and!; [done|by apply prefix_len_grow| |done].
  eapply summary_ok_mono; [|done]. intros k. by apply (boundaries_grow _ _ _ _ _ Hb Hb').
Qed.
Lemma summarized_grow e e' :
  summarized e → e_summary e' = e_summary e → e_messages e `prefix_of` e_messages e' → summarized e'.
Proof.
  intros H Hs Hm s Hsum. rewrite Hs in Hsum. destruct (H s Hsum) as (ms & ? & ?). exists ms. split; [by etrans|done].
Qed.
(** Between groups, the summary is one of the conversation so far. *)
Lemma quiet_fits e s : quiet [] e → e_summary e = Some s → summary_fits s (e_messages e).
Proof.
  intros Q Hs. destruct (q_summarized _ _ Q s Hs) as (ms & [more Hm] & Hf).
  destruct (running_boundaries _ (c_running _ (q_core _ _ Q)) (q_calls _ _ Q)) as (bs & Hb & _).
  rewrite <- (v_messages _ (q_viewed _ _ Q)), Hm in Hb. rewrite Hm. by eapply summary_fits_grow.
Qed.
End agreement.

(** Closes what a quiet state [Q] says of the state after a plain record. *)
Ltac keep Q :=
  solve [done | exact (q_inactive _ _ Q) | exact (q_compaction _ _ Q) | exact (q_pending _ _ Q) | exact (q_calls _ _ Q)
        | exact (q_reserved _ _ Q) | exact (moves_refl _) | split; [done..|apply end_kept_refl]].
