(* ===== verification/EngineRequests.v ===== *)
(** Input of the frontend: every accepted input is in the journal before it
    is in the conversation, and waiting for input ends by the deadline.

    Requests to the model: a failed attempt is charged what it had reserved,
    and a compaction is one that replay accepts. *)
From S2P Require Import Prelude Transact Wire Text Patch FileTools AgentData AgentWire AgentWireFacts Compaction Replay ReplayTheorems Engine CompactionFacts EngineFacts EngineAgreement.
#[local] Open Scope list_scope.

Section input.
Context {FT : FloatText} {JT : JsonText} {JS : JsonSize} {SH : Sha256} {SL : Sha256Laws} {PE : Peers}.
Context {J : Type} {JO : Journal J} {JL : JournalLaws J} {SE : Session} {PL : PeersLaws s_limits s_taskless} (HL : limits_sane).
Local Notation engine := (engine (J := J)).
Implicit Types (e : engine).

Lemma limits_positive : 0 < l_response_bytes s_limits ∧ 0 < l_model_turns s_limits ∧ 0 ≤ l_context_bytes s_limits.
Proof using HL. destruct HL as [Hv]. unfold session_limits_valid in Hv. ok_inv. split_and!; [done..|]. lia. Qed.
Lemma capacity_free calls e text : quiet calls e → free_error (λ _, True) (input_capacity e text).
Proof using All.
  intros Q. destruct limits_positive as (? & _ & ?).
  apply input_capacity_free; by rewrite (c_limits _ (q_core _ _ Q)).
Qed.

(** What input does not change. *)
Record steady e e' : Prop := {
  sd_turns : b_model_turns (e_budget e') = b_model_turns (e_budget e);
  sd_initial : rp_initial_model_turns (st e') = rp_initial_model_turns (st e);
  sd_tick : (e_tick e ≤ e_tick e')%nat }.
Lemma steady_refl e : steady e e.
Proof. by split. Qed.
Lemma steady_trans e e' e'' : steady e e' → steady e' e'' → steady e e''.
Proof. intros [] []. split; try congruence. lia. Qed.
Lemma steady_moves e e' : moves e e' → steady e e'.
Proof. intros F. split; [by rewrite (mv_budget _ _ F)|by rewrite (moves_st _ _ F)|apply F]. Qed.
(** The state after a command; input clears the final response. *)
Definition received (e : engine) (accepted : bool) e' : Prop :=
  quiet [] e' ∧ steady e e' ∧ (accepted = false → rp_final_response_ready (st e') = rp_final_response_ready (st e)).

Lemma open_interaction_post e :
  quiet [] e → post open_interaction (λ _ e', received e false e' ∧ e_interactive e' = true) ended e.
Proof using All.
  intros Q. unfold open_interaction. do 2 post_step. destruct (e_interactive e) eqn:Ei.
  { post_step. split; [|done]. split_and!; [done|apply steady_refl|done]. }
  post_step. eapply synced_post; [apply Q|apply Q|done|done| |].
  { simpl. unfold apply_interaction_opened. rewrite check_run; [done|].
    rewrite (quiet_ready _ Q), <- (v_interactive _ (q_viewed _ _ Q)), Ei. done. }
  intros e' M C Hck. post_step. pose proof (cm_state _ _ _ _ M) as Hs. set (e2 := e' <| e_interactive := true |>).
  assert (st e2 = st e') as Hst by done. split; [split_and!|done].
  - eapply (quiet_after _ _ _ _ _ e2 M C); try keep Q.
    + apply (commits_ends _ _ _ _ M), Q.
    + destruct (q_viewed _ _ Q), M. split; rewrite ?Hst, ?Hs; simpl; congruence.
    + intros s. simpl. rewrite (cm_messages _ _ _ _ M), (cm_summary _ _ _ _ M). apply Q.
  - split; rewrite ?Hst, ?Hs; simpl; [by rewrite (cm_budget _ _ _ _ M)|done|]. rewrite (cm_tick _ _ _ _ M). lia.
  - intros _. by rewrite Hst, Hs.
Qed.
Lemma accept_steering_post e text input_id :
  quiet [] e → e_interactive e = true → post (accept_steering text input_id) (received e) ended e.
Proof using All.
  intros Q Hi. unfold accept_steering. destruct (steering_ok text input_id) eqn:Eok.
  2: { post_step. by apply (quiet_ended []). }
  do 3 post_step. pose proof (capacity_free [] e text Q) as Hcap. apply post_or_quit.
  destruct (input_capacity e text) as [[]|r]; [|by apply (quiet_ended [])]. do 5 post_step.
  set (e1 := e <| e_budget := _ |>). assert (st e1 = st e) as Hst by done.
  assert (core e1) as C1 by (apply core_charged, Q).
  assert (e_budget e1 = (rp_budget (st e1)) <| b_no_progress := 0 |>) as Hb by (rewrite Hst, <- (q_synced _ _ Q); done).
  destruct (np_fine _ _ C1 Hb) as [Ht Hbd]; [unfold u64, usize_max; lia|].
  eapply commit_post; [done|done| | |].
  { eapply accepts_plain; [done..|]. simpl. unfold apply_user_input. rewrite check_run; [done|].
    unfold steering_ok in Eok. ok_inv. rewrite Hst, (quiet_ready _ Q), <- (v_interactive _ (q_viewed _ _ Q)), Hi. simpl.
    rewrite !andb_true_iff. split_and!; [by apply negb_true_iff|by apply Z.leb_le|done]. }
  2: { intros e' Hr. do 2 post_step. by apply post_quit, refused_ended. }
  intros e' M. destruct (commits_core _ _ _ _ C1 M) as [C Hck]; [done..|]. do 2 post_step.
  pose proof (cm_state _ _ _ _ M) as Hs. pose proof (cm_messages _ _ _ _ M) as Hm.
  match goal with |- post _ _ _ ?x => set (e2 := x) end. assert (st e2 = st e') as Hst2 by done.
  assert (viewed e2) as V.
  { assert (viewed e1) as V1 by (destruct (q_viewed _ _ Q); by split).
    destruct V1, M. split; rewrite ?Hst2, ?Hs; simpl; congruence. }
  assert (quiet [] e2) as Q2.
  { eapply (quiet_after _ _ _ _ _ e2 M C); try keep Q; [apply (commits_ends _ _ _ _ M), Q|].
    apply (summarized_grow e e2); [apply Q|apply M|]. simpl. rewrite Hm. by exists [MUser text]. }
  post_step. eapply quiet_checkpoint; [done|done|]. intros j Hj Q3. post_step. split_and!; [done| |done].
  split; simpl; [by rewrite (cm_budget _ _ _ _ M)| |rewrite (cm_tick _ _ _ _ M); simpl; lia].
  unfold st at 1. simpl. rewrite Hj, Hst2, Hs. done.
Qed.
Lemma accept_input_post e command : quiet [] e → post (accept_input command) (received e) ended e.
Proof using All.
  intros Q. destruct command as [t| | |t i]; simpl; try (post_step; by apply (quiet_ended [])); post_step;
    (eapply post_mono; [by apply open_interaction_post| |done]); intros [] e1 [[Q1 [S1 R1]] Hi].
  - post_step. done.
  - eapply post_mono; [by apply accept_steering_post| |done]. intros a e2 (Q2 & S2 & R2). split_and!; [done|by eapply steady_trans|].
    intros Ha. rewrite R2 by done. by apply R1.
Qed.
Lemma drain_loop_post n accepted e0 e :
  received e0 accepted e → post (drain_loop n accepted) (received e0) ended e.
Proof using All.
  revert accepted e. induction n as [|n IH]; intros accepted e H; simpl; [by post_step|].
  post_step. apply (post_mono _ (λ _ e', frame e e') _ ended).
  { unfold poll_command. do 2 post_step. destruct (e_commands e); post_step; [|apply frame_refl].
    split; [|done..]. split; try done. apply kept_try_recv. }
  2: done.
  intros command e1 F. destruct H as (Q & S & R). pose proof (frame_quiet _ _ _ F Q) as Q1.
  assert (received e0 accepted e1) as H1.
  { split_and!; [done|eapply steady_trans; [done|apply steady_moves, F]|]. intros Ha. by rewrite (frame_st _ _ F), R. }
  destruct command as [command|]; [|by post_step]. post_step. eapply post_mono; [by apply accept_input_post| |done].
  intros a e2 (Q2 & S2 & R2). apply IH. split_and!; [done|eapply steady_trans; [apply H1|exact S2]|].
  intros [Ha Ha']%orb_false_iff. rewrite R2 by done. by apply H1.
Qed.
Lemma drain_input_post e : quiet [] e → post drain_input (received e) ended e.
Proof using All. intros Q. apply drain_loop_post. split_and!; [done|apply steady_refl|done]. Qed.

(** Waiting ends by the deadline: each command takes a moment. *)
Lemma wait_for_input_post horizon deadline patience e :
  (∀ k, (horizon ≤ k)%nat → deadline ≤ now k) → (0 < patience)%nat → (horizon < patience + e_tick e)%nat → quiet [] e →
  post (wait_for_input patience deadline) (λ _ e', quiet [] e' ∧ steady e e') ended e.
Proof using All.
  intros Hh. revert e. induction patience as [|patience IH]; intros e H0 Hp Q; simpl; [lia|].
  do 2 post_step. destruct (e_commands e); [|post_step; by apply (quiet_ended [])]. post_step.
  apply interrupt_frame; [apply kept_recv|..].
  - intros r e1 Hr F. post_step. apply (quiet_ended []); [by eapply frame_quiet|done].
  - intros command e1 F Ht Hnow _. pose proof (frame_quiet _ _ _ F Q) as Q1.
    destruct command as [command|]; [|post_step; by apply (quiet_ended [])].
    assert (e_tick e < horizon)%nat.
    { destruct (decide (horizon ≤ e_tick e)%nat) as [Hge|]; [|lia]. specialize (Hh _ Hge). lia. }
    post_step. eapply post_mono; [by apply accept_input_post| |done]. intros a e2 (Q2 & S2 & _).
    assert (steady e e2) as S02 by (eapply steady_trans; [apply steady_moves, F|done]).
    destruct a; [by post_step|]. pose proof (sd_tick _ _ S2) as Ht2.
    eapply post_mono; [apply IH; [lia|lia|done]| |done]. intros [] e3 [Q3 S3]. split; [done|by eapply steady_trans].
Qed.
End input.

Section requests.
Context {FT : FloatText} {JT : JsonText} {JS : JsonSize} {SH : Sha256} {SL : Sha256Laws} {PE : Peers}.
Context {J : Type} {JO : Journal J} {JL : JournalLaws J} {SE : Session} {PL : PeersLaws s_limits s_taskless} (HL : limits_sane).
Local Notation engine := (engine (J := J)).
Implicit Types (e : engine).

(** ** Failed attempts *)
Lemma awaiting_idle compaction cut e : awaiting compaction cut e → rp_calls (st e) = [] ∧ rp_pending_effect (st e) = None.
Proof. intros A. apply (rn_active _ (c_running _ (a_core _ _ _ A))), A. Qed.
Definition retried e (b : Budget) (retryable : bool) : Prop :=
  b = e_budget e
  ∨ (retryable = true ∧ b_retries (e_budget e) < l_retries s_limits
     ∧ b = (e_budget e) <| b_retries := u64_inc (b_retries (e_budget e)) |>).
Lemma retried_spec compaction cut e b retryable :
  awaiting compaction cut e → retried e b retryable →
  ∃ r, b = (rp_budget (st e)) <| b_retries := r |> ∧ u64 r ∧ b_retries (rp_budget (st e)) ≤ r
    ∧ r ≤ Z.max (b_retries s_budget) (l_retries s_limits)
    ∧ (r = b_retries (rp_budget (st e))
       ∨ (retryable = true ∧ b_retries (rp_budget (st e)) < usize_max ∧ r = u64_inc (b_retries (rp_budget (st e))))).
Proof using HL.
  intros A [->|(Hr & Hlt & ->)]; rewrite (a_synced _ _ _ A) in *; pose proof (c_typed _ (a_core _ _ _ A)) as T;
    destruct (bt_retries _ T); pose proof (lt_retries HL) as [? ?];
    destruct (c_bounded _ (a_core _ _ _ A)) as (_ & _ & ?).
  - exists (b_retries (rp_budget (st e))). split_and!; try done; [by destruct (rp_budget (st e))|by left].
  - rewrite u64_inc_small by lia. exists (b_retries (rp_budget (st e)) + 1). split_and!; try done; try (unfold u64; lia).
    right. split_and!; [done|lia|done].
Qed.

(** The state after an attempt was given up. *)
Definition gave_up (e : engine) (b : Budget) e' : Prop :=
  quiet [] e' ∧ b_model_turns (e_budget e') = b_model_turns b ∧ b_retries (e_budget e') = b_retries b
  ∧ (e_tick e ≤ e_tick e')%nat ∧ e_messages e' = e_messages e.
Lemma record_failure_post compaction cut e b retryable error :
  awaiting compaction cut e → retried e b retryable →
  post (record_failure retryable error) (λ _ e', gave_up e b e') ended (e <| e_budget := b |>).
Proof using All.
  intros A (r & -> & Hru & Hrm & Hrb & Hr)%(retried_spec _ _ _ _ _ A). unfold record_failure. do 6 post_step. simpl.
  match goal with |- post _ _ _ ?x => set (e1 := x) end. assert (st e1 = st e) as Hst by done.
  assert (core e1) as C1 by (destruct (a_core _ _ _ A); by split).
  pose proof (c_typed _ (a_core _ _ _ A)) as T. set (u := mk_usage _ _ _).
  assert (usage_typed u) as Hu by (destruct T; by split).
  destruct (awaiting_idle _ _ _ A) as [Hcalls Hpend].
  assert (budget_typed (e_budget e1)) as T1.
  { apply charge_typed; [done|]. destruct T. by split. }
  eapply must_commit_post; [done..| |done| |].
  - split.
    + replace (elapsed_now e1) with ((charge u (unreserve (rp_budget (st e)))) <| b_retries := r |>
        <| b_elapsed_ms := millis_since s_start (now (e_tick e)) |>) by (by destruct (rp_budget (st e))).
      apply check_failed; [apply (c_elapsed _ (a_core _ _ _ A))|done..].
    + simpl. unfold apply_model_failed. rewrite Hst, check_run by apply A. done.
  - destruct (c_bounded _ (a_core _ _ _ A)) as (? & ? & ?). by split_and!.
  - intros e' M C Hck. split_and!.
    + eapply (quiet_after [] _ _ _ _ e' M C); try keep M; try done.
      * apply (commits_ends _ _ _ _ M), A.
      * assert (viewed e1) as V1 by (destruct (a_viewed _ _ _ A); by split).
        destruct V1, M. split; rewrite ?cm_state; simpl; congruence.
      * intros s. rewrite (cm_messages _ _ _ _ M), (cm_summary _ _ _ _ M). apply A.
    + by rewrite (cm_budget _ _ _ _ M).
    + by rewrite (cm_budget _ _ _ _ M).
    + rewrite (cm_tick _ _ _ _ M). simpl. lia.
    + by rewrite (cm_messages _ _ _ _ M).
Qed.
Lemma same_budget e : e = e <| e_budget := e_budget e |>.
Proof. by destruct e. Qed.
Lemma give_up_post {A} compaction cut e retryable error r (Q : A → engine → Prop) :
  awaiting compaction cut e → free_end r = true → post (record_failure retryable error ;; quit r) Q ended e.
Proof using All.
  intros Aw Hr. post_step. rewrite (same_budget e).
  eapply post_mono; [eapply record_failure_post; [done|by left]| |done].
  intros _ e' (Q' & _). post_step. by apply (quiet_ended []).
Qed.
Lemma failed_attempt_post {A} compaction cut e r (Q : A → engine → Prop) :
  awaiting compaction cut e → free_end r = true → post (failed_attempt r) Q ended e.
Proof using All. apply give_up_post. Qed.
Lemma provider_failure_free k : free_end (provider_failure k) = true.
Proof. by destruct k. Qed.

(** ** Beginning a request *)
(** The conversation stays while a request is prepared. *)
Record calm e e' : Prop := {
  cl_steady : steady e e';
  cl_messages : e_messages e' = e_messages e;
  cl_summary : e_summary e' = e_summary e;
  cl_steering : e_latest_steering e' = e_latest_steering e }.
Lemma calm_refl e : calm e e.
Proof. split; [apply steady_refl|done..]. Qed.
Lemma calm_trans e e' e'' : calm e e' → calm e' e'' → calm e e''.
Proof. intros [] []. split; [by eapply steady_trans|congruence..]. Qed.
Lemma calm_frame e e' : frame e e' → calm e e'.
Proof. intros F. split; [apply steady_moves, F|apply F..]. Qed.
(** A record that only keeps a projection. *)
Lemma quiet_plain e ev s p (Q : unit → engine → Prop) :
  quiet [] e → plain_event ev = true → is_ended ev = false →
  match apply_event (st e) (rp_budget (st e)) (elapsed_now e) ev with Ok s' => s' = s | Err _ => oversized ev end →
  s = (st e) <| rp_projection := p |> →
  (∀ e', quiet [] e' → calm e e' → Q tt e') → post (must_commit ev) Q ended e.
Proof using All.
  intros Hq Hp Hen Ha -> HQ. eapply synced_post; [apply Hq|apply Hq|done|done|done|]. intros e' M C Hck. apply HQ.
  - eapply (quiet_after [] _ _ _ _ e' M C); try keep Hq.
    + apply (commits_ends _ _ _ _ M), Hq.
    + destruct (q_viewed _ _ Hq), M. split; rewrite ?cm_state; simpl; congruence.
    + intros s. rewrite (cm_messages _ _ _ _ M), (cm_summary _ _ _ _ M). apply Hq.
  - split; [|by apply M..]. split; [by rewrite (cm_budget _ _ _ _ M)|by rewrite (cm_state _ _ _ _ M)|].
    rewrite (cm_tick _ _ _ _ M). lia.
Qed.
Lemma same_projection (r : Replay) : r = r <| rp_projection := rp_projection r |>.
Proof. by destruct r. Qed.
Lemma stable_prefix_le old new : (stable_prefix old new ≤ length new)%nat.
Proof. revert new. induction old as [|a old IH]; intros [|b new]; simpl; try lia. destruct (decide _); [|lia]. specialize (IH new). lia. Qed.
Lemma composed_post e c (Q : unit → engine → Prop) :
  quiet [] e → cc_history_messages c = length (e_messages e) → (0 < cc_request_messages c)%nat →
  (cc_stable_prefix_messages c ≤ cc_request_messages c)%nat → 0 < cc_input_tokens_estimated c →
  0 < cc_output_tokens_reserved c →
  saturating_add (cc_input_tokens_estimated c) (cc_output_tokens_reserved c) ≤ cc_context_window_tokens c →
  (∀ e', quiet [] e' → calm e e' → Q tt e') → post (must_commit (ContextComposed c)) Q ended e.
Proof using All.
  intros Hq H1 H2 H3 H4 H5 H6 HQ. eapply quiet_plain; [done..| |apply same_projection|done].
  simpl. unfold apply_context_composed. rewrite check_run; [done|].
  rewrite (quiet_ready _ Hq), <- (v_messages _ (q_viewed _ _ Hq)), !andb_true_iff.
  split_and!; [done|by apply Nat.eqb_eq|by apply Nat.ltb_lt|by apply Nat.leb_le|by apply Z.ltb_lt..|by apply Z.leb_le].
Qed.
(** Committing an attempt with its reservation. *)
Lemma attempt_post e e1 ev input output compaction cut s (Q : unit → engine → Prop) :
  quiet [] e → b_model_turns (e_budget e) < l_model_turns s_limits → 0 < input ≤ usize_max → 0 < output ≤ usize_max →
  (∃ turn, ev = ModelStarted turn) ∨ (∃ turn cut, ev = CompactionStarted turn cut) →
  (let b := (e_budget e) <| b_model_turns := u64_inc (b_model_turns (e_budget e)) |>
               <| b_reserved_input := input |> <| b_reserved_output := output |> in
   e_budget e1 = b ∧ frame e (e1 <| e_budget := e_budget e |>)
   ∧ apply_event (st e) (rp_budget (st e)) (elapsed_now e1) ev = Ok s) →
  s = (st e) <| rp_model_active := true |> <| rp_compaction_active := compaction |> <| rp_compaction_cut := cut |>
        <| rp_final_response_ready := false |> →
  (∀ e', awaiting compaction cut e' → b_model_turns (e_budget e') = b_model_turns (e_budget e) + 1 →
     b_reserved_input (e_budget e') = input → b_reserved_output (e_budget e') = output →
     e_messages e' = e_messages e → e_summary e' = e_summary e → e_latest_steering e' = e_latest_steering e →
     rp_initial_model_turns (st e') = rp_initial_model_turns (st e) → (e_tick e ≤ e_tick e')%nat → Q tt e') →
  post (must_commit ev) Q ended e1.
Proof using All.
  intros Hq Ht Hi Ho Hev (Hb & F & Ha) -> HQ. pose proof (c_typed _ (q_core _ _ Hq)) as T.
  assert (st e1 = st e) as Hst by (apply (frame_st _ _ F)).
  assert (core e1) as C1.
  { pose proof (moves_core _ _ (f_moves _ _ F) (q_core _ _ Hq)) as []. by split. }
  pose proof (lt_turns HL) as [? ?]. rewrite (q_synced _ _ Hq) in Hb, Ht. destruct (bt_model_turns _ T).
  assert (b_model_turns (e_budget e1) = b_model_turns (rp_budget (st e)) + 1) as Hturns.
  { rewrite Hb. simpl. apply u64_inc_small. lia. }
  eapply must_commit_post; [done|..].
  - by destruct Hev as [[? ->]|(? & ? & ->)].
  - by destruct Hev as [[? ->]|(? & ? & ->)].
  - split; [|rewrite Hst, Ha; reflexivity]. unfold elapsed_now. rewrite Hst, Hb.
    apply check_attempt; [done|rewrite <- Hst; apply (c_elapsed _ C1)|lia| | |lia|lia];
      rewrite <- (q_synced _ _ Hq); apply (q_reserved _ _ Hq).
  - destruct T. rewrite Hb in *. split; simpl in *; try done; unfold u64 in *; simpl in *; lia.
  - destruct (c_bounded _ (q_core _ _ Hq)) as (? & ? & ?). split_and!; [rewrite Hturns; lia|by rewrite Hb..].
  - intros e' M C Hck. apply HQ; rewrite ?(cm_messages _ _ _ _ M), ?(cm_summary _ _ _ _ M), ?(cm_steering _ _ _ _ M); try apply F.
    + eapply (awaiting_after _ _ _ _ _ _ e' M C); try keep Hq.
      * apply (commits_ends _ _ _ _ M). apply (moves_ends_free _ _ (f_moves _ _ F)), Hq.
      * pose proof (frame_viewed _ _ F (q_viewed _ _ Hq)) as V. assert (viewed e1) as V1 by (destruct V; by split).
        destruct V1, M. split; rewrite ?cm_state; simpl; congruence.
      * intros s. rewrite (cm_messages _ _ _ _ M), (cm_summary _ _ _ _ M). pose proof (f_messages _ _ F) as Hm.
        pose proof (f_summary _ _ F) as Hs. simpl in Hm, Hs. rewrite Hm, Hs. apply (q_summarized _ _ Hq).
    + rewrite (cm_budget _ _ _ _ M), (q_synced _ _ Hq). exact Hturns.
    + rewrite (cm_budget _ _ _ _ M). simpl. by rewrite Hb.
    + rewrite (cm_budget _ _ _ _ M). simpl. by rewrite Hb.
    + by rewrite (cm_state _ _ _ _ M).
    + rewrite (cm_tick _ _ _ _ M). pose proof (mv_tick _ _ (f_moves _ _ F)). simpl in *. lia.
Qed.
(** Committing an answer with its usage. *)
Lemma settled_post compaction cut e e1 ev u n s (Q : unit → engine → Prop) :
  awaiting compaction cut e → usage_typed u → u64 n →
  (∃ response, ev = ModelCompleted response u) ∨ (∃ summary, ev = CompactionCompleted summary u) →
  e_budget e1 = (charge u (unreserve (e_budget e))) <| b_no_progress := n |> → frame e (e1 <| e_budget := e_budget e |>) →
  apply_event (st e) (rp_budget (st e)) (elapsed_now e1) ev = Ok s →
  (∀ e', commits e1 ev s e' → core e' → j_checkpointed (e_journal e') < rp_sequence (st e') → ends_free e' →
     b_reserved_input (e_budget e1) = 0 ∧ b_reserved_output (e_budget e1) = 0 →
     b_model_turns (e_budget e') = b_model_turns (e_budget e) → (e_tick e ≤ e_tick e')%nat → Q tt e') →
  post (must_commit ev) Q ended e1.
Proof using All.
  intros A Hu Hn Hev Hb F Ha HQ. assert (st e1 = st e) as Hst by (apply (frame_st _ _ F)).
  assert (core e1) as C1 by (pose proof (moves_core _ _ (f_moves _ _ F) (a_core _ _ _ A)) as []; by split).
  rewrite (a_synced _ _ _ A) in Hb. pose proof (c_typed _ (a_core _ _ _ A)) as T. pose proof (charge_typed u _ Hu T) as T1.
  eapply must_commit_post; [done|..].
  - by destruct Hev as [[? ->]|[? ->]].
  - by destruct Hev as [[? ->]|[? ->]].
  - split; [|rewrite Hst, Ha; reflexivity]. unfold elapsed_now. rewrite Hst, Hb.
    apply (check_settled (rp_budget (st e)) (millis_since s_start (now (e_tick e1))) n); [done|rewrite <- Hst; apply (c_elapsed _ C1)|done..].
  - rewrite Hb. destruct T1. by split.
  - rewrite Hb. destruct (c_bounded _ (a_core _ _ _ A)) as (? & ? & ?). unfold charge, unreserve. destruct (reported u); by split_and!.
  - assert (b_model_turns (charge u (unreserve (rp_budget (st e)))) = b_model_turns (rp_budget (st e))) as Ht by (unfold charge; by destruct (reported u)).
    intros e' M C Hck. apply HQ; [done..| | | |].
    + apply (commits_ends _ _ _ _ M), (moves_ends_free _ _ (f_moves _ _ F)), A.
    + rewrite Hb. unfold charge, unreserve. by destruct (reported u).
    + rewrite (cm_budget _ _ _ _ M), (a_synced _ _ _ A). simpl. by rewrite Hb.
    + rewrite (cm_tick _ _ _ _ M). pose proof (mv_tick _ _ (f_moves _ _ F)). simpl in *. lia.
Qed.
End requests.
