(* ===== verification/EngineDrafts.v ===== *)
(** Compaction: the summary the engine obtains is one that the history
    supports, whatever the provider answers.

    Assembling a request: what the engine commits of a draft is what replay
    recomputes from the journal. *)
From S2P Require Import Prelude Transact Wire Text Patch FileTools AgentData AgentWire AgentWireFacts Compaction Replay ReplayTheorems Engine CompactionFacts EngineFacts EngineAgreement EngineRequests.
#[local] Open Scope list_scope.

Section compaction.
Context {FT : FloatText} {JT : JsonText} {JS : JsonSize} {SH : Sha256} {SL : Sha256Laws} {PE : Peers}.
Context {J : Type} {JO : Journal J} {JL : JournalLaws J} {SE : Session} {PL : PeersLaws s_limits s_taskless} (HL : limits_sane).
Local Notation engine := (engine (J := J)).
Implicit Types (e : engine).

Lemma identity_length v : slen (identity v) = 64.
Proof using SL. unfold slen, identity. by rewrite hex_bytes_length, sha256_length. Qed.
Lemma project_summary s ms : summary_fits s ms → is_ok (project (projection_of s) ms) = true.
Proof.
  intros (bs & prefix & Hb & Hp & Hs & Hc). unfold project. rewrite Hb, Hp. simpl. rewrite check_run by done.
  rewrite check_run by (by apply Z.leb_le). done.
Qed.
(** The summary of a plan, with an acceptable text. *)
Lemma new_summary_fits e window plan text :
  planned e (e_messages e) (e_latest_steering e) window plan →
  (∀ s, e_summary e = Some s → summary_fits s (e_messages e)) → e_limits e = s_limits →
  blank text = false → slen text ≤ pn_summary_cap plan →
  summary_fits (mk_summary (retained_from (pn_summary plan)) text (sm_handles (pn_summary plan))) (e_messages e).
Proof using HL SL JS.
  intros [(bs & prefix & Hb & Hp & Hin & Hex & _) Hh _ _ _ _ _ Hcap] Hsum Hlim Hblank Hlen.
  exists bs, prefix. split_and!; [done..| |].
  - assert (prefix < retained_from (pn_summary plan))%nat as Hlt.
    { destruct (e_summary e) as [s|] eqn:Es; [|done]. destruct (Hsum s eq_refl) as (bs' & prefix' & _ & Hp' & Hok & _).
      rewrite Hp in Hp'. injection Hp' as <-. unfold summary_ok in Hok. ok_inv. lia. }
    destruct (limits_positive HL) as (Hr & _ & _).
    pose proof (summary_cap_small e window) as Hsm. rewrite Hlim, <- Hcap in Hsm. specialize (Hsm ltac:(lia)).
    unfold summary_ok. simpl. rewrite Hh, !andb_true_iff. pose proof (recent_length (e_messages e) (retained_from (pn_summary plan))).
    split_and!; [by apply bool_decide_eq_true|by apply Nat.ltb_lt|by rewrite Hblank|apply Z.leb_le; lia|
      apply Nat.leb_le; unfold MAX_HANDLES; lia|].
    apply forallb_forall. intros h Hin'%list_elem_of_In. apply recent_spec in Hin' as [Hhs Hmsg].
    apply handles_spec in Hhs as (i & v & _ & Hd & -> & ->). rewrite Hd, identity_length. simpl.
    rewrite !andb_true_r. by apply Nat.ltb_lt.
  - unfold catalog. simpl. rewrite Hh. apply shrink_spec.
Qed.

(** ** The request *)
Definition compacting e (plan : CompactionPlan) e' : Prop :=
  awaiting true (Some (retained_from (pn_summary plan))) e' ∧ b_model_turns (e_budget e') = b_model_turns (e_budget e) + 1
  ∧ e_messages e' = e_messages e ∧ e_summary e' = e_summary e ∧ e_latest_steering e' = e_latest_steering e
  ∧ rp_initial_model_turns (st e') = rp_initial_model_turns (st e) ∧ (e_tick e ≤ e_tick e')%nat.
Lemma compacting_frame e plan e' e'' : compacting e plan e' → frame e' e'' → compacting e plan e''.
Proof using PL.
  intros (A & Hb & Hm & Hs & Hst & Hi & Ht) F. split_and!; [by eapply frame_awaiting|..];
    rewrite ?(f_messages _ _ F), ?(f_summary _ _ F), ?(f_steering _ _ F), ?(frame_st _ _ F), ?(mv_budget _ _ (f_moves _ _ F)); try done.
  pose proof (mv_tick _ _ (f_moves _ _ F)). lia.
Qed.
Lemma compose_compaction_post e plan window :
  quiet [] e → planned e (e_messages e) (e_latest_steering e) window plan →
  post (compose_compaction plan window) (λ _ e', compacting e plan e') ended e.
Proof using All.
  intros Q P. unfold compose_compaction. do 3 post_step.
  pose proof (pl_input _ _ _ _ _ P). pose proof (pl_output _ _ _ _ _ P). pose proof (pl_turns _ _ _ _ _ P) as Hturns.
  apply (composed_post HL); simpl; try done; try lia;
    [rewrite (pl_request _ _ _ _ _ P); lia|apply stable_prefix_le|apply (pl_window _ _ _ _ _ P)|].
  intros e1 Q1 K. do 2 post_step. unfold reserve. do 4 post_step.
  pose proof (bt_model_turns _ (c_typed _ (q_core _ _ Q1))) as [? ?]. rewrite <- (q_synced _ _ Q1) in *.
  destruct (lt_turns HL) as [? ?]. rewrite (c_limits _ (q_core _ _ Q)), <- (sd_turns _ _ (cl_steady _ _ K)) in Hturns.
  assert (b_model_turns (e_budget e1) + 1 < l_model_turns s_limits) as Hlt by (unfold saturating_add in Hturns; lia).
  eapply (attempt_post HL e1 _ _ (pn_input plan) (max_output_tokens (pn_request plan))
            true (Some (retained_from (pn_summary plan)))); [done|lia|done|unfold usize_max; lia| | |done|].
  - right. do 2 eexists. reflexivity.
  - split_and!; [done| |].
    + split; [|done..]. split; try done. apply end_kept_refl.
    + cbn [apply_event]. unfold apply_compaction_started. rewrite check_run by (by apply quiet_ready).
      rewrite check_run by (by rewrite (q_synced _ _ Q1), !Z.eqb_refl).
      destruct (pl_cut _ _ _ _ _ P) as (bs & prefix & Hb & Hp & Hin & Hex & Hst).
      assert (rp_messages (st e1) = e_messages e) as Hmsg by (by rewrite <- (v_messages _ (q_viewed _ _ Q1)), (cl_messages _ _ K)).
      rewrite (Ok_run _ bs) by (by rewrite Hmsg). rewrite check_run by (by apply bool_decide_eq_true).
      rewrite (Ok_run _ prefix) by (by rewrite Hmsg). rewrite check_run; [done|].
      rewrite <- (v_steering _ (q_viewed _ _ Q1)), (cl_steering _ _ K). apply andb_true_iff. split.
      * apply Nat.ltb_lt. destruct (e_summary e) as [s|] eqn:Es; [|done].
        destruct (quiet_fits _ s Q Es) as (bs' & prefix' & _ & Hp' & Hok & _).
        rewrite Hp in Hp'. injection Hp' as <-. unfold summary_ok in Hok. ok_inv. lia.
      * destruct (e_latest_steering e); [by apply Nat.leb_le|done].
  - intros e' A Ht _ _ Hm Hs Hst Hi Hk. destruct K. destruct cl_steady. split_and!; try congruence. lia.
Qed.
Lemma begin_request_post e plan e0 request deadline :
  compacting e0 plan e → post (begin_request deadline request) (λ _ e', compacting e0 plan e') ended e.
Proof using All.
  intros K. unfold begin_request. post_step. apply interrupt_frame; [apply kept_provider_start|..].
  - intros r e1 Hr F. pose proof (compacting_frame _ _ _ _ K F) as [A _]. by eapply (failed_attempt_post HL).
  - intros [[]|err] e1 F _ _ _; pose proof (compacting_frame _ _ _ _ K F) as K1; [by post_step|].
    destruct K1 as [A _]. eapply (give_up_post HL); [done|apply provider_failure_free].
Qed.
(** What the stream of a summary ends with. *)
Definition streamed_summary e0 plan (completed : res EndReason (ModelResponse * option Usage * Z)) e' : Prop :=
  compacting e0 plan e'
  ∧ match completed with
    | ROk (_, usage, streamed) => opt_typed usage_typed usage ∧ u64 streamed
    | RErr reason => free_end reason = true
    end.
Lemma cancel_frame e : frame e (e <| e_peer := provider_cancel (e_peer e) |>).
Proof using PL. split; [|done..]. split; try done. apply kept_provider_cancel. Qed.
Lemma summary_stream_post fuel deadline cap streamed e0 plan e :
  u64 streamed → cap < usize_max → streamed ≤ cap → (Z.to_nat (cap - streamed) < fuel)%nat → compacting e0 plan e →
  post (summary_stream fuel deadline cap streamed) (streamed_summary e0 plan) ended e.
Proof using All.
  intros Hs Hcap. revert streamed Hs e. induction fuel as [|fuel IH]; intros streamed Hs e Hle Hf K; [lia|]. cbn [summary_stream].
  post_step. apply interrupt_frame; [apply kept_next_event|..].
  { intros r e1 Hr F. post_step. split; [by eapply compacting_frame|done]. }
  intros answer e1 F _ _ E. pose proof (compacting_frame _ _ _ _ K F) as K1.
  assert (∀ text, post (let streamed := saturating_add streamed (Z.max (slen text) 1) in
      if cap <? streamed then mret (RErr (EndLimit LResponseBytes)) else summary_stream fuel deadline cap streamed)
      (streamed_summary e0 plan) ended e1) as Hd.
  { intros text. cbv zeta. destruct (Z.ltb_spec cap (saturating_add streamed (Z.max (slen text) 1))); [by post_step|].
    unfold u64, saturating_add in *. apply IH; [unfold u64; lia|lia|lia|done]. }
  destruct answer as [[[text|text|response usage]|]|err]; [apply Hd|apply Hd|..].
  - post_step. split; [done|]. split; [|done]. destruct usage; [|done]. by eapply usage_typed_peer.
  - by post_step.
  - post_step. unfold cancel_provider. post_step. destruct K1 as [A _].
    eapply (give_up_post HL); [eapply frame_awaiting; [apply cancel_frame|done]|apply provider_failure_free].
Qed.
Lemma summary_of_post cap completed e0 plan e :
  streamed_summary e0 plan completed e →
  post (summary_of cap completed) (λ a e', compacting e0 plan e'
    ∧ let '(response, usage, streamed) := a in blank (rs_text response) = false ∧ slen (rs_text response) ≤ cap
      ∧ opt_typed usage_typed usage ∧ u64 streamed) ended e.
Proof using All.
  intros [K Hc]. destruct completed as [[[response usage] streamed]|r]; simpl; [|destruct K as [A _]; by eapply (failed_attempt_post HL)].
  destruct (_ || blank (rs_text response)) eqn:Eb; [destruct K as [A _]; by eapply (failed_attempt_post HL)|].
  apply orb_false_iff in Eb as [_ Eb]. do 2 post_step.
  destruct (_ || none _) eqn:El; [destruct K as [A _]; by eapply (failed_attempt_post HL)|].
  apply orb_false_iff in El as [El%Z.ltb_ge _]. post_step. naive_solver.
Qed.
(** ** Compaction *)
Definition compacted e (summary : Summary) e' : Prop :=
  quiet [] e' ∧ e_summary e' = Some summary ∧ e_messages e' = e_messages e
  ∧ b_model_turns (e_budget e) < b_model_turns (e_budget e') < l_model_turns s_limits
  ∧ rp_initial_model_turns (st e') = rp_initial_model_turns (st e) ∧ (e_tick e ≤ e_tick e')%nat.
Lemma summary_recorded e e0 plan window summary u b :
  compacting e0 plan e → planned e0 (e_messages e0) (e_latest_steering e0) window plan →
  summary_fits summary (e_messages e0) → retained_from summary = retained_from (pn_summary plan) →
  sm_handles summary = sm_handles (pn_summary plan) →
  apply_event (st e) (rp_budget (st e)) b (CompactionCompleted summary u)
  = Ok ((st e) <| rp_model_active := false |> <| rp_compaction_active := false |> <| rp_compaction_cut := None |>
          <| rp_summary := Some summary |>).
Proof using All.
  intros (A & Hb & Hm & Hs & Hst & _) P Hfit Hcut Hh. cbn [apply_event]. unfold apply_compaction_completed.
  rewrite check_run.
  2: { rewrite (a_active _ _ _ A), (a_compaction _ _ _ A), (a_cut _ _ _ A), <- (v_summary _ (a_viewed _ _ _ A)), Hs, Hcut, Hh.
       rewrite (pl_handles _ _ _ _ _ P). pose proof (recent_length (e_messages e0) (retained_from (pn_summary plan))).
       rewrite bool_decide_eq_true_2 by done. simpl. apply andb_true_iff. split; [|by apply Nat.leb_le].
       destruct (pl_cut _ _ _ _ _ P) as (bs & prefix & _ & _ & _ & Hex & _). destruct (e_summary e0); [by apply Nat.ltb_lt|done]. }
  assert (rp_messages (st e) = e_messages e0) as Hmsg by (by rewrite <- (v_messages _ (a_viewed _ _ _ A))).
  rewrite check_run.
  2: { rewrite Hh, (pl_handles _ _ _ _ _ P), Hmsg. apply forallb_forall. intros h Hin%list_elem_of_In.
       apply bool_decide_eq_true. by apply recent_spec in Hin as [? _]. }
  pose proof (project_summary _ _ Hfit) as Hp. destruct (project (projection_of summary) (e_messages e0)) as [out|] eqn:Ep; [|done].
  rewrite (Ok_run _ out); [done|]. by rewrite Hmsg.
Qed.
Lemma record_summary_post e e0 plan window summary u :
  compacting e0 plan e → planned e0 (e_messages e0) (e_latest_steering e0) window plan → e_limits e0 = s_limits →
  budget_typed (e_budget e0) →
  summary_fits summary (e_messages e0) → retained_from summary = retained_from (pn_summary plan) →
  sm_handles summary = sm_handles (pn_summary plan) → usage_typed u →
  post (must_commit (CompactionCompleted summary u) ;; must_checkpoint ;;
        update (λ e, e <| e_summary := Some summary |>) ;; mret summary)
    (compacted e0) ended
    (e <| e_budget := charge u (unreserve (e_budget e)) |> <| e_retryable_provider_failure := false |>).
Proof using All.
  intros K P Hlim Htb Hfit Hcut Hh Hu. pose proof K as (A & Hb & Hm & Hs & Hst & Hi & Ht). set (e1 := e <| e_budget := _ |> <| _ := _ |>).
  post_step. pose proof (bt_no_progress _ (charge_typed u _ Hu (c_typed _ (a_core _ _ _ A)))) as Hnp.
  rewrite <- (a_synced _ _ _ A) in Hnp.
  eapply (settled_post HL _ _ e e1 _ u _ _ _ A Hu Hnp).
  - right. by eexists.
  - simpl. generalize (charge u (unreserve (e_budget e))). by intros [].
  - split; [|done..]. split; try done. apply end_kept_refl.
  - by eapply summary_recorded.
  - intros e' M C Hck En Hres Hturns Htick. pose proof (cm_state _ _ _ _ M) as Hs'. destruct (awaiting_idle _ _ _ A) as [Hcalls Hpend].
    post_step. apply checkpoint_post; [|done|].
    { apply checkpoint_ready_true. rewrite Hs'. split_and!; try done. pose proof (rn_sequence _ (c_running _ (a_core _ _ _ A))). unfold e1, st in *. simpl in *. lia. }
    intros j Hj Hjs Hjc. do 3 post_step. set (e2 := e' <| e_journal := j |> <| e_summary := _ |>).
    assert (st e2 = st e') as Hst2 by done. assert (st e1 = st e) by done. assert (viewed e1) as V1 by (destruct (a_viewed _ _ _ A); by split).
    assert (viewed e2) as V2 by (destruct V1, M; split; rewrite ?Hst2, ?Hs'; simpl; congruence).
    assert (e_messages e2 = e_messages e0) as Hm2 by (simpl; rewrite (cm_messages _ _ _ _ M); done).
    pose proof (pl_turns _ _ _ _ _ P) as Hlt. destruct (lt_turns HL). destruct (bt_model_turns _ Htb).
    rewrite Hlim in Hlt. unfold saturating_add in Hlt.
    split_and!; [|done..|simpl; lia|simpl; lia| |simpl; lia].
    + pose proof (core_checkpoint _ _ C Hj Hjs Hjc) as C2. split; rewrite ?Hst2, ?Hs'; try done.
      * destruct C2. by split.
      * simpl. by rewrite (cm_budget _ _ _ _ M).
      * simpl. rewrite (cm_budget _ _ _ _ M). exact Hres.
      * intros s' [= <-]. exists (e_messages e0). by rewrite Hm2.
    + by rewrite Hst2, Hs', <- Hi.
Qed.
Lemma compact_post e base tools c limit deadline :
  quiet [] e → 0 < cp_output c → 0 ≤ cp_remaining c → post (compact base tools c limit deadline) (compacted e) ended e.
Proof using All.
  intros Q Ho Hrem. unfold compact. do 3 post_step. destruct (limits_positive HL) as (Hres & _ & _).
  pose proof (c_limits _ (q_core _ _ Q)) as Hlim.
  pose proof (plan_spec e base (e_messages e) (e_latest_steering e) tools c limit Ho Hrem ltac:(by rewrite Hlim)) as P.
  apply post_or_quit. destruct (plan_compaction _ _ _ _ _ _ _) as [plan|r]; [|by apply (quiet_ended [])]. simpl in P.
  post_step. eapply post_mono; [by apply compose_compaction_post| |done]. intros [] e1 K1.
  post_step. eapply post_mono; [by apply (begin_request_post _ plan e)| |done]. intros [] e2 K2. post_step.
  pose proof (pl_cap _ _ _ _ _ P) as Hcap. pose proof (summary_cap_small e (cp_window c)) as Hsm.
  rewrite Hlim, <- Hcap in Hsm. specialize (Hsm ltac:(lia)). unfold MAX_SUMMARY_BYTES in Hsm.
  eapply post_mono; [eapply (summary_stream_post _ _ _ _ e plan); [unfold u64, usize_max; lia|unfold usize_max; lia|lia|lia|done]| |done].
  intros completed e3 S3. post_step. unfold cancel_provider. do 2 post_step.
  assert (streamed_summary e plan completed (e3 <| e_peer := provider_cancel (e_peer e3) |>)) as S3'.
  { destruct S3 as [K3 ?]. split; [|done]. eapply compacting_frame; [done|apply cancel_frame]. }
  eapply post_mono; [by eapply (summary_of_post _ _ e plan)| |done]. clear S3 S3' e3 completed.
  intros [[response usage] streamed] e3 (K3 & Hblank & Hlen & Hus & Hstr). do 4 post_step.
  set (u := default _ usage). set (summary := mk_summary _ _ _).
  assert (summary_fits summary (e_messages e)) as Hfit by (eapply new_summary_fits; [done|intros; by apply quiet_fits|done..]).
  eapply record_summary_post; [done..| | | | |]; try done.
  - rewrite (q_synced _ _ Q). apply (c_typed _ (q_core _ _ Q)).
  - unfold u. destruct usage as [u'|]; [done|]. pose proof (pl_input _ _ _ _ _ P). split; unfold u64 in *; simpl; [lia|].
    unfold usize_max in *. lia.
Qed.
End compaction.

(** ** Preparations *)
Section preparations.
Context {JT : JsonText} {SH : Sha256}.

Lemma replace_all_skeleton el seen reps ms out :
  replace_all el seen reps ms = Ok out → skeleton <$> out = skeleton <$> ms.
Proof.
  revert seen ms. induction reps as [|r reps IH]; intros seen ms H; simpl in H; [by simplify_eq|]. ok_inv.
  destruct (ms !! rpl_message r) as [[| | |i [v| |]]|] eqn:E; try done. rewrite (IH _ _ H). by apply (skeleton_insert _ _ _ _ _ E).
Qed.
Lemma observe_grows p ms out : observe p ms = Ok out → out = ms ∨ ∃ t, out = ms ++ [MUser t].
Proof.
  unfold observe. intros H. ok_inv. destruct (List.filter _ _); [left; by ok_inv|].
  destruct (encode _ _); [|done]. ok_inv. right. by eexists.
Qed.
Lemma boundaries_user ms t bs : boundaries ms = Ok bs → ∃ bs', boundaries (ms ++ [MUser t]) = Ok bs'.
Proof.
  unfold boundaries. intros H. ok_inv. subst.
  match goal with H : prefix_len ms = Ok ?p |- _ => destruct (prefix_len_Ok _ _ H) as (pre & body & -> & Ho & ->) end.
  rewrite <- (assoc_L (++)), opening_prefix_len by done. rewrite drop_app_length in *.
  match goal with H : boundary_loop _ _ body = Ok _ |- _ =>
    destruct (boundaries_app _ _ _ [MUser t] _ H (length (pre ++ body ++ [MUser t]))) as (f2 & Hf & E) end.
  { rewrite !length_app. lia. }
  simpl in *. rewrite drop_app_length, E. destruct f2; [simpl in *; lia|]. simpl. destruct f2; by eexists.
Qed.
(** What a preparation makes of the history, before any projection. *)
Definition prepares (p : Preparation) (ms base : list Message) : Prop :=
  (Nat.leb (length (pp_replacements p)) 256 && Nat.leb (length (pp_observations p)) 16) = true
  ∧ ∃ replaced, replace_all (eligible ms) [] (pp_replacements p) ms = Ok replaced ∧ observe p replaced = Ok base.
Lemma apply_preparation_Ok p ms out :
  apply_preparation p ms = Ok out ↔
  is_Some (encode (ser_preparation p) BYTES) ∧ ∃ base, prepares p ms base
    ∧ match pp_projection p with Some projection => project projection base = Ok out | None => out = base end.
Proof.
  unfold apply_preparation, prepares. split.
  - intros H. ok_inv. destruct (encode _ _); [|done]. split; [done|]. ok_inv. eexists. split.
    + split; [by apply andb_true_iff; split; apply Nat.leb_le|]. eexists. by split.
    + destruct (pp_projection p); [done|]. by ok_inv.
  - intros ([bytes Hb] & base & (Hl & replaced & Hr & Ho) & Hp). rewrite Hl, Hb. simpl. rewrite Hr. simpl. rewrite Ho. simpl.
    destruct (pp_projection p); [done|]. by subst.
Qed.
Lemma prepares_fits p ms base s : prepares p ms base → summary_fits s ms → summary_fits s base.
Proof.
  intros (_ & replaced & Hr%replace_all_skeleton & Ho) (bs & prefix & Hb & Hp & Hs & Hc).
  assert (summary_fits s replaced) as F.
  { exists bs, prefix. by rewrite (skeleton_boundaries _ _ Hr), (skeleton_prefix _ _ Hr). }
  apply observe_grows in Ho as [->|[t ->]]; [done|]. rewrite <- (skeleton_boundaries _ _ Hr) in Hb.
  destruct (boundaries_user _ t _ Hb) as [bs' Hb']. by eapply summary_fits_grow.
Qed.
Lemma prepares_length p ms base : prepares p ms base → (length ms ≤ length base)%nat.
Proof.
  intros (_ & replaced & Hr%replace_all_skeleton & Ho). apply (f_equal length) in Hr. rewrite !length_fmap in Hr.
  apply observe_grows in Ho as [->|[t ->]]; rewrite ?length_app; lia.
Qed.
Lemma prepared_nonempty p ms out : apply_preparation p ms = Ok out → ms ≠ [] → (0 < length out)%nat.
Proof.
  intros (_ & base & Hp%prepares_length & H)%apply_preparation_Ok Hne. assert (0 < length base)%nat by (destruct ms; [done|simpl in *; lia]).
  destruct (pp_projection p); [|by subst]. apply project_Ok in H as (bs & prefix & shown & _ & _ & (Hl & _) & H).
  destruct (pj_summary _); [|subst; lia]. destruct H as (_ & _ & ->). rewrite !length_app. simpl. lia.
Qed.
(** The history's summary can always be shown, if the preparation fits. *)
Lemma prepare_with_summary p ms base s :
  apply_preparation p ms = Ok base → pp_projection p = None → summary_fits s ms →
  let p' := p <| pp_projection := Some (projection_of s) |> in
  is_ok (apply_preparation p' ms) = true ∨ encode (ser_preparation p') BYTES = None.
Proof.
  intros (_ & base' & Hp & H)%apply_preparation_Ok Hn Hfit p'. rewrite Hn in H. subst base'.
  destruct (encode (ser_preparation p') BYTES) eqn:E; [|by right]. left.
  pose proof (project_summary _ _ (prepares_fits _ _ _ _ Hp Hfit)) as Hs.
  destruct (project (projection_of s) base) as [out|] eqn:Ep; [|done].
  assert (apply_preparation p' ms = Ok out) as ->; [|done]. apply apply_preparation_Ok. split; [by eexists|]. by exists base.
Qed.
(** Preparations that differ in what they measured. *)
Definition same_shape (p p' : Preparation) : Prop :=
  pp_replacements p' = pp_replacements p ∧ pp_observations p' = pp_observations p
  ∧ match pp_projection p, pp_projection p' with
    | Some a, Some b => pj_summary b = pj_summary a ∧ pj_evicted b = pj_evicted a
    | None, None => True
    | _, _ => False
    end.
Lemma same_shape_apply p p' ms out :
  same_shape p p' → apply_preparation p ms = Ok out →
  apply_preparation p' ms = Ok out ∨ encode (ser_preparation p') BYTES = None.
Proof.
  intros (Hr & Ho & Hj) (_ & base & Hp & H)%apply_preparation_Ok. destruct (encode (ser_preparation p') BYTES) eqn:E; [|by right].
  left. apply apply_preparation_Ok. split; [by eexists|]. exists base. split; [unfold prepares, observe in *; by rewrite Hr, Ho|].
  destruct (pp_projection p), (pp_projection p'); try done. destruct Hj as [Hs He]. unfold project in *. by rewrite Hs, He.
Qed.
End preparations.

Section drafts.
Context {FT : FloatText} {JT : JsonText} {JS : JsonSize} {SH : Sha256} {SL : Sha256Laws} {PE : Peers}.
Context {J : Type} {JO : Journal J} {JL : JournalLaws J} {SE : Session} {PL : PeersLaws s_limits s_taskless} (HL : limits_sane).
Local Notation engine := (engine (J := J)).
Implicit Types (e : engine) (d : draft).

(** A draft that replay would make as well; at least [n] turns were taken. *)
Record drafted (n : Z) d e : Prop := {
  d_quiet : quiet [] e;
  d_turns : n ≤ b_model_turns (e_budget e) < l_model_turns s_limits;
  d_applied : apply_preparation (dr_preparation d) (e_messages e) = Ok (dr_messages d);
  d_summary : (pp_projection (dr_preparation d) ≫= pj_summary) = e_summary e;
  d_output : 0 < cp_output (dr_capacity d) ≤ usize_max;
  d_remaining : 0 ≤ cp_remaining (dr_capacity d);
  d_admitted : admits (dr_admitted d) (cp_output (dr_capacity d)) (cp_remaining (dr_capacity d)) (cp_window (dr_capacity d)) }.

Lemma project_now_post e p (Q : list Message → engine → Prop) :
  quiet [] e → (∀ ms, apply_preparation p (e_messages e) = Ok ms → Q ms e) → post (project_now p) Q ended e.
Proof using All.
  intros Hq HQ. unfold project_now. do 2 post_step. apply post_or_quit.
  destruct (apply_preparation p (e_messages e)); [by apply HQ|by apply (quiet_ended [])].
Qed.
Lemma admit_now_post e ms tools c (Q : res LimitKind (Z * Z) → engine → Prop) :
  quiet [] e → 0 < cp_output c → (∀ a, admits a (cp_output c) (cp_remaining c) (cp_window c) → Q a e) →
  post (admit_now ms tools c) Q ended e.
Proof using All.
  intros Hq Ho HQ. unfold admit_now. do 2 post_step. apply post_or_quit.
  pose proof (admit_spec e ms tools (cp_output c) (cp_remaining c) (cp_window c) Ho) as H.
  destruct (admit_request _ _ _ _ _ _); [by apply HQ|by apply (quiet_ended [])].
Qed.
Lemma request_preparation_post e deadline :
  quiet [] e → post (request_preparation deadline) (λ _ e', frame e e') ended e.
Proof using All.
  intros Hq. unfold request_preparation. do 3 post_step. apply interrupt_frame; [intros; apply kept_prepare|..].
  - intros r e1 Hr F. post_step. apply (quiet_ended []); [by eapply frame_quiet|done].
  - intros [p|err] e1 F _ _ _; [by post_step|]. pose proof (frame_quiet _ _ _ F Hq).
    destruct err; post_step; by apply (quiet_ended []).
Qed.
(** Committing a preparation that was applied, or is too large. *)
Lemma prepared_post e p (Q : unit → engine → Prop) :
  quiet [] e → is_ok (apply_preparation p (e_messages e)) = true ∨ encode (ser_preparation p) BYTES = None →
  (pp_projection p ≫= pj_summary) = e_summary e →
  (∀ e', quiet [] e' → calm e e' → Q tt e') → post (must_commit (ContextPrepared p)) Q ended e.
Proof using All.
  intros Hq Hp Hs HQ. eapply (quiet_plain HL); [done..| |reflexivity|done]. cbn [apply_event]. unfold apply_context_prepared.
  pose proof (q_viewed _ _ Hq) as V. pose proof (rn_sequence _ (c_running _ (q_core _ _ Hq))).
  rewrite check_run by (rewrite (quiet_ready _ Hq), andb_true_r; by apply Z.ltb_lt). rewrite <- (v_messages _ V).
  destruct (apply_preparation p (e_messages e)) as [out|err] eqn:E; [|by destruct Hp].
  simpl. rewrite check_run; [done|]. apply bool_decide_eq_true. by rewrite Hs, (v_summary _ V).
Qed.
Lemma draft_request_post e n deadline :
  quiet [] e → n ≤ b_model_turns (e_budget e) < l_model_turns s_limits →
  post (draft_request deadline) (drafted n) ended e.
Proof using All.
  intros Hq Hn. unfold draft_request. post_step. eapply post_mono; [by apply request_preparation_post| |done].
  intros prepared e1 F. pose proof (frame_quiet _ _ _ F Hq) as Q1. rewrite <- (mv_budget _ _ (f_moves _ _ F)) in Hn. clear F Hq e.
  cbv zeta. destruct (negb _) eqn:En; [post_step; by apply (quiet_ended [])|]. apply negb_false_iff in En.
  post_step. apply project_now_post; [done|]. intros base Hbase. do 2 post_step.
  destruct (negb (tool_names_ok _)); [post_step; by apply (quiet_ended [])|]. do 2 post_step.
  destruct (limits_positive HL) as (Hres & _ & Hctx). pose proof (c_limits _ (q_core _ _ Q1)) as Hlim.
  pose proof (reservation_nonneg e1 (remaining_tokens e1) (context_window e1) ltac:(rewrite Hlim; lia)
    (remaining_nonneg e1) (window_nonneg e1 ltac:(by rewrite Hlim))) as Hnn.
  assert (output_reservation e1 (remaining_tokens e1) (context_window e1) ≤ usize_max).
  { unfold output_reservation. pose proof (lt_response HL) as [? ?]. rewrite Hlim. lia. }
  set (c := mk_capacity _ _ _). destruct (Z.eqb_spec (cp_output c) 0); [post_step; by apply (quiet_ended [])|]. do 2 post_step.
  set (p := match e_summary e1 with Some s => _ | None => _ end).
  assert (is_ok (apply_preparation p (e_messages e1)) = true ∨ encode (ser_preparation p) BYTES = None) as Hp.
  { unfold p. destruct (e_summary e1) as [s|] eqn:Es; [|left; by rewrite Hbase].
    eapply prepare_with_summary; [done| |by apply quiet_fits]. by destruct (pp_projection _). }
  assert ((pp_projection p ≫= pj_summary) = e_summary e1) as Hs.
  { unfold p. destruct (e_summary e1); [done|]. by destruct (pp_projection _). }
  post_step. apply (post_mono _ (λ _ e', quiet [] e' ∧ calm e1 e') _ ended).
  { destruct (none prepared); [post_step; split; [done|apply calm_refl]|]. by apply prepared_post. }
  2: done.
  intros [] e2 [Q2 K]. post_step. apply project_now_post; [done|]. intros ms Hms. post_step.
  assert (0 < cp_output c) by (simpl in *; lia).
  apply admit_now_post; [done|done|]. intros a Ha. post_step. split; simpl; try done.
  - by rewrite (sd_turns _ _ (cl_steady _ _ K)).
  - by rewrite (cl_summary _ _ K).
  - apply remaining_nonneg.
Qed.
Lemma evict_outputs_post e n d : drafted n d e → post (evict_outputs d) (drafted n) ended e.
Proof using All.
  intros D. pose proof (d_quiet _ _ _ D) as Q. unfold evict_outputs. destruct (dr_admitted d) eqn:Ea; [by post_step|].
  post_step. apply post_or_quit. destruct (prefix_len (dr_base d)) as [prefix|]; simpl; [|by apply (quiet_ended [])].
  do 2 post_step. cbv zeta. post_step. apply project_now_post; [done|]. intros ms Hms. post_step.
  apply admit_now_post; [done|apply D|]. intros a Ha. post_step. split; simpl; try done; by destruct D.
Qed.
Lemma summarize_post e n d deadline : drafted n d e → post (summarize deadline d) (drafted n) ended e.
Proof using All.
  intros D. pose proof (d_quiet _ _ _ D) as Q. unfold summarize. destruct (dr_admitted d) as [|limit] eqn:Ea; [by post_step|].
  post_step. eapply post_mono; [apply (compact_post HL); [done|apply D|apply D]| |done].
  intros summary e1 (Q1 & Hs1 & Hm1 & Ht1 & _ & _). do 2 post_step. cbv zeta. pose proof (remaining_nonneg e1) as Hr.
  pose proof (div_nonneg _ 2 Hr). destruct (d_output _ _ _ D). destruct (Z.eqb_spec (Z.min (cp_output (dr_capacity d)) (remaining_tokens e1 / 2)) 0); [post_step; by apply (quiet_ended [])|].
  post_step. apply project_now_post; [done|]. intros ms Hms. post_step. apply admit_now_post; [done|simpl; lia|].
  intros a Ha. post_step. destruct (d_turns _ _ _ D). split; simpl; try done; try lia.
Qed.
End drafts.
