(* ===== verification/EngineTools.v ===== *)
(** One request to the model: its composition, its answer and its failure are
    all records that replay accepts, and every turn makes progress.

    Running the calls of a response: intent, start and result of every call
    are records that replay accepts, and an end that a tool reports is one
    that the journal confirms. *)
From S2P Require Import Prelude Transact Wire Text Patch FileTools AgentData AgentWire AgentWireFacts Compaction Replay ReplayTheorems Engine CompactionFacts EngineFacts EngineAgreement EngineRequests EngineDrafts.
#[local] Open Scope list_scope.

Section turn.
Context {FT : FloatText} {JT : JsonText} {JS : JsonSize} {SH : Sha256} {SL : Sha256Laws} {PE : Peers}.
Context {J : Type} {JO : Journal J} {JL : JournalLaws J} {SE : Session} {PL : PeersLaws s_limits s_taskless} (HL : limits_sane).
Local Notation engine := (engine (J := J)).
Implicit Types (e : engine) (d : draft).

Lemma tick_frame e k : (e_tick e ≤ k)%nat → frame e (e <| e_tick := k |>).
Proof. intros H. split; [|done..]. split; try done. apply end_kept_refl. Qed.
Lemma stop_post calls e deadline (Q : unit → engine → Prop) :
  quiet calls e → (∀ e', frame e e' → quiet calls e' → b_no_progress (e_budget e') < l_no_progress s_limits → Q tt e') →
  post (stop deadline) Q ended e.
Proof using All.
  intros Hq HQ. pose proof (tick_frame e (S (e_tick e)) ltac:(lia)) as F. pose proof (frame_quiet _ _ _ F Hq) as Q1.
  apply post_stop; [intros r Hr; by apply (quiet_ended calls)|].
  intros _ Hn _. apply HQ; [done..|]. by rewrite <- (c_limits _ (q_core _ _ Hq)).
Qed.
Lemma instant_post e (Q : Z → engine → Prop) R :
  (∀ t e', frame e e' → Q t e') → post instant Q R e.
Proof. intros HQ. apply HQ, tick_frame. lia. Qed.
(** A request under way. *)
Definition asked (n : Z) (input : Z) e : Prop :=
  (∃ cut, awaiting false cut e) ∧ n < b_model_turns (e_budget e) ∧ u64 input.
Lemma measured_shape d : same_shape (dr_preparation d) (measured d).
Proof. unfold measured. destruct (pp_projection (dr_preparation d)) eqn:E; unfold same_shape; rewrite ?E; done. Qed.
Lemma measured_summary d : (pp_projection (measured d) ≫= pj_summary) = (pp_projection (dr_preparation d) ≫= pj_summary).
Proof.
  destruct (measured_shape d) as (_ & _ & H). destruct (pp_projection (dr_preparation d)), (pp_projection (measured d)); try done.
  simpl. apply H.
Qed.
Lemma compose_post e n d deadline assembly_start :
  drafted n d e → post (compose deadline assembly_start d) (λ r e', asked n r.2 e') ended e.
Proof using All.
  intros D. pose proof (d_quiet _ _ _ D) as Q. unfold compose. destruct (dr_admitted d) as [[input output]|limit] eqn:Ea.
  2: { post_step. by apply (quiet_ended []). }
  pose proof (d_admitted _ _ _ D) as Had. rewrite Ea in Had. destruct Had as ((Hi & Hi') & (Ho & Ho') & Hw & _).
  destruct (d_output _ _ _ D) as [_ Hcap].
  post_step. eapply stop_post; [done|]. intros e1 F1 Q1 _. cbv zeta. post_step. apply instant_post. intros t e2 F2.
  pose proof (frame_trans _ _ _ F1 F2) as F. pose proof (frame_quiet _ _ _ F Q) as Q2. do 3 post_step.
  assert (apply_preparation (dr_preparation d) (e_messages e2) = Ok (dr_messages d)) as Hap by (rewrite (f_messages _ _ F); apply D).
  apply (post_mono _ (λ _ e', quiet [] e' ∧ calm e2 e') _ ended).
  { destruct (_ && _); [|post_step; split; [done|apply calm_refl]]. apply (prepared_post HL); [done|..|done].
    - destruct (same_shape_apply _ _ _ _ (measured_shape d) Hap) as [->|?]; auto.
    - rewrite measured_summary, (f_summary _ _ F). apply D. }
  2: done.
  intros [] e3 [Q3 K3]. post_step. apply (composed_post HL); simpl; try done.
  { by rewrite (cl_messages _ _ K3). }
  { eapply prepared_nonempty; [done|]. rewrite (v_messages _ (q_viewed _ _ Q2)).
    destruct (rn_messages _ (c_running _ (q_core _ _ Q2))) as (pre & body & -> & [[t' ->]|(s & t' & ->)] & _); done. }
  { apply stable_prefix_le. }
  intros e4 Q4 K4. pose proof (calm_trans _ _ _ K3 K4) as K. do 2 post_step. unfold reserve. do 5 post_step.
  assert (n ≤ b_model_turns (e_budget e4) < l_model_turns s_limits) as Ht.
  { rewrite (sd_turns _ _ (cl_steady _ _ K)), (mv_budget _ _ (f_moves _ _ F)). apply D. }
  eapply (attempt_post HL e4 _ _ input output (rp_compaction_active (st e4)) (rp_compaction_cut (st e4))); [done|lia|lia|lia| | | |].
  - left. by eexists.
  - split_and!; [done|split; [|done..]; split; try done; apply end_kept_refl|]. cbn [apply_event]. unfold apply_model_started.
    rewrite check_run by (rewrite (quiet_ready _ Q4), (c_open _ (q_core _ _ Q4)); done).
    rewrite check_run by (by rewrite (q_synced _ _ Q4), !Z.eqb_refl). reflexivity.
  - by destruct (st e4).
  - intros e' A Htn _ _ _ _ _ _ _. post_step. split_and!; simpl; [|lia|unfold u64; lia].
    rewrite (q_compaction _ _ Q4) in A. by eexists.
Qed.

(** ** The answer *)
Lemma asked_frame n input e e' : asked n input e → frame e e' → asked n input e'.
Proof using PL.
  intros ([cut A] & Ht & Hi) F. split_and!; [exists cut; by eapply frame_awaiting|by rewrite (mv_budget _ _ (f_moves _ _ F))|done].
Qed.
Lemma asked_failed {A} n input e r (Q : A → engine → Prop) :
  asked n input e → free_end r = true → post (failed_attempt r) Q ended e.
Proof using All. intros ([cut Aw] & _) Hr. by eapply (failed_attempt_post HL). Qed.
Definition replied n input (a : res ProviderError (ModelResponse * option Usage) * Z) e : Prop :=
  asked n input e ∧ u64 a.2 ∧ match a.1 with ROk (_, usage) => opt_typed usage_typed usage | RErr _ => True end.
Lemma model_stream_post fuel deadline streamed n input e :
  u64 streamed → streamed ≤ l_response_bytes s_limits → (Z.to_nat (l_response_bytes s_limits - streamed) < fuel)%nat →
  asked n input e → post (model_stream fuel deadline streamed) (replied n input) ended e.
Proof using All.
  destruct (lt_response HL) as [_ Hcap]. revert streamed e. induction fuel as [|fuel IH]; intros streamed e Hs Hle Hf K; [lia|]. cbn [model_stream].
  post_step. apply interrupt_frame; [apply kept_next_event|..].
  { intros r e1 Hr F. eapply asked_failed; [by eapply asked_frame|done]. }
  intros answer e1 F _ _ E. pose proof (asked_frame _ _ _ _ K F) as K1.
  assert (∀ text, post (let streamed := saturating_add streamed (Z.max (slen text) 1) in
      limits ← look e_limits;
      if l_response_bytes limits <? streamed then failed_attempt (EndLimit LResponseBytes) else model_stream fuel deadline streamed)
      (replied n input) ended e1) as Hd.
  { intros text. cbv zeta. do 2 post_step. pose proof K1 as ([cut A] & _). rewrite (c_limits _ (a_core _ _ _ A)).
    destruct (Z.ltb_spec (l_response_bytes s_limits) (saturating_add streamed (Z.max (slen text) 1))); [by eapply asked_failed|].
    unfold u64, saturating_add in *. apply IH; [unfold u64; lia|lia|lia|done]. }
  destruct answer as [[[text|text|response usage]|]|err]; [apply Hd|apply Hd|..].
  - post_step. split_and!; [done..|]. simpl. destruct usage; [|done]. by eapply usage_typed_peer.
  - by eapply asked_failed.
  - by post_step.
Qed.
Lemma ask_model_post deadline request n input e :
  asked n input e → post (ask_model deadline request) (replied n input) ended e.
Proof using All.
  intros K. unfold ask_model. do 3 post_step. apply interrupt_frame; [apply kept_provider_start|..].
  { intros r e1 Hr F. eapply asked_failed; [by eapply asked_frame|done]. }
  intros [[]|err] e1 F _ _ _; pose proof (asked_frame _ _ _ _ K F) as K1.
  - pose proof K as ([cut A] & _). rewrite (c_limits _ (a_core _ _ _ A)). destruct (limits_positive HL) as (? & _ & _).
    apply model_stream_post; [unfold u64, usize_max; lia|lia|lia|done].
  - post_step. split_and!; [done| |done]. unfold u64, usize_max. simpl. lia.
Qed.
Lemma retry_later_post deadline error n input e :
  asked n input e → post (retry_later deadline error) (λ _ e', quiet [] e' ∧ n < b_model_turns (e_budget e')) ended e.
Proof using All.
  intros ([cut A] & Ht & _). unfold retry_later. do 3 post_step. rewrite (c_limits _ (a_core _ _ _ A)).
  set (retry := pe_retryable error && _).
  set (b := if retry then (e_budget e) <| b_retries := u64_inc (b_retries (e_budget e)) |> else e_budget e).
  assert (retried e b (pe_retryable error)) as Hr.
  { unfold b, retry. destruct (pe_retryable error && _) eqn:E; [|by left]. ok_inv. right. split_and!; [|done..]. by destruct (pe_retryable error). }
  apply (post_mono _ (λ _ e', e' = e <| e_budget := b |>) _ ended); [| |done].
  { unfold b. destruct retry; post_step; [done|]. apply same_budget. }
  intros [] e1 ->. post_step. eapply post_mono; [by eapply (record_failure_post HL)| |done].
  intros [] e2 (Q2 & Htn & _). destruct (negb (pe_retryable error)).
  { post_step. eapply (quiet_ended []); [done|apply provider_failure_free]. }
  destruct (negb retry); [post_step; by apply (quiet_ended [])|]. do 3 post_step.
  assert (n < b_model_turns (e_budget e2)) by (rewrite Htn; unfold b; by destruct retry).
  apply interrupt_frame; [intros; apply kept_sleep|..].
  - intros r e3 Hr' F. post_step. apply (quiet_ended []); [by eapply frame_quiet|done].
  - intros [] e3 F _ _ _. post_step. split; [by eapply frame_quiet|]. by rewrite (mv_budget _ _ (f_moves _ _ F)).
Qed.

(** ** A response *)
Definition queued (response : ModelResponse) : list ToolCall :=
  if decide (finish response = FinLength) then [] else rs_calls response.
Definition pushed (response : ModelResponse) e : engine :=
  e <| e_messages := e_messages e ++ response_messages response |>.
(** A response is in the journal, and not yet in the conversation. *)
Record responded (n : Z) (response : ModelResponse) e : Prop := {
  rd_quiet : quiet (queued response) (pushed response e);
  rd_fresh : j_checkpointed (e_journal e) < rp_sequence (st e);
  rd_ready : rp_final_response_ready (st e) = is_final response;
  rd_turns : n < b_model_turns (e_budget e) }.
Lemma responded_ended n response e r : responded n response e → free_end r = true → ended r e.
Proof.
  intros [[C Y En V] _ _ _] Hr. destruct (free_end_accepted (st e) r Hr) as [? Hj]. unfold ended. rewrite decide_False by done.
  split; [destruct C; by split|done| |done|apply ends_free_ok, En]. pose proof (v_messages _ V) as Hm. change (st (pushed response e)) with (st e) in Hm. rewrite <- Hm. by eexists.
Qed.
Lemma encode_length j limit bytes : encode j limit = Some bytes → 0 ≤ slen bytes ≤ limit.
Proof. unfold encode, slen. destruct (Z.leb_spec (Z.of_nat (String.length (json_text j))) limit); intros [= <-]; lia. Qed.
Lemma u64_inc_u64 z : u64 (u64_inc z).
Proof. unfold u64, u64_inc, u64_modulus, usize_max. pose proof (Z.mod_pos_bound (z + 1) (2^64) ltac:(lia)). lia. Qed.
Lemma settle_response_post response reported input streamed n e :
  asked n input e → u64 streamed → opt_typed usage_typed reported →
  post (settle_response response reported input streamed) (λ _ e', responded n response e') ended e.
Proof using All.
  intros K Hst Hrep. pose proof K as ([cut A] & Ht & Hi). unfold settle_response. do 2 post_step.
  rewrite (c_limits _ (a_core _ _ _ A)).
  destruct (encode _ _) as [bytes|] eqn:Eb; [|by eapply asked_failed]. cbv zeta. set (u := default _ reported).
  assert (usage_typed u) as Hu.
  { unfold u. destruct reported; [done|]. apply encode_length in Eb. destruct (lt_response HL). split; unfold u64 in *; simpl; lia. }
  do 4 post_step. post_step. destruct (awaiting_idle _ _ _ A) as [Hcalls Hpend].
  set (e1 := e <| e_budget := _ |> <| e_retryable_provider_failure := _ |>).
  set (b := charge u (unreserve (e_budget e))).
  set (np := if idle_response response then u64_inc (b_no_progress b) else b_no_progress b).
  pose proof (charge_typed u _ Hu (c_typed _ (a_core _ _ _ A))) as Tb. rewrite <- (a_synced _ _ _ A) in Tb. fold b in Tb.
  apply (post_mono _ (λ _ e', e' = e1 <| e_budget := b <| b_no_progress := np |> |>) _ ended); [| |done].
  { unfold np. destruct (idle_response response); post_step; [done|]. unfold e1, b. simpl.
    f_equal. by destruct (charge u (unreserve (e_budget e))). }
  intros [] e2 ->. set (e2 := e1 <| e_budget := _ |>).
  assert (u64 np) as Hnp.
  { unfold np. pose proof (bt_no_progress _ Tb). destruct (idle_response response); [apply u64_inc_u64|done]. }
  assert (frame e (e2 <| e_budget := e_budget e |>)) as F.
  { split; [|done..]. split; try done. apply end_kept_refl. }
  eapply (settled_post HL _ _ e e2 _ u np _ _ A Hu Hnp); [left; by eexists|done|done|..].
  { cbn [apply_event]. unfold apply_model_completed.
    rewrite check_run by (rewrite (a_active _ _ _ A), (a_compaction _ _ _ A), Hcalls; done). reflexivity. }
  intros e' M C Hck En Hres Hturns _. pose proof (cm_state _ _ _ _ M) as Hs.
  set (s := if decide (finish response = FinLength) then _ else _) in *.
  assert (rp_calls s = queued response ∧ rp_model_active s = false ∧ rp_compaction_active s = false ∧ rp_pending_effect s = None
    ∧ rp_summary s = rp_summary (st e) ∧ rp_latest_steering s = rp_latest_steering (st e) ∧ rp_interactive s = rp_interactive (st e)
    ∧ rp_messages s = rp_messages (st e) ∧ rp_final_response_ready s = is_final response) as (H1 & H2 & H3 & H4 & H5 & H6 & H7 & H8 & H9).
  { unfold s, queued. pose proof (a_compaction _ _ _ A). destruct (decide _); simpl; done. }
  assert (e_messages e' = e_messages e) as Hm by (by rewrite (cm_messages _ _ _ _ M)).
  split; [|done| |by rewrite Hturns].
  - eapply (quiet_after _ _ _ _ _ (pushed response e') M C); try done.
    + split; try done. apply end_kept_refl.
    + assert (st (pushed response e') = st e') as Hst' by done. pose proof (a_viewed _ _ _ A) as [].
      split; rewrite Hst', Hs; simpl; rewrite ?Hm, ?(cm_summary _ _ _ _ M), ?(cm_steering _ _ _ _ M), ?(cm_interactive _ _ _ _ M); simpl; congruence.
    + apply (summarized_grow e); [apply A|by simpl; rewrite (cm_summary _ _ _ _ M)|]. simpl. rewrite Hm. by eexists.
  - rewrite Hs. done.
Qed.
End turn.

Section tools.
Context {FT : FloatText} {JT : JsonText} {JS : JsonSize} {SH : Sha256} {SL : Sha256Laws} {PE : Peers}.
Context {J : Type} {JO : Journal J} {JL : JournalLaws J} {SE : Session} {PL : PeersLaws s_limits s_taskless} (HL : limits_sane).
Local Notation engine := (engine (J := J)).
Implicit Types (e : engine).

Lemma validate_call_spec e id call names :
  match validate_call e id call names with
  | ROk v => ∃ arguments, v = mk_validated id (provider_call_id call) (mk_call (tc_name call) arguments)
  | RErr err => fits_output s_limits (OutcomeFailed err)
  end.
Proof using PL.
  unfold validate_call. destruct (negb _); [apply host_errors_fit, list_elem_of_In; simpl; auto|].
  destruct (from_str _) as [arguments|]; [|apply host_errors_fit, list_elem_of_In; simpl; auto].
  destruct (negb (is_object arguments)); [apply host_errors_fit, list_elem_of_In; simpl; auto|].
  destruct (tool_validate _ _ _) as [[]|err] eqn:E; simpl; [by eexists|]. by eapply validate_fits.
Qed.

(** The call [id] is under way. *)
Record pending (turns : Z) (call : ToolCall) (calls : list ToolCall) (id : string) (started : bool) e : Prop := {
  p_core : core e;
  p_turns : b_model_turns (e_budget e) = turns;
  p_synced : e_budget e = rp_budget (st e);
  p_viewed : viewed e;
  p_inactive : rp_model_active (st e) = false;
  p_compaction : rp_compaction_active (st e) = false;
  p_pending : rp_pending_effect (st e) = Some id;
  p_requires : rp_pending_requires_start (st e) = true;
  p_started : rp_effect_started (st e) = started;
  p_calls : rp_calls (st e) = call :: calls;
  p_reserved : b_reserved_input (e_budget e) = 0 ∧ b_reserved_output (e_budget e) = 0;
  p_summarized : summarized e }.
Lemma pending_shift turns call calls id started e p k :
  pending turns call calls id started e → (e_tick e ≤ k)%nat → pending turns call calls id started (e <| e_peer := p |> <| e_tick := k |>).
Proof using PL.
  intros [] Hk. assert (st (e <| e_peer := p |> <| e_tick := k |>) = st e) as Hs by done.
  split; rewrite ?Hs; try done; [|by destruct p_viewed0].
  destruct p_core0. split; rewrite ?Hs; try done; simpl; pose proof (now_mono _ _ Hk); [lia|].
  pose proof (millis_mono s_start (now (e_tick e)) (now k)). lia.
Qed.
Lemma pending_frame turns call calls id started e e' :
  frame e e' → pending turns call calls id started e → pending turns call calls id started e'.
Proof using PL.
  intros F [C T Y V]. pose proof (frame_st _ _ F) as Hs.
  split; rewrite ?Hs, ?(mv_budget _ _ (f_moves _ _ F)); eauto using moves_core, frame_viewed, frame_summarized, f_moves.
Qed.
(** The ends a peer reports after [outcome]. *)
Definition ends_confirmed (call : ToolCall) (outcome : ToolOutcome) e : Prop := ∀ r,
  tool_end_reason (e_peer e) = Some r →
  free_end r = true ∨ (fits_output s_limits outcome ∧ confirmed_end s_taskless call outcome r = true).
(** What running a call leaves. *)
Definition performed (turns : Z) (call : ToolCall) (calls : list ToolCall) (id : string) (o : ToolOutcome * option EndReason) e : Prop :=
  (∃ started, pending turns call calls id started e ∧ (started = true ∨ (outcome_failed o.1 = true ∧ fits_output s_limits o.1)))
  ∧ ends_confirmed call o.1 e ∧ (∀ r, o.2 = Some r → free_end r = true).
Lemma ends_free_confirmed call outcome e : ends_free e → ends_confirmed call outcome e.
Proof. intros H r Hr. left. by apply H. Qed.

Lemma perform_post turns deadline id call calls e names e0 :
  pending turns call calls id false e → ends_free e →
  post (perform deadline id (validate_call e0 id call names)) (performed turns call calls id) ended e.
Proof using All.
  intros P En. pose proof (validate_call_spec e0 id call names) as Hv. unfold perform.
  destruct (validate_call e0 id call names) as [v|err].
  2: { post_step. split_and!; [|by apply ends_free_confirmed|done]. exists false. split; [done|by right]. }
  destruct Hv as [arguments ->]. set (v := mk_validated _ _ _). post_step. apply interrupt_frame; [intros; apply kept_authorize|..].
  { intros r e1 Hr F. post_step. split_and!; [|apply ends_free_confirmed, (moves_ends_free _ _ (f_moves _ _ F) En)|by intros ? [= <-]].
    exists false. split; [by eapply pending_frame|right]. split; [done|]. apply host_errors_fit, list_elem_of_In. simpl. auto. }
  intros [[]|err] e1 F _ _ E; pose proof (pending_frame _ _ _ _ _ _ _ F P) as P1; pose proof (moves_ends_free _ _ (f_moves _ _ F) En) as En1.
  2: { post_step. split_and!; [|by apply ends_free_confirmed|done]. exists false. split; [done|right]. split; [done|]. by eapply authorize_fits. }
  post_step. eapply synced_post; [apply P1|apply P1|done|done|..].
  { cbn [apply_event]. unfold apply_tool_started.
    rewrite check_run by (rewrite (p_pending _ _ _ _ _ _ P1), (p_requires _ _ _ _ _ _ P1), (p_started _ _ _ _ _ _ P1), bool_decide_eq_true_2; done).
    reflexivity. }
  intros e2 M C Hck. pose proof (cm_state _ _ _ _ M) as Hs. pose proof (commits_ends _ _ _ _ M En1) as En2.
  assert (pending turns call calls id true e2) as P2.
  { split; rewrite ?Hs; try done; try apply P1.
    - rewrite (cm_budget _ _ _ _ M). apply (p_turns _ _ _ _ _ _ P1).
    - by rewrite (cm_budget _ _ _ _ M).
    - destruct (p_viewed _ _ _ _ _ _ P1), M. split; rewrite ?Hs; simpl; congruence.
    - rewrite (cm_budget _ _ _ _ M). apply (p_reserved _ _ _ _ _ _ P1).
    - intros s. rewrite (cm_messages _ _ _ _ M), (cm_summary _ _ _ _ M). apply (p_summarized _ _ _ _ _ _ P1). }
  assert (Hconf : ∀ outcome p p' k, end_confirmed s_limits s_taskless v outcome p p' → p = e_peer e2 →
            ends_confirmed call outcome (e2 <| e_peer := p' |> <| e_tick := k |>)).
  { intros outcome p p' k Hc -> r Hr. destruct (Hc r Hr) as [?|[?|[Hf Hcc]]]; [by left|left; by apply En2|right]. split; [done|].
    specialize (Hcc (tc_arguments call)). by destruct call. }
  post_step. apply post_interrupt.
  - intros r k p Hr Hk Hp. do 2 post_step. post_step. simpl. destruct (tool_interrupted p) as [o p2] eqn:Ei. simpl.
    split_and!; [|eapply (Hconf _ (e_peer e2)); [|done]|intros ? [= <-]; by destruct Hr as [->| ->]].
    + exists true. split; [|by left]. change (e2 <| e_peer := p |> <| e_tick := k |> <| e_peer := p2 |>) with (e2 <| e_peer := p2 |> <| e_tick := k |>).
      apply pending_shift; [done|lia].
    + simpl. apply (confirmed_interrupted v (e_peer e2) p o p2); [|done]. destruct Hp; auto.
  - intros outcome p Ex _. post_step. split_and!; [|eapply (Hconf _ (e_peer e2)); [by eapply confirmed_execute|done]|done].
    exists true. split; [|by left]. apply pending_shift; [done|lia].
Qed.

(** ** Intents *)
Lemma planned_effect e id call names :
  plan_ok call (match validate_call e id call names with ROk v => tool_effect_plan (e_peer e) v | RErr _ => None end) = true.
Proof using PL.
  pose proof (validate_call_spec e id call names) as Hv. destruct (validate_call e id call names) as [v|]; [|done].
  destruct Hv as [arguments ->]. destruct (tool_effect_plan _ _) as [plan|] eqn:E; [|done].
  apply (plan_valid _ _ _ (tc_arguments call)) in E. by destruct call.
Qed.
Lemma intent_post call calls e plan (Q : unit → engine → Prop) :
  quiet (call :: calls) e → b_tool_calls (e_budget e) < l_tool_calls s_limits → plan_ok call plan = true →
  let b := (e_budget e) <| b_tool_calls := u64_inc (b_tool_calls (e_budget e)) |> in
  let id := call_name_of (b_tool_calls b) in
  (∀ e', pending (b_model_turns (e_budget e)) call calls id false e' → ends_free e' → Q tt e') →
  post (must_commit (ToolIntent id call plan true)) Q ended (e <| e_budget := b |>).
Proof using All.
  intros Hq Hlt Hplan b id HQ. pose proof (c_typed _ (q_core _ _ Hq)) as T. destruct (lt_calls HL) as [? ?].
  rewrite <- (q_synced _ _ Hq) in T. destruct (bt_tool_calls _ T).
  assert (u64_inc (b_tool_calls (e_budget e)) = b_tool_calls (e_budget e) + 1) as Hinc by (apply u64_inc_small; lia).
  set (e1 := e <| e_budget := b |>). assert (st e1 = st e) as Hst by done. assert (core e1) as C1 by (apply core_charged, Hq).
  eapply must_commit_post; [done..| | | |].
  - split.
    + rewrite Hst, <- (q_synced _ _ Hq). apply check_intent; [|lia]. rewrite (q_synced _ _ Hq). apply (c_elapsed _ (q_core _ _ Hq)).
    + cbn [apply_event]. unfold apply_tool_intent. rewrite Hst, <- (q_synced _ _ Hq).
      rewrite check_run by (rewrite (q_pending _ _ Hq), (q_calls _ _ Hq), bool_decide_eq_true_2; done).
      rewrite check_run by (simpl; by rewrite Z.eqb_refl, String.eqb_refl). rewrite check_run by done. reflexivity.
  - destruct T. split; simpl; try done. unfold u64. lia.
  - rewrite (q_synced _ _ Hq) in *. destruct (c_bounded _ (q_core _ _ Hq)) as (? & ? & ?). split_and!; simpl; rewrite ?(q_synced _ _ Hq); lia.
  - intros e' M C Hck. pose proof (cm_state _ _ _ _ M) as Hs. rewrite Hst in Hs.
    assert (viewed e1) as V1 by (destruct (q_viewed _ _ Hq); by split). apply HQ; [|apply (commits_ends _ _ _ _ M), Hq].
    split; rewrite ?Hs; try done; try (by rewrite (cm_budget _ _ _ _ M)); try keep Hq.
    + destruct V1, M. rewrite Hst in *. split; rewrite ?Hs; simpl; congruence.
    + rewrite (cm_budget _ _ _ _ M). apply (q_reserved _ _ Hq).
    + intros s. rewrite (cm_messages _ _ _ _ M), (cm_summary _ _ _ _ M). apply (q_summarized _ _ Hq).
Qed.

(** ** Results *)
Lemma bound_output_performed turns call calls id o e :
  performed turns call calls id o e →
  let o' := bound_output s_limits o in
  (∃ started, pending turns call calls id started e ∧ (started = true ∨ outcome_failed o'.1 = true))
  ∧ (∀ r, tool_end_reason (e_peer e) = Some r → free_end r = true ∨ confirmed_end s_taskless call o'.1 r = true)
  ∧ (∀ r, o'.2 = Some r → free_end r = true).
Proof.
  intros ((started & P & Hst) & Hends & Hr). unfold bound_output. destruct (encode _ _) as [bytes|] eqn:E; simpl.
  - split_and!; [|intros r Hr'; destruct (Hends r Hr') as [?|[_ ?]]; auto|done]. exists started. split; [done|]. naive_solver.
  - assert (¬ fits_output s_limits o.1) as Hno by (unfold fits_output; rewrite E; by intros [? ?]).
    split_and!; [|intros r Hr'; destruct (Hends r Hr') as [?|[? _]]; [by left|done]|by intros r [= <-]].
    exists started. split; [done|]. left. by destruct Hst as [?|[_ ?]].
Qed.
Lemma confirmed_end_accepted s call outcome r :
  rp_submitted s = confirms_submit call outcome → rp_definition_completed s = confirms_definition s_taskless call outcome →
  rp_role_completed s = confirms_role call outcome → rp_taskless s = s_taskless → rp_pending_effect s = None →
  rp_model_active s = false → confirmed_end s_taskless call outcome r = true →
  is_ok (apply_ended s r) = true ∧ r ≠ JournalFailed.
Proof.
  intros H1 H2 H3 H4 H5 H6 Hc. destruct (free_end r) eqn:Ef; [by apply free_end_accepted|]. split; [|by intros ->].
  unfold apply_ended. rewrite H1, H2, H3, H4, H5, H6. destruct r; try done; simpl in Hc.
  - unfold confirms_definition in *. ok_inv. destruct s_taskless; [|done]. simpl in *.
    repeat match goal with H : ?x = true |- context [?x] => rewrite H end. done.
  - ok_inv. rewrite H. rewrite Hc. done.
  - ok_inv. rewrite H. rewrite Hc. done.
  - rewrite Hc. done.
Qed.
(** A result is in the journal and in the conversation. *)
Record resulted (calls : list ToolCall) (turns : Z) e : Prop := {
  rs_core : core e;
  rs_synced : e_budget e = rp_budget (st e);
  rs_viewed : viewed e;
  rs_ends : ends_ok e;
  rs_fresh : j_checkpointed (e_journal e) < rp_sequence (st e);
  rs_turns : b_model_turns (e_budget e) = turns;
  rs_quiet : ends_free e → quiet calls e }.
Lemma result_post turns call calls id started outcome e np print :
  pending turns call calls id started e → started = true ∨ outcome_failed outcome = true → u64 np →
  (∀ r, tool_end_reason (e_peer e) = Some r → free_end r = true ∨ confirmed_end s_taskless call outcome r = true) →
  post (must_commit (ToolResult id outcome) ;;
        update (λ e, e <| e_messages := e_messages e ++ [MTool (provider_call_id call) outcome] |>))
    (λ _ e', resulted calls turns e') ended
    (e <| e_budget := (e_budget e) <| b_no_progress := np |> |> <| e_previous_call := print |>).
Proof using All.
  intros P Hstart Hnp Hends. set (e1 := e <| e_budget := _ |> <| _ := _ |>). assert (st e1 = st e) as Hst by done.
  assert (core e1) as C1 by (destruct (p_core _ _ _ _ _ _ P); by split). post_step. eapply (plain_post e1 np); [done| |done..| |].
  { rewrite Hst, <- (p_synced _ _ _ _ _ _ P). done. }
  { cbn [apply_event]. unfold apply_tool_result. rewrite Hst. rewrite check_run by (by rewrite (p_pending _ _ _ _ _ _ P), bool_decide_eq_true_2).
    rewrite check_run.
    2: { rewrite (p_requires _ _ _ _ _ _ P), (p_started _ _ _ _ _ _ P). simpl. apply orb_true_iff. done. }
    rewrite (p_calls _ _ _ _ _ _ P). reflexivity. }
  intros e' M C Hck. pose proof (cm_state _ _ _ _ M) as Hs. rewrite Hst in Hs. post_step.
  set (e2 := e' <| e_messages := _ |>). assert (st e2 = st e') as Hst2 by done.
  assert (core e2) as C2 by (destruct C; by split).
  assert (e_budget e2 = rp_budget (st e2)) as Y2 by (exact (commits_synced _ _ _ _ M)).
  assert (viewed e2) as V2.
  { assert (viewed e1) as V1 by (destruct (p_viewed _ _ _ _ _ _ P); by split). destruct V1, M. rewrite Hst in *.
    split; rewrite ?Hst2, ?Hs; simpl; congruence. }
  split; try done.
  - intros r Hr. destruct (cm_ends _ _ _ _ M r Hr) as [?|Hr']; [by apply free_end_accepted|].
    destruct (Hends r Hr') as [?|?]; [by apply free_end_accepted|]. rewrite Hst2, Hs.
    apply (confirmed_end_accepted _ call outcome); simpl; try done; [by rewrite (c_taskless _ (p_core _ _ _ _ _ _ P))|
      apply (c_taskless _ (p_core _ _ _ _ _ _ P))|apply (p_inactive _ _ _ _ _ _ P)].
  - simpl. rewrite (cm_budget _ _ _ _ M). apply (p_turns _ _ _ _ _ _ P).
  - intros En. split; rewrite ?Hst2, ?Hs; try done; simpl.
    + apply (cm_budget _ _ _ _ M).
    + apply (p_inactive _ _ _ _ _ _ P).
    + apply (p_compaction _ _ _ _ _ _ P).
    + rewrite (cm_budget _ _ _ _ M). apply (p_reserved _ _ _ _ _ _ P).
    + apply (summarized_grow e); [apply P|simpl; by rewrite (cm_summary _ _ _ _ M)|]. simpl. rewrite (cm_messages _ _ _ _ M). by eexists.
Qed.
Lemma resulted_ended calls turns e r :
  resulted calls turns e → is_ok (apply_ended (st e) r) = true → r ≠ JournalFailed → ended r e.
Proof.
  intros [] Ha Hr. unfold ended. rewrite decide_False by done. split; try done. by rewrite (v_messages _ rs_viewed0).
Qed.
(** The ends after a result. *)
Lemma settle_call_post calls turns outcome interrupted e :
  resulted calls turns e → (∀ r, interrupted = Some r → free_end r = true) →
  post (stop_if (tool_end_reason (e_peer e)) ;; stop_if interrupted ;;
        if outcome_unknown outcome then quit EffectUnknown else mret tt)
    (λ _ e', quiet calls e' ∧ j_checkpointed (e_journal e') < rp_sequence (st e') ∧ b_model_turns (e_budget e') = turns) ended e.
Proof using All.
  intros R Hint. post_step. apply post_stop_if. destruct (tool_end_reason (e_peer e)) as [r|] eqn:Er.
  { destruct (rs_ends _ _ _ R r Er). by eapply resulted_ended. }
  assert (quiet calls e) as Q by (apply (rs_quiet _ _ _ R); intros r; congruence).
  post_step. apply post_stop_if. destruct interrupted as [r|]; [apply (quiet_ended calls); auto|].
  destruct (outcome_unknown outcome); post_step; [by apply (quiet_ended calls)|]. split_and!; [done|apply R..].
Qed.
Lemma run_call_post deadline names call calls e :
  quiet (call :: calls) e →
  post (run_call deadline names call)
    (λ _ e', quiet calls e' ∧ j_checkpointed (e_journal e') < rp_sequence (st e')
             ∧ b_model_turns (e_budget e') = b_model_turns (e_budget e)) ended e.
Proof using All.
  intros Q. unfold run_call. post_step. eapply (stop_post HL); [done|]. intros e1 F Q1 _.
  rewrite <- (mv_budget _ _ (f_moves _ _ F)). clear F Q e. do 2 post_step. rewrite (c_limits _ (q_core _ _ Q1)).
  destruct (Z.leb_spec (l_tool_calls s_limits) (b_tool_calls (e_budget e1))) as [?|Hlt]; [post_step; by apply (quiet_ended (call :: calls))|].
  do 2 post_step. do 6 post_step. post_step.
  match goal with |- post (must_commit (ToolIntent ?id call ?plan true)) _ _ ?x => set (p := plan); set (e2 := x) end.
  assert (plan_ok call p = true) as Hp by apply planned_effect.
  apply (intent_post call calls e1 p _ Q1 Hlt Hp). intros e3 P3 En3. post_step.
  eapply post_mono; [by apply perform_post| |done]. intros o e4 D4. do 2 post_step.
  assert (e_limits e4 = s_limits) as -> by (destruct D4 as [(? & P & _) _]; apply (c_limits _ (p_core _ _ _ _ _ _ P))).
  pose proof (bound_output_performed _ _ _ _ _ _ D4) as ((started & P4 & Hstart) & Hends & Hint).
  destruct (bound_output s_limits o) as [outcome interrupted]. simpl in Hstart, Hends, Hint. do 6 post_step.
  match goal with |- context [fingerprint ?v] => generalize (fingerprint v) end. intros print.
  match goal with |- context [if ?b then _ <| b_no_progress := _ |> else _] => destruct b end.
  all: match goal with |- context [_ <| b_no_progress := ?x |>] => set (np := x) end.
  all: assert (u64 np) as Hnp by (first [apply u64_inc_u64|unfold np, u64, usize_max; lia]).
  all: post_step; (eapply post_mono; [exact (post_bind_inv _ _ _ _ _ (result_post _ call calls _ started outcome e4 np print P4 Hstart Hnp Hends))| |done]).
  all: intros [] e5 H5; post_step; (eapply post_mono; [exact H5| |done]); intros [] e6 R6; do 2 post_step.
  all: by apply settle_call_post.
Qed.
Lemma run_calls_post deadline names calls e :
  quiet calls e → j_checkpointed (e_journal e) < rp_sequence (st e) →
  post (run_calls deadline names calls)
    (λ _ e', quiet [] e' ∧ j_checkpointed (e_journal e') < rp_sequence (st e')
             ∧ b_model_turns (e_budget e') = b_model_turns (e_budget e)) ended e.
Proof using All.
  revert e. induction calls as [|call calls IH]; intros e Q Hck; simpl; [by post_step|]. post_step.
  eapply post_mono; [by apply run_call_post| |done]. intros [] e1 (Q1 & Hck1 & Ht1).
  eapply post_mono; [by apply IH| |done]. intros [] e2 (Q2 & Hck2 & Ht2). split_and!; [done..|congruence].
Qed.
End tools.
