(* ===== verification/EngineTheorems.v ===== *)
(** A whole session: it ends, its end is durable unless the journal refused to
    store something, and replaying the journal gives the conversation, the
    budget and the end that the engine reports.

    The theorems about whole sessions of the native agent. *)
From S2P Require Import Prelude Transact Wire Text Patch FileTools AgentData AgentWire AgentWireFacts Compaction Replay ReplayTheorems Engine CompactionFacts EngineFacts EngineAgreement EngineRequests EngineDrafts EngineTools.
#[local] Open Scope list_scope.

Section session.
Context {FT : FloatText} {JT : JsonText} {JS : JsonSize} {SH : Sha256} {SL : Sha256Laws} {PE : Peers}.
Context {J : Type} {JO : Journal J} {JL : JournalLaws J} {SE : Session} {PL : PeersLaws s_limits s_taskless} (HL : limits_sane).
Context (horizon patience : nat) (deadline : Z) (Hhorizon : ∀ k, (horizon ≤ k)%nat → deadline ≤ now k) (Hpatience : (horizon < patience)%nat).
Local Notation engine := (engine (J := J)).
Implicit Types (e : engine).

(** ** Turns *)
Lemma request_input_post e :
  quiet [] e → e_interactive e = true →
  rp_final_response_ready (st e) = true ∨ (s_taskless = true ∧ b_model_turns (e_budget e) = rp_initial_model_turns (st e)) →
  post (capacity ← look (λ e, input_capacity e ""); or_quit capacity ;; must_commit InputRequested ;; wait_for_input patience deadline)
    (λ _ e', quiet [] e' ∧ b_model_turns (e_budget e') = b_model_turns (e_budget e)) ended e.
Proof using All.
  intros Q Hi Hready. do 3 post_step. pose proof (capacity_free HL [] e "" Q) as Hcap. apply post_or_quit.
  destruct (input_capacity e "") as [[]|r]; [|by apply (quiet_ended [])]. post_step.
  eapply (quiet_plain HL); [done|done|done| |apply same_projection|].
  { cbn [apply_event]. unfold apply_input_requested. rewrite check_run; [done|].
    rewrite (quiet_ready _ Q), <- (v_interactive _ (q_viewed _ _ Q)), Hi, <- (q_synced _ _ Q), (c_taskless _ (q_core _ _ Q)).
    destruct Hready as [->|[-> ->]]; simpl; [done|]. by rewrite Z.eqb_refl, orb_true_r. }
  intros e1 Q1 K1. eapply post_mono; [apply (wait_for_input_post HL horizon); [done|lia|lia|done]| |done].
  intros [] e2 [Q2 S2]. split; [done|]. by rewrite (sd_turns _ _ S2), (sd_turns _ _ (cl_steady _ _ K1)).
Qed.
Lemma after_final_post e n :
  quiet [] e → j_checkpointed (e_journal e) < rp_sequence (st e) → rp_final_response_ready (st e) = true →
  n < b_model_turns (e_budget e) →
  post (after_final patience deadline) (λ _ e', quiet [] e' ∧ n < b_model_turns (e_budget e')) ended e.
Proof using All.
  intros Q Hck Hready Hn. unfold after_final. post_step. apply quiet_checkpoint; [done..|]. intros j Hj Q1.
  set (e1 := e <| e_journal := j |>) in *. assert (st e1 = st e) as Hst by done. post_step.
  eapply post_mono; [by apply (drain_input_post HL)| |done]. intros accepted e2 (Q2 & S2 & R2).
  pose proof (sd_turns _ _ S2) as Ht2. simpl in Ht2. destruct accepted; [post_step; split; [done|lia]|].
  specialize (R2 eq_refl). rewrite Hst, Hready in R2. do 2 post_step. destruct (e_interactive e2) eqn:Ei.
  { eapply post_mono; [apply request_input_post; auto| |done]. intros [] e3 [? ?]. split; [done|lia]. }
  post_step. unfold ended. rewrite decide_False by done. split; [apply Q2|apply Q2| | |apply ends_free_ok, Q2].
  - by rewrite (v_messages _ (q_viewed _ _ Q2)).
  - unfold apply_ended. rewrite (quiet_ready _ Q2), R2, <- (v_interactive _ (q_viewed _ _ Q2)), Ei. reflexivity.
Qed.
Lemma after_response_post names response n e :
  responded n response e →
  post (after_response patience deadline names response) (λ _ e', quiet [] e' ∧ n < b_model_turns (e_budget e')) ended e.
Proof using All.
  intros R. unfold after_response, push_response. pose proof R as [Q Hck Hready Hn].
  set (e1 := pushed response e) in *. assert (st e1 = st e) as Hst by done. unfold queued in Q.
  destruct (decide (finish response = FinLength)).
  { do 2 post_step. apply quiet_checkpoint; [exact Q|exact Hck|]. intros j Hj Q1. split; [exact Q1|exact Hn]. }
  destruct (Bool.eqb _ _); [post_step; by eapply responded_ended|]. do 3 post_step. change (update _ e) with (Go tt, e1).
  eapply (stop_post HL); [exact Q|]. intros e2 F Q2 _.
  assert (n < b_model_turns (e_budget e2)) as Hn2 by (by rewrite (mv_budget _ _ (f_moves _ _ F))).
  assert (j_checkpointed (e_journal e2) < rp_sequence (st e2)) as Hck2 by (by rewrite (frame_st _ _ F), (mv_journal _ _ (f_moves _ _ F))).
  destruct (negb _); [post_step; by eapply quiet_ended|]. destruct (is_final response) eqn:Ef.
  - assert (rs_calls response = []) as Hc by (unfold is_final in Ef; ok_inv; done). rewrite Hc in Q2.
    apply after_final_post; [done..| |done]. rewrite (frame_st _ _ F). exact Hready.
  - post_step. eapply post_mono; [by apply (run_calls_post HL)| |done]. intros [] e3 (Q3 & Hck3 & Ht3).
    apply quiet_checkpoint; [done..|]. intros j Hj Q4. split; [done|]. simpl. lia.
Qed.
Lemma turn_post e :
  quiet [] e →
  post (turn patience deadline)
    (λ _ e', quiet [] e' ∧ b_model_turns (e_budget e) < b_model_turns (e_budget e') ∧ b_model_turns (e_budget e) < l_model_turns s_limits)
    ended e.
Proof using All.
  intros Q. unfold turn. post_step. eapply (stop_post HL); [done|]. intros e1 F Q1 _. rewrite <- (mv_budget _ _ (f_moves _ _ F)).
  set (n := b_model_turns (e_budget e1)). do 3 post_step. apply post_stop_if. destruct (next_turn_limit e1) as [r|] eqn:Er.
  { apply (quiet_ended []); [done|by eapply next_turn_limit_free]. }
  assert (n < l_model_turns s_limits) as Hlt.
  { unfold next_turn_limit in Er. rewrite (c_limits _ (q_core _ _ Q1)) in Er. unfold n.
    destruct (Z.leb_spec (l_model_turns s_limits) (b_model_turns (e_budget e1))); [done|lia]. }
  apply (post_mono _ (λ _ e', quiet [] e' ∧ n < b_model_turns (e_budget e')) _ ended); [|naive_solver|done].
  post_step. eapply post_mono; [by apply (drain_input_post HL)| |done]. intros a e2 (Q2 & S2 & _).
  post_step. apply instant_post. intros t e3 F3. pose proof (frame_quiet _ _ _ F3 Q2) as Q3.
  assert (b_model_turns (e_budget e3) = n) as Hn by (by rewrite (mv_budget _ _ (f_moves _ _ F3)), (sd_turns _ _ S2)).
  post_step. eapply post_mono; [apply (draft_request_post HL _ n); [done|lia]| |done]. intros d4 e4 D4.
  post_step. eapply post_mono; [by apply (evict_outputs_post HL)| |done]. intros d5 e5 D5.
  post_step. eapply post_mono; [by apply (summarize_post HL)| |done]. intros d6 e6 D6.
  post_step. eapply post_mono; [by apply (compose_post HL)| |done]. intros [request input] e7 K7. simpl in K7.
  post_step. eapply post_mono; [by apply (ask_model_post HL)| |done]. intros [answer streamed] e8 (K8 & Hs8 & Ha8). simpl in Hs8, Ha8.
  destruct answer as [[response usage]|err]; [|by eapply (retry_later_post HL)].
  post_step. eapply post_mono; [by apply (settle_response_post HL)| |done]. intros [] e9 R9. by apply after_response_post.
Qed.
(** Every turn is one of the limited number of model turns. *)
Lemma drive_post fuel e :
  quiet [] e → (Z.to_nat (l_model_turns s_limits - b_model_turns (e_budget e)) < fuel)%nat →
  post (drive fuel patience deadline) (λ _ _, False) ended e.
Proof using All.
  revert e. induction fuel as [|fuel IH]; intros e Q Hf; [lia|]. cbn [drive]. post_step.
  eapply post_mono; [by apply turn_post| |done]. intros [] e1 (Q1 & ? & ?). apply IH; [done|lia].
Qed.
Lemma converse_post e :
  quiet [] e → none (id_task (e_identity e)) = s_taskless → b_model_turns (e_budget e) = rp_initial_model_turns (st e) →
  post (converse patience deadline) (λ _ _, False) ended e.
Proof using All.
  intros Q Ht Hi. unfold converse. do 5 post_step. rewrite (c_limits _ (q_core _ _ Q)), Ht.
  assert (∀ e', quiet [] e' → post (drive (drive_fuel s_limits) patience deadline) (λ _ _, False) ended e') as Hd.
  { intros e' Q'. apply drive_post; [done|]. unfold drive_fuel. destruct (bt_model_turns _ (c_typed _ (q_core _ _ Q'))).
    rewrite (q_synced _ _ Q'). destruct (limits_positive HL) as (_ & ? & _). lia. }
  destruct (e_interactive e && s_taskless) eqn:Ew; [|by post_step; auto].
  apply andb_true_iff in Ew as [Hint Hta]. eapply post_mono; [by apply request_input_post; auto| |done].
  intros [] e1 [Q1 _]. auto.
Qed.

(** ** The end *)
(** What [run] promises of an end. *)
Definition settled (o : SessionEnd) e : Prop :=
  if se_durable o
  then rp_end (st e) = Some (se_reason o) ∧ rp_budget (st e) = se_budget o ∧ bounded (se_budget o)
       ∧ e_messages e `prefix_of` rp_messages (st e)
  else se_reason o = JournalFailed ∧ j_refused (e_journal e) = true.
Lemma resting_ends r e p : resting r e → end_kept (e_peer e) p → resting r (e <| e_peer := p |>).
Proof.
  intros [C Y M A En] Hk. assert (st (e <| e_peer := p |>) = st e) as Hst by done. split; rewrite ?Hst; try done.
  - destruct C. by split.
  - intros r' Hr. destruct (Hk r' Hr) as [?|?]; [by apply free_end_accepted|]. rewrite Hst. by apply En.
Qed.
Lemma finish_commit ev e : is_started ev = false →
  (update_elapsed ;; commit ev) e = commit ev (e <| e_tick := S (e_tick e) |>).
Proof. intros H. unfold commit. rewrite H. done. Qed.
Lemma finish_session_settled reason e :
  ended reason e → let '(o, e') := finish_session reason e in settled o e'.
Proof using All.
  intros He. unfold finish_session. destruct (tool_shutdown _) as [clean p] eqn:Es. simpl in Es.
  set (e1 := e <| e_peer := _ |> <| e_peer := p |>). unfold ended in He. destruct (decide (reason = JournalFailed)) as [->|Hj].
  { rewrite decide_True by done. by split. }
  assert (resting reason e1) as R1.
  { apply (resting_ends _ _ p); [apply resting_ends; [done|apply kept_provider_cancel]|]. simpl.
    pose proof (kept_shutdown (provider_cancel (e_peer e))) as Hk. by rewrite Es in Hk. }
  cbv zeta. match goal with |- context [if decide (?r = JournalFailed) then _ else _] => set (r' := r) end.
  assert (is_ok (apply_ended (st e1) r') = true ∧ r' ≠ JournalFailed) as [Hacc Hr'].
  { unfold r'. destruct clean; simpl; [|done].
    destruct (tool_end_reason p) as [x|] eqn:Ex; simpl; [by apply (r_ends _ _ R1)|]. split; [apply (r_accepts _ _ R1)|done]. }
  rewrite decide_False by done. rewrite finish_commit by done.
  set (e2 := e1 <| e_tick := S (e_tick e1) |>). assert (frame e1 e2) as F by (apply tick_frame; lia).
  pose proof (moves_core _ _ (f_moves _ _ F) (r_core _ _ R1)) as C2. assert (st e2 = st e1) as Hst by done.
  destruct (apply_ended (st e1) r') as [s|] eqn:Ea; [|done].
  assert (rp_end s = Some r' ∧ rp_messages s = rp_messages (st e1)) as [Hs1 Hs2] by (unfold apply_ended in Ea; ok_inv; by subst).
  assert (post (commit (Ended r')) (λ b e', if b : bool
    then settled (mk_session_end r' (e_budget e') true (e_retryable_provider_failure e')) e' else j_refused (e_journal e') = true)
    (λ _ _, False) e2) as H.
  { eapply commit_post; [done|done| | |done].
    - eapply accepts_plain; [done|apply synced_np, (r_synced _ _ R1)|done|]. rewrite Hst. cbn [apply_event]. by rewrite Ea.
    - intros e' M. unfold settled. simpl. rewrite (cm_state _ _ _ _ M), (cm_budget _ _ _ _ M), (cm_messages _ _ _ _ M).
      split_and!; [done|done| |simpl; rewrite Hs2; apply R1]. destruct (c_bounded _ (r_core _ _ R1)) as (? & ? & ?).
      unfold bounded, elapsed_now. change (e_budget e2) with (e_budget e1). rewrite (r_synced _ _ R1). by split_and!. }
  unfold post in H. by destruct (commit (Ended r') e2) as [[[]|?|] e3].
Qed.
End session.

(** ** The beginning *)
Section beginning.
Context {FT : FloatText} {JT : JsonText} {JS : JsonSize} {SH : Sha256} {SL : Sha256Laws} {PE : Peers}.
Context {J : Type} {JO : Journal J} {JL : JournalLaws J} {SE : Session} {PL : PeersLaws s_limits s_taskless} (HL : limits_sane).
Local Notation engine := (engine (J := J)).
Implicit Types (e : engine).

Record launched e : Prop := {
  la_started : e_started e = Some s_start;
  la_tick : s_start ≤ now (e_tick e);
  la_limits : e_limits e = s_limits;
  la_taskless : none (id_task (e_identity e)) = s_taskless;
  la_budget : e_budget e = s_budget;
  la_typed : budget_typed (e_budget e);
  la_unspent : b_elapsed_ms (e_budget e) = 0 ∧ b_reserved_input (e_budget e) = 0 ∧ b_reserved_output (e_budget e) = 0;
  la_messages : e_messages e = [];
  la_summary : e_summary e = None;
  la_steering : e_latest_steering e = None;
  la_prompt : ∀ p, e_system_prompt e = Some p → blank p = false;
  la_journal : j_state (e_journal e) = default_replay;
  la_session : j_session (e_journal e) = id_session (e_identity e);
  la_checkpointed : j_checkpointed (e_journal e) ≤ 0;
  la_ends : ends_free e }.
Definition input_fits e (input : string) : Prop :=
  saturating_add (slen input) (match e_system_prompt e with Some p => slen p | None => 0 end) ≤ l_context_bytes (e_limits e).
(** The state of replay after the first record. *)
Definition opened e (input : string) : Replay :=
  default_replay <| rp_session_id := id_session (e_identity e) |> <| rp_taskless := s_taskless |>
    <| rp_initial_model_turns := b_model_turns (e_budget e) |> <| rp_messages := opening_messages e input |>
    <| rp_budget := e_budget e |> <| rp_sequence := 1 |>.
Lemma started_applies e input evidence :
  launched e → input_fits e input →
  apply (j_state (e_journal e)) (next_record (j_session (e_journal e)) (rp_sequence (j_state (e_journal e)))
    (started_event e input evidence) (e_budget e)) = Ok (opened e input).
Proof using HL.
  intros L Hin. rewrite (la_journal _ L), (la_session _ L). unfold apply, next_record. simpl.
  unfold open_session. simpl. rewrite check_run by apply String.eqb_refl. simpl. rewrite check_run by apply String.eqb_refl.
  rewrite (la_taskless _ L). destruct (la_unspent _ L) as (He & Hi & Ho). destruct (la_typed _ L).
  assert (regressed default_budget (e_budget e) = false) as Hr.
  { apply not_regressed; simpl; unfold u64 in *; lia. }
  unfold check_budget. rewrite Hr. simpl. unfold apply_started, input_fits in *. rewrite (la_limits _ L) in *. simpl.
  destruct (decide (e_budget e = default_budget)) as [Hb|Hb]; simpl.
  - rewrite Hb. simpl. rewrite (lt_valid HL). simpl. rewrite check_run by (by apply Z.leb_le).
    unfold opened, opening_messages. destruct (e_system_prompt e) as [prompt|] eqn:Ep; [|by rewrite Hb].
    rewrite (la_prompt _ L prompt Ep). by rewrite Hb.
  - rewrite He, Hi, Ho. simpl. rewrite !bool_decide_eq_true_2 by done. simpl. rewrite (lt_valid HL). simpl.
    rewrite check_run by (by apply Z.leb_le). unfold opened, opening_messages. destruct (e_system_prompt e) as [prompt|] eqn:Ep; [|done].
    by rewrite (la_prompt _ L prompt Ep).
Qed.
Lemma opened_running e input : running (opened e input).
Proof.
  split; simpl; try done. exists (opening_messages e input), []. rewrite app_nil_r. split_and!; [done| |constructor].
  unfold opening_messages, opening. destruct (e_system_prompt e); eauto.
Qed.
Lemma started_post e input evidence (Q : unit → engine → Prop) R :
  launched e → input_fits e input →
  (∀ j p, j_state j = opened e input → j_session j = id_session (e_identity e) → j_checkpointed j ≤ 0 →
          end_kept (e_peer e) p → Q tt (e <| e_journal := j |> <| e_peer := p |>)) →
  (∀ e', j_refused (e_journal e') = true → R JournalFailed e') →
  post (must_commit (started_event e input evidence)) Q R e.
Proof using All.
  intros L Hin HQ HR. pose proof (started_applies e input evidence L Hin) as Hap. unfold post, must_commit, commit, mbind, eng_bind. simpl.
  unfold append. destruct (j_append _ _ _) as [[record|err] j] eqn:Ej.
  - apply append_Ok in Ej as (-> & Ha & Hs & Hc). rewrite Hap in Ha. injection Ha as Ha. apply HQ; [done| | |apply kept_committed].
    + rewrite Hs. apply (la_session _ L).
    + rewrite Hc. apply (la_checkpointed _ L).
  - apply HR. simpl. apply append_Err in Ej as [?|[_ Ha]]; [done|]. by rewrite Hap in Ha.
Qed.
(** After the first record, up to the frontend's interaction. *)
Lemma opened_quiet e input j p :
  launched e → j_state j = opened e input → j_session j = id_session (e_identity e) → j_checkpointed j ≤ 0 →
  end_kept (e_peer e) p →
  let e' := e <| e_journal := j |> <| e_peer := p |> <| e_messages := e_messages e ++ opening_messages e input |> in
  quiet [] (e' <| e_interactive := false |>).
Proof using All.
  intros L Hj Hs Hc Hp e'. set (e1 := e' <| e_interactive := false |>). assert (st e1 = opened e input) as Hst by done.
  split; rewrite ?Hst; try done.
  - split; rewrite ?Hst; simpl; try apply L; try done.
    + apply opened_running.
    + destruct (la_unspent _ L) as (-> & _). unfold millis_since. pose proof (la_tick _ L).
      pose proof (Z.div_pos (now (e_tick e) - s_start) 1000000). unfold usize_max. lia.
    + lia.
    + rewrite (la_budget _ L). unfold bounded. lia.
  - intros r Hr. destruct (Hp r Hr) as [|Hr']; [done|]. by apply (la_ends _ L).
  - split; rewrite ?Hst; simpl; try apply L; try done. by rewrite (la_messages _ L).
  - apply (la_unspent _ L).
  - intros s. simpl. by rewrite (la_summary _ L).
Qed.
Lemma headless_same e : e_interactive e = false → e <| e_interactive := false |> = e.
Proof. destruct e. simpl. by intros ->. Qed.
Lemma open_journal_post e input evidence :
  launched e → input_fits e input →
  post (open_journal (started_event e input evidence) input)
    (λ _ e', quiet [] e' ∧ e_identity e' = e_identity e ∧ b_model_turns (e_budget e') = rp_initial_model_turns (st e'))
    (λ _ e', j_refused (e_journal e') = true) e.
Proof using All.
  intros L Hin. unfold open_journal. post_step. apply started_post; [done|done| |done]. intros j p Hj Hs Hc Hp.
  pose proof (opened_quiet e input j p L Hj Hs Hc Hp) as Q. do 4 post_step.
  set (e1 := e <| e_journal := j |> <| e_peer := p |> <| e_messages := _ |>) in *.
  change (e_messages (e <| e_journal := j |> <| e_peer := p |>)) with (e_messages e) in *.
  destruct (e_interactive _) eqn:Ei.
  - assert (core e1) as C1 by (destruct (q_core _ _ Q); by split).
    assert (e_budget e1 = rp_budget (st e1)) as Y1 by exact (q_synced _ _ Q).
    assert (checkpoint_ready (st e1) = true) as Hready by exact (quiet_ready _ Q).
    assert (rp_interactive (st e1) = false) as Hni by (unfold st; simpl; by rewrite Hj).
    unfold must_commit. post_step. eapply commit_post; [done|done| | |done].
    { eapply accepts_plain; [done|by apply synced_np|done|]. cbn [apply_event]. unfold apply_interaction_opened.
      rewrite check_run by (by rewrite Hready, Hni). reflexivity. }
    intros e2 M. pose proof (cm_state _ _ _ _ M) as Hs2.
    destruct (commits_core _ _ _ _ C1 M) as [C2 _]; [done|done|rewrite Y1; apply C1..|]. post_step.
    split_and!; [|by rewrite (cm_identity _ _ _ _ M)|by rewrite Hs2, (cm_budget _ _ _ _ M); unfold st; simpl; rewrite Hj].
    eapply (quiet_after [] _ _ _ _ e2 M C2); try keep Q.
    + apply (commits_ends _ _ _ _ M), Q.
    + split; rewrite Hs2; [rewrite (cm_messages _ _ _ _ M); exact (v_messages _ (q_viewed _ _ Q))|
        rewrite (cm_summary _ _ _ _ M); exact (v_summary _ (q_viewed _ _ Q))|
        rewrite (cm_steering _ _ _ _ M); exact (v_steering _ (q_viewed _ _ Q))|by rewrite (cm_interactive _ _ _ _ M)].
    + intros s. rewrite (cm_summary _ _ _ _ M). simpl. by rewrite (la_summary _ L).
  - post_step. split_and!; [rewrite <- (headless_same e1 Ei); exact Q|done|]. unfold st. simpl. by rewrite Hj.
Qed.
End beginning.

Section theorems.
Context {FT : FloatText} {JT : JsonText} {JS : JsonSize} {SH : Sha256} {SL : Sha256Laws} {PE : Peers}.
Context {J : Type} {JO : Journal J} {JL : JournalLaws J}.
Local Notation engine := (engine (J := J)).
Implicit Types (e : engine).

(** ** Engines that have not run *)
Record fresh e : Prop := {
  fr_started : e_started e = None;
  fr_messages : e_messages e = [];
  fr_summary : e_summary e = None;
  fr_steering : e_latest_steering e = None;
  fr_limits : session_limits_valid (e_limits e) = true;
  fr_prompt : ∀ p, e_system_prompt e = Some p → blank p = false;
  fr_typed : budget_typed (e_budget e);
  fr_unspent : b_elapsed_ms (e_budget e) = 0 ∧ b_reserved_input (e_budget e) = 0 ∧ b_reserved_output (e_budget e) = 0 }.
Lemma engine_new_fresh identity limits p j e : engine_new identity limits p j = Ok e → fresh e.
Proof.
  unfold engine_new. intros H. ok_inv. subst. by split.
Qed.
Lemma set_launch_evidence_fresh evidence e : fresh e → fresh (set_launch_evidence evidence e).
Proof. intros []. by split. Qed.
Lemma set_system_prompt_fresh prompt e e' : fresh e → set_system_prompt prompt e = Ok e' → fresh e'.
Proof. intros [] H. unfold set_system_prompt in H. ok_inv. subst. split; simpl; try done. by intros ? [= <-]. Qed.
Lemma inherit_budget_fresh budget e e' : fresh e → budget_typed budget → inherit_budget budget e = Ok e' → fresh e'.
Proof. intros [] Ht H. unfold inherit_budget in H. ok_inv. subst. by split. Qed.

(** The journal of a session that has not started. *)
Record blank_journal e : Prop := {
  bj_state : j_state (e_journal e) = default_replay;
  bj_session : j_session (e_journal e) = id_session (e_identity e);
  bj_checkpointed : j_checkpointed (e_journal e) ≤ 0 }.
Definition session_of e : Session :=
  {| s_limits := e_limits e; s_taskless := none (id_task (e_identity e)); s_start := now (e_tick e); s_budget := e_budget e |}.
Definition deadline_of e : Z := now (e_tick e) + l_elapsed_ms (e_limits e) * 1000000.

Section runs.
Context (e : engine) (HF : fresh e) (HB : blank_journal e) (HE : ends_free e) (HL : limits_sane (SE := session_of e)).
Context {PL : PeersLaws (e_limits e) (none (id_task (e_identity e)))}.
Context (horizon patience : nat) (Hhorizon : ∀ k, (horizon ≤ k)%nat → deadline_of e ≤ now k) (Hpatience : (horizon < patience)%nat).
Local Existing Instance session_of.

Lemma launched_start k cancelled :
  (e_tick e ≤ k)%nat →
  launched (SE := session_of e) (e <| e_tick := k |> <| e_started := Some (now (e_tick e)) |> <| e_cancelled := cancelled |>).
Proof using HF HB HE PL.
  intros Hk. destruct HF, HB. split; simpl; try done. by apply now_mono.
Qed.
Lemma conversation_settled input evidence e0 :
  launched (SE := session_of e) e0 → input_fits e0 input →
  match open_journal (started_event e0 input evidence) input e0 with
  | (Go _, e1) =>
    match converse patience (deadline_of e) e1 with
    | (Quit reason, e1) => let '(session_end, e2) := finish_session reason e1 in settled (SE := session_of e) session_end e2
    | (_, _) => False
    end
  | (_, e1) => j_refused (e_journal e1) = true
  end.
Proof using All.
  intros L Hin. pose proof (open_journal_post (SE := session_of e) HL e0 input evidence L Hin) as H. unfold post in H.
  destruct (open_journal _ _ _) as [[[]|r|] e1]; [|done..]. destruct H as (Q & Hid & Ht).
  pose proof (converse_post (SE := session_of e) HL horizon patience (deadline_of e) Hhorizon Hpatience e1 Q) as Hc.
  rewrite Hid, (la_taskless _ L) in Hc. specialize (Hc eq_refl Ht). unfold post in Hc.
  destruct (converse _ _ _) as [[[]|r|] e2]; [done| |done]. by eapply finish_session_settled.
Qed.
(** Everything [run] may answer. *)
Definition answers (r : option (result SessionEnd) * engine) : Prop :=
  match r with
  | (Some (Ok o), e') =>
    settled (SE := session_of e) o e'
    ∨ (se_durable o = false ∧ se_reason o = EndLimit LContextBytes ∧ e_journal e' = e_journal e)
  | (Some (Err _), e') => e_journal e' = e_journal e
  | (None, _) => False
  end.
(** [run] once the engine is launched. *)
Lemma launched_answers input e0 :
  launched (SE := session_of e) e0 → e_journal e0 = e_journal e →
  answers (
    if l_context_bytes (e_limits e0) <? saturating_add (slen input) (match e_system_prompt e0 with Some p => slen p | None => 0 end)
    then (Some (Ok (mk_session_end (EndLimit LContextBytes) (e_budget e0) false false)), e0) else
    match launch_evidence_of e0 with
    | Err error => (Some (Err error), e0)
    | Ok evidence =>
      match open_journal (started_event e0 input evidence) input e0 with
      | (Go _, e1) =>
        match converse patience (deadline_of e) e1 with
        | (Quit reason, e1) => let '(session_end, e1) := finish_session reason e1 in (Some (Ok session_end), e1)
        | (_, e1) => (None, e1)
        end
      | (_, e1) => (Some (Ok (failed_end e1)), e1)
      end
    end).
Proof using All.
  intros L Hj. destruct (_ <? _) eqn:Eb; [by right|]. assert (input_fits e0 input) as Hin by (by apply Z.ltb_ge in Eb).
  destruct (launch_evidence_of e0) as [evidence|]; [|done]. pose proof (conversation_settled input evidence e0 L Hin) as H.
  destruct (open_journal _ _ _) as [[[]|r|] e1]; [|left; by split..].
  destruct (converse _ _ _) as [[[]|r|] e2]; [done| |done]. destruct (finish_session r e2) as [o e3]. by left.
Qed.
Lemma run_answers command : answers (run patience command e).
Proof using All.
  unfold run. rewrite (fr_started _ HF). cbn [none negb]. cbv zeta.
  destruct (max_instant <=? _); [done|]. destruct command as [input| | |]; try done.
  - apply (launched_answers input); [|done]. apply (launched_start (S (e_tick e)) (e_cancelled e)). lia.
  - apply (launched_answers ""); [|done]. apply (launched_start (S (e_tick e)) true). lia.
Qed.

End runs.
End theorems.
