(* ===== verification/EngineTrace.v ===== *)
(** What the engine does in the world, and when: no tool is executed and no
    request is sent before the records that announce it are in the journal.

    [traced] wraps the peers and notes, in order, the records that were
    committed, the requests that were sent and the calls that were executed. *)
From S2P Require Import Prelude Transact Text Wire Patch FileTools AgentData AgentWire AgentWireFacts Compaction Replay Engine EngineFacts.
#[local] Open Scope list_scope.

Inductive entry : Type :=
  | NotedRecord (record : SessionRecord)
  | NotedRequest (request : ModelRequest)
  | NotedCall (v : Validated).
(** A peer's step, without a note. *)
Definition quietly {P A N : Type} (f : P → A * P) (p : P * N) : A * (P * N) := let '(a, p') := f p.1 in (a, (p', p.2)).
(** A peer's step that is noted first. *)
Definition noting {P A : Type} (x : entry) (f : P → A * P) (p : P * list entry) : A * (P * list entry) :=
  let '(a, p') := f p.1 in (a, (p', p.2 ++ [x])).
Definition traced (PE : Peers) : Peers := {|
  peer := @peer PE * list entry;
  settings p := settings p.1;
  estimate_input_tokens p := estimate_input_tokens p.1;
  provider_cancel p := (provider_cancel p.1, p.2);
  provider_start request := noting (NotedRequest request) (provider_start request);
  next_event := quietly next_event;
  prepare_context messages := quietly (prepare_context messages);
  tool_end_reason p := tool_end_reason p.1;
  descriptors p := descriptors p.1;
  tool_validate p := tool_validate p.1;
  tool_effect_plan p := tool_effect_plan p.1;
  tool_execute v := noting (NotedCall v) (tool_execute v);
  tool_interrupted := quietly tool_interrupted;
  tool_shutdown := quietly tool_shutdown;
  authorize v := quietly (authorize v);
  host_committed record p := (host_committed record p.1, p.2 ++ [NotedRecord record]);
  try_recv := quietly try_recv;
  recv := quietly recv;
  sleep ms := quietly (sleep ms);
  now := now;
  cancelled := cancelled |}.

(** ** Announced effects *)
(** [before] ends with the records that announce [v]. *)
Definition announces (before : list entry) (v : Validated) : Prop := ∃ earlier intent start call plan,
  before = earlier ++ [NotedRecord intent; NotedRecord start]
  ∧ rec_event intent = ToolIntent (v_call_id v) call plan true ∧ rec_event start = ToolStarted (v_call_id v)
  ∧ provider_call_id call = v_provider_call_id v ∧ tc_name call = call_name (v_call v).
(** [before] ends with the record that charges a request. *)
Definition reserves (before : list entry) : Prop := ∃ earlier attempt,
  before = earlier ++ [NotedRecord attempt]
  ∧ match rec_event attempt with ModelStarted _ | CompactionStarted _ _ => True | _ => False end.
Definition announced (notes : list entry) : Prop := ∀ before x after,
  notes = before ++ x :: after →
  match x with
  | NotedRecord _ => True
  | NotedRequest _ => reserves before
  | NotedCall v => announces before v
  end.
Lemma announced_snoc notes x :
  announced notes →
  match x with NotedRecord _ => True | NotedRequest _ => reserves notes | NotedCall v => announces notes v end →
  announced (notes ++ [x]).
Proof.
  intros H Hx before y after E. destruct after as [|z after _] using rev_ind.
  - apply app_inj_tail in E as [<- <-]. exact Hx.
  - rewrite app_comm_cons, (assoc_L (++)) in E. apply app_inj_tail in E as [E _]. by apply (H before y after).
Qed.

Section trace.
Context {FT : FloatText} {JT : JsonText} {SH : Sha256} (PE0 : Peers) {J : Type} {JO : Journal J} {JL : JournalLaws J}.
#[local] Instance traced_peers : Peers := traced PE0.
Local Notation engine := (engine (PE := traced_peers) (J := J)).
Local Notation eng := (eng (PE := traced_peers) (J := J)).
Implicit Types (e : engine).

Definition notes e : list entry := (e_peer e : @peer PE0 * list entry).2.
Definition fine e : Prop := announced (notes e).
(** [m] keeps what is noted announced. *)
Definition keeps {A} (m : eng A) : Prop := ∀ e, fine e → fine (m e).2.
Lemma traced_ret {A} (a : A) : keeps (mret a).
Proof. by intros e. Qed.
Lemma keeps_quit {A} r : keeps (A := A) (quit r).
Proof. by intros e. Qed.
Lemma traced_look {A} (f : engine → A) : keeps (look f).
Proof. by intros e. Qed.
Lemma keeps_fuel {A} : keeps (A := A) (λ e, (OutOfFuel, e)).
Proof. by intros e. Qed.
Lemma traced_bind {A B} (m : eng A) (f : A → eng B) : keeps m → (∀ a, keeps (f a)) → keeps (m ≫= f).
Proof.
  intros Hm Hf e He. specialize (Hm e He). unfold mbind, eng_bind. destruct (m e) as [[a|r|] e']; [by apply Hf|done..].
Qed.
Lemma keeps_update f : (∀ e, notes (f e) = notes e) → keeps (update f).
Proof. intros Hf e. unfold fine. simpl. by rewrite Hf. Qed.
Lemma keeps_charge f : keeps (charge_budget f).
Proof. unfold charge_budget. apply keeps_update. intros e. reflexivity. Qed.
Lemma keeps_or_quit {A} (r : res EndReason A) : keeps (or_quit r).
Proof. by destruct r; intros ?. Qed.
Lemma keeps_stop_if o : keeps (stop_if o).
Proof. by destruct o; intros ?. Qed.
Definition unnoted {A} (f : peer → A * peer) : Prop := ∀ p : peer, (f p).2.2 = p.2.
Lemma unnoted_quietly {A} (f : @peer PE0 → A * @peer PE0) : unnoted (quietly f).
Proof. intros p. unfold quietly. by destruct (f p.1). Qed.
Lemma keeps_on_peer {A} (f : peer → A * peer) : unnoted f → keeps (on_peer f).
Proof.
  intros Hf e He. unfold on_peer, fine, notes in *. specialize (Hf (e_peer e)). destruct (f (e_peer e)) as [a p]. simpl in *. by rewrite Hf.
Qed.
Lemma keeps_interrupt {A} deadline (f : peer → option A * peer) : unnoted f → keeps (interrupt deadline f).
Proof.
  intros Hf e He. unfold interrupt, fine, notes in *. specialize (Hf (e_peer e)). destruct (is_cancelled_at _ _); [done|].
  destruct (_ <=? _); [done|]. destruct (f (e_peer e)) as [[a|] p]; simpl in *; by rewrite Hf.
Qed.
(** An interrupted step that is noted, from notes that announce it. *)
Lemma keeps_noting {A} deadline x (f : @peer PE0 → option A * @peer PE0) e :
  fine e → match x with NotedRecord _ => True | NotedRequest _ => reserves (notes e) | NotedCall v => announces (notes e) v end →
  fine (interrupt (PE := traced_peers) deadline (noting x f) e).2.
Proof.
  intros He Hx. unfold interrupt, fine, notes in *. destruct (is_cancelled_at _ _); [done|]. destruct (_ <=? _); [done|].
  unfold noting. destruct (f (e_peer e).1) as [[a|] p]; simpl; by apply announced_snoc.
Qed.
Lemma keeps_instant : keeps instant.
Proof. by intros e. Qed.
Lemma keeps_stop deadline : keeps (stop deadline).
Proof. unfold stop. apply traced_bind; [apply traced_look|intros r]. apply traced_bind; [by apply keeps_update|intros []; apply keeps_stop_if]. Qed.
(** A commit notes its own record, and nothing else. *)
Lemma commit_notes event e :
  match commit event e with
  | (Go true, e') => ∃ record, rec_event record = event ∧ notes e' = notes e ++ [NotedRecord record]
  | (Go false, e') => notes e' = notes e
  | _ => False
  end.
Proof using JL.
  unfold commit. assert (∀ e1, notes e1 = notes e → match append event e1 with
    | (Go true, e') => ∃ record, rec_event record = event ∧ notes e' = notes e ++ [NotedRecord record]
    | (Go false, e') => notes e' = notes e
    | _ => False
    end) as H.
  { intros e1 He. unfold append. destruct (j_append _ _ _) as [[record|] j] eqn:E; [|done].
    apply append_Ok in E as (-> & _). eexists. split; [|unfold notes in *; simpl; by rewrite He]. done. }
  destruct (is_started event); unfold mbind, eng_bind; simpl; by apply H.
Qed.
Lemma keeps_commit event : keeps (commit event).
Proof using JL.
  intros e He. pose proof (commit_notes event e) as H. destruct (commit event e) as [[[]|r|] e']; try done; unfold fine; simpl.
  - destruct H as (record & _ & ->). by apply announced_snoc.
  - by rewrite H.
Qed.
Lemma keeps_must_commit event : keeps (must_commit event).
Proof using JL. unfold must_commit. apply traced_bind; [apply keeps_commit|intros []; [apply traced_ret|apply keeps_quit]]. Qed.
Lemma keeps_checkpoint : keeps must_checkpoint.
Proof. intros e He. unfold must_checkpoint. by destruct (j_checkpoint (e_journal e)) as [[] j]. Qed.
(** After a commit that succeeded, its record is the last note. *)
Lemma must_commit_notes event e e' :
  must_commit event e = (Go tt, e') → ∃ record, rec_event record = event ∧ notes e' = notes e ++ [NotedRecord record].
Proof using JL.
  unfold must_commit, mbind, eng_bind. pose proof (commit_notes event e) as H. destruct (commit event e) as [[[]|r|] e1]; try done.
  intros [= <-]. done.
Qed.

(** ** The parts of the engine *)
(** [m] leaves, when it returns, a state with [P]. *)
Definition leads {A} (m : eng A) (P : engine → Prop) : Prop := ∀ e a e', m e = (Go a, e') → P e'.
Lemma leads_bind {A B} (m : eng A) (f : A → eng B) P : (∀ a, leads (f a) P) → leads (m ≫= f) P.
Proof. intros H e b e'. unfold mbind, eng_bind. destruct (m e) as [[a|r|] e1]; [apply H|done..]. Qed.
Lemma leads_before {A B} (m : eng A) (b : A → B) P : leads m P → leads (m ≫= λ a, mret (b a)) P.
Proof. intros H e b' e'. unfold mbind, eng_bind. destruct (m e) as [[a|r|] e1] eqn:E; [|done..]. intros [= <- <-]. by eapply H. Qed.
Lemma fine_bind {A B} (m : eng A) (f : A → eng B) e :
  fine (m e).2 → (∀ a e', m e = (Go a, e') → fine e' → fine (f a e').2) → fine ((m ≫= f) e).2.
Proof. intros Hm Hf. unfold mbind, eng_bind. destruct (m e) as [[a|r|] e']; [by apply Hf|done..]. Qed.
Lemma keeps_fine {A} (m : eng A) e : keeps m → fine e → fine (m e).2.
Proof. auto. Qed.
Lemma keeps_bind_from {A B} (m : eng A) (f : A → eng B) (P : engine → Prop) :
  keeps m → leads m P → (∀ a e, fine e → P e → fine (f a e).2) → keeps (m ≫= f).
Proof. intros Hm Hl Hf e He. apply fine_bind; [by apply Hm|]. intros a e' E He'. apply Hf; [done|]. by eapply Hl. Qed.

Create HintDb noted.
#[local] Hint Resolve traced_ret keeps_quit traced_look keeps_fuel keeps_charge keeps_or_quit keeps_stop_if keeps_instant
  keeps_stop keeps_commit keeps_must_commit keeps_checkpoint : noted.
(** Walks through a program that notes only records. *)
Ltac noted :=
  repeat match goal with
  | |- keeps _ => solve [eauto 2 with noted]
  | |- keeps (mbind _ _) => apply traced_bind; [|intros ?]
  | |- keeps (update _) => apply keeps_update; by intros ?
  | |- keeps (interrupt _ _) => apply keeps_interrupt, unnoted_quietly
  | |- keeps (on_peer _) => apply keeps_on_peer, unnoted_quietly
  | |- keeps (match ?x with _ => _ end) => destruct x
  | |- keeps (let _ := _ in _) => cbv zeta
  end.

Lemma keeps_record_failure retryable error : keeps (record_failure retryable error).
Proof using JL. unfold record_failure. noted. Qed.
#[local] Hint Resolve keeps_record_failure : noted.
Lemma keeps_failed_attempt {A} r : keeps (A := A) (failed_attempt r).
Proof using JL. unfold failed_attempt, record_model_failure. noted. Qed.
#[local] Hint Resolve keeps_failed_attempt : noted.
Lemma keeps_open_interaction : keeps open_interaction.
Proof using JL. unfold open_interaction. noted. Qed.
#[local] Hint Resolve keeps_open_interaction : noted.
Lemma keeps_accept_input command : keeps (accept_input command).
Proof using JL. destruct command; simpl; unfold accept_steering; noted. Qed.
#[local] Hint Resolve keeps_accept_input : noted.
Lemma keeps_drain_loop n accepted : keeps (drain_loop n accepted).
Proof using JL. revert accepted. induction n as [|n IH]; intros accepted; simpl; [noted|]. unfold poll_command. noted. Qed.
Lemma keeps_drain_input : keeps drain_input.
Proof using JL. apply keeps_drain_loop. Qed.
Lemma keeps_wait_for_input patience deadline : keeps (wait_for_input patience deadline).
Proof using JL. induction patience as [|n IH]; simpl; noted. Qed.
Lemma keeps_cancel : keeps cancel_provider.
Proof. unfold cancel_provider. apply keeps_update. by intros ?. Qed.
#[local] Hint Resolve keeps_drain_input keeps_wait_for_input keeps_cancel : noted.
Lemma keeps_summary_stream fuel deadline cap streamed : keeps (summary_stream fuel deadline cap streamed).
Proof using JL. revert streamed. induction fuel as [|n IH]; intros streamed; simpl; noted. Qed.
Lemma keeps_model_stream fuel deadline streamed : keeps (model_stream fuel deadline streamed).
Proof using JL. revert streamed. induction fuel as [|n IH]; intros streamed; simpl; noted. Qed.
Lemma keeps_summary_of cap completed : keeps (summary_of cap completed).
Proof using JL. unfold summary_of. noted. Qed.
#[local] Hint Resolve keeps_summary_stream keeps_model_stream keeps_summary_of : noted.

(** *** Requests *)
Definition reserved e : Prop := reserves (notes e).
Lemma leads_attempt event :
  match event with ModelStarted _ | CompactionStarted _ _ => True | _ => False end → leads (must_commit event) reserved.
Proof using JL.
  intros Hev e [] e' (record & Hr & Hn)%must_commit_notes. exists (notes e), record. rewrite Hr. by split.
Qed.
(** Sending a request whose attempt was just recorded. *)
Lemma fine_request {A} deadline request (f : res EndReason (res ProviderError unit) → eng A) e :
  fine e → reserved e → (∀ a, keeps (f a)) → fine ((interrupt deadline (provider_start request) ≫= f) e).2.
Proof.
  intros He Hr Hf. apply fine_bind; [by apply keeps_noting|]. intros a e' _ He'. by apply Hf.
Qed.
Lemma keeps_compose_compaction plan window : keeps (compose_compaction plan window).
Proof using JL. unfold compose_compaction, reserve. noted. Qed.
Lemma leads_compose_compaction plan window : leads (compose_compaction plan window) reserved.
Proof using JL. unfold compose_compaction. do 5 (apply leads_bind; intros ?). by apply leads_attempt. Qed.
Lemma fine_begin_request deadline request e : fine e → reserved e → fine (begin_request deadline request e).2.
Proof using JL. intros He Hr. apply fine_request; [done..|]. intros a. unfold record_model_failure. noted. Qed.
Lemma keeps_compact base tools c limit deadline : keeps (compact base tools c limit deadline).
Proof using JL.
  unfold compact. apply traced_bind; [apply traced_look|intros planned]. apply traced_bind; [apply keeps_or_quit|intros plan].
  eapply keeps_bind_from; [apply keeps_compose_compaction|apply leads_compose_compaction|]. intros [] e He Hr.
  apply fine_bind; [by apply fine_begin_request|]. intros [] e' _ He'. apply keeps_fine; [|done]. noted.
Qed.
#[local] Hint Resolve keeps_compact : noted.
Lemma keeps_draft_request deadline : keeps (draft_request deadline).
Proof using JL. unfold draft_request, request_preparation, project_now, admit_now. noted. Qed.
Lemma keeps_evict_outputs d : keeps (evict_outputs d).
Proof using JL. unfold evict_outputs, project_now, admit_now. noted. Qed.
Lemma keeps_summarize deadline d : keeps (summarize deadline d).
Proof using JL. unfold summarize, project_now, admit_now. noted. Qed.
Lemma keeps_compose deadline assembly_start d : keeps (compose deadline assembly_start d).
Proof using JL. unfold compose, reserve. noted. Qed.
Lemma leads_compose deadline assembly_start d : leads (compose deadline assembly_start d) reserved.
Proof using JL.
  unfold compose. destruct (dr_admitted d) as [[input output]|limit]; [|by intros e a e'].
  do 8 (apply leads_bind; intros ?). apply leads_before. by apply leads_attempt.
Qed.
Lemma fine_ask_model deadline request e : fine e → reserved e → fine (ask_model deadline request e).2.
Proof using JL.
  intros He Hr. unfold ask_model. apply fine_bind; [done|]. intros limits e' [= <- <-] _. apply fine_request; [done..|].
  intros a. noted.
Qed.
Lemma keeps_retry_later deadline error : keeps (retry_later deadline error).
Proof using JL. unfold retry_later. noted. Qed.
Lemma keeps_settle_response response reported input streamed : keeps (settle_response response reported input streamed).
Proof using JL. unfold settle_response. noted. Qed.
#[local] Hint Resolve keeps_draft_request keeps_evict_outputs keeps_summarize keeps_compose keeps_retry_later keeps_settle_response : noted.

(** *** Calls *)
(** The intent of the call was just recorded. *)
Definition intended (id : string) (call : ToolCall) e : Prop := ∃ earlier intent plan,
  notes e = earlier ++ [NotedRecord intent] ∧ rec_event intent = ToolIntent id call plan true.
Lemma validate_call_Ok e id call ns v : validate_call e id call ns = ROk v →
  v_call_id v = id ∧ provider_call_id call = v_provider_call_id v ∧ tc_name call = call_name (v_call v).
Proof.
  unfold validate_call. destruct (negb _); [done|]. destruct (from_str _); [|done]. destruct (negb _); [done|].
  destruct (tool_validate _ _ _); [|done]. by intros [= <-].
Qed.
Lemma unnoted_interrupt {A} deadline (f : peer → option A * peer) e : unnoted f → notes (interrupt deadline f e).2 = notes e.
Proof.
  intros Hf. unfold interrupt, notes. specialize (Hf (e_peer e)). destruct (is_cancelled_at _ _); [done|].
  destruct (_ <=? _); [done|]. by destruct (f (e_peer e)) as [[a|] p].
Qed.
Lemma fine_perform deadline id call e0 ns e :
  fine e → intended id call e → fine (perform deadline id (validate_call e0 id call ns) e).2.
Proof using JL.
  intros He (earlier & intent & plan & Hn & Hi). unfold perform. destruct (validate_call e0 id call ns) as [v|err] eqn:Ev; [|done].
  apply validate_call_Ok in Ev as (<- & Hp & Hc). apply fine_bind; [apply keeps_interrupt; [apply unnoted_quietly|done]|].
  intros authorized e1 E1 He1. pose proof (unnoted_interrupt deadline (authorize v) e (unnoted_quietly _)) as Hn1. rewrite E1 in Hn1. simpl in Hn1.
  destruct authorized as [[[]|]|]; [|done..]. apply fine_bind; [by apply keeps_must_commit|]. intros [] e2 E2 He2.
  apply must_commit_notes in E2 as (start & Hs & Hn2). apply fine_bind.
  - apply keeps_noting; [done|]. exists earlier, intent, start, call, plan. split_and!; try done.
    by rewrite Hn2, Hn1, Hn, <- (assoc_L (++)).
  - intros a e3 _ He3. apply keeps_fine; [|done]. noted.
Qed.
Lemma keeps_run_call deadline ns call : keeps (run_call deadline ns call).
Proof using JL.
  unfold run_call. apply traced_bind; [apply keeps_stop|intros []]. apply traced_bind; [apply traced_look|intros []]; [apply keeps_quit|].
  apply traced_bind; [apply keeps_charge|intros []]. apply traced_bind; [apply traced_look|intros id]. intros e He.
  apply fine_bind; [done|]. intros validated e1 [= <- <-] _. apply fine_bind; [done|]. intros plan e2 [= <- <-] _.
  apply fine_bind; [by apply keeps_must_commit|]. intros [] e3 (intent & Hi & Hn)%must_commit_notes He3.
  apply fine_bind; [apply fine_perform; [done|by eexists _, _, _]|]. intros o e4 _ He4. apply keeps_fine; [|done]. noted.
Qed.
Lemma keeps_run_calls deadline ns calls : keeps (run_calls deadline ns calls).
Proof using JL. induction calls as [|call calls IH]; simpl; [apply traced_ret|]. apply traced_bind; [apply keeps_run_call|done]. Qed.
#[local] Hint Resolve keeps_run_calls : noted.

(** *** The session *)
Lemma keeps_after_response patience deadline ns response : keeps (after_response patience deadline ns response).
Proof using JL. unfold after_response, after_final, push_response. noted. Qed.
Lemma keeps_turn patience deadline : keeps (turn patience deadline).
Proof using JL.
  unfold turn. apply traced_bind; [apply keeps_stop|intros []]. apply traced_bind; [apply traced_look|intros limit].
  apply traced_bind; [apply keeps_stop_if|intros []]. apply traced_bind; [apply keeps_drain_input|intros _].
  apply traced_bind; [apply keeps_instant|intros t]. apply traced_bind; [apply keeps_draft_request|intros d1].
  apply traced_bind; [apply keeps_evict_outputs|intros d2]. apply traced_bind; [apply keeps_summarize|intros d3].
  eapply keeps_bind_from; [apply keeps_compose|apply leads_compose|]. intros [request input] e He Hr.
  apply fine_bind; [by apply fine_ask_model|]. intros [answer streamed] e' _ He'. apply keeps_fine; [|done].
  destruct answer as [[response reported]|error]; [|apply keeps_retry_later]. apply traced_bind; [apply keeps_settle_response|].
  intros []. apply keeps_after_response.
Qed.
Lemma keeps_converse patience deadline : keeps (converse patience deadline).
Proof using JL.
  assert (∀ fuel, keeps (drive fuel patience deadline)) as Hd.
  { induction fuel as [|fuel IH]; simpl; [apply keeps_fuel|]. apply traced_bind; [apply keeps_turn|done]. }
  unfold converse. noted; apply Hd.
Qed.
Lemma keeps_open_journal event input : keeps (open_journal event input).
Proof using JL. unfold open_journal. noted. Qed.
Lemma fine_finish reason e : fine e → fine (finish_session reason e).2.
Proof using JL.
  intros He. unfold finish_session. cbv zeta. pose proof (unnoted_quietly tool_shutdown (e_peer (e <| e_peer := provider_cancel (e_peer e) |>))) as Hs.
  destruct (tool_shutdown _) as [clean p] eqn:Es. change (tool_shutdown _) with (quietly tool_shutdown (e_peer (e <| e_peer := provider_cancel (e_peer e) |>))) in Es.
  rewrite Es in Hs. simpl in Hs. set (e1 := e <| e_peer := _ |> <| e_peer := p |>). assert (fine e1) as He1 by (unfold fine, notes; simpl; by rewrite Hs).
  destruct (decide _); [done|]. assert (∀ ev, fine ((update_elapsed ;; commit ev) e1).2) as Hc.
  { intros ev. apply keeps_fine; [|done]. unfold update_elapsed. noted. }
  match goal with |- context [commit ?ev] => specialize (Hc ev); destruct ((update_elapsed ;; commit ev) e1) as [[[]|r|] e2]; done end.
Qed.
End trace.
