(* ===== verification/JournalFile.v ===== *)
(** The journal's storage: [src/src/nano/journal.rs].  Records are lines of
    JSON, appended by a single writer; checkpoints and artifacts are files
    placed by renaming; a writer whose storage failed stays poisoned.

    The session directory is private: its files change only through the
    journal, and their types and permissions are those it gave them.  A digest
    under computation is the text it has absorbed.  The storage may fail at
    any moment; [Device] says how far a step then came. *)
From S2P Require Import Prelude Transact Text Wire Patch FileTools AgentData AgentWire Compaction Replay Engine.
#[local] Open Scope list_scope.

(** [Quotas] *)
Record Quotas : Type := mk_quotas {
  record_bytes : Z;
  journal_bytes : Z;
  artifact_bytes : Z;
  total_bytes : Z;
  quota_files : Z }.
Definition default_quotas : Quotas :=
  mk_quotas (512 * 1024) (16 * 1024 * 1024) (1024 * 1024) (32 * 1024 * 1024) 256.

Record Checkpoint : Type := mk_checkpoint {
  ck_version : Z;
  ck_session : string;
  ck_sequence : Z;
  ck_budget : Budget;
  ck_prefix_sha256 : string }.
Definition ser_checkpoint (c : Checkpoint) : json :=
  JObj [("version", ser_int (ck_version c)); ("session_id", ser_string (ck_session c)); ("sequence", ser_u64 (ck_sequence c));
        ("budget", ser_budget (ck_budget c)); ("prefix_sha256", ser_string (ck_prefix_sha256 c))].
Definition de_checkpoint (j : json) : option Checkpoint :=
  fs ← closed_struct ["version"; "session_id"; "sequence"; "budget"; "prefix_sha256"] j;
  v ← req (de_int 0 u32_modulus) "version" fs; i ← req de_string "session_id" fs; n ← req de_u64 "sequence" fs;
  b ← req de_budget "budget" fs; d ← req de_string "prefix_sha256" fs;
  Some (mk_checkpoint v i n b d).

(** ** The session directory *)
Record SessionDir : Type := mk_dir {
  d_events : string;
  d_outputs : gmap string string;
  d_checkpoints : gmap string string;
  (** whether some process holds [writer.lock] *)
  d_locked : bool }.
#[global] Instance SessionDir_eta : Eta SessionDir := λ d,
  mk_dir (d_events d) (d_outputs d) (d_checkpoints d) (d_locked d).
Definition empty_dir : SessionDir := mk_dir "" ∅ ∅ true.

(** What is left of a placement that failed: nothing, a temporary file with
    its first bytes, or the file, renamed but not synchronized. *)
Inductive misplaced : Type := LeftNothing | LeftTemporary (n : nat) | LeftFile.
Class Device := {
  (** the bytes of the [k]th write that arrived, if it failed *)
  write_fault : nat → option nat;
  place_fault : nat → option misplaced;
  resize_fault : nat → bool }.

Record FileJournal : Type := mk_journal {
  fj_dir : SessionDir;
  fj_quotas : Quotas;
  fj_state : Replay;
  fj_session : string;
  fj_bytes : Z;
  fj_total : Z;
  fj_files : Z;
  fj_digest : string;
  fj_poisoned : bool;
  (** the storage steps so far *)
  fj_clock : nat }.
#[global] Instance FileJournal_eta : Eta FileJournal := λ j,
  mk_journal (fj_dir j) (fj_quotas j) (fj_state j) (fj_session j) (fj_bytes j) (fj_total j) (fj_files j) (fj_digest j)
    (fj_poisoned j) (fj_clock j).

Section journal.
Context {FT : FloatText} {JT : JsonText} {SH : Sha256} {DV : Device}.

(** ** Creating *)
Definition quotas_ok (q : Quotas) : bool :=
  (0 <? record_bytes q) && (0 <? journal_bytes q) && (0 <? total_bytes q) && (0 <? artifact_bytes q) && (2 <=? quota_files q).
(** [create]; [sessions] are the directories that exist. *)
Definition create (sessions : gmap string SessionDir) (session_id : string) (q : Quotas) : result FileJournal :=
  _ ← check (valid_id session_id) "Invalid nano session ID";
  _ ← check (quotas_ok q) "Invalid journal quotas";
  _ ← check (none (sessions !! session_id)) "File exists";
  Ok (mk_journal empty_dir q default_replay session_id 0 0 2 "" false 0).

(** ** Appending *)
Definition line_of (bytes : string) : string := bytes +:+ newline_str.
Definition next_line (record : SessionRecord) : string := line_of (json_text (ser_record record)).
Definition poison (j : FileJournal) : FileJournal := j <| fj_poisoned := true |> <| fj_clock := S (fj_clock j) |>.
Definition written (s : string) (j : FileJournal) : FileJournal :=
  j <| fj_dir := (fj_dir j) <| d_events := d_events (fj_dir j) +:+ s |> |>.
Definition append_record (event : SessionEvent) (budget : Budget) (j : FileJournal) : result SessionRecord * FileJournal :=
  if fj_poisoned j then (Err (Bail "Journal writer is poisoned" []), j) else
  let record := mk_record JOURNAL_VERSION (fj_session j) (rp_sequence (fj_state j) + 1) budget event in
  match apply (fj_state j) record with
  | Err error => (Err error, j)
  | Ok next =>
    match encode (ser_record record) (record_bytes (fj_quotas j)) with
    | None => (Err (Bail "Serialized output exceeds byte limit" []), j)
    | Some bytes =>
      let line := line_of bytes in
      if (slen line <=? saturating_sub (journal_bytes (fj_quotas j)) (fj_bytes j))
         && (slen line <=? saturating_sub (total_bytes (fj_quotas j)) (fj_total j)) then
        match write_fault (fj_clock j) with
        | Some n => (Err (Bail "write failed" []), poison (written (String.substring 0 n line) j))
        | None =>
          (Ok record, (written line j) <| fj_digest := fj_digest j +:+ line |> <| fj_bytes := fj_bytes j + slen line |>
             <| fj_total := fj_total j + slen line |> <| fj_state := next |> <| fj_clock := S (fj_clock j) |>)
        end
      else (Err (Bail "Journal quota exhausted" []), j)
    end
  end.

(** ** Placing files *)
Inductive area : Type := Outputs | Checkpoints.
Definition area_files (a : area) (d : SessionDir) : gmap string string :=
  match a with Outputs => d_outputs d | Checkpoints => d_checkpoints d end.
Definition put (a : area) (name bytes : string) (j : FileJournal) : FileJournal :=
  j <| fj_dir := match a with
         | Outputs => (fj_dir j) <| d_outputs := <[name := bytes]> (d_outputs (fj_dir j)) |>
         | Checkpoints => (fj_dir j) <| d_checkpoints := <[name := bytes]> (d_checkpoints (fj_dir j)) |>
         end |>.
(** [atomic_file] for the path [stem] with the extension [ext] *)
Definition atomic_file (a : area) (stem ext bytes : string) (j : FileJournal) : result unit * FileJournal :=
  if fj_poisoned j then (Err (Bail "Journal writer is poisoned" []), j) else
  if negb ((fj_files j <? quota_files (fj_quotas j)) && (slen bytes <=? saturating_sub (total_bytes (fj_quotas j)) (fj_total j)))
  then (Err (Bail "Session storage quota exhausted" []), j) else
  if negb (none (area_files a (fj_dir j) !! (stem +:+ ext)))
  then (Err (Bail "Immutable session artifact already exists" []), j) else
  if negb (none (area_files a (fj_dir j) !! (stem +:+ ".tmp"))) then (Err (Bail "File exists" []), poison j) else
  match place_fault (fj_clock j) with
  | Some LeftNothing => (Err (Bail "storage failed" []), poison j)
  | Some (LeftTemporary n) => (Err (Bail "storage failed" []), poison (put a (stem +:+ ".tmp") (String.substring 0 n bytes) j))
  | Some LeftFile => (Err (Bail "storage failed" []), poison (put a (stem +:+ ext) bytes j))
  | None =>
    (Ok tt, (put a (stem +:+ ext) bytes j) <| fj_total := fj_total j + slen bytes |> <| fj_files := fj_files j + 1 |>
              <| fj_clock := S (fj_clock j) |>)
  end.
Definition artifact (output_id bytes : string) (j : FileJournal) : result unit * FileJournal :=
  if negb (valid_id output_id) then (Err (Bail "Invalid output ID" []), j) else
  if negb (slen bytes <=? artifact_bytes (fj_quotas j)) then (Err (Bail "Artifact exceeds quota" []), j) else
  atomic_file Outputs output_id "" bytes j.
Definition hex_digest (absorbed : string) : string := hex_bytes (sha256 absorbed).
Definition checkpoint_of (j : FileJournal) : Checkpoint :=
  mk_checkpoint JOURNAL_VERSION (fj_session j) (rp_sequence (fj_state j)) (rp_budget (fj_state j)) (hex_digest (fj_digest j)).
Definition checkpoint (j : FileJournal) : result unit * FileJournal :=
  if negb (checkpoint_ready (fj_state j)) then (Err (Bail "Checkpoint would split a model/tool group" []), j) else
  match encode (ser_checkpoint (checkpoint_of j)) (record_bytes (fj_quotas j)) with
  | None => (Err (Bail "Serialized output exceeds byte limit" []), j)
  | Some bytes => atomic_file Checkpoints (display_u32 (rp_sequence (fj_state j))) ".json" bytes j
  end.
Definition verify_checkpoint (c : Checkpoint) (records : list SessionRecord) : result Replay :=
  _ ← check (ck_version c =? JOURNAL_VERSION) "Unsupported checkpoint version";
  let count := Z.to_nat (ck_sequence c) in
  _ ← check (Nat.leb count (length records)) "Checkpoint exceeds journal prefix";
  let prefix := take count records in
  state ← from_records prefix;
  _ ← check (checkpoint_ready state && String.eqb (rp_session_id state) (ck_session c)
             && bool_decide (rp_budget state = ck_budget c)) "Checkpoint does not match a complete journal group";
  let absorbed := foldr (λ record s, next_line record +:+ s) "" prefix in
  _ ← check (String.eqb (hex_digest absorbed) (ck_prefix_sha256 c)) "Checkpoint digest mismatch";
  Ok state.

(** ** Recovering *)
(** [take(limit).read_until(b'\n')]: the line and what follows *)
Fixpoint read_until (limit : Z) (s : string) : string * string :=
  match s with
  | "" => ("", "")
  | String c s' =>
    if limit <=? 0 then ("", s)
    else if Ascii.eqb c "010" then (String c "", s')
    else let '(line, rest) := read_until (limit - 1) s' in (String c line, rest)
  end.
Fixpoint ends_line (s : string) : bool :=
  match s with
  | "" => false
  | String c "" => Ascii.eqb c "010"
  | String _ s => ends_line s
  end.
Record scan : Type := mk_scan {
  sc_state : Replay;
  sc_records : list SessionRecord;
  (** the lines of the records, which the digest absorbed *)
  sc_committed : string }.
(** [serde_json::from_slice::<Record>] *)
Definition parse_record (line : string) : option SessionRecord := json_parse line ≫= de_record.
(** The loop of [recover_open]. *)
Fixpoint scan_lines (fuel : nat) (q : Quotas) (session_id : string) (rest : string) (sc : scan) : result scan :=
  match fuel with
  | O => Err (Bail "" [])
  | S fuel =>
    let '(line, rest) := read_until (record_bytes q + 2) rest in
    if slen line =? 0 then Ok sc else
    _ ← check (slen line <=? record_bytes q + 1) "Journal record exceeds quota";
    if negb (ends_line line) then Ok sc else
    match parse_record line with
    | None => Err (Bail "invalid record" [])
    | Some record =>
      _ ← check (String.eqb (rec_session record) session_id) "Session directory/record mismatch";
      state ← apply (sc_state sc) record;
      scan_lines fuel q session_id rest (mk_scan state (sc_records sc ++ [record]) (sc_committed sc +:+ line))
    end
  end.
(** The files of a directory, with the quota for each. *)
Definition sizes (files : gmap string string) (quota : option (Z * string)) : list (Z * option (Z * string)) :=
  (λ kv, (slen kv.2, quota)) <$> map_to_list files.
Definition dir_files (d : SessionDir) (q : Quotas) : list (Z * option (Z * string)) :=
  [(0, None); (slen (d_events d), None)]
  ++ sizes (d_outputs d) (Some (artifact_bytes q, "Artifact exceeds quota"))
  ++ sizes (d_checkpoints d) (Some (record_bytes q, "Checkpoint exceeds quota")).
Fixpoint measure_loop (q : Quotas) (bytes files : Z) (entries : list (Z * option (Z * string))) : result (Z * Z) :=
  match entries with
  | [] => Ok (bytes, files)
  | (size, quota) :: entries =>
    _ ← match quota with Some (limit, message) => check (size <=? limit) message | None => Ok tt end;
    let files := files + 1 in
    let bytes := saturating_add bytes size in
    _ ← check ((files <=? quota_files q) && (bytes <=? total_bytes q)) "Session storage exceeds quota";
    measure_loop q bytes files entries
  end.
Definition measure (d : SessionDir) (q : Quotas) : result (Z * Z) := measure_loop q 0 0 (dir_files d q).
Definition recover_open (session_id : string) (d : SessionDir) (q : Quotas) (clock : nat) :
  result (FileJournal * list SessionRecord) :=
  _ ← check (valid_id session_id) "Invalid nano session ID";
  _ ← check (negb (d_locked d)) "Nano journal already has a writer";
  '(total, files) ← measure d q;
  let size := slen (d_events d) in
  _ ← check (size <=? journal_bytes q) "Journal exceeds quota";
  _ ← check (record_bytes q + 2 <=? usize_max) "Record quota overflow";
  sc ← scan_lines (S (String.length (d_events d))) q session_id (d_events d) (mk_scan default_replay [] "");
  let committed := slen (sc_committed sc) in
  _ ← check (negb ((committed <? size) && resize_fault clock)) "truncation failed";
  let d := d <| d_locked := true |> <| d_events := sc_committed sc |> in
  Ok (mk_journal d q (sc_state sc) session_id committed (total - (size - committed)) files (sc_committed sc) false (S clock),
      sc_records sc).
(** The directory once the writer is gone. *)
Definition released (j : FileJournal) : SessionDir := (fj_dir j) <| d_locked := false |>.

(** ** Sealing *)
Definition started_limits (records : list SessionRecord) : option SessionLimits :=
  match records with
  | mk_record _ _ _ _ (Started _ limits _ _ _ _ _) :: _ => Some limits
  | _ => None
  end.
(** [seal_with], with the records it extends *)
Definition seal_with (reason : EndReason) (records : list SessionRecord) (j : FileJournal) :
  result (list SessionRecord) * FileJournal :=
  match rp_end (fj_state j), started_limits records with
  | None, Some limits =>
    let budget := rp_budget (fj_state j) in
    let budget := budget <| b_elapsed_ms := Z.max (b_elapsed_ms budget) (l_elapsed_ms limits) |> in
    match append_record (Ended reason) budget j with
    | (Ok record, j) => (Ok (records ++ [record]), j)
    | (Err error, j) => (Err error, j)
    end
  | _, _ => (Ok records, j)
  end.
Definition seal_interrupted : list SessionRecord → FileJournal → result (list SessionRecord) * FileJournal :=
  seal_with (EndLimit LElapsed).
(** [recover] *)
Definition recover (session_id : string) (d : SessionDir) (q : Quotas) (clock : nat) :
  result (FileJournal * list SessionRecord) :=
  '(j, records) ← recover_open session_id d q clock;
  match seal_interrupted records j with
  | (Ok records, j) => Ok (j, records)
  | (Err error, _) => Err error
  end.
End journal.
