(* ===== verification/JournalTheorems.v ===== *)
(** What the journal's storage holds: the lines of the records it confirmed,
    then at most the beginning of one more.

    The journal's guarantees: quotas are never exceeded, checkpoints verify,
    and recovery finds exactly what was confirmed. *)
From S2P Require Import Prelude Transact Wire Text Patch FileTools AgentData AgentWire AgentWireFacts Compaction Replay ReplayTheorems Engine EngineFacts JournalFile.
#[local] Open Scope list_scope.

(** ** Strings *)
Lemma app_cons c (a b : string) : String c a +:+ b = String c (a +:+ b).
Proof. done. Qed.
Lemma slen_app a b : slen (a +:+ b) = slen a + slen b.
Proof. unfold slen. induction a as [|x a IH]; [done|]. rewrite app_cons. cbn [String.length]. lia. Qed.
Lemma slen_nonneg s : 0 ≤ slen s.
Proof. unfold slen. lia. Qed.
Lemma slen_0 s : slen s = 0 → s = "".
Proof. by destruct s. Qed.
(** The first [n] bytes. *)
Definition sprefix (n : nat) (s : string) : string := String.substring 0 n s.
Lemma sprefix_0 s : sprefix 0 s = "".
Proof. by destruct s. Qed.
Lemma sprefix_len n s : slen (sprefix n s) ≤ slen s.
Proof.
  unfold sprefix, slen. revert n. induction s as [|c s IH]; intros [|n]; simpl; try lia. specialize (IH n). lia.
Qed.
Lemma sprefix_all n s : (String.length s ≤ n)%nat → sprefix n s = s.
Proof.
  unfold sprefix. revert n. induction s as [|c s IH]; intros [|n] H; simpl in *; try done; [lia|]. f_equal. apply IH. lia.
Qed.
Lemma sprefix_app n a b : (n ≤ String.length a)%nat → sprefix n (a +:+ b) = sprefix n a.
Proof.
  unfold sprefix. revert n. induction a as [|c a IH]; intros [|n] H; rewrite ?app_cons in *; cbn [String.length String.substring] in *; [by destruct b|lia|done|]. f_equal. apply IH. lia.
Qed.
(** Text without a line end. *)
Definition one_line (s : string) : bool := negb (existsb (Ascii.eqb "010") (lit s)).
Lemma one_line_cons c s : one_line (String c s) = negb (Ascii.eqb "010" c) && one_line s.
Proof. unfold one_line. simpl. by rewrite negb_orb. Qed.
Lemma one_line_prefix n s : one_line s = true → one_line (sprefix n s) = true.
Proof.
  unfold sprefix. revert n. induction s as [|c s IH]; intros [|n]; simpl; try done. rewrite !one_line_cons, !andb_true_iff.
  intros [? ?]. split; [done|]. by apply IH.
Qed.
(** [serde_json]'s compact form has no line end, and a line end after it is
    white space to the parser. *)
Class JsonLines {JT : JsonText} : Prop := {
  json_text_line j : one_line (json_text j) = true;
  json_parse_line j : json_parse (json_text j +:+ newline_str) = Some j }.

Lemma read_line limit s rest :
  one_line s = true → slen s < limit → read_until limit (s +:+ newline_str +:+ rest) = (s +:+ newline_str, rest).
Proof.
  revert limit. induction s as [|c s IH]; intros limit H Hl.
  - change (read_until limit (String "010" rest) = (newline_str, rest)). cbn [read_until]. destruct (Z.leb_spec limit 0); [unfold slen in Hl; simpl in Hl; lia|]. done.
  - rewrite !app_cons. cbn [read_until]. rewrite one_line_cons, andb_true_iff, negb_true_iff in H. destruct H as [Hc H].
    assert (slen (String c s) = 1 + slen s) as E by (unfold slen; simpl; lia). rewrite E in Hl. pose proof (slen_nonneg s).
    destruct (Z.leb_spec limit 0); [lia|]. rewrite Ascii.eqb_sym, Hc, IH by (done || lia). done.
Qed.
Lemma read_torn limit s : one_line s = true → slen s < limit → read_until limit s = (s, "").
Proof.
  revert limit. induction s as [|c s IH]; intros limit H Hl; simpl; [done|].
  rewrite one_line_cons, andb_true_iff, negb_true_iff in H. destruct H as [Hc H].
  assert (slen (String c s) = 1 + slen s) as E by (unfold slen; simpl; lia). rewrite E in Hl. pose proof (slen_nonneg s).
  destruct (Z.leb_spec limit 0); [lia|]. rewrite Ascii.eqb_sym, Hc, IH by (done || lia). done.
Qed.
Lemma ends_line_snoc s : ends_line (s +:+ newline_str) = true.
Proof. induction s as [|c s IH]; [done|]. rewrite app_cons. cbn [ends_line]. destruct (s +:+ newline_str) eqn:E; [by destruct s|done]. Qed.
Lemma ends_line_one s : one_line s = true → ends_line s = false.
Proof.
  induction s as [|c s IH]; [done|]. rewrite one_line_cons, andb_true_iff, negb_true_iff. intros [Hc Hs]. simpl.
  destruct s; [by rewrite Ascii.eqb_sym|]. by apply IH.
Qed.

Section facts.
Context {FT : FloatText} {exact : f64 → Prop} {FL : FloatTextLaws exact} {JT : JsonText} {JN : JsonLines} {SH : Sha256} {DV : Device}.

(** ** Lines *)
Definition lines (records : list SessionRecord) : string := foldr (λ record s, next_line record +:+ s) "" records.
Lemma lines_app a b : lines (a ++ b) = lines a +:+ lines b.
Proof. induction a as [|r a IH]; [done|]. simpl. by rewrite IH, string_app_assoc. Qed.
Lemma lines_snoc records record : lines (records ++ [record]) = lines records +:+ next_line record.
Proof. rewrite lines_app. simpl. by rewrite string_app_nil_r. Qed.
Lemma next_line_len record : slen (next_line record) = slen (json_text (ser_record record)) + 1.
Proof. unfold next_line, line_of. by rewrite slen_app. Qed.
Lemma lines_len records : Z.of_nat (length records) ≤ slen (lines records).
Proof.
  induction records as [|r records IH]; [done|]. cbn [length lines foldr]. fold (lines records).
  rewrite slen_app, next_line_len. pose proof (slen_nonneg (json_text (ser_record r))). lia.
Qed.
Lemma parse_next_line record : record_typed exact record → parse_record (next_line record) = Some record.
Proof using FL JN.
  intros H. unfold parse_record, next_line, line_of. rewrite json_parse_line. simpl. by rewrite (de_ser_session_record exact record).
Qed.

(** ** Scanning *)
(** A record that may stand in the journal of [session_id]. *)
Definition journaled (q : Quotas) (session_id : string) (record : SessionRecord) : Prop :=
  rec_session record = session_id ∧ slen (json_text (ser_record record)) ≤ record_bytes q.
Lemma scan_line fuel q session_id record rest sc state :
  journaled q session_id record → record_typed exact record → apply (sc_state sc) record = Ok state →
  scan_lines (S fuel) q session_id (next_line record +:+ rest) sc
  = scan_lines fuel q session_id rest (mk_scan state (sc_records sc ++ [record]) (sc_committed sc +:+ next_line record)).
Proof using FL JN.
  intros [Hs Hq] Ht Ha. cbn [scan_lines]. unfold next_line, line_of at 1. rewrite string_app_assoc, read_line by (apply json_text_line || lia).
  fold (line_of (json_text (ser_record record))). fold (next_line record). pose proof (slen_nonneg (json_text (ser_record record))).
  destruct (Z.eqb_spec (slen (next_line record)) 0) as [E|_]; [rewrite next_line_len in E; lia|].
  rewrite check_run by (apply Z.leb_le; rewrite next_line_len; lia). unfold next_line at 1, line_of at 1. rewrite ends_line_snoc. simpl negb. cbv iota.
  rewrite (parse_next_line _ Ht). rewrite check_run by (by apply String.eqb_eq). by rewrite Ha.
Qed.
Lemma scan_records fuel q session_id records rest sc state :
  Forall (journaled q session_id) records → Forall (record_typed exact) records → replay_from (sc_state sc) records = Ok state →
  scan_lines (length records + fuel) q session_id (lines records +:+ rest) sc
  = scan_lines fuel q session_id rest (mk_scan state (sc_records sc ++ records) (sc_committed sc +:+ lines records)).
Proof using FL JN.
  intros Hj Ht. revert sc. induction records as [|record records IH]; intros sc Hr.
  { simpl in Hr. simplify_eq. simpl. rewrite app_nil_r, string_app_nil_r. by destruct sc. }
  inversion Hj; inversion Ht; subst. simpl in Hr. ok_inv. cbn [length lines foldr Nat.add]. fold (lines records).
  rewrite string_app_assoc. erewrite scan_line by done. rewrite IH by done. simpl. by rewrite <- (assoc_L (++)), string_app_assoc.
Qed.
Lemma scan_end fuel q session_id sc : scan_lines (S fuel) q session_id "" sc = Ok sc.
Proof. done. Qed.
Lemma scan_torn fuel q session_id tail sc :
  one_line tail = true → slen tail ≤ record_bytes q → scan_lines (S fuel) q session_id tail sc = Ok sc.
Proof.
  intros H Hq. cbn [scan_lines]. rewrite read_torn by (done || lia). destruct (slen tail =? 0); [done|].
  rewrite check_run by (apply Z.leb_le; lia). by rewrite ends_line_one.
Qed.
Lemma scan_fuel fuel fuel' q session_id rest sc out :
  scan_lines fuel q session_id rest sc = Ok out → (fuel ≤ fuel')%nat → scan_lines fuel' q session_id rest sc = Ok out.
Proof.
  revert fuel' rest sc. induction fuel as [|fuel IH]; intros fuel' rest sc H Hf; [done|]. destruct fuel' as [|fuel']; [lia|].
  cbn [scan_lines] in *. destruct (read_until _ rest) as [line rest']. destruct (slen line =? 0); [done|].
  ok_inv. rewrite check_run by (by apply Z.leb_le). destruct (negb _); [done|]. destruct (parse_record line) as [record|]; [|done].
  ok_inv. rewrite check_run by (by apply String.eqb_eq). match goal with H : apply _ _ = Ok _ |- _ => rewrite H end. simpl.
  apply IH; [done|lia].
Qed.

(** What a write of [record] that failed after [n] bytes leaves. *)
Definition tail_of (last : option (SessionRecord * nat)) : string :=
  match last with Some (record, n) => sprefix n (next_line record) | None => "" end.
(** The record of the last line, if the line is complete. *)
Definition completed (last : option (SessionRecord * nat)) : list SessionRecord :=
  match last with
  | Some (record, n) => if decide (String.length (next_line record) ≤ n)%nat then [record] else []
  | None => []
  end.
Lemma tail_cases last :
  match last with
  | Some (record, n) =>
    (completed last = [record] ∧ tail_of last = next_line record)
    ∨ (completed last = [] ∧ one_line (tail_of last) = true ∧ slen (tail_of last) ≤ slen (json_text (ser_record record)))
  | None => completed last = [] ∧ tail_of last = ""
  end.
Proof using JN.
  destruct last as [[record n]|]; [|done]. simpl. destruct (decide _) as [Hle|Hgt].
  - left. split; [done|]. by apply sprefix_all.
  - right. unfold next_line, line_of in *.
    assert (n ≤ String.length (json_text (ser_record record)))%nat as Hn.
    { pose proof (slen_app (json_text (ser_record record)) newline_str) as E. unfold slen in E. simpl in E. lia. }
    rewrite sprefix_app by done. split_and!; [done|apply one_line_prefix, json_text_line|apply sprefix_len].
Qed.

(** ** Use of storage *)
Definition total_size (entries : list (Z * option (Z * string))) : Z := foldr (λ x n, x.1 + n) 0 entries.
Lemma total_size_app a b : total_size (a ++ b) = total_size a + total_size b.
Proof. induction a as [|x a IH]; [done|]. simpl. unfold total_size in *. simpl. lia. Qed.
Lemma total_size_perm a b : a ≡ₚ b → total_size a = total_size b.
Proof. unfold total_size. induction 1; simpl; lia. Qed.
Definition usage (d : SessionDir) (q : Quotas) : Z := total_size (dir_files d q).
Definition count (d : SessionDir) (q : Quotas) : Z := Z.of_nat (length (dir_files d q)).
Definition within (quota : Z) (files : gmap string string) : Prop := map_Forall (λ _ bytes, slen bytes ≤ quota) files.
Lemma sizes_nonneg files quota x : x ∈ sizes files quota → 0 ≤ x.1 ∧ x.2 = quota.
Proof. unfold sizes. intros ([k v] & -> & _)%list_elem_of_fmap. simpl. split; [apply slen_nonneg|done]. Qed.
Lemma total_size_nonneg entries : Forall (λ x, 0 ≤ x.1) entries → 0 ≤ total_size entries.
Proof. unfold total_size. induction 1; simpl in *; lia. Qed.
Lemma sizes_put files name bytes quota :
  files !! name = None → sizes (<[name := bytes]> files) quota ≡ₚ (slen bytes, quota) :: sizes files quota.
Proof. intros H. unfold sizes. by rewrite map_to_list_insert. Qed.

Lemma measure_loop_Ok q bytes files entries :
  total_bytes q ≤ usize_max → 0 ≤ bytes →
  Forall (λ x, 0 ≤ x.1 ∧ match x.2 with Some (limit, _) => x.1 ≤ limit | None => True end) entries →
  bytes + total_size entries ≤ total_bytes q → files + Z.of_nat (length entries) ≤ quota_files q →
  measure_loop q bytes files entries = Ok (bytes + total_size entries, files + Z.of_nat (length entries)).
Proof.
  intros Hq Hb Hall. revert bytes files Hb. induction Hall as [|[size quota] entries [Hs Hl] Hall IH]; intros bytes files Hb Ht Hf.
  { unfold total_size. simpl. by rewrite !Z.add_0_r. }
  cbn [measure_loop]. simpl in *. assert (0 ≤ total_size entries) by (apply total_size_nonneg; eapply Forall_impl; [done|by intros ? [? ?]]).
  change (total_size ((size, quota) :: entries)) with (size + total_size entries) in *.
  assert (saturating_add bytes size = bytes + size) as -> by (unfold saturating_add; lia).
  assert (match quota with Some (limit, message) => check (size <=? limit) message | None => Ok tt end = Ok tt) as Hc.
  { destruct quota as [[limit message]|]; [|done]. apply check_Ok. by apply Z.leb_le. }
  rewrite (Ok_run _ tt) by exact Hc. rewrite check_run by (rewrite andb_true_iff, !Z.leb_le; lia).
  rewrite IH by lia. do 2 f_equal; lia.
Qed.
Lemma measure_Ok d q :
  total_bytes q ≤ usize_max → within (artifact_bytes q) (d_outputs d) → within (record_bytes q) (d_checkpoints d) →
  usage d q ≤ total_bytes q → count d q ≤ quota_files q → measure d q = Ok (usage d q, count d q).
Proof.
  intros Hq Ho Hc Hu Hn. unfold measure. rewrite measure_loop_Ok; try done; try lia.
  unfold dir_files. repeat constructor; simpl; try lia; [apply slen_nonneg|]. apply Forall_app. split; apply Forall_forall.
  - intros x Hx. pose proof (sizes_nonneg _ _ _ Hx) as [? E]. split; [done|]. rewrite E. unfold sizes in Hx.
    apply list_elem_of_fmap in Hx as ([k v] & -> & Hin%elem_of_map_to_list). simpl. by apply (Ho k).
  - intros x Hx. pose proof (sizes_nonneg _ _ _ Hx) as [? E]. split; [done|]. rewrite E. unfold sizes in Hx.
    apply list_elem_of_fmap in Hx as ([k v] & -> & Hin%elem_of_map_to_list). simpl. by apply (Hc k).
Qed.
End facts.

Section invariant.
Context {FT : FloatText} {JT : JsonText} {SH : Sha256} {DV : Device}.

Lemma from_records_sequence records r : from_records records = Ok r → rp_sequence r = Z.of_nat (length records).
Proof.
  revert records r. apply (from_records_ind (λ records r, rp_sequence r = Z.of_nat (length records))); [done|].
  intros records r record r' _ IH (r1 & r2 & _ & Hs & _ & _ & _ & _ & _ & ->)%apply_Ok. simpl. rewrite Hs, IH, length_app. simpl. lia.
Qed.
Lemma from_records_session records r session_id :
  from_records records = Ok r → Forall (λ record, rec_session record = session_id) records → records ≠ [] →
  rp_session_id r = session_id.
Proof.
  revert records r. apply (from_records_ind (λ records r, Forall (λ record, rec_session record = session_id) records → records ≠ [] →
    rp_session_id r = session_id)); [done|].
  intros records r record r' Hf IH Ha [Hfirst Hlast]%Forall_app _. assert (rec_session record = session_id) as Hr by (by inversion Hlast).
  pose proof Ha as (r1 & r2 & _ & _ & _ & _ & Hs & _)%apply_Ok. destruct (from_records_ok _ _ Hf) as [->|Hrun].
  - clear Hs. apply apply_Ok in Ha as (r1' & r2' & _ & _ & _ & Ho & Hs & _ & He & ->). apply open_default in Ho as (?&?&?&?&?&?&?&E&->).
    simpl in *. rewrite E in He. simpl in He. unfold apply_started in He. ok_inv. repeat case_match; ok_inv; subst; done.
  - apply apply_next in Ha as (r3 & Hst & _ & _ & He & ->); [|done]. simpl.
    assert (rp_session_id r3 = rp_session_id r) as ->.
    { destruct (is_ended (rec_event record)) eqn:Ee; [|by eapply event_keeps].
      destruct (rec_event record); try done. simpl in He. unfold apply_ended in He. ok_inv. by subst. }
    destruct records as [|x records]; [unfold from_records in Hf; simpl in Hf; simplify_eq; by destruct Hrun|]. by apply IH.
Qed.

(** ** The invariant *)
(** The text of the checkpoint after [prefix]. *)
Definition checkpoint_text (session_id : string) (prefix : list SessionRecord) (state : Replay) : string :=
  json_text (ser_checkpoint (mk_checkpoint JOURNAL_VERSION session_id (rp_sequence state) (rp_budget state) (hex_digest (lines prefix)))).
(** A file of the checkpoint directory: a checkpoint of some prefix of the
    records, or a temporary file that was left behind. *)
Definition checkpoint_file (session_id : string) (records : list SessionRecord) (name bytes : string) : Prop :=
  (∃ prefix suffix state, records = prefix ++ suffix ∧ from_records prefix = Ok state ∧ checkpoint_ready state = true
     ∧ name = display_u32 (rp_sequence state) +:+ ".json" ∧ bytes = checkpoint_text session_id prefix state)
  ∨ ∃ stem, name = stem +:+ ".tmp".
(** [j] confirmed [records]; [last] is a record whose write failed, with the
    bytes of its line that arrived. *)
Record journal_ok (j : FileJournal) (records : list SessionRecord) (last : option (SessionRecord * nat)) : Prop := {
  jo_session : valid_id (fj_session j) = true;
  jo_quotas : quotas_ok (fj_quotas j) = true;
  jo_state : from_records records = Ok (fj_state j);
  jo_records : Forall (journaled (fj_quotas j) (fj_session j)) records;
  jo_digest : fj_digest j = lines records;
  jo_bytes : fj_bytes j = slen (lines records);
  jo_events : d_events (fj_dir j) = lines records +:+ tail_of last;
  jo_last : match last with
    | Some (record, _) => journaled (fj_quotas j) (fj_session j) record ∧ is_ok (apply (fj_state j) record) = true ∧ fj_poisoned j = true
    | None => True
    end;
  jo_journal : slen (d_events (fj_dir j)) ≤ journal_bytes (fj_quotas j);
  jo_usage : usage (fj_dir j) (fj_quotas j) ≤ total_bytes (fj_quotas j);
  jo_count : count (fj_dir j) (fj_quotas j) ≤ quota_files (fj_quotas j);
  jo_exact : fj_poisoned j = false →
    fj_total j = usage (fj_dir j) (fj_quotas j) ∧ fj_files j = count (fj_dir j) (fj_quotas j);
  jo_outputs : within (artifact_bytes (fj_quotas j)) (d_outputs (fj_dir j));
  jo_sizes : within (record_bytes (fj_quotas j)) (d_checkpoints (fj_dir j));
  jo_checkpoints : map_Forall (checkpoint_file (fj_session j) records) (d_checkpoints (fj_dir j)) }.

Lemma create_ok sessions session_id q j :
  create sessions session_id q = Ok j → journal_ok j [] None ∧ fj_poisoned j = false ∧ fj_session j = session_id ∧ fj_quotas j = q.
Proof.
  unfold create. intros H. ok_inv. subst. split; [|done].
  assert (quotas_ok q = true) as Hq by done. unfold quotas_ok in Hq. ok_inv.
  split; simpl; try done; try (unfold slen; simpl; lia); unfold usage, count, dir_files; simpl; try lia.
  unfold sizes. rewrite map_to_list_empty. simpl. unfold slen. simpl. lia.
Qed.

(** *** Appending *)
Lemma usage_events d q s : usage (d <| d_events := s |>) q = usage d q - slen (d_events d) + slen s.
Proof. unfold usage, dir_files, total_size. simpl. lia. Qed.
Lemma count_events d q s : count (d <| d_events := s |>) q = count d q.
Proof. done. Qed.
Lemma files_grow session_id records more (files : gmap string string) :
  map_Forall (checkpoint_file session_id records) files → map_Forall (checkpoint_file session_id (records ++ more)) files.
Proof.
  intros H name bytes Hn. destruct (H name bytes Hn) as [(prefix & suffix & state & -> & ?)|?]; [left|by right].
  exists prefix, (suffix ++ more), state. by rewrite (assoc_L (++)).
Qed.
(** What an append does to a journal that was not poisoned. *)
Lemma append_record_ok event budget j records answer j' :
  journal_ok j records None → append_record event budget j = (answer, j') →
  fj_session j' = fj_session j ∧ fj_quotas j' = fj_quotas j ∧
  let record := mk_record JOURNAL_VERSION (fj_session j) (rp_sequence (fj_state j) + 1) budget event in
  match answer with
  | Ok record' => record' = record ∧ apply (fj_state j) record = Ok (fj_state j') ∧ journal_ok j' (records ++ [record]) None
      ∧ fj_poisoned j' = false ∧ fj_poisoned j = false
  | Err _ => fj_state j' = fj_state j ∧ ∃ last, journal_ok j' records last
      ∧ match last with Some (r, _) => r = record ∧ fj_poisoned j = false | None => j' = j end
  end.
Proof.
  intros K H. unfold append_record in H. destruct (fj_poisoned j) eqn:Ep; [simplify_eq; split_and!; [done|done|]; split; [done|]; by exists None|].
  set (record := mk_record _ _ _ _ _) in *. destruct (apply (fj_state j) record) as [next|] eqn:Ea; [|simplify_eq; split_and!; [done|done|]; split; [done|]; by exists None].
  destruct (encode _ _) as [bytes|] eqn:Eb; [|simplify_eq; split_and!; [done|done|]; split; [done|]; by exists None].
  destruct (_ && _) eqn:Eq; [|simplify_eq; split_and!; [done|done|]; split; [done|]; by exists None]. ok_inv.
  unfold encode in Eb. destruct (Z.leb_spec (Z.of_nat (String.length (json_text (ser_record record)))) (record_bytes (fj_quotas j))) as [Hfit|]; [|done].
  injection Eb as <-. change (line_of (json_text (ser_record record))) with (next_line record) in *.
  assert (journaled (fj_quotas j) (fj_session j) record) as Hj by (by split).
  pose proof (slen_nonneg (next_line record)) as Hnn. rewrite (jo_bytes _ _ _ K) in *. destruct (jo_exact _ _ _ K Ep) as [Hto Hfi].
  rewrite Hto in *. pose proof (jo_events _ _ _ K) as Hev. simpl in Hev. rewrite string_app_nil_r in Hev.
  pose proof (jo_journal _ _ _ K) as Hjq. pose proof (jo_usage _ _ _ K) as Hu. rewrite Hev in Hjq.
  assert (0 ≤ saturating_sub (journal_bytes (fj_quotas j)) (slen (lines records))) by (unfold saturating_sub; lia).
  assert (slen (next_line record) ≤ journal_bytes (fj_quotas j) - slen (lines records)
          ∧ slen (next_line record) ≤ total_bytes (fj_quotas j) - usage (fj_dir j) (fj_quotas j)) as [Hr1 Hr2]
    by (unfold saturating_sub in *; lia).
  destruct (write_fault (fj_clock j)) as [n|]; simplify_eq; simpl; (split; [done|]); (split; [done|]).
  - split; [done|]. exists (Some (record, n)). split; [|done]. pose proof (sprefix_len n (next_line record)) as Hpl.
    change (String.substring 0 n (next_line record)) with (sprefix n (next_line record)).
    destruct K. split; simpl; try done.
    + by rewrite Hev.
    + by rewrite Ea.
    + rewrite Hev, slen_app. lia.
    + pose proof (usage_events (fj_dir j) (fj_quotas j) (d_events (fj_dir j) +:+ sprefix n (next_line record))) as E.
      rewrite Hev, slen_app in E. etrans; [apply Z.eq_le_incl; rewrite <- Hev in E; exact E|]. lia.
  - pose proof (usage_events (fj_dir j) (fj_quotas j) (d_events (fj_dir j) +:+ next_line record)) as E. rewrite slen_app in E.
    split_and!; try done. destruct K. split; simpl; try done.
    + unfold from_records in *. by rewrite replay_from_snoc, jo_state0.
    + apply Forall_app. split; [done|]. by repeat constructor.
    + by rewrite jo_digest0, lines_snoc.
    + by rewrite lines_snoc, slen_app.
    + by rewrite Hev, lines_snoc, string_app_nil_r.
    + rewrite Hev, slen_app. lia.
    + etrans; [apply Z.eq_le_incl; exact E|]. lia.
    + intros _. split; [|done]. symmetry. etrans; [exact E|]. lia.
    + by apply files_grow.
Qed.

(** *** Placing files *)
Definition area_quota (a : area) (q : Quotas) : Z := match a with Outputs => artifact_bytes q | Checkpoints => record_bytes q end.
Lemma put_usage a name bytes j :
  area_files a (fj_dir j) !! name = None →
  usage (fj_dir (put a name bytes j)) (fj_quotas j) = usage (fj_dir j) (fj_quotas j) + slen bytes
  ∧ count (fj_dir (put a name bytes j)) (fj_quotas j) = count (fj_dir j) (fj_quotas j) + 1.
Proof.
  intros Hn. unfold usage, count, dir_files. destruct a; simpl in *; rewrite !length_app, !total_size_app.
  - pose proof (sizes_put _ _ bytes (Some (artifact_bytes (fj_quotas j), "Artifact exceeds quota")) Hn) as P.
    rewrite (total_size_perm _ _ P), (Permutation_length P). unfold total_size. simpl. lia.
  - pose proof (sizes_put _ _ bytes (Some (record_bytes (fj_quotas j), "Checkpoint exceeds quota")) Hn) as P.
    rewrite (total_size_perm _ _ P), (Permutation_length P). unfold total_size. simpl. lia.
Qed.
Lemma put_ok a name bytes j j' records :
  journal_ok j records None → fj_poisoned j = false → area_files a (fj_dir j) !! name = None →
  slen bytes ≤ area_quota a (fj_quotas j) → slen bytes ≤ total_bytes (fj_quotas j) - usage (fj_dir j) (fj_quotas j) →
  count (fj_dir j) (fj_quotas j) < quota_files (fj_quotas j) →
  (a = Checkpoints → checkpoint_file (fj_session j) records name bytes) →
  fj_dir j' = fj_dir (put a name bytes j) → fj_quotas j' = fj_quotas j → fj_state j' = fj_state j → fj_session j' = fj_session j →
  fj_digest j' = fj_digest j → fj_bytes j' = fj_bytes j →
  (fj_poisoned j' = false → fj_total j' = fj_total j + slen bytes ∧ fj_files j' = fj_files j + 1) →
  journal_ok j' records None.
Proof.
  intros K Hp Hn Hq Ht Hc Hck Hd Hqu Hst Hse Hdi Hby Hex. destruct (put_usage a name bytes j Hn) as [Hu1 Hu2].
  destruct (jo_exact _ _ _ K Hp) as [He1 He2].
  assert (d_events (fj_dir j') = d_events (fj_dir j)) as Hev by (rewrite Hd; by destruct a).
  destruct K. split; rewrite ?Hqu, ?Hst, ?Hse, ?Hdi, ?Hby, ?Hev; try done; rewrite ?Hd, ?Hu1, ?Hu2; try lia.
  - intros Hp'. destruct (Hex Hp'). lia.
  - destruct a; simpl; [|done]. by apply map_Forall_insert_2.
  - destruct a; simpl; [done|]. by apply map_Forall_insert_2.
  - destruct a; simpl; [done|]. apply map_Forall_insert_2; [by apply Hck|done].
Qed.
Lemma none_true {A} (o : option A) : none o = true → o = None.
Proof. by destruct o. Qed.
Lemma atomic_file_ok a stem ext bytes j records answer j' :
  journal_ok j records None → slen bytes ≤ area_quota a (fj_quotas j) →
  (a = Checkpoints → checkpoint_file (fj_session j) records (stem +:+ ext) bytes) →
  atomic_file a stem ext bytes j = (answer, j') →
  journal_ok j' records None ∧ fj_state j' = fj_state j ∧ fj_session j' = fj_session j ∧ fj_quotas j' = fj_quotas j.
Proof.
  intros K Hq Hck H. unfold atomic_file in H. destruct (fj_poisoned j) eqn:Ep; [by simplify_eq|].
  destruct (negb ((_ <? _) && _)) eqn:Eq; [by simplify_eq|]. apply negb_false_iff in Eq. ok_inv.
  destruct (negb (none (_ !! (stem +:+ ext)))) eqn:Ef; [by simplify_eq|]. apply negb_false_iff, none_true in Ef.
  destruct (jo_exact _ _ _ K Ep) as [He1 He2]. rewrite He1, He2 in *. pose proof (jo_usage _ _ _ K).
  assert (journal_ok (poison j) records None) as Kp by (destruct K; by split).
  destruct (negb (none (_ !! (stem +:+ ".tmp")))) eqn:Et; [by simplify_eq|]. apply negb_false_iff, none_true in Et.
  assert (slen bytes ≤ total_bytes (fj_quotas j) - usage (fj_dir j) (fj_quotas j)) as Hroom by (unfold saturating_sub in *; pose proof (slen_nonneg bytes); lia).
  destruct (place_fault (fj_clock j)) as [[|n|]|]; simplify_eq; (split; [|done]).
  - done.
  - pose proof (sprefix_len n bytes). apply (put_ok a _ (sprefix n bytes) j _ records K Ep Et); try done; try lia.
    + intros _. right. by exists stem.
  - by eapply (put_ok a _ _ j _ records K Ep Ef).
  - eapply (put_ok a _ _ j _ records K Ep Ef); try done. simpl. intros _. by rewrite He1, He2.
Qed.
Lemma checkpoint_ok j records answer j' :
  journal_ok j records None → checkpoint j = (answer, j') →
  journal_ok j' records None ∧ fj_state j' = fj_state j ∧ fj_session j' = fj_session j ∧ fj_quotas j' = fj_quotas j.
Proof.
  intros K H. unfold checkpoint in H. destruct (negb (checkpoint_ready (fj_state j))) eqn:Er; [by simplify_eq|]. apply negb_false_iff in Er.
  destruct (encode _ _) as [bytes|] eqn:Eb; [|by simplify_eq]. unfold encode in Eb.
  destruct (Z.leb_spec (Z.of_nat (String.length (json_text (ser_checkpoint (checkpoint_of j))))) (record_bytes (fj_quotas j))); [|done].
  injection Eb as <-. eapply atomic_file_ok; [exact K|idtac..|exact H]; [done|]. intros _. left. exists records, [], (fj_state j).
  rewrite app_nil_r. split_and!; try done; [apply K|]. unfold checkpoint_text, checkpoint_of. by rewrite (jo_digest _ _ _ K).
Qed.
Lemma artifact_ok output_id bytes j records answer j' :
  journal_ok j records None → artifact output_id bytes j = (answer, j') →
  journal_ok j' records None ∧ fj_state j' = fj_state j ∧ fj_session j' = fj_session j ∧ fj_quotas j' = fj_quotas j.
Proof.
  intros K H. unfold artifact in H. destruct (negb (valid_id _)); [by simplify_eq|].
  destruct (negb (_ <=? _)) eqn:Eb; [by simplify_eq|]. apply negb_false_iff, Z.leb_le in Eb.
  eapply atomic_file_ok; [exact K|idtac..|exact H]; done.
Qed.
End invariant.

Section recovery.
Context {FT : FloatText} {exact : f64 → Prop} {FL : FloatTextLaws exact} {JT : JsonText} {JN : JsonLines} {SH : Sha256} {DV : Device}.

(** Records that are values of their Rust types. *)
Definition typed_last (last : option (SessionRecord * nat)) : Prop :=
  match last with Some (record, _) => record_typed exact record | None => True end.
Definition quotas_typed (q : Quotas) : Prop :=
  total_bytes q ≤ usize_max ∧ journal_bytes q < usize_max ∧ record_bytes q + 2 ≤ usize_max.
Lemma scan_journal q session_id records last state :
  0 ≤ record_bytes q →
  Forall (journaled q session_id) records → Forall (record_typed exact) records → typed_last last →
  match last with Some (record, _) => journaled q session_id record ∧ is_ok (apply state record) = true | None => True end →
  from_records records = Ok state →
  ∃ state', from_records (records ++ completed last) = Ok state'
  ∧ scan_lines (S (String.length (lines records +:+ tail_of last))) q session_id (lines records +:+ tail_of last) (mk_scan default_replay [] "")
    = Ok (mk_scan state' (records ++ completed last) (lines (records ++ completed last))).
Proof using FL JN.
  intros Hq Hj Ht Htl Hl Hf. pose proof (tail_cases last) as Hc. pose proof (lines_len records) as Hlen.
  assert (∀ fuel, scan_lines (length records + fuel) q session_id (lines records +:+ tail_of last) (mk_scan default_replay [] "")
    = scan_lines fuel q session_id (tail_of last) (mk_scan state records (lines records))) as Hscan.
  { intros fuel. erewrite (scan_records (exact := exact)) by done. done. }
  assert (length records ≤ String.length (lines records +:+ tail_of last))%nat as Hfuel.
  { pose proof (slen_app (lines records) (tail_of last)) as E. pose proof (slen_nonneg (tail_of last)). unfold slen in *. lia. }
  assert (completed last = [] → one_line (tail_of last) = true → slen (tail_of last) ≤ record_bytes q →
    ∃ state', from_records (records ++ completed last) = Ok state'
    ∧ scan_lines (S (String.length (lines records +:+ tail_of last))) q session_id (lines records +:+ tail_of last) (mk_scan default_replay [] "")
      = Ok (mk_scan state' (records ++ completed last) (lines (records ++ completed last)))) as Htorn.
  { intros -> H1 H2. rewrite app_nil_r. exists state. split; [done|]. eapply scan_fuel; [rewrite (Hscan 1%nat); by apply scan_torn|lia]. }
  destruct last as [[record n]|]; [|destruct Hc as [Hc1 Hc2]; apply Htorn; [done|by rewrite Hc2|by rewrite Hc2]].
  destruct Hl as [Hjr Ha]. destruct Hc as [[Hc1 Hc2]|(Hc1 & Hc2 & Hc3)]; [|apply Htorn; [done|done|destruct Hjr; lia]].
  rewrite Hc1, Hc2 in *. destruct (apply state record) as [state'|] eqn:Ea; [|done]. exists state'. split.
  { unfold from_records in *. by rewrite replay_from_snoc, Hf. }
  eapply scan_fuel; [rewrite (Hscan 2%nat)|].
  - rewrite <- (string_app_nil_r (next_line record)) at 1. erewrite (scan_line (exact := exact)) by done. rewrite scan_end. simpl. by rewrite lines_snoc.
  - pose proof (slen_app (lines records) (next_line record)) as E. pose proof (next_line_len record) as E'.
    pose proof (slen_nonneg (json_text (ser_record record))). unfold slen in *. lia.
Qed.
(** What opening a journal again amounts to. *)
Lemma recover_open_runs j records last clock :
  journal_ok j records last → Forall (record_typed exact) records → typed_last last → quotas_typed (fj_quotas j) →
  ∃ j', recover_open (fj_session j) (released j) (fj_quotas j) clock
    = (_ ← check (negb ((slen (lines (records ++ completed last)) <? slen (d_events (fj_dir j))) && resize_fault clock)) "truncation failed";
       Ok (j', records ++ completed last))
  ∧ journal_ok j' (records ++ completed last) None ∧ fj_poisoned j' = false ∧ fj_session j' = fj_session j ∧ fj_quotas j' = fj_quotas j
  ∧ d_events (fj_dir j') = lines (records ++ completed last).
Proof using FL JN.
  intros K Ht Htl (Hq1 & Hq2 & Hq3). pose proof (jo_quotas _ _ _ K) as Hqo. unfold quotas_ok in Hqo. ok_inv.
  destruct (scan_journal (fj_quotas j) (fj_session j) records last (fj_state j)) as (state' & Hf & Hs);
    [lia|apply K|done|done| |apply K|].
  { pose proof (jo_last _ _ _ K) as Hl. destruct last as [[]|]; [|done]. naive_solver. }
  pose proof (jo_events _ _ _ K) as Hev. set (all := records ++ completed last) in *.
  assert (measure (released j) (fj_quotas j) = Ok (usage (fj_dir j) (fj_quotas j), count (fj_dir j) (fj_quotas j))) as Hm
    by (apply (measure_Ok (released j)); [done|apply K..]).
  assert (slen (lines all) ≤ slen (d_events (fj_dir j))) as Hle.
  { unfold all. rewrite Hev, lines_app, !slen_app. pose proof (tail_cases last) as Hc. pose proof (slen_nonneg (tail_of last)).
    destruct last as [[record n]|]; simpl in *; [|lia]. destruct Hc as [[Hc1 Hc2]|(Hc1 & _)]; rewrite Hc1, ?Hc2 in *; simpl;
      rewrite ?string_app_nil_r; unfold slen in *; simpl; lia. }
  pose proof (usage_events (fj_dir j) (fj_quotas j) (lines all)) as Hu. pose proof (jo_journal _ _ _ K). pose proof (jo_usage _ _ _ K).
  assert (Forall (journaled (fj_quotas j) (fj_session j)) all) as Hall.
  { unfold all. apply Forall_app. split; [apply K|]. pose proof (jo_last _ _ _ K) as Hl. destruct last as [[record n]|]; simpl; [|done].
    destruct (decide _); [|done]. constructor; [apply Hl|done]. }
  eexists. split.
  { unfold recover_open. rewrite check_run by apply K. rewrite check_run by done. rewrite Hm. cbn [mbind result_bind]. cbv zeta.
    rewrite check_run by (by apply Z.leb_le). rewrite check_run by (by apply Z.leb_le). unfold released. simpl d_events. rewrite Hev, Hs. reflexivity. }
  split; [|done]. rewrite <- Hev. destruct K. split; simpl; try done.
  - by rewrite string_app_nil_r.
  - lia.
  - etrans; [apply Z.eq_le_incl; exact Hu|]. lia.
  - intros _. split; [|done]. symmetry. etrans; [exact Hu|]. lia.
  - by apply files_grow.
Qed.
(** C7. Recovery after a crash.  Whatever the storage did to the last write,
    opening the session's directory again finds every record that was
    confirmed, in order, and then at most the one record whose write had
    failed, only if its whole line had arrived; the file is cut to these
    lines, and the journal that is opened continues them. *)
Theorem recovery_finds_the_journal j records last clock :
  journal_ok j records last → Forall (record_typed exact) records → typed_last last → quotas_typed (fj_quotas j) →
  resize_fault clock = false →
  ∃ j', recover_open (fj_session j) (released j) (fj_quotas j) clock = Ok (j', records ++ completed last)
  ∧ journal_ok j' (records ++ completed last) None ∧ fj_poisoned j' = false ∧ d_events (fj_dir j') = lines (records ++ completed last).
Proof using FL JN.
  intros K Ht Htl Hq Hr. destruct (recover_open_runs j records last clock K Ht Htl Hq) as (j' & E & K' & Hp & _ & _ & Hd).
  exists j'. split_and!; try done. by rewrite E, Hr, andb_false_r.
Qed.

(** ** Every journal *)
(** The journals of a session: created, written to, and opened again after
    the writer is gone. *)
Inductive reaches (session_id : string) (q : Quotas) : FileJournal → Prop :=
  | reach_create sessions j : create sessions session_id q = Ok j → reaches session_id q j
  | reach_append j event budget answer j' :
      reaches session_id q j → event_typed exact event → budget_typed budget →
      append_record event budget j = (answer, j') → reaches session_id q j'
  | reach_checkpoint j answer j' : reaches session_id q j → checkpoint j = (answer, j') → reaches session_id q j'
  | reach_artifact j output_id bytes answer j' :
      reaches session_id q j → artifact output_id bytes j = (answer, j') → reaches session_id q j'
  | reach_recover j clock j' records :
      reaches session_id q j → recover_open session_id (released j) q clock = Ok (j', records) → reaches session_id q j'.
Lemma poisoned_append event budget j : fj_poisoned j = true → (append_record event budget j).2 = j.
Proof. intros H. unfold append_record. by rewrite H. Qed.
Lemma poisoned_file a stem ext bytes j : fj_poisoned j = true → (atomic_file a stem ext bytes j).2 = j.
Proof. intros H. unfold atomic_file. by rewrite H. Qed.
Lemma poisoned_checkpoint j : fj_poisoned j = true → (checkpoint j).2 = j.
Proof. intros H. unfold checkpoint. destruct (negb _); [done|]. destruct (encode _ _); [by apply poisoned_file|done]. Qed.
Lemma poisoned_artifact i bytes j : fj_poisoned j = true → (artifact i bytes j).2 = j.
Proof. intros H. unfold artifact. destruct (negb _); [done|]. destruct (negb _); [done|]. by apply poisoned_file. Qed.
(** Without poison, nothing was torn. *)
Lemma clean_last j records last : journal_ok j records last → fj_poisoned j = false → last = None.
Proof. intros K H. pose proof (jo_last _ _ _ K). destruct last as [[]|]; [|done]. naive_solver congruence. Qed.
Definition typed_journal (j : FileJournal) (records : list SessionRecord) (last : option (SessionRecord * nat)) : Prop :=
  journal_ok j records last ∧ Forall (record_typed exact) records ∧ typed_last last.
Lemma next_record_typed j records event budget :
  journal_ok j records None → quotas_typed (fj_quotas j) → event_typed exact event → budget_typed budget →
  record_typed exact (mk_record JOURNAL_VERSION (fj_session j) (rp_sequence (fj_state j) + 1) budget event).
Proof.
  intros K (_ & Hq & _) He Hb. split_and!; simpl; try done. rewrite (from_records_sequence _ _ (jo_state _ _ _ K)).
  pose proof (lines_len records). pose proof (jo_journal _ _ _ K) as Hj. rewrite (jo_events _ _ _ K), slen_app in Hj.
  pose proof (slen_nonneg (tail_of None)). unfold u64. lia.
Qed.
Lemma reaches_ok session_id q j :
  quotas_typed q → reaches session_id q j →
  fj_session j = session_id ∧ fj_quotas j = q ∧ ∃ records last, typed_journal j records last.
Proof using FL JN.
  intros Hq. induction 1 as [sessions j H|j event budget answer j' _ (Hs & Hqu & records & last & K & Ht & Htl) He Hb H
    |j answer j' _ (Hs & Hqu & records & last & K & Ht & Htl) H|j output_id bytes answer j' _ (Hs & Hqu & records & last & K & Ht & Htl) H
    |j clock j' rs _ (Hs & Hqu & records & last & K & Ht & Htl) H].
  - apply create_ok in H as (K & _ & Hs & Hqu). split_and!; [done..|]. exists [], None. by split_and!.
  - destruct (fj_poisoned j) eqn:Ep.
    { pose proof (poisoned_append event budget j Ep) as E. rewrite H in E. simpl in E. subst j'. split_and!; [done..|]. by exists records, last. }
    pose proof (clean_last _ _ _ K Ep) as ->. pose proof (next_record_typed _ _ _ _ K ltac:(by rewrite Hqu) He Hb) as Hty.
    pose proof (append_record_ok _ _ _ _ _ _ K H) as (Hs' & Hqu' & Ha). split_and!; [congruence..|]. destruct answer as [record|err].
    + destruct Ha as (-> & _ & K' & _). eexists _, None. split_and!; [done| |done]. apply Forall_app. split; [done|]. constructor; [exact Hty|constructor].
    + destruct Ha as (_ & last & K' & Hl). exists records, last. split_and!; [done..|]. destruct last as [[r n]|]; [|done].
      destruct Hl as [-> _]. done.
  - destruct (fj_poisoned j) eqn:Ep.
    { pose proof (poisoned_checkpoint j Ep) as E. rewrite H in E. simpl in E. subst j'. split_and!; [done..|]. by exists records, last. }
    pose proof (clean_last _ _ _ K Ep) as ->. apply (checkpoint_ok _ _ _ _ K) in H as (K' & _ & ? & ?). split_and!; [congruence..|].
    by exists records, None.
  - destruct (fj_poisoned j) eqn:Ep.
    { pose proof (poisoned_artifact output_id bytes j Ep) as E. rewrite H in E. simpl in E. subst j'. split_and!; [done..|]. by exists records, last. }
    pose proof (clean_last _ _ _ K Ep) as ->. apply (artifact_ok _ _ _ _ _ _ K) in H as (K' & _ & ? & ?). split_and!; [congruence..|].
    by exists records, None.
  - destruct (recover_open_runs j records last clock K Ht Htl) as (j2 & E & K2 & _ & ? & ? & _); [by rewrite Hqu|].
    rewrite Hs, Hqu in E. rewrite E in H. ok_inv. simplify_eq. split_and!; [congruence..|].
    eexists _, None. split_and!; [exact K2| |done]. apply Forall_app. split; [done|]. destruct last as [[r n]|]; simpl; [|constructor].
    destruct (decide _); [constructor; [exact Htl|constructor]|constructor].
Qed.
(** C30. A session's files stay within its quotas, whatever is written, however
    writes fail and however often the journal is opened again: the event log,
    all files together, every artifact, every checkpoint, and their number. *)
Theorem journal_within_quotas session_id q j :
  quotas_typed q → reaches session_id q j →
  slen (d_events (fj_dir j)) ≤ journal_bytes q ∧ usage (fj_dir j) q ≤ total_bytes q ∧ count (fj_dir j) q ≤ quota_files q
  ∧ within (artifact_bytes q) (d_outputs (fj_dir j)) ∧ within (record_bytes q) (d_checkpoints (fj_dir j)).
Proof using FL JN.
  intros Hq (_ & <- & records & last & K & _)%reaches_ok; [|done]. destruct K. by split_and!.
Qed.
End recovery.

(** ** Checkpoints *)
Section checkpoints.
Context {FT : FloatText} {exact : f64 → Prop} {JT : JsonText} {JL : JsonTextLaws} {SH : Sha256} {DV : Device}.

#[local] Arguments de_u64 : simpl never.
#[local] Arguments ser_u64 : simpl never.
Lemma de_ser_checkpoint c :
  0 ≤ ck_version c < u32_modulus → u64 (ck_sequence c) → budget_typed (ck_budget c) → de_checkpoint (ser_checkpoint c) = Some c.
Proof.
  destruct c as [v i n b d]. simpl. intros Hv Hn Hb. unfold de_checkpoint, ser_checkpoint. serde_struct.
  rewrite (de_ser_int 0 u32_modulus) by done. simpl. by rewrite de_ser_u64, de_ser_budget by done.
Qed.
(** Every checkpoint in a session's directory verifies against the records
    of its journal: it decodes, its records are a prefix that ends at a
    complete group, and its budget, its session and the digest of the prefix
    are theirs.  Only temporary files of a failed write are no checkpoints. *)
Theorem checkpoints_verify j records last name bytes :
  journal_ok j records last → Forall (record_typed exact) records → d_checkpoints (fj_dir j) !! name = Some bytes →
  (∃ stem, name = stem +:+ ".tmp")
  ∨ ∃ c state, json_parse bytes ≫= de_checkpoint = Some c ∧ name = display_u32 (ck_sequence c) +:+ ".json"
      ∧ verify_checkpoint c records = Ok state ∧ rp_sequence state = ck_sequence c.
Proof using JL.
  intros K Ht Hn. destruct (jo_checkpoints _ _ _ K name bytes Hn) as [(prefix & suffix & state & -> & Hf & Hr & -> & ->)|?]; [|by left].
  right. pose proof (from_records_sequence _ _ Hf) as Hseq. apply Forall_app in Ht as [Ht _]. 
  set (c := mk_checkpoint JOURNAL_VERSION (fj_session j) (rp_sequence state) (rp_budget state) (hex_digest (lines prefix))).
  assert (prefix ≠ []) as Hne by (intros ->; unfold from_records in Hf; simpl in Hf; by simplify_eq).
  assert (rp_session_id state = fj_session j) as Hs.
  { eapply from_records_session; [done| |done]. pose proof (jo_records _ _ _ K) as [H _]%Forall_app. eapply Forall_impl; [done|]. by intros ? [? _]. }
  exists c, state. split_and!; try done.
  - unfold checkpoint_text. rewrite json_parse_text. simpl. apply de_ser_checkpoint; simpl; [done| |].
    + destruct prefix as [|record prefix _] using rev_ind; [done|]. apply Forall_app in Ht as [_ Ht]. inversion Ht as [|? ? (_ & Hu & _) _].
      unfold from_records in Hf. rewrite replay_from_snoc in Hf. ok_inv. apply apply_Ok in Hf as (? & ? & _ & _ & _ & _ & _ & _ & _ & ->). done.
    + eapply (from_records_typed prefix); [done|]. eapply Forall_impl; [done|]. by intros ? (_ & _ & ? & _).
  - unfold verify_checkpoint. simpl. rewrite Hseq, Nat2Z.id. rewrite check_run by (apply Nat.leb_le; rewrite length_app; lia).
    rewrite take_app_length, Hf. simpl. rewrite check_run by (rewrite Hr, Hs, String.eqb_refl, bool_decide_eq_true_2; done).
    rewrite check_run; [done|]. apply String.eqb_refl.
Qed.
End checkpoints.
