(* ===== verification/JournalSession.v ===== *)
(** Sessions on files.  The file journal meets the engine's contract, so what
    holds of a session on any lawful journal holds on files, and what a session
    reported is what recovery finds in its directory. *)
From S2P Require Import Prelude Transact Text Wire Patch FileTools AgentData AgentWire AgentWireFacts Compaction Replay ReplayTheorems CompactionFacts Engine EngineFacts EngineAgreement EngineTheorems JournalFile JournalTheorems.
#[local] Open Scope list_scope.

(** ** Names of checkpoints *)
Lemma suffix_inj (s t u : string) : s +:+ u = t +:+ u → s = t.
Proof.
  revert t. assert (∀ c t, String c t +:+ u ≠ u) as Hne.
  { intros c t E. apply (f_equal slen) in E. rewrite slen_app in E. unfold slen in E. simpl in E. lia. }
  induction s as [|c s IH]; intros [|c' t] E; [done| | |].
  - by destruct (Hne c' t).
  - by destruct (Hne c s).
  - rewrite !app_cons in E. injection E as -> E. by rewrite (IH t).
Qed.
Definition checkpoint_name (sequence : Z) : string := display_u32 sequence +:+ ".json".
Lemma checkpoint_name_inj m n : 0 ≤ m → 0 ≤ n → checkpoint_name m = checkpoint_name n → m = n.
Proof.
  intros Hm Hn E%suffix_inj. pose proof (parse_digits_display m Hm) as E1. rewrite E, parse_digits_display in E1 by done. by injection E1.
Qed.

Section watched.
Context {FT : FloatText} {JT : JsonText} {SH : Sha256} {DV : Device}.

(** A file journal with its history: the records it confirmed, whether it
    refused one that replay accepts, and its last checkpoint. *)
Record watched : Type := mk_watched {
  w_file : FileJournal;
  w_records : list SessionRecord;
  w_refused : bool;
  w_checkpointed : Z;
  w_ok : ∃ last, journal_ok w_file w_records last;
  w_behind : w_checkpointed ≤ rp_sequence (fj_state w_file);
  w_seen : w_refused = true ∨ ∀ n, 0 ≤ n → is_Some (d_checkpoints (fj_dir w_file) !! checkpoint_name n) → n ≤ w_checkpointed }.

(** *** Appending *)
Definition too_large (event : SessionEvent) : bool :=
  match event with ContextPrepared p => none (encode (ser_preparation p) BYTES) | _ => false end.
Definition append_refuses (event : SessionEvent) (budget : Budget) (j : FileJournal) : bool :=
  negb (is_ok (append_record event budget j).1)
  && (too_large event || is_ok (apply (fj_state j) (next_record (fj_session j) (rp_sequence (fj_state j)) event budget))).
Definition appended (answer : result SessionRecord) : list SessionRecord := match answer with Ok record => [record] | Err _ => [] end.
Lemma append_watched event budget j records last answer j' :
  journal_ok j records last → append_record event budget j = (answer, j') →
  (∃ last', journal_ok j' (records ++ appended answer) last') ∧ fj_session j' = fj_session j
  ∧ d_checkpoints (fj_dir j') = d_checkpoints (fj_dir j)
  ∧ match answer with
    | Ok record => record = next_record (fj_session j) (rp_sequence (fj_state j)) event budget ∧ apply (fj_state j) record = Ok (fj_state j')
    | Err _ => fj_state j' = fj_state j
    end.
Proof.
  intros K H. assert (d_checkpoints (fj_dir j') = d_checkpoints (fj_dir j)) as Hd.
  { unfold append_record in H. repeat case_match; simplify_eq; done. }
  destruct (fj_poisoned j) eqn:Ep.
  { unfold append_record in H. rewrite Ep in H. simplify_eq. simpl. rewrite app_nil_r. split_and!; try done. by exists last. }
  pose proof (clean_last _ _ _ K Ep) as ->. apply (append_record_ok _ _ _ _ _ _ K) in H as (Hs & _ & Ha).
  destruct answer as [record|]; simpl.
  - destruct Ha as (-> & ? & K' & _). split_and!; try done. by exists None.
  - destruct Ha as (? & last & K' & _). rewrite app_nil_r. split_and!; try done. by exists last.
Qed.
Lemma apply_sequence r record r' : apply r record = Ok r' → rp_sequence r' = rp_sequence r + 1.
Proof. intros (? & ? & _ & Hs & _ & _ & _ & _ & _ & ->)%apply_Ok. done. Qed.
Program Definition watched_append (event : SessionEvent) (budget : Budget) (w : watched) : result SessionRecord * watched :=
  ((append_record event budget (w_file w)).1,
   mk_watched (append_record event budget (w_file w)).2 (w_records w ++ appended (append_record event budget (w_file w)).1)
     (w_refused w || append_refuses event budget (w_file w)) (w_checkpointed w) _ _ _).
Next Obligation.
  intros event budget [j records refused c [last K] Hb Hs]. simpl. destruct (append_record event budget j) as [answer j'] eqn:E.
  by apply (append_watched _ _ _ _ _ _ _ K) in E as [? _].
Qed.
Next Obligation.
  intros event budget [j records refused c [last K] Hb Hs]. simpl. destruct (append_record event budget j) as [answer j'] eqn:E.
  apply (append_watched _ _ _ _ _ _ _ K) in E as (_ & _ & _ & Ha). simpl in *. destruct answer as [record|]; [|by rewrite Ha].
  destruct Ha as [_ ->%apply_sequence]. lia.
Qed.
Next Obligation.
  intros event budget [j records refused c [last K] Hb Hs]. simpl in *. destruct (append_record event budget j) as [answer j'] eqn:E.
  apply (append_watched _ _ _ _ _ _ _ K) in E as (_ & _ & Hd & _). simpl. rewrite Hd.
  destruct Hs as [->|Hs]; [by left|by right].
Qed.

(** *** Checkpoints *)
Definition checkpoint_refuses (j : FileJournal) : bool :=
  negb (is_ok (checkpoint j).1) && checkpoint_ready (fj_state j)
  && none (d_checkpoints (fj_dir j) !! checkpoint_name (rp_sequence (fj_state j))).
Lemma checkpoint_watched j records last answer j' :
  journal_ok j records last → checkpoint j = (answer, j') →
  (∃ last', journal_ok j' records last') ∧ fj_session j' = fj_session j ∧ fj_state j' = fj_state j
  ∧ match answer with
    | Ok _ => ∃ bytes, d_checkpoints (fj_dir j') = <[checkpoint_name (rp_sequence (fj_state j)) := bytes]> (d_checkpoints (fj_dir j))
    | Err _ => checkpoint_refuses j = true ∨ j' = j
    end.
Proof.
  intros K H. assert (match answer with
    | Ok _ => ∃ bytes, d_checkpoints (fj_dir j') = <[checkpoint_name (rp_sequence (fj_state j)) := bytes]> (d_checkpoints (fj_dir j))
    | Err _ => checkpoint_refuses j = true ∨ j' = j end) as Ha.
  { unfold checkpoint_refuses. rewrite H. unfold checkpoint, atomic_file in H. simpl area_files in H.
    fold (checkpoint_name (rp_sequence (fj_state j))) in H.
    destruct (checkpoint_ready (fj_state j)); simpl in *; [|simplify_eq; by right].
    repeat case_match; simplify_eq; simpl; eauto;
      left; match goal with H : negb (none ?o) = false |- _ => by destruct o end. }
  destruct (fj_poisoned j) eqn:Ep.
  { pose proof (poisoned_checkpoint j Ep) as E. rewrite H in E. simpl in E. subst j'. split_and!; try done. by exists last. }
  pose proof (clean_last _ _ _ K Ep) as ->. apply (checkpoint_ok _ _ _ _ K) in H as (K' & ? & ? & _). split_and!; try done. by exists None.
Qed.
Program Definition watched_checkpoint (w : watched) : result unit * watched :=
  ((checkpoint (w_file w)).1,
   mk_watched (checkpoint (w_file w)).2 (w_records w) (w_refused w || checkpoint_refuses (w_file w))
     (if is_ok (checkpoint (w_file w)).1 then rp_sequence (fj_state (w_file w)) else w_checkpointed w) _ _ _).
Next Obligation.
  intros [j records refused c [last K] Hb Hs]. simpl. destruct (checkpoint j) as [answer j'] eqn:E.
  by apply (checkpoint_watched _ _ _ _ _ K) in E as [? _].
Qed.
Next Obligation.
  intros [j records refused c [last K] Hb Hs]. simpl in *. destruct (checkpoint j) as [answer j'] eqn:E.
  apply (checkpoint_watched _ _ _ _ _ K) in E as (_ & _ & Hst & _). simpl. rewrite Hst. destruct (is_ok answer); lia.
Qed.
Next Obligation.
  intros [j records refused c [last K] Hb Hs]. simpl in *. destruct (checkpoint j) as [answer j'] eqn:E.
  apply (checkpoint_watched _ _ _ _ _ K) in E as (_ & _ & _ & Ha). simpl.
  destruct Hs as [->|Hs]; [by left|]. destruct answer as [u|]; simpl.
  - destruct Ha as [bytes ->]. right. intros n Hn [text Hl]. rewrite lookup_insert_Some in Hl.
    destruct Hl as [[Heq _]|[_ Hl]]; [|specialize (Hs n Hn ltac:(by eexists)); lia].
    apply checkpoint_name_inj in Heq; [lia| |done]. rewrite (from_records_sequence _ _ (jo_state _ _ _ K)). lia.
  - destruct Ha as [->| ->]; [left; apply orb_true_r|by right].
Qed.

#[global] Instance watched_journal : Journal watched := {|
  j_append := watched_append; j_checkpoint := watched_checkpoint; j_commands _ := false; j_interactive _ := false |}.
Lemma too_large_oversized event : oversized event → too_large event = true.
Proof. destruct event; simpl; try done. by intros ->. Qed.
#[global] Instance watched_laws : JournalLaws watched.
Proof.
  refine {| j_state w := fj_state (w_file w); j_session w := fj_session (w_file w); j_refused := w_refused; j_checkpointed := w_checkpointed |}.
  - intros event budget w record w' [= Ha <-]. simpl. destruct w as [j records refused c [last K] Hb Hs]. simpl in *.
    destruct (append_record event budget j) as [answer j'] eqn:E. simpl in Ha. subst answer.
    apply (append_watched _ _ _ _ _ _ _ K) in E as (_ & ? & _ & ? & ?). done.
  - intros event budget w err w' [= Ha <-]. simpl. unfold append_refuses. rewrite Ha. simpl.
    destruct (w_refused w); [by left|]. simpl. destruct (too_large event) eqn:Et; [by left|]. destruct (is_ok _) eqn:Ek; [by left|].
    right. split; [|done]. intros Ho%too_large_oversized. congruence.
  - intros w u w' [= Ha <-]. simpl. rewrite Ha. simpl. destruct w as [j records refused c [last K] Hb Hs]. simpl in *.
    destruct (checkpoint j) as [answer j'] eqn:E. simpl in Ha. apply (checkpoint_watched _ _ _ _ _ K) in E as (_ & ? & ? & _). done.
  - intros w err w' [= Ha <-]. simpl. unfold checkpoint_refuses. rewrite Ha. simpl.
    destruct (w_refused w) eqn:Er; [by left|]. simpl. destruct (checkpoint_ready _) eqn:Ec; [|by right; left]. simpl.
    destruct (_ !! _) as [text|] eqn:El; [|by left]. right. right. destruct (w_seen w) as [?|Hs]; [congruence|].
    apply Hs; [|by eexists]. destruct (w_ok w) as [last K]. rewrite (from_records_sequence _ _ (jo_state _ _ _ K)). lia.
Defined.

(** The journal of a new session. *)
Program Definition watch (sessions : gmap string SessionDir) (session_id : string) (q : Quotas) (j : FileJournal)
  (H : create sessions session_id q = Ok j) : watched := mk_watched j [] false 0 _ _ _.
Next Obligation. intros * H. exists None. by apply create_ok in H as [? _]. Qed.
Next Obligation. intros * H. unfold create in H. ok_inv. by subst. Qed.
Next Obligation. intros * H. unfold create in H. ok_inv. subst. right. intros n _ [bytes Hl]. simpl in Hl. by rewrite lookup_empty in Hl. Qed.

(** Nothing is written after the end of a session. *)
Lemma ended_last j records last : journal_ok j records last → rp_end (fj_state j) ≠ None → last = None.
Proof.
  intros K He. pose proof (jo_last _ _ _ K) as Hl. destruct last as [[record n]|]; [|done]. destruct Hl as (_ & Ha & _).
  destruct (apply (fj_state j) record) as [r|] eqn:E; [|done]. apply apply_Ok in E as (? & ? & _ & _ & ? & _). by destruct (rp_end (fj_state j)).
Qed.
End watched.

Section composed.
Context {FT : FloatText} {exact : f64 → Prop} {FL : FloatTextLaws exact} {JT : JsonText} {JN : JsonLines} {JS : JsonSize}.
Context {SH : Sha256} {SL : Sha256Laws} {DV : Device} {PE : Peers}.
Context (e : engine (J := watched)) (HF : fresh e) (HB : blank_journal e) (HE : ends_free e) (HL : limits_sane (SE := session_of e)).
Context {PL : PeersLaws (e_limits e) (none (id_task (e_identity e)))}.
Context (horizon patience : nat) (Hhorizon : ∀ k, (horizon ≤ k)%nat → deadline_of e ≤ now k) (Hpatience : (horizon < patience)%nat).

(** C8. What a session reported is what its files tell.  When the engine runs
    on the file journal, whatever the storage does, a session that ended
    durably can be opened again from its directory: the records found there
    replay to the end and the budget that were reported and to the whole
    conversation the engine had, and nothing is cut from the file. *)
Theorem durable_session_is_recovered command o e' clock :
  run patience command e = (Some (Ok o), e') → se_durable o = true →
  let w := e_journal e' in
  Forall (record_typed exact) (w_records w) → quotas_typed (fj_quotas (w_file w)) →
  ∃ j state, recover_open (fj_session (w_file w)) (released (w_file w)) (fj_quotas (w_file w)) clock = Ok (j, w_records w)
  ∧ d_events (fj_dir j) = d_events (fj_dir (w_file w)) ∧ from_records (w_records w) = Ok state
  ∧ rp_end state = Some (se_reason o) ∧ rp_budget state = se_budget o ∧ e_messages e' `prefix_of` rp_messages state.
Proof using All.
  intros Hr Hd w Ht Hq. pose proof (run_answers e HF HB HE HL horizon patience Hhorizon Hpatience command) as H.
  rewrite Hr in H. unfold answers, settled in H. rewrite Hd in H. destruct H as [(He & Hb & _ & Hm)|(? & _)]; [|done].
  destruct (w_ok w) as [last K]. assert (rp_end (fj_state (w_file w)) = Some (se_reason o)) as Hend by exact He.
  assert (last = None) as -> by (eapply ended_last; [done|congruence]).
  destruct (recover_open_runs _ _ _ clock K Ht I Hq) as (j & E & _ & _ & _ & _ & Hev). simpl completed in *. rewrite app_nil_r in *.
  pose proof (jo_events _ _ _ K) as Hw. simpl in Hw. rewrite string_app_nil_r in Hw.
  exists j, (fj_state (w_file w)). split_and!; try done; [|congruence|apply K].
  rewrite E, check_run; [done|]. by rewrite Hw, Z.ltb_irrefl.
Qed.
End composed.
