(* ===== verification/Resume.v ===== *)
(** Continuing after an interrupted run: [src/src/nano/resume.rs] and
    [src/src/nano/effect_recovery.rs].  The journal of the previous run is
    settled without running its tools again: the one call that may be pending
    gets an outcome that the workspace confirms or that says it is unknown.

    The command spools are files of a private directory that nobody else
    changes; a file that cannot be read or is not private is [None]. *)
From S2P Require Import Prelude Transact Text HostFiles Wire Workspace Patch FileTools AgentData AgentWire Compaction Replay Engine JournalFile.
#[local] Open Scope list_scope.

(** ** The budget of the next run *)
Definition inherited_budget (spent : Budget) : Budget :=
  spent <| b_estimated_input := saturating_add (b_estimated_input spent) (b_reserved_input spent) |>
        <| b_estimated_output := saturating_add (b_estimated_output spent) (b_reserved_output spent) |>
        <| b_reserved_input := 0 |> <| b_reserved_output := 0 |> <| b_elapsed_ms := 0 |>.

(** ** The pending call *)
Inductive PatchState : Type := PatchBefore | PatchAfter | PatchUnknown.
Record Pending : Type := mk_pending {
  pe_call_id : string;
  pe_name : string;
  pe_arguments : string;
  pe_execution_started : bool;
  pe_outcome : ToolOutcome;
  pe_description : string }.
#[global] Instance Pending_eta : Eta Pending := λ p,
  mk_pending (pe_call_id p) (pe_name p) (pe_arguments p) (pe_execution_started p) (pe_outcome p) (pe_description p).
(** [records.iter().rev().find_map(f)] *)
Definition rfind_map {A B} (f : A → option B) (l : list A) : option B := head (omap f (rev l)).
Record Intent : Type := mk_intent {
  in_call_id : string;
  in_call : ToolCall;
  in_plan : option EffectPlan;
  in_start_recorded : bool;
  in_sequence : Z }.
Definition intent_of (record : SessionRecord) : option Intent :=
  match rec_event record with
  | ToolIntent call_id call plan start => Some (mk_intent call_id call plan start (rec_sequence record))
  | _ => None
  end.
Definition is_result (call_id : string) (record : SessionRecord) : bool :=
  match rec_event record with ToolResult id _ => String.eqb id call_id | _ => false end.
Definition is_start (call_id : string) (record : SessionRecord) : bool :=
  match rec_event record with ToolStarted id => String.eqb id call_id | _ => false end.
Definition read_only_tools : list string :=
  ["read_file"; "read_process"; "read_output"; "search_text"; "load_instructions"; "repository_fallback";
   "repository_graph_status"; "repository_search"; "repository_context"; "project_memory_status";
   "project_context_search"; "project_context"].
Definition not_started : string :=
  "The process stopped before the tool execution boundary; no effect was started.".
(** What is known of a call that was executing, the patch aside. *)
Definition interrupted_call (name : string) : ToolOutcome * string :=
  if existsb (String.eqb name) read_only_tools
  then (OutcomeFailed Interrupted, "An interrupted read-only tool was not replayed.")
  else if String.eqb name "check"
  then (Unknown Interrupted, "An interrupted check may have launched shell commands or modified the workspace.")
  else if String.eqb name "consult" || String.eqb name "ask_human"
  then (OutcomeFailed Interrupted,
        "An interrupted Ferrus lifecycle call was not replayed; SQLite and scoped artifacts retain its state.")
  else (Unknown Interrupted, "An interrupted effect cannot be reconciled automatically.").
Definition interrupted_patch (s : PatchState) : ToolOutcome * string :=
  match s with
  | PatchBefore => (OutcomeFailed Interrupted, "The interrupted patch is absent from the current workspace.")
  | PatchAfter => (Success (object [("status", JStr "recovered"); ("complete", JBool true)]),
                   "The interrupted patch matches its full recorded after-state.")
  | PatchUnknown => (Unknown Interrupted, "The interrupted patch has an ambiguous file state.")
  end.
(** The last call that has no result. *)
Definition last_unresolved (records : list SessionRecord) : option Intent :=
  i ← rfind_map intent_of records;
  if existsb (is_result (in_call_id i)) records then None else Some i.
Definition execution_started (records : list SessionRecord) (i : Intent) : bool :=
  negb (in_start_recorded i)
  || existsb (λ record, (in_sequence i <? rec_sequence record) && is_start (in_call_id i) record) records.

Section pending.
Context {HO : Host} {UC : Uppercase} {SH : Sha256} {JT : JsonText}.

Fixpoint patch_loop (w : Workspace) (files : list PlannedFile) (before after : bool) : act PatchState :=
  match files with
  | [] => mret (if after then PatchAfter else if before then PatchBefore else PatchUnknown)
  | file :: files =>
    current ← attempt (current_digest w (pf_path file));
    match current with
    | ROk current =>
      patch_loop w files (before && bool_decide (current = pf_before_digest file))
        (after && bool_decide (current = pf_after_digest file))
    | RErr (Fail _) => mret PatchUnknown
    | RErr Panic => throw Panic
    end
  end.
Definition patch_state (w : Workspace) (files : list PlannedFile) : act PatchState :=
  match files with [] => mret PatchUnknown | _ => patch_loop w files true true end.
Definition pending (records : list SessionRecord) (w : Workspace) : act (option Pending) :=
  match last_unresolved records with
  | None => mret None
  | Some i =>
    let call := in_call i in
    if negb (execution_started records i)
    then mret (Some (mk_pending (in_call_id i) (tc_name call) (tc_arguments call) false (OutcomeFailed Interrupted) not_started))
    else
      '(outcome, description) ←
        match in_plan i with
        | Some (EffectPatch files) =>
          if String.eqb (tc_name call) "apply_patch" then s ← patch_state w files; mret (interrupted_patch s)
          else mret (interrupted_call (tc_name call))
        | None => mret (interrupted_call (tc_name call))
        end;
      mret (Some (mk_pending (in_call_id i) (tc_name call) (tc_arguments call) true outcome description))
  end.
End pending.

(** *** What the project knows of it *)
(** What [reconcile_pending] reads, each only when the call needs it: whether
    the previous run's submission is committed, the run's [SUBMISSION.md], the
    task's status and the answer in the run's directory.  A read that fails
    ends the recovery. *)
Record observed : Type := mk_observed {
  ob_committed : bool;
  ob_submission : option string;
  ob_status : string;
  ob_response : option string }.
Definition reconcile_submit `{!JsonText} (o : observed) (task_id : string) (p : Pending) : Pending * string * bool :=
  let expected := value ← from_str (pe_arguments p); as_str (index "content" value) in
  if ob_committed o && negb (none expected) && negb (none (ob_submission o)) && bool_decide (expected = ob_submission o) then
    (p <| pe_outcome := Success (object [("status", JStr "submitted"); ("task_state", JStr "reviewing"); ("task_id", JStr task_id)]) |>,
     "The prior submit committed in SQLite and its scoped submission matches the recorded call; it was not repeated.", true)
  else if negb (ob_committed o) && none (ob_submission o) then
    (p <| pe_outcome := Unknown Interrupted |>,
     "The prior submit did not commit, but its check commands may have run or changed the workspace.", false)
  else (p <| pe_outcome := Unknown Interrupted |>, "The prior submit has inconsistent SQLite and scoped artifacts.", false).
Definition reconcile_answer `{!JsonText} (o : observed) (p : Pending) : Pending * string * bool :=
  match ob_response o with
  | Some answer =>
    if blank answer
    then (p <| pe_outcome := Unknown Interrupted |>,
          "A restored consultation or human response is missing from its scoped artifact.", false)
    else
      let value := object [("status", JStr "answered"); ("answer", JStr (trim answer)); ("resumed_state", JStr (ob_status o))] in
      (p <| pe_outcome := Success value |>,
       "A stored " +:+ (if String.eqb (pe_name p) "ask_human" then "human" else "consultation")
       +:+ " response had already restored the task. Deliver it once as untrusted task input: " +:+ json_text value, true)
  | None =>
    (p <| pe_outcome := Unknown Interrupted |>,
     "A restored consultation or human response is missing from its scoped artifact.", false)
  end.
(** The reconciled call, its description, whether it was a submission that
    committed and whether an answer is delivered. *)
Definition reconcile_pending `{!JsonText} (o : observed) (task_id : string) (p : Pending) : Pending * string * bool * bool :=
  let '(p, description, submitted) :=
    if String.eqb (pe_name p) "submit" && pe_execution_started p then reconcile_submit o task_id p
    else (p, pe_description p, false) in
  if pe_execution_started p && (String.eqb (pe_name p) "ask_human" || String.eqb (pe_name p) "consult")
     && (String.eqb (ob_status o) "executing" || String.eqb (ob_status o) "addressing")
  then let '(p, description, delivered) := reconcile_answer o p in (p, description, submitted, delivered)
  else (p, description, submitted, false).

(** ** Commands that may still run *)
Definition is_exec (record : SessionRecord) : option string :=
  match rec_event record with
  | ToolIntent call_id call _ _ => if String.eqb (tc_name call) "exec" then Some call_id else None
  | _ => None
  end.
(** [value.get("process_id")?.as_str()?] *)
Definition process_of (value : json) : option string := get "process_id" value ≫= as_str.
Fixpoint recorded_loop (calls : gset string) (records : list SessionRecord) (processes : gset string) : option (gset string) :=
  match records with
  | [] => Some processes
  | record :: records =>
    match rec_event record with
    | ToolResult call_id (Success value) =>
      if decide (call_id ∈ calls) then
        process ← process_of value; recorded_loop calls records ({[process]} ∪ processes)
      else recorded_loop calls records processes
    | _ => recorded_loop calls records processes
    end
  end.
Definition recorded_commands (records : list SessionRecord) : option (gset string) :=
  recorded_loop (list_to_set (omap is_exec records)) records ∅.

(** [Completion], [OutputRef] and [Snapshot] of [src/src/nano/commands.rs] *)
Inductive Completion : Type :=
  | ComRunning | ComExited (code : option Z) (success : bool) | ComTimedOut | ComCancelled | ComOutputLimit | ComUnknown.
Record OutputRef : Type := mk_output { or_handle : string; or_bytes : Z }.
Record CommandSnapshot : Type := mk_snapshot {
  cs_process_id : string;
  cs_backend : string;
  cs_completion : Completion;
  cs_stdout : OutputRef;
  cs_stderr : OutputRef;
  cs_output_complete : bool;
  cs_mutation_scope : string }.
Definition de_i32 : json → option Z := de_int (- 2 ^ 31) (2 ^ 31).
Definition de_completion (j : json) : option Completion :=
  '(t, body) ← internal "state" j;
  if String.eqb t "running" then Some ComRunning
  else if String.eqb t "exited" then
    fs ← open_struct ["code"; "success"] body; c ← opt (de_option de_i32) "code" fs; s ← req de_bool "success" fs;
    Some (ComExited c s)
  else if String.eqb t "timed_out" then Some ComTimedOut
  else if String.eqb t "cancelled" then Some ComCancelled
  else if String.eqb t "output_limit" then Some ComOutputLimit
  else if String.eqb t "unknown" then Some ComUnknown
  else None.
Definition de_output_ref (j : json) : option OutputRef :=
  fs ← open_struct ["handle"; "bytes"] j; h ← req de_string "handle" fs; b ← req de_u64 "bytes" fs; Some (mk_output h b).
Definition de_snapshot (j : json) : option CommandSnapshot :=
  fs ← open_struct ["process_id"; "backend"; "completion"; "stdout"; "stderr"; "output_complete"; "mutation_scope"] j;
  p ← req de_string "process_id" fs; b ← req de_string "backend" fs; c ← req de_completion "completion" fs;
  o ← req de_output_ref "stdout" fs; e ← req de_output_ref "stderr" fs; d ← req de_bool "output_complete" fs;
  m ← req de_string "mutation_scope" fs; Some (mk_snapshot p b c o e d m).

Definition STATE_BYTES : Z := 2048.
Definition MAX_PROCESSES : nat := 256.
Definition terminal (c : Completion) : bool :=
  match c with ComExited _ _ | ComCancelled | ComTimedOut => true | _ => false end.
Fixpoint strip_prefix (p s : string) : option string :=
  match p, s with
  | "", _ => Some s
  | String a p, String b s => if Ascii.eqb a b then strip_prefix p s else None
  | _, "" => None
  end.
Fixpoint strip_suffix (suffix s : string) : option string :=
  if String.eqb s suffix then Some "" else
  match s with
  | "" => None
  | String c s => String c <$> strip_suffix suffix s
  end.
(** A file of the spool: its name, unless that is no text, and its bytes. *)
Definition spool_file : Type := option string * option string.
Record spool : Type := mk_spool {
  sp_stdout : gset string;
  sp_stderr : gset string;
  sp_states : gmap string CommandSnapshot }.
Section commands.
Context {JT : JsonText}.
Definition reconciled (session_id id : string) (state : CommandSnapshot) : bool :=
  String.eqb id (cs_process_id state)
  && negb (none (strip_prefix (session_id +:+ "-p") (cs_process_id state)))
  && String.eqb (cs_backend state) "trusted_local"
  && String.eqb (or_handle (cs_stdout state)) (id +:+ "-stdout")
  && String.eqb (or_handle (cs_stderr state)) (id +:+ "-stderr")
  && terminal (cs_completion state)
  && cs_output_complete state.
(** The loop over the directory; [ROk (RErr tt)] is [return Ok(true)]. *)
Fixpoint scan_spool (count : nat) (session_id : string) (entries : list spool_file) (sp : spool) : result (res unit spool) :=
  match entries with
  | [] => Ok (ROk sp)
  | (name, bytes) :: entries =>
    _ ← check (Nat.leb (S count) (MAX_PROCESSES * 3)) "Command spool exceeds file bound";
    match bytes with
    | None => Err (Bail "Not private" [])
    | Some bytes =>
      match name with
      | None => Ok (RErr tt)
      | Some name =>
        match strip_suffix "-stdout" name with
        | Some id =>
          scan_spool (S count) session_id entries (mk_spool ({[id]} ∪ sp_stdout sp) (sp_stderr sp) (sp_states sp))
        | None =>
          match strip_suffix "-stderr" name with
          | Some id =>
            scan_spool (S count) session_id entries (mk_spool (sp_stdout sp) ({[id]} ∪ sp_stderr sp) (sp_states sp))
          | None =>
            match strip_suffix ".json" name with
            | None => Ok (RErr tt)
            | Some id =>
              if STATE_BYTES <? slen bytes then Ok (RErr tt) else
              match json_parse bytes ≫= de_snapshot with
              | None => Ok (RErr tt)
              | Some state =>
                if reconciled session_id id state
                then scan_spool (S count) session_id entries
                       (mk_spool (sp_stdout sp) (sp_stderr sp) (<[id := state]> (sp_states sp)))
                else Ok (RErr tt)
              end
            end
          end
        end
      end
    end
  end.
Definition spool_len (entries : list spool_file) (name : string) : option Z :=
  bytes ← head (omap (λ f : spool_file, if decide (f.1 = Some name) then Some f.2 else None) entries);
  slen <$> bytes.
Fixpoint outputs_differ (entries : list spool_file) (states : list (string * CommandSnapshot)) : result bool :=
  match states with
  | [] => Ok false
  | (id, state) :: states =>
    match spool_len entries (id +:+ "-stdout"), spool_len entries (id +:+ "-stderr") with
    | Some out, Some err =>
      if negb (out =? or_bytes (cs_stdout state)) || negb (err =? or_bytes (cs_stderr state)) then Ok true
      else outputs_differ entries states
    | _, _ => Err (Bail "No such file" [])
    end
  end.
(** [commands] is the directory, unless there is none. *)
Definition unresolved_commands (commands : option (list spool_file)) (session_id : string) (expected : gset string) : result bool :=
  match commands with
  | None => Ok (negb (bool_decide (expected = ∅)))
  | Some entries =>
    scanned ← scan_spool 0 session_id entries (mk_spool ∅ ∅ ∅);
    match scanned with
    | RErr _ => Ok true
    | ROk sp =>
      let ids := dom (sp_states sp) in
      if bool_decide (ids ≠ sp_stdout sp) || bool_decide (ids ≠ sp_stderr sp) || negb (bool_decide (expected ⊆ ids)) then Ok true
      else outputs_differ entries (map_to_list (sp_states sp))
    end
  end.
End commands.

(** ** Settling the journal *)
Section settling.
Context {FT : FloatText} {JT : JsonText} {SH : Sha256} {DV : Device}.
(** The journal's part of [recover_previous]: the outcome of the pending call,
    as it was reconciled, and the end. *)
Definition settle (pending : option (Pending * bool)) (records : list SessionRecord) (j : FileJournal) :
  result (list SessionRecord) * FileJournal :=
  match pending with
  | Some (pending, reconciled_submit) =>
    if none (rp_end (fj_state j)) then
      match append_record (ToolResult (pe_call_id pending) (pe_outcome pending)) (rp_budget (fj_state j)) j with
      | (Ok record, j) =>
        if reconciled_submit : bool then seal_with EndSubmitted (records ++ [record]) j
        else seal_interrupted (records ++ [record]) j
      | (Err error, j) => (Err error, j)
      end
    else (Ok records, j)
  | None => seal_interrupted records j
  end.
(** Whether the previous run left an effect that nobody can vouch for. *)
Definition effect_in_doubt (pending : option (Pending * bool)) (j : FileJournal) : bool :=
  match pending with Some (p, _) => outcome_unknown (pe_outcome p) | None => false end
  || negb (bool_decide (rp_unknown_effects (fj_state j) = []))
  || bool_decide (rp_end (fj_state j) = Some EffectUnknown).
Definition retryable_failure (records : list SessionRecord) : bool :=
  default false (rfind_map (λ record,
    match rec_event record with
    | ModelFailed retryable _ _ _ => Some retryable
    | ModelCompleted _ _ => Some false
    | _ => None
    end) records).
(** Why another run in the same phase would not get further. *)
Definition terminal_stop (records : list SessionRecord) (j : FileJournal) : option string :=
  rp_end (fj_state j) ≫= λ reason, managed_failure_code reason (retryable_failure records).
(** How [recover_previous] ends once the journal is settled. *)
Inductive verdict : Type :=
  | EffectInDoubt
  | CommandsInDoubt
  | Stopped (code : string)
  | NoHandoff
  | HandedOff
  | Continue (budget : Budget).
Definition commands_in_doubt (commands : option (list spool_file)) (previous : string) (records : list SessionRecord) : bool :=
  match recorded_commands records with
  | None => true
  | Some expected => match unresolved_commands commands previous expected with Ok unresolved => unresolved | Err _ => true end
  end.
(** [committed] is whether the previous run's submission is committed. *)
Definition conclude (pending : option (Pending * bool)) (committed : bool) (commands : option (list spool_file)) (previous : string)
    (records : list SessionRecord) (j : FileJournal) : verdict :=
  let submitted := match pending with Some (_, submitted) => submitted | None => false end in
  let handed_off := bool_decide (rp_end (fj_state j) = Some EndSubmitted) in
  if effect_in_doubt pending j then EffectInDoubt
  else if commands_in_doubt commands previous records then CommandsInDoubt
  else match terminal_stop records j with
       | Some code => Stopped code
       | None =>
         if handed_off && negb submitted && negb committed then NoHandoff
         else if submitted || handed_off then HandedOff
         else Continue (inherited_budget (rp_budget (fj_state j)))
       end.
End settling.
