(* ===== verification/ResumeTheorems.v ===== *)
(** Continuing after an interrupted run: the pending call that recovery finds
    is the one replay finds, and settling it is always acceptable to replay.

    The theorems about continuing after an interrupted run. *)
From S2P Require Import Prelude Transact Wire Text HostFiles Workspace Patch FileTools AgentData AgentWire AgentWireFacts Compaction Replay ReplayTheorems Engine EngineFacts EngineAgreement JournalFile JournalTheorems Resume.
#[local] Open Scope list_scope.

Section facts.
Context {JT : JsonText} {SH : Sha256}.

Lemma rfind_map_snoc {A B} (f : A → option B) l x :
  rfind_map f (l ++ [x]) = match f x with Some b => Some b | None => rfind_map f l end.
Proof. unfold rfind_map. rewrite rev_app_distr. simpl. by destruct (f x). Qed.
Lemma rfind_map_in {A B} (f : A → option B) l b : rfind_map f l = Some b → b ∈ omap f l.
Proof.
  intros H%head_Some_elem_of. rewrite list_elem_of_omap in *. destruct H as (x & Hx & Hf). exists x. split; [|done].
  apply list_elem_of_In, in_rev, list_elem_of_In, Hx.
Qed.
Lemma sequences_bounded records r : from_records records = Ok r → Forall (λ record, rec_sequence record ≤ rp_sequence r) records.
Proof.
  revert records r. apply (from_records_ind (λ records r, Forall (λ record, rec_sequence record ≤ rp_sequence r) records)); [done|].
  intros records r record r' _ IH (? & ? & _ & Hs & _ & _ & _ & _ & _ & ->)%apply_Ok. simpl. apply Forall_app. split.
  - eapply Forall_impl; [done|]. simpl. lia.
  - by constructor.
Qed.
(** What one record does to the pending call. *)
Lemma apply_call r record r' :
  running r → apply r record = Ok r' →
  match rec_event record with
  | ToolIntent id call _ start =>
    rp_pending_effect r' = Some id ∧ rp_pending_requires_start r' = start ∧ rp_effect_started r' = false ∧ head (rp_calls r') = Some call
  | ToolStarted id =>
    rp_pending_effect r = Some id ∧ rp_pending_effect r' = Some id ∧ rp_effect_started r' = true
    ∧ rp_pending_requires_start r' = rp_pending_requires_start r ∧ rp_calls r' = rp_calls r
  | ToolResult _ _ => rp_pending_effect r' = None
  | _ =>
    rp_pending_effect r' = rp_pending_effect r ∧ rp_pending_requires_start r' = rp_pending_requires_start r
    ∧ rp_effect_started r' = rp_effect_started r ∧ (rp_calls r' = rp_calls r ∨ rp_calls r = [])
  end.
Proof.
  intros Hr (r2 & Hs & _ & _ & He & ->)%apply_next; [|done].
  destruct (rec_event record); try done; simpl in He; unfold apply_context_prepared, apply_context_composed, apply_model_started,
    apply_user_input, apply_interaction_opened, apply_input_requested, apply_compaction_started, apply_model_completed,
    apply_compaction_completed, apply_model_failed, apply_tool_intent, apply_tool_started, apply_tool_result, apply_ended in He;
    ok_inv; subst; simpl; try split_and!; try done; auto.
  all: try (destruct (decide _); by auto).
  destruct (rp_calls r); [done|]. ok_inv. by subst.
Qed.
(** The pending call, as the records tell it. *)
Definition pending_call (records : list SessionRecord) (r : Replay) (id : string) : Prop :=
  ∃ i, rfind_map intent_of records = Some i ∧ in_call_id i = id ∧ in_sequence i ≤ rp_sequence r
  ∧ head (rp_calls r) = Some (in_call i) ∧ rp_pending_requires_start r = in_start_recorded i
  ∧ rp_effect_started r = existsb (λ record, (in_sequence i <? rec_sequence record) && is_start id record) records.
Lemma pending_recorded records r id :
  from_records records = Ok r → rp_pending_effect r = Some id → pending_call records r id.
Proof.
  intros H. revert id. revert records r H.
  apply (from_records_ind (λ records r, ∀ id, rp_pending_effect r = Some id → pending_call records r id)); [done|].
  intros records r record r' Hf IH Ha id Hp. destruct (from_records_ok _ _ Hf) as [->|Hr].
  { destruct (apply_first _ _ Ha) as (_ & _ & E). congruence. }
  pose proof (apply_call _ _ _ Hr Ha) as Hc. pose proof (sequences_bounded _ _ Hf) as Hb.
  pose proof Ha as (? & ? & _ & Hseq & _ & _ & _ & _ & _ & E)%apply_Ok.
  assert (rp_sequence r' = rp_sequence r + 1) as Hs' by (by subst). clear E.
  assert (intent_of record = None → is_start id record = false → rp_pending_effect r = Some id → rp_calls r' = rp_calls r ∨ rp_calls r = [] →
    rp_pending_requires_start r' = rp_pending_requires_start r → rp_effect_started r' = rp_effect_started r → pending_call (records ++ [record]) r' id) as Hkeep.
  { intros Hi Hst Hpe Hca Hq He. destruct (IH id Hpe) as (i & H1 & H2 & H3 & H4 & H5 & H6). exists i.
    rewrite rfind_map_snoc, Hi, existsb_app. simpl. rewrite Hst, andb_false_r, !orb_false_r. split_and!; try done; [lia| |congruence|congruence].
    destruct Hca as [->|E]; [done|]. by rewrite E in H4. }
  unfold pending_call. destruct (rec_event record) eqn:Ev;
    try (destruct Hc as (Hc1 & Hc2 & Hc3 & Hc4); apply Hkeep; try done; try congruence; unfold intent_of, is_start; by rewrite Ev).
  - destruct Hc as (Hc1 & Hc2 & Hc3 & Hc4). exists (mk_intent call_id call effect_plan start_recorded (rec_sequence record)).
    rewrite rfind_map_snoc. unfold intent_of at 1. rewrite Ev. simpl. split_and!; try done; [congruence|lia|].
    rewrite Hc3. symmetry. apply not_true_iff_false. intros (y & Hy & Ht)%existsb_exists. apply andb_true_iff in Ht as [Ht%Z.ltb_lt _].
    apply in_app_iff in Hy as [Hy|[<-|[]]]; [|lia]. rewrite Forall_forall in Hb. specialize (Hb y ltac:(by apply list_elem_of_In)). lia.
  - destruct Hc as (Hc1 & Hc2 & Hc3 & Hc4 & Hc5). assert (call_id = id) as -> by congruence.
    destruct (IH id Hc1) as (i & H1 & H2 & H3 & H4 & H5 & H6). exists i. rewrite rfind_map_snoc, existsb_app. unfold intent_of at 1. rewrite Ev.
    split_and!; try done; [lia|congruence|congruence|]. rewrite Hc3. symmetry. apply orb_true_iff. right. simpl. unfold is_start. rewrite Ev, String.eqb_refl.
    rewrite (proj2 (Z.ltb_lt _ _)) by lia. done.
  - congruence.
Qed.
Lemma resolved_in id records : existsb (is_result id) records = true ↔ id ∈ results records.
Proof.
  unfold results. rewrite list_elem_of_omap, existsb_exists. unfold is_result, result_id. split.
  - intros (x & Hx%list_elem_of_In & H). exists x. split; [done|]. destruct (rec_event x); try done. by apply String.eqb_eq in H as ->.
  - intros (x & Hx%list_elem_of_In & H). exists x. split; [done|]. destruct (rec_event x); try done. injection H as ->. apply String.eqb_refl.
Qed.
Lemma intent_listed records i : rfind_map intent_of records = Some i → in_call_id i ∈ intents records.
Proof.
  intros H%rfind_map_in. unfold intents. apply list_elem_of_omap in H as (x & Hx & H). apply list_elem_of_omap. exists x. split; [done|].
  unfold intent_of in H. unfold intent_id. destruct (rec_event x); try done. by injection H as <-.
Qed.
(** The unresolved call is the pending one. *)
Lemma last_unresolved_pending records r :
  from_records records = Ok r → budgets_typed records →
  match last_unresolved records with
  | Some i => rp_pending_effect r = Some (in_call_id i) ∧ head (rp_calls r) = Some (in_call i)
      ∧ execution_started records i = negb (rp_pending_requires_start r) || rp_effect_started r
  | None => rp_pending_effect r = None
  end.
Proof.
  intros Hf Ht. pose proof (intents_results _ _ Hf) as Hi. destruct (intents_bounded _ _ Hf Ht) as [Hnd _].
  unfold last_unresolved. destruct (rp_pending_effect r) as [id|] eqn:Hp.
  - destruct (pending_recorded _ _ _ Hf Hp) as (i & -> & <- & Hs & Hc & Hq & He). simpl.
    assert (existsb (is_result (in_call_id i)) records = false) as ->.
    { apply not_true_iff_false. rewrite resolved_in. intros Hin. rewrite Hi in Hnd. apply NoDup_app in Hnd as (_ & Hd & _).
      apply (Hd _ Hin). simpl. by constructor. }
    split_and!; try done. unfold execution_started. by rewrite Hq, He.
  - destruct (rfind_map intent_of records) as [i|] eqn:E; [|done]. simpl. apply intent_listed in E. rewrite Hi, app_nil_r in E.
    by rewrite (proj2 (resolved_in _ _) E).
Qed.
End facts.

(** ** Budgets *)
Section budgets.
(** The next run pays for the previous one: what it inherits counts every
    token, turn, call and retry of the journal, the reservation of an attempt
    that was cut off included, and the engine accepts it. *)
Theorem inherited_budget_is_paid {FT : FloatText} {JT : JsonText} {SH : Sha256} {PE : Peers} {J} {JO : Journal J} spent (e : engine (J := J)) :
  budget_typed spent → e_started e = None →
  let b := inherited_budget spent in
  tokens b = tokens spent ∧ b_model_turns b = b_model_turns spent ∧ b_tool_calls b = b_tool_calls spent
  ∧ b_retries b = b_retries spent ∧ budget_typed b ∧ inherit_budget b e = Ok (e <| e_budget := b |>).
Proof.
  intros [] He b. unfold u64 in *. split_and!; try done.
  - unfold tokens, b, inherited_budget, saturating_add. simpl. lia.
  - split; simpl; unfold u64, saturating_add in *; lia.
  - unfold inherit_budget. by rewrite He.
Qed.
End budgets.

(** ** The pending call *)
Section pending.
Context {HO : Host} {UC : Uppercase} {FT : FloatText} {JT : JsonText} {SH : Sha256}.

(** The call that replay has pending, and whether it may have run. *)
Definition found (r : Replay) (p : Pending) : Prop :=
  rp_pending_effect r = Some (pe_call_id p)
  ∧ (∃ call, head (rp_calls r) = Some call ∧ pe_name p = tc_name call ∧ pe_arguments p = tc_arguments call)
  ∧ pe_execution_started p = negb (rp_pending_requires_start r) || rp_effect_started r
  ∧ (pe_execution_started p = false → pe_outcome p = OutcomeFailed Interrupted).
Lemma pending_found records r w h o h' :
  from_records records = Ok r → budgets_typed records → pending records w h = (ROk o, h') →
  match o with Some p => found r p | None => rp_pending_effect r = None end.
Proof.
  intros Hf Ht H. pose proof (last_unresolved_pending _ _ Hf Ht) as Hp. unfold pending in H.
  destruct (last_unresolved records) as [i|]; [|unfold mret, eff_ret in H; by simplify_eq]. destruct Hp as (Hp & Hc & He).
  destruct (execution_started records i) eqn:Es; simpl in H.
  - apply eff_bind_ROk in H as ([outcome description] & h1 & _ & H). unfold mret, eff_ret in H. simplify_eq.
    split_and!; simpl; try done. by eexists.
  - unfold mret, eff_ret in H. simplify_eq. split_and!; simpl; try done. by eexists.
Qed.
(** C31. After a crash, the call that recovery reconciles is exactly the one
    replay has pending: with the recorded name and arguments, taken as started
    unless the journal proves that it was not, and a call that had not started
    is settled as interrupted, without an effect. *)
Theorem pending_call_is_the_replayed_one records r w h o h' :
  from_records records = Ok r → budgets_typed records → pending records w h = (ROk o, h') →
  (pe_call_id <$> o = rp_pending_effect r) ∧ ∀ p, o = Some p → found r p.
Proof.
  intros Hf Ht H. pose proof (pending_found _ _ _ _ _ _ Hf Ht H) as Hp. destruct o as [p|]; [|done].
  split; [|by intros ? [= <-]]. by destruct Hp as [-> _].
Qed.

(** The files, read one after the other from the host [h] on, all have the
    digests that were planned for them. *)
Fixpoint planned_digests_found (w : Workspace) (files : list PlannedFile) (h h' : host_state) : Prop :=
  match files with
  | [] => h' = h
  | f :: files => ∃ h1, current_digest w (pf_path f) h = (ROk (pf_after_digest f), h1) ∧ planned_digests_found w files h1 h'
  end.
Lemma patch_loop_after w files before after h h' :
  patch_loop w files before after h = (ROk PatchAfter, h') →
  after = true ∧ planned_digests_found w files h h'.
Proof.
  revert before after h. induction files as [|f files IH]; intros before after h H; simpl in H.
  { unfold mret, eff_ret in H. destruct after; [by simplify_eq|]. by destruct before. }
  unfold attempt, mbind, eff_bind in H. destruct (current_digest w (pf_path f) h) as [[current|[]] h1] eqn:E; try done.
  apply IH in H as [[-> Hd%bool_decide_eq_true]%andb_true_iff Hfs]. split; [done|]. simpl.
  exists h1. by rewrite E, Hd.
Qed.
(** An interrupted patch is taken for done only when every file it planned
    was read, on the host recovery runs on, with the digest the plan recorded
    for it, and a patch without a plan never is. *)
Theorem patch_certified_by_digests records w h p value h' :
  pending records w h = (ROk (Some p), h') → pe_outcome p = Success value →
  pe_name p = "apply_patch" ∧ ∃ i files, last_unresolved records = Some i ∧ in_plan i = Some (EffectPatch files) ∧ files ≠ []
  ∧ planned_digests_found w files h h'.
Proof.
  intros H Hs. unfold pending in H. destruct (last_unresolved records) as [i|]; [|unfold mret, eff_ret in H; by simplify_eq].
  destruct (execution_started records i); simpl in H; [|unfold mret, eff_ret in H; by simplify_eq].
  assert (∀ name value, (interrupted_call name).1 ≠ Success value) as Hni.
  { intros name v. unfold interrupted_call. by repeat case_match. }
  apply eff_bind_ROk in H as ([outcome description] & h1 & Hm & H). unfold mret, eff_ret in H. simplify_eq. simpl in *. subst outcome.
  destruct (in_plan i) as [[files]|] eqn:Ep.
  - destruct (String.eqb_spec (tc_name (in_call i)) "apply_patch") as [->|].
    + split; [done|]. exists i, files. apply eff_bind_ROk in Hm as (s & h2 & Hl & Hm). unfold mret, eff_ret in Hm.
      destruct s; [done| |done]. simplify_eq. unfold patch_state in Hl. destruct files as [|f files]; [done|]. split_and!; [done|done|done|].
      by apply patch_loop_after in Hl as [_ ?].
    + unfold mret, eff_ret in Hm. injection Hm as E _. by destruct (Hni (tc_name (in_call i)) value); rewrite E.
  - unfold mret, eff_ret in Hm. injection Hm as E _. by destruct (Hni (tc_name (in_call i)) value); rewrite E.
Qed.
End pending.

(** ** Settling *)
Section settling.
Context {HO : Host} {UC : Uppercase} {FT : FloatText} {JT : JsonText} {SH : Sha256} {DV : Device}.

Lemma found_with r p outcome : found r p → pe_execution_started p = true → found r (p <| pe_outcome := outcome |>).
Proof. intros (? & ? & ? & _) Hs. split_and!; try done. simpl. by rewrite Hs. Qed.
Lemma reconcile_keeps r o task_id p p' d submitted delivered :
  found r p → reconcile_pending o task_id p = (p', d, submitted, delivered) →
  found r p' ∧ (submitted = true → ∀ call, head (rp_calls r) = Some call → confirms_submit call (pe_outcome p') = true).
Proof.
  intros Hf H. unfold reconcile_pending in H. destruct (pe_execution_started p) eqn:Es; [|rewrite andb_false_r, Es in H; simpl in H; simplify_eq; by split].
  destruct (String.eqb_spec (pe_name p) "submit") as [En|En]; simpl in H.
  - assert (∃ outcome sub, reconcile_submit o task_id p = (p <| pe_outcome := outcome |>, (reconcile_submit o task_id p).1.2, sub)
      ∧ (sub = true → outcome = Success (object [("status", JStr "submitted"); ("task_state", JStr "reviewing"); ("task_id", JStr task_id)])))
      as (outcome & sub & E & Ho) by (unfold reconcile_submit; repeat case_match; by do 2 eexists).
    rewrite E in H. pose proof (found_with r p outcome Hf Es) as Hf'. destruct p as [id name args started out desc]. simpl in *. subst. simpl in H. simplify_eq.
    split; [done|]. intros Hs call Hc.
    rewrite (Ho Hs). destruct Hf as (_ & (call' & Hc' & Hn & _) & _). rewrite Hc in Hc'. injection Hc' as <-. unfold confirms_submit. by rewrite <- Hn.
  - rewrite Es in H. unfold reconcile_answer in H. repeat case_match; simplify_eq; split; try done; by apply (found_with r p).
Qed.

Lemma apply_accepted r session event b r2 :
  running r → rp_end r = None → rp_session_id r = session → check_budget (rp_budget r) b event = Ok tt →
  apply_event r (rp_budget r) b event = Ok r2 →
  apply r (next_record session (rp_sequence r) event b) = Ok (r2 <| rp_budget := b |> <| rp_sequence := rp_sequence r + 1 |>).
Proof.
  intros Hr He Hs Hb Ha. unfold apply, next_record, open_session. simpl. rewrite He. rewrite check_run by apply Z.eqb_refl.
  rewrite check_run by done. destruct (Z.eqb_spec (rp_sequence r) 0) as [E|]; [pose proof (rn_sequence _ Hr); lia|]. simpl.
  rewrite check_run by (rewrite Hs; apply String.eqb_refl). by rewrite Hb, Ha.
Qed.
Lemma first_started first rest r :
  from_records (first :: rest) = Ok r → ∃ limits, started_limits (first :: rest) = Some limits.
Proof.
  intros H. unfold from_records in H. simpl in H. ok_inv. destruct (apply_first _ _ ltac:(done)) as [Hs _].
  destruct first as [v i n b ev]. simpl in *. destruct ev; try done. by eexists.
Qed.
(** A record that replay accepts was refused by the storage. *)
Definition starved (j' : FileJournal) : Prop := ∃ event budget j err,
  append_record event budget j = (Err err, j')
  ∧ is_ok (apply (fj_state j) (next_record (fj_session j) (rp_sequence (fj_state j)) event budget)) = true.
Lemma unchanged_budget b event : plain_event event = true → check_budget b b event = Ok tt.
Proof. intros H. pose proof (check_plain b (b_elapsed_ms b) (b_no_progress b) event H ltac:(lia)) as E. by destruct b. Qed.
Lemma journal_session j records last :
  journal_ok j records last → records ≠ [] → running (fj_state j) ∧ rp_session_id (fj_state j) = fj_session j.
Proof.
  intros K Hn. split.
  - destruct (from_records_ok _ _ (jo_state _ _ _ K)) as [E|]; [|done]. pose proof (jo_state _ _ _ K) as H. rewrite E in H.
    by apply from_records_nil in H.
  - eapply from_records_session; [apply K| |done]. eapply Forall_impl; [apply K|]. by intros ? [? _].
Qed.
(** What settling leaves as it was. *)
Definition kept (r r' : Replay) : Prop :=
  rp_messages r `prefix_of` rp_messages r' ∧ tokens (rp_budget r') = tokens (rp_budget r)
  ∧ rp_unknown_effects r `prefix_of` rp_unknown_effects r'.
Lemma kept_refl r r' :
  rp_messages r' = rp_messages r → tokens (rp_budget r') = tokens (rp_budget r) → rp_unknown_effects r' = rp_unknown_effects r → kept r r'.
Proof. intros E1 E2 E3. unfold kept. by rewrite E1, E3. Qed.
Lemma kept_trans a b c : kept a b → kept b c → kept a c.
Proof. intros (? & ? & ?) (? & ? & ?). split_and!; [by etrans|congruence|by etrans]. Qed.
Lemma seal_settles reason records j answer j' :
  journal_ok j records None → records ≠ [] →
  (rp_end (fj_state j) = None → apply_ended (fj_state j) reason = Ok ((fj_state j) <| rp_end := Some reason |>)) →
  seal_with reason records j = (answer, j') →
  match answer with
  | Ok records' => journal_ok j' records' None ∧ rp_end (fj_state j') = Some (default reason (rp_end (fj_state j)))
      ∧ rp_pending_effect (fj_state j') = rp_pending_effect (fj_state j) ∧ kept (fj_state j) (fj_state j')
      ∧ ∃ more, records' = records ++ more ∧ (length more ≤ 1)%nat ∧ (rp_end (fj_state j) ≠ None → more = [])
  | Err _ => starved j'
  end.
Proof.
  intros K Hn Ha H. destruct (journal_session _ _ _ K Hn) as [Hr Hses]. unfold seal_with in H.
  destruct (rp_end (fj_state j)) as [reason'|] eqn:Ee.
  { simplify_eq. split_and!; [done..|by apply kept_refl|]. exists []. split_and!; [by rewrite app_nil_r|simpl; lia|done]. }
  destruct records as [|first rest]; [done|]. destruct (first_started _ _ _ (jo_state _ _ _ K)) as [limits El]. rewrite El in H.
  set (b := (rp_budget (fj_state j)) <| b_elapsed_ms := Z.max (b_elapsed_ms (rp_budget (fj_state j))) (l_elapsed_ms limits) |>) in *.
  assert (check_budget (rp_budget (fj_state j)) b (Ended reason) = Ok tt) as Hb.
  { apply (check_plain _ (Z.max (b_elapsed_ms (rp_budget (fj_state j))) (l_elapsed_ms limits)) (b_no_progress (rp_budget (fj_state j)))); [done|lia]. }
  pose proof (apply_accepted _ _ (Ended reason) b _ Hr Ee Hses Hb (Ha eq_refl)) as Hap.
  destruct (append_record (Ended reason) b j) as [[record|err] j1] eqn:E; simplify_eq.
  - apply (append_record_ok _ _ _ _ _ _ K) in E as (_ & _ & -> & Hok & K' & _).
    assert (fj_state j' = (fj_state j) <| rp_end := Some reason |> <| rp_budget := b |> <| rp_sequence := rp_sequence (fj_state j) + 1 |>) as ->.
    { unfold next_record in Hap. rewrite Hap in Hok. by simplify_eq. }
    split_and!; try done. eexists. by split_and!.
  - exists (Ended reason), b, j, err. split; [done|]. by rewrite Hap.
Qed.
Lemma interrupted_end r : apply_ended r (EndLimit LElapsed) = Ok (r <| rp_end := Some (EndLimit LElapsed) |>).
Proof. unfold apply_ended. by rewrite !bool_decide_eq_false_2 by naive_solver. Qed.
Lemma submitted_end r :
  rp_submitted r = true → rp_pending_effect r = None → rp_model_active r = false →
  apply_ended r EndSubmitted = Ok (r <| rp_end := Some EndSubmitted |>).
Proof.
  intros Hs Hp Hm. unfold apply_ended. rewrite Hs, Hp, Hm. by repeat (rewrite bool_decide_eq_false_2 by naive_solver).
Qed.
(** Replay accepts the outcome of the call that was found. *)
Lemma result_accepted r p :
  running r → found r p →
  ∃ call r2, head (rp_calls r) = Some call ∧ apply_tool_result r (pe_call_id p) (pe_outcome p) = Ok r2 ∧ rp_pending_effect r2 = None
  ∧ rp_model_active r2 = false ∧ rp_submitted r2 = confirms_submit call (pe_outcome p) ∧ rp_end r2 = rp_end r ∧ rp_session_id r2 = rp_session_id r
  ∧ rp_messages r `prefix_of` rp_messages r2 ∧ rp_unknown_effects r `prefix_of` rp_unknown_effects r2.
Proof.
  intros Hr (Hp & (call & Hc & _) & Hs & Ho). unfold apply_tool_result. rewrite Hp, bool_decide_eq_true_2 by done.
  rewrite (check_run (negb _ || _ || _)).
  2: { destruct (pe_execution_started p); [by rewrite <- Hs|]. by rewrite (Ho eq_refl), orb_true_r. }
  destruct (rp_calls r) as [|c calls] eqn:Ec; [done|]. injection Hc as ->. simpl. eexists call, _. split_and!; [done|done|done| |done..| |].
  - simpl. destruct (rp_model_active r) eqn:Em; [|done]. destruct (rn_active _ Hr Em). congruence.
  - simpl. by eexists.
  - simpl. destruct (outcome_unknown _); [by eexists|done].
Qed.
Lemma append_result p j records answer j' :
  journal_ok j records None → records ≠ [] → found (fj_state j) p → rp_end (fj_state j) = None →
  append_record (ToolResult (pe_call_id p) (pe_outcome p)) (rp_budget (fj_state j)) j = (answer, j') →
  match answer with
  | Ok record => journal_ok j' (records ++ [record]) None ∧ rp_end (fj_state j') = None ∧ rp_pending_effect (fj_state j') = None
      ∧ rp_model_active (fj_state j') = false ∧ kept (fj_state j) (fj_state j')
      ∧ ∀ call, head (rp_calls (fj_state j)) = Some call → rp_submitted (fj_state j') = confirms_submit call (pe_outcome p)
  | Err _ => starved j'
  end.
Proof.
  intros K Hn Hf He H. destruct (journal_session _ _ _ K Hn) as [Hr Hses].
  destruct (result_accepted _ _ Hr Hf) as (call & r2 & Hc & Ha & Hp2 & Hm2 & Hs2 & He2 & _ & Hmsg & Hunk).
  pose proof (apply_accepted _ _ (ToolResult (pe_call_id p) (pe_outcome p)) (rp_budget (fj_state j)) r2 Hr He Hses ltac:(by apply unchanged_budget) Ha) as Hap.
  destruct answer as [record|err].
  - apply (append_record_ok _ _ _ _ _ _ K) in H as (_ & _ & -> & Hok & K' & _). unfold next_record in Hap. rewrite Hap in Hok.
    injection Hok as <-. simpl. split_and!; try done; [congruence|]. intros call' Hc'. simpl. congruence.
  - do 4 eexists. split; [exact H|]. by rewrite Hap.
Qed.
End settling.

(** ** Commands *)
Section commands.
Context {FT : FloatText} {JT : JsonText} {SH : Sha256} {DV : Device}.

Lemma strip_suffix_Some suffix s id : strip_suffix suffix s = Some id → s = id +:+ suffix.
Proof.
  revert id. induction s as [|c s IH]; intros id H; [destruct suffix; simpl in H; by simplify_eq|]. cbn [strip_suffix] in H.
  destruct (String.eqb_spec (String c s) suffix) as [E|]; [by simplify_eq|].
  apply fmap_Some in H as (t & Ht & ->). rewrite app_cons. f_equal. by apply IH.
Qed.
(** A command that ended, with its output on disk. *)
Definition command_ended (entries : list spool_file) (session_id id : string) : Prop := ∃ bytes state,
  (Some (id +:+ ".json"), Some bytes) ∈ entries ∧ json_parse bytes ≫= de_snapshot = Some state
  ∧ reconciled session_id id state = true
  ∧ spool_len entries (id +:+ "-stdout") = Some (or_bytes (cs_stdout state))
  ∧ spool_len entries (id +:+ "-stderr") = Some (or_bytes (cs_stderr state)).
Lemma scan_spool_states count session_id entries sp sp' :
  scan_spool count session_id entries sp = Ok (ROk sp') →
  ∀ id state, sp_states sp' !! id = Some state → sp_states sp !! id = Some state
    ∨ ∃ bytes, (Some (id +:+ ".json"), Some bytes) ∈ entries ∧ json_parse bytes ≫= de_snapshot = Some state ∧ reconciled session_id id state = true.
Proof.
  revert count sp. induction entries as [|[name bytes] entries IH]; intros count sp H id state Hs; simpl in H.
  { simplify_eq. by left. }
  ok_inv. destruct bytes as [bytes|]; [|done]. destruct name as [name|]; [|done].
  assert (∀ count sp1, scan_spool count session_id entries sp1 = Ok (ROk sp') → sp_states sp1 = sp_states sp →
    sp_states sp !! id = Some state ∨ ∃ bytes0, (Some (id +:+ ".json"), Some bytes0) ∈ (Some name, Some bytes) :: entries
      ∧ json_parse bytes0 ≫= de_snapshot = Some state ∧ reconciled session_id id state = true) as Hskip.
  { intros c sp1 H1 E. destruct (IH _ _ H1 id state Hs) as [?|(b & ? & ?)]; [left; by rewrite <- E|right]. exists b. split; [by constructor|done]. }
  destruct (strip_suffix "-stdout" name); [by eapply Hskip|]. destruct (strip_suffix "-stderr" name); [by eapply Hskip|].
  destruct (strip_suffix ".json" name) as [id'|] eqn:Ej; [|done]. destruct (_ <? _); [done|].
  destruct (json_parse bytes ≫= de_snapshot) as [state'|] eqn:Ep; [|done]. destruct (reconciled session_id id' state') eqn:Er; [|done].
  apply strip_suffix_Some in Ej as ->. destruct (IH _ _ H id state Hs) as [Hl|(b & ? & ?)].
  - simpl in Hl. apply lookup_insert_Some in Hl as [[-> ->]|[_ ?]]; [|by left]. right. exists bytes. split; [by constructor|done].
  - right. exists b. split; [by constructor|done].
Qed.
Lemma outputs_agree entries states :
  outputs_differ entries states = Ok false →
  Forall (λ x, spool_len entries (x.1 +:+ "-stdout") = Some (or_bytes (cs_stdout x.2))
             ∧ spool_len entries (x.1 +:+ "-stderr") = Some (or_bytes (cs_stderr x.2))) states.
Proof.
  induction states as [|[id state] states IH]; intros H; simpl in H; [constructor|].
  destruct (spool_len entries (id +:+ "-stdout")) as [out|] eqn:Eo; [|done]. destruct (spool_len entries (id +:+ "-stderr")) as [err|] eqn:Ee; [|done].
  destruct (_ || _) eqn:E; [done|]. apply orb_false_iff in E as [E1%negb_false_iff%Z.eqb_eq E2%negb_false_iff%Z.eqb_eq].
  constructor; [|by apply IH]. simpl. split; congruence.
Qed.
Lemma resolved_commands commands session_id expected :
  unresolved_commands commands session_id expected = Ok false →
  ∀ id, id ∈ expected → ∃ entries, commands = Some entries ∧ command_ended entries session_id id.
Proof.
  intros H id Hid. unfold unresolved_commands in H. destruct commands as [entries|].
  - exists entries. split; [done|]. ok_inv. match goal with H : match ?x with _ => _ end = _ |- _ => destruct x as [sp|]; [|done] end.
    destruct (_ || _ || _) eqn:E; [done|]. apply orb_false_iff in E as [_ E%negb_false_iff%bool_decide_eq_true].
    apply E, elem_of_dom in Hid as [state Hs]. pose proof (outputs_agree _ _ H) as Ho. rewrite Forall_forall in Ho.
    specialize (Ho (id, state) ltac:(by apply elem_of_map_to_list)).
    match goal with H : scan_spool _ _ _ _ = _ |- _ => destruct (scan_spool_states _ _ _ _ _ H id state Hs) as [Hl|(bytes & ? & ? & ?)] end.
    + simpl in Hl. by rewrite lookup_empty in Hl.
    + exists bytes, state. split_and!; try done; apply Ho.
  - simplify_eq. by apply negb_false_iff, bool_decide_eq_true in H as ->.
Qed.
Lemma recorded_loop_grows calls records processes all :
  recorded_loop calls records processes = Some all →
  processes ⊆ all ∧ ∀ record id value, record ∈ records → rec_event record = ToolResult id (Success value) → id ∈ calls →
    ∃ process, process_of value = Some process ∧ process ∈ all.
Proof.
  revert processes. induction records as [|x records IH]; intros processes H; simpl in H.
  { simplify_eq. split; [done|]. by intros ? ? ? ?%not_elem_of_nil. }
  assert (recorded_loop calls records processes = Some all →
    (∀ id value, rec_event x = ToolResult id (Success value) → id ∈ calls → ∃ process, process_of value = Some process ∧ process ∈ all) →
    processes ⊆ all ∧ ∀ record id value, record ∈ x :: records → rec_event record = ToolResult id (Success value) → id ∈ calls →
    ∃ process, process_of value = Some process ∧ process ∈ all) as Hskip.
  { intros [Hs Hr]%IH Hx. split; [done|]. intros record id value [->|Hin]%elem_of_cons; [apply Hx|by apply Hr]. }
  destruct (rec_event x) eqn:Ev; try (apply Hskip; [done|intros ? ? [=]]).
  destruct outcome as [value| |]; try (apply Hskip; [done|intros ? ? [=]]).
  destruct (decide (call_id ∈ calls)) as [Hc|Hc]; [|apply Hskip; [done|by intros ? ? [= <- <-] ?]].
  apply bind_Some in H as (process & Hp & [Hs Hr]%IH). split; [set_solver|]. intros record id v [->|Hin]%elem_of_cons; [|by apply Hr].
  rewrite Ev. intros [= <- <-] _. exists process. split; [done|set_solver].
Qed.
End commands.
