(* ===== verification/Conversation.v ===== *)
(** The conversation that the frontend shows:
    [src/src/nano/conversation/projection.rs] and the reader of
    [src/src/nano/conversation.rs], which follows a journal that another
    process writes.

    The pretty printer of JSON and the reader of the first value of a text are
    those of [serde_json], the class [JsonView].

    The conversation view: its text is safe for a terminal, its size is
    bounded, and the reader follows the journal record by record. *)
From S2P Require Import Prelude Transact Wire Text Patch FileTools AgentData AgentWire AgentWireFacts Compaction Replay ReplayTheorems Engine JournalFile JournalTheorems.
#[local] Open Scope list_scope.

Class JsonView := {
  (** [serde_json::to_string_pretty] *)
  json_pretty : json → string;
  (** [Deserializer::from_str(_).into_iter::<Value>().next()] *)
  json_first : string → option json }.

(** ** Text for a terminal *)
Definition DISPLAY_BYTES : Z := 8 * 1024 * 1024.
Definition ENTRY_BYTES : Z := 512 * 1024.
Definition ENTRIES : nat := 2048.
Definition TRUNCATED : text := newline :: lit "[display truncated; full content is in the journal]".
(** [char::is_control]: U+0000 to U+001F and U+007F to U+009F *)
Definition is_control (ch : text) : bool :=
  match ch with
  | [c] => (byte c <? 32) || (byte c =? 127)
  | [a; b] => (byte a =? 194) && (byte b <? 160)
  | _ => false
  end.
Definition shown_char (ch : text) : text :=
  if decide (ch = ["009"%char]) then [" "%char]
  else if is_control ch && negb (bool_decide (ch = [newline])) then ["?"%char]
  else ch.
Fixpoint show_chars (cap : Z) (cs : list text) (result : text) : text :=
  match cs with
  | [] => result
  | ch :: cs =>
    let ch := shown_char ch in
    if cap <? len result + len ch then result else show_chars cap cs (result ++ ch)
  end.
Definition display_text (s : text) (cap : Z) : text :=
  let truncated := cap <? len s in
  let content_cap := if truncated then saturating_sub cap (len TRUNCATED) else cap in
  let result := show_chars content_cap (chars s) [] in
  if truncated then result ++ take (Z.to_nat (Z.min (len TRUNCATED) (saturating_sub cap (len result)))) TRUNCATED
  else result.

(** ** The projection *)
Record Snapshot : Type := mk_view {
  sn_run_id : string;
  sn_task_id : string;
  sn_sequence : Z;
  sn_entries : list string;
  sn_omitted_entries : Z;
  sn_status : string;
  sn_budget : Budget;
  sn_ended : bool;
  sn_end_reason : option EndReason;
  sn_turn : Z;
  sn_accepted_inputs : list string }.
#[global] Instance Snapshot_eta : Eta Snapshot := λ s,
  mk_view (sn_run_id s) (sn_task_id s) (sn_sequence s) (sn_entries s) (sn_omitted_entries s) (sn_status s) (sn_budget s)
    (sn_ended s) (sn_end_reason s) (sn_turn s) (sn_accepted_inputs s).
(** [Snapshot::default] *)
Definition default_snapshot : Snapshot := mk_view "" "" 0 [] 0 "" default_budget false None 0 [].

Definition entry_bytes (entries : list string) : Z := foldr (λ e n, slen e + n) 0 entries.
Definition crowded (entries : list string) : bool :=
  Nat.ltb ENTRIES (length entries) || (DISPLAY_BYTES <? entry_bytes entries).
(** Drops the oldest entries while there are too many. *)
Fixpoint thin (entries : list string) (omitted : Z) : list string * Z :=
  match entries with
  | [] => ([], omitted)
  | _ :: rest => if crowded entries then thin rest (saturating_add omitted 1) else (entries, omitted)
  end.
Definition push (label message : string) (s : Snapshot) : Snapshot :=
  let '(entries, omitted) :=
    thin (sn_entries s ++ [label +:+ ": " +:+ str (display_text (lit message) ENTRY_BYTES)]) (sn_omitted_entries s) in
  s <| sn_entries := entries |> <| sn_omitted_entries := omitted |>.

(** [{:?}] of the enumerations *)
Definition debug_kind (k : ProviderErrorKind) : string :=
  match k with
  | KTransport => "Transport" | KTimeout => "Timeout" | KRateLimited => "RateLimited" | KAuthentication => "Authentication"
  | KContextOverflow => "ContextOverflow" | KTruncatedStream => "TruncatedStream" | KProtocol => "Protocol"
  | KUnsupported => "Unsupported" | KResponseLimit => "ResponseLimit"
  end.
Definition debug_error (o : option ProviderErrorKind) : string :=
  match o with Some k => "Some(" +:+ debug_kind k +:+ ")" | None => "None" end.
Definition debug_limit (k : LimitKind) : string :=
  match k with
  | LModelTurns => "ModelTurns" | LTokens => "Tokens" | LToolCalls => "ToolCalls" | LRetries => "Retries"
  | LNoProgress => "NoProgress" | LElapsed => "Elapsed" | LContextBytes => "ContextBytes" | LContextTokens => "ContextTokens"
  | LResponseBytes => "ResponseBytes" | LToolOutputBytes => "ToolOutputBytes"
  end.
Definition debug_end (r : EndReason) : string :=
  match r with
  | ModelFinished => "ModelFinished" | DefinitionCompleted => "DefinitionCompleted" | ReviewCompleted => "ReviewCompleted"
  | ConsultationResponded => "ConsultationResponded" | EndSubmitted => "Submitted" | TaskFailed => "TaskFailed"
  | EndPaused => "Paused" | AuthorityLost => "AuthorityLost" | EndCancelled => "Cancelled"
  | EndLimit k => "Limit(" +:+ debug_limit k +:+ ")" | ProviderFailed => "ProviderFailed" | ProviderProtocol => "ProviderProtocol"
  | ProviderTruncated => "ProviderTruncated" | JournalFailed => "JournalFailed" | EffectUnknown => "EffectUnknown"
  end.

Section projection.
Context {JT : JsonText} {JW : JsonView}.

(** The task in the input that an executor starts with. *)
Definition task_text (input : string) : string :=
  default input (
    initial ← json_first input;
    documents ← as_array (index "documents" initial);
    document ← head (List.filter (λ document, is_str (index "kind" document) "task") documents);
    as_str (index "text" document)).
Definition result_text (outcome : ToolOutcome) : string :=
  let shown :=
    match outcome with
    | Success value =>
      match get "text" value with
      | Some (JStr s) => s
      | _ => json_pretty value
      end
    | _ => json_pretty (ser_outcome outcome)
    end in
  match outcome with
  | Success value =>
    if decide (index "truncated" value = JBool true)
    then shown +:+ newline_str +:+ "[tool output truncated; read the next page for more]" else shown
  | _ => shown
  end.
Definition keep_last (n : nat) (l : list string) : list string := drop (length l - n) l.
Definition apply_record (record : SessionRecord) (s : Snapshot) : Snapshot :=
  let s := s <| sn_sequence := rec_sequence record |> <| sn_budget := rec_budget record |> in
  match rec_event record with
  | Started identity _ input _ _ _ _ =>
    let s := s <| sn_run_id := id_session identity |> <| sn_task_id := default "" (id_task identity) |>
               <| sn_status := "Starting" |> in
    if none (id_task identity) then push "Session" "Direct workspace conversation. Type a request to begin." s
    else push "Task" (task_text input) s
  | UserInput message input_id =>
    let inputs := match input_id with Some id => sn_accepted_inputs s ++ [id] | None => sn_accepted_inputs s end in
    push "You" message (s <| sn_accepted_inputs := keep_last 32 inputs |>)
  | InputRequested => s <| sn_status := "Waiting for your input" |>
  | ModelStarted turn =>
    s <| sn_turn := turn |> <| sn_status := "Generating response (turn " +:+ display_u32 turn +:+ ")" |>
  | ModelCompleted response _ =>
    let s := if is_empty (rs_text response) then s else push "Nano" (rs_text response) s in
    s <| sn_status := "Processing response" |>
  | ModelFailed _ _ error _ => push "Provider" (debug_error error) s
  | ToolIntent _ call _ _ =>
    let s := s <| sn_status := "Tool: " +:+ str (display_text (lit (tc_name call)) 128) |> in
    if String.eqb (tc_name call) "archive_spec" then push "Action" "Archive specification; awaiting your confirmation" s
    else if String.eqb (tc_name call) "create_spec" then push "Action" "Save specification; awaiting your confirmation" s
    else if String.eqb (tc_name call) "enqueue_task" then push "Action" "Queue task; awaiting your confirmation" s
    else push "Tool" (tc_name call +:+ " " +:+ tc_arguments call) s
  | ToolResult _ outcome => push "Result" (result_text outcome) s
  | Ended reason =>
    let status := "Ended: " +:+ debug_end reason in
    push "Session" status (s <| sn_ended := true |> <| sn_end_reason := Some reason |> <| sn_status := status |>)
  | _ => s
  end.

(** ** The reader *)
Context {FT : FloatText} {SH : Sha256}.
Record Reader : Type := mk_reader {
  rd_expected_run : string;
  rd_offset : Z;
  rd_replay : Replay;
  rd_snapshot : Snapshot }.
(** [Reader::new] *)
Definition reader_new (run_id : string) : Reader := mk_reader run_id 0 default_replay default_snapshot.
Fixpoint sdrop (n : nat) (s : string) : string :=
  match n, s with
  | O, _ => s
  | S _, "" => ""
  | S n, String _ s => sdrop n s
  end.
(** The loop of [poll]: at most [rounds] lines from [rest]. *)
Fixpoint poll_lines (rounds : nat) (rest : string) (r : Reader) : result unit * Reader :=
  match rounds with
  | O => (Ok tt, r)
  | S rounds =>
    let q := default_quotas in
    let '(line, rest) := read_until (record_bytes q + 1) rest in
    if record_bytes q <? slen line then (Err (Bail "Conversation record exceeds its limit" []), r) else
    if negb (ends_line line) then (Ok tt, r) else
    match parse_record line with
    | None => (Err (Bail "invalid record" []), r)
    | Some record =>
      if negb (String.eqb (rec_session record) (rd_expected_run r)) then (Err (Bail "Conversation session mismatch" []), r) else
      match apply (rd_replay r) record with
      | Err error => (Err error, r)
      | Ok state =>
        poll_lines rounds rest
          (mk_reader (rd_expected_run r) (rd_offset r + slen line) state (apply_record record (rd_snapshot r)))
      end
    end
  end.
(** [poll] of a journal with these bytes; [None] when there is no file. *)
Definition poll (file : option string) (r : Reader) : result (option Snapshot) * Reader :=
  match file with
  | None => (Ok None, r)
  | Some bytes =>
    if negb ((rd_offset r <=? slen bytes) && (slen bytes <=? journal_bytes default_quotas))
    then (Err (Bail "Invalid conversation journal size" []), r) else
    match poll_lines 64 (sdrop (Z.to_nat (rd_offset r)) bytes) r with
    | (Err error, r') => (Err error, r')
    | (Ok _, r') => (Ok (if rd_offset r' =? rd_offset r then None else Some (rd_snapshot r')), r')
    end
  end.
(** [poll_persisted]; [status] is the run's status in the database. *)
Definition active_run (status : option string) : bool :=
  match status with
  | Some s => String.eqb s "running" || String.eqb s "checking" || String.eqb s "reviewing"
  | None => false
  end.
Definition poll_persisted (status : option string) (file : option string) (r : Reader) : result (option Snapshot) * Reader :=
  match poll file r with
  | (Ok None, r) =>
    if negb (sn_ended (rd_snapshot r)) && negb (active_run status)
    then (Err (Bail "Run {} has no complete terminal session record (status: {})" [rd_expected_run r; default "missing" status]), r)
    else (Ok None, r)
  | other => other
  end.
End projection.

(** ** Characters *)
(** One character: a first byte and its continuation bytes. *)
Definition piece (ch : text) : Prop :=
  utf8 ch = true ∧ ∃ c l, ch = c :: l ∧ continuation c = false ∧ Forall (λ b, continuation b = true) l.
(** Text that begins with a character. *)
Definition begins (t : text) : Prop := match t with [] => True | c :: _ => continuation c = false end.
Lemma chars_head c t : ∃ l ls, chars (c :: t) = (c :: l) :: ls.
Proof. simpl. destruct (chars t) as [|[|d l] ls]; [by do 2 eexists..|]. destruct (continuation d); by do 2 eexists. Qed.
Lemma chars_begin c t : begins t → chars (c :: t) = [c] :: chars t.
Proof.
  destruct t as [|d t]; [done|]. intros Hd. simpl in Hd. destruct (chars_head d t) as (l & ls & E). cbn [chars]. fold (chars (d :: t)).
  change (match chars (d :: t) with (d0 :: l0) :: ls0 => if continuation d0 then (c :: d0 :: l0) :: ls0 else [c] :: (d0 :: l0) :: ls0 | ls0 => [c] :: ls0 end = [c] :: chars (d :: t)).
  by rewrite E, Hd.
Qed.
Lemma chars_piece c l t : Forall (λ b, continuation b = true) l → begins t → chars ((c :: l) ++ t) = (c :: l) :: chars t.
Proof.
  intros Hl Ht. revert c. induction Hl as [|d l Hd Hl IH]; intros c; [by apply chars_begin|].
  change ((c :: d :: l) ++ t) with (c :: ((d :: l) ++ t)).
  change (match chars ((d :: l) ++ t) with (d0 :: l0) :: ls0 => if continuation d0 then (c :: d0 :: l0) :: ls0 else [c] :: (d0 :: l0) :: ls0 | ls0 => [c] :: ls0 end = (c :: d :: l) :: chars t).
  by rewrite IH, Hd.
Qed.
Lemma concat_begins cs : Forall piece cs → begins (concat cs).
Proof. intros H. destruct H as [|ch cs (_ & c & l & -> & Hc & _) _]; done. Qed.
Lemma chars_concat cs : Forall piece cs → chars (concat cs) = cs.
Proof.
  induction 1 as [|ch cs (_ & c & l & -> & Hc & Hl) Hcs IH]; [done|]. change (concat ((c :: l) :: cs)) with ((c :: l) ++ concat cs). rewrite chars_piece; [by rewrite IH|done|by apply concat_begins].
Qed.
Lemma utf8_begins s : utf8 s = true → begins s.
Proof. destruct s as [|c s]; [done|]. apply utf8_lead. Qed.
Lemma utf8_pieces s : utf8 s = true → Forall piece (chars s).
Proof.
  induction s as [s IH] using text_length_ind. intros H.
  assert (∀ ch r, s = ch ++ r → utf8 r = true → piece ch → Forall piece (chars s)) as Hstep.
  { intros ch r -> Hr Hp. destruct Hp as (Hu & c & l & -> & Hc & Hl). rewrite chars_piece by (done || by apply utf8_begins).
    constructor; [by split; [|exists c, l]|]. apply IH; [simpl; rewrite length_app; lia|done]. }
  destruct s as [|a s]; [by constructor|]. pose proof (utf8_lead _ _ H) as Ha. utf8_cases H.
  - apply (Hstep [a] s eq_refl H). split; [by rewrite utf8_cons_1|by exists a, []].
  - apply (Hstep [a; x] x0 eq_refl H). split; [by rewrite utf8_cons_2|]. exists a, [x]. split_and!; [done..|]. repeat constructor; byte_lia.
  - apply (Hstep [a; x; x0] x1 eq_refl H). split; [by rewrite utf8_cons_3|]. exists a, [x; x0]. split_and!; [done..|]. repeat constructor; byte_lia.
  - apply (Hstep [a; x; x0; x1] x2 eq_refl H). split; [by rewrite utf8_cons_4|]. exists a, [x; x0; x1]. split_and!; [done..|]. repeat constructor; byte_lia.
Qed.

(** ** Text for a terminal *)
Definition harmless (ch : text) : Prop := is_control ch = false ∨ ch = [newline].
Lemma shown_harmless ch : harmless (shown_char ch).
Proof.
  unfold shown_char. destruct (decide _); [by left|]. destruct (is_control ch) eqn:E; simpl; [|by left].
  destruct (bool_decide_reflect (ch = [newline])); [by right|by left].
Qed.
Lemma shown_piece ch : piece ch → piece (shown_char ch).
Proof. intros H. unfold shown_char. repeat case_match; try done; (split; [done|by eexists _, []]). Qed.
(** The characters that are shown. *)
Lemma show_chars_shown cap cs result :
  Forall piece cs → Forall piece result → Forall harmless result → len (concat result) ≤ Z.max 0 cap →
  ∃ out, show_chars cap cs (concat result) = concat out ∧ Forall piece out ∧ Forall harmless out ∧ len (concat out) ≤ Z.max 0 cap.
Proof.
  intros Hcs. revert result. induction Hcs as [|ch cs Hch Hcs IH]; intros result Hp Hh Hl; simpl; [by exists result|].
  destruct (Z.ltb_spec cap (len (concat result) + len (shown_char ch))) as [|Hfit]; [by exists result|].
  replace (concat result ++ shown_char ch) with (concat (result ++ [shown_char ch])) by (by rewrite concat_app; simpl; rewrite app_nil_r).
  apply IH.
  - apply Forall_app. split; [done|]. constructor; [by apply shown_piece|constructor].
  - apply Forall_app. split; [done|]. constructor; [apply shown_harmless|constructor].
  - rewrite concat_app, len_app. simpl. rewrite app_nil_r. lia.
Qed.
Lemma ascii_pieces s : forallb (λ c, byte c <? 128) s = true → Forall piece (map (λ c, [c]) s) ∧ concat (map (λ c, [c]) s) = s.
Proof.
  intros H. rewrite forallb_forall in H. split.
  - apply Forall_forall. intros ch (c & <- & Hc%H)%list_elem_of_In%in_map_iff. apply Z.ltb_lt in Hc. split; [by rewrite utf8_cons_1|]. exists c, []. split_and!; [done| |done].
    unfold continuation, in_range. destruct (Z.leb_spec 128 (byte c)); [lia|done].
  - clear H. induction s as [|c s IH]; [done|]. simpl. by rewrite IH.
Qed.
Lemma take_In n (c : ascii) l : In c (take n l) → In c l.
Proof. rewrite <- (take_drop n l) at 2. rewrite in_app_iff. by left. Qed.
Lemma display_pieces s cap :
  utf8 s = true → 0 ≤ cap → ∃ out, display_text s cap = concat out ∧ Forall piece out ∧ Forall harmless out ∧ len (concat out) ≤ cap.
Proof.
  intros Hu Hc. unfold display_text. set (content := if cap <? len s then saturating_sub cap (len TRUNCATED) else cap).
  destruct (show_chars_shown content (chars s) [] (utf8_pieces s Hu)) as (out & E & Hp & Hh & Hl); [done|done|unfold len; simpl; lia|].
  simpl concat in E. rewrite E. assert (len (concat out) ≤ cap) as Hle by (subst content; unfold saturating_sub in Hl; destruct (cap <? len s); pose proof (len_nonneg TRUNCATED); lia).
  destruct (cap <? len s); [|by exists out]. set (n := Z.to_nat _). destruct (ascii_pieces (take n TRUNCATED)) as [Hp2 E2].
  { apply forallb_forall. intros c Hin. pose proof (proj1 (forallb_forall (λ c, byte c <? 128) TRUNCATED) eq_refl) as H. by apply H, (take_In n). }
  exists (out ++ map (λ c, [c]) (take n TRUNCATED)). rewrite concat_app, E2. split_and!; [done|by apply Forall_app| |].
  - apply Forall_app. split; [done|]. apply Forall_forall. intros ch (c & <- & Hin)%list_elem_of_In%in_map_iff.
    pose proof (proj1 (forallb_forall (λ c, negb (is_control [c]) || Ascii.eqb c newline) TRUNCATED) eq_refl c) as H.
    specialize (H (take_In n c TRUNCATED Hin)). apply orb_true_iff in H as [H%negb_true_iff|H%Ascii.eqb_eq]; [by left|right; by rewrite H].
  - rewrite len_app. unfold len at 2. rewrite length_take. subst n. unfold saturating_sub. lia.
Qed.
(** What the frontend prints of a journal cannot take over the terminal:
    the text has at most [cap] bytes, and of the control characters it has
    only line breaks. *)
Theorem displayed_text_is_harmless s cap :
  utf8 s = true → 0 ≤ cap → len (display_text s cap) ≤ cap ∧ Forall harmless (chars (display_text s cap)).
Proof.
  intros Hu Hc. destruct (display_pieces s cap Hu Hc) as (out & -> & Hp & Hh & Hl). split; [done|]. by rewrite chars_concat.
Qed.

(** ** The projection *)
Section projection.
Context {JT : JsonText} {JW : JsonView}.

(** What a record adds to the conversation, and the inputs it accepts. *)
Definition message_of (record : SessionRecord) : option (string * string) :=
  match rec_event record with
  | Started identity _ input _ _ _ _ =>
    Some (if none (id_task identity) then ("Session", "Direct workspace conversation. Type a request to begin.")
          else ("Task", task_text input))
  | UserInput message _ => Some ("You", message)
  | ModelCompleted response _ => if is_empty (rs_text response) then None else Some ("Nano", rs_text response)
  | ModelFailed _ _ error _ => Some ("Provider", debug_error error)
  | ToolIntent _ call _ _ =>
    Some (if String.eqb (tc_name call) "archive_spec" then ("Action", "Archive specification; awaiting your confirmation")
          else if String.eqb (tc_name call) "create_spec" then ("Action", "Save specification; awaiting your confirmation")
          else if String.eqb (tc_name call) "enqueue_task" then ("Action", "Queue task; awaiting your confirmation")
          else ("Tool", tc_name call +:+ " " +:+ tc_arguments call))
  | ToolResult _ outcome => Some ("Result", result_text outcome)
  | Ended reason => Some ("Session", "Ended: " +:+ debug_end reason)
  | _ => None
  end.
Definition entry_of (record : SessionRecord) : option string :=
  (λ m, m.1 +:+ ": " +:+ str (display_text (lit m.2) ENTRY_BYTES)) <$> message_of record.
Definition input_of (record : SessionRecord) : option string :=
  match rec_event record with UserInput _ input_id => input_id | _ => None end.
Definition view_of (records : list SessionRecord) : Snapshot := foldl (λ s record, apply_record record s) default_snapshot records.

Lemma push_entries label message s :
  (sn_entries (push label message s), sn_omitted_entries (push label message s))
  = thin (sn_entries s ++ [label +:+ ": " +:+ str (display_text (lit message) ENTRY_BYTES)]) (sn_omitted_entries s).
Proof. unfold push. by destruct (thin _ _). Qed.
Lemma push_inputs label message s : sn_accepted_inputs (push label message s) = sn_accepted_inputs s.
Proof. unfold push. by destruct (thin _ _). Qed.
Lemma apply_entries record s :
  (sn_entries (apply_record record s), sn_omitted_entries (apply_record record s))
  = match entry_of record with
    | Some entry => thin (sn_entries s ++ [entry]) (sn_omitted_entries s)
    | None => (sn_entries s, sn_omitted_entries s)
    end.
Proof.
  unfold entry_of, message_of, apply_record. destruct (rec_event record); simpl; try done;
    repeat match goal with |- context [if ?b then _ else _] => destruct b end; simpl; try done; (etrans; [apply push_entries|done]).
Qed.
Lemma apply_inputs record s :
  sn_accepted_inputs (apply_record record s)
  = match rec_event record with
    | UserInput _ _ => keep_last 32 (sn_accepted_inputs s ++ option_list (input_of record))
    | _ => sn_accepted_inputs s
    end.
Proof.
  unfold input_of, apply_record. destruct (rec_event record); simpl; try done;
    repeat match goal with |- context [if ?b then _ else _] => destruct b end; simpl; rewrite ?push_inputs; try done.
  simpl. destruct input_id; simpl; by rewrite ?app_nil_r.
Qed.
Lemma thin_split entries omitted entries' omitted' :
  0 ≤ omitted ≤ usize_max → thin entries omitted = (entries', omitted') →
  crowded entries' = false
  ∧ ∃ dropped, entries = dropped ++ entries' ∧ omitted' = Z.min usize_max (omitted + Z.of_nat (length dropped)).
Proof.
  revert omitted. induction entries as [|e entries IH]; intros omitted Ho H; cbn [thin] in H.
  { simplify_eq. split; [done|]. exists []. split; [done|]. simpl. lia. }
  destruct (crowded (e :: entries)) eqn:Ec.
  - apply IH in H as (Hc & dropped & -> & ->); [|unfold saturating_add; lia]. split; [done|]. exists (e :: dropped). split; [done|].
    unfold saturating_add. simpl length. lia.
  - simplify_eq. split; [done|]. exists []. split; [done|]. simpl. lia.
Qed.
Lemma keep_last_snoc n l m : (length m ≤ n)%nat → keep_last n (keep_last n l ++ m) = keep_last n (l ++ m).
Proof.
  intros Hm. unfold keep_last. rewrite !length_app, length_drop. destruct (decide (length l ≤ n)%nat) as [Hl|Hl].
  - replace (length l - n)%nat with O by lia. by rewrite drop_0, Nat.sub_0_r.
  - rewrite !drop_app, length_drop, drop_drop. f_equal; [f_equal; lia|f_equal; lia].
Qed.
Lemma keep_last_length n l : (length (keep_last n l) ≤ n)%nat.
Proof. unfold keep_last. rewrite length_drop. lia. Qed.
(** C32. The view is bounded and honest.  However long the session, it holds at
    most 2048 entries of at most 8 MiB together and 32 accepted inputs; its
    entries are the last ones of the conversation, in order, and the number of
    those before them is what it reports as omitted. *)
Theorem view_is_the_end_of_the_conversation records :
  let s := view_of records in
  (length (sn_entries s) ≤ ENTRIES)%nat ∧ entry_bytes (sn_entries s) ≤ DISPLAY_BYTES
  ∧ (∃ dropped, omap entry_of records = dropped ++ sn_entries s ∧ sn_omitted_entries s = Z.min usize_max (Z.of_nat (length dropped)))
  ∧ sn_accepted_inputs s = keep_last 32 (omap input_of records).
Proof.
  induction records as [|record records IH] using rev_ind.
  { split_and!; [unfold ENTRIES; simpl; lia|by vm_compute|by exists []|done]. }
  unfold view_of in *. rewrite foldl_app. cbn [foldl]. cbv zeta in IH |- *. set (s := foldl _ _ records) in *.
  destruct IH as (Hn & Hb & (dropped & Hd & Ho) & Hi). rewrite !omap_app. simpl omap.
  pose proof (apply_entries record s) as He. pose proof (apply_inputs record s) as Ha.
  assert (sn_accepted_inputs (apply_record record s) = keep_last 32 (omap input_of records ++ option_list (input_of record))) as Hacc.
  { rewrite Ha, Hi. unfold input_of. destruct (rec_event record); rewrite ?app_nil_r; try done. apply keep_last_snoc. destruct input_id; simpl; lia. }
  destruct (entry_of record) as [entry|]; simpl.
  - symmetry in He. apply thin_split in He as (Hc & more & Hm & Hom).
    + unfold crowded in Hc. apply orb_false_iff in Hc as [Hc1%Nat.ltb_ge Hc2%Z.ltb_ge]. split_and!; try done.
      exists (dropped ++ more). rewrite Hd, <- (assoc_L (++)), Hm, (assoc_L (++)). split; [done|]. rewrite Hom, Ho, length_app. lia.
    + rewrite Ho. unfold usize_max. lia.
  - injection He as He1 He2. rewrite He1, He2, app_nil_r. split_and!; try done. by exists dropped.
Qed.
End projection.

(** ** The reader *)
Section reader.
Context {FT : FloatText} {exact : f64 → Prop} {FL : FloatTextLaws exact} {JT : JsonText} {JN : JsonLines} {JW : JsonView} {SH : Sha256}.

(** The reader has seen the first [k] records. *)
Record follows (r : Reader) (session_id : string) (records : list SessionRecord) (k : nat) : Prop := {
  fw_run : rd_expected_run r = session_id;
  fw_bound : (k ≤ length records)%nat;
  fw_offset : rd_offset r = slen (lines (take k records));
  fw_replay : from_records (take k records) = Ok (rd_replay r);
  fw_view : rd_snapshot r = view_of (take k records) }.
(** A record that the reader can take. *)
Definition readable (session_id : string) (record : SessionRecord) : Prop :=
  rec_session record = session_id ∧ record_typed exact record ∧ slen (json_text (ser_record record)) < record_bytes default_quotas.

Lemma sdrop_app a b : sdrop (String.length a) (a +:+ b) = b.
Proof. induction a as [|c a IH]; [by destruct b|]. done. Qed.
Lemma follows_next r session_id records k record :
  follows r session_id records k → records !! k = Some record → is_ok (from_records records) = true →
  ∃ state, apply (rd_replay r) record = Ok state
  ∧ follows (mk_reader session_id (rd_offset r + slen (next_line record)) state (apply_record record (rd_snapshot r))) session_id records (S k).
Proof.
  intros [Hr Hb Ho Hp Hv] Hk Hok. pose proof (take_S_r records k record Hk) as Ht.
  assert (∃ state, from_records (take (S k) records) = Ok state) as [state Hs].
  { destruct (from_records records) as [full|] eqn:E; [|done]. unfold from_records in *. rewrite <- (take_drop (S k) records) in E.
    clear Hok. revert E. generalize (drop (S k) records) as more. generalize (take (S k) records) as pre. intros pre more. generalize default_replay.
    induction pre as [|x pre IH]; intros r0 E; simpl in *; [by eexists|]. destruct (apply r0 x); [|done]. simpl in *. by eapply IH. }
  exists state. unfold from_records in *. rewrite Ht, replay_from_snoc, Hp in Hs. simpl in Hs. split; [done|]. apply lookup_lt_Some in Hk.
  split; simpl; [done|lia| | |].
  - by rewrite Ht, lines_snoc, slen_app, Ho.
  - unfold from_records. by rewrite Ht, replay_from_snoc, Hp.
  - rewrite Ht, Hv. unfold view_of. by rewrite foldl_app.
Qed.
Lemma poll_lines_follow rounds r session_id records k tail :
  follows r session_id records k → is_ok (from_records records) = true → Forall (readable session_id) records →
  one_line tail = true → slen tail ≤ record_bytes default_quotas →
  ∃ r', poll_lines rounds (lines (drop k records) +:+ tail) r = (Ok tt, r') ∧ follows r' session_id records (Nat.min (k + rounds) (length records)).
Proof using FL JN.
  intros Hf Hok Hr Htail Hlen. revert r k Hf. induction rounds as [|rounds IH]; intros r k Hf.
  { exists r. split; [done|]. pose proof (fw_bound _ _ _ _ Hf). by rewrite Nat.add_0_r, Nat.min_l. }
  destruct (records !! k) as [record|] eqn:Ek.
  - rewrite (drop_S _ _ _ Ek). cbn [lines foldr]. fold (lines (drop (S k) records)). rewrite string_app_assoc.
    destruct (follows_next _ _ _ _ _ Hf Ek Hok) as (state & Ha & Hf'). rewrite Forall_forall in Hr.
    destruct (Hr record ltac:(by eapply list_elem_of_lookup_2)) as (Hs & Ht & Hl).
    cbn [poll_lines]. unfold next_line at 1, line_of at 1. rewrite string_app_assoc, read_line by (apply json_text_line || lia).
    fold (line_of (json_text (ser_record record))). fold (next_line record).
    destruct (Z.ltb_spec (record_bytes default_quotas) (slen (next_line record))) as [Hx|_]; [rewrite next_line_len in Hx; lia|].
    unfold next_line at 1, line_of at 1. rewrite ends_line_snoc. cbn [negb]. rewrite (parse_next_line _ Ht).
    rewrite (fw_run _ _ _ _ Hf), Hs, String.eqb_refl. cbn [negb]. rewrite Ha.
    destruct (IH _ _ Hf') as (r' & E & Hr'). exists r'. split; [exact E|]. by replace (k + S rounds)%nat with (S k + rounds)%nat by lia.
  - apply lookup_ge_None in Ek. rewrite drop_ge by done. pose proof (fw_bound _ _ _ _ Hf) as Hb.
    exists r. split; [|by replace (Nat.min (k + S rounds) (length records)) with k by lia].
    change (lines [] +:+ tail) with tail. cbn [poll_lines]. rewrite read_torn by (done || lia).
    destruct (Z.ltb_spec (record_bytes default_quotas) (slen tail)); [lia|]. by rewrite ends_line_one.
Qed.
(** The view follows the journal.  While the writer goes on, every poll
    reads up to 64 more complete records, leaves a torn last line alone, and
    ends where the projection of all the records it has seen is; it reports
    nothing new only when it has seen every record. *)
Theorem reader_follows_the_journal r session_id records k tail :
  follows r session_id records k → is_ok (from_records records) = true → Forall (readable session_id) records →
  one_line tail = true → slen tail ≤ record_bytes default_quotas → slen (lines records +:+ tail) ≤ journal_bytes default_quotas →
  let k' := Nat.min (k + 64) (length records) in
  ∃ r', poll (Some (lines records +:+ tail)) r = (Ok (if decide (k = length records) then None else Some (view_of (take k' records))), r')
  ∧ follows r' session_id records k'.
Proof using FL JN.
  intros Hf Hok Hr Htail Hlen Hq k'. destruct (poll_lines_follow 64 r session_id records k tail Hf Hok Hr Htail Hlen) as (r' & E & Hf').
  exists r'. split; [|done]. pose proof (fw_offset _ _ _ _ Hf) as Ho. pose proof (fw_bound _ _ _ _ Hf) as Hb.
  assert (lines records +:+ tail = lines (take k records) +:+ (lines (drop k records) +:+ tail)) as Hsplit.
  { by rewrite <- string_app_assoc, <- lines_app, take_drop. }
  unfold poll. rewrite (proj2 (Z.leb_le (slen _) (journal_bytes _))) by done. rewrite andb_true_r, Hsplit, (proj2 (Z.leb_le _ _)).
  2: { rewrite slen_app, Ho. pose proof (slen_nonneg (lines (drop k records) +:+ tail)). lia. }
  cbn [negb]. rewrite Ho. unfold slen at 1. rewrite Nat2Z.id, sdrop_app, E. f_equal. f_equal. rewrite (fw_offset _ _ _ _ Hf'), (fw_view _ _ _ _ Hf').
  fold k'. destruct (decide (k = length records)) as [->|Hne].
  - subst k'. rewrite Nat.min_r by lia. by rewrite Z.eqb_refl.
  - assert (take k' records = take k records ++ take (k' - k) (drop k records)) as ->.
    { rewrite <- (take_drop k records) at 1. rewrite take_app. rewrite length_take. rewrite take_ge by (rewrite length_take; lia). f_equal. f_equal. lia. }
    rewrite lines_app, slen_app. pose proof (lines_len (take (k' - k) (drop k records))) as Hl. rewrite length_take, length_drop in Hl.
    destruct (Z.eqb_spec (slen (lines (take k records)) + slen (lines (take (k' - k) (drop k records)))) (slen (lines (take k records)))); [lia|done].
Qed.
Lemma poll_lines_long rounds record rest r :
  slen (json_text (ser_record record)) = record_bytes default_quotas →
  poll_lines (S rounds) (next_line record +:+ rest) r = (Err (Bail "Conversation record exceeds its limit" []), r).
Proof using JN.
  intros Hl. cbn [poll_lines]. unfold next_line at 1, line_of at 1. rewrite string_app_assoc, read_line by (apply json_text_line || lia).
  fold (line_of (json_text (ser_record record))). fold (next_line record).
  destruct (Z.ltb_spec (record_bytes default_quotas) (slen (next_line record))) as [_|Hx]; [done|]. rewrite next_line_len in Hx. lia.
Qed.
(** A record of the greatest length the journal stores and recovers stops
    the view: the reader allows one byte less, because it counts the line
    break against the limit of the record. *)
Theorem longest_record_stops_the_reader r session_id records k record tail :
  follows r session_id records k → records !! k = Some record →
  slen (json_text (ser_record record)) = record_bytes default_quotas → slen (lines records +:+ tail) ≤ journal_bytes default_quotas →
  (poll (Some (lines records +:+ tail)) r).1 = Err (Bail "Conversation record exceeds its limit" [])
  ∧ (rec_session record = session_id → journaled default_quotas session_id record).
Proof using JN.
  intros Hf Hk Hl Hq. split; [|by split; [|lia]]. pose proof (fw_offset _ _ _ _ Hf) as Ho.
  assert (lines records +:+ tail = lines (take k records) +:+ (lines (drop k records) +:+ tail)) as Hsplit.
  { by rewrite <- string_app_assoc, <- lines_app, take_drop. }
  unfold poll. rewrite (proj2 (Z.leb_le (slen _) (journal_bytes _))) by done. rewrite andb_true_r, Hsplit, (proj2 (Z.leb_le _ _)).
  2: { rewrite slen_app, Ho. pose proof (slen_nonneg (lines (drop k records) +:+ tail)). lia. }
  cbn [negb]. rewrite Ho. unfold slen at 1. rewrite Nat2Z.id, sdrop_app.
  rewrite (drop_S _ _ _ Hk). cbn [lines foldr]. fold (lines (drop (S k) records)). rewrite string_app_assoc.
  by rewrite (poll_lines_long 63).
Qed.
End reader.
