(* ===== verification/LineExample.v ===== *)
(** Compact JSON on one line, printed and read: a text for trees that has the
    sizes of [serde_json]'s and the round trips that journals need, so that
    the sessions of the examples run on it. *)
From S2P Require Import Prelude Transact Text Wire FileTools AgentData Compaction JournalTheorems WireExample.
#[local] Open Scope list_scope.

(** ** Strings *)
Definition dquote : ascii := "034"%char.
Definition backslash : ascii := "\"%char.
Definition shifted (c : ascii) : ascii := ascii_of_N (N_of_ascii c + 128).
(** Two characters for what is not printed as it is. *)
Definition escape_char (c : ascii) : string :=
  if Ascii.eqb c dquote || Ascii.eqb c backslash then String backslash (String c "")
  else if byte c <? 32 then String backslash (String (shifted c) "")
  else String c "".
Fixpoint escape_all (s : string) : string := match s with "" => "" | String c s => escape_char c +:+ escape_all s end.
Definition quoted_line (s : string) : string := String dquote (escape_all s +:+ String dquote "").
Definition unescape_char (d : ascii) : ascii := if byte d <? 128 then d else ascii_of_N (N_of_ascii d - 128).
Fixpoint read_string (s : string) : option (string * string) :=
  match s with
  | "" => None
  | String c s1 =>
    if Ascii.eqb c dquote then Some ("", s1)
    else if Ascii.eqb c backslash then
      match s1 with
      | String d s2 => match read_string s2 with Some (t, r) => Some (String (unescape_char d) t, r) | None => None end
      | "" => None
      end
    else match read_string s1 with Some (t, r) => Some (String c t, r) | None => None end
  end.
Lemma unescape_shifted c : byte c < 32 → unescape_char (shifted c) = c.
Proof.
  intros H. unfold unescape_char, shifted, byte in *. rewrite N_ascii_embedding by lia.
  destruct (Z.ltb_spec (Z.of_N (N_of_ascii c + 128)) 128); [lia|]. rewrite N.add_sub. apply ascii_N_embedding.
Qed.
Lemma read_escaped c s : read_string (escape_char c +:+ s) = match read_string s with Some (t, r) => Some (String c t, r) | None => None end.
Proof.
  unfold escape_char. destruct (Ascii.eqb_spec c dquote) as [->|Hq]; [done|]. destruct (Ascii.eqb_spec c backslash) as [->|Hb]; [done|]. cbn [orb].
  destruct (Z.ltb_spec (byte c) 32) as [Hc|_].
  - change (read_string (String backslash (String (shifted c) "") +:+ s))
      with (match read_string s with Some (t, r) => Some (String (unescape_char (shifted c)) t, r) | None => None end).
    by rewrite unescape_shifted.
  - change (String c "" +:+ s) with (String c s). cbn [read_string]. destruct (Ascii.eqb_spec c dquote); [done|]. by destruct (Ascii.eqb_spec c backslash).
Qed.
Lemma read_quoted s r : read_string (escape_all s +:+ String dquote r) = Some (s, r).
Proof.
  induction s as [|c s IH]; [done|]. cbn [escape_all]. rewrite string_app_assoc, read_escaped. by rewrite IH.
Qed.

(** ** Numbers *)
Fixpoint decimal (fuel : nat) (z : Z) : string :=
  match fuel with
  | O => ""
  | S fuel => (if z <? 10 then "" else decimal fuel (z / 10)) +:+ String (ascii_of_N (Z.to_N (48 + z mod 10))) ""
  end.
(** Decimal for what fits a machine word, with marks for the rest. *)
Definition numeral (z : Z) : string :=
  if (0 <=? z) && (z <? 10 ^ 20) then decimal 20 z
  else String "-" ((if z <? 0 then "-" else "") +:+ display_u32 (Z.abs z)).
Definition num_char (c : ascii) : bool := in_range 48 57 c || Ascii.eqb c "-".
Fixpoint read_numeral (s : string) : string * string :=
  match s with
  | "" => ("", "")
  | String c s1 => if num_char c then let '(t, r) := read_numeral s1 in (String c t, r) else ("", s)
  end.
Definition numeral_value (s : string) : option Z :=
  match s with
  | String c s1 =>
    if Ascii.eqb c "-" then
      match s1 with
      | String d s2 => if Ascii.eqb d "-" then Z.opp <$> parse_digits 0 s2 else parse_digits 0 s1
      | "" => Some 0
      end
    else parse_digits 0 s
  | "" => Some 0
  end.
Lemma digit_char d : 0 ≤ d < 10 → let c := ascii_of_N (Z.to_N (48 + d)) in digit_value c = Some d ∧ num_char c = true ∧ Ascii.eqb c "-" = false.
Proof.
  intros H. assert (d = 0 ∨ d = 1 ∨ d = 2 ∨ d = 3 ∨ d = 4 ∨ d = 5 ∨ d = 6 ∨ d = 7 ∨ d = 8 ∨ d = 9) as Hd by lia.
  repeat (destruct Hd as [->|Hd]; [done|]). by subst d.
Qed.
Lemma parse_decimal fuel z : 0 ≤ z < 10 ^ Z.of_nat fuel → parse_digits 0 (decimal fuel z) = Some z.
Proof.
  revert z. induction fuel as [|fuel IH]; intros z Hz; [simpl in *; f_equal; lia|]. cbn [decimal].
  rewrite Nat2Z.inj_succ, Z.pow_succ_r in Hz by lia. pose proof (Z.mod_pos_bound z 10 ltac:(lia)) as Hm. destruct (digit_char _ Hm) as (Hd & _).
  rewrite parse_digits_app. destruct (Z.ltb_spec z 10).
  - simpl. rewrite Hd. simpl. rewrite Z.mod_small by lia. f_equal; lia.
  - rewrite IH by (split; [apply Z.div_pos; lia|apply Z.div_lt_upper_bound; lia]). simpl. rewrite Hd. simpl. f_equal. pose proof (Z.div_mod z 10). lia.
Qed.
Lemma digits_are_num s a v : parse_digits a s = Some v → forallb num_char (lit s) = true.
Proof.
  revert a. induction s as [|c s IH]; intros a H; [done|]. simpl in H. apply bind_Some in H as (d & Hd & H). change (num_char c && forallb num_char (lit s) = true).
  rewrite (IH _ H), andb_true_r. unfold digit_value in Hd. unfold num_char, in_range, byte. by destruct (_ && _).
Qed.
Lemma decimal_not_minus fuel z : 0 ≤ z → match decimal fuel z with String c _ => Ascii.eqb c "-" = false | "" => True end.
Proof.
  revert z. induction fuel as [|fuel IH]; intros z Hz; [done|]. cbn [decimal]. pose proof (Z.mod_pos_bound z 10 ltac:(lia)) as Hm.
  destruct (digit_char _ Hm) as (_ & _ & Hd). destruct (z <? 10); [exact Hd|]. specialize (IH (z / 10) ltac:(apply Z.div_pos; lia)).
  destruct (decimal fuel (z / 10)); [exact Hd|exact IH].
Qed.
Lemma display_not_minus z : 0 ≤ z → match display_u32 z with String c _ => Ascii.eqb c "-" = false | "" => True end.
Proof.
  intros Hz. pose proof (parse_digits_display z Hz) as H. destruct (display_u32 z) as [|c s]; [done|]. simpl in H. apply bind_Some in H as (d & Hd & _).
  destruct (Ascii.eqb_spec c "-") as [->|]; [done|done].
Qed.
Lemma numeral_value_plain s : match s with String c _ => Ascii.eqb c "-" = false | "" => True end → numeral_value s = parse_digits 0 s.
Proof. destruct s as [|c s]; [done|]. intros H. cbn [numeral_value Ascii.eqb Bool.eqb]. by rewrite ?H. Qed.
Lemma numeral_value_minus s : match s with String c _ => Ascii.eqb c "-" = false | "" => True end → numeral_value (String "-" s) = parse_digits 0 s.
Proof. destruct s as [|c s]; [done|]. intros H. cbn [numeral_value Ascii.eqb Bool.eqb]. by rewrite ?H. Qed.
Lemma value_numeral z : numeral_value (numeral z) = Some z.
Proof.
  unfold numeral. destruct (Z.leb_spec 0 z), (Z.ltb_spec z (10 ^ 20)); cbn [andb].
  - rewrite numeral_value_plain by (by apply decimal_not_minus). by apply parse_decimal.
  - destruct (Z.ltb_spec z 0); [lia|]. change ("" +:+ display_u32 (Z.abs z)) with (display_u32 (Z.abs z)). rewrite numeral_value_minus by (apply display_not_minus; lia).
    rewrite parse_digits_display by lia. f_equal. lia.
  - destruct (Z.ltb_spec z 0); [|lia]. change ("-" +:+ display_u32 (Z.abs z)) with (String "-" (display_u32 (Z.abs z))). cbn [numeral_value].
    rewrite parse_digits_display by lia. simpl. f_equal. lia.
  - lia.
Qed.
Lemma numeral_chars z : forallb num_char (lit (numeral z)) = true.
Proof.
  unfold numeral. destruct (Z.leb_spec 0 z), (Z.ltb_spec z (10 ^ 20)); cbn [andb].
  - by eapply digits_are_num, parse_decimal.
  - destruct (Z.ltb_spec z 0); [lia|]. change (forallb num_char (lit (display_u32 (Z.abs z))) = true).
    eapply (digits_are_num _ 0), parse_digits_display. lia.
  - destruct (Z.ltb_spec z 0); [|lia]. change (forallb num_char (lit (display_u32 (Z.abs z))) = true).
    eapply (digits_are_num _ 0), parse_digits_display. lia.
  - lia.
Qed.
(** What may follow a numeral. *)
Definition stops (r : string) : bool := match r with "" => true | String c _ => negb (num_char c) end.
Lemma read_num t r : forallb num_char (lit t) = true → stops r = true → read_numeral (t +:+ r) = (t, r).
Proof.
  intros Ht Hr. induction t as [|c t IH]; [destruct r as [|c r]; [done|]; simpl in Hr |- *; by destruct (num_char c)|].
  change (num_char c && forallb num_char (lit t) = true) in Ht. apply andb_true_iff in Ht as [Hc Ht]. rewrite app_cons. cbn [read_numeral].
  by rewrite Hc, (IH Ht).
Qed.
Lemma decimal_length fuel z : (String.length (decimal fuel z) ≤ fuel ∧ (fuel ≠ 0 → 1 ≤ String.length (decimal fuel z)))%nat.
Proof.
  revert z. induction fuel as [|fuel IH]; intros z; cbn [decimal]; [simpl; lia|]. rewrite string_app_length. cbn [String.length].
  destruct (z <? 10); [simpl; lia|]. destruct (IH (z / 10)). lia.
Qed.

(** ** Trees *)
Fixpoint line_text (j : json) : string :=
  match j with
  | JNull => "null"
  | JBool b => if b then "true" else "false"
  | JNum z => numeral z
  | JStr s => quoted_line s
  | JArr l =>
    String "[" match l with
      | [] => "]"
      | x :: l => line_text x +:+ foldr (λ y s, String "," (line_text y +:+ s)) "]" l
      end
  | JObj fs =>
    String "{" match fs with
      | [] => "}"
      | kv :: fs =>
        quoted_line kv.1 +:+ (String ":" (line_text kv.2
          +:+ foldr (λ kv s, String "," (quoted_line kv.1 +:+ (String ":" (line_text kv.2 +:+ s)))) "}" fs))
      end
  end.
Definition items_text (l : list json) : string := foldr (λ y s, String "," (line_text y +:+ s)) "]" l.
Definition fields_line (fs : list (string * json)) : string :=
  foldr (λ kv s, String "," (quoted_line kv.1 +:+ (String ":" (line_text kv.2 +:+ s)))) "}" fs.
Fixpoint expect (p s : string) : option string :=
  match p, s with
  | "", _ => Some s
  | String a p, String b s => if Ascii.eqb a b then expect p s else None
  | _, "" => None
  end.
Fixpoint read_tree (n : nat) (s : string) : option (json * string) :=
  match n, s with
  | S n, String c s1 =>
    if Ascii.eqb c "n" then r ← expect "ull" s1; Some (JNull, r)
    else if Ascii.eqb c "t" then r ← expect "rue" s1; Some (JBool true, r)
    else if Ascii.eqb c "f" then r ← expect "alse" s1; Some (JBool false, r)
    else if Ascii.eqb c dquote then '(t, r) ← read_string s1; Some (JStr t, r)
    else if Ascii.eqb c "[" then
      match s1 with
      | String d r =>
        if Ascii.eqb d "]" then Some (JArr [], r)
        else '(x, r) ← read_tree n s1; '(l, r) ← read_items n r; Some (JArr (x :: l), r)
      | "" => None
      end
    else if Ascii.eqb c "{" then
      match s1 with
      | String d r =>
        if Ascii.eqb d "}" then Some (JObj [], r)
        else '(kv, r) ← read_field n s1; '(fs, r) ← read_fields n r; Some (JObj (kv :: fs), r)
      | "" => None
      end
    else let '(t, r) := read_numeral s in z ← numeral_value t; Some (JNum z, r)
  | _, _ => None
  end
with read_items (n : nat) (s : string) : option (list json * string) :=
  match n, s with
  | S n, String c s1 =>
    if Ascii.eqb c "]" then Some ([], s1)
    else if Ascii.eqb c "," then '(x, r) ← read_tree n s1; '(l, r) ← read_items n r; Some (x :: l, r)
    else None
  | _, _ => None
  end
with read_field (n : nat) (s : string) : option (string * json * string) :=
  match n, s with
  | S n, String c s1 =>
    if Ascii.eqb c dquote then
      '(k, r) ← read_string s1; r ← expect ":" r; '(x, r) ← read_tree n r; Some (k, x, r)
    else None
  | _, _ => None
  end
with read_fields (n : nat) (s : string) : option (list (string * json) * string) :=
  match n, s with
  | S n, String c s1 =>
    if Ascii.eqb c "}" then Some ([], s1)
    else if Ascii.eqb c "," then '(kv, r) ← read_field n s1; '(fs, r) ← read_fields n r; Some (kv :: fs, r)
    else None
  | _, _ => None
  end.

Fixpoint tsize (j : json) : nat :=
  match j with
  | JArr l => match l with [] => 1%nat | x :: l => S (tsize x + foldr (λ y n, S (tsize y + n)) 1%nat l) end
  | JObj fs => match fs with [] => 1%nat | kv :: fs => S (S (tsize kv.2) + foldr (λ kv n, S (S (tsize kv.2) + n)) 1%nat fs) end
  | _ => 1%nat
  end.
Definition isize (l : list json) : nat := foldr (λ y n, S (tsize y + n)) 1%nat l.
Definition fsize (fs : list (string * json)) : nat := foldr (λ kv n, S (S (tsize kv.2) + n)) 1%nat fs.

Lemma numeral_first z : ∃ c s, numeral z = String c s ∧ num_char c = true.
Proof.
  pose proof (numeral_chars z) as H. destruct (numeral z) as [|c s] eqn:E.
  - unfold numeral in E. destruct (_ && _); [|done]. pose proof (decimal_length 20 z) as [_ Hl]. rewrite E in Hl. simpl in Hl. lia.
  - exists c, s. split; [done|]. change (num_char c && forallb num_char (lit s) = true) in H. by apply andb_true_iff in H as [? _].
Qed.
Lemma num_char_other c d : num_char c = true → num_char d = false → Ascii.eqb c d = false.
Proof. intros H1 H2. destruct (Ascii.eqb_spec c d) as [->|]; [congruence|done]. Qed.
Lemma line_first j : ∃ c s, line_text j = String c s ∧ Ascii.eqb c "]" = false.
Proof.
  destruct j as [|b|z|s|l|fs]; [by do 2 eexists|destruct b; by do 2 eexists| |by do 2 eexists..].
  destruct (numeral_first z) as (c & s & E & Hc). exists c, s. split; [exact E|]. by apply num_char_other.
Qed.
Lemma items_stop l r : stops (items_text l +:+ r) = true.
Proof. by destruct l. Qed.
Lemma fields_stop fs r : stops (fields_line fs +:+ r) = true.
Proof. by destruct fs. Qed.
Lemma quoted_app s r : quoted_line s +:+ r = String dquote (escape_all s +:+ String dquote r).
Proof. unfold quoted_line. by rewrite app_cons, string_app_assoc. Qed.
Lemma read_printed n :
  (∀ j r, (tsize j ≤ n)%nat → stops r = true → read_tree n (line_text j +:+ r) = Some (j, r))
  ∧ (∀ l r, (isize l ≤ n)%nat → read_items n (items_text l +:+ r) = Some (l, r))
  ∧ (∀ k x r, (S (tsize x) ≤ n)%nat → stops r = true → read_field n (quoted_line k +:+ (String ":" (line_text x +:+ r))) = Some (k, x, r))
  ∧ (∀ fs r, (fsize fs ≤ n)%nat → read_fields n (fields_line fs +:+ r) = Some (fs, r)).
Proof.
  induction n as [|n (IHt & IHi & IHk & IHf)].
  { split_and!; [intros [| | | |[]|[]] r Hn; simpl in Hn; lia|intros [] r Hn; simpl in Hn; lia|intros; lia|intros [] r Hn; simpl in Hn; lia]. }
  split_and!.
  - intros j r Hn Hr. destruct j as [|b|z|s|l|fs].
    + done.
    + by destruct b.
    + destruct (numeral_first z) as (c & t & E & Hc). change (line_text (JNum z)) with (numeral z). pose proof (read_num (numeral z) r (numeral_chars z) Hr) as Hz.
      pose proof (value_numeral z) as Hv. rewrite E in *. rewrite app_cons in *. cbn [read_tree]. rewrite !(num_char_other c) by done. by rewrite Hz, Hv.
    + change (line_text (JStr s)) with (quoted_line s). rewrite quoted_app. cbn [read_tree]. change (Ascii.eqb dquote _) with false at 1.
      cbn [Ascii.eqb Bool.eqb]. change (Ascii.eqb dquote dquote) with true. cbv iota. by rewrite read_quoted.
    + destruct l as [|x l]; [done|]. change (line_text (JArr (x :: l))) with (String "[" (line_text x +:+ items_text l)).
      change (tsize (JArr (x :: l))) with (S (tsize x + isize l)) in Hn. rewrite app_cons, string_app_assoc.
      destruct (line_first x) as (c & t & E & Hc). pose proof (IHt x (items_text l +:+ r) ltac:(lia) (items_stop l r)) as Hx. rewrite E in *. rewrite app_cons in *.
      cbn [read_tree Ascii.eqb Bool.eqb]. change (Ascii.eqb "[" dquote) with false. cbv iota. rewrite Hc, Hx. simpl. by rewrite IHi by lia.
    + destruct fs as [|[k x] fs]; [done|].
      change (line_text (JObj ((k, x) :: fs))) with (String "{" (quoted_line k +:+ (String ":" (line_text x +:+ fields_line fs)))).
      change (tsize (JObj ((k, x) :: fs))) with (S (S (tsize x) + fsize fs)) in Hn. rewrite app_cons, string_app_assoc, app_cons, string_app_assoc.
      pose proof (IHk k x (fields_line fs +:+ r) ltac:(lia) (fields_stop fs r)) as Hx. rewrite quoted_app in *.
      cbn [read_tree Ascii.eqb Bool.eqb]. change (Ascii.eqb "{" dquote) with false. change (Ascii.eqb dquote "}") with false. cbv iota. rewrite Hx. simpl. by rewrite IHf by lia.
  - intros [|x l] r Hn; [done|]. change (items_text (x :: l)) with (String "," (line_text x +:+ items_text l)). change (isize (x :: l)) with (S (tsize x + isize l)) in Hn.
    rewrite app_cons, string_app_assoc. cbn [read_items Ascii.eqb Bool.eqb]. rewrite IHt by (lia || apply items_stop). simpl. by rewrite IHi by lia.
  - intros k x r Hn Hr. rewrite quoted_app. cbn [read_field]. change (Ascii.eqb dquote dquote) with true. cbv iota. rewrite read_quoted. simpl. by rewrite IHt by (lia || done).
  - intros [|[k x] fs] r Hn; [done|].
    change (fields_line ((k, x) :: fs)) with (String "," (quoted_line k +:+ (String ":" (line_text x +:+ fields_line fs)))).
    change (fsize ((k, x) :: fs)) with (S (S (tsize x) + fsize fs)) in Hn. rewrite app_cons, string_app_assoc, app_cons, string_app_assoc.
    cbn [read_fields Ascii.eqb Bool.eqb]. rewrite IHk by (lia || apply fields_stop). simpl. by rewrite IHf by lia.
Qed.

(** ** Sizes *)
Lemma line_size : ∀ j, Z.of_nat (String.length (line_text j))
  = jsize (λ s, Z.of_nat (String.length (quoted_line s))) (λ z, Z.of_nat (String.length (numeral z))) j.
Proof.
  set (ss := λ s, Z.of_nat (String.length (quoted_line s))). set (ns := λ z, Z.of_nat (String.length (numeral z))).
  fix IH 1. intros [|b|z|s|l|fs].
  - done.
  - by destruct b.
  - done.
  - done.
  - destruct l as [|x l]; [done|].
    assert (Z.of_nat (String.length (items_text l)) = 1 + Z.of_nat (length l) + foldr (λ x n, jsize ss ns x + n) 0 l) as Htail.
    { induction l as [|y l IHl]; [done|]. change (items_text (y :: l)) with (String "," (line_text y +:+ items_text l)).
      cbn [foldr length String.length]. rewrite string_app_length, <-(IH y). lia. }
    change (line_text (JArr (x :: l))) with (String "[" (line_text x +:+ items_text l)).
    cbn [jsize foldr length String.length]. rewrite string_app_length, <-(IH x). unfold commas. lia.
  - destruct fs as [|[k x] fs]; [done|].
    assert (Z.of_nat (String.length (fields_line fs)) = 1 + Z.of_nat (length fs) + foldr (λ kv n, ss kv.1 + 1 + jsize ss ns kv.2 + n) 0 fs) as Htail.
    { induction fs as [|[k' y] fs IHl]; [done|].
      change (fields_line ((k', y) :: fs)) with (String "," (quoted_line k' +:+ (String ":" (line_text y +:+ fields_line fs)))).
      cbn [foldr length fst snd String.length]. rewrite string_app_length. cbn [String.length]. rewrite string_app_length, <-(IH y). unfold ss at 1. lia. }
    change (line_text (JObj ((k, x) :: fs))) with (String "{" (quoted_line k +:+ (String ":" (line_text x +:+ fields_line fs)))).
    cbn [jsize foldr length fst snd String.length]. rewrite string_app_length. cbn [String.length]. rewrite string_app_length, <-(IH x). unfold commas, ss at 1. lia.
Qed.
Lemma tsize_length : ∀ j, (tsize j ≤ String.length (line_text j))%nat.
Proof.
  fix IH 1. intros [|b|z|s|l|fs].
  - simpl. lia.
  - destruct b; simpl; lia.
  - destruct (numeral_first z) as (c & t & E & _). change (1 ≤ String.length (numeral z))%nat. rewrite E. simpl. lia.
  - change (1 ≤ S (String.length (escape_all s +:+ String dquote "")))%nat. lia.
  - destruct l as [|x l]; [simpl; lia|]. assert (isize l ≤ String.length (items_text l))%nat as Htail.
    { induction l as [|y l IHl]; [simpl; lia|]. change (items_text (y :: l)) with (String "," (line_text y +:+ items_text l)).
      change (isize (y :: l)) with (S (tsize y + isize l)). cbn [String.length]. rewrite string_app_length. pose proof (IH y). lia. }
    change (line_text (JArr (x :: l))) with (String "[" (line_text x +:+ items_text l)). change (tsize (JArr (x :: l))) with (S (tsize x + isize l)).
    cbn [String.length]. rewrite string_app_length. pose proof (IH x). lia.
  - destruct fs as [|[k x] fs]; [simpl; lia|]. assert (fsize fs ≤ String.length (fields_line fs))%nat as Htail.
    { induction fs as [|[k' y] fs IHl]; [simpl; lia|].
      change (fields_line ((k', y) :: fs)) with (String "," (quoted_line k' +:+ (String ":" (line_text y +:+ fields_line fs)))).
      change (fsize ((k', y) :: fs)) with (S (S (tsize y) + fsize fs)). cbn [String.length]. rewrite string_app_length. cbn [String.length].
      rewrite string_app_length. pose proof (IH y). lia. }
    change (line_text (JObj ((k, x) :: fs))) with (String "{" (quoted_line k +:+ (String ":" (line_text x +:+ fields_line fs)))).
    change (tsize (JObj ((k, x) :: fs))) with (S (S (tsize x) + fsize fs)). cbn [String.length]. rewrite string_app_length. cbn [String.length].
    rewrite string_app_length. pose proof (IH x). lia.
Qed.

(** ** One line *)
Lemma one_line_app a b : one_line (a +:+ b) = one_line a && one_line b.
Proof. induction a as [|c a IH]; [done|]. rewrite app_cons, !one_line_cons, IH. by rewrite andb_assoc. Qed.
Lemma escape_line c : one_line (escape_char c) = true.
Proof.
  unfold escape_char. destruct (Ascii.eqb_spec c dquote) as [->|]; [done|]. destruct (Ascii.eqb_spec c backslash) as [->|]; [done|]. cbn [orb].
  destruct (Z.ltb_spec (byte c) 32) as [Hc|Hc]; rewrite !one_line_cons.
  - rewrite (proj2 (Ascii.eqb_neq "010" (shifted c))); [done|]. intros E. apply (f_equal byte) in E. unfold shifted, byte in E, Hc.
    rewrite N_ascii_embedding in E by lia. change (Z.of_N (N_of_ascii "010")) with 10 in E. lia.
  - rewrite (proj2 (Ascii.eqb_neq "010" c)); [done|]. intros <-. by vm_compute in Hc.
Qed.
Lemma quoted_one_line s : one_line (quoted_line s) = true.
Proof.
  unfold quoted_line. rewrite one_line_cons, one_line_app. cbn [andb]. change (negb (Ascii.eqb "010" dquote)) with true. cbn [andb].
  rewrite andb_true_r. induction s as [|c s IH]; [done|]. cbn [escape_all]. by rewrite one_line_app, escape_line, IH.
Qed.
Lemma numeral_one_line z : one_line (numeral z) = true.
Proof.
  unfold one_line. apply negb_true_iff. pose proof (numeral_chars z) as H. apply not_true_iff_false. intros (c & Hin & <-%Ascii.eqb_eq)%existsb_exists.
  rewrite forallb_forall in H. specialize (H _ Hin). done.
Qed.
Lemma line_one_line : ∀ j, one_line (line_text j) = true.
Proof.
  fix IH 1. intros [|b|z|s|l|fs].
  - done.
  - by destruct b.
  - apply numeral_one_line.
  - apply quoted_one_line.
  - destruct l as [|x l]; [done|]. assert (one_line (items_text l) = true) as Htail.
    { induction l as [|y l IHl]; [done|]. change (items_text (y :: l)) with (String "," (line_text y +:+ items_text l)).
      by rewrite one_line_cons, one_line_app, (IH y), IHl. }
    change (line_text (JArr (x :: l))) with (String "[" (line_text x +:+ items_text l)). by rewrite one_line_cons, one_line_app, (IH x), Htail.
  - destruct fs as [|[k x] fs]; [done|]. assert (one_line (fields_line fs) = true) as Htail.
    { induction fs as [|[k' y] fs IHl]; [done|].
      change (fields_line ((k', y) :: fs)) with (String "," (quoted_line k' +:+ (String ":" (line_text y +:+ fields_line fs)))).
      by rewrite one_line_cons, one_line_app, quoted_one_line, one_line_cons, one_line_app, (IH y), IHl. }
    change (line_text (JObj ((k, x) :: fs))) with (String "{" (quoted_line k +:+ (String ":" (line_text x +:+ fields_line fs)))).
    by rewrite one_line_cons, one_line_app, quoted_one_line, one_line_cons, one_line_app, (IH x), Htail.
Qed.

(** ** The instances *)
Definition read_line_text (s : string) : option json :=
  match read_tree (String.length s) s with
  | Some (j, r) => if is_empty r || String.eqb r newline_str then Some j else None
  | None => None
  end.
#[global] Instance line_json : JsonText | 0 := {| json_text := line_text; json_parse := read_line_text |}.
Lemma read_line_printed j r : is_empty r = true ∨ r = newline_str → read_line_text (line_text j +:+ r) = Some j.
Proof.
  intros Hr. unfold read_line_text. destruct (read_printed (String.length (line_text j +:+ r))) as (H & _). rewrite H.
  - destruct Hr as [->| ->]; [done|]. by rewrite orb_true_r.
  - rewrite string_app_length. pose proof (tsize_length j). lia.
  - destruct Hr as [Hr| ->]; [by destruct r|done].
Qed.
#[global] Instance line_json_laws : JsonTextLaws.
Proof. intros j. pose proof (read_line_printed j "" ltac:(by left)) as H. by rewrite string_app_nil_r in H. Qed.
#[global] Instance line_json_lines : JsonLines.
Proof. split; [apply line_one_line|]. intros j. apply read_line_printed. by right. Qed.
Lemma escape_plain_char c : plain_char c = true → escape_char c = String c "".
Proof.
  intros H. unfold escape_char. destruct (Ascii.eqb_spec c dquote) as [->|]; [done|]. destruct (Ascii.eqb_spec c backslash) as [->|]; [done|]. cbn [orb].
  destruct (Z.ltb_spec (byte c) 32); [|done]. unfold plain_char, in_range in H. rewrite !orb_true_iff, !andb_true_iff, !Z.leb_le, Z.eqb_eq in H. lia.
Qed.
#[global] Instance line_sizes : JsonSize.
Proof.
  refine {| str_size := λ s, Z.of_nat (String.length (quoted_line s)); num_size := λ z, Z.of_nat (String.length (numeral z)) |}.
  - apply line_size.
  - intros s Hs. assert (String.length (escape_all s) = String.length s) as E.
    { induction s as [|c s IH]; [done|]. change (plain_char c && plain s = true) in Hs. apply andb_true_iff in Hs as [Hc Hs].
      cbn [escape_all]. by rewrite escape_plain_char, string_app_length, (IH Hs). }
    unfold quoted_line. cbn [String.length]. rewrite string_app_length, E. cbn [String.length]. lia.
  - intros z [Hz1 Hz2]. unfold numeral, usize_max in *. rewrite (proj2 (Z.leb_le _ _)), (proj2 (Z.ltb_lt _ _)) by lia. cbn [andb].
    destruct (decimal_length 20 z). lia.
Defined.
