(* ===== verification/AgentExamples.v ===== *)
(** Sessions of the native agent on concrete peers and files, and an instance
    of every theorem about them that has hypotheses.

    Continued sessions and the conversation view on concrete journals and
    files: an instance of every theorem about them that has hypotheses. *)
From S2P Require Import Prelude Transact Wire WireExample Text HostFiles Workspace Patch FileTools WorkspaceExamples AgentData AgentWire AgentWireFacts Compaction Replay ReplayTheorems Engine CompactionFacts EngineFacts EngineAgreement EngineTheorems EngineTrace JournalFile JournalTheorems JournalSession Resume ResumeTheorems Conversation LineExample.
#[local] Open Scope list_scope.
#[local] Existing Instance line_json | 0.

(** ** What the agent runs on *)
#[global] Instance whole_floats : FloatText := {| float_json x := JNum x; json_float j := match j with JNum z => Some z | _ => None end |}.
#[global] Instance whole_floats_laws : FloatTextLaws (λ _, True).
Proof. by split. Qed.
#[global] Instance sound_device : Device := {| write_fault _ := None; place_fault _ := None; resize_fault _ := false |}.
#[global] Instance plain_view : JsonView := {| json_pretty := line_text; json_first := λ _, None |}.

(** A model that answers from a script, and tools that always succeed. *)
#[global] Instance scripted : Peers := {|
  peer := list ModelResponse;
  settings _ := None;
  estimate_input_tokens _ _ := ROk 10;
  provider_cancel p := p;
  provider_start _ p := (Some (ROk tt), p);
  next_event p := match p with
    | response :: p => (Some (ROk (Some (Completed response (Some (mk_usage 10 5 true))))), p)
    | [] => (Some (ROk None), [])
    end;
  prepare_context _ p := (Some (ROk None), p);
  tool_end_reason _ := None;
  descriptors _ := [mk_descriptor "read_file" "Read a file" (JObj [])];
  tool_validate _ _ _ := ROk tt;
  tool_effect_plan _ _ := None;
  tool_execute _ p := (Some (Success (JStr "text")), p);
  tool_interrupted p := (None, p);
  tool_shutdown p := (true, p);
  authorize _ p := (Some (ROk tt), p);
  host_committed _ p := p;
  try_recv p := (None, p);
  recv p := (None, p);
  sleep _ p := (Some tt, p);
  now k := Z.of_nat k * 1000000;
  cancelled _ := false |}.
Definition example_limits : SessionLimits := mk_session_limits 4 10000 8 1 3 200 65536 4096 4096.
#[global] Instance scripted_laws : PeersLaws example_limits false.
Proof.
  split; simpl; try done.
  - lia.
  - intros _ _ n [= <-]. by vm_compute.
  - intros p response u p' H. destruct p as [|r p]; simpl in H; [done|]. injection H as _ <- _. by vm_compute.
  - intros e He. unfold fits_output. repeat (apply elem_of_cons in He as [->|He]; [by vm_compute; eexists|]). by apply not_elem_of_nil in He.
Qed.

(** ** A session *)
Definition example_journal : FileJournal := mk_journal empty_dir default_quotas default_replay "s1" 0 0 2 "" false 0.
Lemma example_created : create ∅ "s1" default_quotas = Ok example_journal.
Proof. reflexivity. Qed.
Definition example_watched : watched := watch ∅ "s1" default_quotas example_journal example_created.
Definition example_identity : SessionIdentity := mk_identity "s1" "p1" (Some "t1") (Some "r1").
Definition example_script : list ModelResponse :=
  [mk_response FinToolCalls "" [mk_tool_call "c1" "read_file" "{}"] None; mk_response FinStop "done" [] None].
Definition example_engine : engine (J := watched) :=
  mk_engine example_identity example_limits example_script example_watched default_budget [] None false None false None []
    None None None false false 0.
Lemma example_engine_new : engine_new example_identity example_limits (example_script : peer) example_watched = Ok example_engine.
Proof. reflexivity. Qed.
Lemma example_fresh : fresh example_engine.
Proof. exact (engine_new_fresh _ _ _ _ _ example_engine_new). Qed.
Lemma example_blank : blank_journal example_engine.
Proof. by split. Qed.
Lemma example_ends : ends_free example_engine.
Proof. done. Qed.
Lemma example_sane : limits_sane (SE := session_of example_engine).
Proof. by split; vm_compute. Qed.
Lemma example_horizon k : (200 ≤ k)%nat → deadline_of example_engine ≤ now k.
Proof. unfold deadline_of. simpl. lia. Qed.
Local Notation example_run := (run 201 (CmdStart "hello") example_engine).
Definition durable_with (reason : EndReason) (o : option (result SessionEnd)) : bool :=
  match o with Some (Ok o) => se_durable o && bool_decide (se_reason o = reason) | _ => false end.
Lemma example_durable : durable_with ModelFinished example_run.1 = true.
Proof. vm_compute. reflexivity. Qed.
Lemma durable_inv reason (r : option (result SessionEnd) * engine (J := watched)) :
  durable_with reason r.1 = true → ∃ o e', r = (Some (Ok o), e') ∧ se_durable o = true ∧ se_reason o = reason.
Proof.
  destruct r as [[[o|]|] e']; try done. simpl. intros [? ?%bool_decide_eq_true]%andb_true_iff. by exists o, e'.
Qed.

Definition traced_engine : engine (PE := traced scripted) (J := watched) :=
  mk_engine (PE := traced scripted) example_identity example_limits (example_script, []) example_watched default_budget [] None false None
    false None [] None None None false false 0.

(** ** Witnesses: replay *)
Definition example_records : list SessionRecord := Eval vm_compute in w_records (e_journal example_run.2).
Definition state_of (records : list SessionRecord) : Replay := match from_records records with Ok r => r | Err _ => default_replay end.
Lemma state_of_Ok records : is_ok (from_records records) = true → from_records records = Ok (state_of records).
Proof. unfold state_of. by destruct (from_records records). Qed.
Ltac typed_value := repeat first [exact I|by vm_compute|constructor].
Lemma example_typed : Forall (record_typed (λ _, True)) example_records.
Proof. unfold example_records. repeat (apply Forall_cons; split); [..|constructor]; typed_value. Qed.
Lemma example_budgets n : budgets_typed (take n example_records).
Proof. apply Forall_take. eapply Forall_impl; [exact example_typed|]. by intros record (_ & _ & ? & _). Qed.
Lemma replayed_conversation_is_grouped_witness :
  ∃ bs, boundaries (rp_messages (state_of example_records)) = Ok bs ∧ length (rp_messages (state_of example_records)) ∈ bs.
Proof.
  apply (replayed_conversation_is_grouped example_records (state_of example_records)).
  - by apply state_of_Ok; vm_compute.
  - by vm_compute.
Defined.
Lemma effects_resolved_once_witness :
  NoDup (intents (take 6 example_records))
  ∧ intents (take 6 example_records) = results (take 6 example_records) ++ option_list (rp_pending_effect (state_of (take 6 example_records))).
Proof.
  apply (effects_resolved_once (take 6 example_records) (state_of (take 6 example_records))).
  - by apply state_of_Ok; vm_compute.
  - apply example_budgets.
Defined.
Definition summarized : Projection := mk_projection (Some (mk_summary 3 "notes" [])) [] 0 0 None.
Definition example_messages : list Message := rp_messages (state_of example_records).

(** ** Witnesses: the journal *)
(** Appends the events of records. *)
Fixpoint append_all (records : list SessionRecord) (j : FileJournal) : option (list SessionRecord * FileJournal) :=
  match records with
  | [] => Some ([], j)
  | record :: records =>
    match append_record (rec_event record) (rec_budget record) j with
    | (Ok record, j) => '(records, j) ← append_all records j; Some (record :: records, j)
    | (Err _, _) => None
    end
  end.
Lemma append_all_ok events j records new j' :
  journal_ok j records None → append_all events j = Some (new, j') → journal_ok j' (records ++ new) None.
Proof.
  revert j records new. induction events as [|x events IH]; intros j records new K H; simpl in H; [simplify_eq; by rewrite app_nil_r|].
  destruct (append_record _ _ _) as [[record|] j1] eqn:E; [|done]. apply bind_Some in H as ([more j2] & H & [= <- <-]).
  apply (append_record_ok _ _ _ _ _ _ K) in E as (_ & _ & -> & _ & K1 & _). apply (IH _ _ _ K1) in H. by rewrite <- (assoc_L (++)) in H.
Qed.
Definition journal_with (n : nat) : FileJournal := match append_all (take n example_records) example_journal with Some (_, j) => j | None => example_journal end.
Lemma example_ok : journal_ok example_journal [] None.
Proof. exact (proj1 (create_ok _ _ _ _ example_created)). Qed.
Lemma journal_6_ok : journal_ok (journal_with 6) (take 6 example_records) None.
Proof. apply (append_all_ok (take 6 example_records) example_journal []); [exact example_ok|]. vm_compute. reflexivity. Qed.
Lemma default_quotas_typed : quotas_typed default_quotas.
Proof. by vm_compute. Qed.

(** A device on which the second write stops after ten bytes. *)
Definition torn_device : Device := {| write_fault k := if Nat.eqb k 1 then Some 10%nat else None; place_fault _ := None; resize_fault _ := false |}.
Definition example_started : SessionEvent := Started example_identity example_limits "hello" None None None None.
Definition torn_journal : FileJournal :=
  (append_record (DV := torn_device) InteractionOpened default_budget
     (append_record (DV := torn_device) example_started default_budget example_journal).2).2.
Lemma budget_0_typed : budget_typed default_budget.
Proof. by split; vm_compute. Qed.
Lemma torn_reached : reaches (exact := λ _, True) (DV := torn_device) "s1" default_quotas torn_journal.
Proof.
  unfold torn_journal. eapply (reach_append (DV := torn_device) _ _ _ InteractionOpened default_budget); [|exact I|exact budget_0_typed|apply surjective_pairing].
  eapply (reach_append (DV := torn_device) _ _ _ example_started default_budget); [|by repeat split; vm_compute|exact budget_0_typed|apply surjective_pairing].
  eapply reach_create. exact example_created.
Qed.
Lemma recovery_finds_the_journal_witness : ∃ j records last,
  typed_journal (exact := λ _, True) torn_journal records last
  ∧ recover_open (DV := torn_device) "s1" (released torn_journal) default_quotas 7 = Ok (j, records ++ completed last)
  ∧ d_events (fj_dir j) = lines (records ++ completed last).
Proof.
  destruct (reaches_ok (DV := torn_device) _ _ _ default_quotas_typed torn_reached) as (Hs & Hq & records & last & K).
  pose proof K as (K1 & K2 & K3).
  destruct (recovery_finds_the_journal (DV := torn_device) torn_journal records last 7 K1 K2 K3) as (j & E & _ & _ & Hd).
  - rewrite Hq. exact default_quotas_typed.
  - reflexivity.
  - exists j, records, last. split; [exact K|]. rewrite Hs, Hq in E. split; [exact E|exact Hd].
Defined.
Lemma journal_within_quotas_witness :
  slen (d_events (fj_dir torn_journal)) ≤ 16 * 1024 * 1024 ∧ usage (fj_dir torn_journal) default_quotas ≤ 32 * 1024 * 1024.
Proof.
  destruct (journal_within_quotas (DV := torn_device) "s1" default_quotas torn_journal default_quotas_typed torn_reached) as (H1 & H2 & _).
  split; [exact H1|exact H2].
Defined.
Definition checkpointed_journal : FileJournal :=
  (checkpoint (append_record example_started default_budget example_journal).2).2.
Lemma checkpointed_reached : reaches (exact := λ _, True) "s1" default_quotas checkpointed_journal.
Proof.
  unfold checkpointed_journal. eapply reach_checkpoint; [|apply surjective_pairing].
  eapply (reach_append _ _ _ example_started default_budget); [|by repeat split; vm_compute|exact budget_0_typed|apply surjective_pairing].
  eapply reach_create. exact example_created.
Qed.
Definition checkpoint_bytes : string := default "" (d_checkpoints (fj_dir checkpointed_journal) !! "1.json").
Lemma checkpoints_verify_witness : ∃ c records state,
  json_parse checkpoint_bytes ≫= de_checkpoint = Some c ∧ verify_checkpoint c records = Ok state ∧ rp_sequence state = ck_sequence c.
Proof.
  destruct (reaches_ok _ _ _ default_quotas_typed checkpointed_reached) as (_ & _ & records & last & K1 & K2 & _).
  destruct (checkpoints_verify checkpointed_journal records last "1.json" checkpoint_bytes K1 K2) as [[stem E]|(c & state & H1 & _ & H2 & H3)].
  - vm_compute. reflexivity.
  - exfalso. pose proof (f_equal String.length E) as Hl. rewrite string_app_length in Hl.
    destruct stem as [|a [|b [|c stem]]]; simpl in Hl; [lia|lia| |lia]. by simplify_eq/=.
  - exists c, records, state. split; [exact H1|]. split; [exact H2|exact H3].
Defined.
Lemma example_file_records : w_records (e_journal example_run.2) = example_records.
Proof. vm_compute. reflexivity. Qed.
Lemma example_file_quotas : fj_quotas (w_file (e_journal example_run.2)) = default_quotas.
Proof. vm_compute. reflexivity. Qed.
Lemma durable_session_is_recovered_witness : ∃ j state,
  recover_open (fj_session (w_file (e_journal example_run.2))) (released (w_file (e_journal example_run.2))) default_quotas 0 = Ok (j, example_records)
  ∧ from_records example_records = Ok state ∧ rp_end state = Some ModelFinished.
Proof.
  destruct (durable_inv _ _ example_durable) as (o & e' & E & Hd & Hr). pose proof example_file_records as Hw. pose proof example_file_quotas as Hq.
  rewrite E in Hw, Hq |- *. cbn [snd] in *.
  destruct (durable_session_is_recovered (exact := λ _, True) example_engine example_fresh example_blank example_ends example_sane 200 201 example_horizon
    ltac:(lia) (CmdStart "hello") o e' 0 E Hd) as (j & state & H1 & _ & H2 & H3 & _).
  - rewrite Hw. exact example_typed.
  - rewrite Hq. exact default_quotas_typed.
  - rewrite Hw, Hq in *. exists j, state. split; [exact H1|]. split; [exact H2|]. rewrite H3, Hr. reflexivity.
Defined.

(** ** Witnesses: resuming *)
Definition spent : Budget := mk_budget 3 2 1 0 30000 11 0 0 7 17 23.
Lemma inherited_budget_is_paid_witness :
  tokens (inherited_budget spent) = tokens spent ∧ b_model_turns (inherited_budget spent) = 3 ∧ b_reserved_input (inherited_budget spent) = 0.
Proof.
  destruct (inherited_budget_is_paid spent example_engine) as (H1 & H2 & _).
  - split; by vm_compute.
  - reflexivity.
  - split_and!; [exact H1|exact H2|reflexivity].
Defined.
(** The run stopped after the tool had started. *)
Definition found_pending : Pending :=
  mk_pending "call-1" "read_file" "{}" true (OutcomeFailed Interrupted) "An interrupted read-only tool was not replayed.".
Lemma pending_example : pending (take 6 example_records) example_workspace example_host = (ROk (Some found_pending), example_host).
Proof. reflexivity. Qed.
Lemma replayed_6 : from_records (take 6 example_records) = Ok (state_of (take 6 example_records)).
Proof. by apply state_of_Ok; vm_compute. Qed.
Lemma pending_call_is_the_replayed_one_witness :
  Some "call-1" = rp_pending_effect (state_of (take 6 example_records)) ∧ found (state_of (take 6 example_records)) found_pending.
Proof.
  destruct (pending_call_is_the_replayed_one (take 6 example_records) (state_of (take 6 example_records)) example_workspace example_host
    (Some found_pending) example_host replayed_6 (example_budgets 6) pending_example) as [H1 H2].
  split; [exact H1|exact (H2 _ eq_refl)].
Defined.
Definition patch_record : SessionRecord := mk_record 1 "s1" 4 default_budget
  (ToolIntent "call-1" (mk_tool_call "c1" "apply_patch" "{}") (Some (EffectPatch [mk_planned_file (lit "a.txt") None (Some (digest a_text))])) false).
Definition patch_pending : Pending := mk_pending "call-1" "apply_patch" "{}" true
  (Success (object [("status", JStr "recovered"); ("complete", JBool true)])) "The interrupted patch matches its full recorded after-state.".
Lemma patch_found : (pending [patch_record] example_workspace example_host).1 = ROk (Some patch_pending).
Proof. vm_compute. reflexivity. Qed.
Lemma patch_certified_by_digests_witness : ∃ h' i files,
  last_unresolved [patch_record] = Some i ∧ in_plan i = Some (EffectPatch files) ∧ files ≠ []
  ∧ planned_digests_found example_workspace files example_host h'.
Proof.
  pose proof patch_found as E. destruct (pending [patch_record] example_workspace example_host) as [o h'] eqn:Ep. simpl in E. subst o.
  exists h'. exact (proj2 (patch_certified_by_digests [patch_record] example_workspace example_host patch_pending _ h' Ep eq_refl)).
Defined.
Definition nothing_observed : observed := mk_observed false None "executing" None.
Local Notation settled_6 :=
  (settle ((λ p, let r := reconcile_pending nothing_observed "t1" p in (r.1.1.1, r.1.2)) <$> Some found_pending) (take 6 example_records) (journal_with 6)).
Lemma settled_6_Ok : is_ok settled_6.1 = true.
Proof. vm_compute. reflexivity. Qed.
Definition exec_records : list SessionRecord :=
  [mk_record 1 "s1" 5 default_budget (ToolIntent "call-1" (mk_tool_call "c1" "exec" "{}") None true);
   mk_record 1 "s1" 7 default_budget (ToolResult "call-1" (Success (JObj [("process_id", JStr "s1-p1")])))].
Definition exec_state : json := JObj
  [("process_id", JStr "s1-p1"); ("backend", JStr "trusted_local");
   ("completion", JObj [("state", JStr "exited"); ("code", JNum 0); ("success", JBool true)]);
   ("stdout", JObj [("handle", JStr "s1-p1-stdout"); ("bytes", JNum 3)]); ("stderr", JObj [("handle", JStr "s1-p1-stderr"); ("bytes", JNum 0)]);
   ("output_complete", JBool true); ("mutation_scope", JStr "unknown")].
Definition exec_spool : list spool_file :=
  [(Some "s1-p1.json", Some (line_text exec_state)); (Some "s1-p1-stdout", Some "abc"); (Some "s1-p1-stderr", Some "")].

(** ** Witnesses: the conversation *)
Definition noisy : text := lit "a" ++ ["027"%char] ++ lit "[2J" ++ ["009"%char].
Lemma displayed_text_is_harmless_witness : len (display_text noisy 5) ≤ 5 ∧ Forall harmless (chars (display_text noisy 5)).
Proof. apply (displayed_text_is_harmless noisy 5); by vm_compute. Defined.
Lemma example_readable : Forall (readable (exact := λ _, True) "s1") example_records.
Proof.
  pose proof example_typed as Ht. unfold example_records in *. repeat (apply Forall_cons in Ht as [? Ht]).
  repeat (apply Forall_cons; split); try constructor; try done; split; try done; by vm_compute.
Qed.
Lemma reader_follows_the_journal_witness : ∃ r,
  poll (Some (lines example_records +:+ "torn")) (reader_new "s1") = (Ok (Some (view_of example_records)), r)
  ∧ rd_offset r = slen (lines example_records).
Proof.
  destruct (reader_follows_the_journal (exact := λ _, True) (reader_new "s1") "s1" example_records 0 "torn") as (r & E & Hf).
  - split; try reflexivity. simpl. lia.
  - vm_compute. reflexivity.
  - exact example_readable.
  - reflexivity.
  - by vm_compute.
  - by vm_compute.
  - exists r. split; [exact E|exact (fw_offset _ _ _ _ Hf)].
Defined.
(** A record that fills its quota. *)
Definition long_record (n : nat) : SessionRecord := mk_record 1 "s1" 1 default_budget (UserInput (repeat_x n) None).
Lemma repeat_x_plain n : plain (repeat_x n) = true ∧ String.length (repeat_x n) = n.
Proof. induction n as [|n [IH1 IH2]]; [done|]. split; [exact IH1|]. simpl. by rewrite IH2. Qed.
Lemma long_record_size n : slen (json_text (ser_record (long_record n))) = slen (json_text (ser_record (long_record 0))) + Z.of_nat n.
Proof.
  unfold slen. rewrite !json_text_size. destruct (repeat_x_plain n) as [Hp Hl]. cbn -[str_size num_size commas].
  rewrite (str_size_plain (repeat_x n)), Hl, (str_size_plain (repeat_x 0)) by done. cbn -[str_size num_size commas]. lia.
Qed.
Definition longest : SessionRecord := long_record (Z.to_nat (record_bytes default_quotas - slen (json_text (ser_record (long_record 0))))).
Lemma longest_record_stops_the_reader_witness :
  (poll (Some (lines [longest] +:+ "")) (reader_new "s1")).1 = Err (Bail "Conversation record exceeds its limit" [])
  ∧ (rec_session longest = "s1" → journaled default_quotas "s1" longest).
Proof.
  assert (slen (json_text (ser_record longest)) = record_bytes default_quotas) as Hl.
  { unfold longest. rewrite long_record_size, Z2Nat.id; [lia|by vm_compute]. }
  apply (longest_record_stops_the_reader (reader_new "s1") "s1" [longest] 0 longest "").
  - split; try reflexivity. simpl. lia.
  - reflexivity.
  - exact Hl.
  - rewrite string_app_nil_r. change (lines [longest]) with (next_line longest +:+ ""). rewrite string_app_nil_r, next_line_len, Hl. by vm_compute.
Defined.
