(* ===== verification/GraphDomain.v ===== *)
(** The repository graph's values: [src/src/repository_graph/domain.rs] and the
    data of [src/src/repository_graph/ports.rs], with the serde forms that the
    fragment cache and the query limits use.  Identities and paths carry their
    validity in the type, as the private constructors do.

    The serde forms of the repository graph's facts: what the fragment cache
    stores, what [properties_json] holds, and what the byte limits of queries
    count.  The types derive [Deserialize] without [deny_unknown_fields],
    [GraphDiagnostic] excepted. *)
From S2P Require Import Prelude View Transact Wire Identity AgentData AgentWire.
#[local] Open Scope list_scope.

Abbreviation NodeId := opaque_id (only parsing).
Abbreviation EdgeId := opaque_id (only parsing).
Abbreviation SemanticKey := opaque_id (only parsing).
Abbreviation ExtractorId := opaque_id (only parsing).
Abbreviation PublishedViewName := opaque_id (only parsing).

#[global] Instance opaque_id_countable : Countable opaque_id.
Proof. apply (inj_countable id_as_str (λ s, match opaque_id_new "" s with Ok i => Some i | Err _ => None end)). intros i. by rewrite opaque_id_new_as_str. Defined.
Lemma id_as_str_inj i i' : id_as_str i = id_as_str i' → i = i'.
Proof. intros H. by apply dsig_eq. Qed.
#[global] Instance repository_ref_eq_dec : EqDecision RepositoryRef.
Proof. solve_decision. Defined.

(** ** Paths *)
Inductive RepoPathError : Type := EmptyPath | NulPath | AbsoluteOrPrefixed | ForbiddenComponent (c : string).
#[global] Instance RepoPathError_eq_dec : EqDecision RepoPathError.
Proof. solve_decision. Defined.
Definition slash : ascii := "/"%char.
Definition backslash : ascii := "092"%char.
(** [value.replace('\\', "/")] *)
Fixpoint forward_slashes (s : string) : string :=
  match s with
  | "" => ""
  | String c s => String (if Ascii.eqb c backslash then slash else c) (forward_slashes s)
  end.
(** [value.split(c)] *)
Fixpoint split_at (sep : ascii) (s : string) : list string :=
  match s with
  | "" => [""]
  | String c s =>
    if Ascii.eqb c sep then "" :: split_at sep s
    else match split_at sep s with [] => [String c ""] | p :: ps => String c p :: ps end
  end.
Definition has_byte (c : ascii) (s : string) : bool := existsb (Ascii.eqb c) (String.list_ascii_of_string s).
Definition bad_component (c : string) : bool := is_empty c || String.eqb c "." || String.eqb c "..".
Definition absolute_or_prefixed (s : string) : bool :=
  starts_with "/" s || starts_with "//" s
  || match s with String _ (String c _) => Ascii.eqb c ":"%char | _ => false end.
Definition repo_path_check (value : string) : res RepoPathError string :=
  if is_empty value then RErr EmptyPath else
  if has_byte "000"%char value then RErr NulPath else
  let normalized := forward_slashes value in
  if absolute_or_prefixed normalized then RErr AbsoluteOrPrefixed else
  match List.find bad_component (split_at slash normalized) with
  | Some c => RErr (ForbiddenComponent c)
  | None => ROk normalized
  end.
Definition RepoPath : Type := dsig (λ s : string, repo_path_check s = ROk s).
Definition path_str (p : RepoPath) : string := `p.

Lemma forward_slashes_idem s : forward_slashes (forward_slashes s) = forward_slashes s.
Proof.
  induction s as [|c s IH]; simpl; [done|]. rewrite IH. destruct (Ascii.eqb_spec c backslash) as [->|Hc]; [done|].
  by destruct (Ascii.eqb_spec c backslash).
Qed.
Lemma forward_slashes_nul s : has_byte "000"%char (forward_slashes s) = has_byte "000"%char s.
Proof.
  induction s as [|c s IH]; simpl; [done|]. unfold has_byte in *. simpl. rewrite IH. f_equal.
  by destruct (Ascii.eqb_spec c backslash) as [->|].
Qed.
(** What the constructor returns is a path that it accepts and keeps. *)
Lemma repo_path_check_ok v s : repo_path_check v = ROk s → repo_path_check s = ROk s.
Proof.
  unfold repo_path_check. destruct (is_empty v) eqn:Ev; [done|]. destruct (has_byte _ v) eqn:En; [done|].
  destruct (absolute_or_prefixed _) eqn:Ea; [done|]. destruct (List.find _ _) eqn:Ef; [done|]. intros [= <-].
  rewrite forward_slashes_idem, forward_slashes_nul, En, Ea, Ef. by destruct v.
Qed.
(** By the lemma the second test always succeeds. *)
Definition repo_path_new (value : string) : res RepoPathError RepoPath :=
  match repo_path_check value with
  | RErr e => RErr e
  | ROk s =>
    match decide (repo_path_check s = ROk s) with
    | left H => ROk (dexist s H)
    | right _ => RErr EmptyPath
    end
  end.
Lemma repo_path_new_check v s : repo_path_check v = ROk s → ∃ p, repo_path_new v = ROk p ∧ path_str p = s.
Proof.
  intros H. unfold repo_path_new. rewrite H. simpl. destruct (decide _) as [Hs|Hs]; [by eexists|].
  exfalso. apply Hs. by apply repo_path_check_ok in H.
Qed.
Lemma repo_path_new_str p : repo_path_new (path_str p) = ROk p.
Proof.
  destruct (repo_path_new_check (path_str p) (path_str p) (proj2_dsig p)) as (p' & -> & E). f_equal. by apply dsig_eq.
Qed.
Lemma path_str_inj p p' : path_str p = path_str p' → p = p'.
Proof. intros H. by apply dsig_eq. Qed.

(** ** Diagnostic codes *)
Definition code_ok (value : string) : bool :=
  negb (is_empty value) && Nat.leb (String.length value) 64
  && all_bytes (λ c, is_ascii_lowercase c || is_ascii_digit c || existsb (Ascii.eqb c) ["."%char; "_"%char; "-"%char]) value.
Definition DiagnosticCode : Type := dsig (λ s : string, code_ok s = true).
Definition code_str (c : DiagnosticCode) : string := `c.
Definition diagnostic_code_new (v : string) : option DiagnosticCode :=
  match decide (code_ok v = true) with left H => Some (dexist v H) | right _ => None end.
Lemma diagnostic_code_new_str c : diagnostic_code_new (code_str c) = Some c.
Proof.
  unfold diagnostic_code_new, code_str. destruct (decide _) as [H|H]; [f_equal; by apply dsig_eq|].
  exfalso. apply H. exact (proj2_dsig c).
Qed.
#[global] Instance diagnostic_code_countable : Countable DiagnosticCode.
Proof.
  apply (inj_countable code_str diagnostic_code_new). apply diagnostic_code_new_str.
Defined.

(** ** Builds and snapshots *)
Inductive BuildState : Type := BBuilding | BComplete | BPublished | BFailed | BSuperseded.
#[global] Instance BuildState_eq_dec : EqDecision BuildState.
Proof. solve_decision. Defined.
Inductive Freshness : Type := Fresh | StaleView | UnknownFreshness | NotApplicable.
#[global] Instance Freshness_eq_dec : EqDecision Freshness.
Proof. solve_decision. Defined.

Record GraphSnapshot := mk_snapshot {
  gs_id : SnapshotId;
  gs_repository : RepositoryRef;
  gs_source_revision_id : SourceRevisionId;
  gs_source_manifest_digest : Digest;
  gs_graph_model_version : Z;
  gs_analysis_config_digest : Digest;
  gs_extractor_set_digest : Digest;
  gs_completed_by : BuildId }.
#[global] Instance GraphSnapshot_eq_dec : EqDecision GraphSnapshot.
Proof. solve_decision. Defined.
Record GraphBuild := mk_build {
  gb_id : BuildId;
  gb_repository : RepositoryRef;
  gb_source_revision_id : SourceRevisionId;
  gb_prospective_snapshot_id : SnapshotId;
  gb_state : BuildState }.
#[global] Instance GraphBuild_eq_dec : EqDecision GraphBuild.
Proof. solve_decision. Defined.

(** ** Facts *)
Inductive ResolutionState : Type := Resolved | UnresolvedFact | ExternalFact.
#[global] Instance ResolutionState_eq_dec : EqDecision ResolutionState.
Proof. solve_decision. Defined.
Inductive Confidence : Type := ConfExact | ConfHigh | ConfMedium | ConfLow.
#[global] Instance Confidence_eq_dec : EqDecision Confidence.
Proof. solve_decision. Defined.
Record SourcePosition := mk_position { sp_byte_offset : Z; sp_line : option Z; sp_column : option Z }.
#[global] Instance SourcePosition_eq_dec : EqDecision SourcePosition.
Proof. solve_decision. Defined.
Record SourceSpan := mk_span { span_start : SourcePosition; span_end : SourcePosition }.
#[global] Instance SourceSpan_eq_dec : EqDecision SourceSpan.
Proof. solve_decision. Defined.
Record SourceEvidence := mk_evidence {
  ev_path : RepoPath;
  ev_content_identity : Digest;
  ev_span : option SourceSpan }.
#[global] Instance SourceEvidence_eq_dec : EqDecision SourceEvidence.
Proof. solve_decision. Defined.
Record ExtractorIdentity := mk_extractor { xi_id : ExtractorId; xi_version : string; xi_contract_version : Z }.
#[global] Instance ExtractorIdentity_eq_dec : EqDecision ExtractorIdentity.
Proof. solve_decision. Defined.
Inductive GraphValue : Type :=
  | GvBoolean (b : bool)
  | GvInteger (z : Z)
  | GvFloat (x : f64)
  | GvString (s : string)
  | GvStringList (l : list string).
Record FactProvenance := mk_provenance {
  fp_extractor : ExtractorIdentity;
  fp_evidence : option SourceEvidence;
  fp_resolution : ResolutionState;
  fp_confidence : Confidence }.
#[global] Instance FactProvenance_eq_dec : EqDecision FactProvenance.
Proof. solve_decision. Defined.
Record GraphNode := mk_node {
  gn_snapshot_id : SnapshotId;
  gn_id : NodeId;
  gn_kind : string;
  gn_semantic_key : option SemanticKey;
  gn_provenance : FactProvenance;
  gn_properties : gmap string GraphValue }.
#[global] Instance GraphNode_eta : Eta GraphNode := λ n,
  mk_node (gn_snapshot_id n) (gn_id n) (gn_kind n) (gn_semantic_key n) (gn_provenance n) (gn_properties n).
Inductive EdgeTarget : Type := TargetNode (n : NodeId) | TargetExternal (s : string) | TargetUnresolved (s : string).
#[global] Instance EdgeTarget_eq_dec : EqDecision EdgeTarget.
Proof. solve_decision. Defined.
Record GraphEdge := mk_edge {
  ge_snapshot_id : SnapshotId;
  ge_id : EdgeId;
  ge_kind : string;
  ge_source : NodeId;
  ge_target : EdgeTarget;
  ge_provenance : FactProvenance;
  ge_properties : gmap string GraphValue }.
#[global] Instance GraphEdge_eta : Eta GraphEdge := λ e,
  mk_edge (ge_snapshot_id e) (ge_id e) (ge_kind e) (ge_source e) (ge_target e) (ge_provenance e) (ge_properties e).

(** [PartialEq] of facts is structural except for [f64]. *)
Class FloatEq := float_eq : f64 → f64 → bool.
Section equality.
Context {FE : FloatEq}.
Definition value_eq (a b : GraphValue) : bool :=
  match a, b with
  | GvBoolean x, GvBoolean y => Bool.eqb x y
  | GvInteger x, GvInteger y => x =? y
  | GvFloat x, GvFloat y => float_eq x y
  | GvString x, GvString y => String.eqb x y
  | GvStringList x, GvStringList y => bool_decide (x = y)
  | _, _ => false
  end.
Definition properties_eq (p q : gmap string GraphValue) : bool :=
  bool_decide (dom p = dom q)
  && forallb (λ kv, match q !! kv.1 with Some v => value_eq kv.2 v | None => false end) (map_to_list p).
Definition node_eq (a b : GraphNode) : bool :=
  bool_decide (gn_snapshot_id a = gn_snapshot_id b) && bool_decide (gn_id a = gn_id b) && String.eqb (gn_kind a) (gn_kind b)
  && bool_decide (gn_semantic_key a = gn_semantic_key b) && bool_decide (gn_provenance a = gn_provenance b)
  && properties_eq (gn_properties a) (gn_properties b).
Definition edge_eq (a b : GraphEdge) : bool :=
  bool_decide (ge_snapshot_id a = ge_snapshot_id b) && bool_decide (ge_id a = ge_id b) && String.eqb (ge_kind a) (ge_kind b)
  && bool_decide (ge_source a = ge_source b) && bool_decide (ge_target a = ge_target b)
  && bool_decide (ge_provenance a = ge_provenance b) && properties_eq (ge_properties a) (ge_properties b).
End equality.

(** ** Diagnostics *)
Inductive DiagnosticSeverity : Type := SevInfo | SevWarning | SevError.
#[global] Instance DiagnosticSeverity_eq_dec : EqDecision DiagnosticSeverity.
Proof. solve_decision. Defined.
Record DiagnosticLocation := mk_location { dl_path : RepoPath; dl_span : option SourceSpan }.
#[global] Instance DiagnosticLocation_eq_dec : EqDecision DiagnosticLocation.
Proof. solve_decision. Defined.
Record GraphDiagnostic := mk_diagnostic {
  gd_build_id : BuildId;
  gd_snapshot_id : option SnapshotId;
  gd_severity : DiagnosticSeverity;
  gd_code : DiagnosticCode;
  gd_location : option DiagnosticLocation;
  gd_metrics : gmap DiagnosticCode Z }.
#[global] Instance GraphDiagnostic_eq_dec : EqDecision GraphDiagnostic.
Proof. solve_decision. Defined.
#[global] Instance GraphDiagnostic_eta : Eta GraphDiagnostic := λ d,
  mk_diagnostic (gd_build_id d) (gd_snapshot_id d) (gd_severity d) (gd_code d) (gd_location d) (gd_metrics d).

(** ** Files, fragments, commits *)
Inductive SourceFileMode : Type := RegularFile | ExecutableFile.
#[global] Instance SourceFileMode_eq_dec : EqDecision SourceFileMode.
Proof. solve_decision. Defined.
Record SourceFileDescriptor := mk_source_file {
  sf_path : RepoPath;
  sf_content_identity : Digest;
  sf_byte_len : Z;
  sf_file_mode : SourceFileMode }.
#[global] Instance SourceFileDescriptor_eq_dec : EqDecision SourceFileDescriptor.
Proof. solve_decision. Defined.
Record GraphFragment := mk_fragment {
  gf_nodes : list GraphNode;
  gf_edges : list GraphEdge;
  gf_diagnostics : list GraphDiagnostic }.
Definition empty_fragment : GraphFragment := mk_fragment [] [] [].
Record FragmentCacheKey := mk_cache_key {
  fk_repository : RepositoryRef;
  fk_path : RepoPath;
  fk_content_identity : Digest;
  fk_byte_len : Z;
  fk_file_mode : SourceFileMode;
  fk_analysis_config_digest : Digest;
  fk_extractor : ExtractorIdentity }.
#[global] Instance FragmentCacheKey_eq_dec : EqDecision FragmentCacheKey.
Proof. solve_decision. Defined.
Record CachedFragment := mk_cached { cf_key : FragmentCacheKey; cf_fragment : GraphFragment }.
Record IndexBuildMetrics := mk_metrics {
  im_discovered_files : Z;
  im_reused_files : Z;
  im_parsed_files : Z;
  im_skipped_files : Z;
  im_failed_files : Z;
  im_processed_bytes : Z;
  im_nodes : Z;
  im_edges : Z;
  im_diagnostics : Z;
  im_duration_ms : Z }.
#[global] Instance IndexBuildMetrics_eta : Eta IndexBuildMetrics := λ m,
  mk_metrics (im_discovered_files m) (im_reused_files m) (im_parsed_files m) (im_skipped_files m) (im_failed_files m)
    (im_processed_bytes m) (im_nodes m) (im_edges m) (im_diagnostics m) (im_duration_ms m).
Definition default_metrics : IndexBuildMetrics := mk_metrics 0 0 0 0 0 0 0 0 0 0.
Record IndexCommit := mk_commit {
  ic_snapshot : GraphSnapshot;
  ic_reuse_completed_snapshot : bool;
  ic_files : list SourceFileDescriptor;
  ic_graph : GraphFragment;
  ic_cache_writes : list CachedFragment;
  ic_cache_hits : list FragmentCacheKey;
  ic_metrics : IndexBuildMetrics }.

(** ** Maps: [BTreeMap]s are written in the order of their keys; a repeated
    key overwrites *)
Definition ser_map {K V} `{Countable K} (key : K → string) (w : V → json) (m : gmap K V) : json :=
  JObj (order_by (on_key fst String.compare) ((λ kv, (key kv.1, w kv.2)) <$> map_to_list m)).
Definition de_map {K V} `{Countable K} (key : string → option K) (r : json → option V) (j : json) : option (gmap K V) :=
  match j with
  | JObj fs => kvs ← mapM (λ f, k ← key f.1; v ← r f.2; Some (k, v)) fs; Some (foldl (λ m kv, <[kv.1 := kv.2]> m) ∅ kvs)
  | _ => None
  end.

Definition de_i64 : json → option Z := de_int (- 2 ^ 63) (2 ^ 63).
Definition de_u32 : json → option Z := de_int 0 u32_modulus.

(** [#[serde(tag = "type", content = "value")]] without [deny_unknown_fields] *)
Definition untag_open (j : json) : option (string * json) :=
  fs ← open_struct ["type"; "value"] j; tag ← req de_string "type" fs; content ← field_of "value" fs; Some (tag, content).

(** ** Values *)
Definition ser_path (p : RepoPath) : json := ser_string (path_str p).
Definition de_path (j : json) : option RepoPath :=
  s ← de_string j; match repo_path_new s with ROk p => Some p | RErr _ => None end.
Definition ser_code (c : DiagnosticCode) : json := ser_string (code_str c).
Definition de_code (j : json) : option DiagnosticCode := de_string j ≫= diagnostic_code_new.
Definition ser_position (p : SourcePosition) : json :=
  JObj [("byte_offset", ser_int (sp_byte_offset p)); ("line", ser_option ser_int (sp_line p));
        ("column", ser_option ser_int (sp_column p))].
Definition de_position (j : json) : option SourcePosition :=
  fs ← open_struct ["byte_offset"; "line"; "column"] j;
  b ← req de_u64 "byte_offset" fs; l ← opt (de_option de_u32) "line" fs; c ← opt (de_option de_u32) "column" fs;
  Some (mk_position b l c).
Definition ser_span (s : SourceSpan) : json :=
  JObj [("start", ser_position (span_start s)); ("end", ser_position (span_end s))].
Definition de_span (j : json) : option SourceSpan :=
  fs ← open_struct ["start"; "end"] j; a ← req de_position "start" fs; b ← req de_position "end" fs; Some (mk_span a b).
Definition ser_source_evidence (e : SourceEvidence) : json :=
  JObj [("path", ser_path (ev_path e)); ("content_identity", ser_digest (ev_content_identity e));
        ("span", ser_option ser_span (ev_span e))].
Definition de_source_evidence (j : json) : option SourceEvidence :=
  fs ← open_struct ["path"; "content_identity"; "span"] j;
  p ← req de_path "path" fs; d ← req de_digest "content_identity" fs; s ← opt (de_option de_span) "span" fs;
  Some (mk_evidence p d s).
Definition ser_extractor (x : ExtractorIdentity) : json :=
  JObj [("id", ser_opaque_id (xi_id x)); ("version", ser_string (xi_version x));
        ("contract_version", ser_int (xi_contract_version x))].
Definition de_extractor (j : json) : option ExtractorIdentity :=
  fs ← open_struct ["id"; "version"; "contract_version"] j;
  i ← req de_opaque_id "id" fs; v ← req de_string "version" fs; c ← req de_u32 "contract_version" fs;
  Some (mk_extractor i v c).
Definition resolution_name (r : ResolutionState) : string :=
  match r with Resolved => "resolved" | UnresolvedFact => "unresolved" | ExternalFact => "external" end.
Definition resolutions : list ResolutionState := [Resolved; UnresolvedFact; ExternalFact].
Definition confidence_name (c : Confidence) : string :=
  match c with ConfExact => "exact" | ConfHigh => "high" | ConfMedium => "medium" | ConfLow => "low" end.
Definition confidences : list Confidence := [ConfExact; ConfHigh; ConfMedium; ConfLow].
Definition severity_name (s : DiagnosticSeverity) : string :=
  match s with SevInfo => "info" | SevWarning => "warning" | SevError => "error" end.
Definition severities : list DiagnosticSeverity := [SevInfo; SevWarning; SevError].
(** An enum of unit variants is read by its names. *)
Definition named {A} (name : A → string) (all : list A) (s : string) : option A :=
  List.find (λ a, String.eqb (name a) s) all.
Definition de_named {A} (name : A → string) (all : list A) (j : json) : option A := de_string j ≫= named name all.

Section facts.
Context {FT : FloatText}.

Definition ser_value (v : GraphValue) : json :=
  match v with
  | GvBoolean b => tagged "boolean" (ser_bool b)
  | GvInteger z => tagged "integer" (ser_int z)
  | GvFloat x => tagged "float" (float_json x)
  | GvString s => tagged "string" (ser_string s)
  | GvStringList l => tagged "string_list" (ser_list ser_string l)
  end.
Definition de_graph_value (j : json) : option GraphValue :=
  '(tag, content) ← untag_open j;
  if String.eqb tag "boolean" then GvBoolean <$> de_bool content
  else if String.eqb tag "integer" then GvInteger <$> de_i64 content
  else if String.eqb tag "float" then GvFloat <$> json_float content
  else if String.eqb tag "string" then GvString <$> de_string content
  else if String.eqb tag "string_list" then GvStringList <$> de_list de_string content
  else None.
Definition ser_properties : gmap string GraphValue → json := ser_map id ser_value.
Definition de_properties : json → option (gmap string GraphValue) := de_map Some de_graph_value.
Definition ser_provenance (p : FactProvenance) : json :=
  JObj [("extractor", ser_extractor (fp_extractor p)); ("evidence", ser_option ser_source_evidence (fp_evidence p));
        ("resolution", ser_string (resolution_name (fp_resolution p)));
        ("confidence", ser_string (confidence_name (fp_confidence p)))].
Definition de_provenance (j : json) : option FactProvenance :=
  fs ← open_struct ["extractor"; "evidence"; "resolution"; "confidence"] j;
  x ← req de_extractor "extractor" fs; e ← opt (de_option de_source_evidence) "evidence" fs;
  r ← req (de_named resolution_name resolutions) "resolution" fs;
  c ← req (de_named confidence_name confidences) "confidence" fs;
  Some (mk_provenance x e r c).
Definition ser_node (n : GraphNode) : json :=
  JObj [("snapshot_id", ser_opaque_id (gn_snapshot_id n)); ("id", ser_opaque_id (gn_id n)); ("kind", ser_string (gn_kind n));
        ("semantic_key", ser_option ser_opaque_id (gn_semantic_key n)); ("provenance", ser_provenance (gn_provenance n));
        ("properties", ser_properties (gn_properties n))].
Definition de_node (j : json) : option GraphNode :=
  fs ← open_struct ["snapshot_id"; "id"; "kind"; "semantic_key"; "provenance"; "properties"] j;
  s ← req de_opaque_id "snapshot_id" fs; i ← req de_opaque_id "id" fs; k ← req de_string "kind" fs;
  y ← opt (de_option de_opaque_id) "semantic_key" fs; p ← req de_provenance "provenance" fs;
  q ← with_default ∅ de_properties "properties" fs;
  Some (mk_node s i k y p q).
Definition ser_target (t : EdgeTarget) : json :=
  match t with
  | TargetNode n => tagged "node" (ser_opaque_id n)
  | TargetExternal s => tagged "external" (ser_string s)
  | TargetUnresolved s => tagged "unresolved" (ser_string s)
  end.
Definition de_target (j : json) : option EdgeTarget :=
  '(tag, content) ← untag_open j;
  if String.eqb tag "node" then TargetNode <$> de_opaque_id content
  else if String.eqb tag "external" then TargetExternal <$> de_string content
  else if String.eqb tag "unresolved" then TargetUnresolved <$> de_string content
  else None.
Definition ser_edge (e : GraphEdge) : json :=
  JObj [("snapshot_id", ser_opaque_id (ge_snapshot_id e)); ("id", ser_opaque_id (ge_id e)); ("kind", ser_string (ge_kind e));
        ("source", ser_opaque_id (ge_source e)); ("target", ser_target (ge_target e));
        ("provenance", ser_provenance (ge_provenance e)); ("properties", ser_properties (ge_properties e))].
Definition de_edge (j : json) : option GraphEdge :=
  fs ← open_struct ["snapshot_id"; "id"; "kind"; "source"; "target"; "provenance"; "properties"] j;
  s ← req de_opaque_id "snapshot_id" fs; i ← req de_opaque_id "id" fs; k ← req de_string "kind" fs;
  a ← req de_opaque_id "source" fs; t ← req de_target "target" fs; p ← req de_provenance "provenance" fs;
  q ← with_default ∅ de_properties "properties" fs;
  Some (mk_edge s i k a t p q).
Definition ser_location (l : DiagnosticLocation) : json :=
  JObj [("path", ser_path (dl_path l)); ("span", ser_option ser_span (dl_span l))].
Definition de_location (j : json) : option DiagnosticLocation :=
  fs ← open_struct ["path"; "span"] j; p ← req de_path "path" fs; s ← opt (de_option de_span) "span" fs;
  Some (mk_location p s).
Definition ser_metrics_map : gmap DiagnosticCode Z → json := ser_map code_str ser_int.
Definition ser_graph_diagnostic (d : GraphDiagnostic) : json :=
  JObj [("build_id", ser_opaque_id (gd_build_id d)); ("snapshot_id", ser_option ser_opaque_id (gd_snapshot_id d));
        ("severity", ser_string (severity_name (gd_severity d))); ("code", ser_code (gd_code d));
        ("location", ser_option ser_location (gd_location d)); ("metrics", ser_metrics_map (gd_metrics d))].
Definition de_graph_diagnostic (j : json) : option GraphDiagnostic :=
  fs ← closed_struct ["build_id"; "snapshot_id"; "severity"; "code"; "location"; "metrics"] j;
  b ← req de_opaque_id "build_id" fs; s ← opt (de_option de_opaque_id) "snapshot_id" fs;
  v ← req (de_named severity_name severities) "severity" fs; c ← req de_code "code" fs;
  l ← opt (de_option de_location) "location" fs;
  m ← with_default ∅ (de_map diagnostic_code_new de_i64) "metrics" fs;
  Some (mk_diagnostic b s v c l m).
Definition ser_fragment (f : GraphFragment) : json :=
  JObj [("nodes", ser_list ser_node (gf_nodes f)); ("edges", ser_list ser_edge (gf_edges f));
        ("diagnostics", ser_list ser_graph_diagnostic (gf_diagnostics f))].
Definition de_fragment (j : json) : option GraphFragment :=
  fs ← open_struct ["nodes"; "edges"; "diagnostics"] j;
  n ← req (de_list de_node) "nodes" fs; e ← req (de_list de_edge) "edges" fs;
  d ← req (de_list de_graph_diagnostic) "diagnostics" fs;
  Some (mk_fragment n e d).
End facts.
