(* ===== verification/GraphStore.v ===== *)
(** The sidecar's tables and the encoding of facts in their columns:
    [src/src/repository_graph/sqlite.rs] (the schema),
    [src/src/repository_graph/index_store.rs] (writing) and
    [src/src/repository_graph/query_sqlite/support.rs] (reading).

    The repository graph's sidecar database: builds, snapshots and published
    views ([src/src/repository_graph/store.rs]) and the persistence of complete
    indexes ([src/src/repository_graph/index_store.rs]), with the constraints of
    the schema in [src/src/repository_graph/sqlite.rs].  Every operation is one
    immediate transaction; its readings of the clock are an argument. *)
From S2P Require Import Prelude View Transact Wire Identity AgentData AgentWire GraphDomain.
#[local] Open Scope list_scope.

(** ** Errors of the store *)
Record PublicationVersion := mk_version { pv_snapshot_id : SnapshotId; pv_generation : Z }.
#[global] Instance PublicationVersion_eq_dec : EqDecision PublicationVersion.
Proof. solve_decision. Defined.
Inductive StoreError : Type :=
  | BuildNotFound (id : string)
  | SnapshotNotFound (id : string)
  | InvalidTransition (state : BuildState) (operation : string)
  | IdentityMismatch (what : string)
  | PublicationConflict (expected actual : option PublicationVersion)
  | CorruptStore (what : string)
  | StoreDatabase (what : string).
#[global] Instance StoreError_eq_dec : EqDecision StoreError.
Proof. solve_decision. Defined.

(** ** Rows *)
Record span_cols := SpanCols {
  sc_start_byte : option Z; sc_start_line : option Z; sc_start_column : option Z;
  sc_end_byte : option Z; sc_end_line : option Z; sc_end_column : option Z }.
Record fact_cols := FactCols {
  fc_extractor_id : string;
  fc_extractor_version : string;
  fc_contract_version : Z;
  fc_resolution_state : string;
  fc_confidence : string;
  fc_evidence_path : option string;
  fc_evidence_algorithm : option string;
  fc_evidence_digest : option string;
  fc_span : span_cols }.
Record node_row := NodeRow {
  nr_kind : string;
  nr_semantic_key : option string;
  nr_fact : fact_cols;
  nr_properties_json : string;
  nr_normalized_name : string }.
Record edge_row := EdgeRow {
  er_kind : string;
  er_source_node_id : string;
  er_target_node_id : option string;
  er_external_target : option string;
  er_fact : fact_cols;
  er_properties_json : string }.
Record file_row := FileRow {
  fr_content_algorithm : string;
  fr_content_digest : string;
  fr_byte_length : Z;
  fr_file_mode : Z }.
Record diagnostic_row := DiagnosticRow {
  gr_build_id : string;
  gr_snapshot_id : option string;
  gr_severity : string;
  gr_code : string;
  gr_path : option string;
  gr_span : span_cols;
  gr_metadata_json : string }.

(** ** Writing *)
Definition i64_max : Z := 2 ^ 63 - 1.
(** [integer] *)
Definition integer (v : Z) (name : string) : res StoreError Z :=
  if v <=? i64_max then ROk v else RErr (CorruptStore (name +:+ " exceeds SQLite range")).
(** [SpanColumns::new] *)
Definition no_span : span_cols := SpanCols None None None None None None.
Definition span_columns (span : option SourceSpan) : res StoreError span_cols :=
  match span with
  | None => ROk no_span
  | Some s =>
    start ← integer (sp_byte_offset (span_start s)) "span start";
    finish ← integer (sp_byte_offset (span_end s)) "span end";
    ROk (SpanCols (Some start) (sp_line (span_start s)) (sp_column (span_start s))
           (Some finish) (sp_line (span_end s)) (sp_column (span_end s)))
  end.
(** [EvidenceColumns::new] with the extractor's columns *)
Definition fact_columns (p : FactProvenance) : res StoreError fact_cols :=
  let x := fp_extractor p in
  let row := FactCols (id_as_str (xi_id x)) (xi_version x) (xi_contract_version x)
               (resolution_name (fp_resolution p)) (confidence_name (fp_confidence p)) in
  match fp_evidence p with
  | None => ROk (row None None None no_span)
  | Some e =>
    span ← span_columns (ev_span e);
    ROk (row (Some (path_str (ev_path e))) (Some (algorithm (ev_content_identity e)))
           (Some (value (ev_content_identity e))) span)
  end.
Definition file_mode (m : SourceFileMode) : Z := match m with RegularFile => 0 | ExecutableFile => 1 end.

Class Lowercase := to_lowercase : string → string.
Section columns.
Context {FT : FloatText} {JT : JsonText} {LC : Lowercase}.

Definition graph_string (v : GraphValue) : option string := match v with GvString s => Some s | _ => None end.
Definition normalized_node_name (n : GraphNode) : string :=
  let property := match gn_properties n !! "name" with Some v => Some v | None => gn_properties n !! "path" end in
  to_lowercase
    (match property ≫= graph_string with
     | Some s => s
     | None => match gn_semantic_key n with Some k => id_as_str k | None => gn_kind n end
     end).
Definition node_columns (n : GraphNode) : res StoreError node_row :=
  fact ← fact_columns (gn_provenance n);
  ROk (NodeRow (gn_kind n) (id_as_str <$> gn_semantic_key n) fact (json_text (ser_properties (gn_properties n)))
         (normalized_node_name n)).
Definition target_columns (t : EdgeTarget) : option string * option string :=
  match t with
  | TargetNode n => (Some (id_as_str n), None)
  | TargetExternal s | TargetUnresolved s => (None, Some s)
  end.
Definition edge_columns (e : GraphEdge) : res StoreError edge_row :=
  fact ← fact_columns (ge_provenance e);
  let '(target, external) := target_columns (ge_target e) in
  ROk (EdgeRow (ge_kind e) (id_as_str (ge_source e)) target external fact (json_text (ser_properties (ge_properties e)))).
Definition diagnostic_columns (d : GraphDiagnostic) : res StoreError diagnostic_row :=
  span ← span_columns (gd_location d ≫= dl_span);
  ROk (DiagnosticRow (id_as_str (gd_build_id d)) (id_as_str <$> gd_snapshot_id d) (severity_name (gd_severity d))
         (code_str (gd_code d)) ((path_str ∘ dl_path) <$> gd_location d) span (json_text (ser_metrics_map (gd_metrics d)))).

(** ** Reading: every failure is [backend_error], here [None] *)
Definition as_id (s : string) : option opaque_id := match opaque_id_new "" s with Ok i => Some i | Err _ => None end.
Definition as_path (s : string) : option RepoPath := match repo_path_new s with ROk p => Some p | RErr _ => None end.
Definition as_digest (a v : string) : option Digest := match digest_new a v with Ok d => Some d | Err _ => None end.
Definition unsigned (z : Z) : option Z := if 0 <=? z then Some z else None.
Definition get_u32 (z : Z) : option Z := if (0 <=? z) && (z <? u32_modulus) then Some z else None.
Definition optional_u32 (o : option Z) : option (option Z) :=
  match o with None => Some None | Some z => Some <$> get_u32 z end.
Definition decode_span (c : span_cols) : option (option SourceSpan) :=
  match sc_start_byte c, sc_end_byte c with
  | None, None => Some None
  | Some a, Some b =>
    a ← unsigned a; al ← optional_u32 (sc_start_line c); ac ← optional_u32 (sc_start_column c);
    b ← unsigned b; bl ← optional_u32 (sc_end_line c); bc ← optional_u32 (sc_end_column c);
    Some (Some (mk_span (mk_position a al ac) (mk_position b bl bc)))
  | _, _ => None
  end.
Definition decode_provenance (c : fact_cols) : option FactProvenance :=
  r ← named resolution_name resolutions (fc_resolution_state c);
  f ← named confidence_name confidences (fc_confidence c);
  e ← match fc_evidence_path c with
      | None => Some None
      | Some path =>
        a ← fc_evidence_algorithm c; d ← fc_evidence_digest c;
        p ← as_path path; i ← as_digest a d; s ← decode_span (fc_span c);
        Some (Some (mk_evidence p i s))
      end;
  x ← as_id (fc_extractor_id c); v ← get_u32 (fc_contract_version c);
  Some (mk_provenance (mk_extractor x (fc_extractor_version c) v) e r f).
Definition decode_node (key : string * string) (r : node_row) : option GraphNode :=
  s ← as_id key.1; i ← as_id key.2;
  k ← match nr_semantic_key r with None => Some None | Some k => Some <$> as_id k end;
  p ← decode_provenance (nr_fact r);
  q ← json_parse (nr_properties_json r) ≫= de_properties;
  Some (mk_node s i (nr_kind r) k p q).
Definition decode_edge (key : string * string) (r : edge_row) : option GraphEdge :=
  s ← as_id key.1; i ← as_id key.2; a ← as_id (er_source_node_id r);
  p ← decode_provenance (er_fact r);
  t ← match er_target_node_id r, er_external_target r with
      | Some n, None => TargetNode <$> as_id n
      | None, Some x => Some (if decide (fp_resolution p = ExternalFact) then TargetExternal x else TargetUnresolved x)
      | _, _ => None
      end;
  q ← json_parse (er_properties_json r) ≫= de_properties;
  Some (mk_edge s i (er_kind r) a t p q).
End columns.

(** ** The database *)
Record build_row := BuildRow {
  br_rowid : Z;
  br_namespace : string;
  br_repository : string;
  br_source_revision_id : string;
  br_prospective : string;
  br_state : string;
  br_started_at : string;
  br_finished_at : option string;
  br_failure_code : option string }.
#[global] Instance build_row_eta : Eta build_row := λ r,
  BuildRow (br_rowid r) (br_namespace r) (br_repository r) (br_source_revision_id r) (br_prospective r) (br_state r)
    (br_started_at r) (br_finished_at r) (br_failure_code r).
Record snapshot_row := SnapshotRow {
  sr_namespace : string;
  sr_repository : string;
  sr_source_revision_id : string;
  sr_manifest : string * string;
  sr_model_version : Z;
  sr_config : string * string;
  sr_extractors : string * string;
  sr_completed_by : string;
  sr_created_at : string }.
Record view_row := ViewRow {
  vr_snapshot_id : string;
  vr_build_id : string;
  vr_generation : Z;
  vr_published_at : string }.
Record cache_row := CacheRow {
  cr_fragment_json : string;
  cr_created_at : string;
  cr_last_used_at : string }.
#[global] Instance cache_row_eta : Eta cache_row := λ r, CacheRow (cr_fragment_json r) (cr_created_at r) (cr_last_used_at r).
Record lease_row := LeaseRow {
  lr_owner_token : string;
  lr_acquired_at_ms : Z;
  lr_expires_at_ms : Z }.
#[global] Instance lease_row_eta : Eta lease_row := λ r, LeaseRow (lr_owner_token r) (lr_acquired_at_ms r) (lr_expires_at_ms r).
Definition view_key : Type := string * string * string.
Definition cache_key : Type := (string * string * string) * (string * string * Z * Z) * (string * string) * (string * string * Z).

Record sidecar := Sidecar {
  sd_builds : gmap string build_row;
  sd_snapshots : gmap string snapshot_row;
  sd_views : gmap view_key view_row;
  sd_files : gmap (string * string) file_row;
  sd_nodes : gmap (string * string) node_row;
  sd_edges : gmap (string * string) edge_row;
  sd_diagnostics : gmap Z diagnostic_row;
  sd_diagnostic_sets : gmap string string;
  sd_cache : gmap cache_key cache_row;
  sd_metrics : gmap string IndexBuildMetrics;
  sd_leases : gmap view_key lease_row }.
#[global] Instance sidecar_eta : Eta sidecar := λ d,
  Sidecar (sd_builds d) (sd_snapshots d) (sd_views d) (sd_files d) (sd_nodes d) (sd_edges d) (sd_diagnostics d)
    (sd_diagnostic_sets d) (sd_cache d) (sd_metrics d) (sd_leases d).
Definition empty_sidecar : sidecar := Sidecar ∅ ∅ ∅ ∅ ∅ ∅ ∅ ∅ ∅ ∅ ∅.

(** The readings of [timestamp()] within one operation. *)
Abbreviation clock := (nat → string) (only parsing).
Abbreviation store A := (tx sidecar StoreError A) (only parsing).

Fixpoint tx_each {S E A} (f : A → tx S E unit) (l : list A) : tx S E unit :=
  match l with [] => mret tt | a :: l => _ ← f a; tx_each f l end.
Definition constraint (b : bool) (what : string) : store unit := require b (StoreDatabase what).

(** ** Contracts of [store.rs] *)
Record PublishRequest := mk_publish {
  pq_repository : RepositoryRef;
  pq_view_name : PublishedViewName;
  pq_build_id : BuildId;
  pq_expected : option PublicationVersion }.
Record PublishedView := mk_view {
  vw_repository : RepositoryRef;
  vw_view_name : PublishedViewName;
  vw_snapshot_id : SnapshotId;
  vw_build_id : BuildId;
  vw_generation : Z }.
#[global] Instance PublishedView_eq_dec : EqDecision PublishedView.
Proof. solve_decision. Defined.
Inductive PublicationOutcome : Type := ViewPublished (view : PublishedView) | ViewSuperseded (current : PublishedView).

Definition repo_key (r : RepositoryRef) : string * string := (id_as_str (namespace r), id_as_str (repository_ref_id r)).
Definition key_of_view (r : RepositoryRef) (name : PublishedViewName) : view_key := (repo_key r, id_as_str name).

(** ** Reading *)
Definition corrupt {A} (what : string) (o : option A) : res StoreError A := ok_or (CorruptStore what) o.
Definition build_state_of (d : sidecar) (id : string) (r : build_row) : res StoreError BuildState :=
  let has_snapshot := some (sd_snapshots d !! br_prospective r) in
  if String.eqb (br_state r) "building" && none (br_finished_at r) then ROk BBuilding
  else if String.eqb (br_state r) "building" && some (br_finished_at r) && has_snapshot then ROk BComplete
  else if String.eqb (br_state r) "published" then ROk BPublished
  else if String.eqb (br_state r) "failed" then ROk BFailed
  else if String.eqb (br_state r) "superseded" then ROk BSuperseded
  else RErr (CorruptStore ("invalid lifecycle state for build " +:+ id)).
Definition load_build (d : sidecar) (id : BuildId) : res StoreError (option GraphBuild) :=
  match sd_builds d !! id_as_str id with
  | None => ROk None
  | Some r =>
    state ← build_state_of d (id_as_str id) r;
    n ← corrupt "repository namespace" (as_id (br_namespace r)); i ← corrupt "repository id" (as_id (br_repository r));
    v ← corrupt "source revision id" (as_id (br_source_revision_id r));
    s ← corrupt "snapshot id" (as_id (br_prospective r));
    ROk (Some (mk_build id (RepositoryRef_ n i) v s state))
  end.
Definition load_snapshot (d : sidecar) (id : SnapshotId) : res StoreError (option GraphSnapshot) :=
  match sd_snapshots d !! id_as_str id with
  | None => ROk None
  | Some r =>
    version ← ok_or (StoreDatabase "integral value out of range") (get_u32 (sr_model_version r));
    n ← corrupt "repository namespace" (as_id (sr_namespace r)); i ← corrupt "repository id" (as_id (sr_repository r));
    v ← corrupt "source revision id" (as_id (sr_source_revision_id r));
    m ← corrupt "digest" (as_digest (sr_manifest r).1 (sr_manifest r).2);
    c ← corrupt "digest" (as_digest (sr_config r).1 (sr_config r).2);
    x ← corrupt "digest" (as_digest (sr_extractors r).1 (sr_extractors r).2);
    b ← corrupt "build id" (as_id (sr_completed_by r));
    ROk (Some (mk_snapshot id (RepositoryRef_ n i) v m version c x b))
  end.
Definition load_published_view (d : sidecar) (repository : RepositoryRef) (name : PublishedViewName) :
  res StoreError (option PublishedView) :=
  match sd_views d !! key_of_view repository name with
  | None => ROk None
  | Some r =>
    g ← corrupt "negative publication generation" (unsigned (vr_generation r));
    s ← corrupt "snapshot id" (as_id (vr_snapshot_id r)); b ← corrupt "build id" (as_id (vr_build_id r));
    ROk (Some (mk_view repository name s b g))
  end.
Definition build_order (d : sidecar) (id : BuildId) : res StoreError Z :=
  ok_or (StoreDatabase "Query returned no rows") (br_rowid <$> sd_builds d !! id_as_str id).
(** [published_snapshot] *)
Definition published_snapshot (d : sidecar) (repository : RepositoryRef) (name : PublishedViewName) :
  res StoreError (option GraphSnapshot) :=
  view ← load_published_view d repository name;
  match view with None => ROk None | Some view => load_snapshot d (vw_snapshot_id view) end.

Definition validate_snapshot_for_build (s : GraphSnapshot) (b : GraphBuild) : res StoreError unit :=
  _ ← rcheck (bool_decide (gs_id s = gb_prospective_snapshot_id b)) (IdentityMismatch "snapshot id");
  _ ← rcheck (bool_decide (gs_repository s = gb_repository b)) (IdentityMismatch "repository");
  rcheck (bool_decide (gs_source_revision_id s = gb_source_revision_id b)) (IdentityMismatch "source revision").
Definition validate_equivalent_snapshot (requested existing : GraphSnapshot) : res StoreError unit :=
  rcheck (bool_decide (gs_id requested = gs_id existing) && bool_decide (gs_repository requested = gs_repository existing)
          && bool_decide (gs_source_manifest_digest requested = gs_source_manifest_digest existing)
          && (gs_graph_model_version requested =? gs_graph_model_version existing)
          && bool_decide (gs_analysis_config_digest requested = gs_analysis_config_digest existing)
          && bool_decide (gs_extractor_set_digest requested = gs_extractor_set_digest existing))
    (IdentityMismatch "existing snapshot contents").

(** ** Statements *)
Definition update_build (id : string) (f : build_row → build_row) (d : sidecar) : sidecar :=
  d <| sd_builds := alter f id (sd_builds d) |>.
(** SQLite numbers the rows of a table without [AUTOINCREMENT] by the greatest number in use. *)
Definition max_rowid (m : gmap string build_row) : Z := map_fold (λ _ r n, Z.max (br_rowid r) n) 0 m.
Definition digest_cols (d : Digest) : string * string := (algorithm d, value d).
(** The columns of [snapshots_identity_idx] *)
Definition identity_cols (r : snapshot_row) :=
  (sr_namespace r, sr_repository r, sr_manifest r, sr_model_version r, sr_config r, sr_extractors r).
Definition insert_snapshot (now : string) (s : GraphSnapshot) : store unit :=
  let row := SnapshotRow (id_as_str (namespace (gs_repository s))) (id_as_str (repository_ref_id (gs_repository s)))
    (id_as_str (gs_source_revision_id s)) (digest_cols (gs_source_manifest_digest s)) (gs_graph_model_version s)
    (digest_cols (gs_analysis_config_digest s)) (digest_cols (gs_extractor_set_digest s)) (id_as_str (gs_completed_by s)) now in
  d ← query id;
  _ ← constraint (none (sd_snapshots d !! id_as_str (gs_id s))) "UNIQUE constraint failed: snapshots.id";
  _ ← constraint (forallb (λ kv, negb (bool_decide (identity_cols kv.2 = identity_cols row))) (map_to_list (sd_snapshots d)))
        "UNIQUE constraint failed: snapshots_identity_idx";
  _ ← constraint (0 <? gs_graph_model_version s) "CHECK constraint failed: graph_model_version";
  _ ← constraint (some (sd_builds d !! sr_completed_by row)) "FOREIGN KEY constraint failed";
  write (λ d, d <| sd_snapshots := <[id_as_str (gs_id s) := row]> (sd_snapshots d) |>).
Definition set_diagnostic_set (s : GraphSnapshot) : store unit :=
  d ← query id;
  _ ← constraint (some (sd_snapshots d !! id_as_str (gs_id s)) && some (sd_builds d !! id_as_str (gs_completed_by s)))
        "FOREIGN KEY constraint failed";
  write (λ d, d <| sd_diagnostic_sets := <[id_as_str (gs_id s) := id_as_str (gs_completed_by s)]> (sd_diagnostic_sets d) |>).
Definition found {A} (e : StoreError) (r : sidecar → res StoreError (option A)) : store A :=
  o ← fetch r; lift (ok_or e o).

(** ** [GraphStore] *)
Definition start_build (t : clock) (b : GraphBuild) : store unit :=
  _ ← require (bool_decide (gb_state b = BBuilding)) (InvalidTransition (gb_state b) "start");
  d ← query id;
  _ ← constraint (none (sd_builds d !! id_as_str (gb_id b))) "UNIQUE constraint failed: index_builds.id";
  write (λ d, d <| sd_builds := <[id_as_str (gb_id b) :=
    BuildRow (max_rowid (sd_builds d) + 1) (id_as_str (namespace (gb_repository b)))
      (id_as_str (repository_ref_id (gb_repository b))) (id_as_str (gb_source_revision_id b))
      (id_as_str (gb_prospective_snapshot_id b)) "building" (t 0%nat) None None]> (sd_builds d) |>).
Definition with_state (s : BuildState) (b : GraphBuild) : GraphBuild :=
  mk_build (gb_id b) (gb_repository b) (gb_source_revision_id b) (gb_prospective_snapshot_id b) s.
Definition fail_build (t : clock) (build_id : BuildId) (code : DiagnosticCode) : store GraphBuild :=
  b ← found (BuildNotFound (id_as_str build_id)) (λ d, load_build d build_id);
  _ ← require (bool_decide (gb_state b = BBuilding)) (InvalidTransition (gb_state b) "fail");
  _ ← write (update_build (id_as_str build_id) (λ r,
        r <| br_state := "failed" |> <| br_finished_at := Some (t 0%nat) |> <| br_failure_code := Some (code_str code) |>));
  mret (with_state BFailed b).
Definition complete_build (t : clock) (s : GraphSnapshot) : store GraphSnapshot :=
  b ← found (BuildNotFound (id_as_str (gs_completed_by s))) (λ d, load_build d (gs_completed_by s));
  _ ← require (bool_decide (gb_state b = BBuilding)) (InvalidTransition (gb_state b) "complete");
  _ ← lift (validate_snapshot_for_build s b);
  existing ← fetch (λ d, load_snapshot d (gs_id s));
  completed ← match existing with
              | Some existing => _ ← lift (validate_equivalent_snapshot s existing); mret existing
              | None => _ ← insert_snapshot (t 0%nat) s; mret s
              end;
  _ ← set_diagnostic_set s;
  _ ← write (update_build (id_as_str (gb_id b)) (λ r, r <| br_finished_at := Some (t 1%nat) |>));
  mret completed.

Definition version_of (v : PublishedView) : PublicationVersion := mk_version (vw_snapshot_id v) (vw_generation v).
Definition put_view (now : string) (request : PublishRequest) (snapshot : SnapshotId) (generation : Z) : store unit :=
  d ← query id;
  _ ← constraint (0 <? generation) "CHECK constraint failed: generation";
  _ ← constraint (some (sd_snapshots d !! id_as_str snapshot) && some (sd_builds d !! id_as_str (pq_build_id request)))
        "FOREIGN KEY constraint failed";
  write (λ d, d <| sd_views := <[key_of_view (pq_repository request) (pq_view_name request) :=
           ViewRow (id_as_str snapshot) (id_as_str (pq_build_id request)) generation now]> (sd_views d) |>).
(** The update of the pointer compares once more the row it replaces; inside
    the transaction it is the row that was read. *)
Definition publish_new (t : clock) (request : PublishRequest) (b : GraphBuild) (s : GraphSnapshot) (current : option PublishedView) :
  store PublicationOutcome :=
  let generation := match current with Some v => vw_generation v + 1 | None => 1 end in
  _ ← require (generation <? u64_modulus) (CorruptStore "attempt to add with overflow");
  _ ← require (generation <=? i64_max) (CorruptStore "publication generation overflow");
  _ ← put_view (t 0%nat) request (gs_id s) generation;
  _ ← write (update_build (id_as_str (gb_id b)) (λ r, r <| br_state := "published" |>));
  mret (ViewPublished (mk_view (pq_repository request) (pq_view_name request) (gs_id s) (gb_id b) generation)).
Definition supersede_older (b : GraphBuild) (current : PublishedView) : store PublicationOutcome :=
  d ← query id;
  let open := match sd_builds d !! id_as_str (gb_id b) with
              | Some r => String.eqb (br_state r) "building" || String.eqb (br_state r) "published"
              | None => false
              end in
  _ ← require open (CorruptStore ("failed to persist superseded state for build " +:+ id_as_str (gb_id b)));
  _ ← write (update_build (id_as_str (gb_id b)) (λ r, r <| br_state := "superseded" |>));
  mret (ViewSuperseded current).
Definition publish (t : clock) (request : PublishRequest) : store PublicationOutcome :=
  b ← found (BuildNotFound (id_as_str (pq_build_id request))) (λ d, load_build d (pq_build_id request));
  _ ← require (bool_decide (gb_repository b = pq_repository request)) (IdentityMismatch "repository");
  _ ← require (bool_decide (gb_state b = BComplete) || bool_decide (gb_state b = BPublished))
        (InvalidTransition (gb_state b) "publish");
  s ← found (SnapshotNotFound (id_as_str (gb_prospective_snapshot_id b))) (λ d, load_snapshot d (gb_prospective_snapshot_id b));
  current ← fetch (λ d, load_published_view d (pq_repository request) (pq_view_name request));
  let actual := version_of <$> current in
  _ ← require (bool_decide (pq_expected request = actual)) (PublicationConflict (pq_expected request) actual);
  match current with
  | Some view =>
    if decide (vw_snapshot_id view = gs_id s) then mret (ViewPublished view) else
    candidate ← fetch (λ d, build_order d (gb_id b));
    newest ← fetch (λ d, build_order d (vw_build_id view));
    if candidate <? newest then supersede_older b view else publish_new t request b s (Some view)
  | None => publish_new t request b s None
  end.
Definition supersede_build (build_id : BuildId) : store GraphBuild :=
  b ← found (BuildNotFound (id_as_str build_id)) (λ d, load_build d build_id);
  _ ← require (bool_decide (gb_state b = BComplete)) (InvalidTransition (gb_state b) "supersede");
  _ ← write (update_build (id_as_str build_id) (λ r, r <| br_state := "superseded" |>));
  mret (with_state BSuperseded b).
