(* ===== verification/GraphIndexStore.v ===== *)
(** Persistence of complete indexes and of reusable fragments
    ([src/src/repository_graph/index_store.rs]) and of diagnostics
    ([src/src/repository_graph/diagnostics_sqlite.rs]) in the sidecar, with the
    [CHECK], [UNIQUE] and [FOREIGN KEY] constraints of the tables they fill. *)
From S2P Require Import Prelude View Transact Wire Identity AgentData AgentWire GraphDomain GraphStore.
#[local] Open Scope list_scope.

(** ** Constraints of the schema *)
Definition is_ascii_letter (c : ascii) : bool :=
  let n := Ascii.nat_of_ascii c in (Nat.leb 65 n && Nat.leb n 90) || (Nat.leb 97 n && Nat.leb n 122).
Definition path_constraint (p : string) : bool :=
  negb (is_empty p) && negb (starts_with "/" p) && negb (has_byte "000"%char p) && negb (has_byte backslash p)
  && negb (contains "//" p) && negb (contains "/../" ("/" +:+ p +:+ "/")) && negb (contains "/./" ("/" +:+ p +:+ "/"))
  && negb (match p with String a (String b _) => is_ascii_letter a && Ascii.eqb b ":"%char | _ => false end).
Definition null_or (test : Z → bool) (o : option Z) : bool := match o with None => true | Some z => test z end.
(** A comparison with [NULL] is not false, so the constraint holds. *)
Definition span_constraint (c : span_cols) : bool :=
  null_or (Z.leb 0) (sc_start_byte c)
  && null_or (λ e, null_or (λ s, s <=? e) (sc_start_byte c)) (sc_end_byte c)
  && null_or (Z.leb 0) (sc_start_line c) && null_or (Z.leb 0) (sc_start_column c)
  && null_or (Z.leb 0) (sc_end_line c) && null_or (Z.leb 0) (sc_end_column c).
Definition fact_constraint (c : fact_cols) : bool :=
  (0 <? fc_contract_version c)
  && existsb (String.eqb (fc_resolution_state c)) ["resolved"; "unresolved"; "external"]
  && existsb (String.eqb (fc_confidence c)) ["exact"; "high"; "medium"; "low"]
  && span_constraint (fc_span c).
(** A foreign key with a [NULL] column holds. *)
Definition evidence_key (d : sidecar) (snapshot : string) (c : fact_cols) : bool :=
  match fc_evidence_path c with None => true | Some p => some (sd_files d !! (snapshot, p)) end.

Section statements.
Context {FT : FloatText} {JT : JsonText} {LC : Lowercase}.

(** ** Facts of a snapshot *)
Definition insert_file (s : GraphSnapshot) (f : SourceFileDescriptor) : store unit :=
  len ← lift (integer (sf_byte_len f) "file byte length");
  let key := (id_as_str (gs_id s), path_str (sf_path f)) in
  d ← query id;
  _ ← constraint (path_constraint key.2) "CHECK constraint failed: path";
  _ ← constraint (0 <=? len) "CHECK constraint failed: byte_length";
  _ ← constraint (none (sd_files d !! key)) "UNIQUE constraint failed: files.snapshot_id, files.path";
  _ ← constraint (some (sd_snapshots d !! key.1)) "FOREIGN KEY constraint failed";
  write (λ d, d <| sd_files := <[key := FileRow (algorithm (sf_content_identity f)) (value (sf_content_identity f)) len
                                       (file_mode (sf_file_mode f))]> (sd_files d) |>).
Definition insert_files (s : GraphSnapshot) : list SourceFileDescriptor → store unit := tx_each (insert_file s).
Definition insert_node (n : GraphNode) : store unit :=
  row ← lift (node_columns n);
  let key := (id_as_str (gn_snapshot_id n), id_as_str (gn_id n)) in
  d ← query id;
  _ ← constraint (fact_constraint (nr_fact row)) "CHECK constraint failed: nodes";
  _ ← constraint (none (sd_nodes d !! key)) "UNIQUE constraint failed: nodes.snapshot_id, nodes.id";
  _ ← constraint (some (sd_snapshots d !! key.1) && evidence_key d key.1 (nr_fact row)) "FOREIGN KEY constraint failed";
  write (λ d, d <| sd_nodes := <[key := row]> (sd_nodes d) |>).
Definition insert_nodes : list GraphNode → store unit := tx_each insert_node.
Definition insert_edge (e : GraphEdge) : store unit :=
  row ← lift (edge_columns e);
  let key := (id_as_str (ge_snapshot_id e), id_as_str (ge_id e)) in
  d ← query id;
  _ ← constraint (fact_constraint (er_fact row)) "CHECK constraint failed: edges";
  _ ← constraint (xorb (some (er_target_node_id row)) (some (er_external_target row))) "CHECK constraint failed: edges";
  _ ← constraint (none (sd_edges d !! key)) "UNIQUE constraint failed: edges.snapshot_id, edges.id";
  _ ← constraint (some (sd_snapshots d !! key.1) && some (sd_nodes d !! (key.1, er_source_node_id row))
                  && match er_target_node_id row with None => true | Some t => some (sd_nodes d !! (key.1, t)) end
                  && evidence_key d key.1 (er_fact row)) "FOREIGN KEY constraint failed";
  write (λ d, d <| sd_edges := <[key := row]> (sd_edges d) |>).
Definition insert_edges : list GraphEdge → store unit := tx_each insert_edge.

(** ** Diagnostics *)
Definition next_diagnostic (d : sidecar) : Z := map_fold (λ k _ n, Z.max k n) 0 (sd_diagnostics d) + 1.
Definition insert_diagnostic_row (row : diagnostic_row) : store unit :=
  d ← query id;
  _ ← constraint (existsb (String.eqb (gr_severity row)) ["info"; "warning"; "error"] && span_constraint (gr_span row))
        "CHECK constraint failed: diagnostics";
  _ ← constraint (some (sd_builds d !! gr_build_id row)
                  && match gr_snapshot_id row with None => true | Some s => some (sd_snapshots d !! s) end)
        "FOREIGN KEY constraint failed";
  write (λ d, d <| sd_diagnostics := <[next_diagnostic d := row]> (sd_diagnostics d) |>).
Definition insert_diagnostics : list GraphDiagnostic → store unit :=
  tx_each (λ g, row ← lift (diagnostic_columns g); insert_diagnostic_row row).
Definition replace_snapshot_diagnostics (s : GraphSnapshot) (l : list GraphDiagnostic) : store unit :=
  _ ← require (forallb (λ g, bool_decide (gd_build_id g = gs_completed_by s) && bool_decide (gd_snapshot_id g = Some (gs_id s))) l)
        (IdentityMismatch "snapshot diagnostics");
  _ ← write (λ d, d <| sd_diagnostics :=
        filter (λ kv, ¬ (gr_build_id kv.2 = id_as_str (gs_completed_by s) ∧ gr_snapshot_id kv.2 = Some (id_as_str (gs_id s))))
          (sd_diagnostics d) |>);
  _ ← insert_diagnostics l;
  set_diagnostic_set s.

(** ** The fragment cache *)
(** [cache_params] *)
Definition cache_params (k : FragmentCacheKey) : res StoreError cache_key :=
  len ← integer (fk_byte_len k) "fragment byte length";
  ROk ((repo_key (fk_repository k), path_str (fk_path k)),
       (algorithm (fk_content_identity k), value (fk_content_identity k), len, file_mode (fk_file_mode k)),
       digest_cols (fk_analysis_config_digest k),
       (id_as_str (xi_id (fk_extractor k)), xi_version (fk_extractor k), xi_contract_version (fk_extractor k))).
Definition load_cached_fragment (k : FragmentCacheKey) : store (option GraphFragment) :=
  key ← lift (cache_params k);
  d ← query id;
  match sd_cache d !! key with
  | None => mret None
  | Some row =>
    match json_parse (cr_fragment_json row) ≫= de_fragment with
    | Some f => mret (Some f)
    | None => _ ← write (λ d, d <| sd_cache := delete key (sd_cache d) |>); mret None
    end
  end.
Definition upsert_cached_fragment (now : string) (c : CachedFragment) : store unit :=
  key ← lift (cache_params (cf_key c));
  let text := json_text (ser_fragment (cf_fragment c)) in
  _ ← constraint ((0 <=? fk_byte_len (cf_key c)) && (0 <? xi_contract_version (fk_extractor (cf_key c))))
        "CHECK constraint failed: fragment_cache";
  write (λ d, d <| sd_cache := <[key := CacheRow text
           (match sd_cache d !! key with Some row => cr_created_at row | None => now end) now]> (sd_cache d) |>).
Fixpoint upsert_cached_fragments (t : clock) (l : list CachedFragment) : store unit :=
  match l with
  | [] => mret tt
  | c :: l => _ ← upsert_cached_fragment (t 0%nat) c; upsert_cached_fragments (λ i, t (S i)) l
  end.
Definition touch_cached_fragments (now : string) : list FragmentCacheKey → store unit :=
  tx_each (λ k, key ← lift (cache_params k);
                write (λ d, d <| sd_cache := alter (λ r, r <| cr_last_used_at := now |>) key (sd_cache d) |>)).

(** ** Metrics *)
Definition metrics_columns (m : IndexBuildMetrics) : res StoreError IndexBuildMetrics :=
  a ← integer (im_discovered_files m) "discovered file count"; b ← integer (im_reused_files m) "reused file count";
  c ← integer (im_parsed_files m) "parsed file count"; d ← integer (im_skipped_files m) "skipped file count";
  e ← integer (im_failed_files m) "failed file count"; f ← integer (im_processed_bytes m) "processed byte count";
  g ← integer (im_nodes m) "node count"; h ← integer (im_edges m) "edge count";
  i ← integer (im_diagnostics m) "diagnostic count"; j ← integer (im_duration_ms m) "duration";
  ROk (mk_metrics a b c d e f g h i j).
Definition metrics_constraint (m : IndexBuildMetrics) : bool :=
  forallb (Z.leb 0) [im_discovered_files m; im_reused_files m; im_parsed_files m; im_skipped_files m; im_failed_files m;
                     im_processed_bytes m; im_nodes m; im_edges m; im_diagnostics m; im_duration_ms m].
Definition upsert_metrics (build_id : BuildId) (m : IndexBuildMetrics) : store unit :=
  row ← lift (metrics_columns m);
  d ← query id;
  _ ← constraint (metrics_constraint row) "CHECK constraint failed: build_metrics";
  _ ← constraint (some (sd_builds d !! id_as_str build_id)) "FOREIGN KEY constraint failed";
  write (λ d, d <| sd_metrics := <[id_as_str build_id := row]> (sd_metrics d) |>).
Definition record_build_metrics : BuildId → IndexBuildMetrics → store unit := upsert_metrics.
Definition unsigned_column (z : Z) : res StoreError Z := ok_or (StoreDatabase "integral value out of range") (unsigned z).
Definition index_build_metrics (d : sidecar) (build_id : BuildId) : res StoreError (option IndexBuildMetrics) :=
  match sd_metrics d !! id_as_str build_id with
  | None => ROk None
  | Some m =>
    _ ← unsigned_column (im_discovered_files m); _ ← unsigned_column (im_reused_files m);
    _ ← unsigned_column (im_parsed_files m); _ ← unsigned_column (im_skipped_files m);
    _ ← unsigned_column (im_failed_files m); _ ← unsigned_column (im_processed_bytes m);
    _ ← unsigned_column (im_nodes m); _ ← unsigned_column (im_edges m);
    _ ← unsigned_column (im_diagnostics m); _ ← unsigned_column (im_duration_ms m);
    ROk (Some m)
  end.

(** ** Reuse of a complete snapshot *)
Definition rows_of {V} (m : gmap (string * string) V) (snapshot : string) : gmap (string * string) V :=
  filter (λ kv, kv.1.1 = snapshot) m.
Definition row_count {V} (m : gmap (string * string) V) (snapshot : string) : Z := Z.of_nat (size (rows_of m snapshot)).
Definition snapshot_fact_counts (d : sidecar) (s : SnapshotId) : res StoreError (Z * Z * Z) :=
  a ← unsigned_column (row_count (sd_files d) (id_as_str s)); b ← unsigned_column (row_count (sd_nodes d) (id_as_str s));
  c ← unsigned_column (row_count (sd_edges d) (id_as_str s)); ROk (a, b, c).
(** The third column of the diagnostics query *)
Definition plain_warning (snapshot : string) (r : diagnostic_row) : bool :=
  opt_is (gr_snapshot_id r) snapshot && String.eqb (gr_severity r) "warning"
  && none (sc_start_byte (gr_span r)) && none (sc_start_line (gr_span r)) && none (sc_start_column (gr_span r))
  && none (sc_end_byte (gr_span r)) && none (sc_end_line (gr_span r)) && none (sc_end_column (gr_span r))
  && String.eqb (gr_metadata_json r) "{}".
Fixpoint remove_all (snapshot : string) (expected : gset (string * option string)) (rows : list diagnostic_row) : bool :=
  match rows with
  | [] => bool_decide (expected = ∅)
  | r :: rows =>
    plain_warning snapshot r && bool_decide ((gr_code r, gr_path r) ∈ expected)
    && remove_all snapshot (expected ∖ {[(gr_code r, gr_path r)]}) rows
  end.
Definition source_diagnostic_key (g : GraphDiagnostic) : string * option string :=
  (code_str (gd_code g), (path_str ∘ dl_path) <$> gd_location g).
Definition diagnostics_match_source (d : sidecar) (s : GraphSnapshot) (build : string) (l : list GraphDiagnostic) : bool :=
  if existsb (λ g, negb (bool_decide (gd_severity g = SevWarning)) || some (gd_location g ≫= dl_span)
                   || negb (bool_decide (gd_metrics g = ∅)) || negb (bool_decide (gd_snapshot_id g = Some (gs_id s)))) l
  then false else
  let expected : gset _ := list_to_set (source_diagnostic_key <$> l) in
  if negb (bool_decide (size expected = length l)) then false
  else remove_all (id_as_str (gs_id s)) expected
         (snd <$> map_to_list (filter (λ kv, gr_build_id kv.2 = build) (sd_diagnostics d))).
Definition reusable_index_metrics (d : sidecar) (requested : GraphSnapshot) (source : list GraphDiagnostic) :
  res StoreError (option IndexBuildMetrics) :=
  o ← load_snapshot d (gs_id requested);
  match o with
  | None => ROk None
  | Some s =>
    _ ← validate_equivalent_snapshot requested s;
    let sid := id_as_str (gs_id s) in
    match sd_metrics d !! id_as_str (gs_completed_by s), sd_diagnostic_sets d !! sid with
    | Some m, Some diagnostics_build =>
      files ← unsigned_column (im_discovered_files m); nodes ← unsigned_column (im_nodes m);
      edges ← unsigned_column (im_edges m);
      '(actual_files, actual_nodes, actual_edges) ← snapshot_fact_counts d (gs_id s);
      if negb ((files =? actual_files) && (nodes =? actual_nodes) && (edges =? actual_edges)) then ROk None else
      if diagnostics_match_source d s (id_as_str (gs_completed_by s)) source && diagnostics_match_source d s diagnostics_build source
      then ROk (Some (default_metrics <| im_discovered_files := files |> <| im_nodes := nodes |> <| im_edges := edges |>
                        <| im_diagnostics := Z.of_nat (length source) |>))
      else ROk None
    | _, _ => ROk None
    end
  end.

(** ** [complete_index] *)
Definition check_reuse (c : IndexCommit) : store unit :=
  if negb (ic_reuse_completed_snapshot c) then mret tt else
  _ ← require (Nat.eqb (length (ic_files c) + length (gf_nodes (ic_graph c)) + length (gf_edges (ic_graph c))
                        + length (ic_cache_writes c) + length (ic_cache_hits c)) 0)
        (IdentityMismatch "reused snapshot payload");
  existing ← found (IdentityMismatch "reused snapshot eligibility")
               (λ d, reusable_index_metrics d (ic_snapshot c) (gf_diagnostics (ic_graph c)));
  let m := ic_metrics c in
  require ((im_discovered_files existing =? im_discovered_files m) && (im_nodes existing =? im_nodes m)
           && (im_edges existing =? im_edges m) && (im_diagnostics existing =? im_diagnostics m))
    (IdentityMismatch "reused snapshot metrics").
Definition insert_facts (now : string) (c : IndexCommit) : store unit :=
  _ ← insert_snapshot now (ic_snapshot c);
  _ ← insert_files (ic_snapshot c) (ic_files c);
  _ ← insert_nodes (gf_nodes (ic_graph c));
  insert_edges (gf_edges (ic_graph c)).
(** [timestamp()] is read when the snapshot is inserted, once for all cache
    hits, once for the build and once for every cached fragment. *)
Definition complete_index (t : clock) (c : IndexCommit) : store GraphSnapshot :=
  let s := ic_snapshot c in
  b ← found (BuildNotFound (id_as_str (gs_completed_by s))) (λ d, load_build d (gs_completed_by s));
  _ ← require (bool_decide (gb_state b = BBuilding)) (InvalidTransition (gb_state b) "complete index");
  _ ← lift (validate_snapshot_for_build s b);
  _ ← check_reuse c;
  existing ← fetch (λ d, load_snapshot d (gs_id s));
  completed ← match existing with
              | Some existing => _ ← lift (validate_equivalent_snapshot s existing); mret existing
              | None => _ ← insert_facts (t 0%nat) c; mret s
              end;
  _ ← replace_snapshot_diagnostics s (gf_diagnostics (ic_graph c));
  _ ← upsert_cached_fragments (λ i, t (3 + i)%nat) (ic_cache_writes c);
  _ ← touch_cached_fragments (t 1%nat) (ic_cache_hits c);
  _ ← upsert_metrics (gs_completed_by s) (ic_metrics c);
  _ ← write (update_build (id_as_str (gs_completed_by s)) (λ r, r <| br_finished_at := Some (t 2%nat) |>));
  mret completed.

(** ** [diagnostics_sqlite.rs] *)
Inductive DiagnosticStoreError : Type := DiagInvalidSpan | DiagCorrupt (what : string) | DiagDatabase (what : string) | DiagSerialization.
Definition record_diagnostic (g : GraphDiagnostic) : tx sidecar DiagnosticStoreError unit := λ d,
  match diagnostic_columns g with
  | RErr _ => RErr DiagInvalidSpan
  | ROk row =>
    match insert_diagnostic_row row d with
    | ROk r => ROk r
    | RErr (StoreDatabase what) => RErr (DiagDatabase what)
    | RErr _ => RErr (DiagDatabase "")
    end
  end.
Definition source_position (byte : Z) (line column : option Z) : res DiagnosticStoreError SourcePosition :=
  b ← ok_or DiagInvalidSpan (unsigned byte); l ← ok_or DiagInvalidSpan (optional_u32 line);
  c ← ok_or DiagInvalidSpan (optional_u32 column); ROk (mk_position b l c).
Definition span_from_row (c : span_cols) : res DiagnosticStoreError (option SourceSpan) :=
  match sc_start_byte c, sc_end_byte c with
  | None, None =>
    if none (sc_start_line c) && none (sc_start_column c) && none (sc_end_line c) && none (sc_end_column c)
    then ROk None else RErr DiagInvalidSpan
  | Some a, Some b =>
    if a <=? b
    then x ← source_position a (sc_start_line c) (sc_start_column c); y ← source_position b (sc_end_line c) (sc_end_column c);
         ROk (Some (mk_span x y))
    else RErr DiagInvalidSpan
  | _, _ => RErr DiagInvalidSpan
  end.
Definition diagnostic_from_row (build_id : BuildId) (r : diagnostic_row) : res DiagnosticStoreError GraphDiagnostic :=
  span ← span_from_row (gr_span r);
  location ← match gr_path r, span with
             | Some p, _ => p ← ok_or (DiagCorrupt "path") (as_path p); ROk (Some (mk_location p span))
             | None, None => ROk None
             | None, Some _ => RErr DiagInvalidSpan
             end;
  s ← match gr_snapshot_id r with None => ROk None | Some s => Some <$> ok_or (DiagCorrupt "snapshot id") (as_id s) end;
  v ← ok_or (DiagCorrupt "unknown diagnostic severity") (named severity_name severities (gr_severity r));
  c ← ok_or (DiagCorrupt "code") (diagnostic_code_new (gr_code r));
  m ← ok_or DiagSerialization (json_parse (gr_metadata_json r) ≫= de_map diagnostic_code_new de_i64);
  ROk (mk_diagnostic build_id s v c location m).
Fixpoint rmapM {E A B} (f : A → res E B) (l : list A) : res E (list B) :=
  match l with [] => ROk [] | a :: l => b ← f a; bs ← rmapM f l; ROk (b :: bs) end.
Definition diagnostics_for_build (d : sidecar) (build_id : BuildId) : res DiagnosticStoreError (list GraphDiagnostic) :=
  rmapM (λ kv, diagnostic_from_row build_id kv.2)
    (order_by (on_key fst Z.compare) (map_to_list (filter (λ kv, gr_build_id kv.2 = id_as_str build_id) (sd_diagnostics d)))).
End statements.
