(* ===== verification/GraphMaintenance.v ===== *)
(** Refresh leases, recovery of interrupted builds and retention of the
    sidecar: [src/src/repository_graph/maintenance.rs].  The readings of the
    clocks are arguments: milliseconds since the epoch for leases, text for
    [finished_at]. *)
From S2P Require Import Prelude View Transact Wire Identity AgentData AgentWire Text GraphDomain GraphStore.
#[local] Open Scope list_scope.

Definition INTERRUPTED_BUILD_CODE : string := "build.interrupted".
Record RetentionConfig := mk_retention { rc_max_snapshots : Z; rc_max_failed_builds : Z }.
Record RetentionProtection := mk_protection {
  rp_snapshot_ids : gset SnapshotId;
  rp_published_views : gset PublishedViewName }.
Record GraphMaintenanceReport := mk_report {
  mr_interrupted_builds : Z;
  mr_expired_refresh_leases : Z;
  mr_removed_views : Z;
  mr_removed_snapshots : Z;
  mr_removed_builds : Z;
  mr_removed_fragments : Z }.
Definition pending_recovery (r : GraphMaintenanceReport) : Z := mr_interrupted_builds r + mr_expired_refresh_leases r.
Inductive RefreshLeaseOutcome : Type := LeaseAcquired | LeaseBusy.

(** [anyhow] errors by their message. *)
Abbreviation upkeep A := (tx sidecar string A) (only parsing).
Definition fk_failed : string := "FOREIGN KEY constraint failed".

(** ** Refresh leases *)
(** [unix_millis], of a clock that reads [ms] milliseconds after the epoch *)
Definition unix_millis (ms : Z) : res string Z :=
  if ms <? 0 then RErr "system clock is before the Unix epoch"
  else if ms <=? i64_max then ROk ms else RErr "Unix timestamp does not fit SQLite integer".
Definition lease_expiration (now ttl : Z) : res string Z :=
  _ ← rcheck (ttl <=? i64_max) "refresh lease TTL is too large";
  _ ← rcheck (now + ttl <=? i64_max) "refresh lease expiration overflow";
  ROk (now + ttl).
Definition drop_expired_leases (now : Z) (d : sidecar) : sidecar :=
  d <| sd_leases := filter (λ kv, now < lr_expires_at_ms kv.2) (sd_leases d) |>.
Definition acquire_refresh_lease (ms ttl : Z) (r : RepositoryRef) (view : PublishedViewName) (owner : string) : upkeep RefreshLeaseOutcome :=
  now ← lift (unix_millis ms);
  expires ← lift (lease_expiration now ttl);
  _ ← write (drop_expired_leases now);
  d ← query id;
  match sd_leases d !! key_of_view r view with
  | Some _ => mret LeaseBusy
  | None =>
    _ ← write (λ d, d <| sd_leases := <[key_of_view r view := LeaseRow owner now expires]> (sd_leases d) |>);
    mret LeaseAcquired
  end.
Definition release_refresh_lease (r : RepositoryRef) (view : PublishedViewName) (owner : string) : upkeep bool :=
  d ← query id;
  match sd_leases d !! key_of_view r view with
  | Some row =>
    if String.eqb (lr_owner_token row) owner
    then _ ← write (λ d, d <| sd_leases := delete (key_of_view r view) (sd_leases d) |>); mret true
    else mret false
  | None => mret false
  end.
Definition renew_refresh_lease_at (ms ttl : Z) (r : RepositoryRef) (view : PublishedViewName) (owner : string) : upkeep bool :=
  now ← lift (unix_millis ms);
  expires ← lift (lease_expiration now ttl);
  d ← query id;
  match sd_leases d !! key_of_view r view with
  | Some row =>
    if String.eqb (lr_owner_token row) owner && (now <? lr_expires_at_ms row)
    then _ ← write (λ d, d <| sd_leases := <[key_of_view r view := row <| lr_expires_at_ms := expires |>]> (sd_leases d) |>);
         mret true
    else mret false
  | None => mret false
  end.

(** The heartbeat's loop over the outcomes of its wakes: a renewal by which
    the lease is still owned, one by which it is lost, or an error, with the
    milliseconds since the last renewal. *)
Inductive wake : Type := Renewed (owned : bool) | RenewFailed (elapsed : Z).
Fixpoint heartbeat (ttl : Z) (wakes : list wake) : bool :=
  match wakes with
  | [] => true
  | Renewed true :: ws => heartbeat ttl ws
  | Renewed false :: _ => false
  | RenewFailed elapsed :: ws => if elapsed <? ttl then heartbeat ttl ws else false
  end.

(** ** Recovery *)
Definition owned_build (now : Z) (d : sidecar) (build : string) : bool :=
  existsb (λ kv, String.eqb (lr_owner_token kv.2) build && (now <? lr_expires_at_ms kv.2)) (map_to_list (sd_leases d)).
Definition unfinished (r : build_row) : bool := String.eqb (br_state r) "building" && none (br_finished_at r).
Definition interrupted (now : Z) (d : sidecar) (id : string) (r : build_row) : bool :=
  unfinished r && negb (owned_build now d id).
Definition interrupted_builds (now : Z) (d : sidecar) : gmap string build_row :=
  filter (λ kv, interrupted now d kv.1 kv.2 = true) (sd_builds d).
Definition expired_leases (now : Z) (d : sidecar) : gmap view_key lease_row :=
  filter (λ kv, lr_expires_at_ms kv.2 ≤ now) (sd_leases d).
Definition count {K V} `{Countable K} (m : gmap K V) : Z := Z.of_nat (size m).
Definition preview_recovery (ms : Z) (d : sidecar) : res string GraphMaintenanceReport :=
  now ← unix_millis ms;
  ROk (mk_report (count (interrupted_builds now d)) (count (expired_leases now d)) 0 0 0 0).
Definition interrupt (finished : string) (r : build_row) : build_row :=
  r <| br_state := "failed" |> <| br_finished_at := Some finished |> <| br_failure_code := Some INTERRUPTED_BUILD_CODE |>.
Definition recover_interrupted_builds (ms : Z) (finished : string) : upkeep GraphMaintenanceReport :=
  now ← lift (unix_millis ms);
  d ← query id;
  _ ← write (λ d, d <| sd_builds := map_imap (λ k r, Some (if interrupted now d k r then interrupt finished r else r)) (sd_builds d) |>);
  _ ← write (drop_expired_leases now);
  mret (mk_report (count (interrupted_builds now d)) (count (expired_leases now d)) 0 0 0 0).

(** ** Retention *)
(** SQLite's [LIKE 'p%'] folds ASCII case. *)
Fixpoint like_prefix (p s : string) : bool :=
  match p, s with
  | "", _ => true
  | String a p, String b s => Ascii.eqb (ascii_lower a) (ascii_lower b) && like_prefix p s
  | _, _ => false
  end.
Definition is_task_view (name : string) : bool := like_prefix "task-overlay:" name || like_prefix "task-baseline:" name.
Definition task_views (d : sidecar) (k : string * string) : list string :=
  (λ kv, kv.1.2) <$> map_to_list (filter (λ kv, kv.1.1 = k ∧ is_task_view kv.1.2 = true) (sd_views d)).
Fixpoint remove_views (k : string * string) (protected : gset string) (names : list string) : upkeep Z :=
  match names with
  | [] => mret 0
  | name :: names =>
    if decide (name ∈ protected) then remove_views k protected names else
    d ← query id;
    let removed := if some (sd_views d !! (k, name)) then 1 else 0 in
    _ ← write (λ d, d <| sd_views := delete (k, name) (sd_views d) |>);
    n ← remove_views k protected names; mret (removed + n)
  end.
Definition published_snapshots (d : sidecar) (k : string * string) : gset string :=
  list_to_set ((λ kv, vr_snapshot_id kv.2) <$> map_to_list (filter (λ kv, kv.1.1 = k) (sd_views d))).
Definition snapshots_newest_first (d : sidecar) (k : string * string) : list string :=
  fst <$> order_by (lex (on_key (sr_created_at ∘ snd) (desc String.compare)) (on_key fst (desc String.compare)))
            (map_to_list (filter (λ kv, (sr_namespace kv.2, sr_repository kv.2) = k) (sd_snapshots d))).
(** [DELETE FROM snapshots]: the facts go with the snapshot, a view that points to it refuses. *)
Definition cascade_snapshot (id : string) (d : sidecar) : sidecar :=
  d <| sd_snapshots := delete id (sd_snapshots d) |>
    <| sd_files := filter (λ kv, kv.1.1 ≠ id) (sd_files d) |>
    <| sd_nodes := filter (λ kv, kv.1.1 ≠ id) (sd_nodes d) |>
    <| sd_edges := filter (λ kv, kv.1.1 ≠ id) (sd_edges d) |>
    <| sd_diagnostics := filter (λ kv, gr_snapshot_id kv.2 ≠ Some id) (sd_diagnostics d) |>
    <| sd_diagnostic_sets := delete id (sd_diagnostic_sets d) |>.
Definition delete_snapshot (sid : string) : upkeep Z :=
  d ← query id;
  if none (sd_snapshots d !! sid) then mret 0 else
  _ ← require (forallb (λ kv, negb (String.eqb (vr_snapshot_id kv.2) sid)) (map_to_list (sd_views d))) fk_failed;
  _ ← write (cascade_snapshot sid);
  mret 1.
Fixpoint remove_snapshots (max_snapshots : Z) (kept : gset string) (retained : Z) (ids : list string) : upkeep Z :=
  match ids with
  | [] => mret 0
  | id :: ids =>
    if decide (id ∈ kept) then remove_snapshots max_snapshots kept retained ids
    else if retained <? max_snapshots then remove_snapshots max_snapshots kept (retained + 1) ids
    else removed ← delete_snapshot id;
         n ← remove_snapshots max_snapshots kept retained ids; mret (removed + n)
  end.
(** The files are those of every snapshot of every repository. *)
Definition cache_key_used (d : sidecar) (k : cache_key) : bool :=
  let '(((_, path), (algorithm, digest, len, _)), _, _) := k in
  existsb (λ kv, String.eqb kv.1.2 path && String.eqb (fr_content_algorithm kv.2) algorithm
                 && String.eqb (fr_content_digest kv.2) digest && (fr_byte_length kv.2 =? len)) (map_to_list (sd_files d)).
Definition unused_fragment (d : sidecar) (k : string * string) (key : cache_key) : bool :=
  bool_decide (key.1.1.1.1 = k) && negb (cache_key_used d key).
Definition remove_fragments (k : string * string) : upkeep Z :=
  d ← query id;
  _ ← write (λ d, d <| sd_cache := filter (λ kv, unused_fragment d k kv.1 = false) (sd_cache d) |>);
  mret (count (filter (λ kv, unused_fragment d k kv.1 = true) (sd_cache d))).
Definition of_repository (k : string * string) (r : build_row) : bool := bool_decide ((br_namespace r, br_repository r) = k).
Definition retained_failed_builds (d : sidecar) (k : string * string) (limit : Z) : gset string :=
  list_to_set (fst <$> take (Z.to_nat limit)
    (order_by (lex (on_key (br_started_at ∘ snd) (desc String.compare)) (on_key fst (desc String.compare)))
      (map_to_list (filter (λ kv, of_repository k kv.2 = true ∧ br_state kv.2 = "failed") (sd_builds d))))).
Definition referenced_build (d : sidecar) (id : string) : bool :=
  existsb (λ kv, String.eqb (sr_completed_by kv.2) id) (map_to_list (sd_snapshots d))
  || existsb (λ kv, String.eqb (vr_build_id kv.2) id) (map_to_list (sd_views d))
  || existsb (λ kv, String.eqb kv.2 id) (map_to_list (sd_diagnostic_sets d)).
Definition orphaned_builds (d : sidecar) (k : string * string) : list (string * string) :=
  (λ kv, (kv.1, br_state kv.2)) <$>
    map_to_list (filter (λ kv, of_repository k kv.2 && negb (unfinished kv.2) && negb (referenced_build d kv.1) = true) (sd_builds d)).
(** [DELETE FROM index_builds]: diagnostics and metrics go with the build, the other references refuse. *)
Definition cascade_build (id : string) (d : sidecar) : sidecar :=
  d <| sd_builds := delete id (sd_builds d) |>
    <| sd_diagnostics := filter (λ kv, gr_build_id kv.2 ≠ id) (sd_diagnostics d) |>
    <| sd_metrics := delete id (sd_metrics d) |>.
Definition delete_build (bid : string) : upkeep Z :=
  d ← query id;
  if none (sd_builds d !! bid) then mret 0 else
  _ ← require (negb (referenced_build d bid)) fk_failed;
  _ ← write (cascade_build bid);
  mret 1.
Fixpoint remove_builds (retained : gset string) (builds : list (string * string)) : upkeep Z :=
  match builds with
  | [] => mret 0
  | (id, state) :: builds =>
    if String.eqb state "failed" && bool_decide (id ∈ retained) then remove_builds retained builds
    else removed ← delete_build id; n ← remove_builds retained builds; mret (removed + n)
  end.
Definition collect_garbage (r : RepositoryRef) (config : RetentionConfig) (p : RetentionProtection) : upkeep GraphMaintenanceReport :=
  let k := repo_key r in
  views ← query (λ d, task_views d k);
  removed_views ← remove_views k (set_map id_as_str (rp_published_views p)) views;
  published ← query (λ d, published_snapshots d k);
  snapshots ← query (λ d, snapshots_newest_first d k);
  removed_snapshots ← remove_snapshots (rc_max_snapshots config) (published ∪ set_map id_as_str (rp_snapshot_ids p)) 0 snapshots;
  removed_fragments ← remove_fragments k;
  retained ← query (λ d, retained_failed_builds d k (rc_max_failed_builds config));
  orphaned ← query (λ d, orphaned_builds d k);
  removed_builds ← remove_builds retained orphaned;
  mret (mk_report 0 0 removed_views removed_snapshots removed_builds removed_fragments).
