(* ===== verification/GraphInvariant.v ===== *)
(** The invariant of the repository graph's sidecar and that every statement
    keeps it: the references between its tables, and that a build that has
    finished has its snapshot. *)
From S2P Require Import Prelude View Transact Wire Identity AgentData AgentWire Text GraphDomain GraphStore GraphIndexStore GraphMaintenance.
#[local] Open Scope list_scope.
Create HintDb graph.

(** ** Rows *)
Definition valid_id (s : string) : Prop := is_Some (as_id s).
Definition valid_digest (p : string * string) : Prop := is_Some (as_digest p.1 p.2).
Definition build_repo (r : build_row) : string * string := (br_namespace r, br_repository r).
Definition snapshot_repo (r : snapshot_row) : string * string := (sr_namespace r, sr_repository r).
Definition build_states : list string := ["building"; "published"; "failed"; "superseded"].
Record build_ok (r : build_row) : Prop := {
  bo_namespace : valid_id (br_namespace r);
  bo_repository : valid_id (br_repository r);
  bo_source : valid_id (br_source_revision_id r);
  bo_prospective : valid_id (br_prospective r);
  bo_state : br_state r ∈ build_states }.
Record snapshot_ok (d : sidecar) (s : string) (r : snapshot_row) : Prop := {
  so_namespace : valid_id (sr_namespace r);
  so_repository : valid_id (sr_repository r);
  so_source : valid_id (sr_source_revision_id r);
  so_manifest : valid_digest (sr_manifest r);
  so_config : valid_digest (sr_config r);
  so_extractors : valid_digest (sr_extractors r);
  so_version : 0 < sr_model_version r < u32_modulus;
  so_completed : valid_id (sr_completed_by r);
  so_build : ∃ b, sd_builds d !! sr_completed_by r = Some b ∧ br_prospective b = s ∧ build_repo b = snapshot_repo r }.
Record view_ok (d : sidecar) (k : view_key) (v : view_row) : Prop := {
  vo_snapshot_id : valid_id (vr_snapshot_id v);
  vo_build_id : valid_id (vr_build_id v);
  vo_generation : 0 < vr_generation v ≤ i64_max;
  vo_snapshot : ∃ s, sd_snapshots d !! vr_snapshot_id v = Some s ∧ snapshot_repo s = k.1;
  vo_build : ∃ b, sd_builds d !! vr_build_id v = Some b ∧ br_prospective b = vr_snapshot_id v ∧ build_repo b = k.1 }.
Definition set_ok (d : sidecar) (s b : string) : Prop :=
  is_Some (sd_snapshots d !! s) ∧ ∃ r, sd_builds d !! b = Some r ∧ br_prospective r = s.
Definition file_ok (d : sidecar) (k : string * string) (r : file_row) : Prop :=
  is_Some (sd_snapshots d !! k.1) ∧ path_constraint k.2 = true.
Definition node_ok (d : sidecar) (k : string * string) (r : node_row) : Prop :=
  is_Some (sd_snapshots d !! k.1) ∧ evidence_key d k.1 (nr_fact r) = true.
Definition edge_ok (d : sidecar) (k : string * string) (r : edge_row) : Prop :=
  is_Some (sd_snapshots d !! k.1) ∧ is_Some (sd_nodes d !! (k.1, er_source_node_id r))
  ∧ (∀ t, er_target_node_id r = Some t → is_Some (sd_nodes d !! (k.1, t))) ∧ evidence_key d k.1 (er_fact r) = true.
Definition diagnostic_ok (d : sidecar) (k : Z) (r : diagnostic_row) : Prop :=
  is_Some (sd_builds d !! gr_build_id r) ∧ ∀ s, gr_snapshot_id r = Some s → is_Some (sd_snapshots d !! s).
Definition metrics_ok (d : sidecar) (b : string) (m : IndexBuildMetrics) : Prop :=
  is_Some (sd_builds d !! b) ∧ metrics_constraint m = true.
(** A build that completed its snapshot *)
Definition completed (r : build_row) : Prop :=
  br_state r = "published" ∨ br_state r = "superseded" ∨ (br_state r = "building" ∧ is_Some (br_finished_at r)).
Definition finished_ok (d : sidecar) (b : string) (r : build_row) : Prop :=
  completed r → ∃ s, sd_snapshots d !! br_prospective r = Some s ∧ snapshot_repo s = build_repo r.
Definition rowids_distinct (m : gmap string build_row) : Prop :=
  ∀ b b' r r', m !! b = Some r → m !! b' = Some r' → br_rowid r = br_rowid r' → b = b'.

(** The references; and, apart from them, that finished builds have their
    snapshot, which retention restores only at its end. *)
Record linked (d : sidecar) : Prop := {
  lk_builds : map_Forall (λ _, build_ok) (sd_builds d);
  lk_order : rowids_distinct (sd_builds d);
  lk_snapshots : map_Forall (snapshot_ok d) (sd_snapshots d);
  lk_views : map_Forall (view_ok d) (sd_views d);
  lk_sets : map_Forall (set_ok d) (sd_diagnostic_sets d);
  lk_files : map_Forall (file_ok d) (sd_files d);
  lk_nodes : map_Forall (node_ok d) (sd_nodes d);
  lk_edges : map_Forall (edge_ok d) (sd_edges d);
  lk_diagnostics : map_Forall (diagnostic_ok d) (sd_diagnostics d);
  lk_metrics : map_Forall (metrics_ok d) (sd_metrics d) }.
Record sidecar_ok (d : sidecar) : Prop := {
  ok_linked : linked d;
  ok_finished : map_Forall (finished_ok d) (sd_builds d) }.

(** ** Growth: rows are added, builds keep their identity *)
Definition same_build (r r' : build_row) : Prop :=
  br_rowid r' = br_rowid r ∧ build_repo r' = build_repo r ∧ br_source_revision_id r' = br_source_revision_id r
  ∧ br_prospective r' = br_prospective r.
#[global] Instance same_build_preorder : PreOrder same_build.
Proof. unfold same_build. split; [firstorder|]. intros a b c Hab Hbc. destruct Hab as (?&?&?&?), Hbc as (?&?&?&?). split_and!; congruence. Qed.
Record grows (d d' : sidecar) : Prop := {
  gw_builds : ∀ b r, sd_builds d !! b = Some r → ∃ r', sd_builds d' !! b = Some r' ∧ same_build r r';
  gw_snapshots : sd_snapshots d ⊆ sd_snapshots d';
  gw_files : sd_files d ⊆ sd_files d';
  gw_nodes : sd_nodes d ⊆ sd_nodes d' }.
#[global] Instance grows_preorder : PreOrder grows.
Proof.
  split.
  - intros d. split; [|done..]. intros b r H. by exists r.
  - intros a b c [] []. split; [|by etrans..]. intros x r H.
    apply gw_builds0 in H as (r1 & H1 & E1). apply gw_builds1 in H1 as (r2 & H2 & E2). exists r2. split; [done|by etrans].
Qed.

Lemma is_Some_subseteq {K V} `{Countable K} (m m' : gmap K V) k : m ⊆ m' → is_Some (m !! k) → is_Some (m' !! k).
Proof. intros Hm [x Hx]. exists x. by apply (lookup_weaken m). Qed.
#[export] Hint Resolve is_Some_subseteq : graph.
Lemma grows_build d d' b : grows d d' → is_Some (sd_builds d !! b) → is_Some (sd_builds d' !! b).
Proof. intros G [r H]. by apply (gw_builds _ _ G) in H as (r' & -> & _). Qed.
Lemma grows_build_at d d' b r (P : build_row → Prop) : (∀ r r', same_build r r' → P r → P r') → grows d d' →
  sd_builds d !! b = Some r → P r → ∃ r', sd_builds d' !! b = Some r' ∧ P r'.
Proof. intros HP G H Hr. apply (gw_builds _ _ G) in H as (r' & H & E). eauto. Qed.
Lemma grows_snapshot_ok d d' s r : grows d d' → snapshot_ok d s r → snapshot_ok d' s r.
Proof.
  intros G []. split; [done..|]. destruct so_build0 as (b & Hb & Hs & Hr).
  apply (gw_builds _ _ G) in Hb as (b' & Hb' & _ & Er & _ & Ep). exists b'. split_and!; [done|congruence..].
Qed.
Lemma grows_view_ok d d' k v : grows d d' → view_ok d k v → view_ok d' k v.
Proof.
  intros G []. split; [done..| |].
  - destruct vo_snapshot0 as (s & Hs & E). exists s. split; [|done]. by apply (lookup_weaken (sd_snapshots d)), gw_snapshots.
  - destruct vo_build0 as (b & Hb & Hs & Hr).
    apply (gw_builds _ _ G) in Hb as (b' & Hb' & _ & Er & _ & Ep). exists b'. split_and!; [done|congruence..].
Qed.
Lemma grows_set_ok d d' s b : grows d d' → set_ok d s b → set_ok d' s b.
Proof.
  intros G [Hs (r & Hr & E)]. split; [eapply is_Some_subseteq; [by apply (gw_snapshots _ _ G)|done]|].
  apply (gw_builds _ _ G) in Hr as (r' & Hr' & _ & _ & _ & Ep). exists r'. split; [done|congruence].
Qed.
Lemma grows_evidence d d' s c : grows d d' → evidence_key d s c = true → evidence_key d' s c = true.
Proof.
  intros G. unfold evidence_key. destruct (fc_evidence_path c) as [p|]; [|done]. unfold some.
  destruct (sd_files d !! _) as [f|] eqn:E; [|done]. by rewrite (lookup_weaken _ _ _ _ E (gw_files _ _ G)).
Qed.
Lemma grows_file_ok d d' k r : grows d d' → file_ok d k r → file_ok d' k r.
Proof. intros G []. split; [|done]. eapply is_Some_subseteq; [by apply (gw_snapshots _ _ G)|done]. Qed.
Lemma grows_node_ok d d' k r : grows d d' → node_ok d k r → node_ok d' k r.
Proof.
  intros G []. split; [eapply is_Some_subseteq; [by apply (gw_snapshots _ _ G)|done]|by eapply grows_evidence].
Qed.
Lemma grows_edge_ok d d' k r : grows d d' → edge_ok d k r → edge_ok d' k r.
Proof.
  intros G (Hs & Ha & Ht & He). split_and!; [eapply is_Some_subseteq; [by apply (gw_snapshots _ _ G)|done]| | |by eapply grows_evidence].
  - eapply is_Some_subseteq; [by apply (gw_nodes _ _ G)|done].
  - intros t E. eapply is_Some_subseteq; [by apply (gw_nodes _ _ G)|eauto].
Qed.
Lemma grows_diagnostic_ok d d' k r : grows d d' → diagnostic_ok d k r → diagnostic_ok d' k r.
Proof.
  intros G [Hb Hs]. split; [by eapply grows_build|]. intros s E. eapply is_Some_subseteq; [by apply (gw_snapshots _ _ G)|eauto].
Qed.
Lemma grows_metrics_ok d d' b m : grows d d' → metrics_ok d b m → metrics_ok d' b m.
Proof. intros G []. split; [by eapply grows_build|done]. Qed.
#[export] Hint Resolve grows_snapshot_ok grows_view_ok grows_set_ok grows_file_ok grows_node_ok grows_edge_ok
  grows_diagnostic_ok grows_metrics_ok : graph.

Lemma map_Forall_grow {K V} `{Countable K} (P Q : K → V → Prop) (m : gmap K V) :
  (∀ k v, P k v → Q k v) → map_Forall P m → map_Forall Q m.
Proof. intros PQ HP k v H1. by apply PQ, HP. Qed.
Lemma map_Forall_grow_insert {K V} `{Countable K} (P Q : K → V → Prop) (m : gmap K V) k v :
  (∀ k v, P k v → Q k v) → map_Forall P m → Q k v → map_Forall Q (<[k := v]> m).
Proof. intros PQ HP Hk. apply map_Forall_insert_2; [done|]. by eapply map_Forall_grow. Qed.
#[export] Hint Resolve map_Forall_grow map_Forall_grow_insert : graph.

Lemma grows_finished_ok d d' b r : grows d d' → finished_ok d b r → finished_ok d' b r.
Proof.
  intros G F Hs. destruct (F Hs) as (s & H & E). exists s. split; [|done].
  by apply (lookup_weaken (sd_snapshots d)), gw_snapshots.
Qed.
#[export] Hint Resolve grows_finished_ok : graph.

(** ** Statements that add facts *)
Definition extends (d d' : sidecar) : Prop :=
  grows d d' ∧ sd_builds d' = sd_builds d ∧ sd_views d' = sd_views d ∧ (linked d → linked d').
#[global] Instance extends_preorder : PreOrder extends.
Proof.
  split.
  - intros d. split_and!; [reflexivity|done..].
  - intros a b c (G & E & V & L) (G' & E' & V' & L'). split_and!; [by etrans|congruence..|auto].
Qed.
Definition keeps {E A} (m : tx sidecar E A) : Prop := ∀ d a d', m d = ROk (a, d') → extends d d'.
Lemma stored_bind {E A B} (m : tx sidecar E A) (f : A → tx sidecar E B) : keeps m → (∀ a, keeps (f a)) → keeps (m ≫= f).
Proof. intros Hm Hf d b d' H. apply tx_bind_ROk in H as (a & d1 & H1 & H2). etrans; [by eapply Hm|by eapply Hf]. Qed.
Lemma keeps_same {E A} (m : tx sidecar E A) : (∀ d a d', m d = ROk (a, d') → d' = d) → keeps m.
Proof. intros Hm d a d' H. by rewrite (Hm _ _ _ H). Qed.
Lemma stored_ret {E A} (a : A) : keeps (mret (M := tx sidecar E) a).
Proof. apply keeps_same. by intros d x d' [= _ ->]. Qed.
Lemma keeps_lift {E A} (r : res E A) : keeps (lift (S := sidecar) r).
Proof. apply keeps_same. intros d a d' H. by apply lift_ROk in H as [_ ->]. Qed.
Lemma keeps_require {E} b (e : E) : keeps (require (S := sidecar) b e).
Proof. apply keeps_same. intros d a d' H. by apply require_ROk in H as [_ ->]. Qed.
Lemma keeps_fetch {E A} (f : sidecar → res E A) : keeps (fetch f).
Proof. apply keeps_same. intros d a d' H. by apply fetch_ROk in H as [_ ->]. Qed.
Lemma keeps_found {A} e (f : sidecar → res StoreError (option A)) : keeps (found e f).
Proof. apply stored_bind; [apply keeps_fetch|intros; apply keeps_lift]. Qed.
Lemma keeps_write {E} (f : sidecar → sidecar) : (∀ d, extends d (f d)) → keeps (write (E := E) f).
Proof. intros Hf d a d' [= _ <-]. apply Hf. Qed.
Lemma keeps_each {A} (f : A → tx sidecar StoreError unit) l : (∀ a, keeps (f a)) → keeps (tx_each f l).
Proof. intros Hf. induction l as [|a l IH]; simpl; [apply stored_ret|apply stored_bind; auto]. Qed.
#[export] Hint Resolve stored_ret keeps_lift keeps_require keeps_fetch keeps_found : graph.

(** Opens a conjunction of tests that passed and turns the presence tests into lookups. *)
Lemma some_true {A} (o : option A) : some o = true ↔ is_Some o.
Proof. destruct o; simpl; split; [eauto|done|done|by intros [? ?]]. Qed.
Lemma none_is_None {A} (o : option A) : none o = true ↔ o = None.
Proof. by destruct o. Qed.
Lemma constraint_ROk b w (d d' : sidecar) u : constraint b w d = ROk (u, d') ↔ b = true ∧ d' = d.
Proof. apply require_ROk. Qed.
Ltac graph_inv :=
  repeat (tx_inv; try match goal with
  | H : constraint _ _ _ = ROk (_, _) |- _ => apply constraint_ROk in H as [H ->]
  | H : (_ && _)%bool = true |- _ => apply andb_prop in H as [? ?]
  | H : some _ = true |- _ => apply some_true in H
  | H : none _ = true |- _ => apply none_is_None in H
  | H : bool_decide _ = true |- _ => apply bool_decide_eq_true in H
  end).
Ltac grown := split; simpl; [intros ? ? ?; eexists; split; [eassumption|reflexivity]|try done..].

Section facts.
Context {FT : FloatText} {JT : JsonText} {LC : Lowercase}.

Lemma insert_file_keeps s f : keeps (insert_file s f).
Proof.
  intros d u d' H. unfold insert_file in H. graph_inv.
  match goal with |- extends _ ?d' => assert (grows d d') as G end.
  { grown. by apply insert_subseteq. }
  split_and!; [done..|]. intros L. destruct L; split; simpl; eauto with graph.
  eapply map_Forall_grow_insert; [eauto with graph..|]. split; [done|done].
Qed.
Lemma insert_node_keeps n : keeps (insert_node n).
Proof.
  intros d u d' H. unfold insert_node in H. graph_inv.
  match goal with |- extends _ ?d' => assert (grows d d') as G end.
  { grown. by apply insert_subseteq. }
  split_and!; [done..|]. intros L. destruct L; split; simpl; eauto with graph.
  eapply map_Forall_grow_insert; [eauto with graph..|]. by split.
Qed.
Lemma insert_edge_keeps e : keeps (insert_edge e).
Proof.
  intros d u d' H. unfold insert_edge in H. graph_inv.
  match goal with |- extends _ ?d' => assert (grows d d') as G by grown end.
  split_and!; [done..|]. intros L. destruct L; split; simpl; eauto with graph.
  eapply map_Forall_grow_insert; [eauto with graph..|]. split_and!; [done|done| |done].
  intros t Et. match goal with H : context [er_target_node_id] |- _ => rewrite Et in H; by apply some_true in H end.
Qed.
Lemma insert_diagnostic_row_keeps row : keeps (insert_diagnostic_row row).
Proof.
  intros d u d' H. unfold insert_diagnostic_row in H. graph_inv.
  match goal with |- extends _ ?d' => assert (grows d d') as G by grown end.
  split_and!; [done..|]. intros L. destruct L; split; simpl; eauto with graph.
  eapply map_Forall_grow_insert; [eauto with graph..|]. split; [done|].
  intros s Es. match goal with H : context [gr_snapshot_id] |- _ => rewrite Es in H; by apply some_true in H end.
Qed.
Lemma write_cache_keeps {E : Type} (f : gmap cache_key cache_row → gmap cache_key cache_row) :
  keeps (write (E := E) (λ d, d <| sd_cache := f (sd_cache d) |>)).
Proof.
  apply keeps_write. intros d. match goal with |- extends _ ?d' => assert (grows d d') as G by grown end.
  split_and!; [done..|]. intros L. destruct L; split; simpl; eauto with graph.
Qed.
Lemma upsert_metrics_keeps b m : keeps (upsert_metrics b m).
Proof.
  intros d u d' H. unfold upsert_metrics in H. graph_inv.
  match goal with |- extends _ ?d' => assert (grows d d') as G by grown end.
  split_and!; [done..|]. intros L. destruct L; split; simpl; eauto with graph.
  eapply map_Forall_grow_insert; [eauto with graph..|]. by split.
Qed.
End facts.
