(* ===== verification/GraphLifecycle.v ===== *)
(** The sidecar's lifecycle operations keep its invariant: [store.rs],
    [complete_index] and the recording of metrics and diagnostics.

    Publication is a compare-and-set of a view's pointer: what [publish] of
    [src/src/repository_graph/store.rs] does in each of its cases. *)
From S2P Require Import Prelude View Transact Wire Identity Text AgentData AgentWire GraphDomain GraphStore GraphIndexStore GraphMaintenance GraphInvariant.
#[local] Open Scope list_scope.

(** ** Columns that were written are read back *)
Lemma as_id_str i : as_id (id_as_str i) = Some i.
Proof. unfold as_id. by rewrite opaque_id_new_as_str. Qed.
Lemma as_id_Some s i : as_id s = Some i ↔ id_as_str i = s.
Proof.
  split; [|by intros <-; apply as_id_str]. unfold as_id. destruct (opaque_id_new _ s) eqn:E; [|done].
  intros [= <-]. by eapply opaque_id_new_Ok.
Qed.
Lemma valid_id_str i : valid_id (id_as_str i).
Proof. exists i. apply as_id_str. Qed.
Lemma as_digest_cols d : as_digest (algorithm d) (value d) = Some d.
Proof. unfold as_digest. by rewrite digest_new_fields. Qed.
Lemma as_digest_Some a v d : as_digest a v = Some d ↔ algorithm d = a ∧ value d = v.
Proof.
  split; [|by intros [<- <-]; apply as_digest_cols]. unfold as_digest. destruct (digest_new _ _) eqn:E; [|done].
  intros [= <-]. by eapply digest_new_Ok.
Qed.
Lemma valid_digest_cols d : valid_digest (digest_cols d).
Proof. exists d. apply as_digest_cols. Qed.
#[export] Hint Resolve valid_id_str valid_digest_cols : graph.
Lemma repository_of_cols n i n' i' r : as_id n = Some n' → as_id i = Some i' → r = RepositoryRef_ n' i' ↔ repo_key r = (n, i).
Proof.
  intros Hn Hi. apply as_id_Some in Hn as <-. apply as_id_Some in Hi as <-. destruct r as [a b]. unfold repo_key. simpl. split.
  - by intros [= -> ->].
  - intros [= Ha Hb]. apply id_as_str_inj in Ha as ->. by apply id_as_str_inj in Hb as ->.
Qed.

(** ** What reading tells of the rows *)
Record build_matches (b : GraphBuild) (r : build_row) : Prop := {
  bm_repository : repo_key (gb_repository b) = build_repo r;
  bm_source : id_as_str (gb_source_revision_id b) = br_source_revision_id r;
  bm_snapshot : id_as_str (gb_prospective_snapshot_id b) = br_prospective r }.
Lemma load_build_Some d id b : load_build d id = ROk (Some b) →
  gb_id b = id ∧ ∃ r, sd_builds d !! id_as_str id = Some r ∧ build_matches b r
  ∧ build_state_of d (id_as_str id) r = ROk (gb_state b).
Proof.
  unfold load_build, corrupt. destruct (sd_builds d !! _) as [r|] eqn:E; [|done]. intros H. tx_inv. simplify_eq.
  split; [done|]. exists r. split_and!; [done|split; simpl|done].
  - by eapply (repository_of_cols (br_namespace r) (br_repository r)).
  - by apply as_id_Some.
  - by apply as_id_Some.
Qed.
(** A build is open when its row says so and it has not finished. *)
Lemma build_state_cases d id r s : build_state_of d id r = ROk s →
  match s with
  | BBuilding => br_state r = "building" ∧ br_finished_at r = None
  | BComplete => br_state r = "building" ∧ is_Some (br_finished_at r) ∧ is_Some (sd_snapshots d !! br_prospective r)
  | BPublished => br_state r = "published"
  | BFailed => br_state r = "failed"
  | BSuperseded => br_state r = "superseded"
  end.
Proof.
  unfold build_state_of, some, none.
  destruct (String.eqb_spec (br_state r) "building") as [E|E]; simpl.
  - destruct (br_finished_at r) as [f|]; simpl; [|by intros [= <-]].
    destruct (sd_snapshots d !! _) as [x|]; simpl; [intros [= <-]; eauto|]. rewrite E. done.
  - destruct (String.eqb_spec (br_state r) "published"); [by intros [= <-]|].
    destruct (String.eqb_spec (br_state r) "failed"); [by intros [= <-]|].
    destruct (String.eqb_spec (br_state r) "superseded"); [by intros [= <-]|done].
Qed.
Record snapshot_matches (s : GraphSnapshot) (r : snapshot_row) : Prop := {
  sm_repository : repo_key (gs_repository s) = snapshot_repo r;
  sm_source : id_as_str (gs_source_revision_id s) = sr_source_revision_id r;
  sm_manifest : digest_cols (gs_source_manifest_digest s) = sr_manifest r;
  sm_version : gs_graph_model_version s = sr_model_version r;
  sm_config : digest_cols (gs_analysis_config_digest s) = sr_config r;
  sm_extractors : digest_cols (gs_extractor_set_digest s) = sr_extractors r;
  sm_completed : id_as_str (gs_completed_by s) = sr_completed_by r }.
Lemma digest_pair (p : string * string) d : as_digest p.1 p.2 = Some d → digest_cols d = p.
Proof. intros [E1 E2]%as_digest_Some. destruct p. unfold digest_cols. simpl in *. by rewrite E1, E2. Qed.
Lemma load_snapshot_Some d id s : load_snapshot d id = ROk (Some s) →
  gs_id s = id ∧ ∃ r, sd_snapshots d !! id_as_str id = Some r ∧ snapshot_matches s r.
Proof.
  unfold load_snapshot, corrupt. destruct (sd_snapshots d !! _) as [r|] eqn:E; [|done]. intros H. tx_inv. simplify_eq.
  split; [done|]. exists r. split; [done|]. split; simpl; try (by apply as_id_Some); try (by apply digest_pair).
  - by eapply (repository_of_cols (sr_namespace r) (sr_repository r)).
  - match goal with H : get_u32 _ = Some _ |- _ => unfold get_u32 in H; case_match; simplify_eq end. done.
Qed.
Lemma load_snapshot_None d id : load_snapshot d id = ROk None → sd_snapshots d !! id_as_str id = None.
Proof. unfold load_snapshot. destruct (sd_snapshots d !! _); [|done]. intros H. tx_inv. simplify_eq. Qed.
Lemma load_published_view_Some d r n v : load_published_view d r n = ROk (Some v) →
  ∃ row, sd_views d !! key_of_view r n = Some row
  ∧ v = mk_view r n (vw_snapshot_id v) (vw_build_id v) (vr_generation row)
  ∧ id_as_str (vw_snapshot_id v) = vr_snapshot_id row ∧ id_as_str (vw_build_id v) = vr_build_id row.
Proof.
  unfold load_published_view, corrupt. destruct (sd_views d !! _) as [row|]; [|done]. intros H. tx_inv. simplify_eq.
  exists row. simpl. split_and!; [done| |by apply as_id_Some|by apply as_id_Some].
  match goal with H : unsigned _ = Some _ |- _ => unfold unsigned in H; case_match; simplify_eq end. done.
Qed.
Lemma load_published_view_None d r n : load_published_view d r n = ROk None → sd_views d !! key_of_view r n = None.
Proof. unfold load_published_view. destruct (sd_views d !! _); [|done]. intros H. tx_inv. simplify_eq. Qed.
Lemma found_ROk {A} e (f : sidecar → res StoreError (option A)) d a d' : found e f d = ROk (a, d') ↔ f d = ROk (Some a) ∧ d' = d.
Proof.
  unfold found. split.
  - intros H. tx_inv. by subst.
  - intros [H ->]. unfold mbind, tx_bind, fetch, lift. rewrite H. done.
Qed.

(** ** Changes of one build *)
Lemma update_build_grows d id f : (∀ r, sd_builds d !! id = Some r → same_build r (f r)) → grows d (update_build id f d).
Proof.
  intros Hf. split; simpl; [|done..]. intros b r Hr. destruct (decide (b = id)) as [->|Hb].
  - exists (f r). rewrite lookup_alter_eq, Hr. auto.
  - exists r. rewrite lookup_alter_ne by done. split; [done|reflexivity].
Qed.
Lemma lookup_alter_cases {V} (m : gmap string V) f i j v : alter f i m !! j = Some v →
  ∃ v0, m !! j = Some v0 ∧ v = if decide (j = i) then f v0 else v0.
Proof.
  intros H. destruct (decide (j = i)) as [->|Hj].
  - rewrite lookup_alter_eq in H. destruct (m !! i); simplify_eq/=. eauto.
  - rewrite lookup_alter_ne in H by done. eauto.
Qed.
Lemma update_build_linked d id f : (∀ r, sd_builds d !! id = Some r → same_build r (f r) ∧ br_state (f r) ∈ build_states) →
  linked d → linked (update_build id f d).
Proof.
  intros Hf L. assert (grows d (update_build id f d)) as G by (apply update_build_grows; intros; by apply Hf).
  destruct L as [LB LO LS LV LD LF LN LE LG LM]; split; simpl; eauto with graph.
  - intros b r Hr. apply lookup_alter_cases in Hr as (r0 & Hr & ->). pose proof (LB _ _ Hr) as []. case_decide; [|done].
    subst b. destruct (Hf _ Hr) as [(E1 & E2 & E3 & E4) E5]. unfold build_repo in E2. injection E2 as E2 E2'.
    split; [by rewrite E2|by rewrite E2'|by rewrite E3|by rewrite E4|done].
  - intros b b' r r' Hr Hr' E. apply lookup_alter_cases in Hr as (r0 & Hr & ->). apply lookup_alter_cases in Hr' as (r0' & Hr' & ->).
    apply (LO _ _ _ _ Hr Hr').
    assert (∀ j x, sd_builds d !! j = Some x → br_rowid (if decide (j = id) then f x else x) = br_rowid x) as Hid.
    { intros j x Hx. destruct (decide (j = id)) as [->|]; [|done]. by destruct (Hf _ Hx) as [[? _] _]. }
    by rewrite (Hid _ _ Hr), (Hid _ _ Hr') in E.
Qed.
Lemma update_build_ok d id f :
  (∀ r, sd_builds d !! id = Some r → same_build r (f r) ∧ br_state (f r) ∈ build_states ∧ finished_ok d id (f r)) →
  linked d → (∀ b r, b ≠ id → sd_builds d !! b = Some r → finished_ok d b r) → sidecar_ok (update_build id f d).
Proof.
  intros Hf L F. split; [apply update_build_linked; [intros r Hr; by destruct (Hf _ Hr) as (? & ? & _)|done]|]. intros b r Hr.
  assert (grows d (update_build id f d)) as G by (apply update_build_grows; intros; by apply Hf).
  apply lookup_alter_cases in Hr as (r0 & Hr & ->). eapply grows_finished_ok; [done|].
  case_decide; [subst b; by apply Hf|by apply F].
Qed.

(** ** [start_build], [fail_build], [supersede_build] *)
Lemma max_rowid_ge m b r : m !! b = Some r → br_rowid r ≤ max_rowid m.
Proof.
  unfold max_rowid. revert b r. induction m as [|k x m Hk Hfst IH] using map_first_key_ind; intros b r; [by rewrite lookup_empty|].
  rewrite map_fold_insert_first_key by done. rewrite lookup_insert_Some. intros [[<- <-]|[_ H]]; [lia|].
  specialize (IH _ _ H). lia.
Qed.
Lemma start_build_ok t b d u d' : start_build t b d = ROk (u, d') → sidecar_ok d → sidecar_ok d'.
Proof.
  intros H [L F]. unfold start_build in H. graph_inv.
  match goal with |- sidecar_ok ?d' => assert (grows d d') as G end.
  { split; simpl; [|done..]. intros k r Hk. exists r. split; [|reflexivity]. rewrite lookup_insert_ne by congruence. done. }
  split.
  - destruct L as [LB LO LS LV LD LF LN LE LG LM]; split; simpl; eauto with graph.
    + apply map_Forall_insert_2; [|done]. split; simpl; auto with graph. set_solver.
    + intros k k' r r'. rewrite !lookup_insert_Some. intros [[<- <-]|[Hx Hr]] [[<- <-]|[Hx' Hr']]; simpl; [done| | |by eapply LO].
      * pose proof (max_rowid_ge _ _ _ Hr'). lia.
      * pose proof (max_rowid_ge _ _ _ Hr). lia.
  - simpl. eapply map_Forall_grow_insert; [intros ??; by apply grows_finished_ok|done|]. by intros [?|[?|[_ [? ?]]]].
Qed.
Lemma update_known_build d id f r : sidecar_ok d → sd_builds d !! id = Some r →
  same_build r (f r) → br_state (f r) ∈ build_states → finished_ok d id (f r) → sidecar_ok (update_build id f d).
Proof.
  intros [L F] Hr H1 H2 H3. apply update_build_ok; [|done|intros b r' _; apply F]. intros r' Hr'. by simplify_eq.
Qed.
Lemma fail_build_ok t id code d b d' : fail_build t id code d = ROk (b, d') → sidecar_ok d → sidecar_ok d'.
Proof.
  intros H W. unfold fail_build in H. tx_inv. apply found_ROk in H0 as [Hb ->]. apply load_build_Some in Hb as (_ & r & Hr & _).
  eapply update_known_build; [done..|split_and!; done|simpl; set_solver|by intros [?|[?|[? _]]]].
Qed.
Lemma supersede_build_ok id d b d' : supersede_build id d = ROk (b, d') → sidecar_ok d → sidecar_ok d'.
Proof.
  intros H W. unfold supersede_build in H. tx_inv. apply found_ROk in H0 as [Hb ->].
  apply load_build_Some in Hb as (_ & r & Hr & _ & Hs). apply bool_decide_eq_true in H1. rewrite H1 in Hs.
  eapply update_known_build; [done..|split_and!; done|simpl; set_solver|]. intros _. apply (ok_finished _ W _ _ Hr).
  apply build_state_cases in Hs. right. right. naive_solver.
Qed.

(** ** Completion *)
Lemma validate_for_build_ok s b : validate_snapshot_for_build s b = ROk tt →
  gs_id s = gb_prospective_snapshot_id b ∧ gs_repository s = gb_repository b ∧ gs_source_revision_id s = gb_source_revision_id b.
Proof. unfold validate_snapshot_for_build. intros H. tx_inv. by rewrite !bool_decide_eq_true in *. Qed.
Lemma validate_equivalent_ok s s' : validate_equivalent_snapshot s s' = ROk tt →
  gs_id s = gs_id s' ∧ gs_repository s = gs_repository s' ∧ gs_source_manifest_digest s = gs_source_manifest_digest s'
  ∧ gs_graph_model_version s = gs_graph_model_version s' ∧ gs_analysis_config_digest s = gs_analysis_config_digest s'
  ∧ gs_extractor_set_digest s = gs_extractor_set_digest s'.
Proof.
  unfold validate_equivalent_snapshot. intros H. apply rcheck_ROk in H. rewrite !andb_true_iff, !bool_decide_eq_true, Z.eqb_eq in H.
  by destruct H as (((((?&?)&?)&?)&?)&?).
Qed.
(** The width of [graph_model_version: u32] *)
Definition snapshot_in_range (s : GraphSnapshot) : Prop := gs_graph_model_version s < u32_modulus.
(** The build that completes the snapshot is open and prospects it. *)
Definition completes (d : sidecar) (s : GraphSnapshot) : Prop :=
  ∃ r, sd_builds d !! id_as_str (gs_completed_by s) = Some r ∧ br_state r = "building" ∧ br_finished_at r = None
    ∧ br_prospective r = id_as_str (gs_id s) ∧ build_repo r = repo_key (gs_repository s).
Lemma open_build_completes d s b : load_build d (gs_completed_by s) = ROk (Some b) → gb_state b = BBuilding →
  validate_snapshot_for_build s b = ROk tt → completes d s.
Proof.
  intros Hb Hs (E1 & E2 & E3)%validate_for_build_ok. apply load_build_Some in Hb as (_ & r & Hr & [M1 M2 M3] & Hst).
  rewrite Hs in Hst. apply build_state_cases in Hst as [S1 S2]. exists r. rewrite E1, E2. by split_and!.
Qed.
Lemma insert_snapshot_linked now s d u d' : insert_snapshot now s d = ROk (u, d') → snapshot_in_range s → completes d s →
  (linked d → linked d') ∧ grows d d' ∧ sd_builds d' = sd_builds d ∧ sd_views d' = sd_views d
  ∧ ∃ row, sd_snapshots d' = <[id_as_str (gs_id s) := row]> (sd_snapshots d) ∧ snapshot_matches s row.
Proof.
  intros H R (b & Hb & _ & _ & Hp & Hr). unfold insert_snapshot in H. graph_inv.
  match goal with |- context [grows d ?d'] => assert (grows d d') as G end.
  { grown. by apply insert_subseteq. }
  split_and!; [|done..|by eexists]. intros L. destruct L as [LB LO LS LV LD LF LN LE LG LM]; split; simpl; eauto with graph.
  eapply map_Forall_grow_insert; [eauto with graph..|]. split; simpl; auto with graph; [unfold snapshot_in_range in R; lia|].
  exists b. by split_and!.
Qed.
Lemma set_diagnostic_set_keeps s d u d' : set_diagnostic_set s d = ROk (u, d') → completes d s → extends d d'.
Proof.
  intros H (b & Hb & _ & _ & Hp & _). unfold set_diagnostic_set in H. graph_inv.
  match goal with |- extends _ ?d' => assert (grows d d') as G by grown end.
  split_and!; [done..|]. intros L. destruct L as [LB LO LS LV LD LF LN LE LG LM]; split; simpl; eauto with graph.
  eapply map_Forall_grow_insert; [eauto with graph..|]. split; eauto.
Qed.

Lemma extends_ok d d' : extends d d' → sidecar_ok d → sidecar_ok d'.
Proof.
  intros (G & B & _ & HL) [L F]. split; [by apply HL|]. rewrite B. eapply map_Forall_grow; [|done]. intros k v. by apply grows_finished_ok.
Qed.
Definition stored (d : sidecar) (s : GraphSnapshot) : Prop :=
  ∃ row, sd_snapshots d !! id_as_str (gs_id s) = Some row ∧ snapshot_repo row = repo_key (gs_repository s).
Lemma stored_grows d d' s : grows d d' → stored d s → stored d' s.
Proof. intros G (row & H & E). exists row. split; [|done]. by apply (lookup_weaken (sd_snapshots d)), gw_snapshots. Qed.
Lemma completes_same d d' s : sd_builds d' = sd_builds d → completes d s → completes d' s.
Proof. unfold completes. by intros ->. Qed.
Lemma finish_ok d s now : sidecar_ok d → completes d s → stored d s →
  sidecar_ok (update_build (id_as_str (gs_completed_by s)) (λ r, r <| br_finished_at := Some now |>) d).
Proof.
  intros W (r & Hr & S1 & _ & Hp & Hrepo) (row & Hrow & E). eapply update_known_build; [done..|split_and!; done| |].
  - simpl. by apply (bo_state _ (lk_builds _ (ok_linked _ W) _ _ Hr)).
  - intros _. exists row. simpl. rewrite Hp. split; [done|]. by rewrite E, <- Hrepo.
Qed.
(** The snapshot is the one that exists, or a new one with its facts. *)
Definition complete_with (facts : store unit) (s : GraphSnapshot) (existing : option GraphSnapshot) : store GraphSnapshot :=
  match existing with
  | Some e => _ ← lift (validate_equivalent_snapshot s e); mret e
  | None => _ ← facts; mret s
  end.
Definition adds_snapshot (s : GraphSnapshot) (facts : store unit) : Prop :=
  ∀ d u d', facts d = ROk (u, d') → completes d s → extends d d' ∧ stored d' s.
Lemma complete_with_ok facts s existing d c d' : adds_snapshot s facts → complete_with facts s existing d = ROk (c, d') →
  load_snapshot d (gs_id s) = ROk existing → completes d s →
  extends d d' ∧ stored d' s ∧ gs_id c = gs_id s ∧ gs_repository c = gs_repository s.
Proof.
  intros HF H Hl Hc. unfold complete_with in H. destruct existing as [e|]; tx_inv; simplify_eq.
  - destruct x. apply validate_equivalent_ok in H0 as (E1 & E2 & _).
    apply load_snapshot_Some in Hl as (_ & row & Hrow & [M _ _ _ _ _ _]).
    split_and!; [reflexivity| |done..]. exists row. split; [done|]. by rewrite E2.
  - apply HF in H0 as [? ?]; [done..]. 
Qed.
Lemma insert_snapshot_adds now s : snapshot_in_range s → adds_snapshot s (insert_snapshot now s).
Proof.
  intros R d u d' H Hc. apply insert_snapshot_linked in H as (HL & G & B & V & row & E & M); [|done..].
  split; [by split_and!|]. exists row. rewrite E, lookup_insert_eq. split; [done|]. symmetry. apply M.
Qed.
Lemma complete_build_ok t s d c d' : complete_build t s d = ROk (c, d') → snapshot_in_range s → sidecar_ok d → sidecar_ok d'.
Proof.
  intros H R W. unfold complete_build in H. tx_inv. apply found_ROk in H0 as [Hb ->]. apply bool_decide_eq_true in H1.
  destruct x3. pose proof (open_build_completes _ _ _ Hb H1 H2) as Hc.
  destruct (load_build_Some _ _ _ Hb) as [Eid _]. rewrite Eid. fold (complete_with (insert_snapshot (t 0%nat) s) s x5) in H4.
  eapply complete_with_ok in H4 as (X & S & _); [|by apply insert_snapshot_adds|done..].
  assert (completes x8 s) as Hc' by (by eapply completes_same; [apply X|]).
  apply set_diagnostic_set_keeps in H5 as X'; [|done]. apply finish_ok.
  - eapply extends_ok; [done|]. by eapply extends_ok.
  - by eapply completes_same; [apply X'|].
  - eapply stored_grows; [apply X'|done].
Qed.

Section complete_index.
Context {FT : FloatText} {JT : JsonText} {LC : Lowercase}.

Lemma insert_facts_adds now c : snapshot_in_range (ic_snapshot c) → adds_snapshot (ic_snapshot c) (insert_facts now c).
Proof.
  intros R d u d' H Hc. unfold insert_facts in H. apply tx_bind_ROk in H as (u1 & d1 & H1 & H).
  destruct (insert_snapshot_adds now (ic_snapshot c) R d u1 d1 H1 Hc) as [X S].
  assert (extends d1 d') as X'.
  { revert H. apply (stored_bind (insert_files _ _)); [apply keeps_each; intros; apply insert_file_keeps|intros _].
    apply stored_bind; [apply keeps_each; intros; apply insert_node_keeps|intros _].
    apply keeps_each. intros. apply insert_edge_keeps. }
  split; [by etrans|]. eapply stored_grows; [apply X'|done].
Qed.
Lemma write_diagnostics_keeps {E : Type} (P : Z * diagnostic_row → Prop) `{∀ kv, Decision (P kv)} :
  keeps (write (E := E) (λ d, d <| sd_diagnostics := filter P (sd_diagnostics d) |>)).
Proof.
  apply keeps_write. intros d. match goal with |- extends _ ?d' => assert (grows d d') as G by grown end.
  split_and!; [done..|]. intros L. destruct L as [LB LO LS LV LD LF LN LE LG LM]; split; simpl; eauto with graph.
  intros k v Hk. apply map_lookup_filter_Some in Hk as [Hk _]. eapply grows_diagnostic_ok; [done|]. by apply LG.
Qed.
Lemma insert_diagnostics_keeps l : keeps (insert_diagnostics l).
Proof. apply keeps_each. intros g. apply stored_bind; [apply keeps_lift|intros row; apply insert_diagnostic_row_keeps]. Qed.
Lemma replace_snapshot_diagnostics_keeps s l d u d' : replace_snapshot_diagnostics s l d = ROk (u, d') → completes d s → extends d d'.
Proof.
  intros H Hc. unfold replace_snapshot_diagnostics in H. apply tx_bind_ROk in H as (u1 & d1 & H1 & H).
  apply require_ROk in H1 as [_ ->]. apply tx_bind_ROk in H as (u2 & d2 & H2 & H). apply write_diagnostics_keeps in H2.
  apply tx_bind_ROk in H as (u3 & d3 & H3 & H). apply insert_diagnostics_keeps in H3.
  assert (extends d d3) as X by (by etrans). etrans; [done|]. apply set_diagnostic_set_keeps in H; [done|].
  by eapply completes_same; [apply X|].
Qed.
Lemma upsert_cached_fragments_keeps t l : keeps (upsert_cached_fragments t l).
Proof.
  revert t. induction l as [|c l IH]; intros t; simpl; [apply stored_ret|]. apply stored_bind; [|intros _; apply IH].
  apply stored_bind; [apply keeps_lift|intros key]. apply stored_bind; [apply keeps_require|intros _].
  apply (write_cache_keeps (λ m, <[key := CacheRow _ (match m !! key with Some row => cr_created_at row | None => _ end) _]> m)).
Qed.
Lemma touch_cached_fragments_keeps now l : keeps (touch_cached_fragments now l).
Proof. apply keeps_each. intros k. apply stored_bind; [apply keeps_lift|intros key]. apply (write_cache_keeps (alter _ key)). Qed.
Lemma check_reuse_same c d u d' : check_reuse c d = ROk (u, d') → d' = d.
Proof.
  unfold check_reuse. destruct (negb _); [by intros [= _ ->]|]. intros H. tx_inv. apply found_ROk in H1 as [_ ->]. done.
Qed.

(** Statements outside the tables of facts *)
Definition facts_of (d : sidecar) := (sd_snapshots d, sd_files d, sd_nodes d, sd_edges d).
Definition off_facts {E A} (m : tx sidecar E A) : Prop := ∀ d a d', m d = ROk (a, d') → facts_of d' = facts_of d.
Lemma off_facts_bind {E A B} (m : tx sidecar E A) (f : A → tx sidecar E B) : off_facts m → (∀ a, off_facts (f a)) → off_facts (m ≫= f).
Proof. intros Hm Hf d b d' H. apply tx_bind_ROk in H as (a & d1 & H1 & H2). apply Hm in H1. apply Hf in H2. congruence. Qed.
Lemma off_facts_each {A} (f : A → tx sidecar StoreError unit) l : (∀ a, off_facts (f a)) → off_facts (tx_each f l).
Proof. intros Hf. induction l as [|a l IH]; simpl; [by intros d u d' [= _ ->]|by apply off_facts_bind]. Qed.
Lemma replace_snapshot_diagnostics_off s l : off_facts (replace_snapshot_diagnostics s l).
Proof.
  apply off_facts_bind; [intros d u d' H; tx_inv; done|intros _]. apply off_facts_bind; [intros d u d' H; tx_inv; done|intros _].
  apply off_facts_bind; [|intros _ d u d' H; unfold set_diagnostic_set in H; graph_inv; done].
  apply off_facts_each. intros g d u d' H. unfold insert_diagnostic_row in H. graph_inv. done.
Qed.
Lemma upsert_cached_fragments_off t l : off_facts (upsert_cached_fragments t l).
Proof.
  revert t. induction l as [|c l IH]; intros t; simpl; [by intros d u d' [= _ ->]|]. apply off_facts_bind; [|intros _; apply IH].
  intros d u d' H. unfold upsert_cached_fragment in H. graph_inv. done.
Qed.
Lemma touch_cached_fragments_off now l : off_facts (touch_cached_fragments now l).
Proof. apply off_facts_each. intros k d u d' H. graph_inv. done. Qed.

(** The steps of a completion that returned: the snapshot and its facts, what
    hangs on them, and the build's end. *)
Lemma complete_index_steps t c d r d' : complete_index t c d = ROk (r, d') → snapshot_in_range (ic_snapshot c) →
  completes d (ic_snapshot c)
  ∧ ∃ existing d1 d2, load_snapshot d (gs_id (ic_snapshot c)) = ROk existing
    ∧ complete_with (insert_facts (t 0%nat) c) (ic_snapshot c) existing d = ROk (r, d1)
    ∧ extends d1 d2 ∧ facts_of d2 = facts_of d1
    ∧ d' = update_build (id_as_str (gs_completed_by (ic_snapshot c))) (λ r, r <| br_finished_at := Some (t 2%nat) |>) d2.
Proof.
  intros H R. unfold complete_index in H. apply tx_bind_ROk in H as (b & d0 & Hb & H). apply found_ROk in Hb as [Hb ->].
  apply tx_bind_ROk in H as (? & ? & Hs & H). apply require_ROk in Hs as [Hs ->]. apply bool_decide_eq_true in Hs.
  apply tx_bind_ROk in H as ([] & ? & Hv & H). apply lift_ROk in Hv as [Hv ->].
  pose proof (open_build_completes _ _ _ Hb Hs Hv) as Hc. split; [done|].
  apply tx_bind_ROk in H as (? & ? & Hr & H). apply check_reuse_same in Hr as ->.
  apply tx_bind_ROk in H as (existing & ? & Hl & H). apply fetch_ROk in Hl as [Hl ->].
  apply tx_bind_ROk in H as (r' & d1 & Hw & H). fold (complete_with (insert_facts (t 0%nat) c) (ic_snapshot c) existing) in Hw.
  assert (completes d1 (ic_snapshot c)) as Hc1.
  { eapply complete_with_ok in Hw as (X & _); [|by apply insert_facts_adds|done..]. by eapply completes_same; [apply X|]. }
  apply tx_bind_ROk in H as (? & d2 & H1 & H). apply tx_bind_ROk in H as (? & d3 & H2 & H).
  apply tx_bind_ROk in H as (? & d4 & H3 & H). apply tx_bind_ROk in H as (? & d5 & H4 & H). tx_inv.
  exists existing, d1, d5. split_and!; [done..| | |done].
  - etrans; [by eapply replace_snapshot_diagnostics_keeps|]. etrans; [by eapply upsert_cached_fragments_keeps|].
    etrans; [by eapply touch_cached_fragments_keeps|]. by eapply upsert_metrics_keeps.
  - apply replace_snapshot_diagnostics_off in H1. apply upsert_cached_fragments_off in H2. apply touch_cached_fragments_off in H3.
    transitivity (facts_of d4); [|congruence]. unfold upsert_metrics in H4. graph_inv. done.
Qed.
Lemma complete_index_ok t c d r d' : complete_index t c d = ROk (r, d') → snapshot_in_range (ic_snapshot c) → sidecar_ok d → sidecar_ok d'.
Proof.
  intros H R W. apply complete_index_steps in H as (Hc & ex & d1 & d2 & Hl & Hw & X & _ & ->); [|done].
  eapply complete_with_ok in Hw as (X1 & S & _); [|by apply insert_facts_adds|done..]. apply finish_ok.
  - eapply extends_ok; [done|]. by eapply extends_ok.
  - eapply completes_same; [|done]. transitivity (sd_builds d1); [apply X|apply X1].
  - eapply stored_grows; [apply X|done].
Qed.
Lemma record_diagnostic_keeps g : keeps (record_diagnostic g).
Proof.
  intros d u d' H. unfold record_diagnostic in H. destruct (diagnostic_columns g) as [row|]; [|done].
  destruct (insert_diagnostic_row row d) as [[u' d1]|[]] eqn:E; simplify_eq. by eapply insert_diagnostic_row_keeps.
Qed.
Lemma load_cached_fragment_keeps k : keeps (load_cached_fragment k).
Proof.
  apply stored_bind; [apply keeps_lift|intros key]. apply stored_bind; [by apply keeps_same; intros d a d' [= _ ->]|intros d].
  destruct (sd_cache d !! key); [|apply stored_ret]. destruct (json_parse _ ≫= _); [apply stored_ret|].
  apply stored_bind; [apply (write_cache_keeps (delete key))|intros _; apply stored_ret].
Qed.
End complete_index.

Definition pub_key (q : PublishRequest) : view_key := key_of_view (pq_repository q) (pq_view_name q).
(** The pointer moved to the build [b]. *)
Definition moved (now : string) (q : PublishRequest) (b : GraphBuild) (g : Z) (d : sidecar) : sidecar :=
  update_build (id_as_str (gb_id b)) (λ r, r <| br_state := "published" |>)
    (d <| sd_views := <[pub_key q := ViewRow (id_as_str (gb_prospective_snapshot_id b)) (id_as_str (gb_id b)) g now]> (sd_views d) |>).
Definition superseded (b : GraphBuild) (d : sidecar) : sidecar :=
  update_build (id_as_str (gb_id b)) (λ r, r <| br_state := "superseded" |>) d.
Definition next_generation (current : option PublishedView) : Z := match current with Some v => vw_generation v + 1 | None => 1 end.
Definition moved_view (q : PublishRequest) (b : GraphBuild) (g : Z) : PublishedView :=
  mk_view (pq_repository q) (pq_view_name q) (gb_prospective_snapshot_id b) (gb_id b) g.

Lemma publish_new_ROk t q b s cur d o d' : publish_new t q b s cur d = ROk (o, d') → gs_id s = gb_prospective_snapshot_id b →
  pq_build_id q = gb_id b →
  let g := next_generation cur in
  g ≤ i64_max ∧ 0 < g ∧ d' = moved (t 0%nat) q b g d ∧ o = ViewPublished (moved_view q b g).
Proof.
  intros H Es Eb. unfold publish_new, put_view in H. graph_inv.
  rewrite Es, Eb. fold (next_generation cur) in *. fold (pub_key q).
  split_and!; [|by apply Z.ltb_lt|done|done]. by apply Z.leb_le.
Qed.
Lemma supersede_older_ROk b v d o d' : supersede_older b v d = ROk (o, d') → d' = superseded b d ∧ o = ViewSuperseded v.
Proof. intros H. unfold supersede_older in H. graph_inv. by subst. Qed.
Lemma build_order_ROk d id z : build_order d id = ROk z ↔ ∃ r, sd_builds d !! id_as_str id = Some r ∧ z = br_rowid r.
Proof.
  unfold build_order. rewrite ok_or_ROk. destruct (sd_builds d !! _) as [r|]; simpl; split.
  - intros [= <-]. eauto.
  - by intros (? & [= ->] & ->).
  - done.
  - by intros (? & ? & _).
Qed.
Definition built (d : sidecar) (id : BuildId) (z : Z) : Prop := ∃ r, sd_builds d !! id_as_str id = Some r ∧ br_rowid r = z.

(** The cases of a publication that returned. *)
Inductive publication (now : string) (q : PublishRequest) (b : GraphBuild) (d : sidecar) :
  option PublishedView → PublicationOutcome → sidecar → Prop :=
  | PubFirst : publication now q b d None (ViewPublished (moved_view q b 1)) (moved now q b 1 d)
  | PubSame v : vw_snapshot_id v = gb_prospective_snapshot_id b → publication now q b d (Some v) (ViewPublished v) d
  | PubNewer v x y : vw_snapshot_id v ≠ gb_prospective_snapshot_id b → built d (gb_id b) x → built d (vw_build_id v) y → y ≤ x →
      vw_generation v < i64_max →
      publication now q b d (Some v) (ViewPublished (moved_view q b (vw_generation v + 1))) (moved now q b (vw_generation v + 1) d)
  | PubOlder v x y : vw_snapshot_id v ≠ gb_prospective_snapshot_id b → built d (gb_id b) x → built d (vw_build_id v) y → x < y →
      publication now q b d (Some v) (ViewSuperseded v) (superseded b d).
Lemma publish_cases t q d o d' : publish t q d = ROk (o, d') →
  ∃ b s cur, load_build d (pq_build_id q) = ROk (Some b) ∧ gb_repository b = pq_repository q
  ∧ (gb_state b = BComplete ∨ gb_state b = BPublished)
  ∧ load_snapshot d (gb_prospective_snapshot_id b) = ROk (Some s)
  ∧ load_published_view d (pq_repository q) (pq_view_name q) = ROk cur ∧ pq_expected q = version_of <$> cur
  ∧ publication (t 0%nat) q b d cur o d'.
Proof.
  intros H. unfold publish in H. apply tx_bind_ROk in H as (b & ? & Hb & H). apply found_ROk in Hb as [Hb ->].
  apply tx_bind_ROk in H as (? & ? & Hr & H). apply require_ROk in Hr as [Hr ->]. apply bool_decide_eq_true in Hr.
  apply tx_bind_ROk in H as (? & ? & Hs & H). apply require_ROk in Hs as [Hs ->]. apply orb_prop in Hs. rewrite !bool_decide_eq_true in Hs.
  apply tx_bind_ROk in H as (s & ? & Hl & H). apply found_ROk in Hl as [Hl ->].
  apply tx_bind_ROk in H as (cur & ? & Hc & H). apply fetch_ROk in Hc as [Hc ->].
  apply tx_bind_ROk in H as (? & ? & He & H). apply require_ROk in He as [He ->]. apply bool_decide_eq_true in He.
  exists b, s, cur. split_and!; [done..|]. destruct (load_snapshot_Some _ _ _ Hl) as [Es _]. destruct (load_build_Some _ _ _ Hb) as [Eb _].
  destruct cur as [v|]; [|by apply publish_new_ROk in H as (_ & _ & -> & ->); [constructor|..]].
  rewrite Es in H. case_decide as Ev; [tx_inv; subst; by constructor|].
  apply tx_bind_ROk in H as (zx & ? & Hx & H). apply fetch_ROk in Hx as [Hx ->]. apply build_order_ROk in Hx as (rx & Hx & ->).
  apply tx_bind_ROk in H as (zy & ? & Hy & H). apply fetch_ROk in Hy as [Hy ->]. apply build_order_ROk in Hy as (ry & Hy & ->).
  destruct (Z.ltb_spec (br_rowid rx) (br_rowid ry)).
  - apply supersede_older_ROk in H as [-> ->]. eapply PubOlder; [done|by eexists|by eexists|done].
  - apply publish_new_ROk in H as (Hg & _ & -> & ->); [|done..]. simpl in *. eapply PubNewer; [done|by eexists|by eexists|done|lia].
Qed.

(** ** The invariant *)
(** The build can be published, and its snapshot is there for the view's repository. *)
Definition ready (d : sidecar) (q : PublishRequest) (b : GraphBuild) : Prop :=
  ∃ r s, sd_builds d !! id_as_str (gb_id b) = Some r ∧ completed r ∧ br_prospective r = id_as_str (gb_prospective_snapshot_id b)
    ∧ build_repo r = (pub_key q).1 ∧ sd_snapshots d !! br_prospective r = Some s ∧ snapshot_repo s = build_repo r.
Lemma publish_ready d q b : sidecar_ok d → load_build d (pq_build_id q) = ROk (Some b) → gb_repository b = pq_repository q →
  (gb_state b = BComplete ∨ gb_state b = BPublished) → ready d q b.
Proof.
  intros W Hb Hr Hs. apply load_build_Some in Hb as (<- & r & Hl & [M1 M2 M3] & Hst).
  assert (completed r) as C.
  { apply build_state_cases in Hst. destruct Hs as [Hs|Hs]; rewrite Hs in Hst; [right; right; naive_solver|by left]. }
  destruct (ok_finished _ W _ _ Hl C) as (s & Hsn & E). exists r, s. split_and!; [done..| |done|done].
  rewrite <- M1, Hr. done.
Qed.
Lemma moved_ok now q b g d : sidecar_ok d → ready d q b → 0 < g ≤ i64_max → sidecar_ok (moved now q b g d).
Proof.
  intros W (r & s & Hr & C & Hp & Hrepo & Hs & Es) Hg.
  match goal with |- sidecar_ok (moved _ _ _ _ ?d) => set (d1 := d <| sd_views := <[pub_key q :=
    ViewRow (id_as_str (gb_prospective_snapshot_id b)) (id_as_str (gb_id b)) g now]> (sd_views d) |>) end.
  assert (grows d d1) as G by grown.
  assert (sidecar_ok d1) as W1.
  { destruct W as [L F]. split; [|by eapply map_Forall_grow; [intros ??; by apply grows_finished_ok|]].
    destruct L as [LB LO LS LV LD LF LN LE LG LM]; split; simpl; eauto with graph.
    eapply map_Forall_grow_insert; [eauto with graph..|]. split; simpl; auto with graph.
    - exists s. rewrite <- Hp. split; [done|by rewrite Es, Hrepo].
    - exists r. by rewrite Hp. }
  eapply (update_known_build d1); [done..|split_and!; done|simpl; set_solver|].
  intros _. exists s. split; [|done]. done.
Qed.
Lemma superseded_ok q b d : sidecar_ok d → ready d q b → sidecar_ok (superseded b d).
Proof.
  intros W (r & s & Hr & C & Hp & Hrepo & Hs & Es). eapply update_known_build; [done..|split_and!; done|simpl; set_solver|].
  intros _. by exists s.
Qed.
Lemma published_generation d q v : sidecar_ok d → load_published_view d (pq_repository q) (pq_view_name q) = ROk (Some v) →
  0 < vw_generation v ≤ i64_max.
Proof.
  intros W Hv. apply load_published_view_Some in Hv as (row & Hrow & Ev & _). rewrite Ev. simpl.
  by destruct (lk_views _ (ok_linked _ W) _ _ Hrow).
Qed.
Lemma publish_ok t q d o d' : publish t q d = ROk (o, d') → sidecar_ok d → sidecar_ok d'.
Proof.
  intros H W. apply publish_cases in H as (b & s & cur & Hb & Hr & Hs & _ & Hv & _ & P).
  pose proof (publish_ready _ _ _ W Hb Hr Hs) as R. inversion P; subst; [by apply moved_ok; [..|unfold i64_max; lia]|done| |by eapply superseded_ok].
  apply moved_ok; [done..|]. pose proof (published_generation _ _ _ W Hv). lia.
Qed.
