(* ===== verification/GraphTheorems.v ===== *)
(** What retention removes and keeps: [collect_garbage] of
    [src/src/repository_graph/maintenance.rs] computes three sets, of views, of
    snapshots and of builds, and removes exactly them.

    The sidecar over every sequence of operations: its invariant, the
    monotonicity of publication, the permanence of stored facts, retention,
    leases and recovery. *)
From S2P Require Import Prelude View Transact Wire Identity Text AgentData AgentWire GraphDomain GraphStore GraphIndexStore GraphMaintenance GraphInvariant GraphLifecycle.
#[local] Open Scope list_scope.

(** ** Views *)
Definition dropped_view (k : string * string) (protected : gset string) (key : view_key) : Prop :=
  key.1 = k ∧ is_task_view key.2 = true ∧ key.2 ∉ protected.
#[global] Instance dropped_view_dec k p key : Decision (dropped_view k p key).
Proof. unfold dropped_view. apply _. Defined.
Definition without_views (P : view_key → Prop) `{∀ k, Decision (P k)} (d : sidecar) : sidecar :=
  d <| sd_views := filter (λ kv, ¬ P kv.1) (sd_views d) |>.
Lemma remove_views_run k protected names d : ∃ n, remove_views k protected names d =
  ROk (n, without_views (λ key, key.1 = k ∧ key.2 ∈ names ∧ key.2 ∉ protected) d).
Proof.
  revert d. induction names as [|x names IH]; intros d.
  - exists 0. simpl. unfold mret, tx_ret, without_views. do 2 f_equal. destruct d; cbn. f_equal.
    symmetry. apply map_filter_id. intros i v _ (_ & H & _). set_solver.
  - simpl. case_decide as Hx.
    + destruct (IH d) as [n ->]. exists n. do 2 f_equal. unfold without_views. cbn. f_equal.
      apply map_filter_ext. intros i v _. cbn. set_solver.
    + unfold mbind, tx_bind, query, write at 1. match goal with |- context [remove_views _ _ _ ?d1] => destruct (IH d1) as [n ->] end.
      eexists. unfold mret, tx_ret. do 2 f_equal. unfold without_views. cbn. f_equal. apply map_eq. intros key.
      apply option_eq. intros v. rewrite !map_lookup_filter_Some, lookup_delete_Some. cbn. destruct key as [a b]. cbn. set_solver.
Qed.
Lemma task_views_elem d k name : name ∈ task_views d k ↔ is_Some (sd_views d !! (k, name)) ∧ is_task_view name = true.
Proof.
  unfold task_views. rewrite list_elem_of_fmap. split.
  - intros ([[k' n'] v] & -> & H). apply elem_of_map_to_list, map_lookup_filter_Some in H as (H & [<- Ht]). simpl in *. eauto.
  - intros [[v Hv] Ht]. exists ((k, name), v). split; [done|]. by apply elem_of_map_to_list, map_lookup_filter_Some.
Qed.
Lemma remove_task_views_run k protected d : ∃ n, remove_views k protected (task_views d k) d = ROk (n, without_views (dropped_view k protected) d).
Proof.
  destruct (remove_views_run k protected (task_views d k) d) as [n ->]. exists n. do 2 f_equal. unfold without_views. cbn. f_equal.
  apply map_filter_ext. intros [k' name] v Hv. unfold dropped_view. cbn. rewrite task_views_elem. naive_solver.
Qed.
Lemma without_views_linked (P : view_key → Prop) `{∀ k, Decision (P k)} d : linked d → linked (without_views P d).
Proof.
  intros L. assert (grows d (without_views P d)) as G by grown.
  destruct L as [LB LO LS LV LD LF LN LE LG LM]; split; simpl; eauto with graph.
  intros k v Hk. apply map_lookup_filter_Some in Hk as [Hk _]. eapply grows_view_ok; [done|]. by apply LV.
Qed.

(** ** Snapshots *)
Definition hangs_on (X : gset string) (r : diagnostic_row) : bool :=
  match gr_snapshot_id r with Some s => bool_decide (s ∈ X) | None => false end.
Definition without_snapshots (X : gset string) (d : sidecar) : sidecar :=
  d <| sd_snapshots := filter (λ kv, kv.1 ∉ X) (sd_snapshots d) |>
    <| sd_files := filter (λ kv, kv.1.1 ∉ X) (sd_files d) |>
    <| sd_nodes := filter (λ kv, kv.1.1 ∉ X) (sd_nodes d) |>
    <| sd_edges := filter (λ kv, kv.1.1 ∉ X) (sd_edges d) |>
    <| sd_diagnostics := filter (λ kv, hangs_on X kv.2 = false) (sd_diagnostics d) |>
    <| sd_diagnostic_sets := filter (λ kv, kv.1 ∉ X) (sd_diagnostic_sets d) |>.
Lemma without_no_snapshots d : without_snapshots ∅ d = d.
Proof.
  unfold without_snapshots. destruct d; cbn. f_equal; apply map_filter_id; intros; cbn; try apply not_elem_of_empty.
  unfold hangs_on. destruct (gr_snapshot_id _); [|done]. by apply bool_decide_eq_false.
Qed.
Lemma cascade_without X id d : cascade_snapshot id (without_snapshots X d) = without_snapshots ({[id]} ∪ X) d.
Proof.
  unfold without_snapshots, cascade_snapshot. cbn. f_equal; apply map_eq; intros i; apply option_eq; intros v;
    rewrite ?lookup_delete_Some, !map_lookup_filter_Some; cbn; rewrite ?not_elem_of_union, ?not_elem_of_singleton; try tauto.
  1,3: intuition congruence.
  unfold hangs_on. destruct (gr_snapshot_id v) as [s|]; [|naive_solver]. rewrite !bool_decide_eq_false. set_solver.
Qed.
Definition doomed (max_snapshots : Z) (kept : gset string) (retained : Z) (ids : list string) : list string :=
  drop (Z.to_nat (max_snapshots - retained)) (filter (.∉ kept) ids).
Lemma remove_snapshots_run max kept retained ids X d :
  NoDup ids → (∀ s, s ∈ ids → is_Some (sd_snapshots d !! s) ∧ s ∉ X) →
  (∀ k v, sd_views d !! k = Some v → vr_snapshot_id v ∈ ids → vr_snapshot_id v ∈ kept) →
  remove_snapshots max kept retained ids (without_snapshots X d) =
  ROk (Z.of_nat (length (doomed max kept retained ids)), without_snapshots (list_to_set (doomed max kept retained ids) ∪ X) d).
Proof.
  revert retained X. induction ids as [|s ids IH]; intros retained X ND Hin Hv.
  - unfold doomed. rewrite filter_nil, drop_nil. simpl. by rewrite (left_id_L ∅ (∪)).
  - apply NoDup_cons in ND as [Hs ND]. simpl. unfold doomed. rewrite filter_cons. case_decide as Hk.
    + rewrite decide_False by tauto. apply IH; [done|set_solver|set_solver].
    + rewrite decide_True by done. destruct (Z.ltb_spec retained max).
      * rewrite IH by set_solver. unfold doomed. replace (Z.to_nat (max - retained)) with (S (Z.to_nat (max - (retained + 1)))) by lia. done.
      * replace (Z.to_nat (max - retained)) with 0%nat by lia. rewrite drop_0.
        destruct (Hin s) as [[row Hrow] HX]; [set_solver|].
        assert (delete_snapshot s (without_snapshots X d) = ROk (1, without_snapshots ({[s]} ∪ X) d)) as Hdel.
        { unfold delete_snapshot, mbind, tx_bind, query. cbn.
          rewrite (map_lookup_filter_Some_2 _ _ _ _ Hrow) by done. cbn.
          rewrite (proj2 (forallb_forall _ _)); [by rewrite <- cascade_without|].
          intros [k v] Hkv%list_elem_of_In%elem_of_map_to_list. apply negb_true_iff, String.eqb_neq. intros <-. cbn in *. set_solver. }
        rewrite (tx_bind_run _ _ _ _ _ Hdel). erewrite tx_bind_run; [|apply IH; [done| |set_solver]].
        -- unfold mret, tx_ret, doomed. replace (Z.to_nat (max - retained)) with 0%nat by lia. rewrite drop_0, length_cons. do 2 f_equal; [lia|]. f_equal. set_solver.
        -- intros s' Hs'. split; [apply Hin; set_solver|]. apply not_elem_of_union. split; [set_solver|apply Hin; set_solver].
Qed.
Lemma without_snapshots_evidence X d s c : s ∉ X → evidence_key d s c = true → evidence_key (without_snapshots X d) s c = true.
Proof.
  unfold evidence_key. destruct (fc_evidence_path c) as [p|]; [|done]. intros Hs. rewrite !some_true. intros [f Hf].
  exists f. cbn. by apply map_lookup_filter_Some.
Qed.
Lemma filter_is_Some {K V} `{Countable K} (P : K * V → Prop) `{∀ x, Decision (P x)} (m : gmap K V) k :
  (∀ v, P (k, v)) → is_Some (m !! k) → is_Some (filter P m !! k).
Proof. intros HP [v Hv]. exists v. by apply map_lookup_filter_Some. Qed.
Lemma map_Forall_filter_weaken {K V} `{Countable K} (P Q : K → V → Prop) (R : K * V → Prop) `{∀ x, Decision (R x)} (m : gmap K V) :
  map_Forall P m → (∀ k v, R (k, v) → P k v → Q k v) → map_Forall Q (filter R m).
Proof. intros HP HQ k v Hk. apply map_lookup_filter_Some in Hk as [Hk HR]. by apply HQ, HP. Qed.
Lemma without_snapshots_linked X d : linked d → (∀ k v, sd_views d !! k = Some v → vr_snapshot_id v ∉ X) → linked (without_snapshots X d).
Proof.
  intros [LB LO LS LV LD LF LN LE LG LM] HV. split; cbn; [done|done| | | | | | | |].
  - eapply map_Forall_filter_weaken; [done|]. intros s r _ []. by split.
  - intros k v Hk. destruct (LV _ _ Hk) as [V1 V2 V3 (s & Hs & Es) V5]. split; [done..| |done].
    exists s. split; [|done]. apply map_lookup_filter_Some. split; [done|]. by eapply HV.
  - eapply map_Forall_filter_weaken; [done|]. intros s b Hs [H1 H2]. split; [|done]. by apply filter_is_Some.
  - eapply map_Forall_filter_weaken; [done|]. intros k f Hk [H1 H2]. split; [|done]. by apply filter_is_Some.
  - eapply map_Forall_filter_weaken; [done|]. intros k f Hk [H1 H2]. split; [by apply filter_is_Some|by apply without_snapshots_evidence].
  - eapply map_Forall_filter_weaken; [done|]. intros k f Hk (H1 & H2 & H3 & H4).
    split_and!; [by apply filter_is_Some..| |by apply without_snapshots_evidence]. intros t Ht. apply filter_is_Some; auto.
  - eapply map_Forall_filter_weaken; [done|]. intros k g Hg [H1 H2]. split; [done|]. intros s Es. apply filter_is_Some; [|auto].
    intros ?. cbn in Hg. unfold hangs_on in Hg. rewrite Es in Hg. by apply bool_decide_eq_false in Hg.
  - done.
Qed.

(** ** Builds *)
Definition without_builds (Y : gset string) (d : sidecar) : sidecar :=
  d <| sd_builds := filter (λ kv, kv.1 ∉ Y) (sd_builds d) |>
    <| sd_diagnostics := filter (λ kv, gr_build_id kv.2 ∉ Y) (sd_diagnostics d) |>
    <| sd_metrics := filter (λ kv, kv.1 ∉ Y) (sd_metrics d) |>.
Lemma without_no_builds d : without_builds ∅ d = d.
Proof. unfold without_builds. destruct d; cbn. f_equal; apply map_filter_id; set_solver. Qed.
Lemma cascade_build_without Y b d : cascade_build b (without_builds Y d) = without_builds ({[b]} ∪ Y) d.
Proof.
  unfold without_builds, cascade_build. cbn. f_equal; apply map_eq; intros i; apply option_eq; intros v;
    rewrite ?lookup_delete_Some, !map_lookup_filter_Some; cbn; set_solver.
Qed.
Lemma existsb_map {K V} `{Countable K} (f : K * V → bool) (m : gmap K V) :
  existsb f (map_to_list m) = true ↔ ∃ k v, m !! k = Some v ∧ f (k, v) = true.
Proof.
  rewrite existsb_exists. split.
  - intros ([k v] & Hin & Hf). apply list_elem_of_In, elem_of_map_to_list in Hin. eauto.
  - intros (k & v & Hk & Hf). exists (k, v). split; [|done]. by apply list_elem_of_In, elem_of_map_to_list.
Qed.
Lemma referenced_build_true d b : referenced_build d b = true ↔
  (∃ s r, sd_snapshots d !! s = Some r ∧ sr_completed_by r = b) ∨ (∃ k v, sd_views d !! k = Some v ∧ vr_build_id v = b)
  ∨ ∃ s, sd_diagnostic_sets d !! s = Some b.
Proof.
  unfold referenced_build. rewrite !orb_true_iff, !existsb_map. setoid_rewrite String.eqb_eq. cbn. naive_solver.
Qed.
Definition dead (retained : gset string) (builds : list (string * string)) : list string :=
  fst <$> filter (λ bs, ¬ (bs.2 = "failed" ∧ bs.1 ∈ retained)) builds.
Lemma remove_builds_run retained builds Y d :
  NoDup builds.*1 → (∀ b, b ∈ builds.*1 → is_Some (sd_builds d !! b) ∧ b ∉ Y ∧ referenced_build d b = false) →
  remove_builds retained builds (without_builds Y d) =
  ROk (Z.of_nat (length (dead retained builds)), without_builds (list_to_set (dead retained builds) ∪ Y) d).
Proof.
  revert Y. induction builds as [|[b s] builds IH]; intros Y ND Hin.
  - simpl. by rewrite (left_id_L ∅ (∪)).
  - simpl in ND. apply NoDup_cons in ND as [Hb ND]. simpl. unfold dead. rewrite filter_cons. cbn [fst snd].
    destruct (String.eqb_spec s "failed") as [Es|Es]; [destruct (bool_decide_reflect (b ∈ retained)) as [Er|Er]|]; cbn.
    1: { rewrite decide_False by tauto. apply IH; [done|]. intros x Hx. apply Hin. by right. }
    all: rewrite decide_True by tauto; destruct (Hin b) as ([row Hrow] & HY & Href); [by left|].
    all: assert (delete_build b (without_builds Y d) = ROk (1, without_builds ({[b]} ∪ Y) d)) as Hdel;
      [unfold delete_build, mbind, tx_bind, query; cbn; rewrite (map_lookup_filter_Some_2 _ _ _ _ Hrow) by done; cbn;
       change (referenced_build (without_builds Y d) b) with (referenced_build d b); rewrite Href; by rewrite <- cascade_build_without|].
    all: rewrite (tx_bind_run _ _ _ _ _ Hdel); erewrite tx_bind_run; [|apply IH; [done|]];
      [unfold mret, tx_ret, dead; rewrite fmap_cons, length_cons; do 2 f_equal; [lia|]; cbn; f_equal; set_solver|].
    all: intros x Hx; destruct (Hin x) as (? & ? & ?); [by right|]; split_and!; [done|set_solver|done].
Qed.
Lemma without_builds_linked Y d : linked d → (∀ b, b ∈ Y → referenced_build d b = false) → linked (without_builds Y d).
Proof.
  intros [LB LO LS LV LD LF LN LE LG LM] HY. assert (∀ b, referenced_build d b = true → b ∉ Y) as HN by (intros b Hb Hin; by rewrite HY in Hb).
  split; cbn; [| | | | |done|done|done| |].
  - by eapply map_Forall_filter_weaken; [done|].
  - intros b b' r r' Hr Hr'. apply map_lookup_filter_Some in Hr as [Hr _], Hr' as [Hr' _]. by eapply LO.
  - intros s r Hs. destruct (LS _ _ Hs) as [S1 S2 S3 S4 S5 S6 S7 S8 (b & Hb & E)]. split; [done..|]. exists b. split; [|done].
    apply map_lookup_filter_Some. split; [done|]. apply HN, referenced_build_true. left. eauto.
  - intros k v Hk. destruct (LV _ _ Hk) as [V1 V2 V3 V4 (b & Hb & E)]. split; [done..|]. exists b. split; [|done].
    apply map_lookup_filter_Some. split; [done|]. apply HN, referenced_build_true. right. left. eauto.
  - intros s b Hs. destruct (LD _ _ Hs) as [D1 (r & Hr & E)]. split; [done|]. exists r. split; [|done].
    apply map_lookup_filter_Some. split; [done|]. apply HN, referenced_build_true. right. right. eauto.
  - eapply map_Forall_filter_weaken; [done|]. intros k g Hg [H1 H2]. split; [|done]. by apply filter_is_Some.
  - eapply map_Forall_filter_weaken; [done|]. intros k g Hg [H1 H2]. split; [|done]. by apply filter_is_Some.
Qed.

(** ** Retention as a function *)
Section retention.
Context (r : RepositoryRef) (config : RetentionConfig) (p : RetentionProtection).
Notation k := (repo_key r).

Definition after_views (d : sidecar) : sidecar := without_views (dropped_view k (set_map id_as_str (rp_published_views p))) d.
Definition kept_snapshots (d : sidecar) : gset string := published_snapshots (after_views d) k ∪ set_map id_as_str (rp_snapshot_ids p).
Definition removed_snapshots (d : sidecar) : list string :=
  doomed (rc_max_snapshots config) (kept_snapshots d) 0 (snapshots_newest_first d k).
Definition after_snapshots (d : sidecar) : sidecar := without_snapshots (list_to_set (removed_snapshots d)) (after_views d).
Definition after_fragments (d : sidecar) : sidecar :=
  let d := after_snapshots d in d <| sd_cache := filter (λ kv, unused_fragment d k kv.1 = false) (sd_cache d) |>.
Definition removed_builds (d : sidecar) : list string :=
  dead (retained_failed_builds (after_fragments d) k (rc_max_failed_builds config)) (orphaned_builds (after_fragments d) k).
Definition retention (d : sidecar) : sidecar := without_builds (list_to_set (removed_builds d)) (after_fragments d).

Lemma newest_first_elem d s : s ∈ snapshots_newest_first d k ↔ ∃ row, sd_snapshots d !! s = Some row ∧ snapshot_repo row = k.
Proof.
  unfold snapshots_newest_first. rewrite list_elem_of_fmap. setoid_rewrite elem_of_order_by. split.
  - intros ([s' row] & -> & H). apply elem_of_map_to_list, map_lookup_filter_Some in H as [H E]. by exists row.
  - intros (row & H & E). exists (s, row). split; [done|]. by apply elem_of_map_to_list, map_lookup_filter_Some.
Qed.
Lemma newest_first_NoDup d : NoDup (snapshots_newest_first d k).
Proof. unfold snapshots_newest_first. rewrite order_by_Permutation. apply NoDup_fst_map_to_list. Qed.
Lemma published_snapshots_elem d s : s ∈ published_snapshots d k ↔ ∃ key v, sd_views d !! key = Some v ∧ key.1 = k ∧ vr_snapshot_id v = s.
Proof.
  unfold published_snapshots. rewrite elem_of_list_to_set, list_elem_of_fmap. split.
  - intros ([key v] & -> & H). apply elem_of_map_to_list, map_lookup_filter_Some in H as [H E]. by exists key, v.
  - intros (key & v & H & E & <-). exists (key, v). split; [done|]. by apply elem_of_map_to_list, map_lookup_filter_Some.
Qed.
Lemma orphaned_elem d b : b ∈ (orphaned_builds d k).*1 ↔
  ∃ row, sd_builds d !! b = Some row ∧ build_repo row = k ∧ unfinished row = false ∧ referenced_build d b = false.
Proof.
  unfold orphaned_builds. rewrite <- list_fmap_compose, list_elem_of_fmap. split.
  - intros ([b' row] & -> & H). apply elem_of_map_to_list, map_lookup_filter_Some in H as [H E]. cbn in *.
    rewrite !andb_true_iff, !negb_true_iff in E. unfold of_repository in E. rewrite bool_decide_eq_true in E.
    exists row. by destruct E as [[? ?] ?].
  - intros (row & H & E1 & E2 & E3). exists (b, row). split; [done|]. apply elem_of_map_to_list, map_lookup_filter_Some.
    split; [done|]. cbn. unfold of_repository. rewrite !andb_true_iff, !negb_true_iff, bool_decide_eq_true. done.
Qed.
Lemma orphaned_NoDup d : NoDup (orphaned_builds d k).*1.
Proof. unfold orphaned_builds. rewrite <- list_fmap_compose. apply NoDup_fst_map_to_list. Qed.
Lemma orphaned_state d b s : (b, s) ∈ orphaned_builds d k → ∃ row, sd_builds d !! b = Some row ∧ br_state row = s.
Proof.
  unfold orphaned_builds. rewrite list_elem_of_fmap. intros ([b' row] & [= -> ->] & H).
  apply elem_of_map_to_list, map_lookup_filter_Some in H as [H _]. eauto.
Qed.
Lemma removed_snapshots_sub d s : s ∈ removed_snapshots d → s ∈ snapshots_newest_first d k ∧ s ∉ kept_snapshots d.
Proof. unfold removed_snapshots, doomed. intros H%subseteq_drop. by apply list_elem_of_filter in H as [? ?]. Qed.
(** A view that remains points to none of the removed snapshots. *)
Lemma after_views_snapshots d key v : linked d → sd_views (after_views d) !! key = Some v →
  vr_snapshot_id v ∈ snapshots_newest_first d k → vr_snapshot_id v ∈ kept_snapshots d.
Proof.
  intros L Hv Hin. apply elem_of_union_l, published_snapshots_elem. exists key, v. split_and!; [done| |done].
  apply newest_first_elem in Hin as (row & Hrow & Er). pose proof (without_views_linked _ _ L : linked (after_views d)) as L'.
  destruct (lk_views _ L' _ _ Hv) as [_ _ _ (s & Hs & Es) _]. cbn in Hs. rewrite Hs in Hrow. injection Hrow as <-. by rewrite <- Es, Er.
Qed.
Lemma after_snapshots_linked d : linked d → linked (after_snapshots d).
Proof.
  intros L. unfold after_snapshots. apply without_snapshots_linked; [exact (without_views_linked _ _ L)|]. intros key v Hv Hin.
  apply elem_of_list_to_set, removed_snapshots_sub in Hin as [Hin Hn]. apply Hn. by eapply after_views_snapshots.
Qed.
Lemma after_fragments_linked d : linked d → linked (after_fragments d).
Proof.
  intros L%after_snapshots_linked. unfold after_fragments.
  apply (write_cache_keeps (E := string) (filter (λ kv, unused_fragment (after_snapshots d) k kv.1 = false)) (after_snapshots d) tt _ eq_refl), L.
Qed.
Lemma removed_builds_sub d b : b ∈ removed_builds d → b ∈ (orphaned_builds (after_fragments d) k).*1.
Proof. unfold removed_builds, dead. rewrite !list_elem_of_fmap. intros (x & -> & Hx). apply list_elem_of_filter in Hx as [_ Hx]. eauto. Qed.
Lemma remove_snapshots_here d : linked d →
  remove_snapshots (rc_max_snapshots config) (kept_snapshots d) 0 (snapshots_newest_first d k) (after_views d)
  = ROk (Z.of_nat (length (removed_snapshots d)), after_snapshots d).
Proof.
  intros L. rewrite <- (without_no_snapshots (after_views d)). rewrite remove_snapshots_run.
  - unfold after_snapshots, removed_snapshots. by rewrite (right_id_L ∅ (∪)).
  - apply newest_first_NoDup.
  - intros s Hs. split; [|set_solver]. apply newest_first_elem in Hs as (row & Hrow & _). by exists row.
  - intros key v Hv Hin. by eapply after_views_snapshots.
Qed.
Lemma remove_builds_here d :
  remove_builds (retained_failed_builds (after_fragments d) k (rc_max_failed_builds config)) (orphaned_builds (after_fragments d) k)
    (after_fragments d) = ROk (Z.of_nat (length (removed_builds d)), retention d).
Proof.
  rewrite <- (without_no_builds (after_fragments d)) at 3. rewrite remove_builds_run.
  - unfold retention, removed_builds. by rewrite (right_id_L ∅ (∪)).
  - apply orphaned_NoDup.
  - intros b (row & Hrow & _ & _ & E)%orphaned_elem. split_and!; [by exists row|set_solver|done].
Qed.
(** The operation always succeeds, with this result. *)
Lemma collect_garbage_run d : linked d → ∃ n m, collect_garbage r config p d =
  ROk (mk_report 0 0 n (Z.of_nat (length (removed_snapshots d))) (Z.of_nat (length (removed_builds d))) m, retention d).
Proof.
  intros L. unfold collect_garbage. destruct (remove_task_views_run k (set_map id_as_str (rp_published_views p)) d) as [n Hn].
  exists n. eexists. erewrite tx_bind_run by done. rewrite (tx_bind_run _ _ _ _ _ Hn).
  erewrite tx_bind_run by done. erewrite tx_bind_run by done. rewrite (tx_bind_run _ _ _ _ _ (remove_snapshots_here d L)).
  erewrite tx_bind_run by (unfold remove_fragments; by repeat erewrite tx_bind_run by done).
  erewrite tx_bind_run by done. erewrite tx_bind_run by done. by rewrite (tx_bind_run _ _ _ _ _ (remove_builds_here d)).
Qed.
Lemma retention_linked d : linked d → linked (retention d).
Proof.
  intros L%after_fragments_linked. unfold retention. apply without_builds_linked; [exact L|].
  intros b Hb%elem_of_list_to_set%removed_builds_sub%orphaned_elem. naive_solver.
Qed.
End retention.

(** ** Maintenance keeps the invariant *)
Lemma referenced_has_snapshot d b row : linked d → sd_builds d !! b = Some row → referenced_build d b = true →
  is_Some (sd_snapshots d !! br_prospective row).
Proof.
  intros L Hb [(s & r & Hs & <-)|[(k & v & Hv & <-)|(s & Hs)]]%referenced_build_true.
  - destruct (so_build _ _ _ (lk_snapshots _ L _ _ Hs)) as (b & Hb' & <- & _). simplify_eq. by exists r.
  - destruct (lk_views _ L _ _ Hv) as [_ _ _ (s & Hs & _) (b & Hb' & E & _)]. simplify_eq. rewrite E. by exists s.
  - destruct (lk_sets _ L _ _ Hs) as [[x Hx] (b' & Hb' & E)]. rewrite Hb in Hb'. injection Hb' as <-. rewrite E. by exists x.
Qed.
Lemma retention_ok r config p d : sidecar_ok d → sidecar_ok (retention r config p d).
Proof.
  intros [L F]. split; [by apply retention_linked|]. intros b row Hb C.
  apply map_lookup_filter_Some in Hb as [Hb Hn]. cbn in Hn. rewrite elem_of_list_to_set in Hn.
  destruct (F b row Hb C) as (s & Hs & Es). exists s. split; [|done].
  apply map_lookup_filter_Some. split; [done|]. cbn. rewrite elem_of_list_to_set. intros Hd.
  pose proof (after_fragments_linked r config p d L) as L3. destruct (removed_snapshots_sub _ _ _ _ _ Hd) as [Hin _].
  apply newest_first_elem in Hin as (s' & Hs' & Ek). rewrite Hs in Hs'. injection Hs' as <-.
  assert (referenced_build (after_fragments r config p d) b = false) as Href.
  { destruct (referenced_build _ _) eqn:E; [|done]. apply (referenced_has_snapshot _ _ row L3 Hb) in E as [x Hx].
    apply map_lookup_filter_Some in Hx as [_ Hx]. cbn in Hx. rewrite elem_of_list_to_set in Hx. done. }
  apply Hn. unfold removed_builds, dead. apply list_elem_of_fmap. exists (b, br_state row). split; [done|].
  apply list_elem_of_filter. split; [intros [Hf _]; cbn in Hf; unfold completed in C; rewrite Hf in C; naive_solver|].
  assert (unfinished row = false) as Hu.
  { unfold unfinished. destruct (String.eqb_spec (br_state row) "building") as [E|E]; [|done].
    destruct C as [C|[C|[_ [x C]]]]; [congruence..|]. by rewrite C. }
  unfold orphaned_builds. apply list_elem_of_fmap. exists (b, row). split; [done|]. apply elem_of_map_to_list, map_lookup_filter_Some.
  split; [done|]. cbn. unfold of_repository. rewrite Href, Hu. cbn. rewrite bool_decide_eq_true_2; [done|]. rewrite <- Ek, Es. done.
Qed.
Lemma collect_garbage_ok r config p d rep d' : collect_garbage r config p d = ROk (rep, d') → sidecar_ok d → sidecar_ok d'.
Proof.
  intros H W. destruct (collect_garbage_run r config p d (ok_linked _ W)) as (n & m & E). rewrite E in H. simplify_eq.
  by apply retention_ok.
Qed.

(** Leases are no part of it. *)
Lemma leases_ok d f : sidecar_ok d → sidecar_ok (d <| sd_leases := f |>).
Proof.
  intros W. match goal with |- sidecar_ok ?d' => assert (grows d d') as G by grown end.
  eapply extends_ok; [|exact W]. split_and!; [done..|]. intros L.
  destruct L as [LB LO LS LV LD LF LN LE LG LM]; split; simpl; eauto with graph.
Qed.
Definition recovered (now : Z) (finished : string) (d : sidecar) : sidecar :=
  d <| sd_builds := map_imap (λ k r, Some (if interrupted now d k r then interrupt finished r else r)) (sd_builds d) |>.
Lemma recovered_lookup now finished d b : sd_builds (recovered now finished d) !! b =
  (λ r, if interrupted now d b r then interrupt finished r else r) <$> sd_builds d !! b.
Proof. cbn. rewrite map_lookup_imap. by destruct (sd_builds d !! b). Qed.
Lemma recover_run ms finished d rep d' : recover_interrupted_builds ms finished d = ROk (rep, d') →
  unix_millis ms = ROk ms ∧ d' = drop_expired_leases ms (recovered ms finished d)
  ∧ rep = mk_report (count (interrupted_builds ms d)) (count (expired_leases ms d)) 0 0 0 0.
Proof.
  intros H. unfold recover_interrupted_builds in H. apply tx_bind_ROk in H as (now & d1 & H1 & H). apply lift_ROk in H1 as [H1 ->].
  assert (now = ms) as ->. { unfold unix_millis in H1. repeat case_match; by simplify_eq. }
  tx_inv. done.
Qed.
Lemma recovered_ok now finished d : sidecar_ok d → sidecar_ok (recovered now finished d).
Proof.
  intros [L F]. assert (∀ b r, same_build r (if interrupted now d b r then interrupt finished r else r)) as S
    by (intros b r; destruct (interrupted _ _ _ _); by split_and!).
  assert (grows d (recovered now finished d)) as G.
  { split; [|done..]. intros b r Hr. rewrite recovered_lookup, Hr. eexists. split; [done|apply S]. }
  split.
  - destruct L as [LB LO LS LV LD LF LN LE LG LM]; split; eauto with graph.
    + intros b r Hr. rewrite recovered_lookup, fmap_Some in Hr. destruct Hr as (r0 & Hr & ->).
      destruct (LB _ _ Hr) as [B1 B2 B3 B4 B5]. destruct (interrupted _ _ _ _); split; try done. simpl. set_solver.
    + intros b b' r r' Hr Hr'. rewrite recovered_lookup, fmap_Some in Hr, Hr'. destruct Hr as (r0 & Hr & ->), Hr' as (r0' & Hr' & ->).
      intros E. apply (LO _ _ _ _ Hr Hr'). destruct (S b r0) as [<- _], (S b' r0') as [<- _]. done.
  - intros b r Hr. rewrite recovered_lookup, fmap_Some in Hr. destruct Hr as (r0 & Hr & ->). eapply grows_finished_ok; [done|].
    destruct (interrupted _ _ _ _); [by intros [C|[C|[C _]]]|by apply F].
Qed.
Lemma recover_ok ms finished d rep d' : recover_interrupted_builds ms finished d = ROk (rep, d') → sidecar_ok d → sidecar_ok d'.
Proof. intros (_ & -> & _)%recover_run W. by apply leases_ok, recovered_ok. Qed.

(** ** Frames: what an operation leaves alone *)
Definition framed (d d' : sidecar) : Prop := grows d d' ∧ sd_views d' = sd_views d.
Lemma extends_framed d d' : extends d d' → framed d d'.
Proof. by intros (G & _ & V & _). Qed.
Lemma update_build_framed d id f : (∀ r, sd_builds d !! id = Some r → same_build r (f r)) → framed d (update_build id f d).
Proof. intros Hf. split; [by apply update_build_grows|done]. Qed.
Lemma framed_trans d1 d2 d3 : framed d1 d2 → framed d2 d3 → framed d1 d3.
Proof. intros [G V] [G' V']. split; [by etrans|congruence]. Qed.
Lemma start_build_framed t b d u d' : start_build t b d = ROk (u, d') → framed d d' ∧ facts_of d' = facts_of d.
Proof.
  intros H. unfold start_build in H. graph_inv. split; [|done]. split; [|done]. split; simpl; [|done..]. intros k r Hk. exists r.
  split; [|reflexivity]. rewrite lookup_insert_ne by congruence. done.
Qed.
Lemma fail_build_framed t id code d b d' : fail_build t id code d = ROk (b, d') → framed d d' ∧ facts_of d' = facts_of d.
Proof. intros H. unfold fail_build in H. tx_inv. apply found_ROk in H0 as [_ ->]. split; [|done]. apply update_build_framed. intros r _. by split_and!. Qed.
Lemma supersede_build_framed id d b d' : supersede_build id d = ROk (b, d') → framed d d' ∧ facts_of d' = facts_of d.
Proof. intros H. unfold supersede_build in H. tx_inv. apply found_ROk in H0 as [_ ->]. split; [|done]. apply update_build_framed. intros r _. by split_and!. Qed.
Lemma finish_framed d id now : framed d (update_build id (λ r, r <| br_finished_at := Some now |>) d).
Proof. apply update_build_framed. intros r _. by split_and!. Qed.

(** The facts stored of a snapshot *)
Definition facts_at (d : sidecar) (s : string) :=
  (sd_snapshots d !! s, rows_of (sd_files d) s, rows_of (sd_nodes d) s, rows_of (sd_edges d) s).
Lemma facts_of_at d d' s : facts_of d' = facts_of d → facts_at d' s = facts_at d s.
Proof. unfold facts_of, facts_at. by intros [= -> -> -> ->]. Qed.
Lemma rows_of_insert_ne {V} (m : gmap (string * string) V) k v s : k.1 ≠ s → rows_of (<[k := v]> m) s = rows_of m s.
Proof.
  intros Hk. apply map_eq. intros i. apply option_eq. intros x. unfold rows_of. rewrite !map_lookup_filter_Some, lookup_insert_Some.
  cbn. naive_solver.
Qed.
(** A statement that adds facts to one snapshot only *)
Definition only_at (s : string) (m : store unit) : Prop :=
  ∀ d u d' s', m d = ROk (u, d') → s' ≠ s → facts_at d' s' = facts_at d s'.
Lemma only_at_bind s m f : only_at s m → (∀ a, only_at s (f a)) → only_at s (m ≫= f).
Proof.
  intros Hm Hf d u d' s' H Hs. apply tx_bind_ROk in H as (a & d1 & H1 & H2). etrans; [by eapply Hf|by eapply Hm].
Qed.
Lemma only_at_each {A} s (f : A → store unit) l : (∀ a, a ∈ l → only_at s (f a)) → only_at s (tx_each f l).
Proof.
  induction l as [|a l IH]; simpl; intros Hf; [by intros d u d' s' [= _ ->]|].
  apply only_at_bind; [apply Hf; by left|intros _]. apply IH. intros x Hx. apply Hf. by right.
Qed.

Section operations.
Context {FT : FloatText} {JT : JsonText} {LC : Lowercase}.

(** Facts name the snapshot they are committed with: extraction and rebasing
    tag them with it. *)
Definition own_facts (c : IndexCommit) : Prop :=
  (∀ n, n ∈ gf_nodes (ic_graph c) → gn_snapshot_id n = gs_id (ic_snapshot c))
  ∧ ∀ e, e ∈ gf_edges (ic_graph c) → ge_snapshot_id e = gs_id (ic_snapshot c).
Lemma insert_facts_only now c : own_facts c → only_at (id_as_str (gs_id (ic_snapshot c))) (insert_facts now c).
Proof.
  intros [ON OE]. apply only_at_bind; [|intros _; apply only_at_bind; [|intros _; apply only_at_bind; [|intros _]]].
  - intros d u d' s' H Hs. unfold insert_snapshot in H. graph_inv. unfold facts_at. cbn. by rewrite lookup_insert_ne.
  - apply only_at_each. intros f _ d u d' s' H Hs. unfold insert_file in H. graph_inv. unfold facts_at. cbn. by rewrite rows_of_insert_ne.
  - apply only_at_each. intros n Hn d u d' s' H Hs. unfold insert_node in H. graph_inv. unfold facts_at. cbn.
    rewrite rows_of_insert_ne; [done|]. cbn. by rewrite (ON _ Hn).
  - apply only_at_each. intros e He d u d' s' H Hs. unfold insert_edge in H. graph_inv. unfold facts_at. cbn.
    rewrite rows_of_insert_ne; [done|]. cbn. by rewrite (OE _ He).
Qed.
Lemma complete_with_facts facts s existing d c d' sid : only_at (id_as_str (gs_id s)) facts →
  complete_with facts s existing d = ROk (c, d') → load_snapshot d (gs_id s) = ROk existing →
  is_Some (sd_snapshots d !! sid) → facts_at d' sid = facts_at d sid.
Proof.
  intros HF H Hl [x Hx]. unfold complete_with in H. destruct existing as [e|]; tx_inv; simplify_eq; [done|].
  eapply HF; [done|]. intros ->. by rewrite (load_snapshot_None _ _ Hl) in Hx.
Qed.
Lemma complete_build_frame t s d c d' : complete_build t s d = ROk (c, d') → snapshot_in_range s →
  framed d d' ∧ ∀ sid, is_Some (sd_snapshots d !! sid) → facts_at d' sid = facts_at d sid.
Proof.
  intros H R. unfold complete_build in H. tx_inv. apply found_ROk in H0 as [Hb ->]. apply bool_decide_eq_true in H1.
  destruct x3. pose proof (open_build_completes _ _ _ Hb H1 H2) as Hc. fold (complete_with (insert_snapshot (t 0%nat) s) s x5) in H4.
  assert (facts_of x10 = facts_of x8) as EF by (unfold set_diagnostic_set in H5; graph_inv; done).
  split.
  - eapply complete_with_ok in H4 as (X & S & _); [|by apply insert_snapshot_adds|done..].
    assert (completes x8 s) as Hc' by (by eapply completes_same; [apply X|]).
    apply set_diagnostic_set_keeps in H5 as X'; [|done]. apply extends_framed in X, X'.
    eapply framed_trans; [done|]. eapply framed_trans; [done|]. apply finish_framed.
  - intros sid Hs. transitivity (facts_at x10 sid); [done|]. rewrite (facts_of_at _ _ _ EF).
    eapply complete_with_facts; [|done..]. intros d0 u d' s' H' Hs'. unfold insert_snapshot in H'. graph_inv. unfold facts_at. cbn.
    by rewrite lookup_insert_ne.
Qed.
Lemma complete_index_frame t c d r d' : complete_index t c d = ROk (r, d') → snapshot_in_range (ic_snapshot c) → own_facts c →
  framed d d' ∧ ∀ sid, is_Some (sd_snapshots d !! sid) → facts_at d' sid = facts_at d sid.
Proof.
  intros H R O. apply complete_index_steps in H as (Hc & ex & d1 & d2 & Hl & Hw & X & EF & ->); [|done]. split.
  - eapply complete_with_ok in Hw as (X1 & _); [|by apply insert_facts_adds|done..].
    eapply framed_trans; [by apply extends_framed|]. eapply framed_trans; [by apply extends_framed|]. apply finish_framed.
  - intros sid Hs. transitivity (facts_at d2 sid); [done|]. rewrite (facts_of_at _ _ _ EF).
    eapply complete_with_facts; [by apply insert_facts_only|done..].
Qed.

(** ** Operations and traces *)
Inductive graph_op : Type :=
  | OpStartBuild (t : nat → string) (b : GraphBuild)
  | OpFailBuild (t : nat → string) (id : BuildId) (code : DiagnosticCode)
  | OpCompleteBuild (t : nat → string) (s : GraphSnapshot)
  | OpCompleteIndex (t : nat → string) (c : IndexCommit)
  | OpPublish (t : nat → string) (q : PublishRequest)
  | OpSupersedeBuild (id : BuildId)
  | OpRecordMetrics (id : BuildId) (m : IndexBuildMetrics)
  | OpRecordDiagnostic (g : GraphDiagnostic)
  | OpLoadFragment (k : FragmentCacheKey)
  | OpAcquireLease (ms ttl : Z) (r : RepositoryRef) (view : PublishedViewName) (owner : string)
  | OpReleaseLease (r : RepositoryRef) (view : PublishedViewName) (owner : string)
  | OpRenewLease (ms ttl : Z) (r : RepositoryRef) (view : PublishedViewName) (owner : string)
  | OpRecover (ms : Z) (finished : string)
  | OpCollect (r : RepositoryRef) (config : RetentionConfig) (p : RetentionProtection).
(** The database after the operation: what it committed, or what was there. *)
Definition run_op (op : graph_op) (d : sidecar) : sidecar :=
  match op with
  | OpStartBuild t b => (commit (start_build t b) d).2
  | OpFailBuild t id code => (commit (fail_build t id code) d).2
  | OpCompleteBuild t s => (commit (complete_build t s) d).2
  | OpCompleteIndex t c => (commit (complete_index t c) d).2
  | OpPublish t q => (commit (publish t q) d).2
  | OpSupersedeBuild id => (commit (supersede_build id) d).2
  | OpRecordMetrics id m => (commit (record_build_metrics id m) d).2
  | OpRecordDiagnostic g => (commit (record_diagnostic g) d).2
  | OpLoadFragment k => (commit (load_cached_fragment k) d).2
  | OpAcquireLease ms ttl r v o => (commit (acquire_refresh_lease ms ttl r v o) d).2
  | OpReleaseLease r v o => (commit (release_refresh_lease r v o) d).2
  | OpRenewLease ms ttl r v o => (commit (renew_refresh_lease_at ms ttl r v o) d).2
  | OpRecover ms finished => (commit (recover_interrupted_builds ms finished) d).2
  | OpCollect r config p => (commit (collect_garbage r config p) d).2
  end.
Definition run_ops (ops : list graph_op) (d : sidecar) : sidecar := foldl (λ d op, run_op op d) d ops.
(** What the types and the indexer guarantee of the arguments. *)
Definition op_ok (op : graph_op) : Prop :=
  match op with
  | OpCompleteBuild _ s => snapshot_in_range s
  | OpCompleteIndex _ c => snapshot_in_range (ic_snapshot c) ∧ own_facts c
  | _ => True
  end.
Lemma commit_state {E A} (m : tx sidecar E A) d (P : sidecar → Prop) :
  P d → (∀ a d', m d = ROk (a, d') → P d') → P (commit m d).2.
Proof. intros H1 H2. unfold commit. destruct (m d) as [[a d']|e] eqn:E'; [by eapply H2|done]. Qed.

(** What a lease operation changes *)
Definition leases_only {E A} (m : tx sidecar E A) : Prop := ∀ d a d', m d = ROk (a, d') → ∃ l, d' = d <| sd_leases := l |>.
Lemma acquire_leases_only ms ttl r v o : leases_only (acquire_refresh_lease ms ttl r v o).
Proof.
  intros d a d' H. unfold acquire_refresh_lease in H. tx_inv. destruct (_ !! _) in H; tx_inv; eexists; unfold drop_expired_leases; cbn; reflexivity.
Qed.
Lemma release_leases_only r v o : leases_only (release_refresh_lease r v o).
Proof.
  intros d a d' H. unfold release_refresh_lease in H. tx_inv. exists (sd_leases d'). destruct (_ !! _) in H; [|tx_inv; by destruct d].
  destruct (String.eqb _ _); tx_inv; by destruct d.
Qed.
Lemma renew_leases_only ms ttl r v o : leases_only (renew_refresh_lease_at ms ttl r v o).
Proof.
  intros d a d' H. unfold renew_refresh_lease_at in H. tx_inv. exists (sd_leases d'). destruct (_ !! _) in H; [|tx_inv; by destruct d].
  destruct (_ && _); tx_inv; by destruct d.
Qed.
Lemma run_op_ok op d : op_ok op → sidecar_ok d → sidecar_ok (run_op op d).
Proof.
  intros O W. destruct op; simpl in *; apply commit_state; try done; intros a d' H.
  - by eapply start_build_ok.
  - by eapply fail_build_ok.
  - by eapply complete_build_ok.
  - destruct O. by eapply complete_index_ok.
  - by eapply publish_ok.
  - by eapply supersede_build_ok.
  - eapply extends_ok; [|done]. by eapply upsert_metrics_keeps.
  - eapply extends_ok; [|done]. by eapply record_diagnostic_keeps.
  - eapply extends_ok; [|done]. by eapply load_cached_fragment_keeps.
  - apply acquire_leases_only in H as [l ->]. by apply leases_ok.
  - apply release_leases_only in H as [l ->]. by apply leases_ok.
  - apply renew_leases_only in H as [l ->]. by apply leases_ok.
  - by eapply recover_ok.
  - by eapply collect_garbage_ok.
Qed.
Lemma run_ops_ok ops d : Forall op_ok ops → sidecar_ok d → sidecar_ok (run_ops ops d).
Proof. intros H. revert d. induction H as [|op ops O _ IH]; intros d W; [done|]. by apply IH, run_op_ok. Qed.
Lemma empty_sidecar_ok : sidecar_ok empty_sidecar.
Proof. split; [split|]; try apply map_Forall_empty. intros b b' r r' H. change ((∅ : gmap string build_row) !! b = Some r) in H. by rewrite lookup_empty in H. Qed.

(** ** What readers rely on *)
Lemma load_build_defined d id r : sidecar_ok d → sd_builds d !! id_as_str id = Some r →
  ∃ b, load_build d id = ROk (Some b) ∧ build_matches b r.
Proof.
  intros W Hr. destruct (lk_builds _ (ok_linked _ W) _ _ Hr) as [[n Hn] [i Hi] [v Hv] [s Hs] Hst].
  assert (∃ st, build_state_of d (id_as_str id) r = ROk st) as [st Est].
  { unfold build_state_of, build_states in *. rewrite !elem_of_cons in Hst. unfold none, some.
    destruct Hst as [E|[E|[E|[E|[]%not_elem_of_nil]]]]; rewrite E; cbn; eauto. destruct (br_finished_at r) eqn:Ef; cbn; eauto.
    destruct (ok_finished _ W _ _ Hr) as (x & -> & _); [right; right; by rewrite Ef|]. eauto. }
  assert (load_build d id = ROk (Some (mk_build id (RepositoryRef_ n i) v s st))) as E.
  { unfold load_build, corrupt. rewrite Hr, Est. cbn. by rewrite Hn, Hi, Hv, Hs. }
  rewrite E. eexists. split; [done|]. by apply load_build_Some in E as (_ & r' & Hr' & M & _); simplify_eq.
Qed.
Lemma load_snapshot_defined d id r : sidecar_ok d → sd_snapshots d !! id_as_str id = Some r →
  ∃ s, load_snapshot d id = ROk (Some s) ∧ snapshot_matches s r ∧ gs_id s = id.
Proof.
  intros W Hr. destruct (lk_snapshots _ (ok_linked _ W) _ _ Hr) as [[n Hn] [i Hi] [v Hv] [m Hm] [c Hc] [x Hx] Hver [b Hb] _].
  assert (load_snapshot d id = ROk (Some (mk_snapshot id (RepositoryRef_ n i) v m (sr_model_version r) c x b))) as E.
  { unfold load_snapshot, corrupt, get_u32. rewrite Hr. rewrite (proj2 (Z.leb_le 0 _)), (proj2 (Z.ltb_lt _ _)) by lia. cbn.
    by rewrite Hn, Hi, Hv, Hm, Hc, Hx, Hb. }
  rewrite E. eexists. split; [done|]. by apply load_snapshot_Some in E as (_ & r' & Hr' & M); simplify_eq.
Qed.
Lemma load_view_defined d r n row : sidecar_ok d → sd_views d !! key_of_view r n = Some row →
  ∃ v, load_published_view d r n = ROk (Some v) ∧ vw_generation v = vr_generation row
    ∧ id_as_str (vw_snapshot_id v) = vr_snapshot_id row ∧ id_as_str (vw_build_id v) = vr_build_id row.
Proof.
  intros W Hv. destruct (lk_views _ (ok_linked _ W) _ _ Hv) as [[s Hs] [b Hb] Hg _ _].
  unfold load_published_view, corrupt, unsigned. rewrite Hv. rewrite (proj2 (Z.leb_le 0 _)) by lia. cbn. rewrite Hs, Hb.
  eexists. split; [done|]. cbn. split_and!; [done|by apply as_id_Some..].
Qed.

(** C4. In every database that the operations of the graph store, of the index
    store and of its maintenance produce, whatever their order and whichever of
    them fail, reading never meets a corrupt row: every build loads; and a
    published view always leads to a complete snapshot of its own repository
    and to the build that publishes that snapshot. *)
Theorem sidecar_never_corrupt (ops : list graph_op) (r : RepositoryRef) (name : PublishedViewName) (id : BuildId) :
  Forall op_ok ops →
  let d := run_ops ops empty_sidecar in
  (∃ o, load_build d id = ROk o ∧ (o = None ↔ sd_builds d !! id_as_str id = None))
  ∧ ((load_published_view d r name = ROk None ∧ published_snapshot d r name = ROk None)
     ∨ ∃ v s b, load_published_view d r name = ROk (Some v) ∧ published_snapshot d r name = ROk (Some s)
         ∧ load_build d (vw_build_id v) = ROk (Some b) ∧ gs_id s = vw_snapshot_id v ∧ gs_repository s = r
         ∧ gb_repository b = r ∧ gb_prospective_snapshot_id b = gs_id s ∧ 0 < vw_generation v).
Proof.
  intros O d. assert (sidecar_ok d) as W by (apply run_ops_ok; [done|apply empty_sidecar_ok]). split.
  - destruct (sd_builds d !! id_as_str id) as [row|] eqn:E; [|exists None; unfold load_build; by rewrite E].
    destruct (load_build_defined _ _ _ W E) as (b & Hb & _). by exists (Some b).
  - destruct (sd_views d !! key_of_view r name) as [row|] eqn:E.
    2: { left. unfold published_snapshot. assert (load_published_view d r name = ROk None) as -> by (unfold load_published_view; by rewrite E). done. }
    right. destruct (load_view_defined _ _ _ _ W E) as (v & Hv & Eg & Es & Eb).
    destruct (lk_views _ (ok_linked _ W) _ _ E) as [_ _ Hg (sr & Hs & Rs) (br & Hb & Pb & Rb)].
    rewrite <- Es in Hs. rewrite <- Eb in Hb. destruct (load_snapshot_defined _ _ _ W Hs) as (s & Ls & [Ms _ _ _ _ _ _] & Is).
    destruct (load_build_defined _ _ _ W Hb) as (b & Lb & [Mb _ Mp]). exists v, s, b.
    assert (∀ a, repo_key a = repo_key r → a = r) as RI.
    { intros [a1 a2]. destruct r as [r1 r2]. unfold repo_key. cbn. intros [= H1%id_as_str_inj H2%id_as_str_inj]. by subst. }
    split_and!; [done|unfold published_snapshot; by rewrite Hv|done|done| | | |lia].
    + apply RI. by rewrite Ms, Rs.
    + apply RI. by rewrite Mb, Rb.
    + apply id_as_str_inj. by rewrite Mp, Pb, <- Es, Is.
Qed.
End operations.
