(* ===== verification/GraphSafety.v ===== *)
(** Safety of the sidecar over time: publication only moves forward, stored
    facts never change, retention removes only what nothing needs, and leases
    and recovery do not disturb a running build. *)
From S2P Require Import Prelude View Transact Wire Identity AgentData AgentWire Text GraphDomain GraphStore GraphIndexStore GraphMaintenance GraphInvariant GraphLifecycle GraphTheorems.
#[local] Open Scope list_scope.

(** ** Publication *)
(** The pointer's generation and the age of its build do not go back, and
    what a generation points to never changes. *)
Definition order_of (d : sidecar) (v : view_row) : option Z := br_rowid <$> sd_builds d !! vr_build_id v.
Definition advanced (d : sidecar) (v : view_row) (d' : sidecar) (v' : view_row) : Prop :=
  vr_generation v ≤ vr_generation v' ∧ (vr_generation v = vr_generation v' → v' = v)
  ∧ ∃ x y, order_of d v = Some x ∧ order_of d' v' = Some y ∧ x ≤ y.
Lemma advanced_trans d1 v1 d2 v2 d3 v3 : advanced d1 v1 d2 v2 → advanced d2 v2 d3 v3 → advanced d1 v1 d3 v3.
Proof.
  intros (G & S & x & y & X & Y & L) (G' & S' & x' & y' & X' & Y' & L'). split_and!; [lia| |].
  - intros E. rewrite S' by lia. apply S. lia.
  - exists x, y'. split_and!; [done..|]. rewrite Y in X'. simplify_eq. lia.
Qed.
Lemma order_of_view d k v : sidecar_ok d → sd_views d !! k = Some v → is_Some (order_of d v).
Proof. intros W Hv. destruct (vo_build _ _ _ (lk_views _ (ok_linked _ W) _ _ Hv)) as (b & Hb & _). unfold order_of. rewrite Hb. by eexists. Qed.
(** Rows that are kept keep their order. *)
Lemma same_order d d' v : is_Some (order_of d v) →
  (∀ r, sd_builds d !! vr_build_id v = Some r → ∃ r', sd_builds d' !! vr_build_id v = Some r' ∧ br_rowid r' = br_rowid r) →
  advanced d v d' v.
Proof.
  intros [x Hx] H. split_and!; [lia|done|]. exists x, x. split_and!; [done| |lia]. unfold order_of in *.
  destruct (sd_builds d !! vr_build_id v) as [r|] eqn:E; [|done]. destruct (H r) as (r' & -> & E'); [done|]. simplify_eq/=. by rewrite E'.
Qed.
Lemma framed_advanced d d' k v : sidecar_ok d → framed d d' → sd_views d !! k = Some v → ∃ v', sd_views d' !! k = Some v' ∧ advanced d v d' v'.
Proof.
  intros W [G V] Hv. exists v. rewrite V. split; [done|]. apply same_order; [by eapply order_of_view|].
  intros r Hr. destruct (gw_builds _ _ G _ _ Hr) as (r' & Hr' & E & _). eauto.
Qed.
Lemma state_same st r : same_build r (r <| br_state := st |>).
Proof. by split_and!. Qed.
Lemma publish_advanced t q d o d' k v : publish t q d = ROk (o, d') → sidecar_ok d → sd_views d !! k = Some v →
  ∃ v', sd_views d' !! k = Some v' ∧ advanced d v d' v'.
Proof.
  intros H W Hv. pose proof (publish_ok _ _ _ _ _ H W) as W'.
  apply publish_cases in H as (b & s & cur & Hb & Hr & Hs & _ & Hc & _ & P).
  assert (∀ f, (∀ r, same_build r (f r)) → grows d (update_build (id_as_str (gb_id b)) f d)) as HG
    by (intros f Hf; apply update_build_grows; auto).
  assert (∀ g now, (k = pub_key q → False) → ∃ v', sd_views (moved now q b g d) !! k = Some v' ∧ advanced d v (moved now q b g d) v') as Other.
  { intros g now Hk. exists v. split; [cbn; by rewrite lookup_insert_ne by naive_solver|]. apply same_order; [by eapply order_of_view|].
    intros r Hl. destruct (gw_builds _ _ (HG _ (state_same "published")) _ _ Hl) as (r' & Hr' & E & _). eauto. }
  inversion P; subst.
  - destruct (decide (k = pub_key q)) as [->|Hk]; [|by apply Other]. apply load_published_view_None in Hc. unfold pub_key in Hv. congruence.
  - exists v. split; [done|]. apply same_order; [by eapply order_of_view|]. eauto.
  - destruct (decide (k = pub_key q)) as [->|Hk]; [|by apply Other].
    apply load_published_view_Some in Hc as (row & Hrow & Ev & Es & Eb). unfold pub_key in Hv. rewrite Hv in Hrow. injection Hrow as <-.
    eexists. split; [cbn; by rewrite lookup_insert_eq|]. rewrite Ev. cbn. unfold advanced. cbn. split_and!; [lia|lia|].
    match goal with B1 : built d (gb_id b) _, B2 : built d (vw_build_id _) _ |- _ => destruct B1 as (ra & Hra & Ex), B2 as (rb & Hrb & Ey) end.
    rewrite Eb in Hrb. exists y, x. unfold order_of. cbn.
    rewrite Hrb, lookup_alter_eq, Hra. cbn. by subst.
  - apply (framed_advanced d); [done|split; [apply HG, state_same|done]|done].
Qed.
Lemma collect_garbage_advanced r config p d k v : sidecar_ok d → is_task_view k.2 = false → sd_views d !! k = Some v →
  ∃ v', sd_views (retention r config p d) !! k = Some v' ∧ advanced d v (retention r config p d) v'.
Proof.
  intros W Hk Hv. assert (sd_views (retention r config p d) !! k = Some v) as Hv'.
  { cbn. apply map_lookup_filter_Some. split; [done|]. cbn. unfold dropped_view. intros (_ & E & _). congruence. }
  exists v. split; [done|]. apply same_order; [by eapply order_of_view|]. intros row Hrow.
  destruct (vo_build _ _ _ (lk_views _ (retention_linked r config p _ (ok_linked _ W)) _ _ Hv')) as (b & Hb & _).
  exists b. split; [done|]. cbn in Hb. apply map_lookup_filter_Some in Hb as [Hb _]. cbn in Hb. rewrite Hrow in Hb. by injection Hb as ->.
Qed.

Section traces.
Context {FT : FloatText} {JT : JsonText} {LC : Lowercase}.

Lemma leases_framed d l : framed d (d <| sd_leases := l |>).
Proof. split; [|done]. grown. Qed.
Lemma recover_framed ms finished d rep d' : recover_interrupted_builds ms finished d = ROk (rep, d') → framed d d' ∧ facts_of d' = facts_of d.
Proof.
  intros (_ & -> & _)%recover_run. split; [|done]. eapply framed_trans; [|apply leases_framed]. split; [|done]. split; [|done..].
  intros b r Hr. rewrite recovered_lookup, Hr. eexists. split; [done|]. destruct (interrupted _ _ _ _); by split_and!.
Qed.
Lemma run_op_advanced op d k v : op_ok op → sidecar_ok d → is_task_view k.2 = false → sd_views d !! k = Some v →
  ∃ v', sd_views (run_op op d) !! k = Some v' ∧ advanced d v (run_op op d) v'.
Proof.
  intros O W Hk Hv.
  assert (∀ d', framed d d' → ∃ v', sd_views d' !! k = Some v' ∧ advanced d v d' v') as HF by (intros; by eapply framed_advanced).
  assert (framed d d) as H0 by (split; [reflexivity|done]).
  destruct op; simpl in *;
    match goal with |- context [commit ?m d] => apply (commit_state m d (λ d', ∃ v', sd_views d' !! k = Some v' ∧ advanced d v d' v')) end;
    (by apply HF) || intros a d' H.
  - by apply HF, (start_build_framed _ _ _ _ _ H).
  - by apply HF, (fail_build_framed _ _ _ _ _ _ H).
  - by apply HF, (complete_build_frame _ _ _ _ _ H).
  - destruct O. by apply HF, (complete_index_frame _ _ _ _ _ H).
  - by eapply publish_advanced.
  - by apply HF, (supersede_build_framed _ _ _ _ H).
  - by apply HF, extends_framed, (upsert_metrics_keeps _ _ _ _ _ H).
  - by apply HF, extends_framed, (record_diagnostic_keeps _ _ _ _ H).
  - by apply HF, extends_framed, (load_cached_fragment_keeps _ _ _ _ H).
  - apply acquire_leases_only in H as [l ->]. by apply HF, leases_framed.
  - apply release_leases_only in H as [l ->]. by apply HF, leases_framed.
  - apply renew_leases_only in H as [l ->]. by apply HF, leases_framed.
  - by apply HF, (recover_framed _ _ _ _ _ H).
  - destruct (collect_garbage_run r config p d (ok_linked _ W)) as (n & m & E). rewrite E in H. simplify_eq. by apply collect_garbage_advanced.
Qed.

(** C14. A published view only moves forward: over any sequence of operations
    after [before], a view that is not a task's stays published, its generation
    never decreases, two readings with the same generation show the same
    snapshot and build, and the build it points to is never older than before
    in the order in which builds were started. *)
Theorem publication_monotone (before ops : list graph_op) (k : view_key) (v : view_row) :
  Forall op_ok before → Forall op_ok ops → is_task_view k.2 = false →
  let d := run_ops before empty_sidecar in
  sd_views d !! k = Some v →
  ∃ v', sd_views (run_ops ops d) !! k = Some v' ∧ advanced d v (run_ops ops d) v'.
Proof.
  intros OB O Hk d. assert (sidecar_ok d) as W by (apply run_ops_ok; [done|apply empty_sidecar_ok]). clearbody d. clear OB before.
  revert d v W. induction O as [|op ops O1 O IH]; intros d v W Hv.
  - exists v. split; [done|]. apply same_order; [by eapply order_of_view|]. eauto.
  - destruct (run_op_advanced op d k v O1 W Hk Hv) as (v1 & Hv1 & A1).
    destruct (IH _ _ (run_op_ok _ _ O1 W) Hv1) as (v2 & Hv2 & A2). exists v2. split; [done|]. by eapply advanced_trans.
Qed.

(** ** Stored facts *)
Lemma rows_of_filter {V} (m : gmap (string * string) V) (X : gset string) s :
  rows_of (filter (λ kv, kv.1.1 ∉ X) m) s = if decide (s ∈ X) then ∅ else rows_of m s.
Proof.
  apply map_eq. intros i. apply option_eq. intros v. unfold rows_of. rewrite !map_lookup_filter_Some. cbn.
  case_decide; rewrite ?lookup_empty, ?map_lookup_filter_Some; cbn; naive_solver.
Qed.
Lemma retention_facts r config p d s : facts_at (retention r config p d) s =
  if decide (s ∈ removed_snapshots r config p d) then (None, ∅, ∅, ∅) else facts_at d s.
Proof.
  unfold facts_at. cbn. rewrite !rows_of_filter. destruct (decide (s ∈ removed_snapshots r config p d)) as [H|H].
  - rewrite !decide_True by set_solver. do 3 f_equal. apply map_lookup_filter_None. right. intros x _. cbn. set_solver.
  - rewrite !decide_False by set_solver. do 3 f_equal. apply option_eq. intros x. rewrite map_lookup_filter_Some. cbn. set_solver.
Qed.

(** C24. A stored snapshot is immutable: no operation changes its identity, its
    files, its nodes or its edges, not even a build that completes the same
    snapshot again; only retention removes them, and then all of them. *)
Theorem stored_facts_immutable (before : list graph_op) (op : graph_op) (s : string) :
  Forall op_ok before → op_ok op →
  let d := run_ops before empty_sidecar in
  is_Some (sd_snapshots d !! s) →
  facts_at (run_op op d) s = facts_at d s
  ∨ (∃ r config p, op = OpCollect r config p ∧ s ∈ removed_snapshots r config p d) ∧ facts_at (run_op op d) s = (None, ∅, ∅, ∅).
Proof.
  intros OB O d Hs. assert (sidecar_ok d) as W by (apply run_ops_ok; [done|apply empty_sidecar_ok]). clearbody d. clear OB before.
  destruct op; simpl in *;
    match goal with |- _ ∨ (∃ r config p, OpCollect _ _ _ = _ ∧ _) ∧ _ => idtac | |- _ => left;
      match goal with |- context [commit ?m d] => apply (commit_state m d (λ d', facts_at d' s = facts_at d s)); [done|intros a d' H] end end.
  - by apply facts_of_at, (start_build_framed _ _ _ _ _ H).
  - by apply facts_of_at, (fail_build_framed _ _ _ _ _ _ H).
  - by apply (complete_build_frame _ _ _ _ _ H).
  - destruct O. by apply (complete_index_frame _ _ _ _ _ H).
  - apply publish_cases in H as (b & sn & cur & _ & _ & _ & _ & _ & _ & P). by inversion P.
  - by apply facts_of_at, (supersede_build_framed _ _ _ _ H).
  - unfold record_build_metrics, upsert_metrics in H. graph_inv. done.
  - unfold record_diagnostic in H. destruct (diagnostic_columns g) as [row|]; [|done].
    destruct (insert_diagnostic_row row d) as [[u' d1]|[]] eqn:E; simplify_eq. unfold insert_diagnostic_row in E. graph_inv. done.
  - unfold load_cached_fragment in H. tx_inv. destruct (sd_cache d !! _); [|by tx_inv]. destruct (json_parse _ ≫= _); by tx_inv.
  - by apply acquire_leases_only in H as [l ->].
  - by apply release_leases_only in H as [l ->].
  - by apply renew_leases_only in H as [l ->].
  - by apply facts_of_at, (recover_framed _ _ _ _ _ H).
  - destruct (collect_garbage_run r config p d (ok_linked _ W)) as (n & m & E). unfold commit. rewrite E. cbn [snd].
    rewrite retention_facts. case_decide as Hd; [right|by left]. split; [|done]. by exists r, config, p.
Qed.
End traces.

(** ** Retention *)
(** The snapshots of the repository that nothing protects, newest first *)
Definition ordinary_snapshots (r : RepositoryRef) (p : RetentionProtection) (d : sidecar) : list string :=
  filter (.∉ kept_snapshots r p d) (snapshots_newest_first d (repo_key r)).
Lemma referenced_without Y d b : referenced_build (without_builds Y d) b = referenced_build d b.
Proof. done. Qed.
Lemma take_drop_NoDup {A} (l : list A) n x : NoDup l → x ∈ l → x ∉ drop n l ↔ x ∈ take n l.
Proof.
  intros ND Hx. rewrite <- (take_drop n l) in ND, Hx at 1. apply NoDup_app in ND as (_ & ND & _). apply elem_of_app in Hx. naive_solver.
Qed.


(** ** Leases and recovery *)
(** The time an operation reads *)
Definition op_time (op : graph_op) : option Z :=
  match op with
  | OpAcquireLease ms _ _ _ _ | OpRenewLease ms _ _ _ _ | OpRecover ms _ => Some ms
  | _ => None
  end.
(** Operations that are not the running build's own *)
Definition foreign (b : string) (op : graph_op) : Prop :=
  match op with
  | OpFailBuild _ id _ | OpSupersedeBuild id => id_as_str id ≠ b
  | OpCompleteBuild _ s => id_as_str (gs_completed_by s) ≠ b
  | OpCompleteIndex _ c => id_as_str (gs_completed_by (ic_snapshot c)) ≠ b
  | OpReleaseLease _ _ o | OpRenewLease _ _ _ _ o => o ≠ b
  | _ => True
  end.
(** The build runs, and owns a lease that lasts beyond [now]. *)
Definition running (now : Z) (d : sidecar) (b : string) (r : build_row) (k : view_key) (l : lease_row) : Prop :=
  sd_builds d !! b = Some r ∧ unfinished r = true ∧ sd_leases d !! k = Some l ∧ lr_owner_token l = b ∧ now < lr_expires_at_ms l.

Lemma unfinished_state d id r : unfinished r = true → build_state_of d id r = ROk BBuilding.
Proof. unfold unfinished, build_state_of. by intros ->. Qed.
Lemma running_owned now d b r k l ms : running now d b r k l → ms ≤ now → owned_build ms d b = true.
Proof.
  intros (_ & _ & Hl & Ho & He) Hm. apply existsb_map. exists k, l. split; [done|]. cbn. rewrite Ho, String.eqb_refl. cbn. apply Z.ltb_lt. lia.
Qed.
Lemma unix_millis_id ms now : unix_millis ms = ROk now → now = ms.
Proof. unfold unix_millis. repeat case_match; by intros [=]. Qed.

Section running.
Context {FT : FloatText} {JT : JsonText} {LC : Lowercase}.

Definition same_running (d d' : sidecar) (b : string) (k : view_key) : Prop :=
  sd_builds d' !! b = sd_builds d !! b ∧ sd_leases d' !! k = sd_leases d !! k.
Lemma update_other_build d id f b k : id ≠ b → same_running d (update_build id f d) b k.
Proof. intros H. split; [|done]. cbn. by rewrite lookup_alter_ne. Qed.
(** Statements that touch neither builds nor leases *)
Definition off_running (d d' : sidecar) : Prop := sd_builds d' = sd_builds d ∧ sd_leases d' = sd_leases d.
Definition quiet {E A} (m : tx sidecar E A) : Prop := ∀ d a d', m d = ROk (a, d') → off_running d d'.
Lemma quiet_bind {E A B} (m : tx sidecar E A) (f : A → tx sidecar E B) : quiet m → (∀ a, quiet (f a)) → quiet (m ≫= f).
Proof.
  intros Hm Hf d b d' H. apply tx_bind_ROk in H as (a & d1 & H1 & H2). apply Hm in H1 as [B1 L1]. apply Hf in H2 as [B2 L2]. split; congruence.
Qed.
Lemma quiet_ret {E A} (a : A) : quiet (mret (M := tx sidecar E) a).
Proof. by intros d x d' [= _ ->]. Qed.
Lemma quiet_each {A} (f : A → tx sidecar StoreError unit) l : (∀ a, quiet (f a)) → quiet (tx_each f l).
Proof. intros Hf. induction l as [|a l IH]; simpl; [apply quiet_ret|by apply quiet_bind]. Qed.
Ltac quietly := let d := fresh in let a := fresh in let d' := fresh in let H := fresh in intros d a d' H; graph_inv; done.
Lemma insert_snapshot_quiet now s : quiet (insert_snapshot now s).
Proof. intros d u d' H. unfold insert_snapshot in H. graph_inv. done. Qed.
Lemma set_diagnostic_set_quiet s : quiet (set_diagnostic_set s).
Proof. intros d u d' H. unfold set_diagnostic_set in H. graph_inv. done. Qed.
Lemma insert_diagnostic_row_quiet row : quiet (insert_diagnostic_row row).
Proof. intros d u d' H. unfold insert_diagnostic_row in H. graph_inv. done. Qed.
Lemma upsert_metrics_quiet b m : quiet (upsert_metrics b m).
Proof. intros d u d' H. unfold upsert_metrics in H. graph_inv. done. Qed.
Lemma insert_facts_quiet now c : quiet (insert_facts now c).
Proof.
  apply quiet_bind; [apply insert_snapshot_quiet|intros _]. apply quiet_bind; [|intros _; apply quiet_bind; [|intros _]]; apply quiet_each; intros x d u d' H.
  - unfold insert_file in H. graph_inv. done.
  - unfold insert_node in H. graph_inv. done.
  - unfold insert_edge in H. graph_inv. done.
Qed.
Lemma complete_with_quiet facts s existing : quiet facts → quiet (complete_with facts s existing).
Proof.
  intros HF. destruct existing; simpl; (apply quiet_bind; [|intros _; apply quiet_ret]); [|done]. intros d u d' H. tx_inv. done.
Qed.
Lemma replace_snapshot_diagnostics_quiet s l : quiet (replace_snapshot_diagnostics s l).
Proof.
  apply quiet_bind; [quietly|intros _]. apply quiet_bind; [quietly|intros _].
  apply quiet_bind; [|intros _; apply set_diagnostic_set_quiet]. apply quiet_each. intros g. apply quiet_bind; [quietly|intros row].
  apply insert_diagnostic_row_quiet.
Qed.
Lemma upsert_cached_fragments_quiet t l : quiet (upsert_cached_fragments t l).
Proof.
  revert t. induction l as [|c l IH]; intros t; simpl; [apply quiet_ret|]. apply quiet_bind; [|intros _; apply IH].
  intros d u d' H. unfold upsert_cached_fragment in H. graph_inv. done.
Qed.
(** Everything of a completion up to the build's own row *)
Lemma complete_build_running t s d c d' b k : complete_build t s d = ROk (c, d') → id_as_str (gs_completed_by s) ≠ b → same_running d d' b k.
Proof.
  intros H Hb. unfold complete_build in H. tx_inv. apply found_ROk in H0 as [Hl ->]. destruct (load_build_Some _ _ _ Hl) as [Eid _].
  fold (complete_with (insert_snapshot (t 0%nat) s) s x5) in H4. apply complete_with_quiet in H4 as [B1 L1]; [|apply insert_snapshot_quiet].
  apply set_diagnostic_set_quiet in H5 as [B2 L2]. rewrite Eid.
  destruct (update_other_build x10 (id_as_str (gs_completed_by s)) (λ r, r <| br_finished_at := Some (t 1%nat) |>) b k Hb) as [E1 E2].
  split; [etrans; [exact E1|]|etrans; [exact E2|]]; congruence.
Qed.
Lemma complete_index_running t c d r d' b k : complete_index t c d = ROk (r, d') →
  id_as_str (gs_completed_by (ic_snapshot c)) ≠ b → same_running d d' b k.
Proof.
  intros H Hb. unfold complete_index in H. apply tx_bind_ROk in H as (bl & d0 & Hl & H). apply found_ROk in Hl as [_ ->].
  apply tx_bind_ROk in H as (? & ? & Hs & H). apply require_ROk in Hs as [_ ->].
  apply tx_bind_ROk in H as (? & ? & Hv & H). apply lift_ROk in Hv as [_ ->].
  apply tx_bind_ROk in H as (? & ? & Hr & H). apply check_reuse_same in Hr as ->.
  apply tx_bind_ROk in H as (existing & ? & He & H). apply fetch_ROk in He as [_ ->].
  apply tx_bind_ROk in H as (r' & d1 & Hw & H). fold (complete_with (insert_facts (t 0%nat) c) (ic_snapshot c) existing) in Hw.
  apply complete_with_quiet in Hw as [B1 L1]; [|apply insert_facts_quiet].
  apply tx_bind_ROk in H as (? & d2 & H1 & H). apply replace_snapshot_diagnostics_quiet in H1 as [B2 L2].
  apply tx_bind_ROk in H as (? & d3 & H2 & H). apply upsert_cached_fragments_quiet in H2 as [B3 L3].
  apply tx_bind_ROk in H as (? & d4 & H3 & H). assert (off_running d3 d4) as [B4 L4].
  { revert H3. apply quiet_each. intros key. quietly. }
  apply tx_bind_ROk in H as (? & d5 & H4 & H). apply upsert_metrics_quiet in H4 as [B5 L5]. tx_inv.
  destruct (update_other_build d5 _ (λ r, r <| br_finished_at := Some (t 2%nat) |>) b k Hb) as [E1 E2].
  split; [etrans; [exact E1|]|etrans; [exact E2|]]; congruence.
Qed.

Lemma load_running d b r k l now id bl : running now d b r k l → load_build d id = ROk (Some bl) → gb_state bl ≠ BBuilding → id_as_str id ≠ b.
Proof.
  intros (Hb & Hu & _) Hl Hs E. apply load_build_Some in Hl as (_ & r' & Hr & _ & Hst). rewrite E, Hb in Hr. injection Hr as <-.
  rewrite (unfinished_state _ _ _ Hu) in Hst. congruence.
Qed.
Lemma drop_expired_running now d b r k l ms : running now d b r k l → ms ≤ now → sd_leases (drop_expired_leases ms d) !! k = Some l.
Proof. intros (_ & _ & Hl & _ & He) Hm. cbn. apply map_lookup_filter_Some. split; [done|]. cbn. lia. Qed.
Lemma foreign_op_running op d b r k l now : running now d b r k l → sidecar_ok d → foreign b op →
  (∀ ms, op_time op = Some ms → ms ≤ now) → same_running d (run_op op d) b k.
Proof.
  intros R W F T. pose proof R as (Hb & Hu & Hl & Ho & He).
  destruct op; simpl in *;
    match goal with |- same_running _ (commit ?m d).2 _ _ => apply (commit_state m d (λ d', same_running d d' b k)); [done|intros a d' H] end.
  - unfold start_build in H. graph_inv. split; [cbn; rewrite lookup_insert_ne; [done|congruence]|done].
  - unfold fail_build in H. tx_inv. apply found_ROk in H0 as [_ ->]. by apply update_other_build.
  - by eapply complete_build_running.
  - by eapply complete_index_running.
  - apply publish_cases in H as (bl & sn & cur & Hbl & _ & Hs & _ & _ & _ & P).
    assert (id_as_str (gb_id bl) ≠ b) as Hne.
    { destruct (load_build_Some _ _ _ Hbl) as [-> _]. eapply load_running; [done..|]. destruct Hs; congruence. }
    inversion P; subst; try done; (split; [|done]); cbn; by rewrite lookup_alter_ne.
  - unfold supersede_build in H. tx_inv. apply found_ROk in H0 as [_ ->]. by apply update_other_build.
  - apply upsert_metrics_quiet in H as [B L]. split; congruence.
  - unfold record_diagnostic in H. destruct (diagnostic_columns g) as [row|]; [|done].
    destruct (insert_diagnostic_row row d) as [[u' d1]|[]] eqn:E; simplify_eq. apply insert_diagnostic_row_quiet in E as [B L]. split; congruence.
  - unfold load_cached_fragment in H. tx_inv. destruct (sd_cache d !! _); [|by tx_inv]. destruct (json_parse _ ≫= _); by tx_inv.
  - unfold acquire_refresh_lease in H. apply tx_bind_ROk in H as (ms' & ? & H1 & H). apply lift_ROk in H1 as [H1%unix_millis_id ->]. subst ms'.
    tx_inv. pose proof (drop_expired_running _ _ _ _ _ _ ms R (T _ eq_refl)) as Hk. destruct (_ !! key_of_view _ _) eqn:E in H; tx_inv.
    + split; [done|]. by rewrite Hk.
    + split; [done|]. cbn. rewrite lookup_insert_ne; [by rewrite Hl; exact Hk|]. intros Ek. rewrite <- Ek in Hk. cbn in *. congruence.
  - unfold release_refresh_lease in H. tx_inv. destruct (_ !! key_of_view _ _) as [row|] eqn:E in H; [|by tx_inv].
    destruct (String.eqb_spec (lr_owner_token row) owner) in H; tx_inv; [|done]. split; [done|]. cbn. rewrite lookup_delete_ne; [done|]. congruence.
  - unfold renew_refresh_lease_at in H. tx_inv. destruct (_ !! key_of_view _ _) as [row|] eqn:E in H; [|by tx_inv].
    destruct (String.eqb_spec (lr_owner_token row) owner) in H; cbn in H; [destruct (_ <? _) in H|]; tx_inv; [|done|done].
    split; [done|]. cbn. rewrite lookup_insert_ne; [done|]. congruence.
  - apply recover_run in H as (_ & -> & _). split; [|rewrite Hl; exact (drop_expired_running _ _ _ _ _ _ ms R (T _ eq_refl))].
    change (sd_builds (recovered ms finished d) !! b = sd_builds d !! b). rewrite recovered_lookup, Hb. cbn. unfold interrupted.
    by rewrite (running_owned _ _ _ _ _ _ ms R (T _ eq_refl)), andb_false_r.
  - destruct (collect_garbage_run r0 config p d (ok_linked _ W)) as (n & m & E). rewrite E in H. simplify_eq. split; [|done].
    rewrite Hb. cbn. apply map_lookup_filter_Some. split; [done|]. cbn. rewrite elem_of_list_to_set.
    intros (row & Hrow & _ & Hu' & _)%removed_builds_sub%orphaned_elem. cbn in Hrow. congruence.
Qed.

(** C26. A running build is left alone: while its lease lasts (no clock reading
    goes beyond [now], before the lease's end), no operation of anybody else -
    other builds and publications, acquisitions, releases and renewals by other
    owners, recovery, retention - changes the build's row or takes the lease. *)
Theorem running_build_undisturbed (before ops : list graph_op) (now : Z) (b : string) (r : build_row) (k : view_key) (l : lease_row) :
  Forall op_ok before → Forall op_ok ops → Forall (foreign b) ops →
  Forall (λ op, ∀ ms, op_time op = Some ms → ms ≤ now) ops →
  let d := run_ops before empty_sidecar in
  running now d b r k l → running now (run_ops ops d) b r k l.
Proof.
  intros OB O F T d. assert (sidecar_ok d) as W by (apply run_ops_ok; [done|apply empty_sidecar_ok]). clearbody d. clear OB before.
  revert d W. induction O as [|op ops O1 O IH]; intros d W R; [done|]. inversion F as [|? ? F1 F']; subst. inversion T as [|? ? T1 T']; subst.
  apply (IH F' T' (run_op op d) (run_op_ok _ _ O1 W)).
  destruct (foreign_op_running op d b r k l now R W F1 T1) as [E1 E2]. destruct R as (Hb & Hu & Hl & Ho & He).
  split_and!; [by rewrite E1|done|by rewrite E2|done|done].
Qed.
End running.

