(* ===== verification/GraphContents.v ===== *)
(** Facts survive their encodings: the JSON of the fragment cache and the
    columns of the tables read back as the fact that was written, for values
    of their Rust types.

    A completed index reads back as it was committed: the columns of facts
    decode to the fact, and a new snapshot holds exactly the commit's. *)
From S2P Require Import Prelude View Transact Wire Identity Text AgentData AgentWire AgentWireFacts GraphDomain GraphStore GraphIndexStore GraphMaintenance GraphInvariant GraphLifecycle GraphTheorems.
#[local] Open Scope list_scope.

(** ** Values of the Rust types *)
Definition u32 (z : Z) : Prop := 0 ≤ z < u32_modulus.
Definition i64 (z : Z) : Prop := - 2 ^ 63 ≤ z < 2 ^ 63.
Definition position_typed (p : SourcePosition) : Prop :=
  u64 (sp_byte_offset p) ∧ opt_typed u32 (sp_line p) ∧ opt_typed u32 (sp_column p).
Definition span_typed (s : SourceSpan) : Prop := position_typed (span_start s) ∧ position_typed (span_end s).
Definition provenance_typed (p : FactProvenance) : Prop :=
  u32 (xi_contract_version (fp_extractor p)) ∧ opt_typed (λ e, opt_typed span_typed (ev_span e)) (fp_evidence p).
Definition graph_value_typed (exact : f64 → Prop) (v : GraphValue) : Prop :=
  match v with GvInteger z => i64 z | GvFloat x => exact x | _ => True end.
Definition node_typed (exact : f64 → Prop) (n : GraphNode) : Prop :=
  provenance_typed (gn_provenance n) ∧ map_Forall (λ _, graph_value_typed exact) (gn_properties n).
Definition edge_typed (exact : f64 → Prop) (e : GraphEdge) : Prop :=
  provenance_typed (ge_provenance e) ∧ map_Forall (λ _, graph_value_typed exact) (ge_properties e).
Definition graph_diagnostic_typed (g : GraphDiagnostic) : Prop :=
  opt_typed (λ l, opt_typed span_typed (dl_span l)) (gd_location g) ∧ map_Forall (λ _, i64) (gd_metrics g).
Definition fragment_typed (exact : f64 → Prop) (f : GraphFragment) : Prop :=
  Forall (node_typed exact) (gf_nodes f) ∧ Forall (edge_typed exact) (gf_edges f) ∧ Forall graph_diagnostic_typed (gf_diagnostics f).

(** ** Maps *)
Lemma foldl_insert_list {K V} `{Countable K} (l : list (K * V)) (m : gmap K V) : NoDup l.*1 → (∀ kv, kv ∈ l → m !! kv.1 = None) →
  foldl (λ m kv, <[kv.1 := kv.2]> m) m l = list_to_map l ∪ m.
Proof.
  revert m. induction l as [|[k v] l IH]; intros m ND Hm; cbn; [by rewrite (left_id_L ∅ (∪))|].
  apply NoDup_cons in ND as [Hk ND]. rewrite IH; [|done|].
  - apply map_eq. intros i. rewrite !lookup_union. destruct (decide (i = k)) as [->|Hi].
    + rewrite !lookup_insert_eq, not_elem_of_list_to_map_1 by done. specialize (Hm (k, v) ltac:(by left)). cbn in Hm. by rewrite Hm.
    + by rewrite !lookup_insert_ne by done.
  - intros [k' v'] Hin. cbn. rewrite lookup_insert_ne; [apply (Hm (k', v')); by right|]. intros <-. apply Hk.
    apply list_elem_of_fmap. by exists (k, v').
Qed.
Lemma de_ser_map {K V} `{Countable K} (key : K → string) (w : V → json) (rk : string → option K) (r : json → option V) (m : gmap K V) :
  (∀ k, rk (key k) = Some k) → map_Forall (λ _ v, r (w v) = Some v) m → de_map rk r (ser_map key w m) = Some m.
Proof.
  intros Hk Hw. unfold de_map, ser_map.
  assert (∃ l, order_by (on_key fst String.compare) ((λ kv, (key kv.1, w kv.2)) <$> map_to_list m) = (λ kv, (key kv.1, w kv.2)) <$> l
               ∧ l ≡ₚ map_to_list m) as (l & -> & P).
  { pose proof (order_by_Permutation (on_key fst String.compare) ((λ kv, (key kv.1, w kv.2)) <$> map_to_list m)) as P.
    apply Permutation_map_inv in P as (l & E & P'). exists l. split; [exact E|by symmetry]. }
  rewrite (mapM_fmap_Forall_Some _ _ l).
  - cbn. f_equal. rewrite foldl_insert_list; [|by rewrite P; apply NoDup_fst_map_to_list|intros; apply lookup_empty].
    rewrite (right_id_L ∅ (∪)). rewrite (list_to_map_proper l (map_to_list m)); [apply list_to_map_to_list| |done].
    rewrite P. apply NoDup_fst_map_to_list.
  - rewrite P. apply Forall_forall. intros [k v] Hin%elem_of_map_to_list. cbn. rewrite Hk. cbn. by rewrite (Hw k v Hin).
Qed.
Lemma named_resolution r : named resolution_name resolutions (resolution_name r) = Some r.
Proof. by destruct r. Qed.
Lemma named_confidence c : named confidence_name confidences (confidence_name c) = Some c.
Proof. by destruct c. Qed.
Lemma named_severity s : named severity_name severities (severity_name s) = Some s.
Proof. by destruct s. Qed.

(** ** JSON *)
#[local] Arguments ser_path : simpl never.
#[local] Arguments de_path : simpl never.
#[local] Arguments ser_position : simpl never.
#[local] Arguments de_position : simpl never.
#[local] Arguments ser_span : simpl never.
#[local] Arguments de_span : simpl never.
#[local] Arguments ser_source_evidence : simpl never.
#[local] Arguments de_source_evidence : simpl never.
#[local] Arguments ser_extractor : simpl never.
#[local] Arguments de_extractor : simpl never.
#[local] Arguments ser_digest : simpl never.
#[local] Arguments de_digest : simpl never.
#[local] Arguments ser_opaque_id : simpl never.
#[local] Arguments de_opaque_id : simpl never.
#[local] Arguments ser_code : simpl never.
#[local] Arguments de_code : simpl never.
#[local] Arguments ser_location : simpl never.
#[local] Arguments de_location : simpl never.
#[local] Arguments ser_value {_} : simpl never.
#[local] Arguments de_graph_value {_} : simpl never.
#[local] Arguments ser_map : simpl never.
#[local] Arguments de_map : simpl never.
#[local] Arguments ser_properties {_} : simpl never.
#[local] Arguments de_properties {_} : simpl never.
#[local] Arguments ser_provenance : simpl never.
#[local] Arguments de_provenance : simpl never.
#[local] Arguments ser_target : simpl never.
#[local] Arguments de_target : simpl never.
#[local] Arguments ser_node {_} : simpl never.
#[local] Arguments de_node {_} : simpl never.
#[local] Arguments ser_edge {_} : simpl never.
#[local] Arguments de_edge {_} : simpl never.
#[local] Arguments ser_graph_diagnostic : simpl never.
#[local] Arguments de_graph_diagnostic : simpl never.
#[local] Arguments ser_metrics_map : simpl never.
#[local] Arguments ser_int : simpl never.
#[local] Arguments ser_string : simpl never.
#[local] Arguments de_string : simpl never.
#[local] Arguments de_u64 : simpl never.
#[local] Arguments de_u32 : simpl never.
#[local] Arguments de_i64 : simpl never.
#[local] Arguments de_named : simpl never.

Lemma de_ser_path p : de_path (ser_path p) = Some p.
Proof. unfold de_path, ser_path. rewrite de_ser_string. simpl. by rewrite repo_path_new_str. Qed.
Lemma de_ser_code c : de_code (ser_code c) = Some c.
Proof. unfold de_code, ser_code. rewrite de_ser_string. apply diagnostic_code_new_str. Qed.
Lemma de_ser_u32 z : u32 z → de_u32 (ser_int z) = Some z.
Proof. apply de_ser_int. Qed.
Lemma de_ser_i64 z : i64 z → de_i64 (ser_int z) = Some z.
Proof. apply de_ser_int. Qed.
Lemma de_ser_offset z : u64 z → de_u64 (ser_int z) = Some z.
Proof. apply de_ser_u64. Qed.
Lemma de_ser_resolution r : de_named resolution_name resolutions (ser_string (resolution_name r)) = Some r.
Proof. apply named_resolution. Qed.
Lemma de_ser_confidence c : de_named confidence_name confidences (ser_string (confidence_name c)) = Some c.
Proof. apply named_confidence. Qed.
Lemma de_ser_severity v : de_named severity_name severities (ser_string (severity_name v)) = Some v.
Proof. apply named_severity. Qed.
#[local] Hint Rewrite de_ser_path de_ser_code de_ser_resolution de_ser_confidence de_ser_severity de_ser_digest de_ser_opaque_id : serde.
Lemma de_ser_position p : position_typed p → de_position (ser_position p) = Some p.
Proof.
  intros (H1 & H2 & H3). destruct p. unfold de_position, ser_position. serde_struct. rewrite de_ser_offset by done. simpl.
  rewrite !(de_ser_opt u32 ser_int de_u32) by (done || apply de_ser_u32). done.
Qed.
Lemma de_ser_span s : span_typed s → de_span (ser_span s) = Some s.
Proof. intros [H1 H2]. destruct s. unfold de_span, ser_span. serde_struct. rewrite !de_ser_position by done. done. Qed.
Lemma de_ser_source_evidence e : opt_typed span_typed (ev_span e) → de_source_evidence (ser_source_evidence e) = Some e.
Proof.
  intros H. destruct e. unfold de_source_evidence, ser_source_evidence. serde_struct.
  by rewrite (de_ser_opt span_typed ser_span de_span) by (done || apply de_ser_span).
Qed.
Lemma de_ser_extractor x : u32 (xi_contract_version x) → de_extractor (ser_extractor x) = Some x.
Proof. intros H. destruct x. unfold de_extractor, ser_extractor. serde_struct. by rewrite de_ser_u32. Qed.
Lemma de_ser_provenance p : provenance_typed p → de_provenance (ser_provenance p) = Some p.
Proof.
  intros [H1 H2]. destruct p; simpl in *. unfold de_provenance, ser_provenance. serde_struct. rewrite de_ser_extractor by done. simpl.
  rewrite (de_ser_opt _ ser_source_evidence de_source_evidence _ ltac:(done) de_ser_source_evidence H2). simpl. by autorewrite with serde.
Qed.
Lemma de_ser_target t : de_target (ser_target t) = Some t.
Proof. destruct t; unfold de_target, ser_target, untag_open, tagged; serde_struct. Qed.
Lemma de_ser_location l : opt_typed span_typed (dl_span l) → de_location (ser_location l) = Some l.
Proof.
  intros H. destruct l. unfold de_location, ser_location. serde_struct.
  by rewrite (de_ser_opt span_typed ser_span de_span) by (done || apply de_ser_span).
Qed.
Lemma de_ser_key i : de_option de_opaque_id (ser_option ser_opaque_id i) = Some i.
Proof. apply de_ser_option; [done|]. intros a _. apply de_ser_opaque_id. Qed.
#[local] Hint Rewrite de_ser_target de_ser_key : serde.
Lemma de_ser_graph_diagnostic g : graph_diagnostic_typed g → de_graph_diagnostic (ser_graph_diagnostic g) = Some g.
Proof.
  intros [H1 H2]. destruct g; simpl in *. unfold de_graph_diagnostic, ser_graph_diagnostic. serde_struct.
  rewrite (de_ser_opt _ ser_location de_location _ ltac:(done) de_ser_location H1). simpl.
  unfold ser_metrics_map. rewrite (de_ser_map code_str ser_int diagnostic_code_new de_i64); [done|apply diagnostic_code_new_str|].
  intros k v Hk. by apply de_ser_i64, (H2 k).
Qed.

Section facts.
Context {FT : FloatText} {exact : f64 → Prop} {FL : FloatTextLaws exact}.

Lemma de_ser_graph_value v : graph_value_typed exact v → de_graph_value (ser_value v) = Some v.
Proof.
  destruct v; unfold de_graph_value, ser_value, untag_open, tagged; intros H; serde_struct.
  - by rewrite de_ser_i64.
  - by rewrite json_float_json.
  - by rewrite (de_ser_list ser_string de_string) by done.
Qed.
Lemma de_ser_properties m : map_Forall (λ _, graph_value_typed exact) m → de_properties (ser_properties m) = Some m.
Proof.
  intros H. unfold de_properties, ser_properties. apply (de_ser_map id); [done|]. intros k v Hk. by apply de_ser_graph_value, (H k).
Qed.
Lemma de_ser_node n : node_typed exact n → de_node (ser_node n) = Some n.
Proof.
  intros [H1 H2]. destruct n. unfold de_node, ser_node. serde_struct. by rewrite de_ser_provenance, de_ser_properties.
Qed.
Lemma de_ser_edge e : edge_typed exact e → de_edge (ser_edge e) = Some e.
Proof.
  intros [H1 H2]. destruct e. unfold de_edge, ser_edge. serde_struct. by rewrite de_ser_provenance, de_ser_properties.
Qed.
Lemma de_ser_fragment f : fragment_typed exact f → de_fragment (ser_fragment f) = Some f.
Proof.
  intros (H1 & H2 & H3). destruct f; simpl in *. unfold de_fragment, ser_fragment. serde_struct.
  rewrite (de_ser_forall _ ser_node de_node _ de_ser_node H1). simpl. rewrite (de_ser_forall _ ser_edge de_edge _ de_ser_edge H2). simpl.
  by rewrite (de_ser_forall _ ser_graph_diagnostic de_graph_diagnostic _ de_ser_graph_diagnostic H3).
Qed.
End facts.

(** ** Columns *)
Lemma integer_ROk v name z : integer v name = ROk z → z = v ∧ v ≤ i64_max.
Proof. unfold integer. destruct (Z.leb_spec v i64_max); [|done]. by intros [= <-]. Qed.
Lemma get_u32_id z : u32 z → get_u32 z = Some z.
Proof. intros [H1 H2]. unfold get_u32. by rewrite (proj2 (Z.leb_le _ _)), (proj2 (Z.ltb_lt _ _)). Qed.
Lemma optional_u32_id o : opt_typed u32 o → optional_u32 o = Some o.
Proof. destruct o as [z|]; cbn; [|done]. intros H. by rewrite get_u32_id. Qed.
Lemma unsigned_id z : u64 z → unsigned z = Some z.
Proof. intros [H1 _]. unfold unsigned. by rewrite (proj2 (Z.leb_le _ _)). Qed.
Lemma decode_span_columns s c : opt_typed span_typed s → span_columns s = ROk c → decode_span c = Some s.
Proof.
  destruct s as [[[a al ac] [b bl bc]]|]; cbn; [|by intros _ [= <-]]. intros [(A1 & A2 & A3) (B1 & B2 & B3)] H. cbn in *. tx_inv.
  apply integer_ROk in H0 as [-> _]. apply integer_ROk in H1 as [-> _]. subst c. unfold decode_span. cbn.
  rewrite !unsigned_id by done. cbn. rewrite !optional_u32_id by done. done.
Qed.
#[local] Arguments named : simpl never.
#[local] Arguments as_id : simpl never.
#[local] Arguments as_digest : simpl never.
#[local] Arguments as_path : simpl never.
#[local] Arguments decode_span : simpl never.
#[local] Arguments decode_provenance : simpl never.
#[local] Arguments de_properties {_} : simpl never.
#[local] Arguments ser_properties {_} : simpl never.
Lemma as_path_str p : as_path (path_str p) = Some p.
Proof. unfold as_path. by rewrite repo_path_new_str. Qed.
Lemma decode_provenance_columns p c : provenance_typed p → fact_columns p = ROk c → decode_provenance c = Some p.
Proof.
  intros [H1 H2] H. destruct p as [[x v n] e res conf]. unfold fact_columns in H. cbn in *. destruct e as [[path dig span]|]; cbn in *.
  - tx_inv. subst c. unfold decode_provenance. cbn. rewrite named_resolution, named_confidence. cbn.
    rewrite as_path_str, as_digest_cols. cbn. erewrite decode_span_columns by done. cbn. by rewrite as_id_str, get_u32_id.
  - injection H as <-. unfold decode_provenance. cbn. rewrite named_resolution, named_confidence. cbn. by rewrite as_id_str, get_u32_id.
Qed.

(** An edge to something outside the graph is told apart on reading by its
    resolution. *)
Definition edge_consistent (e : GraphEdge) : Prop :=
  match ge_target e with
  | TargetNode _ => True
  | TargetExternal _ => fp_resolution (ge_provenance e) = ExternalFact
  | TargetUnresolved _ => fp_resolution (ge_provenance e) ≠ ExternalFact
  end.
Definition node_key (n : GraphNode) : string * string := (id_as_str (gn_snapshot_id n), id_as_str (gn_id n)).
Definition edge_key (e : GraphEdge) : string * string := (id_as_str (ge_snapshot_id e), id_as_str (ge_id e)).
Definition file_key (s : GraphSnapshot) (f : SourceFileDescriptor) : string * string := (id_as_str (gs_id s), path_str (sf_path f)).
Definition file_columns (f : SourceFileDescriptor) : file_row :=
  FileRow (algorithm (sf_content_identity f)) (value (sf_content_identity f)) (sf_byte_len f) (file_mode (sf_file_mode f)).

Lemma digest_cols_inj d d' : digest_cols d = digest_cols d' → d = d'.
Proof.
  intros E. injection E as E1 E2. pose proof (as_digest_cols d) as H. rewrite E1, E2, as_digest_cols in H. by injection H.
Qed.
Lemma repo_key_inj r r' : repo_key r = repo_key r' → r = r'.
Proof. destruct r, r'. unfold repo_key. cbn. intros [= H1%id_as_str_inj H2%id_as_str_inj]. by subst. Qed.
Lemma snapshot_matches_inj s s' r : snapshot_matches s r → snapshot_matches s' r → gs_id s = gs_id s' → s = s'.
Proof.
  intros [A1 A2 A3 A4 A5 A6 A7] [B1 B2 B3 B4 B5 B6 B7] E. destruct s, s'. cbn in *. f_equal; [done| | | | | | |];
    first [apply repo_key_inj|apply id_as_str_inj|apply digest_cols_inj|idtac]; congruence.
Qed.

Section contents.
Context {FT : FloatText} {exact : f64 → Prop} {FL : FloatTextLaws exact} {JT : JsonText} {JL : JsonTextLaws} {LC : Lowercase}.

Lemma decode_node_columns n r : node_typed exact n → node_columns n = ROk r → decode_node (node_key n) r = Some n.
Proof.
  intros [H1 H2] H. destruct n as [s i k y p q]. unfold node_columns in H. tx_inv. subst r. unfold decode_node. cbn in *.
  rewrite !as_id_str. cbn. destruct y as [y|]; cbn; rewrite ?as_id_str; cbn; erewrite decode_provenance_columns by done; cbn;
    rewrite json_parse_text; cbn; by rewrite de_ser_properties.
Qed.
Lemma decode_edge_columns e r : edge_typed exact e → edge_consistent e → edge_columns e = ROk r → decode_edge (edge_key e) r = Some e.
Proof.
  intros [H1 H2] HC H. destruct e as [s i k a t p q]. unfold edge_columns in H. tx_inv. unfold edge_consistent in HC. cbn in *.
  destruct t as [t|t|t]; cbn in *; tx_inv; subst r; unfold decode_edge; cbn; rewrite !as_id_str; cbn; erewrite decode_provenance_columns by done; cbn;
    rewrite ?as_id_str, ?decide_True, ?decide_False by done; cbn; rewrite json_parse_text; cbn; by rewrite de_ser_properties.
Qed.

(** ** Tables filled row by row *)
Section fill.
Context {A V : Type} (field : sidecar → gmap (string * string) V) (key : A → string * string) (row : A → V → Prop) (ins : A → store unit).
Hypothesis ins_spec : ∀ a d u d', ins a d = ROk (u, d') → field d !! key a = None ∧ ∃ v, row a v ∧ field d' = <[key a := v]> (field d).
Lemma fill_each l d u d' : tx_each ins l d = ROk (u, d') →
  (∀ a, a ∈ l → ∃ v, row a v ∧ field d' !! key a = Some v)
  ∧ (∀ k v, field d' !! k = Some v → field d !! k = Some v ∨ ∃ a, a ∈ l ∧ key a = k) ∧ field d ⊆ field d'.
Proof.
  revert d. induction l as [|a l IH]; cbn; intros d H.
  - tx_inv. split_and!; [by intros a Ha%not_elem_of_nil|by left|done].
  - apply tx_bind_ROk in H as (u' & d1 & H1 & H). apply ins_spec in H1 as (N & v & Hv & E). apply IH in H as (I1 & I2 & I3).
    assert (field d ⊆ field d1) as S1 by (rewrite E; by apply insert_subseteq). split_and!; [| |by etrans].
    + intros x [->|Hx]%elem_of_cons; [|by apply I1]. exists v. split; [done|]. eapply lookup_weaken; [|done]. by rewrite E, lookup_insert_eq.
    + intros k w Hk. destruct (I2 _ _ Hk) as [Hk1|(x & Hx & <-)]; [|right; exists x; split; [by right|done]].
      rewrite E in Hk1. apply lookup_insert_Some in Hk1 as [[<- _]|[_ Hk1]]; [right; exists a; split; [by left|done]|by left].
Qed.
End fill.
Lemma insert_node_spec n d u d' : insert_node n d = ROk (u, d') →
  sd_nodes d !! node_key n = None ∧ (∃ v, node_columns n = ROk v ∧ sd_nodes d' = <[node_key n := v]> (sd_nodes d))
  ∧ sd_files d' = sd_files d ∧ sd_edges d' = sd_edges d.
Proof. intros H. unfold insert_node in H. graph_inv. split_and!; [done|eexists; by split|done..]. Qed.
Lemma insert_edge_spec e d u d' : insert_edge e d = ROk (u, d') →
  sd_edges d !! edge_key e = None ∧ (∃ v, edge_columns e = ROk v ∧ sd_edges d' = <[edge_key e := v]> (sd_edges d))
  ∧ sd_files d' = sd_files d ∧ sd_nodes d' = sd_nodes d.
Proof. intros H. unfold insert_edge in H. graph_inv. split_and!; [done|eexists; by split|done..]. Qed.
Lemma insert_file_spec s f d u d' : insert_file s f d = ROk (u, d') →
  sd_files d !! file_key s f = None ∧ (∃ v, v = file_columns f ∧ sd_files d' = <[file_key s f := v]> (sd_files d))
  ∧ sd_nodes d' = sd_nodes d ∧ sd_edges d' = sd_edges d.
Proof.
  intros H. unfold insert_file in H. graph_inv. apply integer_ROk in H0 as [-> _]. split_and!; [done|eexists; by split|done..].
Qed.
Lemma each_same {A B} (field : sidecar → B) (f : A → store unit) l : (∀ a d u d', f a d = ROk (u, d') → field d' = field d) →
  ∀ d u d', tx_each f l d = ROk (u, d') → field d' = field d.
Proof.
  intros Hf. induction l as [|a l IH]; cbn; intros d u d' H; [by tx_inv|]. apply tx_bind_ROk in H as (u' & d1 & H1 & H).
  apply Hf in H1. apply IH in H. congruence.
Qed.
Lemma insert_facts_contents now c d u d' : insert_facts now c d = ROk (u, d') →
  ((∀ f, f ∈ ic_files c → sd_files d' !! file_key (ic_snapshot c) f = Some (file_columns f))
   ∧ ∀ k r, sd_files d' !! k = Some r → sd_files d !! k = Some r ∨ ∃ f, f ∈ ic_files c ∧ file_key (ic_snapshot c) f = k)
  ∧ ((∀ n, n ∈ gf_nodes (ic_graph c) → ∃ r, node_columns n = ROk r ∧ sd_nodes d' !! node_key n = Some r)
     ∧ ∀ k r, sd_nodes d' !! k = Some r → sd_nodes d !! k = Some r ∨ ∃ n, n ∈ gf_nodes (ic_graph c) ∧ node_key n = k)
  ∧ ((∀ e, e ∈ gf_edges (ic_graph c) → ∃ r, edge_columns e = ROk r ∧ sd_edges d' !! edge_key e = Some r)
     ∧ ∀ k r, sd_edges d' !! k = Some r → sd_edges d !! k = Some r ∨ ∃ e, e ∈ gf_edges (ic_graph c) ∧ edge_key e = k).
Proof.
  intros H. unfold insert_facts in H. apply tx_bind_ROk in H as (u0 & d0 & H0 & H).
  assert (sd_files d0 = sd_files d ∧ sd_nodes d0 = sd_nodes d ∧ sd_edges d0 = sd_edges d) as (<- & <- & <-)
    by (unfold insert_snapshot in H0; graph_inv; done).
  apply tx_bind_ROk in H as (u1 & d1 & H1 & H). apply tx_bind_ROk in H as (u2 & d2 & H2 & H3).
  pose proof (fill_each sd_files (file_key (ic_snapshot c)) (λ f v, v = file_columns f) (insert_file (ic_snapshot c)) ltac:(intros * X; by destruct (insert_file_spec _ _ _ _ _ X) as (? & ? & _)) _ _ _ _ H1) as (F1 & F2 & _).
  pose proof (fill_each sd_nodes node_key (λ n v, node_columns n = ROk v) insert_node ltac:(intros * X; by destruct (insert_node_spec _ _ _ _ X) as (? & ? & _)) _ _ _ _ H2) as (N1 & N2 & _).
  pose proof (fill_each sd_edges edge_key (λ n v, edge_columns n = ROk v) insert_edge ltac:(intros * X; by destruct (insert_edge_spec _ _ _ _ X) as (? & ? & _)) _ _ _ _ H3) as (E1 & E2 & _).
  assert (sd_nodes d1 = sd_nodes d0 ∧ sd_edges d1 = sd_edges d0) as [Q1 Q2].
  { split; (eapply each_same; [|exact H1]); intros * X; by apply insert_file_spec in X as (_ & _ & ? & ?). }
  assert (sd_files d2 = sd_files d1 ∧ sd_edges d2 = sd_edges d1) as [Q3 Q4].
  { split; (eapply each_same; [|exact H2]); intros * X; by apply insert_node_spec in X as (_ & _ & ? & ?). }
  assert (sd_files d' = sd_files d2 ∧ sd_nodes d' = sd_nodes d2) as [Q5 Q6].
  { split; (eapply each_same; [|exact H3]); intros * X; by apply insert_edge_spec in X as (_ & _ & ? & ?). }
  rewrite Q1 in N2. rewrite Q4, Q2 in E2. rewrite Q5, Q3, Q6. split_and!; [|done..]. intros f Hf. by destruct (F1 f Hf) as (v & -> & ?).
Qed.

(** The rows of a snapshot that a build completed first *)
Lemma complete_index_rows t c d d' r : sidecar_ok d → complete_index t c d = ROk (r, d') → sd_snapshots d !! id_as_str (gs_id (ic_snapshot c)) = None →
  snapshot_in_range (ic_snapshot c) →
  let sid := id_as_str (gs_id (ic_snapshot c)) in
  r = ic_snapshot c ∧ (∃ row, sd_snapshots d' !! sid = Some row ∧ snapshot_matches (ic_snapshot c) row)
  ∧ ((∀ f, f ∈ ic_files c → sd_files d' !! file_key (ic_snapshot c) f = Some (file_columns f))
     ∧ ∀ path row, sd_files d' !! (sid, path) = Some row → ∃ f, f ∈ ic_files c ∧ path_str (sf_path f) = path)
  ∧ ((∀ n, n ∈ gf_nodes (ic_graph c) → ∃ row, node_columns n = ROk row ∧ sd_nodes d' !! node_key n = Some row)
     ∧ ∀ i row, sd_nodes d' !! (sid, i) = Some row → ∃ n, n ∈ gf_nodes (ic_graph c) ∧ node_key n = (sid, i) ∧ node_columns n = ROk row)
  ∧ ((∀ e, e ∈ gf_edges (ic_graph c) → ∃ row, edge_columns e = ROk row ∧ sd_edges d' !! edge_key e = Some row)
     ∧ ∀ i row, sd_edges d' !! (sid, i) = Some row → ∃ e, e ∈ gf_edges (ic_graph c) ∧ edge_key e = (sid, i) ∧ edge_columns e = ROk row).
Proof.
  intros W H Hn R sid.
  apply complete_index_steps in H as (Hc & ex & d1 & d2 & Hl & Hw & X & EF & ->); [|done].
  assert (ex = None) as ->. { unfold load_snapshot in Hl. rewrite Hn in Hl. congruence. }
  cbn in Hw. apply tx_bind_ROk in Hw as (u & d1' & Hf & Hw). tx_inv.
  pose proof (insert_facts_contents _ _ _ _ _ Hf) as ((F1 & F2) & (N1 & N2) & (E1 & E2)).
  assert (∃ row, sd_snapshots d1' !! sid = Some row ∧ snapshot_matches (ic_snapshot c) row) as (row & Hrow & M).
  { apply tx_bind_ROk in Hf as (u1 & d0 & H0 & Hf). apply insert_snapshot_linked in H0 as (_ & _ & _ & _ & row & Es & M); [|done..].
    exists row. split; [|done]. assert (grows d0 d1') as G.
    { revert Hf. eapply (stored_bind (insert_files _ _)); [apply keeps_each; intros; apply insert_file_keeps|intros _].
      apply stored_bind; [apply keeps_each; intros; apply insert_node_keeps|intros _]. apply keeps_each. intros. apply insert_edge_keeps. }
    eapply lookup_weaken; [|by apply G]. by rewrite Es, lookup_insert_eq. }
  unfold facts_of in EF. injection EF as Q1 Q2 Q3 Q4. split; [done|].
  assert (∀ V (m : gmap (string * string) V) (P : string * string → V → Prop) k v, map_Forall P m →
    (∀ k v, P k v → is_Some (sd_snapshots d !! k.1)) → m !! (sid, k) = Some v → False) as Fresh.
  { intros V m P k v HP HS Hm. apply HP, HS in Hm as [x Hx]. cbn in Hx. unfold sid in Hx. congruence. }
  cbn. rewrite Q1, Q2, Q3, Q4. split_and!; [by exists row|done|..].
  - intros path v Hv. destruct (F2 _ _ Hv) as [Hv'|(f & Hf' & [= E])]; [|eauto].
    exfalso. eapply (Fresh _ _ _ _ _ (lk_files _ (ok_linked _ W))); [|done]. by intros ? ? [].
  - done.
  - intros i v Hv. destruct (N2 _ _ Hv) as [Hv'|(n & Hin & E)].
    + exfalso. eapply (Fresh _ _ _ _ _ (lk_nodes _ (ok_linked _ W))); [|done]. by intros ? ? [].
    + exists n. split_and!; [done..|]. destruct (N1 _ Hin) as (v' & Hv' & Hk). rewrite E, Hv in Hk. by injection Hk as <-.
  - done.
  - intros i v Hv. destruct (E2 _ _ Hv) as [Hv'|(e & Hin & E)].
    + exfalso. eapply (Fresh _ _ _ _ _ (lk_edges _ (ok_linked _ W))); [|done]. by intros ? ? [].
    + exists e. split_and!; [done..|]. destruct (E1 _ Hin) as (v' & Hv' & Hk). rewrite E, Hv in Hk. by injection Hk as <-.
Qed.

(** C15. A completed index reads back as it was committed. When a build
    completes a snapshot that did not exist, the snapshot loads with the
    identity that was committed, and the rows stored under it are exactly the
    commit's files, nodes and edges: every fact has a row that decodes to it,
    every row decodes, and to a fact of the commit. *)
Theorem completed_index_reads_back (t : nat → string) (c : IndexCommit) (d d' : sidecar) (r : GraphSnapshot) :
  sidecar_ok d → complete_index t c d = ROk (r, d') → sd_snapshots d !! id_as_str (gs_id (ic_snapshot c)) = None →
  snapshot_in_range (ic_snapshot c) → own_facts c →
  Forall (node_typed exact) (gf_nodes (ic_graph c)) → Forall (edge_typed exact) (gf_edges (ic_graph c)) →
  Forall edge_consistent (gf_edges (ic_graph c)) →
  let sid := id_as_str (gs_id (ic_snapshot c)) in
  r = ic_snapshot c ∧ load_snapshot d' (gs_id r) = ROk (Some r)
  ∧ ((∀ f, f ∈ ic_files c → sd_files d' !! (sid, path_str (sf_path f)) = Some (file_columns f))
     ∧ ∀ path row, sd_files d' !! (sid, path) = Some row → ∃ f, f ∈ ic_files c ∧ path_str (sf_path f) = path)
  ∧ ((∀ n, n ∈ gf_nodes (ic_graph c) → ∃ row, sd_nodes d' !! node_key n = Some row ∧ decode_node (node_key n) row = Some n)
     ∧ ∀ i row, sd_nodes d' !! (sid, i) = Some row → ∃ n, n ∈ gf_nodes (ic_graph c) ∧ decode_node (sid, i) row = Some n)
  ∧ ((∀ e, e ∈ gf_edges (ic_graph c) → ∃ row, sd_edges d' !! edge_key e = Some row ∧ decode_edge (edge_key e) row = Some e)
     ∧ ∀ i row, sd_edges d' !! (sid, i) = Some row → ∃ e, e ∈ gf_edges (ic_graph c) ∧ decode_edge (sid, i) row = Some e).
Proof.
  intros W H Hn R O TN TE CE sid. pose proof (complete_index_ok _ _ _ _ _ H R W) as W'.
  destruct (complete_index_rows _ _ _ _ _ W H Hn R) as (-> & (row & Hrow & M) & (F1 & F2) & (N1 & N2) & (E1 & E2)).
  rewrite Forall_forall in TN. rewrite Forall_forall in TE. rewrite Forall_forall in CE. split_and!; [done| |done|done|..].
  - destruct (load_snapshot_defined _ (gs_id (ic_snapshot c)) row W') as (s & Hs & M' & Is); [done|]. rewrite Hs. do 2 f_equal. by eapply snapshot_matches_inj.
  - intros n Hin. destruct (N1 _ Hin) as (v & Hv & Hk). exists v. split; [done|]. by apply decode_node_columns; [apply TN|].
  - intros i v (n & Hin & E & Hv)%N2. exists n. split; [done|]. fold sid in E. rewrite <- E. by apply decode_node_columns; [apply TN|].
  - intros e Hin. destruct (E1 _ Hin) as (v & Hv & Hk). exists v. split; [done|]. by apply decode_edge_columns; [apply TE|apply CE|].
  - intros i v (e & Hin & E & Hv)%E2. exists e. split; [done|]. fold sid in E. rewrite <- E. by apply decode_edge_columns; [apply TE|apply CE|].
Qed.
End contents.
