(* ===== verification/GraphIndex.v ===== *)
(** The incremental indexing coordinator: [src/src/repository_graph/index.rs],
    over the interfaces of [ports.rs].  The source, the extractors and the
    cross-file resolver are known by their interface; the store is the sidecar.
    Lifecycle events are not represented: the coordinator ignores what the sink
    returns. *)
From S2P Require Import Prelude View Transact Wire Identity AgentData AgentWire Text GraphDomain GraphStore GraphIndexStore.
#[local] Open Scope list_scope.

(** ** Interfaces *)
Definition GRAPH_MODEL_VERSION : Z := 1.
Definition SOURCE_MANIFEST_VERSION : Z := 1.
Record SourceRevision := mk_revision {
  rv_id : SourceRevisionId;
  rv_repository : RepositoryRef;
  rv_manifest_digest : Digest;
  rv_analysis_config_digest : Digest }.
Record SourceDiagnostic := mk_source_diagnostic { sdg_code : DiagnosticCode; sdg_path : option RepoPath }.
Record SourceManifest := mk_manifest {
  mf_revision : SourceRevision;
  mf_extractor_set_digest : Digest;
  mf_files : list SourceFileDescriptor;
  mf_diagnostics : list SourceDiagnostic;
  mf_skipped : Z }.
Record ExtractionContext := mk_context {
  ec_snapshot_id : SnapshotId;
  ec_build_id : BuildId;
  ec_repository : RepositoryRef;
  ec_max_facts_per_file : Z;
  ec_max_parser_duration_ms : Z;
  ec_max_diagnostics : Z }.
Record DynExtractor := mk_dyn_extractor {
  dx_identity : ExtractorIdentity;
  dx_supports : SourceFileDescriptor → bool;
  dx_extract : ExtractionContext → SourceFileDescriptor → text → option GraphFragment }.
Record ResolutionBudget := mk_resolution_budget {
  rb_max_relationships : Z;
  rb_max_added_relationships : Z;
  rb_max_duration_ms : Z;
  rb_max_diagnostics : Z }.
(** The built-in analyzers *)
Class Analyzers := {
  generic_extractor : DynExtractor;
  cargo_extractor : DynExtractor;
  rust_extractor : DynExtractor;
  repository_fragment : ExtractionContext → SourceManifest → GraphFragment;
  resolver_identity : ExtractorIdentity;
  resolve : ExtractionContext → SourceManifest → GraphFragment → ResolutionBudget → option GraphFragment }.
(** [RepositorySource]: the manifest, verified reading, and the answers of the
    two calls of [revalidate] *)
Record RepositorySource := mk_source {
  src_manifest : SourceManifest;
  src_read_verified : SourceFileDescriptor → option text;
  src_revalidate : nat → option bool }.
Record IndexLimits := mk_index_limits {
  il_max_facts_per_file : Z;
  il_max_parser_duration_ms : Z;
  il_max_resolved_relationships : Z;
  il_max_resolver_duration_ms : Z;
  il_max_diagnostics : Z }.
(** What indexing reads of the configuration, with the result of
    [analysis_config_digest] *)
Record IndexConfig := mk_index_config {
  cfg_enabled : gset string;
  cfg_limits : IndexLimits;
  cfg_analysis_digest : option Digest }.

Record IndexRequest := mk_request { rq_build_id : BuildId; rq_view_name : PublishedViewName; rq_force_full : bool }.
Record IndexOutcome := mk_index_outcome {
  io_build_id : BuildId;
  io_snapshot : GraphSnapshot;
  io_publication : PublicationOutcome;
  io_metrics : IndexBuildMetrics;
  io_reused_existing_snapshot : bool }.
Inductive IndexError : Type :=
  | IxConfig | IxAnalyzerUnavailable | IxExtractorSetMismatch | IxStorageRead | IxBuildStart | IxCache | IxSourceRead | IxExtraction
  | IxFragmentConflict | IxResolution | IxRevalidation | IxSourceChanged | IxCommit | IxPublication.
#[global] Instance IndexError_eq_dec : EqDecision IndexError.
Proof. solve_decision. Defined.
Definition index_error_name (e : IndexError) : string :=
  match e with
  | IxConfig => "index.config_invalid"
  | IxAnalyzerUnavailable => "index.analyzer_unavailable"
  | IxExtractorSetMismatch => "index.extractor_set_mismatch"
  | IxStorageRead => "index.storage_read_failed"
  | IxBuildStart => "index.build_start_failed"
  | IxCache => "index.cache_failed"
  | IxSourceRead => "index.source_read_failed"
  | IxExtraction => "index.extraction_failed"
  | IxFragmentConflict => "index.fragment_conflict"
  | IxResolution => "index.resolution_failed"
  | IxRevalidation => "index.revalidation_failed"
  | IxSourceChanged => "index.source_changed"
  | IxCommit => "index.commit_failed"
  | IxPublication => "index.publication_failed"
  end.
Lemma index_error_code_ok e : code_ok (index_error_name e) = true.
Proof. by destruct e. Qed.
(** [IndexError::diagnostic_code] *)
Definition index_error_code (e : IndexError) : DiagnosticCode := dexist (index_error_name e) (index_error_code_ok e).

(** ** Analyzers *)
Definition GENERIC_EXTRACTOR_ID : string := "builtin.generic-structure".
Definition RESOLVER_ID : string := "builtin.rust-cargo-resolver".
Record ActiveExtractors := mk_active {
  ax_identities : list ExtractorIdentity;
  ax_file_ids : gset string;
  ax_generic_enabled : bool;
  ax_resolver_enabled : bool }.
Section analyzers.
Context {AN : Analyzers}.
Definition available : list DynExtractor := [generic_extractor; cargo_extractor; rust_extractor].
Definition builtin_extractor_identities : list ExtractorIdentity := (dx_identity <$> available) ++ [resolver_identity].
Definition identity_str (x : ExtractorIdentity) : string := id_as_str (xi_id x).
Definition active_extractors (config : IndexConfig) : res IndexError ActiveExtractors :=
  let known : gset string := list_to_set (identity_str <$> builtin_extractor_identities) in
  _ ← rcheck (bool_decide (cfg_enabled config ⊆ known)) IxAnalyzerUnavailable;
  let identities := if decide (cfg_enabled config = ∅) then builtin_extractor_identities
                    else filter (λ x, identity_str x ∈ cfg_enabled config) builtin_extractor_identities in
  let file_ids : gset string := list_to_set (identity_str <$> filter (λ x, identity_str x ≠ RESOLVER_ID) identities) in
  ROk (mk_active identities file_ids (bool_decide (GENERIC_EXTRACTOR_ID ∈ file_ids))
         (existsb (λ x, String.eqb (identity_str x) RESOLVER_ID) identities)).
Definition active_extractor_identities (config : IndexConfig) : res IndexError (list ExtractorIdentity) :=
  ax_identities <$> active_extractors config.
(** The extractors of a file *)
Definition extractors_for (active : ActiveExtractors) (f : SourceFileDescriptor) : list DynExtractor :=
  filter (λ x, dx_supports x f = true) (filter (λ x, identity_str (dx_identity x) ∈ ax_file_ids active) available).
End analyzers.

(** ** Identities *)
Definition identity_compare : ExtractorIdentity → ExtractorIdentity → comparison :=
  lex (on_key identity_str String.compare) (lex (on_key xi_version String.compare) (on_key xi_contract_version Z.compare)).
Section identities.
Context {JT : JsonText} {SH : Sha256}.
(** [extractor_set_digest]: a [BTreeSet], so sorted and without repetitions *)
Definition extractor_set_digest (l : list ExtractorIdentity) : result Digest :=
  hash "" (JArr [ser_int SOURCE_MANIFEST_VERSION; ser_list ser_extractor (order_by identity_compare (remove_dups l))]).
Lemma snapshot_id_nonempty hex : "snapshot:" +:+ hex ≠ "".
Proof. done. Qed.
Definition snapshot_from_content_digest (hex : string) : SnapshotId := dexist ("snapshot:" +:+ hex) (snapshot_id_nonempty hex).
Definition ser_snapshot_identity (rv : SourceRevision) (extractors : Digest) : json :=
  JObj [("version", ser_int 1); ("repository", ser_repository_ref (rv_repository rv));
        ("source_manifest_digest", ser_digest (rv_manifest_digest rv)); ("graph_model_version", ser_int GRAPH_MODEL_VERSION);
        ("analysis_config_digest", ser_digest (rv_analysis_config_digest rv)); ("extractor_set_digest", ser_digest extractors)].
Definition snapshot_identity_from_revision (rv : SourceRevision) (extractors : Digest) : SnapshotId :=
  snapshot_from_content_digest (hex_bytes (sha256 (json_text (ser_snapshot_identity rv extractors)))).
Definition snapshot_identity (m : SourceManifest) : SnapshotId := snapshot_identity_from_revision (mf_revision m) (mf_extractor_set_digest m).
End identities.

(** ** Fragments *)
Definition fragment_cache_key (ctx : ExtractionContext) (f : SourceFileDescriptor) (x : ExtractorIdentity) (config : Digest) : FragmentCacheKey :=
  mk_cache_key (ec_repository ctx) (sf_path f) (sf_content_identity f) (sf_byte_len f) (sf_file_mode f) config x.
Definition fact_provenance_is_valid (p : FactProvenance) (k : FragmentCacheKey) : bool :=
  bool_decide (fp_extractor p = fk_extractor k)
  && match fp_evidence p with
     | None => true
     | Some e => bool_decide (ev_path e = fk_path k) && bool_decide (ev_content_identity e = fk_content_identity k)
     end.
Definition cache_fragment_is_valid (f : GraphFragment) (k : FragmentCacheKey) : bool :=
  forallb (λ n, fact_provenance_is_valid (gn_provenance n) k) (gf_nodes f)
  && forallb (λ e, fact_provenance_is_valid (ge_provenance e) k) (gf_edges f).
Definition rebase_diagnostic (ctx : ExtractionContext) (g : GraphDiagnostic) : GraphDiagnostic :=
  g <| gd_build_id := ec_build_id ctx |> <| gd_snapshot_id := Some (ec_snapshot_id ctx) |>.
Definition rebase_fragment (f : GraphFragment) (ctx : ExtractionContext) : GraphFragment :=
  mk_fragment ((λ n, n <| gn_snapshot_id := ec_snapshot_id ctx |>) <$> gf_nodes f)
    ((λ e, e <| ge_snapshot_id := ec_snapshot_id ctx |>) <$> gf_edges f) (rebase_diagnostic ctx <$> gf_diagnostics f).

Record FragmentMerger := mk_merger {
  fm_nodes : gmap NodeId GraphNode;
  fm_edges : gmap EdgeId GraphEdge;
  fm_diagnostics : list GraphDiagnostic }.
Definition new_merger : FragmentMerger := mk_merger ∅ ∅ [].
Section merger.
Context {FE : FloatEq}.
Fixpoint merge_nodes (l : list GraphNode) (m : gmap NodeId GraphNode) : res IndexError (gmap NodeId GraphNode) :=
  match l with
  | [] => ROk m
  | n :: l =>
    match m !! gn_id n with
    | Some existing => if node_eq existing n then merge_nodes l (<[gn_id n := n]> m) else RErr IxFragmentConflict
    | None => merge_nodes l (<[gn_id n := n]> m)
    end
  end.
Fixpoint merge_edges (l : list GraphEdge) (m : gmap EdgeId GraphEdge) : res IndexError (gmap EdgeId GraphEdge) :=
  match l with
  | [] => ROk m
  | e :: l =>
    match m !! ge_id e with
    | Some existing => if edge_eq existing e then merge_edges l (<[ge_id e := e]> m) else RErr IxFragmentConflict
    | None => merge_edges l (<[ge_id e := e]> m)
    end
  end.
Definition merge (m : FragmentMerger) (f : GraphFragment) : res IndexError FragmentMerger :=
  ns ← merge_nodes (gf_nodes f) (fm_nodes m); es ← merge_edges (gf_edges f) (fm_edges m);
  ROk (mk_merger ns es (fm_diagnostics m ++ gf_diagnostics f)).
End merger.

(** [sort_by] is stable. *)
Fixpoint insert_by {A} (c : A → A → comparison) (x : A) (l : list A) : list A :=
  match l with [] => [x] | y :: l' => match c x y with Gt => y :: insert_by c x l' | _ => x :: l end end.
Definition sort_by {A} (c : A → A → comparison) : list A → list A := foldr (insert_by c) [].
(** [Vec::dedup] *)
Fixpoint dedup {A} `{!EqDecision A} (l : list A) : list A :=
  match l with
  | x :: (y :: _) as l' => if decide (x = y) then dedup l' else x :: dedup l'
  | _ => l
  end.
Definition diagnostic_location_key (g : GraphDiagnostic) : option string * option (Z * Z) :=
  ((path_str ∘ dl_path) <$> gd_location g,
   (λ s, (sp_byte_offset (span_start s), sp_byte_offset (span_end s))) <$> (gd_location g ≫= dl_span)).
Definition diagnostic_compare : GraphDiagnostic → GraphDiagnostic → comparison :=
  lex (on_key (code_str ∘ gd_code) String.compare)
    (on_key diagnostic_location_key
       (lex (on_key fst (null_first String.compare))
          (on_key snd (null_first (lex (on_key fst Z.compare) (on_key snd Z.compare)))))).
Definition in_id_order {V} (m : gmap opaque_id V) : list V :=
  snd <$> order_by (on_key (id_as_str ∘ fst) String.compare) (map_to_list m).
Definition finish (m : FragmentMerger) (ctx : ExtractionContext) : GraphFragment :=
  mk_fragment (in_id_order (fm_nodes m)) (in_id_order (fm_edges m))
    (rebase_diagnostic ctx <$> dedup (sort_by diagnostic_compare (fm_diagnostics m))).
Definition source_diagnostics (ctx : ExtractionContext) (m : SourceManifest) : GraphFragment :=
  mk_fragment [] []
    ((λ g, mk_diagnostic (ec_build_id ctx) (Some (ec_snapshot_id ctx)) SevWarning (sdg_code g)
             ((λ p, mk_location p None) <$> sdg_path g) ∅) <$> mf_diagnostics m).

(** ** Preparation *)
Record PreparedIndex := mk_prepared {
  pi_reuse_completed_snapshot : bool;
  pi_graph : GraphFragment;
  pi_cache_writes : list CachedFragment;
  pi_cache_hits : list FragmentCacheKey;
  pi_metrics : IndexBuildMetrics }.
Abbreviation prep_error := (IndexError * IndexBuildMetrics)%type.
(** A computation over the store that keeps what its calls committed. *)
Definition effect (E A : Type) : Type := sidecar → res E A * sidecar.
#[global] Instance effect_ret E : MRet (effect E) := λ A a d, (ROk a, d).
#[global] Instance effect_bind E : MBind (effect E) := λ A B f m d,
  match m d with (ROk a, d') => f a d' | (RErr e, d') => (RErr e, d') end.
(** A call of the store, its error mapped *)
Definition call {E E' A} (m : tx sidecar E A) (e : E') : effect E' A := λ d,
  match commit m d with (ROk a, d') => (ROk a, d') | (RErr _, d') => (RErr e, d') end.
Definition pure {E A} (r : res E A) : effect E A := λ d, (r, d).

Record prep_state := mk_prep {
  ps_merger : FragmentMerger;
  ps_cache_writes : list CachedFragment;
  ps_cache_hits : list FragmentCacheKey;
  ps_metrics : IndexBuildMetrics }.
#[global] Instance prep_state_eta : Eta prep_state := λ p, mk_prep (ps_merger p) (ps_cache_writes p) (ps_cache_hits p) (ps_metrics p).

Section prepare.
Context {FT : FloatText} {JT : JsonText} {LC : Lowercase} {SH : Sha256} {FE : FloatEq} {AN : Analyzers}.

(** The fragments of a file that the cache holds, and what is missing *)
Fixpoint look_up (ctx : ExtractionContext) (f : SourceFileDescriptor) (config : Digest) (force_full : bool) (m : IndexBuildMetrics)
  (xs : list DynExtractor) : effect prep_error (list FragmentCacheKey * list GraphFragment * list (DynExtractor * FragmentCacheKey)) :=
  match xs with
  | [] => mret ([], [], [])
  | x :: xs =>
    let key := fragment_cache_key ctx f (dx_identity x) config in
    cached ← (if force_full then mret None else call (load_cached_fragment key) (IxCache, m));
    rest ← look_up ctx f config force_full m xs;
    let '(hits, fragments, missing) := rest in
    mret (match cached with
          | Some c => if cache_fragment_is_valid c key then (key :: hits, rebase_fragment c ctx :: fragments, missing)
                      else (hits, fragments, (x, key) :: missing)
          | None => (hits, fragments, (x, key) :: missing)
          end)
  end.
Definition failed_file (duration : Z) (m : IndexBuildMetrics) : IndexBuildMetrics :=
  m <| im_failed_files := saturating_add (im_failed_files m) 1 |> <| im_duration_ms := duration |>.
Fixpoint extract_missing (ctx : ExtractionContext) (f : SourceFileDescriptor) (content : text) (duration : Z) (m : IndexBuildMetrics)
  (missing : list (DynExtractor * FragmentCacheKey)) : res prep_error (list CachedFragment) :=
  match missing with
  | [] => ROk []
  | (x, key) :: missing =>
    fragment ← ok_or (IxExtraction, failed_file duration m) (dx_extract x ctx f content);
    rest ← extract_missing ctx f content duration m missing;
    ROk (mk_cached key fragment :: rest)
  end.
Fixpoint merge_all (m : FragmentMerger) (l : list GraphFragment) : res IndexError FragmentMerger :=
  match l with [] => ROk m | f :: l => m' ← merge m f; merge_all m' l end.
Definition with_metrics {A} (m : IndexBuildMetrics) (r : res IndexError A) : res prep_error A := map_err (λ e, (e, m)) r.
Definition prepare_file (src : RepositorySource) (ctx : ExtractionContext) (config : Digest) (active : ActiveExtractors) (force_full : bool)
  (duration : Z) (p : prep_state) (f : SourceFileDescriptor) : effect prep_error prep_state :=
  let m := ps_metrics p in
  match extractors_for active f with
  | [] => mret (p <| ps_metrics := m <| im_skipped_files := saturating_add (im_skipped_files m) 1 |> |>)
  | xs =>
    looked ← look_up ctx f config force_full m xs;
    let '(hits, fragments, missing) := looked in
    match missing with
    | [] =>
      let m := m <| im_reused_files := saturating_add (im_reused_files m) 1 |> in
      merger ← pure (with_metrics m (merge_all (ps_merger p) fragments));
      mret (mk_prep merger (ps_cache_writes p) (ps_cache_hits p ++ hits) m)
    | _ =>
      let m := m <| im_parsed_files := saturating_add (im_parsed_files m) 1 |> in
      content ← pure (ok_or (IxSourceRead, failed_file duration m) (src_read_verified src f));
      let m := m <| im_processed_bytes := saturating_add (im_processed_bytes m) (len content) |> in
      fresh ← pure (extract_missing ctx f content duration m missing);
      merger ← pure (with_metrics m (merge_all (ps_merger p) (fragments ++ (cf_fragment <$> fresh))));
      mret (mk_prep merger (ps_cache_writes p ++ fresh) (ps_cache_hits p ++ hits) m)
    end
  end.
(** [elapsed_ms] is read once for every file that can fail, and at the end. *)
Fixpoint prepare_files (src : RepositorySource) (ctx : ExtractionContext) (config : Digest) (active : ActiveExtractors) (force_full : bool)
  (elapsed : nat → Z) (p : prep_state) (files : list SourceFileDescriptor) : effect prep_error prep_state :=
  match files with
  | [] => mret p
  | f :: files =>
    p' ← prepare_file src ctx config active force_full (elapsed 0%nat) p f;
    prepare_files src ctx config active force_full (λ i, elapsed (S i)) p' files
  end.
Definition index_context (s : GraphSnapshot) (l : IndexLimits) : ExtractionContext :=
  mk_context (gs_id s) (gs_completed_by s) (gs_repository s) (il_max_facts_per_file l) (il_max_parser_duration_ms l) (il_max_diagnostics l).
Definition first_metrics (m : SourceManifest) : IndexBuildMetrics :=
  default_metrics <| im_discovered_files := Z.of_nat (length (mf_files m)) |> <| im_skipped_files := mf_skipped m |>.
Definition resolution_budget (l : IndexLimits) : ResolutionBudget :=
  mk_resolution_budget (il_max_resolved_relationships l) (il_max_resolved_relationships l) (il_max_resolver_duration_ms l) (il_max_diagnostics l).
Definition reuse_prepared (m : SourceManifest) (active : ActiveExtractors) (graph : GraphFragment) (existing : IndexBuildMetrics) (duration : Z) :
  PreparedIndex :=
  let reused := Z.of_nat (length (filter (λ f, length (extractors_for active f) ≠ 0%nat) (mf_files m))) in
  mk_prepared true graph [] []
    ((first_metrics m) <| im_reused_files := reused |>
       <| im_skipped_files := mf_skipped m + (Z.of_nat (length (mf_files m)) - reused) |>
       <| im_nodes := im_nodes existing |> <| im_edges := im_edges existing |> <| im_diagnostics := im_diagnostics existing |>
       <| im_duration_ms := duration |>).
Definition prepare (src : RepositorySource) (config : IndexConfig) (active : ActiveExtractors) (s : GraphSnapshot) (force_full : bool)
  (elapsed : nat → Z) : effect prep_error PreparedIndex :=
  let m := src_manifest src in
  let ctx := index_context s (cfg_limits config) in
  let metrics := first_metrics m in
  let source_graph := source_diagnostics ctx m in
  existing ← (if force_full then mret None
              else call (fetch (λ d, reusable_index_metrics d s (gf_diagnostics source_graph))) (IxStorageRead, metrics));
  match existing with
  | Some existing => mret (reuse_prepared m active source_graph existing (elapsed 0%nat))
  | None =>
    merger ← pure (with_metrics metrics (merge new_merger source_graph));
    merger ← (if ax_generic_enabled active then pure (with_metrics metrics (merge merger (repository_fragment ctx m))) else mret merger);
    p ← prepare_files src ctx (rv_analysis_config_digest (mf_revision m)) active force_full (λ i, elapsed (S i))
          (mk_prep merger [] [] metrics) (mf_files m);
    let unresolved := finish (ps_merger p) ctx in
    graph ← (if ax_resolver_enabled active
             then pure (ok_or (IxResolution, ps_metrics p) (resolve ctx m unresolved (resolution_budget (cfg_limits config))))
             else mret unresolved);
    mret (mk_prepared false graph (ps_cache_writes p) (ps_cache_hits p)
      ((ps_metrics p) <| im_nodes := Z.of_nat (length (gf_nodes graph)) |> <| im_edges := Z.of_nat (length (gf_edges graph)) |>
         <| im_diagnostics := Z.of_nat (length (gf_diagnostics graph)) |> <| im_duration_ms := elapsed 0%nat |>))
  end.

(** ** [index] *)
Definition fail_started_build (t : clock) (b : GraphBuild) (e : IndexError) (m : IndexBuildMetrics) (d : sidecar) : sidecar :=
  (commit (fail_build t (gb_id b) (index_error_code e)) (commit (record_build_metrics (gb_id b) m) d).2).2.
(** A failure after the build was started *)
Definition give_up_build {A} (t : clock) (b : GraphBuild) (e : IndexError) (m : IndexBuildMetrics) : effect IndexError A := λ d,
  (RErr e, fail_started_build t b e m d).
Definition requested_snapshot (m : SourceManifest) (sid : SnapshotId) (build : BuildId) : GraphSnapshot :=
  mk_snapshot sid (rv_repository (mf_revision m)) (rv_id (mf_revision m)) (rv_manifest_digest (mf_revision m)) GRAPH_MODEL_VERSION
    (rv_analysis_config_digest (mf_revision m)) (mf_extractor_set_digest m) build.
Definition index_commit (m : SourceManifest) (s : GraphSnapshot) (p : PreparedIndex) (metrics : IndexBuildMetrics) : IndexCommit :=
  mk_commit s (pi_reuse_completed_snapshot p) (if pi_reuse_completed_snapshot p then [] else mf_files m) (pi_graph p)
    (pi_cache_writes p) (pi_cache_hits p) metrics.
(** What the coordinator makes of the answer of [publish]: the publication, and
    whether the build has still to be superseded *)
Definition read_publication (r : RepositoryRef) (request : IndexRequest) (expected : option PublicationVersion)
  (answer : res StoreError PublicationOutcome) : effect IndexError (PublicationOutcome * bool) :=
  match answer with
  | ROk (ViewPublished view) => mret (ViewPublished view, negb (bool_decide (vw_build_id view = rq_build_id request)))
  | ROk (ViewSuperseded current) => mret (ViewSuperseded current, false)
  | RErr _ =>
    current ← call (fetch (λ d, load_published_view d r (rq_view_name request))) IxPublication;
    match current with
    | None => pure (RErr IxPublication)
    | Some current =>
      if decide (vw_build_id current = rq_build_id request) then mret (ViewPublished current, false)
      else if decide (expected = Some (version_of current)) then pure (RErr IxPublication)
      else mret (ViewSuperseded current, true)
    end
  end.
Definition published_by_other (build : BuildId) (o : PublicationOutcome) : bool :=
  match o with ViewPublished view => negb (bool_decide (vw_build_id view = build)) | ViewSuperseded _ => true end.
Definition finish_publication (t : nat → clock) (m : SourceManifest) (request : IndexRequest) (expected : option PublicationVersion)
  (completed : GraphSnapshot) (metrics : IndexBuildMetrics) (reused : bool) : effect IndexError IndexOutcome :=
  let repository := rv_repository (mf_revision m) in
  answer ← (λ d, let '(r, d') := commit (publish (t 3%nat) (mk_publish repository (rq_view_name request) (rq_build_id request) expected)) d in (ROk r, d'));
  '(publication, supersede) ← read_publication repository request expected answer;
  _ ← (if published_by_other (rq_build_id request) publication && supersede
       then _ ← call (supersede_build (rq_build_id request)) IxPublication; mret tt else mret tt);
  mret (mk_index_outcome (rq_build_id request) completed publication metrics reused).
(** From the started build on *)
Definition index_started (t : nat → clock) (elapsed : nat → Z) (src : RepositorySource) (config : IndexConfig) (active : ActiveExtractors)
  (request : IndexRequest) (expected : option PublicationVersion) (reused : bool) (b : GraphBuild) : effect IndexError IndexOutcome := λ d,
  let m := src_manifest src in
  let s := requested_snapshot m (gb_prospective_snapshot_id b) (rq_build_id request) in
  match prepare src config active s (rq_force_full request) (λ i, elapsed (2 + i)%nat) d with
  | (RErr (e, metrics), d) => give_up_build (t 1%nat) b e metrics d
  | (ROk p, d) =>
    let late := (pi_metrics p) <| im_duration_ms := elapsed 0%nat |> in
    match src_revalidate src 0 with
    | Some false => give_up_build (t 1%nat) b IxSourceChanged late d
    | None => give_up_build (t 1%nat) b IxRevalidation late d
    | Some true =>
      let metrics := (pi_metrics p) <| im_duration_ms := elapsed 1%nat |> in
      match commit (complete_index (t 2%nat) (index_commit m s p metrics)) d with
      | (RErr _, d) => give_up_build (t 1%nat) b IxCommit metrics d
      | (ROk completed, d) =>
        match src_revalidate src 1 with
        | Some true => finish_publication t m request expected completed metrics reused d
        | state => (RErr (if state then IxSourceChanged else IxRevalidation), (commit (supersede_build (rq_build_id request)) d).2)
        end
      end
    end
  end.
Definition index (t : nat → clock) (elapsed : nat → Z) (src : RepositorySource) (config : IndexConfig) (request : IndexRequest) :
  effect IndexError IndexOutcome :=
  let m := src_manifest src in
  let rv := mf_revision m in
  active ← pure (active_extractors config);
  digest ← pure (match extractor_set_digest (ax_identities active) with Ok d => ROk d | Err _ => RErr IxConfig end);
  _ ← pure (rcheck (bool_decide (mf_extractor_set_digest m = digest)) IxExtractorSetMismatch);
  _ ← pure (rcheck (bool_decide (cfg_analysis_digest config = Some (rv_analysis_config_digest rv))) IxConfig);
  let sid := snapshot_identity m in
  view ← call (fetch (λ d, load_published_view d (rv_repository rv) (rq_view_name request))) IxStorageRead;
  existing ← call (fetch (λ d, load_snapshot d sid)) IxStorageRead;
  let b := mk_build (rq_build_id request) (rv_repository rv) (rv_id rv) sid BBuilding in
  _ ← call (start_build (t 0%nat) b) IxBuildStart;
  index_started t elapsed src config active request (version_of <$> view) (some existing) b.
End prepare.
