(* ===== verification/GraphIndexFacts.v ===== *)
(** What a run of the indexing coordinator leaves in the store: on failure the
    published views are as before and the build is closed; on success the view
    the outcome reports is the one published. *)
From S2P Require Import Prelude View Transact Wire Identity AgentData AgentWire Text GraphDomain GraphStore GraphIndexStore GraphMaintenance GraphInvariant GraphLifecycle GraphTheorems GraphSafety GraphIndex.
#[local] Open Scope list_scope.

(** ** Effects *)
Lemma effect_bind_inv {E A B} (m : effect E A) (f : A → effect E B) d r d' : (m ≫= f) d = (r, d') →
  (∃ a d1, m d = (ROk a, d1) ∧ f a d1 = (r, d')) ∨ (∃ e, m d = (RErr e, d') ∧ r = RErr e).
Proof. unfold mbind, effect_bind. destruct (m d) as [[a|e] d1]; [left; eauto|intros [= <- <-]; right; eauto]. Qed.
Lemma call_inv {E E' A} (m : tx sidecar E A) (e : E') d r d' : call m e d = (r, d') →
  (∃ a, r = ROk a ∧ m d = ROk (a, d')) ∨ (r = RErr e ∧ d' = d ∧ ∃ e', m d = RErr e').
Proof. unfold call, commit. destruct (m d) as [[a d1]|e0]; intros [= <- <-]; [left; eauto|right; eauto]. Qed.
Lemma call_fetch_inv {E E' A} (f : sidecar → res E A) (e : E') d r d' : call (fetch f) e d = (r, d') →
  d' = d ∧ ((∃ a, r = ROk a ∧ f d = ROk a) ∨ r = RErr e).
Proof. intros [(a & -> & H)|(-> & -> & _)]%call_inv; [apply fetch_ROk in H as [H ->]|]; eauto. Qed.

(** ** Preparation changes the cache only *)
Definition cache_only (d d' : sidecar) : Prop := ∃ c, d' = d <| sd_cache := c |>.
#[global] Instance cache_only_preorder : PreOrder cache_only.
Proof.
  split; [intros d; exists (sd_cache d); by destruct d|]. intros d1 d2 d3 [c ->] [c' ->]. by exists c'.
Qed.
Definition caches {E A} (m : effect E A) : Prop := ∀ d r d', m d = (r, d') → cache_only d d'.
Lemma caches_bind {E A B} (m : effect E A) (f : A → effect E B) : caches m → (∀ a, caches (f a)) → caches (m ≫= f).
Proof.
  intros Hm Hf d r d' H. apply effect_bind_inv in H as [(a & d1 & H1 & H2)|(e & H1 & _)]; [etrans; [by eapply Hm|by eapply Hf]|by eapply Hm].
Qed.
Lemma caches_ret {E A} (a : A) : caches (mret (M := effect E) a).
Proof. intros d r d' [= _ <-]. reflexivity. Qed.
Lemma caches_pure {E A} (r : res E A) : caches (pure r).
Proof. intros d r' d' [= _ <-]. reflexivity. Qed.
#[export] Hint Resolve caches_ret caches_pure : graph.
Lemma cache_only_ok d d' : cache_only d d' → sidecar_ok d → sidecar_ok d'.
Proof.
  intros [c ->]. apply extends_ok. exact (write_cache_keeps (E := string) (λ _, c) d tt _ eq_refl).
Qed.

Section index.
Context {FT : FloatText} {JT : JsonText} {LC : Lowercase} {SH : Sha256} {FE : FloatEq} {AN : Analyzers}.

Lemma load_cached_caches {E'} k (e : E') : caches (call (load_cached_fragment k) e).
Proof.
  intros d r d' H. apply call_inv in H as [(a & _ & H)|(_ & -> & _)]; [|reflexivity]. unfold load_cached_fragment in H.
  tx_inv. destruct (sd_cache d !! _); [|tx_inv; reflexivity]. destruct (json_parse _ ≫= _); tx_inv; [reflexivity|by eexists].
Qed.
Lemma look_up_caches ctx f config force m xs : caches (look_up ctx f config force m xs).
Proof.
  induction xs as [|x xs IH]; simpl; [apply caches_ret|]. apply caches_bind; [destruct force; [apply caches_ret|apply load_cached_caches]|].
  intros cached. apply caches_bind; [done|]. intros [[hits fragments] missing]. apply caches_ret.
Qed.
Lemma prepare_file_caches src ctx config active force duration p f : caches (prepare_file src ctx config active force duration p f).
Proof.
  unfold prepare_file. destruct (extractors_for active f); [apply caches_ret|]. apply caches_bind; [apply look_up_caches|].
  intros [[hits fragments] missing]. destruct missing; repeat (apply caches_bind; [apply caches_pure|intros ?]); apply caches_ret.
Qed.
Lemma prepare_files_caches src ctx config active force elapsed p files : caches (prepare_files src ctx config active force elapsed p files).
Proof.
  revert elapsed p. induction files as [|f files IH]; intros elapsed p; simpl; [apply caches_ret|].
  apply caches_bind; [apply prepare_file_caches|intros p'; apply IH].
Qed.
Lemma prepare_caches src config active s force elapsed : caches (prepare src config active s force elapsed).
Proof.
  unfold prepare. apply caches_bind.
  { destruct force; [apply caches_ret|]. intros d r d' H. apply call_fetch_inv in H as [-> _]. reflexivity. }
  intros [existing|]; [apply caches_ret|]. apply caches_bind; [apply caches_pure|intros m1]. apply caches_bind.
  { destruct (ax_generic_enabled active); auto with graph. }
  intros m2. apply caches_bind; [apply prepare_files_caches|intros p]. apply caches_bind; [|intros; apply caches_ret].
  destruct (ax_resolver_enabled active); auto with graph.
Qed.

(** ** The build's end *)
Definition closed (d : sidecar) (b : string) : Prop := ∃ r, sd_builds d !! b = Some r ∧ unfinished r = false.
Definition open_in (d : sidecar) (b : string) : Prop := ∃ r, sd_builds d !! b = Some r ∧ unfinished r = true.
Lemma closed_update d id f b : (∀ r, unfinished r = false → unfinished (f r) = false) → closed d b → closed (update_build id f d) b.
Proof.
  intros Hf (r & Hr & Hu). unfold closed. cbn. destruct (decide (b = id)) as [->|Hb].
  - exists (f r). rewrite lookup_alter_eq, Hr. eauto.
  - exists r. by rewrite lookup_alter_ne.
Qed.
Lemma start_build_open t b d u d' : start_build t b d = ROk (u, d') →
  sd_builds d !! id_as_str (gb_id b) = None ∧ open_in d' (id_as_str (gb_id b)) ∧ sd_views d' = sd_views d.
Proof.
  intros H. unfold start_build in H. graph_inv. split_and!; [done| |done]. eexists. cbn. rewrite lookup_insert_eq. by split.
Qed.
Lemma fail_build_run t id code d : sidecar_ok d → open_in d (id_as_str id) →
  ∃ b d', fail_build t id code d = ROk (b, d') ∧ closed d' (id_as_str id) ∧ sd_views d' = sd_views d.
Proof.
  intros W (r & Hr & Hu). destruct (load_build_defined _ _ _ W Hr) as (b & Hb & _).
  pose proof (load_build_Some _ _ _ Hb) as (_ & r' & Hr' & _ & Hs). rewrite Hr in Hr'. injection Hr' as <-.
  rewrite (unfinished_state _ _ _ Hu) in Hs. injection Hs as Hs. exists (with_state BFailed b). eexists. unfold fail_build.
  erewrite tx_bind_run; [|apply found_ROk; split; [exact Hb|done]]. rewrite <- Hs. cbn. split; [done|]. split; [|done].
  eexists. cbn. rewrite lookup_alter_eq, Hr. cbn. split; [done|]. done.
Qed.
Lemma fail_started_build_spec t b e m d : sidecar_ok d → open_in d (id_as_str (gb_id b)) →
  let d' := fail_started_build t b e m d in sidecar_ok d' ∧ sd_views d' = sd_views d ∧ closed d' (id_as_str (gb_id b)).
Proof.
  intros W O. unfold fail_started_build. set (d1 := (commit (record_build_metrics (gb_id b) m) d).2).
  assert (sidecar_ok d1 ∧ sd_builds d1 = sd_builds d ∧ sd_views d1 = sd_views d) as (W1 & B1 & V1).
  { unfold d1. apply (commit_state (record_build_metrics (gb_id b) m) d (λ d1, sidecar_ok d1 ∧ sd_builds d1 = sd_builds d ∧ sd_views d1 = sd_views d)); [done|].
    intros u d2 H. apply upsert_metrics_keeps in H as X. split_and!; [by eapply extends_ok|apply X|apply X]. }
  assert (open_in d1 (id_as_str (gb_id b))) as O1 by (unfold open_in; by rewrite B1).
  destruct (fail_build_run t (gb_id b) (index_error_code e) d1 W1 O1) as (b' & d' & H & C & V). unfold commit. rewrite H. cbn.
  split_and!; [by eapply fail_build_ok|congruence|done].
Qed.
Lemma complete_index_closes t c d r d' : complete_index t c d = ROk (r, d') → snapshot_in_range (ic_snapshot c) →
  sd_views d' = sd_views d ∧ closed d' (id_as_str (gs_completed_by (ic_snapshot c))) ∧ gs_id r = gs_id (ic_snapshot c)
  ∧ stored d' (ic_snapshot c).
Proof.
  intros H R. apply complete_index_steps in H as (Hc & ex & d1 & d2 & Hl & Hw & X & _ & ->); [|done].
  eapply complete_with_ok in Hw as (X1 & S & E & _); [|by apply insert_facts_adds|done..]. split_and!; [| |done|].
  - cbn. destruct X as (_ & _ & V & _), X1 as (_ & _ & V1 & _). congruence.
  - destruct Hc as (row & Hrow & S1 & _). assert (sd_builds d2 = sd_builds d) as B.
    { destruct X as (_ & B & _), X1 as (_ & B1 & _). congruence. }
    eexists. cbn. rewrite lookup_alter_eq, B, Hrow. cbn. split; [done|]. unfold unfinished. cbn. by rewrite andb_false_r.
  - eapply stored_grows; [|exact S]. etrans; [apply X|]. apply finish_framed.
Qed.
Lemma supersede_build_closed id d b b' : closed d b → sd_views (commit (supersede_build id) d).2 = sd_views d ∧ closed (commit (supersede_build id) d).2 b
  ∧ (b' ≠ id_as_str id → sd_builds (commit (supersede_build id) d).2 !! b' = sd_builds d !! b').
Proof.
  intros C. apply (commit_state (supersede_build id) d (λ d', sd_views d' = sd_views d ∧ closed d' b ∧ (b' ≠ id_as_str id → sd_builds d' !! b' = sd_builds d !! b'))); [done|].
  intros a d' H. unfold supersede_build in H. tx_inv. apply found_ROk in H0 as [_ ->]. split_and!; [done| |].
  - apply closed_update; [|done]. done.
  - intros Hne. cbn. by rewrite lookup_alter_ne.
Qed.
Lemma publish_closed t q d o d' b : publish t q d = ROk (o, d') → closed d b → closed d' b.
Proof.
  intros H C. apply publish_cases in H as (bl & sn & cur & _ & _ & _ & _ & _ & _ & P).
  inversion P; subst; [|done| |]; (eapply (closed_update _ _ _ b); [|exact C]); done.
Qed.
(** What a publication that returned reports is what is published. *)
Lemma publish_reports t q d o d' : publish t q d = ROk (o, d') → sidecar_ok d →
  match o with
  | ViewPublished v => load_published_view d' (pq_repository q) (pq_view_name q) = ROk (Some v)
      ∧ (vw_build_id v ≠ pq_build_id q → sd_views d' = sd_views d)
  | ViewSuperseded v => load_published_view d' (pq_repository q) (pq_view_name q) = ROk (Some v) ∧ sd_views d' = sd_views d
  end.
Proof.
  intros H W. pose proof (publish_ok _ _ _ _ _ H W) as W'. apply publish_cases in H as (b & sn & cur & Hb & Hr & _ & _ & Hv & _ & P).
  destruct (load_build_Some _ _ _ Hb) as [Eb _].
  assert (∀ now g, sidecar_ok (moved now q b g d) → load_published_view (moved now q b g d) (pq_repository q) (pq_view_name q)
    = ROk (Some (moved_view q b g))) as Hm.
  { intros now g Wm. destruct (load_view_defined _ (pq_repository q) (pq_view_name q) (ViewRow (id_as_str (gb_prospective_snapshot_id b)) (id_as_str (gb_id b)) g now) Wm)
      as (v & Hl & E1 & E2 & E3); [cbn; by rewrite lookup_insert_eq|]. rewrite Hl. do 2 f_equal.
    apply load_published_view_Some in Hl as (row & _ & Ev & _). rewrite Ev in *. cbn in *. apply id_as_str_inj in E2, E3.
    unfold moved_view. congruence. }
  inversion P; subst.
  - split; [by apply Hm|]. intros N. by destruct N.
  - by split.
  - split; [by apply Hm|]. intros N. by destruct N.
  - split; [|done]. rewrite <- Hv. unfold load_published_view. done.
Qed.

(** ** A run *)
(** What is reported of a view is what the store holds. *)
Definition reported (d : sidecar) (r : RepositoryRef) (name : PublishedViewName) (o : PublicationOutcome) : Prop :=
  match o with ViewPublished v | ViewSuperseded v => load_published_view d r name = ROk (Some v) end.
Lemma load_view_same d d' r n : sd_views d' = sd_views d → load_published_view d' r n = load_published_view d r n.
Proof. unfold load_published_view. by intros ->. Qed.
Lemma supersede_build_run id d r : sidecar_ok d → sd_builds d !! id_as_str id = Some r → br_state r = "building" → is_Some (br_finished_at r) →
  ∃ b d', supersede_build id d = ROk (b, d').
Proof.
  intros W Hr Hst Hf. destruct (load_build_defined _ _ _ W Hr) as (b & Hb & _).
  pose proof (load_build_Some _ _ _ Hb) as (_ & r' & Hr' & _ & Hs). rewrite Hr in Hr'. injection Hr' as <-.
  assert (gb_state b = BComplete) as E.
  { destruct (ok_finished _ W _ _ Hr) as (x & Hx & _); [right; right; by split|]. unfold build_state_of in Hs. rewrite Hst, Hx in Hs.
    destruct Hf as [y Hy]. rewrite Hy in Hs. cbn in Hs. by injection Hs. }
  eexists _, _. unfold supersede_build. erewrite tx_bind_run; [|apply found_ROk; split; [exact Hb|done]]. rewrite E. done.
Qed.
Definition run_spec (d : sidecar) (r : res IndexError IndexOutcome) (d' : sidecar) (m : SourceManifest) (request : IndexRequest) : Prop :=
  sidecar_ok d' ∧ closed d' (id_as_str (rq_build_id request)) ∧
  match r with
  | RErr _ => sd_views d' = sd_views d
  | ROk out => reported d' (rv_repository (mf_revision m)) (rq_view_name request) (io_publication out)
      ∧ (published_by_other (rq_build_id request) (io_publication out) = true → sd_views d' = sd_views d)
  end.
Lemma read_publication_spec r request expected answer d res d' : read_publication r request expected answer d = (res, d') →
  d' = d ∧ match res with
  | RErr _ => ∃ e, answer = RErr e
  | ROk (o, supersede) =>
    match answer with
    | ROk o' => o = o' ∧ (supersede = true → published_by_other (rq_build_id request) o' = true)
    | RErr _ => reported d r (rq_view_name request) o
    end
  end.
Proof.
  unfold read_publication. destruct answer as [[v|v]|e]; [by intros [= <- <-]|by intros [= <- <-]|]. intros H.
  apply effect_bind_inv in H as [(cur & d1 & H1 & H)|(e' & H1 & ->)]; apply call_fetch_inv in H1 as [-> H1]; [|split; [done|by eexists]].
  destruct H1 as [(a & [= <-] & H1)|[=]]. destruct cur as [cur|]; [|injection H as <- <-; split; [done|by eexists]].
  repeat case_decide; injection H as <- <-; (split; [done|]); eauto.
Qed.
Lemma finish_publication_spec t m request expected completed metrics reused d res d' :
  finish_publication t m request expected completed metrics reused d = (res, d') → sidecar_ok d → closed d (id_as_str (rq_build_id request)) →
  run_spec d res d' m request.
Proof.
  intros H W C. unfold finish_publication in H. set (r := rv_repository (mf_revision m)) in *.
  apply effect_bind_inv in H as [(answer & d1 & H1 & H)|(e & H1 & _)]; [|by destruct (commit _ d)].
  destruct (commit _ d) as [ans d1'] eqn:Ec in H1. injection H1 as <- ->.
  set (q := mk_publish r (rq_view_name request) (rq_build_id request) expected) in *.
  assert (sidecar_ok d1 ∧ closed d1 (id_as_str (rq_build_id request))) as [W1 C1].
  { destruct ans as [o|e]; [apply commit_ROk in Ec; split; [by eapply publish_ok|by eapply publish_closed]|by apply commit_RErr in Ec as [-> _]]. }
  assert (match ans with RErr _ => sd_views d1 = sd_views d | ROk o => reported d1 r (rq_view_name request) o
      ∧ (published_by_other (rq_build_id request) o = true → sd_views d1 = sd_views d) end) as Hans.
  { destruct ans as [o|e]; [|by apply commit_RErr in Ec as [-> _]]. apply commit_ROk in Ec. pose proof (publish_reports _ _ _ _ _ Ec W) as Hr.
    destruct o as [v|v]; cbn in *; destruct Hr as [Hr1 Hr2]; (split; [done|]); [|done]. intros N%negb_true_iff%bool_decide_eq_false. auto. }
  apply effect_bind_inv in H as [([o supersede] & d2 & H2 & H)|(e & H2 & ->)]; apply read_publication_spec in H2 as [-> H2].
  2: { split_and!; [done..|]. by destruct H2 as [e' ->]. }
  assert (reported d1 r (rq_view_name request) o ∧ (published_by_other (rq_build_id request) o = true → sd_views d1 = sd_views d)) as [Ho Hv].
  { destruct ans as [o'|e']; [destruct H2 as [-> _]; done|]. by split. }
  assert (∀ d3, sd_views d3 = sd_views d1 → reported d3 r (rq_view_name request) o) as Hrep.
  { intros d3 V3. unfold reported in *. destruct o; by rewrite (load_view_same _ _ _ _ V3). }
  destruct (published_by_other (rq_build_id request) o && supersede) eqn:Eb.
  - apply andb_prop in Eb as [Eo _]. specialize (Hv Eo). destruct (supersede_build_closed (rq_build_id request) d1 _ "" C1) as (V & C2 & _).
    assert (sidecar_ok (commit (supersede_build (rq_build_id request)) d1).2) as W2
      by (apply (commit_state _ _ sidecar_ok); [done|intros ? ? X; by eapply supersede_build_ok]).
    apply effect_bind_inv in H as [(u & d3 & H3 & H)|(e & H3 & ->)].
    + apply effect_bind_inv in H3 as [(bl & d4 & H4 & H3)|(e & _ & [=])]. injection H3 as <- <-. injection H as <- <-.
      apply call_inv in H4 as [(a & _ & H4)|([=] & _)]. unfold commit in *. rewrite H4 in *. cbn in *.
      split_and!; [done..|cbn; by apply Hrep|intros _; congruence].
    + apply effect_bind_inv in H3 as [(bl & d4 & _ & [=])|(e' & H4 & _)]. apply call_inv in H4 as [(a & [=] & _)|(_ & -> & _)].
      by split_and!.
  - apply effect_bind_inv in H as [(u & d3 & [= <- <-] & H)|(e & [=] & _)]. injection H as <- <-. split_and!; [done..| |done]. cbn. by apply Hrep.
Qed.
Lemma index_started_spec t elapsed src config active request expected reused b d res d' :
  index_started t elapsed src config active request expected reused b d = (res, d') →
  gb_id b = rq_build_id request → sidecar_ok d → open_in d (id_as_str (rq_build_id request)) → run_spec d res d' (src_manifest src) request.
Proof.
  intros H Eb W O. unfold index_started in H. destruct (prepare _ _ _ _ _ _ d) as [pr d1] eqn:Ep.
  pose proof (prepare_caches _ _ _ _ _ _ _ _ _ Ep) as CO. pose proof (cache_only_ok _ _ CO W) as W1.
  assert (sd_views d1 = sd_views d ∧ open_in d1 (id_as_str (rq_build_id request))) as [V1 O1] by (destruct CO as [c ->]; by split).
  assert (∀ e mt, run_spec d (RErr e) (fail_started_build (t 1%nat) b e mt d1) (src_manifest src) request) as Hfail.
  { intros e mt. rewrite <- Eb in O1. destruct (fail_started_build_spec (t 1%nat) b e mt d1 W1 O1) as (W2 & V2 & C2). rewrite Eb in C2.
    split_and!; [done..|congruence]. }
  destruct pr as [p|[e mt]]; [|by injection H as <- <-].
  destruct (src_revalidate src 0) as [[]|]; [|by injection H as <- <-..].
  destruct (commit _ d1) as [[completed|e] d2] eqn:Ec in H; [|apply commit_RErr in Ec as [-> _]; by injection H as <- <-].
  apply commit_ROk in Ec. assert (snapshot_in_range (ic_snapshot (index_commit (src_manifest src)
    (requested_snapshot (src_manifest src) (gb_prospective_snapshot_id b) (rq_build_id request)) p ((pi_metrics p) <| im_duration_ms := elapsed 1%nat |>)))) as R by done.
  destruct (complete_index_closes _ _ _ _ _ Ec R) as (V2 & C2 & _). pose proof (complete_index_ok _ _ _ _ _ Ec R W1) as W2. cbn in C2.
  destruct (src_revalidate src 1) as [[]|].
  - apply finish_publication_spec in H as (W3 & C3 & H3); [|done..]. split_and!; [done..|]. destruct res as [out|]; [|congruence].
    destruct H3 as [H3 H4]. split; [done|]. intros E. rewrite (H4 E). congruence.
  - injection H as <- <-. destruct (supersede_build_closed (rq_build_id request) d2 _ "" C2) as (V & C3 & _).
    split_and!; [|done|congruence]. apply (commit_state _ _ sidecar_ok); [done|intros ? ? X; by eapply supersede_build_ok].
  - injection H as <- <-. destruct (supersede_build_closed (rq_build_id request) d2 _ "" C2) as (V & C3 & _).
    split_and!; [|done|congruence]. apply (commit_state _ _ sidecar_ok); [done|intros ? ? X; by eapply supersede_build_ok].
Qed.

End index.
