(* ===== verification/GraphIncremental.v ===== *)
(** Incremental indexing computes what a full run would: the fragment cache
    holds results of extraction only, and a fragment taken from it is the one
    that extraction would give for the new snapshot. *)
From S2P Require Import Prelude View Transact Wire Identity AgentData AgentWire AgentWireFacts Text GraphDomain GraphStore GraphIndexStore GraphMaintenance GraphInvariant GraphLifecycle GraphTheorems GraphSafety GraphContents GraphIndex GraphIndexFacts.
#[local] Open Scope list_scope.

Definition limits_of (ctx : ExtractionContext) : Z * Z * Z := (ec_max_facts_per_file ctx, ec_max_parser_duration_ms ctx, ec_max_diagnostics ctx).
(** The same facts and diagnostics, of snapshot [s] and build [b] *)
Definition retagged (s : SnapshotId) (b : BuildId) (f : GraphFragment) : GraphFragment :=
  mk_fragment
    ((λ n, mk_node s (gn_id n) (gn_kind n) (gn_semantic_key n) (gn_provenance n) (gn_properties n)) <$> gf_nodes f)
    ((λ e, mk_edge s (ge_id e) (ge_kind e) (ge_source e) (ge_target e) (ge_provenance e) (ge_properties e)) <$> gf_edges f)
    ((λ g, mk_diagnostic b (Some s) (gd_severity g) (gd_code g) (gd_location g) (gd_metrics g)) <$> gf_diagnostics f).
Lemma rebase_retagged f ctx : rebase_fragment f ctx = retagged (ec_snapshot_id ctx) (ec_build_id ctx) f.
Proof. reflexivity. Qed.
(** What indexing relies on of the extractors: a fragment is a function of the
    repository, the limits, the file and its content, tagged with the snapshot
    and the build; its facts name the extractor and the file they come from;
    and extractors have distinct identities. *)
Class ExtractorLaws `{!Analyzers} (exact : f64 → Prop) : Prop := {
  xl_rebase x c1 c2 f b : x ∈ available → ec_repository c1 = ec_repository c2 → limits_of c1 = limits_of c2 →
    dx_extract x c2 f b = retagged (ec_snapshot_id c2) (ec_build_id c2) <$> dx_extract x c1 f b;
  xl_typed x c f b g : x ∈ available → dx_extract x c f b = Some g → fragment_typed exact g;
  xl_valid x c f b g config : x ∈ available → dx_extract x c f b = Some g →
    cache_fragment_is_valid g (fragment_cache_key c f (dx_identity x) config) = true;
  xl_distinct x y : x ∈ available → y ∈ available → dx_identity x = dx_identity y → x = y }.

Lemma effect_bind_ok {E A B} (m : effect E A) (f : A → effect E B) d a d1 : m d = (ROk a, d1) → (m ≫= f) d = f a d1.
Proof. unfold mbind, effect_bind. by intros ->. Qed.
Lemma file_mode_inj a b : file_mode a = file_mode b → a = b.
Proof. by destruct a, b. Qed.
Lemma cache_params_inj k k' key : cache_params k = ROk key → cache_params k' = ROk key → k = k'.
Proof.
  unfold cache_params. intros H H'. tx_inv. apply integer_ROk in H0 as [-> _]. apply integer_ROk in H1 as [-> _]. subst key.
  destruct k as [r p c l m cfg [xi xv xc]], k' as [r' p' c' l' m' cfg' [xi' xv' xc']]; cbn [fk_repository fk_path fk_content_identity
    fk_byte_len fk_file_mode fk_analysis_config_digest fk_extractor xi_id xi_version xi_contract_version] in *.
  injection H2 as Hr Hi0 Hp Ha Hv Hl Hm Hc Hc' Hi Hver Hcon.
  assert (r' = r) as -> by (apply repo_key_inj; unfold repo_key; congruence). assert (p' = p) as -> by (by apply path_str_inj).
  assert (c' = c) as -> by (apply digest_cols_inj; unfold digest_cols; congruence). assert (m' = m) as -> by (by apply file_mode_inj).
  assert (cfg' = cfg) as -> by (apply digest_cols_inj; unfold digest_cols; congruence). assert (xi' = xi) as -> by (by apply id_as_str_inj).
  congruence.
Qed.

Section incremental.
Context {FT : FloatText} {exact : f64 → Prop} {FL : FloatTextLaws exact} {JT : JsonText} {JL : JsonTextLaws} {LC : Lowercase} {SH : Sha256} {FE : FloatEq} {AN : Analyzers} {XL : ExtractorLaws exact}.
(** The content with an identity, and the limits that a configuration's digest
    stands for *)
Context (content_of : Digest → text) (limits : Digest → Z * Z * Z).

(** An entry of the cache is the result of an extraction for its key. *)
Definition extracted (k : FragmentCacheKey) (g : GraphFragment) : Prop :=
  ∃ x ctx f, x ∈ available ∧ fragment_cache_key ctx f (dx_identity x) (fk_analysis_config_digest k) = k
    ∧ limits_of ctx = limits (fk_analysis_config_digest k) ∧ dx_extract x ctx f (content_of (fk_content_identity k)) = Some g.
Definition cache_sound (d : sidecar) : Prop := ∀ k key row, cache_params k = ROk key → sd_cache d !! key = Some row →
  ∃ g, extracted k g ∧ cr_fragment_json row = json_text (ser_fragment g).

(** ** Reading a sound cache *)
Definition descriptor_of (k : FragmentCacheKey) : SourceFileDescriptor := mk_source_file (fk_path k) (fk_content_identity k) (fk_byte_len k) (fk_file_mode k).
(** What extraction gives for this context *)
Definition fresh (ctx : ExtractionContext) (f : SourceFileDescriptor) (x : DynExtractor) : option GraphFragment :=
  dx_extract x ctx f (content_of (sf_content_identity f)).
Lemma extracted_fresh ctx f x config g : x ∈ available → limits_of ctx = limits config →
  extracted (fragment_cache_key ctx f (dx_identity x) config) g →
  fresh ctx f x = Some (rebase_fragment g ctx) ∧ cache_fragment_is_valid g (fragment_cache_key ctx f (dx_identity x) config) = true
  ∧ fragment_typed exact g.
Proof.
  intros Hx Hl (y & c0 & f0 & Hy & Hk & Hl0 & Hg). cbn in *. injection Hk as Er Ep Ec Eb Em Ei.
  assert (y = x) as -> by (by apply xl_distinct). assert (f0 = f) as -> by (destruct f, f0; cbn in *; congruence).
  split_and!; [|by eapply (xl_valid x c0 f _ g config) in Hg; [by unfold fragment_cache_key in *; rewrite Er in Hg|]|by eapply xl_typed].
  unfold fresh. rewrite (xl_rebase x c0 ctx), rebase_retagged; [by rewrite Hg|done|done|congruence].
Qed.
Definition cached_in (d : sidecar) (ctx : ExtractionContext) (f : SourceFileDescriptor) (config : Digest) (x : DynExtractor) : bool :=
  match cache_params (fragment_cache_key ctx f (dx_identity x) config) with ROk key => some (sd_cache d !! key) | RErr _ => false end.
Lemma load_sound d ctx f x config : cache_sound d → x ∈ available → limits_of ctx = limits config → sf_byte_len f ≤ i64_max →
  ∃ o, load_cached_fragment (fragment_cache_key ctx f (dx_identity x) config) d = ROk (o, d)
  ∧ match o with
    | Some g => cached_in d ctx f config x = true ∧ fresh ctx f x = Some (rebase_fragment g ctx)
        ∧ cache_fragment_is_valid g (fragment_cache_key ctx f (dx_identity x) config) = true
    | None => cached_in d ctx f config x = false
    end.
Proof.
  intros S Hx Hl Hb. unfold load_cached_fragment, cached_in. set (k := fragment_cache_key ctx f (dx_identity x) config).
  assert (∃ key, cache_params k = ROk key) as [key Hk].
  { unfold cache_params, integer. cbn. rewrite (proj2 (Z.leb_le _ _) Hb). cbn. by eexists. }
  rewrite Hk. erewrite tx_bind_run by (apply lift_ROk; by split). erewrite tx_bind_run by done. cbn [id].
  destruct (sd_cache d !! key) as [row|] eqn:E; [|by eexists].
  destruct (S k key row Hk E) as (g & Hg & Ej). destruct (extracted_fresh ctx f x config g Hx Hl Hg) as (F1 & F2 & F3).
  assert (json_parse (cr_fragment_json row) ≫= de_fragment = Some g) as ->.
  { rewrite Ej, json_parse_text. exact (de_ser_fragment (exact := exact) _ F3). }
  by eexists.
Qed.

(** ** One file *)
Definition pending (ctx : ExtractionContext) (f : SourceFileDescriptor) (config : Digest) (x : DynExtractor) : DynExtractor * FragmentCacheKey :=
  (x, fragment_cache_key ctx f (dx_identity x) config).
Lemma look_up_full ctx f config m xs d : look_up ctx f config true m xs d = (ROk ([], [], pending ctx f config <$> xs), d).
Proof. induction xs as [|x xs IH]; cbn; [done|]. unfold mbind, effect_bind. cbn. by rewrite IH. Qed.
Lemma look_up_none d ctx f config m xs : cache_sound d → limits_of ctx = limits config → sf_byte_len f ≤ i64_max → xs ⊆ available →
  Forall (λ x, cached_in d ctx f config x = false) xs → look_up ctx f config false m xs d = (ROk ([], [], pending ctx f config <$> xs), d).
Proof.
  intros S Hl Hb. induction xs as [|x xs IH]; intros Hs HN; cbn; [done|]. apply Forall_cons in HN as [HN HNs].
  destruct (load_sound d ctx f x config S) as (o & Ho & Hc); [set_solver|done..|]. destruct o as [g|]; [destruct Hc; congruence|].
  unfold mbind, effect_bind, call, commit. rewrite Ho. cbn. rewrite IH by set_solver. done.
Qed.
Lemma look_up_all d ctx f config m xs : cache_sound d → limits_of ctx = limits config → sf_byte_len f ≤ i64_max → xs ⊆ available →
  Forall (λ x, cached_in d ctx f config x = true) xs →
  ∃ hits fragments, look_up ctx f config false m xs d = (ROk (hits, fragments, []), d) ∧ mapM (fresh ctx f) xs = Some fragments.
Proof.
  intros S Hl Hb. induction xs as [|x xs IH]; intros Hs HN; cbn; [by eexists _, _|]. apply Forall_cons in HN as [HN HNs].
  destruct (load_sound d ctx f x config S) as (o & Ho & Hc); [set_solver|done..|]. destruct o as [g|]; [|congruence].
  destruct Hc as (_ & HF & HV). destruct IH as (hits & fragments & E & HM); [set_solver|done|].
  eexists _, _. unfold mbind, effect_bind, call, commit. rewrite Ho. cbn. rewrite E. cbn. rewrite HV. split; [done|].
  rewrite HF. cbn. by rewrite HM.
Qed.
Lemma extract_missing_fresh ctx f config duration m xs l :
  extract_missing ctx f (content_of (sf_content_identity f)) duration m (pending ctx f config <$> xs) = ROk l →
  mapM (fresh ctx f) xs = Some (cf_fragment <$> l) ∧ cf_key <$> l = (snd <$> (pending ctx f config <$> xs)).
Proof.
  revert l. induction xs as [|x xs IH]; cbn; intros l H; [by injection H as <-|]. tx_inv. apply IH in H1 as [E1 E2].
  assert (fresh ctx f x = Some x0) as -> by exact H0. subst l. cbn. rewrite E1. split; [done|cbn; by f_equal].
Qed.
Lemma extract_missing_run ctx f config duration m xs gs : mapM (fresh ctx f) xs = Some gs →
  ∃ l, extract_missing ctx f (content_of (sf_content_identity f)) duration m (pending ctx f config <$> xs) = ROk l ∧ cf_fragment <$> l = gs.
Proof.
  revert gs. induction xs as [|x xs IH]; cbn; intros gs H; [injection H as <-; by exists []|].
  apply bind_Some in H as (g & Hg & H). apply bind_Some in H as (gs' & Hgs & H). injection H as <-.
  destruct (IH _ Hgs) as (l & E & <-). unfold fresh in Hg. rewrite Hg. cbn. rewrite E. by eexists.
Qed.
(** A file is in the cache as a whole or not at all. *)
Definition whole (d : sidecar) (ctx : ExtractionContext) (config : Digest) (active : ActiveExtractors) (f : SourceFileDescriptor) : Prop :=
  Forall (λ x, cached_in d ctx f config x = true) (extractors_for active f)
  ∨ Forall (λ x, cached_in d ctx f config x = false) (extractors_for active f).
Lemma extractors_available active f : extractors_for active f ⊆ available.
Proof. unfold extractors_for. intros x Hx. by apply list_elem_of_filter in Hx as [_ [_ Hx]%list_elem_of_filter]. Qed.
Lemma map_err_err {E E' A} (f : E → E') (r : res E A) a : r = ROk a → map_err f r = ROk a.
Proof. by intros ->. Qed.
Lemma prepare_file_same src ctx config active duration duration' p p' f q d :
  cache_sound d → limits_of ctx = limits config → sf_byte_len f ≤ i64_max → whole d ctx config active f →
  (∀ c, src_read_verified src f = Some c → c = content_of (sf_content_identity f)) → ps_merger p = ps_merger p' →
  prepare_file src ctx config active true duration p' f d = (ROk q, d) →
  ∃ q', prepare_file src ctx config active false duration' p f d = (ROk q', d) ∧ ps_merger q' = ps_merger q.
Proof.
  intros S Hl Hb HW HR Em H. unfold prepare_file in *. pose proof (extractors_available active f) as HA. unfold whole in HW.
  destruct (extractors_for active f) as [|x xs]; [eexists; split; [done|]; cbn; injection H as <-; done|].
  unfold mbind, effect_bind in H. rewrite look_up_full in H. rewrite fmap_cons in H. cbn [fst snd] in H. cbv iota beta in H.
  rewrite <- fmap_cons in H. unfold pure at 1 in H. destruct (src_read_verified src f) as [c|] eqn:Ec; [|done]. cbn [ok_or] in H.
  rewrite (HR c eq_refl) in *. cbv zeta in H. unfold pure in H. destruct (extract_missing _ _ _ _ _ _) as [l|] eqn:El in H; [|done].
  apply extract_missing_fresh in El as [El _]. unfold with_metrics in H.
  destruct (merge_all (ps_merger p') _) as [merged|] eqn:Eg in H; [|done]. injection H as <-. cbn [ps_merger].
  destruct HW as [HW|HW].
  - destruct (look_up_all d ctx f config (ps_metrics p) (x :: xs) S Hl Hb HA HW) as (hits & fragments & E & HM).
    rewrite El in HM. injection HM as <-. unfold mbind, effect_bind. rewrite E. cbv iota beta zeta. rewrite Em. cbn [app] in Eg.
    unfold pure, with_metrics. rewrite Eg. by eexists.
  - unfold mbind, effect_bind. rewrite (look_up_none d ctx f config (ps_metrics p) (x :: xs) S Hl Hb HA HW). rewrite fmap_cons.
    cbv iota beta zeta. rewrite <- fmap_cons. unfold pure at 1. cbn [ok_or].
    match goal with |- context [extract_missing _ _ _ ?du ?m _] =>
      destruct (extract_missing_run ctx f config du m (x :: xs) _ El) as (l' & El' & Ef) end.
    unfold pure. rewrite El'. cbn [app]. rewrite Ef, Em. cbn [app] in Eg. unfold with_metrics. rewrite Eg. by eexists.
Qed.

(** ** The whole run *)
(** A full run does not consult the cache. *)
Lemma prepare_file_full_db src ctx config active duration p f d r d' :
  prepare_file src ctx config active true duration p f d = (r, d') → d' = d.
Proof.
  unfold prepare_file. destruct (extractors_for active f) as [|x xs]; [by intros [= _ <-]|]. intros H.
  apply effect_bind_inv in H as [(looked & d1 & H1 & H)|(e & H1 & _)]; rewrite look_up_full in H1; [|done]. injection H1 as <- <-.
  cbv iota beta zeta in H.
  repeat (apply effect_bind_inv in H as [(? & ? & [= _ <-] & H)|(? & [= _ <-] & _)]; [|done]). by injection H.
Qed.
Lemma prepare_files_same src ctx config active elapsed elapsed' files p p' q d d' :
  cache_sound d → limits_of ctx = limits config →
  Forall (λ f, sf_byte_len f ≤ i64_max ∧ whole d ctx config active f
    ∧ ∀ c, src_read_verified src f = Some c → c = content_of (sf_content_identity f)) files →
  ps_merger p = ps_merger p' →
  prepare_files src ctx config active true elapsed p' files d = (ROk q, d') →
  d' = d ∧ ∃ q', prepare_files src ctx config active false elapsed' p files d = (ROk q', d) ∧ ps_merger q' = ps_merger q.
Proof.
  intros S Hl HF. revert elapsed elapsed' p p'. induction HF as [|f files (Hb & HW & HR) HF IH]; intros elapsed elapsed' p p' Em H; cbn in *.
  - injection H as <- <-. split; [done|]. by eexists.
  - apply effect_bind_inv in H as [(q1 & d1 & H1 & H)|(e & _ & [=])]. pose proof (prepare_file_full_db _ _ _ _ _ _ _ _ _ _ H1) as ->.
    destruct (prepare_file_same src ctx config active _ (elapsed' 0%nat) p p' f q1 d S Hl Hb HW HR Em H1) as (q1' & E1 & Em1).
    destruct (IH _ (λ i, elapsed' (Datatypes.S i)) q1' q1 Em1 H) as (-> & q' & E & Eq). split; [done|].
    exists q'. split; [|done]. unfold mbind, effect_bind. by rewrite E1.
Qed.


(** ** The cache stays sound *)
Lemma extract_missing_sound ctx f config duration m xs l : xs ⊆ available → limits_of ctx = limits config →
  extract_missing ctx f (content_of (sf_content_identity f)) duration m (pending ctx f config <$> xs) = ROk l →
  Forall (λ c, extracted (cf_key c) (cf_fragment c)) l.
Proof.
  intros Hs Hl. revert l. induction xs as [|x xs IH]; cbn; intros l H; [by injection H as <-|]. tx_inv. subst l.
  constructor; [|apply IH; [set_solver|done]]. exists x, ctx, f. cbn. split_and!; [set_solver|done..].
Qed.
Lemma upsert_cached_fragments_sound t l d u d' : Forall (λ c, extracted (cf_key c) (cf_fragment c)) l →
  upsert_cached_fragments t l d = ROk (u, d') → cache_sound d → cache_sound d'.
Proof.
  intros HL. revert t d. induction HL as [|c l Hc HL IH]; intros t d H S; cbn in H; [by injection H as _ <-|].
  apply tx_bind_ROk in H as (u1 & d1 & H1 & H). eapply IH; [exact H|]. unfold upsert_cached_fragment in H1. graph_inv.
  intros k key row Hk Hrow. cbn in Hrow. apply lookup_insert_Some in Hrow as [[<- <-]|[_ Hrow]]; [|by eapply S].
  match goal with Hp : cache_params (cf_key c) = ROk _ |- _ => rewrite (cache_params_inj _ _ _ Hk Hp) end. by exists (cf_fragment c).
Qed.
Lemma touch_cached_fragments_sound now l d u d' : touch_cached_fragments now l d = ROk (u, d') → cache_sound d → cache_sound d'.
Proof.
  revert d. induction l as [|k0 l IH]; intros d H S; cbn in H; [by injection H as _ <-|].
  apply tx_bind_ROk in H as (u1 & d1 & H1 & H). eapply IH; [exact H|]. graph_inv. intros k key row Hk Hrow. cbn in Hrow.
  apply lookup_alter_Some in Hrow as [(<- & row0 & Hrow & ->)|[_ Hrow]]; [|by eapply S].
  by destruct (S k _ row0 Hk Hrow) as (g & Hg & E); exists g.
Qed.
Lemma cache_sound_sub d d' : sd_cache d' ⊆ sd_cache d → cache_sound d → cache_sound d'.
Proof. intros H S k key row Hk Hrow. eapply S; [done|]. by eapply lookup_weaken. Qed.
Lemma load_cached_sub k d o d' : load_cached_fragment k d = ROk (o, d') → sd_cache d' ⊆ sd_cache d.
Proof.
  intros H. unfold load_cached_fragment in H. tx_inv. destruct (sd_cache d !! _); [|by tx_inv].
  destruct (json_parse _ ≫= _); tx_inv; [done|]. apply delete_subseteq.
Qed.
Lemma look_up_pending ctx f config force m xs d r d' : look_up ctx f config force m xs d = (r, d') →
  sd_cache d' ⊆ sd_cache d ∧ ∀ hits fragments missing, r = ROk (hits, fragments, missing) →
  ∃ ys, missing = pending ctx f config <$> ys ∧ ys ⊆ xs.
Proof.
  revert d r d'. induction xs as [|x xs IH]; intros d r d' H; cbn in H.
  - injection H as <- <-. split; [done|]. intros ? ? ? [= <- <- <-]. by exists [].
  - assert (∀ o d1, (if force then mret None else call (load_cached_fragment (fragment_cache_key ctx f (dx_identity x) config)) (IxCache, m)) d = (o, d1) →
      sd_cache d1 ⊆ sd_cache d) as HL.
    { intros o d1. destruct force; [by intros [= _ <-]|]. intros [(a & _ & X)|(_ & -> & _)]%call_inv; [by eapply load_cached_sub|done]. }
    apply effect_bind_inv in H as [(cached & d1 & H1 & H)|(e & H1 & ->)]; apply HL in H1; [|by split].
    apply effect_bind_inv in H as [([[hits fragments] missing] & d2 & H2 & H)|(e & H2 & ->)]; destruct (IH _ _ _ H2) as [S2 M2].
    2: { split; [by etrans|done]. }
    destruct (M2 _ _ _ eq_refl) as (ys & -> & Hys). injection H as <- <-. split; [by etrans|]. intros h fr mi E. injection E as E.
    destruct cached as [c|]; [destruct (cache_fragment_is_valid _ _)|]; injection E as <- <- <-.
    1: { exists ys. split; [done|set_solver]. }
    all: exists (x :: ys); split; [done|set_solver].
Qed.
Definition writes_sound (p : prep_state) : Prop := Forall (λ c, extracted (cf_key c) (cf_fragment c)) (ps_cache_writes p).
Lemma prepare_file_sound src ctx config active force duration p f d r d' : limits_of ctx = limits config →
  (∀ c, src_read_verified src f = Some c → c = content_of (sf_content_identity f)) → writes_sound p →
  prepare_file src ctx config active force duration p f d = (r, d') →
  sd_cache d' ⊆ sd_cache d ∧ ∀ q, r = ROk q → writes_sound q.
Proof.
  intros Hl HR HW H. unfold prepare_file in H. pose proof (extractors_available active f) as HA.
  destruct (extractors_for active f) as [|x xs]; [injection H as <- <-; split; [done|by intros q [= <-]]|].
  apply effect_bind_inv in H as [([[hits fragments] missing] & d1 & H1 & H)|(e & H1 & ->)];
    apply look_up_pending in H1 as [S1 M1]; [|by split]. destruct (M1 _ _ _ eq_refl) as (ys & -> & Hys).
  destruct (pending ctx f config <$> ys) eqn:Ey; [|rewrite <- Ey in H; clear Ey].
  - apply effect_bind_inv in H as [(? & ? & [= _ <-] & H)|(? & [= _ <-] & ->)]; [|by split]. injection H as <- <-. split; [done|by intros q [= <-]].
  - apply effect_bind_inv in H as [(content & ? & H2 & H)|(? & [= _ <-] & ->)]; [|by split].
    destruct (src_read_verified src f) as [c|] eqn:Ec; [|done]. injection H2 as <- <-. rewrite (HR c eq_refl) in H.
    apply effect_bind_inv in H as [(fr & d2 & H2 & H)|(? & [= _ <-] & ->)]; [|by split]. injection H2 as H2 <-.
    apply effect_bind_inv in H as [(? & ? & [= _ <-] & H)|(? & [= _ <-] & ->)]; [|by split]. injection H as <- <-.
    split; [done|]. intros q [= <-]. apply Forall_app. split; [done|]. eapply extract_missing_sound; [|done..]. set_solver.
Qed.
Lemma prepare_files_sound src ctx config active force elapsed files p d r d' : limits_of ctx = limits config →
  (∀ f c, f ∈ files → src_read_verified src f = Some c → c = content_of (sf_content_identity f)) → writes_sound p →
  prepare_files src ctx config active force elapsed p files d = (r, d') → sd_cache d' ⊆ sd_cache d ∧ ∀ q, r = ROk q → writes_sound q.
Proof.
  intros Hl. revert elapsed p d. induction files as [|f files IH]; intros elapsed p d HR HW H; cbn in H; [injection H as <- <-; split; [done|by intros q [= <-]]|].
  assert (∀ c, src_read_verified src f = Some c → c = content_of (sf_content_identity f)) as HR1 by (intros c; apply HR; by left).
  apply effect_bind_inv in H as [(q1 & d1 & H1 & H)|(e & H1 & ->)].
  - destruct (prepare_file_sound _ _ _ _ _ _ _ _ _ _ _ Hl HR1 HW H1) as [S1 W1].
    destruct (IH _ _ _ (λ f' c Hf, HR f' c (list_elem_of_further _ _ _ Hf)) (W1 _ eq_refl) H) as [S2 W2]. split; [by etrans|done].
  - destruct (prepare_file_sound _ _ _ _ _ _ _ _ _ _ _ Hl HR1 HW H1) as [S1 _]. by split.
Qed.
Lemma prepare_sound src config active s force elapsed d r d' :
  limits_of (index_context s (cfg_limits config)) = limits (rv_analysis_config_digest (mf_revision (src_manifest src))) →
  (∀ f c, f ∈ mf_files (src_manifest src) → src_read_verified src f = Some c → c = content_of (sf_content_identity f)) →
  prepare src config active s force elapsed d = (r, d') →
  sd_cache d' ⊆ sd_cache d ∧ ∀ p, r = ROk p → Forall (λ c, extracted (cf_key c) (cf_fragment c)) (pi_cache_writes p).
Proof.
  intros Hl HR H. unfold prepare in H. cbv zeta in H.
  apply effect_bind_inv in H as [(ex & d1 & H1 & H)|(e & H1 & ->)].
  2: { destruct force; [done|]. apply call_fetch_inv in H1 as [-> _]. by split. }
  assert (d1 = d) as -> by (destruct force; [by injection H1|by apply call_fetch_inv in H1 as [-> _]]).
  destruct ex as [ex|]; [injection H as <- <-; split; [done|by intros p [= <-]]|].
  apply effect_bind_inv in H as [(m1 & d1 & H2 & H)|(e & H2 & ->)]; (assert (d1 = d) as -> || assert (d' = d) as ->); [exact (eq_sym (f_equal snd H2))| |exact (eq_sym (f_equal snd H2))|by split].
  apply effect_bind_inv in H as [(m2 & d2 & H3 & H)|(e & H3 & ->)].
  2: { assert (d' = d) as -> by (destruct (ax_generic_enabled active); exact (eq_sym (f_equal snd H3))). by split. }
  assert (d2 = d) as -> by (destruct (ax_generic_enabled active); exact (eq_sym (f_equal snd H3))).
  apply effect_bind_inv in H as [(p & d3 & H4 & H)|(e & H4 & ->)]; apply prepare_files_sound in H4 as [S4 W4]; try done; try (by constructor).
  apply effect_bind_inv in H as [(g & d4 & H5 & H)|(e & H5 & ->)].
  - assert (d4 = d3) as -> by (destruct (ax_resolver_enabled active); exact (eq_sym (f_equal snd H5))). injection H as <- <-.
    split; [done|]. intros q [= <-]. by apply W4.
  - assert (d' = d3) as -> by (destruct (ax_resolver_enabled active); exact (eq_sym (f_equal snd H5))). by split.
Qed.

(** Statements outside the cache *)
Definition off_cache {E A} (m : tx sidecar E A) : Prop := ∀ d a d', m d = ROk (a, d') → sd_cache d' = sd_cache d.
Lemma off_cache_bind {E A B} (m : tx sidecar E A) (f : A → tx sidecar E B) : off_cache m → (∀ a, off_cache (f a)) → off_cache (m ≫= f).
Proof. intros Hm Hf d b d' H. apply tx_bind_ROk in H as (a & d1 & H1 & H2). apply Hm in H1. apply Hf in H2. congruence. Qed.
Lemma off_cache_each {A} (f : A → tx sidecar StoreError unit) l : (∀ a, off_cache (f a)) → off_cache (tx_each f l).
Proof. intros Hf. induction l as [|a l IH]; simpl; [by intros d u d' [= _ ->]|by apply off_cache_bind]. Qed.
Lemma insert_facts_off_cache now c : off_cache (insert_facts now c).
Proof.
  apply off_cache_bind; [intros d u d' H; unfold insert_snapshot in H; graph_inv; done|intros _].
  apply off_cache_bind; [|intros _; apply off_cache_bind; [|intros _]]; apply off_cache_each; intros a d u d' H.
  - unfold insert_file in H. graph_inv. done.
  - unfold insert_node in H. graph_inv. done.
  - unfold insert_edge in H. graph_inv. done.
Qed.
Lemma replace_snapshot_diagnostics_off_cache s l : off_cache (replace_snapshot_diagnostics s l).
Proof.
  apply off_cache_bind; [intros d u d' H; tx_inv; done|intros _]. apply off_cache_bind; [intros d u d' H; tx_inv; done|intros _].
  apply off_cache_bind; [|intros _ d u d' H; unfold set_diagnostic_set in H; graph_inv; done].
  apply off_cache_each. intros g d u d' H. unfold insert_diagnostic_row in H. graph_inv. done.
Qed.
Lemma complete_index_sound t c d r d' : Forall (λ w, extracted (cf_key w) (cf_fragment w)) (ic_cache_writes c) →
  complete_index t c d = ROk (r, d') → cache_sound d → cache_sound d'.
Proof.
  intros HW H S. unfold complete_index in H. apply tx_bind_ROk in H as (bl & d0 & Hl & H). apply found_ROk in Hl as [_ ->].
  apply tx_bind_ROk in H as (? & ? & Hs & H). apply require_ROk in Hs as [_ ->].
  apply tx_bind_ROk in H as (? & ? & Hv & H). apply lift_ROk in Hv as [_ ->].
  apply tx_bind_ROk in H as (? & ? & Hr & H). apply check_reuse_same in Hr as ->.
  apply tx_bind_ROk in H as (existing & ? & He & H). apply fetch_ROk in He as [_ ->].
  apply tx_bind_ROk in H as (r' & d1 & Hw & H). assert (sd_cache d1 = sd_cache d) as C1.
  { destruct existing; apply tx_bind_ROk in Hw as (? & d2 & H1 & Hw); injection Hw as <- <-; [by apply lift_ROk in H1 as [_ ->]|by apply insert_facts_off_cache in H1]. }
  apply tx_bind_ROk in H as (? & d2 & H1 & H). apply replace_snapshot_diagnostics_off_cache in H1 as C2.
  apply tx_bind_ROk in H as (? & d3 & H2 & H). apply tx_bind_ROk in H as (? & d4 & H3 & H). apply tx_bind_ROk in H as (? & d5 & H4 & H).
  assert (cache_sound d5) as S5.
  { assert (cache_sound d2) as S2 by (eapply cache_sound_sub; [|exact S]; by rewrite C2, C1).
    apply upsert_cached_fragments_sound in H2; [|done|done]. apply touch_cached_fragments_sound in H3; [|done].
    unfold upsert_metrics in H4. graph_inv. done. }
  tx_inv. done.
Qed.

End incremental.
