(* ===== verification/GraphQuery.v ===== *)
(** Queries over a snapshot: the contract of
    [src/src/repository_graph/query.rs] and its SQLite implementation,
    [src/src/repository_graph/query_sqlite.rs] with [query_sqlite/engine.rs],
    [query_sqlite/service.rs] and [query_sqlite/support.rs].

    A query reads one database; time enters where the code looks at the
    deadline: explicitly, or because a statement may be interrupted. *)
From S2P Require Import Prelude View Transact Wire Identity AgentData AgentWire Text GraphDomain GraphStore GraphIndexStore GraphMaintenance GraphIndex.
#[local] Open Scope list_scope.

(** ** Requests *)
Record QueryBudget := mk_query_budget {
  qb_max_results : Z;
  qb_max_bytes : Z;
  qb_max_depth : Z;
  qb_max_duration_ms : Z;
  qb_max_diagnostics : Z }.
(** The service's limits; those of snippets belong to another layer. *)
Record QueryLimitsConfig := mk_query_limits {
  ql_max_results : Z;
  ql_max_bytes : Z;
  ql_max_depth : Z;
  ql_max_duration_ms : Z;
  ql_max_diagnostics : Z }.
Inductive SnapshotSelector : Type := SelectPublished (name : PublishedViewName) | SelectSnapshot (id : SnapshotId).
Record QueryScope := mk_scope {
  qs_wire_version : Z;
  qs_repository : RepositoryRef;
  qs_snapshot : SnapshotSelector;
  qs_budget : QueryBudget }.
Abbreviation PageCursor := opaque_id (only parsing).
Record SearchRequest := mk_search_request {
  sq_scope : QueryScope;
  sq_text : string;
  sq_node_kinds : list string;
  sq_paths : list RepoPath;
  sq_cursor : option PageCursor }.
Inductive ShowLookup : Type := LookupNode (id : NodeId) | LookupSymbol (key : SemanticKey) | LookupPath (path : RepoPath).
Record ShowRequest := mk_show_request { wq_scope : QueryScope; wq_lookup : ShowLookup; wq_cursor : option PageCursor }.
Inductive EdgeDirection : Type := Outgoing | Incoming | BothWays.
#[global] Instance EdgeDirection_eq_dec : EqDecision EdgeDirection.
Proof. solve_decision. Defined.
Record NeighborhoodRequest := mk_neighborhood_request {
  nq_scope : QueryScope;
  nq_roots : list NodeId;
  nq_direction : EdgeDirection;
  nq_edge_kinds : list string;
  nq_cursor : option PageCursor }.
Inductive ContextSeed : Type := SeedNode (id : NodeId) | SeedSymbol (key : SemanticKey) | SeedPath (path : RepoPath).
Record ContextPolicy := mk_policy {
  cp_direction : EdgeDirection;
  cp_edge_kinds : list string;
  cp_include_unresolved : bool;
  cp_include_external : bool }.
Record ContextRequest := mk_context_request {
  cq_scope : QueryScope;
  cq_seeds : list ContextSeed;
  cq_policy : ContextPolicy;
  cq_cursor : option PageCursor }.

(** ** Responses *)
Definition QUERY_WIRE_VERSION : Z := 4.
Inductive TruncationReason : Type := TResults | TBytes | TDepth | TDuration | TCapability.
#[global] Instance TruncationReason_eq_dec : EqDecision TruncationReason.
Proof. solve_decision. Defined.
Record Truncation := mk_truncation { tr_reason : TruncationReason; tr_returned_results : Z; tr_returned_bytes : Z; tr_explored_depth : Z }.
Record PageInfo := mk_page { pg_next_cursor : option PageCursor; pg_truncation : option Truncation }.
Record FreshnessEnvelope := mk_freshness {
  fe_freshness : Freshness;
  fe_compared_manifest : option Digest;
  fe_reason_codes : list string }.
Record SourceRevisionEnvelope := mk_source_revision { se_id : SourceRevisionId; se_manifest_digest : Digest }.
Inductive RetrievalAction : Type := ActIndex | ActWaitForBuild | ActRetryIndex | ActRefreshIndex | ActRebuild.
Record QueryDiagnostic := mk_query_diagnostic {
  qd_severity : DiagnosticSeverity;
  qd_code : DiagnosticCode;
  qd_location : option DiagnosticLocation }.
Record DiagnosticSummary := mk_summary { ds_info : Z; ds_warning : Z; ds_error : Z }.
Record DiagnosticsEnvelope := mk_diagnostics { de_summary : DiagnosticSummary; de_items : list QueryDiagnostic; de_truncated : bool }.
(** The wire version is [QUERY_WIRE_VERSION] and there is no task view. *)
Record QueryResponse (T : Type) := mk_response {
  qr_repository : RepositoryRef;
  qr_snapshot_id : SnapshotId;
  qr_source_revision : SourceRevisionEnvelope;
  qr_freshness : FreshnessEnvelope;
  qr_diagnostics : DiagnosticsEnvelope;
  qr_page : PageInfo;
  qr_data : T }.
Arguments mk_response {T}.
Arguments qr_page {T}.
Arguments qr_data {T}.
Arguments qr_snapshot_id {T}.
Record SnapshotStatistics := mk_statistics { ss_files : Z; ss_nodes : Z; ss_edges : Z }.
Inductive Availability : Type := AvNotBuilt | AvAvailable | AvIncompatible.
(** A task view, its status and the fallback are filled in by the task views'
    own queries; a snapshot's status leaves them out. *)
Record StatusData := mk_status_data {
  st_availability : Availability;
  st_build_state : option BuildState;
  st_build_id : option BuildId;
  st_published_view : option PublishedViewName;
  st_graph_model_version : option Z;
  st_statistics : option SnapshotStatistics;
  st_recommended_action : option RetrievalAction }.
Record StatusResponse := mk_status {
  sx_repository : RepositoryRef;
  sx_snapshot_id : option SnapshotId;
  sx_source_revision : option SourceRevisionEnvelope;
  sx_freshness : FreshnessEnvelope;
  sx_diagnostics : DiagnosticsEnvelope;
  sx_page : PageInfo;
  sx_data : StatusData }.
Inductive SearchMatchKind : Type :=
  | ExactSemanticKey | ExactPath | ExactNormalizedName | NormalizedNamePrefix | NormalizedNameContains | SemanticKeyContains | PathContains.
Record SearchHit := mk_hit {
  sh_node_id : NodeId;
  sh_kind : string;
  sh_semantic_key : option SemanticKey;
  sh_path : option RepoPath;
  sh_span : option SourceSpan;
  sh_provenance : FactProvenance;
  sh_match_kind : SearchMatchKind;
  sh_score : f64;
  sh_matched_fields : list string }.
Record NeighborhoodNode := mk_neighborhood_node {
  nn_id : NodeId;
  nn_kind : string;
  nn_semantic_key : option SemanticKey;
  nn_path : option RepoPath;
  nn_span : option SourceSpan;
  nn_provenance : FactProvenance }.
Record NeighborhoodEdge := mk_neighborhood_edge {
  ne_id : EdgeId;
  ne_kind : string;
  ne_source : NodeId;
  ne_target : EdgeTarget;
  ne_provenance : FactProvenance }.
Inductive ContextSelectionKind : Type :=
  | ExactSeed | Containment | Declaration | ResolvedDependency | Documentation | Configuration | Relationship.
#[global] Instance ContextSelectionKind_eq_dec : EqDecision ContextSelectionKind.
Proof. solve_decision. Defined.
Record ContextSelectionReason := mk_reason {
  cr_kind : ContextSelectionKind;
  cr_via_node : option NodeId;
  cr_via_edge : option EdgeId }.
#[global] Instance ContextSelectionReason_eq_dec : EqDecision ContextSelectionReason.
Proof. solve_decision. Defined.
Record ContextItem := mk_item {
  ci_node_id : NodeId;
  ci_kind : string;
  ci_semantic_key : option SemanticKey;
  ci_path : RepoPath;
  ci_span : option SourceSpan;
  ci_content_identity : Digest;
  ci_provenance : FactProvenance;
  ci_selection_reasons : list ContextSelectionReason }.

(** ** Errors: the version and the empty details are the same in all *)
Inductive QueryErrorCode : Type :=
  | UnsupportedWireVersion | InvalidRequest | NotBuilt | IndexBuilding | IndexFailed | Incompatible | QuerySnapshotNotFound | StaleCursor
  | BudgetExceeded | BackendUnavailable | ContentChanged | ContentUnavailable.
#[global] Instance QueryErrorCode_eq_dec : EqDecision QueryErrorCode.
Proof. solve_decision. Defined.
Record QueryError := mk_query_error {
  qe_code : QueryErrorCode;
  qe_message : string;
  qe_retryable : bool;
  qe_recommended_action : option RetrievalAction }.
Definition invalid_request (message : string) : QueryError := mk_query_error InvalidRequest message false None.
Definition backend_error : QueryError :=
  mk_query_error BackendUnavailable "repository graph storage is unavailable or inconsistent" true None.
Definition not_built_error : QueryError :=
  mk_query_error NotBuilt "repository graph is not built; run `ferrus graph index`" false (Some ActIndex).
Definition index_building_error : QueryError :=
  mk_query_error IndexBuilding "repository graph is currently building; retry after indexing completes" true (Some ActWaitForBuild).
Definition index_failed_error : QueryError :=
  mk_query_error IndexFailed "repository graph build failed; run `ferrus graph index` to retry" false (Some ActRetryIndex).
Definition snapshot_not_found_error : QueryError := mk_query_error QuerySnapshotNotFound "repository graph snapshot was not found" false None.
Definition stale_cursor_error : QueryError :=
  mk_query_error StaleCursor "repository graph cursor does not match this query snapshot or parameters" false None.
Definition store_query_error (e : StoreError) : QueryError := backend_error.

(** ** Budgets and validation *)
Record EffectiveBudget := mk_effective {
  eb_max_results : Z;
  eb_max_bytes : Z;
  eb_max_depth : Z;
  eb_max_duration_ms : Z;
  eb_max_diagnostics : Z }.
(** [EffectiveBudget::new] *)
Definition effective_budget (requested : QueryBudget) (service : QueryLimitsConfig) : res QueryError EffectiveBudget :=
  if (ql_max_results service =? 0) || (ql_max_bytes service =? 0) || (ql_max_depth service =? 0)
     || (ql_max_duration_ms service =? 0) || (ql_max_diagnostics service =? 0)
  then RErr (mk_query_error BackendUnavailable "repository graph query limits are invalid" false None)
  else ROk (mk_effective (Z.min (qb_max_results requested) (ql_max_results service)) (Z.min (qb_max_bytes requested) (ql_max_bytes service))
              (Z.min (qb_max_depth requested) (ql_max_depth service)) (Z.min (qb_max_duration_ms requested) (ql_max_duration_ms service))
              (Z.min (qb_max_diagnostics requested) (ql_max_diagnostics service))).
Definition validate_wire_version (version : Z) : res QueryError unit :=
  rcheck (version =? QUERY_WIRE_VERSION)
    (mk_query_error UnsupportedWireVersion "repository graph query wire version is unsupported" false None).
Definition MAX_FILTERS : nat := 32.
Definition MAX_QUERY_TEXT_BYTES : nat := 512.
Definition MAX_CONTEXT_CANDIDATES : nat := 4096.
Definition validate_filters (filters : list string) (path_count : nat) : res QueryError unit :=
  rcheck (negb (Nat.ltb MAX_FILTERS (length filters) || Nat.ltb MAX_FILTERS path_count
                || existsb (λ f, is_empty f || Nat.ltb 128 (String.length f)) filters))
    (invalid_request "query filters must contain at most 32 non-empty values of at most 128 bytes").
Definition validate_search_request (q : SearchRequest) : res QueryError unit :=
  _ ← validate_filters (sq_node_kinds q) (length (sq_paths q));
  let text := trim (sq_text q) in
  rcheck (negb (is_empty text || Nat.ltb MAX_QUERY_TEXT_BYTES (String.length text)))
    (invalid_request "search text must contain 1..=512 bytes").
Definition saturating_inc_u32 (n : Z) : Z := Z.min (u32_modulus - 1) (n + 1).

(** ** Freshness *)
Record FreshnessComparison := mk_comparison {
  fc_source_manifest_digest : Digest;
  fc_analysis_config_digest : Digest;
  fc_extractor_set_digest : Digest }.
Definition comparison_from_manifest (m : SourceManifest) : FreshnessComparison :=
  mk_comparison (rv_manifest_digest (mf_revision m)) (rv_analysis_config_digest (mf_revision m)) (mf_extractor_set_digest m).
Definition freshness (expected : GraphSnapshot) (actual : option FreshnessComparison) : FreshnessEnvelope :=
  match actual with
  | Some actual =>
    let codes := (if decide (fc_source_manifest_digest actual = gs_source_manifest_digest expected) then [] else ["source_manifest_changed"])
      ++ (if decide (fc_analysis_config_digest actual = gs_analysis_config_digest expected) then [] else ["analysis_config_changed"])
      ++ (if decide (fc_extractor_set_digest actual = gs_extractor_set_digest expected) then [] else ["extractor_set_changed"]) in
    mk_freshness (match codes with [] => Fresh | _ => StaleView end) (Some (fc_source_manifest_digest actual)) codes
  | None => mk_freshness UnknownFreshness None ["source_not_compared"]
  end.
Definition source_revision (s : GraphSnapshot) (id : SourceRevisionId) : SourceRevisionEnvelope :=
  mk_source_revision id (gs_source_manifest_digest s).

(** ** Scopes *)
Record ResolvedScope := mk_resolved {
  rs_repository : RepositoryRef;
  rs_snapshot : GraphSnapshot;
  rs_published_view : option PublishedViewName;
  rs_source_revision_id : SourceRevisionId;
  rs_freshness : FreshnessEnvelope;
  rs_budget : EffectiveBudget }.
Definition latest_build (d : sidecar) (r : RepositoryRef) : res QueryError (option GraphBuild) :=
  match order_by (lex (on_key (br_started_at ∘ snd) (desc String.compare)) (on_key fst (desc String.compare)))
          (map_to_list (filter (λ kv, of_repository (repo_key r) kv.2 = true) (sd_builds d))) with
  | [] => ROk None
  | (key, _) :: _ => id ← ok_or backend_error (as_id key); map_err store_query_error (load_build d id)
  end.
Definition unpublished_index_error (d : sidecar) (r : RepositoryRef) : QueryError :=
  match latest_build d r with
  | ROk (Some b) =>
    match gb_state b with BBuilding => index_building_error | BFailed => index_failed_error | _ => not_built_error end
  | _ => not_built_error
  end.
(** [SqliteGraphQuery] *)
Record SqliteGraphQuery := mk_graph_query {
  sg_sidecar : sidecar;
  sg_limits : QueryLimitsConfig;
  sg_comparison : option FreshnessComparison }.
Definition resolve_scope (g : SqliteGraphQuery) (scope : QueryScope) : res QueryError ResolvedScope :=
  let d := sg_sidecar g in
  _ ← validate_wire_version (qs_wire_version scope);
  budget ← effective_budget (qs_budget scope) (sg_limits g);
  found ← match qs_snapshot scope with
          | SelectPublished name =>
            view ← map_err store_query_error (load_published_view d (qs_repository scope) name);
            view ← ok_or (unpublished_index_error d (qs_repository scope)) view;
            snapshot ← map_err store_query_error (load_snapshot d (vw_snapshot_id view));
            snapshot ← ok_or backend_error snapshot;
            b ← map_err store_query_error (load_build d (vw_build_id view));
            b ← ok_or backend_error b;
            ROk (snapshot, Some name, gb_source_revision_id b)
          | SelectSnapshot id =>
            snapshot ← map_err store_query_error (load_snapshot d id);
            snapshot ← ok_or snapshot_not_found_error snapshot;
            ROk (snapshot, None, gs_source_revision_id snapshot)
          end;
  let '(snapshot, name, revision) := found in
  _ ← rcheck (bool_decide (gs_repository snapshot = qs_repository scope)) snapshot_not_found_error;
  ROk (mk_resolved (qs_repository scope) snapshot name revision (freshness snapshot (sg_comparison g)) budget).

(** ** Cursors *)
Definition nul : string := String "000"%char "".
Definition code_of (c : ascii) : Z := Z.of_N (N_of_ascii c).
(** [hex] of the bytes of a string *)
Fixpoint hex (s : string) : string :=
  match s with "" => "" | String c s => hex_byte (code_of c) +:+ hex s end.
Definition nibble (c : ascii) : option Z :=
  let z := code_of c in
  if (48 <=? z) && (z <=? 57) then Some (z - 48) else if (97 <=? z) && (z <=? 102) then Some (z - 97 + 10) else None.
(** A last odd byte is left out. *)
Fixpoint unhex (s : string) : option string :=
  match s with
  | String a (String b s) =>
    x ← nibble a; y ← nibble b; rest ← unhex s; Some (String (ascii_of_N (Z.to_N (Z.lor (Z.shiftl x 4) y))) rest)
  | _ => Some ""
  end.
Record CursorPayload := mk_cursor {
  cu_version : Z;
  cu_operation : string;
  cu_snapshot_id : SnapshotId;
  cu_query_fingerprint : string;
  cu_offset : Z }.
Definition ser_cursor (c : CursorPayload) : json :=
  JObj [("version", ser_int (cu_version c)); ("operation", ser_string (cu_operation c)); ("snapshot_id", ser_opaque_id (cu_snapshot_id c));
        ("query_fingerprint", ser_string (cu_query_fingerprint c)); ("offset", ser_int (cu_offset c))].
Definition de_cursor (j : json) : option CursorPayload :=
  fs ← open_struct ["version"; "operation"; "snapshot_id"; "query_fingerprint"; "offset"] j;
  v ← req de_u32 "version" fs; o ← req de_string "operation" fs; s ← req de_opaque_id "snapshot_id" fs;
  f ← req de_string "query_fingerprint" fs; n ← req de_u64 "offset" fs;
  Some (mk_cursor v o s f n).
Definition CURSOR_VERSION : Z := 2.

Section cursors.
Context {JT : JsonText} {SH : Sha256} {LC : Lowercase}.
Definition encode_cursor (operation : string) (snapshot : SnapshotId) (fingerprint : string) (offset : Z) : res QueryError PageCursor :=
  ok_or backend_error
    (as_id ("cursor:" +:+ hex (json_text (ser_cursor (mk_cursor CURSOR_VERSION operation snapshot fingerprint offset))))).
Definition decode_cursor (cursor : option PageCursor) (operation : string) (snapshot : SnapshotId) (fingerprint : string) : res QueryError Z :=
  match cursor with
  | None => ROk 0
  | Some cursor =>
    encoded ← ok_or stale_cursor_error (strip_prefix "cursor:" (id_as_str cursor));
    _ ← rcheck (negb (Nat.ltb 4096 (String.length encoded) || Nat.odd (String.length encoded))) stale_cursor_error;
    bytes ← ok_or stale_cursor_error (unhex encoded);
    payload ← ok_or stale_cursor_error (json_parse bytes ≫= de_cursor);
    _ ← rcheck ((cu_version payload =? CURSOR_VERSION) && String.eqb (cu_operation payload) operation
                && bool_decide (cu_snapshot_id payload = snapshot) && String.eqb (cu_query_fingerprint payload) fingerprint)
          stale_cursor_error;
    ROk (cu_offset payload)
  end.
Definition cursor_fingerprint (operation : string) (parameters : json) : string :=
  hex_bytes (sha256 ("ferrus.repository-graph.cursor-parameters.v1" +:+ nul +:+ operation +:+ nul +:+ json_text parameters)).
(** [sort_unstable] and [dedup] *)
Definition sorted_set (l : list string) : list string := dedup (order_by String.compare l).
Definition search_cursor_fingerprint (q : SearchRequest) : string :=
  cursor_fingerprint "search"
    (JObj [("text", ser_string (to_lowercase (trim (sq_text q)))); ("node_kinds", ser_list ser_string (sorted_set (sq_node_kinds q)));
           ("paths", ser_list ser_string (sorted_set (path_str <$> sq_paths q)))]).
Definition ser_lookup (l : ShowLookup) : json :=
  match l with
  | LookupNode i => tagged "node" (ser_opaque_id i)
  | LookupSymbol k => tagged "symbol" (ser_opaque_id k)
  | LookupPath p => tagged "path" (ser_path p)
  end.
Definition show_cursor_fingerprint (q : ShowRequest) : string := cursor_fingerprint "show" (ser_lookup (wq_lookup q)).
Definition ser_seed (s : ContextSeed) : json :=
  match s with
  | SeedNode i => tagged "node" (ser_opaque_id i)
  | SeedSymbol k => tagged "symbol" (ser_opaque_id k)
  | SeedPath p => tagged "path" (ser_path p)
  end.
Definition context_seed_key (s : ContextSeed) : string := json_text (ser_seed s).
Definition direction_name (d : EdgeDirection) : string :=
  match d with Outgoing => "outgoing" | Incoming => "incoming" | BothWays => "both" end.
Definition context_cursor_fingerprint (q : ContextRequest) (max_depth : Z) : string :=
  let p := cq_policy q in
  cursor_fingerprint "context"
    (JObj [("seeds", ser_list ser_string (sorted_set (context_seed_key <$> cq_seeds q))); ("max_depth", ser_int max_depth);
           ("direction", ser_string (direction_name (cp_direction p))); ("edge_kinds", ser_list ser_string (sorted_set (cp_edge_kinds p)));
           ("include_unresolved", ser_bool (cp_include_unresolved p)); ("include_external", ser_bool (cp_include_external p))]).
Definition page_info (reason : option TruncationReason) (results : nat) (bytes depth : Z) (cursor : option (string * SnapshotId * string * Z)) :
  res QueryError PageInfo :=
  let truncation := (λ reason, mk_truncation reason (Z.min (u32_modulus - 1) (Z.of_nat results)) bytes depth) <$> reason in
  next ← match truncation, cursor, results with
         | Some _, Some (operation, snapshot, fingerprint, offset), S _ => Some <$> encode_cursor operation snapshot fingerprint offset
         | _, _, _ => ROk None
         end;
  ROk (mk_page next truncation).
End cursors.

(** ** Patterns: SQLite's [LIKE ... ESCAPE '\'], which folds ASCII case *)
Definition percent : ascii := "%"%char.
Definition underscore : ascii := "_"%char.
Definition same_folded (a b : ascii) : bool := Ascii.eqb (ascii_lower a) (ascii_lower b).
(** The bytes that continue a character *)
Definition continuation (c : ascii) : bool := (128 <=? code_of c) && (code_of c <? 192).
Fixpoint skip_continuation (s : string) : string :=
  match s with String c s' => if continuation c then skip_continuation s' else s | "" => "" end.
Fixpoint like (p : string) : string → bool :=
  match p with
  | "" => is_empty
  | String c p' =>
    if Ascii.eqb c percent
    then fix any (s : string) := like p' s || match s with "" => false | String _ s => any s end
    else if Ascii.eqb c underscore
    then λ s, match s with "" => false | String _ s => like p' (skip_continuation s) end
    else if Ascii.eqb c backslash
    then match p' with
         | "" => λ _, false
         | String c' p'' => λ s, match s with "" => false | String a s => same_folded a c' && like p'' s end
         end
    else λ s, match s with "" => false | String a s => same_folded a c && like p' s end
  end.
Definition escape_like (v : string) : string :=
  (fix go (s : string) := match s with
     | "" => ""
     | String c s =>
       if Ascii.eqb c backslash || Ascii.eqb c percent || Ascii.eqb c underscore then String backslash (String c (go s)) else String c (go s)
     end) v.
(** SQLite's [lower()] *)
Definition sql_lower (s : string) : string := String.string_of_list_ascii (ascii_lower <$> String.list_ascii_of_string s).

(** ** Rows of a snapshot *)
Definition snapshot_nodes (d : sidecar) (s : SnapshotId) : list ((string * string) * node_row) := map_to_list (rows_of (sd_nodes d) (id_as_str s)).
Definition snapshot_edges (d : sidecar) (s : SnapshotId) : list ((string * string) * edge_row) := map_to_list (rows_of (sd_edges d) (id_as_str s)).
(** [LIMIT limit OFFSET offset] *)
Definition limited {A} (limit offset : Z) (l : list A) : list A := take (Z.to_nat limit) (drop (Z.to_nat offset) l).

(** ** Time: the answers to the looks at the deadline, in order *)
Class Deadline := late : nat → bool.
Abbreviation asking A := (tx nat QueryError A) (only parsing).
Section time.
Context {DL : Deadline}.
Definition look : asking bool := λ i, ROk (late i, S i).
(** A statement under the progress handler: [None] when it was interrupted *)
Definition statement {A} (r : res QueryError A) : asking (option A) := λ i,
  if late i then ROk (None, S i) else match r with ROk a => ROk (Some a, S i) | RErr e => RErr e end.
End time.

Section reading.
Context {FT : FloatText} {JT : JsonText}.
Definition read_node (kv : (string * string) * node_row) : res QueryError GraphNode := ok_or backend_error (decode_node kv.1 kv.2).
Definition read_edge (kv : (string * string) * edge_row) : res QueryError GraphEdge := ok_or backend_error (decode_edge kv.1 kv.2).
(** [node] *)
Definition node_by_id (d : sidecar) (s : SnapshotId) (id : NodeId) : res QueryError (option GraphNode) :=
  let key := (id_as_str s, id_as_str id) in
  match sd_nodes d !! key with None => ROk None | Some row => Some <$> read_node (key, row) end.
Definition kind_allowed (kinds : list string) (kind : string) : bool := bool_decide (kinds = []) || bool_decide (kind ∈ kinds).
Definition edge_touches (direction : EdgeDirection) (node : string) (r : edge_row) : bool :=
  let source := String.eqb (er_source_node_id r) node in
  let target := bool_decide (er_target_node_id r = Some node) in
  match direction with Outgoing => source | Incoming => target | BothWays => source || target end.
(** [edges] *)
Definition edges_of (d : sidecar) (s : SnapshotId) (node : NodeId) (direction : EdgeDirection) (kinds : list string) (excluded : gset EdgeId)
  (limit : Z) : res QueryError (list GraphEdge) :=
  rmapM read_edge
    (limited (saturating_inc_u32 limit) 0
       (order_by (on_key (λ kv, kv.1.2) String.compare)
          (filter (λ kv, edge_touches direction (id_as_str node) kv.2 && kind_allowed kinds (er_kind kv.2)
                         && negb (bool_decide (kv.1.2 ∈ id_as_str <$> elements excluded)) = true) (snapshot_edges d s)))).
Definition adjacent_node (e : GraphEdge) (current : NodeId) (direction : EdgeDirection) : option NodeId :=
  match ge_target e with
  | TargetNode target =>
    match direction with
    | Outgoing => if decide (ge_source e = current) then Some target else None
    | Incoming => if decide (target = current) then Some (ge_source e) else None
    | BothWays => if decide (ge_source e = current) then Some target
                  else if decide (target = current) then Some (ge_source e) else None
    end
  | _ => None
  end.

(** ** Diagnostics and statistics *)
Definition diagnostic_rows (d : sidecar) (s : SnapshotId) : list (Z * diagnostic_row) :=
  map_to_list (filter (λ kv, gr_snapshot_id kv.2 = Some (id_as_str s) ∧ sd_diagnostic_sets d !! id_as_str s = Some (gr_build_id kv.2))
                 (sd_diagnostics d)).
Definition severity_count (severity : string) (l : list (Z * diagnostic_row)) : Z :=
  Z.of_nat (length (filter (λ kv, gr_severity kv.2 = severity) l)).
Definition severity_rank (severity : string) : Z :=
  if String.eqb severity "error" then 0 else if String.eqb severity "warning" then 1 else 2.
Definition query_diagnostic (r : diagnostic_row) : res QueryError QueryDiagnostic :=
  severity ← ok_or backend_error (named severity_name severities (gr_severity r));
  code ← ok_or backend_error (diagnostic_code_new (gr_code r));
  span ← ok_or backend_error (decode_span (gr_span r));
  location ← match gr_path r, span with
             | Some path, span => p ← ok_or backend_error (as_path path); ROk (Some (mk_location p span))
             | None, None => ROk None
             | None, Some _ => RErr backend_error
             end;
  ROk (mk_query_diagnostic severity code location).
Definition diagnostics (d : sidecar) (s : SnapshotId) (max_diagnostics : Z) : res QueryError DiagnosticsEnvelope :=
  let rows := diagnostic_rows d s in
  items ← rmapM (λ kv, query_diagnostic kv.2)
    (limited (saturating_inc_u32 max_diagnostics) 0
       (order_by (lex (on_key (λ kv, severity_rank (gr_severity kv.2)) Z.compare)
                   (lex (on_key (λ kv, gr_code kv.2) String.compare)
                     (lex (on_key (λ kv, default "" (gr_path kv.2)) String.compare)
                       (lex (on_key (λ kv, default (-1) (sc_start_byte (gr_span kv.2))) Z.compare) (on_key fst Z.compare))))) rows));
  ROk (mk_diagnostics (mk_summary (severity_count "info" rows) (severity_count "warning" rows) (severity_count "error" rows))
         (take (Z.to_nat max_diagnostics) items) (max_diagnostics <? Z.of_nat (length items))).
Definition truncated_diagnostics : DiagnosticsEnvelope := mk_diagnostics (mk_summary 0 0 0) [] true.
Definition no_diagnostics : DiagnosticsEnvelope := mk_diagnostics (mk_summary 0 0 0) [] false.
Definition statistics (d : sidecar) (s : SnapshotId) : SnapshotStatistics :=
  let sid := id_as_str s in
  mk_statistics (row_count (sd_files d) sid) (row_count (sd_nodes d) sid) (row_count (sd_edges d) sid).
Definition diagnostics_with_deadline `{!Deadline} (d : sidecar) (scope : ResolvedScope) : asking (DiagnosticsEnvelope * bool) :=
  expired ← look;
  if (expired : bool) then mret (truncated_diagnostics, true)
  else
    found ← statement (diagnostics d (gs_id (rs_snapshot scope)) (eb_max_diagnostics (rs_budget scope)));
    match found with
    | Some found => expired ← look; mret (found, expired)
    | None => mret (truncated_diagnostics, true)
    end.

(** ** Status *)
Definition status_action (b : option GraphBuild) (f : Freshness) : option RetrievalAction :=
  match gb_state <$> b with
  | Some BBuilding => Some ActWaitForBuild
  | Some BFailed => Some ActRetryIndex
  | _ => if decide (f = StaleView) then Some ActRefreshIndex else None
  end.
Definition available_status_response (scope : ResolvedScope) (latest : option GraphBuild) (found : DiagnosticsEnvelope)
  (stats : option SnapshotStatistics) (duration_truncated : bool) : StatusResponse :=
  mk_status (rs_repository scope) (Some (gs_id (rs_snapshot scope)))
    (Some (source_revision (rs_snapshot scope) (rs_source_revision_id scope))) (rs_freshness scope) found
    (mk_page None (if duration_truncated then Some (mk_truncation TDuration 0 0 0) else None))
    (mk_status_data AvAvailable (gb_state <$> latest) (gb_id <$> latest) (rs_published_view scope)
       (Some (gs_graph_model_version (rs_snapshot scope))) stats (status_action latest (fe_freshness (rs_freshness scope)))).
Definition not_built_status `{!Sha256, !Deadline} (g : SqliteGraphQuery) (scope : QueryScope) (name : PublishedViewName) (e : QueryError) :
  asking StatusResponse :=
  latest ← lift (latest_build (sg_sidecar g) (qs_repository scope));
  expired ← look;
  expired' ← look;
  page ← lift (page_info (if (expired' : bool) then Some TDuration else None) 0 0 0 None);
  mret (mk_status (qs_repository scope) None None
          (mk_freshness NotApplicable (fc_source_manifest_digest <$> sg_comparison g) ["not_built"])
          (if (expired : bool) then truncated_diagnostics else no_diagnostics) page
          (mk_status_data AvNotBuilt (gb_state <$> latest) (gb_id <$> latest) (Some name) None None
             (Some (match qe_code e with IndexBuilding => ActWaitForBuild | IndexFailed => ActRetryIndex | _ => ActIndex end)))).
Definition status_at `{!Sha256, !Deadline} (g : SqliteGraphQuery) (scope : QueryScope) : asking StatusResponse :=
  let d := sg_sidecar g in
  _ ← lift (validate_wire_version (qs_wire_version scope));
  _ ← lift (effective_budget (qs_budget scope) (sg_limits g));
  match resolve_scope g scope with
  | RErr e =>
    match qs_snapshot scope, qe_code e with
    | SelectPublished name, (NotBuilt | IndexBuilding | IndexFailed) => not_built_status g scope name e
    | _, _ => abort e
    end
  | ROk resolved =>
    expired ← look;
    if (expired : bool) then mret (available_status_response resolved None truncated_diagnostics None true)
    else
      latest ← statement (latest_build d (rs_repository resolved));
      match latest with
      | None => mret (available_status_response resolved None truncated_diagnostics None true)
      | Some latest =>
        found ← statement (diagnostics d (gs_id (rs_snapshot resolved)) (eb_max_diagnostics (rs_budget resolved)));
        match found with
        | None => mret (available_status_response resolved latest truncated_diagnostics None true)
        | Some found =>
          stats ← statement (ROk (statistics d (gs_id (rs_snapshot resolved))));
          match stats with
          | None => mret (available_status_response resolved latest found None true)
          | Some stats => expired ← look; mret (available_status_response resolved latest found (Some stats) expired)
          end
        end
      end
  end.
End reading.

(** ** Pages *)
Section pages.
Context {FT : FloatText} {JT : JsonText} {SH : Sha256} {LC : Lowercase} {DL : Deadline}.
Definition serialized_len (j : json) : Z := Z.of_nat (String.length (json_text j)).
(** The loop that fills a page: the items, their bytes, why it stopped, and the
    rows it has not looked at. *)
Fixpoint fill_page {A B} (render : A → B) (ser : B → json) (b : EffectiveBudget) (items : list B) (bytes : Z) (rows : list A) :
  asking (list B * Z * option TruncationReason * list A) :=
  match rows with
  | [] => mret (items, bytes, None, [])
  | row :: rows =>
    if eb_max_results b <=? Z.of_nat (length items) then mret (items, bytes, Some TResults, rows)
    else
      expired ← look;
      if (expired : bool) then mret (items, bytes, Some TDuration, rows)
      else
        let item := render row in
        let n := serialized_len (ser item) in
        if eb_max_bytes b <? saturating_add bytes n then mret (items, bytes, Some TBytes, rows)
        else fill_page render ser b (items ++ [item]) (saturating_add bytes n) rows
  end.
Definition respond {T} (scope : ResolvedScope) (found : DiagnosticsEnvelope) (page : PageInfo) (data : T) : QueryResponse T :=
  mk_response (rs_repository scope) (gs_id (rs_snapshot scope)) (source_revision (rs_snapshot scope) (rs_source_revision_id scope))
    (rs_freshness scope) found page data.

(** ** Search *)
Definition match_name (k : SearchMatchKind) : string :=
  match k with
  | ExactSemanticKey => "exact_semantic_key" | ExactPath => "exact_path" | ExactNormalizedName => "exact_normalized_name"
  | NormalizedNamePrefix => "normalized_name_prefix" | NormalizedNameContains => "normalized_name_contains"
  | SemanticKeyContains => "semantic_key_contains" | PathContains => "path_contains"
  end.
(** [score], by its bits: 1.0, 0.99, 0.98, 0.9, 0.8, 0.7, 0.6 *)
Definition score (k : SearchMatchKind) : f64 :=
  match k with
  | ExactSemanticKey => 4607182418800017408 | ExactPath => 4607092346807469998 | ExactNormalizedName => 4607002274814922588
  | NormalizedNamePrefix => 4606281698874543309 | NormalizedNameContains => 4605380978949069210
  | SemanticKeyContains => 4604480259023595110 | PathContains => 4603579539098121011
  end.
Definition search_match_kind (rank : Z) : res QueryError SearchMatchKind :=
  ok_or backend_error ([ExactSemanticKey; ExactPath; ExactNormalizedName; NormalizedNamePrefix; NormalizedNameContains; SemanticKeyContains;
                        PathContains] !! Z.to_nat rank).
Definition ser_hit (h : SearchHit) : json :=
  JObj [("node_id", ser_opaque_id (sh_node_id h)); ("kind", ser_string (sh_kind h)); ("semantic_key", ser_option ser_opaque_id (sh_semantic_key h));
        ("path", ser_option ser_path (sh_path h)); ("span", ser_option ser_span (sh_span h)); ("provenance", ser_provenance (sh_provenance h));
        ("match_kind", ser_string (match_name (sh_match_kind h))); ("score", float_json (sh_score h));
        ("matched_fields", ser_list ser_string (sh_matched_fields h))].
Definition evidence_path (n : GraphNode) : option RepoPath := ev_path <$> fp_evidence (gn_provenance n).
Definition evidence_span (n : GraphNode) : option SourceSpan := fp_evidence (gn_provenance n) ≫= ev_span.
Definition search_hit (query : string) (found : GraphNode * SearchMatchKind) : SearchHit :=
  let '(n, kind) := found in
  let matches (o : option string) := match o with Some s => contains (to_lowercase query) (to_lowercase s) | None => false end in
  let fields := (if matches (gn_properties n !! "name" ≫= graph_string) then ["name"] else [])
    ++ (if matches (id_as_str <$> gn_semantic_key n) then ["semantic_key"] else [])
    ++ (if matches (path_str <$> evidence_path n) then ["path"] else []) in
  mk_hit (gn_id n) (gn_kind n) (gn_semantic_key n) (evidence_path n) (evidence_span n) (gn_provenance n) kind (score kind) fields.
Definition row_key (r : node_row) : string := sql_lower (default "" (nr_semantic_key r)).
Definition row_path (r : node_row) : string := sql_lower (default "" (fc_evidence_path (nr_fact r))).
Definition match_rank (normalized : string) (r : node_row) : Z :=
  let prefix := escape_like normalized +:+ "%" in
  let inside := "%" +:+ escape_like normalized +:+ "%" in
  if String.eqb (row_key r) normalized then 0
  else if String.eqb (row_path r) normalized then 1
  else if String.eqb (nr_normalized_name r) normalized then 2
  else if like prefix (nr_normalized_name r) then 3
  else if like inside (nr_normalized_name r) then 4
  else if like inside (row_key r) then 5
  else 6.
Definition path_allowed (paths : list RepoPath) (path : option string) : bool :=
  bool_decide (paths = [])
  || existsb (λ p, match path with
                   | Some path => String.eqb path (path_str p) || like (escape_like (path_str p) +:+ "/%") path
                   | None => false
                   end) paths.
Definition row_matches (q : SearchRequest) (normalized : string) (r : node_row) : bool :=
  let prefix := escape_like normalized +:+ "%" in
  let inside := "%" +:+ escape_like normalized +:+ "%" in
  (String.eqb (nr_normalized_name r) normalized || like prefix (nr_normalized_name r) || like inside (nr_normalized_name r)
   || like inside (row_key r) || like inside (row_path r))
  && kind_allowed (sq_node_kinds q) (nr_kind r) && path_allowed (sq_paths q) (fc_evidence_path (nr_fact r)).
Definition ranked_rows (d : sidecar) (s : SnapshotId) (q : SearchRequest) : list ((string * string) * node_row) :=
  let normalized := to_lowercase (trim (sq_text q)) in
  order_by (lex (on_key (λ kv, match_rank normalized kv.2) Z.compare)
              (lex (on_key (λ kv, nr_normalized_name kv.2) String.compare) (on_key (λ kv, kv.1.2) String.compare)))
    (filter (λ kv, row_matches q normalized kv.2 = true) (snapshot_nodes d s)).
Definition read_hit (normalized : string) (kv : (string * string) * node_row) : res QueryError (GraphNode * SearchMatchKind) :=
  n ← read_node kv; kind ← search_match_kind (match_rank normalized kv.2); ROk (n, kind).
(** The offset has to fit the column type. *)
Definition offset_column (offset : Z) : res QueryError Z := if offset <=? i64_max then ROk offset else RErr stale_cursor_error.
Definition search_rows (d : sidecar) (scope : ResolvedScope) (q : SearchRequest) (offset : Z) : asking (option (list (GraphNode * SearchMatchKind))) :=
  offset ← lift (offset_column offset);
  statement (rmapM (read_hit (to_lowercase (trim (sq_text q))))
    (limited (saturating_inc_u32 (eb_max_results (rs_budget scope))) offset (ranked_rows d (gs_id (rs_snapshot scope)) q))).
(** What follows the rows of a page of [search] or [show] *)
Definition finish_page {A} (d : sidecar) (scope : ResolvedScope) (operation fingerprint : string) (offset : Z)
  (filled : list A * Z * option TruncationReason) : asking (QueryResponse (list A)) :=
  let '(items, bytes, reason) := filled in
  found ← diagnostics_with_deadline d scope;
  let reason := if (found.2 : bool) then Some TDuration else reason in
  page ← lift (page_info reason (length items) bytes 0
                 (Some (operation, gs_id (rs_snapshot scope), fingerprint, offset + Z.of_nat (length items))));
  mret (respond scope found.1 page items).
(** The rows of a page, or none when the deadline passed *)
Definition fill_rows {A B} (render : A → B) (ser : B → json) (b : EffectiveBudget) (rows : option (list A)) :
  asking (list B * Z * option TruncationReason) :=
  match rows with
  | None => mret ([], 0, Some TDuration)
  | Some rows => filled ← fill_page render ser b [] 0 rows; mret filled.1
  end.
Definition search (g : SqliteGraphQuery) (q : SearchRequest) : asking (QueryResponse (list SearchHit)) :=
  let d := sg_sidecar g in
  scope ← lift (resolve_scope g (sq_scope q));
  _ ← lift (validate_search_request q);
  let fingerprint := search_cursor_fingerprint q in
  offset ← lift (decode_cursor (sq_cursor q) "search" (gs_id (rs_snapshot scope)) fingerprint);
  rows ← search_rows d scope q offset;
  filled ← fill_rows (search_hit (trim (sq_text q))) ser_hit (rs_budget scope) rows;
  finish_page d scope "search" fingerprint offset filled.

(** ** Show *)
Definition lookup_matches (l : ShowLookup) (kv : (string * string) * node_row) : bool :=
  match l with
  | LookupNode i => String.eqb kv.1.2 (id_as_str i)
  | LookupSymbol k => bool_decide (nr_semantic_key kv.2 = Some (id_as_str k))
  | LookupPath p => bool_decide (fc_evidence_path (nr_fact kv.2) = Some (path_str p))
  end.
Definition shown_rows (d : sidecar) (s : SnapshotId) (l : ShowLookup) : list ((string * string) * node_row) :=
  order_by (lex (on_key (λ kv, nr_kind kv.2) String.compare)
              (lex (on_key (λ kv, nr_semantic_key kv.2) (null_first String.compare)) (on_key (λ kv, kv.1.2) String.compare)))
    (filter (λ kv, lookup_matches l kv = true) (snapshot_nodes d s)).
Definition show_rows (d : sidecar) (scope : ResolvedScope) (q : ShowRequest) (offset : Z) : asking (option (list GraphNode)) :=
  statement (offset ← offset_column offset;
             rmapM read_node
               (limited (saturating_inc_u32 (eb_max_results (rs_budget scope))) offset (shown_rows d (gs_id (rs_snapshot scope)) (wq_lookup q)))).
Definition show (g : SqliteGraphQuery) (q : ShowRequest) : asking (QueryResponse (list GraphNode)) :=
  let d := sg_sidecar g in
  scope ← lift (resolve_scope g (wq_scope q));
  let fingerprint := show_cursor_fingerprint q in
  offset ← lift (decode_cursor (wq_cursor q) "show" (gs_id (rs_snapshot scope)) fingerprint);
  rows ← show_rows d scope q offset;
  _ ← require (negb (match rows with Some [] => (offset : Z) =? 0 | _ => false end)) (invalid_request "graph lookup matched no nodes");
  filled ← fill_rows id ser_node (rs_budget scope) rows;
  finish_page d scope "show" fingerprint offset filled.
End pages.

(** ** Neighborhood *)
Section neighborhood.
Context {FT : FloatText} {JT : JsonText} {SH : Sha256} {DL : Deadline}.
Definition neighborhood_node (n : GraphNode) : NeighborhoodNode :=
  mk_neighborhood_node (gn_id n) (gn_kind n) (gn_semantic_key n) (evidence_path n) (evidence_span n) (gn_provenance n).
Definition neighborhood_edge (e : GraphEdge) : NeighborhoodEdge :=
  mk_neighborhood_edge (ge_id e) (ge_kind e) (ge_source e) (ge_target e) (ge_provenance e).
Definition ser_neighborhood_node (n : NeighborhoodNode) : json :=
  JObj [("id", ser_opaque_id (nn_id n)); ("kind", ser_string (nn_kind n)); ("semantic_key", ser_option ser_opaque_id (nn_semantic_key n));
        ("path", ser_option ser_path (nn_path n)); ("span", ser_option ser_span (nn_span n)); ("provenance", ser_provenance (nn_provenance n))].
Definition ser_neighborhood_edge (e : NeighborhoodEdge) : json :=
  JObj [("id", ser_opaque_id (ne_id e)); ("kind", ser_string (ne_kind e)); ("source", ser_opaque_id (ne_source e));
        ("target", ser_target (ne_target e)); ("provenance", ser_provenance (ne_provenance e))].
Record near := mk_near {
  nh_nodes : gmap NodeId NeighborhoodNode;
  nh_edges : gmap EdgeId NeighborhoodEdge;
  nh_frontier : list (NodeId * Z);
  nh_bytes : Z;
  nh_reason : option TruncationReason;
  nh_explored : Z }.
#[global] Instance near_eta : Eta near := λ w,
  mk_near (nh_nodes w) (nh_edges w) (nh_frontier w) (nh_bytes w) (nh_reason w) (nh_explored w).
Definition near_results (w : near) : Z := Z.of_nat (size (nh_nodes w)) + Z.of_nat (size (nh_edges w)).
Definition stop_near (reason : TruncationReason) (w : near) : near := w <| nh_reason := Some reason |>.
Definition add_near_node (n : NeighborhoodNode) (bytes depth : Z) (w : near) : near :=
  w <| nh_nodes := <[nn_id n := n]> (nh_nodes w) |> <| nh_bytes := saturating_add (nh_bytes w) bytes |>
    <| nh_frontier := nh_frontier w ++ [(nn_id n, depth)] |>.
Fixpoint near_roots (d : sidecar) (s : SnapshotId) (b : EffectiveBudget) (roots : list NodeId) (w : near) : asking near :=
  match roots with
  | [] => mret w
  | root :: roots =>
    found ← statement (node_by_id d s root);
    match found with
    | None => mret (stop_near TDuration w)
    | Some None => abort (invalid_request "neighborhood root was not found")
    | Some (Some n) =>
      let item := neighborhood_node n in
      let bytes := serialized_len (ser_neighborhood_node item) in
      if eb_max_results b <=? Z.of_nat (size (nh_nodes w)) then mret (stop_near TResults w)
      else if eb_max_bytes b <? saturating_add (nh_bytes w) bytes then mret (stop_near TBytes w)
      else near_roots d s b roots (add_near_node item bytes 0 w)
    end
  end.
(** The loop over the edges of a node *)
Fixpoint near_edges (d : sidecar) (s : SnapshotId) (b : EffectiveBudget) (direction : EdgeDirection) (current : NodeId) (depth : Z)
  (l : list GraphEdge) (w : near) : asking near :=
  match l with
  | [] => mret w
  | e :: l =>
    let continue_with := near_edges d s b direction current depth l in
    if some (nh_edges w !! ge_id e) then continue_with w
    else if eb_max_results b <=? near_results w then mret (stop_near TResults w)
    else
      let item := neighborhood_edge e in
      let bytes := serialized_len (ser_neighborhood_edge item) in
      if eb_max_bytes b <? saturating_add (nh_bytes w) bytes then mret (stop_near TBytes w)
      else
        let w := w <| nh_bytes := saturating_add (nh_bytes w) bytes |> <| nh_edges := <[ge_id e := item]> (nh_edges w) |> in
        match adjacent_node e current direction with
        | None => continue_with w
        | Some next =>
          if some (nh_nodes w !! next) then continue_with w
          else if eb_max_results b <=? near_results w then mret (stop_near TResults w)
          else
            found ← statement (node_by_id d s next);
            match found with
            | None => mret (stop_near TDuration w)
            | Some None => abort backend_error
            | Some (Some n) =>
              let item := neighborhood_node n in
              let bytes := serialized_len (ser_neighborhood_node item) in
              if eb_max_bytes b <? saturating_add (nh_bytes w) bytes then mret (stop_near TBytes w)
              else continue_with (add_near_node item bytes (depth + 1) w)
            end
        end
  end.
(** One turn of the loop over the frontier: [inl] ends it *)
Definition near_step (d : sidecar) (s : SnapshotId) (b : EffectiveBudget) (q : NeighborhoodRequest) (w : near) : asking (near + near) :=
  match nh_frontier w with
  | [] => mret (inl w)
  | (current, depth) :: rest =>
    let w := w <| nh_frontier := rest |> <| nh_explored := Z.max (nh_explored w) depth |> in
    if some (nh_reason w) then mret (inl w)
    else
      expired ← look;
      if (expired : bool) then mret (inl (stop_near TDuration w))
      else if eb_max_depth b <=? depth then
        found ← statement (edges_of d s current (nq_direction q) (nq_edge_kinds q) ∅ 1);
        match found with
        | None => mret (inl (stop_near TDuration w))
        | Some [] => mret (inr w)
        | Some _ => mret (inr (stop_near TDepth w))
        end
      else
        let remaining := eb_max_results b - near_results w in
        if remaining <=? 0 then mret (inl (stop_near TResults w))
        else
          found ← statement (edges_of d s current (nq_direction q) (nq_edge_kinds q) (dom (nh_edges w)) remaining);
          match found with
          | None => mret (inl (stop_near TDuration w))
          | Some l => w ← near_edges d s b (nq_direction q) current depth l w; mret (inr w)
          end
  end.
Fixpoint near_walk (fuel : nat) (d : sidecar) (s : SnapshotId) (b : EffectiveBudget) (q : NeighborhoodRequest) (w : near) : asking near :=
  match fuel with
  | O => mret w
  | S fuel =>
    stepped ← near_step d s b q w;
    match stepped with inl w => mret w | inr w => near_walk fuel d s b q w end
  end.
(** A node is put on the frontier for every root and for every result. *)
Definition near_fuel (b : EffectiveBudget) (q : NeighborhoodRequest) : nat := S (length (nq_roots q) + Z.to_nat (eb_max_results b)).
Definition neighborhood (g : SqliteGraphQuery) (q : NeighborhoodRequest) : asking (QueryResponse (list NeighborhoodNode * list NeighborhoodEdge)) :=
  let d := sg_sidecar g in
  scope ← lift (resolve_scope g (nq_scope q));
  _ ← require (none (nq_cursor q)) (invalid_request "neighborhood cursors are not supported by the local phase 1 backend");
  _ ← require (negb (Nat.eqb (length (nq_roots q)) 0 || Nat.ltb MAX_FILTERS (length (nq_roots q))))
        (invalid_request "neighborhood requires 1..=32 roots");
  _ ← lift (validate_filters (nq_edge_kinds q) 0);
  let s := gs_id (rs_snapshot scope) in
  let b := rs_budget scope in
  w ← near_roots d s b (nq_roots q) (mk_near ∅ ∅ [] 0 None 0);
  w ← near_walk (near_fuel b q) d s b q w;
  found ← diagnostics_with_deadline d scope;
  let reason := if (found.2 : bool) then Some TDuration else nh_reason w in
  page ← lift (page_info reason (size (nh_nodes w) + size (nh_edges w)) (nh_bytes w) (nh_explored w) None);
  mret (respond scope found.1 page (in_id_order (nh_nodes w), in_id_order (nh_edges w))).
End neighborhood.

(** ** Context *)
Record ContextCandidate := mk_candidate {
  cc_node : GraphNode;
  cc_depth : Z;
  cc_reasons : list ContextSelectionReason }.
Record EvidencedContextCandidate := mk_evidenced {
  xc_node : GraphNode;
  xc_evidence : SourceEvidence;
  xc_depth : Z;
  xc_reasons : list ContextSelectionReason }.
Record ContextAssembly := mk_assembly {
  ca_candidates : list EvidencedContextCandidate;
  ca_explored_depth : Z;
  ca_truncation : option TruncationReason }.
Definition with_evidence (c : ContextCandidate) : option EvidencedContextCandidate :=
  e ← fp_evidence (gn_provenance (cc_node c)); Some (mk_evidenced (cc_node c) e (cc_depth c) (cc_reasons c)).
Definition insert_context_candidate (n : GraphNode) (depth : Z) (reason : ContextSelectionReason) (m : gmap NodeId ContextCandidate) :
  gmap NodeId ContextCandidate * bool :=
  match m !! gn_id n with
  | Some c =>
    (<[gn_id n := mk_candidate (cc_node c) (Z.min (cc_depth c) depth)
        (if decide (reason ∈ cc_reasons c) then cc_reasons c else cc_reasons c ++ [reason])]> m, false)
  | None => (<[gn_id n := mk_candidate n depth [reason]]> m, true)
  end.
Definition resolution_allowed (r : ResolutionState) (p : ContextPolicy) : bool :=
  match r with Resolved => true | UnresolvedFact => cp_include_unresolved p | ExternalFact => cp_include_external p end.
Definition context_edge_allowed (e : GraphEdge) (p : ContextPolicy) : bool := resolution_allowed (fp_resolution (ge_provenance e)) p.
Definition context_node_allowed (n : GraphNode) (p : ContextPolicy) : bool := resolution_allowed (fp_resolution (gn_provenance n)) p.
Definition edge_targets_node (e : GraphEdge) : bool := match ge_target e with TargetNode _ => true | _ => false end.
Definition one_of (l : list string) (s : string) : bool := existsb (String.eqb s) l.
Definition is_declaration_node (n : GraphNode) : bool :=
  one_of ["module"; "mod_declaration"; "struct"; "enum"; "union"; "trait"; "impl"; "function"; "type_alias"; "const"; "static"; "macro"] (gn_kind n).
Definition context_selection_kind (e : GraphEdge) (current : NodeId) (next : GraphNode) : ContextSelectionKind :=
  if bool_decide (fp_resolution (ge_provenance e) = Resolved) && one_of ["imports"; "re_exports"; "depends_on"] (ge_kind e) then ResolvedDependency
  else if String.eqb (gn_kind next) "document" then Documentation
  else if one_of ["manifest"; "configuration"; "entry_point"; "cargo_workspace"; "cargo_package"; "cargo_target"; "dependency"] (gn_kind next)
  then Configuration
  else if String.eqb (ge_kind e) "declares_module"
          || String.eqb (ge_kind e) "contains" && bool_decide (ge_source e = current) && is_declaration_node next then Declaration
  else if String.eqb (ge_kind e) "contains" then Containment
  else Relationship.
Definition context_selection_rank (k : ContextSelectionKind) : Z :=
  match k with
  | ExactSeed => 0 | Containment => 1 | Declaration => 2 | ResolvedDependency => 3 | Documentation => 4 | Configuration => 5 | Relationship => 6
  end.
Definition reason_order : ContextSelectionReason → ContextSelectionReason → comparison :=
  lex (on_key (context_selection_rank ∘ cr_kind) Z.compare)
    (lex (on_key (λ r, id_as_str <$> cr_via_node r) (null_first String.compare))
       (on_key (λ r, id_as_str <$> cr_via_edge r) (null_first String.compare))).
Definition sort_context_reasons (l : list ContextSelectionReason) : list ContextSelectionReason := dedup (sort_by reason_order l).
Definition best_rank (l : list ContextSelectionReason) : Z := foldr Z.min 255 ((context_selection_rank ∘ cr_kind) <$> l).
Definition context_candidate_order : EvidencedContextCandidate → EvidencedContextCandidate → comparison :=
  lex (on_key (best_rank ∘ xc_reasons) Z.compare)
    (lex (on_key xc_depth Z.compare)
      (lex (on_key (path_str ∘ ev_path ∘ xc_evidence) String.compare)
        (lex (on_key (λ c, match ev_span (xc_evidence c) with Some s => sp_byte_offset (span_start s) | None => usize_max end) Z.compare)
          (lex (on_key (gn_kind ∘ xc_node) String.compare)
            (lex (on_key (λ c, id_as_str <$> gn_semantic_key (xc_node c)) (null_first String.compare))
               (on_key (id_as_str ∘ gn_id ∘ xc_node) String.compare)))))).
Definition truncation_priority (r : TruncationReason) : Z :=
  match r with TDuration => 0 | TCapability => 1 | TDepth => 2 | TBytes => 3 | TResults => 4 end.
Definition set_context_truncation (next : TruncationReason) (current : option TruncationReason) : option TruncationReason :=
  match current with
  | None => Some next
  | Some r => if truncation_priority next <? truncation_priority r then Some next else current
  end.

Record walk := mk_walk {
  wk_candidates : gmap NodeId ContextCandidate;
  wk_frontier : list (NodeId * Z);
  wk_seen : gset EdgeId;
  wk_explored : Z;
  wk_truncation : option TruncationReason }.
#[global] Instance walk_eta : Eta walk := λ w, mk_walk (wk_candidates w) (wk_frontier w) (wk_seen w) (wk_explored w) (wk_truncation w).
Definition truncate_walk (reason : TruncationReason) (w : walk) : walk := w <| wk_truncation := set_context_truncation reason (wk_truncation w) |>.
Definition full (w : walk) (id : NodeId) : bool :=
  none (wk_candidates w !! id) && Nat.leb MAX_CONTEXT_CANDIDATES (size (wk_candidates w)).
(** A candidate, put on the frontier when it is new *)
Definition visit (n : GraphNode) (depth : Z) (reason : ContextSelectionReason) (w : walk) : walk :=
  let '(candidates, is_new) := insert_context_candidate n depth reason (wk_candidates w) in
  let w := w <| wk_candidates := candidates |> in
  if is_new then w <| wk_frontier := wk_frontier w ++ [(gn_id n, depth)] |> else w.

Section context.
Context {FT : FloatText} {JT : JsonText} {SH : Sha256} {LC : Lowercase} {DL : Deadline}.
Definition context_seed_nodes (d : sidecar) (s : SnapshotId) (seed : ContextSeed) : res QueryError (list GraphNode) :=
  let select (p : (string * string) * node_row → bool) :=
    rmapM read_node
      (limited (Z.of_nat MAX_CONTEXT_CANDIDATES + 1) 0
         (order_by (lex (on_key (λ kv, nr_kind kv.2) String.compare)
                     (lex (on_key (λ kv, default "" (nr_semantic_key kv.2)) String.compare) (on_key (λ kv, kv.1.2) String.compare)))
            (filter (λ kv, p kv = true) (snapshot_nodes d s)))) in
  match seed with
  | SeedNode id => n ← node_by_id d s id; ROk (option_list n)
  | SeedSymbol k => select (lookup_matches (LookupSymbol k))
  | SeedPath p => select (lookup_matches (LookupPath p))
  end.
Definition seed_reason : ContextSelectionReason := mk_reason ExactSeed None None.
Fixpoint add_seed_nodes (l : list GraphNode) (w : walk) : walk :=
  match l with
  | [] => w
  | n :: l => if full w (gn_id n) then truncate_walk TCapability w else add_seed_nodes l (visit n 0 seed_reason w)
  end.
Fixpoint add_seeds (d : sidecar) (s : SnapshotId) (seeds : list (string * ContextSeed)) (w : walk) : asking walk :=
  match seeds with
  | [] => mret w
  | (_, seed) :: seeds =>
    found ← statement (context_seed_nodes d s seed);
    match found with
    | None => mret (truncate_walk TDuration w)
    | Some [] => abort (invalid_request "context seed matched no nodes")
    | Some l =>
      let w := if Nat.ltb MAX_CONTEXT_CANDIDATES (length l) then truncate_walk TCapability w else w in
      add_seeds d s seeds (add_seed_nodes (take MAX_CONTEXT_CANDIDATES l) w)
    end
  end.
Definition sorted_seeds (seeds : list ContextSeed) : list (string * ContextSeed) :=
  let fix dedup_key (l : list (string * ContextSeed)) := match l with
    | x :: (y :: _) as l' => if String.eqb x.1 y.1 then x :: (match dedup_key l' with _ :: l'' => l'' | [] => [] end) else x :: dedup_key l'
    | _ => l
    end in
  dedup_key (sort_by (on_key fst String.compare) ((λ s, (context_seed_key s, s)) <$> seeds)).
(** The loop over the edges of a node: [inl] leaves the walk *)
Fixpoint walk_edges (d : sidecar) (s : SnapshotId) (p : ContextPolicy) (current : NodeId) (depth : Z) (l : list GraphEdge) (w : walk) :
  asking (walk + walk) :=
  match l with
  | [] => mret (inr w)
  | e :: l =>
    let continue_with := walk_edges d s p current depth l in
    let w := w <| wk_seen := {[ge_id e]} ∪ wk_seen w |> in
    if negb (context_edge_allowed e p) then continue_with w
    else
      match adjacent_node e current (cp_direction p) with
      | None => continue_with w
      | Some next =>
        found ← statement (node_by_id d s next);
        match found with
        | None => mret (inl (truncate_walk TDuration w))
        | Some None => abort backend_error
        | Some (Some n) =>
          if negb (context_node_allowed n p) then continue_with w
          else if full w next then mret (inl (truncate_walk TCapability w))
          else continue_with (visit n (depth + 1) (mk_reason (context_selection_kind e current n) (Some current) (Some (ge_id e))) w)
        end
      end
  end.
Definition walk_step (d : sidecar) (s : SnapshotId) (max_depth : Z) (p : ContextPolicy) (w : walk) : asking (walk + walk) :=
  match wk_frontier w with
  | [] => mret (inl w)
  | (current, depth) :: rest =>
    let w := w <| wk_frontier := rest |> <| wk_explored := Z.max (wk_explored w) depth |> in
    expired ← look;
    if (expired : bool) then mret (inl (truncate_walk TDuration w))
    else
      let remaining := (MAX_CONTEXT_CANDIDATES - size (wk_seen w))%nat in
      if Nat.eqb remaining 0 then mret (inl (truncate_walk TCapability w))
      else
        found ← statement (edges_of d s current (cp_direction p) (cp_edge_kinds p) (wk_seen w) (Z.of_nat remaining));
        match found with
        | None => mret (inl (truncate_walk TDuration w))
        | Some l =>
          let w := if Nat.ltb remaining (length l) then truncate_walk TCapability w else w in
          let l := take remaining l in
          if max_depth <=? depth
          then mret (inr (if existsb (λ e, context_edge_allowed e p && edge_targets_node e) l then truncate_walk TDepth w else w))
          else walk_edges d s p current depth l w
        end
  end.
Fixpoint run_walk (fuel : nat) (d : sidecar) (s : SnapshotId) (max_depth : Z) (p : ContextPolicy) (w : walk) : asking walk :=
  match fuel with
  | O => mret w
  | S fuel =>
    stepped ← walk_step d s max_depth p w;
    match stepped with inl w => mret w | inr w => run_walk fuel d s max_depth p w end
  end.
Definition empty_walk : walk := mk_walk ∅ [] ∅ 0 None.
Definition sort_frontier (w : walk) : walk := w <| wk_frontier := sort_by (on_key (id_as_str ∘ fst) String.compare) (wk_frontier w) |>.
(** Every candidate is put on the frontier once. *)
Definition walk_fuel : nat := S MAX_CONTEXT_CANDIDATES.
Definition evidenced (w : walk) : list EvidencedContextCandidate :=
  sort_by context_candidate_order
    ((λ c, mk_evidenced (xc_node c) (xc_evidence c) (xc_depth c) (sort_context_reasons (xc_reasons c)))
       <$> omap with_evidence (in_id_order (wk_candidates w))).
Definition context_walk (d : sidecar) (s : SnapshotId) (max_depth : Z) (q : ContextRequest) : asking walk :=
  w ← add_seeds d s (sorted_seeds (cq_seeds q)) empty_walk;
  run_walk walk_fuel d s max_depth (cq_policy q) (sort_frontier w).
Definition assemble_context (d : sidecar) (scope : ResolvedScope) (q : ContextRequest) : asking ContextAssembly :=
  w ← context_walk d (gs_id (rs_snapshot scope)) (eb_max_depth (rs_budget scope)) q;
  mret (mk_assembly (evidenced w) (wk_explored w) (wk_truncation w)).

Definition kind_name (k : ContextSelectionKind) : string :=
  match k with
  | ExactSeed => "exact_seed" | Containment => "containment" | Declaration => "declaration" | ResolvedDependency => "resolved_dependency"
  | Documentation => "documentation" | Configuration => "configuration" | Relationship => "relationship"
  end.
Definition ser_reason (r : ContextSelectionReason) : json :=
  JObj [("kind", ser_string (kind_name (cr_kind r))); ("via_node", ser_option ser_opaque_id (cr_via_node r));
        ("via_edge", ser_option ser_opaque_id (cr_via_edge r))].
Definition ser_item (i : ContextItem) : json :=
  JObj [("node_id", ser_opaque_id (ci_node_id i)); ("kind", ser_string (ci_kind i)); ("semantic_key", ser_option ser_opaque_id (ci_semantic_key i));
        ("path", ser_path (ci_path i)); ("span", ser_option ser_span (ci_span i)); ("content_identity", ser_digest (ci_content_identity i));
        ("provenance", ser_provenance (ci_provenance i)); ("selection_reasons", ser_list ser_reason (ci_selection_reasons i))].
Definition context_item (c : EvidencedContextCandidate) : ContextItem :=
  let n := xc_node c in
  mk_item (gn_id n) (gn_kind n) (gn_semantic_key n) (ev_path (xc_evidence c)) (ev_span (xc_evidence c)) (ev_content_identity (xc_evidence c))
    (gn_provenance n) (xc_reasons c).
Definition pages_on (r : option TruncationReason) : bool := match r with Some (TResults | TBytes) => true | _ => false end.
Definition context (g : SqliteGraphQuery) (q : ContextRequest) : asking (QueryResponse (list ContextItem)) :=
  let d := sg_sidecar g in
  scope ← lift (resolve_scope g (cq_scope q));
  _ ← require (negb (Nat.eqb (length (cq_seeds q)) 0 || Nat.ltb MAX_FILTERS (length (cq_seeds q))))
        (invalid_request "context requires 1..=32 seeds");
  _ ← lift (validate_filters (cp_edge_kinds (cq_policy q)) 0);
  let s := gs_id (rs_snapshot scope) in
  let fingerprint := context_cursor_fingerprint q (eb_max_depth (rs_budget scope)) in
  offset ← lift (decode_cursor (cq_cursor q) "context" s fingerprint);
  assembly ← assemble_context d scope q;
  _ ← require ((offset : Z) <=? Z.of_nat (length (ca_candidates assembly))) stale_cursor_error;
  filled ← fill_page context_item ser_item (rs_budget scope) [] 0 (drop (Z.to_nat offset) (ca_candidates assembly));
  let '(items, bytes, reason, rest) := filled in
  let more := negb (bool_decide (length (rest : list EvidencedContextCandidate) = 0%nat)) || pages_on reason in
  let reason := match reason with None => ca_truncation assembly | Some _ => reason end in
  found ← diagnostics_with_deadline d scope;
  let reason := if (found.2 : bool) then Some TDuration else reason in
  let cursor := if more && pages_on reason then Some ("context", s, fingerprint, offset + Z.of_nat (length items)) else None in
  page ← lift (page_info reason (length items) bytes (ca_explored_depth assembly) cursor);
  mret (respond scope found.1 page items).
End context.

(** ** Files of a snapshot *)
Definition mode_of (z : Z) : option SourceFileMode := if z =? 0 then Some RegularFile else if z =? 1 then Some ExecutableFile else None.
Definition file_descriptor (path : RepoPath) (r : file_row) : res QueryError SourceFileDescriptor :=
  len ← ok_or backend_error (unsigned (fr_byte_length r)); mode ← ok_or backend_error (mode_of (fr_file_mode r));
  content ← ok_or backend_error (as_digest (fr_content_algorithm r) (fr_content_digest r));
  ROk (mk_source_file path content len mode).
Fixpoint snapshot_file_descriptors (d : sidecar) (s : SnapshotId) (paths : list RepoPath) : res QueryError (list SourceFileDescriptor) :=
  match paths with
  | [] => ROk []
  | path :: paths =>
    match sd_files d !! (id_as_str s, path_str path) with
    | None => snapshot_file_descriptors d s paths
    | Some row => f ← file_descriptor path row; rest ← snapshot_file_descriptors d s paths; ROk (f :: rest)
    end
  end.
Definition all_snapshot_file_descriptors (d : sidecar) (s : SnapshotId) : res QueryError (list SourceFileDescriptor) :=
  rmapM (λ kv, path ← ok_or backend_error (as_path kv.1.2); file_descriptor path kv.2)
    (order_by (on_key (λ kv, kv.1.2) String.compare) (map_to_list (rows_of (sd_files d) (id_as_str s)))).
(** [default_budget] *)
Definition default_query_budget (l : QueryLimitsConfig) : res QueryError QueryBudget :=
  _ ← rcheck (negb (ql_max_results l =? 0)) (invalid_request "query max_results must be greater than zero");
  _ ← rcheck (negb (ql_max_bytes l =? 0)) (invalid_request "query max_bytes must be greater than zero");
  _ ← rcheck (negb (ql_max_depth l =? 0)) (invalid_request "query max_depth must be greater than zero");
  _ ← rcheck (negb (ql_max_duration_ms l =? 0)) (invalid_request "query max_duration_ms must be greater than zero");
  _ ← rcheck (negb (ql_max_diagnostics l =? 0)) (invalid_request "query max_diagnostics must be greater than zero");
  ROk (mk_query_budget (ql_max_results l) (ql_max_bytes l) (ql_max_depth l) (ql_max_duration_ms l) (ql_max_diagnostics l)).
