(* ===== verification/GraphWalk.v ===== *)
(** Context assembly is a breadth-first search: what it returns is the part of
    the stored graph that the policy lets a client reach from the seeds. *)
From S2P Require Import Prelude View Transact Wire Identity AgentData AgentWire Text GraphDomain GraphStore GraphIndexStore GraphMaintenance GraphInvariant GraphLifecycle GraphTheorems GraphContents GraphIndex GraphQuery.
#[local] Open Scope list_scope.

(** ** Lists of results *)
Lemma rmapM_ROk {E A B} (f : A → res E B) l l' : rmapM f l = ROk l' ↔ Forall2 (λ a b, f a = ROk b) l l'.
Proof.
  revert l'. induction l as [|a l IH]; intros l'; cbn.
  - split; [by intros [= <-]|]. intros H. by inversion H.
  - split.
    + destruct (f a) as [b|] eqn:Ea; [|done]. cbn. destruct (rmapM f l) as [bs|] eqn:El; [|done]. intros [= <-]. constructor; [done|by apply IH].
    + intros H. inversion H as [|? b ? bs Hb Hbs]; subst. rewrite Hb. cbn. apply IH in Hbs. by rewrite Hbs.
Qed.
Lemma rmapM_total {E A B} (f : A → res E B) l : (∀ a, a ∈ l → ∃ b, f a = ROk b) → ∃ l', rmapM f l = ROk l'.
Proof.
  induction l as [|a l IH]; intros H; cbn; [by eexists|].
  destruct (H a) as [b ->]; [left|]. destruct IH as [bs ->]; [intros x Hx; apply H; by right|]. by eexists.
Qed.
Lemma rmapM_elem {E A B} (f : A → res E B) l l' b : rmapM f l = ROk l' → b ∈ l' ↔ ∃ a, a ∈ l ∧ f a = ROk b.
Proof.
  intros H%rmapM_ROk. split.
  - intros (i & Hi)%list_elem_of_lookup. destruct (Forall2_lookup_r _ _ _ _ _ H Hi) as (a & Ha & Hf). exists a. split; [by eapply list_elem_of_lookup_2|done].
  - intros (a & (i & Hi)%list_elem_of_lookup & Hf). destruct (Forall2_lookup_l _ _ _ _ _ H Hi) as (b' & Hb & Hf'). rewrite Hf in Hf'. injection Hf' as <-.
    by eapply list_elem_of_lookup_2.
Qed.
Lemma rmapM_length {E A B} (f : A → res E B) l l' : rmapM f l = ROk l' → length l' = length l.
Proof. intros H%rmapM_ROk. symmetry. by eapply Forall2_length. Qed.
Lemma insert_by_perm {A} (c : A → A → comparison) x l : insert_by c x l ≡ₚ x :: l.
Proof. induction l as [|y l IH]; cbn; [done|]. destruct (c x y); [done|done|]. rewrite IH. apply Permutation_swap. Qed.
Lemma sort_by_perm {A} (c : A → A → comparison) l : sort_by c l ≡ₚ l.
Proof. induction l as [|x l IH]; cbn; [done|]. by rewrite insert_by_perm, IH. Qed.
Lemma in_id_order_perm {V} (m : gmap opaque_id V) : in_id_order m ≡ₚ (map_to_list m).*2.
Proof. unfold in_id_order. by rewrite order_by_Permutation. Qed.

(** ** The stored graph *)
Section graph.
Context {FT : FloatText} {JT : JsonText}.
Context (d : sidecar) (s : SnapshotId).
Definition stored_node (n : GraphNode) : Prop :=
  ∃ row, sd_nodes d !! (id_as_str s, id_as_str (gn_id n)) = Some row ∧ decode_node (id_as_str s, id_as_str (gn_id n)) row = Some n.
Definition stored_edge (e : GraphEdge) : Prop :=
  ∃ row, sd_edges d !! (id_as_str s, id_as_str (ge_id e)) = Some row ∧ decode_edge (id_as_str s, id_as_str (ge_id e)) row = Some e.
(** Every row of the snapshot reads back, and edges end at nodes of it. *)
Record readable : Prop := {
  rd_nodes i row : sd_nodes d !! (id_as_str s, i) = Some row →
    ∃ n, decode_node (id_as_str s, i) row = Some n ∧ fc_evidence_path (nr_fact row) = path_str <$> evidence_path n;
  rd_edges i row : sd_edges d !! (id_as_str s, i) = Some row → ∃ e, decode_edge (id_as_str s, i) row = Some e;
  rd_ends e a : stored_edge e → ge_source e = a ∨ ge_target e = TargetNode a → is_Some (sd_nodes d !! (id_as_str s, id_as_str a)) }.

Lemma decode_node_id key row n : decode_node key row = Some n → id_as_str (gn_id n) = key.2.
Proof.
  unfold decode_node. intros H. repeat (apply bind_Some in H as (? & ? & H)). injection H as <-. cbn.
  repeat match goal with E : as_id _ = Some _ |- _ => apply as_id_Some in E end. done.
Qed.
Lemma decode_node_key key row n : decode_node key row = Some n → id_as_str <$> gn_semantic_key n = nr_semantic_key row.
Proof.
  unfold decode_node. intros H. apply bind_Some in H as (i & _ & H). apply bind_Some in H as (j & _ & H).
  apply bind_Some in H as (k & Hk & H). apply bind_Some in H as (p & Hp & H). apply bind_Some in H as (q & _ & [= <-]). cbn.
  destruct (nr_semantic_key row) as [key'|]; [|by injection Hk as <-]. apply fmap_Some in Hk as (k' & Hk & ->). cbn. f_equal. by apply as_id_Some.
Qed.
Lemma decode_edge_columns_of key row e : decode_edge key row = Some e →
  id_as_str (ge_id e) = key.2 ∧ ge_kind e = er_kind row ∧ id_as_str (ge_source e) = er_source_node_id row
  ∧ ∀ a, er_target_node_id row = Some (id_as_str a) ↔ ge_target e = TargetNode a.
Proof.
  unfold decode_edge. intros H. apply bind_Some in H as (i & _ & H). apply bind_Some in H as (j & Hj & H). apply bind_Some in H as (a & Ha & H).
  apply bind_Some in H as (p & _ & H). apply bind_Some in H as (t & Ht & H). apply bind_Some in H as (q & _ & [= <-]). cbn.
  apply as_id_Some in Hj. apply as_id_Some in Ha. split_and!; [done..|]. intros b.
  destruct (er_target_node_id row) as [n|], (er_external_target row) as [x|]; [done| | |done].
  - apply fmap_Some in Ht as (n' & Hn & ->). apply as_id_Some in Hn. subst n. split; [intros [= H%id_as_str_inj]; by subst|by intros [= ->]].
  - injection Ht as <-. split; [done|]. by destruct (decide _).
Qed.
Lemma stored_node_same n n' : stored_node n → stored_node n' → gn_id n = gn_id n' → n = n'.
Proof. intros (r & H & D) (r' & H' & D') E. rewrite E in *. congruence. Qed.
Lemma read_stored_node i row n : sd_nodes d !! (id_as_str s, i) = Some row → decode_node (id_as_str s, i) row = Some n →
  stored_node n ∧ id_as_str (gn_id n) = i.
Proof. intros H D. pose proof (decode_node_id _ _ _ D) as E. cbn in E. split; [|done]. exists row. rewrite E. done. Qed.
Lemma read_stored_edge i row e : sd_edges d !! (id_as_str s, i) = Some row → decode_edge (id_as_str s, i) row = Some e → stored_edge e.
Proof. intros H D. pose proof (decode_edge_columns_of _ _ _ D) as [E _]. cbn in E. exists row. rewrite E. done. Qed.
Lemma snapshot_nodes_elem key row : (key, row) ∈ snapshot_nodes d s ↔ key.1 = id_as_str s ∧ sd_nodes d !! key = Some row.
Proof. unfold snapshot_nodes, rows_of. rewrite elem_of_map_to_list, map_lookup_filter_Some. cbn. naive_solver. Qed.
Lemma snapshot_edges_elem key row : (key, row) ∈ snapshot_edges d s ↔ key.1 = id_as_str s ∧ sd_edges d !! key = Some row.
Proof. unfold snapshot_edges, rows_of. rewrite elem_of_map_to_list, map_lookup_filter_Some. cbn. naive_solver. Qed.

Context (R : readable).
Lemma node_by_id_run i : ∃ o, node_by_id d s i = ROk o ∧
  match o with Some n => stored_node n ∧ gn_id n = i | None => sd_nodes d !! (id_as_str s, id_as_str i) = None end.
Proof.
  unfold node_by_id. destruct (sd_nodes d !! _) as [row|] eqn:E; [|by exists None].
  destruct (rd_nodes R _ _ E) as (n & Dn & _). exists (Some n). unfold read_node. cbn. rewrite Dn. cbn. split; [done|].
  destruct (read_stored_node _ _ _ E Dn) as [Hs Hi%id_as_str_inj]. done.
Qed.
Lemma read_nodes_run l : (∀ kv, kv ∈ l → kv ∈ snapshot_nodes d s) →
  ∃ l', rmapM read_node l = ROk l' ∧ length l' = length l
  ∧ ∀ n, n ∈ l' ↔ ∃ row, ((id_as_str s, id_as_str (gn_id n)), row) ∈ l ∧ decode_node (id_as_str s, id_as_str (gn_id n)) row = Some n.
Proof.
  intros Hl. assert (∀ kv, kv ∈ l → ∃ n, decode_node kv.1 kv.2 = Some n ∧ kv.1 = (id_as_str s, id_as_str (gn_id n))) as HR.
  { intros [[s' i] row] Hk%Hl%snapshot_nodes_elem. destruct Hk as [E Hk]. cbn in E. subst s'. destruct (rd_nodes R _ _ Hk) as (n & Dn & _).
    exists n. cbn. split; [done|]. by rewrite (decode_node_id _ _ _ Dn). }
  destruct (rmapM_total read_node l) as [l' El].
  { intros kv Hk. destruct (HR kv Hk) as (n & Dn & _). exists n. unfold read_node. by rewrite Dn. }
  exists l'. split; [done|]. split; [by eapply rmapM_length|]. intros n. rewrite (rmapM_elem _ _ _ n El). unfold read_node. split.
  - intros (kv & Hk & E). destruct (HR kv Hk) as (n' & Dn & Ek). rewrite Dn in E. injection E as <-. destruct kv as [key row]. cbn in *. subst key. eauto.
  - intros (row & Hk & Dn). eexists. split; [done|]. cbn. by rewrite Dn.
Qed.

(** ** Edges of a node *)
Definition incident (direction : EdgeDirection) (a : NodeId) (e : GraphEdge) : Prop :=
  match direction with
  | Outgoing => ge_source e = a
  | Incoming => ge_target e = TargetNode a
  | BothWays => ge_source e = a ∨ ge_target e = TargetNode a
  end.
Lemma edge_touches_incident key row e direction a : decode_edge key row = Some e →
  edge_touches direction (id_as_str a) row = true ↔ incident direction a e.
Proof.
  intros (_ & _ & Es & Et)%decode_edge_columns_of. unfold edge_touches.
  assert (String.eqb (er_source_node_id row) (id_as_str a) = true ↔ ge_source e = a) as H1.
  { rewrite String.eqb_eq, <- Es. split; [by intros ?%id_as_str_inj|by intros ->]. }
  destruct direction; cbn; rewrite ?orb_true_iff, ?bool_decide_eq_true, ?H1, ?Et; done.
Qed.
Lemma adjacent_incident e a b direction : adjacent_node e a direction = Some b → incident direction a e.
Proof. unfold adjacent_node, incident. destruct (ge_target e), direction; repeat case_decide; naive_solver. Qed.
Lemma edges_of_run a direction kinds excluded limit : 0 ≤ limit → limit < u32_modulus - 1 →
  ∃ l, edges_of d s a direction kinds excluded limit = ROk l
  ∧ (∀ e, e ∈ l → stored_edge e ∧ incident direction a e ∧ kind_allowed kinds (ge_kind e) = true ∧ ge_id e ∉ excluded)
  ∧ (Z.of_nat (length l) ≤ limit → ∀ e, stored_edge e → incident direction a e → kind_allowed kinds (ge_kind e) = true → ge_id e ∉ excluded → e ∈ l).
Proof.
  intros H0 H1. unfold edges_of. set (P := λ kv : (string * string) * edge_row, edge_touches direction (id_as_str a) kv.2 && kind_allowed kinds (er_kind kv.2)
    && negb (bool_decide (kv.1.2 ∈ id_as_str <$> elements excluded)) = true).
  assert (∀ kv, kv ∈ snapshot_edges d s → ∃ e, decode_edge kv.1 kv.2 = Some e ∧ kv.1 = (id_as_str s, id_as_str (ge_id e))) as HR.
  { intros [[s' i] row] Hk%snapshot_edges_elem. destruct Hk as [E Hk]. cbn in E. subst s'. destruct (rd_edges R _ _ Hk) as (e & De).
    exists e. cbn. split; [done|]. by rewrite (proj1 (decode_edge_columns_of _ _ _ De)). }
  assert (∀ key row e, decode_edge key row = Some e → P (key, row) ↔ incident direction a e ∧ kind_allowed kinds (ge_kind e) = true ∧ ge_id e ∉ excluded) as HP.
  { intros key row e De. destruct (decode_edge_columns_of _ _ _ De) as (Ei & Ek & _). unfold P. cbn.
    rewrite !andb_true_iff, (edge_touches_incident _ _ _ direction a De), <- Ek, negb_true_iff, bool_decide_eq_false, list_elem_of_fmap, <- Ei.
    split; [intros [[? ?] Hn]; split_and!; [done..|]; intros Hx; apply Hn; exists (ge_id e); by rewrite elem_of_elements|].
    intros (? & ? & Hn). split; [done|]. intros (x & Hx%id_as_str_inj & He%elem_of_elements). by subst. }
  set (rows := order_by _ (filter P (snapshot_edges d s))). set (n := Z.to_nat (saturating_inc_u32 limit)).
  assert (∀ kv, kv ∈ rows ↔ P kv ∧ kv ∈ snapshot_edges d s) as Hrows.
  { intros kv. unfold rows. by rewrite elem_of_order_by, list_elem_of_filter. }
  assert (limited (saturating_inc_u32 limit) 0 rows = take n rows) as -> by (unfold limited; by rewrite drop_0).
  destruct (rmapM_total read_edge (take n rows)) as [l El].
  { intros kv Hk. apply elem_of_take in Hk as (j & Hj & _). apply list_elem_of_lookup_2, Hrows in Hj as [_ Hj].
    destruct (HR kv Hj) as (e & De & _). exists e. unfold read_edge. by rewrite De. }
  exists l. split; [done|]. split.
  - intros e (kv & Hk & E)%(rmapM_elem _ _ _ e El). apply elem_of_take in Hk as (j & Hj & _). apply list_elem_of_lookup_2, Hrows in Hj as [HPk Hk].
    destruct (HR kv Hk) as (e' & De & Ek). unfold read_edge in E. rewrite De in E. injection E as <-. destruct kv as [key row]. cbn in *.
    split; [|by eapply HP]. apply snapshot_edges_elem in Hk as [_ Hk]. subst key. by exists row.
  - intros Hlen e (row & Hr & De) Hi Hk He. apply (rmapM_elem _ _ _ e El). exists ((id_as_str s, id_as_str (ge_id e)), row).
    split; [|unfold read_edge; cbn; by rewrite De]. apply rmapM_length in El.
    assert (take n rows = rows) as ->.
    { apply take_ge. rewrite El, length_take in Hlen. unfold n, saturating_inc_u32 in *. lia. }
    apply Hrows. split; [by eapply HP|]. by apply snapshot_edges_elem.
Qed.

(** ** What a policy reaches *)
Context (p : ContextPolicy) (max_depth : Z) (seeded : NodeId → Prop).
Definition hop_via (e : GraphEdge) (a b : NodeId) : Prop :=
  context_edge_allowed e p = true ∧ adjacent_node e a (cp_direction p) = Some b
  ∧ ∃ n, stored_node n ∧ gn_id n = b ∧ context_node_allowed n p = true.
Definition hop (a b : NodeId) : Prop := ∃ e, stored_edge e ∧ kind_allowed (cp_edge_kinds p) (ge_kind e) = true ∧ hop_via e a b.
Inductive reach : Z → NodeId → Prop :=
  | reach_seed id : seeded id → reach 0 id
  | reach_hop k a b : reach k a → hop a b → reach (k + 1) b.
Lemma reach_nonneg k id : reach k id → 0 ≤ k.
Proof. induction 1; lia. Qed.
Lemma adjacent_ends e a a' b direction : adjacent_node e a direction = Some b → incident direction a' e → a' = a ∨ a' = b.
Proof. unfold adjacent_node, incident. destruct (ge_target e), direction; repeat case_decide; naive_solver. Qed.
Lemma adjacent_targets e a b direction : adjacent_node e a direction = Some b → edge_targets_node e = true.
Proof. unfold adjacent_node, edge_targets_node. by destruct (ge_target e). Qed.
Lemma adjacent_stored e a b direction : stored_edge e → adjacent_node e a direction = Some b → ∃ n, stored_node n ∧ gn_id n = b ∧ node_by_id d s b = ROk (Some n).
Proof.
  intros He Ha. destruct (node_by_id_run b) as (o & -> & Ho).
  assert (is_Some (sd_nodes d !! (id_as_str s, id_as_str b))) as [row Hr].
  { apply (rd_ends R e); [done|]. unfold adjacent_node in Ha. destruct (ge_target e), direction; repeat case_decide; naive_solver. }
  destruct o as [n|]; [|congruence]. exists n. naive_solver.
Qed.
Lemma stored_edge_same e e' : stored_edge e → stored_edge e' → ge_id e = ge_id e' → e = e'.
Proof. intros (r & H & D) (r' & H' & D') E. rewrite E in *. congruence. Qed.

(** ** The walk's invariant: [X] has left the frontier, [cur] is its depth *)
Definition at_depth (w : walk) (id : NodeId) (P : Z → Prop) : Prop := ∃ c, wk_candidates w !! id = Some c ∧ P (cc_depth c).
Record walking (X : gset NodeId) (cur : Z) (w : walk) : Prop := {
  wa_sound id c : wk_candidates w !! id = Some c →
    gn_id (cc_node c) = id ∧ stored_node (cc_node c) ∧ reach (cc_depth c) id ∧ cc_depth c ≤ max_depth ∧ cc_depth c ≤ cur + 1;
  wa_popped id : id ∈ X → at_depth w id (λ k, k ≤ cur);
  wa_waiting id k : (id, k) ∈ wk_frontier w → at_depth w id (k =.) ∧ id ∉ X;
  wa_dom id : is_Some (wk_candidates w !! id) → id ∈ X ∨ id ∈ (wk_frontier w).*1;
  wa_once : NoDup (wk_frontier w).*1;
  wa_layers : ∃ f1 f2, wk_frontier w = f1 ++ f2 ∧ (∀ x, x ∈ f1 → x.2 = cur) ∧ (∀ x, x ∈ f2 → x.2 = cur + 1);
  wa_seen i : i ∈ wk_seen w → ∃ e a, ge_id e = i ∧ stored_edge e ∧ a ∈ X ∧ incident (cp_direction p) a e;
  wa_size : (size (wk_candidates w) ≤ MAX_CONTEXT_CANDIDATES)%nat }.
(** Nothing was lost, except perhaps below the depth that was asked for. *)
Definition whole (w : walk) : Prop := wk_truncation w ≠ Some TDuration ∧ wk_truncation w ≠ Some TCapability.
Definition settled_at (w : walk) (a : NodeId) : Prop := ∀ c b, wk_candidates w !! a = Some c → hop a b →
  cc_depth c < max_depth ∨ wk_truncation w = None → at_depth w b (λ k, k ≤ cc_depth c + 1).
Definition settled (X : gset NodeId) (w : walk) : Prop := (∀ id, seeded id → at_depth w id (λ k, k ≤ 0)) ∧ ∀ a, a ∈ X → settled_at w a.
Definition enlarges (w w' : walk) : Prop := wk_truncation w' = wk_truncation w
  ∧ ∀ id c, wk_candidates w !! id = Some c → at_depth w' id (λ k, k = cc_depth c).
Lemma enlarges_refl w : enlarges w w.
Proof. split; [done|]. intros id c H. by exists c. Qed.
Lemma enlarges_trans w1 w2 w3 : enlarges w1 w2 → enlarges w2 w3 → enlarges w1 w3.
Proof.
  intros [T1 G1] [T2 G2]. split; [congruence|]. intros id c H. destruct (G1 _ _ H) as (c' & H' & E).
  destruct (G2 _ _ H') as (c'' & H'' & E'). exists c''. split; [done|congruence].
Qed.
Lemma enlarges_depth w w' id P : enlarges w w' → at_depth w id P → at_depth w' id P.
Proof. intros [_ G] (c & H & HP). destruct (G _ _ H) as (c' & H' & E). exists c'. split; [done|]. by rewrite E. Qed.
Lemma settled_grows w w' a : is_Some (wk_candidates w !! a) → enlarges w w' → settled_at w a → settled_at w' a.
Proof.
  intros [c0 H0] G C c b H Hop Hlt. assert (cc_depth c = cc_depth c0) as E.
  { destruct (proj2 G _ _ H0) as (c1 & H1 & E). congruence. }
  rewrite E in *. eapply enlarges_depth; [done|]. apply (C c0 b H0 Hop). by rewrite <- (proj1 G).
Qed.
Lemma visit_walking X cur w n reason : walking X cur w → stored_node n → reach (cur + 1) (gn_id n) → cur + 1 ≤ max_depth →
  full w (gn_id n) = false →
  walking X cur (visit n (cur + 1) reason w) ∧ enlarges w (visit n (cur + 1) reason w) ∧ at_depth (visit n (cur + 1) reason w) (gn_id n) (λ k, k ≤ cur + 1).
Proof.
  intros W Hn Hr Hk Hf. unfold visit, insert_context_candidate. destruct (wk_candidates w !! gn_id n) as [c|] eqn:E.
  - destruct (wa_sound _ _ _ W _ _ E) as (Ei & Hs & Hrc & Hm & Hc). rewrite Z.min_l by lia.
    set (rs := if decide _ then _ else _). match goal with |- walking _ _ ?x ∧ _ => set (w' := x) end.
    assert (∀ id P, at_depth w id P ↔ at_depth w' id P) as Hd.
    { intros id P. unfold at_depth, w'. cbn. destruct (decide (id = gn_id n)) as [->|Hne]; [|by rewrite lookup_insert_ne by done].
      rewrite lookup_insert_eq, E. split; [intros (c0 & [= <-] & HP)|intros (c0 & [= <-] & HP)]; (eexists; split; [done|exact HP]). }
    split_and!.
    + destruct W as [W1 W2 W3 W4 W5 W6 W7 W8]. constructor.
      * intros id c' H. cbn in H. apply lookup_insert_Some in H as [[<- <-]|[_ H]]; [done|by apply W1].
      * intros id Hx. by apply Hd, W2.
      * intros id k Hx. rewrite <- Hd. by apply W3.
      * intros id Hx. cbn in Hx. apply lookup_insert_is_Some in Hx as [<-|[_ Hx]]; [by apply W4; rewrite E|by apply W4].
      * done.
      * done.
      * done.
      * cbn. rewrite map_size_insert, E. done.
    + split; [done|]. intros id c' H. apply Hd. by exists c'.
    + apply Hd. exists c. split; [done|lia].
  - match goal with |- walking _ _ ?x ∧ _ => set (w' := x) end. assert (∀ id P, at_depth w id P → at_depth w' id P) as Hd.
    { intros id P (c & H & HP). exists c. split; [|done]. cbn. rewrite lookup_insert_ne; [done|]. congruence. }
    assert (at_depth w' (gn_id n) (eq (cur + 1))) as Hn'.
    { eexists. cbn. rewrite lookup_insert_eq. done. }
    assert (∀ k, (gn_id n, k) ∉ wk_frontier w) as Hnf.
    { intros k Hx. destruct (wa_waiting _ _ _ W _ _ Hx) as [(c & H & _) _]. congruence. }
    assert (gn_id n ∉ X) as HnX.
    { intros Hx. destruct (wa_popped _ _ _ W _ Hx) as (c & H & _). congruence. }
    split_and!.
    + destruct W as [W1 W2 W3 W4 W5 W6 W7 W8]. constructor.
      * intros id c' H. cbn in H. apply lookup_insert_Some in H as [[<- <-]|[_ H]]; [|by apply W1]. cbn. split_and!; [done..|lia].
      * intros id Hx. by apply Hd, W2.
      * intros id k Hx. cbn in Hx. apply elem_of_app in Hx as [Hx|Hx].
        -- destruct (W3 _ _ Hx) as [? ?]. split; [by apply Hd|done].
        -- apply list_elem_of_singleton in Hx as [= -> ->]. done.
      * intros id Hx. cbn in *. rewrite fmap_app, elem_of_app. apply lookup_insert_is_Some in Hx as [<-|[_ Hx]].
        -- right. right. cbn. by left.
        -- destruct (W4 _ Hx); [by left|right; by left].
      * cbn. rewrite fmap_app. apply NoDup_app. split_and!; [done| |cbn; apply NoDup_singleton].
        intros x Hx. cbn. rewrite list_elem_of_singleton. intros ->. apply list_elem_of_fmap in Hx as ([y k] & ? & Hx). cbn in *. subst y. by eapply Hnf.
      * destruct W6 as (f1 & f2 & E1 & H1 & H2). exists f1, (f2 ++ [(gn_id n, cur + 1)]). cbn. rewrite E1, app_assoc. split_and!; [done..|].
        intros x [Hx|Hx%list_elem_of_singleton]%elem_of_app; [by apply H2|by subst].
      * done.
      * cbn. rewrite map_size_insert, E. unfold full in Hf. rewrite E in Hf. apply andb_false_iff in Hf as [Hf|Hf]; [done|]. apply Nat.leb_gt in Hf. lia.
    + split; [done|]. intros id c' H. apply Hd. by exists c'.
    + destruct Hn' as (c & H & HP). exists c. split; [done|lia].
Qed.

Lemma truncate_walking X cur w r : walking X cur w → walking X cur (truncate_walk r w).
Proof. by intros [W1 W2 W3 W4 W5 W6 W7 W8]. Qed.
Lemma truncate_lost w r : r = TDuration ∨ r = TCapability → ¬ whole (truncate_walk r w).
Proof. unfold whole, truncate_walk. cbn. destruct (wk_truncation w) as [[]|]; intros [->| ->] [H H']; cbn in *; congruence. Qed.
Lemma truncate_whole w r : whole (truncate_walk r w) → whole w.
Proof. unfold whole, truncate_walk. cbn. destruct (wk_truncation w) as [[]|]; destruct r; intros [H H']; cbn in *; split; congruence. Qed.
Lemma truncate_some w r : wk_truncation (truncate_walk r w) ≠ None.
Proof. unfold truncate_walk. cbn. destruct (wk_truncation w) as [[]|]; destruct r; done. Qed.
Lemma see_walking X cur w e a : walking X cur w → stored_edge e → a ∈ X → incident (cp_direction p) a e →
  walking X cur (w <| wk_seen := {[ge_id e]} ∪ wk_seen w |>).
Proof.
  intros [W1 W2 W3 W4 W5 W6 W7 W8] He Ha Hi. constructor; try done. cbn. intros i [->%elem_of_singleton|Hx]%elem_of_union; [by exists e, a|by apply W7].
Qed.

Context {DL : Deadline}.
Lemma walk_edges_spec X cur a l w i : walking X cur w → a ∈ X → reach cur a → cur < max_depth →
  (∀ e, e ∈ l → stored_edge e ∧ incident (cp_direction p) a e ∧ kind_allowed (cp_edge_kinds p) (ge_kind e) = true) →
  ∃ r j, walk_edges d s p a cur l w i = ROk (r, j) ∧ match r with
    | inl w' => walking X cur w' ∧ ¬ whole w'
    | inr w' => walking X cur w' ∧ enlarges w w' ∧ ∀ e b, e ∈ l → hop_via e a b → at_depth w' b (λ k, k ≤ cur + 1)
    end.
Proof.
  intros W Ha Hr Hd. revert w i W. induction l as [|e l IH]; intros w i W Hl; cbn [walk_edges].
  { exists (inr w), i. split; [done|]. split_and!; [done|apply enlarges_refl|]. intros e b He. by apply not_elem_of_nil in He. }
  destruct (Hl e) as (He & Hi & Hk); [left|]. assert (∀ x, x ∈ l → stored_edge x ∧ incident (cp_direction p) a x ∧ kind_allowed (cp_edge_kinds p) (ge_kind x) = true) as Hl'.
  { intros x Hx. apply Hl. by right. }
  pose proof (see_walking _ _ _ _ _ W He Ha Hi) as W'. set (w' := w <| wk_seen := _ |>) in *. assert (enlarges w w') as G by exact (enlarges_refl w).
  assert (∀ w1 i1, walking X cur w1 → enlarges w w1 → (∀ b, hop_via e a b → at_depth w1 b (λ k, k ≤ cur + 1)) →
    ∃ r j, walk_edges d s p a cur l w1 i1 = ROk (r, j) ∧ match r with
    | inl w' => walking X cur w' ∧ ¬ whole w'
    | inr w' => walking X cur w' ∧ enlarges w w' ∧ ∀ x b, x ∈ e :: l → hop_via x a b → at_depth w' b (λ k, k ≤ cur + 1)
    end) as Go.
  { intros w1 i1 W1 G1 H1. destruct (IH w1 i1 W1 Hl') as (r & j & E & Hres). exists r, j. split; [done|]. destruct r as [w2|w2]; [done|].
    destruct Hres as (W2 & G2 & H2). split_and!; [done|by eapply enlarges_trans|]. intros x b [->|Hx]%elem_of_cons Hh; [|by eapply H2].
    by eapply enlarges_depth, H1. }
  destruct (context_edge_allowed e p) eqn:Ea; cbn [negb].
  2: { apply Go; [done..|]. intros b [H _]. congruence. }
  destruct (adjacent_node e a (cp_direction p)) as [b|] eqn:Eb.
  2: { apply Go; [done..|]. intros b (_ & H & _). congruence. }
  destruct (adjacent_stored _ _ _ _ He Eb) as (n & Hn & En & Hb). rewrite Hb. unfold mbind, tx_bind, statement.
  destruct (late i). { eexists (inl _), _. split; [done|]. split; [by apply truncate_walking|]. apply truncate_lost. by left. }
  cbn [mret tx_ret]. destruct (context_node_allowed n p) eqn:En'; cbn [negb].
  2: { apply Go; [done..|]. intros b' (_ & Hb' & n' & Hn' & En'' & Hal). assert (n' = n) as -> by (eapply stored_node_same; [done..|congruence]). congruence. }
  destruct (full w' b) eqn:Ef.
  { eexists (inl _), _. split; [done|]. split; [by apply truncate_walking|]. apply truncate_lost. by right. }
  subst b. destruct (visit_walking X cur w' n (mk_reason (context_selection_kind e a n) (Some a) (Some (ge_id e))) W' Hn) as (W2 & G2 & A2); [|lia|done|].
  { apply reach_hop with a; [done|]. exists e. split_and!; [done..|]. split_and!; [done..|]. by exists n. }
  apply Go; [done|exact (enlarges_trans _ _ _ G G2)|]. intros b (_ & Hb' & _). rewrite Eb in Hb'. by injection Hb' as <-.
Qed.

(** ** One step, and all of them *)
Definition pop (w : walk) (rest : list (NodeId * Z)) (k : Z) : walk := w <| wk_frontier := rest |> <| wk_explored := Z.max (wk_explored w) k |>.
Lemma pop_walking X cur w a k rest : walking X cur w → wk_frontier w = (a, k) :: rest →
  walking ({[a]} ∪ X) k (pop w rest k) ∧ at_depth w a (k =.) ∧ a ∉ X ∧ cur ≤ k ∧ reach k a ∧ k ≤ max_depth.
Proof.
  intros W Ef. destruct (wa_waiting _ _ _ W a k) as [Hk Ha]; [rewrite Ef; left|]. assert (cur ≤ k ≤ cur + 1) as Hcur.
  { destruct (wa_layers _ _ _ W) as (f1 & f2 & E & H1 & H2). rewrite Ef in E. assert ((a, k) ∈ f1 ++ f2) as Hx by (rewrite <- E; left).
    apply elem_of_app in Hx as [Hx%H1|Hx%H2]; cbn in Hx; lia. }
  assert (reach k a ∧ k ≤ max_depth) as [Hr Hm].
  { destruct Hk as (c & Hc & ->). by destruct (wa_sound _ _ _ W _ _ Hc) as (_ & _ & ? & ? & _). }
  split_and!; [|done..|lia|done|done]. destruct W as [W1 W2 W3 W4 W5 W6 W7 W8]. rewrite Ef in *. cbn in W5. apply NoDup_cons in W5 as [Hnew W5]. constructor.
  - intros id c Hc. destruct (W1 _ _ Hc) as (? & ? & ? & ? & ?). split_and!; [done..|lia].
  - intros id [->%elem_of_singleton|Hx]%elem_of_union.
    + destruct Hk as (c & Hc & E). exists c. split; [done|lia].
    + destruct (W2 _ Hx) as (c & Hc & E). exists c. split; [done|lia].
  - intros id k' Hx. destruct (W3 id k') as [? Hn]; [by right|]. split; [done|]. intros [->%elem_of_singleton|Hx']%elem_of_union; [|done].
    apply Hnew. apply list_elem_of_fmap. by exists (a, k').
  - intros id Hx. destruct (W4 _ Hx) as [?|Hx']; [left; set_solver|]. cbn in Hx'. apply elem_of_cons in Hx' as [->|?]; [left; set_solver|by right].
  - done.
  - destruct W6 as (f1 & f2 & E & H1 & H2). destruct f1 as [|x f1].
    + cbn in E. subst f2. exists rest, []. cbn. rewrite app_nil_r. split_and!; [done| |by intros x ?%not_elem_of_nil].
      pose proof (H2 (a, k) ltac:(left)) as Ek. cbn in Ek. intros x Hx. rewrite Ek. apply H2. by right.
    + injection E as <- ->. pose proof (H1 (a, k) ltac:(left)) as Ek. cbn in Ek. subst k. exists f1, f2. split_and!; [done| |done].
      intros x Hx. apply H1. by right.
  - intros i (e & a' & ? & ? & ? & ?)%W7. exists e, a'. split_and!; [done..|set_solver|done].
  - done.
Qed.
Lemma settled_truncate X w r : settled X w → settled X (truncate_walk r w).
Proof. intros [B C]. split; [exact B|]. intros a Ha c b Hc Hop [Hlt|Hn]; [apply (C a Ha c b); auto|]. by apply truncate_some in Hn. Qed.
(** A hop from [a] is over an edge that was read, or leads back. *)
Lemma hop_read X cur w a b l remaining : walking X cur w → a ∉ X → hop a b →
  (∀ e, stored_edge e → incident (cp_direction p) a e → kind_allowed (cp_edge_kinds p) (ge_kind e) = true → ge_id e ∉ wk_seen w → e ∈ l) →
  (length l ≤ remaining)%nat → (∃ e, e ∈ take remaining l ∧ hop_via e a b) ∨ at_depth w b (λ k, k ≤ cur).
Proof.
  intros W Ha (e & He & Hk & Hv) Hl Hlen. rewrite take_ge by lia. pose proof Hv as (_ & Hb & _). destruct (decide (ge_id e ∈ wk_seen w)) as [Hs|Hs].
  - destruct (wa_seen _ _ _ W _ Hs) as (e' & a' & Ee & He' & Ha' & Hi). assert (e' = e) as -> by by eapply stored_edge_same.
    destruct (adjacent_ends _ _ _ _ _ Hb Hi) as [->| ->]; [done|]. right. by apply (wa_popped _ _ _ W).
  - left. exists e. split; [|done]. apply Hl; [done|by eapply adjacent_incident|done|done].
Qed.
Definition walked (w : walk) : Prop :=
  ∃ X cur, walking X cur w ∧ (whole w → wk_frontier w = [] ∧ settled X w).
Lemma walked_lost X cur w r : walking X cur w → r = TDuration ∨ r = TCapability → walked (truncate_walk r w).
Proof. intros W Hr. exists X, cur. split; [by apply truncate_walking|]. intros H. by apply truncate_lost in H. Qed.

Definition moved_on (X : gset NodeId) (w : walk) : Prop :=
  ∃ X' cur, walking X' cur w ∧ size X' = S (size X) ∧ (whole w → settled X' w).
(** The node that was popped, once its edges have been read *)
Lemma advance X a k w : a ∉ X → walking ({[a]} ∪ X) k w → (whole w → settled X w ∧ settled_at w a) → moved_on X w.
Proof.
  intros Ha W H. exists ({[a]} ∪ X), k. split_and!; [done|rewrite size_union, size_singleton by set_solver; lia|].
  intros Hw. destruct (H Hw) as ([B C] & Ca). split; [done|]. intros x [->%elem_of_singleton|Hi]%elem_of_union; auto.
Qed.
Lemma walk_step_spec X cur w i : walking X cur w → (whole w → settled X w) →
  ∃ r j, walk_step d s max_depth p w i = ROk (r, j) ∧ match r with inl w' => walked w' | inr w' => moved_on X w' end.
Proof.
  intros W C. unfold walk_step. destruct (wk_frontier w) as [|[a k] rest] eqn:Ef.
  { exists (inl w), i. split; [done|]. exists X, cur. auto. }
  destruct (pop_walking _ _ _ _ _ _ W Ef) as (W' & Hk & Ha & Hcur & Hr & Hm). fold (pop w rest k). set (w1 := pop w rest k) in *.
  unfold mbind, tx_bind, look, statement. destruct (late i).
  { eexists (inl _), _. split; [done|]. eapply walked_lost; [done|by left]. }
  set (remaining := (MAX_CONTEXT_CANDIDATES - size (wk_seen w1))%nat). destruct (Nat.eqb remaining 0).
  { eexists (inl _), _. split; [done|]. eapply walked_lost; [done|by right]. }
  destruct (late (S i)).
  { eexists (inl _), _. split; [done|]. eapply walked_lost; [done|by left]. }
  destruct (edges_of_run a (cp_direction p) (cp_edge_kinds p) (wk_seen w1) (Z.of_nat remaining)) as (l & -> & Hl & Hall).
  { lia. } { unfold remaining, u32_modulus. assert (Z.of_nat MAX_CONTEXT_CANDIDATES = 4096) by done. lia. }
  cbn [mret tx_ret]. set (w2 := if Nat.ltb remaining (length l) then _ else w1).
  assert (walking ({[a]} ∪ X) k w2) as W2.
  { unfold w2. destruct (Nat.ltb _ _); [by apply truncate_walking|done]. }
  assert (whole w2 → w2 = w1 ∧ (length l ≤ remaining)%nat) as Hw2.
  { unfold w2. destruct (Nat.ltb _ _) eqn:El; [intros H; apply truncate_lost in H; [done|by right]|]. apply Nat.ltb_ge in El. done. }
  assert (∀ w', whole w → enlarges w1 w' → settled X w') as HX.
  { intros w' Hw G. destruct (C Hw) as [B Cx]. split; [intros id Hid; by apply (enlarges_depth _ _ _ _ G), B|].
    intros x Hx. apply settled_grows with w1; [|done|by apply Cx]. destruct (wa_popped _ _ _ W _ Hx) as (c & Hc & _). by exists c. }
  assert (∀ b, (length l ≤ remaining)%nat → hop a b → (∃ e, e ∈ take remaining l ∧ hop_via e a b) ∨ at_depth w1 b (λ k', k' ≤ k + 1)) as Hhop.
  { intros b Hlen Hop. destruct (hop_read X cur w a b l remaining W Ha Hop) as [?|(c & Hc & Hd)]; [|done|by left|].
    - intros e He Hi Hkind Hs. apply Hall; [lia|done..].
    - right. exists c. split; [done|lia]. }
  destruct Hk as (c0 & Hc0 & Ek). destruct (Z.leb_spec max_depth k) as [Hle|Hlt].
  - set (cut := existsb _ _). eexists (inr _), _. split; [done|]. apply advance with a k; [done| |].
    { destruct cut; [by apply truncate_walking|done]. }
    intros Hw. assert (whole w2) as Hw'. { destruct cut; [by apply truncate_whole in Hw|done]. }
    destruct (Hw2 Hw') as [E Hlen]. rewrite E in *. assert (settled X w1) as C1 by (apply HX; [done|apply enlarges_refl]). split.
    { destruct cut; [by apply settled_truncate|done]. }
    intros c b Hc Hop [Hlt|Hn].
    { assert (wk_candidates w !! a = Some c) as Hc' by by destruct cut. assert (c = c0) by congruence. subst. lia. }
    destruct cut eqn:Ecut; [by apply truncate_some in Hn|]. replace (cc_depth c) with k by (change (wk_candidates w !! a = Some c) in Hc; congruence).
    destruct (Hhop b Hlen Hop) as [(e & He & Hv)|Hb]; [|done].
    exfalso. assert (cut = true); [|congruence]. apply existsb_exists. exists e. split; [by apply list_elem_of_In|].
    destruct Hv as (-> & Hv & _). by rewrite (adjacent_targets _ _ _ _ Hv).
  - destruct (walk_edges_spec ({[a]} ∪ X) k a (take remaining l) w2 (S (S i))) as (r & j & E & Hres); [done|set_solver|done|done| |].
    { intros e (y & Hy & _)%elem_of_take. destruct (Hl e) as (? & ? & ? & _); [by eapply list_elem_of_lookup_2|]. done. }
    exists r, j. split; [done|]. destruct r as [w3|w3].
    { destruct Hres as [W3 H3]. exists ({[a]} ∪ X), k. split; [done|]. intros H. done. }
    destruct Hres as (W3 & G3 & H3). apply advance with a k; [done..|]. intros Hw. assert (whole w2) as Hw'.
    { unfold whole in *. by rewrite <- (proj1 G3). }
    destruct (Hw2 Hw') as [E2 Hlen]. rewrite E2 in *. split; [by apply HX|].
    intros c b Hc Hop _. replace (cc_depth c) with k.
    + destruct (Hhop b Hlen Hop) as [(e & He & Hv)|Hb]; [by eapply H3|by eapply enlarges_depth].
    + destruct (proj2 G3 _ _ Hc0) as (c' & Hc' & E'). congruence.
Qed.

Lemma run_walk_spec fuel X cur w i : walking X cur w → (whole w → settled X w) → (MAX_CONTEXT_CANDIDATES < size X + fuel)%nat →
  ∃ w' j, run_walk fuel d s max_depth p w i = ROk (w', j) ∧ walked w'.
Proof.
  revert X cur w i. induction fuel as [|fuel IH]; intros X cur w i W C Hf.
  - exfalso. assert (X ⊆ dom (wk_candidates w)) as Hs.
    { intros x Hx. destruct (wa_popped _ _ _ W _ Hx) as (c & Hc & _). by eapply elem_of_dom_2. }
    apply subseteq_size in Hs. rewrite size_dom in Hs. pose proof (wa_size _ _ _ W). lia.
  - cbn [run_walk]. destruct (walk_step_spec X cur w i W C) as (r & j & E & H). rewrite (tx_bind_run _ _ _ _ _ E).
    destruct r as [w'|w']; [by exists w', j|]. destruct H as (X' & cur' & W' & Es & C'). apply (IH X' cur'); [done..|]. lia.
Qed.
Lemma walked_complete w k id : walked w → whole w → reach k id → k ≤ max_depth ∨ wk_truncation w = None → at_depth w id (λ k', k' ≤ k).
Proof.
  intros (X & cur & W & C) [Ef [B Cx]]%C. induction 1 as [id Hs|k a b Hr IH Hop]; [by auto|]. intros Hk.
  destruct IH as (c & Hc & Hd); [destruct Hk; [left; lia|by right]|].
  assert (a ∈ X) as Ha.
  { destruct (wa_dom _ _ _ W a) as [?|Hx]; [by exists c|done|]. rewrite Ef in Hx. by apply not_elem_of_nil in Hx. }
  destruct (Cx a Ha c b Hc Hop) as (c' & Hc' & Hd'); [destruct Hk; [left; lia|by right]|]. exists c'. split; [done|lia].
Qed.

(** ** Seeds *)
Definition seed_matches (seed : ContextSeed) (n : GraphNode) : Prop := stored_node n ∧
  match seed with
  | SeedNode id => gn_id n = id
  | SeedSymbol k => gn_semantic_key n = Some k
  | SeedPath f => evidence_path n = Some f
  end.
Lemma select_nodes (keep : (string * string) * node_row → bool) c (P : GraphNode → Prop) :
  (∀ n row, sd_nodes d !! (id_as_str s, id_as_str (gn_id n)) = Some row → decode_node (id_as_str s, id_as_str (gn_id n)) row = Some n →
     keep ((id_as_str s, id_as_str (gn_id n)), row) = true ↔ P n) →
  ∃ l, rmapM read_node (limited (Z.of_nat MAX_CONTEXT_CANDIDATES + 1) 0 (order_by c (filter (λ kv, keep kv = true) (snapshot_nodes d s)))) = ROk l
  ∧ (∀ n, n ∈ l → stored_node n ∧ P n) ∧ ((length l ≤ MAX_CONTEXT_CANDIDATES)%nat → ∀ n, stored_node n → P n → n ∈ l).
Proof.
  intros HP. set (rows := order_by c _). unfold limited. rewrite drop_0. set (m := Z.to_nat _).
  assert (∀ kv, kv ∈ rows ↔ keep kv = true ∧ kv ∈ snapshot_nodes d s) as Hrows.
  { intros kv. unfold rows. by rewrite elem_of_order_by, list_elem_of_filter. }
  destruct (read_nodes_run (take m rows)) as (l & El & Elen & Hl).
  { intros kv (j & Hj & _)%elem_of_take. by apply list_elem_of_lookup_2, Hrows in Hj as [_ Hj]. }
  exists l. split; [done|]. split.
  - intros n (row & Hr & Dn)%Hl. apply elem_of_take in Hr as (j & Hj & _). apply list_elem_of_lookup_2, Hrows in Hj as [Hk Hj].
    apply snapshot_nodes_elem in Hj as [_ Hj]. split; [by exists row|]. by apply (HP n row).
  - intros Hlen n (row & Hr & Dn) HPn. apply Hl. exists row. split; [|done]. rewrite Elen, length_take in Hlen.
    rewrite take_ge by (unfold m in *; lia). apply Hrows. split; [by apply (HP n row)|]. by apply snapshot_nodes_elem.
Qed.
Lemma context_seed_nodes_spec seed : ∃ l, context_seed_nodes d s seed = ROk l ∧ (∀ n, n ∈ l → seed_matches seed n)
  ∧ ((length l ≤ MAX_CONTEXT_CANDIDATES)%nat → ∀ n, seed_matches seed n → n ∈ l).
Proof.
  destruct seed as [id|k|f]; unfold context_seed_nodes, seed_matches.
  - destruct (node_by_id_run id) as (o & -> & Ho). exists (option_list o). split; [done|]. destruct o as [n|]; cbn.
    + split; [by intros n' ->%list_elem_of_singleton|]. intros _ n' [Hs E]. apply list_elem_of_singleton. destruct Ho. eapply stored_node_same; [done..|congruence].
    + split; [by intros n' ?%not_elem_of_nil|]. intros _ n' [(row & Hr & _) <-]. congruence.
  - destruct (select_nodes (lookup_matches (LookupSymbol k)) (lex (on_key (λ kv, nr_kind kv.2) String.compare)
      (lex (on_key (λ kv, default "" (nr_semantic_key kv.2)) String.compare) (on_key (λ kv, kv.1.2) String.compare)))
      (λ n, gn_semantic_key n = Some k)) as (l & E & H1 & H2).
    { intros n row Hr Dn. cbn. rewrite bool_decide_eq_true, <- (decode_node_key _ _ _ Dn). destruct (gn_semantic_key n) as [k'|]; cbn; [|done].
      split; [by intros [= ->%id_as_str_inj]|by intros [= ->]]. }
    exists l. split_and!; [exact E|exact H1|]. intros Hlen n [Hs Hk]. by apply H2.
  - destruct (select_nodes (lookup_matches (LookupPath f)) (lex (on_key (λ kv, nr_kind kv.2) String.compare)
      (lex (on_key (λ kv, default "" (nr_semantic_key kv.2)) String.compare) (on_key (λ kv, kv.1.2) String.compare)))
      (λ n, evidence_path n = Some f)) as (l & E & H1 & H2).
    { intros n row Hr Dn. cbn. destruct (rd_nodes R _ _ Hr) as (n' & Dn' & ->). rewrite Dn in Dn'. injection Dn' as <-. rewrite bool_decide_eq_true.
      destruct (evidence_path n) as [f'|]; cbn; [|done]. split; [by intros [= ->%path_str_inj]|by intros [= ->]]. }
    exists l. split_and!; [exact E|exact H1|]. intros Hlen n [Hs Hk]. by apply H2.
Qed.
Definition retains (w w' : walk) : Prop := (∀ id P, at_depth w id P → at_depth w' id P) ∧ (whole w' → whole w).
Lemma retains_trans w1 w2 w3 : retains w1 w2 → retains w2 w3 → retains w1 w3.
Proof. intros [K1 H1] [K2 H2]. split; auto. Qed.
Lemma retains_truncate w r : retains w (truncate_walk r w).
Proof. split; [done|]. apply truncate_whole. Qed.
Lemma retains_grows w w' : enlarges w w' → retains w w'.
Proof. intros G. split; [intros id P; by apply enlarges_depth|]. unfold whole. by rewrite (proj1 G). Qed.
Lemma add_seed_nodes_spec l w : walking ∅ (-1) w → 0 ≤ max_depth → (∀ n, n ∈ l → stored_node n ∧ seeded (gn_id n)) →
  walking ∅ (-1) (add_seed_nodes l w) ∧ retains w (add_seed_nodes l w)
  ∧ (whole (add_seed_nodes l w) → ∀ n, n ∈ l → at_depth (add_seed_nodes l w) (gn_id n) (λ k, k ≤ 0)).
Proof.
  intros W Hm. revert w W. induction l as [|n l IH]; intros w W Hl; cbn [add_seed_nodes].
  { split_and!; [done|split; auto|]. by intros _ n ?%not_elem_of_nil. }
  destruct (full w (gn_id n)) eqn:Ef.
  { split_and!; [by apply truncate_walking|apply retains_truncate|]. intros H. apply truncate_lost in H; [done|by right]. }
  destruct (Hl n) as [Hs Hd]; [left|]. destruct (visit_walking ∅ (-1) w n seed_reason W Hs) as (W1 & G1 & A1); [by apply reach_seed|lia|done|].
  destruct (IH _ W1) as (W2 & K2 & A2); [intros x Hx; apply Hl; by right|]. split_and!; [done|eapply retains_trans; [by apply retains_grows|done]|].
  intros Hw x [->|Hx]%elem_of_cons; [|by apply A2]. apply K2. done.
Qed.
Lemma add_seeds_spec seeds w i : walking ∅ (-1) w → 0 ≤ max_depth →
  (∀ x, x ∈ seeds → (∃ n, seed_matches x.2 n) ∧ ∀ n, seed_matches x.2 n → seeded (gn_id n)) →
  ∃ w' j, add_seeds d s seeds w i = ROk (w', j) ∧ walking ∅ (-1) w' ∧ retains w w'
  ∧ (whole w' → ∀ x n, x ∈ seeds → seed_matches x.2 n → at_depth w' (gn_id n) (λ k, k ≤ 0)).
Proof.
  intros W Hm. revert w i W. induction seeds as [|[key seed] seeds IH]; intros w i W Hs; cbn [add_seeds].
  { exists w, i. split; [done|]. split_and!; [done|split; auto|]. by intros _ x n ?%not_elem_of_nil. }
  unfold mbind, tx_bind, statement. destruct (late i).
  { eexists _, _. split; [done|]. split_and!; [by apply truncate_walking|apply retains_truncate|]. intros H. apply truncate_lost in H; [done|by left]. }
  destruct (context_seed_nodes_spec seed) as (l & -> & H1 & H2). cbn [mret tx_ret]. destruct (Hs (key, seed)) as [[n0 Hn0] Hd]; [left|]. cbn in Hn0, Hd.
  destruct l as [|n l'] eqn:El. { exfalso. apply (not_elem_of_nil n0), H2; [cbn; lia|done]. }
  rewrite <- El in *. clear El n l'. set (w1 := if Nat.ltb _ _ then _ else w).
  assert (walking ∅ (-1) w1 ∧ retains w w1) as [W1 K1].
  { unfold w1. destruct (Nat.ltb _ _); [split; [by apply truncate_walking|apply retains_truncate]|split; [done|split; auto]]. }
  destruct (add_seed_nodes_spec (take MAX_CONTEXT_CANDIDATES l) w1 W1 Hm) as (W2 & K2 & A2).
  { intros n (y & Hy & _)%elem_of_take. apply list_elem_of_lookup_2, H1 in Hy. split; [exact (proj1 Hy)|by apply Hd]. }
  destruct (IH (add_seed_nodes (take MAX_CONTEXT_CANDIDATES l) w1) (S i) W2) as (w3 & j & E & W3 & K3 & A3); [intros x Hx; apply Hs; by right|].
  exists w3, j. split; [exact E|]. split_and!; [done|by eapply retains_trans, retains_trans|].
  intros Hw x n [->|Hx]%elem_of_cons Hn; [|by eapply A3]. assert (whole w1) as Hw1 by by apply K2, K3. assert (length l ≤ MAX_CONTEXT_CANDIDATES)%nat as Hlen.
  { unfold w1 in Hw1. destruct (Nat.ltb _ _) eqn:Elt; [apply truncate_lost in Hw1; [done|by right]|]. by apply Nat.ltb_ge in Elt. }
  apply K3, A2; [by apply K3|]. rewrite take_ge by lia. by apply H2.
Qed.
End graph.

(** ** The whole assembly *)
Lemma ser_seed_inj a b : ser_seed a = ser_seed b → a = b.
Proof. destruct a as [x|x|x], b as [y|y|y]; intros [= H]; f_equal; first [by apply id_as_str_inj|by apply path_str_inj]. Qed.
Lemma sorted_seeds_elem `{!JsonText, !JsonTextLaws} seeds :
  (∀ x, x ∈ sorted_seeds seeds → x.2 ∈ seeds) ∧ ∀ seed, seed ∈ seeds → ∃ key, (key, seed) ∈ sorted_seeds seeds.
Proof.
  unfold sorted_seeds. set (f := fix dedup_key (l : list (string * ContextSeed)) := _).
  assert (∀ l, (∀ x, x ∈ f l → x ∈ l) ∧ (∀ x, x ∈ l → ∃ y, y ∈ f l ∧ y.1 = x.1) ∧ (∀ x l', l = x :: l' → ∃ t, f l = x :: t)) as Hf.
  { induction l as [|x [|y l] IH]; [cbn; naive_solver..|]. destruct IH as (I1 & I2 & I3). destruct (I3 y l eq_refl) as [t Et].
    change (f (x :: y :: l)) with (if String.eqb x.1 y.1 then x :: (match f (y :: l) with _ :: l'' => l'' | [] => [] end) else x :: f (y :: l)).
    rewrite Et in *. destruct (String.eqb_spec x.1 y.1) as [E|E]; split_and!.
    - intros z [->|Hz]%elem_of_cons; [left|]. right. apply I1. by right.
    - intros z [->|Hz]%elem_of_cons; [exists x; split; [left|done]|]. destruct (I2 z Hz) as (z' & [->|Hz']%elem_of_cons & Ez).
      + exists x. split; [left|congruence].
      + exists z'. split; [by right|done].
    - intros x' l' [= <- <-]. by eexists.
    - intros z [->|Hz]%elem_of_cons; [left|]. right. by apply I1.
    - intros z [->|Hz]%elem_of_cons; [exists x; split; [left|done]|]. destruct (I2 z Hz) as (z' & Hz' & Ez). exists z'. split; [by right|done].
    - intros x' l' [= <- <-]. by eexists. }
  assert (∀ x, x ∈ sort_by (on_key fst String.compare) ((λ s, (context_seed_key s, s)) <$> seeds) ↔ x.2 ∈ seeds ∧ x.1 = context_seed_key x.2) as Hl.
  { intros [key seed]. rewrite sort_by_perm, list_elem_of_fmap. cbn. naive_solver. }
  destruct (Hf (sort_by (on_key fst String.compare) ((λ s, (context_seed_key s, s)) <$> seeds))) as (H1 & H2 & _). split.
  - intros x Hx%H1. by apply Hl.
  - intros seed Hseed. destruct (H2 (context_seed_key seed, seed)) as ([key seed'] & Hy & E); [by apply Hl|]. exists key.
    pose proof (H1 _ Hy) as [_ Ek]%Hl. cbn in *. rewrite Ek in E. assert (seed' = seed) as ->; [|done]. apply ser_seed_inj. unfold context_seed_key in E.
    apply (f_equal json_parse) in E. rewrite !json_parse_text in E. by injection E.
Qed.
Lemma evidenced_elem w x : x ∈ evidenced w ↔ ∃ id c, wk_candidates w !! id = Some c ∧ xc_node x = cc_node c
  ∧ fp_evidence (gn_provenance (cc_node c)) = Some (xc_evidence x) ∧ xc_depth x = cc_depth c ∧ xc_reasons x = sort_context_reasons (cc_reasons c).
Proof.
  unfold evidenced. rewrite sort_by_perm, list_elem_of_fmap. split.
  - intros (y & -> & (c & Hin & (e & He & [= <-])%bind_Some)%list_elem_of_omap). rewrite in_id_order_perm in Hin.
    apply list_elem_of_fmap in Hin as ([id c'] & -> & Hc%elem_of_map_to_list). cbn in *. exists id, c'. done.
  - intros (id & c & Hc & Hn & He & Hd & Hr). exists (mk_evidenced (cc_node c) (xc_evidence x) (cc_depth c) (cc_reasons c)).
    split; [destruct x; cbn in *; by subst|]. apply list_elem_of_omap. exists c. split.
    + rewrite in_id_order_perm. apply list_elem_of_fmap. exists (id, c). split; [done|by apply elem_of_map_to_list].
    + unfold with_evidence. by rewrite He.
Qed.
Lemma evidenced_once w : (∀ id c, wk_candidates w !! id = Some c → gn_id (cc_node c) = id) → NoDup ((gn_id ∘ xc_node) <$> evidenced w).
Proof.
  intros H. unfold evidenced. rewrite sort_by_perm, <- list_fmap_compose.
  assert (NoDup ((gn_id ∘ cc_node) <$> in_id_order (wk_candidates w))) as Hl.
  { rewrite in_id_order_perm, <- list_fmap_compose. replace (_ <$> map_to_list _) with ((map_to_list (wk_candidates w)).*1); [apply NoDup_fst_map_to_list|].
    apply list_fmap_ext. intros i [id c] Hi%list_elem_of_lookup_2%elem_of_map_to_list. cbn. by rewrite (H _ _ Hi). }
  revert Hl. generalize (in_id_order (wk_candidates w)). intros l. induction l as [|c l IH]; cbn; [done|]. intros [Hc Hl]%NoDup_cons.
  unfold with_evidence at 1. destruct (fp_evidence _) as [e|]; cbn; [|by apply IH]. apply NoDup_cons. split; [|by apply IH]. cbn.
  intros (y & Ey & (c' & Hc' & (e' & _ & [= <-])%bind_Some)%list_elem_of_omap)%list_elem_of_fmap. cbn in Ey. apply Hc. apply list_elem_of_fmap. by exists c'.
Qed.

(** ** What the indexer commits is readable *)
Lemma fact_columns_path p c : fact_columns p = ROk c → fc_evidence_path c = path_str ∘ ev_path <$> fp_evidence p.
Proof. unfold fact_columns. destruct (fp_evidence p); intros H; tx_inv; by subst. Qed.
Lemma node_columns_path {FT : FloatText} {JT : JsonText} {LC : Lowercase} n row : node_columns n = ROk row → fc_evidence_path (nr_fact row) = path_str <$> evidence_path n.
Proof.
  unfold node_columns. intros H. apply res_bind_ROk in H as (c & H%fact_columns_path & [= <-]). cbn. rewrite H. unfold evidence_path. by destruct (fp_evidence _).
Qed.
Lemma committed_readable {FT : FloatText} {JT : JsonText} {JTL : JsonTextLaws} {LC : Lowercase} {exact : f64 → Prop} {FL : FloatTextLaws exact} t c d d' r :
  sidecar_ok d → complete_index t c d = ROk (r, d') → sd_snapshots d !! id_as_str (gs_id (ic_snapshot c)) = None → snapshot_in_range (ic_snapshot c) →
  Forall (node_typed exact) (gf_nodes (ic_graph c)) → Forall (edge_typed exact) (gf_edges (ic_graph c)) →
  Forall edge_consistent (gf_edges (ic_graph c)) → readable d' (gs_id (ic_snapshot c)).
Proof.
  intros W H Hn R TN TE CE. pose proof (complete_index_ok _ _ _ _ _ H R W) as W'.
  destruct (complete_index_rows _ _ _ _ _ W H Hn R) as (_ & _ & _ & (_ & N2) & (_ & E2)).
  rewrite Forall_forall in TN. rewrite Forall_forall in TE. rewrite Forall_forall in CE. constructor.
  - intros i row (n & Hin & E & Hv)%N2. exists n. rewrite <- E. split; [apply decode_node_columns; [by apply TN|done]|by apply node_columns_path].
  - intros i row (e & Hin & E & Hv)%E2. exists e. rewrite <- E. apply decode_edge_columns; [by apply TE|by apply CE|done].
  - intros e a (row & Hr & De) Ha. destruct (lk_edges _ (ok_linked _ W') _ _ Hr) as (_ & Hs & Ht & _). cbn in Hs, Ht.
    destruct (decode_edge_columns_of _ _ _ De) as (_ & _ & Es & Et). destruct Ha as [<-|Ha]; [by rewrite Es|]. apply Ht. by apply Et.
Qed.
Lemma committed_stored {FT : FloatText} {JT : JsonText} {JTL : JsonTextLaws} {LC : Lowercase} {exact : f64 → Prop} {FL : FloatTextLaws exact} t c d d' r n :
  sidecar_ok d → complete_index t c d = ROk (r, d') → sd_snapshots d !! id_as_str (gs_id (ic_snapshot c)) = None → snapshot_in_range (ic_snapshot c) →
  n ∈ gf_nodes (ic_graph c) → node_typed exact n → gn_snapshot_id n = gs_id (ic_snapshot c) → stored_node d' (gs_id (ic_snapshot c)) n.
Proof.
  intros W H Hn R Hin Tn Es. destruct (complete_index_rows _ _ _ _ _ W H Hn R) as (_ & _ & _ & (N1 & _) & _).
  destruct (N1 n Hin) as (row & Hv & Hk). exists row. rewrite <- Es. split; [done|]. by apply decode_node_columns.
Qed.

Section assembly.
Context {FT : FloatText} {JT : JsonText} {JTL : JsonTextLaws} {DL : Deadline}.
Definition seeded_by (d : sidecar) (s : SnapshotId) (seeds : list ContextSeed) (id : NodeId) : Prop :=
  ∃ seed n, seed ∈ seeds ∧ seed_matches d s seed n ∧ gn_id n = id.
Lemma empty_walking d s p max_depth seeded : walking d s p max_depth seeded ∅ (-1) empty_walk.
Proof.
  constructor; cbn.
  - intros id c H. by rewrite lookup_empty in H.
  - intros id Hx. by apply not_elem_of_empty in Hx.
  - intros id k Hx. by apply not_elem_of_nil in Hx.
  - intros id Hx. rewrite lookup_empty in Hx. by apply is_Some_None in Hx.
  - constructor.
  - exists [], []. split_and!; [done|..]; by intros x ?%not_elem_of_nil.
  - intros i Hx. by apply not_elem_of_empty in Hx.
  - rewrite map_size_empty. lia.
Qed.
Lemma sort_frontier_walking d s p max_depth seeded w :
  walking d s p max_depth seeded ∅ (-1) w → walking d s p max_depth seeded ∅ (-1) (sort_frontier w).
Proof.
  assert (∀ x, x ∈ wk_frontier (sort_frontier w) ↔ x ∈ wk_frontier w) as Hf by (intros x; cbn; by rewrite sort_by_perm).
  intros W. pose proof W as [W1 W2 W3 W4 W5 W6 W7 W8]. constructor; try done.
  - intros id k Hx. apply W3. by apply Hf.
  - intros id Hx. destruct (W4 _ Hx) as [?|Hx']; [by left|right]. cbn. by rewrite sort_by_perm.
  - cbn. by rewrite sort_by_perm.
  - exists [], (wk_frontier (sort_frontier w)). split_and!; [done|by intros x ?%not_elem_of_nil|]. intros x Hx%Hf.
    destruct W6 as (f1 & f2 & E & H1 & H2). rewrite E in Hx. apply elem_of_app in Hx as [Hx|Hx]; [|by apply H2]. exfalso.
    pose proof (H1 _ Hx) as Ek. destruct x as [id k]. destruct (W3 id k) as [(c & Hc & ->) _]; [rewrite E; apply elem_of_app; by left|].
    destruct (W1 _ _ Hc) as (_ & _ & Hr%reach_nonneg & _). cbn in Ek. lia.
Qed.
Lemma context_walk_spec d s max_depth q i : readable d s → 0 ≤ max_depth → (∀ seed, seed ∈ cq_seeds q → ∃ n, seed_matches d s seed n) →
  ∃ w j, context_walk d s max_depth q i = ROk (w, j) ∧ walked d s (cq_policy q) max_depth (seeded_by d s (cq_seeds q)) w.
Proof.
  intros R Hm Hs. destruct (sorted_seeds_elem (cq_seeds q)) as [S1 S2].
  destruct (add_seeds_spec d s R (cq_policy q) max_depth (seeded_by d s (cq_seeds q)) (sorted_seeds (cq_seeds q)) empty_walk i) as (w & j & E & W & _ & B).
  { apply empty_walking. } { done. } { intros x Hx%S1. split; [by apply Hs|]. intros n Hn. by exists x.2, n. }
  unfold context_walk. rewrite (tx_bind_run _ _ _ _ _ E). eapply run_walk_spec; [done|by apply sort_frontier_walking| |unfold walk_fuel; lia].
  intros Hw. split; [|intros a Ha; by apply not_elem_of_empty in Ha]. intros id (seed & n & (key & Hk)%S2 & Hn & <-). by apply (B Hw (key, seed) n).
Qed.
(** C13. Context assembly is a bounded breadth-first search. On a snapshot whose
    rows read back, with seeds that each match a node, it always returns,
    whatever the deadline does; every candidate is a stored node with its
    evidence, listed once, and its depth is the length of a path from a seed
    over edges and nodes the policy allows, never past the depth of the budget.
    Unless it ran out of time or of candidates, it misses nothing: every node
    with evidence that such a path reaches within the depth is there, at a
    depth no greater, and when nothing at all was cut every reachable node is. *)
Theorem context_is_shortest_paths d scope q i :
  let s := gs_id (rs_snapshot scope) in
  let max_depth := eb_max_depth (rs_budget scope) in
  let reachable := reach d s (cq_policy q) (seeded_by d s (cq_seeds q)) in
  readable d s → 0 ≤ max_depth → (∀ seed, seed ∈ cq_seeds q → ∃ n, seed_matches d s seed n) →
  ∃ a j, assemble_context d scope q i = ROk (a, j)
  ∧ NoDup ((gn_id ∘ xc_node) <$> ca_candidates a)
  ∧ (∀ x, x ∈ ca_candidates a → stored_node d s (xc_node x) ∧ fp_evidence (gn_provenance (xc_node x)) = Some (xc_evidence x)
       ∧ reachable (xc_depth x) (gn_id (xc_node x)) ∧ xc_depth x ≤ max_depth)
  ∧ (ca_truncation a ≠ Some TDuration → ca_truncation a ≠ Some TCapability →
     ∀ k n e, stored_node d s n → fp_evidence (gn_provenance n) = Some e → reachable k (gn_id n) → k ≤ max_depth ∨ ca_truncation a = None →
     ∃ x, x ∈ ca_candidates a ∧ xc_node x = n ∧ xc_depth x ≤ k).
Proof.
  intros s max_depth reachable R Hm Hs. destruct (context_walk_spec d s max_depth q i R Hm Hs) as (w & j & E & F).
  unfold assemble_context. fold s max_depth. rewrite (tx_bind_run _ _ _ _ _ E). eexists _, j. split; [done|]. cbn [ca_candidates ca_truncation].
  pose proof F as (X & cur & W & _). split_and!.
  - apply evidenced_once. intros id c Hc. by destruct (wa_sound _ _ _ _ _ _ _ _ W _ _ Hc).
  - intros x (id & c & Hc & -> & He & -> & _)%evidenced_elem. destruct (wa_sound _ _ _ _ _ _ _ _ W _ _ Hc) as (-> & ? & ? & ? & _). done.
  - intros H1 H2 k n e Hn He Hr Hk. destruct (walked_complete _ _ _ _ _ w k (gn_id n) F) as (c & Hc & Hd); [by split|done|done|].
    destruct (wa_sound _ _ _ _ _ _ _ _ W _ _ Hc) as (Ei & Hsn & _). assert (cc_node c = n) as En by by eapply stored_node_same.
    exists (mk_evidenced n e (cc_depth c) (sort_context_reasons (cc_reasons c))). split; [|done]. apply evidenced_elem. exists (gn_id n), c. by rewrite En.
Qed.
End assembly.

(** ** Neighborhoods: the fuel covers every node that can be on the frontier *)
Section near.
Context {FT : FloatText} {JT : JsonText} {DL : Deadline} (d : sidecar) (s : SnapshotId) (b : EffectiveBudget) (q : NeighborhoodRequest).
Definition pending (w : near) : nat := (length (nh_frontier w) + (Z.to_nat (eb_max_results b) - size (nh_nodes w)))%nat.
Lemma node_by_id_id id n : node_by_id d s id = ROk (Some n) → gn_id n = id.
Proof.
  unfold node_by_id. destruct (sd_nodes d !! _) as [row|]; [|done]. unfold read_node. destruct (decode_node _ _) as [n'|] eqn:E; [|done].
  intros [= <-]. apply id_as_str_inj. exact (decode_node_id _ _ _ E).
Qed.
Lemma near_edges_pending direction current depth l w i w' j :
  near_edges d s b direction current depth l w i = ROk (w', j) → (pending w' ≤ pending w)%nat.
Proof.
  revert w i. induction l as [|e l IH]; intros w i; cbn [near_edges]; [by intros [= <- _]|].
  destruct (some (nh_edges w !! ge_id e)); [apply IH|]. destruct (eb_max_results b <=? near_results w); [by intros [= <- _]|].
  destruct (eb_max_bytes b <? _); [by intros [= <- _]|]. set (w1 := (w <| nh_bytes := _ |>) <| nh_edges := _ |>).
  assert (pending w1 = pending w) as <- by done. destruct (adjacent_node e current direction) as [next|]; [|apply IH].
  destruct (nh_nodes w1 !! next) as [x|] eqn:En; cbn [some]; [apply IH|]. destruct (Z.leb_spec (eb_max_results b) (near_results w1)) as [Hr|Hr]; [by intros [= <- _]|].
  unfold mbind, tx_bind, statement. destruct (late i); [by intros [= <- _]|]. destruct (node_by_id d s next) as [[n|]|] eqn:Eb; [|done|done].
  destruct (eb_max_bytes b <? _); [by intros [= <- _]|]. intros H%IH. etrans; [exact H|]. apply node_by_id_id in Eb.
  unfold pending, add_near_node. cbn -[w1]. rewrite length_app, map_size_insert, Eb, En. unfold near_results in Hr. cbn in Hr |- *. lia.
Qed.
Lemma near_step_pending w i w' j : near_step d s b q w i = ROk (inr w', j) → (pending w' < pending w)%nat.
Proof.
  unfold near_step. destruct (nh_frontier w) as [|[current depth] rest] eqn:Ef; [done|]. set (w1 := (w <| nh_frontier := _ |>) <| nh_explored := _ |>).
  assert (pending w = S (pending w1)) as -> by (unfold pending; by rewrite Ef). destruct (some (nh_reason w1)); [done|].
  unfold mbind, tx_bind, look, statement. destruct (late i); [done|]. destruct (eb_max_depth b <=? depth).
  - destruct (late (S i)); [done|]. destruct (edges_of _ _ _ _ _ _ _) as [[|e l]|]; [by intros [= <- _]; lia| |done]. intros [= <- _]. by apply Nat.lt_succ_r.
  - destruct (_ <=? 0); [done|]. destruct (late (S i)); [done|]. destruct (edges_of _ _ _ _ _ _ _) as [l|]; [|done].
    destruct (near_edges _ _ _ _ _ _ _ _ _) as [[w2 j2]|] eqn:E; [|done]. intros [= <- _]. apply near_edges_pending in E. lia.
Qed.
Lemma near_walk_enough fuel fuel' w i : (pending w < fuel)%nat → (fuel ≤ fuel')%nat → near_walk fuel' d s b q w i = near_walk fuel d s b q w i.
Proof.
  revert fuel' w i. induction fuel as [|fuel IH]; intros [|fuel'] w i H1 H2; [lia..|]. cbn [near_walk]. unfold mbind, tx_bind.
  destruct (near_step d s b q w i) as [[[w'|w'] j]|] eqn:E; [done| |done]. apply near_step_pending in E. apply IH; lia.
Qed.
Lemma near_roots_frontier roots w i w' j : near_roots d s b roots w i = ROk (w', j) → (length (nh_frontier w') ≤ length (nh_frontier w) + length roots)%nat.
Proof.
  revert w i. induction roots as [|root roots IH]; intros w i; cbn [near_roots]; [intros [= <- _]; lia|].
  unfold mbind, tx_bind, statement. destruct (late i); [intros [= <- _]; cbn; lia|]. destruct (node_by_id d s root) as [[n|]|]; [|done|done].
  destruct (_ <=? _); [intros [= <- _]; cbn; lia|]. destruct (_ <? _); [intros [= <- _]; cbn; lia|]. intros H%IH. cbn in *. rewrite length_app in H. cbn in H. lia.
Qed.
(** More rounds than [near_fuel] make no difference to a neighborhood. *)
Lemma near_fuel_enough i w j fuel : near_roots d s b (nq_roots q) (mk_near ∅ ∅ [] 0 None 0) i = ROk (w, j) → (near_fuel b q ≤ fuel)%nat →
  near_walk fuel d s b q w j = near_walk (near_fuel b q) d s b q w j.
Proof. intros H%near_roots_frontier Hf. apply near_walk_enough; [|done]. unfold pending, near_fuel. cbn in H. lia. Qed.
End near.
