(* ===== verification/GraphPaging.v ===== *)
(** Pages of a query: a cursor carries the place where a page stopped, and a
    client that follows the cursors of a search reads every match once, in
    rank order; the text of a search is matched literally. *)
From S2P Require Import Prelude View Transact Wire Identity AgentData AgentWire AgentWireFacts Text GraphDomain GraphStore GraphIndexStore GraphMaintenance GraphInvariant GraphLifecycle GraphTheorems GraphContents GraphIndex GraphQuery GraphWalk.
#[local] Open Scope list_scope.

(** ** Cursors *)
Lemma unhex_byte c s : unhex (hex_byte (code_of c) +:+ s) = rest ← unhex s; Some (String c rest).
Proof.
  change (hex_byte (code_of c) +:+ s) with (String (hex_digit (code_of c / 16)) (String (hex_digit (code_of c mod 16)) s)). cbn [unhex].
  generalize (unhex s). intros o. destruct c as [[] [] [] [] [] [] [] []]; reflexivity.
Qed.
Lemma unhex_hex s : unhex (hex s) = Some s.
Proof. induction s as [|c s IH]; [done|]. cbn [hex]. rewrite unhex_byte, IH. done. Qed.
Lemma hex_length s : String.length (hex s) = (2 * String.length s)%nat.
Proof.
  induction s as [|c s IH]; [done|]. cbn [hex].
  change (hex_byte (code_of c) +:+ hex s) with (String (hex_digit (code_of c / 16)) (String (hex_digit (code_of c mod 16)) (hex s))). cbn. lia.
Qed.
#[local] Arguments ser_opaque_id : simpl never.
#[local] Arguments de_opaque_id : simpl never.
#[local] Arguments ser_int : simpl never.
#[local] Arguments de_u64 : simpl never.
#[local] Arguments de_u32 : simpl never.
#[local] Hint Rewrite de_ser_opaque_id : serde.
Lemma de_ser_cursor c : u32 (cu_version c) → u64 (cu_offset c) → de_cursor (ser_cursor c) = Some c.
Proof.
  destruct c as [v o s f n]. intros Hv Hn. simpl in *. unfold de_cursor, ser_cursor. serde_struct. rewrite de_ser_u32 by done. simpl.
  autorewrite with serde. simpl. by rewrite de_ser_offset.
Qed.

Section cursors.
Context {JT : JsonText} {JL : JsonTextLaws}.
(** A cursor is short when the service's own limit accepts it. *)
Definition short_cursor (operation : string) (s : SnapshotId) (fingerprint : string) (offset : Z) : Prop :=
  (String.length (json_text (ser_cursor (mk_cursor CURSOR_VERSION operation s fingerprint offset))) ≤ 2048)%nat.
Lemma encoded_cursor operation s fingerprint offset : short_cursor operation s fingerprint offset → u64 offset →
  ∃ c, encode_cursor operation s fingerprint offset = ROk c ∧
  ∀ operation' s' fingerprint', decode_cursor (Some c) operation' s' fingerprint' =
    if decide (operation = operation' ∧ s = s' ∧ fingerprint = fingerprint') then ROk offset else RErr stale_cursor_error.
Proof.
  intros Hlen Ho. unfold short_cursor in Hlen. unfold encode_cursor. set (payload := mk_cursor _ _ _ _ _) in *. set (bytes := json_text (ser_cursor payload)) in *.
  assert (∃ c : opaque_id, id_as_str c = "cursor:" +:+ hex bytes) as [c Ec].
  { assert ("cursor:" +:+ hex bytes ≠ "") as Hne by done. by exists (dexist ("cursor:" +:+ hex bytes) Hne). }
  rewrite <- Ec, as_id_str. exists c. split; [done|]. intros operation' s' fingerprint'. unfold decode_cursor. rewrite Ec, strip_prefix_app. cbn [ok_or mbind res_bind].
  assert (Nat.ltb 4096 (String.length (hex bytes)) || Nat.odd (String.length (hex bytes)) = false) as ->.
  { rewrite hex_length, Nat.odd_mul. apply orb_false_iff. split; [apply Nat.ltb_ge; lia|done]. }
  rewrite unhex_hex. cbn [negb rcheck ok_or mbind res_bind]. unfold bytes. rewrite json_parse_text. cbn [mbind option_bind]. rewrite de_ser_cursor; [|done|exact Ho].
  cbn -[String.eqb CURSOR_VERSION bool_decide]. rewrite Z.eqb_refl. cbn -[String.eqb bool_decide].
  destruct (String.eqb_spec operation operation') as [E1|E1], (bool_decide_reflect (s = s')) as [E2|E2], (String.eqb_spec fingerprint fingerprint') as [E3|E3]; cbn; case_decide; naive_solver.
Qed.
End cursors.

(** ** Patterns: the text of a search is matched as it is, apart from case *)
Definition occurs (x v : string) : Prop := ∃ before found after, v = before +:+ found +:+ after ∧ sql_lower found = sql_lower x.
Lemma sql_lower_cons c v : sql_lower (String c v) = String (ascii_lower c) (sql_lower v).
Proof. done. Qed.
Lemma ascii_lower_idem c : ascii_lower (ascii_lower c) = ascii_lower c.
Proof. destruct c as [[] [] [] [] [] [] [] []]; reflexivity. Qed.
Lemma sql_lower_idem v : sql_lower (sql_lower v) = sql_lower v.
Proof. induction v as [|c v IH]; [done|]. rewrite !sql_lower_cons. by rewrite ascii_lower_idem, IH. Qed.
Lemma sql_lower_app u v : sql_lower (u +:+ v) = sql_lower u +:+ sql_lower v.
Proof. induction u as [|c u IH]; [done|]. change (String c u +:+ v) with (String c (u +:+ v)). rewrite !sql_lower_cons, IH. done. Qed.
Lemma sql_lower_split v a r : sql_lower v = a +:+ r → ∃ u w, v = u +:+ w ∧ sql_lower u = a ∧ sql_lower w = r.
Proof.
  revert v. induction a as [|c a IH]; intros v E; [by exists "", v|]. destruct v as [|c' v]; [done|]. rewrite sql_lower_cons in E.
  change (String c a +:+ r) with (String c (a +:+ r)) in E. injection E as <- E. destruct (IH v E) as (u & w & -> & <- & <-). by exists (String c' u), w.
Qed.
Lemma occurs_lower x v : occurs x (sql_lower v) ↔ occurs x v.
Proof.
  split.
  - intros (a & f & r & E & Hf). destruct (sql_lower_split _ _ _ E) as (u & w & -> & _ & E'). destruct (sql_lower_split _ _ _ E') as (f' & w' & -> & E'' & _).
    exists u, f', w'. split; [done|]. by rewrite <- Hf, <- E'', sql_lower_idem.
  - intros (a & f & r & -> & Hf). exists (sql_lower a), (sql_lower f), (sql_lower r). by rewrite !sql_lower_app, sql_lower_idem.
Qed.
Lemma same_folded_eq a c : same_folded a c = true ↔ ascii_lower a = ascii_lower c.
Proof. apply Ascii.eqb_eq. Qed.
Lemma like_char c p a v : same_folded a c && like p v = true ↔ ascii_lower a = ascii_lower c ∧ like p v = true.
Proof. by rewrite andb_true_iff, same_folded_eq. Qed.
Lemma like_escape x p v : like (escape_like x +:+ p) v = true ↔ ∃ u w, v = u +:+ w ∧ sql_lower u = sql_lower x ∧ like p w = true.
Proof.
  revert v. induction x as [|c x IH]; intros v.
  { split; [intros H; by exists "", v|]. intros (u & w & -> & Hu & H). destruct u; [done|]. by rewrite sql_lower_cons in Hu. }
  assert (like (escape_like (String c x) +:+ p) v = match v with "" => false | String a v => same_folded a c && like (escape_like x +:+ p) v end) as ->.
  { change (escape_like (String c x)) with
      (if Ascii.eqb c backslash || Ascii.eqb c percent || Ascii.eqb c underscore then String backslash (String c (escape_like x)) else String c (escape_like x)).
    destruct (Ascii.eqb_spec c backslash) as [->|H1]; [done|]. destruct (Ascii.eqb_spec c percent) as [->|H2]; [done|].
    destruct (Ascii.eqb_spec c underscore) as [->|H3]; [done|]. cbn [orb]. change (String c (escape_like x) +:+ p) with (String c (escape_like x +:+ p)). cbn [like].
    rewrite (proj2 (Ascii.eqb_neq _ _) H1), (proj2 (Ascii.eqb_neq _ _) H2), (proj2 (Ascii.eqb_neq _ _) H3). done. }
  destruct v as [|a v].
  { split; [done|]. intros (u & w & E & Hu & _). destruct u; [|done]. by rewrite sql_lower_cons in Hu. }
  rewrite like_char, IH. split.
  - intros (Ha & u & w & -> & Hu & Hw). exists (String a u), w. rewrite !sql_lower_cons. split_and!; [done|congruence|done].
  - intros (u & w & E & Hu & Hw). destruct u as [|a' u]; [by rewrite sql_lower_cons in Hu|]. change (String a' u +:+ w) with (String a' (u +:+ w)) in E.
    injection E as -> ->. rewrite !sql_lower_cons in Hu. injection Hu as Ha Hu. split; [done|]. by exists u, w.
Qed.
Lemma like_any p v : like (String percent p) v = true ↔ ∃ u w, v = u +:+ w ∧ like p w = true.
Proof.
  cbn [like]. rewrite Ascii.eqb_refl. induction v as [|c v IH].
  - cbn. rewrite orb_false_r. split; [intros H; by exists "", ""|]. intros (u & w & E & H). destruct u; [by change ("" +:+ w) with w in E; subst|done].
  - rewrite orb_true_iff, IH. split.
    + intros [H|(u & w & -> & H)]; [by exists "", (String c v)|]. by exists (String c u), w.
    + intros (u & w & E & H). destruct u as [|c' u]; [left; by change ("" +:+ w) with w in E; subst|]. right. injection E as -> ->. by exists u, w.
Qed.
Lemma like_anything v : like "%" v = true.
Proof. apply like_any. exists v, "". split; [|done]. symmetry. apply string_app_nil_r. Qed.
Lemma like_inside x v : like ("%" +:+ escape_like x +:+ "%") v = true ↔ occurs x v.
Proof.
  change ("%" +:+ escape_like x +:+ "%") with (String percent (escape_like x +:+ "%")). rewrite like_any. setoid_rewrite like_escape. unfold occurs.
  split; [intros (a & r & -> & f & w & -> & Hf & _); by exists a, f, w|]. intros (a & f & w & -> & Hf). exists a, (f +:+ w). split; [done|].
  exists f, w. split_and!; [done..|apply like_anything].
Qed.
Lemma like_prefix x v : like (escape_like x +:+ "%") v = true → occurs x v.
Proof. rewrite like_escape. intros (f & w & -> & Hf & _). by exists "", f, w. Qed.

Lemma Forall2_same {A} (l : list A) : Forall2 eq l l.
Proof. induction l; by constructor. Qed.
Lemma StronglySorted_Forall2 {A B} (P : A → B → Prop) (R : A → A → Prop) (R' : B → B → Prop) l l' :
  (∀ x y x' y', P x x' → P y y' → R x y → R' x' y') → Forall2 P l l' → StronglySorted R l → StronglySorted R' l'.
Proof.
  intros H F. induction F as [|x x' l l' Hx F IH]; [constructor|]. intros [Hs Hl]%StronglySorted_inv. constructor; [by apply IH|]. clear IH Hs.
  induction F as [|y y' l l' Hy F IH]; [constructor|]. apply Forall_cons in Hl as [Hxy Hl]. constructor; [by eapply H|by apply IH].
Qed.
(** What a row is searched by, and the files a filter lets through *)
Definition text_fields (r : node_row) : list string :=
  [nr_normalized_name r; default "" (nr_semantic_key r); default "" (fc_evidence_path (nr_fact r))].
Definition under (paths : list RepoPath) (path : option string) : Prop :=
  paths = [] ∨ ∃ p file, p ∈ paths ∧ path = Some file
    ∧ (file = path_str p ∨ ∃ dir rest, file = dir +:+ "/" +:+ rest ∧ sql_lower dir = sql_lower (path_str p)).
Lemma path_allowed_under paths path : path_allowed paths path = true ↔ under paths path.
Proof.
  unfold path_allowed, under. rewrite orb_true_iff, bool_decide_eq_true, existsb_exists. apply or_iff_compat_l.
  assert (∀ p file, String.eqb file (path_str p) || like (escape_like (path_str p) +:+ "/%") file = true ↔
    file = path_str p ∨ ∃ dir rest, file = dir +:+ "/" +:+ rest ∧ sql_lower dir = sql_lower (path_str p)) as H.
  { intros p file. rewrite orb_true_iff, String.eqb_eq, like_escape. apply or_iff_compat_l. split.
    - intros (u & w & -> & Hu & Hw). destruct w as [|c w]; [done|]. change (like "/%" (String c w)) with (same_folded c "/" && like "%" w) in Hw.
      apply like_char in Hw as [Hc _]. exists u, w. split; [|done]. f_equal. change ("/" +:+ w) with (String "/" w). f_equal.
      revert Hc. clear. destruct c as [[] [] [] [] [] [] [] []]; done.
    - intros (dir & rest & -> & Hd). exists dir, ("/" +:+ rest). split_and!; [done..|]. change (like "%" rest = true). apply like_anything. }
  split.
  - intros (p & Hp%list_elem_of_In & Hf). destruct path as [file|]; [|done]. exists p, file. split_and!; [done..|by apply H].
  - intros (p & file & Hp & -> & Hf). exists p. split; [by apply list_elem_of_In|by apply H].
Qed.
Lemma row_matches_literal `{!Lowercase} q x r : row_matches q x r = true ↔
  (∃ field, field ∈ text_fields r ∧ occurs x field) ∧ kind_allowed (sq_node_kinds q) (nr_kind r) = true ∧ under (sq_paths q) (fc_evidence_path (nr_fact r)).
Proof.
  unfold row_matches, text_fields. rewrite !andb_true_iff, !orb_true_iff, path_allowed_under, String.eqb_eq, !like_inside.
  unfold row_key, row_path. rewrite !occurs_lower. setoid_rewrite elem_of_cons. setoid_rewrite elem_of_cons. setoid_rewrite list_elem_of_singleton.
  assert (nr_normalized_name r = x → occurs x (nr_normalized_name r)) as He.
  { intros <-. exists "", (nr_normalized_name r), "". split; [|done]. change ("" +:+ ?v) with v. symmetry. apply string_app_nil_r. }
  pose proof (like_prefix x (nr_normalized_name r)). split.
  - intros [[[[[[?|?]|?]|?]|?] ?] ?]; split_and!; eauto 8.
  - intros ((field & [->|[->| ->]] & ?) & ? & ?); tauto.
Qed.

(** ** One page *)
Section pages.
Context {FT : FloatText} {JT : JsonText} {JL : JsonTextLaws} {SH : Sha256} {LC : Lowercase} {DL : Deadline}.
Context (in_time : ∀ i, late i = false).
Definition total_len {B} (ser : B → json) (items : list B) : Z := foldr (λ b n, serialized_len (ser b) + n) 0 items.
Lemma total_len_app {B} (ser : B → json) l k : total_len ser (l ++ k) = total_len ser l + total_len ser k.
Proof. unfold total_len. induction l as [|b l IH]; cbn; lia. Qed.
Lemma fill_page_spec {A B} (render : A → B) (ser : B → json) (b : EffectiveBudget) items bytes rows i :
  eb_max_bytes b < usize_max → bytes = total_len ser items → bytes ≤ eb_max_bytes b → Z.of_nat (length items) ≤ eb_max_results b →
  ∃ m bytes' reason rest j, fill_page render ser b items bytes rows i = ROk ((items ++ (render <$> take m rows), bytes', reason, rest), j)
  ∧ (m ≤ length rows)%nat ∧ bytes' = total_len ser (items ++ (render <$> take m rows)) ∧ bytes' ≤ eb_max_bytes b
  ∧ Z.of_nat (length items + m) ≤ eb_max_results b ∧ (reason = None ↔ m = length rows)
  ∧ (m = 0%nat → ∀ row rest, rows = row :: rest → eb_max_results b ≤ Z.of_nat (length items) ∨ eb_max_bytes b < bytes + serialized_len (ser (render row))).
Proof.
  intros Hu. revert items bytes i. induction rows as [|row rows IH]; intros items bytes i Hb Hm Hr; cbn [fill_page].
  { exists 0%nat, bytes, None, [], i. cbn. rewrite app_nil_r. split_and!; [done|lia|done|done|lia|done|done]. }
  destruct (Z.leb_spec (eb_max_results b) (Z.of_nat (length items))) as [Hfull|Hfull].
  { exists 0%nat, bytes, (Some TResults), rows, i. cbn. rewrite app_nil_r. split_and!; [done|lia|done|done|lia|done|]. by left. }
  unfold mbind, tx_bind, look. rewrite in_time. set (n := serialized_len (ser (render row))).
  assert (0 ≤ n) as Hn by (unfold n, serialized_len; lia). unfold saturating_add.
  destruct (Z.ltb_spec (eb_max_bytes b) (Z.min usize_max (bytes + n))) as [Hbig|Hfits].
  { exists 0%nat, bytes, (Some TBytes), rows, (S i). cbn. rewrite app_nil_r. split_and!; [done|lia|done|done|lia|done|].
    intros _ row' rest' [= <- <-]. right. fold n. lia. }
  rewrite Z.min_r in * by lia. destruct (IH (items ++ [render row]) (bytes + n) (S i)) as (m & bytes' & reason & rest & j & E & H1 & H2 & H3 & H4 & H5 & _).
  { rewrite total_len_app. cbn. fold n. lia. } { done. } { rewrite length_app. cbn. lia. }
  rewrite E. exists (S m), bytes', reason, rest, j. cbn [take fmap list_fmap]. rewrite <- app_assoc in *. cbn in *.
  split_and!; [done|lia|done|done|rewrite length_app in H4; cbn in H4; lia| |done]. rewrite H5. lia.
Qed.

(** ** Search *)
Definition with_cursor (q : SearchRequest) (c : option PageCursor) : SearchRequest :=
  mk_search_request (sq_scope q) (sq_text q) (sq_node_kinds q) (sq_paths q) c.
(** A client that asks again with the cursor it was given *)
Fixpoint read_pages (fuel : nat) (g : SqliteGraphQuery) (q : SearchRequest) : asking (list (QueryResponse (list SearchHit))) :=
  match fuel with
  | O => mret []
  | S fuel =>
    r ← search g q;
    match pg_next_cursor (qr_page r) with
    | None => mret [r]
    | Some c => rest ← read_pages fuel g (with_cursor q (Some c)); mret (r :: rest)
    end
  end.
Context (g : SqliteGraphQuery) (q : SearchRequest) (scope : ResolvedScope).
#[local] Abbreviation d := (sg_sidecar g).
#[local] Abbreviation s := (gs_id (rs_snapshot scope)).
#[local] Abbreviation b := (rs_budget scope).
#[local] Abbreviation fingerprint := (search_cursor_fingerprint q).
(** Every match, best first *)
Definition ranked_hits : res QueryError (list SearchHit) :=
  match rmapM (read_hit (to_lowercase (trim (sq_text q)))) (ranked_rows d s q) with
  | ROk l => ROk (search_hit (trim (sq_text q)) <$> l)
  | RErr e => RErr e
  end.
Lemma match_rank_range text r : 0 ≤ match_rank text r ≤ 6.
Proof. unfold match_rank. repeat case_match; lia. Qed.
(** How good a match is *)
Definition match_index (k : SearchMatchKind) : Z :=
  match k with
  | ExactSemanticKey => 0 | ExactPath => 1 | ExactNormalizedName => 2 | NormalizedNamePrefix => 3 | NormalizedNameContains => 4
  | SemanticKeyContains => 5 | PathContains => 6
  end.
Lemma search_match_kind_index z k : 0 ≤ z → search_match_kind z = ROk k → match_index k = z.
Proof.
  unfold search_match_kind. intros Hz H. apply ok_or_ROk in H. rewrite <- (Z2Nat.id z Hz). revert H. generalize (Z.to_nat z). clear.
  intros n H. do 7 (destruct n as [|n]; [by injection H as <-|]). done.
Qed.
Lemma search_match_kind_total text r : ∃ k, search_match_kind (match_rank text r) = ROk k ∧ match_index k = match_rank text r.
Proof.
  pose proof (match_rank_range text r) as Hr. assert (∃ k, search_match_kind (match_rank text r) = ROk k) as [k Hk].
  { unfold search_match_kind. assert (∃ k, [ExactSemanticKey; ExactPath; ExactNormalizedName; NormalizedNamePrefix; NormalizedNameContains; SemanticKeyContains;
      PathContains] !! Z.to_nat (match_rank text r) = Some k) as [k ->]; [|by eexists]. apply lookup_lt_is_Some_2. cbn. lia. }
  exists k. split; [done|]. apply search_match_kind_index; [lia|done].
Qed.
#[local] Abbreviation normalized := (to_lowercase (trim (sq_text q))).
(** A hit and the row it was made from *)
Definition hit_of (kv : (string * string) * node_row) (h : SearchHit) : Prop :=
  kv.1 = (id_as_str s, id_as_str (sh_node_id h)) ∧ match_index (sh_match_kind h) = match_rank normalized kv.2.
Lemma ranked_hits_run : readable d s → ∃ hits, ranked_hits = ROk hits ∧ Forall2 hit_of (ranked_rows d s q) hits.
Proof.
  intros R. assert (∀ kv, kv ∈ ranked_rows d s q → ∃ h, read_hit normalized kv = ROk h ∧ hit_of kv (search_hit (trim (sq_text q)) h)) as Ht.
  { intros [[s' i] row] Hk. unfold ranked_rows in Hk. rewrite elem_of_order_by, list_elem_of_filter in Hk.
    destruct Hk as [_ [E Hk]%snapshot_nodes_elem]. cbn in E. subst s'. destruct (rd_nodes _ _ R _ _ Hk) as (n & Dn & _).
    destruct (search_match_kind_total normalized row) as (k & Ek & Ei). exists (n, k). unfold read_hit, read_node, hit_of. cbn.
    rewrite Dn. cbn. rewrite Ek. split_and!; [done| |done]. by rewrite (decode_node_id _ _ _ Dn). }
  unfold ranked_hits. destruct (rmapM_total (read_hit normalized) (ranked_rows d s q)) as [l El]; [intros kv Hk; destruct (Ht kv Hk) as (h & E & _); by exists h|].
  rewrite El. eexists. split; [done|]. apply rmapM_ROk in El. revert Ht El. generalize (ranked_rows d s q). clear. intros rows Ht El.
  induction El as [|kv h rows l E _ IH]; [constructor|]. destruct (Ht kv) as (h' & E' & H); [left|]. constructor; [|apply IH; intros x Hx; apply Ht; by right].
  rewrite E in E'. by injection E' as ->.
Qed.
Lemma rmapM_limited {E A B} (f : A → res E B) l l' limit offset : rmapM f l = ROk l' → rmapM f (limited limit offset l) = ROk (limited limit offset l').
Proof. intros H%rmapM_ROk. apply rmapM_ROk. unfold limited. by apply Forall2_take, Forall2_drop. Qed.

Lemma ranked_rows_elem kv : kv ∈ ranked_rows d s q ↔ row_matches q normalized kv.2 = true ∧ kv ∈ snapshot_nodes d s.
Proof. unfold ranked_rows. by rewrite elem_of_order_by, list_elem_of_filter. Qed.
Lemma ranked_rows_once : NoDup (ranked_rows d s q).*1.
Proof.
  unfold ranked_rows. rewrite order_by_Permutation. apply (sublist_NoDup _ (snapshot_nodes d s).*1); [apply NoDup_fst_map_to_list|]. apply fmap_sublist, sublist_filter.
Qed.
Lemma ranked_rows_sorted : StronglySorted (λ kv kv', match_rank normalized kv.2 ≤ match_rank normalized kv'.2) (ranked_rows d s q).
Proof.
  unfold ranked_rows. match goal with |- StronglySorted _ (order_by ?c ?r) => assert (TotalCmp c) as T; [|pose proof (@order_by_sorted _ c T r) as Hs] end.
  { apply lex_cmp; [apply on_key_cmp, _|]. apply lex_cmp; apply on_key_cmp; apply _. }
  refine (StronglySorted_Forall2 eq _ _ _ _ _ (Forall2_same _) Hs). intros x y x' y' <- <- H.
  destruct (Z.compare_spec (match_rank normalized x.2) (match_rank normalized y.2)) as [E|E|E]; [lia|lia|]. exfalso. apply H. unfold lex, on_key at 1. by rewrite (proj2 (Z.compare_gt_iff _ _) E).
Qed.

Context (Hscope : resolve_scope g (sq_scope q) = ROk scope) (Hvalid : validate_search_request q = ROk tt).
Context (Hresults : 0 < eb_max_results b < u32_modulus - 1) (Hbytes : 0 ≤ eb_max_bytes b < usize_max).
Context (diag : DiagnosticsEnvelope) (Hdiag : diagnostics d s (eb_max_diagnostics b) = ROk diag).
Context (hits : list SearchHit) (Hhits : ranked_hits = ROk hits) (Hmany : Z.of_nat (length hits) ≤ i64_max).
Context (Hfit : Forall (λ h, serialized_len (ser_hit h) ≤ eb_max_bytes b) hits).
Context (Hshort : ∀ o, 0 ≤ o ≤ Z.of_nat (length hits) → short_cursor "search" s fingerprint o).
Lemma finish_page_run {A} operation fp offset (items : list A) bytes reason i page :
  page_info reason (length items) bytes 0 (Some (operation, s, fp, offset + Z.of_nat (length items))) = ROk page →
  finish_page d scope operation fp offset (items, bytes, reason) i = ROk (respond scope diag page items, S (S (S i))).
Proof.
  intros H. unfold finish_page, diagnostics_with_deadline, mbind, tx_bind, look, statement. rewrite !in_time, Hdiag. cbn [mret tx_ret fst snd].
  unfold lift, fetch. by rewrite in_time, H.
Qed.
Definition answers_page (o : nat) (r : QueryResponse (list SearchHit)) : Prop :=
  ∃ m, qr_data r = take m (drop o hits) ∧ Z.of_nat m ≤ eb_max_results b ∧ total_len ser_hit (qr_data r) ≤ eb_max_bytes b ∧
  match pg_next_cursor (qr_page r) with
  | None => (o + m = length hits)%nat
  | Some c => (0 < m)%nat ∧ (o + m < length hits)%nat ∧ decode_cursor (Some c) "search" s fingerprint = ROk (Z.of_nat (o + m))
  end.
Lemma search_page c o i : decode_cursor c "search" s fingerprint = ROk (Z.of_nat o) → (o ≤ length hits)%nat →
  ∃ r j, search g (with_cursor q c) i = ROk (r, j) ∧ answers_page o r.
Proof.
  intros Hc Ho. unfold ranked_hits in Hhits. destruct (rmapM _ _) as [l|] eqn:El; [|done]. injection Hhits as Eh.
  assert (length hits = length l) as Hl by (rewrite <- Eh; apply length_fmap).
  unfold search. cbn [with_cursor sq_scope sq_cursor sq_text sq_node_kinds sq_paths].
  erewrite tx_bind_run by (apply lift_ROk; split; [exact Hscope|done]). erewrite tx_bind_run by (apply lift_ROk; split; [exact Hvalid|done]).
  erewrite tx_bind_run by (apply lift_ROk; split; [exact Hc|done]).
  erewrite (tx_bind_run (search_rows _ _ _ _)).
  2: { unfold search_rows. erewrite tx_bind_run by (apply lift_ROk; split; [unfold offset_column; rewrite (proj2 (Z.leb_le _ _)) by lia; done|done]).
    unfold statement. rewrite in_time. rewrite (rmapM_limited _ _ _ _ _ El). done. }
  set (rows := limited _ _ l). unfold fill_rows.
  destruct (fill_page_spec (search_hit (trim (sq_text q))) ser_hit b [] 0 rows (S i)) as (m & bytes & reason & rest & j & E & H1 & H2 & H3 & H4 & H5 & H6); [lia|done|lia|cbn; lia|].
  cbn [app length Nat.add] in *. assert (length rows = min (Z.to_nat (eb_max_results b) + 1) (length l - o)) as Hlen.
  { unfold rows, limited. rewrite length_take, length_drop. unfold saturating_inc_u32. lia. }
  assert (take m rows = take m (drop o l)) as Et by (unfold rows, limited, saturating_inc_u32; rewrite take_take, Nat2Z.id; f_equal; lia).
  assert (m = 0%nat → o = length l) as Hm0.
  { intros ->. destruct rows as [|row rows'] eqn:Er; [cbn in Hlen; lia|]. exfalso. destruct (H6 eq_refl row rows' eq_refl) as [H0|H0]; [lia|].
    pose proof Hfit as Hfit'. rewrite <- Eh, Forall_fmap, Forall_forall in Hfit'. assert (row ∈ l) as Hrow.
    { assert (row ∈ rows) as Hrow by (rewrite Er; left). unfold rows, limited in Hrow. apply elem_of_take in Hrow as (y & Hy & _).
      rewrite lookup_drop in Hy. by eapply list_elem_of_lookup_2. }
    apply Hfit' in Hrow. cbn in Hrow. lia. }
  rewrite Et, fmap_take, fmap_drop, Eh in E, H2. set (items := take m (drop o hits)) in *.
  assert (length items = m) as Hitems by (unfold items; rewrite length_take, length_drop; lia).
  assert (∃ page, page_info reason (length items) bytes 0 (Some ("search", s, fingerprint, Z.of_nat o + Z.of_nat (length items))) = ROk page ∧
    match pg_next_cursor page with
    | None => (o + m = length hits)%nat
    | Some c => (0 < m)%nat ∧ (o + m < length hits)%nat ∧ decode_cursor (Some c) "search" s fingerprint = ROk (Z.of_nat (o + m))
    end) as (page & Ep & Hp).
  { unfold page_info. destruct reason as [reason|]; cbn [fmap option_fmap option_map]; [|exists (mk_page None None); cbn; split; [done|]; pose proof (proj1 H5 eq_refl); lia].
    assert (m ≠ length rows) as Hne by (intros Hx; by apply H5 in Hx). rewrite Hitems. destruct m as [|m']; [exfalso; specialize (Hm0 eq_refl); lia|].
    destruct (encoded_cursor "search" s fingerprint (Z.of_nat o + Z.of_nat (S m'))) as (c' & -> & Hd); [apply Hshort; lia|unfold u64, i64_max, usize_max in *; lia|].
    eexists. split; [done|]. cbn [pg_next_cursor]. split_and!; [lia|lia|]. rewrite Hd, decide_True by done. f_equal. lia. }
  erewrite tx_bind_run by (rewrite (tx_bind_run _ _ _ _ _ E); done).
  cbn [fst]. rewrite (finish_page_run _ _ _ _ _ _ _ _ Ep). eexists _, _. split; [done|]. exists m. cbn [qr_data respond qr_page].
  split_and!; [done|lia|lia|done].
Qed.

Lemma read_pages_from fuel c o i : decode_cursor c "search" s fingerprint = ROk (Z.of_nat o) → (o ≤ length hits)%nat → (length hits - o < fuel)%nat →
  ∃ pages j, read_pages fuel g (with_cursor q c) i = ROk (pages, j) ∧ concat (qr_data <$> pages) = drop o hits
  ∧ Forall (λ r, Z.of_nat (length (qr_data r)) ≤ eb_max_results b ∧ total_len ser_hit (qr_data r) ≤ eb_max_bytes b) pages.
Proof.
  revert c o i. induction fuel as [|fuel IH]; intros c o i Hc Ho Hf; [lia|]. cbn [read_pages].
  destruct (search_page c o i Hc Ho) as (r & j & E & m & Hdata & Hm & Hlen & Hnext). rewrite (tx_bind_run _ _ _ _ _ E).
  assert (Z.of_nat (length (qr_data r)) ≤ eb_max_results b) as Hr by (rewrite Hdata, length_take; lia).
  destruct (pg_next_cursor (qr_page r)) as [c'|].
  - destruct Hnext as (Hpos & Hlt & Hd). destruct (IH (Some c') (o + m)%nat j Hd) as (pages & j' & E' & Hcat & Hall); [lia..|].
    change (with_cursor (with_cursor q c) (Some c')) with (with_cursor q (Some c')). rewrite (tx_bind_run _ _ _ _ _ E'). eexists _, _. split; [done|].
    split; [|by constructor]. cbn. rewrite Hcat, Hdata, <- drop_drop. apply take_drop.
  - eexists _, _. split; [done|]. split; [|by repeat constructor]. cbn. rewrite app_nil_r, Hdata. apply take_ge. rewrite length_drop. lia.
Qed.
End pages.
