(* ===== verification/GraphExamples.v ===== *)
(** The repository graph on a small repository: two builds, a lease, three
    analyzers that make one node per file, and an instance of every theorem
    about the sidecar that has hypotheses. *)
From S2P Require Import Prelude View Transact Wire Identity AgentData AgentWire AgentWireFacts Text WireExample LineExample AgentExamples GraphDomain GraphStore GraphIndexStore GraphMaintenance GraphInvariant GraphLifecycle GraphTheorems GraphSafety GraphContents GraphIndex GraphIndexFacts GraphIncremental GraphQuery GraphWalk GraphPaging.
#[local] Open Scope list_scope.
#[local] Existing Instance line_json | 0.
#[global] Instance ascii_lowercase : Lowercase :=
  λ s, String.string_of_list_ascii (ascii_lower <$> String.list_ascii_of_string s).
#[global] Instance whole_float_eq : FloatEq := Z.eqb.

(** ** Values *)
Lemma id_nonempty s : "id:" +:+ s ≠ "".
Proof. done. Qed.
Definition ident (s : string) : opaque_id := dexist ("id:" +:+ s) (id_nonempty s).
Definition demo_repository : RepositoryRef := RepositoryRef_ (ident "team") (ident "ferrus").
Definition demo_digest : Digest := dexist ("sha256", "00ff") eq_refl.
Definition other_digest : Digest := dexist ("sha256", "0a0b") eq_refl.
Definition demo_main : RepoPath := dexist "src/main.rs" eq_refl.
Definition demo_file : SourceFileDescriptor := mk_source_file demo_main demo_digest 12 RegularFile.
Definition demo_clock (minute : string) : nat → string := λ i, minute.
Definition demo_snapshot (name : string) (manifest : Digest) (by_ : string) : GraphSnapshot :=
  mk_snapshot (ident name) demo_repository (ident ("revision " +:+ name)) manifest 1 demo_digest demo_digest (ident by_).
Definition demo_build (name snapshot : string) : GraphBuild :=
  mk_build (ident name) demo_repository (ident ("revision " +:+ snapshot)) (ident snapshot) BBuilding.
Definition demo_provenance : FactProvenance :=
  mk_provenance (mk_extractor (ident "rust") "1" 1) (Some (mk_evidence demo_main demo_digest None)) Resolved ConfExact.
Definition demo_node (snapshot name : string) : GraphNode :=
  mk_node (ident snapshot) (ident name) "function" (Some (ident name)) demo_provenance {["name" := GvString name]}.
Definition demo_edge (snapshot : string) : GraphEdge :=
  mk_edge (ident snapshot) (ident "calls") "calls" (ident "main") (TargetNode (ident "run")) demo_provenance ∅.
Definition demo_commit (snapshot by_ : string) (manifest : Digest) : IndexCommit :=
  mk_commit (demo_snapshot snapshot manifest by_) false [demo_file]
    (mk_fragment [demo_node snapshot "main"; demo_node snapshot "run"] [demo_edge snapshot] []) [] [] default_metrics.
Definition demo_publish (by_ : string) (expected : option PublicationVersion) : PublishRequest :=
  mk_publish demo_repository (ident "workspace") (ident by_) expected.

(** The first build is published, a second one runs and owns the lease. *)
Definition demo_first : list graph_op :=
  [OpStartBuild (demo_clock "10:00") (demo_build "b1" "s1");
   OpCompleteIndex (demo_clock "10:01") (demo_commit "s1" "b1" demo_digest);
   OpPublish (demo_clock "10:02") (demo_publish "b1" None)].
Definition demo_second : list graph_op :=
  [OpAcquireLease 1000 500 demo_repository (ident "workspace") "id:b2";
   OpStartBuild (demo_clock "10:03") (demo_build "b2" "s2")].
Definition demo_finish : list graph_op :=
  [OpCompleteIndex (demo_clock "10:04") (demo_commit "s2" "b2" other_digest);
   OpPublish (demo_clock "10:05") (demo_publish "b2" (Some (mk_version (ident "s1") 1)));
   OpCollect demo_repository (mk_retention 0 0) (mk_protection ∅ ∅)].

Lemma demo_op_ok snapshot by_ manifest t : op_ok (OpCompleteIndex t (demo_commit snapshot by_ manifest)).
Proof. split; [done|]. split; cbn; set_solver. Qed.
Lemma demo_first_ok : Forall op_ok demo_first.
Proof. apply Forall_forall. intros op Hop. repeat (apply elem_of_cons in Hop as [->|Hop]; [first [apply demo_op_ok|exact I]|]). by apply not_elem_of_nil in Hop. Qed.
Lemma demo_second_ok : Forall op_ok demo_second.
Proof. repeat constructor. Qed.
Lemma demo_finish_ok : Forall op_ok demo_finish.
Proof. apply Forall_forall. intros op Hop. repeat (apply elem_of_cons in Hop as [->|Hop]; [first [apply demo_op_ok|exact I]|]). by apply not_elem_of_nil in Hop. Qed.
Local Notation first := (run_ops demo_first empty_sidecar).
Local Notation second := (run_ops (demo_first ++ demo_second) empty_sidecar).
Lemma demo_both_ok : Forall op_ok (demo_first ++ demo_second).
Proof. apply Forall_app. split; [apply demo_first_ok|apply demo_second_ok]. Qed.
Lemma first_ok : sidecar_ok first.
Proof. apply run_ops_ok; [apply demo_first_ok|apply empty_sidecar_ok]. Qed.
Lemma second_ok : sidecar_ok second.
Proof. apply run_ops_ok; [apply demo_both_ok|apply empty_sidecar_ok]. Qed.
Definition workspace_key : view_key := key_of_view demo_repository (ident "workspace").

(** ** Witnesses: the sidecar *)
Lemma sidecar_never_corrupt_witness : ∃ v,
  load_published_view first demo_repository (ident "workspace") = ROk (Some v) ∧ id_as_str (vw_snapshot_id v) = "id:s1".
Proof.
  destruct (sidecar_never_corrupt demo_first demo_repository (ident "workspace") (ident "b1") demo_first_ok) as [_ [[H _]|H]].
  - vm_compute in H. discriminate H.
  - destruct H as (v & s & b & H & _). exists v. split; [exact H|]. vm_compute in H. injection H as <-. reflexivity.
Defined.
Definition first_view : view_row := ViewRow "id:s1" "id:b1" 1 "10:02".
Lemma publication_monotone_witness : ∃ v',
  sd_views (run_ops (demo_second ++ demo_finish) first) !! workspace_key = Some v' ∧ advanced first first_view (run_ops (demo_second ++ demo_finish) first) v'
  ∧ vr_generation v' = 2.
Proof.
  destruct (publication_monotone demo_first (demo_second ++ demo_finish) workspace_key first_view demo_first_ok) as (v' & H & A).
  - apply Forall_app. split; [apply demo_second_ok|apply demo_finish_ok].
  - reflexivity.
  - vm_compute. reflexivity.
  - exists v'. split_and!; [exact H|exact A|]. vm_compute in H. injection H as <-. reflexivity.
Defined.
Lemma stored_facts_immutable_witness : facts_at (run_op (OpCompleteBuild (demo_clock "10:06") (demo_snapshot "s1" demo_digest "b2")) second) "id:s1"
  = facts_at second "id:s1".
Proof.
  destruct (stored_facts_immutable (demo_first ++ demo_second) (OpCompleteBuild (demo_clock "10:06") (demo_snapshot "s1" demo_digest "b2")) "id:s1" demo_both_ok)
    as [H|[(r & config & p & H & _) _]].
  - reflexivity.
  - exists (SnapshotRow "id:team" "id:ferrus" "id:revision s1" ("sha256", "00ff") 1 ("sha256", "00ff") ("sha256", "00ff") "id:b1" "10:01").
    vm_compute. reflexivity.
  - exact H.
  - discriminate H.
Defined.
Definition second_build : build_row := BuildRow 2 "id:team" "id:ferrus" "id:revision s2" "id:s2" "building" "10:03" None None.
Lemma running_build_undisturbed_witness :
  running 1400 (run_ops [OpRecover 1400 "10:04"; OpCollect demo_repository (mk_retention 0 0) (mk_protection ∅ ∅)] second)
    "id:b2" second_build workspace_key (LeaseRow "id:b2" 1000 1500).
Proof.
  apply (running_build_undisturbed (demo_first ++ demo_second) [OpRecover 1400 "10:04"; OpCollect demo_repository (mk_retention 0 0) (mk_protection ∅ ∅)]
    1400 "id:b2" second_build workspace_key (LeaseRow "id:b2" 1000 1500) demo_both_ok).
  - repeat constructor.
  - repeat constructor.
  - repeat constructor; cbn; intros ms [=]; lia.
  - split_and!; vm_compute; reflexivity.
Defined.
Local Notation started := (run_ops [OpStartBuild (demo_clock "10:00") (demo_build "b1" "s1")] empty_sidecar).
Lemma demo_typed : provenance_typed demo_provenance.
Proof. split; cbn; [done|exact I]. Qed.
Lemma demo_node_typed snapshot name : node_typed (λ _, True) (demo_node snapshot name).
Proof. split; [apply demo_typed|]. cbn. by apply map_Forall_singleton. Qed.
Lemma completed_index_reads_back_witness : ∃ r d', complete_index (demo_clock "10:01") (demo_commit "s1" "b1" demo_digest) started = ROk (r, d')
  ∧ load_snapshot d' (ident "s1") = ROk (Some (demo_snapshot "s1" demo_digest "b1"))
  ∧ ∃ row, sd_nodes d' !! ("id:s1", "id:run") = Some row ∧ decode_node ("id:s1", "id:run") row = Some (demo_node "s1" "run").
Proof.
  destruct (complete_index (demo_clock "10:01") (demo_commit "s1" "b1" demo_digest) started) as [[r d']|e] eqn:E.
  2: { exfalso. apply (f_equal (λ r, match r with ROk _ => true | RErr _ => false end)) in E. vm_compute in E. discriminate E. }
  exists r, d'. destruct (completed_index_reads_back (exact := λ _, True) (demo_clock "10:01") (demo_commit "s1" "b1" demo_digest) started d' r)
    as (Er & L & _ & [N _] & _).
  - apply run_ops_ok; [repeat constructor|apply empty_sidecar_ok].
  - exact E.
  - vm_compute. reflexivity.
  - reflexivity.
  - apply (demo_op_ok "s1" "b1" demo_digest (demo_clock "10:01")).
  - apply Forall_cons. split; [apply demo_node_typed|]. apply Forall_cons. split; [apply demo_node_typed|apply Forall_nil_2].
  - apply Forall_cons. split; [split; [apply demo_typed|apply map_Forall_empty]|apply Forall_nil_2].
  - repeat constructor.
  - rewrite Er in L. split_and!; [reflexivity|exact L|]. apply (N (demo_node "s1" "run")). cbn. set_solver.
Defined.

(** ** Analyzers: one node per file *)
Lemma extractor_id_nonempty s : "builtin." +:+ s ≠ "".
Proof. done. Qed.
Definition demo_identity (s : string) : ExtractorIdentity := mk_extractor (dexist ("builtin." +:+ s) (extractor_id_nonempty s)) "1" 1.
Definition file_node (x : ExtractorIdentity) (ctx : ExtractionContext) (f : SourceFileDescriptor) (b : text) : GraphNode :=
  mk_node (ec_snapshot_id ctx) (ident (identity_str x +:+ ":" +:+ path_str (sf_path f))) "file" None
    (mk_provenance x (Some (mk_evidence (sf_path f) (sf_content_identity f) None)) Resolved ConfExact) {["path" := GvString (path_str (sf_path f))]}.
Definition demo_extractor (s : string) (supports : bool) : DynExtractor :=
  mk_dyn_extractor (demo_identity s) (λ _, supports) (λ ctx f b, Some (mk_fragment [file_node (demo_identity s) ctx f b] [] [])).
#[global] Instance demo_analyzers : Analyzers := {|
  generic_extractor := demo_extractor "generic-structure" true;
  cargo_extractor := demo_extractor "cargo" false;
  rust_extractor := demo_extractor "rust" true;
  repository_fragment _ _ := empty_fragment;
  resolver_identity := demo_identity "rust-cargo-resolver";
  resolve _ _ g _ := Some g |}.
Lemma demo_available x : x ∈ available → ∃ s b, x = demo_extractor s b.
Proof. intros H. unfold available in H. cbn in H. set_solver. Qed.
#[global] Instance demo_extractor_laws : ExtractorLaws (λ _, True).
Proof.
  split.
  - intros x c1 c2 f b (s & o & ->)%demo_available Hr Hl. reflexivity.
  - intros x c f b g (s & o & ->)%demo_available. cbn. intros [= <-]. split_and!; cbn; [|done..].
    apply Forall_singleton. split; [split; cbn; [done|exact I]|]. cbn. by apply map_Forall_singleton.
  - intros x c f b g config (s & o & ->)%demo_available. cbn. intros [= <-]. unfold cache_fragment_is_valid, fact_provenance_is_valid. cbn.
    rewrite !bool_decide_eq_true_2 by done. done.
  - intros x y Hx Hy E. apply (f_equal identity_str) in E. unfold available in *. cbn in *.
    repeat (apply elem_of_cons in Hx as [->|Hx]; [repeat (apply elem_of_cons in Hy as [->|Hy]; [first [reflexivity|discriminate E]|]);
      by apply not_elem_of_nil in Hy|]). by apply not_elem_of_nil in Hx.
Qed.
Definition demo_limits : IndexLimits := mk_index_limits 100 1000 100 1000 50.
Definition demo_config : IndexConfig := mk_index_config ∅ demo_limits (Some demo_digest).
Definition demo_set_digest : Digest := match extractor_set_digest builtin_extractor_identities with Ok d => d | Err _ => demo_digest end.
Definition demo_source (fresh_after : bool) : RepositorySource := mk_source
  (mk_manifest (mk_revision (ident "head") demo_repository demo_digest demo_digest) demo_set_digest [demo_file] [] 0)
  (λ _, Some (lit "fn main() {}")) (λ i, Some (Nat.eqb i 0 || fresh_after)).
Definition demo_request (build : string) (full : bool) : IndexRequest := mk_request (ident build) (ident "workspace") full.
Definition demo_times (i j : nat) : string := "11:00".
Definition demo_elapsed (i : nat) : Z := 5.
Local Notation indexed := (index demo_times demo_elapsed (demo_source true) demo_config (demo_request "b3" false) first).
Lemma indexed_view : ∃ out, indexed.1 = ROk out ∧ (∃ v, io_publication out = ViewPublished v ∧ vw_generation v = 2) ∧ im_nodes (io_metrics out) = 2.
Proof. eexists. split; [vm_compute; reflexivity|]. split; [eexists; split|]; reflexivity. Qed.

(** ** Witnesses: incremental indexing *)
Definition demo_content (_ : Digest) : text := lit "fn main() {}".
Definition demo_limits_of (_ : Digest) : Z * Z * Z := (100, 1000, 50).
(** What the next run finds in the cache: the fragments of an earlier one *)
Definition demo_next : GraphSnapshot :=
  mk_snapshot (ident "s9") demo_repository (ident "head") demo_digest 1 demo_digest demo_set_digest (ident "b9").
Definition earlier_context : ExtractionContext := index_context (demo_snapshot "s8" demo_digest "b8") demo_limits.
Definition demo_cache_key (x : DynExtractor) : FragmentCacheKey := fragment_cache_key earlier_context demo_file (dx_identity x) demo_digest.
Definition earlier_fragment (x : DynExtractor) : GraphFragment :=
  match dx_extract x earlier_context demo_file (demo_content demo_digest) with Some g => g | None => empty_fragment end.
Definition filled (d : sidecar) (x : DynExtractor) : sidecar :=
  match cache_params (demo_cache_key x) with
  | ROk key => d <| sd_cache := <[key := CacheRow (json_text (ser_fragment (earlier_fragment x))) "09:00" "09:00"]> (sd_cache d) |>
  | RErr _ => d
  end.
Local Notation with_cache := (filled (filled empty_sidecar generic_extractor) rust_extractor).
Lemma filled_sound d x : x ∈ available → cache_sound demo_content demo_limits_of d → cache_sound demo_content demo_limits_of (filled d x).
Proof.
  intros Hx S k key row Hk H. unfold filled in H. destruct (cache_params (demo_cache_key x)) as [key'|] eqn:E; [|by eapply S].
  cbn in H. apply lookup_insert_Some in H as [[-> <-]|[_ H]]; [|by eapply S].
  rewrite (cache_params_inj _ _ _ Hk E). exists (earlier_fragment x). split; [|done]. exists x, earlier_context, demo_file.
  split_and!; [done..|]. destruct (demo_available _ Hx) as (s & b & ->). reflexivity.
Qed.
Lemma empty_sound : cache_sound demo_content demo_limits_of empty_sidecar.
Proof. intros k key row _ H. cbn [sd_cache empty_sidecar] in H. rewrite lookup_empty in H. discriminate H. Qed.
Definition demo_active : ActiveExtractors := match active_extractors demo_config with ROk a => a | RErr _ => mk_active [] ∅ false false end.

(** ** Witnesses: queries *)
#[global] Instance never_late : Deadline := λ _, false.
Local Notation queried := (run_op (OpCompleteIndex (demo_clock "10:01") (demo_commit "s1" "b1" demo_digest)) started).
Lemma started_ok : sidecar_ok started.
Proof. apply run_ops_ok; [repeat constructor|apply empty_sidecar_ok]. Qed.
Lemma started_fresh : sd_snapshots started !! "id:s1" = None.
Proof. vm_compute. reflexivity. Qed.
Lemma demo_edge_typed snapshot : edge_typed (λ _, True) (demo_edge snapshot).
Proof. split; [apply demo_typed|apply map_Forall_empty]. Qed.
Lemma queried_run : ∃ r, complete_index (demo_clock "10:01") (demo_commit "s1" "b1" demo_digest) started = ROk (r, queried).
Proof.
  unfold run_op, commit. destruct (complete_index _ _ _) as [[r d']|e] eqn:E; [by exists r|].
  exfalso. apply (f_equal (λ r, match r with ROk _ => true | RErr _ => false end)) in E. vm_compute in E. discriminate E.
Qed.
Lemma queried_readable : readable queried (ident "s1").
Proof.
  destruct queried_run as [r E]. apply (committed_readable (exact := λ _, True) _ _ _ _ _ started_ok E started_fresh); [done|..].
  - apply Forall_cons. split; [apply demo_node_typed|]. apply Forall_cons. split; [apply demo_node_typed|apply Forall_nil_2].
  - apply Forall_cons. split; [apply demo_edge_typed|apply Forall_nil_2].
  - repeat constructor.
Qed.
Lemma queried_main : stored_node queried (ident "s1") (demo_node "s1" "main").
Proof.
  destruct queried_run as [r E]. apply (committed_stored (exact := λ _, True) _ _ _ _ _ _ started_ok E started_fresh); [done|left|apply demo_node_typed|done].
Qed.
Definition demo_budget : QueryBudget := mk_query_budget 1 4096 2 1000 10.
Definition demo_service (d : sidecar) : SqliteGraphQuery := mk_graph_query d (mk_query_limits 100 65536 4 5000 50) None.
Definition demo_query_scope : QueryScope := mk_scope QUERY_WIRE_VERSION demo_repository (SelectSnapshot (ident "s1")) demo_budget.
Definition demo_resolved : ResolvedScope :=
  mk_resolved demo_repository (demo_snapshot "s1" demo_digest "b1") None (ident "revision s1") (mk_freshness NotApplicable None [])
    (mk_effective 1 4096 2 1000 10).
Definition demo_context : ContextRequest :=
  mk_context_request demo_query_scope [SeedNode (ident "main")] (mk_policy Outgoing [] false false) None.
(** From [main], its one call leads to [run]. *)
Lemma context_is_shortest_paths_witness : ∃ a j, assemble_context queried demo_resolved demo_context 0%nat = ROk (a, j)
  ∧ (λ x, (id_as_str (gn_id (xc_node x)), xc_depth x)) <$> ca_candidates a = [("id:main", 0); ("id:run", 1)]
  ∧ NoDup ((gn_id ∘ xc_node) <$> ca_candidates a).
Proof.
  destruct (context_is_shortest_paths queried demo_resolved demo_context 0%nat) as (a & j & E & N & _).
  - apply queried_readable.
  - vm_compute. discriminate.
  - intros seed ->%list_elem_of_singleton. exists (demo_node "s1" "main"). split; [apply queried_main|reflexivity].
  - exists a, j. split_and!; [exact E| |exact N].
    apply (f_equal (λ r, match r with ROk (a, _) => (λ x, (id_as_str (gn_id (xc_node x)), xc_depth x)) <$> ca_candidates a | RErr _ => [] end)) in E.
    cbv beta iota in E. rewrite <- E. vm_compute. reflexivity.
Defined.
Definition demo_search : SearchRequest := mk_search_request demo_query_scope "n" [] [] None.
Definition searched : SqliteGraphQuery := demo_service queried.
Definition or_empty {A} (r : res QueryError (list A)) : list A := match r with ROk l => l | RErr _ => [] end.
Definition searched_scope : ResolvedScope := match resolve_scope searched demo_query_scope with ROk r => r | RErr _ => demo_resolved end.
Definition searched_hits : list SearchHit := or_empty (ranked_hits searched demo_search searched_scope).
Definition searched_diagnostics : DiagnosticsEnvelope :=
  match diagnostics (sg_sidecar searched) (gs_id (rs_snapshot searched_scope)) (eb_max_diagnostics (rs_budget searched_scope)) with ROk e => e | RErr _ => no_diagnostics end.
