(* ===== verification/Examples.v ===== *)
(** The properties at concrete databases: for each theorem with hypotheses, an
    input at which they hold, with the definitions evaluated.  The examples run
    on the decimal clock of [Chrono.v] and on an operating system on which
    process 42 is the caller's own, the only one alive, and every path is
    canonical. *)
From S2P Require Import Prelude Status View Chrono Database WellFormed Schema Exec Store Waits Claims Runs Task Session Recovery Registry CanonicalGraph Tools Lifecycle.

#[local] Instance demo_chrono : Chrono := DecimalChrono.chrono.
#[local] Instance demo_env : Env := {|
  process_is_alive := λ p, bool_decide (p = 42);
  canonicalize := λ p, Some p;
  write_ok := λ _, true;
  self_pid := 42 |}.
#[local] Instance demo_server : Server := {|
  config_load := Ok (Cfg ["cargo test"] 20 3 1 90);
  env_task_id := None |}.

(** ** Rows *)
Definition snapshot (s : string) (H : s ≠ "") : opaque_id := dexist s H.
Definition snap_a : opaque_id := snapshot "snapshot:a" ltac:(discriminate).
Definition snap_b : opaque_id := snapshot "snapshot:b" ltac:(discriminate).
Definition tree_a : Digest := dexist ("sha256", "00ff") eq_refl.
Definition built_view : RepositoryViewReference := ViewRef (Some snap_a) None (Some snap_b) None Mutable Available.
Definition frozen_view : RepositoryViewReference :=
  built_view <| frozen_source_tree := Some tree_a |> <| lifecycle := FrozenSubmitted |>.

Definition task_in (status : string) : task_row := task_row_default ".ferrus/tasks/t-001.md" status.
Definition executing : task_row :=
  (task_in "executing") <| t_claimed_by := Some "executor:a" |> <| t_lease_until := Some (rfc3339_secs (2000 * nanos)) |>
    <| t_view := view_to_cols built_view |>.
Definition reviewing : task_row :=
  (task_in "reviewing") <| t_claimed_by := Some "supervisor:s" |> <| t_lease_until := Some (rfc3339_secs (2000 * nanos)) |>
    <| t_view := view_to_cols frozen_view |>.
Definition run_of (task role agent : string) (pid : Z) (v : view_cols) : run_row :=
  RunRow task role agent "running" "000000000990" "000000000990" (Some pid) "/work/t-001" v.

Definition one (t : task_row) : world := demo_world [("t-001", t)] [].
Definition busy (t : task_row) (role agent : string) : world :=
  demo_world [("t-001", t)] [("run-1", run_of "t-001" role agent 42 (t_view t))].
Definition scope_of (agent : string) : ExecutorSessionScope := Scope agent "t-001" "run-1" "/work/t-001".

(** Rows without a queued question form a well-formed database. *)
Lemma demo_wf tasks runs :
  Forall (λ x, task_wf x.2 ∧ t_human_question_order x.2 = None) tasks →
  Forall (λ x, run_wf x.2 ∧ is_Some (@list_to_map _ _ (gmap string task_row) _ _ tasks !! r_task_id x.2)) runs →
  wf (demo_world tasks runs).
Proof.
  rewrite !Forall_forall. intros Ht Hr.
  assert (∀ i t, (list_to_map tasks : gmap string task_row) !! i = Some t → task_wf t ∧ t_human_question_order t = None) as Ht'.
  { intros i t Hi%elem_of_list_to_map_2. exact (Ht _ Hi). }
  assert (∀ i r, (list_to_map runs : gmap string run_row) !! i = Some r →
            run_wf r ∧ is_Some ((list_to_map tasks : gmap string task_row) !! r_task_id r)) as Hr'.
  { intros i r Hi%elem_of_list_to_map_2. exact (Hr _ Hi). }
  split; simpl; try done; try (by constructor).
  - intros i t Hi. by apply (Ht' i).
  - intros i r Hi. by apply (Hr' i).
  - intros i r Hi. by apply (Hr' i).
  - intros i t Hi. by rewrite (proj2 (Ht' i t Hi)).
  - intros i j t u n Hi _ Hn. by rewrite (proj2 (Ht' i t Hi)) in Hn.
Qed.
Lemma task_in_wf status t : valid_status status → view_ok (t_view t) →
  t_status t = status → t_paused_status t = None → t_awaiting_human_status t = None → t_check_retries t = 0 →
  t_review_cycles t = 0 → t_executor_dispatches t = 0 → t_human_answer_recorded t = 0 → task_wf t.
Proof. intros Hs Hv E1 E2 E3 E4 E5 E6 E7. pose proof is_u32_0. split; rewrite ?E1, ?E2, ?E3, ?E4, ?E5, ?E6, ?E7; auto; done. Qed.
Lemma busy_wf : wf (busy executing "executor" "executor:a").
Proof.
  apply demo_wf; constructor; [|constructor| |constructor].
  - split; [|done]. by apply (task_in_wf "executing").
  - split; [|by eexists]. split; [simpl; unfold is_u32, u32_modulus; lia|reflexivity].
Qed.

(** ** Views *)
Lemma view_constructors_valid_witness :
  validate built_view = Ok tt ∧ view_frozen built_view tree_a = Ok frozen_view ∧ validate frozen_view = Ok tt.
Proof.
  split; [reflexivity|]. split; [reflexivity|].
  destruct (view_constructors_valid None None Available snap_b tree_a frozen_view) as (_ & _ & H & _).
  destruct (H built_view eq_refl eq_refl) as [Hv _]. exact Hv.
Defined.

(** ** Task transitions *)
Lemma check_retry_limit_witness :
  ∃ w' t', check_failures "t-001" 3 (["one"; "two"] ++ ["three"])%list (one executing)
      = (Ok [CheckFailed 1; CheckFailed 2; CheckLimitExceeded 3], w') ∧
    d_tasks (w_db w') !! "t-001" = Some t' ∧ t_status t' = "failed" ∧ t_claimed_by t' = None.
Proof.
  destruct (check_retry_limit "t-001" 3 ["one"; "two"] "three" executing (one executing)) as (w' & t' & H & Ht & Hs & _ & _ & Hc & _).
  - apply demo_ready.
  - reflexivity.
  - reflexivity.
  - reflexivity.
  - reflexivity.
  - exists w', t'. split; [exact H|]. split; [exact Ht|]. split; [exact Hs|exact Hc].
Defined.

Lemma review_rejection_restarts_work_witness :
  ∃ w' t', record_task_review_rejected "t-001" 3 (one reviewing) = (Ok (RejectAddressing 1), w') ∧
    d_tasks (w_db w') = <["t-001" := t']> (d_tasks (w_db (one reviewing))) ∧ t_status t' = "addressing" ∧
    repository_view_reference_from_database (t_view t') = Ok built_view.
Proof.
  destruct (review_rejection_restarts_work "t-001" 3 reviewing frozen_view (one reviewing))
    as (w' & t' & H & Ht & _ & Hs & _ & _ & _ & _ & _ & Hv).
  - apply demo_ready.
  - reflexivity.
  - exact (view_from_to_cols frozen_view eq_refl).
  - vm_compute. discriminate.
  - vm_compute. reflexivity.
  - vm_compute. reflexivity.
  - exists w', t'. split; [exact H|]. split; [exact Ht|]. split; [exact Hs|exact Hv].
Defined.

Lemma dispatch_budget_witness :
  ∃ w' t', dispatch_rounds "t-001" 2 3 (one executing) = (Ok [true; true; false], w') ∧
    d_tasks (w_db w') !! "t-001" = Some t' ∧ t_status t' = "failed".
Proof.
  destruct (dispatch_budget "t-001" 2 0 executing (one executing)) as [_ H].
  - apply demo_ready.
  - reflexivity.
  - reflexivity.
  - lia.
  - reflexivity.
  - reflexivity.
  - destruct (H ltac:(lia)) as (w' & t' & H1 & H2 & H3 & _). exists w', t'. split; [exact H1|]. split; [exact H2|exact H3].
Defined.

Lemma submission_all_or_nothing_witness :
  ∃ w' t' r', record_task_submitted "t-001" ".ferrus/tasks/t-001.md" (Some "run-1") (Some frozen_view) false
                (CheckEvidence true None) (busy executing "executor" "executor:a") = (Ok tt, w') ∧
    d_tasks (w_db w') = <["t-001" := t']> (d_tasks (w_db (busy executing "executor" "executor:a"))) ∧
    d_runs (w_db w') = <["run-1" := r']> (d_runs (w_db (busy executing "executor" "executor:a"))) ∧
    t_status t' = "reviewing" ∧ repository_view_reference_from_database (r_view r') = Ok frozen_view.
Proof.
  destruct (submission_all_or_nothing "t-001" ".ferrus/tasks/t-001.md" "run-1" frozen_view false (CheckEvidence true None)
              (busy executing "executor" "executor:a")) as (w' & t' & r' & H & Ht & Hr & Hs & _ & _ & _ & _ & Hv).
  - apply demo_ready.
  - reflexivity.
  - reflexivity.
  - exists w', t', r'. split; [exact H|]. split; [exact Ht|]. split; [exact Hr|]. split; [exact Hs|exact Hv].
Defined.

Definition legacy_world : world :=
  (one executing) <| w_db := (demo_db [] [])
    <| d_columns := {[ "runtime_schema_migrations" := ["version"; "name"; "applied_at"]; "runtime_metadata" := ["name"; "value"] ]} |>
    <| d_metadata := {[ "last_spec_path" := Some " specs/a.md" ]} |> |>.
Lemma cleared_spec_path_returns_witness :
  ∃ w1 w2, clear_last_spec_path legacy_world = (Ok tt, w1) ∧ read_last_spec_path w1 = (Ok (Some "specs/a.md"), w2).
Proof.
  apply (cleared_spec_path_returns " specs/a.md" ["name"; "value"] legacy_world).
  - split_and!; [done|reflexivity|right; eexists; reflexivity].
  - reflexivity.
  - reflexivity.
  - vm_compute. discriminate.
Defined.

(** ** Waits *)
Lemma consultation_roundtrip_witness :
  ∃ w1 w2, record_task_consultation_requested "t-001" Executing (one executing) = (Ok tt, w1) ∧
    restore_task_from_consultation "t-001" w1 = (Ok (ConsultRestored "executing"), w2) ∧
    d_tasks (w_db w2) = d_tasks (w_db (one executing)) ∧ d_runs (w_db w2) = d_runs (w_db (one executing)).
Proof.
  apply (consultation_roundtrip "t-001" Executing executing (one executing)).
  - apply demo_ready.
  - reflexivity.
  - reflexivity.
  - reflexivity.
Defined.

Lemma human_question_roundtrip_witness :
  ∃ w1 w2 w3, record_task_human_question_requested_with_resume "t-001" Executing (Some Executing) "executor:a" (one executing) = (Ok tt, w1) ∧
    record_task_human_answer "t-001" w1 = (Ok tt, w2) ∧
    restore_task_from_human_answer "t-001" w2 = (Ok (HumanRestored "executing"), w3) ∧
    d_tasks (w_db w3) = d_tasks (w_db (one executing)).
Proof.
  apply (human_question_roundtrip "t-001" Executing (Some Executing) "executor:a" executing (one executing)).
  - apply demo_ready.
  - reflexivity.
  - reflexivity.
  - reflexivity.
  - reflexivity.
  - reflexivity.
  - reflexivity.
  - reflexivity.
Defined.

Lemma human_questions_fifo_witness :
  ∃ w', record_task_human_question_requested_with_resume "t-001" Executing None "executor:a"
          (busy executing "executor" "executor:a") = (Ok tt, w') ∧
    map fst (open_questions (w_db w')) = ["t-001"].
Proof.
  apply (human_questions_fifo "t-001" Executing None "executor:a" executing (busy executing "executor" "executor:a")).
  - apply busy_wf.
  - apply demo_ready.
  - reflexivity.
  - vm_compute. apply not_elem_of_nil.
Defined.

Definition asking : task_row :=
  (task_in "awaiting_human") <| t_awaiting_human_by := Some "executor:a" |> <| t_awaiting_human_status := Some "executing" |>.
Lemma scoped_answer_rolls_back_witness :
  ∃ w', record_scoped_human_answer (HumanQ "t-001" ".ferrus/tasks/t-001.md" ".ferrus/runs/t-001" "Which port?") "8080"
          (one asking) = (Ok tt, w') ∧
    d_tasks (w_db w') = <["t-001" := asking <| t_human_answer_recorded := 1 |>]> (d_tasks (w_db (one asking))) ∧
    w_files w' = <[".ferrus/runs/t-001/ANSWER.md" := "8080"]> (w_files (one asking)).
Proof.
  exact (scoped_answer_rolls_back (HumanQ "t-001" ".ferrus/tasks/t-001.md" ".ferrus/runs/t-001" "Which port?") "8080" asking
           (one asking) (demo_ready _ _) eq_refl eq_refl eq_refl).
Defined.

(** ** Runs *)
Definition reserved : world := (reserve_executor_session_at "run-1" "executor:a" "/work" "current" true (demo_world [] [])).2.
Lemma shared_workspace_exclusive_witness :
  (∃ e, reserve_executor_session_at "run-2" "executor:b" "/work" "current" true reserved = (Err e, reserved)) ∧
  (∃ w2, drop_reservation (Reservation "run-1" true) reserved = (Ok tt, w2) ∧ occupied true (w_db w2) = false).
Proof.
  apply (shared_workspace_exclusive "run-1" "executor:a" "/work" "current" "run-2" "executor:b" "/work" "current"
           (demo_world [] []) (Reservation "run-1" true) reserved).
  - apply demo_ready.
  - reflexivity.
  - vm_compute. reflexivity.
Defined.

Lemma run_lifecycle_witness :
  ∃ rec w1 r, record_run_started_for_task_with_baseline "run-1" "executor" "executor:a" 42 (Some "t-001") "/work/t-001"
                (StartEvidence None JNull) (one executing) = (Ok rec, w1) ∧
    d_runs (w_db w1) !! "run-1" = Some r ∧ repository_view_reference_from_database (r_view r) = Ok built_view.
Proof.
  destruct (run_lifecycle "run-1" "executor" "executor:a" 42 "t-001" "/work/t-001" (StartEvidence None JNull) 0 executing built_view
              (one executing)) as (rec & w1 & r & _ & _ & H & _ & Hr & _ & _ & _ & _ & _ & Hv & _).
  - apply demo_ready.
  - reflexivity.
  - reflexivity.
  - exact (view_from_to_cols built_view eq_refl).
  - reflexivity.
  - exists rec, w1, r. split; [exact H|]. split; [exact Hr|exact Hv].
Defined.

Definition consulting : task_row := (task_in "consultation") <| t_paused_status := Some "executing" |>.
Definition supervisor_idle : world :=
  demo_world [("current", task_in "unknown"); ("t-001", consulting)] [("run-1", run_of "current" "supervisor" "supervisor:s" 42 view_cols_default)].
Lemma consultation_attach_exclusive_witness :
  match attach_running_run_to_next_consultation "supervisor:s" supervisor_idle with
  | (Ok (Some c), w') => ∃ run_id r', ctx_run_id c = Some run_id ∧ d_runs (w_db w') !! run_id = Some r' ∧ r_task_id r' = ctx_task_id c
  | _ => False
  end.
Proof.
  destruct (attach_running_run_to_next_consultation "supervisor:s" supervisor_idle) as [[[c|]|e] w'] eqn:E;
    [|vm_compute in E; discriminate E|vm_compute in E; discriminate E].
  destruct (consultation_attach_exclusive "supervisor:s" c supervisor_idle w' (demo_ready _ _) E) as (rid & r' & H1 & H2 & H3 & _).
  exists rid, r'. split; [exact H1|]. split; [exact H2|exact H3].
Defined.

(** ** Sessions *)
Lemma session_fence_witness :
  ∃ e, with_role_session (scope_of "executor:b") true "executor" (λ _ _, mret tt) (busy executing "executor" "executor:a")
       = (Err e, busy executing "executor" "executor:a").
Proof.
  destruct (session_fence (scope_of "executor:b") true "executor" (λ _ _, mret tt) (busy executing "executor" "executor:a"))
    as (_ & H & _).
  apply H. intros (r & Hr & _ & Ha & _). cbn in Hr. rewrite lookup_insert_eq in Hr. injection Hr as <-. discriminate Ha.
Defined.

Definition review_world : world := busy reviewing "supervisor" "supervisor:s".
Lemma review_decision_fenced_witness :
  match reject_supervisor_session (scope_of "supervisor:s") (Some tree_a) 3
          (λ c, write_review_for_run_dir (ctx_run_dir c) "Please add tests.") review_world with
  | (Ok rej, w') => rej = RejectAddressing 1 ∧ ∃ u, d_tasks (w_db w') = <["t-001" := u]> (d_tasks (w_db review_world)) ∧ t_claimed_by u = None
  | _ => False
  end.
Proof.
  destruct (reject_supervisor_session (scope_of "supervisor:s") (Some tree_a) 3
          (λ c, write_review_for_run_dir (ctx_run_dir c) "Please add tests.") review_world) as [[rej|e] w'] eqn:E;
    [|vm_compute in E; discriminate E].
  split; [vm_compute in E; injection E as <- _; reflexivity|].
  destruct (review_decision_fenced (scope_of "supervisor:s") (Some tree_a) 3
    (λ c, write_review_for_run_dir (ctx_run_dir c) "Please add tests.") review_world rej w') as (r & t & d & u & _ & _ & _ & _ & _ & _ & _ & Hu & Hc & _).
  - intros c w. reflexivity.
  - exact E.
  - exists u. split; [exact Hu|exact Hc].
Defined.

Lemma executor_session_resumes_work_witness :
  match claim_executor_session (scope_of "executor:a") 60 (busy executing "executor" "executor:a") with
  | (Ok (AlreadyClaimed l), w') => ∃ u, d_tasks (w_db w') !! "t-001" = Some u ∧ t_claimed_by u = Some "executor:a"
  | _ => False
  end.
Proof.
  destruct (claim_executor_session (scope_of "executor:a") 60 (busy executing "executor" "executor:a")) as [[[l|l|]|e] w'] eqn:E;
    [vm_compute in E; discriminate E| |vm_compute in E; discriminate E|vm_compute in E; discriminate E].
  destruct (executor_session_resumes_work (scope_of "executor:a") 60 (busy executing "executor" "executor:a") (AlreadyClaimed l) w' l E
              (or_intror eq_refl)) as (row & t & u & _ & _ & Hu & Hc & _).
  exists u. rewrite Hu. split; [apply lookup_insert_eq|exact Hc].
Defined.

(** ** Recovery *)
Definition crashed : world :=
  demo_world [("t-001", executing <| t_lease_until := Some (rfc3339_secs (900 * nanos)) |>); ("t-002", executing)]
    [("run-1", run_of "t-001" "executor" "executor:a" 7 view_cols_default)].
Lemma recovery_interrupts_dead_runs_witness :
  ∃ n w', recover_interrupted_runs crashed = (Ok n, w') ∧ preview_interrupted_runs crashed = (Ok 1, crashed) ∧
    recover_interrupted_runs w' = (Ok 0, w').
Proof.
  destruct (recovery_interrupts_dead_runs crashed) as (n & w' & H & _ & _ & _ & _ & H2).
  - apply demo_ready.
  - exists n, w'. split; [exact H|]. split; [vm_compute; reflexivity|exact H2].
Defined.

Lemma recovery_releases_dead_leases_witness :
  ∃ n w', recover_expired_task_leases crashed = (Ok n, w') ∧ preview_expired_task_leases crashed = (Ok n, tick crashed) ∧
    d_runs (w_db w') = d_runs (w_db crashed).
Proof.
  destruct (recovery_releases_dead_leases crashed) as (n & w' & H & Hp & Hr & _).
  - apply demo_ready.
  - exists n, w'. split; [exact H|]. split; [exact Hp|exact Hr].
Defined.

Lemma orphaned_worktrees_unused_witness :
  ∃ l, orphaned_worktrees_for "/data" (Some [("t-001", true); ("t-009", true); (".baseline-trees", true)]) crashed = (Ok l, crashed) ∧
    l = ["/data/worktrees/t-009"].
Proof.
  destruct (orphaned_worktrees_unused "/data" [("t-001", true); ("t-009", true); (".baseline-trees", true)] crashed) as (l & H & _).
  - apply demo_ready.
  - exists l. split; [exact H|]. vm_compute in H. injection H as <-. reflexivity.
Defined.

(** ** Registry *)
Definition one_file : world := (one executing) <| w_files := {[ ".ferrus/tasks/t-007.md" := "old" ]} |>.
Lemma reserved_id_is_fresh_witness :
  ∃ a w', reserve_task_artifact one_file = (Ok a, w') ∧ ta_id a = "t-008" ∧ d_tasks (w_db one_file) !! ta_id a = None.
Proof.
  destruct (reserved_id_is_fresh one_file (demo_ready _ _)) as [H _].
  destruct (H ltac:(vm_compute; reflexivity)) as (Hr & Hn & _).
  eexists _, _. split; [exact Hr|]. split; [vm_compute; reflexivity|exact Hn].
Defined.

Lemma enqueue_all_or_nothing_witness :
  ∃ a w', create_pending_task_artifact "Do it" (Some "specs/a.md") (Some "m1") (busy executing "executor" "executor:a") = (Ok a, w') ∧
    ta_id a = "t-002" ∧ w_files w' !! ta_path a = Some "Do it".
Proof.
  pose proof (enqueue_all_or_nothing "Do it" (Some "specs/a.md") (Some "m1") (busy executing "executor" "executor:a")
                (demo_ready _ _) busy_wf ltac:(vm_compute; reflexivity)) as H.
  cbv zeta in H.
  assert ((write_ok (ta_path (artifact_for (highest_number (busy executing "executor" "executor:a") + 1)))
           && none (duplicate_origin (ta_id (artifact_for (highest_number (busy executing "executor" "executor:a") + 1)))
                      (Some "specs/a.md") (Some "m1") (w_db (busy executing "executor" "executor:a")))) = true) as E
    by (vm_compute; reflexivity).
  rewrite E in H. destruct H as (w' & H & _ & _ & Hf & _).
  eexists _, w'. split; [exact H|]. split; [vm_compute; reflexivity|exact Hf].
Defined.

Definition legacy_layout : world := demo_world [("current", task_in "executing")] [("run-1", run_of "current" "executor" "executor:a" 7 view_cols_default)].
Lemma legacy_current_row_retired_witness :
  ∃ w', retire_legacy_current_task_row legacy_layout = (Ok tt, w') ∧
    d_tasks (w_db w') !! "current" = Some (retired_row (task_in "executing")) ∧
    d_tasks (w_db w') !! "t-001" = Some (adopted_row (task_in "executing")).
Proof.
  destruct (legacy_current_row_retired (task_in "executing") legacy_layout) as (w' & H & _ & Hc & Ha & _).
  - apply demo_ready.
  - reflexivity.
  - exists w'. split; [exact H|]. split; [exact Hc|]. destruct (Ha eq_refl) as [Hb _]. exact Hb.
Defined.

(** ** Canonical graph *)
Definition source_a : CanonicalSourceIdentity := SourceIdentity snap_a tree_a.
Definition guard0 : CanonicalGraphRefreshGuard := RefreshGuard 0 0.
Lemma refresh_recorded_once_witness :
  ∃ w', record_canonical_graph_refresh None (Some "run-1") guard0 source_a snap_b snap_a (busy executing "executor" "executor:a") = (Ok Recorded, w') ∧
    canonical_graph_reference w' = (Ok (GraphReference (Some source_a) (Some snap_b) CFresh), w').
Proof.
  destruct (refresh_recorded_once guard0 None (Some "run-1") source_a snap_b snap_a None None source_a snap_a snap_a
              (busy executing "executor" "executor:a")) as (w' & H & Hr & _).
  - apply busy_wf.
  - apply demo_ready.
  - eexists. vm_compute. reflexivity.
  - reflexivity.
  - exists w'. split; [exact H|exact Hr].
Defined.

Lemma view_compare_and_record_witness :
  compare_and_record_task_repository_view_at "t-001" frozen_view built_view (one executing) = (Ok false, one executing) ∧
  ∃ w', compare_and_record_task_repository_view_at "t-001" built_view frozen_view (one executing) = (Ok true, w') ∧
    task_repository_view "t-001" w' = (Ok (Some frozen_view), w').
Proof.
  split.
  - apply (view_compare_and_record "t-001" frozen_view built_view executing built_view (one executing)).
    + apply demo_ready.
    + reflexivity.
    + reflexivity.
    + reflexivity.
    + exact (view_from_to_cols built_view eq_refl).
    + discriminate.
  - destruct (view_compare_and_record "t-001" built_view frozen_view executing built_view (one executing)
                (demo_ready _ _) eq_refl eq_refl eq_refl (view_from_to_cols built_view eq_refl)) as [_ H].
    destruct (H eq_refl) as (w' & H1 & _ & H2). exists w'. split; [exact H1|exact H2].
Defined.

Lemma retention_covers_live_witness :
  ∃ refs, repository_graph_retention_references_at (busy executing "executor" "executor:a") = (Ok refs, busy executing "executor" "executor:a") ∧
    "snapshot:a" ∈ snapshot_ids refs ∧ "task-baseline:t-001" ∈ view_names refs.
Proof.
  destruct (retention_covers_live (busy executing "executor" "executor:a")) as (refs & H & Ht & _).
  - apply busy_wf.
  - apply demo_ready.
  - discriminate.
  - exists refs. split; [exact H|]. destruct (Ht "t-001" executing "snapshot:a" eq_refl eq_refl) as (Hs & Hn & _).
    split; [apply Hs; left; reflexivity|exact Hn].
Defined.

(** ** The whole runtime *)
Definition opened : world := (perform OpOpen fresh_world).2.
Lemma opened_reachable : reachable opened.
Proof.
  exists fresh_world. split; [reflexivity|]. apply rtc_once. unfold opened. generalize fresh_world.
  intros w. apply (step_op demo_env demo_server OpOpen w).
Qed.
Lemma opened_ready : schema_ready (w_db opened).
Proof. split; [split_and!; [done|vm_compute; reflexivity|right; eexists; vm_compute; reflexivity]|vm_compute; reflexivity]. Qed.
Definition queued : world := (perform (OpCreatePending "Do it" None None) opened).2.
Lemma queued_step : step opened queued.
Proof. unfold queued. generalize opened. intros w. apply (step_op demo_env demo_server (OpCreatePending "Do it" None None) w). Qed.

Lemma reachable_well_formed_witness :
  wf queued ∧ ∀ id t, d_tasks (w_db queued) !! id = Some t → ∃ s, t_status t = as_str s.
Proof.
  destruct (reachable_well_formed queued) as (H & Ht & _).
  - destruct opened_reachable as (w0 & H0 & Hr). exists w0. split; [exact H0|].
    eapply rtc_r; [exact Hr|]. apply queued_step.
  - split; [exact H|]. intros id t Hi. destruct (Ht id t Hi) as [Hs _]. exact Hs.
Defined.

Lemma log_append_only_witness :
  schema_ready (w_db queued) ∧ ∃ l, d_events (w_db queued) = (d_events (w_db opened) ++ l)%list.
Proof.
  destruct (log_append_only opened queued) as (Hs & l & Hl & _).
  - apply opened_reachable.
  - apply opened_ready.
  - apply rtc_once. apply queued_step.
  - split; [exact Hs|]. exists l. exact Hl.
Defined.

Definition invalidated : world := (record_canonical_graph_invalidation "t-001" None None ApprovedIntegration queued).2.
Lemma refresh_superseded_by_invalidation_witness :
  ∃ w3, record_canonical_graph_refresh None None guard0 source_a snap_b snap_a invalidated = (Ok Superseded, w3).
Proof.
  destruct (refresh_superseded_by_invalidation "t-001" None None ApprovedIntegration None None source_a snap_b snap_a guard0
              opened queued invalidated invalidated) as (w3 & H & _).
  - apply opened_reachable.
  - apply opened_ready.
  - vm_compute. reflexivity.
  - apply rtc_once. apply queued_step.
  - exact I.
  - vm_compute. reflexivity.
  - apply rtc_refl.
  - exists w3. exact H.
Defined.

(** ** Tools *)

(** Two polls half a second apart, then a third after the configured second. *)
Definition demo_rounds : list round :=
  [Round 0 (λ w, w); Round (nanos / 2) (λ w, w); Round nanos (λ w, w)].

Lemma wait_tools_return_witness :
  (wait_for_task "executor:a" demo_rounds (demo_world [] [])).1 = Ok (Some unavailable) ∧
  (wait_call WaitForTask "executor:a" demo_rounds (demo_world [] [])).1 ≠ Ok None.
Proof.
  split; [vm_compute; reflexivity|]. apply wait_tools_return.
  - intros [|[|[|i]]] r; simpl; intros [= <-]; vm_compute; discriminate.
  - discriminate.
  - intros config [= <-]. vm_compute. discriminate.
Defined.

(** The run of [executor:a] is attached to a task that [executor:b] holds. *)
Definition contested : world := busy (executing <| t_claimed_by := Some "executor:b" |>) "executor" "executor:a".

Lemma tools_respect_leases_witness :
  ∃ e w', lease_call (ToolConsult "Which one?") "executor:a" contested = (Err e, w') ∧
    w_db w' = w_db contested ∧ w_files w' = w_files contested.
Proof.
  destruct (runtime_task_context_for_agent "executor:a" contested) as [[[c|]|e] w] eqn:E;
    [|vm_compute in E; discriminate E|vm_compute in E; discriminate E].
  assert (w = contested) as Hw. { transitivity (runtime_task_context_for_agent "executor:a" contested).2; [by rewrite E|reflexivity]. }
  assert (ctx_task_id c = "t-001") as Hid.
  { transitivity (match runtime_task_context_for_agent "executor:a" contested with (Ok (Some c), _) => ctx_task_id c | _ => "" end);
      [by rewrite E|reflexivity]. }
  apply (tools_respect_leases (ToolConsult "Which one?") "executor:a" "executor:b" c
           (executing <| t_claimed_by := Some "executor:b" |>) contested).
  - apply demo_ready.
  - rewrite E, Hw. reflexivity.
  - rewrite Hid. reflexivity.
  - reflexivity.
  - discriminate.
  - vm_compute. reflexivity.
  - reflexivity.
Defined.

Definition asked : world := (ask_human "executor:a" "Which one?" (one executing)).2.
Definition answered : world := (answer " The first. " asked).2.

Lemma one_executing_wf : wf (one executing).
Proof. apply demo_wf; constructor; [|constructor]. split; [|done]. by apply (task_in_wf "executing"). Qed.
Lemma answered_wf : wf answered.
Proof. apply preserves_answer, preserves_ask_human, one_executing_wf. Qed.
Lemma tasks_of_answered : d_tasks (w_db answered) = {[ "t-001" := default executing (d_tasks (w_db answered) !! "t-001") ]}.
Proof. vm_compute. reflexivity. Qed.

Lemma human_answer_reaches_asker_witness :
  ∃ w3 l h, wait_for_answer "executor:a" demo_rounds answered
      = (Ok (Some (Json [("status", JStr "answered"); ("answer", JStr "The first."); ("resumed_state", JStr "executing")])), w3) ∧
    d_tasks (w_db w3) !! "t-001" = Some (with_lease l h executing).
Proof.
  destruct (human_answer_reaches_asker "executor:a" "Which one?" " The first. " (Cfg ["cargo test"] 20 3 1 90) "t-001" Executing
              executing (one executing)) as (m1 & w1 & H1 & _ & H).
  - reflexivity.
  - reflexivity.
  - reflexivity.
  - apply one_executing_wf.
  - apply demo_ready.
  - reflexivity.
  - reflexivity.
  - intros i t Hi _. change (d_tasks (w_db (one executing))) with ({[ "t-001" := executing ]} : gmap string task_row) in Hi.
    by apply lookup_singleton_Some in Hi as [-> _].
  - split; eexists; vm_compute; reflexivity.
  - left.
  - reflexivity.
  - reflexivity.
  - reflexivity.
  - reflexivity.
  - reflexivity.
  - reflexivity.
  - discriminate.
  - assert (w1 = asked) as -> by (unfold asked; by rewrite H1).
    destruct (H asked) as (m2 & w2 & H2 & H3).
    + split; [reflexivity|done].
    + split; [split_and!; [vm_compute; reflexivity|vm_compute; reflexivity|right; eexists; vm_compute; reflexivity]|vm_compute; reflexivity].
    + vm_compute. reflexivity.
    + assert (w2 = answered) as -> by (unfold answered; by rewrite H2).
      destruct (H3 answered demo_rounds) as (w3 & l & h & H4 & H5 & _).
      * split; [reflexivity|done].
      * apply answered_wf.
      * split; [split_and!; [vm_compute; reflexivity|vm_compute; reflexivity|right; eexists; vm_compute; reflexivity]|vm_compute; reflexivity].
      * intros i t Hi _. rewrite tasks_of_answered in Hi. by apply lookup_singleton_Some in Hi as [-> _].
      * split; eexists; vm_compute; reflexivity.
      * discriminate.
      * exists w3, l, h. split; [exact H4|exact H5].
Defined.
